(* ===== verification/_CoqProject ===== *)
-Q . S2P
Prelude.v
Maps.v
Text.v
Core.v
Crypto.v
Pages.v
Keys.v
Wire.v
Superblock.v
Chunk.v
Footer.v
Files.v
PageStream.v
Writer.v
ImageReader.v
ImageSafety.v
Roundtrip.v
Manifest.v
Disk.v
Extras.v
FileManifest.v
Tree.v
EngineKeys.v
CatalogRecords.v
Steps.v
Destination.v
Progress.v
Chain.v
ChainSpec.v
Plan.v
StreamImage.v
EngineCatalog.v
Verifier.v
Observation.v
VerifyImage.v
VerifySpec.v
VerifyFiles.v
VerifyRecord.v
Capture.v
CaptureSpec.v
Retention.v
RetentionSafety.v
RetentionVerified.v
Jobs.v
JobsSpec.v
Extents.v
FsMaps.v
Devices.v
RestoreBlock.v
BackupPlan.v
BlockBackup.v
BackupSafety.v
BackupSpec.v
BackupImage.v
Sysfs.v
Discovery.v
MountPolicy.v
Volume.v
Local.v
Uri.v
LocalSpec.v
LocalConfined.v
Leases.v
Tokens.v
Targets.v
ApplyRestore.v
PrepareApply.v
Exports.v
Nbd.v
Examples.v
Scenarios.v
BlockScenarios.v
BackupScenarios.v
RestoreScenarios.v
Publish.v
Sftp.v
KnownHosts.v
Schedule.v
Snapshots.v
StoreScenarios.v
