(* ===== verification/Prelude.v ===== *)
(** * LinuxReflect: the verification development (root file). *)

From stdpp Require Export base list list_numbers numbers option strings.
From Stdlib Require Export ZArith Lia Bool.
From Stdlib Require Import Init.Byte.

#[global] Open Scope Z_scope.

(** ** The error contract ([crates/lr-core/src/error.rs])

    Messages built with [format!] keep the literal template of the source and
    leave out the interpolated values. *)

(** The part of [std::io::ErrorKind] the modelled code looks at. *)
Inductive io_kind :=
  | NotFound | UnexpectedEof | StorageFull
  | ConnectionReset | ConnectionAborted | BrokenPipe | TimedOut | NotConnected | WouldBlock
  | OtherIo.

Inductive error :=
  | Io (kind : io_kind)
  | BadSector (offset len : Z)
  | NoSpace
  | NetworkTimeout (what : string)
  | SnapshotOverflow
  | FreezeTimeout
  | StreamParentMissing (subvol : string)
  | NoConsistentMethod (options : list string)
  | SetLocked (owner : string)
  | TargetChanged
  | TargetBusy (holder : string)
  | Aead
  | Corrupt (what : string)
  | Cancelled
  | Denied (action reason : string)
  | Unsupported (cap : string).

(** [lr_core::Result]. *)
Inductive result (A : Type) :=
  | Ok (a : A)
  | Err (e : error).
Arguments Ok {A} a.
Arguments Err {A} e.

Definition bind {A B} (m : result A) (k : A -> result B) : result B :=
  match m with
  | Ok a => k a
  | Err e => Err e
  end.

Definition is_ok {A} (m : result A) : bool :=
  match m with Ok _ => true | Err _ => false end.

(** [if cond { return Err(e) }] is written [ensure (negb cond) e]. *)
Definition ensure (b : bool) (e : error) : result unit :=
  if b then Ok tt else Err e.

Declare Scope lr_scope.
Delimit Scope lr_scope with lr.
#[global] Open Scope lr_scope.
Notation "'let*' x := m 'in' k" := (bind m (fun x => k))
  (at level 10, x pattern, m at level 100, k at level 200) : lr_scope.
Notation "m ;;; k" := (bind m (fun _ => k))
  (at level 100, right associativity) : lr_scope.

Lemma bind_Ok {A B} (m : result A) (k : A -> result B) b :
  bind m k = Ok b -> exists a, m = Ok a /\ k a = Ok b.
Proof. destruct m; simpl; eauto; discriminate. Qed.

Lemma bind_assoc {A B C} (m : result A) (k : A -> result B) (h : B -> result C) :
  bind (bind m k) h = bind m (fun a => bind (k a) h).
Proof. by destruct m. Qed.

Lemma bind_ret {A} (m : result A) : bind m Ok = m.
Proof. by destruct m. Qed.

Lemma bind_ext {A B} (m : result A) (k h : A -> result B) :
  (forall a, m = Ok a -> k a = h a) -> bind m k = bind m h.
Proof. destruct m; simpl; auto. Qed.

Lemma ensure_Ok b e u : ensure b e = Ok u -> b = true.
Proof. destruct b; simpl; congruence. Qed.

(** Take a successful computation apart into its steps. *)
Ltac inv_ok :=
  repeat match goal with
  | H : Ok _ = Ok _ |- _ => injection H as H; try subst
  | H : Err _ = Ok _ |- _ => discriminate H
  | H : Ok _ = Err _ |- _ => discriminate H
  | H : ensure _ _ = Ok _ |- _ => apply ensure_Ok in H
  | H : bind _ _ = Ok _ |- _ =>
      let a := fresh "v" in let E := fresh "E" in
      apply bind_Ok in H; destruct H as [a [E H]]; cbv beta in H
  | H : (let '(_, _) := ?p in _) = Ok _ |- _ => destruct p
  end.

(** Split the boolean tests of the code into propositions. *)
Ltac bprop :=
  repeat match goal with
  | H : _ && _ = true |- _ => apply andb_true_iff in H; destruct H
  | H : _ || _ = false |- _ => apply orb_false_iff in H; destruct H
  | H : negb _ = true |- _ => apply negb_true_iff in H
  | H : negb _ = false |- _ => apply negb_false_iff in H
  | H : (_ <? _) = true |- _ => apply Z.ltb_lt in H
  | H : (_ <? _) = false |- _ => apply Z.ltb_ge in H
  | H : (_ <=? _) = true |- _ => apply Z.leb_le in H
  | H : (_ <=? _) = false |- _ => apply Z.leb_gt in H
  | H : (_ =? _) = true |- _ => apply Z.eqb_eq in H
  | H : (_ =? _) = false |- _ => apply Z.eqb_neq in H
  | H : bool_decide _ = true |- _ => apply bool_decide_eq_true in H
  | H : bool_decide _ = false |- _ => apply bool_decide_eq_false in H
  end.

(** ** Bytes *)

Abbreviation byte := Byte.byte.
Abbreviation bytes := (list Byte.byte).

#[export] Instance byte_eq_dec : EqDecision byte.
Proof. intros a b. destruct (Byte.byte_eq_dec a b); [by left | by right]. Defined.

(** [u8 as u64] and the truncating [as u8]. *)
Definition b2z (b : byte) : Z := Z.of_N (Byte.to_N b).
Definition z2b (z : Z) : byte :=
  match Byte.of_N (Z.to_N (z mod 256)) with
  | Some b => b
  | None => Byte.x00
  end.

Lemma b2z_bound b : 0 <= b2z b < 256.
Proof. unfold b2z. pose proof (Byte.to_N_bounded b). lia. Qed.

Lemma z2b_b2z b : z2b (b2z b) = b.
Proof.
  unfold z2b. pose proof (b2z_bound b). rewrite Z.mod_small by lia.
  unfold b2z. rewrite N2Z.id. by rewrite Byte.of_to_N.
Qed.

Lemma b2z_z2b z : b2z (z2b z) = z mod 256.
Proof.
  unfold z2b, b2z.
  pose proof (Z.mod_pos_bound z 256 ltac:(lia)).
  destruct (Byte.of_N (Z.to_N (z mod 256))) eqn:E.
  - apply Byte.to_of_N in E. rewrite E. lia.
  - apply Byte.of_N_None_iff in E. lia.
Qed.

Lemma b2z_inj a b : b2z a = b2z b -> a = b.
Proof. intros H. by rewrite <- (z2b_b2z a), H, z2b_b2z. Qed.

(** ** Lists with [Z] lengths and offsets (Rust slices) *)

Definition zlen {A} (l : list A) : Z := Z.of_nat (length l).
Definition ztake {A} (n : Z) (l : list A) : list A := take (Z.to_nat n) l.
Definition zdrop {A} (n : Z) (l : list A) : list A := drop (Z.to_nat n) l.
(** [&l[off .. off + n]]. *)
Definition sub {A} (off n : Z) (l : list A) : list A := ztake n (zdrop off l).
Definition zrep {A} (n : Z) (x : A) : list A := replicate (Z.to_nat n) x.
(** [l[off .. off + new.len()].copy_from_slice(new)], inside the slice. *)
Definition put_at {A} (off : Z) (new l : list A) : list A :=
  ztake off l ++ new ++ zdrop (off + zlen new) l.

Section lists.
Context {A : Type}.
Implicit Types l k : list A.

Lemma zlen_nonneg l : 0 <= zlen l.
Proof. unfold zlen. lia. Qed.

Lemma zlen_nil : zlen (@nil A) = 0.
Proof. done. Qed.

Lemma zlen_cons x l : zlen (x :: l) = 1 + zlen l.
Proof. unfold zlen. simpl length. lia. Qed.

Lemma zlen_app l k : zlen (l ++ k) = zlen l + zlen k.
Proof. unfold zlen. rewrite length_app. lia. Qed.

Lemma zlen_zrep n (x : A) : zlen (zrep n x) = Z.max 0 n.
Proof. unfold zlen, zrep. rewrite length_replicate. lia. Qed.

Lemma zlen_ztake n l : zlen (ztake n l) = Z.max 0 (Z.min n (zlen l)).
Proof. unfold zlen, ztake. rewrite length_take. lia. Qed.

Lemma zlen_zdrop n l : zlen (zdrop n l) = Z.max 0 (zlen l - Z.max 0 n).
Proof. unfold zlen, zdrop. rewrite length_drop. lia. Qed.

Lemma zlen_sub off n l :
  0 <= off -> 0 <= n -> off + n <= zlen l -> zlen (sub off n l) = n.
Proof.
  intros. unfold sub. rewrite zlen_ztake, zlen_zdrop. lia.
Qed.

Lemma zlen_put_at off new l :
  0 <= off -> off + zlen new <= zlen l -> zlen (put_at off new l) = zlen l.
Proof.
  intros. unfold put_at. rewrite !zlen_app, zlen_ztake, zlen_zdrop.
  pose proof (zlen_nonneg new). lia.
Qed.

Lemma zlen_map {B} (f : A -> B) l : zlen (map f l) = zlen l.
Proof. unfold zlen. by rewrite length_map. Qed.

Lemma zlen_0_nil l : zlen l = 0 -> l = [].
Proof. destruct l; [done|]. rewrite zlen_cons. pose proof (zlen_nonneg l). lia. Qed.

Lemma zlen_pos l : l <> [] -> 0 < zlen l.
Proof. destruct l; [done|]. rewrite zlen_cons. pose proof (zlen_nonneg l). lia. Qed.

Lemma ztake_nonempty n l : 0 < n -> l <> [] -> ztake n l <> [].
Proof.
  intros Hn Hl. unfold ztake. destruct l as [|x l]; [done|].
  by replace (Z.to_nat n) with (S (Z.to_nat (n - 1))) by lia.
Qed.

Lemma ztake_app_exact n l k : n = zlen l -> ztake n (l ++ k) = l.
Proof. intros ->. unfold ztake, zlen. rewrite Nat2Z.id. by apply take_app_length. Qed.

Lemma zdrop_app_exact n l k : n = zlen l -> zdrop n (l ++ k) = k.
Proof. intros ->. unfold zdrop, zlen. rewrite Nat2Z.id. by apply drop_app_length. Qed.

Lemma ztake_all n l : zlen l <= n -> ztake n l = l.
Proof. unfold ztake, zlen. intros. apply take_ge. lia. Qed.

Lemma zdrop_all n l : zlen l <= n -> zdrop n l = [].
Proof. unfold zdrop, zlen. intros. apply drop_ge. lia. Qed.

Lemma ztake_nonpos n l : n <= 0 -> ztake n l = [].
Proof. intros. unfold ztake. by replace (Z.to_nat n) with 0%nat by lia. Qed.

Lemma zdrop_nonpos n l : n <= 0 -> zdrop n l = l.
Proof. intros. unfold zdrop. by replace (Z.to_nat n) with 0%nat by lia. Qed.

Lemma ztake_zdrop n l : ztake n l ++ zdrop n l = l.
Proof. apply take_drop. Qed.

Lemma zdrop_app_ge n l k : zlen l <= n -> zdrop n (l ++ k) = zdrop (n - zlen l) k.
Proof.
  unfold zdrop, zlen. intros. rewrite drop_app_ge by lia. f_equal. lia.
Qed.

Lemma ztake_app_ge n l k : zlen l <= n -> ztake n (l ++ k) = l ++ ztake (n - zlen l) k.
Proof.
  unfold ztake, zlen. intros. rewrite take_app_ge by lia. do 2 f_equal. lia.
Qed.

Lemma ztake_app_le n l k : n <= zlen l -> ztake n (l ++ k) = ztake n l.
Proof. unfold ztake, zlen. intros. apply take_app_le. lia. Qed.

Lemma zdrop_app_le n l k : n <= zlen l -> zdrop n (l ++ k) = zdrop n l ++ k.
Proof. unfold zdrop, zlen. intros. apply drop_app_le. lia. Qed.

Lemma zdrop_zdrop a b l : 0 <= a -> 0 <= b -> zdrop a (zdrop b l) = zdrop (a + b) l.
Proof. intros. unfold zdrop. rewrite drop_drop. f_equal. lia. Qed.

Lemma ztake_ztake a b l : ztake a (ztake b l) = ztake (Z.min a b) l.
Proof. unfold ztake. rewrite take_take. f_equal. lia. Qed.

(** Slices of concatenations: skip a prefix, or hit it exactly. *)
Lemma sub_skip off n l k :
  zlen l <= off -> sub off n (l ++ k) = sub (off - zlen l) n k.
Proof. intros. unfold sub. by rewrite zdrop_app_ge. Qed.

Lemma sub_hit off n l k : off = 0 -> n = zlen l -> sub off n (l ++ k) = l.
Proof. intros -> ->. unfold sub. rewrite zdrop_nonpos by lia. by apply ztake_app_exact. Qed.

Lemma sub_all off n l : off = 0 -> n = zlen l -> sub off n l = l.
Proof. intros -> ->. unfold sub. rewrite zdrop_nonpos by lia. by apply ztake_all. Qed.

Lemma sub_0 n l : sub 0 n l = ztake n l.
Proof. unfold sub. by rewrite zdrop_nonpos. Qed.

Lemma sub_inside off n l k :
  0 <= off -> 0 <= n -> off + n <= zlen l -> sub off n (l ++ k) = sub off n l.
Proof.
  intros. unfold sub. rewrite zdrop_app_le by lia.
  rewrite ztake_app_le; [done|]. rewrite zlen_zdrop. lia.
Qed.

Lemma sub_ztake off n m l :
  0 <= off -> 0 <= n -> off + n <= m -> sub off n (ztake m l) = sub off n l.
Proof.
  intros. unfold sub, ztake, zdrop. rewrite skipn_firstn_comm, take_take. f_equal. lia.
Qed.

Lemma sub_split off n m l :
  0 <= off -> 0 <= n -> 0 <= m ->
  sub off (n + m) l = sub off n l ++ sub (off + n) m l.
Proof.
  intros. unfold sub. rewrite (Z.add_comm off n), <- (zdrop_zdrop n off) by lia.
  unfold ztake, zdrop. rewrite Z2Nat.inj_add by lia.
  by rewrite take_take_drop.
Qed.

(** A write at the end of what is filled so far of a zeroed buffer. *)
Lemma put_at_fill off new l (x : A) n :
  off = zlen l -> zlen new <= n ->
  put_at off new (l ++ zrep n x) = (l ++ new) ++ zrep (n - zlen new) x.
Proof.
  intros -> ?. unfold put_at. pose proof (zlen_nonneg new). pose proof (zlen_nonneg l).
  rewrite ztake_app_exact by done.
  rewrite zdrop_app_ge by lia. rewrite <- app_assoc. do 2 f_equal.
  unfold zdrop, zrep. rewrite drop_replicate. f_equal. lia.
Qed.

Lemma put_at_hit off new old l k :
  off = zlen l -> zlen new = zlen old ->
  put_at off new (l ++ old ++ k) = l ++ new ++ k.
Proof.
  intros -> Hn. unfold put_at. rewrite ztake_app_exact by done.
  rewrite (app_assoc l old k), zdrop_app_exact by (rewrite zlen_app; lia). done.
Qed.
End lists.

(** [slice::chunks(n)]: pieces of [n] elements, the last one possibly shorter.
    The fuel is the length of the list: every piece takes at least one. *)
Fixpoint zchunks_fuel {A} (fuel : nat) (n : Z) (l : list A) : list (list A) :=
  match fuel, l with
  | S fuel, _ :: _ => ztake n l :: zchunks_fuel fuel n (zdrop n l)
  | _, _ => []
  end.

Definition zchunks {A} (n : Z) (l : list A) : list (list A) := zchunks_fuel (length l) n l.

Section chunks.
Context {A : Type}.
Implicit Types l : list A.

Lemma zchunks_fuel_enough f1 f2 n l :
  0 < n -> (length l <= f1)%nat -> (length l <= f2)%nat ->
  zchunks_fuel f1 n l = zchunks_fuel f2 n l.
Proof.
  intros Hn. revert f2 l. induction f1 as [|f1 IH]; intros f2 l H1 H2.
  - destruct l; [|simpl in H1; lia]. by destruct f2.
  - destruct l as [|x l]; [by destruct f2|]. destruct f2 as [|f2]; [simpl in H2; lia|].
    cbn [zchunks_fuel]. f_equal. apply IH; unfold zdrop; rewrite length_drop; simpl in *; lia.
Qed.

Lemma zchunks_nil n : zchunks n (@nil A) = [].
Proof. done. Qed.

Lemma zchunks_step n l :
  0 < n -> l <> [] -> zchunks n l = ztake n l :: zchunks n (zdrop n l).
Proof.
  intros Hn Hl. destruct l as [|x l]; [done|]. unfold zchunks at 1. cbn [length zchunks_fuel].
  f_equal. apply zchunks_fuel_enough; [done| |done].
  unfold zdrop. rewrite length_drop. simpl. lia.
Qed.

Lemma zchunks_short n l : l <> [] -> zlen l <= n -> zchunks n l = [l].
Proof.
  intros Hl Hn. assert (0 < n).
  { destruct l; [done|]. rewrite zlen_cons in Hn. pose proof (zlen_nonneg l). lia. }
  rewrite zchunks_step, ztake_all, zdrop_all by done. done.
Qed.

Lemma zchunks_ind (P : list A -> Prop) n :
  0 < n -> P [] -> (forall l, l <> [] -> P (zdrop n l) -> P l) -> forall l, P l.
Proof.
  intros Hn H0 HS l. remember (length l) as k eqn:Hk. revert l Hk.
  induction k as [k IH] using lt_wf_ind. intros [|x l] ->; [done|].
  apply HS; [done|]. eapply IH; [|done]. unfold zdrop. rewrite length_drop. simpl. lia.
Qed.

Lemma concat_zchunks n l : 0 < n -> concat (zchunks n l) = l.
Proof.
  intros Hn. revert l. apply (zchunks_ind _ n Hn); [done|]. intros l Hl IH.
  rewrite zchunks_step by done. cbn [concat]. rewrite IH. apply ztake_zdrop.
Qed.

Lemma zchunks_pieces n l p : 0 < n -> In p (zchunks n l) -> p <> [] /\ 0 < zlen p <= n.
Proof.
  intros Hn. revert l.
  apply (zchunks_ind (fun l => In p (zchunks n l) -> p <> [] /\ 0 < zlen p <= n) n Hn); [done|].
  intros l Hl IH. rewrite zchunks_step by done. intros [<-|?]; [|auto].
  apply zlen_pos in Hl as Hp. split; [by apply ztake_nonempty|]. rewrite zlen_ztake. lia.
Qed.
(** Fixed-size records come apart again. *)
Lemma zchunks_concat n (ll : list (list A)) :
  0 < n -> Forall (fun l => zlen l = n) ll -> zchunks n (concat ll) = ll.
Proof.
  intros Hn Hl. induction Hl as [|l ll Hl _ IH]; [done|]. cbn [concat].
  rewrite zchunks_step; [|done|].
  - by rewrite ztake_app_exact, zdrop_app_exact, IH.
  - intros HE. apply (f_equal zlen) in HE. rewrite zlen_app in HE.
    pose proof (zlen_nonneg (concat ll)). change (zlen []) with 0 in HE. lia.
Qed.

Lemma zlen_concat_const n (ll : list (list A)) :
  Forall (fun l => zlen l = n) ll -> zlen (concat ll) = n * zlen ll.
Proof.
  induction 1 as [|l ll Hl _ IH]; [unfold zlen; cbn; lia|]. cbn [concat].
  rewrite zlen_app, zlen_cons. lia.
Qed.

Lemma zchunks_exact n l :
  0 < n -> zlen l mod n = 0 -> Forall (fun p => zlen p = n) (zchunks n l).
Proof.
  intros Hn. revert l.
  apply (zchunks_ind (fun l => zlen l mod n = 0 -> Forall (fun p => zlen p = n) (zchunks n l)) n Hn);
    [intros; constructor|].
  intros l Hl IH Hm. rewrite zchunks_step by done. apply zlen_pos in Hl.
  assert (n <= zlen l)
    by (destruct (Z.lt_ge_cases (zlen l) n); [rewrite Z.mod_small in Hm; lia|done]).
  constructor; [rewrite zlen_ztake; lia|]. apply IH. rewrite zlen_zdrop.
  replace (Z.max 0 _) with (zlen l + (-1) * n) by lia. by rewrite Z.mod_add by lia.
Qed.
End chunks.

(** [iter().map(f).collect::<Result<Vec<_>>>()]. *)
Fixpoint collectM {A B} (f : A -> result B) (l : list A) : result (list B) :=
  match l with
  | [] => Ok []
  | x :: l => let* y := f x in let* ys := collectM f l in Ok (y :: ys)
  end.

Lemma collectM_Forall2 {A B} (f : A -> result B) l ys :
  collectM f l = Ok ys <-> Forall2 (fun x y => f x = Ok y) l ys.
Proof.
  revert ys. induction l as [|x l IH]; intros ys; cbn [collectM].
  - split; [by intros [= <-]|]. by inversion 1.
  - split.
    + intros He. inv_ok. constructor; [done|]. by apply IH.
    + inversion 1 as [|? y ? ys' Hy Hys]; subst. rewrite Hy. cbn [bind].
      apply IH in Hys. by rewrite Hys.
Qed.

Lemma collectM_map {A B} (f : A -> result B) (g : B -> A) ys :
  Forall (fun y => f (g y) = Ok y) ys -> collectM f (map g ys) = Ok ys.
Proof. intros Hy. apply collectM_Forall2. induction Hy; constructor; auto. Qed.

(** Filters, and lists that grow at the end. *)
Section filters.
Context {A : Type} (P : A -> Prop) `{!forall x, Decision (P x)}.

Lemma Forall_filter_keep (Q : A -> Prop) l : Forall Q l -> Forall Q (filter P l).
Proof. rewrite !Forall_forall. intros Hl x [_ Hx]%list_elem_of_filter. auto. Qed.

Lemma filter_all l : Forall P l -> filter P l = l.
Proof.
  induction 1 as [|x l Hx _ IH]; [done|]. rewrite filter_cons, decide_True by done. by rewrite IH.
Qed.

Lemma filter_none l : Forall (fun x => ~ P x) l -> filter P l = [].
Proof.
  induction 1 as [|x l Hx _ IH]; [done|]. rewrite filter_cons, decide_False by done. done.
Qed.
End filters.

Lemma zlen_snoc {A} (l : list A) x : zlen (l ++ [x]) = zlen l + 1.
Proof. by rewrite zlen_app. Qed.

Lemma seqZ_snoc n : 0 <= n -> seqZ 0 (n + 1) = seqZ 0 n ++ [n].
Proof. intros. rewrite seqZ_app by lia. done. Qed.

(** [slice::sort_by] with a total preorder: a stable sort. *)
Section sort_by.
Context {A : Type} (leb : A -> A -> bool).

Fixpoint insert_by (x : A) (l : list A) : list A :=
  match l with
  | [] => [x]
  | y :: l => if leb x y then x :: y :: l else y :: insert_by x l
  end.

Definition sort_by (l : list A) : list A := foldr insert_by [] l.

Fixpoint sorted_by (l : list A) : Prop :=
  match l with
  | [] => True
  | x :: l => Forall (fun y => leb x y = true) l /\ sorted_by l
  end.

Lemma insert_by_perm x l : insert_by x l ≡ₚ x :: l.
Proof.
  induction l as [|y l IH]; cbn [insert_by]; [done|]. case_match; [done|].
  rewrite IH. apply Permutation_swap.
Qed.

Lemma sort_by_perm l : sort_by l ≡ₚ l.
Proof. induction l as [|x l IH]; [done|]. cbn. rewrite insert_by_perm. by f_equiv. Qed.

Context (leb_total : forall x y, leb x y = true \/ leb y x = true).
Context (leb_trans : forall x y z, leb x y = true -> leb y z = true -> leb x z = true).

Lemma insert_by_sorted x l : sorted_by l -> sorted_by (insert_by x l).
Proof.
  induction l as [|y l IH]; cbn [insert_by sorted_by]; [by repeat constructor|].
  intros [Hy Hl]. case_match eqn:E; cbn [sorted_by].
  - split_and!; [|done..]. constructor; [done|]. eapply Forall_impl; [done|]. eauto.
  - split; [|by apply IH]. rewrite insert_by_perm. constructor; [|done].
    destruct (leb_total x y); congruence.
Qed.

Lemma sort_by_sorted l : sorted_by (sort_by l).
Proof. induction l as [|x l IH]; [done|]. by apply insert_by_sorted. Qed.
End sort_by.

(** [slice::sort_by_key] with an integer key. *)
Section sorting.
Context {A : Type} (key : A -> Z).

Definition key_leb (x y : A) : bool := key x <=? key y.
Definition sort_by_key (l : list A) : list A := sort_by key_leb l.

Fixpoint sorted_by_key (l : list A) : Prop :=
  match l with
  | [] => True
  | x :: l => Forall (fun y => key x <= key y) l /\ sorted_by_key l
  end.

Lemma sorted_by_key_leb l : sorted_by key_leb l <-> sorted_by_key l.
Proof.
  induction l as [|x l IH]; [done|]. cbn. rewrite IH. f_equiv.
  apply Forall_iff. intros y. apply Z.leb_le.
Qed.

Lemma sort_by_key_perm l : sort_by_key l ≡ₚ l.
Proof. apply sort_by_perm. Qed.

Lemma sort_by_key_sorted l : sorted_by_key (sort_by_key l).
Proof.
  apply sorted_by_key_leb, sort_by_sorted; unfold key_leb.
  - intros x y. rewrite !Z.leb_le. lia.
  - intros x y z. rewrite !Z.leb_le. lia.
Qed.

Lemma sorted_filter (P : A -> Prop) `{!forall x, Decision (P x)} l :
  sorted_by_key l -> sorted_by_key (filter P l).
Proof.
  induction l as [|x l IH]; [done|]. cbn [sorted_by_key]. intros [Hx Hl].
  rewrite filter_cons. case_decide; [|by apply IH]. split; [|by apply IH].
  by apply Forall_filter_keep.
Qed.

Lemma sort_by_key_id l : sorted_by_key l -> sort_by_key l = l.
Proof.
  induction l as [|x l IH]; [done|]. cbn [sorted_by_key]. intros [Hx Hl].
  unfold sort_by_key, sort_by in *. cbn [foldr].
  rewrite IH by done. destruct l as [|y l]; [done|].
  inversion Hx; subst. cbn [insert_by]. unfold key_leb. by rewrite (proj2 (Z.leb_le _ _)).
Qed.
End sorting.

(** [Iterator::max_by_key]: the last of the greatest elements. *)
Section max_by_key.
Context {A : Type} (key : A -> Z).

Definition max_by_key (l : list A) : option A :=
  fold_left (fun best x =>
    match best with
    | Some b => if key x <? key b then Some b else Some x
    | None => Some x
    end) l None.

Lemma max_by_key_snoc l x :
  max_by_key (l ++ [x]) =
  match max_by_key l with
  | Some b => if key x <? key b then Some b else Some x
  | None => Some x
  end.
Proof. unfold max_by_key. by rewrite fold_left_app. Qed.

Lemma max_by_key_spec l :
  match max_by_key l with
  | Some b => In b l /\ Forall (fun x => key x <= key b) l
  | None => l = []
  end.
Proof.
  induction l as [|x l IH] using rev_ind; [done|]. rewrite max_by_key_snoc.
  destruct (max_by_key l) as [b|].
  - destruct IH as [Hb Hl]. destruct (Z.ltb_spec (key x) (key b)).
    + split; [apply in_or_app; by left|]. apply Forall_app. split; [done|]. constructor; [lia|constructor].
    + split; [apply in_or_app; right; by left|]. apply Forall_app. split; [|by repeat constructor].
      eapply Forall_impl; [exact Hl|]. simpl. lia.
  - subst. split; [by left|]. by repeat constructor.
Qed.
End max_by_key.

(** The lexicographic order of byte arrays ([Ord] on [[u8; N]] and [String]). *)
Fixpoint bytes_cmp (a b : bytes) : comparison :=
  match a, b with
  | [], [] => Eq
  | [], _ :: _ => Lt
  | _ :: _, [] => Gt
  | x :: a, y :: b =>
    match b2z x ?= b2z y with
    | Eq => bytes_cmp a b
    | c => c
    end
  end.

Lemma bytes_cmp_eq a b : bytes_cmp a b = Eq <-> a = b.
Proof.
  revert b. induction a as [|x a IH]; intros [|y b]; cbn; try done.
  destruct (Z.compare_spec (b2z x) (b2z y)) as [He|Hl|Hg].
  - apply b2z_inj in He as ->. rewrite IH. split; [by intros ->|by intros [= ->]].
  - split; [done|]. intros [= -> ->]. lia.
  - split; [done|]. intros [= -> ->]. lia.
Qed.

Lemma bytes_cmp_antisym a b : bytes_cmp b a = CompOpp (bytes_cmp a b).
Proof.
  revert b. induction a as [|x a IH]; intros [|y b]; cbn; try done.
  rewrite (Z.compare_antisym (b2z x)). destruct (b2z x ?= b2z y); cbn; auto.
Qed.

Lemma bytes_cmp_trans a b c : bytes_cmp a b <> Gt -> bytes_cmp b c <> Gt -> bytes_cmp a c <> Gt.
Proof.
  revert b c. induction a as [|x a IH]; intros [|y b] [|z c]; cbn; try done.
  destruct (Z.compare_spec (b2z x) (b2z y)), (Z.compare_spec (b2z y) (b2z z)),
    (Z.compare_spec (b2z x) (b2z z)); try done; try lia. apply IH.
Qed.

Create Rewrite HintDb zlen.
#[export] Hint Rewrite @zlen_nil @zlen_cons @zlen_app @zlen_zrep @zlen_ztake @zlen_zdrop
  @zlen_map : zlen.

(** Arithmetic on lengths. *)
Ltac len := autorewrite with zlen in *; try lia.

(** ** Little- and big-endian integers ([to_le_bytes], [from_le_bytes]) *)

Fixpoint le_bytes (n : nat) (z : Z) : bytes :=
  match n with
  | O => []
  | S n => z2b z :: le_bytes n (z / 256)
  end.

Fixpoint le_val (l : bytes) : Z :=
  match l with
  | [] => 0
  | b :: l => b2z b + 256 * le_val l
  end.

Lemma length_le_bytes n z : length (le_bytes n z) = n.
Proof. revert z. induction n; simpl; auto. Qed.

Lemma zlen_le_bytes n z : zlen (le_bytes n z) = Z.of_nat n.
Proof. unfold zlen. by rewrite length_le_bytes. Qed.
#[export] Hint Rewrite zlen_le_bytes : zlen.

Lemma le_val_bytes n z : le_val (le_bytes n z) = z mod 256 ^ Z.of_nat n.
Proof.
  revert z. induction n as [|n IH]; intros z.
  - simpl. by rewrite Z.mod_1_r.
  - rewrite Nat2Z.inj_succ, Z.pow_succ_r by lia.
    cbn [le_bytes le_val]. rewrite IH, b2z_z2b.
    rewrite Z.rem_mul_r by lia. lia.
Qed.

Lemma le_val_bytes_small n z : 0 <= z < 256 ^ Z.of_nat n -> le_val (le_bytes n z) = z.
Proof. intros. rewrite le_val_bytes. by apply Z.mod_small. Qed.

Lemma le_val_bound l : 0 <= le_val l < 256 ^ zlen l.
Proof.
  induction l as [|b l IH]; [done|].
  rewrite zlen_cons, Z.pow_add_r by (pose proof (zlen_nonneg l); lia).
  cbn [le_val]. pose proof (b2z_bound b). lia.
Qed.

Lemma le_bytes_val l n : length l = n -> le_bytes n (le_val l) = l.
Proof.
  intros <-. induction l as [|b l IH]; [done|]. cbn [length le_bytes le_val].
  pose proof (b2z_bound b). f_equal.
  - apply b2z_inj. rewrite b2z_z2b, (Z.mul_comm 256), Z.mod_add by lia.
    by apply Z.mod_small.
  - rewrite Z.add_comm, Z.mul_comm, Z.div_add_l by lia.
    rewrite (Z.div_small (b2z b)) by lia. by rewrite Z.add_0_r.
Qed.

Lemma le_bytes_val_z l n : zlen l = Z.of_nat n -> le_bytes n (le_val l) = l.
Proof. unfold zlen. intros. apply le_bytes_val. lia. Qed.

Lemma le_bytes_inj n a b :
  0 <= a < 256 ^ Z.of_nat n -> 0 <= b < 256 ^ Z.of_nat n ->
  le_bytes n a = le_bytes n b -> a = b.
Proof. intros Ha Hb H. by rewrite <- (le_val_bytes_small n a), H, le_val_bytes_small. Qed.

Lemma le_bytes_S n z : le_bytes (S n) z = z2b z :: le_bytes n (z / 256).
Proof. done. Qed.

#[global] Arguments le_bytes : simpl never.
#[global] Arguments le_val : simpl never.

(** Unsigned machine integers. *)
Definition u8_ok (z : Z) : Prop := 0 <= z < 2 ^ 8.
Definition u16_ok (z : Z) : Prop := 0 <= z < 2 ^ 16.
Definition u32_ok (z : Z) : Prop := 0 <= z < 2 ^ 32.
Definition u64_ok (z : Z) : Prop := 0 <= z < 2 ^ 64.
Definition i64_ok (z : Z) : Prop := - 2 ^ 63 <= z < 2 ^ 63.

Definition U64_MAX : Z := 2 ^ 64 - 1.
Definition U32_MAX : Z := 2 ^ 32 - 1.

(** [checked_add], [checked_mul] and the wrapping product on [u64]. *)
Definition checked_add (a b : Z) : option Z :=
  if a + b <=? U64_MAX then Some (a + b) else None.
Definition checked_mul (a b : Z) : option Z :=
  if a * b <=? U64_MAX then Some (a * b) else None.
Definition wrapping_mul (a b : Z) : Z := (a * b) mod 2 ^ 64.

(** [Option::ok_or]. *)
Definition ok_or {A} (o : option A) (e : error) : result A :=
  match o with Some a => Ok a | None => Err e end.

Lemma ok_or_Ok {A} (o : option A) e a : ok_or o e = Ok a -> o = Some a.
Proof. destruct o; simpl; congruence. Qed.

Lemma checked_add_Some a b c : checked_add a b = Some c -> c = a + b /\ a + b < 2 ^ 64.
Proof. unfold checked_add, U64_MAX. case_match; bprop; intros; simplify_eq. lia. Qed.

Lemma checked_mul_Some a b c : checked_mul a b = Some c -> c = a * b /\ a * b < 2 ^ 64.
Proof. unfold checked_mul, U64_MAX. case_match; bprop; intros; simplify_eq. lia. Qed.

(** [i64::to_le_bytes] is the two's complement of the same width. *)
Definition i64_of_u64 (z : Z) : Z := if z <? 2 ^ 63 then z else z - 2 ^ 64.

Lemma i64_of_u64_mod z : i64_ok z -> i64_of_u64 (z mod 2 ^ 64) = z.
Proof.
  unfold i64_ok, i64_of_u64. intros H.
  destruct (Z.ltb_spec (z mod 2 ^ 64) (2 ^ 63)) as [Hl|Hl].
  - destruct (Z_lt_le_dec z 0) as [Hn|Hn]; [|by rewrite Z.mod_small by lia].
    rewrite <- (Z.mod_add z 1) in Hl by lia. rewrite Z.mod_small in Hl by lia. lia.
  - destruct (Z_lt_le_dec z 0) as [Hn|Hn]; [|rewrite Z.mod_small in Hl; lia].
    rewrite <- (Z.mod_add z 1) by lia. rewrite Z.mod_small by lia. lia.
Qed.

(** [u32::is_power_of_two]. *)
Definition is_power_of_two (v : Z) : bool := (0 <? v) && (Z.land v (v - 1) =? 0).

(** Ranges of unsigned integers, by their bits. *)
Lemma bits_range n z :
  0 <= n -> (forall i, n <= i -> Z.testbit z i = false) -> 0 <= z < 2 ^ n.
Proof.
  intros Hn Hz. replace z with (z mod 2 ^ n); [apply Z.mod_pos_bound; lia|].
  apply Z.bits_inj'. intros i Hi. destruct (Z.lt_ge_cases i n).
  - by rewrite Z.mod_pow2_bits_low.
  - rewrite Z.mod_pow2_bits_high by lia. by rewrite Hz.
Qed.

Lemma range_bits n z i : 0 <= z < 2 ^ n -> n <= i -> Z.testbit z i = false.
Proof.
  intros Hz Hi. destruct (Z.lt_ge_cases n 0); [rewrite Z.pow_neg_r in Hz; lia|].
  rewrite <- (Z.mod_small z (2 ^ n)) by done. by rewrite Z.mod_pow2_bits_high by lia.
Qed.

(** A field shifted over a field of [n] bits. *)
Lemma lor_shiftl a b n :
  0 <= n -> 0 <= a < 2 ^ n -> 0 <= b -> Z.lor a (Z.shiftl b n) = a + 2 ^ n * b.
Proof.
  intros Hn Ha Hb. rewrite <- Z.add_nocarry_lor.
  - rewrite Z.shiftl_mul_pow2 by done. lia.
  - apply Z.bits_inj'. intros i Hi. rewrite Z.land_spec, Z.bits_0.
    destruct (Z.lt_ge_cases i n).
    + rewrite Z.shiftl_spec_low by done. apply andb_false_r.
    + by rewrite (range_bits n a i Ha).
Qed.

Lemma testbit_log2_range v k : 0 <= k -> 2 ^ k <= v < 2 ^ (k + 1) -> Z.testbit v k = true.
Proof.
  intros Hk Hv. rewrite <- (Z.log2_unique v k) by (rewrite ?Z.add_1_r in *; lia).
  apply Z.bit_log2. pose proof (Z.pow_pos_nonneg 2 k). lia.
Qed.

Lemma is_power_of_two_spec v : is_power_of_two v = true <-> exists k, 0 <= k /\ v = 2 ^ k.
Proof.
  unfold is_power_of_two. split.
  - intros [Hp Hl]%andb_true_iff. bprop. exists (Z.log2 v).
    pose proof (Z.log2_nonneg v) as Hk. split; [done|].
    destruct (Z.log2_spec v Hp) as [Hlo Hhi].
    destruct (Z_le_lt_eq_dec _ _ Hlo) as [Hlt|]; [|done]. exfalso.
    assert (Z.testbit (Z.land v (v - 1)) (Z.log2 v) = true) as HB.
    { rewrite Z.land_spec, !testbit_log2_range; [done|lia| |lia|]; rewrite Z.add_1_r; lia. }
    rewrite Hl in HB. by rewrite Z.bits_0 in HB.
  - intros (k & Hk & ->). pose proof (Z.pow_pos_nonneg 2 k ltac:(lia) Hk).
    rewrite (proj2 (Z.ltb_lt _ _)) by done. cbn [andb]. apply Z.eqb_eq.
    replace (2 ^ k - 1) with (Z.ones k) by (rewrite Z.ones_equiv; lia).
    rewrite Z.land_ones by done. apply Z.mod_same. lia.
Qed.

(** [u64::div_ceil]. *)
Definition div_ceil (a b : Z) : Z := a / b + (if a mod b =? 0 then 0 else 1).

Lemma div_ceil_spec a b :
  0 <= a -> 0 < b -> div_ceil a b * b - b < a <= div_ceil a b * b.
Proof.
  intros. unfold div_ceil. pose proof (Z.div_mod a b ltac:(lia)).
  pose proof (Z.mod_pos_bound a b ltac:(lia)).
  case_match; bprop; nia.
Qed.

(** Is [z] a numeral? *)
Ltac is_numeral z :=
  lazymatch z with
  | Z0 => true | Zpos ?p => is_numeral p | Zneg ?p => is_numeral p
  | xH => true | xO ?p => is_numeral p | xI ?p => is_numeral p
  | _ => false
  end.

(** Glue adjacent slices at constant offsets back together. *)
Ltac merge_subs :=
  repeat match goal with
  | |- context [sub ?o ?n ?b ++ sub ?o2 ?m ?b] =>
    let t := lazymatch is_numeral n with
             | true => lazymatch is_numeral m with
                       | true => eval vm_compute in (n + m)
                       | false => constr:(n + m)
                       end
             | false => constr:(n + m)
             end in
    let H := fresh in
    assert (sub o n b ++ sub o2 m b = sub o t b) as H
      by (symmetry; apply (sub_split o n m b); lia);
    rewrite H; clear H
  end.

(** ** Fixed layouts

    A header that is filled by [copy_from_slice] at constant offsets is the
    list of its fields, written in order into a zeroed buffer. *)
Definition write_fields (fs : list (Z * bytes)) (buf : bytes) : bytes :=
  fold_left (fun b '(off, v) => put_at off v b) fs buf.

Definition fields_bytes (fs : list (Z * bytes)) : bytes := concat (map snd fs).

(** The fields lie one after the other, from offset [o]. *)
Fixpoint contiguous (o : Z) (fs : list (Z * bytes)) : Prop :=
  match fs with
  | [] => True
  | (off, v) :: fs => off = o /\ contiguous (o + zlen v) fs
  end.

Lemma write_fields_contiguous fs pre n :
  contiguous (zlen pre) fs -> zlen (fields_bytes fs) <= n ->
  write_fields fs (pre ++ zrep n Byte.x00) =
  pre ++ fields_bytes fs ++ zrep (n - zlen (fields_bytes fs)) Byte.x00.
Proof.
  revert pre n. induction fs as [|[off v] fs IH]; intros pre n Hc Hn.
  - cbn. by rewrite Z.sub_0_r.
  - destruct Hc as [-> Hc]. unfold fields_bytes in Hn. cbn [map concat snd] in Hn.
    rewrite zlen_app in Hn. fold (fields_bytes fs) in Hn.
    pose proof (zlen_nonneg v). pose proof (zlen_nonneg (fields_bytes fs)).
    cbn [write_fields fold_left]. rewrite put_at_fill by (done || lia).
    fold (write_fields fs). rewrite IH.
    + unfold fields_bytes at 3 4. cbn [map concat snd]. fold (fields_bytes fs).
      rewrite zlen_app, <- !app_assoc. do 4 f_equal. lia.
    + by rewrite zlen_app.
    + lia.
Qed.

Lemma contiguous_sub fs pre rest off v n :
  contiguous (zlen pre) fs -> In (off, v) fs -> n = zlen v ->
  sub off n (pre ++ fields_bytes fs ++ rest) = v.
Proof.
  revert pre. induction fs as [|[o w] fs IH]; intros pre Hc Hin Hn; [done|].
  destruct Hc as [-> Hc]. unfold fields_bytes. cbn [map concat snd]. fold (fields_bytes fs).
  rewrite <- app_assoc. destruct Hin as [[= <- <-]|Hin].
  - rewrite sub_skip by lia. apply sub_hit; lia.
  - rewrite (app_assoc pre). apply IH; [|done..]. by rewrite zlen_app.
Qed.

Lemma contiguous_app o fs gs :
  contiguous o fs -> contiguous (o + zlen (fields_bytes fs)) gs -> contiguous o (fs ++ gs).
Proof.
  revert o. induction fs as [|[off v] fs IH]; intros o Hf Hg; cbn [app].
  - unfold fields_bytes in Hg. cbn in Hg. by rewrite Z.add_0_r in Hg.
  - destruct Hf as [-> Hf]. split; [done|]. apply IH; [done|].
    unfold fields_bytes in Hg. cbn [map concat snd] in Hg. rewrite zlen_app in Hg.
    by rewrite Z.add_assoc in Hg.
Qed.

(** ** UTF-8 ([String::from_utf8]) *)

Definition utf8_cont (b : byte) : bool := (128 <=? b2z b) && (b2z b <=? 191).
Definition in_range (lo hi : Z) (b : byte) : bool := (lo <=? b2z b) && (b2z b <=? hi).

(** Well-formed byte sequences (Unicode table 3-7), as [core::str] accepts. *)
Fixpoint utf8_valid (l : bytes) : bool :=
  match l with
  | [] => true
  | a :: l1 =>
    if b2z a <=? 127 then utf8_valid l1
    else match l1 with
    | [] => false
    | b :: l2 =>
      if in_range 194 223 a then utf8_cont b && utf8_valid l2
      else match l2 with
      | [] => false
      | c :: l3 =>
        if b2z a =? 224 then in_range 160 191 b && utf8_cont c && utf8_valid l3
        else if in_range 225 236 a || in_range 238 239 a then
          utf8_cont b && utf8_cont c && utf8_valid l3
        else if b2z a =? 237 then in_range 128 159 b && utf8_cont c && utf8_valid l3
        else match l3 with
        | [] => false
        | d :: l4 =>
          if b2z a =? 240 then in_range 144 191 b && utf8_cont c && utf8_cont d && utf8_valid l4
          else if in_range 241 243 a then
            utf8_cont b && utf8_cont c && utf8_cont d && utf8_valid l4
          else if b2z a =? 244 then
            in_range 128 143 b && utf8_cont c && utf8_cont d && utf8_valid l4
          else false
        end
      end
    end
  end.

Definition ascii_bytes (l : bytes) : bool := forallb (fun b => b2z b <=? 127) l.

Lemma utf8_ascii l : ascii_bytes l = true -> utf8_valid l = true.
Proof.
  induction l as [|a l IH]; [done|]. cbn [ascii_bytes forallb utf8_valid].
  intros [H1 H2]%andb_true_iff. by rewrite H1, IH.
Qed.
