(* ===== verification/Maps.v ===== *)
(** * Ordered maps ([std::collections::BTreeMap] with byte-string keys)

    The entries in key order: iterating over the map is iterating over the
    list. *)

From stdpp Require Import countable.
From S2P Require Import Prelude.

#[export] Instance byte_countable : Countable byte :=
  inj_countable Byte.to_N Byte.of_N Byte.of_to_N.

Module BMap.
Section ops.
Context {V : Type}.

Fixpoint insert (k : bytes) (v : V) (m : list (bytes * V)) : list (bytes * V) :=
  match m with
  | [] => [(k, v)]
  | (k', v') :: rest =>
    match bytes_cmp k k' with
    | Eq => (k, v) :: rest
    | Lt => (k, v) :: (k', v') :: rest
    | Gt => (k', v') :: insert k v rest
    end
  end.

Fixpoint get (k : bytes) (m : list (bytes * V)) : option V :=
  match m with
  | [] => None
  | (k', v') :: rest => if bool_decide (k = k') then Some v' else get k rest
  end.

Fixpoint remove (k : bytes) (m : list (bytes * V)) : list (bytes * V) :=
  match m with
  | [] => []
  | (k', v') :: rest => if bool_decide (k = k') then rest else (k', v') :: remove k rest
  end.

(** [collect]: a later pair with the same key replaces the earlier one. *)
Definition collect (l : list (bytes * V)) : list (bytes * V) :=
  fold_left (fun m '(k, v) => insert k v m) l [].

Definition keys (m : list (bytes * V)) : list bytes := map fst m.

Fixpoint ordered (m : list (bytes * V)) : Prop :=
  match m with
  | [] => True
  | (k, _) :: rest => Forall (fun e : bytes * V => bytes_cmp k (fst e) = Lt) rest /\ ordered rest
  end.

Lemma cmp_refl k : bytes_cmp k k = Eq.
Proof. by apply bytes_cmp_eq. Qed.

Lemma cmp_lt_trans a b c : bytes_cmp a b = Lt -> bytes_cmp b c = Lt -> bytes_cmp a c = Lt.
Proof.
  intros Hab Hbc. destruct (bytes_cmp a c) eqn:E; [|done|].
  - apply bytes_cmp_eq in E as ->. rewrite bytes_cmp_antisym, Hbc in Hab. done.
  - exfalso. apply (bytes_cmp_trans a b c); [by rewrite Hab|by rewrite Hbc|done].
Qed.

Lemma get_insert k v m k' :
  ordered m -> get k' (insert k v m) = if bool_decide (k' = k) then Some v else get k' m.
Proof.
  induction m as [|[k0 v0] m IH]; intros Ho; [done|]. destruct Ho as [Hk Ho].
  cbn [insert]. destruct (bytes_cmp k k0) eqn:E; cbn [get].
  - apply bytes_cmp_eq in E as ->. by destruct (bool_decide (k' = k0)).
  - done.
  - rewrite IH by done. destruct (decide (k' = k0)) as [->|]; [|by rewrite !bool_decide_eq_false_2 by done].
    rewrite bool_decide_eq_true_2 by done. rewrite bool_decide_eq_false_2; [done|].
    intros ->. by rewrite cmp_refl in E.
Qed.

Lemma insert_ordered k v m : ordered m -> ordered (insert k v m).
Proof.
  induction m as [|[k0 v0] m IH]; intros Ho; [by split|]. pose proof Ho as [Hk Ho'].
  cbn [insert]. destruct (bytes_cmp k k0) eqn:E; cbn [ordered].
  - apply bytes_cmp_eq in E as ->. done.
  - split; [|done]. constructor; [done|]. eapply Forall_impl; [exact Hk|].
    intros e He. by apply cmp_lt_trans with k0.
  - split; [|by apply IH]. assert (bytes_cmp k0 k = Lt) as Hlt by by rewrite bytes_cmp_antisym, E.
    clear IH Ho. induction m as [|[k1 v1] m IHm]; [by repeat constructor|].
    inversion Hk; subst. destruct Ho' as [_ Ho']. cbn [insert].
    destruct (bytes_cmp k k1); repeat constructor; try done. by apply IHm.
Qed.

Lemma remove_ordered k m : ordered m -> ordered (remove k m).
Proof.
  induction m as [|[k0 v0] m IH]; intros Ho; [done|]. destruct Ho as [Hk Ho]. cbn [remove].
  case_bool_decide; [done|]. split; [|by apply IH]. clear IH Ho.
  induction m as [|[k1 v1] m IHm]; [done|]. inversion Hk; subst. cbn [remove].
  case_bool_decide; [done|]. constructor; [done|]. by apply IHm.
Qed.

Lemma get_In k v m : ordered m -> get k m = Some v <-> In (k, v) m.
Proof.
  induction m as [|[k0 v0] m IH]; intros Ho; [done|]. destruct Ho as [Hk Ho]. cbn [get In].
  case_bool_decide as E.
  - subst. split; [intros [= ->]; by left|]. intros [[= ->]|Hin]; [done|].
    rewrite List.Forall_forall in Hk. specialize (Hk _ Hin). cbn in Hk. by rewrite cmp_refl in Hk.
  - rewrite IH by done. split; [by right|]. by intros [[= -> ->]|].
Qed.

Lemma get_remove k m k' :
  ordered m -> get k' (remove k m) = if bool_decide (k' = k) then None else get k' m.
Proof.
  induction m as [|[k0 v0] m IH]; intros Ho; [by destruct (bool_decide _)|].
  destruct Ho as [Hk Ho]. cbn [remove]. destruct (decide (k = k0)) as [->|Hn].
  - rewrite bool_decide_eq_true_2 by done. cbn [get]. destruct (decide (k' = k0)) as [->|].
    + rewrite !bool_decide_eq_true_2 by done. destruct (get k0 m) as [v|] eqn:E; [|done].
      apply get_In in E; [|done]. rewrite List.Forall_forall in Hk. specialize (Hk _ E). cbn in Hk.
      by rewrite cmp_refl in Hk.
    + by rewrite !bool_decide_eq_false_2 by done.
  - rewrite (bool_decide_eq_false_2 (k = k0)) by done. cbn [get]. rewrite IH by done.
    destruct (decide (k' = k0)) as [->|]; [|by rewrite (bool_decide_eq_false_2 (k' = k0))].
    rewrite (bool_decide_eq_true_2 (k0 = k0)) by done. by rewrite bool_decide_eq_false_2.
Qed.

Lemma collect_snoc l k v : collect (l ++ [(k, v)]) = insert k v (collect l).
Proof. unfold collect. by rewrite fold_left_app. Qed.

Lemma collect_ordered l : ordered (collect l).
Proof.
  induction l as [|[k v] l IH] using rev_ind; [done|]. rewrite collect_snoc. by apply insert_ordered.
Qed.

(** What [collect] keeps comes from the list. *)
Lemma collect_In l e : In e (collect l) -> In e l.
Proof.
  revert e. induction l as [|[k v] l IH] using rev_ind; intros [k' v']; [done|].
  rewrite collect_snoc, <- get_In by (apply insert_ordered, collect_ordered).
  rewrite get_insert by apply collect_ordered. rewrite in_app_iff. case_bool_decide as E.
  - intros [= <-]. subst. right. by left.
  - rewrite get_In by apply collect_ordered. intros. left. by apply IH.
Qed.

(** ... and every key of the list is in it. *)
Lemma collect_key l k v : In (k, v) l -> exists v', get k (collect l) = Some v'.
Proof.
  induction l as [|[k0 v0] l IH] using rev_ind; [done|]. rewrite in_app_iff, collect_snoc, get_insert
    by apply collect_ordered. case_bool_decide; [eauto|]. intros [Hin|[[= -> ->]|[]]]; [by apply IH|done].
Qed.

(** Without duplicate keys nothing is replaced. *)
Lemma collect_nodup l k v : NoDup (map fst l) -> In (k, v) l -> get k (collect l) = Some v.
Proof.
  induction l as [|[k0 v0] l IH] using rev_ind; [done|].
  rewrite map_app, NoDup_app, in_app_iff, collect_snoc, get_insert by apply collect_ordered.
  intros (Hl & Hd & _) [Hin|[[= -> ->]|[]]].
  - rewrite bool_decide_eq_false_2; [by apply IH|]. intros ->.
    apply (Hd k0); [apply list_elem_of_In, in_map_iff; by exists (k0, v)|by constructor].
  - by rewrite bool_decide_eq_true_2.
Qed.
End ops.
End BMap.
