(* ===== verification/Text.v ===== *)
(** * Text

    What the code uses of [str]: a string is its UTF-8 bytes. The separators of
    the code are ASCII, which UTF-8 never uses inside a character, so splitting
    is splitting of bytes; white space is the Unicode property. *)

From S2P Require Import Prelude.

(** The bytes of a literal. *)
Abbreviation str s := (String.list_byte_of_string s%string).

Module Text.
(** ** Prefixes and separators *)
Fixpoint strip_prefix (p s : bytes) : option bytes :=
  match p, s with
  | [], _ => Some s
  | x :: p, y :: s => if bool_decide (x = y) then strip_prefix p s else None
  | _ :: _, [] => None
  end.

Definition strip_suffix (p s : bytes) : option bytes :=
  match strip_prefix (rev p) (rev s) with Some r => Some (rev r) | None => None end.

Definition starts_with (p s : bytes) : bool := match strip_prefix p s with Some _ => true | None => false end.
Definition ends_with (p s : bytes) : bool := match strip_suffix p s with Some _ => true | None => false end.

(** [split_once(c)] and [rsplit_once(c)] for an ASCII character. *)
Fixpoint split_once (c : byte) (s : bytes) : option (bytes * bytes) :=
  match s with
  | [] => None
  | x :: s =>
    if bool_decide (x = c) then Some ([], s)
    else match split_once c s with Some (a, b) => Some (x :: a, b) | None => None end
  end.

Definition rsplit_once (c : byte) (s : bytes) : option (bytes * bytes) :=
  match split_once c (rev s) with Some (b, a) => Some (rev a, rev b) | None => None end.

(** [split(c)]: never empty. *)
Fixpoint split (c : byte) (s : bytes) : list bytes :=
  match s with
  | [] => [[]]
  | x :: s =>
    if bool_decide (x = c) then [] :: split c s
    else match split c s with a :: l => (x :: a) :: l | [] => [[x]] end
  end.

(** [join]. *)
Fixpoint join (sep : bytes) (l : list bytes) : bytes :=
  match l with
  | [] => []
  | [x] => x
  | x :: l => x ++ sep ++ join sep l
  end.

(** [contains] of a substring. *)
Fixpoint contains (p s : bytes) : bool :=
  starts_with p s || match s with [] => false | _ :: s => contains p s end.

(** [lines]: the line ending is optional at the end of the text, and a carriage
    return belongs to it only before a line feed. *)
Definition CR : byte := Byte.x0d.
Definition LF : byte := Byte.x0a.

Definition chop_cr (l : bytes) : bytes := match strip_suffix [CR] l with Some r => r | None => l end.

Fixpoint lines_of (pieces : list bytes) : list bytes :=
  match pieces with
  | [] => []
  | [x] => match x with [] => [] | _ => [x] end
  | x :: l => chop_cr x :: lines_of l
  end.
Definition lines (s : bytes) : list bytes := lines_of (split LF s).

(** ** White space *)
Definition ws1 (b : byte) : bool := in_range 0x09 0x0d b || (b2z b =? 0x20).
Definition ws2 (b c : byte) : bool := (b2z b =? 0xc2) && ((b2z c =? 0x85) || (b2z c =? 0xa0)).
Definition ws3 (b c d : byte) : bool :=
  ((b2z b =? 0xe1) && (b2z c =? 0x9a) && (b2z d =? 0x80)) ||
  ((b2z b =? 0xe2) && (b2z c =? 0x80) &&
    (in_range 0x80 0x8a d || (b2z d =? 0xa8) || (b2z d =? 0xa9) || (b2z d =? 0xaf))) ||
  ((b2z b =? 0xe2) && (b2z c =? 0x81) && (b2z d =? 0x9f)) ||
  ((b2z b =? 0xe3) && (b2z c =? 0x80) && (b2z d =? 0x80)).

Fixpoint trim_start (s : bytes) : bytes :=
  match s with
  | [] => []
  | b :: s1 =>
    if ws1 b then trim_start s1
    else match s1 with
      | [] => s
      | c :: s2 =>
        if ws2 b c then trim_start s2
        else match s2 with
          | [] => s
          | d :: s3 => if ws3 b c d then trim_start s3 else s
          end
      end
  end.

(** The same from behind: the characters of a reversed string. *)
Fixpoint trim_rev (s : bytes) : bytes :=
  match s with
  | [] => []
  | b :: s1 =>
    if ws1 b then trim_rev s1
    else match s1 with
      | [] => s
      | c :: s2 =>
        if ws2 c b then trim_rev s2
        else match s2 with
          | [] => s
          | d :: s3 => if ws3 d c b then trim_rev s3 else s
          end
      end
  end.

Definition trim_end (s : bytes) : bytes := rev (trim_rev (rev s)).
Definition trim (s : bytes) : bytes := trim_end (trim_start s).

(** [split_whitespace]: [word] is the word so far, reversed. *)
Definition push_word (word : bytes) (l : list bytes) : list bytes :=
  match word with [] => l | _ => rev word :: l end.

Fixpoint fields_from (word : bytes) (s : bytes) : list bytes :=
  match s with
  | [] => push_word word []
  | b :: s1 =>
    if ws1 b then push_word word (fields_from [] s1)
    else match s1 with
      | [] => push_word (b :: word) []
      | c :: s2 =>
        if ws2 b c then push_word word (fields_from [] s2)
        else match s2 with
          | d :: s3 =>
            if ws3 b c d then push_word word (fields_from [] s3) else fields_from (b :: word) s1
          | [] => fields_from (b :: word) s1
          end
      end
  end.
Definition split_whitespace (s : bytes) : list bytes := fields_from [] s.

(** [split_once(char::is_whitespace)]. *)
Fixpoint split_once_ws (s : bytes) : option (bytes * bytes) :=
  match s with
  | [] => None
  | b :: s1 =>
    if ws1 b then Some ([], s1)
    else
      let later := match split_once_ws s1 with Some (x, y) => Some (b :: x, y) | None => None end in
      match s1 with
      | [] => later
      | c :: s2 =>
        if ws2 b c then Some ([], s2)
        else match s2 with
          | d :: s3 => if ws3 b c d then Some ([], s3) else later
          | [] => later
          end
      end
  end.

(** ** Decimal numbers *)
Definition is_ascii_digit (c : byte) : bool := in_range 0x30 0x39 c.

Fixpoint digits_val (acc : Z) (s : bytes) : option Z :=
  match s with
  | [] => Some acc
  | c :: s => if is_ascii_digit c then digits_val (acc * 10 + (b2z c - 0x30)) s else None
  end.

(** [parse::<uN>()]: a plus sign may come first, and there is a digit. *)
Definition parse_unsigned (max : Z) (s : bytes) : option Z :=
  let digits := match s with
                | c :: rest => if bool_decide (c = Byte.x2b) then rest else s
                | [] => []
                end in
  match digits with
  | [] => None
  | _ => match digits_val 0 digits with
         | Some v => if v <=? max then Some v else None
         | None => None
         end
  end.

(** [Display] of an unsigned integer, least digit first. *)
Fixpoint decimal_rev (fuel : nat) (v : Z) : bytes :=
  match fuel with
  | O => []
  | S fuel =>
    z2b (0x30 + v mod 10) :: (if v <? 10 then [] else decimal_rev fuel (v / 10))
  end.
Definition to_decimal (v : Z) : bytes := rev (decimal_rev (S (Z.to_nat (Z.log2 (Z.max 1 v)))) v).

(** ** [String::from_utf8_lossy]

    A maximal part of a character that does not go on as UTF-8 demands becomes
    one U+FFFD. *)
Definition REPLACEMENT : bytes := [Byte.xef; Byte.xbf; Byte.xbd].

(** Which second bytes may follow a first byte of a long character. *)
Definition second_ok (b c : byte) : bool :=
  let v := b2z b in
  if v =? 0xe0 then in_range 0xa0 0xbf c
  else if v =? 0xed then in_range 0x80 0x9f c
  else if v =? 0xf0 then in_range 0x90 0xbf c
  else if v =? 0xf4 then in_range 0x80 0x8f c
  else utf8_cont c.

Fixpoint utf8_lossy (s : bytes) : bytes :=
  match s with
  | [] => []
  | b :: s1 =>
    if b2z b <=? 0x7f then b :: utf8_lossy s1
    else if in_range 0xc2 0xdf b then
      match s1 with
      | c :: s2 => if utf8_cont c then b :: c :: utf8_lossy s2 else REPLACEMENT ++ utf8_lossy s1
      | [] => REPLACEMENT
      end
    else if in_range 0xe0 0xef b then
      match s1 with
      | c :: s2 =>
        if second_ok b c then
          match s2 with
          | d :: s3 => if utf8_cont d then b :: c :: d :: utf8_lossy s3 else REPLACEMENT ++ utf8_lossy s2
          | [] => REPLACEMENT
          end
        else REPLACEMENT ++ utf8_lossy s1
      | [] => REPLACEMENT
      end
    else if in_range 0xf0 0xf4 b then
      match s1 with
      | c :: s2 =>
        if second_ok b c then
          match s2 with
          | d :: s3 =>
            if utf8_cont d then
              match s3 with
              | e :: s4 =>
                if utf8_cont e then b :: c :: d :: e :: utf8_lossy s4 else REPLACEMENT ++ utf8_lossy s3
              | [] => REPLACEMENT
              end
            else REPLACEMENT ++ utf8_lossy s2
          | [] => REPLACEMENT
          end
        else REPLACEMENT ++ utf8_lossy s1
      | [] => REPLACEMENT
      end
    else REPLACEMENT ++ utf8_lossy s1
  end.
End Text.

(** ** Lemmas *)
Module TextLemmas.
Import Text.

Lemma strip_prefix_app p s : strip_prefix p (p ++ s) = Some s.
Proof. induction p as [|x p IH]; [done|]. cbn. by rewrite bool_decide_true. Qed.

Lemma strip_prefix_Some p s r : strip_prefix p s = Some r -> s = p ++ r.
Proof.
  revert s. induction p as [|x p IH]; intros [|y s] Hs; cbn [strip_prefix] in Hs; try done; try (by injection Hs as <-).
  case_bool_decide; [|done]. subst. by rewrite (IH s).
Qed.

Lemma strip_suffix_Some p s r : strip_suffix p s = Some r -> s = r ++ p.
Proof.
  unfold strip_suffix. destruct (strip_prefix _ _) as [t|] eqn:E; [|done]. intros [= <-].
  apply strip_prefix_Some in E. apply (f_equal (@rev _)) in E.
  by rewrite rev_involutive, rev_app_distr, rev_involutive in E.
Qed.

Lemma strip_suffix_app p s : strip_suffix p (s ++ p) = Some s.
Proof. unfold strip_suffix. by rewrite rev_app_distr, strip_prefix_app, rev_involutive. Qed.

Lemma split_once_app c a b : c ∉ a -> split_once c (a ++ c :: b) = Some (a, b).
Proof.
  induction a as [|x a IH]; intros Ha; cbn; [by rewrite bool_decide_true|].
  apply not_elem_of_cons in Ha as [Hx Ha]. rewrite bool_decide_false by done. by rewrite IH.
Qed.

Lemma split_once_None c a : c ∉ a -> split_once c a = None.
Proof.
  induction a as [|x a IH]; intros Ha; cbn; [done|].
  apply not_elem_of_cons in Ha as [Hx Ha]. rewrite bool_decide_false by done. by rewrite IH.
Qed.

Lemma split_once_Some c s a b :
  split_once c s = Some (a, b) <-> s = a ++ [c] ++ b /\ ~ In c a.
Proof.
  revert a b. induction s as [|x s IH]; intros a b; cbn [split_once].
  - split; [done|]. intros [Hs _]. by destruct a.
  - case_bool_decide as E.
    + subst. split; [intros [= <- <-]; by split; [|intros []]|].
      intros [Hs Ha]. destruct a as [|y a]; [by injection Hs as ->|].
      injection Hs as -> _. exfalso. apply Ha. by left.
    + split.
      * destruct (split_once c s) as [[a0 b0]|]; [|done]. intros [= <- <-].
        destruct (proj1 (IH a0 b0) eq_refl) as [-> Ha]. split; [done|]. intros [->|]; done.
      * intros [Hs Ha]. destruct a as [|y a]; [by injection Hs as -> _|].
        injection Hs as -> Hs. rewrite (proj2 (IH a b)); [done|]. split; [done|].
        intros Hin. apply Ha. by right.
Qed.

Lemma rsplit_once_Some c s a b :
  rsplit_once c s = Some (a, b) <-> s = a ++ [c] ++ b /\ ~ In c b.
Proof.
  unfold rsplit_once. split.
  - destruct (split_once c (rev s)) as [[x y]|] eqn:E; [|done]. intros [= <- <-].
    apply split_once_Some in E as [Hs Hx]. rewrite <- in_rev. split; [|done].
    rewrite <- (rev_involutive s), Hs, !rev_app_distr. cbn. by rewrite <- app_assoc.
  - intros [-> Hb]. rewrite (proj2 (split_once_Some c _ (rev b) (rev a))).
    + by rewrite !rev_involutive.
    + rewrite <- in_rev, !rev_app_distr. cbn. by rewrite <- app_assoc.
Qed.

Lemma rev_spec (c : byte) l : c ∈ rev l <-> c ∈ l.
Proof. by rewrite !list_elem_of_In, <- in_rev. Qed.

Lemma rsplit_once_app c a b : c ∉ b -> rsplit_once c (a ++ c :: b) = Some (a, b).
Proof.
  intros Hb. unfold rsplit_once. rewrite rev_app_distr. cbn [rev]. rewrite <- app_assoc. cbn [app].
  rewrite split_once_app by (by rewrite rev_spec).
  by rewrite !rev_involutive.
Qed.

Lemma rsplit_once_None c a : c ∉ a -> rsplit_once c a = None.
Proof. intros Ha. unfold rsplit_once. rewrite split_once_None; [done|]. by rewrite rev_spec. Qed.

Lemma split_cons_app c a s : c ∉ a -> split c (a ++ c :: s) = a :: split c s.
Proof.
  induction a as [|x a IH]; intros Ha; cbn; [by rewrite bool_decide_true|].
  apply not_elem_of_cons in Ha as [Hx Ha]. rewrite bool_decide_false by done. by rewrite IH.
Qed.

(** A line and what follows it. *)
Lemma lines_line l s : LF ∉ l -> chop_cr l = l -> lines (l ++ LF :: s) = l :: lines s.
Proof.
  intros Hl Hc. unfold lines. rewrite split_cons_app by done.
  assert (split LF s <> []) as Hs.
  { destruct s as [|x s]; cbn; [done|]. case_bool_decide; [done|]. by destruct (split LF s). }
  destruct (split LF s); [done|]. cbn [lines_of]. by rewrite Hc.
Qed.

(** *** Decimal numbers *)
Lemma digits_val_app a s acc : digits_val acc (a ++ s) =
  match digits_val acc a with Some v => digits_val v s | None => None end.
Proof.
  revert acc. induction a as [|c a IH]; intros acc; [done|]. cbn. destruct (is_ascii_digit c); [|done]. apply IH.
Qed.

Lemma b2z_digit d : 0 <= d < 10 -> b2z (z2b (0x30 + d)) = 0x30 + d.
Proof. intros Hd. rewrite b2z_z2b. apply Z.mod_small. lia. Qed.

Lemma digit_digit d : 0 <= d < 10 -> is_ascii_digit (z2b (0x30 + d)) = true.
Proof. intros Hd. unfold is_ascii_digit, in_range. rewrite b2z_digit by done. lia. Qed.

Lemma decimal_rev_val fuel : forall v, 0 <= v < 10 ^ Z.of_nat fuel ->
  digits_val 0 (rev (decimal_rev fuel v)) = Some v.
Proof.
  induction fuel as [|fuel IH]; intros v Hv; [cbn in *; f_equal; lia|].
  cbn [decimal_rev rev]. rewrite digits_val_app. pose proof (Z.mod_pos_bound v 10 ltac:(lia)) as Hm.
  assert (digits_val 0 (rev (if v <? 10 then [] else decimal_rev fuel (v / 10))) = Some (v / 10)) as ->.
  { destruct (Z.ltb_spec v 10); [cbn; by rewrite Z.div_small by lia|]. apply IH.
    rewrite Nat2Z.inj_succ, Z.pow_succ_r in Hv by lia. split; [apply Z.div_pos; lia|].
    apply Z.div_lt_upper_bound; lia. }
  cbn [digits_val]. rewrite digit_digit, b2z_digit by done. f_equal.
  pose proof (Z.div_mod v 10 ltac:(lia)). lia.
Qed.

Lemma decimal_rev_digits fuel v : 0 <= v -> Forall (fun c => is_ascii_digit c = true) (decimal_rev fuel v).
Proof.
  revert v. induction fuel as [|fuel IH]; intros v Hv; [constructor|]. cbn [decimal_rev]. constructor.
  - apply digit_digit, Z.mod_pos_bound. lia.
  - destruct (v <? 10); [constructor|]. apply IH, Z.div_pos; lia.
Qed.

Lemma to_decimal_digits v : 0 <= v -> Forall (fun c => is_ascii_digit c = true) (to_decimal v).
Proof. intros Hv. unfold to_decimal. by apply Forall_rev, decimal_rev_digits. Qed.

Lemma to_decimal_ne v : to_decimal v <> [].
Proof. unfold to_decimal. cbn [decimal_rev rev]. by destruct (rev _). Qed.

Lemma decimal_fuel v : 0 <= v -> v < 10 ^ Z.of_nat (S (Z.to_nat (Z.log2 (Z.max 1 v)))).
Proof.
  intros Hv. rewrite Nat2Z.inj_succ, Z2Nat.id by apply Z.log2_nonneg.
  pose proof (Z.log2_spec (Z.max 1 v) ltac:(lia)) as [_ Hl].
  pose proof (Z.log2_nonneg (Z.max 1 v)).
  assert (2 ^ Z.succ (Z.log2 (Z.max 1 v)) <= 10 ^ Z.succ (Z.log2 (Z.max 1 v))) by (apply Z.pow_le_mono_l; lia).
  lia.
Qed.

Lemma digits_val_nonneg s : forall acc v, 0 <= acc -> digits_val acc s = Some v -> 0 <= v.
Proof.
  induction s as [|c s IH]; intros acc v Hacc; cbn; [intros [= <-]; lia|].
  destruct (is_ascii_digit c) eqn:Ed; [|done]. apply IH.
  unfold is_ascii_digit, in_range in Ed. bprop. lia.
Qed.

(** [parse] reads back what [Display] writes. *)
Lemma parse_to_decimal max v : 0 <= v <= max -> parse_unsigned max (to_decimal v) = Some v.
Proof.
  intros Hv. pose proof (to_decimal_digits v ltac:(lia)) as Hd. pose proof (to_decimal_ne v) as Hn.
  assert (digits_val 0 (to_decimal v) = Some v) as Hx by (apply decimal_rev_val; split; [lia|apply decimal_fuel; lia]).
  unfold parse_unsigned. destruct (to_decimal v) as [|c l] eqn:E; [done|].
  rewrite bool_decide_false by (intros ->; inversion Hd; done).
  rewrite Hx, (proj2 (Z.leb_le _ _)) by lia. done.
Qed.

Lemma digits_not_in c s : is_ascii_digit c = false -> Forall (fun c => is_ascii_digit c = true) s -> c ∉ s.
Proof. intros Hc Hs Hin. rewrite Forall_forall in Hs. specialize (Hs c Hin). cbn in *. congruence. Qed.
End TextLemmas.
