(* ===== verification/Core.v ===== *)
(** * [lr-core]: identifiers, consistency levels and image kinds

    The vocabulary of [crates/lr-core/src] that the image format is built on:
    128-bit identifiers ([ids.rs]) with their textual form, the consistency
    levels ([consistency.rs]) with their strength order, and the image kinds
    ([lib.rs]). *)

From S2P Require Import Prelude Text.

(** ** Identifiers ([ids.rs])

    [Id] is a [[u8; 16]]; [ImageId], [ChainId] and [SetId] are transparent
    newtypes over it, and the model uses [Id] for the three of them. *)
Module Ids.
Definition Id := bytes.

Definition id_ok (i : Id) : Prop := zlen i = 16.

Definition ZERO : Id := zrep 16 Byte.x00.

Definition is_zero (i : Id) : bool := bool_decide (i = ZERO).

(** The bytes of a character literal of the source. *)
Definition DASH : byte := Byte.x2d.
Definition PLUS : byte := Byte.x2b.

(** One digit of [{:02x}]. *)
Definition hex_digit (v : Z) : byte :=
  if v <? 10 then z2b (48 + v) else z2b (87 + v).

Definition hex_byte (b : byte) : bytes :=
  [hex_digit (b2z b / 16); hex_digit (b2z b mod 16)].

Definition hex_bytes (l : bytes) : bytes := concat (map hex_byte l).

(** [Id::to_uuid_string]. *)
Definition to_uuid_string (b : Id) : bytes :=
  hex_bytes (sub 0 4 b) ++ [DASH] ++ hex_bytes (sub 4 2 b) ++ [DASH] ++
  hex_bytes (sub 6 2 b) ++ [DASH] ++ hex_bytes (sub 8 2 b) ++ [DASH] ++
  hex_bytes (sub 10 6 b).

(** [char::to_digit(16)]. *)
Definition to_digit (c : byte) : option Z :=
  let v := b2z c in
  if (48 <=? v) && (v <=? 57) then Some (v - 48)
  else if (97 <=? v) && (v <=? 102) then Some (v - 87)
  else if (65 <=? v) && (v <=? 70) then Some (v - 55)
  else None.

(** [u8::from_str_radix(slice, 16)] on a two-byte slice: the standard
    library accepts one leading [+]. *)
Definition u8_from_str_radix16 (hi lo : byte) : option Z :=
  if decide (hi = PLUS) then to_digit lo
  else match to_digit hi, to_digit lo with
       | Some h, Some l => Some (16 * h + l)
       | _, _ => None
       end.

Fixpoint parse_pairs (hex : bytes) : result bytes :=
  match hex with
  | hi :: lo :: rest =>
    match u8_from_str_radix16 hi lo with
    | Some v => let* tl := parse_pairs rest in Ok (z2b v :: tl)
    | None => Err (Corrupt "identifier '{s}' is not hexadecimal")
    end
  | _ => Ok []
  end.

(** [Id::from_str]. *)
Definition from_str (s : bytes) : result Id :=
  let hex := filter (fun c => c <> DASH) s in
  if negb (zlen hex =? 32) || negb (ascii_bytes hex) then
    Err (Corrupt "identifier '{s}' is not 32 hex digits")
  else parse_pairs hex.

(** *** Lemmas *)

Lemma to_digit_hex v : 0 <= v < 16 -> to_digit (hex_digit v) = Some v.
Proof.
  intros H.
  assert (Forall (fun v => to_digit (hex_digit v) = Some v) (seqZ 0 16)) as HF
    by (repeat constructor).
  rewrite Forall_forall in HF. apply HF, elem_of_seqZ. lia.
Qed.

Definition plain_hex (c : byte) : Prop := c <> DASH /\ c <> PLUS /\ b2z c <= 127.

Lemma hex_digit_plain v : 0 <= v < 16 -> plain_hex (hex_digit v).
Proof.
  intros H. assert (b2z (hex_digit v) = if v <? 10 then 48 + v else 87 + v) as E.
  { unfold hex_digit. destruct (v <? 10) eqn:Hv; bprop; rewrite b2z_z2b; apply Z.mod_small; lia. }
  unfold plain_hex. repeat split.
  - intros Heq. rewrite Heq in E. change (b2z DASH) with 45 in E. case_match; bprop; lia.
  - intros Heq. rewrite Heq in E. change (b2z PLUS) with 43 in E. case_match; bprop; lia.
  - rewrite E. case_match; bprop; lia.
Qed.

Lemma hex_nibbles b : 0 <= b2z b / 16 < 16 /\ 0 <= b2z b mod 16 < 16.
Proof. pose proof (b2z_bound b). Z.to_euclidean_division_equations; lia. Qed.

Lemma hex_bytes_plain l : Forall plain_hex (hex_bytes l).
Proof.
  induction l as [|b l IH]; [constructor|]. cbn.
  destruct (hex_nibbles b). repeat constructor; auto using hex_digit_plain.
  all: by apply hex_digit_plain.
Qed.

Lemma zlen_hex_bytes l : zlen (hex_bytes l) = 2 * zlen l.
Proof.
  induction l as [|b l IH]; [done|]. cbn. rewrite !zlen_cons.
  unfold hex_bytes in IH. rewrite IH. lia.
Qed.

Lemma filter_plain l : Forall plain_hex l -> filter (fun c => c <> DASH) l = l.
Proof.
  induction 1 as [|c l [Hc _] _ IH]; [done|]. by rewrite filter_cons_True, IH.
Qed.

Lemma ascii_plain l : Forall plain_hex l -> ascii_bytes l = true.
Proof.
  induction 1 as [|c l (_ & _ & Hc) _ IH]; [done|]. cbn [ascii_bytes forallb].
  unfold ascii_bytes in IH. rewrite IH. rewrite (proj2 (Z.leb_le _ _)) by lia. done.
Qed.

Lemma parse_pairs_hex l : parse_pairs (hex_bytes l) = Ok l.
Proof.
  induction l as [|b l IH]; [done|].
  destruct (hex_nibbles b) as [Hh Hl]. cbn. unfold u8_from_str_radix16.
  destruct (hex_digit_plain _ Hh) as (_ & Hp & _).
  rewrite decide_False by done. rewrite !to_digit_hex by done.
  fold (hex_bytes l). rewrite IH. cbn [bind].
  rewrite <- (Z.div_mod (b2z b) 16) by lia. by rewrite z2b_b2z.
Qed.

Lemma hex_bytes_app a b : hex_bytes (a ++ b) = hex_bytes a ++ hex_bytes b.
Proof. unfold hex_bytes. by rewrite map_app, concat_app. Qed.

(** Dropping the hyphens of the canonical form leaves the 32 digits. *)
Lemma filter_uuid_string i :
  id_ok i -> filter (fun c => c <> DASH) (to_uuid_string i) = hex_bytes i.
Proof.
  intros Hi. unfold to_uuid_string.
  rewrite !filter_app.
  rewrite (filter_cons_False (fun c => c <> DASH) DASH []) by auto. rewrite filter_nil.
  cbn [app]. repeat (rewrite filter_plain by apply hex_bytes_plain).
  rewrite <- !hex_bytes_app. f_equal.
  rewrite <- (sub_split 8 2 6), <- (sub_split 6 2 8), <- (sub_split 4 2 10),
    <- (sub_split 0 4 12) by lia.
  apply sub_all; [done|by rewrite Hi].
Qed.
End Ids.
Export Ids (Id, id_ok).

(** ** Consistency levels ([consistency.rs]) *)
Inductive Consistency := PointInTime | Frozen | Offline | PerFile | CNone.

#[export] Instance consistency_eq_dec : EqDecision Consistency.
Proof. solve_decision. Defined.

Module Consistencies.
Definition ALL : list Consistency := [PointInTime; Frozen; Offline; PerFile; CNone].

Definition strength (c : Consistency) : Z :=
  match c with
  | PointInTime => 4 | Frozen => 3 | Offline => 2 | PerFile => 1 | CNone => 0
  end.

Definition is_point_in_time (c : Consistency) : bool :=
  match c with PointInTime => true | _ => false end.

Definition minimum (a b : Consistency) : Consistency :=
  if strength a <=? strength b then a else b.

Definition as_u8 (c : Consistency) : Z :=
  match c with
  | PointInTime => 0 | Frozen => 1 | Offline => 2 | PerFile => 3 | CNone => 4
  end.

Definition from_u8 (v : Z) : result Consistency :=
  match v with
  | 0 => Ok PointInTime
  | 1 => Ok Frozen
  | 2 => Ok Offline
  | 3 => Ok PerFile
  | 4 => Ok CNone
  | _ => Err (Corrupt "unknown consistency level {other}")
  end.

(** [Ord::cmp]. *)
Definition cmp (a b : Consistency) : comparison := strength a ?= strength b.

Lemma consistency_from_as_u8 c : from_u8 (as_u8 c) = Ok c.
Proof. by destruct c. Qed.

Lemma consistency_from_u8_inv v c : from_u8 v = Ok c -> as_u8 c = v.
Proof. unfold from_u8. intros. repeat case_match; simplify_eq; done. Qed.

Lemma consistency_as_u8_range c : 0 <= as_u8 c <= 4.
Proof. destruct c; simpl; lia. Qed.

Lemma strength_inj a b : strength a = strength b -> a = b.
Proof. by destruct a, b. Qed.

Lemma minimum_strength a b : strength (minimum a b) = Z.min (strength a) (strength b).
Proof. by destruct a, b. Qed.
End Consistencies.

(** ** Image kinds ([lib.rs]) *)
Inductive ImageKind := Block | Stream | File.

#[export] Instance image_kind_eq_dec : EqDecision ImageKind.
Proof. solve_decision. Defined.

Module ImageKinds.
Definition as_u8 (k : ImageKind) : Z :=
  match k with Block => 1 | Stream => 2 | File => 3 end.

Definition from_u8 (v : Z) : result ImageKind :=
  match v with
  | 1 => Ok Block
  | 2 => Ok Stream
  | 3 => Ok File
  | _ => Err (Corrupt "unknown image kind {other}")
  end.

Lemma image_kind_from_as_u8 k : from_u8 (as_u8 k) = Ok k.
Proof. by destruct k. Qed.

Lemma image_kind_from_u8_inv v k : from_u8 v = Ok k -> as_u8 k = v.
Proof. unfold from_u8. intros. repeat case_match; simplify_eq; done. Qed.

Lemma image_kind_as_u8_range k : 1 <= as_u8 k <= 3.
Proof. destruct k; simpl; lia. Qed.
End ImageKinds.

(** ** Properties *)

(** The canonical UUID string of an identifier parses back to it. *)
Theorem id_uuid_roundtrip (i : Id) (Hi : id_ok i) :
  Ids.from_str (Ids.to_uuid_string i) = Ok i.
Proof.
  unfold Ids.from_str. rewrite Ids.filter_uuid_string by done.
  rewrite Ids.zlen_hex_bytes, Hi, Ids.ascii_plain by apply Ids.hex_bytes_plain.
  apply Ids.parse_pairs_hex.
Qed.

(** * Names that become path components ([crates/lr-core/src/names.rs]) *)

Inductive NameKind := NameSet | NameJob.

Module Names.
Definition MAX_NAME_LEN : Z := 64.

Definition is_ascii_alphanumeric (c : byte) : bool := in_range 0x30 0x39 c || in_range 0x41 0x5a c || in_range 0x61 0x7a c.
(** A letter, a digit, [.], [_] or [-]. *)
Definition is_name_char (c : byte) : bool :=
  is_ascii_alphanumeric c || (b2z c =? 0x2e) || (b2z c =? 0x5f) || (b2z c =? 0x2d).

Definition label (kind : NameKind) : string := match kind with NameSet => "set name" | NameJob => "job name" end.
Definition refuse {A} : result A :=
  Err (Unsupported "invalid {label} {name:?}: {why} (allowed: a letter or digit, then up to {} letters, digits, '.', '_' or '-')").

Definition validate_name (kind : NameKind) (name : bytes) : result unit :=
  match name with
  | [] => refuse
  | first :: _ =>
    if MAX_NAME_LEN <? zlen name then refuse
    else if negb (is_ascii_alphanumeric first) then refuse
    else if negb (forallb is_name_char name) then refuse
    else Ok tt
  end.
Definition validate_set_name : bytes -> result unit := validate_name NameSet.
Definition validate_job_name : bytes -> result unit := validate_name NameJob.
End Names.

(** What a valid name is made of. *)
Module NameLemmas.
Import Names.

Lemma name_chars c : is_name_char c = true -> c <> Byte.x2f /\ c <> Byte.x00 /\ 0 <= b2z c < 128.
Proof.
  unfold is_name_char, is_ascii_alphanumeric, in_range. intros Hc. pose proof (b2z_bound c). split_and!; try lia.
  all: intros ->; vm_compute in Hc; done.
Qed.

Lemma valid_name kind name : validate_name kind name = Ok tt ->
  name <> [] /\ (Byte.x2f ∉ name) /\ (Byte.x00 ∉ name) /\ name <> [Byte.x2e] /\ name <> [Byte.x2e; Byte.x2e] /\ zlen name <= 64.
Proof.
  unfold validate_name. destruct name as [|c name]; [done|]. destruct (Z.ltb_spec MAX_NAME_LEN (zlen (c :: name))) as [|Hl]; [done|].
  destruct (is_ascii_alphanumeric c) eqn:Ec; [|done]. destruct (forallb is_name_char (c :: name)) eqn:Ef; [|done]. intros _.
  rewrite forallb_forall in Ef. split; [done|]. split; [|split; [|split; [|split; [|unfold MAX_NAME_LEN in Hl; lia]]]].
  - intros Hin%list_elem_of_In. by destruct (name_chars _ (Ef _ Hin)).
  - intros Hin%list_elem_of_In. by destruct (name_chars _ (Ef _ Hin)) as (_ & ? & _).
  - intros [= -> _]. by vm_compute in Ec.
  - intros [= -> _]. by vm_compute in Ec.
Qed.
End NameLemmas.
