(* ===== verification/Crypto.v ===== *)
(** * [lr-crypto]: nonces, AEAD dispatch, metadata pages, MACs and keys

    The crate calls third-party implementations of AES-256-GCM,
    ChaCha20-Poly1305, BLAKE3, HKDF-SHA256, Argon2id and (from [lr-format])
    zstd. They are the operations of the class [Primitives]; [PrimitiveLaws]
    states their documented behaviour, and [Toy] is a small lawful instance
    on which witnesses compute. Everything else is translated from
    [nonce.rs], [aead.rs], [mac.rs], [hash.rs], [page.rs], [kdf.rs] and
    [keys.rs]. *)

From S2P Require Import Prelude Core.

(** ** Third-party primitives *)

Class Primitives := {
  (** [encrypt_inout_detached]: ciphertext and tag, [None] on rejection. *)
  aes_gcm_encrypt : forall (key nonce aad buf : bytes), option (bytes * bytes);
  (** [decrypt_inout_detached]. *)
  aes_gcm_decrypt : forall (key nonce aad buf tag : bytes), option bytes;
  chacha_encrypt : forall (key nonce aad buf : bytes), option (bytes * bytes);
  chacha_decrypt : forall (key nonce aad buf tag : bytes), option bytes;
  blake3_keyed_hash : forall (key data : bytes), bytes;
  blake3_hash : forall (data : bytes), bytes;
  blake3_derive_key : forall (context : string) (material : bytes), bytes;
  (** [Hkdf::<Sha256>::new(Some(salt), ikm).expand(info, len)]. *)
  hkdf_sha256_expand : forall (salt ikm info : bytes) (len : Z), option bytes;
  (** [Params::new(m, t, p, Some(32)).is_ok()]. *)
  argon2_params_ok : forall (m t p : Z), bool;
  argon2id : forall (passphrase salt : bytes) (m t p : Z), option bytes;
  zstd_compress : forall (data : bytes) (level : Z), option bytes;
  zstd_decompress : forall (data : bytes) (capacity : Z), option bytes;
}.

(** An AEAD with a detached 16-byte tag: the ciphertext is as long as the
    plaintext, decryption inverts encryption, and the tag check accepts
    nothing but what encryption produces. *)
Record aead_laws (enc : bytes -> bytes -> bytes -> bytes -> option (bytes * bytes))
    (dec : bytes -> bytes -> bytes -> bytes -> bytes -> option bytes) : Prop := {
  aead_len : forall key nonce aad p c t,
    enc key nonce aad p = Some (c, t) -> zlen c = zlen p /\ zlen t = 16;
  aead_dec_enc : forall key nonce aad p c t,
    enc key nonce aad p = Some (c, t) -> dec key nonce aad c t = Some p;
  aead_enc_dec : forall key nonce aad p c t,
    dec key nonce aad c t = Some p -> enc key nonce aad p = Some (c, t);
}.

Class PrimitiveLaws `{Primitives} : Prop := {
  aes_gcm_laws : aead_laws aes_gcm_encrypt aes_gcm_decrypt;
  chacha_laws : aead_laws chacha_encrypt chacha_decrypt;
  blake3_keyed_len : forall key data, zlen (blake3_keyed_hash key data) = 32;
  blake3_len : forall data, zlen (blake3_hash data) = 32;
  blake3_derive_len : forall c m, zlen (blake3_derive_key c m) = 32;
  hkdf_len : forall salt ikm info len okm,
    hkdf_sha256_expand salt ikm info len = Some okm -> zlen okm = len;
  zstd_roundtrip : forall data level c cap,
    zstd_compress data level = Some c -> zlen data <= cap ->
    zstd_decompress c cap = Some data;
}.

(** ** Nonce counters ([nonce.rs]) *)
Module Nonce.
Definition NONCE_LEN : Z := 12.
Definition MAX_COUNTER : Z := 2 ^ 96 - 1.

Record NonceSeq := { counter : Z }.

Definition new : NonceSeq := {| counter := 0 |}.

Definition emitted (s : NonceSeq) : Z := counter s.

(** [u128::to_be_bytes]. *)
Definition be_bytes (n : nat) (z : Z) : bytes := rev (le_bytes n z).

Definition next_nonce (s : NonceSeq) : result (bytes * NonceSeq) :=
  if MAX_COUNTER <? counter s then
    Err (Corrupt "nonce counter exhausted (96-bit overflow)")
  else
    let nonce := be_bytes 16 (counter s) in
    let out := sub 4 12 nonce in
    Ok (out, {| counter := counter s + 1 |}).

(** [n] nonces in a row. *)
Fixpoint draws (n : nat) (s : NonceSeq) : result (list bytes * NonceSeq) :=
  match n with
  | O => Ok ([], s)
  | S n =>
    let* (x, s1) := next_nonce s in
    let* (xs, s2) := draws n s1 in
    Ok (x :: xs, s2)
  end.

Definition seq_ok (s : NonceSeq) : Prop := 0 <= counter s <= MAX_COUNTER + 1.

Lemma be_bytes_high n z : 
  be_bytes (4 + n) z = rev (le_bytes 4 (z / 256 ^ Z.of_nat n)) ++ be_bytes n z.
Proof.
  unfold be_bytes. rewrite <- rev_app_distr. f_equal.
  rewrite Nat.add_comm. revert z. induction n as [|n IH]; intros z.
  - by rewrite Z.div_1_r.
  - cbn [Nat.add]. rewrite !le_bytes_S. cbn [app]. f_equal. rewrite IH. do 2 f_equal.
    rewrite Nat2Z.inj_succ, Z.pow_succ_r by lia. rewrite Z.div_div by lia. done.
Qed.

Lemma next_nonce_eq s x s' :
  next_nonce s = Ok (x, s') ->
  counter s <= MAX_COUNTER /\ x = be_bytes 12 (counter s) /\
  s' = {| counter := counter s + 1 |}.
Proof.
  unfold next_nonce. case_match; bprop; intros; inv_ok. simplify_eq.
  split; [lia|]. split; [|done].
  change 16%nat with (4 + 12)%nat. rewrite be_bytes_high.
  rewrite sub_skip by done. by apply sub_all.
Qed.

Lemma zlen_be_bytes n z : zlen (be_bytes n z) = Z.of_nat n.
Proof. unfold be_bytes, zlen. rewrite length_rev, length_le_bytes. done. Qed.

Lemma next_nonce_len s x s' : next_nonce s = Ok (x, s') -> zlen x = 12.
Proof. intros (_ & -> & _)%next_nonce_eq. apply zlen_be_bytes. Qed.

Lemma be_bytes_inj a b :
  0 <= a <= MAX_COUNTER -> 0 <= b <= MAX_COUNTER -> be_bytes 12 a = be_bytes 12 b -> a = b.
Proof.
  unfold MAX_COUNTER. intros Ha Hb H. apply (f_equal (@rev byte)) in H.
  unfold be_bytes in H. rewrite !rev_involutive in H.
  apply (le_bytes_inj 12); [| |done];
    change (256 ^ Z.of_nat 12) with (2 ^ 96); lia.
Qed.

Lemma draws_mem n s xs s' x :
  draws n s = Ok (xs, s') -> In x xs ->
  exists c, counter s <= c /\ c <= MAX_COUNTER /\ x = be_bytes 12 c.
Proof.
  revert s xs s'. induction n as [|n IH]; intros s xs s' H Hx; simpl in H; inv_ok.
  - simplify_eq. done.
  - destruct (next_nonce_eq _ _ _ E) as (Hm & -> & ->).
    destruct Hx as [<-|Hx]; [by exists (counter s)|].
    destruct (IH _ _ _ E0 Hx) as (c & ? & ? & ->). simpl in *.
    exists c. repeat split; lia.
Qed.
End Nonce.
Export Nonce (NonceSeq).

(** ** AEAD dispatch ([aead.rs]) *)
Inductive AeadKind := Aes256Gcm | ChaCha20Poly1305.

#[export] Instance aead_kind_eq_dec : EqDecision AeadKind.
Proof. solve_decision. Defined.

Module Aeads.
Definition KEY_LEN : Z := 32.
Definition TAG_LEN : Z := 16.
Definition AEAD_ID_AES_256_GCM : Z := 1.
Definition AEAD_ID_CHACHA20_POLY1305 : Z := 2.

Definition id (k : AeadKind) : Z :=
  match k with
  | Aes256Gcm => AEAD_ID_AES_256_GCM
  | ChaCha20Poly1305 => AEAD_ID_CHACHA20_POLY1305
  end.

Definition from_id (v : Z) : result AeadKind :=
  if v =? AEAD_ID_AES_256_GCM then Ok Aes256Gcm
  else if v =? AEAD_ID_CHACHA20_POLY1305 then Ok ChaCha20Poly1305
  else Err (Unsupported "aead_id {other}").

Section ops.
Context `{Primitives}.

(** The buffer is returned instead of being updated in place. *)
Definition seal_in_place (kind : AeadKind) (key nonce aad buf : bytes) :
    result (bytes * bytes) :=
  match kind with
  | Aes256Gcm => ok_or (aes_gcm_encrypt key nonce aad buf) Aead
  | ChaCha20Poly1305 => ok_or (chacha_encrypt key nonce aad buf) Aead
  end.

Definition open_in_place (kind : AeadKind) (key nonce aad buf tag : bytes) :
    result bytes :=
  match kind with
  | Aes256Gcm => ok_or (aes_gcm_decrypt key nonce aad buf tag) Aead
  | ChaCha20Poly1305 => ok_or (chacha_decrypt key nonce aad buf tag) Aead
  end.

Definition seal := seal_in_place.
Definition open := open_in_place.

Context `{!PrimitiveLaws}.

Lemma seal_open kind key nonce aad buf c t :
  seal_in_place kind key nonce aad buf = Ok (c, t) ->
  open_in_place kind key nonce aad c t = Ok buf.
Proof.
  destruct kind; simpl; intros E%ok_or_Ok.
  - by rewrite (aead_dec_enc _ _ aes_gcm_laws _ _ _ _ _ _ E).
  - by rewrite (aead_dec_enc _ _ chacha_laws _ _ _ _ _ _ E).
Qed.

Lemma open_seal kind key nonce aad buf c t :
  open_in_place kind key nonce aad c t = Ok buf ->
  seal_in_place kind key nonce aad buf = Ok (c, t).
Proof.
  destruct kind; simpl; intros E%ok_or_Ok.
  - by rewrite (aead_enc_dec _ _ aes_gcm_laws _ _ _ _ _ _ E).
  - by rewrite (aead_enc_dec _ _ chacha_laws _ _ _ _ _ _ E).
Qed.

Lemma seal_len kind key nonce aad buf c t :
  seal_in_place kind key nonce aad buf = Ok (c, t) -> zlen c = zlen buf /\ zlen t = 16.
Proof.
  destruct kind; simpl; intros E%ok_or_Ok.
  - by apply (aead_len _ _ aes_gcm_laws) in E.
  - by apply (aead_len _ _ chacha_laws) in E.
Qed.

Lemma open_len kind key nonce aad buf c t :
  open_in_place kind key nonce aad c t = Ok buf -> zlen c = zlen buf /\ zlen t = 16.
Proof. intros E%open_seal. eauto using seal_len. Qed.
End ops.

Lemma from_id_id k : from_id (id k) = Ok k.
Proof. by destruct k. Qed.

Lemma id_range k : 1 <= id k <= 2.
Proof. by destruct k. Qed.
End Aeads.

(** ** MACs and content hashes ([mac.rs], [hash.rs]) *)
Module Mac.
Section mac.
Context `{Primitives}.

Definition mac32 (key data : bytes) : bytes := blake3_keyed_hash key data.
Definition unkeyed_mac32 (data : bytes) : bytes := blake3_hash data.
Definition verify_mac32 (key data expected : bytes) : bool :=
  bool_decide (expected = blake3_keyed_hash key data).
Definition fixed_public_mac_key : bytes :=
  blake3_derive_key "lrimg-v1/no-encrypt-mac" [].
Definition content_hash (dedup_key data : bytes) : bytes :=
  blake3_keyed_hash dedup_key data.

Context `{!PrimitiveLaws}.

Lemma zlen_mac32 key data : zlen (mac32 key data) = 32.
Proof. apply blake3_keyed_len. Qed.
Lemma zlen_unkeyed_mac32 data : zlen (unkeyed_mac32 data) = 32.
Proof. apply blake3_len. Qed.
Lemma zlen_content_hash key data : zlen (content_hash key data) = 32.
Proof. apply blake3_keyed_len. Qed.
Lemma zlen_public_key : zlen fixed_public_mac_key = 32.
Proof. apply blake3_derive_len. Qed.

Lemma verify_own_mac key data : verify_mac32 key data (mac32 key data) = true.
Proof. by apply bool_decide_eq_true. Qed.
End mac.
End Mac.

(** ** Properties *)

(** One nonce counter never hands out the same nonce twice: any number of
    draws that succeeds gives that many pairwise different 12-byte nonces, and
    draws past the 96-bit range fail instead of wrapping around. *)
Theorem nonce_draws_distinct n s (Hs : Nonce.seq_ok s) :
  (Nonce.counter s + Z.of_nat n <= Nonce.MAX_COUNTER + 1 ->
   exists xs s', Nonce.draws n s = Ok (xs, s') /\ length xs = n /\ NoDup xs /\
     Forall (fun x => zlen x = 12) xs /\ Nonce.emitted s' = Nonce.emitted s + Z.of_nat n) /\
  (Nonce.MAX_COUNTER + 1 < Nonce.counter s + Z.of_nat n ->
   exists what, Nonce.draws n s = Err (Corrupt what)).
Proof.
  unfold Nonce.seq_ok in Hs. revert s Hs. induction n as [|n IH]; intros s Hs; cbn [Nonce.draws].
  { split; [|lia]. intros _. exists [], s. split_and!; [done|done|constructor|constructor|]. cbn. lia. }
  destruct (Nonce.next_nonce s) as [[x s1]|e] eqn:E.
  - apply Nonce.next_nonce_eq in E as Heq. destruct Heq as (Hm & Hx & ->). cbn [bind].
    destruct (IH {| Nonce.counter := Nonce.counter s + 1 |}) as [IH1 IH2]; [cbn; lia|]. cbn in IH1, IH2.
    split; intros Hn.
    + destruct IH1 as (xs & s' & Hd & Hl & Hnd & Hz & Hc); [lia|]. rewrite Hd.
      exists (x :: xs), s'. split_and!; [done|by cbn; rewrite Hl| | |unfold Nonce.emitted in *; lia].
      * constructor; [|done]. intros Hin%list_elem_of_In.
        destruct (Nonce.draws_mem _ _ _ _ _ Hd Hin) as (c & Hc1 & Hc2 & Hc3). cbn in Hc1.
        rewrite Hx in Hc3. apply Nonce.be_bytes_inj in Hc3; lia.
      * constructor; [by eapply Nonce.next_nonce_len|done].
    + destruct IH2 as [what ->]; [lia|]. by exists what.
  - unfold Nonce.next_nonce in E. destruct (Z.ltb_spec Nonce.MAX_COUNTER (Nonce.counter s)); [|done].
    split; intros; [lia|]. simplify_eq. cbn. eauto.
Qed.

(** ** A lawful toy instance

    Not the ciphers of the program: a checksum for the keyed functions and a
    run-length coder for zstd, so that the codecs can be evaluated. *)
Module Toy.
(** A running sum and the sum of its values, as in Adler-32. *)
Definition poly (l : bytes) : Z :=
  let '(a, s) := fold_left (fun '(a, s) b => let a := a + b2z b + 1 in (a, s + a)) l (7, 0) in
  s * 2 ^ 24 + a.

Definition toy_tag (tweak : Z) (key nonce aad buf : bytes) : bytes :=
  le_bytes 16 (poly ([z2b tweak] ++ key ++ nonce ++ aad ++ [Byte.x55] ++ buf)).

Definition toy_encrypt (tweak : Z) (key nonce aad buf : bytes) : option (bytes * bytes) :=
  Some (buf, toy_tag tweak key nonce aad buf).

Definition toy_decrypt (tweak : Z) (key nonce aad buf tag : bytes) : option bytes :=
  if decide (tag = toy_tag tweak key nonce aad buf) then Some buf else None.

Definition all_equal_to (b : byte) (l : bytes) : bool :=
  forallb (fun c => bool_decide (c = b)) l.

Definition toy_compress (data : bytes) (level : Z) : option bytes :=
  match data with
  | b :: _ =>
    if all_equal_to b data && (zlen data <? 2 ^ 32)
    then Some (Byte.x01 :: b :: le_bytes 4 (zlen data))
    else Some (Byte.x00 :: data)
  | [] => Some [Byte.x00]
  end.

Definition toy_decompress (data : bytes) (cap : Z) : option bytes :=
  match data with
  | Byte.x01 :: b :: l =>
    let n := le_val l in
    if n <=? cap then Some (zrep n b) else None
  | Byte.x00 :: d => if zlen d <=? cap then Some d else None
  | _ => None
  end.

Definition toy_hkdf (salt ikm info : bytes) (len : Z) : option bytes :=
  if (0 <=? len) && (len <=? 255 * 32)
  then Some (ztake len (le_bytes 8 (poly (salt ++ ikm ++ info)) ++ zrep len Byte.x2a))
  else None.

#[export] Instance toy : Primitives := {
  aes_gcm_encrypt := toy_encrypt 1;
  aes_gcm_decrypt := toy_decrypt 1;
  chacha_encrypt := toy_encrypt 2;
  chacha_decrypt := toy_decrypt 2;
  blake3_keyed_hash key data := le_bytes 32 (poly (key ++ [Byte.xaa] ++ data));
  blake3_hash data := le_bytes 32 (poly data);
  blake3_derive_key c m := le_bytes 32 (poly m);
  hkdf_sha256_expand := toy_hkdf;
  argon2_params_ok m t p := (8 * p <=? m) && (1 <=? t) && (1 <=? p);
  argon2id pass salt m t p := Some (le_bytes 32 (poly (pass ++ salt)));
  zstd_compress := toy_compress;
  zstd_decompress := toy_decompress;
}.

Lemma toy_aead_laws tweak : aead_laws (toy_encrypt tweak) (toy_decrypt tweak).
Proof.
  split; unfold toy_encrypt, toy_decrypt; intros.
  - simplify_eq. split; [done|]. apply zlen_le_bytes.
  - simplify_eq. by rewrite decide_True.
  - case_decide; simplify_eq. done.
Qed.

Lemma all_equal_to_rep b l : all_equal_to b l = true -> l = zrep (zlen l) b.
Proof.
  unfold zrep, zlen. rewrite Nat2Z.id.
  induction l as [|c l IH]; [done|]. cbn. intros [Hc Hl]%andb_true_iff. bprop. subst.
  f_equal. by apply IH.
Qed.

Lemma toy_zstd_roundtrip data level c cap :
  toy_compress data level = Some c -> zlen data <= cap -> toy_decompress c cap = Some data.
Proof.
  unfold toy_compress. intros H Hcap. destruct data as [|b d].
  - simplify_eq. simpl. rewrite (proj2 (Z.leb_le _ _)) by done. done.
  - destruct (all_equal_to b (b :: d) && (zlen (b :: d) <? 2 ^ 32)) eqn:E; simplify_eq.
    + bprop. cbn [toy_decompress].
      rewrite le_val_bytes_small by (change (256 ^ Z.of_nat 4) with (2 ^ 32); pose proof (zlen_nonneg (b :: d)); lia).
      rewrite (proj2 (Z.leb_le _ _)) by lia. f_equal. symmetry. by apply all_equal_to_rep.
    + cbn [toy_decompress]. by rewrite (proj2 (Z.leb_le _ _)) by lia.
Qed.

#[export] Instance toy_laws : PrimitiveLaws.
Proof.
  split; try (intros; apply zlen_le_bytes).
  - apply toy_aead_laws.
  - apply toy_aead_laws.
  - intros salt ikm info len okm. cbn. unfold toy_hkdf.
    case_match; [|done]. intros. simplify_eq. bprop.
    rewrite zlen_ztake, zlen_app, zlen_zrep, zlen_le_bytes. lia.
  - intros. by eapply toy_zstd_roundtrip.
Qed.
End Toy.
