(* ===== verification/Pages.v ===== *)
(** * Metadata pages ([crates/lr-crypto/src/page.rs])

    [[ magic u16 ][ len u32 ][ nonce 12 ][ ciphertext ][ tag 16 ]], sealed
    under the image's [meta_key] with the stream id and the page number as
    associated data. *)

From S2P Require Import Prelude Core Crypto.

Inductive StreamId := SManifest | SHashIndex | SExtras | SPageTable.

#[export] Instance stream_id_eq_dec : EqDecision StreamId.
Proof. solve_decision. Defined.

Module StreamIds.
Definition as_u8 (s : StreamId) : Z :=
  match s with SManifest => 1 | SHashIndex => 2 | SExtras => 3 | SPageTable => 4 end.

Definition from_u8 (v : Z) : result StreamId :=
  match v with
  | 1 => Ok SManifest
  | 2 => Ok SHashIndex
  | 3 => Ok SExtras
  | 4 => Ok SPageTable
  | _ => Err (Corrupt "unknown page stream {other}")
  end.

Lemma stream_id_from_as_u8 s : from_u8 (as_u8 s) = Ok s.
Proof. by destruct s. Qed.

Lemma stream_id_from_u8_inv v s : from_u8 v = Ok s -> as_u8 s = v.
Proof. unfold from_u8. intros. repeat case_match; simplify_eq; done. Qed.

Lemma stream_id_as_u8_range s : 1 <= as_u8 s <= 4.
Proof. destruct s; simpl; lia. Qed.

Lemma as_u8_inj a b : as_u8 a = as_u8 b -> a = b.
Proof. by destruct a, b. Qed.
End StreamIds.

Module Page.
Definition PAGE_MAGIC : Z := 0x9A6E.
Definition PAGE_HEADER_LEN : Z := 2 + 4 + Nonce.NONCE_LEN.
Definition PAGE_OVERHEAD : Z := PAGE_HEADER_LEN + Aeads.TAG_LEN.
Definition MAX_PAGE_LEN : Z := 4 * 1024 * 1024.

Definition page_ad (stream : StreamId) (page_no : Z) : bytes :=
  z2b (StreamIds.as_u8 stream) :: le_bytes 8 page_no.

Section ops.
Context `{Primitives}.

(** The record is returned instead of being appended to an empty [out]. *)
Definition seal_page (kind : AeadKind) (meta_key : bytes) (stream : StreamId)
    (page_no : Z) (plaintext : bytes) (nonce_seq : NonceSeq) :
    result (bytes * NonceSeq) :=
  if MAX_PAGE_LEN <? zlen plaintext then
    Err (Unsupported "page payload {} exceeds {MAX_PAGE_LEN} bytes")
  else
    let* (nonce, nonce_seq) := Nonce.next_nonce nonce_seq in
    let ad := page_ad stream page_no in
    let* (buf, tag) := Aeads.seal_in_place kind meta_key nonce ad plaintext in
    Ok (le_bytes 2 PAGE_MAGIC ++ le_bytes 4 (zlen buf) ++ nonce ++ buf ++ tag, nonce_seq).

Definition open_page (kind : AeadKind) (meta_key : bytes) (stream : StreamId)
    (page_no : Z) (record : bytes) : result bytes :=
  if zlen record <? PAGE_OVERHEAD then
    Err (Corrupt "page record shorter than its overhead")
  else
    let magic := le_val (sub 0 2 record) in
    if negb (magic =? PAGE_MAGIC) then
      Err (Corrupt "page magic 0x{magic:04X} is not 0x{PAGE_MAGIC:04X}")
    else
      let len := le_val (sub 2 4 record) in
      if MAX_PAGE_LEN <? len then
        Err (Corrupt "page length {len} exceeds {MAX_PAGE_LEN}")
      else if negb (zlen record =? PAGE_OVERHEAD + len) then
        Err (Corrupt "page record is {} bytes but declares {len} plus overhead")
      else
        let nonce := sub (PAGE_HEADER_LEN - Nonce.NONCE_LEN) Nonce.NONCE_LEN record in
        let tag := sub (PAGE_HEADER_LEN + len) Aeads.TAG_LEN record in
        let ad := page_ad stream page_no in
        let buf := sub PAGE_HEADER_LEN len record in
        Aeads.open_in_place kind meta_key nonce ad buf tag.
End ops.

(** The record layout, as one equation. *)
Definition page_record (nonce buf tag : bytes) : bytes :=
  le_bytes 2 PAGE_MAGIC ++ le_bytes 4 (zlen buf) ++ nonce ++ buf ++ tag.

(** The nonce field of a page record. *)
Definition page_nonce (record : bytes) : bytes :=
  sub (PAGE_HEADER_LEN - Nonce.NONCE_LEN) Nonce.NONCE_LEN record.

Section lemmas.
Context `{PrimitiveLaws}.

Lemma zlen_page_record nonce buf tag :
  zlen nonce = 12 -> zlen tag = 16 -> zlen (page_record nonce buf tag) = PAGE_OVERHEAD + zlen buf.
Proof.
  intros Hn Ht. unfold page_record. rewrite !zlen_app, !zlen_le_bytes, Hn, Ht.
  change PAGE_OVERHEAD with 34. lia.
Qed.

Lemma seal_page_eq kind key stream no p ns r ns' :
  seal_page kind key stream no p ns = Ok (r, ns') ->
  exists nonce buf tag,
    zlen p <= MAX_PAGE_LEN /\ Nonce.next_nonce ns = Ok (nonce, ns') /\
    Aeads.seal_in_place kind key nonce (page_ad stream no) p = Ok (buf, tag) /\
    r = page_record nonce buf tag.
Proof.
  unfold seal_page. case_match; [done|]. bprop. intros. inv_ok. simplify_eq. eauto 10.
Qed.

Lemma zlen_seal_page kind key stream no p ns r ns' :
  seal_page kind key stream no p ns = Ok (r, ns') -> zlen r = PAGE_OVERHEAD + zlen p.
Proof.
  intros (nonce & buf & tag & _ & Hn & Hs & ->)%seal_page_eq.
  apply Nonce.next_nonce_len in Hn. apply Aeads.seal_len in Hs as [Hb Ht].
  rewrite zlen_page_record by done. by rewrite Hb.
Qed.

Lemma page_nonce_record nonce buf tag :
  zlen nonce = 12 -> page_nonce (page_record nonce buf tag) = nonce.
Proof.
  intros Hn. unfold page_nonce, page_record.
  rewrite sub_skip, sub_skip by (rewrite zlen_le_bytes; done). by apply sub_hit.
Qed.

(** Opening a record whose header and lengths are right is opening its
    ciphertext. *)
Lemma open_page_record kind key stream no nonce buf tag :
  zlen nonce = 12 -> zlen tag = 16 -> zlen buf <= MAX_PAGE_LEN ->
  open_page kind key stream no (page_record nonce buf tag) =
  Aeads.open_in_place kind key nonce (page_ad stream no) buf tag.
Proof.
  intros Hn Ht Hb. unfold open_page. pose proof (zlen_nonneg buf).
  rewrite zlen_page_record by done.
  rewrite (proj2 (Z.ltb_ge _ _)) by lia.
  assert (sub 0 2 (page_record nonce buf tag) = le_bytes 2 PAGE_MAGIC) as ->
    by (unfold page_record; by apply sub_hit; rewrite ?zlen_le_bytes).
  assert (sub 2 4 (page_record nonce buf tag) = le_bytes 4 (zlen buf)) as ->.
  { unfold page_record. rewrite sub_skip by (rewrite zlen_le_bytes; done).
    by apply sub_hit; rewrite ?zlen_le_bytes. }
  rewrite (le_val_bytes_small 4) by (unfold MAX_PAGE_LEN in Hb; change (256 ^ Z.of_nat 4) with (2^32); lia).
  change (le_val (le_bytes 2 PAGE_MAGIC) =? PAGE_MAGIC) with true. cbn [negb].
  rewrite (proj2 (Z.ltb_ge _ _)) by lia. rewrite Z.eqb_refl. cbn [negb].
  fold (page_nonce (page_record nonce buf tag)). rewrite page_nonce_record by done.
  f_equal; unfold page_record, PAGE_HEADER_LEN, Nonce.NONCE_LEN, Aeads.TAG_LEN;
    rewrite 3!sub_skip by (rewrite ?zlen_le_bytes, ?Hn; lia);
    rewrite ?zlen_le_bytes, ?Hn.
  - apply sub_hit; lia.
  - rewrite sub_skip by lia. apply sub_all; lia.
Qed.

Lemma open_page_Ok kind key stream no r p :
  open_page kind key stream no r = Ok p ->
  exists nonce buf tag,
    zlen nonce = 12 /\ zlen tag = 16 /\ zlen buf <= MAX_PAGE_LEN /\
    r = page_record nonce buf tag /\
    Aeads.open_in_place kind key nonce (page_ad stream no) buf tag = Ok p.
Proof.
  unfold open_page. repeat (case_match; [done|]). bprop. intros Ho.
  change PAGE_OVERHEAD with 34 in *.
  pose proof (le_val_bound (sub 2 4 r)) as Hlen.
  exists (sub 6 12 r), (sub 18 (le_val (sub 2 4 r)) r), (sub (18 + le_val (sub 2 4 r)) 16 r).
  assert (zlen (sub 18 (le_val (sub 2 4 r)) r) = le_val (sub 2 4 r)) as Hb
    by (apply zlen_sub; lia).
  split_and!; [by apply zlen_sub; lia|by apply zlen_sub; lia|lia| |done].
  unfold page_record. rewrite Hb.
  match goal with HM : le_val _ = PAGE_MAGIC |- _ => rewrite <- HM end.
  rewrite (le_bytes_val (sub 0 2 r) 2), (le_bytes_val (sub 2 4 r) 4).
  2-3: apply Nat2Z.inj; apply zlen_sub; lia.
  rewrite <- (sub_split 18 (le_val (sub 2 4 r)) 16) by lia.
  rewrite <- (sub_split 6 12) by lia. rewrite <- (sub_split 2 4) by lia.
  rewrite <- (sub_split 0 2) by lia. symmetry. apply sub_all; lia.
Qed.
End lemmas.
End Page.

(** ** Properties *)

(** A page opens under exactly the stream and number it was sealed for.
    [seal_page] refuses payloads over 4 MiB and makes a record of 34 bytes more
    than the payload, which [open_page] turns back into it; and whatever
    [open_page] returns was sealed in this very record, under the same key,
    stream id and page number and the nonce of the record. *)
Theorem page_seal_open `{PrimitiveLaws} kind key stream no :
  (forall p ns, Page.MAX_PAGE_LEN < zlen p ->
     exists what, Page.seal_page kind key stream no p ns = Err (Unsupported what)) /\
  (forall p ns r ns', Page.seal_page kind key stream no p ns = Ok (r, ns') ->
     zlen r = zlen p + 34 /\ Page.open_page kind key stream no r = Ok p) /\
  (forall r p, Page.open_page kind key stream no r = Ok p ->
     exists buf tag, r = Page.page_record (Page.page_nonce r) buf tag /\
       Aeads.seal_in_place kind key (Page.page_nonce r) (Page.page_ad stream no) p = Ok (buf, tag)).
Proof.
  split_and!.
  - intros p ns Hp. unfold Page.seal_page. rewrite (proj2 (Z.ltb_lt _ _)) by done. eauto.
  - intros p ns r ns' Hs. split; [rewrite (Page.zlen_seal_page _ _ _ _ _ _ _ _ Hs);
      change Page.PAGE_OVERHEAD with 34; lia|].
    apply Page.seal_page_eq in Hs as (nonce & buf & tag & Hm & Hn & Ha & ->).
    apply Nonce.next_nonce_len in Hn. apply Aeads.seal_len in Ha as Hl. destruct Hl as [Hb Ht].
    rewrite Page.open_page_record by (done || lia). by apply Aeads.seal_open.
  - intros r p (nonce & buf & tag & Hn & _ & _ & -> & Ha)%Page.open_page_Ok.
    exists buf, tag. rewrite Page.page_nonce_record by done. split; [done|]. by apply Aeads.open_seal.
Qed.
