(* ===== verification/Keys.v ===== *)
(** * Key derivation and wrapping ([crates/lr-crypto/src/kdf.rs], [keys.rs])

    The Argon2id parameter budget and the key hierarchy
    [passphrase -> KEK -> chain key -> (data key, meta key, dedup key)].
    Random bytes read from [/dev/urandom] are arguments; zeroization and the
    process-wide derivation slot have no functional content. *)

From S2P Require Import Prelude Core Crypto.

Module Kdf.
Definition KDF_ID_ARGON2ID : Z := 1.
Definition KEK_LEN : Z := 32.
Definition SALT_LEN : Z := 16.
Definition DEFAULT_M_COST_KIB : Z := 256 * 1024.
Definition DEFAULT_T_COST : Z := 3.
Definition DEFAULT_P_COST : Z := 4.
Definition MAX_M_COST_KIB : Z := 1024 * 1024.
Definition MAX_T_COST : Z := 16.
Definition MAX_P_COST : Z := 16.
Definition MAX_WORK_KIB_PASSES : Z := 4 * 1024 * 1024.

Record KdfParams := { m_cost_kib : Z; t_cost : Z; p_cost : Z }.

Definition params_ok (p : KdfParams) : Prop :=
  u32_ok (m_cost_kib p) /\ u32_ok (t_cost p) /\ u32_ok (p_cost p).

Definition default_params : KdfParams :=
  {| m_cost_kib := DEFAULT_M_COST_KIB; t_cost := DEFAULT_T_COST; p_cost := DEFAULT_P_COST |}.

(** The product is computed on [u64]. *)
Definition check_budget (p : KdfParams) : result unit :=
  let work := wrapping_mul (m_cost_kib p) (t_cost p) in
  if (MAX_M_COST_KIB <? m_cost_kib p) || (MAX_T_COST <? t_cost p)
     || (MAX_P_COST <? p_cost p) || (MAX_WORK_KIB_PASSES <? work)
  then Err (Unsupported "argon2 parameters m={} KiB, t={}, p={} exceed the accepted budget")
  else Ok tt.

Section ops.
Context `{Primitives}.

Definition validate (p : KdfParams) : result unit :=
  ensure (argon2_params_ok (m_cost_kib p) (t_cost p) (p_cost p))
    (Unsupported "argon2 parameters: {e}").

Definition to_argon2 (p : KdfParams) : result KdfParams :=
  check_budget p;;;
  ensure (argon2_params_ok (m_cost_kib p) (t_cost p) (p_cost p))
    (Unsupported "argon2 parameters: {e}");;;
  Ok p.

Definition derive_kek (passphrase salt : bytes) (params : KdfParams) : result bytes :=
  let* params := to_argon2 params in
  ok_or (argon2id passphrase salt (m_cost_kib params) (t_cost params) (p_cost params))
    (Unsupported "argon2: {e}").
End ops.

Lemma check_budget_Ok p :
  params_ok p ->
  (exists u, check_budget p = Ok u) <->
  m_cost_kib p <= MAX_M_COST_KIB /\ t_cost p <= MAX_T_COST /\ p_cost p <= MAX_P_COST /\
  m_cost_kib p * t_cost p <= MAX_WORK_KIB_PASSES.
Proof.
  intros (Hm & Ht & Hp). unfold u32_ok in *. unfold check_budget, wrapping_mul.
  rewrite (Z.mod_small (_ * _)) by nia.
  case_match eqn:E.
  - split; [intros [u Hu]; discriminate|]. intros (H1 & H2 & H3 & H4). exfalso.
    rewrite !orb_true_iff, !Z.ltb_lt in E. lia.
  - split; [|eauto]. intros _. bprop. lia.
Qed.
End Kdf.
Export Kdf (KdfParams).

Module Keys.
Definition CHAIN_KEY_LEN : Z := 32.
Definition WRAP_NONCE_LEN : Z := 12.
Definition WRAPPED_KEY_LEN : Z := CHAIN_KEY_LEN + 16.

(** [b"lrimg-v1/wrap"], [b"lrimg-v1/file"] and [b"lrimg-v1/dedup"]. *)
Definition WRAP_AD_PREFIX : bytes := String.list_byte_of_string "lrimg-v1/wrap".
Definition FILE_INFO : bytes := String.list_byte_of_string "lrimg-v1/file".
Definition DEDUP_INFO : bytes := String.list_byte_of_string "lrimg-v1/dedup".

Record FileKeys := { data_key : bytes; meta_key : bytes }.

Definition wrap_ad (chain_id : Id) : bytes := WRAP_AD_PREFIX ++ chain_id.

Section ops.
Context `{Primitives}.

(** [nonce] is what [rand::random_bytes] returned. *)
Definition wrap_chain_key (nonce kek chain_key : bytes) (chain_id : Id) :
    result (bytes * bytes) :=
  let ad := wrap_ad chain_id in
  let* (ciphertext, tag) := Aeads.seal Aes256Gcm kek nonce ad chain_key in
  Ok (nonce, ciphertext ++ tag).

Definition unwrap_chain_key (kek : bytes) (chain_id : Id) (nonce wrapped : bytes) :
    result bytes :=
  let ad := wrap_ad chain_id in
  let tag := sub CHAIN_KEY_LEN 16 wrapped in
  let* plaintext := Aeads.open Aes256Gcm kek nonce ad (sub 0 CHAIN_KEY_LEN wrapped) tag in
  if zlen plaintext =? CHAIN_KEY_LEN then Ok plaintext else Err Aead.

Definition hkdf_sha256 (ikm salt info : bytes) (length : Z) : result bytes :=
  ok_or (hkdf_sha256_expand salt ikm info length) (Unsupported "hkdf output length").

Definition expand (chain_key salt info : bytes) (length : Z) : result bytes :=
  hkdf_sha256 chain_key salt info length.

Definition file_keys (chain_key : bytes) (image_uuid : Id) : result FileKeys :=
  let* okm := expand chain_key image_uuid FILE_INFO 64 in
  Ok {| data_key := sub 0 32 okm; meta_key := sub 32 32 okm |}.

Definition dedup_key (chain_key : bytes) (chain_id : Id) : result bytes :=
  let* okm := expand chain_key chain_id DEDUP_INFO 32 in
  Ok (sub 0 32 okm).

Context `{!PrimitiveLaws}.

Lemma wrap_unwrap nonce kek chain_key chain_id n w :
  zlen chain_key = 32 ->
  wrap_chain_key nonce kek chain_key chain_id = Ok (n, w) ->
  n = nonce /\ zlen w = 48 /\ unwrap_chain_key kek chain_id n w = Ok chain_key.
Proof.
  intros Hk. unfold wrap_chain_key, unwrap_chain_key. intros H2. inv_ok. simplify_eq.
  destruct (Aeads.seal_len _ _ _ _ _ _ _ E) as [Hb Ht]. rewrite Hk in Hb.
  split; [done|]. split; [rewrite zlen_app; lia|].
  rewrite (sub_hit 0) by (unfold CHAIN_KEY_LEN; lia).
  rewrite sub_skip by (unfold CHAIN_KEY_LEN; lia).
  rewrite sub_all by (unfold CHAIN_KEY_LEN; lia).
  unfold Aeads.open. rewrite (Aeads.seal_open _ _ _ _ _ _ _ E). cbn [bind]. by rewrite Hk.
Qed.

Lemma file_keys_len chain_key image_uuid k :
  file_keys chain_key image_uuid = Ok k -> zlen (data_key k) = 32 /\ zlen (meta_key k) = 32.
Proof.
  unfold file_keys, expand, hkdf_sha256. intros H1. inv_ok. simpl.
  apply ok_or_Ok, hkdf_len in E. split; apply zlen_sub; lia.
Qed.

Lemma dedup_key_len chain_key chain_id k :
  dedup_key chain_key chain_id = Ok k -> zlen k = 32.
Proof.
  unfold dedup_key, expand, hkdf_sha256. intros H1. inv_ok.
  apply ok_or_Ok, hkdf_len in E. apply zlen_sub; lia.
Qed.
End ops.
End Keys.
Export Keys (FileKeys).

(** ** Properties *)

(** Wrapping the chain key under a key-encryption key and unwrapping it
    with the same key and chain id gives it back; a blob that unwraps to a
    chain key was wrapped for that chain id, so it is useless in another
    chain. *)
Theorem chain_key_roundtrip `{PrimitiveLaws} kek chain_id :
  (forall nonce chain_key n w, zlen chain_key = Keys.CHAIN_KEY_LEN ->
     Keys.wrap_chain_key nonce kek chain_key chain_id = Ok (n, w) ->
     n = nonce /\ zlen w = Keys.WRAPPED_KEY_LEN /\
     Keys.unwrap_chain_key kek chain_id n w = Ok chain_key) /\
  (forall nonce w chain_key, zlen w = Keys.WRAPPED_KEY_LEN ->
     Keys.unwrap_chain_key kek chain_id nonce w = Ok chain_key ->
     zlen chain_key = Keys.CHAIN_KEY_LEN /\
     Keys.wrap_chain_key nonce kek chain_key chain_id = Ok (nonce, w)).
Proof.
  split; [intros; by apply Keys.wrap_unwrap|].
  intros nonce w chain_key Hw Hu. unfold Keys.unwrap_chain_key in Hu. inv_ok.
  destruct (zlen v =? Keys.CHAIN_KEY_LEN) eqn:El; [|done]. inv_ok. bprop. split; [done|].
  unfold Keys.wrap_chain_key, Aeads.seal. apply Aeads.open_seal in E. rewrite E. cbn [bind].
  do 2 f_equal. change Keys.WRAPPED_KEY_LEN with 48 in Hw. change Keys.CHAIN_KEY_LEN with 32.
  rewrite <- sub_split by lia. by apply sub_all.
Qed.

(** The key hierarchy gives 32-byte keys or refuses: a KEK is derived only
    from parameters inside the budget (1 GiB, 16 passes, 16 lanes, 4 GiB-passes
    of work) which a header under attack may exceed, and the three keys of an
    image have 32 bytes. *)
Theorem key_hierarchy_bounds `{PrimitiveLaws} :
  (forall pass salt p kek, Kdf.params_ok p -> Kdf.derive_kek pass salt p = Ok kek ->
     Kdf.m_cost_kib p <= 1048576 /\ Kdf.t_cost p <= 16 /\ Kdf.p_cost p <= 16 /\
     Kdf.m_cost_kib p * Kdf.t_cost p <= 4194304) /\
  (forall chain_key image_uuid k, Keys.file_keys chain_key image_uuid = Ok k ->
     zlen (Keys.data_key k) = 32 /\ zlen (Keys.meta_key k) = 32) /\
  (forall chain_key chain_id k, Keys.dedup_key chain_key chain_id = Ok k -> zlen k = 32).
Proof.
  split_and!.
  - intros pass salt p kek Hp Hd. unfold Kdf.derive_kek, Kdf.to_argon2 in Hd. inv_ok.
    apply Kdf.check_budget_Ok; eauto.
  - intros. by eapply Keys.file_keys_len.
  - intros. by eapply Keys.dedup_key_len.
Qed.
