(* ===== verification/Wire.v ===== *)
(** * Wire helpers ([crates/lr-format/src/wire.rs])

    Writers are functions [W -> result W] over a [ByteSink], readers are
    functions [Src -> result (A * Src)] over a [ByteSource]; the two classes are
    the traits of the source, and [ByteSinkLaws] / [ByteSourceLaws] are what
    the rest of the crate relies on. [Vec<u8>] and [Cursor] are the instances
    here, the page streams give two more ([PageStream.v]).

    [emits] and [codec] are the shared specification of every record of the
    format: what a writer appends, and that a reader recovers the value from
    exactly those bytes, leaves the rest of the source alone, and reports
    [Corrupt] on every proper prefix. Both compose. *)

From S2P Require Import Prelude Core.

(** ** The traits *)

Class ByteSink (W : Type) := write_bytes : W -> bytes -> result W.

(** [sink_ok] is the writer's own invariant. A failed write's sink is not
    returned: every caller drops it. *)
Class ByteSinkLaws (W : Type) `{ByteSink W} := {
  sink_ok : W -> Prop;
  write_nil : forall w, sink_ok w -> write_bytes w [] = Ok w;
  write_app : forall w a b, sink_ok w ->
    write_bytes w (a ++ b) = let* w1 := write_bytes w a in write_bytes w1 b;
  write_sink_ok : forall w a w1, sink_ok w -> write_bytes w a = Ok w1 -> sink_ok w1;
}.

Class ByteSource (Src : Type) := read_bytes : Src -> Z -> result (bytes * Src).

(** [holds s l]: the bytes still to be read from [s] are [l]. *)
Class ByteSourceLaws (Src : Type) `{ByteSource Src} := {
  holds : Src -> bytes -> Prop;
  read_holds : forall s a b, holds s (a ++ b) ->
    exists s1, read_bytes s (zlen a) = Ok (a, s1) /\ holds s1 b;
  read_short : forall s l n, holds s l -> zlen l < n ->
    exists what, read_bytes s n = Err (Corrupt what);
}.

(** [Vec<u8>] through [impl ByteSink for W: Write]. *)
#[export] Instance vec_sink : ByteSink bytes := fun w b => Ok (w ++ b).

#[export] Instance vec_sink_laws : ByteSinkLaws bytes.
Proof.
  refine {| sink_ok := fun _ => True |}; intros; unfold write_bytes, vec_sink in *; simpl.
  - by rewrite app_nil_r.
  - by rewrite app_assoc.
  - done.
Defined.

(** [Cursor<&[u8]>] through [impl ByteSource for R: Read]: the state is what
    is left to read. *)
#[export] Instance cursor_source : ByteSource bytes := fun s n =>
  if n <=? zlen s then Ok (ztake n s, zdrop n s)
  else Err (Corrupt "unexpected end of image data").

#[export] Instance cursor_source_laws : ByteSourceLaws bytes.
Proof.
  refine {| holds := fun s l => s = l |}; unfold read_bytes, cursor_source.
  - intros s a b ->. exists b.
    rewrite (proj2 (Z.leb_le _ _)) by (rewrite zlen_app; pose proof (zlen_nonneg b); lia).
    by rewrite ztake_app_exact, zdrop_app_exact.
  - intros s l n -> Hn. rewrite (proj2 (Z.leb_gt _ _)) by lia. eauto.
Defined.

(** ** Writers *)
Section writers.
Context `{ByteSink W}.

Definition put_u8 (value : Z) (out : W) : result W := write_bytes out [z2b value].
Definition put_u16 (value : Z) (out : W) : result W := write_bytes out (le_bytes 2 value).
Definition put_u32 (value : Z) (out : W) : result W := write_bytes out (le_bytes 4 value).
Definition put_u64 (value : Z) (out : W) : result W := write_bytes out (le_bytes 8 value).
Definition put_i64 (value : Z) (out : W) : result W := write_bytes out (le_bytes 8 value).
Definition put_id (value : Id) (out : W) : result W := write_bytes out value.
Definition put_bytes (b : bytes) (out : W) : result W := write_bytes out b.

(** [u16::try_from(len)] guards the prefix. *)
Definition put_u16_prefixed (b : bytes) (out : W) : result W :=
  if zlen b <? 2 ^ 16 then
    let* out := put_u16 (zlen b) out in put_bytes b out
  else Err (Unsupported "string longer than 65535 bytes").

Definition put_u32_prefixed (b : bytes) (out : W) : result W :=
  if zlen b <? 2 ^ 32 then
    let* out := put_u32 (zlen b) out in put_bytes b out
  else Err (Unsupported "string longer than 4294967295 bytes").

(** [for x in l { put(x)? }]. *)
Fixpoint put_all {A} (put : A -> W -> result W) (l : list A) (out : W) : result W :=
  match l with
  | [] => Ok out
  | x :: l => let* out := put x out in put_all put l out
  end.
End writers.

(** ** [for _ in 0..n] with [?]

    [n] may be any [u64] a corrupt file declares; the iteration is by the
    binary representation, and stops at the first error. *)
Fixpoint pos_iterM {A} (p : positive) (f : A -> result A) (st : A) : result A :=
  match p with
  | xH => f st
  | xO p => let* st := pos_iterM p f st in pos_iterM p f st
  | xI p => let* st := f st in let* st := pos_iterM p f st in pos_iterM p f st
  end.

Definition iterM {A} (n : Z) (f : A -> result A) (st : A) : result A :=
  match n with Zpos p => pos_iterM p f st | _ => Ok st end.

Fixpoint nat_iterM {A} (n : nat) (f : A -> result A) (st : A) : result A :=
  match n with O => Ok st | S n => let* st := f st in nat_iterM n f st end.

Lemma nat_iterM_app {A} n m (f : A -> result A) st :
  nat_iterM (n + m) f st = let* st := nat_iterM n f st in nat_iterM m f st.
Proof.
  revert st. induction n as [|n IH]; intros st; [done|]. simpl.
  rewrite bind_assoc. apply bind_ext. intros. apply IH.
Qed.

Lemma pos_iterM_nat {A} p (f : A -> result A) st :
  pos_iterM p f st = nat_iterM (Pos.to_nat p) f st.
Proof.
  revert st. induction p as [p IH|p IH|]; intros st.
  - rewrite Pos2Nat.inj_xI. cbn [pos_iterM nat_iterM].
    apply bind_ext. intros a _. replace (2 * Pos.to_nat p)%nat with (Pos.to_nat p + Pos.to_nat p)%nat by lia.
    rewrite nat_iterM_app, IH. apply bind_ext. auto.
  - rewrite Pos2Nat.inj_xO. replace (2 * Pos.to_nat p)%nat with (Pos.to_nat p + Pos.to_nat p)%nat by lia.
    cbn [pos_iterM]. rewrite nat_iterM_app, IH. apply bind_ext. auto.
  - simpl. by rewrite bind_ret.
Qed.

Lemma iterM_nat {A} n (f : A -> result A) st : iterM (Z.of_nat n) f st = nat_iterM n f st.
Proof.
  destruct n as [|n]; [done|]. change (iterM (Z.of_nat (S n)) f st) with (pos_iterM (Pos.of_succ_nat n) f st).
  by rewrite pos_iterM_nat, SuccNat2Pos.id_succ.
Qed.

(** What every turn keeps, the loop keeps. *)
Lemma iterM_inv {A} (I : A -> Prop) n (f : A -> result A) st st' :
  (forall a b, I a -> f a = Ok b -> I b) -> I st -> iterM n f st = Ok st' -> I st'.
Proof.
  intros Hf. destruct n as [|p|p]; cbn [iterM]; [by intros ? [= <-]| |by intros ? [= <-]].
  revert st st'. induction p as [p IH|p IH|]; intros st st' Hi Hr; cbn [pos_iterM] in Hr; [| |by eapply Hf].
  - apply bind_Ok in Hr as (a & Ha & Hr). apply bind_Ok in Hr as (b & Hb & Hr). eauto.
  - apply bind_Ok in Hr as (a & Ha & Hr). eauto.
Qed.

(** ** [Reader<S>] *)
Module Reader.
Section reader.
Context `{ByteSource Src}.

Definition read_array (n : Z) (s : Src) : result (bytes * Src) := read_bytes s n.

Definition u8 (s : Src) : result (Z * Src) :=
  let* (b, s) := read_array 1 s in Ok (le_val b, s).
Definition u16 (s : Src) : result (Z * Src) :=
  let* (b, s) := read_array 2 s in Ok (le_val b, s).
Definition u32 (s : Src) : result (Z * Src) :=
  let* (b, s) := read_array 4 s in Ok (le_val b, s).
Definition u64 (s : Src) : result (Z * Src) :=
  let* (b, s) := read_array 8 s in Ok (le_val b, s).
Definition i64 (s : Src) : result (Z * Src) :=
  let* (b, s) := read_array 8 s in Ok (i64_of_u64 (le_val b), s).
(** [bytes(len)] and [array::<N>()]. *)
Definition bytes (len : Z) (s : Src) : result (Prelude.bytes * Src) := read_bytes s len.
Definition array (n : Z) (s : Src) : result (Prelude.bytes * Src) := read_array n s.
Definition id (s : Src) : result (Id * Src) := read_array 16 s.
Definition u16_prefixed (s : Src) : result (Prelude.bytes * Src) :=
  let* (len, s) := u16 s in bytes len s.
Definition u32_prefixed (s : Src) : result (Prelude.bytes * Src) :=
  let* (len, s) := u32 s in bytes len s.

(** [for _ in 0..n { v.push(read()?) }]. *)
Definition push_n {A} (read : Src -> result (A * Src)) (n : Z) (s : Src) : result (list A * Src) :=
  iterM n (fun '(acc, s) => let* (x, s) := read s in Ok (acc ++ [x], s)) ([], s).
End reader.
End Reader.

(** [slice_u16], [slice_u32], [slice_u64]. *)
Definition slice_u16 (b : bytes) : result Z :=
  if zlen b <? 2 then Err (Corrupt "slice shorter than 2 bytes") else Ok (le_val (sub 0 2 b)).
Definition slice_u32 (b : bytes) : result Z :=
  if zlen b <? 4 then Err (Corrupt "slice shorter than 4 bytes") else Ok (le_val (sub 0 4 b)).
Definition slice_u64 (b : bytes) : result Z :=
  if zlen b <? 8 then Err (Corrupt "slice shorter than 8 bytes") else Ok (le_val (sub 0 8 b)).

Lemma slice_u32_zdrop off b :
  0 <= off -> off + 4 <= zlen b -> slice_u32 (zdrop off b) = Ok (le_val (sub off 4 b)).
Proof.
  intros. unfold slice_u32. rewrite zlen_zdrop, (proj2 (Z.ltb_ge _ _)) by lia.
  unfold sub. by rewrite (zdrop_nonpos 0) by lia.
Qed.

Lemma slice_u64_zdrop off b :
  0 <= off -> off + 8 <= zlen b -> slice_u64 (zdrop off b) = Ok (le_val (sub off 8 b)).
Proof.
  intros. unfold slice_u64. rewrite zlen_zdrop, (proj2 (Z.ltb_ge _ _)) by lia.
  unfold sub. by rewrite (zdrop_nonpos 0) by lia.
Qed.

Lemma slice_u16_zdrop off b :
  0 <= off -> off + 2 <= zlen b -> slice_u16 (zdrop off b) = Ok (le_val (sub off 2 b)).
Proof.
  intros. unfold slice_u16. rewrite zlen_zdrop, (proj2 (Z.ltb_ge _ _)) by lia.
  unfold sub. by rewrite (zdrop_nonpos 0) by lia.
Qed.

(** ** What a writer appends *)
Section emits.
Context `{ByteSinkLaws W}.

Definition emits (w : W -> result W) (b : bytes) : Prop :=
  forall out, sink_ok out -> w out = write_bytes out b.

Lemma emits_seq w1 w2 b1 b2 :
  emits w1 b1 -> emits w2 b2 -> emits (fun out => let* out := w1 out in w2 out) (b1 ++ b2).
Proof.
  intros H1 H2 out Hok. rewrite write_app, H1 by done.
  apply bind_ext. intros a Ha. apply H2. eauto using write_sink_ok.
Qed.

Lemma emits_ret : emits (fun out => Ok out) [].
Proof. intros out Hok. by rewrite write_nil. Qed.

Lemma emits_last w b : emits w b -> emits (fun out => let* out := w out in Ok out) b.
Proof. intros Hw out Hok. rewrite bind_ret. by apply Hw. Qed.

Lemma emits_put_u8 v : emits (put_u8 v) (le_bytes 1 v).
Proof. by intros out _. Qed.
Lemma emits_put_u16 v : emits (put_u16 v) (le_bytes 2 v).
Proof. by intros out _. Qed.
Lemma emits_put_u32 v : emits (put_u32 v) (le_bytes 4 v).
Proof. by intros out _. Qed.
Lemma emits_put_u64 v : emits (put_u64 v) (le_bytes 8 v).
Proof. by intros out _. Qed.
Lemma emits_put_i64 v : emits (put_i64 v) (le_bytes 8 v).
Proof. by intros out _. Qed.
Lemma emits_put_id v : emits (put_id v) v.
Proof. by intros out _. Qed.
Lemma emits_put_bytes b : emits (put_bytes b) b.
Proof. by intros out _. Qed.
Lemma emits_write b : emits (fun out => write_bytes out b) b.
Proof. by intros out _. Qed.

Lemma emits_put_u16_prefixed b :
  zlen b < 2 ^ 16 -> emits (put_u16_prefixed b) (le_bytes 2 (zlen b) ++ b).
Proof.
  intros Hb out Hok. unfold put_u16_prefixed. rewrite (proj2 (Z.ltb_lt _ _)) by done.
  by apply (emits_seq _ _ _ _ (emits_put_u16 _) (emits_put_bytes b)).
Qed.

Lemma emits_put_u32_prefixed b :
  zlen b < 2 ^ 32 -> emits (put_u32_prefixed b) (le_bytes 4 (zlen b) ++ b).
Proof.
  intros Hb out Hok. unfold put_u32_prefixed. rewrite (proj2 (Z.ltb_lt _ _)) by done.
  by apply (emits_seq _ _ _ _ (emits_put_u32 _) (emits_put_bytes b)).
Qed.

Lemma emits_put_all {A} (put : A -> W -> result W) (enc : A -> bytes) (l : list A) :
  (forall x, In x l -> emits (put x) (enc x)) -> emits (put_all put l) (concat (map enc l)).
Proof.
  induction l as [|x l IH]; intros Hl; [apply emits_ret|].
  apply (emits_seq _ _ _ _ (Hl x (or_introl eq_refl))). apply IH. intros. apply Hl. by right.
Qed.

(** A successful prefixed write had a length that fits. *)
Lemma put_u16_prefixed_fits b out out1 :
  put_u16_prefixed b out = Ok out1 -> zlen b < 2 ^ 16.
Proof. unfold put_u16_prefixed. case_match; bprop; done. Qed.
Lemma put_u32_prefixed_fits b out out1 :
  put_u32_prefixed b out = Ok out1 -> zlen b < 2 ^ 32.
Proof. unfold put_u32_prefixed. case_match; bprop; done. Qed.
End emits.

Create HintDb emits discriminated.
#[export] Hint Resolve emits_put_u8 emits_put_u16 emits_put_u32 emits_put_u64 emits_put_i64
  emits_put_id emits_put_bytes emits_write : emits.
#[export] Hint Resolve emits_put_u16_prefixed emits_put_u32_prefixed : emits.
#[export] Hint Extern 5 (_ < _) => first [assumption | lia] : emits.

(** Walk through a straight-line writer. *)
Ltac emits_step :=
  lazymatch goal with
  | |- emits (fun out => bind (_ out) (fun o => Ok o)) _ => apply emits_last; [solve [eauto with emits]]
  | |- emits (fun out => bind (?w out) _) _ => apply emits_seq; [solve [eauto with emits]|]
  | |- emits (fun out => ?w out) _ => solve [eauto with emits]
  end.

(** ** What a reader recovers *)
Section codec.
Context `{ByteSourceLaws Src}.

(** [r] reads [a] from the bytes [b] and nothing else, and fails with
    [Corrupt] when the source ends inside [b]. *)
Definition codec {A} (r : Src -> result (A * Src)) (b : bytes) (a : A) : Prop :=
  (forall s rest, holds s (b ++ rest) -> exists s1, r s = Ok (a, s1) /\ holds s1 rest) /\
  (forall s l, holds s l -> l `prefix_of` b -> l <> b ->
    exists what, r s = Err (Corrupt what)).

Lemma codec_ret {A} (a : A) : codec (fun s => Ok (a, s)) [] a.
Proof.
  split.
  - intros s rest Hs. eauto.
  - intros s l _ Hp Hne. by apply prefix_nil_inv in Hp.
Qed.

(** The last field of a record. *)
Lemma codec_tail {A} (r : Src -> result (A * Src)) b a : codec r (b ++ []) a -> codec r b a.
Proof. by rewrite app_nil_r. Qed.

Lemma codec_bind {A B} (r : Src -> result (A * Src)) (k : A -> Src -> result (B * Src)) b1 b2 a c :
  codec r b1 a -> codec (k a) b2 c ->
  codec (fun s => let* (x, s1) := r s in k x s1) (b1 ++ b2) c.
Proof.
  intros [R1 T1] [R2 T2]. split.
  - intros s rest Hs. rewrite <- app_assoc in Hs.
    destruct (R1 _ _ Hs) as (s1 & -> & Hs1). exact (R2 _ _ Hs1).
  - intros s l Hs Hp Hne. destruct (decide (b1 `prefix_of` l)) as [[l2 ->]|Hn].
    + apply prefix_app_inv in Hp. destruct (R1 _ _ Hs) as (s1 & -> & Hs1).
      apply (T2 s1 l2); [done..|]. by intros ->.
    + assert (l `prefix_of` b1) as Hl.
      { destruct (prefix_weak_total l b1 (b1 ++ b2)) as [?|?]; [done|by exists b2|done|].
        by destruct Hn. }
      destruct (T1 s l Hs Hl) as [what ->]; [by intros ->; apply Hn|]. eauto.
Qed.

Lemma codec_ensure {A} (c : bool) e (k : Src -> result (A * Src)) b a :
  c = true -> codec k b a -> codec (fun s => ensure c e;;; k s) b a.
Proof. intros ->. done. Qed.

Lemma codec_if {A} (c : bool) e (k : Src -> result (A * Src)) b a :
  c = false -> codec k b a -> codec (fun s => if c then Err e else k s) b a.
Proof. intros ->. done. Qed.

Lemma codec_pure {A B} (m : result B) x (k : B -> Src -> result (A * Src)) b a :
  m = Ok x -> codec (k x) b a -> codec (fun s => let* y := m in k y s) b a.
Proof. intros ->. done. Qed.

Lemma codec_read n b : n = zlen b -> codec (fun s => read_bytes s n) b b.
Proof.
  intros ->. split.
  - intros s rest Hs. by apply read_holds.
  - intros s l Hs [k ->] Hne. apply (read_short s l _ Hs).
    rewrite zlen_app. destruct k; [by rewrite app_nil_r in Hne|].
    rewrite zlen_cons. pose proof (zlen_nonneg k). lia.
Qed.

Lemma codec_map {A B} (r : Src -> result (A * Src)) (f : A -> B) b a :
  codec r b a -> codec (fun s => let* (x, s1) := r s in Ok (f x, s1)) b (f a).
Proof.
  intros Hr. rewrite <- (app_nil_r b). apply (codec_bind r (fun x s => Ok (f x, s)) _ _ a).
  - done.
  - apply codec_ret.
Qed.

Lemma codec_uint (n : nat) v (r : Src -> result (Z * Src)) :
  (forall s, r s = let* (b, s) := read_bytes s (Z.of_nat n) in Ok (le_val b, s)) ->
  0 <= v < 256 ^ Z.of_nat n -> codec r (le_bytes n v) v.
Proof.
  intros Hr Hv. rewrite <- (le_val_bytes_small n v Hv) at 2.
  destruct (codec_map (fun s => read_bytes s (Z.of_nat n)) le_val (le_bytes n v) (le_bytes n v))
    as [R T]; [apply codec_read; by rewrite zlen_le_bytes|].
  split; intros; rewrite Hr; eauto.
Qed.

Lemma codec_u8 v : u8_ok v -> codec Reader.u8 (le_bytes 1 v) v.
Proof. intros. by apply (codec_uint 1). Qed.
Lemma codec_u16 v : u16_ok v -> codec Reader.u16 (le_bytes 2 v) v.
Proof. intros. by apply (codec_uint 2). Qed.
Lemma codec_u32 v : u32_ok v -> codec Reader.u32 (le_bytes 4 v) v.
Proof. intros. by apply (codec_uint 4). Qed.
Lemma codec_u64 v : u64_ok v -> codec Reader.u64 (le_bytes 8 v) v.
Proof. intros. by apply (codec_uint 8). Qed.

Lemma codec_i64 v : i64_ok v -> codec Reader.i64 (le_bytes 8 v) v.
Proof.
  intros Hv. unfold Reader.i64, Reader.read_array.
  pose proof (codec_map (fun s => read_bytes s 8) (fun b => i64_of_u64 (le_val b))
    (le_bytes 8 v) (le_bytes 8 v)) as HC.
  cbv beta in HC. rewrite le_val_bytes in HC.
  change (256 ^ Z.of_nat 8) with (2 ^ 64) in HC. rewrite i64_of_u64_mod in HC by done.
  apply HC, codec_read. by rewrite zlen_le_bytes.
Qed.

Lemma codec_bytes n b : n = zlen b -> codec (Reader.bytes n) b b.
Proof. apply codec_read. Qed.
Lemma codec_array n b : zlen b = n -> codec (Reader.array n) b b.
Proof. intros <-. by apply codec_read. Qed.
Lemma codec_id i : id_ok i -> codec Reader.id i i.
Proof. intros Hi. by apply codec_read. Qed.

Lemma codec_u16_prefixed b :
  zlen b < 2 ^ 16 -> codec Reader.u16_prefixed (le_bytes 2 (zlen b) ++ b) b.
Proof.
  intros Hb. apply (codec_bind Reader.u16 Reader.bytes _ _ (zlen b)); [|by apply codec_bytes].
  apply codec_u16. split; [apply zlen_nonneg|done].
Qed.

Lemma codec_u32_prefixed b :
  zlen b < 2 ^ 32 -> codec Reader.u32_prefixed (le_bytes 4 (zlen b) ++ b) b.
Proof.
  intros Hb. apply (codec_bind Reader.u32 Reader.bytes _ _ (zlen b)); [|by apply codec_bytes].
  apply codec_u32. split; [apply zlen_nonneg|done].
Qed.

Lemma nat_iterM_push_acc {A} (read : Src -> result (A * Src)) n acc s :
  nat_iterM n (fun '(acc, s) => let* (x, s) := read s in Ok (acc ++ [x], s)) (acc, s) =
  let* (l, s) := nat_iterM n (fun '(acc, s) => let* (x, s) := read s in Ok (acc ++ [x], s)) ([], s) in
  Ok (acc ++ l, s).
Proof.
  revert acc s. induction n as [|n IH]; intros acc s; simpl; [by rewrite app_nil_r|].
  destruct (read s) as [[x s1]|e]; simpl; [|done].
  rewrite IH. rewrite (IH [x] s1). rewrite bind_assoc. apply bind_ext.
  intros [l s2] _. simpl. by rewrite <- app_assoc.
Qed.

Lemma push_n_succ {A} (read : Src -> result (A * Src)) n s :
  0 <= n ->
  Reader.push_n read (1 + n) s =
  let* (x, s) := read s in let* (l, s) := Reader.push_n read n s in Ok (x :: l, s).
Proof.
  intros Hn. unfold Reader.push_n. destruct (Z_of_nat_complete n Hn) as [m ->].
  replace (1 + Z.of_nat m) with (Z.of_nat (S m)) by lia.
  rewrite iterM_nat. cbn [nat_iterM].
  destruct (read s) as [[x s1]|e]; [|done]. cbn [bind app].
  rewrite nat_iterM_push_acc, iterM_nat. done.
Qed.

Lemma codec_push_n {A} (read : Src -> result (A * Src)) (enc : A -> bytes) l n :
  n = zlen l -> (forall x, In x l -> codec read (enc x) x) ->
  codec (Reader.push_n read n) (concat (map enc l)) l.
Proof.
  intros -> Hl. induction l as [|x l IH].
  - apply codec_ret.
  - rewrite zlen_cons. cbn [map concat].
    assert (codec (fun s => let* (x, s) := read s in
              let* (l, s) := Reader.push_n read (zlen l) s in Ok (x :: l, s))
              (enc x ++ concat (map enc l)) (x :: l)) as [R T].
    { apply (codec_bind read (fun x s => let* (l, s) := Reader.push_n read (zlen l) s in
        Ok (x :: l, s)) _ _ x).
      - apply Hl. by left.
      - apply (codec_map (Reader.push_n read (zlen l)) (cons x)). apply IH.
        intros. apply Hl. by right. }
    split; intros; rewrite push_n_succ by apply zlen_nonneg; eauto.
Qed.
End codec.

(** On a cursor, [codec] is an equation. *)
Lemma codec_cursor {A} (r : bytes -> result (A * bytes)) b a rest :
  codec r b a -> r (b ++ rest) = Ok (a, rest).
Proof. intros [Hr _]. destruct (Hr (b ++ rest) rest eq_refl) as (s1 & -> & Hs). by rewrite Hs. Qed.

(** A constant of the format is in its range. *)
Ltac literal_range := split; vm_compute; first [reflexivity | discriminate].

Create HintDb codec discriminated.
#[export] Hint Resolve codec_u8 codec_u16 codec_u32 codec_u64 codec_i64 codec_bytes codec_array
  codec_id codec_u16_prefixed codec_u32_prefixed : codec.
#[export] Hint Extern 5 (u8_ok _) => first [assumption | unfold u8_ok; lia | literal_range] : codec.
#[export] Hint Extern 5 (u16_ok _) => first [assumption | unfold u16_ok; lia | literal_range] : codec.
#[export] Hint Extern 5 (u32_ok _) => first [assumption | unfold u32_ok; lia | literal_range] : codec.
#[export] Hint Extern 5 (u64_ok _) => first [assumption | unfold u64_ok; lia | literal_range] : codec.
#[export] Hint Extern 5 (i64_ok _) => assumption : codec.
#[export] Hint Extern 5 (id_ok _) => assumption : codec.
#[export] Hint Extern 5 (_ < _) => first [assumption | lia] : codec.
#[export] Hint Extern 5 (_ = zlen _) => first [assumption | reflexivity | len] : codec.
#[export] Hint Extern 5 (zlen _ = _) => first [assumption | reflexivity | len] : codec.

(** Walk through a straight-line reader; side conditions of the tests in it
    are left when they do not compute. *)
Ltac codec_step :=
  cbv beta;
  lazymatch goal with
  | |- codec (fun s => if _ then Err _ else _) _ _ =>
      apply codec_if; [try reflexivity|]
  | |- codec (fun s => bind (ensure _ _) _) _ _ => apply codec_ensure; [try reflexivity|]
  | |- codec (fun s => bind (?r s) _) _ _ =>
      first [ eapply codec_bind; [solve [eauto with codec]|]
            | apply codec_tail; eapply codec_bind; [solve [eauto with codec]|] ]
  | |- codec (fun s => bind ?m _) _ _ => eapply codec_pure; [try reflexivity|]
  | |- codec (fun s => Ok (_, s)) [] _ => apply codec_ret
  end.

(** ** Readers on hostile input

    On any byte string at all a reader of a cursor either reports corruption or
    returns a value, and then it has consumed at least [k] bytes and never
    ends up with more than it was given. *)
Section robust.
Definition corrupt_only {A} (m : result A) : Prop :=
  match m with Ok _ => True | Err e => exists what, e = Corrupt what end.

Definition robust {A} (k : Z) (r : bytes -> result (A * bytes)) : Prop :=
  forall s, match r s with
  | Ok (_, s1) => zlen s1 + k <= zlen s
  | Err e => exists what, e = Corrupt what
  end.

Lemma robust_read n : 0 <= n -> robust n (fun s => read_bytes s n).
Proof.
  intros Hn s. unfold read_bytes, cursor_source. destruct (Z.leb_spec n (zlen s)); [|eauto].
  rewrite zlen_zdrop. lia.
Qed.

Lemma robust_ret {A} (a : A) : robust 0 (fun s => Ok (a, s)).
Proof. intros s. lia. Qed.

Lemma robust_err {A} k what : robust (A := A) k (fun s => Err (Corrupt what)).
Proof. intros s. eauto. Qed.

Lemma robust_weaken {A} k k' (r : bytes -> result (A * bytes)) : k' <= k -> robust k r -> robust k' r.
Proof. intros Hk Hr s. specialize (Hr s). destruct (r s) as [[? ?]|]; [lia|done]. Qed.

Lemma robust_bind {A B} k1 k2 (r : bytes -> result (A * bytes)) (f : A -> bytes -> result (B * bytes)) :
  robust k1 r -> (forall a, robust k2 (f a)) ->
  robust (k1 + k2) (fun s => let* (x, s) := r s in f x s).
Proof.
  intros Hr Hf s. specialize (Hr s). destruct (r s) as [[a s1]|]; [|done]. cbn [bind].
  specialize (Hf a s1). destruct (f a s1) as [[b s2]|]; [lia|done].
Qed.

Lemma robust_bind_0 {A B} k (r : bytes -> result (A * bytes)) (f : A -> bytes -> result (B * bytes)) :
  robust k r -> 0 <= k -> (forall a, robust 0 (f a)) ->
  robust 0 (fun s => let* (x, s) := r s in f x s).
Proof. intros Hr Hk Hf. apply (robust_weaken (k + 0)); [lia|]. by apply robust_bind. Qed.

Lemma robust_pure {A B} k (m : result A) (f : A -> bytes -> result (B * bytes)) :
  corrupt_only m -> (forall a, robust k (f a)) -> robust k (fun s => let* x := m in f x s).
Proof. intros Hm Hf s. destruct m; [apply Hf|exact Hm]. Qed.

Lemma robust_if {A} k (c : bool) (r1 r2 : bytes -> result (A * bytes)) :
  robust k r1 -> robust k r2 -> robust k (fun s => if c then r1 s else r2 s).
Proof. by destruct c. Qed.

Lemma robust_uint n : 0 <= n -> robust n (fun s => let* (b, s) := read_bytes s n in Ok (le_val b, s)).
Proof.
  intros Hn. apply (robust_weaken (n + 0)); [lia|].
  apply (robust_bind _ _ (fun s => read_bytes s n) (fun b s => Ok (le_val b, s)));
    [by apply robust_read|intros; apply robust_ret].
Qed.

Lemma robust_u8 : robust 1 Reader.u8. Proof. by apply (robust_uint 1). Qed.
Lemma robust_u16 : robust 2 Reader.u16. Proof. by apply (robust_uint 2). Qed.
Lemma robust_u32 : robust 4 Reader.u32. Proof. by apply (robust_uint 4). Qed.
Lemma robust_u64 : robust 8 Reader.u64. Proof. by apply (robust_uint 8). Qed.
Lemma robust_id : robust 16 Reader.id. Proof. by apply robust_read. Qed.
Lemma robust_array n : 0 <= n -> robust n (Reader.array n). Proof. apply robust_read. Qed.

Lemma robust_i64 : robust 8 Reader.i64.
Proof.
  apply (robust_weaken (8 + 0)); [lia|].
  apply (robust_bind _ _ (fun s => read_bytes s 8) (fun b s => Ok (i64_of_u64 (le_val b), s)));
    [by apply robust_read|intros; apply robust_ret].
Qed.

(** A declared length is that of the bytes returned. *)
Lemma robust_bytes_of (read : bytes -> result (Z * bytes)) k :
  0 <= k -> robust k read -> (forall s n s1, read s = Ok (n, s1) -> 0 <= n) ->
  robust k (fun s => let* (len, s) := read s in Reader.bytes len s).
Proof.
  intros Hk Hr Hn s. specialize (Hr s). destruct (read s) as [[n s1]|] eqn:E; [|done]. cbn [bind].
  apply Hn in E. pose proof (robust_read n E s1) as Hb. cbv beta in Hb. unfold Reader.bytes.
  destruct (read_bytes s1 n) as [[? ?]|]; [lia|done].
Qed.

Lemma robust_u16_prefixed : robust 2 Reader.u16_prefixed.
Proof.
  apply robust_bytes_of; [done|apply robust_u16|]. intros s n s1 Hs.
  unfold Reader.u16, Reader.read_array in Hs. inv_ok. apply le_val_bound.
Qed.

Lemma robust_u32_prefixed : robust 4 Reader.u32_prefixed.
Proof.
  apply robust_bytes_of; [done|apply robust_u32|]. intros s n s1 Hs.
  unfold Reader.u32, Reader.read_array in Hs. inv_ok. apply le_val_bound.
Qed.

Lemma robust_push_n {A} k (read : bytes -> result (A * bytes)) n :
  0 <= k -> robust k read -> robust 0 (Reader.push_n read n).
Proof.
  intros Hk Hr. destruct (Z.le_gt_cases n 0) as [Hn|Hn].
  { unfold Reader.push_n. destruct n as [|p|p]; [apply robust_ret|lia|apply robust_ret]. }
  rewrite <- (Z2Nat.id n) by lia. induction (Z.to_nat n) as [|m IH]; [apply robust_ret|].
  intros s. rewrite Nat2Z.inj_succ. replace (Z.succ _) with (1 + Z.of_nat m) by lia.
  rewrite push_n_succ by lia. revert s.
  apply (robust_bind_0 k read (fun x s => let* (l, s) := Reader.push_n read (Z.of_nat m) s in
    Ok (x :: l, s))); [done..|]. intros a.
  apply (robust_bind_0 0 _ (fun l s => Ok (a :: l, s)) IH); [done|]. intros. apply robust_ret.
Qed.
End robust.

Create HintDb robust discriminated.
#[export] Hint Resolve robust_u8 robust_u16 robust_u32 robust_u64 robust_i64 robust_id
  robust_u16_prefixed robust_u32_prefixed : robust.
#[export] Hint Extern 5 (_ <= _) => first [assumption | lia] : robust.

(** Walk through a reader, forgetting how much it consumes. *)
Ltac robust_step :=
  cbv beta;
  lazymatch goal with
  | |- robust _ (fun s => if _ then _ else _) => apply robust_if
  | |- robust _ (fun s => Err (Corrupt _)) => apply robust_err
  | |- robust _ (fun s => Ok (_, s)) => apply robust_ret
  | |- robust 0 (fun s => bind (?r s) _) =>
      eapply robust_bind_0; [solve [eauto with robust]|solve [eauto with robust]|intros]
  | |- robust _ (fun s => bind ?m _) => apply robust_pure; [|intros]
  end.
