(* ===== verification/Superblock.v ===== *)
(** * The image superblock ([crates/lr-format/src/sb.rs])

    A 4096-byte header of fixed fields, an unkeyed hash over its first 1024
    bytes and a MAC over everything before the MAC. *)

From S2P Require Import Prelude Core Crypto Keys Wire.

Definition SB_SIZE : Z := 4096.
(** [b"LRIMG\x01\0\0"]. *)
Definition SB_MAGIC : bytes :=
  [Byte.x4c; Byte.x52; Byte.x49; Byte.x4d; Byte.x47; Byte.x01; Byte.x00; Byte.x00].
Definition FORMAT_MAJOR : Z := 1.
Definition MIN_READER : Z := 1.
Definition SB_HASH_OFFSET : Z := 1024.
Definition SB_MAC_OFFSET : Z := 1056.
Definition SUPERBLOCK_COPY_LEN : Z := SB_HASH_OFFSET.
Definition MIN_CHUNK_SIZE : Z := 256 * 1024.
Definition MAX_CHUNK_SIZE : Z := 4 * 1024 * 1024.

Module SbFlags.
Definition ENCRYPTED : Z := 1.
Definition COMPRESSED : Z := 2.
Definition DELTA_MANIFEST : Z := 4.
Definition WHOLE_DISK : Z := 8.
Definition INCONSISTENT : Z := 16.

(** [flags & bit != 0]. *)
Definition has (flags bit : Z) : bool := negb (Z.land flags bit =? 0).
End SbFlags.

Record Superblock := {
  format_major : Z;
  min_reader : Z;
  flags : Z;
  image_kind : ImageKind;
  consistency : Consistency;
  image_uuid : Id;
  chain_id : Id;
  set_id : Id;
  parent_uuid : Id;
  seq_in_chain : Z;
  created_unix : Z;
  source_size_bytes : Z;
  logical_block_size : Z;
  chunk_size : Z;
  kdf_id : Z;
  aead_id : Z;
  kdf_salt : bytes;
  argon2_m_cost_kib : Z;
  argon2_t_cost : Z;
  argon2_p_cost : Z;
  wrap_nonce : bytes;
  wrapped_chain_key : bytes;
}.

(** Reduce the projections of a constructed superblock, and nothing else. *)
Ltac sb_proj :=
  cbn [format_major min_reader flags image_kind consistency image_uuid chain_id set_id
       parent_uuid seq_in_chain created_unix source_size_bytes logical_block_size chunk_size
       kdf_id aead_id kdf_salt argon2_m_cost_kib argon2_t_cost argon2_p_cost wrap_nonce
       wrapped_chain_key] in *.

Definition is_power_of_two_in_range (value min max : Z) : bool :=
  is_power_of_two value && ((min <=? value) && (value <=? max)).

Module Sb.
Definition aead_kind (s : Superblock) : result AeadKind := Aeads.from_id (aead_id s).

Definition kdf_params (s : Superblock) : KdfParams :=
  {| Kdf.m_cost_kib := argon2_m_cost_kib s; Kdf.t_cost := argon2_t_cost s;
     Kdf.p_cost := argon2_p_cost s |}.

Definition is_encrypted (s : Superblock) : bool := SbFlags.has (flags s) SbFlags.ENCRYPTED.
Definition is_delta_manifest (s : Superblock) : bool :=
  SbFlags.has (flags s) SbFlags.DELTA_MANIFEST.
Definition is_whole_disk (s : Superblock) : bool := SbFlags.has (flags s) SbFlags.WHOLE_DISK.
Definition is_inconsistent (s : Superblock) : bool :=
  match consistency s with CNone => true | _ => false end.

(** The two fields [set_consistency] assigns. *)
Definition with_consistency (s : Superblock) (c : Consistency) (f : Z) : Superblock :=
  {| format_major := format_major s; min_reader := min_reader s; flags := f;
     image_kind := image_kind s; consistency := c; image_uuid := image_uuid s;
     chain_id := chain_id s; set_id := set_id s; parent_uuid := parent_uuid s;
     seq_in_chain := seq_in_chain s; created_unix := created_unix s;
     source_size_bytes := source_size_bytes s; logical_block_size := logical_block_size s;
     chunk_size := chunk_size s; kdf_id := kdf_id s; aead_id := aead_id s;
     kdf_salt := kdf_salt s; argon2_m_cost_kib := argon2_m_cost_kib s;
     argon2_t_cost := argon2_t_cost s; argon2_p_cost := argon2_p_cost s;
     wrap_nonce := wrap_nonce s; wrapped_chain_key := wrapped_chain_key s |}.

Definition set_consistency (s : Superblock) (c : Consistency) : Superblock :=
  let f := Z.land (flags s) (U64_MAX - SbFlags.INCONSISTENT) in
  let f := match c with CNone => Z.lor f SbFlags.INCONSISTENT | _ => f end in
  with_consistency s c f.

Definition validate_header (s : Superblock) : result unit :=
  if FORMAT_MAJOR <? format_major s then
    Err (Unsupported "format_major {} (this reader knows {FORMAT_MAJOR})")
  else if FORMAT_MAJOR <? min_reader s then
    Err (Unsupported "min_reader {} means a newer reader is required")
  else if negb (Bool.eqb (SbFlags.has (flags s) SbFlags.INCONSISTENT) (is_inconsistent s)) then
    Err (Corrupt "consistency level and INCONSISTENT flag disagree")
  else if negb (is_power_of_two_in_range (chunk_size s) MIN_CHUNK_SIZE MAX_CHUNK_SIZE) then
    Err (Corrupt "chunk_size {} is not a power of two in {MIN_CHUNK_SIZE}..={MAX_CHUNK_SIZE}")
  else if negb (is_power_of_two_in_range (logical_block_size s) 512 4096) then
    Err (Corrupt "logical_block_size {} is not a power of two in 512..=4096")
  else
    let* _ := Aeads.from_id (aead_id s) in
    if (kdf_id s =? 0) && negb (is_encrypted s) then Ok tt
    else if (kdf_id s =? 1) && is_encrypted s then Ok tt
    else if kdf_id s =? 0 then
      Err (Corrupt "an encrypted image must record an Argon2id kdf_id")
    else Err (Unsupported "kdf_id {other}").

(** The [copy_from_slice] calls of [encode], up to the hash. *)
Definition header_fields (s : Superblock) : list (Z * bytes) :=
  [ (0, SB_MAGIC);
    (8, le_bytes 4 (format_major s));
    (12, le_bytes 4 (min_reader s));
    (16, le_bytes 8 (flags s));
    (24, le_bytes 1 (ImageKinds.as_u8 (image_kind s)));
    (25, le_bytes 1 (Consistencies.as_u8 (consistency s)));
    (26, image_uuid s);
    (42, chain_id s);
    (58, set_id s);
    (74, parent_uuid s);
    (90, le_bytes 4 (seq_in_chain s));
    (94, le_bytes 8 (created_unix s));
    (102, le_bytes 8 (source_size_bytes s));
    (110, le_bytes 4 (logical_block_size s));
    (114, le_bytes 4 (chunk_size s));
    (118, le_bytes 4 (kdf_id s));
    (122, le_bytes 4 (aead_id s));
    (126, kdf_salt s);
    (142, le_bytes 4 (argon2_m_cost_kib s));
    (146, le_bytes 4 (argon2_t_cost s));
    (150, le_bytes 4 (argon2_p_cost s));
    (154, wrap_nonce s);
    (166, wrapped_chain_key s) ].

Section ops.
Context `{Primitives}.

Definition authentication_key (meta_key : option bytes) : bytes :=
  match meta_key with Some k => k | None => Mac.fixed_public_mac_key end.

Definition encode (s : Superblock) (meta_key : option bytes) : result bytes :=
  validate_header s;;;
  let b := write_fields (header_fields s) (zrep SB_SIZE Byte.x00) in
  let hash := Mac.unkeyed_mac32 (ztake SB_HASH_OFFSET b) in
  let b := put_at SB_HASH_OFFSET hash b in
  let mac := Mac.mac32 (authentication_key meta_key) (ztake SB_MAC_OFFSET b) in
  let b := put_at SB_MAC_OFFSET mac b in
  Ok b.

(** [b] is a [[u8; SB_SIZE]]. *)
Definition decode (b : bytes) : result Superblock :=
  if negb (bool_decide (sub 0 8 b = SB_MAGIC)) then
    Err (Corrupt "superblock magic does not match LRIMG")
  else
    let expected := Mac.unkeyed_mac32 (ztake SB_HASH_OFFSET b) in
    if negb (bool_decide (sub SB_HASH_OFFSET 32 b = expected)) then
      Err (Corrupt "superblock hash mismatch")
    else
      let* format_major := slice_u32 (zdrop 8 b) in
      let* min_reader := slice_u32 (zdrop 12 b) in
      let* flags := slice_u64 (zdrop 16 b) in
      let* image_kind := ImageKinds.from_u8 (le_val (sub 24 1 b)) in
      let* consistency := Consistencies.from_u8 (le_val (sub 25 1 b)) in
      let* seq_in_chain := slice_u32 (zdrop 90 b) in
      let* created_unix := slice_u64 (zdrop 94 b) in
      let* source_size_bytes := slice_u64 (zdrop 102 b) in
      let* logical_block_size := slice_u32 (zdrop 110 b) in
      let* chunk_size := slice_u32 (zdrop 114 b) in
      let* kdf_id := slice_u32 (zdrop 118 b) in
      let* aead_id := slice_u32 (zdrop 122 b) in
      let* argon2_m_cost_kib := slice_u32 (zdrop 142 b) in
      let* argon2_t_cost := slice_u32 (zdrop 146 b) in
      let* argon2_p_cost := slice_u32 (zdrop 150 b) in
      let superblock :=
        {| format_major := format_major; min_reader := min_reader; flags := flags;
           image_kind := image_kind; consistency := consistency;
           image_uuid := sub 26 16 b; chain_id := sub 42 16 b; set_id := sub 58 16 b;
           parent_uuid := sub 74 16 b; seq_in_chain := seq_in_chain;
           created_unix := created_unix; source_size_bytes := source_size_bytes;
           logical_block_size := logical_block_size; chunk_size := chunk_size;
           kdf_id := kdf_id; aead_id := aead_id; kdf_salt := sub 126 16 b;
           argon2_m_cost_kib := argon2_m_cost_kib; argon2_t_cost := argon2_t_cost;
           argon2_p_cost := argon2_p_cost; wrap_nonce := sub 154 12 b;
           wrapped_chain_key := sub 166 48 b |} in
      validate_header superblock;;;
      Ok superblock.

Definition verify_mac (b : bytes) (meta_key : option bytes) : result unit :=
  let stored := sub SB_MAC_OFFSET 32 b in
  if Mac.verify_mac32 (authentication_key meta_key) (ztake SB_MAC_OFFSET b) stored
  then Ok tt else Err (Corrupt "superblock MAC mismatch").
End ops.

(** The ranges and lengths the Rust types guarantee. *)
Record sb_ok (s : Superblock) : Prop := {
  ok_format_major : u32_ok (format_major s);
  ok_min_reader : u32_ok (min_reader s);
  ok_flags : u64_ok (flags s);
  ok_image_uuid : id_ok (image_uuid s);
  ok_chain_id : id_ok (chain_id s);
  ok_set_id : id_ok (set_id s);
  ok_parent_uuid : id_ok (parent_uuid s);
  ok_seq : u32_ok (seq_in_chain s);
  ok_created : u64_ok (created_unix s);
  ok_source_size : u64_ok (source_size_bytes s);
  ok_lbs : u32_ok (logical_block_size s);
  ok_chunk_size : u32_ok (chunk_size s);
  ok_kdf_id : u32_ok (kdf_id s);
  ok_aead_id : u32_ok (aead_id s);
  ok_salt : zlen (kdf_salt s) = 16;
  ok_m : u32_ok (argon2_m_cost_kib s);
  ok_t : u32_ok (argon2_t_cost s);
  ok_p : u32_ok (argon2_p_cost s);
  ok_wrap_nonce : zlen (wrap_nonce s) = 12;
  ok_wrapped : zlen (wrapped_chain_key s) = 48;
}.

(** *** Layout lemmas *)

Lemma header_contiguous s : sb_ok s -> contiguous 0 (header_fields s).
Proof.
  intros []. unfold id_ok in *. unfold header_fields. cbn [contiguous].
  rewrite !zlen_le_bytes. change (zlen SB_MAGIC) with 8.
  repeat match goal with H : zlen _ = _ |- _ => rewrite H; clear H end. repeat split.
Qed.

Lemma zlen_header s : sb_ok s -> zlen (fields_bytes (header_fields s)) = 214.
Proof.
  intros []. unfold id_ok in *. unfold header_fields, fields_bytes. cbn [map concat snd].
  rewrite !zlen_app, !zlen_le_bytes. change (zlen SB_MAGIC) with 8. rewrite zlen_nil. lia.
Qed.

(** The first 1024 bytes: the fields and the reserved zeros. *)
Definition prefix_bytes (s : Superblock) : bytes :=
  fields_bytes (header_fields s) ++ zrep 810 Byte.x00.

Lemma zlen_prefix_bytes s : sb_ok s -> zlen (prefix_bytes s) = 1024.
Proof. intros. unfold prefix_bytes. rewrite zlen_app, zlen_header by done. done. Qed.

Section lemmas.
Context `{PrimitiveLaws}.

(** [encode] as one concatenation. *)
Definition layout (s : Superblock) (meta_key : option bytes) : bytes :=
  let p := prefix_bytes s in
  let h := Mac.unkeyed_mac32 p in
  p ++ h ++ Mac.mac32 (authentication_key meta_key) (p ++ h) ++ zrep 3008 Byte.x00.

Lemma encode_layout s meta_key :
  sb_ok s -> encode s meta_key = (validate_header s;;; Ok (layout s meta_key)).
Proof.
  intros Hs. unfold encode, layout. apply bind_ext. intros _ _. f_equal.
  assert (write_fields (header_fields s) (zrep SB_SIZE Byte.x00) =
          prefix_bytes s ++ zrep 3072 Byte.x00) as ->.
  { rewrite (write_fields_contiguous _ [] SB_SIZE).
    - unfold prefix_bytes. rewrite zlen_header by done. cbn [app].
      by rewrite <- app_assoc.
    - by apply header_contiguous.
    - rewrite zlen_header by done. unfold SB_SIZE. lia. }
  pose proof (zlen_prefix_bytes s Hs) as Hp.
  rewrite ztake_app_exact by done.

  rewrite put_at_fill by (done || (rewrite Mac.zlen_unkeyed_mac32; done)).
  rewrite (ztake_app_exact SB_MAC_OFFSET (_ ++ _)) by (rewrite zlen_app, Hp, Mac.zlen_unkeyed_mac32; done).
  rewrite put_at_fill.
  - rewrite Mac.zlen_mac32, Mac.zlen_unkeyed_mac32. by rewrite <- !app_assoc.
  - rewrite zlen_app, Hp, Mac.zlen_unkeyed_mac32. done.
  - rewrite Mac.zlen_mac32, Mac.zlen_unkeyed_mac32. done.
Qed.

Lemma zlen_layout s k : sb_ok s -> zlen (layout s k) = SB_SIZE.
Proof.
  intros Hs. unfold layout. rewrite !zlen_app, zlen_prefix_bytes by done.
  rewrite Mac.zlen_mac32, Mac.zlen_unkeyed_mac32. done.
Qed.

(** Every field can be sliced out of the layout. *)
Lemma layout_field s k off v n :
  sb_ok s -> In (off, v) (header_fields s) -> n = zlen v -> sub off n (layout s k) = v.
Proof.
  intros Hs Hin Hn. unfold layout, prefix_bytes. rewrite <- app_assoc.
  apply (contiguous_sub _ []); [by apply header_contiguous|done..].
Qed.

Lemma layout_hash s k :
  sb_ok s -> sub SB_HASH_OFFSET 32 (layout s k) = Mac.unkeyed_mac32 (prefix_bytes s).
Proof.
  intros Hs. unfold layout. rewrite sub_skip by (rewrite zlen_prefix_bytes; done).
  apply sub_hit; [by rewrite zlen_prefix_bytes|by rewrite Mac.zlen_unkeyed_mac32].
Qed.

Lemma layout_take s k : sb_ok s -> ztake SB_HASH_OFFSET (layout s k) = prefix_bytes s.
Proof. intros. unfold layout. apply ztake_app_exact. by rewrite zlen_prefix_bytes. Qed.

Lemma layout_verify_mac s k : sb_ok s -> verify_mac (layout s k) k = Ok tt.
Proof.
  intros Hs. unfold verify_mac, layout. rewrite app_assoc.
  assert (zlen (prefix_bytes s ++ Mac.unkeyed_mac32 (prefix_bytes s)) = SB_MAC_OFFSET) as Hl
    by (rewrite zlen_app, zlen_prefix_bytes, Mac.zlen_unkeyed_mac32; done).
  rewrite ztake_app_exact, sub_skip, sub_hit by (rewrite ?Hl, ?Mac.zlen_mac32; done).
  by rewrite Mac.verify_own_mac.
Qed.

Lemma decode_layout s k :
  sb_ok s -> decode (layout s k) = (validate_header s;;; Ok s).
Proof.
  intros Hs. pose proof Hs as []. unfold decode. unfold id_ok in *.
  rewrite (layout_field s k 0 SB_MAGIC) by (done || by left).
  rewrite bool_decide_true by done. cbn [negb].
  rewrite layout_hash, layout_take, bool_decide_true by done. cbn [negb].
  pose proof (zlen_layout s k Hs) as Hl. unfold SB_SIZE in Hl.
  rewrite !slice_u32_zdrop, !slice_u64_zdrop by lia.
  repeat match goal with
    |- context [sub ?o ?n (layout s k)] =>
      erewrite (layout_field s k o _ n);
      [|done|unfold header_fields; cbn [In]; repeat first [left; reflexivity | right]
       |rewrite ?zlen_le_bytes; (done || lia)]
    end.
  rewrite !le_val_bytes_small by
    first [ assumption
          | pose proof (Consistencies.consistency_as_u8_range (consistency s)); simpl; lia
          | destruct (image_kind s); simpl; lia ].
  rewrite ImageKinds.image_kind_from_as_u8, Consistencies.consistency_from_as_u8. cbn [bind].
  by destruct s.
Qed.
End lemmas.
End Sb.

(** ** What a valid header is *)

(** The header rules of the format, without the order of the checks. *)
Record header_valid (s : Superblock) : Prop := {
  hv_major : format_major s <= 1;
  hv_reader : min_reader s <= 1;
  hv_consistency : SbFlags.has (flags s) SbFlags.INCONSISTENT = true <-> consistency s = CNone;
  hv_chunk : exists k, 18 <= k <= 22 /\ chunk_size s = 2 ^ k;
  hv_lbs : exists k, 9 <= k <= 12 /\ logical_block_size s = 2 ^ k;
  hv_aead : aead_id s = 1 \/ aead_id s = 2;
  hv_kdf : kdf_id s = if Sb.is_encrypted s then 1 else 0;
}.

Lemma power_of_two_in_range_spec v a b :
  0 <= a -> 0 <= b ->
  is_power_of_two_in_range v (2 ^ a) (2 ^ b) = true <-> exists k, a <= k <= b /\ v = 2 ^ k.
Proof.
  intros Ha Hb. unfold is_power_of_two_in_range. rewrite !andb_true_iff, !Z.leb_le.
  rewrite is_power_of_two_spec. split.
  - intros [(k & Hk & ->) [H1 H2]]. exists k.
    rewrite <- Z.pow_le_mono_r_iff in H1, H2 by lia. done.
  - intros (k & Hk & ->). split; [exists k; lia|]. split; apply Z.pow_le_mono_r; lia.
Qed.

Lemma validate_header_valid s : Sb.validate_header s = Ok tt <-> header_valid s.
Proof.
  unfold Sb.validate_header. pose proof (power_of_two_in_range_spec (chunk_size s) 18 22) as HC.
  pose proof (power_of_two_in_range_spec (logical_block_size s) 9 12) as HL.
  change (2 ^ 18) with MIN_CHUNK_SIZE in HC. change (2 ^ 22) with MAX_CHUNK_SIZE in HC.
  change (2 ^ 9) with 512 in HL. change (2 ^ 12) with 4096 in HL.
  specialize (HC ltac:(lia) ltac:(lia)). specialize (HL ltac:(lia) ltac:(lia)).
  assert (is_ok (Aeads.from_id (aead_id s)) = true <-> aead_id s = 1 \/ aead_id s = 2) as HA.
  { unfold Aeads.from_id, Aeads.AEAD_ID_AES_256_GCM, Aeads.AEAD_ID_CHACHA20_POLY1305.
    repeat case_match; bprop; simpl; split; intros; try done; lia. }
  assert (Sb.is_inconsistent s = true <-> consistency s = CNone) as HI
    by (unfold Sb.is_inconsistent; destruct (consistency s); split; done).
  split.
  - intros HV.
    destruct (Z.ltb_spec FORMAT_MAJOR (format_major s)); [done|].
    destruct (Z.ltb_spec FORMAT_MAJOR (min_reader s)); [done|]. unfold FORMAT_MAJOR in *.
    destruct (Bool.eqb _ _) eqn:EI; [|done]. apply eqb_prop in EI. cbn [negb] in HV.
    destruct (is_power_of_two_in_range (chunk_size s) _ _); [|done].
    destruct (is_power_of_two_in_range (logical_block_size s) _ _); [|done]. cbn [negb] in HV.
    inv_ok. rewrite E in HA.
    split; [done|done|by rewrite EI|by apply HC|by apply HL|by apply HA|].
    destruct (Sb.is_encrypted s); cbn [negb] in HV;
      destruct (Z.eqb_spec (kdf_id s) 0), (Z.eqb_spec (kdf_id s) 1); cbn [andb] in HV;
      first [lia | done].
  - intros []. unfold FORMAT_MAJOR.
    rewrite !(proj2 (Z.ltb_ge _ _)) by lia.
    rewrite (proj2 HC), (proj2 HL) by done.
    assert (SbFlags.has (flags s) SbFlags.INCONSISTENT = Sb.is_inconsistent s) as ->
      by (apply eq_true_iff_eq; by rewrite hv_consistency0, HI).
    rewrite eqb_reflx. cbn [negb].
    destruct (Aeads.from_id (aead_id s)) as [k|e]; [|by discriminate (proj2 HA hv_aead0)].
    cbn [bind]. rewrite hv_kdf0. by destruct (Sb.is_encrypted s).
Qed.

(** [set_consistency] touches one flag bit. *)
Lemma set_consistency_bits s c i :
  0 <= i -> i <> 4 -> u64_ok (flags s) ->
  Z.testbit (flags (Sb.set_consistency s c)) i = Z.testbit (flags s) i.
Proof.
  intros Hi Hn Hf.
  assert (Z.testbit (U64_MAX - SbFlags.INCONSISTENT) i = (i <? 64)) as HM.
  { change (U64_MAX - SbFlags.INCONSISTENT) with (Z.lxor (Z.ones 64) (2 ^ 4)).
    rewrite Z.lxor_spec, Z.testbit_ones_nonneg, Z.pow2_bits_false by lia. apply xorb_false_r. }
  assert (Z.testbit (Z.land (flags s) (U64_MAX - SbFlags.INCONSISTENT)) i =
          Z.testbit (flags s) i) as HA.
  { rewrite Z.land_spec, HM. destruct (Z.ltb_spec i 64); [apply andb_true_r|].
    rewrite andb_false_r. symmetry. by apply (range_bits 64). }
  destruct c; cbn -[Z.land Z.testbit Z.lor]; try exact HA.
  rewrite Z.lor_spec, HA. change SbFlags.INCONSISTENT with (2 ^ 4).
  rewrite Z.pow2_bits_false by lia. apply orb_false_r.
Qed.

Lemma has_pow2 f k : 0 <= k -> SbFlags.has f (2 ^ k) = Z.testbit f k.
Proof.
  intros Hk. unfold SbFlags.has. destruct (Z.testbit f k) eqn:E.
  - destruct (Z.eqb_spec (Z.land f (2 ^ k)) 0) as [H0|]; [|done].
    assert (Z.testbit (Z.land f (2 ^ k)) k = true) as HB
      by (rewrite Z.land_spec, E, Z.pow2_bits_true by done; done).
    rewrite H0 in HB. by rewrite Z.bits_0 in HB.
  - destruct (Z.eqb_spec (Z.land f (2 ^ k)) 0) as [|H0]; [done|]. exfalso. apply H0.
    apply Z.bits_inj_0. intros n. rewrite Z.land_spec.
    destruct (Z.eq_dec n k) as [->|]; [by rewrite E|].
    rewrite Z.pow2_bits_false by lia. apply andb_false_r.
Qed.

Lemma set_consistency_flag s c :
  SbFlags.has (flags (Sb.set_consistency s c)) SbFlags.INCONSISTENT =
  bool_decide (c = CNone).
Proof.
  change SbFlags.INCONSISTENT with (2 ^ 4). rewrite has_pow2 by done.
  destruct c; cbn -[Z.land Z.testbit Z.lor]; rewrite ?Z.lor_spec, ?Z.land_spec;
    try apply andb_false_r. apply orb_true_r.
Qed.

Lemma set_consistency_range s c : u64_ok (flags s) -> u64_ok (flags (Sb.set_consistency s c)).
Proof.
  intros Hf. apply bits_range; [done|]. intros i Hi.
  rewrite set_consistency_bits by lia || done. by apply (range_bits 64).
Qed.

(** ** Properties *)
Section properties.
Context `{PrimitiveLaws}.

(** What [decode] reads: the fields of the prefix, byte for byte. *)
Lemma decode_fields b s :
  zlen b = SB_SIZE -> Sb.decode b = Ok s ->
  Sb.sb_ok s /\ Sb.validate_header s = Ok tt /\
  sub SB_HASH_OFFSET 32 b = Mac.unkeyed_mac32 (ztake SB_HASH_OFFSET b) /\
  sub 0 214 b = fields_bytes (Sb.header_fields s).
Proof.
  unfold SB_SIZE. intros Hb. unfold Sb.decode.
  case_match; [done|]. case_match; [done|]. bprop.
  rewrite !slice_u32_zdrop, !slice_u64_zdrop by lia. cbn [bind]. intros Hd. inv_ok.
  destruct v1.
  match goal with HK : ImageKinds.from_u8 _ = Ok _ |- _ => apply ImageKinds.image_kind_from_u8_inv in HK as HK' end.
  match goal with HK : Consistencies.from_u8 _ = Ok _ |- _ => apply Consistencies.consistency_from_u8_inv in HK as HC' end.
  assert (forall o n, 0 <= o -> 0 <= n -> o + n <= 4096 -> zlen (sub o n b) = n) as HL
    by (intros; apply zlen_sub; lia).
  assert (forall o n, 0 <= o -> 0 <= n -> o + n <= 4096 -> 0 <= le_val (sub o n b) < 256 ^ n) as HV.
  { intros. pose proof (le_val_bound (sub o n b)). by rewrite HL in * by lia. }
  split_and!; [|done|done|].
  - split; simpl; unfold id_ok; first [ apply HL; lia | apply (HV _ 4); lia | apply (HV _ 8); lia ].
  - unfold fields_bytes, Sb.header_fields. cbn [map concat snd].
    sb_proj. rewrite HK', HC'.
    rewrite !(fun o => le_bytes_val_z (sub o 4 b) 4), !(fun o => le_bytes_val_z (sub o 8 b) 8),
      !(fun o => le_bytes_val_z (sub o 1 b) 1) by (apply HL; lia).
    match goal with HM : sub 0 8 b = SB_MAGIC |- _ => rewrite <- HM end.
    rewrite app_nil_r.
    by merge_subs.
Qed.

(** An image superblock that [encode] accepts occupies exactly the 4096
    bytes of the format, decodes to the same superblock and carries a MAC
    that verifies under the same key. [encode] accepts exactly the headers
    [validate_header] accepts. *)
Theorem superblock_roundtrip s meta_key :
  Sb.sb_ok s ->
  (Sb.validate_header s = Ok tt <-> is_ok (Sb.encode s meta_key) = true) /\
  forall b, Sb.encode s meta_key = Ok b ->
    zlen b = SB_SIZE /\ Sb.decode b = Ok s /\ Sb.verify_mac b meta_key = Ok tt.
Proof.
  intros Hs. rewrite Sb.encode_layout by done. split.
  - destruct (Sb.validate_header s) as [[]|e]; simpl; split; congruence.
  - intros b Hb. inv_ok. split_and!.
    + by apply Sb.zlen_layout.
    + rewrite Sb.decode_layout by done. by destruct (Sb.validate_header s).
    + by apply Sb.layout_verify_mac.
Qed.

(** Decoding accepts nothing the writer would not have produced for the
    same fields: a 4096-byte block that decodes to [s] and whose MAC verifies
    has a valid header, agrees with [encode s] on the whole field area, and
    is [encode s] byte for byte when its reserved bytes are zero. *)
Theorem superblock_decode_exact b s meta_key :
  zlen b = SB_SIZE -> Sb.decode b = Ok s -> Sb.verify_mac b meta_key = Ok tt ->
  exists b', Sb.encode s meta_key = Ok b' /\ ztake 214 b = ztake 214 b' /\
    (sub 214 810 b = zrep 810 Byte.x00 -> zdrop 1088 b = zrep 3008 Byte.x00 -> b = b').
Proof.
  intros Hb Hd Hm. destruct (decode_fields b s Hb Hd) as (Hs & Hv & Hh & Hf).
  unfold SB_SIZE in Hb.
  rewrite Sb.encode_layout, Hv by done. cbn [bind]. eexists; split; [done|].
  split.
  - rewrite <- sub_0, Hf. unfold Sb.layout, Sb.prefix_bytes. rewrite <- app_assoc.
    symmetry. apply ztake_app_exact. by rewrite Sb.zlen_header.
  - intros Hz1 Hz2.
    assert (ztake SB_HASH_OFFSET b = Sb.prefix_bytes s) as Hp.
    { unfold Sb.prefix_bytes. rewrite <- Hf, <- Hz1, <- sub_0. merge_subs. done. }
    assert (ztake SB_MAC_OFFSET b = Sb.prefix_bytes s ++ Mac.unkeyed_mac32 (Sb.prefix_bytes s)) as Hq.
    { rewrite <- Hp at 2. rewrite <- Hh, <- Hp, <- !sub_0. unfold SB_HASH_OFFSET, SB_MAC_OFFSET.
      merge_subs. done. }
    unfold Sb.verify_mac in Hm. case_match eqn:HE; [|done].
    apply bool_decide_eq_true in HE. rewrite Hq in HE.
    unfold Sb.layout, Mac.mac32. rewrite <- HE, app_assoc, <- Hq, <- Hz2, <- sub_0.
    unfold SB_MAC_OFFSET. rewrite app_assoc. merge_subs.
    rewrite sub_0. symmetry. apply ztake_zdrop.
Qed.

(** What a superblock must satisfy to be accepted at all, as one
    declarative predicate: [validate_header] decides [header_valid]. *)
Theorem validate_header_spec s :
  Sb.validate_header s = Ok tt <-> header_valid s.
Proof. apply validate_header_valid. Qed.

(** [set_consistency] rewrites the consistency byte and the
    INCONSISTENT flag together and leaves every other field and flag alone,
    so a header that was valid stays valid, whatever the new level is. *)
Theorem set_consistency_valid s c :
  u64_ok (flags s) -> header_valid s ->
  header_valid (Sb.set_consistency s c) /\
  consistency (Sb.set_consistency s c) = c /\
  Sb.with_consistency (Sb.set_consistency s c) (consistency s) (flags s) = s.
Proof.
  intros Hf Hv.
  assert (forall k, 0 <= k -> k <> 4 ->
    SbFlags.has (flags (Sb.set_consistency s c)) (2 ^ k) = SbFlags.has (flags s) (2 ^ k)) as Hk
    by (intros; by rewrite !has_pow2, set_consistency_bits).
  split_and!; [|by destruct c|by destruct s, c].
  destruct Hv. split; [done|done| |done..|].
  - rewrite set_consistency_flag. by destruct c.
  - unfold Sb.is_encrypted in *. change SbFlags.ENCRYPTED with (2 ^ 0). by rewrite (Hk 0).
Qed.
End properties.
