(* ===== verification/Chunk.v ===== *)
(** * Chunk records ([crates/lr-format/src/chunk.rs], [compress.rs])

    [[ magic u16 ][ stored_len u32 ][ flags u8 ][ nonce 12 ][ payload ]] and a
    tag when the record is encrypted; compression, encryption and the keyed
    content hash that binds a record to its manifest entry. *)

From S2P Require Import Prelude Core Crypto Wire Superblock.

Module Compress.
Definition DEFAULT_LEVEL : Z := 9.
Definition MIN_LEVEL : Z := 1.
Definition MAX_LEVEL : Z := 22.

Section ops.
Context `{Primitives}.

Definition compress (data : bytes) (level : Z) : result bytes :=
  if negb ((MIN_LEVEL <=? level) && (level <=? MAX_LEVEL)) then
    Err (Unsupported "zstd level {level}")
  else ok_or (zstd_compress data level) (Io OtherIo).

Definition decompress (data : bytes) (max_output : Z) : result bytes :=
  let* out := ok_or (zstd_decompress data max_output) (Io OtherIo) in
  if max_output <? zlen out then
    Err (Corrupt "zstd frame expands to {} bytes, limit {max_output}")
  else Ok out.

Definition compress_if_smaller (data : bytes) (level : Z) : result (bytes * bool) :=
  let* compressed := compress data level in
  if zlen compressed <? zlen data then Ok (compressed, true) else Ok (data, false).

Context `{!PrimitiveLaws}.

(** Compression never grows the data, and is undone by [decompress]. *)
Lemma compress_if_smaller_spec data level out c max :
  compress_if_smaller data level = Ok (out, c) -> zlen data <= max ->
  zlen out <= zlen data /\
  (if c then decompress out max = Ok data else out = data).
Proof.
  unfold compress_if_smaller, compress. intros Hc Hmax. inv_ok.
  destruct (negb _); [done|]. apply ok_or_Ok in E.
  destruct (Z.ltb_spec (zlen v) (zlen data)); inv_ok; simplify_eq; [|done].
  split; [lia|]. unfold decompress. rewrite (zstd_roundtrip _ _ _ _ E Hmax). cbn [ok_or bind].
  by rewrite (proj2 (Z.ltb_ge _ _)) by lia.
Qed.

Lemma decompress_bound data max out : decompress data max = Ok out -> zlen out <= max.
Proof. unfold decompress. intros. inv_ok. case_match; bprop; inv_ok. done. Qed.
End ops.
End Compress.

Definition CHUNK_MAGIC : Z := 0xC4C7.
Definition CHUNK_FLAG_ZSTD : Z := 1.
Definition CHUNK_FLAG_ENCRYPTED : Z := 2.
Definition CHUNK_FLAGS_KNOWN : Z := Z.lor CHUNK_FLAG_ZSTD CHUNK_FLAG_ENCRYPTED.
Definition CHUNK_HEADER_LEN : Z := 2 + 4 + 1 + Nonce.NONCE_LEN.
Definition CHUNK_TAG_LEN : Z := Aeads.TAG_LEN.
Definition CHUNK_OVERHEAD_ENCRYPTED : Z := CHUNK_HEADER_LEN + CHUNK_TAG_LEN.
Definition CHUNK_OVERHEAD_PLAIN : Z := CHUNK_HEADER_LEN.
Definition MAX_STORED_LEN : Z := MAX_CHUNK_SIZE + 64 * 1024.

Record ChunkRecord := {
  cr_flags : Z;
  cr_nonce : bytes;
  cr_payload : bytes;
  cr_tag : option bytes;
}.

Record ChunkHeader := {
  ch_flags : Z;
  ch_stored_len : Z;
  ch_nonce : bytes;
}.

Module Chunk.
Definition is_encrypted (r : ChunkRecord) : bool := SbFlags.has (cr_flags r) CHUNK_FLAG_ENCRYPTED.
Definition is_compressed (r : ChunkRecord) : bool := SbFlags.has (cr_flags r) CHUNK_FLAG_ZSTD.
Definition total_len (r : ChunkRecord) : Z :=
  CHUNK_HEADER_LEN + zlen (cr_payload r) + (if is_encrypted r then CHUNK_TAG_LEN else 0).

Definition header_is_encrypted (h : ChunkHeader) : bool :=
  SbFlags.has (ch_flags h) CHUNK_FLAG_ENCRYPTED.
Definition header_total_len (h : ChunkHeader) : Z :=
  CHUNK_HEADER_LEN + ch_stored_len h + (if header_is_encrypted h then CHUNK_TAG_LEN else 0).

(** [payload.len() as u32] keeps the low 32 bits. *)
Definition write_header (out : bytes) (r : ChunkRecord) : result bytes :=
  let* out := put_u16 CHUNK_MAGIC out in
  let* out := put_u32 (zlen (cr_payload r) mod 2 ^ 32) out in
  let* out := put_u8 (cr_flags r) out in
  let* out := put_bytes (cr_nonce r) out in
  Ok out.

Definition encode (r : ChunkRecord) : result bytes :=
  let* header := write_header [] r in
  let out := header ++ cr_payload r in
  Ok (match cr_tag r with Some tag => out ++ tag | None => out end).

Definition decode_header (b : bytes) : result ChunkHeader :=
  if zlen b <? CHUNK_HEADER_LEN then
    Err (Corrupt "chunk record shorter than its header")
  else
    let* magic := slice_u16 b in
    if negb (magic =? CHUNK_MAGIC) then
      Err (Corrupt "chunk magic 0x{magic:04X} is not 0x{CHUNK_MAGIC:04X}")
    else
      let* stored_len := slice_u32 (zdrop 2 b) in
      if MAX_STORED_LEN <? stored_len then
        Err (Corrupt "chunk stored_len {stored_len} exceeds {MAX_STORED_LEN}")
      else
        let flags := le_val (sub 6 1 b) in
        if negb (Z.land flags (255 - CHUNK_FLAGS_KNOWN) =? 0) then
          Err (Corrupt "unknown chunk flags 0x{flags:02X}")
        else
          let nonce := sub 7 Nonce.NONCE_LEN b in
          Ok {| ch_flags := flags; ch_stored_len := stored_len; ch_nonce := nonce |}.

Definition decode (b : bytes) : result ChunkRecord :=
  let* header := decode_header b in
  let stored_len := ch_stored_len header in
  let total := header_total_len header in
  if zlen b <? total then
    Err (Corrupt "chunk record declares {stored_len} bytes but only {} are available")
  else
    let payload := sub CHUNK_HEADER_LEN stored_len b in
    let tag :=
      if header_is_encrypted header
      then Some (sub (CHUNK_HEADER_LEN + stored_len) (total - (CHUNK_HEADER_LEN + stored_len)) b)
      else None in
    Ok {| cr_flags := ch_flags header; cr_nonce := ch_nonce header;
          cr_payload := payload; cr_tag := tag |}.

Definition chunk_ad (plaintext_hash : bytes) (kind : ImageKind) : bytes :=
  plaintext_hash ++ le_bytes 1 (ImageKinds.as_u8 kind).

Record ChunkOptions := { kind : AeadKind; level : Z; compress : bool }.

Definition default_options : ChunkOptions :=
  {| kind := Aes256Gcm; level := Compress.DEFAULT_LEVEL; compress := true |}.

Section ops.
Context `{Primitives}.

Definition seal_chunk (options : ChunkOptions) (key : option bytes) (dedup_key : bytes)
    (image_kind : ImageKind) (nonce_seq : NonceSeq) (plaintext : bytes) :
    result (bytes * bytes * NonceSeq) :=
  let hash := Mac.content_hash dedup_key plaintext in
  let* (payload, compressed) :=
    if compress options then Compress.compress_if_smaller plaintext (level options)
    else Ok (plaintext, false) in
  let flags := if compressed then CHUNK_FLAG_ZSTD else 0 in
  let* (flags, nonce, payload, tag, nonce_seq) :=
    match key with
    | Some key =>
      let* (nonce, nonce_seq) := Nonce.next_nonce nonce_seq in
      let ad := chunk_ad hash image_kind in
      let* (payload, tag) := Aeads.seal_in_place (kind options) key nonce ad payload in
      Ok (Z.lor flags CHUNK_FLAG_ENCRYPTED, nonce, payload, Some tag, nonce_seq)
    | None => Ok (flags, zrep Nonce.NONCE_LEN Byte.x00, payload, None, nonce_seq)
    end in
  let* record := encode {| cr_flags := flags; cr_nonce := nonce; cr_payload := payload;
                           cr_tag := tag |} in
  Ok (record, hash, nonce_seq).

Definition open_chunk (kind : AeadKind) (key : option bytes) (dedup_key : bytes)
    (image_kind : ImageKind) (expected_hash : bytes) (max_plaintext : Z) (b : bytes) :
    result bytes :=
  let* record := decode b in
  let* payload :=
    if is_encrypted record then
      let* key := ok_or key (Corrupt "encrypted chunk without a key") in
      let* tag := ok_or (cr_tag record) (Corrupt "encrypted chunk without a tag") in
      let ad := chunk_ad expected_hash image_kind in
      Aeads.open_in_place kind key (cr_nonce record) ad (cr_payload record) tag
    else Ok (cr_payload record) in
  let* plaintext :=
    if is_compressed record then Compress.decompress payload max_plaintext
    else Ok payload in
  if max_plaintext <? zlen plaintext then
    Err (Corrupt "chunk plaintext is {} bytes, limit {max_plaintext}")
  else
    let recomputed := Mac.content_hash dedup_key plaintext in
    if negb (bool_decide (recomputed = expected_hash)) then
      Err (Corrupt "chunk content hash does not match the manifest")
    else Ok plaintext.
End ops.

(** The records a writer builds. *)
Record record_ok (r : ChunkRecord) : Prop := {
  rk_flags : 0 <= cr_flags r <= 3;
  rk_nonce : zlen (cr_nonce r) = 12;
  rk_payload : zlen (cr_payload r) <= MAX_STORED_LEN;
  rk_tag : if is_encrypted r then exists t, cr_tag r = Some t /\ zlen t = 16
           else cr_tag r = None;
}.

Definition tag_bytes (r : ChunkRecord) : bytes :=
  match cr_tag r with Some t => t | None => [] end.

Definition record_bytes (r : ChunkRecord) : bytes :=
  le_bytes 2 CHUNK_MAGIC ++ le_bytes 4 (zlen (cr_payload r) mod 2 ^ 32) ++
  le_bytes 1 (cr_flags r) ++ cr_nonce r ++ cr_payload r ++ tag_bytes r.

Lemma encode_bytes r : encode r = Ok (record_bytes r).
Proof.
  unfold encode, write_header, record_bytes, tag_bytes, put_u16, put_u32, put_u8, put_bytes.
  unfold write_bytes, vec_sink. cbn [bind].
  destruct (cr_tag r); rewrite ?app_nil_r, <- !app_assoc; done.
Qed.

Definition header_of (r : ChunkRecord) : ChunkHeader :=
  {| ch_flags := cr_flags r; ch_stored_len := zlen (cr_payload r); ch_nonce := cr_nonce r |}.

Lemma zlen_tag_bytes r :
  record_ok r -> zlen (tag_bytes r) = if is_encrypted r then 16 else 0.
Proof.
  intros [_ _ _ Ht]. unfold tag_bytes.
  destruct (is_encrypted r); [by destruct Ht as (t & -> & ->)|by rewrite Ht].
Qed.

Lemma zlen_record_bytes r : record_ok r -> zlen (record_bytes r) = total_len r.
Proof.
  intros Hr. unfold record_bytes, total_len. rewrite !zlen_app, !zlen_le_bytes.
  rewrite (rk_nonce _ Hr), zlen_tag_bytes by done.
  change CHUNK_HEADER_LEN with 19. change CHUNK_TAG_LEN with 16. destruct (is_encrypted r); lia.
Qed.

(** The record as a layout at fixed offsets. *)
Definition record_fields (r : ChunkRecord) : list (Z * bytes) :=
  [ (0, le_bytes 2 CHUNK_MAGIC);
    (2, le_bytes 4 (zlen (cr_payload r) mod 2 ^ 32));
    (6, le_bytes 1 (cr_flags r));
    (7, cr_nonce r);
    (19, cr_payload r);
    (19 + zlen (cr_payload r), tag_bytes r) ].

Lemma record_field r rest off v n :
  record_ok r -> In (off, v) (record_fields r) -> n = zlen v ->
  sub off n (record_bytes r ++ rest) = v.
Proof.
  intros Hr Hin Hn.
  assert (record_bytes r ++ rest = [] ++ fields_bytes (record_fields r) ++ rest) as ->.
  { unfold record_bytes, record_fields, fields_bytes. cbn [map concat snd app].
    by rewrite app_nil_r. }
  apply contiguous_sub; [|done..]. cbn [contiguous record_fields].
  rewrite !zlen_le_bytes, (rk_nonce _ Hr). repeat split.
Qed.

Lemma flags_known f : 0 <= f < 256 ->
  (Z.land f (255 - CHUNK_FLAGS_KNOWN) =? 0) = (f <=? 3).
Proof.
  intros Hf.
  assert (Forall (fun f => (Z.land f (255 - CHUNK_FLAGS_KNOWN) =? 0) = (f <=? 3)) (seqZ 0 256))
    as HF by (repeat constructor).
  rewrite Forall_forall in HF. apply HF, elem_of_seqZ. lia.
Qed.

(** Decoding a written record, whatever follows it. *)
Lemma decode_header_record r rest :
  record_ok r -> decode_header (record_bytes r ++ rest) = Ok (header_of r).
Proof.
  intros Hr. pose proof (zlen_record_bytes r Hr) as Hl. pose proof Hr as [Hf Hn Hp _].
  pose proof (zlen_nonneg (cr_payload r)) as Hp0. unfold MAX_STORED_LEN, MAX_CHUNK_SIZE in Hp.
  assert (19 <= total_len r) as Ht.
  { unfold total_len. change CHUNK_HEADER_LEN with 19. unfold CHUNK_TAG_LEN, Aeads.TAG_LEN.
    destruct (is_encrypted r); lia. }
  unfold decode_header. rewrite zlen_app, Hl. pose proof (zlen_nonneg rest).
  change CHUNK_HEADER_LEN with 19. rewrite (proj2 (Z.ltb_ge _ _)) by lia.
  rewrite <- (zdrop_nonpos 0 (record_bytes r ++ rest)) at 1 by lia.
  rewrite slice_u16_zdrop, slice_u32_zdrop by (rewrite ?zlen_app, ?Hl; lia). cbn [bind].
  rewrite (record_field r rest 0 _ 2), (record_field r rest 2 _ 4), (record_field r rest 6 _ 1),
    (record_field r rest 7 (cr_nonce r)) by (done || (simpl; tauto) || by rewrite zlen_le_bytes).
  change (le_val (le_bytes 2 CHUNK_MAGIC) =? CHUNK_MAGIC) with true.
  cbn [negb]. rewrite (Z.mod_small (zlen _)) by lia.
  rewrite le_val_bytes_small by (change (256 ^ Z.of_nat 4) with (2 ^ 32); lia).
  rewrite (proj2 (Z.ltb_ge _ _)) by (unfold MAX_STORED_LEN, MAX_CHUNK_SIZE; lia).
  rewrite le_val_bytes_small by (change (256 ^ Z.of_nat 1) with 256; lia).
  rewrite flags_known, (proj2 (Z.leb_le _ _)) by lia. done.
Qed.

Lemma decode_record r rest :
  record_ok r -> decode (record_bytes r ++ rest) = Ok r.
Proof.
  intros Hr. unfold decode. rewrite decode_header_record by done. cbn [bind].
  pose proof (zlen_record_bytes r Hr) as Hl. pose proof Hr as [Hf Hn Hp Htag].
  change (header_total_len (header_of r)) with (total_len r).
  change (header_is_encrypted (header_of r)) with (is_encrypted r).
  cbn [header_of ch_flags ch_stored_len ch_nonce].
  pose proof (zlen_nonneg rest). pose proof (zlen_nonneg (cr_payload r)).
  rewrite zlen_app, Hl, (proj2 (Z.ltb_ge _ _)) by lia.
  change CHUNK_HEADER_LEN with 19.
  rewrite (record_field r rest 19 (cr_payload r)) by (done || (simpl; tauto)).
  assert (cr_tag r = if is_encrypted r then Some (tag_bytes r) else None) as HT.
  { unfold tag_bytes. destruct (is_encrypted r); [by destruct Htag as (t & -> & _)|done]. }
  pose proof (zlen_tag_bytes r Hr) as Htb. unfold total_len.
  destruct (is_encrypted r).
  - rewrite (record_field r rest _ (tag_bytes r)) by
      (done || (simpl; tauto) || (unfold CHUNK_TAG_LEN, Aeads.TAG_LEN; change CHUNK_HEADER_LEN with 19; lia)).
    destruct r. simpl in *. by rewrite HT.
  - destruct r. simpl in *. by rewrite HT.
Qed.
End Chunk.
Export Chunk (ChunkOptions).

(** ** What a decoded record is *)
(** The header decoder looks at 19 bytes. *)
Lemma decode_header_prefix b :
  19 <= zlen b -> Chunk.decode_header (ztake 19 b) = Chunk.decode_header b.
Proof.
  intros Hb. unfold Chunk.decode_header, slice_u16. change CHUNK_HEADER_LEN with 19.
  assert (zlen (ztake 19 b) = 19) as Hz by (rewrite zlen_ztake; lia).
  rewrite !slice_u32_zdrop by lia.
  rewrite Hz, !(proj2 (Z.ltb_ge _ _)) by lia. cbn [bind].
  unfold Nonce.NONCE_LEN. by rewrite !sub_ztake by lia.
Qed.

Lemma decode_header_Ok b h :
  Chunk.decode_header b = Ok h ->
  19 <= zlen b /\ 0 <= ch_flags h <= 3 /\ 0 <= ch_stored_len h <= MAX_STORED_LEN /\
  sub 0 2 b = le_bytes 2 CHUNK_MAGIC /\ sub 2 4 b = le_bytes 4 (ch_stored_len h) /\
  sub 6 1 b = le_bytes 1 (ch_flags h) /\ sub 7 12 b = ch_nonce h.
Proof.
  unfold Chunk.decode_header. change CHUNK_HEADER_LEN with 19.
  destruct (Z.ltb_spec (zlen b) 19); [done|].
  rewrite <- (zdrop_nonpos 0 b) at 1 by lia.
  rewrite slice_u16_zdrop, slice_u32_zdrop by lia. cbn [bind].
  case_match eqn:EM; [done|]. case_match eqn:EL; [done|]. case_match eqn:EF; [done|].
  intros Hh. inv_ok. bprop. cbn [ch_flags ch_stored_len ch_nonce].
  pose proof (le_val_bound (sub 2 4 b)). pose proof (le_val_bound (sub 6 1 b)) as Hf.
  rewrite zlen_sub in Hf by lia.
  rewrite <- Z.eqb_eq, Chunk.flags_known, Z.leb_le in EF by lia.
  split_and!; [lia..| | | |done].
  - rewrite <- EM. by rewrite le_bytes_val_z by (apply zlen_sub; lia).
  - by rewrite le_bytes_val_z by (apply zlen_sub; lia).
  - by rewrite le_bytes_val_z by (apply zlen_sub; lia).
Qed.

(** Decoding accepts exactly the encodings: the record read is well formed
    and the bytes consumed are its encoding. *)
Lemma decode_Ok b r :
  Chunk.decode b = Ok r ->
  Chunk.record_ok r /\ b = Chunk.record_bytes r ++ zdrop (Chunk.total_len r) b.
Proof.
  unfold Chunk.decode. intros Hd. apply bind_Ok in Hd as (h & Hh & Hd).
  apply decode_header_Ok in Hh as (Hl & Hf & Hs & H0 & H2 & H6 & H7).
  change CHUNK_HEADER_LEN with 19 in Hd. destruct (Z.ltb_spec (zlen b) (Chunk.header_total_len h)) as [|Hge]; [done|].
  inv_ok. unfold Chunk.header_total_len in *.
  change CHUNK_HEADER_LEN with 19 in *. change CHUNK_TAG_LEN with 16 in *.
  set (tl := if Chunk.header_is_encrypted h then 16 else 0) in *.
  assert (0 <= tl <= 16) as Htl by (unfold tl; case_match; lia).
  assert (zlen (sub 19 (ch_stored_len h) b) = ch_stored_len h) as Hp by (apply zlen_sub; lia).
  assert (Chunk.record_ok {| cr_flags := ch_flags h; cr_nonce := ch_nonce h;
      cr_payload := sub 19 (ch_stored_len h) b;
      cr_tag := if Chunk.header_is_encrypted h
        then Some (sub (19 + ch_stored_len h) (19 + ch_stored_len h + tl - (19 + ch_stored_len h)) b)
        else None |}) as Hr.
  { split; cbn [cr_flags cr_nonce cr_payload cr_tag]; [lia| |lia|].
    - rewrite <- H7. apply zlen_sub; lia.
    - unfold Chunk.is_encrypted, Chunk.header_is_encrypted in *. cbn [cr_flags].
      case_match; [|done]. eexists. split; [done|]. rewrite zlen_sub by lia. lia. }
  split; [exact Hr|].
  unfold Chunk.record_bytes, Chunk.total_len, Chunk.tag_bytes, Chunk.is_encrypted.
  cbn [cr_flags cr_nonce cr_payload cr_tag]. rewrite Hp.
  change CHUNK_HEADER_LEN with 19. change CHUNK_TAG_LEN with 16.
  fold (Chunk.header_is_encrypted h). fold tl.
  rewrite Z.mod_small by (unfold MAX_STORED_LEN, MAX_CHUNK_SIZE in Hs; lia).
  rewrite <- H0, <- H2, <- H6, <- H7.
  assert (match (if Chunk.header_is_encrypted h
     then Some (sub (19 + ch_stored_len h) (19 + ch_stored_len h + tl - (19 + ch_stored_len h)) b)
     else None) with Some t => t | None => [] end = sub (19 + ch_stored_len h) tl b) as ->.
  { unfold tl. case_match; [f_equal; lia|]. unfold sub. by rewrite ztake_nonpos. }
  rewrite <- (sub_split 19 (ch_stored_len h) tl) by lia. rewrite <- (sub_split 7 12) by lia.
  rewrite <- (sub_split 6 1) by lia. rewrite <- (sub_split 2 4) by lia.
  rewrite <- (sub_split 0 2) by lia.
  replace (2 + (4 + (1 + (12 + (ch_stored_len h + tl))))) with (19 + ch_stored_len h + tl) by lia.
  unfold sub. rewrite (zdrop_nonpos 0) by lia. by rewrite ztake_zdrop.
Qed.

(** What [seal_chunk] builds. *)
Lemma seal_chunk_record `{PrimitiveLaws} o key dedup k ns p rec h ns' :
  Chunk.seal_chunk o key dedup k ns p = Ok (rec, h, ns') -> zlen p <= MAX_STORED_LEN ->
  h = Mac.content_hash dedup p /\
  exists r payload,
    rec = Chunk.record_bytes r /\ Chunk.record_ok r /\
    zlen payload <= zlen p /\
    (if Chunk.is_compressed r then forall max, zlen p <= max -> Compress.decompress payload max = Ok p
     else payload = p) /\
    match key with
    | Some key => exists tag, Chunk.is_encrypted r = true /\ cr_tag r = Some tag /\
        Nonce.next_nonce ns = Ok (cr_nonce r, ns') /\
        Aeads.open_in_place (Chunk.kind o) key (cr_nonce r) (Chunk.chunk_ad h k) (cr_payload r) tag
          = Ok payload
    | None => Chunk.is_encrypted r = false /\ cr_payload r = payload /\ ns' = ns
    end.
Proof.
  unfold Chunk.seal_chunk. intros Hs Hp. apply bind_Ok in Hs as ([payload c] & Hc & Hs).
  assert (zlen payload <= zlen p /\
    (if c then forall max, zlen p <= max -> Compress.decompress payload max = Ok p
     else payload = p)) as [Hle Hdec].
  { destruct (Chunk.compress o).
    - split.
      + by destruct (Compress.compress_if_smaller_spec _ _ _ _ (zlen p) Hc) as [? _].
      + pose proof (fun max => Compress.compress_if_smaller_spec _ _ _ _ max Hc) as Hx.
        destruct c; [intros max Hm; by destruct (Hx max Hm)|by destruct (Hx (zlen p) ltac:(lia))].
    - injection Hc as <- <-. done. }
  apply bind_Ok in Hs as ([[[[f n] pl] t] ns1] & Hk & Hs).
  rewrite Chunk.encode_bytes in Hs. cbn [bind] in Hs. injection Hs as <- <- <-. split; [done|].
  exists {| cr_flags := f; cr_nonce := n; cr_payload := pl; cr_tag := t |}, payload.
  split; [done|].
  destruct key as [key|].
  - apply bind_Ok in Hk as ([n' ns2] & Hn & Hk). apply bind_Ok in Hk as ([pl' t'] & Hseal & Hk).
    injection Hk as <- <- <- <- <-.
    destruct (Aeads.seal_len _ _ _ _ _ _ _ Hseal) as [Hl Ht].
    split.
    + split; cbn -[Z.lor]; [by destruct c|by eapply Nonce.next_nonce_len|lia|].
      destruct c; exists t'; done.
    + split; [done|]. unfold Chunk.is_compressed, Chunk.is_encrypted. cbn [cr_flags].
      split; [by destruct c|]. exists t'. cbn [cr_tag cr_nonce cr_payload].
      split; [by destruct c|]. eauto using Aeads.seal_open.
  - injection Hk as <- <- <- <- <-. split.
    + split; cbn; [by destruct c|done|lia|by destruct c].
    + split; [done|]. unfold Chunk.is_compressed, Chunk.is_encrypted. cbn [cr_flags].
      by destruct c.
Qed.

(** ** Properties *)
Section properties.
Context `{PrimitiveLaws}.

(** Sealing and opening, whatever follows the record. *)
Lemma seal_chunk_open o key dedup k ns p rec h ns' max rest
    (Hp : zlen p <= MAX_STORED_LEN) (Hmax : zlen p <= max)
    (Hs : Chunk.seal_chunk o key dedup k ns p = Ok (rec, h, ns')) :
  Chunk.open_chunk (Chunk.kind o) key dedup k h max (rec ++ rest) = Ok p.
Proof.
  destruct (seal_chunk_record _ _ _ _ _ _ _ _ _ Hs Hp) as (Hh & r & payload & -> & Hr & Hle & Hdec & Hkey).
  unfold Chunk.open_chunk. rewrite Chunk.decode_record by done. cbn [bind].
  assert ((if Chunk.is_encrypted r then
        let* key := ok_or key (Corrupt "encrypted chunk without a key") in
        let* tag := ok_or (cr_tag r) (Corrupt "encrypted chunk without a tag") in
        Aeads.open_in_place (Chunk.kind o) key (cr_nonce r) (Chunk.chunk_ad h k) (cr_payload r) tag
      else Ok (cr_payload r)) = Ok payload) as ->.
  { destruct key as [key|].
    - destruct Hkey as (tag & -> & -> & _ & Ho). exact Ho.
    - destruct Hkey as (-> & -> & _). done. }
  cbn [bind].
  assert ((if Chunk.is_compressed r then Compress.decompress payload max else Ok payload) = Ok p) as ->
    by (destruct (Chunk.is_compressed r); [by apply Hdec|by rewrite Hdec]).
  cbn [bind]. rewrite (proj2 (Z.ltb_ge _ _)) by lia.
  by rewrite bool_decide_true by done.
Qed.

(** A chunk sealed by [seal_chunk] - compressed or not, encrypted or
    not - is opened by [open_chunk] with the hash that goes into the
    manifest, back to its plaintext, from any buffer that starts with the
    record. *)
Theorem chunk_seal_open o key dedup k ns p rec h ns' max rest
    (Hp : zlen p <= MAX_STORED_LEN) (Hmax : zlen p <= max)
    (Hs : Chunk.seal_chunk o key dedup k ns p = Ok (rec, h, ns')) :
  Chunk.open_chunk (Chunk.kind o) key dedup k h max (rec ++ rest) = Ok p.
Proof. by eapply seal_chunk_open. Qed.

(** The last two tests of [open_chunk]. *)
Lemma open_chunk_hash kind key dedup k expected max b p :
  Chunk.open_chunk kind key dedup k expected max b = Ok p ->
  Mac.content_hash dedup p = expected /\ zlen p <= max.
Proof.
  unfold Chunk.open_chunk. intros Ho. apply bind_Ok in Ho as (r & _ & Ho).
  apply bind_Ok in Ho as (payload & _ & Ho). apply bind_Ok in Ho as (x & _ & Ho).
  destruct (Z.ltb_spec max (zlen x)); [done|].
  destruct (bool_decide _) eqn:EH; [|done]. bprop. cbn [negb] in Ho. by inv_ok.
Qed.

(** C31: What [open_chunk] returns has the content hash the manifest asked
    for and fits the limit; an encrypted record was opened by the AEAD with
    that hash and the image kind as associated data, and the buffer starts
    with the canonical encoding of the record. *)
Theorem open_chunk_sound kind key dedup k expected max b p
    (Ho : Chunk.open_chunk kind key dedup k expected max b = Ok p) :
  Mac.content_hash dedup p = expected /\ zlen p <= max /\
  exists r, Chunk.record_ok r /\ Chunk.record_bytes r `prefix_of` b /\
    (Chunk.is_encrypted r = true ->
     exists dk tag payload, key = Some dk /\ cr_tag r = Some tag /\
       Aeads.open_in_place kind dk (cr_nonce r) (Chunk.chunk_ad expected k) (cr_payload r) tag
         = Ok payload).
Proof.
  destruct (open_chunk_hash _ _ _ _ _ _ _ _ Ho) as [Hh Hl]. split_and!; [done..|].
  unfold Chunk.open_chunk in Ho. apply bind_Ok in Ho as (v & E & Ho).
  apply bind_Ok in Ho as (v0 & E0 & _). destruct (decode_Ok _ _ E) as [Hr Hb].
  exists v. split_and!; [done|by eexists|].
  intros He. rewrite He in E0. destruct key as [dk|]; [|done]. cbn [ok_or bind] in E0.
  destruct (cr_tag v) as [tag|]; [|done]. cbn [ok_or bind] in E0. eauto 10.
Qed.

(** [encode] never reports an oversized payload: the length field is the
    payload length truncated to 32 bits. *)
Theorem chunk_encode_truncates (r : ChunkRecord) :
  exists b, Chunk.encode r = Ok b /\
    sub 2 4 b = le_bytes 4 (zlen (cr_payload r) mod 2 ^ 32) /\
    (zlen (cr_payload r) < 2 ^ 32 \/ le_val (sub 2 4 b) <> zlen (cr_payload r)).
Proof.
  rewrite Chunk.encode_bytes. eexists. split; [done|].
  assert (sub 2 4 (Chunk.record_bytes r) = le_bytes 4 (zlen (cr_payload r) mod 2 ^ 32)) as HS.
  { unfold Chunk.record_bytes. rewrite sub_skip by done. by apply sub_hit. }
  split; [done|]. rewrite HS, le_val_bytes_small by
    (change (256 ^ Z.of_nat 4) with (2 ^ 32); apply Z.mod_pos_bound; lia).
  destruct (Z.lt_ge_cases (zlen (cr_payload r)) (2 ^ 32)); [by left|right].
  pose proof (Z.mod_pos_bound (zlen (cr_payload r)) (2 ^ 32)). lia.
Qed.
End properties.

(** [decode] accepts exactly the encodings: it recovers every well-formed
    record from its encoding, and anything it returns is well formed and
    re-encodes to the bytes it was read from. *)
Theorem chunk_decode_exact (r : ChunkRecord) (b : bytes) :
  (Chunk.record_ok r -> forall rest, Chunk.decode (Chunk.record_bytes r ++ rest) = Ok r) /\
  (Chunk.decode b = Ok r ->
     Chunk.record_ok r /\ Chunk.encode r = Ok (ztake (Chunk.total_len r) b)).
Proof.
  split; [intros; by apply Chunk.decode_record|].
  intros Hd. destruct (decode_Ok _ _ Hd) as [Hr Hb]. split; [done|].
  rewrite Chunk.encode_bytes, Hb, ztake_app_exact; [done|]. by rewrite Chunk.zlen_record_bytes.
Qed.
