(* ===== verification/Footer.v ===== *)
(** * The image footer ([crates/lr-format/src/footer.rs])

    The last 4096 bytes of an image: counters, the page table (or where to
    find it), a verbatim copy of the superblock prefix, a hash and a MAC. The
    page-table serialisation of [writer.rs] lives here too. *)

From S2P Require Import Prelude Core Crypto Pages Wire Superblock.

Definition FOOTER_SIZE : Z := 4096.
Definition FOOTER_MAGIC : bytes :=
  [Byte.x4c; Byte.x52; Byte.x46; Byte.x4f; Byte.x4f; Byte.x54; Byte.x01; Byte.x00].
Definition SUPERBLOCK_COPY_OFFSET : Z := 32.
Definition PAGE_TABLE_OFFSET : Z := 1056.
Definition INLINE_PAGE_TABLE_SLOTS : Z := 120.
Definition PAGE_ENTRY_SIZE : Z := 13.
Definition FOOTER_HASH_OFFSET : Z := 2624.
Definition FOOTER_MAC_OFFSET : Z := 2656.
Definition FLAG_PAGE_TABLE_IN_STREAM4 : Z := 1.

Record PageEntry := { pe_stream : StreamId; pe_offset : Z; pe_len : Z }.

#[export] Instance page_entry_eq_dec : EqDecision PageEntry.
Proof. solve_decision. Defined.

Record FooterRec := {
  total_chunks : Z;
  data_end_offset : Z;
  page_table : list PageEntry;
  f_flags : Z;
}.

Definition entry_ok (e : PageEntry) : Prop := u64_ok (pe_offset e) /\ u32_ok (pe_len e).

(** One slot of the table. *)
Definition entry_bytes (e : PageEntry) : bytes :=
  le_bytes 1 (StreamIds.as_u8 (pe_stream e)) ++ le_bytes 8 (pe_offset e) ++ le_bytes 4 (pe_len e).

(** [serialize_table] ([writer.rs]). *)
Definition serialize_table (table : list PageEntry) : bytes :=
  fold_left (fun out e =>
    ((out ++ le_bytes 1 (StreamIds.as_u8 (pe_stream e))) ++ le_bytes 8 (pe_offset e))
      ++ le_bytes 4 (pe_len e)) table [].

(** One 13-byte slot of a slice. *)
Definition parse_entry (b : bytes) : result PageEntry :=
  let* stream := StreamIds.from_u8 (le_val (sub 0 1 b)) in
  Ok {| pe_stream := stream; pe_offset := le_val (sub 1 8 b); pe_len := le_val (sub 9 4 b) |}.

(** [n] slots from offset [at] of a buffer, in order. *)
Fixpoint read_slots (n : nat) (at_ : Z) (b : bytes) : result (list PageEntry) :=
  match n with
  | O => Ok []
  | S n =>
    let* e := parse_entry (sub at_ PAGE_ENTRY_SIZE b) in
    let* l := read_slots n (at_ + PAGE_ENTRY_SIZE) b in
    Ok (e :: l)
  end.

(** [parse_table] ([writer.rs]): [chunks_exact(13)] of the whole buffer. *)
Definition parse_table (b : bytes) : result (list PageEntry) :=
  if negb (zlen b mod PAGE_ENTRY_SIZE =? 0) then
    Err (Corrupt "page table length {} is not a multiple of {PAGE_ENTRY_SIZE}")
  else read_slots (Z.to_nat (zlen b / PAGE_ENTRY_SIZE)) 0 b.

Module Footer.
(** [flags & FLAG_PAGE_TABLE_IN_STREAM4 == 0]. *)
Definition page_table_in_stream4 (f : FooterRec) : bool :=
  SbFlags.has (f_flags f) FLAG_PAGE_TABLE_IN_STREAM4.

Definition page_count (f : FooterRec) : Z := zlen (page_table f).

Definition entries_for (f : FooterRec) (stream : StreamId) : list PageEntry :=
  filter (fun e => pe_stream e = stream) (page_table f).

(** The slot writes [bytes[at..]] of one entry after the other. *)
Fixpoint table_fields (at_ : Z) (table : list PageEntry) : list (Z * bytes) :=
  match table with
  | [] => []
  | e :: table =>
    (at_, le_bytes 1 (StreamIds.as_u8 (pe_stream e))) ::
    (at_ + 1, le_bytes 8 (pe_offset e)) ::
    (at_ + 9, le_bytes 4 (pe_len e)) ::
    table_fields (at_ + PAGE_ENTRY_SIZE) table
  end.

Definition footer_fields (f : FooterRec) (superblock_copy : bytes) : list (Z * bytes) :=
  [ (0, FOOTER_MAGIC);
    (8, le_bytes 8 (total_chunks f));
    (16, le_bytes 8 (data_end_offset f));
    (24, le_bytes 2 (zlen (page_table f) mod 2 ^ 16));
    (26, le_bytes 2 INLINE_PAGE_TABLE_SLOTS);
    (28, le_bytes 4 (f_flags f));
    (SUPERBLOCK_COPY_OFFSET, superblock_copy) ] ++
  table_fields PAGE_TABLE_OFFSET (page_table f).

Section ops.
Context `{Primitives}.

Definition encode (f : FooterRec) (superblock_copy : bytes) (meta_key : option bytes) :
    result bytes :=
  if negb (zlen superblock_copy =? SUPERBLOCK_COPY_LEN) then
    Err (Corrupt "superblock copy must be {SUPERBLOCK_COPY_LEN} bytes")
  else
    let inline := Z.land (f_flags f) FLAG_PAGE_TABLE_IN_STREAM4 =? 0 in
    if inline && (INLINE_PAGE_TABLE_SLOTS <? zlen (page_table f)) then
      Err (Unsupported "page table has {} entries; {} slots fit inline")
    else if negb inline && (zlen (page_table f) =? 0) then
      Err (Corrupt "stream-4 page table flag with an empty table")
    else if negb inline && (INLINE_PAGE_TABLE_SLOTS <? zlen (page_table f)) then
      Err (Unsupported "stream-4 page table is itself too large to describe inline")
    else
      let b := write_fields (footer_fields f superblock_copy) (zrep FOOTER_SIZE Byte.x00) in
      let hash := Mac.unkeyed_mac32 (ztake FOOTER_HASH_OFFSET b) in
      let b := put_at FOOTER_HASH_OFFSET hash b in
      let key := Sb.authentication_key meta_key in
      let mac := Mac.mac32 key (ztake FOOTER_MAC_OFFSET b) in
      let b := put_at FOOTER_MAC_OFFSET mac b in
      Ok b.

Definition decode (b superblock_prefix : bytes) : result FooterRec :=
  if negb (bool_decide (sub 0 8 b = FOOTER_MAGIC)) then
    Err (Corrupt "footer magic does not match LRFOOT")
  else
    let expected := Mac.unkeyed_mac32 (ztake FOOTER_HASH_OFFSET b) in
    if negb (bool_decide (sub FOOTER_HASH_OFFSET 32 b = expected)) then
      Err (Corrupt "footer hash mismatch")
    else if negb (zlen superblock_prefix =? SUPERBLOCK_COPY_LEN) then
      Err (Corrupt "superblock prefix has the wrong length")
    else if negb (bool_decide
        (sub SUPERBLOCK_COPY_OFFSET SUPERBLOCK_COPY_LEN b = superblock_prefix)) then
      Err (Corrupt "footer superblock copy does not match the superblock")
    else
      let count := le_val (sub 24 2 b) in
      let slots := le_val (sub 26 2 b) in
      if negb (slots =? INLINE_PAGE_TABLE_SLOTS) then
        Err (Corrupt "footer declares {slots} inline slots, expected {INLINE_PAGE_TABLE_SLOTS}")
      else if INLINE_PAGE_TABLE_SLOTS <? count then
        Err (Corrupt "footer declares {count} page-table entries, at most {} fit")
      else
        let flags := le_val (sub 28 4 b) in
        if negb (Z.land flags (U32_MAX - FLAG_PAGE_TABLE_IN_STREAM4) =? 0) then
          Err (Corrupt "unknown footer flags 0x{flags:08X}")
        else
          let* table := read_slots (Z.to_nat count) PAGE_TABLE_OFFSET b in
          Ok {| total_chunks := le_val (sub 8 8 b);
                data_end_offset := le_val (sub 16 8 b);
                page_table := table; f_flags := flags |}.

Definition verify_mac (b : bytes) (meta_key : option bytes) : result unit :=
  let stored := sub FOOTER_MAC_OFFSET 32 b in
  let key := Sb.authentication_key meta_key in
  if Mac.verify_mac32 key (ztake FOOTER_MAC_OFFSET b) stored
  then Ok tt else Err (Corrupt "footer MAC mismatch").
End ops.

(** What the Rust types guarantee. *)
Record footer_ok (f : FooterRec) : Prop := {
  fk_chunks : u64_ok (total_chunks f);
  fk_end : u64_ok (data_end_offset f);
  fk_table : Forall entry_ok (page_table f);
  fk_flags : u32_ok (f_flags f);
}.

(** The footers [encode] accepts and [decode] returns. *)
Definition footer_valid (f : FooterRec) : Prop :=
  zlen (page_table f) <= INLINE_PAGE_TABLE_SLOTS /\ 0 <= f_flags f <= 1.
End Footer.

(** ** Table lemmas *)

Lemma zlen_entry_bytes e : zlen (entry_bytes e) = 13.
Proof. unfold entry_bytes. by rewrite !zlen_app, !zlen_le_bytes. Qed.

Lemma parse_entry_bytes e : entry_ok e -> parse_entry (entry_bytes e) = Ok e.
Proof.
  intros [Ho Hl]. unfold parse_entry, entry_bytes.
  rewrite sub_hit, (sub_skip 1), (sub_skip 9), (sub_skip (9 - _)), !sub_hit, sub_all by done.
  rewrite !le_val_bytes_small by first [done | destruct (pe_stream e); done].
  rewrite StreamIds.stream_id_from_as_u8. by destruct e.
Qed.

Lemma parse_entry_Ok b e :
  zlen b = 13 -> parse_entry b = Ok e -> entry_ok e /\ b = entry_bytes e.
Proof.
  intros Hb. unfold parse_entry. intros H. inv_ok.
  apply StreamIds.stream_id_from_u8_inv in E. unfold entry_ok, entry_bytes. cbn [pe_stream pe_offset pe_len].
  pose proof (le_val_bound (sub 1 8 b)) as H8. pose proof (le_val_bound (sub 9 4 b)) as H4.
  rewrite zlen_sub in H8, H4 by lia. split; [done|].
  rewrite E, !le_bytes_val_z by (apply zlen_sub; lia). merge_subs. symmetry. by apply sub_all.
Qed.

Definition table_bytes (t : list PageEntry) : bytes := concat (map entry_bytes t).

Lemma zlen_table_bytes t : zlen (table_bytes t) = 13 * zlen t.
Proof.
  induction t as [|e t IH]; [done|]. unfold table_bytes in *. cbn [map concat].
  rewrite zlen_app, zlen_entry_bytes, IH, zlen_cons. lia.
Qed.

Lemma serialize_table_bytes t : serialize_table t = table_bytes t.
Proof.
  unfold serialize_table, table_bytes. rewrite <- (app_nil_l (concat _)). generalize (@nil byte).
  induction t as [|e t IH]; intros acc; cbn [fold_left map concat]; [by rewrite app_nil_r|].
  rewrite IH. unfold entry_bytes. by rewrite <- !app_assoc.
Qed.

Lemma table_fields_bytes at_ t : fields_bytes (Footer.table_fields at_ t) = table_bytes t.
Proof.
  revert at_. induction t as [|e t IH]; intros at_; [done|].
  unfold fields_bytes, table_bytes in *. cbn [Footer.table_fields map concat snd].
  rewrite IH. unfold entry_bytes. by rewrite <- !app_assoc.
Qed.

Lemma table_fields_contiguous at_ t : contiguous at_ (Footer.table_fields at_ t).
Proof.
  revert at_. induction t as [|e t IH]; intros at_; cbn [Footer.table_fields contiguous]; [done|].
  rewrite !zlen_le_bytes. split_and!; [done|lia|lia|].
  replace (at_ + _ + _ + _) with (at_ + PAGE_ENTRY_SIZE) by (unfold PAGE_ENTRY_SIZE; lia). apply IH.
Qed.

Lemma read_slots_table t pre rest at_ :
  Forall entry_ok t -> at_ = zlen pre ->
  read_slots (length t) at_ (pre ++ table_bytes t ++ rest) = Ok t.
Proof.
  intros Ht. revert pre at_. induction Ht as [|e t He Ht IH]; intros pre at_ ->; [done|].
  cbn [length read_slots]. unfold table_bytes. cbn [map concat]. rewrite <- app_assoc.
  rewrite sub_skip, sub_hit by (rewrite ?zlen_entry_bytes; lia || done).
  rewrite parse_entry_bytes by done. cbn [bind].
  rewrite (app_assoc pre). rewrite IH; [done|].
  by rewrite zlen_app, zlen_entry_bytes.
Qed.

Lemma read_slots_Ok n at_ b t :
  0 <= at_ -> at_ + 13 * Z.of_nat n <= zlen b -> read_slots n at_ b = Ok t ->
  Forall entry_ok t /\ length t = n /\ sub at_ (13 * Z.of_nat n) b = table_bytes t.
Proof.
  intros Ha. revert at_ t Ha. induction n as [|n IH]; intros at_ t Ha Hl Hr; cbn [read_slots] in Hr.
  - inv_ok. split_and!; [constructor|done|]. unfold sub. by rewrite ztake_nonpos.
  - inv_ok. unfold PAGE_ENTRY_SIZE in *.
    apply parse_entry_Ok in E as [He Hb]; [|apply zlen_sub; lia].
    apply IH in E0 as (Ht & Hn & Hs); [|lia..].
    split_and!; [by constructor|simpl; lia|].
    replace (13 * Z.of_nat (S n)) with (13 + 13 * Z.of_nat n) by lia.
    rewrite sub_split by lia. rewrite Hb, Hs. done.
Qed.

(** ** Layout lemmas *)
Module FooterLayout.
Import Footer.

Definition table_end (f : FooterRec) : Z := PAGE_TABLE_OFFSET + 13 * zlen (page_table f).

(** Everything the hash covers. *)
Definition prefix (f : FooterRec) (copy : bytes) : bytes :=
  fields_bytes (footer_fields f copy) ++ zrep (FOOTER_HASH_OFFSET - table_end f) Byte.x00.

Definition base_fields (f : FooterRec) (copy : bytes) : list (Z * bytes) :=
  take 7 (footer_fields f copy).

Lemma base_contiguous f copy : zlen copy = SUPERBLOCK_COPY_LEN -> contiguous 0 (base_fields f copy).
Proof.
  intros Hc. unfold base_fields, footer_fields. cbn [take app contiguous].
  rewrite !zlen_le_bytes. repeat split.
Qed.

Lemma zlen_base f copy : zlen copy = SUPERBLOCK_COPY_LEN ->
  zlen (fields_bytes (base_fields f copy)) = PAGE_TABLE_OFFSET.
Proof.
  intros Hc. unfold base_fields, footer_fields, fields_bytes. cbn [take app map concat snd].
  rewrite !zlen_app, !zlen_le_bytes, Hc. done.
Qed.

Lemma fields_split f copy :
  footer_fields f copy = base_fields f copy ++ table_fields PAGE_TABLE_OFFSET (page_table f).
Proof. done. Qed.

Lemma fields_bytes_split f copy :
  fields_bytes (footer_fields f copy) =
  fields_bytes (base_fields f copy) ++ table_bytes (page_table f).
Proof.
  rewrite fields_split. unfold fields_bytes at 1. rewrite map_app, concat_app.
  by rewrite <- (table_fields_bytes PAGE_TABLE_OFFSET).
Qed.

Lemma fields_contiguous f copy :
  zlen copy = SUPERBLOCK_COPY_LEN -> contiguous 0 (footer_fields f copy).
Proof.
  intros Hc. rewrite fields_split. apply contiguous_app; [by apply base_contiguous|].
  rewrite zlen_base by done. apply table_fields_contiguous.
Qed.

Lemma zlen_fields f copy : zlen copy = SUPERBLOCK_COPY_LEN ->
  zlen (fields_bytes (footer_fields f copy)) = table_end f.
Proof. intros. rewrite fields_bytes_split, zlen_app, zlen_base, zlen_table_bytes by done. done. Qed.

Lemma table_fits f : zlen (page_table f) <= INLINE_PAGE_TABLE_SLOTS -> table_end f <= FOOTER_HASH_OFFSET.
Proof. unfold table_end, PAGE_TABLE_OFFSET, INLINE_PAGE_TABLE_SLOTS, FOOTER_HASH_OFFSET. lia. Qed.

Lemma zlen_prefix f copy :
  zlen copy = SUPERBLOCK_COPY_LEN -> zlen (page_table f) <= INLINE_PAGE_TABLE_SLOTS ->
  zlen (prefix f copy) = FOOTER_HASH_OFFSET.
Proof.
  intros Hc Ht%table_fits. unfold prefix. rewrite zlen_app, zlen_zrep, zlen_fields by done. lia.
Qed.

Section lemmas.
Context `{PrimitiveLaws}.

Definition layout (f : FooterRec) (copy : bytes) (meta_key : option bytes) : bytes :=
  let p := prefix f copy in
  let h := Mac.unkeyed_mac32 p in
  p ++ h ++ Mac.mac32 (Sb.authentication_key meta_key) (p ++ h) ++ zrep 1408 Byte.x00.

(** The tests of [encode], and then the layout. *)
Definition encode_checks (f : FooterRec) (copy : bytes) : result unit :=
  if negb (zlen copy =? SUPERBLOCK_COPY_LEN) then
    Err (Corrupt "superblock copy must be {SUPERBLOCK_COPY_LEN} bytes")
  else
    let inline := Z.land (f_flags f) FLAG_PAGE_TABLE_IN_STREAM4 =? 0 in
    if inline && (INLINE_PAGE_TABLE_SLOTS <? zlen (page_table f)) then
      Err (Unsupported "page table has {} entries; {} slots fit inline")
    else if negb inline && (zlen (page_table f) =? 0) then
      Err (Corrupt "stream-4 page table flag with an empty table")
    else if negb inline && (INLINE_PAGE_TABLE_SLOTS <? zlen (page_table f)) then
      Err (Unsupported "stream-4 page table is itself too large to describe inline")
    else Ok tt.

Lemma encode_checks_Ok f copy : encode_checks f copy = Ok tt ->
  zlen copy = SUPERBLOCK_COPY_LEN /\ zlen (page_table f) <= INLINE_PAGE_TABLE_SLOTS /\
  (page_table_in_stream4 f = true -> 0 < zlen (page_table f)).
Proof.
  unfold encode_checks, page_table_in_stream4, SbFlags.has.
  pose proof (zlen_nonneg (page_table f)).
  destruct (Z.land _ _ =? 0); cbn [negb andb]; repeat case_match; intros; bprop; try done;
    split_and!; (done || lia).
Qed.

Lemma footer_encode_layout f copy k :
  encode f copy k = (encode_checks f copy;;; Ok (layout f copy k)).
Proof.
  transitivity (encode_checks f copy;;; encode f copy k).
  { unfold encode, encode_checks. by repeat case_match. }
  apply bind_ext. intros [] Hok. apply encode_checks_Ok in Hok as Hx.
  destruct Hx as (Hc & Ht & _).
  assert (write_fields (footer_fields f copy) (zrep FOOTER_SIZE Byte.x00) =
          prefix f copy ++ zrep 1472 Byte.x00) as HW.
  { rewrite (write_fields_contiguous _ [] FOOTER_SIZE).
    - unfold prefix. rewrite zlen_fields by done. cbn [app]. rewrite <- app_assoc. f_equal.
      apply table_fits in Ht. unfold zrep. rewrite <- replicate_add. f_equal.
      unfold FOOTER_SIZE, FOOTER_HASH_OFFSET in *. lia.
    - by apply fields_contiguous.
    - rewrite zlen_fields by done. apply table_fits in Ht.
      unfold FOOTER_SIZE, FOOTER_HASH_OFFSET in *. lia. }
  pose proof (zlen_prefix f copy Hc Ht) as Hp.
  revert Hok. unfold encode, encode_checks. repeat (case_match; [done|]). intros _.
  rewrite HW, ztake_app_exact by done.
  rewrite put_at_fill by (done || (rewrite Mac.zlen_unkeyed_mac32; done)).
  rewrite (ztake_app_exact FOOTER_MAC_OFFSET (_ ++ _))
    by (rewrite zlen_app, Hp, Mac.zlen_unkeyed_mac32; done).
  rewrite put_at_fill by (rewrite ?zlen_app, ?Hp, ?Mac.zlen_unkeyed_mac32, ?Mac.zlen_mac32; done).
  rewrite Mac.zlen_mac32, Mac.zlen_unkeyed_mac32. unfold layout. by rewrite <- !app_assoc.
Qed.

Section placed.
Context (f : FooterRec) (copy : bytes) (k : option bytes).
Context (Hc : zlen copy = SUPERBLOCK_COPY_LEN).
Context (Ht : zlen (page_table f) <= INLINE_PAGE_TABLE_SLOTS).

Lemma footer_zlen_layout : zlen (layout f copy k) = FOOTER_SIZE.
Proof.
  unfold layout. rewrite !zlen_app, zlen_prefix, Mac.zlen_mac32, Mac.zlen_unkeyed_mac32 by done.
  done.
Qed.

Lemma footer_layout_field off v n :
  In (off, v) (footer_fields f copy) -> n = zlen v -> sub off n (layout f copy k) = v.
Proof.
  intros Hin Hn. unfold layout, prefix. rewrite <- app_assoc.
  apply (contiguous_sub _ []); [by apply fields_contiguous|done..].
Qed.

Lemma footer_layout_hash : sub FOOTER_HASH_OFFSET 32 (layout f copy k) = Mac.unkeyed_mac32 (prefix f copy).
Proof.
  unfold layout. rewrite sub_skip by (rewrite zlen_prefix; done).
  apply sub_hit; [by rewrite zlen_prefix|by rewrite Mac.zlen_unkeyed_mac32].
Qed.

Lemma footer_layout_take : ztake FOOTER_HASH_OFFSET (layout f copy k) = prefix f copy.
Proof. unfold layout. apply ztake_app_exact. by rewrite zlen_prefix. Qed.

Lemma footer_layout_verify_mac : verify_mac (layout f copy k) k = Ok tt.
Proof.
  unfold verify_mac, layout. rewrite app_assoc.
  assert (zlen (prefix f copy ++ Mac.unkeyed_mac32 (prefix f copy)) = FOOTER_MAC_OFFSET) as Hl
    by (rewrite zlen_app, zlen_prefix, Mac.zlen_unkeyed_mac32; done).
  rewrite ztake_app_exact, sub_skip, sub_hit by (rewrite ?Hl, ?Mac.zlen_mac32; done).
  by rewrite Mac.verify_own_mac.
Qed.

Lemma layout_table :
  Forall entry_ok (page_table f) ->
  read_slots (length (page_table f)) PAGE_TABLE_OFFSET (layout f copy k) = Ok (page_table f).
Proof.
  intros He. unfold layout, prefix. rewrite fields_bytes_split, <- !app_assoc.
  apply read_slots_table; [done|]. by rewrite zlen_base.
Qed.

Lemma footer_decode_layout :
  footer_ok f -> f_flags f <= 1 -> decode (layout f copy k) copy = Ok f.
Proof.
  intros [Hch Hend Htab Hfl] Hf1. unfold decode.
  pose proof (zlen_nonneg (page_table f)).
  rewrite footer_layout_hash, footer_layout_take, bool_decide_true by done. cbn [negb].
  repeat match goal with
    |- context [sub ?o ?n (layout f copy k)] =>
      erewrite (footer_layout_field o _ n);
      [|unfold footer_fields; apply in_or_app; left; cbn [In];
        repeat first [left; reflexivity | right]
       |rewrite ?zlen_le_bytes; (done || lia)]
    end.
  unfold INLINE_PAGE_TABLE_SLOTS in *.
  rewrite Z.mod_small by lia. rewrite !le_val_bytes_small
    by first [assumption | lia | unfold u32_ok in *; simpl; lia].
  rewrite !bool_decide_true, Hc by done. cbn [negb].
  rewrite !Z.eqb_refl. cbn [negb]. rewrite (proj2 (Z.ltb_ge _ _)) by lia.
  assert (Z.land (f_flags f) (U32_MAX - FLAG_PAGE_TABLE_IN_STREAM4) = 0) as ->.
  { assert (f_flags f = 0 \/ f_flags f = 1) as [->| ->] by (unfold u32_ok in *; lia); done. }
  rewrite Z.eqb_refl. cbn [negb].
  assert (Z.to_nat (zlen (page_table f)) = length (page_table f)) as -> by (unfold zlen; lia).
  rewrite layout_table by done. by destruct f.
Qed.
End placed.
End lemmas.
End FooterLayout.

Lemma unknown_flags_clear fl :
  u32_ok fl -> Z.land fl (U32_MAX - FLAG_PAGE_TABLE_IN_STREAM4) = 0 -> 0 <= fl <= 1.
Proof.
  intros Hfl H0. enough (0 <= fl < 2 ^ 1) by lia. apply bits_range; [done|]. intros i Hi.
  destruct (Z.lt_ge_cases i 32) as [Hs|Hs]; [|by apply (range_bits 32)].
  assert (Z.testbit (Z.land fl (U32_MAX - FLAG_PAGE_TABLE_IN_STREAM4)) i = false) as HB
    by (rewrite H0; apply Z.bits_0).
  change (U32_MAX - FLAG_PAGE_TABLE_IN_STREAM4) with (Z.lxor (Z.ones 32) (2 ^ 0)) in HB.
  rewrite Z.land_spec, Z.lxor_spec, Z.testbit_ones_nonneg, Z.pow2_bits_false in HB by lia.
  rewrite (proj2 (Z.ltb_lt _ _)) in HB by done. by rewrite andb_true_r in HB.
Qed.

(** ** Properties *)
Section properties.
Context `{PrimitiveLaws}.

(** What [decode] reads: every field it covers, byte for byte. *)
Lemma footer_decode_fields b pre f :
  zlen b = FOOTER_SIZE -> Footer.decode b pre = Ok f ->
  Footer.footer_ok f /\ Footer.footer_valid f /\ zlen pre = SUPERBLOCK_COPY_LEN /\
  sub FOOTER_HASH_OFFSET 32 b = Mac.unkeyed_mac32 (ztake FOOTER_HASH_OFFSET b) /\
  ztake (FooterLayout.table_end f) b = fields_bytes (Footer.footer_fields f pre).
Proof.
  unfold FOOTER_SIZE. intros Hb. unfold Footer.decode.
  repeat (case_match; [done|]). bprop. intros Hd. inv_ok.
  assert (forall o n, 0 <= o -> 0 <= n -> o + n <= 4096 -> zlen (sub o n b) = n) as HL
    by (intros; apply zlen_sub; lia).
  assert (forall o n, 0 <= o -> 0 <= n -> o + n <= 4096 -> 0 <= le_val (sub o n b) < 256 ^ n) as HV.
  { intros. pose proof (le_val_bound (sub o n b)). by rewrite HL in * by lia. }
  pose proof (HV 24 2 ltac:(lia) ltac:(lia) ltac:(lia)) as Hcount.
  unfold INLINE_PAGE_TABLE_SLOTS, PAGE_TABLE_OFFSET in *.
  apply read_slots_Ok in E as (He & Hn & Hs); [|lia..].
  assert (zlen v = le_val (sub 24 2 b)) as Hz by (unfold zlen; lia).
  split_and!; [| |done|done|].
  - split; cbn; [apply (HV 8 8); lia|apply (HV 16 8); lia|done|apply (HV 28 4); lia].
  - split; cbn; [unfold INLINE_PAGE_TABLE_SLOTS; lia|].
    apply unknown_flags_clear; [apply (HV 28 4); lia|done].
  - rewrite FooterLayout.fields_bytes_split. cbn [page_table].
    replace (13 * Z.of_nat _) with (13 * zlen v) in Hs by (unfold zlen; lia).
    rewrite <- Hs. unfold FooterLayout.table_end, FooterLayout.base_fields, Footer.footer_fields, fields_bytes.
    cbn [take app map concat snd total_chunks data_end_offset page_table f_flags].
    rewrite Z.mod_small, Hz by lia.
    rewrite !(fun o => le_bytes_val_z (sub o 8 b) 8), !(fun o => le_bytes_val_z (sub o 2 b) 2),
      !(fun o => le_bytes_val_z (sub o 4 b) 4) by (apply HL; lia).
    match goal with HM : sub 0 8 b = FOOTER_MAGIC |- _ => rewrite <- HM end.
    assert (le_bytes 2 INLINE_PAGE_TABLE_SLOTS = sub 26 2 b) as ->.
    { unfold INLINE_PAGE_TABLE_SLOTS. match goal with HM : le_val (sub 26 2 b) = 120 |- _ => rewrite <- HM end.
      apply le_bytes_val_z, HL; lia. }
    unfold PAGE_TABLE_OFFSET, SUPERBLOCK_COPY_OFFSET, SUPERBLOCK_COPY_LEN, SB_HASH_OFFSET.
    rewrite app_nil_r. merge_subs.
    by rewrite sub_0.
Qed.

(** A footer that [encode] accepts occupies exactly 4096 bytes, its MAC
    verifies, and next to the superblock prefix it was written with it
    decodes to the same footer; next to any other prefix it is refused. *)
Theorem footer_roundtrip f copy meta_key b :
  Footer.footer_ok f -> f_flags f <= 1 -> Footer.encode f copy meta_key = Ok b ->
  zlen b = FOOTER_SIZE /\ Footer.verify_mac b meta_key = Ok tt /\
  Footer.decode b copy = Ok f /\
  (forall pre, pre <> copy -> exists what, Footer.decode b pre = Err (Corrupt what)).
Proof.
  intros Hf Hf1. rewrite FooterLayout.footer_encode_layout. intros He. inv_ok. destruct v.
  apply FooterLayout.encode_checks_Ok in E as (Hc & Ht & _). split_and!.
  - by apply FooterLayout.footer_zlen_layout.
  - by apply FooterLayout.footer_layout_verify_mac.
  - by apply FooterLayout.footer_decode_layout.
  - intros pre Hne. unfold Footer.decode. repeat (case_match; [by eauto|]).
    bprop. exfalso. apply Hne.
    match goal with HM : sub SUPERBLOCK_COPY_OFFSET _ _ = pre |- _ => rewrite <- HM end.
    apply FooterLayout.footer_layout_field; [done..| |done].
    unfold Footer.footer_fields. apply in_or_app. left. cbn [In]. tauto.
Qed.

(** Decoding a footer accepts nothing the writer would not have written:
    a 4096-byte block that decodes next to [pre] and whose MAC verifies holds
    at most 120 table slots and known flags, agrees with the encoding of the
    footer up to the end of the table, and is that encoding when the unused
    bytes are zero. *)
Theorem footer_decode_exact b pre f meta_key :
  zlen b = FOOTER_SIZE -> Footer.decode b pre = Ok f -> Footer.verify_mac b meta_key = Ok tt ->
  (Footer.page_table_in_stream4 f = true -> page_table f <> []) ->
  exists b', Footer.encode f pre meta_key = Ok b' /\
    ztake (FooterLayout.table_end f) b = ztake (FooterLayout.table_end f) b' /\
    (zdrop (FooterLayout.table_end f) (ztake FOOTER_HASH_OFFSET b) =
       zrep (FOOTER_HASH_OFFSET - FooterLayout.table_end f) Byte.x00 ->
     zdrop 2688 b = zrep 1408 Byte.x00 -> b = b').
Proof.
  intros Hb Hd Hm Hne. destruct (footer_decode_fields _ _ _ Hb Hd) as (Hf & [Ht Hfl] & Hp & Hh & HF).
  unfold FOOTER_SIZE in Hb. rewrite FooterLayout.footer_encode_layout.
  assert (FooterLayout.encode_checks f pre = Ok tt) as ->.
  { unfold FooterLayout.encode_checks. unfold Footer.page_table_in_stream4, SbFlags.has in Hne.
    rewrite Hp, Z.eqb_refl, (proj2 (Z.ltb_ge _ _)) by done. cbn [negb]. rewrite !andb_false_r.
    destruct (Z.land _ _ =? 0); cbn [negb andb] in *; [done|].
    destruct (Z.eqb_spec (zlen (page_table f)) 0) as [Hz%zlen_0_nil|]; [|done].
    by destruct (Hne eq_refl Hz). }
  cbn [bind]. eexists; split; [done|]. pose proof (FooterLayout.table_fits f Ht) as Hend.
  assert (0 <= FooterLayout.table_end f) as H0e
    by (unfold FooterLayout.table_end, PAGE_TABLE_OFFSET; pose proof (zlen_nonneg (page_table f)); lia).
  split.
  - rewrite HF. unfold FooterLayout.layout, FooterLayout.prefix. rewrite <- app_assoc.
    symmetry. apply ztake_app_exact. by rewrite FooterLayout.zlen_fields.
  - intros Hz1 Hz2.
    assert (ztake FOOTER_HASH_OFFSET b = FooterLayout.prefix f pre) as HP.
    { unfold FooterLayout.prefix. rewrite <- HF, <- Hz1.
      rewrite <- (ztake_zdrop (FooterLayout.table_end f) (ztake FOOTER_HASH_OFFSET b)) at 1.
      rewrite ztake_ztake. by rewrite Z.min_l. }
    assert (ztake FOOTER_MAC_OFFSET b =
            FooterLayout.prefix f pre ++ Mac.unkeyed_mac32 (FooterLayout.prefix f pre)) as Hq.
    { rewrite <- HP at 2. rewrite <- Hh, <- HP, <- !sub_0. unfold FOOTER_HASH_OFFSET, FOOTER_MAC_OFFSET.
      merge_subs. done. }
    unfold Footer.verify_mac in Hm. case_match eqn:HE; [|done].
    apply bool_decide_eq_true in HE. rewrite Hq in HE.
    unfold FooterLayout.layout, Mac.mac32. rewrite <- HE, app_assoc, <- Hq, <- Hz2, <- sub_0.
    unfold FOOTER_MAC_OFFSET. rewrite app_assoc. merge_subs.
    rewrite sub_0. symmetry. apply ztake_zdrop.
Qed.
End properties.

(** A buffer that parses is the table it parses to. *)
Lemma parse_table_Ok t b :
  parse_table b = Ok t -> Forall entry_ok t /\ serialize_table t = b.
Proof.
  rewrite serialize_table_bytes. unfold parse_table, PAGE_ENTRY_SIZE.
  intros Hp. case_match; [done|]. bprop. pose proof (zlen_nonneg b).
  pose proof (Z.div_mod (zlen b) 13). pose proof (Z.div_pos (zlen b) 13).
  apply read_slots_Ok in Hp as (He & Hn & Hs); [|lia..]. split; [done|].
  rewrite <- Hs. apply sub_all; lia.
Qed.

(** The page table serialises to 13 bytes an entry and parses back;
    whatever parses is the serialisation of its result, and a length that is
    not a multiple of 13 is refused. *)
Theorem page_table_roundtrip t b :
  (Forall entry_ok t -> parse_table (serialize_table t) = Ok t) /\
  (parse_table b = Ok t -> Forall entry_ok t /\ serialize_table t = b) /\
  (zlen b mod 13 <> 0 -> exists what, parse_table b = Err (Corrupt what)).
Proof.
  split_and!; [|apply parse_table_Ok|]; rewrite ?serialize_table_bytes; unfold parse_table, PAGE_ENTRY_SIZE.
  - intros Ht. rewrite zlen_table_bytes, (Z.mul_comm 13), Z.mod_mul, Z.div_mul by done.
    cbn [negb Z.eqb]. unfold zlen. rewrite Nat2Z.id.
    rewrite <- (app_nil_r (table_bytes t)). by apply (read_slots_table t []).
  - intros Hb. apply Z.eqb_neq in Hb. rewrite Hb. eauto.
Qed.
