(* ===== verification/Files.v ===== *)
(** * Files ([std::io::{Read, Write, Seek}] as the crates use them)

    An image being written is a byte list with a cursor and a capacity: a
    write past the capacity is [StorageFull]. An image being read is a byte
    list; [seek] to an offset and [read_exact] is one slice, or
    [UnexpectedEof]. *)

From S2P Require Import Prelude.

Record FileW := { fw_bytes : bytes; fw_pos : Z; fw_cap : Z }.

Module File.
(** [SeekFrom::Start]. *)
Definition seek (pos : Z) (f : FileW) : FileW :=
  {| fw_bytes := fw_bytes f; fw_pos := pos; fw_cap := fw_cap f |}.

(** A write past the end fills the gap with zeros. *)
Definition overwrite (pos : Z) (data b : bytes) : bytes :=
  put_at pos data (b ++ zrep (pos - zlen b) Byte.x00).

Definition write_all (data : bytes) (f : FileW) : result FileW :=
  if fw_pos f + zlen data <=? fw_cap f then
    Ok {| fw_bytes := overwrite (fw_pos f) data (fw_bytes f);
          fw_pos := fw_pos f + zlen data; fw_cap := fw_cap f |}
  else Err (Io StorageFull).

(** [seek(Start(off))] then [read_exact] of [n] bytes. *)
Definition read_exact (off n : Z) (b : bytes) : result bytes :=
  if off + n <=? zlen b then Ok (sub off n b) else Err (Io UnexpectedEof).

Definition new (cap : Z) : FileW := {| fw_bytes := []; fw_pos := 0; fw_cap := cap |}.

(** Appending is what a write at the end does. *)
Lemma overwrite_end data b : overwrite (zlen b) data b = b ++ data.
Proof.
  unfold overwrite. rewrite Z.sub_diag. change (zrep 0 Byte.x00) with (@nil byte).
  rewrite app_nil_r. unfold put_at. rewrite ztake_all by done.
  rewrite zdrop_all by (pose proof (zlen_nonneg data); lia). by rewrite app_nil_r.
Qed.

Lemma write_all_end data f f' :
  fw_pos f = zlen (fw_bytes f) -> write_all data f = Ok f' ->
  fw_bytes f' = fw_bytes f ++ data /\ fw_pos f' = zlen (fw_bytes f') /\ fw_cap f' = fw_cap f.
Proof.
  unfold write_all. intros Hp. case_match; intros; simplify_eq. cbn.
  rewrite Hp, overwrite_end, zlen_app. done.
Qed.

(** Rewriting a prefix of the same length. *)
Lemma overwrite_prefix data old b : zlen data = zlen old -> overwrite 0 data (old ++ b) = data ++ b.
Proof.
  intros Hl. unfold overwrite. replace (zrep _ Byte.x00) with (@nil byte).
  - rewrite app_nil_r. unfold put_at. rewrite ztake_nonpos by lia. cbn [app].
    by rewrite zdrop_app_exact.
  - unfold zrep. pose proof (zlen_nonneg (old ++ b)).
    by replace (Z.to_nat (0 - zlen (old ++ b))) with 0%nat by lia.
Qed.

Lemma read_exact_Ok off n b r :
  0 <= off -> 0 <= n -> read_exact off n b = Ok r ->
  r = sub off n b /\ zlen r = n /\ off + n <= zlen b.
Proof.
  unfold read_exact. intros. case_match; simplify_eq. bprop. split_and!; [done| |done].
  by apply zlen_sub.
Qed.

Lemma read_exact_inside off n b :
  off + n <= zlen b -> read_exact off n b = Ok (sub off n b).
Proof. intros. unfold read_exact. by rewrite (proj2 (Z.leb_le _ _)). Qed.

Lemma read_exact_placed pre x post off n :
  off = zlen pre -> n = zlen x -> read_exact off n (pre ++ x ++ post) = Ok x.
Proof.
  intros -> ->. rewrite read_exact_inside
    by (rewrite !zlen_app; pose proof (zlen_nonneg post); lia).
  rewrite sub_skip, sub_hit by lia. done.
Qed.

Lemma read_exact_within pre x post off n :
  off = zlen pre -> 0 <= n <= zlen x -> read_exact off n (pre ++ x ++ post) = Ok (ztake n x).
Proof.
  intros -> Hn. rewrite read_exact_inside
    by (rewrite !zlen_app; pose proof (zlen_nonneg post); lia).
  rewrite sub_skip, Z.sub_diag, sub_0, ztake_app_le by lia. done.
Qed.
End File.
