(* ===== verification/PageStream.v ===== *)
(** * Page streams ([crates/lr-format/src/stream.rs])

    A logical byte stream cut into pages. The writer is generic in the sink
    that receives sealed pages and owns the one metadata nonce counter; the
    reader goes over the page entries of one stream in offset order. *)

From S2P Require Import Prelude Core Crypto Pages Wire Footer Files.

Definition DEFAULT_PAGE_LEN : Z := 1024 * 1024.

(** The trait; the [&mut NonceSeq] of [meta_nonces] is a getter and a setter. *)
Class PageSink (P : Type) := {
  write_page : P -> StreamId -> Z -> bytes -> result P;
  meta_nonces : P -> NonceSeq;
  set_meta_nonces : NonceSeq -> P -> P;
}.

(** ** The writer *)
Record PageStream (P : Type) := {
  ps_sink : P;
  ps_stream : StreamId;
  ps_kind : AeadKind;
  ps_meta_key : bytes;
  ps_page_len : Z;
  ps_buf : bytes;
  ps_page_no : Z;
  ps_pages : Z;
}.
Arguments ps_sink {P}. Arguments ps_stream {P}. Arguments ps_kind {P}.
Arguments ps_meta_key {P}. Arguments ps_page_len {P}. Arguments ps_buf {P}.
Arguments ps_page_no {P}. Arguments ps_pages {P}.

Module PageStreams.
Section ops.
Context `{Primitives} {P : Type} `{PageSink P}.

Definition fresh (sink : P) (stream : StreamId) (kind : AeadKind) (meta_key : bytes)
    (page_len : Z) : PageStream P :=
  {| ps_sink := sink; ps_stream := stream; ps_kind := kind; ps_meta_key := meta_key;
     ps_page_len := page_len; ps_buf := []; ps_page_no := 0; ps_pages := 0 |}.

(** [None] is the failed [assert!]. *)
Definition with_page_len (sink : P) (stream : StreamId) (kind : AeadKind) (meta_key : bytes)
    (page_len : Z) : option (PageStream P) :=
  if (0 <? page_len) && (page_len <=? Page.MAX_PAGE_LEN)
  then Some (fresh sink stream kind meta_key page_len) else None.

Definition new (sink : P) (stream : StreamId) (kind : AeadKind) (meta_key : bytes) :
    PageStream P := fresh sink stream kind meta_key DEFAULT_PAGE_LEN.

(** [self.buf.extend_from_slice(..)]. *)
Definition extend (ps : PageStream P) (b : bytes) : PageStream P :=
  {| ps_sink := ps_sink ps; ps_stream := ps_stream ps; ps_kind := ps_kind ps;
     ps_meta_key := ps_meta_key ps; ps_page_len := ps_page_len ps;
     ps_buf := ps_buf ps ++ b; ps_page_no := ps_page_no ps; ps_pages := ps_pages ps |}.

Definition flush_page (ps : PageStream P) : result (PageStream P) :=
  if bool_decide (ps_buf ps = []) then Ok ps
  else
    let* (page, nonces) :=
      Page.seal_page (ps_kind ps) (ps_meta_key ps) (ps_stream ps) (ps_page_no ps)
        (ps_buf ps) (meta_nonces (ps_sink ps)) in
    let* sink :=
      write_page (set_meta_nonces nonces (ps_sink ps)) (ps_stream ps) (ps_page_no ps) page in
    Ok {| ps_sink := sink; ps_stream := ps_stream ps; ps_kind := ps_kind ps;
          ps_meta_key := ps_meta_key ps; ps_page_len := ps_page_len ps;
          ps_buf := []; ps_page_no := ps_page_no ps + 1; ps_pages := ps_pages ps + 1 |}.

(** The [while] loop of [write]. A buffer shorter than a page leaves room
    for at least one byte, so the length of the input is enough fuel. *)
Fixpoint write_loop (fuel : nat) (ps : PageStream P) (b : bytes) : result (PageStream P) :=
  match fuel with
  | O => Ok ps
  | S fuel =>
    if bool_decide (b = []) then Ok ps
    else
      let space := ps_page_len ps - zlen (ps_buf ps) in
      let take := Z.min space (zlen b) in
      let ps := extend ps (ztake take b) in
      let b := zdrop take b in
      let* ps := if zlen (ps_buf ps) =? ps_page_len ps then flush_page ps else Ok ps in
      write_loop fuel ps b
  end.

Definition write (ps : PageStream P) (b : bytes) : result (PageStream P) :=
  write_loop (length b) ps b.

Definition finish (ps : PageStream P) : result (PageStream P) := flush_page ps.

Definition pages (ps : PageStream P) : Z := ps_pages ps.
Definition buffered (ps : PageStream P) : Z := zlen (ps_buf ps).

(** *** The specification: the input cut into pages, sealed in order *)

Definition emit_page (kind : AeadKind) (meta_key : bytes) (stream : StreamId) (no : Z)
    (payload : bytes) (sink : P) : result P :=
  let* (page, nonces) :=
    Page.seal_page kind meta_key stream no payload (meta_nonces sink) in
  write_page (set_meta_nonces nonces sink) stream no page.

Fixpoint emit_pages (kind : AeadKind) (meta_key : bytes) (stream : StreamId) (no : Z)
    (payloads : list bytes) (sink : P) : result P :=
  match payloads with
  | [] => Ok sink
  | p :: payloads =>
    let* sink := emit_page kind meta_key stream no p sink in
    emit_pages kind meta_key stream (no + 1) payloads sink
  end.

(** *** The writer's invariant and the sink laws *)

Definition ps_ok (ps : PageStream P) : Prop := zlen (ps_buf ps) < ps_page_len ps.

Lemma extend_nil ps : extend ps [] = ps.
Proof. destruct ps. unfold extend. cbn. by rewrite app_nil_r. Qed.

Lemma extend_extend ps a b : extend (extend ps a) b = extend ps (a ++ b).
Proof. unfold extend. cbn. by rewrite <- app_assoc. Qed.

Lemma flush_Ok ps ps' :
  flush_page ps = Ok ps' -> ps_buf ps' = [] /\ ps_page_len ps' = ps_page_len ps.
Proof.
  unfold flush_page. case_bool_decide; intros; inv_ok; done.
Qed.

Lemma write_loop_fuel f1 f2 ps b :
  ps_ok ps -> (length b <= f1)%nat -> (length b <= f2)%nat ->
  write_loop f1 ps b = write_loop f2 ps b.
Proof.
  unfold ps_ok.
  revert f2 ps b. induction f1 as [|f1 IH]; intros f2 ps b Hok H1 H2.
  - destruct b; [|simpl in H1; lia]. by destruct f2.
  - destruct b as [|x b]; [by destruct f2|]. destruct f2 as [|f2]; [simpl in H2; lia|].
    cbn [write_loop]. rewrite bool_decide_false by done. apply bind_ext. intros ps' Hps'.
    assert (1 <= Z.min (ps_page_len ps - zlen (ps_buf ps)) (zlen (x :: b)))
      by (rewrite zlen_cons; pose proof (zlen_nonneg b); lia).
    apply IH.
    + case_match; bprop.
      * apply flush_Ok in Hps' as [-> ->]. pose proof (zlen_nonneg (ps_buf ps)).
        cbn. rewrite zlen_nil. lia.
      * inv_ok. cbn in *. len.
    + unfold zdrop. rewrite length_drop. simpl in *. lia.
    + unfold zdrop. rewrite length_drop. simpl in *. lia.
Qed.

(** One turn of the loop. *)
Lemma write_step ps b :
  ps_ok ps -> b <> [] ->
  write ps b =
  let take := Z.min (ps_page_len ps - zlen (ps_buf ps)) (zlen b) in
  let* ps := (let ps := extend ps (ztake take b) in
    if zlen (ps_buf ps) =? ps_page_len ps then flush_page ps else Ok ps) in
  write ps (zdrop take b).
Proof.
  intros Hok Hb. unfold write at 1. destruct b as [|x b]; [done|]. cbn [length write_loop].
  rewrite bool_decide_false by done. apply bind_ext. intros ps' Hps'. unfold ps_ok in *.
  assert (1 <= Z.min (ps_page_len ps - zlen (ps_buf ps)) (zlen (x :: b)))
    by (rewrite zlen_cons; pose proof (zlen_nonneg b); lia).
  apply write_loop_fuel.
  - case_match; bprop.
    + apply flush_Ok in Hps' as [HB HL]. unfold ps_ok. rewrite HB, HL.
      pose proof (zlen_nonneg (ps_buf ps)). cbn. rewrite zlen_nil. lia.
    + inv_ok. unfold ps_ok. cbn in *. len.
  - unfold zdrop. rewrite length_drop. simpl in *. lia.
  - done.
Qed.

(** Input that does not fill the page is only buffered. *)
Lemma write_short ps b :
  zlen (ps_buf ps) + zlen b < ps_page_len ps -> write ps b = Ok (extend ps b).
Proof.
  intros Hb. destruct (decide (b = [])) as [->|Hne]; [by rewrite extend_nil|].
  pose proof (zlen_nonneg b).
  rewrite write_step by (done || (unfold ps_ok; lia)). cbv zeta.
  rewrite Z.min_r, ztake_all, zdrop_all by lia. cbn [extend ps_buf ps_page_len].
  rewrite zlen_app, (proj2 (Z.eqb_neq _ _)) by lia. done.
Qed.

(** Input that fills the page is the flush and the rest. *)
Lemma write_fill ps a b :
  ps_ok ps -> zlen (ps_buf ps) + zlen a = ps_page_len ps ->
  write ps (a ++ b) = let* ps := flush_page (extend ps a) in write ps b.
Proof.
  unfold ps_ok. intros Hok Ha. pose proof (zlen_nonneg b).
  rewrite write_step; [|done|intros [-> ->]%app_nil; rewrite zlen_nil in Ha; lia].
  cbv zeta. rewrite zlen_app, Z.min_l, ztake_app_exact, zdrop_app_exact by lia.
  cbn [extend ps_buf ps_page_len]. by rewrite zlen_app, Ha, Z.eqb_refl.
Qed.

Lemma write_ok ps b ps' : ps_ok ps -> write ps b = Ok ps' ->
  ps_ok ps' /\ ps_page_len ps' = ps_page_len ps.
Proof.
  remember (length b) as k eqn:Hk. revert ps b Hk.
  induction k as [k IH] using lt_wf_ind. intros ps b -> Hok Hw.
  destruct (Z.lt_ge_cases (zlen (ps_buf ps) + zlen b) (ps_page_len ps)) as [Hs|Hs].
  - rewrite write_short in Hw by done. inv_ok. unfold ps_ok in *. cbn. by rewrite zlen_app.
  - unfold ps_ok in *. set (m := ps_page_len ps - zlen (ps_buf ps)) in *.
    pose proof (zlen_nonneg (ps_buf ps)). rewrite <- (ztake_zdrop m b), write_fill in Hw
      by (done || (rewrite zlen_ztake; lia)).
    inv_ok. apply flush_Ok in E as [HB HL]. cbn in HL. rewrite <- HL.
    refine (IH _ _ _ _ eq_refl _ Hw); [|by rewrite HB, HL, zlen_nil; lia].
    unfold zdrop. rewrite length_drop. unfold zlen in *. lia.
Qed.

Lemma write_app_ ps a b :
  ps_ok ps -> write ps (a ++ b) = let* ps1 := write ps a in write ps1 b.
Proof.
  remember (length a) as k eqn:Hk. revert ps a Hk.
  induction k as [k IH] using lt_wf_ind. intros ps a -> Hok.
  set (m := ps_page_len ps - zlen (ps_buf ps)). unfold ps_ok in *.
  pose proof (zlen_nonneg (ps_buf ps)). pose proof (zlen_nonneg a).
  destruct (Z.lt_ge_cases (zlen a) m) as [Hs|Hs].
  - rewrite (write_short ps a) by lia. cbn [bind].
    destruct (Z.lt_ge_cases (zlen (a ++ b)) m) as [Ht|Ht]; rewrite zlen_app in Ht.
    + rewrite !write_short by (cbn; rewrite ?zlen_app; lia). by rewrite extend_extend.
    + rewrite <- (ztake_zdrop (m - zlen a) b), (app_assoc a).
      rewrite !write_fill by (unfold ps_ok; cbn; rewrite ?zlen_app, ?zlen_ztake; lia).
      by rewrite extend_extend.
  - rewrite <- (ztake_zdrop m a), <- app_assoc.
    rewrite !write_fill by (unfold ps_ok; rewrite ?zlen_ztake; lia).
    rewrite bind_assoc. apply bind_ext. intros ps' [HB HL]%flush_Ok. cbn in HL.
    eapply IH; [|done|by rewrite HB, HL, zlen_nil; lia].
    unfold zdrop. rewrite length_drop. unfold zlen in *. lia.
Qed.

(** Writing from a page boundary and finishing is cutting the input. *)
Lemma write_finish_pages ps b :
  ps_buf ps = [] -> 0 < ps_page_len ps ->
  (let* ps := write ps b in let* ps := finish ps in Ok (ps_sink ps)) =
  emit_pages (ps_kind ps) (ps_meta_key ps) (ps_stream ps) (ps_page_no ps)
    (zchunks (ps_page_len ps) b) (ps_sink ps).
Proof.
  remember (length b) as k eqn:Hk. revert ps b Hk.
  induction k as [k IH] using lt_wf_ind. intros ps b -> HB Hpl.
  assert (ps_ok ps) as Hok by (unfold ps_ok; by rewrite HB).
  destruct (decide (b = [])) as [->|Hne].
  { cbn. unfold finish, flush_page. by rewrite bool_decide_true. }
  assert (0 < zlen b) by (apply zlen_pos; done).
  destruct (Z.lt_ge_cases (zlen b) (ps_page_len ps)) as [Hs|Hs].
  - rewrite write_short, zchunks_short by (rewrite ?HB, ?zlen_nil; lia || done).
    cbn [bind emit_pages]. unfold finish, flush_page, extend, emit_page. cbn. rewrite HB. cbn [app].
    rewrite bool_decide_false, bind_ret, !bind_assoc by done. apply bind_ext. intros [page ns] _.
    rewrite bind_assoc. cbn [bind ps_sink]. by rewrite bind_ret.
  - rewrite zchunks_step by done. cbn [emit_pages].
    rewrite <- (ztake_zdrop (ps_page_len ps) b) at 1.
    rewrite write_fill by (rewrite ?HB, ?zlen_nil, ?zlen_ztake; lia || done).
    rewrite bind_assoc. unfold flush_page. cbn. rewrite HB. cbn [app].
    rewrite bool_decide_false by by apply ztake_nonempty.
    unfold emit_page. rewrite !bind_assoc. apply bind_ext. intros [page ns] _.
    rewrite !bind_assoc. apply bind_ext. intros sink _. cbn [bind].
    eapply IH; [|done|done|done]. unfold zdrop. rewrite length_drop. unfold zlen in *. lia.
Qed.
End ops.
End PageStreams.

#[export] Instance page_stream_sink `{Primitives} `{PageSink P} : ByteSink (PageStream P) :=
  PageStreams.write.

#[export] Instance page_stream_sink_laws `{Primitives} `{PageSink P} :
  ByteSinkLaws (PageStream P).
Proof.
  refine {| sink_ok := PageStreams.ps_ok |}.
  - done.
  - intros w a b Hw. by apply PageStreams.write_app_.
  - intros w a w1 Hw Hr. by eapply PageStreams.write_ok.
Defined.

(** ** The reader *)
Record PageStreamReader := {
  pr_file : bytes;
  pr_kind : AeadKind;
  pr_meta_key : bytes;
  pr_stream : StreamId;
  pr_entries : list PageEntry;
  pr_index : nat;
  pr_buf : bytes;
  pr_pos : Z;
}.

Module PageReader.
(** The extent checks of [new], entry by entry. *)
Fixpoint check_extents (entries : list PageEntry) (file_len : Z) : result unit :=
  match entries with
  | [] => Ok tt
  | entry :: entries =>
    if Page.MAX_PAGE_LEN <? pe_len entry then
      Err (Corrupt "page length {} exceeds {MAX_PAGE_LEN}")
    else
      let* end_ := ok_or (checked_add (pe_offset entry) (pe_len entry + Page.PAGE_OVERHEAD))
                     (Corrupt "page extent overflows") in
      if file_len <? end_ then
        Err (Corrupt "page extent {}..{} lies outside the {file_len}-byte file")
      else check_extents entries file_len
  end.

Definition new (file : bytes) (kind : AeadKind) (meta_key : bytes) (stream : StreamId)
    (entries : list PageEntry) (file_len : Z) : result PageStreamReader :=
  check_extents entries file_len;;;
  Ok {| pr_file := file; pr_kind := kind; pr_meta_key := meta_key; pr_stream := stream;
        pr_entries := sort_by_key pe_offset entries; pr_index := 0; pr_buf := []; pr_pos := 0 |}.

Definition page_count (r : PageStreamReader) : Z := zlen (pr_entries r).

(** [self.index], [self.buf] and [self.pos] assigned. *)
Definition loaded (r : PageStreamReader) (buf : bytes) : PageStreamReader :=
  {| pr_file := pr_file r; pr_kind := pr_kind r; pr_meta_key := pr_meta_key r;
     pr_stream := pr_stream r; pr_entries := pr_entries r; pr_index := S (pr_index r);
     pr_buf := buf; pr_pos := 0 |}.

Definition advance (r : PageStreamReader) (take : Z) : PageStreamReader :=
  {| pr_file := pr_file r; pr_kind := pr_kind r; pr_meta_key := pr_meta_key r;
     pr_stream := pr_stream r; pr_entries := pr_entries r; pr_index := pr_index r;
     pr_buf := pr_buf r; pr_pos := pr_pos r + take |}.

Section ops.
Context `{Primitives}.

(** Seek, [read_exact] and [open_page] for one entry. *)
Definition load_page (r : PageStreamReader) (entry : PageEntry) (no : Z) : result bytes :=
  let total := pe_len entry + Page.PAGE_OVERHEAD in
  let* raw :=
    match File.read_exact (pe_offset entry) total (pr_file r) with
    | Err (Io UnexpectedEof) => Err (Corrupt "page record is truncated")
    | m => m
    end in
  Page.open_page (pr_kind r) (pr_meta_key r) (pr_stream r) no raw.

Definition load_next (r : PageStreamReader) : result (bool * PageStreamReader) :=
  match pr_entries r !! pr_index r with
  | None => Ok (false, r)
  | Some entry =>
    let* buf := load_page r entry (Z.of_nat (pr_index r)) in
    Ok (true, loaded r buf)
  end.

(** [out.len()] bytes are wanted; the bytes read come back. *)
Definition read_bytes_partial (r : PageStreamReader) (n : Z) :
    result (bytes * PageStreamReader) :=
  let* (more, r) := if zlen (pr_buf r) <=? pr_pos r then load_next r else Ok (true, r) in
  if more then
    let take := Z.min n (zlen (pr_buf r) - pr_pos r) in
    Ok (sub (pr_pos r) take (pr_buf r), advance r take)
  else Ok ([], r).

(** The [while] loop of [read_bytes]: every turn but the first loads a
    page, so the entries left and two are enough fuel. *)
Fixpoint read_loop (fuel : nat) (r : PageStreamReader) (n : Z) (out : bytes) :
    result (bytes * PageStreamReader) :=
  if zlen out <? n then
    match fuel with
    | O => Err (Unsupported "read_loop: out of fuel")
    | S fuel =>
      let* (more, r) := if zlen (pr_buf r) <=? pr_pos r then load_next r else Ok (true, r) in
      if more then
        let take := Z.min (n - zlen out) (zlen (pr_buf r) - pr_pos r) in
        read_loop fuel (advance r take) n (out ++ sub (pr_pos r) take (pr_buf r))
      else Err (Corrupt "page stream ended early")
    end
  else Ok (out, r).

Definition pages_left (r : PageStreamReader) : nat := (length (pr_entries r) - pr_index r)%nat.

Definition read (r : PageStreamReader) (n : Z) : result (bytes * PageStreamReader) :=
  read_loop (S (S (pages_left r))) r n [].

(** *** What is left to read *)

Fixpoint loads (r : PageStreamReader) (no : Z) (entries : list PageEntry)
    (payloads : list bytes) : Prop :=
  match entries, payloads with
  | [], [] => True
  | e :: entries, p :: payloads => load_page r e no = Ok p /\ loads r (no + 1) entries payloads
  | _, _ => False
  end.

Definition holds_pages (r : PageStreamReader) (l : bytes) : Prop :=
  0 <= pr_pos r <= zlen (pr_buf r) /\
  exists payloads, loads r (Z.of_nat (pr_index r)) (drop (pr_index r) (pr_entries r)) payloads /\
    l = zdrop (pr_pos r) (pr_buf r) ++ concat payloads.

Lemma loads_loaded r buf no es ps : loads (loaded r buf) no es ps <-> loads r no es ps.
Proof.
  revert no ps. induction es as [|e es IH]; intros no [|p ps]; try done.
  cbn [loads]. rewrite IH. done.
Qed.

Lemma loads_advance r n no es ps : loads (advance r n) no es ps <-> loads r no es ps.
Proof.
  revert no ps. induction es as [|e es IH]; intros no [|p ps]; try done.
  cbn [loads]. rewrite IH. done.
Qed.

(** The first half of a turn: make sure a page is loaded. *)
Lemma refill r l :
  holds_pages r l ->
  let m := if zlen (pr_buf r) <=? pr_pos r then load_next r else Ok (true, r) in
  (m = Ok (false, r) /\ l = []) \/
  (exists r1, m = Ok (true, r1) /\ holds_pages r1 l /\
     (pr_pos r < zlen (pr_buf r) /\ r1 = r \/
      zlen (pr_buf r) <= pr_pos r /\ S (pages_left r1) = pages_left r /\
      exists e buf, pr_entries r !! pr_index r = Some e /\
        load_page r e (Z.of_nat (pr_index r)) = Ok buf /\ r1 = loaded r buf)).
Proof.
  intros (Hpos & ps & Hps & ->). cbv zeta.
  destruct (Z.leb_spec (zlen (pr_buf r)) (pr_pos r)) as [Hle|Hlt].
  2:{ right. exists r. split_and!; [done| |by left]. split; eauto. }
  rewrite zdrop_all by lia. cbn [app]. unfold load_next.
  destruct (pr_entries r !! pr_index r) as [e|] eqn:He.
  - right. rewrite (drop_S _ _ _ He) in Hps. destruct ps as [|p ps]; [done|].
    cbn [loads] in Hps. destruct Hps as [Hlp Hps]. rewrite Hlp. cbn [bind]. eexists.
    split; [done|]. split.
    + split; [cbn; pose proof (zlen_nonneg p); lia|]. exists ps. split; [|done].
      apply loads_loaded. cbn [loaded pr_index pr_entries].
      by replace (Z.of_nat (S (pr_index r))) with (Z.of_nat (pr_index r) + 1) by lia.
    + right. split; [done|]. split; [|by eauto].
      unfold pages_left. cbn. apply lookup_lt_Some in He. lia.
  - left. split; [done|]. apply lookup_ge_None in He. rewrite drop_ge in Hps by done.
    by destruct ps.
Qed.

(** The second half: copy what the page has of it. *)
Lemma holds_advance r a b :
  holds_pages r (a ++ b) ->
  let take := Z.min (zlen a) (zlen (pr_buf r) - pr_pos r) in
  sub (pr_pos r) take (pr_buf r) = ztake take a /\
  holds_pages (advance r take) (zdrop take a ++ b).
Proof.
  intros (Hpos & ps & Hps & Heq). cbv zeta.
  set (take := Z.min _ _). assert (0 <= take) by (pose proof (zlen_nonneg a); lia).
  assert (ztake take (zdrop (pr_pos r) (pr_buf r)) = ztake take a) as Ht.
  { rewrite <- (ztake_app_le take (zdrop _ _) (concat ps)) by (rewrite zlen_zdrop; lia).
    rewrite <- Heq. apply ztake_app_le. lia. }
  split; [done|]. split; [cbn; lia|]. exists ps. split; [by apply loads_advance|].
  cbn [advance pr_pos pr_buf]. rewrite Z.add_comm, <- zdrop_zdrop by lia.
  rewrite <- (zdrop_app_le take a), <- (zdrop_app_le take (zdrop _ _)), Heq
    by (rewrite ?zlen_zdrop; lia). done.
Qed.

(** Fuel: one turn for what the buffer holds, one for each page left. *)
Definition turns (r : PageStreamReader) : nat :=
  (if zlen (pr_buf r) <=? pr_pos r then pages_left r else S (pages_left r)).

Lemma read_loop_holds fuel r a b out n :
  holds_pages r (a ++ b) -> n = zlen out + zlen a -> (turns r < fuel)%nat ->
  exists r1, read_loop fuel r n out = Ok (out ++ a, r1) /\ holds_pages r1 b.
Proof.
  revert r a out. induction fuel as [|fuel IH]; intros r a out Hr -> Hf; [lia|].
  cbn [read_loop]. destruct (Z.ltb_spec (zlen out) (zlen out + zlen a)) as [Hlt|Hge].
  2:{ assert (a = []) as -> by (apply zlen_0_nil; pose proof (zlen_nonneg a); lia).
      rewrite app_nil_r. eauto. }
  destruct (refill r _ Hr) as [[-> Hl]|(r1 & -> & Hr1 & Hm)].
  { apply app_nil in Hl as [-> _]. rewrite zlen_nil in Hlt. lia. }
  cbn [bind]. destruct (holds_advance r1 a b Hr1) as [Ht Ha].
  replace (zlen out + zlen a - zlen out) with (zlen a) by lia.
  set (take := Z.min (zlen a) (zlen (pr_buf r1) - pr_pos r1)) in *.
  rewrite Ht. assert (zlen (ztake take a) + zlen (zdrop take a) = zlen a) as Hz
    by (rewrite <- zlen_app, ztake_zdrop; done).
  destruct (decide (take = zlen a)) as [Hd|Hd].
  - rewrite Hd, ztake_all, zdrop_all in * by lia. exists (advance r1 (zlen a)).
    split; [|done]. destruct fuel; cbn [read_loop]; by rewrite zlen_app, Z.ltb_irrefl.
  - destruct (IH _ _ (out ++ ztake take a) Ha) as (r2 & H2 & Hb).
    + rewrite zlen_app. lia.
    + unfold turns in *. cbn [advance pr_buf pr_pos].
      rewrite (proj2 (Z.leb_le _ _)) by lia.
      unfold pages_left in *. cbn [advance pr_entries pr_index].
      destruct Hm as [[Hp ->]|(Hp & Hm & _)].
      * rewrite (proj2 (Z.leb_gt _ _)) in Hf by lia. lia.
      * rewrite (proj2 (Z.leb_le _ _)) in Hf by lia. lia.
    + exists r2. split; [|done]. rewrite H2, <- app_assoc. by rewrite ztake_zdrop.
Qed.

Lemma read_loop_short fuel r l out n :
  holds_pages r l -> zlen out + zlen l < n -> (turns r < fuel)%nat ->
  read_loop fuel r n out = Err (Corrupt "page stream ended early").
Proof.
  revert r l out. induction fuel as [|fuel IH]; intros r l out Hr Hn Hf; [lia|].
  pose proof (zlen_nonneg l). cbn [read_loop]. rewrite (proj2 (Z.ltb_lt _ _)) by lia.
  destruct (refill r _ Hr) as [[-> Hl]|(r1 & -> & Hr1 & Hm)]; [done|]. cbn [bind].
  destruct Hr1 as (Hpos & ps & Hps & ->).
  rewrite zlen_app, zlen_zdrop in Hn. pose proof (zlen_nonneg (concat ps)).
  rewrite Z.min_r by lia. set (take := zlen (pr_buf r1) - pr_pos r1) in *.
  apply (IH _ (concat ps)).
  - split; [cbn; lia|]. exists ps. split; [by apply loads_advance|].
    cbn [advance pr_pos pr_buf]. by rewrite zdrop_all by lia.
  - rewrite zlen_app, zlen_sub by lia. lia.
  - unfold turns in *. cbn [advance pr_buf pr_pos].
    rewrite (proj2 (Z.leb_le _ _)) by lia.
    unfold pages_left in *. cbn [advance pr_entries pr_index].
    destruct Hm as [[Hp ->]|(Hp & Hm & _)].
    + rewrite (proj2 (Z.leb_gt _ _)) in Hf by lia. lia.
    + rewrite (proj2 (Z.leb_le _ _)) in Hf by lia. lia.
Qed.

Lemma turns_enough r : (turns r < S (S (pages_left r)))%nat.
Proof. unfold turns. case_match; lia. Qed.

(** All that is left, and then the end. *)
Lemma read_to_end r l :
  holds_pages r l -> exists r1, read r (zlen l) = Ok (l, r1) /\
    exists what, read r1 1 = Err (Corrupt what).
Proof.
  intros Hr. rewrite <- (app_nil_r l) in Hr.
  destruct (read_loop_holds _ r l [] [] (zlen l) Hr eq_refl (turns_enough r)) as (r1 & H1 & Hr1).
  exists r1. split; [done|]. eexists. by apply (read_loop_short _ r1 []); [| |apply turns_enough].
Qed.
End ops.
End PageReader.

#[export] Instance page_reader_source `{Primitives} : ByteSource PageStreamReader :=
  PageReader.read.

#[export] Instance page_reader_source_laws `{Primitives} : ByteSourceLaws PageStreamReader.
Proof.
  refine {| holds := PageReader.holds_pages |}.
  - intros r a b Hr. apply (PageReader.read_loop_holds _ r a b []); [done|by rewrite zlen_nil|].
    apply PageReader.turns_enough.
  - intros r l n Hr Hn. eexists. apply (PageReader.read_loop_short _ r l); [done|by rewrite zlen_nil|].
    apply PageReader.turns_enough.
Defined.

(** ** Properties *)

(** A page stream is the concatenation of what is written to it, cut into
    pages of the page length. However the data is split into [write] calls, the
    sink of a finished stream has received the same sealed pages, numbered from
    zero, in order, every one full but the last; between two writes less than
    one page is buffered. *)
Theorem page_stream_pages `{Primitives} {P} `{PageSink P} (sink : P) stream kind key page_len ps parts :
  PageStreams.with_page_len sink stream kind key page_len = Some ps ->
  (let* ps := put_all (fun b ps => PageStreams.write ps b) parts ps in
   let* ps := PageStreams.finish ps in Ok (ps_sink ps)) =
  PageStreams.emit_pages kind key stream 0 (zchunks page_len (concat parts)) sink /\
  forall ps', put_all (fun b ps => PageStreams.write ps b) parts ps = Ok ps' ->
    PageStreams.buffered ps' < page_len.
Proof.
  unfold PageStreams.with_page_len. destruct (_ && _) eqn:E; [|done]. intros [= <-]. bprop.
  assert (forall ps, PageStreams.ps_ok ps ->
    put_all (fun b ps => PageStreams.write ps b) parts ps = PageStreams.write ps (concat parts)) as Hw.
  { induction parts as [|b parts IH]; intros ps Hok; [done|]. cbn [put_all concat].
    rewrite PageStreams.write_app_ by done. apply bind_ext. intros ps' Hps'.
    apply IH. by apply (PageStreams.write_ok ps b ps'). }
  assert (PageStreams.ps_ok (PageStreams.fresh sink stream kind key page_len)) as Hok by done.
  rewrite Hw by done. split; [by apply PageStreams.write_finish_pages|].
  intros ps' Hps'. apply PageStreams.write_ok in Hps' as [Hb Hl]; [|done].
  unfold PageStreams.ps_ok in Hb. by rewrite Hl in Hb.
Qed.
