(* ===== verification/Writer.v ===== *)
(** * The image writer ([crates/lr-format/src/writer.rs])

    Superblock, chunk records, metadata pages, footer, in that order in the
    file. The writer is the page sink of its own streams. *)

From S2P Require Import Prelude Core Crypto Pages Wire Superblock Chunk Footer Files PageStream.

Record WriterKeys := { wk_data_key : option bytes; wk_meta_key : bytes; wk_dedup_key : bytes }.

Record ChunkRef := { ref_offset : Z; ref_stored_len : Z; ref_hash : bytes }.

Record ImageWriter := {
  iw_file : FileW;
  iw_position : Z;
  iw_superblock : bytes;
  iw_table : list PageEntry;
  iw_data_end : option Z;
  iw_chunks : Z;
  (** Next expected page number, by stream id. *)
  iw_next_page : list Z;
  iw_nonces : NonceSeq;
}.

Module Writer.
(** The fields a page changes, [write_page] in one piece: the order guard,
    the first page's [data_end_offset], the table entry, the bytes. *)
Definition write_page (w : ImageWriter) (stream : StreamId) (page_no : Z) (page : bytes) :
    result ImageWriter :=
  let slot := Z.to_nat (StreamIds.as_u8 stream) in
  let expected := iw_next_page w !!! slot in
  if negb (page_no =? expected) then
    Err (Corrupt "metadata stream {stream:?} page {page_no} written after page {}; a stream may be written only once per image")
  else
    let data_end :=
      match iw_data_end w with None => Some (iw_position w) | Some d => Some d end in
    (* saturating_sub *)
    let len := Z.max 0 (zlen page - Page.PAGE_OVERHEAD) in
    if U32_MAX <? len then Err (Unsupported "page too large")
    else
      let* file := File.write_all page (iw_file w) in
      Ok {| iw_file := file; iw_position := iw_position w + zlen page;
            iw_superblock := iw_superblock w;
            iw_table := iw_table w ++
              [{| pe_stream := stream; pe_offset := iw_position w; pe_len := len |}];
            iw_data_end := data_end; iw_chunks := iw_chunks w;
            iw_next_page := <[slot := expected + 1]> (iw_next_page w);
            iw_nonces := iw_nonces w |}.

Definition set_nonces (n : NonceSeq) (w : ImageWriter) : ImageWriter :=
  {| iw_file := iw_file w; iw_position := iw_position w; iw_superblock := iw_superblock w;
     iw_table := iw_table w; iw_data_end := iw_data_end w; iw_chunks := iw_chunks w;
     iw_next_page := iw_next_page w; iw_nonces := n |}.

#[export] Instance sink : PageSink ImageWriter := {
  PageStream.write_page := write_page;
  PageStream.meta_nonces := iw_nonces;
  PageStream.set_meta_nonces := set_nonces;
}.

Section ops.
Context `{Primitives}.

Definition create (file : FileW) (superblock : Superblock) (meta_key : option bytes) :
    result ImageWriter :=
  let* superblock_bytes := Sb.encode superblock meta_key in
  let file := File.seek 0 file in
  let* file := File.write_all superblock_bytes file in
  Ok {| iw_file := file; iw_position := SB_SIZE; iw_superblock := superblock_bytes;
        iw_table := []; iw_data_end := None; iw_chunks := 0;
        iw_next_page := replicate 5 0; iw_nonces := Nonce.new |}.

Definition rewrite_superblock (w : ImageWriter) (superblock : Superblock)
    (meta_key : option bytes) : result ImageWriter :=
  let* b := Sb.encode superblock meta_key in
  if negb (bool_decide (sub 26 16 b = sub 26 16 (iw_superblock w))) then
    Err (Corrupt "a rewritten superblock must keep the image identity")
  else
    let file := File.seek 0 (iw_file w) in
    let* file := File.write_all b file in
    let file := File.seek (iw_position w) file in
    Ok {| iw_file := file; iw_position := iw_position w; iw_superblock := b;
          iw_table := iw_table w; iw_data_end := iw_data_end w; iw_chunks := iw_chunks w;
          iw_next_page := iw_next_page w; iw_nonces := iw_nonces w |}.

(** The caller's superblock is returned next to the writer. *)
Definition update_consistency (w : ImageWriter) (superblock : Superblock) (c : Consistency)
    (meta_key : option bytes) : result (ImageWriter * Superblock) :=
  let candidate := Sb.set_consistency superblock c in
  let* w := rewrite_superblock w candidate meta_key in
  Ok (w, candidate).

Definition append_record (w : ImageWriter) (record : bytes) :
    result (Z * Z * ImageWriter) :=
  let offset := iw_position w in
  if U32_MAX <? zlen record then Err (Unsupported "chunk record larger than 4 GiB")
  else
    let* file := File.write_all record (iw_file w) in
    Ok (offset, zlen record,
        {| iw_file := file; iw_position := iw_position w + zlen record;
           iw_superblock := iw_superblock w; iw_table := iw_table w;
           iw_data_end := iw_data_end w; iw_chunks := iw_chunks w + 1;
           iw_next_page := iw_next_page w; iw_nonces := iw_nonces w |}).

Definition append_chunk (w : ImageWriter) (options : ChunkOptions) (keys : WriterKeys)
    (image_kind : ImageKind) (nonce_seq : NonceSeq) (plaintext : bytes) :
    result (ChunkRef * NonceSeq * ImageWriter) :=
  let* (record, hash, nonce_seq) :=
    Chunk.seal_chunk options (wk_data_key keys) (wk_dedup_key keys) image_kind nonce_seq
      plaintext in
  let* header := Chunk.decode_header record in
  let stored_len := ch_stored_len header in
  let* (offset, _, w) := append_record w record in
  Ok ({| ref_offset := offset; ref_stored_len := stored_len; ref_hash := hash |},
      nonce_seq, w).

Definition page_stream (w : ImageWriter) (stream : StreamId) (kind : AeadKind)
    (meta_key : bytes) : PageStream ImageWriter :=
  PageStreams.new w stream kind meta_key.

Definition page_stream_with_page_len (w : ImageWriter) (stream : StreamId) (kind : AeadKind)
    (meta_key : bytes) (page_len : Z) : option (PageStream ImageWriter) :=
  PageStreams.with_page_len w stream kind meta_key page_len.

(** [split_off(before)]. *)
Definition keep_table_from (n : nat) (w : ImageWriter) : ImageWriter :=
  {| iw_file := iw_file w; iw_position := iw_position w; iw_superblock := iw_superblock w;
     iw_table := drop n (iw_table w); iw_data_end := iw_data_end w;
     iw_chunks := iw_chunks w; iw_next_page := iw_next_page w; iw_nonces := iw_nonces w |}.

Definition finish (w : ImageWriter) (page_key : bytes) (mac_key : option bytes)
    (kind : AeadKind) : result (FileW * FooterRec) :=
  let* data_end_offset :=
    ok_or (iw_data_end w) (Corrupt "image has no metadata pages") in
  let* (w, flags) :=
    if INLINE_PAGE_TABLE_SLOTS <? zlen (iw_table w) then
      let serialized := serialize_table (iw_table w) in
      let before := length (iw_table w) in
      let stream := PageStreams.new w SPageTable kind page_key in
      let* stream := PageStreams.write stream serialized in
      let* stream := PageStreams.finish stream in
      Ok (keep_table_from before (ps_sink stream), FLAG_PAGE_TABLE_IN_STREAM4)
    else Ok (w, 0) in
  let footer := {| total_chunks := iw_chunks w; data_end_offset := data_end_offset;
                   page_table := iw_table w; f_flags := flags |} in
  let superblock_copy := ztake SUPERBLOCK_COPY_LEN (iw_superblock w) in
  let* footer_bytes := Footer.encode footer superblock_copy mac_key in
  let file := File.seek (iw_position w) (iw_file w) in
  let* file := File.write_all footer_bytes file in
  Ok (file, footer).
End ops.
End Writer.
#[export] Existing Instance Writer.sink.

(** ** What a file under construction contains

    [wrep] relates a writer to the chunk records and the metadata pages it has
    taken so far. *)

Record Pg := { pg_stream : StreamId; pg_no : Z; pg_payload : bytes; pg_bytes : bytes }.

Module Image.
(** The table entries of pages that lie one after the other from [off]. *)
Fixpoint entries_at (off : Z) (pgs : list Pg) : list PageEntry :=
  match pgs with
  | [] => []
  | p :: pgs =>
    {| pe_stream := pg_stream p; pe_offset := off; pe_len := zlen (pg_payload p) |}
      :: entries_at (off + zlen (pg_bytes p)) pgs
  end.

Definition pages_of (s : StreamId) (pgs : list Pg) : list Pg :=
  filter (fun p => pg_stream p = s) pgs.

Definition body (recs : list bytes) (pgs : list Pg) : bytes :=
  concat recs ++ concat (map pg_bytes pgs).

Lemma pages_of_app s a b : pages_of s (a ++ b) = pages_of s a ++ pages_of s b.
Proof. apply filter_app. Qed.

Lemma entries_at_app off a b :
  entries_at off (a ++ b) =
  entries_at off a ++ entries_at (off + zlen (concat (map pg_bytes a))) b.
Proof.
  revert off. induction a as [|p a IH]; intros off; cbn [app entries_at map concat].
  - by rewrite Z.add_0_r.
  - rewrite IH, zlen_app. by rewrite Z.add_assoc.
Qed.

Lemma zlen_entries_at off pgs : zlen (entries_at off pgs) = zlen pgs.
Proof.
  revert off. induction pgs as [|p pgs IH]; intros off; [done|].
  cbn [entries_at]. by rewrite !zlen_cons, IH.
Qed.

Section rep.
Context `{PrimitiveLaws}.

(** A page record that opens to its payload under its own number. *)
Record page_sealed (kind : AeadKind) (key : bytes) (p : Pg) : Prop := {
  sealed_opens : Page.open_page kind key (pg_stream p) (pg_no p) (pg_bytes p) = Ok (pg_payload p);
  sealed_len : zlen (pg_bytes p) = Page.PAGE_OVERHEAD + zlen (pg_payload p);
  sealed_max : 0 < zlen (pg_payload p) <= Page.MAX_PAGE_LEN;
}.

Record wrep (kind : AeadKind) (key : bytes) (recs : list bytes) (pgs : list Pg)
    (w : ImageWriter) : Prop := {
  wr_sb : zlen (iw_superblock w) = SB_SIZE;
  wr_bytes : fw_bytes (iw_file w) = iw_superblock w ++ body recs pgs;
  wr_pos : fw_pos (iw_file w) = zlen (fw_bytes (iw_file w));
  wr_cap : zlen (fw_bytes (iw_file w)) <= fw_cap (iw_file w);
  wr_position : iw_position w = zlen (fw_bytes (iw_file w));
  wr_chunks : iw_chunks w = zlen recs;
  wr_end : iw_data_end w =
    match pgs with [] => None | _ => Some (SB_SIZE + zlen (concat recs)) end;
  wr_table : iw_table w = entries_at (SB_SIZE + zlen (concat recs)) pgs;
  wr_next_len : length (iw_next_page w) = 5%nat;
  wr_next : forall s, iw_next_page w !!! Z.to_nat (StreamIds.as_u8 s) = zlen (pages_of s pgs);
  wr_numbers : forall s, map pg_no (pages_of s pgs) = seqZ 0 (zlen (pages_of s pgs));
  wr_sealed : Forall (page_sealed kind key) pgs;
  wr_counter : Nonce.counter (iw_nonces w) = zlen pgs;
  wr_nonces : map (fun p => Page.page_nonce (pg_bytes p)) pgs =
    map (Nonce.be_bytes 12) (seqZ 0 (zlen pgs));
}.

Lemma create_rep kind key file s mk w :
  fw_bytes file = [] -> Sb.sb_ok s ->
  Writer.create file s mk = Ok w ->
  wrep kind key [] [] w /\ Sb.encode s mk = Ok (iw_superblock w) /\
  fw_cap (iw_file w) = fw_cap file.
Proof.
  intros Hf Hs Hc. unfold Writer.create in Hc. inv_ok.
  assert (zlen v = SB_SIZE) as Hv.
  { rewrite Sb.encode_layout in E by done. inv_ok. by apply Sb.zlen_layout. }
  assert (File.overwrite 0 v (fw_bytes file) = v) as Ho
    by (rewrite Hf; apply (File.overwrite_end v [])).
  unfold File.write_all in E0. case_match; inv_ok. bprop. cbn in *.
  split_and!; [|done|done]. split; cbn; rewrite ?Ho, ?app_nil_r; try done.
  intros []; done.
Qed.

Lemma rewrite_superblock_rep kind key recs pgs w s mk w' :
  wrep kind key recs pgs w -> Sb.sb_ok s -> Writer.rewrite_superblock w s mk = Ok w' ->
  wrep kind key recs pgs w' /\ Sb.encode s mk = Ok (iw_superblock w') /\
  sub 26 16 (iw_superblock w') = sub 26 16 (iw_superblock w) /\
  fw_cap (iw_file w') = fw_cap (iw_file w).
Proof.
  intros [] Hs Hr. unfold Writer.rewrite_superblock in Hr. inv_ok.
  destruct (bool_decide _) eqn:Hid; [|done]. bprop. cbn [negb] in Hr. inv_ok.
  assert (zlen v = SB_SIZE) as Hv.
  { rewrite Sb.encode_layout in E by done. inv_ok. by apply Sb.zlen_layout. }
  assert (File.overwrite 0 v (fw_bytes (iw_file w)) = v ++ body recs pgs) as Ho
    by (rewrite wr_bytes0; apply File.overwrite_prefix; lia).
  unfold File.write_all in E0. case_match; [|done]. injection E0 as <-. bprop. cbn in *.
  assert (zlen (v ++ body recs pgs) = zlen (fw_bytes (iw_file w))) as Hl
    by (rewrite wr_bytes0, !zlen_app; lia).
  split_and!; [|done..]. split; cbn; rewrite ?Ho, ?Hl; done.
Qed.

Lemma append_record_rep kind key recs w r off n w' :
  wrep kind key recs [] w -> Writer.append_record w r = Ok (off, n, w') ->
  wrep kind key (recs ++ [r]) [] w' /\ off = SB_SIZE + zlen (concat recs) /\ n = zlen r /\
  iw_superblock w' = iw_superblock w /\ fw_cap (iw_file w') = fw_cap (iw_file w).
Proof.
  intros [] Ha. unfold Writer.append_record in Ha. case_match; [done|]. inv_ok.
  pose proof E as Hcap. unfold File.write_all in Hcap. case_match; inv_ok. bprop.
  apply File.write_all_end in E as (Hb & Hp & Hc); [|done]. cbn in Hb, Hp, Hc.
  unfold body in *. cbn [map concat] in *. rewrite app_nil_r in *.
  assert (zlen (concat (recs ++ [r])) = zlen (concat recs) + zlen r) as HL
    by (rewrite concat_app, zlen_app; cbn; by rewrite app_nil_r).
  split_and!; [|rewrite wr_position0, wr_bytes0, zlen_app; lia|done..].
  split; cbn; try done.
  - unfold body. cbn. rewrite concat_app, Hb, wr_bytes0. cbn. by rewrite !app_nil_r, app_assoc.
  - lia.
  - lia.
  - rewrite zlen_app. change (zlen [r]) with 1. lia.
Qed.

(** What [seal_page] makes opens again, under the next nonce. *)
Lemma seal_page_sealed kind key s no payload ns page ns' :
  payload <> [] -> Page.seal_page kind key s no payload ns = Ok (page, ns') ->
  page_sealed kind key {| pg_stream := s; pg_no := no; pg_payload := payload; pg_bytes := page |} /\
  Page.page_nonce page = Nonce.be_bytes 12 (Nonce.counter ns) /\
  Nonce.counter ns' = Nonce.counter ns + 1.
Proof.
  intros Hne Hs. pose proof (Page.zlen_seal_page _ _ _ _ _ _ _ _ Hs) as Hl.
  apply Page.seal_page_eq in Hs as (nonce & buf & tag & Hm & Hn & Ha & ->).
  destruct (Aeads.seal_len _ _ _ _ _ _ _ Ha) as [Hb Ht].
  pose proof (Nonce.next_nonce_len _ _ _ Hn) as Hnl.
  apply Nonce.next_nonce_eq in Hn as (_ & -> & ->).
  split_and!; [|by apply Page.page_nonce_record|done].
  split; cbn; [|done|split; [by apply zlen_pos|done]].
  rewrite Page.open_page_record by (done || lia).
  by eapply Aeads.seal_open.
Qed.

(** The numbering of the streams after one more page. *)
Lemma pages_of_snoc s pgs p :
  pages_of s (pgs ++ [p]) = if decide (pg_stream p = s) then pages_of s pgs ++ [p] else pages_of s pgs.
Proof.
  rewrite pages_of_app. unfold pages_of at 2. rewrite filter_cons, filter_nil.
  case_decide; [done|by rewrite app_nil_r].
Qed.

Lemma next_page_insert (l : list Z) s s' v :
  length l = 5%nat ->
  <[Z.to_nat (StreamIds.as_u8 s) := v]> l !!! Z.to_nat (StreamIds.as_u8 s') =
  if decide (s = s') then v else l !!! Z.to_nat (StreamIds.as_u8 s').
Proof.
  intros Hl. case_decide as Hd; [subst; apply list_lookup_total_insert_eq; destruct s'; simpl; lia|].
  apply list_lookup_total_insert_ne. intros He. apply Hd, StreamIds.as_u8_inj.
  destruct s, s'; simpl in *; lia.
Qed.

(** What a page write does to the record of pages. *)
Lemma write_page_rep kind key recs pgs w s no payload page ns w' :
  wrep kind key recs pgs w ->
  page_sealed kind key {| pg_stream := s; pg_no := no; pg_payload := payload; pg_bytes := page |} ->
  Page.page_nonce page = Nonce.be_bytes 12 (Nonce.counter (iw_nonces w)) ->
  Nonce.counter ns = Nonce.counter (iw_nonces w) + 1 ->
  Writer.write_page (Writer.set_nonces ns w) s no page = Ok w' ->
  let p := {| pg_stream := s; pg_no := no; pg_payload := payload; pg_bytes := page |} in
  wrep kind key recs (pgs ++ [p]) w' /\ no = zlen (pages_of s pgs) /\
  iw_superblock w' = iw_superblock w /\ fw_cap (iw_file w') = fw_cap (iw_file w).
Proof.
  intros [] Hsealed Hnonce Hns Hw p. unfold Writer.write_page in Hw.
  cbn [Writer.set_nonces iw_next_page iw_data_end iw_position iw_file iw_superblock iw_table
       iw_chunks iw_nonces] in Hw.
  case_match eqn:Hno; [done|]. case_match; [done|]. bprop. rewrite wr_next0 in Hno.
  inv_ok. pose proof E as Hcap. unfold File.write_all in Hcap. case_match; inv_ok. bprop.
  apply File.write_all_end in E as (Hb & Hp & Hc); [|done]. cbn in Hb, Hp, Hc.
  pose proof (zlen_nonneg pgs). pose proof (sealed_len _ _ _ Hsealed) as Hlen. cbn in Hlen.
  split_and!; [|done..]. split; cbn; try done.
  - rewrite Hb, wr_bytes0. unfold body. rewrite map_app, concat_app. cbn.
    by rewrite app_nil_r, <- !app_assoc.
  - lia.
  - lia.
  - rewrite wr_end0, wr_position0, wr_bytes0, zlen_app, wr_sb0. unfold body.
    destruct pgs; cbn; [|done]. by rewrite app_nil_r.
  - rewrite entries_at_app, wr_table0. cbn. do 3 f_equal; [|pose proof (zlen_nonneg payload); lia].
    rewrite wr_position0, wr_bytes0, zlen_app, wr_sb0. unfold body. rewrite zlen_app. lia.
  - by rewrite length_insert.
  - intros s'. rewrite next_page_insert, pages_of_snoc, wr_next0 by done. cbn.
    case_decide; [subst; by rewrite zlen_snoc|done].
  - intros s'. rewrite pages_of_snoc. cbn. case_decide; [|done]. subst s'.
    rewrite map_app, zlen_snoc, wr_numbers0, seqZ_snoc by apply zlen_nonneg. done.
  - apply Forall_app. split; [done|]. by constructor.
  - rewrite zlen_snoc. lia.
  - rewrite zlen_snoc, seqZ_snoc, !map_app, wr_nonces0 by done. cbn. rewrite Hnonce, wr_counter0. done.
Qed.

Definition same_file_identity (w w' : ImageWriter) : Prop :=
  iw_superblock w' = iw_superblock w /\ fw_cap (iw_file w') = fw_cap (iw_file w).

Lemma emit_page_rep kind key recs pgs w s no payload w' :
  wrep kind key recs pgs w -> payload <> [] ->
  PageStreams.emit_page kind key s no payload w = Ok w' ->
  exists p, wrep kind key recs (pgs ++ [p]) w' /\ pg_stream p = s /\ pg_payload p = payload /\
    no = zlen (pages_of s pgs) /\ same_file_identity w w'.
Proof.
  intros Hw Hne He. unfold PageStreams.emit_page in He. inv_ok.
  destruct (seal_page_sealed _ _ _ _ _ _ _ _ Hne E) as (Hp & Hn & Hc).
  destruct (write_page_rep _ _ _ _ _ _ _ _ _ _ _ Hw Hp Hn Hc He) as (Hw' & Hno & Hid).
  eexists. split_and!; [exact Hw'|done|done|done|exact Hid].
Qed.

Lemma emit_pages_rep kind key recs s payloads : forall pgs w no w',
  wrep kind key recs pgs w -> Forall (fun p => p <> []) payloads ->
  PageStreams.emit_pages kind key s no payloads w = Ok w' ->
  exists new, wrep kind key recs (pgs ++ new) w' /\ map pg_payload new = payloads /\
    Forall (fun p => pg_stream p = s) new /\
    (payloads <> [] -> no = zlen (pages_of s pgs)) /\ same_file_identity w w'.
Proof.
  induction payloads as [|p ps IH]; intros pgs w no w' Hw Hne He; cbn [PageStreams.emit_pages] in He.
  - inv_ok. exists []. rewrite app_nil_r. done.
  - inversion Hne; subst. inv_ok.
    destruct (emit_page_rep _ _ _ _ _ _ _ _ _ Hw ltac:(done) E) as (q & Hq & Hs & Hpay & Hno & Hi1 & Hi2).
    destruct (IH _ _ _ _ Hq ltac:(done) He) as (new & Hn & Hm & Hf & _ & Hj1 & Hj2).
    exists (q :: new). rewrite <- app_assoc in Hn. cbn [app map] in *. split_and!; [done| | |done|].
    + by rewrite Hm, Hpay.
    + by constructor.
    + by split; etransitivity.
Qed.

(** Writing a whole stream through [page_stream] and finishing it. *)
Lemma stream_rep kind key recs pgs w s page_len D w' :
  wrep kind key recs pgs w -> 0 < page_len ->
  (let* ps := PageStreams.write (PageStreams.fresh w s kind key page_len) D in
   let* ps := PageStreams.finish ps in Ok (ps_sink ps)) = Ok w' ->
  exists new, wrep kind key recs (pgs ++ new) w' /\ map pg_payload new = zchunks page_len D /\
    Forall (fun p => pg_stream p = s) new /\ (D <> [] -> pages_of s pgs = []) /\
    same_file_identity w w'.
Proof.
  intros Hw Hpl He. rewrite PageStreams.write_finish_pages in He by done. cbn in He.
  assert (Forall (fun p => p <> []) (zchunks page_len D)) as Hne.
  { apply List.Forall_forall. intros q Hq. by destruct (zchunks_pieces _ _ _ Hpl Hq). }
  destruct (emit_pages_rep _ _ _ _ _ _ _ _ _ Hw Hne He) as (new & Hn & Hm & Hf & Hno & Hid).
  exists new. split_and!; [done|done|done| |done].
  intros HD. apply zlen_0_nil. symmetry. apply Hno. by rewrite zchunks_step.
Qed.

(** What [finish] leaves in the file: [tpgs] are the pages of the page
    table itself, when it did not fit the footer. *)
Definition finished (kind : AeadKind) (key : bytes) (mac_key : option bytes) (sb : bytes)
    (recs : list bytes) (pgs tpgs : list Pg) (file : FileW) (footer : FooterRec) : Prop :=
  let data_end := SB_SIZE + zlen (concat recs) in
  exists fb,
    fw_bytes file = sb ++ body recs (pgs ++ tpgs) ++ fb /\
    Footer.encode footer (ztake SUPERBLOCK_COPY_LEN sb) mac_key = Ok fb /\
    total_chunks footer = zlen recs /\ data_end_offset footer = data_end /\
    f_flags footer = (if decide (tpgs = []) then 0 else FLAG_PAGE_TABLE_IN_STREAM4) /\
    match tpgs with
    | [] => page_table footer = entries_at data_end pgs
    | _ => page_table footer =
        entries_at (data_end + zlen (concat (map pg_bytes pgs))) tpgs /\
      concat (map pg_payload tpgs) = serialize_table (entries_at data_end pgs) /\
      pages_of SPageTable pgs = []
    end.

(** The tail of [finish]: the footer goes right after the last record. *)
Lemma write_footer_rep kind key recs pgs w0 w mac_key end_ table fl file footer :
  wrep kind key recs pgs w -> same_file_identity w0 w ->
  (let footer := {| total_chunks := iw_chunks w; data_end_offset := end_;
                    page_table := table; f_flags := fl |} in
   let* footer_bytes := Footer.encode footer (ztake SUPERBLOCK_COPY_LEN (iw_superblock w)) mac_key in
   let* file := File.write_all footer_bytes (File.seek (iw_position w) (iw_file w)) in
   Ok (file, footer)) = Ok (file, footer) ->
  exists fb, fw_bytes file = iw_superblock w0 ++ body recs pgs ++ fb /\
    Footer.encode footer (ztake SUPERBLOCK_COPY_LEN (iw_superblock w0)) mac_key = Ok fb /\
    footer = {| total_chunks := zlen recs; data_end_offset := end_;
                page_table := table; f_flags := fl |} /\
    zlen (fw_bytes file) <= fw_cap (iw_file w0).
Proof.
  intros [] [Hi1 Hi2] Hg. cbv zeta in Hg. inv_ok. pose proof E0 as Hcap.
  unfold File.write_all in Hcap. case_match; [|done]. bprop. cbn in H1.
  apply File.write_all_end in E0 as (Hb & Hp & Hcp); [|done]. cbn in Hb, Hp, Hcp.
  exists v. rewrite Hi1, wr_chunks0 in *. split_and!; try done.
  - by rewrite Hb, wr_bytes0, <- app_assoc.
  - rewrite Hb, zlen_app. lia.
Qed.

Lemma finish_rep kind key recs pgs w mac_key file footer :
  wrep kind key recs pgs w -> Writer.finish w key mac_key kind = Ok (file, footer) ->
  exists tpgs w1, wrep kind key recs (pgs ++ tpgs) w1 /\ pgs <> [] /\
    Forall (fun p => pg_stream p = SPageTable) tpgs /\
    zlen (fw_bytes file) <= fw_cap (iw_file w) /\
    finished kind key mac_key (iw_superblock w) recs pgs tpgs file footer.
Proof.
  intros Hw Hf. pose proof Hw as []. unfold Writer.finish in Hf. rewrite wr_end0 in Hf.
  destruct pgs as [|p0 pgs0]; [done|]. set (pgs := p0 :: pgs0) in *. cbn [ok_or bind] in Hf.
  destruct (INLINE_PAGE_TABLE_SLOTS <? zlen (iw_table w)) eqn:Hn.
  - apply bind_Ok in Hf as ([w2 fl] & E & Hf). cbv zeta in E.
    apply bind_Ok in E as (ps1 & E1 & E). apply bind_Ok in E as (ps2 & E2 & E).
    injection E as <- <-.
    assert (Hs : (let* ps := PageStreams.write (PageStreams.new w SPageTable kind key)
        (serialize_table (iw_table w)) in
        let* ps := PageStreams.finish ps in Ok (ps_sink ps)) = Ok (ps_sink ps2))
      by (rewrite E1; cbn; by rewrite E2).
    destruct (stream_rep _ _ _ _ _ _ DEFAULT_PAGE_LEN _ _ Hw eq_refl Hs) as (tpgs & Hw1 & Hm & Hst & Hno & Hid).
    assert (concat (map pg_payload tpgs) = serialize_table (iw_table w)) as Hc
      by (rewrite Hm; by apply concat_zchunks).
    destruct (write_footer_rep _ _ _ _ w _ _ _ _ _ _ _ Hw1 Hid Hf) as (fb & Hb & Hfb & -> & Hcap).
    assert (serialize_table (iw_table w) <> []) as Hser.
    { rewrite serialize_table_bytes. intros HE. apply (f_equal zlen) in HE.
      rewrite zlen_table_bytes in HE. bprop. unfold INLINE_PAGE_TABLE_SLOTS in Hn.
      change (zlen []) with 0 in HE. lia. }
    exists tpgs, (ps_sink ps2). split_and!; [done..|]. exists fb. split_and!; try done.
    + cbn. rewrite decide_False; [done|]. intros ->. by rewrite <- Hc in Hser.
    + destruct tpgs as [|t0 tpgs0]; [by rewrite <- Hc in Hser|]. set (tpgs := t0 :: tpgs0) in *.
      unfold tpgs. cbn [page_table]. fold tpgs. rewrite Hc, wr_table0. split_and!; [|done|by apply Hno].
      pose proof (wr_table _ _ _ _ _ Hw1) as Ht. cbn [Writer.keep_table_from iw_table].
      rewrite Ht, entries_at_app.
      by rewrite drop_app_length.
  - cbn [bind] in Hf. rewrite <- (app_nil_r pgs) in Hw.
    destruct (write_footer_rep _ _ _ _ w _ _ _ _ _ _ _ Hw (conj eq_refl eq_refl) Hf) as (fb & Hb & Hfb & -> & Hcap).
    exists [], w. split_and!; [done|done|constructor|done|]. exists fb. split_and!; try done.
Qed.
End rep.
End Image.
