(* ===== verification/ImageReader.v ===== *)
(** * The image reader ([crates/lr-format/src/reader.rs], [verify.rs])

    [open] needs no key: magics, unkeyed hashes, ranges, and every offset
    against the file length. [authenticate] checks the two MACs. Pages and
    chunk records are read on demand. *)

From S2P Require Import Prelude Core Crypto Pages Wire Superblock Chunk Footer Files PageStream Writer.

Definition MAX_PAGE_TABLE_BYTES : Z := 8 * 1024 * 1024.

Record ImageReader := {
  ir_file : bytes;
  ir_file_len : Z;
  ir_superblock_bytes : bytes;
  ir_superblock : Superblock;
  ir_footer_bytes : bytes;
  ir_footer : FooterRec;
}.

Module Img.
(** The entries of the page table against the metadata region. *)
Fixpoint check_entries (entries : list PageEntry) (data_end pages_end : Z) : result unit :=
  match entries with
  | [] => Ok tt
  | entry :: entries =>
    if Page.MAX_PAGE_LEN <? pe_len entry then
      Err (Corrupt "page length exceeds the accepted maximum")
    else
      let* end_ := ok_or (checked_add (pe_offset entry) (pe_len entry + Page.PAGE_OVERHEAD))
                     (Corrupt "page extent overflows") in
      if (pe_offset entry <? data_end) || (pages_end <? end_) then
        Err (Corrupt "page extent {}..{} lies outside the metadata region")
      else check_entries entries data_end pages_end
  end.

(** The product is an unchecked [u64] multiplication: it wraps in a release
    build. *)
Definition validate_layout (superblock : Superblock) (footer : FooterRec) (file_len : Z) :
    result unit :=
  let chunk_region_start := SB_SIZE in
  let pages_end := file_len - FOOTER_SIZE in
  if (data_end_offset footer <? chunk_region_start) || (pages_end <? data_end_offset footer) then
    Err (Corrupt "data_end_offset {} is outside {chunk_region_start}..={pages_end}")
  else
    let chunk_region := data_end_offset footer - chunk_region_start in
    let minimum_chunk_bytes := wrapping_mul (total_chunks footer) CHUNK_OVERHEAD_PLAIN in
    if chunk_region <? minimum_chunk_bytes then
      Err (Corrupt "{} chunks cannot fit in {chunk_region} bytes")
    else
      check_entries (page_table footer) (data_end_offset footer) pages_end;;;
      if chunk_size superblock =? 0 then Err (Corrupt "chunk_size must not be zero") else Ok tt.

Section ops.
Context `{Primitives}.

Definition open (file : bytes) : result ImageReader :=
  let file_len := zlen file in
  if file_len <? SB_SIZE + FOOTER_SIZE then
    Err (Corrupt "file is {file_len} bytes; a .lrimg needs at least {}")
  else
    let* superblock_bytes := File.read_exact 0 SB_SIZE file in
    let* superblock := Sb.decode superblock_bytes in
    let* footer_bytes := File.read_exact (file_len - FOOTER_SIZE) FOOTER_SIZE file in
    let* footer := Footer.decode footer_bytes (ztake SUPERBLOCK_COPY_LEN superblock_bytes) in
    validate_layout superblock footer file_len;;;
    Ok {| ir_file := file; ir_file_len := file_len; ir_superblock_bytes := superblock_bytes;
          ir_superblock := superblock; ir_footer_bytes := footer_bytes; ir_footer := footer |}.

Definition authenticate (r : ImageReader) (meta_key : option bytes) : result unit :=
  Sb.verify_mac (ir_superblock_bytes r) meta_key;;;
  Footer.verify_mac (ir_footer_bytes r) meta_key.

(** The plaintext bytes a stream can still give. A turn of a reading loop
    that returns nothing ends the loop, so one more than this is enough
    fuel ([collect_fuel], [drain_fuel]). *)
Definition bytes_left (s : PageStreamReader) : nat :=
  Z.to_nat (zlen (pr_buf s) - pr_pos s +
    foldr (fun e acc => pe_len e + acc) 0 (drop (pr_index s) (pr_entries s))).

(** The [loop] of [page_table]: 8 KiB at a time until nothing comes back. *)
Fixpoint collect (fuel : nat) (stream : PageStreamReader) (acc : bytes) : result bytes :=
  match fuel with
  | O => Err (Unsupported "collect: out of fuel")
  | S fuel =>
    let* (b, stream) := PageReader.read_bytes_partial stream 8192 in
    if zlen b =? 0 then Ok acc
    else if MAX_PAGE_TABLE_BYTES <? zlen acc + zlen b then
      Err (Corrupt "page table exceeds the accepted size")
    else collect fuel stream (acc ++ b)
  end.

Definition page_table (r : ImageReader) (meta_key : bytes) (kind : AeadKind) :
    result (list PageEntry) :=
  if negb (Footer.page_table_in_stream4 (ir_footer r)) then Ok (Footer.page_table (ir_footer r))
  else
    let entries := Footer.entries_for (ir_footer r) SPageTable in
    let* stream :=
      PageReader.new (ir_file r) kind meta_key SPageTable entries (ir_file_len r) in
    let* b := collect (S (bytes_left stream)) stream [] in
    parse_table b.

(** The [HashSet] is the list of the nonces seen. *)
Fixpoint repeats (file : bytes) (table : list PageEntry) (seen : list bytes) : result bool :=
  match table with
  | [] => Ok false
  | entry :: table =>
    let* nonce := File.read_exact
      (pe_offset entry + (Page.PAGE_HEADER_LEN - Nonce.NONCE_LEN)) Nonce.NONCE_LEN file in
    if bool_decide (nonce ∈ seen) then Ok true else repeats file table (nonce :: seen)
  end.

Definition has_repeated_page_nonces (r : ImageReader) (meta_key : bytes) (kind : AeadKind) :
    result bool :=
  let* table := page_table r meta_key kind in
  repeats (ir_file r) (table ++ Footer.entries_for (ir_footer r) SPageTable) [].

Definition stream_reader (r : ImageReader) (stream : StreamId) (meta_key : bytes)
    (kind : AeadKind) : result PageStreamReader :=
  let* table := page_table r meta_key kind in
  let entries := filter (fun entry => pe_stream entry = stream) table in
  PageReader.new (ir_file r) kind meta_key stream entries (ir_file_len r).

Definition read_chunk_bytes (r : ImageReader) (offset total_len : Z) : result bytes :=
  let data_end := data_end_offset (ir_footer r) in
  let* end_ := ok_or (checked_add offset total_len) (Corrupt "chunk extent overflows") in
  if (offset <? SB_SIZE) || (data_end <? end_) then
    Err (Corrupt "chunk extent {offset}..{end} lies outside the chunk region")
  else File.read_exact offset total_len (ir_file r).

Definition read_chunk_record (r : ImageReader) (offset : Z) : result bytes :=
  let* header := read_chunk_bytes r offset CHUNK_HEADER_LEN in
  let* decoded := Chunk.decode_header header in
  read_chunk_bytes r offset (Chunk.header_total_len decoded).

(** The [while] loop of [scan_chunk_headers]: a record takes at least its
    header, so the region divided by 19 bounds the turns. *)
Fixpoint scan (fuel : nat) (r : ImageReader) (offset count : Z) : result (Z * Z) :=
  let data_end := data_end_offset (ir_footer r) in
  if offset <? data_end then
    match fuel with
    | O => Err (Unsupported "scan: out of fuel")
    | S fuel =>
      if data_end <? offset + CHUNK_HEADER_LEN then
        Err (Corrupt "truncated chunk header at the end of the region")
      else
        let* header := File.read_exact offset CHUNK_HEADER_LEN (ir_file r) in
        let* decoded := Chunk.decode_header header in
        let total := Chunk.header_total_len decoded in
        if data_end <? offset + total then
          Err (Corrupt "chunk record overruns the chunk region")
        else scan fuel r (offset + total) (count + 1)
    end
  else Ok (offset, count).

Definition scan_fuel (r : ImageReader) : nat :=
  S (Z.to_nat ((data_end_offset (ir_footer r) - SB_SIZE) / CHUNK_HEADER_LEN)).

Definition scan_chunk_headers (r : ImageReader) : result Z :=
  let data_end := data_end_offset (ir_footer r) in
  let* (offset, count) := scan (scan_fuel r) r SB_SIZE 0 in
  if negb (offset =? data_end) then
    Err (Corrupt "chunk records do not end at data_end_offset")
  else if negb (count =? total_chunks (ir_footer r)) then
    Err (Corrupt "footer declares {} chunks but {count} were found")
  else Ok count.
End ops.
End Img.

(** ** [ChunkReader]: the same reads through a second handle *)
Record ChunkReader := { ck_file : bytes; ck_data_end : Z; ck_region_start : Z }.

Module ChunkReaders.
Definition new (file : bytes) (data_end : Z) : ChunkReader :=
  {| ck_file := file; ck_data_end := data_end; ck_region_start := SB_SIZE |}.

Definition read_bytes (r : ChunkReader) (offset len : Z) : result bytes :=
  let* end_ := ok_or (checked_add offset len) (Corrupt "chunk extent overflows") in
  if (offset <? ck_region_start r) || (ck_data_end r <? end_) then
    Err (Corrupt "chunk extent {offset}..{end} lies outside the chunk region")
  else File.read_exact offset len (ck_file r).

Definition read_record (r : ChunkReader) (offset : Z) : result bytes :=
  let* header := read_bytes r offset CHUNK_HEADER_LEN in
  let* decoded := Chunk.decode_header header in
  read_bytes r offset (Chunk.header_total_len decoded).

(** [chunk_reader_with] on a duplicate of the image's own handle. *)
Definition of_image (r : ImageReader) : ChunkReader :=
  new (ir_file r) (data_end_offset (ir_footer r)).
End ChunkReaders.

(** ** [verify_structure] ([verify.rs]) *)
Record VerifyReport := {
  vr_file_len : Z;
  vr_data_end_offset : Z;
  vr_chunks : Z;
  vr_pages : list (StreamId * Z);
  vr_repeated_page_nonces : bool;
}.

Module Verify.
Definition total_pages (r : VerifyReport) : Z := foldr (fun '(_, n) acc => n + acc) 0 (vr_pages r).

Section ops.
Context `{Primitives}.

(** Read a stream to its end, 64 KiB at a time. *)
Fixpoint drain (fuel : nat) (stream : PageStreamReader) : result unit :=
  match fuel with
  | O => Err (Unsupported "drain: out of fuel")
  | S fuel =>
    let* (b, stream) := PageReader.read_bytes_partial stream (64 * 1024) in
    if zlen b =? 0 then Ok tt else drain fuel stream
  end.

Fixpoint verify_streams (image : ImageReader) (meta_key : bytes) (kind : AeadKind)
    (table : list PageEntry) (streams : list StreamId) : result (list (StreamId * Z)) :=
  match streams with
  | [] => Ok []
  | stream :: streams =>
    let count := zlen (filter (fun e => pe_stream e = stream) table) in
    if count =? 0 then verify_streams image meta_key kind table streams
    else
      let* reader := Img.stream_reader image stream meta_key kind in
      let* _ := drain (S (Img.bytes_left reader)) reader in
      let* pages := verify_streams image meta_key kind table streams in
      Ok ((stream, count) :: pages)
  end.

Definition verify_structure (file meta_key : bytes) (encrypted : bool) : result VerifyReport :=
  let* image := Img.open file in
  let* kind := Sb.aead_kind (ir_superblock image) in
  let* _ := Img.authenticate image (if encrypted then Some meta_key else None) in
  let* chunks := Img.scan_chunk_headers image in
  let* table := Img.page_table image meta_key kind in
  let* pages :=
    verify_streams image meta_key kind table [SManifest; SHashIndex; SExtras; SPageTable] in
  let* repeated := Img.has_repeated_page_nonces image meta_key kind in
  Ok {| vr_file_len := ir_file_len image;
        vr_data_end_offset := data_end_offset (ir_footer image);
        vr_chunks := chunks; vr_pages := pages; vr_repeated_page_nonces := repeated |}.
End ops.
End Verify.
