(* ===== verification/ImageSafety.v ===== *)
(** * What a written image reads back as

    The file a writer leaves ([Image.finished]) against the reader: opening,
    authentication, the page table, the streams, the chunk records, the
    verifier. The abstract content of an image is its superblock, its list of
    chunk records and, for each stream, the concatenation of its payloads. *)

From S2P Require Import Prelude Core Crypto Pages Wire Superblock Chunk Footer Files PageStream Writer ImageReader.

Import Image.

(** ** Entries of consecutive pages *)

(** An entry that lies in [lo, hi) and whose page the reader accepts. *)
Definition entry_in (lo hi : Z) (e : PageEntry) : Prop :=
  lo <= pe_offset e /\ 0 <= pe_len e <= Page.MAX_PAGE_LEN /\
  pe_offset e + (pe_len e + Page.PAGE_OVERHEAD) <= hi.

Lemma entry_in_weaken lo hi lo' hi' e :
  lo' <= lo -> hi <= hi' -> entry_in lo hi e -> entry_in lo' hi' e.
Proof. unfold entry_in. lia. Qed.

Lemma zlen_filter_entries st off pgs :
  zlen (filter (fun e => pe_stream e = st) (entries_at off pgs)) = zlen (pages_of st pgs).
Proof.
  revert off. induction pgs as [|p pgs IH]; intros off; [done|]. unfold pages_of in *.
  cbn [entries_at]. rewrite !filter_cons. cbn [pe_stream]. case_decide; [|apply IH].
  by rewrite !zlen_cons, IH.
Qed.

Lemma entries_at_stream st off pgs :
  Forall (fun p => pg_stream p = st) pgs -> Forall (fun e => pe_stream e = st) (entries_at off pgs).
Proof. intros Hp. revert off. induction Hp; intros off; cbn; constructor; [done|auto]. Qed.

Section entries.
Context `{PrimitiveLaws} (kind : AeadKind) (key : bytes).

Lemma entries_at_in off pgs :
  Forall (page_sealed kind key) pgs ->
  Forall (entry_in off (off + zlen (concat (map pg_bytes pgs)))) (entries_at off pgs).
Proof.
  intros Hp. revert off. induction Hp as [|p pgs Hp _ IH]; intros off; cbn [entries_at map concat];
    [constructor|].
  pose proof (zlen_nonneg (pg_bytes p)). pose proof (zlen_nonneg (concat (map pg_bytes pgs))).
  destruct Hp as [_ Hl Hm]. rewrite zlen_app. constructor.
  - unfold entry_in. cbn. lia.
  - eapply Forall_impl; [apply IH|]. intros e. apply entry_in_weaken; lia.
Qed.

Lemma entries_at_sorted off pgs :
  Forall (page_sealed kind key) pgs -> sorted_by_key pe_offset (entries_at off pgs).
Proof.
  intros Hp. revert off. induction Hp as [|p pgs Hp Hps IH]; intros off; [done|].
  cbn [entries_at sorted_by_key]. split; [|apply IH].
  eapply Forall_impl; [by apply entries_at_in|]. intros e [? _]. cbn.
  pose proof (zlen_nonneg (pg_bytes p)). lia.
Qed.

Lemma check_extents_in lo hi entries :
  hi <= U64_MAX -> Forall (entry_in lo hi) entries -> PageReader.check_extents entries hi = Ok tt.
Proof.
  intros Hhi He. induction He as [|e entries (H1 & H2 & H3) _ IH]; [done|].
  cbn [PageReader.check_extents]. rewrite (proj2 (Z.ltb_ge _ _)) by lia.
  unfold checked_add. rewrite (proj2 (Z.leb_le _ _)) by lia. cbn [ok_or bind].
  by rewrite (proj2 (Z.ltb_ge _ _)) by lia.
Qed.

Lemma check_entries_in lo hi entries :
  hi <= U64_MAX -> Forall (entry_in lo hi) entries -> Img.check_entries entries lo hi = Ok tt.
Proof.
  intros Hhi He. induction He as [|e entries (H1 & H2 & H3) _ IH]; [done|].
  cbn [Img.check_entries]. rewrite (proj2 (Z.ltb_ge _ _)) by lia.
  unfold checked_add. rewrite (proj2 (Z.leb_le _ _)) by lia. cbn [ok_or bind].
  by rewrite !(proj2 (Z.ltb_ge _ _)) by lia.
Qed.

(** The pages of a stream are found at their entries, under their numbers. *)
Lemma loads_placed r st pgs : forall pre post off no,
  pr_file r = pre ++ concat (map pg_bytes pgs) ++ post -> off = zlen pre ->
  pr_kind r = kind -> pr_meta_key r = key -> pr_stream r = st ->
  Forall (page_sealed kind key) pgs ->
  map pg_no (pages_of st pgs) = seqZ no (zlen (pages_of st pgs)) ->
  PageReader.loads r no (filter (fun e => pe_stream e = st) (entries_at off pgs))
    (map pg_payload (pages_of st pgs)).
Proof.
  induction pgs as [|p pgs IH]; intros pre post off no Hf -> Hk Hkey Hst Hp Hno; [done|].
  inversion Hp as [|? ? Hpp Hps]; subst. cbn [entries_at map concat] in *.
  assert (Hrest : forall no, map pg_no (pages_of (pr_stream r) pgs) =
                   seqZ no (zlen (pages_of (pr_stream r) pgs)) ->
    PageReader.loads r no
      (filter (fun e => pe_stream e = pr_stream r) (entries_at (zlen pre + zlen (pg_bytes p)) pgs))
      (map pg_payload (pages_of (pr_stream r) pgs))).
  { intros no' Hno'. apply (IH (pre ++ pg_bytes p) post); try done.
    - by rewrite Hf, <- !app_assoc.
    - by rewrite zlen_app. }
  unfold pages_of in *. rewrite filter_cons in Hno. rewrite !filter_cons. cbn [pe_stream] in *.
  case_decide as Hd; [|by apply Hrest].
  cbn [map] in *. rewrite zlen_cons in Hno.
  rewrite seqZ_cons in Hno by (pose proof (zlen_nonneg (filter (fun p => pg_stream p = pr_stream r) pgs)); lia).
  injection Hno as Hn Hno. cbn [PageReader.loads]. split.
  - unfold PageReader.load_page. cbn [pe_offset pe_len]. destruct Hpp as [Ho Hl _].
    rewrite Hf, <- app_assoc, File.read_exact_placed by (done || lia). cbn [bind].
    by rewrite <- Hd, <- Hn.
  - apply Hrest. rewrite Hno. f_equal; lia.
Qed.
Lemma entries_at_full off pgs :
  0 <= off -> Forall (page_sealed kind key) pgs ->
  Forall (fun e => 0 <= pe_offset e /\ 0 < pe_len e) (entries_at off pgs).
Proof.
  intros Ho Hp. revert off Ho. induction Hp as [|p pgs [_ _ Hm] _ IH]; intros off Ho; cbn; constructor.
  - cbn. lia.
  - apply IH. pose proof (zlen_nonneg (pg_bytes p)). lia.
Qed.

Lemma sealed_min pgs :
  Forall (page_sealed kind key) pgs -> zlen pgs <= zlen (concat (map pg_bytes pgs)).
Proof.
  induction 1 as [|p l [_ Hl Hm] _ IH]; [done|]. cbn [map concat].
  rewrite zlen_cons, zlen_app. change Page.PAGE_OVERHEAD with 34 in Hl. lia.
Qed.

(** The nonces of the pages, read from the file, are all different. *)
Lemma repeats_placed pgs : forall pre post off seen F,
  F = pre ++ concat (map pg_bytes pgs) ++ post -> off = zlen pre ->
  Forall (page_sealed kind key) pgs ->
  NoDup (map (fun p => Page.page_nonce (pg_bytes p)) pgs) ->
  (forall p, In p pgs -> Page.page_nonce (pg_bytes p) ∉ seen) ->
  Img.repeats F (entries_at off pgs) seen = Ok false.
Proof.
  induction pgs as [|p pgs IH]; intros pre post off seen F -> -> Hp Hnd Hseen; [done|].
  inversion Hp as [|? ? [_ Hl Hm] Hps]; subst. inversion Hnd as [|? ? Hx Hnd']; subst.
  cbn [entries_at Img.repeats pe_offset map concat]. rewrite <- app_assoc.
  assert (File.read_exact (zlen pre + (Page.PAGE_HEADER_LEN - Nonce.NONCE_LEN)) Nonce.NONCE_LEN
    (pre ++ pg_bytes p ++ concat (map pg_bytes pgs) ++ post) = Ok (Page.page_nonce (pg_bytes p))) as ->.
  { change Page.PAGE_OVERHEAD with 34 in Hl. change (Page.PAGE_HEADER_LEN - Nonce.NONCE_LEN) with 6.
    unfold Nonce.NONCE_LEN. rewrite File.read_exact_inside.
    - rewrite sub_skip by lia. f_equal. rewrite sub_inside by lia. unfold Page.page_nonce.
      f_equal. change (Page.PAGE_HEADER_LEN - Nonce.NONCE_LEN) with 6. lia.
    - rewrite !zlen_app. pose proof (zlen_nonneg (concat (map pg_bytes pgs))).
      pose proof (zlen_nonneg post). lia. }
  cbn [bind]. rewrite bool_decide_false by (apply Hseen; by left).
  apply (IH (pre ++ pg_bytes p) post); [by rewrite <- !app_assoc|by rewrite zlen_app|done..|].
  intros q Hq [He|He]%elem_of_cons; [|by eapply Hseen; [right|]].
  apply Hx, list_elem_of_In. rewrite <- He.
  by apply (in_map (fun p => Page.page_nonce (pg_bytes p))).
Qed.

(** A reader over one stream of consecutive pages. *)
Lemma new_reader F st pgs pre post off :
  F = pre ++ concat (map pg_bytes pgs) ++ post -> off = zlen pre -> zlen F <= U64_MAX ->
  Forall (page_sealed kind key) pgs ->
  map pg_no (pages_of st pgs) = seqZ 0 (zlen (pages_of st pgs)) ->
  exists r,
    PageReader.new F kind key st (filter (fun e => pe_stream e = st) (entries_at off pgs)) (zlen F)
      = Ok r /\
    PageReader.holds_pages r (concat (map pg_payload (pages_of st pgs))) /\
    Forall (fun e => 0 <= pe_offset e /\ 0 < pe_len e) (pr_entries r).
Proof.
  intros HF -> HU Hp Hno. unfold PageReader.new. rewrite (check_extents_in (zlen pre)).
  - cbn [bind]. eexists. split; [done|]. cbn [pr_entries].
    rewrite sort_by_key_id by by apply sorted_filter, entries_at_sorted.
    split; [|apply Forall_filter_keep, entries_at_full; [apply zlen_nonneg|done]].
    split; [done|]. eexists. split; [|done]. cbn [pr_index pr_entries drop].
    by apply (loads_placed _ _ _ pre post).
  - done.
  - apply Forall_filter_keep. eapply Forall_impl; [by apply entries_at_in|]. intros e.
    apply entry_in_weaken; [done|]. rewrite HF, !zlen_app. pose proof (zlen_nonneg post). lia.
Qed.
End entries.

(** ** Reading loops *)
Section loops.
Context `{PrimitiveLaws}.

(** A page holds the payload its entry declares. *)
Lemma load_page_len r e no b :
  0 <= pe_offset e -> 0 <= pe_len e -> PageReader.load_page r e no = Ok b -> zlen b = pe_len e.
Proof.
  intros Ho Hl Hp. unfold PageReader.load_page in Hp. inv_ok.
  assert (zlen v = pe_len e + Page.PAGE_OVERHEAD) as Hv.
  { destruct (File.read_exact _ _ _) as [raw|err] eqn:E1; [|by destruct err as [[]| | | | | | | | | | | | | | |]].
    inv_ok. apply File.read_exact_Ok in E1 as (_ & ? & _); [done..|].
    unfold Page.PAGE_OVERHEAD, Page.PAGE_HEADER_LEN, Nonce.NONCE_LEN, Aeads.TAG_LEN. lia. }
  apply Page.open_page_Ok in Hp as (nonce & buf & tag & Hn & Ht & _ & -> & Ha).
  apply Aeads.open_len in Ha. rewrite Page.zlen_page_record in Hv by done. lia.
Qed.

Definition pages_total (es : list PageEntry) : Z := foldr (fun e acc => pe_len e + acc) 0 es.

Lemma pages_total_nonneg es : Forall (fun e => 0 <= pe_len e) es -> 0 <= pages_total es.
Proof. induction 1; cbn; [done|]. unfold pages_total in *. lia. Qed.

(** Entries as a reader that was built from a checked table has them. *)
Definition entries_sane (es : list PageEntry) : Prop :=
  Forall (fun e => 0 <= pe_offset e /\ 0 <= pe_len e) es.

Definition left_z (r : PageStreamReader) : Z :=
  zlen (pr_buf r) - pr_pos r + pages_total (drop (pr_index r) (pr_entries r)).

Lemma left_z_nonneg r :
  entries_sane (pr_entries r) -> 0 <= pr_pos r <= zlen (pr_buf r) -> 0 <= left_z r.
Proof.
  intros He Hp. unfold left_z.
  assert (0 <= pages_total (drop (pr_index r) (pr_entries r))); [|lia].
  apply pages_total_nonneg, Forall_drop. eapply Forall_impl; [done|]. by intros ? [].
Qed.

(** A partial read keeps the entries, and what it returns is gone from what
    is left. *)
Lemma read_partial_left r n b r' :
  entries_sane (pr_entries r) -> 0 <= pr_pos r <= zlen (pr_buf r) -> 0 <= n ->
  PageReader.read_bytes_partial r n = Ok (b, r') ->
  pr_entries r' = pr_entries r /\ 0 <= pr_pos r' <= zlen (pr_buf r') /\
  left_z r' = left_z r - zlen b /\ 0 <= left_z r'.
Proof.
  intros He Hp Hn Hr. unfold PageReader.read_bytes_partial in Hr.
  apply bind_Ok in Hr as ([more r0] & E & Hr). destruct more; injection Hr as <- <-.
  - assert (pr_entries r0 = pr_entries r /\ 0 <= pr_pos r0 <= zlen (pr_buf r0) /\
      left_z r0 = left_z r) as (He0 & Hp0 & Hl0).
    { destruct (Z.leb_spec (zlen (pr_buf r)) (pr_pos r)); [|by inv_ok].
      unfold PageReader.load_next in E.
      destruct (pr_entries r !! pr_index r) as [e|] eqn:Hx; [|done].
      apply bind_Ok in E as (v & E0 & E). injection E as <-.
      unfold entries_sane in He. rewrite Forall_lookup in He. destruct (He _ _ Hx) as [Ho Hl].
      apply load_page_len in E0; [|done..]. unfold left_z. cbn. pose proof (zlen_nonneg v).
      split_and!; [done|lia|lia|]. rewrite (drop_S _ _ _ Hx). cbn. unfold pages_total. lia. }
    cbn. rewrite <- He0. split_and!; [done|lia|lia| |].
    + rewrite zlen_sub, <- Hl0 by lia. unfold left_z, PageReader.advance.
      cbn [pr_buf pr_pos pr_index pr_entries]. lia.
    + unfold left_z, PageReader.advance. cbn [pr_buf pr_pos pr_index pr_entries].
      assert (0 <= pages_total (drop (pr_index r0) (pr_entries r0))); [|lia].
      apply pages_total_nonneg, Forall_drop. rewrite He0.
      eapply Forall_impl; [done|]. by intros ? [].
  - destruct (Z.leb_spec (zlen (pr_buf r)) (pr_pos r)); [|by inv_ok].
    unfold PageReader.load_next in E. destruct (pr_entries r !! pr_index r) as [e|] eqn:Hx.
    { apply bind_Ok in E as (v & E0 & E). done. }
    injection E as <-.
    split_and!; [done|lia|lia|change (zlen []) with 0; lia|].
    unfold left_z. pose proof (pages_total_nonneg (drop (pr_index r) (pr_entries r))) as Hn0.
    assert (0 <= pages_total (drop (pr_index r) (pr_entries r))); [|lia].
    apply Hn0, Forall_drop. eapply Forall_impl; [done|]. by intros ? [].
Qed.

(** A stream whose pages are not empty gives something until its end. *)
Definition entries_full (es : list PageEntry) : Prop :=
  Forall (fun e => 0 <= pe_offset e /\ 0 < pe_len e) es.

Lemma entries_full_sane es : entries_full es -> entries_sane es.
Proof. intros He. eapply Forall_impl; [exact He|]. cbv beta. lia. Qed.

Lemma read_partial_holds r l n :
  PageReader.holds_pages r l -> 0 < n -> entries_full (pr_entries r) ->
  (l = [] /\ PageReader.read_bytes_partial r n = Ok ([], r)) \/
  exists b l' r', l = b ++ l' /\ b <> [] /\ PageReader.read_bytes_partial r n = Ok (b, r') /\
    PageReader.holds_pages r' l'.
Proof.
  intros Hr Hn He. unfold PageReader.read_bytes_partial.
  destruct (PageReader.refill r l Hr) as [[-> ->]|(r1 & -> & Hr1 & Hm)]; [by left|right].
  cbn [bind].
  assert (pr_pos r1 < zlen (pr_buf r1)) as Hlt.
  { destruct Hm as [[Hlt ->]|(_ & _ & e & buf & Hx & Hl & ->)]; [done|]. cbn.
    unfold entries_full in He. rewrite Forall_lookup in He. destruct (He _ _ Hx).
    apply load_page_len in Hl; lia. }
  rewrite <- (ztake_zdrop n l) in Hr1.
  destruct (PageReader.holds_advance r1 _ _ Hr1) as [Ht Ha].
  destruct Hr1 as (Hp & ps & Hps & Hl). rewrite ztake_zdrop in Hl.
  assert (zlen (pr_buf r1) - pr_pos r1 <= zlen l) as Hll.
  { rewrite Hl, zlen_app, zlen_zdrop. pose proof (zlen_nonneg (concat ps)). lia. }
  rewrite zlen_ztake in Ht, Ha.
  replace (Z.min (Z.max 0 (Z.min n (zlen l))) (zlen (pr_buf r1) - pr_pos r1))
    with (Z.min n (zlen (pr_buf r1) - pr_pos r1)) in Ht, Ha by lia.
  set (take := Z.min n _) in *. rewrite ztake_ztake, Z.min_l in Ht by lia.
  exists (ztake take l), (zdrop take (ztake n l) ++ zdrop n l), (PageReader.advance r1 take).
  split_and!; [| |by rewrite Ht|done].
  - assert (ztake take l = ztake take (ztake n l)) as ->
      by (rewrite ztake_ztake, Z.min_l by lia; done).
    by rewrite app_assoc, !ztake_zdrop.
  - apply ztake_nonempty; [lia|]. intros ->. change (zlen []) with 0 in *. lia.
Qed.

(** *** The collecting loop *)
Lemma collect_fuel f1 f2 r acc :
  entries_sane (pr_entries r) -> 0 <= pr_pos r <= zlen (pr_buf r) ->
  left_z r < Z.of_nat f1 -> left_z r < Z.of_nat f2 ->
  Img.collect f1 r acc = Img.collect f2 r acc.
Proof.
  revert f2 r acc. induction f1 as [|f1 IH]; intros f2 r acc He Hp H1 H2.
  - pose proof (left_z_nonneg r He Hp). lia.
  - destruct f2 as [|f2]; [pose proof (left_z_nonneg r He Hp); lia|]. cbn [Img.collect].
    apply bind_ext. intros [b r'] Hr. case_match eqn:Hz; [done|]. case_match; [done|]. bprop.
    apply read_partial_left in Hr as (Hen & Hp' & Hl & _); [|done..].
    pose proof (zlen_nonneg b). apply IH; rewrite ?Hen; (done || lia).
Qed.

Lemma collect_holds f r l acc :
  PageReader.holds_pages r l -> entries_full (pr_entries r) ->
  zlen acc + zlen l <= MAX_PAGE_TABLE_BYTES -> left_z r < Z.of_nat f ->
  Img.collect f r acc = Ok (acc ++ l).
Proof.
  revert r l acc. induction f as [|f IH]; intros r l acc Hr He Hm Hf;
    assert (Hp := proj1 Hr); pose proof (left_z_nonneg r (entries_full_sane _ He) Hp); [lia|].
  cbn [Img.collect].
  destruct (read_partial_holds r l 8192 Hr eq_refl He) as [[-> ->]|(b & l' & r' & -> & Hb & Hrd & Hr')].
  - cbn. by rewrite app_nil_r.
  - rewrite Hrd. cbn [bind]. apply zlen_pos in Hb. rewrite zlen_app in Hm. pose proof (zlen_nonneg l').
    rewrite (proj2 (Z.eqb_neq _ _)), (proj2 (Z.ltb_ge _ _)) by lia.
    apply read_partial_left in Hrd as (Hen & Hp' & Hl & _); [|by apply entries_full_sane|done|done].
    rewrite app_assoc. apply IH; rewrite ?Hen, ?zlen_app; (done || lia).
Qed.

(** *** The draining loop *)
Lemma drain_fuel f1 f2 r :
  entries_sane (pr_entries r) -> 0 <= pr_pos r <= zlen (pr_buf r) ->
  left_z r < Z.of_nat f1 -> left_z r < Z.of_nat f2 ->
  Verify.drain f1 r = Verify.drain f2 r.
Proof.
  revert f2 r. induction f1 as [|f1 IH]; intros f2 r He Hp H1 H2.
  - pose proof (left_z_nonneg r He Hp). lia.
  - destruct f2 as [|f2]; [pose proof (left_z_nonneg r He Hp); lia|]. cbn [Verify.drain].
    apply bind_ext. intros [b r'] Hr. case_match eqn:Hz; [done|]. bprop.
    apply read_partial_left in Hr as (Hen & Hp' & Hl & _); [|done..].
    pose proof (zlen_nonneg b). apply IH; rewrite ?Hen; (done || lia).
Qed.

Lemma drain_holds f r l :
  PageReader.holds_pages r l -> entries_full (pr_entries r) -> left_z r < Z.of_nat f ->
  Verify.drain f r = Ok tt.
Proof.
  revert r l. induction f as [|f IH]; intros r l Hr He Hf;
    assert (Hp := proj1 Hr); pose proof (left_z_nonneg r (entries_full_sane _ He) Hp); [lia|].
  cbn [Verify.drain].
  destruct (read_partial_holds r l (64 * 1024) Hr eq_refl He) as [[-> ->]|(b & l' & r' & -> & Hb & Hrd & Hr')];
    [done|].
  rewrite Hrd. cbn [bind]. apply zlen_pos in Hb. rewrite (proj2 (Z.eqb_neq _ _)) by lia.
  apply read_partial_left in Hrd as (Hen & Hp' & Hl & _); [|by apply entries_full_sane|done|done].
  apply (IH _ l'); rewrite ?Hen; (done || lia).
Qed.

(** The fuel of the definitions is past the bound. *)
Lemma bytes_left_fuel r : left_z r < Z.of_nat (S (Img.bytes_left r)).
Proof. change (Img.bytes_left r) with (Z.to_nat (left_z r)). lia. Qed.
End loops.

(** ** A finished image *)

Lemma records_min rs :
  Forall Chunk.record_ok rs ->
  zlen rs * CHUNK_HEADER_LEN <= zlen (concat (map Chunk.record_bytes rs)).
Proof.
  induction 1 as [|r rs Hr _ IH]; [done|]. cbn [map concat].
  rewrite zlen_cons, zlen_app, Chunk.zlen_record_bytes by done. unfold Chunk.total_len.
  change CHUNK_TAG_LEN with 16. pose proof (zlen_nonneg (cr_payload r)).
  destruct (Chunk.is_encrypted r); lia.
Qed.

Section written.
Context `{PrimitiveLaws}.
Context (s : Superblock) (mk : option bytes) (sb : bytes) (kind : AeadKind) (key : bytes).
Context (rs : list ChunkRecord) (pgs tpgs : list Pg) (w : ImageWriter).
Context (F fb : bytes) (footer : FooterRec).
Let recs := map Chunk.record_bytes rs.
Let data_end := SB_SIZE + zlen (concat recs).
Context (Hs : Sb.sb_ok s) (Hsb : Sb.encode s mk = Ok sb).
Context (Hrs : Forall Chunk.record_ok rs).
Context (Hw : wrep kind key recs (pgs ++ tpgs) w) (Hpgs : pgs <> []).
Context (HF : F = sb ++ body recs (pgs ++ tpgs) ++ fb).
Context (Hfb : Footer.encode footer (ztake SUPERBLOCK_COPY_LEN sb) mk = Ok fb).
Context (Hchunks : total_chunks footer = zlen recs) (Hend : data_end_offset footer = data_end).
Context (Hflags : f_flags footer = if decide (tpgs = []) then 0 else FLAG_PAGE_TABLE_IN_STREAM4).
Context (Hstream4 : Forall (fun p => pg_stream p = SPageTable) tpgs).
Context (Htable : match tpgs with
  | [] => page_table footer = entries_at data_end pgs
  | _ => page_table footer = entries_at (data_end + zlen (concat (map pg_bytes pgs))) tpgs /\
         concat (map pg_payload tpgs) = serialize_table (entries_at data_end pgs) /\
         pages_of SPageTable pgs = []
  end).
Context (Hlen : zlen F <= U64_MAX).

Definition written : ImageReader :=
  {| ir_file := F; ir_file_len := zlen F; ir_superblock_bytes := sb; ir_superblock := s;
     ir_footer_bytes := fb; ir_footer := footer |}.

Lemma sb_layout : sb = Sb.layout s mk /\ Sb.validate_header s = Ok tt.
Proof.
  pose proof Hsb as HE. rewrite Sb.encode_layout in HE by done.
  destruct (Sb.validate_header s) as [[]|]; [|done]. by injection HE as <-.
Qed.

Lemma zlen_sb : zlen sb = SB_SIZE.
Proof. destruct sb_layout as [HE _]. rewrite HE. by apply Sb.zlen_layout. Qed.

Lemma fb_layout :
  fb = FooterLayout.layout footer (ztake SUPERBLOCK_COPY_LEN sb) mk /\
  zlen (page_table footer) <= INLINE_PAGE_TABLE_SLOTS.
Proof.
  pose proof Hfb as HE. rewrite FooterLayout.footer_encode_layout in HE.
  destruct (FooterLayout.encode_checks _ _) as [[]|] eqn:E; [|done]. injection HE as HE.
  split; [done|]. by apply FooterLayout.encode_checks_Ok in E as (_ & ? & _).
Qed.

Lemma zlen_copy : zlen (ztake SUPERBLOCK_COPY_LEN sb) = SUPERBLOCK_COPY_LEN.
Proof. rewrite zlen_ztake, zlen_sb. done. Qed.

Lemma zlen_fb : zlen fb = FOOTER_SIZE.
Proof.
  destruct fb_layout as [HE Ht]. rewrite HE. apply FooterLayout.footer_zlen_layout; [apply zlen_copy|done].
Qed.

Lemma zlen_F :
  zlen F = data_end + zlen (concat (map pg_bytes (pgs ++ tpgs))) + FOOTER_SIZE.
Proof.
  rewrite HF. unfold body, data_end. rewrite !zlen_app, zlen_sb, zlen_fb. lia.
Qed.

(** Where the pages are. *)
Lemma F_pages : exists pre post, F = pre ++ concat (map pg_bytes (pgs ++ tpgs)) ++ post /\
  zlen pre = data_end /\ zlen post = FOOTER_SIZE.
Proof.
  exists (sb ++ concat recs), fb. split_and!.
  - rewrite HF. unfold body. by rewrite <- !app_assoc.
  - unfold data_end. by rewrite zlen_app, zlen_sb.
  - apply zlen_fb.
Qed.

Lemma table_in :
  Forall (entry_in data_end (zlen F - FOOTER_SIZE)) (entries_at data_end (pgs ++ tpgs)).
Proof.
  rewrite zlen_F. eapply Forall_impl; [apply (entries_at_in kind key), Hw|].
  intros e. apply entry_in_weaken; lia.
Qed.

(** The entries of the footer are among those. *)
Lemma footer_table_sub :
  page_table footer = if decide (tpgs = []) then entries_at data_end (pgs ++ tpgs)
    else drop (length pgs) (entries_at data_end (pgs ++ tpgs)).
Proof.
  destruct tpgs as [|t ts]; [by rewrite decide_True, app_nil_r|].
  rewrite decide_False by done. destruct Htable as (-> & _ & _). rewrite entries_at_app.
  rewrite drop_app_length'; [done|].
  pose proof (zlen_entries_at data_end pgs) as HL. unfold zlen in HL. lia.
Qed.

Lemma footer_table_in : Forall (entry_in data_end (zlen F - FOOTER_SIZE)) (page_table footer).
Proof.
  rewrite footer_table_sub. pose proof table_in. case_decide; [done|]. by apply Forall_drop.
Qed.

Lemma data_end_bounds : SB_SIZE <= data_end <= zlen F - FOOTER_SIZE.
Proof.
  rewrite zlen_F. unfold data_end. pose proof (zlen_nonneg (concat recs)).
  pose proof (zlen_nonneg (concat (map pg_bytes (pgs ++ tpgs)))). lia.
Qed.

Lemma chunks_bound : zlen recs * CHUNK_HEADER_LEN <= data_end - SB_SIZE.
Proof.
  unfold data_end, recs. rewrite zlen_map. pose proof (records_min rs Hrs). lia.
Qed.

Lemma sizes :
  0 <= zlen recs /\ zlen recs * 19 <= data_end - 4096 /\
  4096 <= data_end <= zlen F - 4096 /\ zlen F < 2 ^ 64.
Proof.
  pose proof data_end_bounds as HB. pose proof chunks_bound as HC.
  pose proof (zlen_nonneg recs). pose proof Hlen as HU.
  unfold U64_MAX, CHUNK_HEADER_LEN, Nonce.NONCE_LEN, SB_SIZE, FOOTER_SIZE in HB, HC, HU. lia.
Qed.

Lemma written_footer_ok : Footer.footer_ok footer /\ f_flags footer <= 1.
Proof.
  pose proof sizes as Hz.
  split; [split|].
  - rewrite Hchunks. unfold u64_ok. lia.
  - rewrite Hend. unfold u64_ok. lia.
  - eapply Forall_impl; [apply footer_table_in|]. intros e (? & ? & ?).
    unfold entry_ok, u64_ok, u32_ok.
    unfold FOOTER_SIZE, Page.PAGE_OVERHEAD, Page.PAGE_HEADER_LEN, Nonce.NONCE_LEN, Aeads.TAG_LEN,
      Page.MAX_PAGE_LEN in *. lia.
  - rewrite Hflags. by case_decide.
  - rewrite Hflags. by case_decide.
Qed.

Lemma validate_written : Img.validate_layout s footer (zlen F) = Ok tt.
Proof.
  unfold Img.validate_layout. rewrite Hend, Hchunks. pose proof sizes as Hz.
  change SB_SIZE with 4096. change FOOTER_SIZE with 4096. change CHUNK_OVERHEAD_PLAIN with 19.
  unfold wrapping_mul. rewrite Z.mod_small by lia.
  rewrite !(proj2 (Z.ltb_ge _ _)) by lia. cbn [orb].
  rewrite check_entries_in; [|unfold U64_MAX; lia|apply footer_table_in].
  cbn [bind]. destruct sb_layout as [_ [_ _ _ (k & Hk & ->) _ _ _]%validate_header_valid].
  rewrite (proj2 (Z.eqb_neq _ _)); [done|]. pose proof (Z.pow_pos_nonneg 2 k). lia.
Qed.

Lemma open_written : Img.open F = Ok written.
Proof.
  unfold Img.open. pose proof data_end_bounds. rewrite (proj2 (Z.ltb_ge _ _)) by lia.
  assert (File.read_exact 0 SB_SIZE F = Ok sb) as ->.
  { rewrite HF. apply (File.read_exact_placed []); [done|by rewrite zlen_sb]. }
  cbn [bind]. destruct sb_layout as [Hl Hv]. rewrite Hl at 1.
  rewrite Sb.decode_layout, Hv by done. cbn [bind].
  assert (File.read_exact (zlen F - FOOTER_SIZE) FOOTER_SIZE F = Ok fb) as ->.
  { rewrite HF at 2. rewrite app_assoc. rewrite <- (app_nil_r fb) at 1.
    apply File.read_exact_placed; [|by rewrite zlen_fb].
    rewrite HF, app_assoc, zlen_app, zlen_fb. lia. }
  cbn [bind]. destruct fb_layout as [Hf Ht]. rewrite Hf at 1.
  destruct written_footer_ok. rewrite FooterLayout.footer_decode_layout by (done || apply zlen_copy).
  cbn [bind]. by rewrite validate_written.
Qed.

Lemma authenticate_written : Img.authenticate written mk = Ok tt.
Proof.
  unfold Img.authenticate. cbn. destruct sb_layout as [Hl Hv]. rewrite Hl at 1.
  rewrite Sb.layout_verify_mac by done. cbn [bind].
  destruct fb_layout as [HE Ht]. rewrite HE. apply FooterLayout.footer_layout_verify_mac; [apply zlen_copy|done].
Qed.

(** *** The metadata streams *)

Context (Hsmall : PAGE_ENTRY_SIZE * zlen pgs <= MAX_PAGE_TABLE_BYTES).

Lemma wr_sealed_all : Forall (page_sealed kind key) (pgs ++ tpgs).
Proof. apply Hw. Qed.

(** Reading back the table pages. *)
Lemma table_stream :
  tpgs <> [] ->
  exists r,
    PageReader.new F kind key SPageTable (Footer.entries_for footer SPageTable) (zlen F) = Ok r /\
    PageReader.holds_pages r (serialize_table (entries_at data_end pgs)) /\
    entries_full (pr_entries r).
Proof.
  intros Ht. pose proof Htable as HT. pose proof (wr_numbers _ _ _ _ _ Hw SPageTable) as Hno.
  pose proof (proj2 (proj1 (Forall_app _ _ _) wr_sealed_all)) as Hse.
  assert (Htt : page_table footer = entries_at (data_end + zlen (concat (map pg_bytes pgs))) tpgs /\
         concat (map pg_payload tpgs) = serialize_table (entries_at data_end pgs) /\
         pages_of SPageTable pgs = []) by (by destruct tpgs).
  destruct Htt as (Htab & Hpay & Hnone).
  rewrite pages_of_app, Hnone in Hno. cbn [app] in Hno.
  assert (pages_of SPageTable tpgs = tpgs) as Hall.
  { unfold pages_of. by apply filter_all. }
  assert (serialize_table (entries_at data_end pgs) =
    concat (map pg_payload (pages_of SPageTable tpgs))) as HE by by rewrite Hall.
  rewrite HE. unfold Footer.entries_for. rewrite Htab.
  destruct F_pages as (pre & post & HFp & Hpre & _).
  apply (new_reader kind key F _ _ (pre ++ concat (map pg_bytes pgs)) post).
  - rewrite HFp, map_app, concat_app, <- !app_assoc. done.
  - by rewrite zlen_app, Hpre.
  - apply Hlen.
  - done.
  - done.
Qed.

Lemma flags_cases :
  tpgs = [] /\ f_flags footer = 0 \/ tpgs <> [] /\ f_flags footer = FLAG_PAGE_TABLE_IN_STREAM4.
Proof. rewrite Hflags. case_decide; [by left|by right]. Qed.

Lemma page_table_written : Img.page_table written key kind = Ok (entries_at data_end pgs).
Proof.
  pose proof (proj1 (proj1 (Forall_app _ _ _) wr_sealed_all)) as Hse.
  unfold Img.page_table, Footer.page_table_in_stream4. cbn [written ir_footer ir_file ir_file_len].
  destruct flags_cases as [[Ht HE]|[Ht HE]]; rewrite HE.
  { cbn. pose proof Htable as HT. rewrite Ht in HT. by rewrite HT. }
  cbn [negb]. change (negb (SbFlags.has FLAG_PAGE_TABLE_IN_STREAM4 FLAG_PAGE_TABLE_IN_STREAM4)) with false.
  cbv iota. destruct (table_stream Ht) as (r & -> & Hr & Hfull). cbn [bind].
  rewrite (collect_holds _ _ _ _ Hr Hfull).
  - cbn [bind app]. rewrite serialize_table_bytes. unfold parse_table.
    unfold PAGE_ENTRY_SIZE. rewrite zlen_table_bytes, (Z.mul_comm 13), Z.mod_mul, Z.div_mul by done.
    cbn [negb Z.eqb]. unfold zlen. rewrite Nat2Z.id.
    rewrite <- (app_nil_r (table_bytes _)). apply (read_slots_table _ []); [|done].
    assert (HD := table_in). rewrite entries_at_app in HD. apply Forall_app in HD as [HD _].
    pose proof sizes as Hz. eapply Forall_impl; [exact HD|]. intros e (? & ? & ?).
    unfold entry_ok, u64_ok, u32_ok.
    unfold FOOTER_SIZE, Page.PAGE_OVERHEAD, Page.PAGE_HEADER_LEN, Nonce.NONCE_LEN, Aeads.TAG_LEN,
      Page.MAX_PAGE_LEN in *. lia.
  - rewrite serialize_table_bytes, zlen_table_bytes, zlen_entries_at. apply Hsmall.
  - apply bytes_left_fuel.
Qed.

(** Every metadata stream reads back as what was written to it. *)
Lemma stream_reader_written st :
  exists r, Img.stream_reader written st key kind = Ok r /\
    PageReader.holds_pages r (concat (map pg_payload (pages_of st pgs))) /\
    entries_full (pr_entries r).
Proof.
  unfold Img.stream_reader. rewrite page_table_written. cbn [bind written ir_file ir_file_len].
  destruct F_pages as (pre & post & HFp & Hpre & _).
  rewrite map_app, concat_app, <- app_assoc in HFp.
  apply (new_reader kind key F st pgs pre _ _ HFp (eq_sym Hpre) Hlen).
  - apply (proj1 (proj1 (Forall_app _ _ _) wr_sealed_all)).
  - pose proof (wr_numbers _ _ _ _ _ Hw st) as Hno. rewrite pages_of_app, map_app, zlen_app in Hno.
    rewrite seqZ_app in Hno by apply zlen_nonneg.
    apply app_inj_1 in Hno as [Hno _]; [done|].
    rewrite length_map, length_seqZ. unfold zlen. lia.
Qed.

(** *** The chunk records *)

Lemma F_records pre r post :
  rs = pre ++ r :: post ->
  F = (sb ++ concat (map Chunk.record_bytes pre)) ++ Chunk.record_bytes r ++
      (concat (map Chunk.record_bytes post) ++ concat (map pg_bytes (pgs ++ tpgs)) ++ fb) /\
  data_end = SB_SIZE + zlen (concat (map Chunk.record_bytes pre)) + zlen (Chunk.record_bytes r) +
    zlen (concat (map Chunk.record_bytes post)).
Proof.
  intros Hr. rewrite HF. unfold body, data_end, recs. rewrite Hr, map_app, concat_app. cbn [map concat].
  rewrite !zlen_app, <- !app_assoc. split; [done|lia].
Qed.

(** A record is found at its offset, and nothing outside the region is. *)
Lemma read_chunk_record_written pre r post :
  rs = pre ++ r :: post ->
  Img.read_chunk_record written (SB_SIZE + zlen (concat (map Chunk.record_bytes pre))) =
  Ok (Chunk.record_bytes r).
Proof.
  intros Hr. destruct (F_records _ _ _ Hr) as [HFr Hde].
  assert (Chunk.record_ok r) as Hok.
  { pose proof Hrs as HR. rewrite Hr in HR. apply Forall_app in HR as [_ HR]. by inversion HR. }
  pose proof sizes as Hz. pose proof (Chunk.zlen_record_bytes r Hok) as Hl.
  set (off := SB_SIZE + zlen (concat (map Chunk.record_bytes pre))) in *.
  pose proof (zlen_nonneg (concat (map Chunk.record_bytes pre))).
  pose proof (zlen_nonneg (concat (map Chunk.record_bytes post))).
  assert (forall n, 0 <= n <= zlen (Chunk.record_bytes r) ->
    Img.read_chunk_bytes written off n = Ok (ztake n (Chunk.record_bytes r))) as Hread.
  { intros n Hn. unfold Img.read_chunk_bytes. cbn [written ir_footer ir_file]. rewrite Hend.
    unfold checked_add, U64_MAX. rewrite (proj2 (Z.leb_le _ _)) by lia. cbn [ok_or bind].
    rewrite !(proj2 (Z.ltb_ge _ _)) by (unfold off; lia). cbn [orb].
    rewrite HFr. apply File.read_exact_within; [by rewrite zlen_app, zlen_sb|done]. }
  unfold Chunk.total_len in Hl. change CHUNK_TAG_LEN with 16 in Hl.
  pose proof (zlen_nonneg (cr_payload r)).
  assert (19 <= zlen (Chunk.record_bytes r)).
  { change CHUNK_HEADER_LEN with 19 in Hl. destruct (Chunk.is_encrypted r); lia. }
  unfold Img.read_chunk_record. rewrite Hread by (change CHUNK_HEADER_LEN with 19; lia). cbn [bind].
  change CHUNK_HEADER_LEN with 19. rewrite decode_header_prefix by lia.
  rewrite <- (app_nil_r (Chunk.record_bytes r)), Chunk.decode_header_record by done. cbn [bind].
  rewrite app_nil_r. change (Chunk.header_total_len (Chunk.header_of r)) with (Chunk.total_len r).
  rewrite <- (Chunk.zlen_record_bytes r Hok), Hread by lia. by rewrite ztake_all.
Qed.

(** Walking the record headers ends at [data_end_offset] with every record. *)
Lemma scan_written fuel : forall pre post,
  rs = pre ++ post -> (length post < fuel)%nat ->
  Img.scan fuel written (SB_SIZE + zlen (concat (map Chunk.record_bytes pre))) (zlen pre) =
  Ok (data_end, zlen rs).
Proof.
  induction fuel as [|fuel IH]; intros pre post Hr Hf; [lia|]. cbn [Img.scan].
  cbn [written ir_footer ir_file]. rewrite Hend. destruct post as [|r post].
  { assert (data_end = SB_SIZE + zlen (concat (map Chunk.record_bytes pre))) as HE
      by (unfold data_end, recs; rewrite Hr; by rewrite app_nil_r).
    rewrite <- HE, Z.ltb_irrefl. rewrite Hr. by rewrite app_nil_r. }
  destruct (F_records _ _ _ Hr) as [HFr Hde].
  assert (Chunk.record_ok r) as Hok.
  { pose proof Hrs as HR. rewrite Hr in HR. apply Forall_app in HR as [_ HR]. by inversion HR. }
  pose proof (Chunk.zlen_record_bytes r Hok) as Hl.
  pose proof (zlen_nonneg (concat (map Chunk.record_bytes post))).
  assert (19 <= zlen (Chunk.record_bytes r)) as H19.
  { rewrite Hl. unfold Chunk.total_len. change CHUNK_HEADER_LEN with 19. change CHUNK_TAG_LEN with 16.
    pose proof (zlen_nonneg (cr_payload r)). destruct (Chunk.is_encrypted r); lia. }
  set (off := SB_SIZE + zlen (concat (map Chunk.record_bytes pre))) in *.
  change CHUNK_HEADER_LEN with 19.
  rewrite (proj2 (Z.ltb_lt _ _)), (proj2 (Z.ltb_ge _ _)) by lia.
  assert (File.read_exact off 19 F = Ok (ztake 19 (Chunk.record_bytes r))) as ->.
  { rewrite HFr. apply File.read_exact_within; [by rewrite zlen_app, zlen_sb|lia]. }
  cbn [bind]. rewrite decode_header_prefix by lia.
  rewrite <- (app_nil_r (Chunk.record_bytes r)), Chunk.decode_header_record by done. cbn [bind].
  change (Chunk.header_total_len (Chunk.header_of r)) with (Chunk.total_len r). rewrite <- Hl.
  rewrite (proj2 (Z.ltb_ge _ _)) by lia.
  pose proof (IH (pre ++ [r]) post) as IH'.
  rewrite zlen_snoc, map_app, concat_app, zlen_app in IH'. cbn [map concat] in IH'.
  rewrite app_nil_r, Z.add_assoc in IH'. fold off in IH'. apply IH'; [|simpl in Hf; lia].
  by rewrite <- app_assoc.
Qed.

Lemma scan_chunk_headers_written : Img.scan_chunk_headers written = Ok (zlen rs).
Proof.
  unfold Img.scan_chunk_headers. pose proof chunks_bound as Hb.
  assert (zlen recs = zlen rs) as HR by apply zlen_map.
  assert (length rs < Img.scan_fuel written)%nat as Hfu.
  { unfold Img.scan_fuel. cbn [written ir_footer]. rewrite Hend. rewrite HR in Hb.
    change CHUNK_HEADER_LEN with 19 in *.
    pose proof (Z.div_le_lower_bound (data_end - SB_SIZE) 19 (zlen rs)). unfold zlen in *. lia. }
  pose proof (scan_written _ [] rs eq_refl Hfu) as HS.
  change (SB_SIZE + zlen (concat (map Chunk.record_bytes []))) with SB_SIZE in HS.
  change (zlen []) with 0 in HS. rewrite HS. cbn [bind written ir_footer].
  rewrite Hend, Hchunks, HR, !Z.eqb_refl. done.
Qed.

(** *** Nonces *)

Context (Hno4 : pages_of SPageTable pgs = []).

Lemma nonces_nodup : NoDup (map (fun p => Page.page_nonce (pg_bytes p)) (pgs ++ tpgs)).
Proof.
  rewrite (wr_nonces _ _ _ _ _ Hw). pose proof (sealed_min _ _ _ wr_sealed_all) as Hb.
  pose proof zlen_F as HL. pose proof sizes as Hz. change FOOTER_SIZE with 4096 in HL.
  apply NoDup_fmap_2_strong; [|apply NoDup_seqZ].
  intros a b Ha%elem_of_seqZ Hb'%elem_of_seqZ. apply Nonce.be_bytes_inj; unfold Nonce.MAX_COUNTER; lia.
Qed.

(** No two pages of the image, page-table pages included, share a nonce. *)
Lemma nonces_written : Img.has_repeated_page_nonces written key kind = Ok false.
Proof.
  unfold Img.has_repeated_page_nonces. rewrite page_table_written. cbn [bind written ir_footer ir_file].
  assert (entries_at data_end pgs ++ Footer.entries_for footer SPageTable =
          entries_at data_end (pgs ++ tpgs)) as ->.
  { rewrite entries_at_app. f_equal. unfold Footer.entries_for. rewrite footer_table_sub.
    destruct (decide (tpgs = [])) as [HE|HE].
    - rewrite HE, app_nil_r. apply filter_none. apply Forall_forall. intros e He Hst.
      enough (e ∈ filter (fun e => pe_stream e = SPageTable) (entries_at data_end pgs)) as Hin.
      + assert (zlen (filter (fun e => pe_stream e = SPageTable) (entries_at data_end pgs)) =
          zlen (pages_of SPageTable pgs)) as Hz by apply zlen_filter_entries.
        rewrite Hno4 in Hz. apply zlen_0_nil in Hz. rewrite Hz in Hin. by apply elem_of_nil in Hin.
      + by apply list_elem_of_filter.
    - rewrite entries_at_app, drop_app_length'.
      + apply filter_all. apply entries_at_stream, Hstream4.
      + pose proof (zlen_entries_at data_end pgs) as HL. unfold zlen in HL. lia. }
  destruct F_pages as (pre & post & HFp & Hpre & _).
  apply (repeats_placed kind key _ pre post); [done..|apply wr_sealed_all|apply nonces_nodup|].
  intros p _. apply not_elem_of_nil.
Qed.

(** Everything the reader says about the image. *)
Lemma written_reads : exists img,
  Img.open F = Ok img /\ ir_superblock img = s /\ ir_file_len img = zlen F /\
  data_end_offset (ir_footer img) = data_end /\
  Img.authenticate img mk = Ok tt /\
  Img.page_table img key kind = Ok (entries_at data_end pgs) /\
  (forall st, exists r, Img.stream_reader img st key kind = Ok r /\
    PageReader.holds_pages r (concat (map pg_payload (pages_of st pgs))) /\
    entries_full (pr_entries r)) /\
  (forall pre r post, rs = pre ++ r :: post ->
    Img.read_chunk_record img (SB_SIZE + zlen (concat (map Chunk.record_bytes pre))) =
      Ok (Chunk.record_bytes r)) /\
  Img.scan_chunk_headers img = Ok (zlen rs) /\
  Img.has_repeated_page_nonces img key kind = Ok false.
Proof.
  exists written. split_and!; try done.
  - apply open_written.
  - apply authenticate_written.
  - apply page_table_written.
  - apply stream_reader_written.
  - apply read_chunk_record_written.
  - apply scan_chunk_headers_written.
  - apply nonces_written.
Qed.
End written.

(** * What opening an image guarantees about later reads

    [Img.open] checks the layout the footer declares. These are the bounds the
    readers behind it rely on, for every file, hostile ones included: reads
    stay inside the region they are for, and the loops end within the fuel
    their definitions give them. *)

(** The layout of an opened image. *)
Record layout_ok (img : ImageReader) : Prop := {
  lo_len : ir_file_len img = zlen (ir_file img);
  lo_size : ir_file_len img < 2 ^ 63;
  lo_end : SB_SIZE <= data_end_offset (ir_footer img) <= ir_file_len img - FOOTER_SIZE;
  lo_table : Forall (entry_in (data_end_offset (ir_footer img)) (ir_file_len img - FOOTER_SIZE))
               (page_table (ir_footer img));
}.

(** What a checked entry list promises. *)
Lemma check_entries_Ok entries lo hi u :
  Forall entry_ok entries -> Img.check_entries entries lo hi = Ok u -> Forall (entry_in lo hi) entries.
Proof.
  induction 1 as [|e entries [Ho Hl] _ IH]; [constructor|]. cbn [Img.check_entries].
  case_match; [done|]. intros Hc. inv_ok. apply ok_or_Ok, checked_add_Some in E as [-> _].
  case_match; [done|]. bprop. constructor; [|by apply IH].
  unfold entry_in, u64_ok, u32_ok in *. lia.
Qed.

Lemma check_extents_Ok entries hi u :
  Forall entry_ok entries -> PageReader.check_extents entries hi = Ok u ->
  Forall (entry_in 0 hi) entries.
Proof.
  induction 1 as [|e entries [Ho Hl] _ IH]; [constructor|]. cbn [PageReader.check_extents].
  case_match; [done|]. intros Hc. inv_ok. apply ok_or_Ok, checked_add_Some in E as [-> _].
  case_match; [done|]. bprop. constructor; [|by apply IH].
  unfold entry_in, u64_ok, u32_ok in *. lia.
Qed.

(** The only error of a chunk header is corruption. *)
Lemma decode_header_Err b e : Chunk.decode_header b = Err e -> exists what, e = Corrupt what.
Proof.
  unfold Chunk.decode_header, slice_u16, slice_u32.
  repeat (case_match; cbn [bind]); intros; simplify_eq; eauto.
Qed.

Section safety.
Context `{PrimitiveLaws}.

Lemma open_layout_ok file img :
  zlen file < 2 ^ 63 -> Img.open file = Ok img -> ir_file img = file /\ layout_ok img.
Proof.
  intros Hlen Ho. unfold Img.open in Ho. destruct (Z.ltb_spec (zlen file) (SB_SIZE + FOOTER_SIZE)); [done|].
  inv_ok. split; [done|].
  apply File.read_exact_Ok in E1 as (-> & Hz & _); [|unfold SB_SIZE, FOOTER_SIZE in *; lia|done].
  apply footer_decode_fields in E2 as ([_ _ Ht _] & _); [|done].
  unfold Img.validate_layout in E3. case_match eqn:Eb; [done|]. case_match; [done|]. inv_ok. bprop.
  split; cbn; [done|done|lia|]. by eapply check_entries_Ok.
Qed.

Context (img : ImageReader) (Himg : layout_ok img).

Definition is_corrupt {A} (m : result A) : Prop := exists what, m = Err (Corrupt what).

(** A chunk read either returns the bytes asked for, from inside the chunk
    region, or reports corruption. *)
Lemma read_chunk_bytes_cases offset n :
  0 <= n -> is_corrupt (Img.read_chunk_bytes img offset n) \/
  (Img.read_chunk_bytes img offset n = Ok (sub offset n (ir_file img)) /\
   SB_SIZE <= offset /\ offset + n <= data_end_offset (ir_footer img)).
Proof.
  intros Hn. unfold Img.read_chunk_bytes. pose proof Himg as [Hl _ He _].
  destruct (checked_add offset n) as [e|] eqn:Ea; [|left; by eexists]. cbn [ok_or bind].
  apply checked_add_Some in Ea as [-> _]. case_match eqn:Eb; [left; by eexists|]. bprop. right.
  rewrite File.read_exact_inside; [|unfold FOOTER_SIZE in *; lia]. done.
Qed.

Lemma read_chunk_record_cases offset :
  is_corrupt (Img.read_chunk_record img offset) \/
  exists rec, Img.read_chunk_record img offset = Ok rec /\
    rec = sub offset (zlen rec) (ir_file img) /\
    SB_SIZE <= offset /\ offset + zlen rec <= data_end_offset (ir_footer img).
Proof.
  unfold Img.read_chunk_record.
  destruct (read_chunk_bytes_cases offset CHUNK_HEADER_LEN) as [[w ->]|(-> & Hlo & Hhi)];
    [done|left; by eexists|]. cbn [bind].
  destruct (Chunk.decode_header _) as [h|e] eqn:Eh; cbn [bind].
  - apply decode_header_Ok in Eh as (_ & _ & Hs & _).
    assert (0 <= Chunk.header_total_len h) as Ht.
    { unfold Chunk.header_total_len. change CHUNK_HEADER_LEN with 19.
      unfold CHUNK_TAG_LEN, Aeads.TAG_LEN. case_match; lia. }
    destruct (read_chunk_bytes_cases offset _ Ht) as [?|(-> & ? & Hend)]; [by left|right].
    eexists. split; [done|]. pose proof Himg as [Hl _ He _]. unfold SB_SIZE, FOOTER_SIZE in *.
    rewrite zlen_sub by lia. done.
  - left. apply decode_header_Err in Eh as [what ->]. by eexists.
Qed.

(** *** The scan *)
Lemma scan_turns f1 f2 offset count :
  SB_SIZE <= offset ->
  data_end_offset (ir_footer img) - offset < CHUNK_HEADER_LEN * Z.of_nat f1 ->
  data_end_offset (ir_footer img) - offset < CHUNK_HEADER_LEN * Z.of_nat f2 ->
  Img.scan f1 img offset count = Img.scan f2 img offset count.
Proof.
  change CHUNK_HEADER_LEN with 19. pose proof Himg as [Hl _ He _].
  revert f2 offset count. induction f1 as [|f1 IH]; intros f2 offset count Ho H1 H2.
  - destruct f2; cbn [Img.scan]; by rewrite (proj2 (Z.ltb_ge _ _)) by lia.
  - destruct f2 as [|f2]; cbn [Img.scan].
    { by rewrite (proj2 (Z.ltb_ge _ _)) by lia. }
    case_match; [|done]. case_match; [done|]. bprop. change CHUNK_HEADER_LEN with 19 in *.
    apply bind_ext. intros b Hb. apply bind_ext. intros h Hh.
    apply decode_header_Ok in Hh as (_ & _ & Hs & _).
    assert (19 <= Chunk.header_total_len h) as Ht.
    { unfold Chunk.header_total_len. change CHUNK_HEADER_LEN with 19.
      unfold CHUNK_TAG_LEN, Aeads.TAG_LEN. case_match; lia. }
    case_match; [done|]. apply IH; lia.
Qed.

(** *** Reading streams *)
Lemma stream_reader_sane st key kind r :
  Img.stream_reader img st key kind = Ok r ->
  entries_sane (pr_entries r) /\ pr_pos r = 0 /\ pr_buf r = [] /\
  Forall (entry_in 0 (zlen (ir_file img))) (pr_entries r).
Proof.
  intros Hr. unfold Img.stream_reader in Hr. inv_ok.
  assert (Forall entry_ok v) as Hok.
  { unfold Img.page_table in E. destruct (Footer.page_table_in_stream4 _); cbn [negb] in E.
    - apply bind_Ok in E as (s & _ & E). apply bind_Ok in E as (b & _ & E).
      by apply parse_table_Ok in E as [? _].
    - inv_ok. eapply Forall_impl; [apply (lo_table _ Himg)|]. intros e (? & ? & ?).
      pose proof (lo_size _ Himg). pose proof (lo_end _ Himg).
      change Page.MAX_PAGE_LEN with 4194304 in *. change Page.PAGE_OVERHEAD with 34 in *.
      change SB_SIZE with 4096 in *. change FOOTER_SIZE with 4096 in *.
      unfold entry_ok, u64_ok, u32_ok. lia. }
  unfold PageReader.new in Hr. inv_ok. cbn.
  apply (Forall_filter_keep (fun e => pe_stream e = st)) in Hok.
  apply check_extents_Ok in E0; [|done]. rewrite (lo_len _ Himg) in E0.
  unfold entries_sane. split_and!; [|done|done|by rewrite sort_by_key_perm].
  rewrite sort_by_key_perm.
  eapply Forall_impl; [exact E0|]. intros e (? & ? & ?). split; [done|lia].
Qed.
End safety.

(** ** Properties *)
Section properties.
Context `{PrimitiveLaws}.

(** C32: Reads behind an opened image stay in bounds. For any file that opens,
    the chunk region and every page the footer lists lie inside the file; a
    chunk read at any offset and length either returns exactly those bytes,
    all of them inside the chunk region, or reports corruption - it never
    runs past the end of the file - and a second [ChunkReader] over the image
    reads the same. *)
Theorem open_bounds file img :
  zlen file < 2 ^ 63 -> Img.open file = Ok img ->
  ir_file img = file /\ layout_ok img /\
  (forall offset n, 0 <= n ->
    is_corrupt (Img.read_chunk_bytes img offset n) \/
    (Img.read_chunk_bytes img offset n = Ok (sub offset n file) /\
     SB_SIZE <= offset /\ offset + n <= data_end_offset (ir_footer img))) /\
  (forall offset, is_corrupt (Img.read_chunk_record img offset) \/
    exists rec, Img.read_chunk_record img offset = Ok rec /\ rec = sub offset (zlen rec) file /\
      SB_SIZE <= offset /\ offset + zlen rec <= data_end_offset (ir_footer img)) /\
  (forall offset, ChunkReaders.read_record (ChunkReaders.of_image img) offset =
    Img.read_chunk_record img offset).
Proof.
  intros Hlen Ho. destruct (open_layout_ok file img Hlen Ho) as [Hf Hl].
  split_and!; [done|done| | |done]; rewrite <- Hf.
  - intros offset n Hn. by apply read_chunk_bytes_cases.
  - intros offset. by apply read_chunk_record_cases.
Qed.

End properties.
