(* ===== verification/Roundtrip.v ===== *)
(** * From the writer to the reader

    A client that writes an image the way the engine does - superblock, all
    chunks, then each metadata stream once, then the footer - and what the
    reader and the verifier find in the file. *)

From S2P Require Import Prelude Core Crypto Pages Wire Superblock Chunk Footer Files PageStream Writer ImageReader ImageSafety.
Import Image.

Section client.
Context `{Primitives}.

Fixpoint append_all (w : ImageWriter) (options : ChunkOptions) (keys : WriterKeys)
    (image_kind : ImageKind) (ns : NonceSeq) (plaintexts : list bytes) :
    result (list ChunkRef * NonceSeq * ImageWriter) :=
  match plaintexts with
  | [] => Ok ([], ns, w)
  | p :: plaintexts =>
    let* (r, ns, w) := Writer.append_chunk w options keys image_kind ns p in
    let* (refs, ns, w) := append_all w options keys image_kind ns plaintexts in
    Ok (r :: refs, ns, w)
  end.

Definition write_stream (w : ImageWriter) (kind : AeadKind) (key : bytes) (st : StreamId)
    (data : bytes) : result ImageWriter :=
  let* ps := PageStreams.write (Writer.page_stream w st kind key) data in
  let* ps := PageStreams.finish ps in
  Ok (ps_sink ps).

Fixpoint write_streams (w : ImageWriter) (kind : AeadKind) (key : bytes)
    (streams : list (StreamId * bytes)) : result ImageWriter :=
  match streams with
  | [] => Ok w
  | (st, data) :: streams =>
    let* w := write_stream w kind key st data in
    write_streams w kind key streams
  end.

Definition write_image (file : FileW) (s : Superblock) (mac_key : option bytes)
    (options : ChunkOptions) (keys : WriterKeys) (plaintexts : list bytes)
    (streams : list (StreamId * bytes)) : result (list ChunkRef * FileW * FooterRec) :=
  let* w := Writer.create file s mac_key in
  let* (refs, _, w) := append_all w options keys (image_kind s) Nonce.new plaintexts in
  let* w := write_streams w (Chunk.kind options) (wk_meta_key keys) streams in
  let* (file, footer) := Writer.finish w (wk_meta_key keys) mac_key (Chunk.kind options) in
  Ok (refs, file, footer).
End client.

Section lemmas.
Context `{PrimitiveLaws}.

(** Where [p] is among the records [rs], and that it can be had back. *)
Definition stored (options : ChunkOptions) (keys : WriterKeys) (ik : ImageKind)
    (rs : list ChunkRecord) (ref : ChunkRef) (p : bytes) : Prop :=
  exists pre r post, rs = pre ++ r :: post /\
    ref_offset ref = SB_SIZE + zlen (concat (map Chunk.record_bytes pre)) /\
    ref_stored_len ref = zlen (cr_payload r) /\
    ref_hash ref = Mac.content_hash (wk_dedup_key keys) p /\
    forall max, zlen p <= max ->
      Chunk.open_chunk (Chunk.kind options) (wk_data_key keys) (wk_dedup_key keys) ik
        (ref_hash ref) max (Chunk.record_bytes r) = Ok p.

Lemma stored_app options keys ik rs more ref p :
  stored options keys ik rs ref p -> stored options keys ik (rs ++ more) ref p.
Proof.
  intros (pre & r & post & -> & Hr). exists pre, r, (post ++ more). by rewrite <- app_assoc.
Qed.

Lemma append_chunk_rep kind key rs w options keys ik ns p ref ns' w' :
  wrep kind key (map Chunk.record_bytes rs) [] w -> zlen p <= MAX_STORED_LEN ->
  Writer.append_chunk w options keys ik ns p = Ok (ref, ns', w') ->
  exists r, wrep kind key (map Chunk.record_bytes (rs ++ [r])) [] w' /\ Chunk.record_ok r /\
    stored options keys ik (rs ++ [r]) ref p /\ same_file_identity w w'.
Proof.
  intros Hw Hp Ha. unfold Writer.append_chunk in Ha.
  apply bind_Ok in Ha as ([[rec h] ns1] & Hs & Ha). apply bind_Ok in Ha as (hd & Hd & Ha).
  apply bind_Ok in Ha as ([[off n] w1] & Hr & Ha). injection Ha as <- <- <-.
  destruct (seal_chunk_record _ _ _ _ _ _ _ _ _ Hs Hp) as (Hh & r & payload & -> & Hok & _).
  rewrite <- (app_nil_r (Chunk.record_bytes r)), Chunk.decode_header_record in Hd by done.
  injection Hd as <-.
  destruct (append_record_rep _ _ _ _ _ _ _ _ Hw Hr) as (Hw' & -> & _ & Hid).
  exists r. rewrite map_app. split_and!; [done|done| |done].
  exists rs, r, []. cbn [ref_offset ref_stored_len ref_hash]. split_and!; [done..|].
  intros max Hm. rewrite <- (app_nil_r (Chunk.record_bytes r)).
  by eapply seal_chunk_open.
Qed.

Lemma append_all_rep kind key options keys ik ps : forall rs w ns refs ns' w',
  wrep kind key (map Chunk.record_bytes rs) [] w -> Forall (fun p => zlen p <= MAX_STORED_LEN) ps ->
  append_all w options keys ik ns ps = Ok (refs, ns', w') ->
  exists new, wrep kind key (map Chunk.record_bytes (rs ++ new)) [] w' /\
    Forall Chunk.record_ok new /\ length new = length ps /\
    Forall2 (stored options keys ik (rs ++ new)) refs ps /\ same_file_identity w w'.
Proof.
  induction ps as [|p ps IH]; intros rs w ns refs ns' w' Hw Hp Ha; cbn [append_all] in Ha.
  - injection Ha as <- <- <-. exists []. rewrite app_nil_r. split_and!; (done || constructor).
  - apply bind_Ok in Ha as ([[ref ns1] w1] & Hc & Ha).
    apply bind_Ok in Ha as ([[refs1 ns2] w2] & Hr & Ha). injection Ha as <- <- <-.
    inversion Hp; subst.
    destruct (append_chunk_rep _ _ _ _ _ _ _ _ _ _ _ _ Hw ltac:(done) Hc) as (r & Hw1 & Hok & Hst & Hi).
    destruct (IH _ _ _ _ _ _ Hw1 ltac:(done) Hr) as (new & Hw2 & Hoks & Hl & Hsts & Hj).
    exists (r :: new). rewrite <- app_assoc in *. cbn [app length] in *. split_and!.
    + done.
    + by constructor.
    + by f_equal.
    + constructor; [|done]. replace (rs ++ r :: new) with ((rs ++ [r]) ++ new) by by rewrite <- app_assoc.
      by apply stored_app.
    + destruct Hi, Hj. split; by etransitivity.
Qed.

(** What the streams written so far leave in the list of pages. *)
Lemma write_streams_rep kind key recs streams : forall pgs w w',
  wrep kind key recs pgs w -> NoDup (map fst streams) ->
  (forall st, In st (map fst streams) -> pages_of st pgs = []) ->
  write_streams w kind key streams = Ok w' ->
  exists new, wrep kind key recs (pgs ++ new) w' /\
    (forall st data, In (st, data) streams -> concat (map pg_payload (pages_of st new)) = data) /\
    (forall st, ~ In st (map fst streams) -> pages_of st new = []) /\
    map pg_payload new = flat_map (fun '(_, data) => zchunks DEFAULT_PAGE_LEN data) streams /\
    same_file_identity w w'.
Proof.
  induction streams as [|[st data] streams IH]; intros pgs w w' Hw Hnd Hfree He; cbn [write_streams] in He.
  - injection He as <-. exists []. rewrite app_nil_r. by split_and!.
  - apply bind_Ok in He as (w1 & H1 & He). cbn [map fst] in *. inversion Hnd as [|? ? Hn Hnd']; subst.
    destruct (stream_rep _ _ _ _ _ _ DEFAULT_PAGE_LEN _ _ Hw eq_refl H1) as (new1 & Hw1 & Hm1 & Hst1 & _ & Hi).
    assert (forall st', st' <> st -> pages_of st' new1 = []) as Hother.
    { intros st' Hne. apply filter_none. eapply Forall_impl; [done|]. cbv beta. congruence. }
    destruct (IH _ _ w' Hw1 Hnd') as (new & Hw2 & Hp & Hfr & Hm & Hj); [|done|].
    { intros st' Hin. rewrite pages_of_app, Hfree, Hother; [done| |by right].
      intros ->. by apply Hn, list_elem_of_In. }
    exists (new1 ++ new). rewrite app_assoc. split_and!.
    + done.
    + intros st' data' [[= <- <-]|Hin].
      * rewrite pages_of_app, (Hfr st), app_nil_r by by rewrite <- list_elem_of_In.
        unfold pages_of. rewrite filter_all, Hm1 by done. by apply concat_zchunks.
      * rewrite pages_of_app, Hother; [by apply Hp|]. intros ->.
        apply Hn, list_elem_of_In, (in_map fst _ _ Hin).
    + intros st' Hst'. rewrite pages_of_app, Hother by (intros ->; apply Hst'; by left).
      by rewrite Hfr by (intros ?; apply Hst'; by right).
    + rewrite map_app, Hm1, Hm. done.
    + destruct Hi, Hj. split; by etransitivity.
Qed.

Lemma find_stream (streams : list (StreamId * bytes)) st d :
  NoDup (map fst streams) -> In (st, d) streams ->
  find (fun x => bool_decide (fst x = st)) streams = Some (st, d).
Proof.
  induction streams as [|[st' d'] streams IH]; [done|]. cbn [map fst find].
  intros Hnd Hin. inversion Hnd as [|? ? Hn Hnd']; subst. case_bool_decide; subst.
  - destruct Hin as [[= ->]|Hin]; [done|]. exfalso.
    apply Hn, list_elem_of_In, (in_map fst _ _ Hin).
  - destruct Hin as [[= -> ->]|Hin]; [done|]. by apply IH.
Qed.

(** The inputs of a client that respects the format's limits. *)
Record image_input_ok (file : FileW) (s : Superblock) (plaintexts : list bytes)
    (streams : list (StreamId * bytes)) : Prop := {
  in_file : fw_bytes file = [];
  in_cap : fw_cap file <= U64_MAX;
  in_sb : Sb.sb_ok s;
  in_plain : Forall (fun p => zlen p <= MAX_STORED_LEN) plaintexts;
  in_once : NoDup (map fst streams);
  in_no_table : ~ In SPageTable (map fst streams);
  in_pages : PAGE_ENTRY_SIZE *
    zlen (flat_map (fun '(_, data) => zchunks DEFAULT_PAGE_LEN data) streams) <= MAX_PAGE_TABLE_BYTES;
}.

Lemma write_image_reads file s mk options keys plaintexts streams refs file' footer :
  image_input_ok file s plaintexts streams ->
  write_image file s mk options keys plaintexts streams = Ok (refs, file', footer) ->
  exists rs pgs img,
    Forall2 (stored options keys (image_kind s) rs) refs plaintexts /\
    length rs = length plaintexts /\
    (forall st, concat (map pg_payload (pages_of st pgs)) =
      match find (fun x => bool_decide (fst x = st)) streams with Some (_, d) => d | None => [] end) /\
    Img.open (fw_bytes file') = Ok img /\ ir_superblock img = s /\
    ir_file_len img = zlen (fw_bytes file') /\
    data_end_offset (ir_footer img) = SB_SIZE + zlen (concat (map Chunk.record_bytes rs)) /\
    Img.authenticate img mk = Ok tt /\
    Img.page_table img (wk_meta_key keys) (Chunk.kind options) =
      Ok (entries_at (SB_SIZE + zlen (concat (map Chunk.record_bytes rs))) pgs) /\
    (forall st, exists r,
      Img.stream_reader img st (wk_meta_key keys) (Chunk.kind options) = Ok r /\
      PageReader.holds_pages r (concat (map pg_payload (pages_of st pgs))) /\
      entries_full (pr_entries r)) /\
    (forall pre r post, rs = pre ++ r :: post ->
      Img.read_chunk_record img (SB_SIZE + zlen (concat (map Chunk.record_bytes pre))) =
        Ok (Chunk.record_bytes r)) /\
    Img.scan_chunk_headers img = Ok (zlen rs) /\
    Img.has_repeated_page_nonces img (wk_meta_key keys) (Chunk.kind options) = Ok false /\
    map pg_payload pgs = flat_map (fun '(_, data) => zchunks DEFAULT_PAGE_LEN data) streams.
Proof.
  intros [Hf Hcap Hs Hp Honce Hno4 Hpages] Hi. unfold write_image in Hi.
  apply bind_Ok in Hi as (w0 & H0w & Hi). apply bind_Ok in Hi as ([[refs0 ns] w1] & H1w & Hi).
  apply bind_Ok in Hi as (w2 & H2w & Hi). apply bind_Ok in Hi as ([file1 footer1] & H3w & Hi).
  injection Hi as -> -> ->.
  destruct (create_rep (Chunk.kind options) (wk_meta_key keys) _ _ _ _ Hf Hs H0w) as (Hw0 & Hsb & Hc0).
  destruct (append_all_rep _ _ _ _ _ _ [] _ _ _ _ _ Hw0 Hp H1w) as (rs & Hw1 & Hok & Hlr & Hst & Hi1).
  cbn [app] in *.
  destruct (write_streams_rep _ _ _ _ [] _ _ Hw1 Honce ltac:(done) H2w) as (pgs & Hw2 & Hpay & Hfree & Hm & Hi2).
  cbn [app] in *.
  destruct (finish_rep _ _ _ _ _ _ _ _ Hw2 H3w) as (tpgs & w3 & Hw3 & Hne & Htp & Hlen & Hfin).
  destruct Hi1 as [Ei1 Ec1], Hi2 as [Ei2 Ec2]. rewrite Ei2, Ei1 in Hfin. rewrite Ec2, Ec1, Hc0 in Hlen.
  destruct Hfin as (fb & HF & Hfb & Hch & Hend & Hfl & Htab).
  destruct (written_reads s mk _ _ _ rs pgs tpgs w3 (fw_bytes file') fb footer Hs Hsb Hok Hw3 HF Hfb
    Hch Hend Hfl Htp Htab) as (img & Hall).
  - lia.
  - rewrite <- (zlen_map pg_payload), Hm. done.
  - by apply Hfree.
  - exists rs, pgs, img. split_and!; [done|done| |apply Hall..|done].
    intros st. destruct (find _ streams) as [[st' d]|] eqn:Hfind.
    + apply find_some in Hfind as [Hin Hb]. bprop. cbn in Hb. subst st'. by apply Hpay.
    + rewrite Hfree; [done|]. intros Hin. apply in_map_iff in Hin as ([st' d] & <- & Hin).
      eapply find_none in Hfind; [|exact Hin]. cbn in Hfind. by rewrite bool_decide_true in Hfind.
Qed.

(** *** The verifier *)

Definition total (l : list (StreamId * Z)) : Z := foldr (fun '(_, n) acc => n + acc) 0 l.

Lemma verify_streams_Ok img key kind off pgs streams :
  (forall st, exists r, Img.stream_reader img st key kind = Ok r /\
    (exists l, PageReader.holds_pages r l) /\ entries_full (pr_entries r)) ->
  exists pages, Verify.verify_streams img key kind (entries_at off pgs) streams = Ok pages /\
    total pages = foldr (fun st acc => zlen (pages_of st pgs) + acc) 0 streams.
Proof.
  intros Hr. induction streams as [|st streams (pages & IH & Hs)]; [by exists []|].
  cbn [Verify.verify_streams foldr]. rewrite zlen_filter_entries.
  destruct (Z.eqb_spec (zlen (pages_of st pgs)) 0) as [H0z|Hn].
  - exists pages. split; [done|]. lia.
  - destruct (Hr st) as (r & -> & (l & Hl) & Hf). cbn [bind].
    rewrite (drain_holds _ _ _ Hl Hf) by apply bytes_left_fuel. cbn [bind]. rewrite IH. cbn [bind].
    eexists. split; [done|]. cbn. unfold total in Hs. by rewrite Hs.
Qed.

Lemma pages_partition pgs :
  foldr (fun st acc => zlen (pages_of st pgs) + acc) 0 [SManifest; SHashIndex; SExtras; SPageTable]
  = zlen pgs.
Proof.
  cbn [foldr]. rewrite Z.add_0_r. induction pgs as [|p pgs IH]; [done|]. unfold pages_of in *.
  rewrite !filter_cons, !zlen_cons.
  destruct (pg_stream p); repeat (case_decide; [try discriminate|try congruence]);
    rewrite ?zlen_cons; lia.
Qed.
End lemmas.

(** ** A concrete image, for the witnesses *)
Module Sample.
Import Toy.

Definition key : bytes := zrep 32 Byte.x07.
Definition id (b : byte) : bytes := zrep 16 b.

Definition superblock : Superblock :=
  {| format_major := 1; min_reader := 1; flags := 1; image_kind := Block;
     consistency := PointInTime; image_uuid := id Byte.x01; chain_id := id Byte.x02;
     set_id := id Byte.x03; parent_uuid := id Byte.x00; seq_in_chain := 0;
     created_unix := 1700000000; source_size_bytes := 1024; logical_block_size := 512;
     chunk_size := 2 ^ 18; kdf_id := 1; aead_id := 1; kdf_salt := id Byte.x04;
     argon2_m_cost_kib := 65536; argon2_t_cost := 3; argon2_p_cost := 1;
     wrap_nonce := zrep 12 Byte.x05; wrapped_chain_key := zrep 48 Byte.x06 |}.

Definition keys : WriterKeys :=
  {| wk_data_key := Some key; wk_meta_key := key; wk_dedup_key := key |}.

Definition plaintexts : list bytes := [zrep 100 Byte.x41; [Byte.x01; Byte.x02]].
Definition streams : list (StreamId * bytes) :=
  [(SManifest, zrep 60 Byte.x11); (SExtras, [Byte.x2a])].
Definition file : FileW := File.new (2 ^ 20).

Abbreviation image :=
  (write_image file superblock (Some key) Chunk.default_options keys plaintexts streams).

Lemma sb_ok : Sb.sb_ok superblock.
Proof. split; unfold u32_ok, u64_ok, id_ok; cbn; (done || lia). Qed.

Lemma input_ok : image_input_ok file superblock plaintexts streams.
Proof.
  split; [done|done|apply sb_ok| | | |].
  - repeat constructor; by vm_compute.
  - by apply (bool_decide_unpack _).
  - cbn. intuition discriminate.
  - by vm_compute.
Qed.

Lemma image_is_ok : is_ok image = true.
Proof. by vm_compute. Qed.
End Sample.

(** ** Properties *)
Section properties.
Context `{PrimitiveLaws}.

(** C25: The whole format round-trips. A client that creates an image, seals
    and appends its chunks, writes each metadata stream once and finishes
    gets a file that opens to the same superblock and authenticates; every
    chunk reference leads to a record that opens to its plaintext under the
    content hash recorded for it; every stream reads back byte for byte and
    then reports its end. *)
Theorem image_roundtrip file s mk options keys plaintexts streams refs file' footer :
  image_input_ok file s plaintexts streams ->
  write_image file s mk options keys plaintexts streams = Ok (refs, file', footer) ->
  exists img, Img.open (fw_bytes file') = Ok img /\ ir_superblock img = s /\
    Img.authenticate img mk = Ok tt /\
    Forall2 (fun ref p => exists rec,
      Img.read_chunk_record img (ref_offset ref) = Ok rec /\
      ref_hash ref = Mac.content_hash (wk_dedup_key keys) p /\
      Chunk.open_chunk (Chunk.kind options) (wk_data_key keys) (wk_dedup_key keys) (image_kind s)
        (ref_hash ref) (zlen p) rec = Ok p) refs plaintexts /\
    forall st data, In (st, data) streams -> exists r r1,
      Img.stream_reader img st (wk_meta_key keys) (Chunk.kind options) = Ok r /\
      PageReader.read r (zlen data) = Ok (data, r1) /\
      exists what, PageReader.read r1 1 = Err (Corrupt what).
Proof.
  intros Hin Hi.
  destruct (write_image_reads _ _ _ _ _ _ _ _ _ _ Hin Hi)
    as (rs & pgs & img & Hst & _ & Hpay & Ho & Hsb & _ & _ & Ha & _ & Hstr & Hrec & _ & _).
  exists img. split_and!; [done..| |].
  - eapply Forall2_impl; [exact Hst|]. intros ref p (pre & r & post & Hr & -> & _ & Hh & Hop).
    exists (Chunk.record_bytes r). split_and!; [by apply (Hrec _ _ post)|done|by apply Hop].
  - intros st data Hd. destruct (Hstr st) as (r & Hr & Hh & _). exists r.
    rewrite Hpay in Hh. rewrite (find_stream _ _ _ (in_once _ _ _ _ Hin) Hd) in Hh.
    destruct (PageReader.read_to_end r data Hh) as (r1 & Hr1 & He). eauto.
Qed.

(** [verify_structure] accepts every image the writer makes: with the
    metadata key it authenticates the header and the footer, counts exactly
    the chunks that were appended, decrypts every page of every stream, and
    reports no repeated page nonce. *)
Theorem image_verifies file s (encrypted : bool) options keys plaintexts streams refs file' footer :
  image_input_ok file s plaintexts streams ->
  Sb.aead_kind s = Ok (Chunk.kind options) ->
  write_image file s (if encrypted then Some (wk_meta_key keys) else None) options keys
    plaintexts streams = Ok (refs, file', footer) ->
  exists report,
    Verify.verify_structure (fw_bytes file') (wk_meta_key keys) encrypted = Ok report /\
    vr_chunks report = zlen plaintexts /\ vr_repeated_page_nonces report = false /\
    vr_file_len report = zlen (fw_bytes file') /\
    Verify.total_pages report =
      zlen (flat_map (fun '(_, data) => zchunks DEFAULT_PAGE_LEN data) streams).
Proof.
  intros Hin Hk Hi.
  destruct (write_image_reads _ _ _ _ _ _ _ _ _ _ Hin Hi)
    as (rs & pgs & img & _ & Hlr & _ & Ho & Hsb & Hfl & _ & Ha & Ht & Hstr & _ & Hsc & Hno & Hpg).
  unfold Verify.verify_structure. rewrite Ho. cbn [bind]. rewrite Hsb, Hk. cbn [bind].
  rewrite Ha. cbn [bind]. rewrite Hsc. cbn [bind]. rewrite Ht. cbn [bind].
  destruct (verify_streams_Ok img (wk_meta_key keys) (Chunk.kind options)
    (SB_SIZE + zlen (concat (map Chunk.record_bytes rs))) pgs
    [SManifest; SHashIndex; SExtras; SPageTable]) as (pages & -> & Htot).
  { intros st. destruct (Hstr st) as (r & ? & ? & ?). eauto. }
  cbn [bind]. rewrite Hno. cbn [bind]. eexists. split; [done|].
  unfold Verify.total_pages. cbn [vr_chunks vr_pages vr_repeated_page_nonces vr_file_len].
  split_and!; [unfold zlen; by rewrite Hlr|done|done|].
  fold (total pages). by rewrite Htot, pages_partition, <- Hpg, zlen_map.
Qed.
End properties.

#[local] Existing Instance Toy.toy.
#[local] Existing Instance Toy.toy_laws.

Lemma image_roundtrip_witness :
  exists refs file footer img r r1,
    Sample.image = Ok (refs, file, footer) /\ Img.open (fw_bytes file) = Ok img /\
    Img.stream_reader img SManifest Sample.key Aes256Gcm = Ok r /\
    PageReader.read r 60 = Ok (zrep 60 Byte.x11, r1).
Proof.
  pose proof Sample.image_is_ok as Hok.
  destruct Sample.image as [[[refs file] footer]|e] eqn:E; [|discriminate].
  destruct (image_roundtrip _ _ _ _ _ _ _ _ _ _ Sample.input_ok E)
    as (img & Ho & _ & _ & _ & Hs).
  destruct (Hs SManifest (zrep 60 Byte.x11) (or_introl eq_refl)) as (r & r1 & Hr & Hd & _).
  exists refs, file, footer, img, r, r1. split; [reflexivity|]. split; [exact Ho|]. split; [exact Hr|exact Hd].
Defined.

Lemma image_verifies_witness :
  exists refs file footer report,
    Sample.image = Ok (refs, file, footer) /\
    Verify.verify_structure (fw_bytes file) Sample.key true = Ok report /\
    vr_chunks report = 2.
Proof.
  pose proof Sample.image_is_ok as Hok.
  destruct Sample.image as [[[refs file] footer]|e] eqn:E; [|discriminate].
  destruct (image_verifies _ _ true Chunk.default_options
    Sample.keys _ _ _ _ _ Sample.input_ok eq_refl E) as (report & Hv & Hc & _).
  exists refs, file, footer, report. split; [reflexivity|]. split; [exact Hv|exact Hc].
Defined.
