(* ===== verification/Manifest.v ===== *)
(** * Block, stream and delta manifests ([crates/lr-format/src/manifest.rs])

    A [String] is its UTF-8 bytes. *)

From S2P Require Import Prelude Core Wire.

Definition MANIFEST_VER : Z := 1.
Definition SECTION_BLOCK_FULL : Z := 1.
Definition SECTION_BLOCK_DELTA : Z := 2.
Definition SECTION_STREAM_SUBVOL : Z := 3.
Definition SECTION_FILE_ENTRY : Z := 4.
Definition SECTION_FILE_CONTINUATION : Z := 5.
Definition SECTION_FILE_HOLES : Z := 6.
Definition STATE_UNUSED : Z := 0.
Definition STATE_ZERO : Z := 1.
Definition STATE_STORED : Z := 2.
Definition STATE_BAD_SECTOR : Z := 3.
Definition MAX_MEMBER : Z := 0x3FFF.
Definition ENTRY_LEN : Z := 46.
Definition DELTA_CHUNK_NO_LEN : Z := 8.
Definition DELTA_ENTRY_LEN : Z := ENTRY_LEN + DELTA_CHUNK_NO_LEN.

(** [String::from_utf8]. *)
Definition utf8 (b : bytes) (what : error) : result bytes :=
  if utf8_valid b then Ok b else Err what.

(** A string that fits a 16-bit length prefix. *)
Definition str_ok (s : bytes) : Prop := zlen s < 2 ^ 16 /\ utf8_valid s = true.

Lemma utf8_ok b e : utf8_valid b = true -> utf8 b e = Ok b.
Proof. unfold utf8. by intros ->. Qed.

(** Reading a prefixed string. *)
Lemma codec_str `{ByteSourceLaws Src} {A} (k : bytes -> Src -> result (A * Src)) s e b a :
  str_ok s -> codec (k s) b a ->
  codec (fun r => let* (x, r) := Reader.u16_prefixed r in let* y := utf8 x e in k y r)
    ((le_bytes 2 (zlen s) ++ s) ++ b) a.
Proof.
  intros [Hl Hu] Hk.
  apply (codec_bind Reader.u16_prefixed (fun x r => let* y := utf8 x e in k y r) _ _ s);
    [by apply codec_u16_prefixed|].
  eapply codec_pure; [by apply utf8_ok|done].
Qed.

(** ** The block manifest header *)
Record BlockManifestHeader := {
  bm_chunk_size : Z;
  bm_chunk_count : Z;
  bm_entry_count : Z;
  bm_used_extent_count : Z;
  bm_used_bytes : Z;
  bm_fs_type : bytes;
  bm_fs_uuid : bytes;
  bm_label : bytes;
}.

Module BlockHeader.
Definition write `{ByteSink W} (h : BlockManifestHeader) (delta : bool) (out : W) : result W :=
  let* out := put_u16 MANIFEST_VER out in
  let* out := put_u8 (if delta then SECTION_BLOCK_DELTA else SECTION_BLOCK_FULL) out in
  let* out := put_u8 0 out in
  let* out := put_u32 (bm_chunk_size h) out in
  let* out := put_u64 (bm_chunk_count h) out in
  let* out := put_u64 (bm_entry_count h) out in
  let* out := put_u64 (bm_used_extent_count h) out in
  let* out := put_u64 (bm_used_bytes h) out in
  let* out := put_u16_prefixed (bm_fs_type h) out in
  let* out := put_u16_prefixed (bm_fs_uuid h) out in
  let* out := put_u16_prefixed (bm_label h) out in
  let* out := put_u16 0 out in
  Ok out.

(** The section kind says whether the manifest is a delta. *)
Definition delta_of_kind (kind : Z) : result bool :=
  if kind =? SECTION_BLOCK_FULL then Ok false
  else if kind =? SECTION_BLOCK_DELTA then Ok true
  else Err (Corrupt "expected a block manifest, got {other}").

Definition read `{ByteSource Src} (r : Src) : result ((BlockManifestHeader * bool) * Src) :=
  let* (ver, r) := Reader.u16 r in
  if negb (ver =? MANIFEST_VER) then Err (Corrupt "manifest version {ver}")
  else
    let* (kind, r) := Reader.u8 r in
    let* delta := delta_of_kind kind in
    let* (_, r) := Reader.u8 r in
    let* (chunk_size, r) := Reader.u32 r in
    let* (chunk_count, r) := Reader.u64 r in
    let* (entry_count, r) := Reader.u64 r in
    let* (used_extent_count, r) := Reader.u64 r in
    let* (used_bytes, r) := Reader.u64 r in
    let* (x, r) := Reader.u16_prefixed r in
    let* fs_type := utf8 x (Corrupt "fs_type is not valid UTF-8") in
    let* (x, r) := Reader.u16_prefixed r in
    let* fs_uuid := utf8 x (Corrupt "fs_uuid is not valid UTF-8") in
    let* (x, r) := Reader.u16_prefixed r in
    let* label := utf8 x (Corrupt "label is not valid UTF-8") in
    let* (_, r) := Reader.u16 r in
    Ok (({| bm_chunk_size := chunk_size; bm_chunk_count := chunk_count;
            bm_entry_count := entry_count; bm_used_extent_count := used_extent_count;
            bm_used_bytes := used_bytes; bm_fs_type := fs_type; bm_fs_uuid := fs_uuid;
            bm_label := label |}, delta), r).

Record ok (h : BlockManifestHeader) : Prop := {
  ok_chunk_size : u32_ok (bm_chunk_size h);
  ok_chunk_count : u64_ok (bm_chunk_count h);
  ok_entry_count : u64_ok (bm_entry_count h);
  ok_extents : u64_ok (bm_used_extent_count h);
  ok_used : u64_ok (bm_used_bytes h);
  ok_fs_type : str_ok (bm_fs_type h);
  ok_fs_uuid : str_ok (bm_fs_uuid h);
  ok_label : str_ok (bm_label h);
}.

Definition enc (h : BlockManifestHeader) (delta : bool) : bytes :=
  le_bytes 2 MANIFEST_VER ++
  le_bytes 1 (if delta then SECTION_BLOCK_DELTA else SECTION_BLOCK_FULL) ++
  le_bytes 1 0 ++ le_bytes 4 (bm_chunk_size h) ++ le_bytes 8 (bm_chunk_count h) ++
  le_bytes 8 (bm_entry_count h) ++ le_bytes 8 (bm_used_extent_count h) ++
  le_bytes 8 (bm_used_bytes h) ++
  (le_bytes 2 (zlen (bm_fs_type h)) ++ bm_fs_type h) ++
  (le_bytes 2 (zlen (bm_fs_uuid h)) ++ bm_fs_uuid h) ++
  (le_bytes 2 (zlen (bm_label h)) ++ bm_label h) ++ le_bytes 2 0.

Lemma header_write_emits `{ByteSinkLaws W} h delta : ok h -> emits (write h delta) (enc h delta).
Proof.
  intros [? ? ? ? ? [] [] []]. unfold write, enc. repeat emits_step.
Qed.

Lemma header_read_codec `{ByteSourceLaws Src} h delta : ok h -> codec read (enc h delta) (h, delta).
Proof.
  intros []. unfold read, enc. destruct delta; repeat first [apply codec_str; [done|] | codec_step].
  all: destruct h; apply codec_ret.
Qed.
End BlockHeader.

(** ** Entries *)
Record BlockEntry := {
  be_state : Z;
  be_member : Z;
  be_hash : bytes;
  be_offset : Z;
  be_stored_len : Z;
}.

#[export] Instance block_entry_eq_dec : EqDecision BlockEntry.
Proof. solve_decision. Defined.

Module Entry.
Definition unused : BlockEntry :=
  {| be_state := STATE_UNUSED; be_member := 0; be_hash := zrep 32 Byte.x00; be_offset := 0;
     be_stored_len := 0 |}.

Definition zero : BlockEntry :=
  {| be_state := STATE_ZERO; be_member := 0; be_hash := zrep 32 Byte.x00; be_offset := 0;
     be_stored_len := 0 |}.

Definition stored (member : Z) (hash : bytes) (offset stored_len : Z) : result BlockEntry :=
  if MAX_MEMBER <? member then Err (Unsupported "chain member index {member} exceeds {MAX_MEMBER}")
  else Ok {| be_state := STATE_STORED; be_member := member; be_hash := hash;
             be_offset := offset; be_stored_len := stored_len |}.

Definition bad_sector (offset len : Z) : BlockEntry :=
  {| be_state := STATE_BAD_SECTOR; be_member := 0; be_hash := zrep 32 Byte.x00;
     be_offset := offset; be_stored_len := len |}.

Definition is_stored (e : BlockEntry) : bool := be_state e =? STATE_STORED.

(** Two bits of state over fourteen of member. *)
Definition packed (e : BlockEntry) : Z :=
  Z.lor (Z.land (be_member e) MAX_MEMBER) (Z.shiftl (be_state e) 14).

Definition fields (e : BlockEntry) : list (Z * bytes) :=
  [ (0, be_hash e);
    (32, le_bytes 2 (packed e));
    (34, le_bytes 8 (be_offset e));
    (42, le_bytes 4 (be_stored_len e)) ].

Definition encode (e : BlockEntry) : result bytes :=
  if STATE_BAD_SECTOR <? be_state e then Err (Corrupt "unknown chunk state {}")
  else if MAX_MEMBER <? be_member e then Err (Corrupt "member index {} too large")
  else Ok (write_fields (fields e) (zrep ENTRY_LEN Byte.x00)).

(** [b] is a [[u8; ENTRY_LEN]]. *)
Definition decode (b : bytes) : result BlockEntry :=
  let* packed := slice_u16 (zdrop 32 b) in
  let state := Z.shiftr packed 14 in
  if STATE_BAD_SECTOR <? state then Err (Corrupt "unknown chunk state {state}")
  else
    let* offset := slice_u64 (zdrop 34 b) in
    let* stored_len := slice_u32 (zdrop 42 b) in
    Ok {| be_state := state; be_member := Z.land packed MAX_MEMBER; be_hash := ztake 32 b;
          be_offset := offset; be_stored_len := stored_len |}.

Definition write `{ByteSink W} (e : BlockEntry) (out : W) : result W :=
  let* b := encode e in write_bytes out b.

Definition read `{ByteSource Src} (r : Src) : result (BlockEntry * Src) :=
  let* (b, r) := Reader.array ENTRY_LEN r in
  let* e := decode b in
  Ok (e, r).

(** The types, and what [encode] accepts. *)
Record ok (e : BlockEntry) : Prop := {
  ok_state : 0 <= be_state e <= STATE_BAD_SECTOR;
  ok_member : 0 <= be_member e <= MAX_MEMBER;
  ok_hash : zlen (be_hash e) = 32;
  ok_offset : u64_ok (be_offset e);
  ok_len : u32_ok (be_stored_len e);
}.

Definition enc (e : BlockEntry) : bytes :=
  be_hash e ++ le_bytes 2 (packed e) ++ le_bytes 8 (be_offset e) ++ le_bytes 4 (be_stored_len e).

Lemma land_member m : Z.land m MAX_MEMBER = m mod 2 ^ 14.
Proof. change MAX_MEMBER with (Z.ones 14). by apply Z.land_ones. Qed.

Lemma packed_eq e : ok e -> packed e = be_member e + 2 ^ 14 * be_state e.
Proof.
  intros [[Hs _] [Hm Hmx] _ _ _]. unfold packed. rewrite land_member.
  change MAX_MEMBER with 16383 in Hmx. rewrite Z.mod_small by lia. apply lor_shiftl; lia.
Qed.

Lemma packed_range e : ok e -> u16_ok (packed e).
Proof.
  intros He. rewrite packed_eq by done. destruct He as [[? Hs] [? Hm] _ _ _].
  change MAX_MEMBER with 16383 in Hm. change STATE_BAD_SECTOR with 3 in Hs. unfold u16_ok. lia.
Qed.

Lemma zlen_enc e : ok e -> zlen (enc e) = ENTRY_LEN.
Proof. intros []. unfold enc. rewrite !zlen_app, !zlen_le_bytes. unfold ENTRY_LEN. lia. Qed.

Lemma enc_fields e : enc e = fields_bytes (fields e).
Proof. unfold enc, fields_bytes, fields. cbn [map concat snd]. by rewrite app_nil_r. Qed.

Lemma entry_fields_contiguous e : ok e -> contiguous 0 (fields e).
Proof.
  intros [_ _ Hh _ _]. cbn [contiguous fields]. rewrite !zlen_le_bytes, Hh. repeat split.
Qed.

Lemma enc_field e off v n :
  ok e -> In (off, v) (fields e) -> n = zlen v -> sub off n (enc e) = v.
Proof.
  intros He Hin Hn. rewrite enc_fields, <- (app_nil_r (fields_bytes _)).
  apply (contiguous_sub _ []); [by apply entry_fields_contiguous|done..].
Qed.

Lemma encode_enc e : ok e -> encode e = Ok (enc e).
Proof.
  intros He. pose proof (zlen_enc e He) as Hl. pose proof He as [[? Hs] [? Hm] _ _ _].
  unfold encode. rewrite !(proj2 (Z.ltb_ge _ _)) by done. f_equal.
  etransitivity; [apply (write_fields_contiguous (fields e) [] ENTRY_LEN)|];
    rewrite <- ?enc_fields.
  - by apply entry_fields_contiguous.
  - by rewrite Hl.
  - rewrite Hl. cbn [app]. by rewrite app_nil_r.
Qed.

Lemma decode_enc e : ok e -> decode (enc e) = Ok e.
Proof.
  intros He. pose proof (zlen_enc e He) as Hl. pose proof (packed_range e He) as Hp.
  pose proof (packed_eq e He) as Hpe. pose proof He as [[? Hs] [? Hm] Hh Ho Hsl].
  unfold decode, ENTRY_LEN in *. rewrite slice_u16_zdrop, slice_u64_zdrop, slice_u32_zdrop by lia.
  rewrite <- sub_0.
  rewrite (enc_field e 0 (be_hash e)), (enc_field e 32 (le_bytes 2 (packed e))),
    (enc_field e 34 (le_bytes 8 (be_offset e))), (enc_field e 42 (le_bytes 4 (be_stored_len e)))
    by (done || (cbn; tauto)).
  cbn [bind]. rewrite !le_val_bytes_small by done. rewrite land_member, Z.shiftr_div_pow2 by done.
  change MAX_MEMBER with 16383 in Hm. rewrite Hpe.
  rewrite (Z.mul_comm (2 ^ 14)), Z.div_add, Z.mod_add, Z.div_small, Z.mod_small by lia.
  rewrite (proj2 (Z.ltb_ge _ _)) by (cbn; lia). by destruct e.
Qed.

(** Every 46-byte string whose bytes are read is the encoding of what is
    read: all four values of the state bits are states. *)
Lemma entry_decode_Ok b e : zlen b = ENTRY_LEN -> decode b = Ok e -> ok e /\ b = enc e.
Proof.
  unfold ENTRY_LEN. intros Hb Hd. unfold decode in Hd.
  rewrite slice_u16_zdrop, slice_u64_zdrop, slice_u32_zdrop in Hd by lia. cbn [bind] in Hd.
  case_match; [done|]. injection Hd as <-. bprop.
  pose proof (le_val_bound (sub 32 2 b)) as H2. pose proof (le_val_bound (sub 34 8 b)) as H8.
  pose proof (le_val_bound (sub 42 4 b)) as H4. rewrite zlen_sub in H2, H4, H8 by lia.
  set (p := le_val (sub 32 2 b)) in *. rewrite land_member.
  assert (0 <= Z.shiftr p 14) as Hsh by (apply Z.shiftr_nonneg; lia).
  pose proof (Z.mod_pos_bound p (2 ^ 14)) as Hmod.
  match goal with |- ok ?e /\ _ => assert (ok e) as Hok end.
  { split; cbn; [lia|change MAX_MEMBER with 16383; lia|rewrite zlen_ztake; lia|done|done]. }
  split; [done|]. unfold enc. rewrite packed_eq by done. cbn.
  rewrite Z.shiftr_div_pow2 by done. rewrite Z.add_comm, <- Z.div_mod by done. unfold p.
  rewrite !le_bytes_val_z by (apply zlen_sub; lia). rewrite <- sub_0. merge_subs.
  symmetry. by apply sub_all.
Qed.

Lemma entry_write_emits `{ByteSinkLaws W} e : ok e -> emits (write e) (enc e).
Proof. intros He out _. unfold write. by rewrite encode_enc. Qed.

Lemma entry_read_codec `{ByteSourceLaws Src} e : ok e -> codec read (enc e) e.
Proof.
  intros He. unfold read. apply codec_tail. eapply codec_bind.
  - apply codec_array. by apply zlen_enc.
  - eapply codec_pure; [by apply decode_enc|]. apply codec_ret.
Qed.
End Entry.

#[export] Hint Resolve Entry.entry_write_emits : emits.
#[export] Hint Resolve Entry.entry_read_codec : codec.

Record DeltaEntry := { de_chunk_no : Z; de_entry : BlockEntry }.

Module Delta.
Definition write `{ByteSink W} (d : DeltaEntry) (out : W) : result W :=
  let* out := put_u64 (de_chunk_no d) out in
  Entry.write (de_entry d) out.

Definition read `{ByteSource Src} (r : Src) : result (DeltaEntry * Src) :=
  let* (chunk_no, r) := Reader.u64 r in
  let* (entry, r) := Entry.read r in
  Ok ({| de_chunk_no := chunk_no; de_entry := entry |}, r).

Definition ok (d : DeltaEntry) : Prop := u64_ok (de_chunk_no d) /\ Entry.ok (de_entry d).
Definition enc (d : DeltaEntry) : bytes := le_bytes 8 (de_chunk_no d) ++ Entry.enc (de_entry d).

Lemma delta_write_emits `{ByteSinkLaws W} d : ok d -> emits (write d) (enc d).
Proof. intros [? ?]. unfold write, enc. emits_step. by apply Entry.entry_write_emits. Qed.

Lemma delta_read_codec `{ByteSourceLaws Src} d : ok d -> codec read (enc d) d.
Proof. intros [? ?]. unfold read, enc. repeat codec_step. destruct d. apply codec_ret. Qed.
End Delta.

(** ** Applying a delta *)
Inductive ChunkState :=
  | Unused
  | Zero
  | Stored (member : Z) (hash : bytes) (offset stored_len : Z)
  | BadSector.

#[export] Instance chunk_state_eq_dec : EqDecision ChunkState.
Proof. solve_decision. Defined.

Module ChunkStates.
Definition of_entry (e : BlockEntry) : ChunkState :=
  if be_state e =? STATE_STORED then
    Stored (be_member e) (be_hash e) (be_offset e) (be_stored_len e)
  else if be_state e =? STATE_ZERO then Zero
  else if be_state e =? STATE_BAD_SECTOR then BadSector
  else Unused.

(** [parent] is mutated in place: the entries before a bad one have taken
    effect when the error is returned. *)
Fixpoint apply_delta (parent : list ChunkState) (delta : list DeltaEntry) :
    list ChunkState * result unit :=
  match delta with
  | [] => (parent, Ok tt)
  | entry :: delta =>
    let index := Z.to_nat (de_chunk_no entry) in
    match parent !! index with
    | None => (parent, Err (Corrupt "delta chunk {} is out of range"))
    | Some _ => apply_delta (<[index := of_entry (de_entry entry)]> parent) delta
    end
  end.

(** The last entry about chunk [k], or what was there. *)
Definition merged (delta : list DeltaEntry) (k : nat) (old : ChunkState) : ChunkState :=
  foldl (fun st d =>
    if decide (Z.to_nat (de_chunk_no d) = k) then of_entry (de_entry d) else st) old delta.

Definition in_range (n : nat) (d : DeltaEntry) : Prop := (Z.to_nat (de_chunk_no d) < n)%nat.

Lemma apply_delta_length parent delta : length (fst (apply_delta parent delta)) = length parent.
Proof.
  revert parent. induction delta as [|d delta IH]; intros parent; [done|]. cbn [apply_delta].
  case_match; [|done]. by rewrite IH, length_insert.
Qed.

Lemma apply_delta_app parent d1 d2 :
  Forall (in_range (length parent)) d1 ->
  apply_delta parent (d1 ++ d2) = apply_delta (fst (apply_delta parent d1)) d2.
Proof.
  intros Hd. revert parent Hd. induction d1 as [|d d1 IH]; intros parent Hd; [done|].
  inversion Hd; subst. cbn [app apply_delta].
  destruct (lookup_lt_is_Some_2 parent (Z.to_nat (de_chunk_no d))) as [x ->]; [done|].
  apply IH. by rewrite length_insert.
Qed.

Lemma apply_delta_Ok parent delta :
  Forall (in_range (length parent)) delta ->
  snd (apply_delta parent delta) = Ok tt /\
  forall k, fst (apply_delta parent delta) !! k = merged delta k <$> parent !! k.
Proof.
  intros Hd. revert parent Hd. induction delta as [|d delta IH]; intros parent Hd.
  - split; [done|]. intros k. cbn. by destruct (parent !! k).
  - inversion Hd as [|? ? Hx Hd']; subst. cbn [apply_delta].
    destruct (lookup_lt_is_Some_2 parent (Z.to_nat (de_chunk_no d))) as [x Hl]; [done|].
    rewrite Hl. destruct (IH (<[Z.to_nat (de_chunk_no d) := of_entry (de_entry d)]> parent)) as [Hr Hk];
      [by rewrite length_insert|].
    split; [done|]. intros k. rewrite Hk.
    destruct (decide (Z.to_nat (de_chunk_no d) = k)) as [<-|Hne].
    + rewrite list_lookup_insert_eq, Hl by done. cbn. by rewrite decide_True.
    + rewrite list_lookup_insert_ne by done. destruct (parent !! k); [|done]. cbn.
      by rewrite decide_False.
Qed.
End ChunkStates.

(** ** Stream sections *)
Record StreamSection := {
  ss_subvolid : Z;
  ss_send_stream_bytes : Z;
  ss_parent_snapshot_uuid : option Id;
  ss_subvol_path : bytes;
  ss_entry_count : Z;
}.

Module StreamSections.
Definition put_parent `{ByteSink W} (parent : option Id) (out : W) : result W :=
  match parent with
  | Some id => let* out := put_u8 1 out in put_id id out
  | None => let* out := put_u8 0 out in put_bytes (zrep 16 Byte.x00) out
  end.

Definition write `{ByteSink W} (s : StreamSection) (out : W) : result W :=
  let* out := put_u16 MANIFEST_VER out in
  let* out := put_u8 SECTION_STREAM_SUBVOL out in
  let* out := put_u8 0 out in
  let* out := put_u64 (ss_subvolid s) out in
  let* out := put_u64 (ss_send_stream_bytes s) out in
  let* out := put_u64 (ss_entry_count s) out in
  let* out := put_parent (ss_parent_snapshot_uuid s) out in
  let* out := put_u16_prefixed (ss_subvol_path s) out in
  Ok out.

Definition parent_of (has_parent : Z) (parent : Id) : result (option Id) :=
  if has_parent =? 0 then Ok None
  else if has_parent =? 1 then Ok (Some parent)
  else Err (Corrupt "has_parent flag {other}").

Definition read `{ByteSource Src} (r : Src) : result (StreamSection * Src) :=
  let* (ver, r) := Reader.u16 r in
  if negb (ver =? MANIFEST_VER) then Err (Corrupt "manifest version {ver}")
  else
    let* (kind, r) := Reader.u8 r in
    if negb (kind =? SECTION_STREAM_SUBVOL) then Err (Corrupt "expected a stream section, got {kind}")
    else
      let* (_, r) := Reader.u8 r in
      let* (subvolid, r) := Reader.u64 r in
      let* (send_stream_bytes, r) := Reader.u64 r in
      let* (entry_count, r) := Reader.u64 r in
      let* (has_parent, r) := Reader.u8 r in
      let* (parent, r) := Reader.id r in
      let* parent_snapshot_uuid := parent_of has_parent parent in
      let* (x, r) := Reader.u16_prefixed r in
      let* subvol_path := utf8 x (Corrupt "subvol_path is not valid UTF-8") in
      Ok ({| ss_subvolid := subvolid; ss_send_stream_bytes := send_stream_bytes;
             ss_parent_snapshot_uuid := parent_snapshot_uuid; ss_subvol_path := subvol_path;
             ss_entry_count := entry_count |}, r).

Record ok (s : StreamSection) : Prop := {
  ok_subvolid : u64_ok (ss_subvolid s);
  ok_bytes : u64_ok (ss_send_stream_bytes s);
  ok_parent : match ss_parent_snapshot_uuid s with Some id => id_ok id | None => True end;
  ok_path : str_ok (ss_subvol_path s);
  ok_entries : u64_ok (ss_entry_count s);
}.

Definition parent_flag (s : StreamSection) : Z :=
  match ss_parent_snapshot_uuid s with Some _ => 1 | None => 0 end.
Definition parent_id (s : StreamSection) : Id :=
  match ss_parent_snapshot_uuid s with Some id => id | None => zrep 16 Byte.x00 end.

Definition enc (s : StreamSection) : bytes :=
  le_bytes 2 MANIFEST_VER ++ le_bytes 1 SECTION_STREAM_SUBVOL ++ le_bytes 1 0 ++
  le_bytes 8 (ss_subvolid s) ++ le_bytes 8 (ss_send_stream_bytes s) ++
  le_bytes 8 (ss_entry_count s) ++ (le_bytes 1 (parent_flag s) ++ parent_id s) ++
  (le_bytes 2 (zlen (ss_subvol_path s)) ++ ss_subvol_path s).

Lemma put_parent_emits `{ByteSinkLaws W} s :
  emits (put_parent (ss_parent_snapshot_uuid s)) (le_bytes 1 (parent_flag s) ++ parent_id s).
Proof.
  unfold put_parent, parent_flag, parent_id. destruct (ss_parent_snapshot_uuid s).
  - by apply (emits_seq _ _ _ _ (emits_put_u8 _) (emits_put_id _)).
  - by apply (emits_seq _ _ _ _ (emits_put_u8 _) (emits_put_bytes _)).
Qed.
#[local] Hint Resolve put_parent_emits : emits.

Lemma section_write_emits `{ByteSinkLaws W} s : ok s -> emits (write s) (enc s).
Proof.
  intros [? ? ? [] ?]. unfold write, enc. repeat emits_step.
Qed.

Lemma section_read_codec `{ByteSourceLaws Src} s : ok s -> codec read (enc s) s.
Proof.
  intros [? ? Hp ? ?]. unfold read, enc.
  assert (id_ok (parent_id s)) as Hid
    by (unfold parent_id; by destruct (ss_parent_snapshot_uuid s)).
  assert (u8_ok (parent_flag s)) as Hfl
    by (unfold parent_flag; by destruct (ss_parent_snapshot_uuid s)).
  rewrite <- app_assoc. repeat codec_step.
  - instantiate (1 := ss_parent_snapshot_uuid s). unfold parent_of, parent_flag, parent_id.
    by destruct (ss_parent_snapshot_uuid s).
  - apply codec_tail, codec_str; [done|]. destruct s. apply codec_ret.
Qed.
End StreamSections.

(** ** Properties *)

(** The two-bit state and the fourteen-bit member index share sixteen
    bits without loss: every valid entry encodes to 46 bytes that decode to
    it, every 46-byte string decodes (there is no fifth state) to a valid entry
    whose encoding is that string, and an entry outside the ranges is refused. *)
Theorem block_entry_exact (e : BlockEntry) (b : bytes) :
  (Entry.ok e -> exists b, Entry.encode e = Ok b /\ zlen b = ENTRY_LEN /\ Entry.decode b = Ok e) /\
  (zlen b = ENTRY_LEN -> exists e', Entry.decode b = Ok e' /\ Entry.ok e' /\ Entry.encode e' = Ok b) /\
  (STATE_BAD_SECTOR < be_state e \/ MAX_MEMBER < be_member e ->
   exists what, Entry.encode e = Err (Corrupt what)).
Proof.
  split_and!.
  - intros He. exists (Entry.enc e).
    split_and!; [by apply Entry.encode_enc|by apply Entry.zlen_enc|by apply Entry.decode_enc].
  - intros Hb. destruct (Entry.decode b) as [e'|err] eqn:Hd.
    + destruct (Entry.entry_decode_Ok b e' Hb Hd) as [He ->]. exists e'.
      split_and!; [done|done|by apply Entry.encode_enc].
    + exfalso. unfold Entry.decode in Hd. unfold ENTRY_LEN in Hb.
      rewrite slice_u16_zdrop, slice_u64_zdrop, slice_u32_zdrop in Hd by lia. cbn [bind] in Hd.
      pose proof (le_val_bound (sub 32 2 b)) as Hv. rewrite zlen_sub in Hv by lia.
      case_match eqn:Hs; [|done]. bprop. rewrite Z.shiftr_div_pow2 in Hs by done.
      change STATE_BAD_SECTOR with 3 in Hs.
      assert (le_val (sub 32 2 b) / 2 ^ 14 < 4) by (apply Z.div_lt_upper_bound; lia). lia.
  - intros Hbad. unfold Entry.encode. destruct (Z.ltb_spec STATE_BAD_SECTOR (be_state e)); [by eauto|].
    rewrite (proj2 (Z.ltb_lt _ _)) by (destruct Hbad; lia). eauto.
Qed.

(** Every record of the manifest stream - block header, entry, delta entry,
    subvolume section - reads back, over any byte source, from exactly the
    bytes it writes to any byte sink; a source that ends inside the record is
    reported as corrupt. *)
Theorem manifest_records_roundtrip `{ByteSinkLaws W} `{ByteSourceLaws Src}
    h delta (e : BlockEntry) (d : DeltaEntry) (s : StreamSection) :
  (BlockHeader.ok h -> exists b,
    emits (W := W) (BlockHeader.write h delta) b /\ codec (Src := Src) BlockHeader.read b (h, delta)) /\
  (Entry.ok e -> exists b, zlen b = ENTRY_LEN /\
    emits (W := W) (Entry.write e) b /\ codec (Src := Src) Entry.read b e) /\
  (Delta.ok d -> exists b, zlen b = DELTA_ENTRY_LEN /\
    emits (W := W) (Delta.write d) b /\ codec (Src := Src) Delta.read b d) /\
  (StreamSections.ok s -> exists b,
    emits (W := W) (StreamSections.write s) b /\ codec (Src := Src) StreamSections.read b s).
Proof.
  split_and!; intros Hok; eexists; split_and!.
  - by apply BlockHeader.header_write_emits.
  - by apply BlockHeader.header_read_codec.
  - by apply Entry.zlen_enc.
  - by apply Entry.entry_write_emits.
  - by apply Entry.entry_read_codec.
  - instantiate (1 := Delta.enc d). unfold Delta.enc. destruct Hok.
    by rewrite zlen_app, zlen_le_bytes, Entry.zlen_enc.
  - by apply Delta.delta_write_emits.
  - by apply Delta.delta_read_codec.
  - by apply StreamSections.section_write_emits.
  - by apply StreamSections.section_read_codec.
Qed.

(** Applying a delta keeps the number of chunks; when every entry is in
    range it succeeds and each chunk is what the last entry about it says, or
    what it was; at the first entry out of range it reports corruption with
    exactly the entries before it applied. *)
Theorem apply_delta_spec (parent : list ChunkState) (delta : list DeltaEntry) :
  length (fst (ChunkStates.apply_delta parent delta)) = length parent /\
  (Forall (ChunkStates.in_range (length parent)) delta ->
    snd (ChunkStates.apply_delta parent delta) = Ok tt /\
    forall k, fst (ChunkStates.apply_delta parent delta) !! k =
      ChunkStates.merged delta k <$> parent !! k) /\
  (forall pre d post, delta = pre ++ d :: post ->
    Forall (ChunkStates.in_range (length parent)) pre ->
    ~ ChunkStates.in_range (length parent) d ->
    (exists what, snd (ChunkStates.apply_delta parent delta) = Err (Corrupt what)) /\
    fst (ChunkStates.apply_delta parent delta) = fst (ChunkStates.apply_delta parent pre)).
Proof.
  split_and!; [apply ChunkStates.apply_delta_length|apply ChunkStates.apply_delta_Ok|].
  intros pre d post -> Hpre Hd. rewrite ChunkStates.apply_delta_app by done.
  cbn [ChunkStates.apply_delta]. destruct (_ !! Z.to_nat (de_chunk_no d)) eqn:Hl; [|by eauto].
  apply lookup_lt_Some in Hl. rewrite ChunkStates.apply_delta_length in Hl. by destruct Hd.
Qed.
