(* ===== verification/Disk.v ===== *)
(** * Whole-disk manifests ([crates/lr-format/src/disk.rs]) *)

From S2P Require Import Prelude Core Wire Superblock Manifest.

Definition SECTION_DISK_HEADER : Z := 6.
Definition DISK_MANIFEST_VER : Z := 1.
Definition MAX_LEADING_BYTES : Z := 16 * 1024 * 1024.
Definition PT_RAW_BYTES : Z := 1024 * 1024.
Definition SWAP_HEADER_BYTES : Z := 4096.

Module RegionFlags.
Definition HAS_MANIFEST : Z := 1.
Definition BOOTABLE : Z := 2.
End RegionFlags.

Inductive PtType := PtNone | PtGpt | PtMbr.

Module PtTypes.
Definition as_u8 (t : PtType) : Z := match t with PtNone => 0 | PtGpt => 1 | PtMbr => 2 end.
Definition from_u8 (v : Z) : result PtType :=
  match v with
  | 0 => Ok PtNone
  | 1 => Ok PtGpt
  | 2 => Ok PtMbr
  | _ => Err (Corrupt "unknown partition table type {other}")
  end.
Lemma pt_type_from_as_u8 t : from_u8 (as_u8 t) = Ok t.
Proof. by destruct t. Qed.
End PtTypes.

Inductive RegionKind := Leading | PartitionFs | PartitionRaw | Swap.

Module RegionKinds.
Definition as_u8 (k : RegionKind) : Z :=
  match k with Leading => 1 | PartitionFs => 2 | PartitionRaw => 3 | Swap => 4 end.
Definition from_u8 (v : Z) : result RegionKind :=
  match v with
  | 1 => Ok Leading
  | 2 => Ok PartitionFs
  | 3 => Ok PartitionRaw
  | 4 => Ok Swap
  | _ => Err (Corrupt "unknown region kind {other}")
  end.
Definition has_manifest (k : RegionKind) : bool := match k with Swap => false | _ => true end.
Lemma region_kind_from_as_u8 k : from_u8 (as_u8 k) = Ok k.
Proof. by destruct k. Qed.
End RegionKinds.

Record RegionRecord := {
  rg_kind : RegionKind;
  rg_consistency : Consistency;
  rg_bootable : bool;
  rg_index : Z;
  rg_start_lba : Z;
  rg_size_bytes : Z;
  rg_type_guid : bytes;
  rg_partuuid : bytes;
  rg_fs_type : bytes;
  rg_fs_uuid : bytes;
  rg_fs_label : bytes;
  rg_swap_header : bytes;
}.

Module Region.
Definition new (kind : RegionKind) (index start_lba size_bytes : Z) : RegionRecord :=
  {| rg_kind := kind; rg_consistency := Offline; rg_bootable := false; rg_index := index;
     rg_start_lba := start_lba; rg_size_bytes := size_bytes; rg_type_guid := [];
     rg_partuuid := []; rg_fs_type := []; rg_fs_uuid := []; rg_fs_label := [];
     rg_swap_header := [] |}.

Definition has_manifest (r : RegionRecord) : bool := RegionKinds.has_manifest (rg_kind r).

Definition flags (r : RegionRecord) : Z :=
  let flags := 0 in
  let flags := if has_manifest r then Z.lor flags RegionFlags.HAS_MANIFEST else flags in
  if rg_bootable r then Z.lor flags RegionFlags.BOOTABLE else flags.

Definition write `{ByteSink W} (r : RegionRecord) (out : W) : result W :=
  let* out := put_u16 DISK_MANIFEST_VER out in
  let* out := put_u8 (RegionKinds.as_u8 (rg_kind r)) out in
  let* out := put_u8 (Consistencies.as_u8 (rg_consistency r)) out in
  let* out := put_u32 (flags r) out in
  let* out := put_u32 (rg_index r) out in
  let* out := put_u64 (rg_start_lba r) out in
  let* out := put_u64 (rg_size_bytes r) out in
  let* out := put_u16_prefixed (rg_type_guid r) out in
  let* out := put_u16_prefixed (rg_partuuid r) out in
  let* out := put_u16_prefixed (rg_fs_type r) out in
  let* out := put_u16_prefixed (rg_fs_uuid r) out in
  let* out := put_u16_prefixed (rg_fs_label r) out in
  let* out := put_u32 (zlen (rg_swap_header r) mod 2 ^ 32) out in
  let* out := put_bytes (rg_swap_header r) out in
  Ok out.

Definition read `{ByteSource Src} (s : Src) : result (RegionRecord * Src) :=
  let* (ver, s) := Reader.u16 s in
  if negb (ver =? DISK_MANIFEST_VER) then Err (Corrupt "region record version {ver}")
  else
    let* (k, s) := Reader.u8 s in
    let* kind := RegionKinds.from_u8 k in
    let* (c, s) := Reader.u8 s in
    let* consistency := Consistencies.from_u8 c in
    let* (flags, s) := Reader.u32 s in
    if negb (Z.land flags (U32_MAX - Z.lor RegionFlags.HAS_MANIFEST RegionFlags.BOOTABLE) =? 0) then
      Err (Corrupt "unknown region flags 0x{flags:08X}")
    else if negb (Bool.eqb (SbFlags.has flags RegionFlags.HAS_MANIFEST) (RegionKinds.has_manifest kind)) then
      Err (Corrupt "region kind {kind:?} disagrees with its manifest flag")
    else
      let* (index, s) := Reader.u32 s in
      let* (start_lba, s) := Reader.u64 s in
      let* (size_bytes, s) := Reader.u64 s in
      let* (x, s) := Reader.u16_prefixed s in
      let* type_guid := utf8 x (Corrupt "type_guid is not valid UTF-8") in
      let* (x, s) := Reader.u16_prefixed s in
      let* partuuid := utf8 x (Corrupt "partuuid is not valid UTF-8") in
      let* (x, s) := Reader.u16_prefixed s in
      let* fs_type := utf8 x (Corrupt "fs_type is not valid UTF-8") in
      let* (x, s) := Reader.u16_prefixed s in
      let* fs_uuid := utf8 x (Corrupt "fs_uuid is not valid UTF-8") in
      let* (x, s) := Reader.u16_prefixed s in
      let* fs_label := utf8 x (Corrupt "fs_label is not valid UTF-8") in
      let* (swap_len, s) := Reader.u32 s in
      if SWAP_HEADER_BYTES <? swap_len then
        Err (Corrupt "region {index} declares a {swap_len} byte swap header, limit {SWAP_HEADER_BYTES}")
      else
        let* (swap_header, s) := Reader.bytes swap_len s in
        Ok ({| rg_kind := kind; rg_consistency := consistency;
               rg_bootable := SbFlags.has flags RegionFlags.BOOTABLE; rg_index := index;
               rg_start_lba := start_lba; rg_size_bytes := size_bytes;
               rg_type_guid := type_guid; rg_partuuid := partuuid; rg_fs_type := fs_type;
               rg_fs_uuid := fs_uuid; rg_fs_label := fs_label; rg_swap_header := swap_header |}, s).

(** The [while] loop of [chunks]; [u64] sums and the start wrap. *)
Fixpoint chunk_loop (fuel : nat) (start size chunk_size offset : Z) (acc : list (Z * Z)) :
    result (list (Z * Z)) :=
  if offset <? size then
    match fuel with
    | O => Err (Unsupported "chunks: out of fuel")
    | S fuel =>
      let len := Z.min chunk_size (size - offset) in
      chunk_loop fuel start size chunk_size ((offset + chunk_size) mod 2 ^ 64)
        (acc ++ [((start + offset) mod 2 ^ 64, if len <=? U32_MAX then len else U32_MAX)])
    end
  else Ok acc.

Definition chunks (r : RegionRecord) (chunk_size logical_block_size : Z) : result (list (Z * Z)) :=
  if chunk_size =? 0 then Err (Corrupt "chunk size must not be zero")
  else
    let start := wrapping_mul (rg_start_lba r) logical_block_size in
    chunk_loop (Z.to_nat (div_ceil (rg_size_bytes r) chunk_size)) start (rg_size_bytes r) chunk_size 0 [].

Definition chunk_count (r : RegionRecord) (chunk_size : Z) : result Z :=
  if chunk_size =? 0 then Err (Corrupt "chunk size must not be zero")
  else Ok (div_ceil (rg_size_bytes r) chunk_size).

Record ok (r : RegionRecord) : Prop := {
  ok_index : u32_ok (rg_index r);
  ok_start : u64_ok (rg_start_lba r);
  ok_size : u64_ok (rg_size_bytes r);
  ok_type_guid : str_ok (rg_type_guid r);
  ok_partuuid : str_ok (rg_partuuid r);
  ok_fs_type : str_ok (rg_fs_type r);
  ok_fs_uuid : str_ok (rg_fs_uuid r);
  ok_fs_label : str_ok (rg_fs_label r);
  ok_swap : zlen (rg_swap_header r) <= SWAP_HEADER_BYTES;
}.

Definition enc (r : RegionRecord) : bytes :=
  le_bytes 2 DISK_MANIFEST_VER ++ le_bytes 1 (RegionKinds.as_u8 (rg_kind r)) ++
  le_bytes 1 (Consistencies.as_u8 (rg_consistency r)) ++ le_bytes 4 (flags r) ++
  le_bytes 4 (rg_index r) ++ le_bytes 8 (rg_start_lba r) ++ le_bytes 8 (rg_size_bytes r) ++
  (le_bytes 2 (zlen (rg_type_guid r)) ++ rg_type_guid r) ++
  (le_bytes 2 (zlen (rg_partuuid r)) ++ rg_partuuid r) ++
  (le_bytes 2 (zlen (rg_fs_type r)) ++ rg_fs_type r) ++
  (le_bytes 2 (zlen (rg_fs_uuid r)) ++ rg_fs_uuid r) ++
  (le_bytes 2 (zlen (rg_fs_label r)) ++ rg_fs_label r) ++
  le_bytes 4 (zlen (rg_swap_header r) mod 2 ^ 32) ++ rg_swap_header r.

Lemma region_write_emits `{ByteSinkLaws W} r : ok r -> emits (write r) (enc r).
Proof. intros [? ? ? [] [] [] [] [] ?]. unfold write, enc. repeat emits_step. Qed.

Lemma region_read_codec `{ByteSourceLaws Src} r : ok r -> codec read (enc r) r.
Proof.
  intros []. pose proof (zlen_nonneg (rg_swap_header r)) as Hz. unfold SWAP_HEADER_BYTES in *.
  assert (u8_ok (RegionKinds.as_u8 (rg_kind r))) by (by destruct (rg_kind r)).
  assert (u8_ok (Consistencies.as_u8 (rg_consistency r))) by (by destruct (rg_consistency r)).
  assert (u32_ok (flags r)) by (unfold flags; by destruct (has_manifest r), (rg_bootable r)).
  unfold read, enc. rewrite Z.mod_small by lia.
  codec_step. codec_step. codec_step.
  codec_step; [by apply RegionKinds.region_kind_from_as_u8|].
  codec_step. codec_step; [by apply Consistencies.consistency_from_as_u8|]. codec_step.
  codec_step; [unfold flags; by destruct (has_manifest r), (rg_bootable r)|].
  codec_step; [unfold flags, has_manifest; by destruct (rg_kind r), (rg_bootable r)|].
  repeat first [apply codec_str; [done|] | codec_step].
  - apply Z.ltb_ge. done.
  - replace (SbFlags.has (flags r) RegionFlags.BOOTABLE) with (rg_bootable r)
      by (unfold flags; by destruct (has_manifest r), (rg_bootable r)).
    destruct r. apply codec_ret.
Qed.
End Region.

#[export] Hint Resolve Region.region_write_emits : emits.
#[export] Hint Resolve Region.region_read_codec : codec.

(** *** The chunks of a region *)
Module Tiling.
Definition tile (start size chunk_size i : Z) : Z * Z :=
  (start + i * chunk_size, Z.min chunk_size (size - i * chunk_size)).

Lemma chunk_loop_tiles n : forall start size cs i acc,
  0 < cs <= U32_MAX -> 0 <= start -> 0 <= i -> 0 <= size -> start + size <= U64_MAX ->
  size + cs <= 2 ^ 64 -> i + Z.of_nat n = div_ceil size cs ->
  Region.chunk_loop n start size cs (i * cs) acc =
  Ok (acc ++ map (tile start size cs) (seqZ i (Z.of_nat n))).
Proof.
  unfold U64_MAX. induction n as [|n IH]; intros start size cs i acc Hcs Hst Hi Hsz Hu Hw Hn.
  all: pose proof (div_ceil_spec size cs Hsz ltac:(lia)) as Hd.
  - cbn [Region.chunk_loop]. rewrite (proj2 (Z.ltb_ge _ _)); [by rewrite app_nil_r|].
    replace i with (div_ceil size cs) by lia. lia.
  - assert (i * cs < size) as Hlt by nia.
    cbn [Region.chunk_loop]. rewrite (proj2 (Z.ltb_lt _ _)) by done.
    assert ((i * cs + cs) mod 2 ^ 64 = (i + 1) * cs) as ->.
    { destruct (Z.eq_dec (i * cs + cs) (2 ^ 64)) as [He|]; [|rewrite Z.mod_small by nia; lia].
      exfalso. nia. }
    rewrite (Z.mod_small (start + _)) by nia.
    rewrite (proj2 (Z.leb_le _ _)) by lia.
    rewrite IH by (done || lia). rewrite <- app_assoc. do 2 f_equal.
    rewrite (seqZ_cons i) by lia. cbn [map app]. unfold tile. do 2 f_equal. f_equal; lia.
Qed.

Lemma chunks_tiles r cs lbs :
  Region.ok r -> 0 < cs <= U32_MAX -> 0 <= lbs ->
  rg_start_lba r * lbs + rg_size_bytes r <= U64_MAX -> rg_size_bytes r + cs < 2 ^ 64 ->
  Region.chunks r cs lbs =
  Ok (map (tile (rg_start_lba r * lbs) (rg_size_bytes r) cs) (seqZ 0 (div_ceil (rg_size_bytes r) cs))).
Proof.
  intros [_ [Hs _] [Hz _] _ _ _ _ _ _] Hcs Hl Hu Hw. unfold Region.chunks.
  rewrite (proj2 (Z.eqb_neq _ _)) by lia. unfold wrapping_mul, U64_MAX in *.
  rewrite Z.mod_small by nia.
  pose proof (div_ceil_spec _ cs Hz ltac:(lia)).
  assert (0 <= div_ceil (rg_size_bytes r) cs) by nia.
  rewrite (chunk_loop_tiles _ _ _ _ 0) by (unfold U64_MAX; lia || nia).
  by rewrite Z2Nat.id.
Qed.
End Tiling.

(** ** The disk header *)
Record DiskHeader := {
  dh_disk_size : Z;
  dh_logical_block_size : Z;
  dh_pt_type : PtType;
  dh_serial_wwid : bytes;
  dh_pt_raw : bytes;
  dh_regions : list RegionRecord;
}.

Module DiskHeaders.
(** The loop of checks in [write]. *)
Fixpoint check_regions (regions : list RegionRecord) (lbs disk_size : Z) : result unit :=
  match regions with
  | [] => Ok tt
  | region :: regions =>
    let* end_ := ok_or
      (match checked_mul (rg_start_lba region) lbs with
       | Some start => checked_add start (rg_size_bytes region)
       | None => None
       end) (Corrupt "region {} overflows") in
    if disk_size <? end_ then Err (Corrupt "region {} ends at {end}, past the disk size {}")
    else if SWAP_HEADER_BYTES <? zlen (rg_swap_header region) then
      Err (Corrupt "swap header larger than 4 KiB")
    else check_regions regions lbs disk_size
  end.

Definition write_checks (h : DiskHeader) : result unit :=
  if (dh_logical_block_size h =? 0) || negb (is_power_of_two (dh_logical_block_size h)) then
    Err (Corrupt "implausible logical block size {}")
  else if PT_RAW_BYTES <? zlen (dh_pt_raw h) then
    Err (Corrupt "pt_raw is {} bytes, at most {PT_RAW_BYTES} are allowed")
  else check_regions (dh_regions h) (dh_logical_block_size h) (dh_disk_size h).

Definition write `{ByteSink W} (h : DiskHeader) (out : W) : result W :=
  write_checks h;;;
  let* out := put_u16 DISK_MANIFEST_VER out in
  let* out := put_u8 SECTION_DISK_HEADER out in
  let* out := put_u8 0 out in
  let* out := put_u64 (dh_disk_size h) out in
  let* out := put_u32 (dh_logical_block_size h) out in
  let* out := put_u8 (PtTypes.as_u8 (dh_pt_type h)) out in
  let* out := put_bytes (zrep 3 Byte.x00) out in
  let* out := put_u16_prefixed (dh_serial_wwid h) out in
  let* out := put_u32 (zlen (dh_pt_raw h) mod 2 ^ 32) out in
  let* out := put_bytes (dh_pt_raw h) out in
  let* out := put_u64 (zlen (dh_regions h)) out in
  let* out := put_all Region.write (dh_regions h) out in
  Ok out.

Definition read `{ByteSource Src} (s : Src) : result (DiskHeader * Src) :=
  let* (ver, s) := Reader.u16 s in
  if negb (ver =? DISK_MANIFEST_VER) then Err (Corrupt "disk header version {ver}")
  else
    let* (kind, s) := Reader.u8 s in
    if negb (kind =? SECTION_DISK_HEADER) then
      Err (Corrupt "expected a whole-disk header, got section kind {kind}")
    else
      let* (_, s) := Reader.u8 s in
      let* (disk_size, s) := Reader.u64 s in
      let* (logical_block_size, s) := Reader.u32 s in
      if (logical_block_size =? 0) || negb (is_power_of_two logical_block_size) then
        Err (Corrupt "implausible logical block size {logical_block_size}")
      else
        let* (pt, s) := Reader.u8 s in
        let* pt_type := PtTypes.from_u8 pt in
        let* (_, s) := Reader.array 3 s in
        let* (x, s) := Reader.u16_prefixed s in
        let* serial_wwid := utf8 x (Corrupt "serial_wwid is not valid UTF-8") in
        let* (pt_raw_len, s) := Reader.u32 s in
        if PT_RAW_BYTES <? pt_raw_len then
          Err (Corrupt "pt_raw is {pt_raw_len} bytes, at most {PT_RAW_BYTES} are allowed")
        else
          let* (pt_raw, s) := Reader.bytes pt_raw_len s in
          let* (region_count, s) := Reader.u64 s in
          let* (regions, s) := Reader.push_n Region.read region_count s in
          Ok ({| dh_disk_size := disk_size; dh_logical_block_size := logical_block_size;
                 dh_pt_type := pt_type; dh_serial_wwid := serial_wwid; dh_pt_raw := pt_raw;
                 dh_regions := regions |}, s).

Definition manifest_regions (h : DiskHeader) : list RegionRecord :=
  List.filter Region.has_manifest (dh_regions h).

Definition is_leading (k : RegionKind) : bool := match k with Leading => true | _ => false end.

(** The loop of [validate]. *)
Fixpoint validate_regions (regions : list RegionRecord) (lbs disk_size previous_end : Z) :
    result unit :=
  match regions with
  | [] => Ok tt
  | region :: regions =>
    if is_leading (rg_kind region) && (MAX_LEADING_BYTES <? rg_size_bytes region) then
      Err (Corrupt "leading region is {} bytes, cap is {MAX_LEADING_BYTES}")
    else
      let* start := ok_or (checked_mul (rg_start_lba region) lbs)
                      (Corrupt "region {} start overflows") in
      if start <? previous_end then
        Err (Corrupt "region {} starts at {start}, before the previous region ends at {previous_end}")
      else
        let* end_ := ok_or (checked_add start (rg_size_bytes region))
                       (Corrupt "region {} end overflows") in
        if disk_size <? end_ then
          Err (Corrupt "region {} ends at {end}, past the end of the {}-byte disk")
        else validate_regions regions lbs disk_size end_
  end.

Definition validate (h : DiskHeader) : result unit :=
  if negb (existsb (Z.eqb (dh_logical_block_size h)) [512; 1024; 2048; 4096]) then
    Err (Corrupt "logical block size {} is not 512, 1024, 2048 or 4096")
  else validate_regions (dh_regions h) (dh_logical_block_size h) (dh_disk_size h) 0.

Definition validate_geometry (h : DiskHeader) (disk_size logical_block_size : Z) : result unit :=
  if negb (dh_disk_size h =? disk_size) then
    Err (Corrupt "the disk header records {} bytes, the superblock {disk_size}")
  else if negb (dh_logical_block_size h =? logical_block_size) then
    Err (Corrupt "the disk header records {}-byte sectors, the superblock {logical_block_size}")
  else Ok tt.

Definition region_manifest_header (r : RegionRecord) (chunk_size : Z) :
    result BlockManifestHeader :=
  let* chunk_count := Region.chunk_count r chunk_size in
  Ok {| bm_chunk_size := chunk_size; bm_chunk_count := chunk_count; bm_entry_count := chunk_count;
        bm_used_extent_count := 1; bm_used_bytes := rg_size_bytes r; bm_fs_type := rg_fs_type r;
        bm_fs_uuid := rg_fs_uuid r; bm_label := rg_fs_label r |}.

Definition manifest_matches_region (h : BlockManifestHeader) (chunk_count : Z) : bool :=
  (bm_chunk_count h =? chunk_count) && (bm_entry_count h <=? bm_chunk_count h).
End DiskHeaders.

Module DiskLemmas.
Import DiskHeaders.

Record ok (h : DiskHeader) : Prop := {
  ok_size : u64_ok (dh_disk_size h);
  ok_lbs : u32_ok (dh_logical_block_size h);
  ok_serial : str_ok (dh_serial_wwid h);
  ok_count : u64_ok (zlen (dh_regions h));
  ok_regions : Forall Region.ok (dh_regions h);
}.

Definition enc (h : DiskHeader) : bytes :=
  le_bytes 2 DISK_MANIFEST_VER ++ le_bytes 1 SECTION_DISK_HEADER ++ le_bytes 1 0 ++
  le_bytes 8 (dh_disk_size h) ++ le_bytes 4 (dh_logical_block_size h) ++
  le_bytes 1 (PtTypes.as_u8 (dh_pt_type h)) ++ zrep 3 Byte.x00 ++
  (le_bytes 2 (zlen (dh_serial_wwid h)) ++ dh_serial_wwid h) ++
  le_bytes 4 (zlen (dh_pt_raw h) mod 2 ^ 32) ++ dh_pt_raw h ++
  le_bytes 8 (zlen (dh_regions h)) ++ concat (map Region.enc (dh_regions h)).

Lemma disk_write_emits `{ByteSinkLaws W} h :
  ok h -> write_checks h = Ok tt -> emits (write h) (enc h).
Proof.
  intros [? ? [] ? Hr] Hc out Hok. unfold write. rewrite Hc. cbn [bind].
  revert out Hok. match goal with |- forall out, _ -> @?f out = _ => change (emits f (enc h)) end.
  unfold enc. do 11 emits_step. apply emits_last, emits_put_all. intros r Hin.
  apply Region.region_write_emits. rewrite List.Forall_forall in Hr. auto.
Qed.

Lemma checks_lbs h : write_checks h = Ok tt ->
  (dh_logical_block_size h =? 0) || negb (is_power_of_two (dh_logical_block_size h)) = false /\
  zlen (dh_pt_raw h) <= PT_RAW_BYTES.
Proof. unfold write_checks. repeat case_match; bprop; done. Qed.

Lemma disk_read_codec `{ByteSourceLaws Src} h :
  ok h -> write_checks h = Ok tt -> codec read (enc h) h.
Proof.
  intros [? ? ? ? Hr] Hc. apply checks_lbs in Hc as [Hlbs Hpt].
  pose proof (zlen_nonneg (dh_pt_raw h)). unfold PT_RAW_BYTES in *.
  assert (u8_ok (PtTypes.as_u8 (dh_pt_type h))) by (by destruct (dh_pt_type h)).
  unfold read, enc. rewrite Z.mod_small by lia.
  do 8 codec_step; [done|]. codec_step. codec_step; [apply PtTypes.pt_type_from_as_u8|].
  codec_step. apply codec_str; [done|]. codec_step. codec_step; [by apply Z.ltb_ge|].
  codec_step. codec_step. apply codec_tail. eapply codec_bind.
  - apply (codec_push_n Region.read Region.enc); [done|]. intros r Hin.
    apply Region.region_read_codec. rewrite List.Forall_forall in Hr. auto.
  - destruct h. apply codec_ret.
Qed.

(** *** The layout rules of [validate] *)

Definition start (lbs : Z) (r : RegionRecord) : Z := rg_start_lba r * lbs.
Definition end_ (lbs : Z) (r : RegionRecord) : Z := start lbs r + rg_size_bytes r.

Lemma check_regions_bad lbs disk_size rs :
  Exists (fun r => disk_size < end_ lbs r \/ SWAP_HEADER_BYTES < zlen (rg_swap_header r)) rs ->
  exists what, check_regions rs lbs disk_size = Err (Corrupt what).
Proof.
  intros Hx. induction rs as [|r rs IH]; [by inversion Hx|]. cbn [check_regions].
  destruct (match checked_mul _ _ with Some _ => _ | None => _ end) as [e|] eqn:He; cbn [ok_or bind]; [|by eauto].
  assert (e = end_ lbs r) as ->.
  { destruct (checked_mul (rg_start_lba r) lbs) eqn:Hm; [|done].
    apply checked_mul_Some in Hm as [-> _]. by apply checked_add_Some in He as [-> _]. }
  destruct (Z.ltb_spec disk_size (end_ lbs r)); [by eauto|].
  destruct (Z.ltb_spec SWAP_HEADER_BYTES (zlen (rg_swap_header r))); [by eauto|]. apply IH.
  inversion Hx as [? ? [?|?]|]; subst; [lia|lia|done].
Qed.

Definition region_fits (lbs disk_size : Z) (r : RegionRecord) : Prop :=
  end_ lbs r <= disk_size /\ (rg_kind r = Leading -> rg_size_bytes r <= MAX_LEADING_BYTES).

(** In disk order, and no two overlap. *)
Definition in_order (lbs : Z) (rs : list RegionRecord) : Prop :=
  forall i j a b, (i < j)%nat -> rs !! i = Some a -> rs !! j = Some b ->
    end_ lbs a <= start lbs b.

Lemma in_order_cons lbs r rs :
  in_order lbs (r :: rs) <-> Forall (fun b => end_ lbs r <= start lbs b) rs /\ in_order lbs rs.
Proof.
  split.
  - intros Ho. split.
    + apply Forall_lookup. intros j b Hb. apply (Ho 0%nat (S j)); [lia|done..].
    + intros i j a b Hij Ha Hb. apply (Ho (S i) (S j)); [lia|done..].
  - intros [Hf Ho] [|i] [|j] a b Hij Ha Hb; try lia; cbn in *.
    + injection Ha as <-. rewrite Forall_lookup in Hf. eauto.
    + apply (Ho i j); [lia|done..].
Qed.

Lemma validate_regions_spec lbs disk_size rs : forall prev,
  0 <= lbs -> disk_size < 2 ^ 64 -> Forall Region.ok rs ->
  validate_regions rs lbs disk_size prev = Ok tt <->
  Forall (region_fits lbs disk_size) rs /\ in_order lbs rs /\
  Forall (fun r => prev <= start lbs r) (take 1 rs).
Proof.
  induction rs as [|r rs IH]; intros prev Hl Hd Hok.
  - split; [|done]. intros _. split_and!; [constructor| |constructor]. by intros [] ? ? ? ? ?.
  - inversion Hok as [|? ? Hr Hrs]; subst. destruct Hr as [_ [Hs _] [Hz _] _ _ _ _ _ _].
    assert (Hstep : validate_regions (r :: rs) lbs disk_size prev = Ok tt <->
      region_fits lbs disk_size r /\ prev <= start lbs r /\
      validate_regions rs lbs disk_size (end_ lbs r) = Ok tt).
    { cbn [validate_regions]. unfold region_fits, end_, start, checked_mul, checked_add, U64_MAX.
      assert (is_leading (rg_kind r) = true <-> rg_kind r = Leading) as Hk
        by (by destruct (rg_kind r)).
      destruct (is_leading (rg_kind r)); cbn [andb];
        repeat (case_match; cbn [ok_or bind]; bprop); split; intros; destruct_and?; try done;
        try (exfalso; intuition lia); split_and!; intros; intuition (lia || done). }
    rewrite Hstep, IH, Forall_cons, in_order_cons by done. cbn [take]. rewrite Forall_cons.
    split.
    + intros (Hf & Hp & Hfs & Ho & Ht). split_and!; [done|done| |done|done|constructor].
      destruct rs as [|r2 rs2]; [constructor|]. apply in_order_cons in Ho as [Ho _].
      inversion Ht; subst. constructor; [done|]. inversion Hfs; subst. inversion Hrs as [|? ? [_ _ [? _] _ _ _ _ _ _] _]; subst.
      eapply Forall_impl; [exact Ho|]. intros b. cbv beta. unfold end_ in *. lia.
    + intros ([Hf Hfs] & [Hall Ho] & Hp & _). split_and!; try done.
      destruct rs; [constructor|]. inversion Hall; subst. by constructor.
Qed.
End DiskLemmas.

(** ** Properties *)

(** A disk header whose regions lie on the disk is written to any sink and
    read back from any source unchanged, regions included, and a truncated one
    is corrupt; a header with a region past the disk end, an oversized swap
    header or partition-table copy, or a block size that is no power of two
    leaves the sink untouched and is refused. *)
Theorem disk_header_roundtrip `{ByteSinkLaws W} `{ByteSourceLaws Src} (h : DiskHeader) :
  (DiskLemmas.ok h -> DiskHeaders.write_checks h = Ok tt ->
   exists b, emits (W := W) (DiskHeaders.write h) b /\ codec (Src := Src) DiskHeaders.read b h) /\
  (dh_logical_block_size h = 0 \/ is_power_of_two (dh_logical_block_size h) = false \/
   PT_RAW_BYTES < zlen (dh_pt_raw h) \/
   Exists (fun r => dh_disk_size h < DiskLemmas.end_ (dh_logical_block_size h) r \/
                    SWAP_HEADER_BYTES < zlen (rg_swap_header r)) (dh_regions h) ->
   exists what, forall out : W, DiskHeaders.write h out = Err (Corrupt what)).
Proof.
  split.
  - intros Hok Hc. eexists. split; [by apply DiskLemmas.disk_write_emits|by apply DiskLemmas.disk_read_codec].
  - intros Hbad. enough (exists what, DiskHeaders.write_checks h = Err (Corrupt what)) as [what Hw].
    { exists what. intros out. unfold DiskHeaders.write. by rewrite Hw. }
    unfold DiskHeaders.write_checks. destruct (_ || _) eqn:Hl; [by eauto|].
    destruct (Z.ltb_spec PT_RAW_BYTES (zlen (dh_pt_raw h))) as [|Hpt]; [by eauto|].
    bprop. destruct Hbad as [?|[Hp|[?|Hx]]]; [done|congruence|lia|].
    by apply DiskLemmas.check_regions_bad.
Qed.

(** [validate] accepts a whole-disk layout exactly when the sector size is
    one of the four, every region ends on the disk, a leading region stays
    under 16 MiB, and the regions are in disk order without overlapping. *)
Theorem disk_validate_spec (h : DiskHeader) :
  DiskLemmas.ok h ->
  DiskHeaders.validate h = Ok tt <->
  In (dh_logical_block_size h) [512; 1024; 2048; 4096] /\
  Forall (DiskLemmas.region_fits (dh_logical_block_size h) (dh_disk_size h)) (dh_regions h) /\
  DiskLemmas.in_order (dh_logical_block_size h) (dh_regions h).
Proof.
  intros [[_ Hsz] [Hl _] _ _ Hr]. unfold DiskHeaders.validate.
  assert (existsb (Z.eqb (dh_logical_block_size h)) [512; 1024; 2048; 4096] = true <->
          In (dh_logical_block_size h) [512; 1024; 2048; 4096]) as Hin.
  { rewrite existsb_exists. split.
    - intros (x & Hx & He). bprop. by subst.
    - intros Hx. exists (dh_logical_block_size h). by rewrite Z.eqb_refl. }
  destruct (existsb _ _) eqn:He; cbn [negb].
  - rewrite DiskLemmas.validate_regions_spec by done. split.
    + intros (? & ? & _). split_and!; [by apply Hin|done|done].
    + intros (_ & Hf & Ho). split_and!; [done|done|]. destruct Hr as [|r rs [_ [? _] _ _ _ _ _ _ _] _];
        constructor; [|constructor]. unfold DiskLemmas.start. nia.
  - split; [done|]. intros (Hx & _). apply Hin in Hx. done.
Qed.

(** The chunks of a region tile it. With the region inside the 64-bit
    range the loop ends, gives as many chunks as [chunk_count] says, and chunk
    [i] is [chunk_size] bytes at [start + i * chunk_size], the last one cut at
    the end of the region; no chunk is empty and their lengths add up. *)
Theorem region_chunks_tile (r : RegionRecord) (chunk_size lbs : Z) :
  Region.ok r -> 0 < chunk_size <= U32_MAX -> 0 <= lbs ->
  rg_start_lba r * lbs + rg_size_bytes r <= U64_MAX -> rg_size_bytes r + chunk_size < 2 ^ 64 ->
  exists l, Region.chunks r chunk_size lbs = Ok l /\
    Region.chunk_count r chunk_size = Ok (zlen l) /\
    (forall i off len, l !! i = Some (off, len) ->
      off = rg_start_lba r * lbs + Z.of_nat i * chunk_size /\ 0 < len <= chunk_size /\
      ((S i < length l)%nat -> len = chunk_size) /\
      (S i = length l -> off + len = rg_start_lba r * lbs + rg_size_bytes r)).
Proof.
  intros Hok Hcs Hl Hu Hw. eexists. split; [by apply Tiling.chunks_tiles|].
  pose proof (div_ceil_spec (rg_size_bytes r) chunk_size) as Hd.
  assert (0 <= rg_size_bytes r) as Hz by apply Hok.
  specialize (Hd Hz ltac:(lia)). assert (0 <= div_ceil (rg_size_bytes r) chunk_size) by nia.
  assert (length (map (Tiling.tile (rg_start_lba r * lbs) (rg_size_bytes r) chunk_size)
    (seqZ 0 (div_ceil (rg_size_bytes r) chunk_size))) = Z.to_nat (div_ceil (rg_size_bytes r) chunk_size)) as Hlen
    by (by rewrite length_map, length_seqZ).
  split.
  - unfold Region.chunk_count. rewrite (proj2 (Z.eqb_neq _ _)) by lia. f_equal.
    unfold zlen. rewrite Hlen. lia.
  - intros i off len Hi. rewrite Hlen. apply lookup_lt_Some in Hi as Hlt. rewrite Hlen in Hlt.
    change (map ?f ?l) with (f <$> l) in Hi. rewrite list_lookup_fmap in Hi.
    rewrite lookup_seqZ_lt in Hi by lia. injection Hi as <- <-.
    split_and!; [done|nia|nia|intros; nia|intros He; nia].
Qed.
