(* ===== verification/Extras.v ===== *)
(** * The extras stream ([crates/lr-format/src/extras.rs])

    Length-prefixed records of a kind each; unknown kinds are skipped. *)

From S2P Require Import Prelude Core Wire.

Definition EXTRAS_VER : Z := 1.
Definition EXTRAS_CHAIN_MEMBERS : Z := 1.
Definition EXTRAS_PARTITION_TABLE : Z := 2.
Definition EXTRAS_FSTAB : Z := 3.
Definition EXTRAS_BTRFS_LAYOUT : Z := 4.
Definition EXTRAS_IMAGE_METADATA : Z := 5.
Definition EXTRAS_CDC_PARAMS : Z := 6.
Definition EXTRAS_FILE_CHANGES : Z := 7.
Definition MAX_EXTRAS_PAYLOAD : Z := 16 * 1024 * 1024.
Definition CHAIN_MEMBER_LEN : Z := 19.
Definition CDC_PARAMS_LEN : Z := 13.
Definition CHANGE_TOKEN_LEN : Z := 24.

Record ChainMember := { cm_index : Z; cm_image_uuid : Id }.
Record CdcParams := { cdc_min_size : Z; cdc_avg_size : Z; cdc_max_size : Z; cdc_normalization : Z }.
Record ChangeToken := { ct_index : Z; ct_ino : Z; ct_ctime_sec : Z; ct_ctime_nsec : Z }.

Module Extras.
Definition write_record `{ByteSink W} (kind : Z) (payload : bytes) (out : W) : result W :=
  if U32_MAX <? zlen payload then Err (Unsupported "extras payload larger than 4 GiB")
  else
    let* out := put_u16 EXTRAS_VER out in
    let* out := put_u8 kind out in
    let* out := put_u8 0 out in
    let* out := put_u32 (zlen payload) out in
    write_bytes out payload.

Definition read_record `{ByteSource Src} (s : Src) : result ((Z * bytes) * Src) :=
  let* (ver, s) := Reader.u16 s in
  if negb (ver =? EXTRAS_VER) then Err (Corrupt "extras version {ver}")
  else
    let* (kind, s) := Reader.u8 s in
    let* (_, s) := Reader.u8 s in
    let* (len, s) := Reader.u32 s in
    if MAX_EXTRAS_PAYLOAD <? len then
      Err (Corrupt "extras payload of {len} bytes exceeds {MAX_EXTRAS_PAYLOAD}")
    else
      let* (payload, s) := Reader.bytes len s in
      Ok ((kind, payload), s).

Definition write_cdc_params `{ByteSink W} (p : CdcParams) (out : W) : result W :=
  let* payload := put_u32 (cdc_min_size p) [] in
  let* payload := put_u32 (cdc_avg_size p) payload in
  let* payload := put_u32 (cdc_max_size p) payload in
  let* payload := put_u8 (cdc_normalization p) payload in
  write_record EXTRAS_CDC_PARAMS payload out.

Definition read_cdc_params (payload : bytes) : result CdcParams :=
  if negb (zlen payload =? CDC_PARAMS_LEN) then
    Err (Corrupt "cdc params payload of {} bytes, expected {CDC_PARAMS_LEN}")
  else
    let* min_size := slice_u32 (zdrop 0 payload) in
    let* avg_size := slice_u32 (zdrop 4 payload) in
    let* max_size := slice_u32 (zdrop 8 payload) in
    Ok {| cdc_min_size := min_size; cdc_avg_size := avg_size; cdc_max_size := max_size;
          cdc_normalization := le_val (sub 12 1 payload) |}.

Definition put_token (t : ChangeToken) (payload : bytes) : result bytes :=
  let* payload := put_u32 (ct_index t) payload in
  let* payload := put_u64 (ct_ino t) payload in
  let* payload := put_i64 (ct_ctime_sec t) payload in
  let* payload := put_u32 (ct_ctime_nsec t) payload in
  Ok payload.

Definition write_file_changes `{ByteSink W} (tokens : list ChangeToken) (out : W) : result W :=
  put_all (fun batch out =>
      let* payload := put_all put_token batch [] in
      write_record EXTRAS_FILE_CHANGES payload out)
    (zchunks (MAX_EXTRAS_PAYLOAD / CHANGE_TOKEN_LEN) tokens) out.

Definition parse_token (token : bytes) : result ChangeToken :=
  let* index := slice_u32 (zdrop 0 token) in
  let* ino := slice_u64 (zdrop 4 token) in
  let ctime_sec := i64_of_u64 (le_val (sub 12 8 token)) in
  let* ctime_nsec := slice_u32 (zdrop 20 token) in
  Ok {| ct_index := index; ct_ino := ino; ct_ctime_sec := ctime_sec; ct_ctime_nsec := ctime_nsec |}.

Definition read_file_changes (payload : bytes) : result (list ChangeToken) :=
  if negb (zlen payload mod CHANGE_TOKEN_LEN =? 0) then
    Err (Corrupt "file change payload of {} bytes is not a multiple of {CHANGE_TOKEN_LEN}")
  else collectM parse_token (zchunks CHANGE_TOKEN_LEN payload).

Definition put_member (m : ChainMember) (payload : bytes) : result bytes :=
  let* payload := put_u8 (cm_index m) payload in
  let* payload := put_u16 0 payload in
  let* payload := put_id (cm_image_uuid m) payload in
  Ok payload.

Definition write_chain_members `{ByteSink W} (members : list ChainMember) (out : W) : result W :=
  let* payload := put_all put_member members [] in
  write_record EXTRAS_CHAIN_MEMBERS payload out.

(** One 19-byte entry; the two bytes after the index are not looked at. *)
Definition parse_member (chunk : bytes) : result ChainMember :=
  Ok {| cm_index := le_val (sub 0 1 chunk); cm_image_uuid := sub 3 16 chunk |}.

Definition read_chain_members (payload : bytes) : result (list ChainMember) :=
  if negb (zlen payload mod CHAIN_MEMBER_LEN =? 0) then
    Err (Corrupt "chain member list length is not a multiple of 19")
  else collectM parse_member (zchunks CHAIN_MEMBER_LEN payload).

(** *** Records *)
Definition enc (kind : Z) (payload : bytes) : bytes :=
  le_bytes 2 EXTRAS_VER ++ le_bytes 1 kind ++ le_bytes 1 0 ++ le_bytes 4 (zlen payload) ++ payload.

Lemma extras_write_emits `{ByteSinkLaws W} kind payload :
  zlen payload <= U32_MAX -> emits (write_record kind payload) (enc kind payload).
Proof.
  intros Hp. unfold write_record, enc. rewrite (proj2 (Z.ltb_ge _ _)) by done.
  do 4 emits_step. apply emits_write.
Qed.

Lemma extras_read_codec `{ByteSourceLaws Src} kind payload :
  u8_ok kind -> zlen payload <= MAX_EXTRAS_PAYLOAD -> codec read_record (enc kind payload) (kind, payload).
Proof.
  intros Hk Hp. pose proof (zlen_nonneg payload). unfold MAX_EXTRAS_PAYLOAD in *.
  unfold read_record, enc. do 6 codec_step; [by apply Z.ltb_ge|]. codec_step. apply codec_ret.
Qed.

(** *** Change tokens *)
Definition token_ok (t : ChangeToken) : Prop :=
  u32_ok (ct_index t) /\ u64_ok (ct_ino t) /\ i64_ok (ct_ctime_sec t) /\ u32_ok (ct_ctime_nsec t).

Definition token_enc (t : ChangeToken) : bytes :=
  le_bytes 4 (ct_index t) ++ le_bytes 8 (ct_ino t) ++ le_bytes 8 (ct_ctime_sec t) ++
  le_bytes 4 (ct_ctime_nsec t).

Lemma zlen_token_enc t : zlen (token_enc t) = CHANGE_TOKEN_LEN.
Proof. unfold token_enc. by rewrite !zlen_app, !zlen_le_bytes. Qed.

Lemma put_token_emits t : emits (put_token t) (token_enc t).
Proof. unfold put_token, token_enc. repeat emits_step. Qed.

Lemma parse_token_enc t : token_ok t -> parse_token (token_enc t) = Ok t.
Proof.
  intros (? & ? & ? & ?). pose proof (zlen_token_enc t) as Hl. unfold CHANGE_TOKEN_LEN in Hl.
  unfold parse_token. rewrite !slice_u32_zdrop, slice_u64_zdrop by lia. cbn [bind].
  assert (forall off v n, In (off, v) [(0, le_bytes 4 (ct_index t)); (4, le_bytes 8 (ct_ino t));
    (12, le_bytes 8 (ct_ctime_sec t)); (20, le_bytes 4 (ct_ctime_nsec t))] -> n = zlen v ->
    sub off n (token_enc t) = v) as Hsub.
  { intros off v n Hin Hn. rewrite <- (app_nil_r (token_enc t)).
    apply (contiguous_sub [(0, le_bytes 4 (ct_index t)); (4, le_bytes 8 (ct_ino t));
      (12, le_bytes 8 (ct_ctime_sec t)); (20, le_bytes 4 (ct_ctime_nsec t))] [] []); [|done..].
    cbn [contiguous]. rewrite !zlen_le_bytes. by repeat split. }
  rewrite (Hsub 0 (le_bytes 4 (ct_index t))), (Hsub 4 (le_bytes 8 (ct_ino t))),
    (Hsub 12 (le_bytes 8 (ct_ctime_sec t))), (Hsub 20 (le_bytes 4 (ct_ctime_nsec t)))
    by (done || (cbn; tauto)).
  rewrite (le_val_bytes 8 (ct_ctime_sec t)), !le_val_bytes_small by done.
  change (256 ^ Z.of_nat 8) with (2 ^ 64). rewrite i64_of_u64_mod by done. by destruct t.
Qed.

(** *** Chain members *)
Definition member_ok (m : ChainMember) : Prop := u8_ok (cm_index m) /\ id_ok (cm_image_uuid m).

Definition member_enc (m : ChainMember) : bytes :=
  le_bytes 1 (cm_index m) ++ le_bytes 2 0 ++ cm_image_uuid m.

Lemma zlen_member_enc m : member_ok m -> zlen (member_enc m) = CHAIN_MEMBER_LEN.
Proof. intros [_ Hi]. unfold member_enc. by rewrite !zlen_app, !zlen_le_bytes, Hi. Qed.

Lemma put_member_emits m : emits (put_member m) (member_enc m).
Proof. unfold put_member, member_enc. repeat emits_step. Qed.

Lemma parse_member_enc m : member_ok m -> parse_member (member_enc m) = Ok m.
Proof.
  intros [Hx Hi]. unfold parse_member, member_enc.
  rewrite sub_hit, !(sub_skip 3), (sub_skip (3 - _)), sub_all by (rewrite ?zlen_le_bytes; done).
  rewrite le_val_bytes_small by done. by destruct m.
Qed.
End Extras.

(** ** Properties *)

Lemma put_all_vec {A} (put : A -> bytes -> result bytes) (enc : A -> bytes) l :
  (forall x, emits (put x) (enc x)) -> put_all put l [] = Ok (concat (map enc l)).
Proof. intros Hp. apply (emits_put_all put enc l (fun x _ => Hp x) [] I). Qed.

Lemma chain_members_payload l :
  Forall Extras.member_ok l ->
  put_all Extras.put_member l [] = Ok (concat (map Extras.member_enc l)) /\
  zlen (concat (map Extras.member_enc l)) = CHAIN_MEMBER_LEN * zlen l /\
  Extras.read_chain_members (concat (map Extras.member_enc l)) = Ok l.
Proof.
  intros Hl.
  assert (Forall (fun b => zlen b = CHAIN_MEMBER_LEN) (map Extras.member_enc l)) as Hlen
    by (apply Forall_map; eapply Forall_impl; [done|apply Extras.zlen_member_enc]).
  pose proof (zlen_concat_const CHAIN_MEMBER_LEN (map Extras.member_enc l) Hlen) as Hz.
  rewrite zlen_map in Hz.
  split_and!; [apply put_all_vec, Extras.put_member_emits|done|].
  unfold Extras.read_chain_members. rewrite Hz, Z.mul_comm, Z.mod_mul by done. cbn [negb Z.eqb].
  rewrite zchunks_concat by done. apply collectM_map.
  eapply Forall_impl; [done|]. apply Extras.parse_member_enc.
Qed.

Lemma file_changes_payload l :
  Forall Extras.token_ok l ->
  put_all Extras.put_token l [] = Ok (concat (map Extras.token_enc l)) /\
  zlen (concat (map Extras.token_enc l)) = CHANGE_TOKEN_LEN * zlen l /\
  Extras.read_file_changes (concat (map Extras.token_enc l)) = Ok l.
Proof.
  intros Hl.
  assert (Forall (fun b => zlen b = CHANGE_TOKEN_LEN) (map Extras.token_enc l)) as Hlen
    by (apply Forall_map; eapply Forall_impl; [done|intros; apply Extras.zlen_token_enc]).
  pose proof (zlen_concat_const CHANGE_TOKEN_LEN (map Extras.token_enc l) Hlen) as Hz.
  rewrite zlen_map in Hz.
  split_and!; [apply put_all_vec, Extras.put_token_emits|done|].
  unfold Extras.read_file_changes. rewrite Hz, Z.mul_comm, Z.mod_mul by done. cbn [negb Z.eqb].
  rewrite zchunks_concat by done. apply collectM_map.
  eapply Forall_impl; [done|]. apply Extras.parse_token_enc.
Qed.

(** The chain member list survives the extras stream: the record that is
    written reads back, over any source, to a payload that parses to the same
    list. *)
Theorem extras_members_roundtrip `{ByteSinkLaws W} `{ByteSourceLaws Src}
    (members : list ChainMember) :
  Forall Extras.member_ok members -> CHAIN_MEMBER_LEN * zlen members <= MAX_EXTRAS_PAYLOAD ->
  exists b payload,
    emits (W := W) (Extras.write_chain_members members) b /\
    codec (Src := Src) Extras.read_record b (EXTRAS_CHAIN_MEMBERS, payload) /\
    Extras.read_chain_members payload = Ok members.
Proof.
  intros Hm Hmax. destruct (chain_members_payload members Hm) as (Hp & Hz & Hr).
  exists (Extras.enc EXTRAS_CHAIN_MEMBERS (concat (map Extras.member_enc members))).
  eexists. split_and!; [| |exact Hr].
  - intros out Hok. unfold Extras.write_chain_members. rewrite Hp. cbn [bind].
    apply Extras.extras_write_emits; [|done]. rewrite Hz. unfold MAX_EXTRAS_PAYLOAD, U32_MAX in *. lia.
  - apply Extras.extras_read_codec; [done|]. by rewrite Hz.
Qed.

(** Change tokens are split over as many records as they need, each within
    the size the reader accepts; reading all the records and joining what they
    parse to gives the tokens back, in order. *)
Theorem file_changes_roundtrip `{ByteSinkLaws W} `{ByteSourceLaws Src} (tokens : list ChangeToken) :
  Forall Extras.token_ok tokens ->
  exists b records batches,
    emits (W := W) (Extras.write_file_changes tokens) b /\
    codec (Src := Src) (Reader.push_n Extras.read_record (zlen records)) b records /\
    Forall (fun r => fst r = EXTRAS_FILE_CHANGES /\ zlen (snd r) <= MAX_EXTRAS_PAYLOAD) records /\
    collectM (fun r => Extras.read_file_changes (snd r)) records = Ok batches /\
    concat batches = tokens.
Proof.
  intros Ht. set (batches := zchunks (MAX_EXTRAS_PAYLOAD / CHANGE_TOKEN_LEN) tokens).
  set (payload := fun batch => concat (map Extras.token_enc batch)).
  assert (concat batches = tokens) as Hcat by (by apply concat_zchunks).
  assert (Forall (fun batch => Forall Extras.token_ok batch /\
            zlen (payload batch) <= MAX_EXTRAS_PAYLOAD) batches) as Hb.
  { apply List.Forall_forall. intros batch Hin.
    assert (Forall Extras.token_ok batch) as Hok.
    { rewrite <- Hcat in Ht. rewrite List.Forall_forall in Ht |- *. intros t Hti. apply Ht.
      apply in_concat. by exists batch. }
    split; [done|]. unfold payload. destruct (file_changes_payload batch Hok) as (_ & -> & _).
    destruct (zchunks_pieces (MAX_EXTRAS_PAYLOAD / CHANGE_TOKEN_LEN) tokens batch) as [_ Hl];
      [done|exact Hin|]. unfold MAX_EXTRAS_PAYLOAD, CHANGE_TOKEN_LEN in *.
    change (16 * 1024 * 1024 / 24) with 699050 in Hl. lia. }
  exists (concat (map (fun batch => Extras.enc EXTRAS_FILE_CHANGES (payload batch)) batches)),
    (map (fun batch => (EXTRAS_FILE_CHANGES, payload batch)) batches), batches.
  rewrite List.Forall_forall in Hb. split_and!; [| | | |done].
  - apply emits_put_all. intros batch Hin out Hok. destruct (Hb _ Hin) as [Hk Hl].
    destruct (file_changes_payload batch Hk) as (-> & _ & _). cbn [bind].
    apply Extras.extras_write_emits; [|done]. unfold MAX_EXTRAS_PAYLOAD, U32_MAX in *. fold (payload batch). lia.
  - rewrite <- (map_map (fun batch => (EXTRAS_FILE_CHANGES, payload batch))
      (fun r => Extras.enc (fst r) (snd r))).
    apply codec_push_n; [done|]. intros [k p] (batch & [= <- <-] & Hin)%in_map_iff.
    apply Extras.extras_read_codec; [done|]. by apply Hb.
  - apply List.Forall_forall. intros [k p] (batch & [= <- <-] & Hin)%in_map_iff. split; [done|].
    by apply Hb.
  - apply collectM_Forall2, Forall2_fmap_l, Forall_Forall2_diag, List.Forall_forall.
    intros batch Hin. apply file_changes_payload, Hb, Hin.
Qed.
