(* ===== verification/FileManifest.v ===== *)
(** * File-mode manifests ([crates/lr-format/src/file_manifest.rs])

    Paths, attribute names and values are byte strings; a chunk reference is a
    32-byte hash. [read_manifest] parses a buffer through a cursor, whose state
    is the bytes that are left. *)

From S2P Require Import Prelude Core Wire Manifest.

Definition FILE_KIND_REGULAR : Z := 1.
Definition FILE_KIND_DIRECTORY : Z := 2.
Definition FILE_KIND_SYMLINK : Z := 3.
Definition FILE_KIND_HARDLINK : Z := 4.
Definition FILE_KIND_SPECIAL : Z := 5.
Definition FILE_REFS_PER_SECTION : nat := 4096.

Record Xattr := { xa_name : bytes; xa_value : bytes }.

Record FileEntry := {
  fe_file_kind : Z;
  fe_mode : Z;
  fe_uid : Z;
  fe_gid : Z;
  fe_mtime_sec : Z;
  fe_mtime_nsec : Z;
  fe_size : Z;
  fe_rdev : Z;
  fe_hardlink_group : Z;
  fe_link_target : bytes;
  fe_path : bytes;
  fe_xattrs : list Xattr;
  fe_acl : bytes;
  fe_chunk_refs_total : Z;
  fe_chunk_refs_here : list bytes;
}.

Record FileRecord := { fr_entry : FileEntry; fr_holes : list (Z * Z) }.

(** [FileEntry { chunk_refs_here: refs, ..entry }]. *)
Definition with_refs (e : FileEntry) (refs : list bytes) : FileEntry :=
  {| fe_file_kind := fe_file_kind e; fe_mode := fe_mode e; fe_uid := fe_uid e; fe_gid := fe_gid e;
     fe_mtime_sec := fe_mtime_sec e; fe_mtime_nsec := fe_mtime_nsec e; fe_size := fe_size e;
     fe_rdev := fe_rdev e; fe_hardlink_group := fe_hardlink_group e;
     fe_link_target := fe_link_target e; fe_path := fe_path e; fe_xattrs := fe_xattrs e;
     fe_acl := fe_acl e; fe_chunk_refs_total := fe_chunk_refs_total e; fe_chunk_refs_here := refs |}.

Module FileEntries.
(** [(FILE_KIND_REGULAR..=FILE_KIND_SPECIAL).contains(&kind)]. *)
Definition known_kind (kind : Z) : bool :=
  (FILE_KIND_REGULAR <=? kind) && (kind <=? FILE_KIND_SPECIAL).

Definition put_xattr `{ByteSink W} (x : Xattr) (out : W) : result W :=
  let* out := put_u16_prefixed (xa_name x) out in put_u16_prefixed (xa_value x) out.

(** [u32::try_from(len).unwrap_or(u32::MAX)]. *)
Definition clamp_u32 (n : Z) : Z := if n <=? U32_MAX then n else U32_MAX.

Definition write `{ByteSink W} (e : FileEntry) (out : W) : result W :=
  if negb (known_kind (fe_file_kind e)) then Err (Corrupt "unknown file kind {}")
  else
    let* out := put_u16 MANIFEST_VER out in
    let* out := put_u8 SECTION_FILE_ENTRY out in
    let* out := put_u8 0 out in
    let* out := put_u64 (fe_chunk_refs_total e) out in
    let* out := put_u8 (fe_file_kind e) out in
    let* out := put_u32 (fe_mode e) out in
    let* out := put_u32 (fe_uid e) out in
    let* out := put_u32 (fe_gid e) out in
    let* out := put_i64 (fe_mtime_sec e) out in
    let* out := put_u32 (fe_mtime_nsec e) out in
    let* out := put_u64 (fe_size e) out in
    let* out := put_u64 (fe_rdev e) out in
    let* out := put_u32 (fe_hardlink_group e) out in
    let* out := put_u32_prefixed (fe_link_target e) out in
    let* out := put_u16_prefixed (fe_path e) out in
    let* out := put_u32 (clamp_u32 (zlen (fe_xattrs e))) out in
    let* out := put_u32_prefixed (fe_acl e) out in
    let* out := put_u64 (zlen (fe_chunk_refs_here e)) out in
    let* out := put_all put_xattr (fe_xattrs e) out in
    let* out := put_all put_bytes (fe_chunk_refs_here e) out in
    Ok out.

Definition read_xattr `{ByteSource Src} (r : Src) : result (Xattr * Src) :=
  let* (name, r) := Reader.u16_prefixed r in
  let* (value, r) := Reader.u16_prefixed r in
  Ok ({| xa_name := name; xa_value := value |}, r).

Definition read_body `{ByteSource Src} (r : Src) : result (FileEntry * Src) :=
  let* (chunk_refs_total, r) := Reader.u64 r in
  let* (file_kind, r) := Reader.u8 r in
  if negb (known_kind file_kind) then Err (Corrupt "unknown file kind {file_kind}")
  else
    let* (mode, r) := Reader.u32 r in
    let* (uid, r) := Reader.u32 r in
    let* (gid, r) := Reader.u32 r in
    let* (mtime_sec, r) := Reader.i64 r in
    let* (mtime_nsec, r) := Reader.u32 r in
    let* (size, r) := Reader.u64 r in
    let* (rdev, r) := Reader.u64 r in
    let* (hardlink_group, r) := Reader.u32 r in
    let* (link_target, r) := Reader.u32_prefixed r in
    let* (path, r) := Reader.u16_prefixed r in
    let* (xattr_count, r) := Reader.u32 r in
    let* (acl, r) := Reader.u32_prefixed r in
    let* (refs_here, r) := Reader.u64 r in
    let* (xattrs, r) := Reader.push_n read_xattr xattr_count r in
    let* (chunk_refs_here, r) := Reader.push_n (Reader.array 32) refs_here r in
    if chunk_refs_total <? refs_here then
      Err (Corrupt "file entry carries more references than it declares")
    else
      Ok ({| fe_file_kind := file_kind; fe_mode := mode; fe_uid := uid; fe_gid := gid;
             fe_mtime_sec := mtime_sec; fe_mtime_nsec := mtime_nsec; fe_size := size;
             fe_rdev := rdev; fe_hardlink_group := hardlink_group;
             fe_link_target := link_target; fe_path := path; fe_xattrs := xattrs;
             fe_acl := acl; fe_chunk_refs_total := chunk_refs_total;
             fe_chunk_refs_here := chunk_refs_here |}, r).

Definition read `{ByteSource Src} (r : Src) : result (FileEntry * Src) :=
  let* (ver, r) := Reader.u16 r in
  if negb (ver =? MANIFEST_VER) then Err (Corrupt "manifest version {ver}")
  else
    let* (kind, r) := Reader.u8 r in
    if negb (kind =? SECTION_FILE_ENTRY) then Err (Corrupt "expected a file entry, got {kind}")
    else
      let* (_, r) := Reader.u8 r in
      read_body r.
End FileEntries.

(** ** Continuations and holes *)
Module Sections.
Definition write_continuation `{ByteSink W} (hashes : list bytes) (out : W) : result W :=
  let* out := put_u16 MANIFEST_VER out in
  let* out := put_u8 SECTION_FILE_CONTINUATION out in
  let* out := put_u8 0 out in
  let* out := put_u64 (zlen hashes) out in
  let* out := put_all put_bytes hashes out in
  Ok out.

Definition read_continuation `{ByteSource Src} (r : Src) : result (list bytes * Src) :=
  let* (ver, r) := Reader.u16 r in
  if negb (ver =? MANIFEST_VER) then Err (Corrupt "manifest version {ver}")
  else
    let* (kind, r) := Reader.u8 r in
    if negb (kind =? SECTION_FILE_CONTINUATION) then
      Err (Corrupt "expected a continuation, got {kind}")
    else
      let* (_, r) := Reader.u8 r in
      let* (count, r) := Reader.u64 r in
      Reader.push_n (Reader.array 32) count r.

Definition put_hole `{ByteSink W} (h : Z * Z) (out : W) : result W :=
  let* out := put_u64 (fst h) out in put_u64 (snd h) out.

Definition read_hole `{ByteSource Src} (r : Src) : result ((Z * Z) * Src) :=
  let* (offset, r) := Reader.u64 r in
  let* (len, r) := Reader.u64 r in
  Ok ((offset, len), r).

Definition write_holes `{ByteSink W} (holes : list (Z * Z)) (out : W) : result W :=
  let* out := put_u16 MANIFEST_VER out in
  let* out := put_u8 SECTION_FILE_HOLES out in
  let* out := put_u8 0 out in
  let* out := put_u64 (zlen holes) out in
  let* out := put_all put_hole holes out in
  Ok out.

Definition read_holes `{ByteSource Src} (r : Src) : result (list (Z * Z) * Src) :=
  let* (ver, r) := Reader.u16 r in
  if negb (ver =? MANIFEST_VER) then Err (Corrupt "manifest version {ver}")
  else
    let* (kind, r) := Reader.u8 r in
    if negb (kind =? SECTION_FILE_HOLES) then Err (Corrupt "expected a hole section, got {kind}")
    else
      let* (_, r) := Reader.u8 r in
      let* (count, r) := Reader.u64 r in
      Reader.push_n read_hole count r.

(** The [while] loops that gather the references of an entry, by sections
    read with [more]. A section consumes its header even when it brings
    nothing, so one more than the length of a cursor is enough fuel. *)
Fixpoint extend_refs {Src} (more : Src -> result (list bytes * Src)) (fuel : nat) (total : Z)
    (refs : list bytes) (r : Src) : result (list bytes * Src) :=
  if zlen refs <? total then
    match fuel with
    | O => Err (Unsupported "extend_refs: out of fuel")
    | S fuel =>
      let* (hashes, r) := more r in
      extend_refs more fuel total (refs ++ hashes) r
    end
  else Ok (refs, r).

Definition read_entry_with_continuations `{ByteSource Src} (fuel : nat) (r : Src) :
    result ((FileEntry * list bytes) * Src) :=
  let* (entry, r) := FileEntries.read r in
  let* (refs, r) :=
    extend_refs read_continuation fuel (fe_chunk_refs_total entry) (fe_chunk_refs_here entry) r in
  if fe_chunk_refs_total entry <? zlen refs then
    Err (Corrupt "continuations carry more chunk references than the entry declares")
  else Ok ((entry, refs), r).
End Sections.

(** ** Whole manifests *)
Module FileRecords.
(** The [while] loop of [write_record]: every turn moves [index] on, so the
    number of references is enough fuel. *)
Fixpoint write_rest `{ByteSink W} (fuel : nat) (refs : list bytes) (total : Z)
    (written index : nat) (out : W) : result W :=
  if Z.of_nat written <? total then
    match fuel with
    | O => Err (Unsupported "write_rest: out of fuel")
    | S fuel =>
      let end_ := Nat.min (index + FILE_REFS_PER_SECTION) (length refs) in
      if (end_ <=? index)%nat then
        Err (Corrupt "a file entry declares more references than it carries")
      else
        let* out := Sections.write_continuation (take (end_ - index) (drop index refs)) out in
        write_rest fuel refs total (written + (end_ - index)) end_ out
    end
  else Ok out.

Definition write_record `{ByteSink W} (record : FileRecord) (out : W) : result W :=
  let refs := fe_chunk_refs_here (fr_entry record) in
  let total := fe_chunk_refs_total (fr_entry record) in
  if total <? zlen refs then
    Err (Corrupt "a file entry carries more references than it declares")
  else
    let* out := FileEntries.write (fr_entry record) out in
    let* out := write_rest (S (length refs)) refs total (length refs) (length refs) out in
    if bool_decide (fr_holes record = []) then Ok out
    else Sections.write_holes (fr_holes record) out.

(** The continuation of [read_manifest]'s inner loop: unlike
    [read_continuation] it refuses an empty one. *)
Definition read_more (r : bytes) : result (list bytes * bytes) :=
  let* (ver, r) := Reader.u16 r in
  if negb (ver =? MANIFEST_VER) then Err (Corrupt "manifest version {ver}")
  else
    let* (kind, r) := Reader.u8 r in
    if negb (kind =? SECTION_FILE_CONTINUATION) then
      Err (Corrupt "expected a continuation, got {kind}")
    else
      let* (_, r) := Reader.u8 r in
      let* (count, r) := Reader.u64 r in
      if count =? 0 then Err (Corrupt "an empty continuation section")
      else Reader.push_n (Reader.array 32) count r.

(** The [SECTION_FILE_ENTRY] arm. *)
Definition read_entry (r : bytes) : result (FileRecord * bytes) :=
  let* (entry, r) := FileEntries.read_body r in
  let* (refs, r) := Sections.extend_refs read_more (S (length r)) (fe_chunk_refs_total entry)
    (fe_chunk_refs_here entry) r in
  if fe_chunk_refs_total entry <? zlen refs then
    Err (Corrupt "continuations carry more references than the entry declares")
  else Ok ({| fr_entry := with_refs entry refs; fr_holes := [] |}, r).

(** The [SECTION_FILE_HOLES] arm, on [records.last_mut()]. *)
Definition read_hole_section (records : list FileRecord) (r : bytes) :
    result (list FileRecord * bytes) :=
  let* (count, r) := Reader.u64 r in
  let* record := ok_or (last records) (Corrupt "a hole section without a file entry") in
  let* (holes, r) := Reader.push_n Sections.read_hole count r in
  Ok (removelast records ++
      [{| fr_entry := fr_entry record; fr_holes := fr_holes record ++ holes |}], r).

(** One section: its header and the arm for its kind. *)
Definition read_section (records : list FileRecord) (r : bytes) :
    result (list FileRecord * bytes) :=
  let* (ver, r) := Reader.u16 r in
  if negb (ver =? MANIFEST_VER) then Err (Corrupt "manifest version {ver}")
  else
    let* (kind, r) := Reader.u8 r in
    let* (_, r) := Reader.u8 r in
    if kind =? SECTION_FILE_ENTRY then
      let* (record, r) := read_entry r in Ok (records ++ [record], r)
    else if kind =? SECTION_FILE_HOLES then read_hole_section records r
    else Err (Corrupt "unknown file manifest section {other}").

(** The outer [while] loop; a section consumes at least its header. *)
Fixpoint read_sections (fuel : nat) (records : list FileRecord) (r : bytes) :
    result (list FileRecord) :=
  match r with
  | [] => Ok records
  | _ =>
    match fuel with
    | O => Err (Unsupported "read_sections: out of fuel")
    | S fuel => let* (records, r) := read_section records r in read_sections fuel records r
    end
  end.

Definition read_manifest (b : bytes) : result (list FileRecord) := read_sections (length b) [] b.
End FileRecords.

(** ** Encodings *)
Section encodings.
Definition xattr_ok (x : Xattr) : Prop := zlen (xa_name x) < 2 ^ 16 /\ zlen (xa_value x) < 2 ^ 16.
Definition hash_ok (h : bytes) : Prop := zlen h = 32.
Definition hole_ok (h : Z * Z) : Prop := u64_ok (fst h) /\ u64_ok (snd h).

Record entry_ok (e : FileEntry) : Prop := {
  ok_kind : FileEntries.known_kind (fe_file_kind e) = true;
  ok_mode : u32_ok (fe_mode e);
  ok_uid : u32_ok (fe_uid e);
  ok_gid : u32_ok (fe_gid e);
  ok_mtime : i64_ok (fe_mtime_sec e);
  ok_nsec : u32_ok (fe_mtime_nsec e);
  ok_size : u64_ok (fe_size e);
  ok_rdev : u64_ok (fe_rdev e);
  ok_group : u32_ok (fe_hardlink_group e);
  ok_target : zlen (fe_link_target e) < 2 ^ 32;
  ok_path : zlen (fe_path e) < 2 ^ 16;
  ok_xattrs : Forall xattr_ok (fe_xattrs e);
  ok_xattr_count : zlen (fe_xattrs e) < 2 ^ 32;
  ok_acl : zlen (fe_acl e) < 2 ^ 32;
  ok_total : u64_ok (fe_chunk_refs_total e);
  ok_refs : Forall hash_ok (fe_chunk_refs_here e);
  ok_here : zlen (fe_chunk_refs_here e) <= fe_chunk_refs_total e;
}.

Definition section_enc (kind : Z) : bytes :=
  le_bytes 2 MANIFEST_VER ++ le_bytes 1 kind ++ le_bytes 1 0.

Definition xattr_enc (x : Xattr) : bytes :=
  (le_bytes 2 (zlen (xa_name x)) ++ xa_name x) ++ (le_bytes 2 (zlen (xa_value x)) ++ xa_value x).

Definition body_enc (e : FileEntry) : bytes :=
  le_bytes 8 (fe_chunk_refs_total e) ++ le_bytes 1 (fe_file_kind e) ++ le_bytes 4 (fe_mode e) ++
  le_bytes 4 (fe_uid e) ++ le_bytes 4 (fe_gid e) ++ le_bytes 8 (fe_mtime_sec e) ++
  le_bytes 4 (fe_mtime_nsec e) ++ le_bytes 8 (fe_size e) ++ le_bytes 8 (fe_rdev e) ++
  le_bytes 4 (fe_hardlink_group e) ++ (le_bytes 4 (zlen (fe_link_target e)) ++ fe_link_target e) ++
  (le_bytes 2 (zlen (fe_path e)) ++ fe_path e) ++ le_bytes 4 (zlen (fe_xattrs e)) ++
  (le_bytes 4 (zlen (fe_acl e)) ++ fe_acl e) ++ le_bytes 8 (zlen (fe_chunk_refs_here e)) ++
  concat (map xattr_enc (fe_xattrs e)) ++ concat (fe_chunk_refs_here e).

Definition refs_enc (hashes : list bytes) : bytes := le_bytes 8 (zlen hashes) ++ concat hashes.

Definition hole_enc (h : Z * Z) : bytes := le_bytes 8 (fst h) ++ le_bytes 8 (snd h).
Definition holes_enc (holes : list (Z * Z)) : bytes :=
  le_bytes 8 (zlen holes) ++ concat (map hole_enc holes).

(** What [write_record] appends when all references are inline. *)
Definition record_enc (r : FileRecord) : bytes :=
  (section_enc SECTION_FILE_ENTRY ++ body_enc (fr_entry r)) ++
  (if bool_decide (fr_holes r = []) then []
   else section_enc SECTION_FILE_HOLES ++ holes_enc (fr_holes r)).
End encodings.

Lemma section_enc_app kind b :
  section_enc kind ++ b = le_bytes 2 MANIFEST_VER ++ le_bytes 1 kind ++ le_bytes 1 0 ++ b.
Proof. unfold section_enc. by rewrite <- !app_assoc. Qed.

Section writing.
Context `{ByteSinkLaws W}.

Lemma put_xattr_emits x : xattr_ok x -> emits (FileEntries.put_xattr x) (xattr_enc x).
Proof.
  intros [Hn Hv]. by apply (emits_seq _ _ _ _ (emits_put_u16_prefixed _ Hn) (emits_put_u16_prefixed _ Hv)).
Qed.

Lemma put_hashes_emits l : emits (put_all put_bytes l) (concat l).
Proof. rewrite <- (map_id l) at 2. apply emits_put_all. intros. apply emits_put_bytes. Qed.

Lemma put_hole_emits h : emits (Sections.put_hole h) (hole_enc h).
Proof. apply (emits_seq _ _ _ _ (emits_put_u64 _) (emits_put_u64 _)). Qed.

#[local] Hint Resolve put_hashes_emits : emits.

Lemma write_entry_emits e :
  entry_ok e -> emits (FileEntries.write e) (section_enc SECTION_FILE_ENTRY ++ body_enc e).
Proof.
  intros []. rewrite section_enc_app. unfold FileEntries.write, body_enc. rewrite ok_kind0. cbn [negb].
  assert (FileEntries.clamp_u32 (zlen (fe_xattrs e)) = zlen (fe_xattrs e)) as ->.
  { unfold FileEntries.clamp_u32, U32_MAX. rewrite (proj2 (Z.leb_le _ _)); lia. }
  assert (emits (put_all FileEntries.put_xattr (fe_xattrs e)) (concat (map xattr_enc (fe_xattrs e)))).
  { apply emits_put_all. rewrite List.Forall_forall in ok_xattrs0. auto using put_xattr_emits. }
  repeat emits_step.
Qed.

Lemma write_continuation_emits l :
  emits (Sections.write_continuation l) (section_enc SECTION_FILE_CONTINUATION ++ refs_enc l).
Proof.
  rewrite section_enc_app. unfold Sections.write_continuation, refs_enc. repeat emits_step.
Qed.

Lemma write_holes_emits l :
  emits (Sections.write_holes l) (section_enc SECTION_FILE_HOLES ++ holes_enc l).
Proof.
  rewrite section_enc_app. unfold Sections.write_holes, holes_enc.
  assert (emits (put_all Sections.put_hole l) (concat (map hole_enc l)))
    by (apply emits_put_all; intros; apply put_hole_emits).
  repeat emits_step.
Qed.

(** All references inline: no continuation is written. *)
Lemma write_record_emits r :
  entry_ok (fr_entry r) -> fe_chunk_refs_total (fr_entry r) = zlen (fe_chunk_refs_here (fr_entry r)) ->
  emits (FileRecords.write_record r) (record_enc r).
Proof.
  intros He Ht out Hok. unfold FileRecords.write_record. rewrite Ht, Z.ltb_irrefl.
  cbn [FileRecords.write_rest]. change (Z.of_nat (length ?l)) with (zlen l). rewrite Z.ltb_irrefl.
  unfold record_enc. rewrite write_app by done. rewrite (write_entry_emits _ He) by done.
  apply bind_ext. intros w Hw. cbn [bind]. apply write_sink_ok in Hw; [|done].
  case_bool_decide; [by rewrite write_nil|]. by apply write_holes_emits.
Qed.
End writing.

Section reading.
Context `{ByteSourceLaws Src}.

Lemma read_xattr_codec x : xattr_ok x -> codec FileEntries.read_xattr (xattr_enc x) x.
Proof.
  intros [Hn Hv]. unfold FileEntries.read_xattr, xattr_enc. repeat codec_step.
  destruct x. apply codec_ret.
Qed.

Lemma read_hashes_codec l n :
  n = zlen l -> Forall hash_ok l -> codec (Reader.push_n (Reader.array 32) n) (concat l) l.
Proof.
  intros Hn Hl. rewrite <- (map_id l) at 1. apply codec_push_n; [done|].
  rewrite List.Forall_forall in Hl. intros. by apply codec_array, Hl.
Qed.

Lemma read_hole_codec h : hole_ok h -> codec Sections.read_hole (hole_enc h) h.
Proof.
  intros [Ho Hl]. unfold Sections.read_hole, hole_enc. repeat codec_step. destruct h. apply codec_ret.
Qed.

Lemma read_holes_list_codec l n :
  n = zlen l -> Forall hole_ok l -> codec (Reader.push_n Sections.read_hole n) (concat (map hole_enc l)) l.
Proof.
  intros Hn Hl. apply codec_push_n; [done|]. rewrite List.Forall_forall in Hl.
  auto using read_hole_codec.
Qed.

Lemma known_kind_u8 k : FileEntries.known_kind k = true -> u8_ok k.
Proof.
  unfold FileEntries.known_kind, FILE_KIND_REGULAR, FILE_KIND_SPECIAL, u8_ok. intros. bprop. lia.
Qed.

Lemma read_body_codec e : entry_ok e -> codec FileEntries.read_body (body_enc e) e.
Proof.
  intros []. pose proof (known_kind_u8 _ ok_kind0). pose proof (zlen_nonneg (fe_xattrs e)).
  pose proof (zlen_nonneg (fe_chunk_refs_here e)). unfold u64_ok in ok_total0.
  assert (u32_ok (zlen (fe_xattrs e))) by (unfold u32_ok; lia).
  assert (u64_ok (zlen (fe_chunk_refs_here e))) by (unfold u64_ok; lia).
  assert (codec (Reader.push_n FileEntries.read_xattr (zlen (fe_xattrs e)))
    (concat (map xattr_enc (fe_xattrs e))) (fe_xattrs e)) as Hx.
  { apply codec_push_n; [done|]. rewrite List.Forall_forall in ok_xattrs0. auto using read_xattr_codec. }
  pose proof (read_hashes_codec _ _ eq_refl ok_refs0) as Hr.
  unfold FileEntries.read_body, body_enc. do 2 codec_step.
  codec_step; [by rewrite ok_kind0|]. do 13 codec_step.
  eapply codec_bind; [exact Hx|]. apply codec_tail. eapply codec_bind; [exact Hr|].
  codec_step; [by apply Z.ltb_ge|]. destruct e. apply codec_ret.
Qed.

Lemma read_entry_codec e :
  entry_ok e -> codec FileEntries.read (section_enc SECTION_FILE_ENTRY ++ body_enc e) e.
Proof.
  intros He. rewrite section_enc_app. unfold FileEntries.read.
  do 5 codec_step. by apply read_body_codec.
Qed.

Lemma read_continuation_codec l :
  Forall hash_ok l -> u64_ok (zlen l) ->
  codec Sections.read_continuation (section_enc SECTION_FILE_CONTINUATION ++ refs_enc l) l.
Proof.
  intros Hl Hz. rewrite section_enc_app. unfold Sections.read_continuation, refs_enc.
  do 6 codec_step. by apply read_hashes_codec.
Qed.

Lemma read_holes_codec l :
  Forall hole_ok l -> u64_ok (zlen l) ->
  codec Sections.read_holes (section_enc SECTION_FILE_HOLES ++ holes_enc l) l.
Proof.
  intros Hl Hz. rewrite section_enc_app. unfold Sections.read_holes, holes_enc.
  do 6 codec_step. by apply read_holes_list_codec.
Qed.
End reading.

(** ** Hostile manifests *)
Section hostile.
Lemma robust_read_xattr : robust 0 (FileEntries.read_xattr (Src := bytes)).
Proof. unfold FileEntries.read_xattr. repeat robust_step. Qed.

Lemma robust_hashes n : robust 0 (Reader.push_n (Reader.array (Src := bytes) 32) n).
Proof. by apply (robust_push_n 32), robust_array. Qed.

Lemma robust_holes n : robust 0 (Reader.push_n (Sections.read_hole (Src := bytes)) n).
Proof. apply (robust_push_n 0); [done|]. unfold Sections.read_hole. repeat robust_step. Qed.

Lemma robust_xattrs n : robust 0 (Reader.push_n (FileEntries.read_xattr (Src := bytes)) n).
Proof. by apply (robust_push_n 0), robust_read_xattr. Qed.

#[local] Hint Resolve robust_hashes robust_holes robust_xattrs : robust.

Lemma robust_read_body : robust 0 (FileEntries.read_body (Src := bytes)).
Proof. unfold FileEntries.read_body. repeat robust_step. Qed.

Lemma robust_read_entry_record : robust 0 (FileEntries.read (Src := bytes)).
Proof. unfold FileEntries.read. repeat robust_step. apply robust_read_body. Qed.

Lemma robust_continuation : robust 2 (Sections.read_continuation (Src := bytes)).
Proof.
  unfold Sections.read_continuation. apply (robust_weaken (2 + 0)); [done|].
  apply robust_bind; [apply robust_u16|intros]. repeat robust_step. apply robust_hashes.
Qed.

Lemma robust_read_holes : robust 0 (Sections.read_holes (Src := bytes)).
Proof. unfold Sections.read_holes. repeat robust_step. apply robust_holes. Qed.

Lemma robust_read_more : robust 2 FileRecords.read_more.
Proof.
  unfold FileRecords.read_more. apply (robust_weaken (2 + 0)); [done|].
  apply robust_bind; [apply robust_u16|intros]. repeat robust_step. apply robust_hashes.
Qed.

(** Every turn of the gathering loop consumes something. *)
Lemma robust_extend_refs more fuel total refs s :
  robust 2 more -> (length s < fuel)%nat ->
  match Sections.extend_refs more fuel total refs s with
  | Ok (_, s1) => zlen s1 <= zlen s
  | Err e => exists what, e = Corrupt what
  end.
Proof.
  intros Hm. revert refs s. induction fuel as [|fuel IH]; intros refs s Hf; [lia|].
  cbn [Sections.extend_refs]. destruct (zlen refs <? total); [|lia]. pose proof (Hm s) as Hr.
  destruct (more s) as [[hs s1]|]; [|done]. cbn [bind].
  specialize (IH (refs ++ hs) s1 ltac:(unfold zlen in Hr; lia)).
  destruct (Sections.extend_refs _ _ _ _ _) as [[? ?]|]; [lia|done].
Qed.

Lemma extend_refs_fuel more f1 f2 total refs s :
  robust 2 more -> (length s < f1)%nat -> (length s < f2)%nat ->
  Sections.extend_refs more f1 total refs s = Sections.extend_refs more f2 total refs s.
Proof.
  intros Hm. revert f2 refs s. induction f1 as [|f1 IH]; intros f2 refs s H1 H2; [lia|].
  destruct f2 as [|f2]; [lia|]. cbn [Sections.extend_refs]. case_match; [|done].
  pose proof (Hm s) as Hr. destruct (more s) as [[hs s1]|]; [|done]. cbn [bind].
  apply IH; unfold zlen in Hr; lia.
Qed.

Lemma robust_entry_arm : robust 0 FileRecords.read_entry.
Proof.
  apply (robust_bind_0 0 FileEntries.read_body (fun entry r =>
    let* (refs, r) := Sections.extend_refs FileRecords.read_more (S (length r))
      (fe_chunk_refs_total entry) (fe_chunk_refs_here entry) r in
    if fe_chunk_refs_total entry <? zlen refs then
      Err (Corrupt "continuations carry more references than the entry declares")
    else Ok ({| fr_entry := with_refs entry refs; fr_holes := [] |}, r)));
    [apply robust_read_body|done|]. intros e s.
  pose proof (robust_extend_refs FileRecords.read_more (S (length s)) (fe_chunk_refs_total e)
    (fe_chunk_refs_here e) s robust_read_more ltac:(lia)) as Hr.
  destruct (Sections.extend_refs _ _ _ _ _) as [[refs s1]|]; [|done]. cbn [bind].
  destruct (_ <? _); [eauto|lia].
Qed.

Lemma robust_section records : robust 2 (FileRecords.read_section records).
Proof.
  unfold FileRecords.read_section. apply (robust_weaken (2 + 0)); [done|].
  apply robust_bind; [apply robust_u16|intros]. robust_step; [apply robust_err|].
  do 2 robust_step. robust_step; [|robust_step; [|apply robust_err]].
  - eapply robust_bind_0; [apply robust_entry_arm|done|]. intros. robust_step.
  - unfold FileRecords.read_hole_section. robust_step. robust_step; [|repeat robust_step].
    destruct (last records); cbn; eauto.
Qed.

Lemma read_sections_fuel f1 f2 records s :
  (length s <= f1)%nat -> (length s <= f2)%nat ->
  FileRecords.read_sections f1 records s = FileRecords.read_sections f2 records s.
Proof.
  revert f2 records s. induction f1 as [|f1 IH]; intros f2 records s H1 H2.
  { destruct s; [by destruct f2|simpl in H1; lia]. }
  destruct s as [|x s]; [by destruct f2|]. destruct f2 as [|f2]; [simpl in H2; lia|].
  cbn [FileRecords.read_sections]. pose proof (robust_section records (x :: s)) as Hr.
  destruct (FileRecords.read_section records (x :: s)) as [[rs s1]|]; [|done]. cbn [bind].
  apply IH; unfold zlen in Hr; lia.
Qed.

Lemma read_sections_corrupt fuel records s :
  (length s <= fuel)%nat -> corrupt_only (FileRecords.read_sections fuel records s).
Proof.
  revert records s. induction fuel as [|fuel IH]; intros records s Hf;
    (destruct s as [|x s]; [done|]); [simpl in Hf; lia|].
  cbn [FileRecords.read_sections]. pose proof (robust_section records (x :: s)) as Hr.
  destruct (FileRecords.read_section records (x :: s)) as [[rs s1]|]; [|exact Hr]. cbn [bind].
  apply IH. unfold zlen in Hr. lia.
Qed.
End hostile.

(** ** Sections of a written manifest *)
Section sections.
Record record_ok (r : FileRecord) : Prop := {
  ro_entry : entry_ok (fr_entry r);
  ro_inline : fe_chunk_refs_total (fr_entry r) = zlen (fe_chunk_refs_here (fr_entry r));
  ro_holes : Forall hole_ok (fr_holes r);
  ro_count : u64_ok (zlen (fr_holes r));
}.

Lemma read_section_header records kind s :
  u8_ok kind ->
  FileRecords.read_section records (section_enc kind ++ s) =
  if kind =? SECTION_FILE_ENTRY then
    let* (record, r) := FileRecords.read_entry s in Ok (records ++ [record], r)
  else if kind =? SECTION_FILE_HOLES then FileRecords.read_hole_section records s
  else Err (Corrupt "unknown file manifest section {other}").
Proof.
  intros Hk. rewrite section_enc_app. unfold FileRecords.read_section.
  rewrite (codec_cursor Reader.u16 _ MANIFEST_VER) by by apply codec_u16. cbn [bind].
  rewrite Z.eqb_refl. cbn [negb]. rewrite (codec_cursor Reader.u8 _ kind) by by apply codec_u8.
  cbn [bind]. by rewrite (codec_cursor Reader.u8 _ 0) by by apply codec_u8.
Qed.

Lemma with_own_refs e : with_refs e (fe_chunk_refs_here e) = e.
Proof. by destruct e. Qed.

Lemma read_entry_inline e s :
  entry_ok e -> fe_chunk_refs_total e = zlen (fe_chunk_refs_here e) ->
  FileRecords.read_entry (body_enc e ++ s) = Ok ({| fr_entry := e; fr_holes := [] |}, s).
Proof.
  intros He Ht. unfold FileRecords.read_entry.
  rewrite (codec_cursor _ _ _ _ (read_body_codec e He)). cbn [bind Sections.extend_refs].
  rewrite Ht, Z.ltb_irrefl. cbn [bind]. by rewrite Z.ltb_irrefl, with_own_refs.
Qed.

Lemma read_hole_section_last records r holes s :
  Forall hole_ok holes -> u64_ok (zlen holes) ->
  FileRecords.read_hole_section (records ++ [r]) (holes_enc holes ++ s) =
  Ok (records ++ [{| fr_entry := fr_entry r; fr_holes := fr_holes r ++ holes |}], s).
Proof.
  intros Hh Hz. unfold FileRecords.read_hole_section, holes_enc. rewrite <- app_assoc.
  rewrite (codec_cursor Reader.u64 _ (zlen holes)) by by apply codec_u64. cbn [bind].
  rewrite last_snoc. cbn [ok_or bind].
  rewrite (codec_cursor _ _ _ _ (read_holes_list_codec holes _ eq_refl Hh)). cbn [bind].
  by rewrite removelast_last.
Qed.

(** A section on the input is one turn of the loop. *)
Lemma read_sections_turn fuel records records' s s1 :
  (length s <= fuel)%nat -> FileRecords.read_section records s = Ok (records', s1) ->
  FileRecords.read_sections fuel records s = FileRecords.read_sections fuel records' s1.
Proof.
  intros Hf Hs. pose proof (robust_section records s) as Hr. rewrite Hs in Hr.
  destruct s as [|x s]; [pose proof (zlen_nonneg s1); rewrite zlen_nil in Hr; lia|].
  destruct fuel as [|fuel]; [simpl in Hf; lia|].
  transitivity (FileRecords.read_sections fuel records' s1);
    [cbn [FileRecords.read_sections]; by rewrite Hs|].
  apply read_sections_fuel; unfold zlen in Hr; lia.
Qed.

Lemma read_sections_records records : forall acc fuel s,
  Forall record_ok records -> (length (concat (map record_enc records) ++ s) <= fuel)%nat ->
  FileRecords.read_sections fuel acc (concat (map record_enc records) ++ s) =
  FileRecords.read_sections fuel (acc ++ records) s.
Proof.
  induction records as [|r records IH]; intros acc fuel s Hr Hf; [by rewrite app_nil_r|].
  inversion Hr as [|? ? [He Hi Hh Hz] Hrs]; subst. cbn [map concat] in *. unfold record_enc at 1.
  unfold record_enc at 1 in Hf. rewrite <- !app_assoc in Hf |- *.
  assert (forall tail fh, (length (tail ++ concat (map record_enc records) ++ s) <= fuel)%nat ->
    FileRecords.read_sections fuel (acc ++ [{| fr_entry := fr_entry r; fr_holes := fh |}])
      (concat (map record_enc records) ++ s) =
    FileRecords.read_sections fuel (acc ++ {| fr_entry := fr_entry r; fr_holes := fh |} :: records) s)
    as Hrest.
  { intros tail fh Hl. rewrite IH; [by rewrite <- app_assoc|done|].
    rewrite length_app in Hl. lia. }
  erewrite read_sections_turn; [|exact Hf|].
  2: { rewrite read_section_header by done. change (SECTION_FILE_ENTRY =? SECTION_FILE_ENTRY) with true.
       cbn match. by rewrite read_entry_inline. }
  rewrite !length_app in Hf. destruct r as [e holes]. cbn [fr_entry fr_holes] in *.
  case_bool_decide as Hnil.
  - subst holes. apply (Hrest []). rewrite !length_app. simpl. lia.
  - erewrite read_sections_turn; [|rewrite !length_app in *; lia|].
    2: { rewrite <- app_assoc, read_section_header by done. by apply read_hole_section_last. }
    apply (Hrest []). rewrite !length_app in *. simpl. lia.
Qed.
End sections.

(** ** Properties *)

(** A file manifest round-trips. The records of any list - entries with
    their attributes and inline chunk references, sparse regions included -
    are written one after the other into a buffer that [read_manifest] parses
    back to the same list. *)
Theorem file_manifest_roundtrip (records : list FileRecord) :
  Forall record_ok records ->
  exists b, put_all FileRecords.write_record records [] = Ok b /\
    FileRecords.read_manifest b = Ok records.
Proof.
  intros Hr. exists (concat (map record_enc records)). split.
  - refine (emits_put_all FileRecords.write_record record_enc records _ [] I).
    intros r Hin. rewrite List.Forall_forall in Hr. destruct (Hr r Hin). by apply write_record_emits.
  - unfold FileRecords.read_manifest.
    pose proof (read_sections_records records [] (length (concat (map record_enc records))) [] Hr) as Hs.
    rewrite app_nil_r in Hs. rewrite Hs by done. by destruct (length _).
Qed.

(** C39: On any byte string [read_manifest] ends, with a list of records or
    with [Corrupt]: no input makes its loops run longer than the input, and any
    larger bound gives the same answer. The same holds for reading one entry
    with its continuations, also when a continuation is empty. *)
Theorem file_manifest_total (b : bytes) :
  corrupt_only (FileRecords.read_manifest b) /\
  (forall fuel, (length b <= fuel)%nat ->
    FileRecords.read_sections fuel [] b = FileRecords.read_manifest b) /\
  (forall fuel, (length b < fuel)%nat ->
    corrupt_only (Sections.read_entry_with_continuations fuel b) /\
    Sections.read_entry_with_continuations fuel b =
    Sections.read_entry_with_continuations (S (length b)) b).
Proof.
  split_and!; [by apply read_sections_corrupt|intros; by apply read_sections_fuel|].
  intros fuel Hf. unfold Sections.read_entry_with_continuations.
  pose proof (robust_read_entry_record b) as Hr.
  destruct (FileEntries.read b) as [[e s]|]; [cbn [bind]|done].
  rewrite (extend_refs_fuel _ (S (length b)) fuel)
    by (apply robust_continuation || (unfold zlen in Hr; lia)).
  split; [|done]. pose proof (robust_extend_refs Sections.read_continuation fuel
    (fe_chunk_refs_total e) (fe_chunk_refs_here e) s robust_continuation
    ltac:(unfold zlen in Hr; lia)) as Hx.
  destruct (Sections.extend_refs _ _ _ _ _) as [[refs s1]|]; [|done]. cbn [bind].
  destruct (_ <? _); cbn; eauto.
Qed.

(** [write_record] never writes a continuation section. An entry is written
    with all its references inline when it declares exactly those, and is
    refused - after its entry section has gone out - when it declares more;
    the loop over continuations starts at the end of the references. *)
Theorem write_record_inline_only `{ByteSinkLaws W} (r : FileRecord) (Hr : entry_ok (fr_entry r)) :
  (fe_chunk_refs_total (fr_entry r) = zlen (fe_chunk_refs_here (fr_entry r)) ->
   emits (W := W) (FileRecords.write_record r) (record_enc r)) /\
  (zlen (fe_chunk_refs_here (fr_entry r)) < fe_chunk_refs_total (fr_entry r) ->
   forall out, sink_ok out ->
   FileRecords.write_record r out =
   (let* _ := write_bytes out (section_enc SECTION_FILE_ENTRY ++ body_enc (fr_entry r)) in
    Err (Corrupt "a file entry declares more references than it carries"))).
Proof.
  split; [by apply write_record_emits|]. intros Hlt out Hok. unfold FileRecords.write_record.
  rewrite (proj2 (Z.ltb_ge _ _)) by lia. rewrite (write_entry_emits _ Hr) by done.
  apply bind_ext. intros w _. cbn [FileRecords.write_rest].
  change (Z.of_nat (length ?l)) with (zlen l). rewrite (proj2 (Z.ltb_lt _ _)) by done.
  rewrite Nat.min_r by lia. by rewrite Nat.leb_refl.
Qed.

(** Continuations add up. An entry section that carries the first
    references of a file, followed by continuation sections with the others,
    reads back as the entry and all the references in order, from any source;
    a total that is smaller than what the sections carry is corrupt. *)
Theorem file_entry_continuations `{ByteSinkLaws W} `{ByteSourceLaws Src}
    (e : FileEntry) (conts : list (list bytes)) (fuel : nat) :
  entry_ok e -> Forall (fun l => l <> [] /\ Forall hash_ok l /\ u64_ok (zlen l)) conts ->
  (length conts <= fuel)%nat ->
  fe_chunk_refs_total e = zlen (fe_chunk_refs_here e ++ concat conts) ->
  exists b,
    emits (W := W) (fun out => let* out := FileEntries.write e out in
                               put_all Sections.write_continuation conts out) b /\
    codec (Src := Src) (Sections.read_entry_with_continuations fuel) b
      (e, fe_chunk_refs_here e ++ concat conts).
Proof.
  intros He Hc Hf Ht.
  exists ((section_enc SECTION_FILE_ENTRY ++ body_enc e) ++
          concat (map (fun l => section_enc SECTION_FILE_CONTINUATION ++ refs_enc l) conts)). split.
  - apply (emits_seq (FileEntries.write e)); [by apply write_entry_emits|].
    apply emits_put_all. intros. apply write_continuation_emits.
  - unfold Sections.read_entry_with_continuations. eapply codec_bind; [by apply read_entry_codec|].
    apply codec_tail. eapply codec_bind; [|rewrite Ht, Z.ltb_irrefl; apply codec_ret].
    rewrite Ht. generalize (fe_chunk_refs_here e) as refs. clear Ht He.
    revert fuel Hf. induction Hc as [|l conts (Hne & Hh & Hz) _ IH]; intros fuel Hf refs.
    + cbn. rewrite app_nil_r. destruct fuel; cbn [Sections.extend_refs]; rewrite Z.ltb_irrefl;
        apply codec_ret.
    + destruct fuel as [|fuel]; [simpl in Hf; lia|]. cbn [Sections.extend_refs map concat].
      rewrite (proj2 (Z.ltb_lt _ _)).
      2: { rewrite !zlen_app. apply zlen_pos in Hne. pose proof (zlen_nonneg (concat conts)). lia. }
      eapply codec_bind; [by apply read_continuation_codec|]. rewrite app_assoc.
      apply IH. simpl in Hf. lia.
Qed.
