(* ===== verification/Tree.v ===== *)
(** * File trees of an image ([file.rs], [plan.rs] of [crates/lr-engine/src], and
    [crates/lr-unsafe/src/beneath.rs])

    What a tree must look like before it is restored, and how content is written
    around its holes. The tree is the map from paths to records. *)

From S2P Require Import Prelude Maps Text Wire Files Manifest FileManifest.

Definition Tree := list (bytes * FileRecord).

Module Trees.
Definition SLASH : byte := Byte.x2f.
Definition DOT : byte := Byte.x2e.

(** [beneath::normal_components]; the error is [InvalidInput]. *)
Definition is_normal (name : bytes) : bool :=
  negb (bool_decide (name = [])) && negb (bool_decide (name = [DOT]))
  && negb (bool_decide (name = [DOT; DOT])).

Definition normal_components (relative : bytes) : option (list bytes) :=
  match relative with
  | [] => Some []
  | _ => let names := Text.split SLASH relative in
         if forallb is_normal names then Some names else None
  end.

(** [path.iter().rposition(|b| b == '/')], and what is before it. *)
Definition parent_of (path : bytes) : bytes :=
  match Text.rsplit_once SLASH path with Some (parent, _) => parent | None => [] end.

Definition is_directory (entries : Tree) (path : bytes) : bool :=
  match BMap.get path entries with
  | Some record => fe_file_kind (fr_entry record) =? FILE_KIND_DIRECTORY
  | None => false
  end.

(** One turn of the loop of [validate_tree_records]. *)
Definition check_path (entries : Tree) (path : bytes) : result unit :=
  match path with
  | [] => Ok tt
  | _ =>
    match normal_components path with
    | None => Err (Corrupt "the image contains the path {:?}, which is not a plain relative path; nothing was restored")
    | Some _ =>
      match parent_of path with
      | [] => Ok tt
      | parent =>
        if is_directory entries parent then Ok tt
        else Err (Corrupt "the image places {:?} below {:?}, which is not a directory of the image; nothing was restored")
      end
    end
  end.

Fixpoint forM {A} (f : A -> result unit) (l : list A) : result unit :=
  match l with
  | [] => Ok tt
  | x :: l => let* _ := f x in forM f l
  end.

Definition validate_tree_records (entries : Tree) : result unit :=
  forM (check_path entries) (BMap.keys entries).

(** ** [plan::file_tree] *)
Definition is_regular (e : FileEntry) : bool := fe_file_kind e =? FILE_KIND_REGULAR.

(** The loop over the holes; [last_end] is the end of the previous one. *)
Fixpoint check_holes (size : Z) (holes : list (Z * Z)) (last_end : Z) : result unit :=
  match holes with
  | [] => Ok tt
  | (offset, len) :: holes =>
    if (len =? 0) || (offset <? last_end) ||
       match checked_add offset len with Some hole_end => size <? hole_end | None => true end
    then Err (Corrupt "{} records the hole {offset}+{len}, which is empty, out of order or past its {}-byte size")
    else check_holes size holes (offset + len)
  end.

Definition check_record (record : FileRecord) : result unit :=
  let entry := fr_entry record in
  if negb (bool_decide (fr_holes record = [])) && negb (is_regular entry) then
    Err (Corrupt "{} records holes but is not a regular file")
  else check_holes (fe_size entry) (fr_holes record) 0.

(** The groups that regular files carry. *)
Definition groups (records : list FileRecord) : list Z :=
  map (fun r => fe_hardlink_group (fr_entry r))
    (List.filter (fun r => is_regular (fr_entry r) && negb (fe_hardlink_group (fr_entry r) =? 0))
       records).

Definition check_link (gs : list Z) (record : FileRecord) : result unit :=
  let entry := fr_entry record in
  if (fe_file_kind entry =? FILE_KIND_HARDLINK) &&
     negb (bool_decide (fe_hardlink_group entry ∈ gs)) then
    Err (Corrupt "{} is a hard link to group {}, which no file of the image carries")
  else Ok tt.

Definition file_tree (records : Tree) : result unit :=
  let values := map snd records in
  validate_tree_records records;;;
  forM check_record values;;;
  forM (check_link (groups values)) values.

(** [records.iter().map(|r| (r.entry.path, r)).collect()]. *)
Definition of_records (records : list FileRecord) : Tree :=
  BMap.collect (map (fun r => (fe_path (fr_entry r), r)) records).

(** ** Holes *)
(** One hole of the loop of [holes_hold_zeros]; after [file_tree] no sum of a
    hole wraps. *)
Definition hole_is_zero (position : Z) (plaintext : bytes) (hole : Z * Z) : result unit :=
  let '(offset, len) := hole in
  let end_ := (position + zlen plaintext) mod 2 ^ 64 in
  let from := Z.max offset position in
  let to := Z.min ((offset + len) mod 2 ^ 64) end_ in
  if to <=? from then Ok tt
  else
    let slice := sub (from - position) (to - from) plaintext in
    if existsb (fun b => negb (bool_decide (b = Byte.x00))) slice then
      Err (Corrupt "{} records a hole at {offset}+{len} over data")
    else Ok tt.

Definition holes_hold_zeros (holes : list (Z * Z)) (position : Z) (plaintext : bytes) :
    result unit :=
  forM (hole_is_zero position plaintext) holes.

(** [file::write_skipping_holes]; each turn of its loop passes a hole, writes up
    to one, seeks over one or ends, so three turns a hole are enough. *)
Fixpoint skip_passed (holes : list (Z * Z)) (position : Z) : list (Z * Z) :=
  match holes with
  | [] => []
  | (start, len) :: rest => if start + len <=? position then skip_passed rest position else holes
  end.

Fixpoint skipping_loop (fuel : nat) (offset : Z) (b : bytes) (holes : list (Z * Z)) (position : Z)
    (file : FileW) : result FileW :=
  let end_ := offset + zlen b in
  if end_ <=? position then Ok file
  else
    match fuel with
    | O => Err (Unsupported "write_skipping_holes: out of fuel")
    | S fuel =>
      let holes := skip_passed holes position in
      match holes with
      | (hole_start, hole_len) :: _ =>
        if hole_start <? end_ then
          let hole_end := hole_start + hole_len in
          if position <? hole_start then
            let write_end := Z.min hole_start end_ in
            let* file := File.write_all (sub (position - offset) (write_end - position) b) file in
            skipping_loop fuel offset b holes write_end file
          else
            let position := Z.min hole_end end_ in
            skipping_loop fuel offset b holes position (File.seek position file)
        else
          File.write_all (zdrop (position - offset) b) file
      | [] => File.write_all (zdrop (position - offset) b) file
      end
    end.

Definition write_skipping_holes (file : FileW) (offset : Z) (b : bytes) (holes : list (Z * Z)) :
    result FileW :=
  match holes, b with
  | [], _ | _, [] => File.write_all b file
  | _, _ => skipping_loop (S (2 * length holes)) offset b holes offset file
  end.

(** The content of one regular file, as [restore_file_inner] and
    [tree::restore_entry] write it: chunk after chunk into a new file, then
    [set_len]. *)
Fixpoint write_chunks (holes : list (Z * Z)) (offset : Z) (plaintexts : list bytes) (file : FileW) :
    result (Z * FileW) :=
  match plaintexts with
  | [] => Ok (offset, file)
  | plaintext :: plaintexts =>
    holes_hold_zeros holes offset plaintext;;;
    let* file := write_skipping_holes file offset plaintext holes in
    write_chunks holes (offset + zlen plaintext) plaintexts file
  end.

Definition set_len (n : Z) (file : FileW) : FileW :=
  {| fw_bytes := ztake n (fw_bytes file ++ zrep (n - zlen (fw_bytes file)) Byte.x00);
     fw_pos := fw_pos file; fw_cap := fw_cap file |}.

Definition restore_regular (record : FileRecord) (plaintexts : list bytes) (cap : Z) :
    result FileW :=
  let* (offset, file) := write_chunks (fr_holes record) 0 plaintexts (File.new cap) in
  if negb (offset =? fe_size (fr_entry record)) then
    Err (Corrupt "{} records {} bytes, its chunks hold {offset}")
  else Ok (set_len (fe_size (fr_entry record)) file).
End Trees.

(** ** Lemmas *)
Module TreeLemmas.
Import Trees TextLemmas.

Lemma forM_Ok {A} (f : A -> result unit) l :
  forM f l = Ok tt <-> Forall (fun x => f x = Ok tt) l.
Proof.
  induction l as [|x l IH]; [by split|]. cbn [forM]. rewrite Forall_cons, <- IH.
  destruct (f x) as [[]|e]; cbn; split; intros; try done; by destruct_and?.
Qed.

Lemma zrep_app {A} (a b : Z) (x : A) : 0 <= a -> 0 <= b -> zrep a x ++ zrep b x = zrep (a + b) x.
Proof. intros. unfold zrep. rewrite Z2Nat.inj_add by lia. by rewrite replicate_add. Qed.

Lemma sub_zrep {A} (off n m : Z) (x : A) :
  0 <= off -> 0 <= n -> off + n <= m -> sub off n (zrep m x) = zrep n x.
Proof.
  intros. unfold sub, ztake, zdrop, zrep. rewrite drop_replicate, take_replicate.
  f_equal. lia.
Qed.

(** [f] holds [content] once it is as long: zeros the file does not store yet
    are a hole. *)
Definition sparse (f : FileW) (content : bytes) : Prop :=
  fw_pos f = zlen content /\ zlen (fw_bytes f) <= zlen content /\
  fw_bytes f ++ zrep (zlen content - zlen (fw_bytes f)) Byte.x00 = content.

Lemma sparse_new cap : sparse (File.new cap) [].
Proof. by split_and!. Qed.

Lemma sparse_write f content b f' :
  sparse f content -> File.write_all b f = Ok f' -> sparse f' (content ++ b) /\ fw_cap f' = fw_cap f.
Proof.
  intros (Hp & Hl & Hc) Hw. unfold File.write_all in Hw. case_match; [|done]. injection Hw as <-.
  cbn [fw_cap fw_pos fw_bytes]. split; [|done].
  assert (File.overwrite (fw_pos f) b (fw_bytes f) = content ++ b) as Ho.
  { unfold File.overwrite. rewrite Hp, Hc. unfold put_at. rewrite ztake_all by lia.
    rewrite zdrop_all by (pose proof (zlen_nonneg b); lia). by rewrite app_nil_r. }
  unfold sparse. cbn [fw_cap fw_pos fw_bytes]. rewrite Ho, zlen_app, Hp, Z.sub_diag.
  split_and!; [done|lia|by rewrite app_nil_r].
Qed.

Lemma sparse_seek f content n :
  0 <= n -> sparse f content -> sparse (File.seek (zlen content + n) f) (content ++ zrep n Byte.x00).
Proof.
  intros Hn (Hp & Hl & Hc). unfold sparse, File.seek. cbn [fw_pos fw_bytes].
  rewrite zlen_app, zlen_zrep. split_and!; [lia|lia|].
  transitivity ((fw_bytes f ++ zrep (zlen content - zlen (fw_bytes f)) Byte.x00) ++ zrep n Byte.x00);
    [|by rewrite Hc]. rewrite <- app_assoc, zrep_app by lia. do 2 f_equal. lia.
Qed.

Lemma sparse_set_len f content : sparse f content -> fw_bytes (set_len (zlen content) f) = content.
Proof. intros (_ & _ & Hc). unfold set_len. cbn [fw_bytes]. rewrite Hc. by apply ztake_all. Qed.

(** What [check_holes] leaves: in order and inside the file. *)
Definition hole_inside (size e : Z) (h : Z * Z) : Prop :=
  e <= fst h /\ 0 < snd h /\ fst h + snd h <= size.

Lemma check_holes_Ok size holes e :
  Forall hole_ok holes -> check_holes size holes e = Ok tt -> Forall (hole_inside size e) holes.
Proof.
  intros Hok. revert e. induction Hok as [|[o l] holes [Ho Hl] _ IH]; intros e Hc; [done|].
  unfold u64_ok in *. cbn [fst snd] in *.
  cbn [check_holes] in Hc. destruct (_ || _) eqn:E; [done|]. apply orb_false_iff in E as [E Ec].
  apply orb_false_iff in E as [E1 E2]. apply Z.eqb_neq in E1. apply Z.ltb_ge in E2.
  destruct (checked_add o l) as [he|] eqn:Ea; [|done]. apply checked_add_Some in Ea as [-> _].
  apply Z.ltb_ge in Ec. constructor; [unfold hole_inside; cbn; lia|].
  eapply Forall_impl; [exact (IH _ Hc)|]. unfold hole_inside. lia.
Qed.

(** The part of a hole inside a chunk holds zeros. *)
Definition zero_over (offset : Z) (b : bytes) (h : Z * Z) : Prop :=
  forall from to, Z.max (fst h) offset <= from -> from <= to ->
    to <= Z.min (fst h + snd h) (offset + zlen b) ->
    sub (from - offset) (to - from) b = zrep (to - from) Byte.x00.

Lemma existsb_zeros l :
  existsb (fun b => negb (bool_decide (b = Byte.x00))) l = false -> l = zrep (zlen l) Byte.x00.
Proof.
  induction l as [|x l IH]; [done|]. cbn [existsb]. intros [Hx Hl]%orb_false_iff.
  apply negb_false_iff, bool_decide_eq_true in Hx as ->. rewrite zlen_cons. specialize (IH Hl).
  pose proof (zlen_nonneg l). rewrite <- zrep_app by lia. by rewrite <- IH.
Qed.

Lemma hole_is_zero_Ok offset b h size :
  0 <= offset -> offset + zlen b < 2 ^ 64 -> size < 2 ^ 64 -> hole_ok h -> hole_inside size 0 h ->
  hole_is_zero offset b h = Ok tt -> zero_over offset b h.
Proof.
  destruct h as [o l]. intros Hoff Hb Hs [Ho Hl] (_ & _ & Hin) Hz from to Hf Hft Ht.
  unfold u64_ok in *. cbn [fst snd] in *. unfold hole_is_zero in Hz. pose proof (zlen_nonneg b).
  rewrite !Z.mod_small in Hz by lia. set (F := Z.max o offset) in *.
  set (T := Z.min (o + l) (offset + zlen b)) in *.
  destruct (Z.leb_spec T F) as [Hle|Hlt].
  - assert (to = from) as -> by lia. rewrite Z.sub_diag. unfold sub. by rewrite ztake_nonpos by lia.
  - destruct (existsb _ _) eqn:E; [done|]. apply existsb_zeros in E.
    rewrite zlen_sub in E by lia.
    replace (sub (from - offset) (to - from) b) with (sub (from - F) (to - from) (sub (F - offset) (T - F) b)).
    + rewrite E. apply sub_zrep; lia.
    + unfold sub, ztake, zdrop. rewrite !skipn_firstn_comm, !take_take, !drop_drop.
      f_equal; [lia|]. f_equal. lia.
Qed.
(** Writing [b] behind [content]: it is there, or the disk is full. *)
Definition writes (f : FileW) (content b : bytes) (r : result FileW) : Prop :=
  (exists f', r = Ok f' /\ sparse f' (content ++ b) /\ fw_cap f' = fw_cap f) \/
  (r = Err (Io StorageFull) /\ fw_cap f < zlen content + zlen b).

Lemma write_all_writes f content b : sparse f content -> writes f content b (File.write_all b f).
Proof.
  intros Hf. destruct (File.write_all b f) as [f'|e] eqn:E.
  - left. exists f'. destruct (sparse_write f content b f' Hf E). done.
  - right. unfold File.write_all in E. destruct Hf as [Hp _]. case_match eqn:Hc; [done|].
    injection E as <-. apply Z.leb_gt in Hc. split; [done|lia].
Qed.

Lemma writes_app f content a b r r' f1 :
  r = Ok f1 -> sparse f1 (content ++ a) -> fw_cap f1 = fw_cap f ->
  writes f1 (content ++ a) b r' -> writes f content (a ++ b) r'.
Proof.
  intros -> Hs Hc [(f' & -> & Hf' & Hc')|[-> Hl]].
  - left. exists f'. rewrite app_assoc. split_and!; [done|done|congruence].
  - right. rewrite zlen_app in *. split; [done|lia].
Qed.

Lemma zdrop_split (p q : Z) (b : bytes) :
  0 <= p -> p <= q -> zdrop p b = sub p (q - p) b ++ zdrop q b.
Proof.
  intros. unfold sub. rewrite <- (ztake_zdrop (q - p) (zdrop p b)) at 1. f_equal.
  rewrite zdrop_zdrop by lia. f_equal. lia.
Qed.

Definition turns_left (holes : list (Z * Z)) (position : Z) : nat :=
  2 * length holes + match holes with (s, _) :: _ => if s <=? position then 0 else 1 | [] => 1 end.

Lemma skip_passed_suffix holes position : exists passed, holes = passed ++ skip_passed holes position.
Proof.
  induction holes as [|[s l] holes [passed IH]]; [by exists []|]. cbn [skip_passed].
  case_match; [|by exists []]. exists ((s, l) :: passed). by rewrite <- app_comm_cons, <- IH.
Qed.

Lemma skip_passed_turns holes position : (turns_left (skip_passed holes position) position <= turns_left holes position)%nat.
Proof.
  induction holes as [|[s l] holes IH]; [done|]. cbn [skip_passed]. case_match; [|done].
  etransitivity; [exact IH|]. unfold turns_left. cbn [length]. destruct holes as [|[s1 l1] ?]; repeat case_match; lia.
Qed.

Lemma skip_passed_head holes position s l rest :
  skip_passed holes position = (s, l) :: rest -> position < s + l.
Proof.
  induction holes as [|[s0 l0] holes IH]; [done|]. cbn [skip_passed].
  destruct (Z.leb_spec (s0 + l0) position); [done|]. intros [= -> -> _]. lia.
Qed.

Lemma skipping_loop_spec offset b : 0 <= offset -> forall fuel holes position f content,
  Forall (fun h => 0 < snd h /\ zero_over offset b h) holes ->
  offset <= position <= offset + zlen b -> sparse f content -> zlen content = position ->
  offset + zlen b <= position \/ (turns_left (skip_passed holes position) position <= fuel)%nat ->
  writes f content (zdrop (position - offset) b) (skipping_loop fuel offset b holes position f).
Proof.
  intros Hoff. induction fuel as [|fuel IH]; intros holes position f content Hh Hp Hs Hl Hf;
    cbn [skipping_loop]; (destruct (Z.leb_spec (offset + zlen b) position) as [He|He];
    [left; exists f; rewrite zdrop_all by lia; by rewrite app_nil_r|]);
    destruct Hf as [|Hf]; try lia.
  { unfold turns_left in Hf. destruct (skip_passed holes position) as [|[s l] rest]; cbn in Hf; lia. }
  assert (Forall (fun h => 0 < snd h /\ zero_over offset b h) (skip_passed holes position)) as Hh1.
  { destruct (skip_passed_suffix holes position) as [passed Hx]. rewrite Hx in Hh.
    by apply Forall_app in Hh as [_ Hh]. }
  pose proof (fun s l rest => skip_passed_head holes position s l rest) as Hhead.
  destruct (skip_passed holes position) as [|[s l] rest]; [by apply write_all_writes|].
  specialize (Hhead s l rest eq_refl). inversion Hh1 as [|? ? [Hl0 Hz] Hrest]; subst.
  unfold turns_left in Hf. cbn [snd length] in *.
  destruct (Z.ltb_spec s (offset + zlen b)) as [Hse|Hse]; [|by apply write_all_writes].
  destruct (Z.ltb_spec (zlen content) s) as [Hps|Hps].
  - rewrite Z.min_l by lia.
    rewrite (zdrop_split (zlen content - offset) (s - offset)) by lia.
    replace (s - offset - (zlen content - offset)) with (s - zlen content) by lia.
    destruct (write_all_writes f content (sub (zlen content - offset) (s - zlen content) b) Hs)
      as [(f1 & -> & Hs1 & Hc1)|[-> Hc]].
    + cbn [bind]. eapply writes_app; [done|exact Hs1|exact Hc1|]. apply IH; [done|lia|done| |].
      * rewrite zlen_app, zlen_sub by lia. lia.
      * right. unfold turns_left. cbn [skip_passed]. rewrite (proj2 (Z.leb_gt (s + l) s)) by lia.
        rewrite (proj2 (Z.leb_gt s (zlen content))) in Hf by lia. rewrite Z.leb_refl. cbn [length]. lia.
    + right. rewrite zlen_app. split; [done|]. pose proof (zlen_nonneg (zdrop (s - offset) b)). lia.
  - set (p1 := Z.min (s + l) (offset + zlen b)).
    rewrite (zdrop_split (zlen content - offset) (p1 - offset)) by lia.
    replace (p1 - offset - (zlen content - offset)) with (p1 - zlen content) by lia.
    replace (sub (zlen content - offset) (p1 - zlen content) b)
      with (zrep (p1 - zlen content) Byte.x00) by (symmetry; apply Hz; cbn [fst snd]; lia).
    pose proof (sparse_seek f content (p1 - zlen content) ltac:(lia) Hs) as Hs1.
    replace (zlen content + (p1 - zlen content)) with p1 in Hs1 by lia.
    eapply writes_app; [reflexivity|exact Hs1|done|]. apply IH; [done|lia|done| |].
    + rewrite zlen_app, zlen_zrep. lia.
    + destruct (Z.le_gt_cases (offset + zlen b) p1) as [|Hlt]; [by left|right].
      assert (p1 = s + l) as -> by lia. cbn [skip_passed]. rewrite Z.leb_refl.
      etransitivity; [apply skip_passed_turns|]. unfold turns_left.
      rewrite (proj2 (Z.leb_le s (zlen content))) in Hf by lia.
      destruct rest as [|[s1 l1] ?]; cbn [length] in *; [lia|]. case_match; lia.
Qed.

Lemma write_skipping_holes_spec f content b holes :
  Forall (fun h => 0 < snd h /\ zero_over (zlen content) b h) holes -> sparse f content ->
  writes f content b (write_skipping_holes f (zlen content) b holes).
Proof.
  intros Hh Hs. unfold write_skipping_holes. pose proof (zlen_nonneg content). pose proof (zlen_nonneg b).
  destruct holes as [|h holes]; [by apply write_all_writes|].
  destruct b as [|x b]; [by apply write_all_writes|].
  replace (x :: b) with (zdrop (zlen content - zlen content) (x :: b)) at 1
    by (rewrite Z.sub_diag; by apply zdrop_nonpos).
  apply skipping_loop_spec; [lia|done|lia|done|done|]. right.
  etransitivity; [apply skip_passed_turns|]. unfold turns_left. destruct h as [s l]. cbn [length].
  case_match; lia.
Qed.
Lemma zrep_existsb n : existsb (fun b => negb (bool_decide (b = Byte.x00))) (zrep n Byte.x00) = false.
Proof. unfold zrep. by induction (Z.to_nat n). Qed.

(** A hole over zeros passes the check of every chunk. *)
Lemma hole_is_zero_complete pre b post h size :
  zlen pre + zlen b < 2 ^ 64 -> size < 2 ^ 64 -> hole_inside size 0 h ->
  zero_over 0 (pre ++ b ++ post) h -> hole_is_zero (zlen pre) b h = Ok tt.
Proof.
  destruct h as [o l]. intros Hb Hs (Ho & Hl & Hin) Hz. cbn [fst snd] in *. unfold hole_is_zero.
  pose proof (zlen_nonneg pre). pose proof (zlen_nonneg b). pose proof (zlen_nonneg post).
  rewrite !Z.mod_small by lia. set (F := Z.max o (zlen pre)). set (T := Z.min (o + l) (zlen pre + zlen b)).
  destruct (Z.leb_spec T F) as [|Hlt]; [done|].
  assert (sub (F - zlen pre) (T - F) b = zrep (T - F) Byte.x00) as ->; [|by rewrite zrep_existsb].
  rewrite <- (Hz F T) by (cbn [fst snd]; rewrite ?zlen_app; lia). rewrite Z.sub_0_r.
  rewrite sub_skip by lia. symmetry. apply sub_inside; lia.
Qed.

Lemma write_chunks_Ok holes plaintexts size : forall f content o f',
  Forall hole_ok holes -> Forall (hole_inside size 0) holes -> size < 2 ^ 64 ->
  zlen content + zlen (concat plaintexts) < 2 ^ 64 -> sparse f content ->
  write_chunks holes (zlen content) plaintexts f = Ok (o, f') ->
  sparse f' (content ++ concat plaintexts) /\ o = zlen (content ++ concat plaintexts).
Proof.
  induction plaintexts as [|b ps IH]; intros f content o f' Hok Hin Hs Hlen Hsp Hw; cbn [write_chunks concat] in *.
  - injection Hw as <- <-. by rewrite app_nil_r.
  - rewrite zlen_app in Hlen. pose proof (zlen_nonneg (concat ps)). pose proof (zlen_nonneg content).
    apply bind_Ok in Hw as ([] & Hz & Hw). apply bind_Ok in Hw as (f1 & Hf1 & Hw).
    unfold holes_hold_zeros in Hz. apply forM_Ok in Hz.
    assert (Forall (fun h => 0 < snd h /\ zero_over (zlen content) b h) holes) as Hh.
    { rewrite List.Forall_forall in *. intros h Hh. split; [by apply Hin|].
      eapply hole_is_zero_Ok with (size := size); auto; lia. }
    destruct (write_skipping_holes_spec f content b holes Hh Hsp) as [(f2 & Heq & Hs2 & _)|[Heq _]];
      rewrite Heq in Hf1; [|done]. injection Hf1 as <-.
    rewrite <- zlen_app in Hw. rewrite app_assoc. apply (IH f2); try done. rewrite zlen_app. lia.
Qed.

Lemma write_chunks_total holes plaintexts size : forall f content,
  Forall hole_ok holes -> Forall (hole_inside size 0) holes -> size < 2 ^ 64 ->
  zlen content + zlen (concat plaintexts) < 2 ^ 64 ->
  Forall (zero_over 0 (content ++ concat plaintexts)) holes ->
  zlen content + zlen (concat plaintexts) <= fw_cap f -> sparse f content ->
  exists o f', write_chunks holes (zlen content) plaintexts f = Ok (o, f').
Proof.
  induction plaintexts as [|b ps IH]; intros f content Hok Hin Hs Hlen Hz Hc Hsp; cbn [write_chunks concat] in *.
  - eauto.
  - rewrite zlen_app in Hlen, Hc. pose proof (zlen_nonneg (concat ps)). pose proof (zlen_nonneg content).
    assert (Forall (fun h => hole_is_zero (zlen content) b h = Ok tt) holes) as Hzb.
    { rewrite List.Forall_forall in *. intros h Hh.
      eapply hole_is_zero_complete with (size := size) (post := concat ps); auto; lia. }
    unfold holes_hold_zeros. rewrite (proj2 (forM_Ok _ _) Hzb). cbn [bind].
    assert (Forall (fun h => 0 < snd h /\ zero_over (zlen content) b h) holes) as Hh.
    { rewrite List.Forall_forall in *. intros h Hh. split; [by apply Hin|].
      eapply hole_is_zero_Ok with (size := size); auto; lia. }
    destruct (write_skipping_holes_spec f content b holes Hh Hsp) as [(f2 & Heq & Hs2 & Hc2)|[_ Hx]]; [|lia].
    rewrite Heq. cbn [bind]. rewrite <- zlen_app. rewrite app_assoc in Hz.
    apply IH; try done; rewrite ?zlen_app; lia.
Qed.

(** ** Paths *)
Lemma split_app c a b :
  Text.split c (a ++ [c] ++ b) = Text.split c a ++ Text.split c b.
Proof.
  induction a as [|x a IH]; cbn [app Text.split]; [by rewrite bool_decide_eq_true_2|].
  cbn [app] in IH. case_bool_decide; [by rewrite IH|]. rewrite IH.
  destruct (Text.split c a) as [|y l] eqn:E; [|done].
  exfalso. clear -E. destruct a as [|z a]; cbn in E; [done|].
  case_bool_decide; [done|]. by destruct (Text.split c a).
Qed.

(** The components of an accepted path and of everything before a slash of it
    are normal. *)
Definition plain (path : bytes) : Prop := Forall (fun n => is_normal n = true) (Text.split SLASH path).

Lemma normal_components_plain path names :
  path <> [] -> normal_components path = Some names -> plain path.
Proof.
  intros Hp. unfold normal_components. destruct path as [|x path]; [done|].
  destruct (forallb _ _) eqn:E; [|done]. intros _.
  unfold plain. rewrite List.Forall_forall. by apply forallb_forall.
Qed.

Lemma plain_app a b : plain (a ++ [SLASH] ++ b) <-> plain a /\ plain b.
Proof. unfold plain. by rewrite split_app, Forall_app. Qed.

Lemma plain_nonempty a : plain a -> a <> [].
Proof. intros Ha ->. unfold plain in Ha. cbn in Ha. by inversion Ha. Qed.

Lemma is_directory_key t path : is_directory t path = true -> In path (BMap.keys t).
Proof.
  unfold is_directory. intros Hd. induction t as [|[k r] t IH]; [done|]. cbn [BMap.get BMap.keys map] in *.
  case_bool_decide; [left; by subst|right; by apply IH].
Qed.

Lemma check_path_Ok t path :
  check_path t path = Ok tt -> path <> [] ->
  plain path /\ (parent_of path = [] \/ is_directory t (parent_of path) = true).
Proof.
  unfold check_path. destruct path as [|x path]; [done|].
  destruct (normal_components (x :: path)) as [names|] eqn:E; [|done]. intros Hc _.
  split; [by apply normal_components_plain in E|].
  destruct (parent_of (x :: path)) as [|y parent]; [by left|right]. by destruct (is_directory t _).
Qed.

(** Every proper ancestor of an accepted path is a directory of the tree. *)
Lemma ancestors_are_directories t : validate_tree_records t = Ok tt -> forall n path a rest,
  (length rest <= n)%nat -> In path (BMap.keys t) -> path = a ++ [SLASH] ++ rest ->
  is_directory t a = true.
Proof.
  intros Hv. unfold validate_tree_records in Hv. apply forM_Ok in Hv.
  rewrite List.Forall_forall in Hv. induction n as [n IH] using lt_wf_ind. intros path a rest Hn Hin ->.
  destruct (check_path_Ok t _ (Hv _ Hin)) as [Hp Hpar]; [by destruct a|].
  apply plain_app in Hp as [Ha Hr]. apply plain_nonempty in Ha.
  unfold parent_of in Hpar. destruct (Text.rsplit_once SLASH rest) as [[r1 r2]|] eqn:E.
  - apply rsplit_once_Some in E as [-> Hr2].
    rewrite (proj2 (rsplit_once_Some SLASH _ (a ++ [SLASH] ++ r1) r2)) in Hpar
      by (split; [by rewrite <- !app_assoc|done]).
    destruct Hpar as [Hx|Hd]; [by destruct a|].
    apply (IH (length r1)) with (path := a ++ [SLASH] ++ r1) (rest := r1); [|done|by apply is_directory_key|done].
    rewrite !length_app in Hn. cbn in Hn. lia.
  - assert (~ In SLASH rest) as Hns.
    { intros Hi. apply in_split in Hi as (l1 & l2 & ->). clear -E.
      unfold Text.rsplit_once in E. destruct (Text.split_once SLASH (rev (l1 ++ SLASH :: l2))) as [[? ?]|] eqn:E1; [done|].
      assert (In SLASH (rev (l1 ++ SLASH :: l2))) as Hi by (rewrite <- in_rev, in_app_iff; right; by left).
      clear E. induction (rev (l1 ++ SLASH :: l2)) as [|x l IH]; [done|]. cbn [Text.split_once] in E1.
      case_bool_decide; [done|]. destruct (Text.split_once SLASH l) as [[? ?]|]; [done|].
      destruct Hi; [done|]. by apply IH. }
    rewrite (proj2 (rsplit_once_Some SLASH _ a rest)) in Hpar by done. by destruct Hpar.
Qed.
End TreeLemmas.

(** ** Properties *)
Module TreeSpec.
Import Trees TextLemmas TreeLemmas.

(** Holes in order from [e] on, not empty, inside [size] bytes. *)
Fixpoint holes_from (size e : Z) (holes : list (Z * Z)) : Prop :=
  match holes with
  | [] => True
  | (offset, len) :: holes =>
    e <= offset /\ 0 < len /\ offset + len <= size /\ holes_from size (offset + len) holes
  end.

(** The numbers of a record that was read from an image. *)
Definition widths_ok (r : FileRecord) : Prop :=
  Forall hole_ok (fr_holes r) /\ u64_ok (fe_size (fr_entry r)).

Record tree_ok (t : Tree) : Prop := {
  to_paths : forall path, In path (BMap.keys t) -> path <> [] ->
    plain path /\
    forall ancestor rest, path = ancestor ++ [SLASH] ++ rest -> is_directory t ancestor = true;
  to_holes : forall r, In r (map snd t) -> fr_holes r <> [] -> is_regular (fr_entry r) = true;
  to_inside : forall r, In r (map snd t) -> holes_from (fe_size (fr_entry r)) 0 (fr_holes r);
  to_links : forall r, In r (map snd t) -> fe_file_kind (fr_entry r) = FILE_KIND_HARDLINK ->
    exists first, In first (map snd t) /\ is_regular (fr_entry first) = true /\
      fe_hardlink_group (fr_entry first) = fe_hardlink_group (fr_entry r) /\
      fe_hardlink_group (fr_entry r) <> 0;
}.

Lemma check_holes_iff size holes e :
  u64_ok size -> Forall hole_ok holes -> check_holes size holes e = Ok tt <-> holes_from size e holes.
Proof.
  intros Hs Hok. revert e. induction Hok as [|[o l] holes [Ho Hl] _ IH]; intros e; [done|].
  cbn [check_holes holes_from]. unfold u64_ok in *. cbn [fst snd] in *. rewrite <- IH.
  destruct (_ || _) eqn:E.
  - split; [done|]. intros (? & ? & ? & _). exfalso.
    apply orb_true_iff in E as [[E|E]%orb_true_iff|E]; [apply Z.eqb_eq in E; lia|apply Z.ltb_lt in E; lia|].
    unfold checked_add, U64_MAX in E. destruct (Z.leb_spec (o + l) (2 ^ 64 - 1)); [apply Z.ltb_lt in E|]; lia.
  - apply orb_false_iff in E as [[E1%Z.eqb_neq E2%Z.ltb_ge]%orb_false_iff E3].
    destruct (checked_add o l) as [x|] eqn:Ea; [|done]. apply checked_add_Some in Ea as [-> _].
    apply Z.ltb_ge in E3. split; [intros H; split_and!; try lia; exact H|by intros (_ & _ & _ & H)].
Qed.

Lemma groups_In g records :
  In g (groups records) <->
  exists r, In r records /\ is_regular (fr_entry r) = true /\
    fe_hardlink_group (fr_entry r) = g /\ g <> 0.
Proof.
  unfold groups. rewrite in_map_iff. split.
  - intros (r & <- & [Hr Hc]%filter_In). apply andb_true_iff in Hc as [Hk Hn].
    apply negb_true_iff, Z.eqb_neq in Hn. by exists r.
  - intros (r & Hr & Hk & <- & Hn). exists r. split; [done|]. apply filter_In. split; [done|].
    apply andb_true_iff. split; [done|]. by apply negb_true_iff, Z.eqb_neq.
Qed.

Lemma parent_complete t path :
  plain path -> path <> [] ->
  (forall a rest, path = a ++ [SLASH] ++ rest -> is_directory t a = true) ->
  check_path t path = Ok tt.
Proof.
  intros Hp Hn Ha. unfold check_path. destruct path as [|x path]; [done|].
  unfold normal_components. rewrite (proj2 (forallb_forall _ _)) by (by apply List.Forall_forall).
  unfold parent_of. destruct (Text.rsplit_once SLASH (x :: path)) as [[a r]|] eqn:E; [|done].
  apply rsplit_once_Some in E as [E _]. destruct a; [done|]. by rewrite (Ha _ r E).
Qed.

(** [file_tree] accepts exactly the trees that are safe to restore. Every
    path is made of plain components, and everything before a slash in it is
    itself a directory entry of the same image, so no entry can be written
    through a symlink, a file or a hard link, or outside the target; only
    regular files have holes, in order, not empty and inside the file; and
    every hard link names a group that a regular file of the image carries. *)
Theorem file_tree_spec (t : Tree) :
  Forall widths_ok (map snd t) -> file_tree t = Ok tt <-> tree_ok t.
Proof.
  intros Hw. rewrite List.Forall_forall in Hw. split.
  - intros Hf. unfold file_tree in Hf. apply bind_Ok in Hf as ([] & Hv & Hf).
    apply bind_Ok in Hf as ([] & Hr & Hl). apply forM_Ok in Hr, Hl.
    rewrite List.Forall_forall in Hr, Hl.
    assert (forall r, In r (map snd t) -> (fr_holes r <> [] -> is_regular (fr_entry r) = true) /\
      holes_from (fe_size (fr_entry r)) 0 (fr_holes r)) as Hh.
    { intros r Hin. specialize (Hr r Hin). unfold check_record in Hr. destruct (Hw r Hin).
      destruct (_ && _) eqn:E; [done|]. split; [|by apply check_holes_iff].
      intros Hn. apply andb_false_iff in E as [E|E]; bprop; done. }
    constructor.
    + intros path Hin Hn. pose proof Hv as Hv'. unfold validate_tree_records in Hv'.
      apply forM_Ok in Hv'. rewrite List.Forall_forall in Hv'.
      split; [by apply (check_path_Ok t path (Hv' _ Hin))|]. intros a rest Hp.
      by apply (ancestors_are_directories t Hv (length rest) path a rest).
    + intros r Hin. by apply Hh.
    + intros r Hin. by apply Hh.
    + intros r Hin Hk. specialize (Hl r Hin). unfold check_link in Hl.
      rewrite (proj2 (Z.eqb_eq _ _) Hk) in Hl. cbn [andb] in Hl.
      destruct (bool_decide (fe_hardlink_group (fr_entry r) ∈ groups (map snd t))) eqn:E; [|done].
      bprop. apply list_elem_of_In, groups_In in E as (f & Hf & Hreg & Hg & Hz). by exists f.
  - intros [Hp Hh Hi Hl]. unfold file_tree.
    assert (validate_tree_records t = Ok tt) as ->.
    { apply forM_Ok, List.Forall_forall. intros path Hin. destruct path as [|x path]; [done|].
      destruct (Hp _ Hin) as [Hpl Ha]; [done|]. by apply parent_complete. }
    cbn [bind]. rewrite (proj2 (forM_Ok check_record _)).
    + cbn [bind]. apply forM_Ok, List.Forall_forall. intros r Hin. unfold check_link.
      destruct (Z.eqb_spec (fe_file_kind (fr_entry r)) FILE_KIND_HARDLINK) as [Hk|]; [|done].
      destruct (Hl r Hin Hk) as (f & Hf & Hreg & Hg & Hz).
      rewrite bool_decide_eq_true_2; [done|]. apply list_elem_of_In, groups_In. by exists f.
    + apply List.Forall_forall. intros r Hin. unfold check_record. destruct (Hw r Hin).
      destruct (_ && _) eqn:E; [|apply check_holes_iff; auto].
      apply andb_true_iff in E as [E1 E2]. bprop. by rewrite Hh in E2.
Qed.

(** C35: A sparse file is restored byte for byte. For a record whose holes passed
    the checks of the tree, writing its chunks into a new file, seeking over the
    recorded holes and setting the length gives exactly the concatenation of the
    chunks, of exactly the recorded size; and it does succeed when that size is
    right, the holes lie over zeros and the disk has room. *)
Theorem sparse_restore_exact (record : FileRecord) (plaintexts : list bytes) (cap : Z) :
  widths_ok record -> check_record record = Ok tt -> zlen (concat plaintexts) < 2 ^ 64 ->
  (forall f, restore_regular record plaintexts cap = Ok f ->
    fw_bytes f = concat plaintexts /\ zlen (concat plaintexts) = fe_size (fr_entry record)) /\
  (zlen (concat plaintexts) = fe_size (fr_entry record) ->
   fe_size (fr_entry record) <= cap ->
   Forall (zero_over 0 (concat plaintexts)) (fr_holes record) ->
   exists f, restore_regular record plaintexts cap = Ok f).
Proof.
  intros [Hok Hs] Hc Hlen. unfold check_record in Hc. destruct (_ && _); [done|].
  apply check_holes_Ok in Hc; [|done]. unfold u64_ok in Hs. split.
  - intros f Hf. unfold restore_regular in Hf. apply bind_Ok in Hf as ([o f1] & Hw & Hf).
    destruct (write_chunks_Ok (fr_holes record) plaintexts (fe_size (fr_entry record)) (File.new cap) [] o f1)
      as [Hsp Ho]; [done|done|lia|by rewrite zlen_nil|apply sparse_new|done|].
    cbn [app] in *. destruct (Z.eqb_spec o (fe_size (fr_entry record))) as [Heq|]; [|done].
    injection Hf as <-. rewrite <- Heq, Ho. split; [by apply sparse_set_len|done].
  - intros Hl Hcap Hz. unfold restore_regular.
    destruct (write_chunks_total (fr_holes record) plaintexts (fe_size (fr_entry record)) (File.new cap) [])
      as (o & f1 & Hw); [done|done|lia|by rewrite zlen_nil|done|rewrite zlen_nil; cbn [fw_cap File.new]; lia|apply sparse_new|].
    rewrite zlen_nil in Hw. rewrite Hw. cbn [bind].
    destruct (write_chunks_Ok (fr_holes record) plaintexts (fe_size (fr_entry record)) (File.new cap) [] o f1)
      as [_ Ho]; [done|done|lia|by rewrite zlen_nil|apply sparse_new|done|].
    cbn [app] in Ho. rewrite Ho, Hl, Z.eqb_refl. by eexists.
Qed.

(** *** The numbers of a manifest read from an image *)
Lemma u64_width (s : bytes) v s' : Reader.u64 s = Ok (v, s') -> u64_ok v.
Proof.
  unfold Reader.u64, Reader.read_array, read_bytes, cursor_source. intros Hr.
  apply bind_Ok in Hr as ([b r] & Hb & Hr). injection Hr as <- _. destruct (8 <=? zlen s) eqn:E; [|done].
  apply Z.leb_le in E. injection Hb as <- _. pose proof (le_val_bound (ztake 8 s)) as Hv.
  replace (zlen (ztake 8 s)) with 8 in Hv by (rewrite zlen_ztake; lia). exact Hv.
Qed.

Lemma push_n_Forall {A} (P : A -> Prop) (read : bytes -> result (A * bytes)) n s l s' :
  (forall s x s', read s = Ok (x, s') -> P x) -> Reader.push_n read n s = Ok (l, s') -> Forall P l.
Proof.
  intros Hr Hp. unfold Reader.push_n in Hp.
  eapply (iterM_inv (fun x : list A * bytes => Forall P (fst x))) in Hp; [exact Hp| |constructor].
  intros [acc c1] [acc' c2] Ha He. apply bind_Ok in He as ([x c3] & Hx & He). injection He as <- <-.
  cbn [fst] in *. apply Forall_app. split; [done|]. constructor; [by eapply Hr|constructor].
Qed.

Lemma read_hole_width s h s' : Sections.read_hole s = Ok (h, s') -> hole_ok h.
Proof.
  unfold Sections.read_hole. intros Hr. apply bind_Ok in Hr as ([o s1] & Ho & Hr).
  apply bind_Ok in Hr as ([l s2] & Hl & Hr). injection Hr as <- _. split; by eapply u64_width.
Qed.

Lemma read_body_width (s : bytes) e s' : FileEntries.read_body s = Ok (e, s') -> u64_ok (fe_size e).
Proof.
  unfold FileEntries.read_body. intros Hr.
  repeat (first [ apply bind_Ok in Hr as ([? ?] & ? & Hr)
                | match type of Hr with (if ?b then _ else _) = _ => destruct b; [done|] end ]).
  injection Hr as <- _. cbn [fe_size].
  match goal with Hu : Reader.u64 _ = Ok (?x, _) |- u64_ok ?x => by apply u64_width in Hu end.
Qed.

Lemma read_section_widths records s records' s' :
  Forall widths_ok records -> FileRecords.read_section records s = Ok (records', s') -> Forall widths_ok records'.
Proof.
  intros Hw Hr. unfold FileRecords.read_section in Hr. apply bind_Ok in Hr as ([ver s1] & _ & Hr).
  destruct (negb _); [done|]. apply bind_Ok in Hr as ([kind s2] & _ & Hr).
  apply bind_Ok in Hr as ([z s3] & _ & Hr). destruct (kind =? SECTION_FILE_ENTRY).
  - apply bind_Ok in Hr as ([record s4] & He & Hr). injection Hr as <- _.
    apply Forall_app. split; [done|]. constructor; [|constructor].
    unfold FileRecords.read_entry in He. apply bind_Ok in He as ([e s5] & Hb & He).
    apply bind_Ok in He as ([refs s6] & _ & He). destruct (_ <? _); [done|]. injection He as <- _.
    split; [constructor|]. by apply read_body_width in Hb.
  - destruct (kind =? SECTION_FILE_HOLES); [|done]. unfold FileRecords.read_hole_section in Hr.
    apply bind_Ok in Hr as ([count s4] & _ & Hr). apply bind_Ok in Hr as (record & Hl & Hr).
    apply bind_Ok in Hr as ([holes s5] & Hh & Hr). injection Hr as <- _.
    apply ok_or_Ok, last_Some in Hl as [front ->]. rewrite removelast_last in *.
    apply Forall_app in Hw as [Hf Hrec]. apply Forall_app. split; [done|].
    constructor; [|constructor]. inversion Hrec as [|? ? [Hh0 Hs0] _]; subst. split; cbn [fr_holes fr_entry]; [|done].
    apply Forall_app. split; [done|]. eapply push_n_Forall; [|exact Hh]. apply read_hole_width.
Qed.

Lemma read_manifest_widths b records : FileRecords.read_manifest b = Ok records -> Forall widths_ok records.
Proof.
  unfold FileRecords.read_manifest. assert (Forall widths_ok []) as Hw by constructor. revert Hw.
  generalize (@nil FileRecord). generalize (length b) at 1. intros fuel. revert b.
  induction fuel as [|fuel IH]; intros [|x b] rs Hw Hr; cbn [FileRecords.read_sections] in Hr;
    try (by injection Hr as <-); [done|].
  apply bind_Ok in Hr as ([rs' b'] & Hs & Hr). apply (IH b' rs'); [|done]. by eapply read_section_widths.
Qed.

(** *** Chunks whose holes have been checked *)

(** [holes_hold_zeros] for every chunk at its place in the file. *)
Fixpoint holes_checked (holes : list (Z * Z)) (position : Z) (plaintexts : list bytes) : Prop :=
  match plaintexts with
  | [] => True
  | p :: plaintexts =>
    holes_hold_zeros holes position p = Ok tt /\ holes_checked holes (position + zlen p) plaintexts
  end.

Lemma write_checked holes size plaintexts : forall f content,
  Forall hole_ok holes -> Forall (hole_inside size 0) holes -> size < 2 ^ 64 ->
  zlen content + zlen (concat plaintexts) < 2 ^ 64 ->
  holes_checked holes (zlen content) plaintexts ->
  zlen content + zlen (concat plaintexts) <= fw_cap f -> sparse f content ->
  exists o f', write_chunks holes (zlen content) plaintexts f = Ok (o, f').
Proof.
  induction plaintexts as [|b ps IH]; intros f content Hok Hin Hs Hlen Hz Hc Hsp;
    cbn [write_chunks concat holes_checked] in *; [eauto|].
  rewrite zlen_app in Hlen, Hc. pose proof (zlen_nonneg (concat ps)). pose proof (zlen_nonneg content).
  destruct Hz as [Hb Hz]. rewrite Hb. cbn [bind]. unfold holes_hold_zeros in Hb. apply forM_Ok in Hb.
  assert (Forall (fun h => 0 < snd h /\ zero_over (zlen content) b h) holes) as Hh.
  { rewrite List.Forall_forall in *. intros h Hh. split; [by apply Hin|].
    eapply hole_is_zero_Ok with (size := size); auto; lia. }
  destruct (write_skipping_holes_spec f content b holes Hh Hsp) as [(f2 & Heq & Hs2 & Hc2)|[_ Hx]]; [|lia].
  rewrite Heq. cbn [bind]. rewrite <- zlen_app in Hz |- *. apply IH; try done; rewrite ?zlen_app; lia.
Qed.

(** A record whose chunks were checked this way, of the recorded size, restores. *)
Lemma restore_checked record plaintexts cap :
  widths_ok record -> check_record record = Ok tt -> zlen (concat plaintexts) < 2 ^ 64 ->
  holes_checked (fr_holes record) 0 plaintexts ->
  zlen (concat plaintexts) = fe_size (fr_entry record) -> fe_size (fr_entry record) <= cap ->
  exists f, restore_regular record plaintexts cap = Ok f /\ fw_bytes f = concat plaintexts.
Proof.
  intros [Hok Hs] Hc Hlen Hh Hsz Hcap. unfold check_record in Hc. destruct (_ && _); [done|].
  apply check_holes_Ok in Hc; [|done]. unfold u64_ok in Hs.
  destruct (write_checked (fr_holes record) (fe_size (fr_entry record)) plaintexts (File.new cap) [])
    as (o & f1 & Hw); [done|done|lia|by rewrite zlen_nil|done|rewrite zlen_nil; cbn [fw_cap File.new]; lia|apply sparse_new|].
  rewrite zlen_nil in Hw. unfold restore_regular. rewrite Hw. cbn [bind].
  destruct (write_chunks_Ok (fr_holes record) plaintexts (fe_size (fr_entry record)) (File.new cap) [] o f1)
    as [Hsp Ho]; [done|done|lia|by rewrite zlen_nil|apply sparse_new|done|].
  cbn [app] in *. rewrite Ho, Hsz, Z.eqb_refl. eexists. split; [done|]. rewrite <- Hsz. by apply sparse_set_len.
Qed.
End TreeSpec.
