(* ===== verification/EngineKeys.v ===== *)
(** * Engine key material ([crates/lr-engine/src/keys.rs])

    A backup derives the whole hierarchy once and stores only the wrapped chain
    key; a reader rebuilds it from the passphrase and the superblock. The bytes
    drawn from the system random source - salt, chain key and wrapping nonce -
    are arguments. *)

From S2P Require Import Prelude Core Crypto Keys Superblock.

Inductive Encryption := Passphrase (p : bytes) | NoEncrypt.

Record ImageKeys := { ik_data_key : option bytes; ik_meta_key : bytes; ik_dedup_key : bytes }.

Record NewChainKeys := {
  nk_keys : ImageKeys;
  nk_kdf_salt : bytes;
  nk_params : KdfParams;
  nk_wrap_nonce : bytes;
  nk_wrapped_chain_key : bytes;
  nk_encrypted : bool;
}.

(** What the random source returned. *)
Record Randomness := { rnd_salt : bytes; rnd_chain_key : bytes; rnd_nonce : bytes }.

Module EKeys.
Section ops.
Context `{Primitives}.

Definition image_keys (chain_key : bytes) (chain_id image_uuid : Id) (encrypted : bool) :
    result ImageKeys :=
  let* keys := Keys.file_keys chain_key image_uuid in
  let* dedup_key := Keys.dedup_key chain_key chain_id in
  Ok {| ik_data_key := if encrypted then Some (Keys.data_key keys) else None;
        ik_meta_key := Keys.meta_key keys; ik_dedup_key := dedup_key |}.

Definition chain_key_of (encryption : Encryption) (superblock : Superblock) :
    result (bytes * bool) :=
  if negb (Sb.is_encrypted superblock) then Ok (Mac.fixed_public_mac_key, false)
  else
    match encryption with
    | NoEncrypt => Err (Unsupported "this image is encrypted; supply a passphrase file")
    | Passphrase passphrase =>
      let* kek := Kdf.derive_kek passphrase (kdf_salt superblock) (Sb.kdf_params superblock) in
      let* chain_key :=
        Keys.unwrap_chain_key kek (chain_id superblock) (wrap_nonce superblock)
          (wrapped_chain_key superblock) in
      Ok (chain_key, true)
    end.

Definition zero_params : KdfParams :=
  {| Kdf.m_cost_kib := 0; Kdf.t_cost := 0; Kdf.p_cost := 0 |}.

Definition new_chain_keys (rnd : Randomness) (encryption : Encryption) (chain_id image_uuid : Id) :
    result NewChainKeys :=
  match encryption with
  | Passphrase passphrase =>
    let params := Kdf.default_params in
    let kdf_salt := rnd_salt rnd in
    let* kek := Kdf.derive_kek passphrase kdf_salt params in
    let chain_key := rnd_chain_key rnd in
    let* (wrap_nonce, wrapped_chain_key) :=
      Keys.wrap_chain_key (rnd_nonce rnd) kek chain_key chain_id in
    let* keys := image_keys chain_key chain_id image_uuid true in
    Ok {| nk_keys := keys; nk_kdf_salt := kdf_salt; nk_params := params;
          nk_wrap_nonce := wrap_nonce; nk_wrapped_chain_key := wrapped_chain_key;
          nk_encrypted := true |}
  | NoEncrypt =>
    let chain_key := Mac.fixed_public_mac_key in
    let* keys := image_keys chain_key chain_id image_uuid false in
    Ok {| nk_keys := keys; nk_kdf_salt := zrep 16 Byte.x00; nk_params := zero_params;
          nk_wrap_nonce := zrep 12 Byte.x00; nk_wrapped_chain_key := zrep 48 Byte.x00;
          nk_encrypted := false |}
  end.

Definition member_chain_keys (rnd : Randomness) (encryption : Encryption) (parent : Superblock)
    (chain : Id) (image_uuid : Id) : result NewChainKeys :=
  if negb (bool_decide (chain_id parent = chain)) then
    Err (Unsupported "parent belongs to chain {}, not {chain_id}")
  else if negb (Sb.is_encrypted parent) then
    match encryption with
    | Passphrase _ =>
      Err (Unsupported "the parent chain is not encrypted, and encryption cannot be added to an existing chain; start a new encrypted chain with a full backup, or back up without a passphrase to continue this one")
    | NoEncrypt =>
      let chain_key := Mac.fixed_public_mac_key in
      let* keys := image_keys chain_key chain image_uuid false in
      Ok {| nk_keys := keys; nk_kdf_salt := kdf_salt parent; nk_params := Sb.kdf_params parent;
            nk_wrap_nonce := zrep 12 Byte.x00; nk_wrapped_chain_key := zrep 48 Byte.x00;
            nk_encrypted := false |}
    end
  else
    match encryption with
    | NoEncrypt => Err (Unsupported "the chain is encrypted; supply a passphrase file")
    | Passphrase passphrase =>
      let* kek := Kdf.derive_kek passphrase (kdf_salt parent) (Sb.kdf_params parent) in
      let* chain_key :=
        Keys.unwrap_chain_key kek (chain_id parent) (wrap_nonce parent)
          (wrapped_chain_key parent) in
      let* (wrap_nonce, wrapped_chain_key) :=
        Keys.wrap_chain_key (rnd_nonce rnd) kek chain_key chain in
      let* keys := image_keys chain_key chain image_uuid true in
      Ok {| nk_keys := keys; nk_kdf_salt := kdf_salt parent; nk_params := Sb.kdf_params parent;
            nk_wrap_nonce := wrap_nonce; nk_wrapped_chain_key := wrapped_chain_key;
            nk_encrypted := true |}
    end.

Definition unlock_with_chain_key (chain_key : bytes) (chain : Id) (superblock : Superblock)
    (encrypted : bool) : result ImageKeys :=
  if negb (bool_decide (chain_id superblock = chain)) then
    Err (Unsupported "member {} belongs to chain {}, not {chain_id}")
  else image_keys chain_key chain (image_uuid superblock) encrypted.

Definition unlock_image (encryption : Encryption) (superblock : Superblock) : result ImageKeys :=
  if Sb.is_encrypted superblock then
    match encryption with
    | NoEncrypt => Err (Unsupported "this image is encrypted; supply a passphrase file")
    | Passphrase passphrase =>
      let* kek := Kdf.derive_kek passphrase (kdf_salt superblock) (Sb.kdf_params superblock) in
      let* chain_key :=
        Keys.unwrap_chain_key kek (chain_id superblock) (wrap_nonce superblock)
          (wrapped_chain_key superblock) in
      image_keys chain_key (chain_id superblock) (image_uuid superblock) true
    end
  else
    image_keys Mac.fixed_public_mac_key (chain_id superblock) (image_uuid superblock) false.

(** *** What the two unlocking paths have in common *)

(** [unlock_image] is [chain_key_of] followed by the derivation. *)
Lemma unlock_image_eq encryption s :
  unlock_image encryption s =
  let* (chain_key, encrypted) := chain_key_of encryption s in
  unlock_with_chain_key chain_key (chain_id s) s encrypted.
Proof.
  unfold unlock_image, chain_key_of, unlock_with_chain_key. rewrite bool_decide_true by done.
  destruct (Sb.is_encrypted s); [|done]. destruct encryption; [|done]. cbn [negb].
  rewrite bind_assoc. apply bind_ext. intros kek _. by rewrite bind_assoc.
Qed.

Lemma image_keys_data chain_key chain uuid encrypted k :
  image_keys chain_key chain uuid encrypted = Ok k ->
  is_Some (ik_data_key k) <-> encrypted = true.
Proof.
  unfold image_keys. intros Hk. inv_ok. cbn. destruct encrypted; split; try done; eauto.
Qed.

Context `{!PrimitiveLaws}.

Lemma image_keys_len chain_key chain uuid encrypted k :
  image_keys chain_key chain uuid encrypted = Ok k ->
  zlen (ik_meta_key k) = 32 /\ zlen (ik_dedup_key k) = 32 /\
  (forall d, ik_data_key k = Some d -> zlen d = 32).
Proof.
  unfold image_keys. intros Hk. inv_ok. cbn. apply Keys.file_keys_len in E as [Hd Hm].
  apply Keys.dedup_key_len in E0. split_and!; [done..|]. intros d. destruct encrypted; [|done].
  by intros [= <-].
Qed.

(** A superblock that carries the key fields of a new member. *)
Record carries (s : Superblock) (nk : NewChainKeys) (chain uuid : Id) : Prop := {
  ca_chain : chain_id s = chain;
  ca_uuid : image_uuid s = uuid;
  ca_salt : kdf_salt s = nk_kdf_salt nk;
  ca_params : Sb.kdf_params s = nk_params nk;
  ca_nonce : wrap_nonce s = nk_wrap_nonce nk;
  ca_wrapped : wrapped_chain_key s = nk_wrapped_chain_key nk;
  ca_flag : Sb.is_encrypted s = nk_encrypted nk;
}.

(** The chain key of a member that was wrapped is found again. *)
Lemma chain_key_wrapped pass salt params kek key nonce chain n w s nk uuid keys :
  Kdf.derive_kek pass salt params = Ok kek -> zlen key = Keys.CHAIN_KEY_LEN ->
  Keys.wrap_chain_key nonce kek key chain = Ok (n, w) ->
  nk = {| nk_keys := keys; nk_kdf_salt := salt; nk_params := params; nk_wrap_nonce := n;
          nk_wrapped_chain_key := w; nk_encrypted := true |} ->
  carries s nk chain uuid -> chain_key_of (Passphrase pass) s = Ok (key, true).
Proof.
  intros Hk Hz Hw -> []. cbn in *. unfold chain_key_of.
  rewrite ca_flag0, ca_salt0, ca_params0, Hk, ca_chain0, ca_nonce0, ca_wrapped0. cbn [negb bind].
  destruct (Keys.wrap_unwrap _ _ _ _ _ _ Hz Hw) as (_ & _ & ->). done.
Qed.
Lemma chain_key_encrypted encryption s key encrypted :
  chain_key_of encryption s = Ok (key, encrypted) -> encrypted = Sb.is_encrypted s.
Proof.
  unfold chain_key_of. intros Hk. destruct (Sb.is_encrypted _); cbn in Hk; [|by inv_ok]. by destruct encryption; inv_ok.
Qed.

(** The protection a chain was started with opens it again. *)
Lemma new_chain_opens rnd encryption chain uuid nk s :
  zlen (rnd_chain_key rnd) = Keys.CHAIN_KEY_LEN ->
  new_chain_keys rnd encryption chain uuid = Ok nk -> carries s nk chain uuid ->
  unlock_image encryption s = Ok (nk_keys nk) /\
  (nk_encrypted nk = true <-> encryption <> NoEncrypt) /\
  (is_Some (ik_data_key (nk_keys nk)) <-> encryption <> NoEncrypt).
Proof.
  intros Hr Hn Hc. rewrite unlock_image_eq.
  unfold new_chain_keys in Hn. destruct encryption as [pass|]; inv_ok.
  - rewrite (chain_key_wrapped _ _ _ _ _ _ _ _ _ _ _ _ _ E Hr E0 eq_refl Hc). cbn [bind].
    unfold unlock_with_chain_key. destruct Hc as [-> -> _ _ _ _ _].
    rewrite bool_decide_true by done. apply image_keys_data in E1 as Hd. cbn [nk_keys nk_encrypted].
    split_and!; [done|done|]. by rewrite Hd.
  - unfold chain_key_of, unlock_with_chain_key. destruct Hc as [-> Hu _ _ _ _ ->].
    cbn [nk_encrypted negb bind]. rewrite Hu, bool_decide_true by done.
    apply image_keys_data in E as Hd. cbn [nk_keys].
    split_and!; [done|by split|]. rewrite Hd. by split.
Qed.
End ops.
End EKeys.

(** ** Properties *)

(** The passphrase of a new chain opens it again. Whatever the random
    source returns, a superblock that carries the salt, the parameters and the
    wrapped key of [new_chain_keys] unlocks, with the same protection choice, to
    exactly the keys the image was written with; chunks have a data key if and
    only if a passphrase was given. *)
Theorem new_chain_unlocks `{PrimitiveLaws} rnd encryption chain uuid nk s :
  zlen (rnd_chain_key rnd) = Keys.CHAIN_KEY_LEN ->
  EKeys.new_chain_keys rnd encryption chain uuid = Ok nk -> EKeys.carries s nk chain uuid ->
  EKeys.unlock_image encryption s = Ok (nk_keys nk) /\
  (nk_encrypted nk = true <-> encryption <> NoEncrypt) /\
  (is_Some (ik_data_key (nk_keys nk)) <-> encryption <> NoEncrypt).
Proof. apply EKeys.new_chain_opens. Qed.

(** A chain has one key. Keys derived for a new member on top of a parent
    belong to the parent's chain key: the member's superblock yields the same
    chain key as the parent's, both ways of unlocking it agree with the keys it
    was written with, and the salt and the KDF parameters are the parent's. An
    explicit passphrase is never ignored: on an unencrypted parent it is
    refused, and a member is encrypted exactly when its parent is. *)
Theorem member_joins_chain `{PrimitiveLaws} rnd encryption parent chain uuid :
  (forall nk s key enc,
    EKeys.member_chain_keys rnd encryption parent chain uuid = Ok nk ->
    EKeys.carries s nk chain uuid -> EKeys.chain_key_of encryption parent = Ok (key, enc) ->
    EKeys.chain_key_of encryption s = Ok (key, enc) /\
    EKeys.unlock_image encryption s = Ok (nk_keys nk) /\
    EKeys.unlock_with_chain_key key chain s enc = Ok (nk_keys nk) /\
    nk_kdf_salt nk = kdf_salt parent /\ nk_params nk = Sb.kdf_params parent /\
    nk_encrypted nk = Sb.is_encrypted parent) /\
  (forall pass, Sb.is_encrypted parent = false ->
    exists what, EKeys.member_chain_keys rnd (Passphrase pass) parent chain uuid = Err (Unsupported what)).
Proof.
  split.
  - intros nk s key enc Hn Hc Hp. rewrite EKeys.unlock_image_eq.
    unfold EKeys.member_chain_keys in Hn. case_bool_decide as Hch; cbn [negb] in Hn; [|done].
    unfold EKeys.chain_key_of in Hp. destruct (Sb.is_encrypted parent) eqn:He; cbn [negb] in Hn, Hp.
    + destruct encryption as [pass|]; [|done].
      destruct (Kdf.derive_kek _ _ _) as [kek|] eqn:Ek; [cbn [bind] in *|done].
      destruct (Keys.unwrap_chain_key _ _ _ _) as [ck|] eqn:Eu; [cbn [bind] in *|done].
      injection Hp as <- <-.
      destruct (Keys.wrap_chain_key _ _ _ _) as [[n w]|] eqn:Ew; [cbn [bind] in *|done].
      destruct (EKeys.image_keys _ _ _ _) as [keys|] eqn:Ei; [cbn [bind] in *|done].
      injection Hn as <-.
      assert (zlen ck = Keys.CHAIN_KEY_LEN) as Hz.
      { unfold Keys.unwrap_chain_key in Eu. inv_ok. case_match; inv_ok. by bprop. }
      rewrite (EKeys.chain_key_wrapped _ _ _ _ _ _ _ _ _ _ _ _ _ Ek Hz Ew eq_refl Hc). cbn [bind].
      unfold EKeys.unlock_with_chain_key. destruct Hc as [-> -> _ _ _ _ _].
      rewrite bool_decide_true by done. by split_and!.
    + destruct encryption as [pass|]; [done|]. inv_ok. simplify_eq. unfold EKeys.chain_key_of, EKeys.unlock_with_chain_key.
      destruct Hc as [-> Hu _ _ _ _ ->]. cbn [nk_encrypted negb bind]. rewrite Hu, bool_decide_true by done. by split_and!.
  - intros pass He. unfold EKeys.member_chain_keys. rewrite He.
    case_bool_decide; cbn [negb]; eauto.
Qed.
