(* ===== verification/CatalogRecords.v ===== *)
(** * Catalog records ([crates/lr-core/src/catalog.rs])

    The plain data of a backup set: members, chains, the catalog, and the
    queries on them. A [String] is its bytes. *)

From S2P Require Import Prelude Core.

Inductive MemberKind := Full | Incremental | Differential.

#[export] Instance member_kind_eq_dec : EqDecision MemberKind.
Proof. solve_decision. Defined.

Definition has_full_manifest (k : MemberKind) : bool :=
  match k with Full | Differential => true | Incremental => false end.

Record MemberRecord := {
  mr_image_uuid : Id;
  mr_parent_uuid : Id;
  mr_kind : MemberKind;
  mr_seq_in_chain : Z;
  mr_image_kind : ImageKind;
  mr_consistency : Consistency;
  mr_created_unix : Z;
  mr_source_label : bytes;
  mr_size_bytes : Z;
  mr_file_name : bytes;
  mr_verified_unix : option Z;
}.

Record ChainRecord := {
  ch_chain_id : Id;
  ch_created_unix : Z;
  ch_source_label : bytes;
  ch_members : list MemberRecord;
}.

Record Catalog := {
  cat_version : Z;
  cat_set_id : Id;
  cat_set_name : bytes;
  cat_updated_unix : Z;
  cat_chains : list ChainRecord;
}.

Definition CATALOG_VERSION : Z := 1.

Module Chains.
Definition seqs (c : ChainRecord) : list Z := map mr_seq_in_chain (ch_members c).

(** [iter().map(..).max()]. *)
Definition latest_seq (c : ChainRecord) : option Z := max_by_key (fun s => s) (seqs c).

Definition latest_member (c : ChainRecord) : option MemberRecord :=
  max_by_key mr_seq_in_chain (ch_members c).

Definition member (c : ChainRecord) (image_uuid : Id) : option MemberRecord :=
  find (fun m => bool_decide (mr_image_uuid m = image_uuid)) (ch_members c).

(** [u32::try_from(position).unwrap_or(u32::MAX) == *seq], along the list. *)
Fixpoint contiguous_from (position : Z) (seqs : list Z) : bool :=
  match seqs with
  | [] => true
  | seq :: seqs =>
    ((if position <=? U32_MAX then position else U32_MAX) =? seq)
    && contiguous_from (position + 1) seqs
  end.

Definition is_complete (c : ChainRecord) : bool :=
  let seqs := sort_by_key (fun s => s) (seqs c) in
  match seqs with
  | 0 :: _ =>
    if negb (contiguous_from 0 seqs) then false
    else
      match find (fun m => mr_seq_in_chain m =? 0) (ch_members c) with
      | Some m => bool_decide (mr_kind m = Full)
      | None => false
      end
  | _ => false
  end.

Definition incremental_count (c : ChainRecord) : Z :=
  zlen (filter (fun m => 0 < mr_seq_in_chain m) (ch_members c)).

(** *** Lemmas *)
Lemma contiguous_from_seqZ p l :
  p + zlen l <= 2 ^ 32 -> contiguous_from p l = true <-> l = seqZ p (zlen l).
Proof.
  revert p. induction l as [|x l IH]; intros p Hp; [done|]. rewrite zlen_cons in *.
  pose proof (zlen_nonneg l). cbn [contiguous_from]. unfold U32_MAX.
  rewrite (proj2 (Z.leb_le _ _)) by lia. rewrite andb_true_iff, Z.eqb_eq, IH by lia.
  rewrite (seqZ_cons p (1 + _)) by lia. replace (Z.pred (1 + zlen l)) with (zlen l) by lia.
  change (Z.succ p) with (p + 1). split; [by intros [-> <-]|by intros [= -> <-]].
Qed.

Lemma seqs_length c : zlen (seqs c) = zlen (ch_members c).
Proof. unfold seqs. by rewrite zlen_map. Qed.

(** The sequence numbers of a complete chain, however it is ordered. *)
Definition numbered (c : ChainRecord) : Prop := seqs c ≡ₚ seqZ 0 (zlen (ch_members c)).

Lemma seqZ_sorted m n : sorted_by_key (fun s : Z => s) (seqZ m n).
Proof.
  destruct (Z.le_gt_cases 0 n) as [Hn|Hn]; [|by rewrite seqZ_nil by lia].
  revert m. apply (natlike_ind (fun n => forall m, sorted_by_key (fun s => s) (seqZ m n))); [done| |done].
  intros k Hk IH m. rewrite seqZ_cons by lia. rewrite Z.pred_succ. split; [|apply IH].
  apply Forall_forall. intros y Hy%elem_of_seqZ. lia.
Qed.

(** Two sorted permutations of integers are equal. *)
Lemma sorted_perm_eq (l k : list Z) :
  sorted_by_key (fun s => s) l -> sorted_by_key (fun s => s) k -> l ≡ₚ k -> l = k.
Proof.
  revert k. induction l as [|x l IH]; intros k Hl Hk Hp.
  { by apply Permutation_nil_l in Hp. }
  destruct k as [|y k]; [by apply Permutation_nil_r in Hp|].
  cbn [sorted_by_key] in Hl, Hk. destruct Hl as [Hx Hl], Hk as [Hy Hk].
  assert (x = y) as ->.
  { assert (In y (x :: l)) as H1 by (apply (Permutation_in _ (symmetry Hp)); by left).
    assert (In x (y :: k)) as H2 by (apply (Permutation_in _ Hp); by left).
    rewrite List.Forall_forall in Hx, Hy. destruct H1 as [?|H1], H2 as [?|H2]; [congruence..|].
    specialize (Hx _ H1). specialize (Hy _ H2). lia. }
  f_equal. apply IH; [done..|]. by apply Permutation_cons_inv in Hp.
Qed.

Lemma sorted_seqs c :
  zlen (ch_members c) <= 2 ^ 32 ->
  contiguous_from 0 (sort_by_key (fun s => s) (seqs c)) = true <-> numbered c.
Proof.
  intros Hl. assert (zlen (sort_by_key (fun s => s) (seqs c)) = zlen (ch_members c)) as Hz.
  { unfold zlen. rewrite (Permutation_length (sort_by_key_perm _ _)). unfold seqs.
    by rewrite length_map. }
  rewrite contiguous_from_seqZ, Hz by lia. unfold numbered. split.
  - intros <-. symmetry. apply sort_by_key_perm.
  - intros Hn. apply sorted_perm_eq; [apply sort_by_key_sorted|apply seqZ_sorted|].
    by rewrite sort_by_key_perm.
Qed.

Lemma numbered_unique c m m' :
  numbered c -> In m (ch_members c) -> In m' (ch_members c) ->
  mr_seq_in_chain m = mr_seq_in_chain m' -> m = m'.
Proof.
  unfold numbered. intros Hn Hm Hm' Hs.
  assert (NoDup (seqs c)) as Hd by (rewrite Hn; apply NoDup_seqZ).
  unfold seqs in Hd. clear Hn. induction (ch_members c) as [|x l IH]; [done|]. cbn [map] in Hd.
  apply NoDup_cons in Hd as [Hx Hd]. destruct Hm as [->|Hm], Hm' as [->|Hm']; [done| | |by auto].
  - destruct Hx. apply list_elem_of_In, in_map_iff. by exists m'.
  - destruct Hx. apply list_elem_of_In, in_map_iff. by exists m.
Qed.
Lemma numbered_incrementals c :
  numbered c -> 0 < zlen (ch_members c) -> incremental_count c = zlen (ch_members c) - 1.
Proof.
  unfold numbered. intros Hn Hp. unfold incremental_count.
  assert (forall l : list MemberRecord, zlen (filter (fun m => 0 < mr_seq_in_chain m) l) =
    zlen (filter (fun s => 0 < s) (map mr_seq_in_chain l))) as ->.
  { induction l as [|x l IH]; [done|]. cbn [map]. rewrite !filter_cons.
    case_decide; rewrite ?zlen_cons; lia. }
  change (map mr_seq_in_chain (ch_members c)) with (seqs c).
  assert (filter (fun s => 0 < s) (seqs c) ≡ₚ filter (fun s => 0 < s) (seqZ 0 (zlen (ch_members c))))
    as HP by (by rewrite Hn).
  unfold zlen at 1. rewrite (Permutation_length HP), seqZ_cons by done.
  rewrite filter_cons, decide_False, filter_all by (lia || (apply Forall_forall;
    intros y Hy%elem_of_seqZ; lia)).
  rewrite length_seqZ. lia.
Qed.
End Chains.

Module Catalogs.
Definition new (set_id : Id) (set_name : bytes) (updated_unix : Z) : Catalog :=
  {| cat_version := CATALOG_VERSION; cat_set_id := set_id; cat_set_name := set_name;
     cat_updated_unix := updated_unix; cat_chains := [] |}.

Definition with_chains (c : Catalog) (chains : list ChainRecord) : Catalog :=
  {| cat_version := cat_version c; cat_set_id := cat_set_id c; cat_set_name := cat_set_name c;
     cat_updated_unix := cat_updated_unix c; cat_chains := chains |}.

Definition chain (c : Catalog) (chain_id : Id) : option ChainRecord :=
  find (fun ch => bool_decide (ch_chain_id ch = chain_id)) (cat_chains c).

Definition latest_chain (c : Catalog) : option ChainRecord :=
  max_by_key ch_created_unix (cat_chains c).

(** Replace the first record with the same id, or push. *)
Fixpoint upsert (ch : ChainRecord) (chains : list ChainRecord) : list ChainRecord :=
  match chains with
  | [] => [ch]
  | existing :: chains =>
    if bool_decide (ch_chain_id existing = ch_chain_id ch) then ch :: chains
    else existing :: upsert ch chains
  end.

Definition upsert_chain (c : Catalog) (ch : ChainRecord) : Catalog :=
  with_chains c (upsert ch (cat_chains c)).

(** [(created_unix, chain_id)], lexicographically. *)
Definition oldest_leb (a b : ChainRecord) : bool :=
  match ch_created_unix a ?= ch_created_unix b with
  | Lt => true
  | Gt => false
  | Eq => negb (bool_decide (bytes_cmp (ch_chain_id a) (ch_chain_id b) = Gt))
  end.

Definition chains_oldest_first (c : Catalog) : list ChainRecord :=
  sort_by oldest_leb (cat_chains c).

Definition ids (c : Catalog) : list Id := map ch_chain_id (cat_chains c).

Lemma find_upsert ch chains id :
  find (fun c => bool_decide (ch_chain_id c = id)) (upsert ch chains) =
  if bool_decide (ch_chain_id ch = id) then Some ch
  else find (fun c => bool_decide (ch_chain_id c = id)) chains.
Proof.
  induction chains as [|x chains IH]; cbn; [by case_bool_decide|].
  destruct (decide (ch_chain_id x = ch_chain_id ch)) as [Hx|Hx].
  - rewrite (bool_decide_true (ch_chain_id x = _)) by done. cbn.
    rewrite Hx. by case_bool_decide.
  - rewrite (bool_decide_false (ch_chain_id x = _)) by done. cbn. rewrite IH.
    repeat case_bool_decide; congruence.
Qed.

Lemma upsert_ids ch chains :
  map ch_chain_id (upsert ch chains) =
  if bool_decide (ch_chain_id ch ∈ map ch_chain_id chains) then map ch_chain_id chains
  else map ch_chain_id chains ++ [ch_chain_id ch].
Proof.
  induction chains as [|x chains IH]; cbn; [done|].
  destruct (decide (ch_chain_id x = ch_chain_id ch)) as [Hx|Hx].
  - rewrite (bool_decide_true (ch_chain_id x = _)) by done. cbn.
    by rewrite Hx, bool_decide_true by (apply list_elem_of_here).
  - rewrite (bool_decide_false (ch_chain_id x = _)) by done. cbn. rewrite IH.
    rewrite (bool_decide_ext (_ ∈ _ :: _) (ch_chain_id ch ∈ map ch_chain_id chains)).
    { by case_bool_decide. }
    rewrite elem_of_cons. split; [intros [?|?]; [congruence|done]|by right].
Qed.
End Catalogs.

(** ** Properties *)

(** [is_complete] decides completeness. A chain is complete exactly when
    its sequence numbers are 0, 1, ..., n - 1 for its n > 0 members, each once
    and in any order, and the member at 0 is a full; its newest member then has
    number n - 1. *)
Theorem is_complete_spec (c : ChainRecord) :
  zlen (ch_members c) <= 2 ^ 32 ->
  (Chains.is_complete c = true <->
   ch_members c <> [] /\ Chains.numbered c /\
   (forall m, In m (ch_members c) -> mr_seq_in_chain m = 0 -> mr_kind m = Full)) /\
  (Chains.is_complete c = true -> exists m,
     Chains.latest_member c = Some m /\ In m (ch_members c) /\
     mr_seq_in_chain m = zlen (ch_members c) - 1 /\
     Chains.incremental_count c = zlen (ch_members c) - 1).
Proof.
  intros Hl. assert (Chains.is_complete c = true <->
     ch_members c <> [] /\ Chains.numbered c /\
     (forall m, In m (ch_members c) -> mr_seq_in_chain m = 0 -> mr_kind m = Full)) as Hiff.
  { rewrite <- Chains.sorted_seqs by done. unfold Chains.is_complete.
    destruct (Chains.contiguous_from 0 _) eqn:Ec.
    2: { split; [|by intros (_ & ? & _)]. intros Hx. by destruct (sort_by_key _ _) as [|[] ?]. }
    apply Chains.sorted_seqs in Ec as Hn; [|done].
    assert (sort_by_key (fun s => s) (Chains.seqs c) = seqZ 0 (zlen (ch_members c))) as ->.
    { apply Chains.sorted_perm_eq; [apply sort_by_key_sorted|apply Chains.seqZ_sorted|].
      by rewrite sort_by_key_perm. }
    destruct (ch_members c) as [|m0 ms] eqn:Em; [by split; [|intros [? _]]|]. rewrite <- Em in *.
    assert (0 < zlen (ch_members c)) as Hp by (apply zlen_pos; by rewrite Em).
    rewrite seqZ_cons by done. cbn [negb].
    destruct (find _ (ch_members c)) as [m|] eqn:Ef.
    - apply find_some in Ef as [Hin H0]. bprop. rewrite bool_decide_eq_true. split.
      + intros Hk. split_and!; [by rewrite Em|done|]. intros m' Hin' H0'.
        rewrite <- (Chains.numbered_unique c m m'); [done..|congruence].
      + intros (_ & _ & Hk). by apply Hk.
    - exfalso. assert (In 0 (Chains.seqs c)) as Hin.
      { apply (Permutation_in 0 (symmetry Hn)), list_elem_of_In, elem_of_seqZ. lia. }
      apply in_map_iff in Hin as (m & H0 & Hin). apply (find_none _ _ Ef) in Hin.
      by rewrite H0 in Hin. }
  split; [done|]. intros (Hne & Hn & _)%Hiff.
  unfold Chains.latest_member. pose proof (max_by_key_spec mr_seq_in_chain (ch_members c)) as Hm.
  destruct (max_by_key _ _) as [m|]; [|done]. destruct Hm as [Hin Hmax]. exists m.
  apply zlen_pos in Hne. split_and!; [done|done| |].
  - assert (In (zlen (ch_members c) - 1) (Chains.seqs c)) as Ht.
    { apply (Permutation_in _ (symmetry Hn)), list_elem_of_In, elem_of_seqZ. lia. }
    apply in_map_iff in Ht as (t & Ht & Hint). rewrite List.Forall_forall in Hmax.
    specialize (Hmax t Hint). assert (mr_seq_in_chain m ∈ seqZ 0 (zlen (ch_members c))) as Hmem.
    { unfold Chains.numbered in Hn. rewrite <- Hn. apply list_elem_of_In, in_map_iff. by exists m. }
    apply elem_of_seqZ in Hmem. lia.
  - by apply Chains.numbered_incrementals.
Qed.

(** The catalog is a map from chain ids to records. After [upsert_chain]
    the chain is found under its id, every other id finds what it found before,
    ids stay distinct, and no other chain moves. *)
Theorem upsert_chain_spec (c : Catalog) (ch : ChainRecord) :
  Catalogs.chain (Catalogs.upsert_chain c ch) (ch_chain_id ch) = Some ch /\
  (forall id, id <> ch_chain_id ch ->
    Catalogs.chain (Catalogs.upsert_chain c ch) id = Catalogs.chain c id) /\
  (NoDup (Catalogs.ids c) -> NoDup (Catalogs.ids (Catalogs.upsert_chain c ch))) /\
  (exists suffix, Catalogs.ids (Catalogs.upsert_chain c ch) = Catalogs.ids c ++ suffix).
Proof.
  unfold Catalogs.chain, Catalogs.ids, Catalogs.upsert_chain. cbn [cat_chains Catalogs.with_chains].
  rewrite Catalogs.find_upsert, bool_decide_true, Catalogs.upsert_ids by done. split_and!; [done| | |].
  - intros id Hid. by rewrite Catalogs.find_upsert, bool_decide_false by congruence.
  - intros Hd. case_bool_decide as Hin; [done|]. apply NoDup_app. split_and!; [done| |apply NoDup_singleton].
    intros x Hx ->%list_elem_of_singleton. done.
  - case_bool_decide; [exists []; by rewrite app_nil_r|by eexists].
Qed.
