(* ===== verification/Steps.v ===== *)
(** * Stateful steps that may fail

    The monad of the engine's imperative code: a state that survives an error
    (what was done stays done), its loops, and triples over both outcomes. *)

From S2P Require Import Prelude.

Definition step (D A : Type) : Type := D -> D * result A.

Definition step_ret {D A} (a : A) : step D A := fun d => (d, Ok a).
Definition step_err {D A} (e : error) : step D A := fun d => (d, Err e).
Definition step_bind {D A B} (m : step D A) (k : A -> step D B) : step D B := fun d =>
  match m d with
  | (d, Ok a) => k a d
  | (d, Err e) => (d, Err e)
  end.
Notation "'do*' x := m 'in' k" := (step_bind m (fun x => k))
  (at level 10, x pattern, m at level 100, k at level 200) : lr_scope.

(** A step that only looks, and one that does not even look. *)
Definition reads {D A} (f : D -> result A) : step D A := fun d => (d, f d).
Definition lift {D A} (r : result A) : step D A := fun d => (d, r).

(** A step that only changes the state. *)
Definition modify {D} (f : D -> D) : step D unit := fun d => (f d, Ok tt).

(** [map_err]. *)
Definition step_map_err {D A} (f : error -> error) (m : step D A) : step D A := fun d =>
  match m d with
  | (d, Ok a) => (d, Ok a)
  | (d, Err e) => (d, Err (f e))
  end.

(** [for x in l { f(x)?; }]. *)
Fixpoint step_iter {D A} (f : A -> step D unit) (l : list A) : step D unit :=
  match l with
  | [] => step_ret tt
  | x :: l => do* _ := f x in step_iter f l
  end.

(** The same with a loop variable that the body updates. *)
Fixpoint step_fold {D A S} (f : S -> A -> step D S) (l : list A) (s : S) : step D S :=
  match l with
  | [] => step_ret s
  | x :: l => do* s := f s x in step_fold f l s
  end.

(** [for _ in 0..n { s = f(s)?; }]; [n] may be any [u64] a corrupt file
    declares, so the iteration is by the binary representation. *)
Fixpoint pos_step_iterM {D S} (p : positive) (f : S -> step D S) (s : S) : step D S :=
  match p with
  | xH => f s
  | xO p => do* s := pos_step_iterM p f s in pos_step_iterM p f s
  | xI p => do* s := f s in do* s := pos_step_iterM p f s in pos_step_iterM p f s
  end.

Definition step_iterM {D S} (n : Z) (f : S -> step D S) (s : S) : step D S :=
  match n with Zpos p => pos_step_iterM p f s | _ => step_ret s end.

Fixpoint nat_step_iterM {D S} (n : nat) (f : S -> step D S) (s : S) : step D S :=
  match n with O => step_ret s | S n => do* s := f s in nat_step_iterM n f s end.

Section laws.
Context {D : Type}.

Lemma step_bind_Ok {A B} (s : step D A) (k : A -> step D B) d d' b :
  step_bind s k d = (d', Ok b) -> exists d1 a, s d = (d1, Ok a) /\ k a d1 = (d', Ok b).
Proof. unfold step_bind. destruct (s d) as [d1 [a|e]]; [by eauto|by intros [= -> ]]. Qed.

Lemma step_bind_assoc {A B C} (m : step D A) (k : A -> step D B) (h : B -> step D C) d :
  step_bind (step_bind m k) h d = step_bind m (fun a => step_bind (k a) h) d.
Proof. unfold step_bind. by destruct (m d) as [d1 [a|e]]. Qed.

Lemma step_bind_ext {A B} (m m' : step D A) (k k' : A -> step D B) d :
  m d = m' d -> (forall a d1, k a d1 = k' a d1) -> step_bind m k d = step_bind m' k' d.
Proof. unfold step_bind. intros Hm Hk. rewrite <- Hm. by destruct (m d) as [d1 [a|e]]. Qed.

Lemma nat_step_iterM_app {S} n m (f : S -> step D S) s d :
  nat_step_iterM (n + m) f s d = (do* s := nat_step_iterM n f s in nat_step_iterM m f s) d.
Proof.
  revert s d. induction n as [|n IH]; intros s d; [done|]. cbn [Nat.add nat_step_iterM].
  rewrite step_bind_assoc. apply step_bind_ext; [done|]. intros. apply IH.
Qed.

Lemma pos_step_iterM_nat {S} p (f : S -> step D S) s d :
  pos_step_iterM p f s d = nat_step_iterM (Pos.to_nat p) f s d.
Proof.
  revert s d. induction p as [p IH|p IH|]; intros s d.
  - rewrite Pos2Nat.inj_xI. cbn [pos_step_iterM nat_step_iterM]. apply step_bind_ext; [done|].
    intros a d1. replace (2 * Pos.to_nat p)%nat with (Pos.to_nat p + Pos.to_nat p)%nat by lia.
    rewrite nat_step_iterM_app. apply step_bind_ext; auto.
  - rewrite Pos2Nat.inj_xO. cbn [pos_step_iterM].
    replace (2 * Pos.to_nat p)%nat with (Pos.to_nat p + Pos.to_nat p)%nat by lia.
    rewrite nat_step_iterM_app. apply step_bind_ext; auto.
  - change (Pos.to_nat 1) with 1%nat. cbn. unfold step_bind, step_ret. by destruct (f s d) as [d1 [a|e]].
Qed.

Lemma step_iterM_nat {S} n (f : S -> step D S) s d :
  step_iterM (Z.of_nat n) f s d = nat_step_iterM n f s d.
Proof.
  destruct n as [|n]; [done|].
  change (step_iterM (Z.of_nat (Datatypes.S n)) f s) with (pos_step_iterM (Pos.of_succ_nat n) f s).
  by rewrite pos_step_iterM_nat, SuccNat2Pos.id_succ.
Qed.
End laws.

(** ** Triples *)
Section triples.
Context {D : Type}.

(** From a state in [P], the step ends in [Q] with its value or, when it fails,
    in [E]. *)
Definition triple {A} (P : D -> Prop) (m : step D A) (Q : A -> D -> Prop) (E : D -> Prop) : Prop :=
  forall d, P d -> match m d with (d', Ok a) => Q a d' | (d', Err _) => E d' end.

Lemma triple_ret {A} (a : A) (Q : A -> D -> Prop) E : triple (Q a) (step_ret a) Q E.
Proof. by intros d Hd. Qed.

Lemma triple_err {A} e (Q : A -> D -> Prop) (E : D -> Prop) : triple E (step_err e) Q E.
Proof. by intros d Hd. Qed.

Lemma triple_bind {A B} P (m : step D A) (k : A -> step D B) R Q E :
  triple P m R E -> (forall a, triple (R a) (k a) Q E) -> triple P (step_bind m k) Q E.
Proof.
  intros Hm Hk d Hd. specialize (Hm d Hd). unfold step_bind.
  destruct (m d) as [d1 [a|e]]; [by apply Hk|done].
Qed.

Lemma triple_conseq {A} (P P' : D -> Prop) (m : step D A) (Q Q' : A -> D -> Prop) (E E' : D -> Prop) :
  triple P' m Q' E' -> (forall d, P d -> P' d) -> (forall a d, Q' a d -> Q a d) ->
  (forall d, E' d -> E d) -> triple P m Q E.
Proof.
  intros Hm HP HQ HE d Hd. specialize (Hm d (HP d Hd)). destruct (m d) as [d1 [a|e]]; auto.
Qed.

(** A step that does not touch the state. *)
Lemma triple_lift {A} (r : result A) (P : D -> Prop) (Q : A -> D -> Prop) (E : D -> Prop) :
  (forall d, P d -> E d) -> (forall a d, r = Ok a -> P d -> Q a d) -> triple P (lift r) Q E.
Proof. intros HE HQ d Hd. cbn. destruct r; auto. Qed.

Lemma triple_modify (f : D -> D) (P : D -> Prop) (Q : unit -> D -> Prop) E :
  (forall d, P d -> Q tt (f d)) -> triple P (modify f) Q E.
Proof. intros Hf d Hd. cbn. auto. Qed.

Lemma triple_map_err {A} f (m : step D A) P Q E :
  triple P m Q E -> triple P (step_map_err f m) Q E.
Proof. intros Hm d Hd. specialize (Hm d Hd). unfold step_map_err. by destruct (m d) as [d1 [a|e]]. Qed.

(** Loops keep an invariant. *)
Lemma triple_iter {A} (f : A -> step D unit) l (I : D -> Prop) E :
  (forall x, In x l -> triple I (f x) (fun _ => I) E) -> triple I (step_iter f l) (fun _ => I) E.
Proof.
  induction l as [|x l IH]; intros Hf; [apply (triple_ret tt (fun _ => I))|]. cbn [step_iter].
  eapply triple_bind; [apply Hf; by left|]. intros []. apply IH. intros. apply Hf. by right.
Qed.

Lemma triple_iterM {S} n (f : S -> step D S) (I : S -> D -> Prop) E s :
  (forall s, triple (I s) (f s) I E) -> triple (I s) (step_iterM n f s) I E.
Proof.
  intros Hf. destruct n as [|p|p]; [apply triple_ret| |apply triple_ret]. cbn [step_iterM].
  revert s. induction p as [p IH|p IH|]; intros s; cbn [pos_step_iterM]; [| |apply Hf].
  - eapply triple_bind; [apply Hf|]. intros s1. by eapply triple_bind.
  - by eapply triple_bind.
Qed.
End triples.
