(* ===== verification/Destination.v ===== *)
(** * Destinations ([crates/lr-store/src/lib.rs])

    The interface between the engine and the place where backups live. A value
    of a [Destination] type is one resolved backup set together with whatever
    the outside world keeps about it (connection, clock, lease); operations
    that change it return the new state also when they fail. The engine's
    theorems are proved against the class and its laws, for any backend. *)

From S2P Require Import Prelude Core.
From S2P Require Export Steps.

(** The operations of the trait that the modelled engine uses. *)
Class Destination (D : Type) := {
  (** [list]: every file of the set. *)
  list_files : D -> result (list bytes);
  (** [open_ro], and what the handle reads. *)
  open_ro : D -> bytes -> result bytes;
  (** [delete]. *)
  delete : D -> bytes -> D * result unit;
  (** [create_tmp], then [write_all] and [sync_all] on its writer. *)
  create_tmp : D -> bytes -> D * result bytes;
  write_tmp : D -> bytes -> bytes -> D * result unit;
  (** [replace]. *)
  replace : D -> bytes -> bytes -> D * result unit;
  (** [lock_set] and [lock_set_breaking_stale] with a lease in seconds, and
      [SetLock::verify]: the lease is still this holder's. *)
  lock_set : D -> Z -> D * result unit;
  lock_set_breaking_stale : D -> Z -> D * result unit;
  lock_verify : D -> D * result unit;
  (** [lr_store::now_unix]. *)
  now_unix : D -> D * Z;
}.

(** The file that taking the lock creates. *)
Definition LOCK_FILE : bytes := String.list_byte_of_string "set.lock".

(** What the engine relies on: operations touch only the files they name, a
    temporary file gets a fresh name as [temp_name] builds it, a listing names a
    file once, taking the lock touches the lock file alone, and the clock is not
    one of the files. What a rename moves is known for files only. *)
Class DestinationLaws (D : Type) `{Destination D} := {
  contents : D -> bytes -> option bytes;
  list_files_nodup : forall d names, list_files d = Ok names -> NoDup names;
  open_ro_contents : forall d n b, open_ro d n = Ok b -> contents d n = Some b;
  delete_frame : forall d n m, m <> n -> contents (fst (delete d n)) m = contents d m;
  delete_gone : forall d n u, snd (delete d n) = Ok u -> contents (fst (delete d n)) n = None;
  create_tmp_frame : forall d n m,
    (forall t, snd (create_tmp d n) = Ok t -> m <> t) -> contents (fst (create_tmp d n)) m = contents d m;
  create_tmp_name : forall d n t, snd (create_tmp d n) = Ok t ->
    contents d t = None /\
    exists random, t = n ++ [Byte.x2e] ++ random ++ String.list_byte_of_string ".tmp";
  write_tmp_frame : forall d t b m, m <> t -> contents (fst (write_tmp d t b)) m = contents d m;
  write_tmp_contents : forall d t b u,
    snd (write_tmp d t b) = Ok u -> contents (fst (write_tmp d t b)) t = Some b;
  replace_frame : forall d t n m b, contents d t = Some b -> m <> t -> m <> n -> contents (fst (replace d t n)) m = contents d m;
  replace_contents : forall d t n b u, contents d t = Some b -> snd (replace d t n) = Ok u ->
    contents (fst (replace d t n)) n = Some b;
  lock_set_frame : forall d ttl m, m <> LOCK_FILE -> contents (fst (lock_set d ttl)) m = contents d m;
  lock_breaking_frame : forall d ttl m, m <> LOCK_FILE -> contents (fst (lock_set_breaking_stale d ttl)) m = contents d m;
  lock_verify_frame : forall d m, contents (fst (lock_verify d)) m = contents d m;
  now_unix_frame : forall d m, contents (fst (now_unix d)) m = contents d m;
}.

(** ** Publishing

    [publish_new], and whether what it published is on stable storage. *)
Inductive Durability := Synced | Unconfirmed (reason : bytes).

Class Publisher (D : Type) := publish_new : bytes -> bytes -> step D Durability.

(** An existing file is never replaced; what is published is the temporary file. *)
Class PublisherLaws (D : Type) `{DestinationLaws D} `{Publisher D} := {
  publish_frame : forall tmp name d m b, contents d tmp = Some b -> m <> tmp -> m <> name ->
    contents (fst (publish_new tmp name d)) m = contents d m;
  publish_existing : forall tmp name d b, contents d name = Some b -> tmp <> name ->
    contents (fst (publish_new tmp name d)) name = Some b;
  publish_contents : forall tmp name d b durability, contents d tmp = Some b ->
    snd (publish_new tmp name d) = Ok durability ->
    contents d name = None /\ contents (fst (publish_new tmp name d)) name = Some b;
}.

(** ** Steps that leave a file alone *)

(** The clock. *)
Definition clock `{Destination D} : step D Z := fun d => let '(d, now) := now_unix d in (d, Ok now).

(** A step that leaves the file [m] alone, whatever its outcome. *)
Definition keeps `{DestinationLaws D} {A} (m : bytes) (s : step D A) : Prop :=
  forall d, contents (fst (s d)) m = contents d m.

Section keeps.
Context `{DestinationLaws D}.

Lemma keeps_ret {A} m (a : A) : keeps m (step_ret a).
Proof. done. Qed.

Lemma keeps_err {A} m e : keeps m (step_err (A := A) e).
Proof. done. Qed.

Lemma keeps_bind {A B} m (s : step D A) (k : A -> step D B) :
  keeps m s -> (forall a, keeps m (k a)) -> keeps m (step_bind s k).
Proof.
  intros Hs Hk d. unfold step_bind. specialize (Hs d). destruct (s d) as [d1 [a|e]]; [|done].
  cbn in Hs. by rewrite Hk.
Qed.

Lemma keeps_iter {A} m (f : A -> step D unit) l :
  (forall x, In x l -> keeps m (f x)) -> keeps m (step_iter f l).
Proof.
  induction l as [|x l IH]; intros Hf; [apply keeps_ret|]. apply keeps_bind.
  - apply Hf. by left.
  - intros _. apply IH. intros. apply Hf. by right.
Qed.

Lemma keeps_delete m n : m <> n -> keeps m (fun d => delete d n).
Proof. intros Hn d. by apply delete_frame. Qed.

Lemma keeps_lock m : keeps m lock_verify.
Proof. intros d. apply lock_verify_frame. Qed.

Lemma keeps_reads {A} m (f : D -> result A) : keeps m (reads f).
Proof. done. Qed.

Lemma keeps_clock m : keeps m clock.
Proof. intros d. unfold clock. pose proof (now_unix_frame d m). by destruct (now_unix d). Qed.

End keeps.

(** * A destination in memory

    The smallest lawful [Destination]: an association list of files. It shows
    that the laws the engine relies on can be met. *)

Module Memory.
Abbreviation mem := (list (bytes * bytes)).

Fixpoint find_file (m : mem) (name : bytes) : option bytes :=
  match m with
  | [] => None
  | (n, b) :: m => if decide (n = name) then Some b else find_file m name
  end.

Definition without (name : bytes) (m : mem) : mem := filter (fun f => fst f <> name) m.

Definition put (name b : bytes) (m : mem) : mem := (name, b) :: without name m.

#[global] Arguments put : simpl never.
#[global] Arguments without : simpl never.

Definition open_file (m : mem) (name : bytes) : result bytes := ok_or (find_file m name) (Io NotFound).

(** A name longer than every name in use. *)
Definition fresh (m : mem) : bytes := replicate (length (concat (map fst m))) Byte.x61.

Definition tmp_name (m : mem) (name : bytes) : bytes :=
  name ++ [Byte.x2e] ++ fresh m ++ String.list_byte_of_string ".tmp".

Definition rename (m : mem) (tmp name : bytes) : mem * result unit :=
  match find_file m tmp with
  | Some b => (put name b (without tmp m), Ok tt)
  | None => (m, Err (Io NotFound))
  end.

#[export] Instance destination : Destination mem := {
  list_files m := Ok (remove_dups (map fst m));
  open_ro := open_file;
  delete m name := (without name m, Ok tt);
  create_tmp m name := (m, Ok (tmp_name m name));
  write_tmp m tmp b := (put tmp b m, Ok tt);
  replace := rename;
  lock_set m _ := (m, Ok tt);
  lock_set_breaking_stale m _ := (m, Ok tt);
  lock_verify m := (m, Ok tt);
  now_unix m := (m, 1700000000);
}.

Lemma find_without m n k : n <> k -> find_file (without n m) k = find_file m k.
Proof.
  intros Hn. induction m as [|[a b] m IH]; [done|]. unfold without. rewrite filter_cons. cbn [fst].
  destruct (decide (a <> n)) as [Ha|Ha]; cbn [find_file].
  - case_decide; [done|]. apply IH.
  - rewrite decide_False; [apply IH|]. intros ->. by apply Ha.
Qed.

Lemma find_without_same m n : find_file (without n m) n = None.
Proof.
  induction m as [|[a b] m IH]; [done|]. unfold without. rewrite filter_cons. cbn [fst].
  destruct (decide (a <> n)) as [Ha|Ha]; [|apply IH]. cbn [find_file].
  rewrite decide_False by done. apply IH.
Qed.

Lemma find_put m n b k : find_file (put n b m) k = if decide (n = k) then Some b else find_file m k.
Proof. unfold put. cbn [find_file]. case_decide; [done|]. by apply find_without. Qed.

Lemma find_long m n : (length (concat (map fst m)) < length n)%nat -> find_file m n = None.
Proof.
  induction m as [|[a b] m IH]; [done|]. cbn. rewrite length_app. intros Hl.
  rewrite decide_False by (intros ->; lia). apply IH. lia.
Qed.

#[export] Instance destination_laws : DestinationLaws mem.
Proof.
  refine {| contents := find_file |}; cbn.
  - intros m names [= <-]. apply NoDup_remove_dups.
  - intros m n b He. by apply ok_or_Ok in He.
  - intros m n k Hn. apply find_without. congruence.
  - intros m n u _. apply find_without_same.
  - done.
  - intros m n t [= <-]. split; [|by eexists]. apply find_long. unfold tmp_name, fresh.
    rewrite !length_app, length_replicate. cbn. lia.
  - intros m t b k Hk. rewrite find_put. by rewrite decide_False.
  - intros m t b u _. rewrite find_put. by rewrite decide_True.
  - intros m t n k b _ Ht Hn. unfold rename. case_match; [|done]. cbn [fst].
    by rewrite find_put, decide_False, find_without by done.
  - intros m t n b u Hb. unfold rename. rewrite Hb. intros _. cbn [fst]. by rewrite find_put, decide_True.
  - done.
  - done.
  - done.
  - done.
Defined.
End Memory.
