(* ===== verification/Progress.v ===== *)
(** * Progress and cancellation ([crates/lr-engine/src/progress.rs])

    A job polls a flag that others set whenever they like, and tells a sink what
    it does. The flag is an oracle: the n-th load of the run may find anything. *)

From S2P Require Import Prelude Steps.

(** What the sink is told. *)
Inductive ProgressEvent := PhaseEvent (name : bytes) | BytesEvent (done total : Z).

Record EngineContext := {
  ctx_progress : bool;                 (* a sink listens *)
  ctx_cancel : option (nat -> bool);   (* the flag, load by load *)
}.

(** What a run has done to the outside: loads of the flag, and events sent. *)
Record Run := { run_loads : nat; run_events : list ProgressEvent }.

Definition start_run : Run := {| run_loads := 0; run_events := [] |}.

Definition REPORT_STEP : Z := 64 * 1024 * 1024.

Record Reporter := {
  pr_context : EngineContext;
  pr_total : Z;
  pr_last_report : Z;
  pr_step : Z;
}.

Module Progress.
Definition silent : EngineContext := {| ctx_progress := false; ctx_cancel := None |}.

Definition emit (c : EngineContext) (e : ProgressEvent) : step Run unit :=
  modify (fun r =>
    if ctx_progress c then {| run_loads := run_loads r; run_events := run_events r ++ [e] |} else r).

Definition phase (c : EngineContext) (name : bytes) : step Run unit := emit c (PhaseEvent name).

Definition report_bytes (c : EngineContext) (done total : Z) : step Run unit :=
  emit c (BytesEvent done total).

Definition check_cancel (c : EngineContext) : step Run unit := fun r =>
  match ctx_cancel c with
  | Some flag =>
    let r1 := {| run_loads := S (run_loads r); run_events := run_events r |} in
    if flag (run_loads r) then (r1, Err Cancelled) else (r1, Ok tt)
  | None => (r, Ok tt)
  end.

(** [EngineContext::reporter]. *)
Definition reporter (c : EngineContext) (total : Z) : step Run Reporter :=
  do* _ := check_cancel c in
  step_ret {| pr_context := c; pr_total := total; pr_last_report := 0; pr_step := REPORT_STEP |}.

Definition reported (p : Reporter) (done : Z) : Reporter :=
  {| pr_context := pr_context p; pr_total := pr_total p; pr_last_report := done;
     pr_step := pr_step p |}.

(** [Reporter::report]; the subtraction saturates. *)
Definition report (p : Reporter) (done : Z) : step Run Reporter :=
  do* _ := check_cancel (pr_context p) in
  if pr_step p <=? Z.max 0 (done - pr_last_report p) then
    do* _ := report_bytes (pr_context p) done (pr_total p) in
    step_ret (reported p done)
  else step_ret p.

(** [Reporter::finish]. *)
Definition finish (p : Reporter) (done : Z) : step Run Reporter :=
  do* _ := report_bytes (pr_context p) done (pr_total p) in
  step_ret (reported p done).

(** A loop that reports: the run, the [&mut Reporter] and the loop's own state. *)
Definition tracked (T : Type) : Type := Run * Reporter * T.

Definition report_tracked {T} (done : Z) : step (tracked T) unit := fun '(run, p, s) =>
  match report p done run with
  | (run, Ok p) => ((run, p, s), Ok tt)
  | (run, Err e) => ((run, p, s), Err e)
  end.

Definition finish_tracked {T} (done : Z) : step (tracked T) unit := fun '(run, p, s) =>
  match finish p done run with
  | (run, Ok p) => ((run, p, s), Ok tt)
  | (run, Err e) => ((run, p, s), Err e)
  end.

Definition inside {T A} (m : step T A) : step (tracked T) A := fun '(run, p, s) =>
  let '(s, r) := m s in ((run, p, s), r).

(** A silent run is never cancelled and sends nothing. *)
Lemma check_cancel_silent r : check_cancel silent r = (r, Ok tt).
Proof. done. Qed.

Lemma report_tracked_cases {T} done (st : tracked T) :
  match report_tracked done st with
  | ((_, _, s), Ok _) => s = snd st
  | ((_, _, s), Err e) => s = snd st /\ e = Cancelled
  end.
Proof.
  destruct st as [[run p] s]. unfold report_tracked, report, step_bind, check_cancel. cbn [snd].
  destruct (ctx_cancel (pr_context p)) as [flag|]; [destruct (flag _)|]; try done;
    destruct (_ <=? _); done.
Qed.

Lemma report_tracked_silent {T} done (run : Run) (p : Reporter) (s : T) : ctx_cancel (pr_context p) = None ->
  exists run' p', report_tracked done (run, p, s) = ((run', p', s), Ok tt) /\ ctx_cancel (pr_context p') = None.
Proof.
  intros Hc. unfold report_tracked, report, step_bind, check_cancel. rewrite Hc.
  destruct (_ <=? _); cbn; eauto.
Qed.

(** ** Throttling *)
Definition is_bytes (e : ProgressEvent) : bool :=
  match e with BytesEvent _ _ => true | PhaseEvent _ => false end.

Definition bytes_sent (r : Run) : Z := zlen (List.filter is_bytes (run_events r)).

(** Every event sent so far stands for [pr_step] units of progress. *)
Definition throttled (p : Reporter) (r : Run) : Prop :=
  0 < pr_step p /\ 0 <= pr_last_report p /\ bytes_sent r * pr_step p <= pr_last_report p.

Lemma report_throttled p done r :
  throttled p r ->
  match report p done r with
  | (r', Ok p') => throttled p' r' /\ pr_step p' = pr_step p /\
      pr_last_report p' <= Z.max (pr_last_report p) done
  | (r', Err e) => e = Cancelled /\ bytes_sent r' = bytes_sent r
  end.
Proof.
  intros (Hs & Hl & Ht). unfold report, step_bind, check_cancel.
  assert (forall r1, bytes_sent r1 = bytes_sent r ->
    match (if pr_step p <=? Z.max 0 (done - pr_last_report p) then
      step_bind (report_bytes (pr_context p) done (pr_total p)) (fun _ => step_ret (reported p done))
      else step_ret p) r1 with
    | (r', Ok p') => throttled p' r' /\ pr_step p' = pr_step p /\
        pr_last_report p' <= Z.max (pr_last_report p) done
    | (r', Err e) => e = Cancelled /\ bytes_sent r' = bytes_sent r
    end) as Hgo.
  { intros r1 Hr. destruct (Z.leb_spec (pr_step p) (Z.max 0 (done - pr_last_report p))) as [Hd|Hd].
    - unfold step_bind, report_bytes, emit, modify, step_ret. split_and!; [|done|cbn; lia].
      unfold throttled, reported. cbn [pr_step pr_last_report]. split_and!; [done|lia|].
      assert (bytes_sent (if ctx_progress (pr_context p)
        then {| run_loads := run_loads r1; run_events := run_events r1 ++ [BytesEvent done (pr_total p)] |}
        else r1) <= bytes_sent r1 + 1) as Hb.
      { unfold bytes_sent. destruct (ctx_progress _); cbn [run_events]; [|lia].
        rewrite List.filter_app, zlen_app. cbn [List.filter is_bytes]. rewrite zlen_cons, zlen_nil. lia. }
      rewrite Hr in Hb. clear -Hb Ht Hd Hs. nia.
    - cbn. split_and!; [|done|lia]. unfold throttled. rewrite Hr. split_and!; lia. }
  destruct (ctx_cancel (pr_context p)) as [flag|]; [|by apply Hgo].
  destruct (flag (run_loads r)); [done|]. by apply Hgo.
Qed.

(** [report] for each of [dones], in order. *)
Definition reports (p : Reporter) (dones : list Z) : step Run Reporter := step_fold report dones p.

(** Throttling bounds the events whatever a job reports: between two byte
    events lie at least [REPORT_STEP] units, so a job whose counts stay below
    [bound] sends at most [bound / REPORT_STEP] of them, and the only error a
    report ends with is the requested cancellation. *)
Theorem reports_throttled (c : EngineContext) (total bound : Z) (dones : list Z) (r0 r1 : Run) (p : Reporter) :
  Forall (fun d => d <= bound) dones -> 0 <= bound -> bytes_sent r0 = 0 ->
  reporter c total r0 = (r1, Ok p) ->
  bytes_sent r1 = 0 /\
  match reports p dones r1 with
  | (r2, Ok _) => bytes_sent r2 <= bound / REPORT_STEP
  | (r2, Err e) => e = Cancelled /\ bytes_sent r2 <= bound / REPORT_STEP
  end.
Proof.
  intros Hd Hb H0 Hp. assert (throttled p r1 /\ bytes_sent r1 = 0 /\ pr_step p = REPORT_STEP /\
    pr_last_report p <= bound) as (Ht & H1 & Hst & Hl).
  { unfold reporter, step_bind, check_cancel in Hp.
    destruct (ctx_cancel c) as [flag|]; [destruct (flag (run_loads r0)); [done|]|];
      injection Hp as <- <-; cbn; unfold throttled, bytes_sent, REPORT_STEP in *; cbn in *; lia. }
  split; [done|]. clear Hp H0. revert p r1 Ht H1 Hst Hl.
  cut (forall p r, throttled p r -> pr_step p = REPORT_STEP -> pr_last_report p <= bound ->
    match reports p dones r with
    | (r2, Ok _) => bytes_sent r2 <= bound / REPORT_STEP
    | (r2, Err e) => e = Cancelled /\ bytes_sent r2 <= bound / REPORT_STEP
    end); [intros Hc p r Ht _ Hst Hl; by apply Hc|].
  assert (forall p r, throttled p r -> pr_step p = REPORT_STEP -> pr_last_report p <= bound ->
    bytes_sent r <= bound / REPORT_STEP) as Hbound.
  { intros p r (_ & _ & Ht) Hs Hl. rewrite Hs in Ht. apply Z.div_le_lower_bound; unfold REPORT_STEP in *; lia. }
  induction Hd as [|d dones Hd1 _ IH]; intros p r Ht Hst Hl.
  - by apply (Hbound p).
  - unfold reports. cbn [step_fold]. unfold step_bind.
    pose proof (report_throttled p d r Ht) as Hr. destruct (report p d r) as [r1 [p1|e]].
    + destruct Hr as (Ht1 & Hs1 & Hl1). apply IH; [done|congruence|lia].
    + destruct Hr as [-> ->]. split; [done|]. by apply (Hbound p).
Qed.
End Progress.
