(* ===== verification/Chain.v ===== *)
(** * Chains of images ([crates/lr-engine/src/chain.rs])

    Opening the members of a chain, the merged state of its chunks and the
    payloads behind it. The walk keeps one cursor per member manifest; the
    specification applies the manifests one after the other to whole state
    vectors. *)

From S2P Require Import Prelude Core Crypto Pages Wire Superblock Chunk Footer Files PageStream ImageReader Manifest EngineKeys CatalogRecords Destination.

Record ChainMemberFile := { cm_file_name : bytes; cm_seq_in_chain : Z; cm_image_uuid : Id }.

Record OpenMember := {
  om_file_name : bytes;
  om_seq_in_chain : Z;
  om_image_uuid : Id;
  om_kind : MemberKind;
  om_superblock : Superblock;
  om_reader : ImageReader;
  om_chunks : ChunkReader;
  om_keys : ImageKeys;
}.

Definition member_kind (s : Superblock) : MemberKind :=
  if seq_in_chain s =? 0 then Full
  else if bool_decide (image_kind s = Stream) || SbFlags.has (flags s) SbFlags.DELTA_MANIFEST
  then Incremental else Differential.

Definition is_change (source parent : ChunkState) : bool :=
  match source, parent with
  | Stored _ lhs _ _, Stored _ rhs _ _ => negb (bool_decide (lhs = rhs))
  | Zero, Zero | Unused, Unused => false
  | _, _ => true
  end.

(** ** Payload access *)
Record MemberAccessKeys := { ak_data_key : option bytes; ak_dedup_key : bytes }.

Record ChunkAccess := {
  ca_readers : list ChunkReader;
  ca_keys : list MemberAccessKeys;
  ca_aead : AeadKind;
  ca_image_kind : ImageKind;
  ca_max_plaintext : Z;
}.

Module Access.
Definition read `{Primitives} (a : ChunkAccess) (state : ChunkState) : result bytes :=
  match state with
  | Stored member hash offset _ =>
    let index := Z.to_nat member in
    let* reader := ok_or (ca_readers a !! index) (Corrupt "chunk points at member {index}") in
    let* keys := ok_or (ca_keys a !! index) (Corrupt "chunk points at member {index}") in
    let* record := ChunkReaders.read_record reader offset in
    Chunk.open_chunk (ca_aead a) (ak_data_key keys) (ak_dedup_key keys) (ca_image_kind a) hash
      (ca_max_plaintext a) record
  | _ => Err (Corrupt "only stored chunks have a payload")
  end.
End Access.

(** ** Members *)
Module Members.
Section ops.
Context `{Primitives}.

(** The [loop] of [stream_bytes]: 64 KiB at a time until nothing comes. *)
Fixpoint drain_into (fuel : nat) (page : PageStreamReader) (sink : bytes) : result bytes :=
  match fuel with
  | O => Err (Unsupported "drain_into: out of fuel")
  | S fuel =>
    let* (b, page) := PageReader.read_bytes_partial page (64 * 1024) in
    if zlen b =? 0 then Ok sink else drain_into fuel page (sink ++ b)
  end.

Definition stream_bytes (m : OpenMember) (stream : StreamId) : result bytes :=
  let* kind := Sb.aead_kind (om_superblock m) in
  let* page := Img.stream_reader (om_reader m) stream (ik_meta_key (om_keys m)) kind in
  drain_into (S (Img.bytes_left page)) page [].

Definition chunk_plaintext (m : OpenMember) (entry : BlockEntry) (max_plaintext : Z) :
    result bytes :=
  let* kind := Sb.aead_kind (om_superblock m) in
  let* data_key :=
    (if Sb.is_encrypted (om_superblock m) then
       let* k := ok_or (ik_data_key (om_keys m)) (Corrupt "the member has no data key") in
       Ok (Some k)
     else Ok None) in
  let* b := ChunkReaders.read_record (om_chunks m) (be_offset entry) in
  Chunk.open_chunk kind data_key (ik_dedup_key (om_keys m)) (image_kind (om_superblock m))
    (be_hash entry) max_plaintext b.

(** One turn of the unlocking loop of [open_chain]. *)
Definition open_member `{Destination D} (d : D) (chain_key : bytes) (chain : Id)
    (encrypted : bool) (x : ChainMemberFile * ImageReader) : result OpenMember :=
  let '(file, reader) := x in
  let superblock := ir_superblock reader in
  if negb (bool_decide (chain_id superblock = chain)) then
    Err (Corrupt "{} belongs to chain {}, expected {chain_id}")
  else
    let* member_keys := EKeys.unlock_with_chain_key chain_key chain superblock encrypted in
    let mac_key := if encrypted then Some (ik_meta_key member_keys) else None in
    Img.authenticate reader mac_key;;;
    let* handle := open_ro d (cm_file_name file) in
    let chunks := ChunkReaders.new handle (data_end_offset (ir_footer reader)) in
    Ok {| om_file_name := cm_file_name file; om_seq_in_chain := seq_in_chain superblock;
          om_image_uuid := image_uuid superblock; om_kind := member_kind superblock;
          om_superblock := superblock; om_reader := reader; om_chunks := chunks;
          om_keys := member_keys |}.

Definition open_chain `{Destination D} (d : D) (files : list ChainMemberFile)
    (encryption : Encryption) : result (list OpenMember) :=
  match files with
  | [] => Err (Unsupported "the chain has no members")
  | _ =>
    let* readers :=
      collectM (fun file => let* b := open_ro d (cm_file_name file) in Img.open b) files in
    match readers with
    | [] => Err (Unsupported "the chain has no members")
    | r0 :: _ =>
      let first := ir_superblock r0 in
      let* (chain_key, encrypted) := EKeys.chain_key_of encryption first in
      collectM (open_member d chain_key (chain_id first) encrypted) (combine files readers)
    end
  end.
End ops.
End Members.

(** ** Cursors over member manifests *)
Record Cursor (Src : Type) := {
  cu_wire : Src;
  cu_is_full : bool;
  cu_file_name : bytes;
  cu_chunk_count : Z;
  cu_chunk_size : Z;
  cu_remaining : Z;
  cu_pending : option DeltaEntry;
}.
Arguments cu_wire {Src}. Arguments cu_is_full {Src}. Arguments cu_file_name {Src}.
Arguments cu_chunk_count {Src}. Arguments cu_chunk_size {Src}. Arguments cu_remaining {Src}.
Arguments cu_pending {Src}.

Module Cursors.
Section ops.
Context `{ByteSource Src}.

(** The assignments to [wire], [remaining] and [pending]. *)
Definition moved (c : Cursor Src) (wire : Src) (remaining : Z) (pending : option DeltaEntry) :
    Cursor Src :=
  {| cu_wire := wire; cu_is_full := cu_is_full c; cu_file_name := cu_file_name c;
     cu_chunk_count := cu_chunk_count c; cu_chunk_size := cu_chunk_size c;
     cu_remaining := remaining; cu_pending := pending |}.

Definition read_delta (c : Cursor Src) : result (option DeltaEntry * Cursor Src) :=
  if cu_remaining c =? 0 then Ok (None, c)
  else
    let* (entry, wire) := Delta.read (cu_wire c) in
    Ok (Some entry, moved c wire (cu_remaining c - 1) (cu_pending c)).

Definition open (stream : Src) (delta : bool) (file_name : bytes) : result (Cursor Src) :=
  let* ((header, header_delta), wire) := BlockHeader.read stream in
  if negb (Bool.eqb header_delta delta) then
    Err (Corrupt "{file_name}: the manifest kind disagrees with the superblock")
  else
    let cursor :=
      {| cu_wire := wire; cu_is_full := negb delta; cu_file_name := file_name;
         cu_chunk_count := bm_chunk_count header; cu_chunk_size := bm_chunk_size header;
         cu_remaining := bm_entry_count header; cu_pending := None |} in
    if delta then
      let* (pending, cursor) := read_delta cursor in
      Ok (moved cursor (cu_wire cursor) (cu_remaining cursor) pending)
    else Ok cursor.

Definition state_at (c : Cursor Src) (index : Z) (current : ChunkState) :
    result (ChunkState * Cursor Src) :=
  if cu_is_full c then
    if cu_remaining c =? 0 then Err (Corrupt "{} ends before chunk {index}")
    else
      let* (entry, wire) := Entry.read (cu_wire c) in
      Ok (ChunkStates.of_entry entry, moved c wire (cu_remaining c - 1) (cu_pending c))
  else
    match cu_pending c with
    | None => Ok (current, c)
    | Some pending =>
      if de_chunk_no pending <? index then
        Err (Corrupt "{} has an out-of-order delta entry for chunk {}")
      else if index <? de_chunk_no pending then Ok (current, c)
      else
        let* (next, c) := read_delta (moved c (cu_wire c) (cu_remaining c) None) in
        Ok (ChunkStates.of_entry (de_entry pending),
            moved c (cu_wire c) (cu_remaining c) next)
    end.

(** One chunk through every cursor: the later members override. *)
Fixpoint merge_at (cursors : list (Cursor Src)) (index : Z) (state : ChunkState) :
    result (ChunkState * list (Cursor Src)) :=
  match cursors with
  | [] => Ok (state, [])
  | c :: cursors =>
    let* (state, c) := state_at c index state in
    let* (state, cursors) := merge_at cursors index state in
    Ok (state, c :: cursors)
  end.

(** The visitor of a walk: a callback that changes a state [V] of its own and
    may fail. The state is the caller's, so it survives every error. *)
Context {V : Type} (visit : Z -> ChunkState -> step V unit).

(** [for index in 0..chunk_count] over the merged states. *)
Definition merged_turn (loop : Z * list (Cursor Src)) : step V (Z * list (Cursor Src)) :=
  let '(index, cursors) := loop in
  do* (state, cursors) := lift (merge_at cursors index Unused) in
  do* _ := visit index state in
  step_ret (index + 1, cursors).

Definition walk_merged (chunk_count : Z) (cursors : list (Cursor Src)) :
    step V (list (Cursor Src)) :=
  do* (_, cursors) := step_iterM chunk_count merged_turn (0, cursors) in
  step_ret cursors.

(** [if matches!(state, Stored { member, .. } if member == own) { visit(..)? }]. *)
Definition visit_if_own (own index : Z) (state : ChunkState) : step V unit :=
  match state with
  | Stored member _ _ _ => if member =? own then visit index state else step_ret tt
  | _ => step_ret tt
  end.

(** The payloads one member stores itself. *)
Definition own_turn (own : Z) (loop : Z * Cursor Src) : step V (Z * Cursor Src) :=
  let '(index, c) := loop in
  do* (state, c) := lift (state_at c index Unused) in
  do* _ := visit_if_own own index state in
  step_ret (index + 1, c).

Definition walk_own (chunk_count : Z) (own : Z) (c : Cursor Src) : step V (Cursor Src) :=
  do* (_, c) := step_iterM chunk_count (own_turn own) (0, c) in
  step_ret c.

(** [u16::try_from(position).unwrap_or(u16::MAX)]. *)
Definition member_index (position : Z) : Z := if position <? 2 ^ 16 then position else 2 ^ 16 - 1.

Fixpoint walk_owns (chunk_count position : Z) (cursors : list (Cursor Src)) :
    step V (list (Cursor Src)) :=
  match cursors with
  | [] => step_ret []
  | c :: cursors =>
    do* c := walk_own chunk_count (member_index position) c in
    do* cursors := walk_owns chunk_count (position + 1) cursors in
    step_ret (c :: cursors)
  end.

(** The checks before the walk ... *)
Fixpoint check_counts (cursors : list (Cursor Src)) (chunk_count chunk_size : Z) : result unit :=
  match cursors with
  | [] => Ok tt
  | c :: cursors =>
    if negb (cu_chunk_count c =? chunk_count) then
      Err (Corrupt "{file_name} declares {} chunks, expected {chunk_count}")
    else if negb (cu_chunk_size c =? chunk_size) then
      Err (Corrupt "{file_name} declares a chunk size of {}, expected {}")
    else check_counts cursors chunk_count chunk_size
  end.

(** ... and after it. *)
Fixpoint check_drained (cursors : list (Cursor Src)) : result unit :=
  match cursors with
  | [] => Ok tt
  | c :: cursors =>
    match cu_pending c with
    | Some _ => Err (Corrupt "{} has a delta entry for chunk {} outside the image")
    | None =>
      if negb (cu_remaining c =? 0) then Err (Corrupt "{} has {} unused manifest entries")
      else check_drained cursors
    end
  end.

(** [walk_with], from the opened cursors on; [new] refuses an empty chain,
    so there is a first cursor. *)
Definition walk (own_payloads : bool) (chunk_count chunk_size : Z) (cursors : list (Cursor Src)) :
    step V unit :=
  do* _ := lift (check_counts cursors chunk_count chunk_size) in
  do* cursors :=
    if own_payloads then walk_owns chunk_count 0 cursors
    else walk_merged chunk_count cursors in
  do* _ := lift (check_drained cursors) in
  match cursors with
  | c0 :: _ =>
    if negb (cu_is_full c0) then step_err (Corrupt "the base manifest is not a full manifest")
    else step_ret tt
  | [] => step_ret tt
  end.
End ops.
End Cursors.

(** ** The chain as a whole *)
Record ChainWalk := { cw_members : list OpenMember; cw_chunk_count : Z; cw_chunk_size : Z }.

Module Walks.
Section ops.
Context `{Primitives}.

(** The four comparisons of [new] with the first member. *)
Definition agrees (first member : Superblock) : result unit :=
  if negb (chunk_size member =? chunk_size first) then
    Err (Corrupt "{} disagrees about the chunk size")
  else if negb (source_size_bytes member =? source_size_bytes first) then
    Err (Corrupt "{} disagrees about the source size")
  else if negb (bool_decide (image_kind member = image_kind first)) then
    Err (Corrupt "{} disagrees about the image kind")
  else if negb (bool_decide (set_id member = set_id first)) then
    Err (Corrupt "{} disagrees about the set")
  else Ok tt.

(** The [for] loop of [new]; [previous] is [members[index - 1]]. *)
Fixpoint check_links (first : Superblock) (index : Z) (previous : option OpenMember)
    (members : list OpenMember) : result unit :=
  match members with
  | [] => Ok tt
  | member :: members =>
    let expected := if index <=? U32_MAX then index else U32_MAX in
    if negb (om_seq_in_chain member =? expected) then
      Err (Corrupt "chain {} has a gap at sequence {}")
    else
      match previous with
      | Some previous =>
        ensure (negb ((0 <? om_seq_in_chain member) &&
            negb (bool_decide (parent_uuid (om_superblock member) = om_image_uuid previous))))
          (Corrupt "{} does not link to {}")
      | None => Ok tt
      end;;;
      agrees first (om_superblock member);;;
      check_links first (index + 1) (Some member) members
  end.

Definition new (members : list OpenMember) : result ChainWalk :=
  match members with
  | [] => Err (Unsupported "the chain has no members")
  | _ =>
    match sort_by_key om_seq_in_chain members with
    | [] => Err (Unsupported "the chain has no members")
    | first :: rest =>
      if negb (om_seq_in_chain first =? 0) || negb (bool_decide (om_kind first = Full)) then
        Err (Corrupt "chain {} does not start with a full member")
      else
        check_links (om_superblock first) 0 None (first :: rest);;;
        let* kind := Sb.aead_kind (om_superblock first) in
        let* stream := Img.stream_reader (om_reader first) SManifest
          (ik_meta_key (om_keys first)) kind in
        let* ((header, _), _) := BlockHeader.read stream in
        Ok {| cw_members := first :: rest; cw_chunk_count := bm_chunk_count header;
              cw_chunk_size := chunk_size (om_superblock first) |}
    end
  end.

(** The cursor of one member. *)
Definition open_cursor (m : OpenMember) : result (Cursor PageStreamReader) :=
  let* kind := Sb.aead_kind (om_superblock m) in
  let delta := bool_decide (om_kind m = Incremental) in
  let* stream :=
    Img.stream_reader (om_reader m) SManifest (ik_meta_key (om_keys m)) kind in
  Cursors.open stream delta (om_file_name m).

Definition access_keys (m : OpenMember) : MemberAccessKeys :=
  {| ak_data_key := ik_data_key (om_keys m); ak_dedup_key := ik_dedup_key (om_keys m) |}.

Definition access (w : ChainWalk) (first : OpenMember) (aead : AeadKind) : ChunkAccess :=
  {| ca_readers := map om_chunks (cw_members w); ca_keys := map access_keys (cw_members w);
     ca_aead := aead; ca_image_kind := image_kind (om_superblock first);
     ca_max_plaintext := cw_chunk_size w |}.

Definition walk_with {V} (w : ChainWalk) (own_payloads : bool)
    (visit : Z -> ChunkState -> ChunkAccess -> step V unit) : step V unit :=
  match cw_members w with
  | [] => step_err (Unsupported "the chain has no members")
  | first :: _ =>
    do* aead := lift (Sb.aead_kind (om_superblock first)) in
    do* cursors := lift (collectM open_cursor (cw_members w)) in
    Cursors.walk (fun index state => visit index state (access w first aead)) own_payloads
      (cw_chunk_count w) (cw_chunk_size w) cursors
  end.

Definition walk {V} (w : ChainWalk) := walk_with (V := V) w false.
Definition walk_own_payloads {V} (w : ChainWalk) := walk_with (V := V) w true.
End ops.
End Walks.

(** ** Finding the members of a chain *)
Module Resolve.
(** [name.ends_with(suffix)]. *)
Definition ends_with (suffix name : bytes) : bool :=
  bool_decide (zdrop (zlen name - zlen suffix) name = suffix).

Definition LRIMG : bytes := String.list_byte_of_string ".lrimg".

Section ops.
Context `{Primitives} `{Destination D}.

Definition read_superblock (d : D) (name : bytes) : result Superblock :=
  let* handle := open_ro d name in
  let* b := File.read_exact 0 SB_SIZE handle in
  Sb.decode b.

(** One turn of the listing loop. *)
Definition candidate (d : D) (target : Superblock) (name : bytes) : option ChainMemberFile :=
  if negb (ends_with LRIMG name) then None
  else
    match read_superblock d name with
    | Err _ => None
    | Ok candidate =>
      if negb (bool_decide (chain_id candidate = chain_id target))
         || (seq_in_chain target <? seq_in_chain candidate) then None
      else Some {| cm_file_name := name; cm_seq_in_chain := seq_in_chain candidate;
                   cm_image_uuid := image_uuid candidate |}
    end.

Fixpoint check_gaps (index : Z) (candidates : list ChainMemberFile) : result unit :=
  match candidates with
  | [] => Ok tt
  | member :: candidates =>
    let expected := if index <=? U32_MAX then index else U32_MAX in
    if negb (cm_seq_in_chain member =? expected) then
      Err (Corrupt "the chain of {image_name} is incomplete: no member at sequence {expected}")
    else check_gaps (index + 1) candidates
  end.

Definition resolve_chain (d : D) (image_name : bytes) : result (list ChainMemberFile) :=
  let* target := read_superblock d image_name in
  let* names := list_files d in
  let candidates := sort_by_key cm_seq_in_chain (omap (candidate d target) names) in
  check_gaps 0 candidates;;;
  match candidates with
  | [] => Err (Corrupt "no chain members found for {image_name}")
  | _ => Ok candidates
  end.
End ops.
End Resolve.
