(* ===== verification/ChainSpec.v ===== *)
(** * What a chain walk visits

    The specification of [Chain.v]: the manifests of a chain, applied one after
    the other to whole vectors of states, against the cursors that merge them
    chunk by chunk. *)

From S2P Require Import Prelude Core Crypto Pages Wire Superblock Chunk Footer Files PageStream ImageReader Manifest EngineKeys CatalogRecords Destination Chain.

(** ** Manifests and their meaning *)
Inductive MemberManifest :=
  | MFull (entries : list BlockEntry)
  | MDelta (deltas : list DeltaEntry).

Fixpoint increasing (ds : list DeltaEntry) : Prop :=
  match ds with
  | [] => True
  | d :: ds => Forall (fun e => de_chunk_no d < de_chunk_no e) ds /\ increasing ds
  end.

(** A manifest about [n] chunks, as the backup writes it. *)
Definition manifest_ok (n : nat) (m : MemberManifest) : Prop :=
  match m with
  | MFull es => Forall Entry.ok es /\ length es = n
  | MDelta ds => Forall Delta.ok ds /\ increasing ds /\ Forall (ChunkStates.in_range n) ds
  end.

Definition manifest_enc (m : MemberManifest) : bytes :=
  match m with
  | MFull es => concat (map Entry.enc es)
  | MDelta ds => concat (map Delta.enc ds)
  end.

Definition manifest_count (m : MemberManifest) : Z :=
  match m with MFull es => zlen es | MDelta ds => zlen ds end.

Definition is_delta (m : MemberManifest) : bool :=
  match m with MFull _ => false | MDelta _ => true end.

Definition apply_manifest (states : list ChunkState) (m : MemberManifest) : list ChunkState :=
  match m with
  | MFull es => map ChunkStates.of_entry es
  | MDelta ds => fst (ChunkStates.apply_delta states ds)
  end.

(** The state of every chunk of a chain. *)
Definition merged_states (n : nat) (ms : list MemberManifest) : list ChunkState :=
  foldl apply_manifest (replicate n Unused) ms.

(** The same for one chunk. *)
Definition state_of (m : MemberManifest) (i : nat) (current : ChunkState) : ChunkState :=
  match m with
  | MFull es => match es !! i with Some e => ChunkStates.of_entry e | None => current end
  | MDelta ds => ChunkStates.merged ds i current
  end.

Definition merged_state (ms : list MemberManifest) (i : nat) (state : ChunkState) : ChunkState :=
  foldl (fun st m => state_of m i st) state ms.

Lemma merged_states_lookup n ms i :
  Forall (manifest_ok n) ms ->
  length (merged_states n ms) = n /\
  ((i < n)%nat -> merged_states n ms !! i = Some (merged_state ms i Unused)).
Proof.
  unfold merged_states, merged_state. induction ms as [|m ms IH] using rev_ind; intros Hm.
  - cbn. rewrite length_replicate. split; [done|]. intros. by apply lookup_replicate_2.
  - apply Forall_app in Hm as [Hms Hm]. rewrite Forall_singleton in Hm.
    rewrite !foldl_app. cbn [foldl]. destruct (IH Hms) as [Hl Hx].
    set (states := foldl apply_manifest _ ms) in *. destruct m as [es|ds]; cbn.
    + destruct Hm as [_ He]. rewrite length_map. split; [done|]. intros Hi.
      change (map ChunkStates.of_entry es) with (ChunkStates.of_entry <$> es).
      rewrite list_lookup_fmap. rewrite <- He in Hi.
      destruct (lookup_lt_is_Some_2 es i Hi) as [e ->]. done.
    + destruct Hm as (_ & _ & Hr). rewrite ChunkStates.apply_delta_length. split; [done|].
      intros Hi. rewrite <- Hl in Hr. destruct (ChunkStates.apply_delta_Ok states ds Hr) as [_ ->].
      by rewrite Hx.
Qed.

Lemma merged_other ds k cur :
  Forall (fun d => Z.to_nat (de_chunk_no d) <> k) ds -> ChunkStates.merged ds k cur = cur.
Proof.
  unfold ChunkStates.merged. revert cur. induction ds as [|d ds IH]; intros cur Hd; [done|].
  inversion Hd; subst. cbn. rewrite decide_False by done. by apply IH.
Qed.

Lemma merged_app a b k cur :
  ChunkStates.merged (a ++ b) k cur = ChunkStates.merged b k (ChunkStates.merged a k cur).
Proof. unfold ChunkStates.merged. by rewrite foldl_app. Qed.

(** A state as an entry of a manifest records it. *)
Definition recordable (s : ChunkState) : Prop := exists e, Entry.ok e /\ ChunkStates.of_entry e = s.

Lemma state_of_recordable n m i s : manifest_ok n m -> recordable s -> recordable (state_of m i s).
Proof.
  destruct m as [es|ds]; cbn [manifest_ok state_of].
  - intros [Hes _] Hs. destruct (es !! i) as [e|] eqn:E; [|done].
    exists e. rewrite Forall_lookup in Hes. split; [by eapply Hes|done].
  - intros [Hds _]. unfold ChunkStates.merged. revert s.
    induction Hds as [|d ds [_ Hd] _ IH]; intros s Hs; [done|]. cbn [foldl]. apply IH.
    case_decide; [by exists (de_entry d)|done].
Qed.

Lemma merged_recordable n ms : Forall (manifest_ok n) ms -> Forall recordable (merged_states n ms).
Proof.
  intros Hm. apply Forall_lookup. intros i s Hs. destruct (merged_states_lookup n ms i Hm) as [Hl Hi].
  pose proof (lookup_lt_Some _ _ _ Hs) as Hlt. rewrite Hl in Hlt. rewrite (Hi Hlt) in Hs. injection Hs as <-.
  unfold merged_state. clear Hl Hi Hlt. assert (recordable Unused) as Hu by (exists Entry.unused; by split).
  revert Hu. generalize Unused. induction Hm as [|m ms Hm _ IH]; intros s Hs; [done|]. cbn [foldl]. apply IH.
  by eapply state_of_recordable.
Qed.

(** ** Cursors *)
Section cursors.
Context `{ByteSourceLaws Src}.

(** [c] stands before chunk [i] of the manifest [m], with [post] behind it. *)
Definition cursor_at (post : bytes) (c : Cursor Src) (m : MemberManifest) (i : nat) : Prop :=
  match m with
  | MFull es =>
    cu_is_full c = true /\ cu_pending c = None /\ cu_remaining c = zlen (drop i es) /\
    holds (cu_wire c) (concat (map Entry.enc (drop i es)) ++ post)
  | MDelta ds => exists before rest,
    cu_is_full c = false /\ ds = before ++ rest /\
    Forall (fun d => (Z.to_nat (de_chunk_no d) < i)%nat) before /\
    Forall (fun d => (i <= Z.to_nat (de_chunk_no d))%nat) rest /\
    cu_pending c = head rest /\ cu_remaining c = zlen (tail rest) /\
    holds (cu_wire c) (concat (map Delta.enc (tail rest)) ++ post)
  end.

Lemma read_delta_at (c : Cursor Src) ds post :
  Forall Delta.ok ds -> cu_remaining c = zlen ds ->
  holds (cu_wire c) (concat (map Delta.enc ds) ++ post) ->
  exists wire, Cursors.read_delta c = Ok (head ds,
      Cursors.moved c wire (zlen (tail ds)) (cu_pending c)) /\
    holds wire (concat (map Delta.enc (tail ds)) ++ post).
Proof.
  intros Hd Hr Hh. unfold Cursors.read_delta. rewrite Hr. destruct ds as [|d ds].
  - exists (cu_wire c). split; [|done]. rewrite zlen_nil in Hr. destruct c. cbn in *. by subst.
  - rewrite zlen_cons in *. pose proof (zlen_nonneg ds). rewrite (proj2 (Z.eqb_neq _ _)) by lia.
    inversion Hd; subst. cbn [map concat] in Hh. rewrite <- app_assoc in Hh.
    destruct (proj1 (Delta.delta_read_codec d ltac:(done)) _ _ Hh) as (wire & -> & Hw). cbn [bind].
    exists wire. split; [|done]. cbn [head tail]. do 3 f_equal. lia.
Qed.

(** Opening a cursor on a manifest stream. *)
Lemma open_at n (m : MemberManifest) s h file_name post :
  manifest_ok n m -> BlockHeader.ok h -> bm_entry_count h = manifest_count m ->
  holds s (BlockHeader.enc h (is_delta m) ++ manifest_enc m ++ post) ->
  exists c, Cursors.open s (is_delta m) file_name = Ok c /\ cursor_at post c m 0 /\
    cu_chunk_count c = bm_chunk_count h /\ cu_chunk_size c = bm_chunk_size h.
Proof.
  intros Hm Hh Hc Hs. unfold Cursors.open.
  destruct (proj1 (BlockHeader.header_read_codec h (is_delta m) Hh) _ _ Hs) as (wire & -> & Hw).
  cbn [bind]. rewrite eqb_reflx. cbn [negb]. destruct m as [es|ds]; cbn [is_delta manifest_enc] in *.
  - eexists. split; [done|]. cbn. by rewrite Hc.
  - destruct Hm as (Hok & _ & _). match goal with |- context [Cursors.read_delta ?c] => set (c0 := c) end.
    destruct (read_delta_at c0 ds post Hok Hc Hw) as (w & -> & Hw'). cbn [bind].
    eexists. split; [done|]. split; [|done]. exists [], ds. split_and!; try done.
    apply Forall_forall. lia.
Qed.

(** One chunk through one cursor. *)
Lemma state_at_spec n post c m i cur :
  manifest_ok n m -> (i < n)%nat -> cursor_at post c m i ->
  exists c', Cursors.state_at c (Z.of_nat i) cur = Ok (state_of m i cur, c') /\
    cursor_at post c' m (S i) /\ cu_is_full c' = cu_is_full c.
Proof.
  intros Hm Hi Hc. unfold Cursors.state_at. destruct m as [es|ds]; cbn [state_of].
  - destruct Hm as [Hok Hl], Hc as (Hf & Hp & Hr & Hw). rewrite Hf.
    destruct (lookup_lt_is_Some_2 es i) as [e He]; [lia|]. rewrite He.
    rewrite (drop_S _ _ _ He) in Hr, Hw. rewrite zlen_cons in Hr. cbn [map concat] in Hw.
    rewrite <- app_assoc in Hw. pose proof (zlen_nonneg (drop (S i) es)).
    rewrite (proj2 (Z.eqb_neq _ _)) by lia.
    rewrite Forall_lookup in Hok. specialize (Hok _ _ He).
    destruct (proj1 (Entry.entry_read_codec e Hok) _ _ Hw) as (wire & -> & Hw'). cbn [bind].
    eexists. split; [done|]. cbn. split; [|done]. split_and!; [done|done|lia|done].
  - destruct Hm as (Hok & Hinc & Hr), Hc as (before & rest & Hf & -> & Hb & Hrest & Hp & Hrem & Hw).
    rewrite Hf, Hp. rewrite merged_app, (merged_other before).
    2: { eapply Forall_impl; [exact Hb|]. simpl. lia. }
    apply Forall_app in Hok as [_ Hok].
    assert (increasing rest) as Hinc'.
    { clear -Hinc. induction before as [|x before IH]; [done|]. destruct Hinc. by apply IH. }
    assert (forall post' c', cu_is_full c' = false -> cu_pending c' = head rest ->
      cu_remaining c' = zlen (tail rest) -> holds (cu_wire c') (concat (map Delta.enc (tail rest)) ++ post') ->
      Forall (fun d => (S i <= Z.to_nat (de_chunk_no d))%nat) rest ->
      cursor_at post' c' (MDelta (before ++ rest)) (S i)) as Hskip.
    { intros post' c' ? ? ? ? Hge. exists before, rest. split_and!; try done.
      eapply Forall_impl; [exact Hb|]. simpl. lia. }
    destruct rest as [|d rest]; cbn [head tail] in *.
    + exists c. split; [done|]. split; [|done]. by apply Hskip.
    + inversion Hok as [|? ? [Hno _] Hoks]; subst. inversion Hrest as [|? ? Hd Hds]; subst.
      unfold u64_ok in Hno. rewrite (proj2 (Z.ltb_ge _ _)) by lia.
      destruct Hinc' as [Hgt Hinc']. destruct (Z.ltb_spec (Z.of_nat i) (de_chunk_no d)) as [Hlt|Hge].
      * exists c. rewrite merged_other; [split; [done|]; split; [|done]; apply Hskip; try done|].
        -- constructor; [lia|]. eapply Forall_impl; [exact Hgt|]. simpl. lia.
        -- constructor; [lia|]. eapply Forall_impl; [exact Hgt|]. simpl. lia.
      * assert (Z.to_nat (de_chunk_no d) = i) as Heq by lia.
        match goal with |- context [Cursors.read_delta ?c] => set (c0 := c) end.
        destruct (read_delta_at c0 rest post Hoks Hrem Hw) as (w & -> & Hw'). cbn [bind].
        eexists. split.
        { cbn [ChunkStates.merged foldl]. unfold ChunkStates.merged. cbn [foldl].
          rewrite decide_True by done. fold (ChunkStates.merged rest i (ChunkStates.of_entry (de_entry d))).
          rewrite merged_other; [done|]. eapply Forall_impl; [exact Hgt|]. simpl. lia. }
        cbn. split; [|done]. exists (before ++ [d]), rest. rewrite <- app_assoc.
        split_and!; try done.
        -- apply Forall_app. split; [|constructor; [lia|constructor]].
           eapply Forall_impl; [exact Hb|]. simpl. lia.
        -- eapply Forall_impl; [exact Hgt|]. simpl. lia.
Qed.

(** A cursor past its last chunk is drained. *)
Lemma cursor_drained n post c m :
  manifest_ok n m -> cursor_at post c m n -> cu_pending c = None /\ cu_remaining c = 0.
Proof.
  destruct m as [es|ds].
  - intros [_ Hl] (_ & -> & -> & _). rewrite drop_ge by lia. done.
  - intros (_ & _ & Hr) (before & rest & _ & -> & _ & Hge & -> & -> & _).
    apply Forall_app in Hr as [_ Hr]. destruct rest as [|d rest]; [done|].
    inversion Hr as [|? ? Hx]; subst. inversion Hge; subst. unfold ChunkStates.in_range in Hx. lia.
Qed.
End cursors.

(** ** Walks *)
Section walks.
Context `{ByteSourceLaws Src} {V : Type} (visit : Z -> ChunkState -> step V unit).

(** The callback on a list of states, in order, from chunk [i] on. *)
Fixpoint visit_all (i : Z) (states : list ChunkState) : step V unit :=
  match states with
  | [] => step_ret tt
  | s :: states => do* _ := visit i s in visit_all (i + 1) states
  end.

(** The callback on the states one member stores itself. *)
Fixpoint visit_own (own i : Z) (states : list ChunkState) : step V unit :=
  match states with
  | [] => step_ret tt
  | s :: states =>
    do* _ := Cursors.visit_if_own visit own i s in
    visit_own own (i + 1) states
  end.

Definition reaches (c : Cursor Src) (m : MemberManifest) (i : nat) : Prop :=
  exists post, cursor_at post c m i.

Lemma merge_at_spec n cs ms i st :
  Forall (manifest_ok n) ms -> (i < n)%nat -> Forall2 (fun c m => reaches c m i) cs ms ->
  exists cs', Cursors.merge_at cs (Z.of_nat i) st = Ok (merged_state ms i st, cs') /\
    Forall2 (fun c m => reaches c m (S i)) cs' ms /\ map cu_is_full cs' = map cu_is_full cs.
Proof.
  intros Hm Hi Hc. revert st. induction Hc as [|c m cs ms [post Hcm] Hcs IH]; intros st.
  - exists []. by split_and!.
  - inversion Hm as [|? ? Hm1 Hms]; subst.
    destruct (state_at_spec n post c m i st Hm1 Hi Hcm) as (c' & Hs & Hc' & Hf').
    destruct (IH Hms (state_of m i st)) as (cs' & Hcs' & Hr & Hf).
    exists (c' :: cs'). cbn [Cursors.merge_at]. rewrite Hs. cbn [bind]. rewrite Hcs'. cbn.
    split_and!; [done| |by rewrite Hf', Hf]. constructor; [by exists post|done].
Qed.

Lemma drained_spec n cs ms :
  Forall (manifest_ok n) ms -> Forall2 (fun c m => reaches c m n) cs ms ->
  Cursors.check_drained cs = Ok tt.
Proof.
  intros Hm Hc. induction Hc as [|c m cs ms [post Hcm] _ IH]; [done|].
  inversion Hm as [|? ? Hm1 Hms]; subst. cbn [Cursors.check_drained].
  destruct (cursor_drained n post c m Hm1 Hcm) as [-> ->]. by apply IH.
Qed.

(** Doing [s], then giving [x] back. *)
Definition andthen {X} (s : step V unit) (x : X) : step V X := do* _ := s in step_ret x.

(** The loop of the merged walk is the callback on the merged states. *)
Lemma walk_merged_spec n ms : Forall (manifest_ok n) ms -> forall k i cs,
  (i + k = n)%nat -> Forall2 (fun c m => reaches c m i) cs ms ->
  exists cs', (forall v, nat_step_iterM k (Cursors.merged_turn visit) (Z.of_nat i, cs) v =
    andthen (visit_all (Z.of_nat i) (drop i (merged_states n ms))) (Z.of_nat n, cs') v) /\
    Forall2 (fun c m => reaches c m n) cs' ms /\ map cu_is_full cs' = map cu_is_full cs.
Proof.
  intros Hm. destruct (merged_states_lookup n ms 0 Hm) as [Hlen _].
  induction k as [|k IH]; intros i cs Hk Hc.
  - exists cs. rewrite drop_ge by lia. replace i with n in * by lia. by split_and!.
  - destruct (merge_at_spec n cs ms i Unused Hm ltac:(lia) Hc) as (cs1 & Hs & Hc1 & Hf1).
    destruct (merged_states_lookup n ms i Hm) as [_ Hx]. specialize (Hx ltac:(lia)).
    destruct (IH (S i) cs1 ltac:(lia) Hc1) as (cs' & Hr & Hc' & Hf').
    rewrite Nat2Z.inj_succ in Hr. exists cs'. rewrite <- Hf1. split_and!; [|done..]. intros v.
    rewrite (drop_S _ _ _ Hx). cbn [nat_step_iterM visit_all]. unfold Cursors.merged_turn at 1.
    unfold andthen, step_bind, lift, step_ret in *. rewrite Hs.
    destruct (visit _ _ v) as [v1 [[]|e]]; [|done]. apply Hr.
Qed.

(** The states one manifest gives on its own. *)
Definition own_states (n : nat) (m : MemberManifest) : list ChunkState :=
  merged_states n [m].

Lemma walk_own_spec n m own : manifest_ok n m -> forall k i c,
  (i + k = n)%nat -> reaches c m i ->
  exists c', (forall v, nat_step_iterM k (Cursors.own_turn visit own) (Z.of_nat i, c) v =
    andthen (visit_own own (Z.of_nat i) (drop i (own_states n m))) (Z.of_nat n, c') v) /\
    reaches c' m n /\ cu_is_full c' = cu_is_full c.
Proof.
  intros Hm. assert (Forall (manifest_ok n) [m]) as Hms by by repeat constructor.
  destruct (merged_states_lookup n [m] 0 Hms) as [Hlen _]. unfold own_states in *.
  induction k as [|k IH]; intros i c Hk [post Hc].
  - exists c. rewrite drop_ge by lia. replace i with n in * by lia.
    split_and!; [done|by exists post|done].
  - destruct (state_at_spec n post c m i Unused Hm ltac:(lia) Hc) as (c1 & Hs & Hc1 & Hf1).
    destruct (merged_states_lookup n [m] i Hms) as [_ Hx]. specialize (Hx ltac:(lia)).
    destruct (IH (S i) c1 ltac:(lia) ltac:(by exists post)) as (c' & Hr & Hc' & Hf').
    rewrite Nat2Z.inj_succ in Hr. exists c'. rewrite <- Hf1. split_and!; [|done..]. intros v.
    rewrite (drop_S _ _ _ Hx). cbn [nat_step_iterM visit_own]. unfold Cursors.own_turn at 1.
    unfold andthen, step_bind, lift, step_ret in *. rewrite Hs. cbn [merged_state foldl].
    destruct (Cursors.visit_if_own _ _ _ _ v) as [v1 [[]|e]]; [|done]. apply Hr.
Qed.

(** Member after member, each with its own states. *)
Fixpoint visit_owns (n : nat) (position : Z) (ms : list MemberManifest) : step V unit :=
  match ms with
  | [] => step_ret tt
  | m :: ms =>
    do* _ := visit_own (Cursors.member_index position) 0 (own_states n m) in
    visit_owns n (position + 1) ms
  end.

Lemma walk_owns_spec n ms : Forall (manifest_ok n) ms -> forall position cs,
  Forall2 (fun c m => reaches c m 0) cs ms ->
  exists cs', (forall v, Cursors.walk_owns visit (Z.of_nat n) position cs v =
    andthen (visit_owns n position ms) cs' v) /\
    Forall2 (fun c m => reaches c m n) cs' ms /\ map cu_is_full cs' = map cu_is_full cs.
Proof.
  intros Hm position cs Hc. revert position.
  induction Hc as [|c m cs ms Hcm Hcs IH]; intros position; [exists []; by split_and!|].
  inversion Hm as [|? ? Hm1 Hms]; subst.
  destruct (walk_own_spec n m (Cursors.member_index position) Hm1 n 0 c eq_refl Hcm)
    as (c' & Hr & Hc' & Hf). rewrite drop_0 in Hr. change (Z.of_nat 0) with 0 in Hr.
  destruct (IH Hms (position + 1)) as (cs' & Hr' & Hcs' & Hf').
  exists (c' :: cs'). cbn [map]. rewrite Hf, Hf'. split_and!; [|by constructor|done]. intros v.
  cbn [Cursors.walk_owns visit_owns]. unfold Cursors.walk_own.
  unfold andthen, step_bind, step_ret in *. rewrite step_iterM_nat, Hr.
  destruct (visit_own _ 0 _ v) as [v1 [[]|e]]; [|done]. rewrite Hr'.
  by destruct (visit_owns _ _ _ v1) as [v2 [[]|e]].
Qed.

(** Both walks over opened cursors, checks included. *)
Lemma walk_spec n chunk_size own cs ms v :
  Forall (manifest_ok n) ms -> Forall2 (fun c m => reaches c m 0) cs ms ->
  Forall (fun c => cu_chunk_count c = Z.of_nat n /\ cu_chunk_size c = chunk_size) cs ->
  (match ms with m :: _ => is_delta m = false | [] => False end) ->
  Cursors.walk visit own (Z.of_nat n) chunk_size cs v =
  (if own then visit_owns n 0 ms else visit_all 0 (merged_states n ms)) v.
Proof.
  intros Hm Hc Hn Hfirst. unfold Cursors.walk.
  assert (Cursors.check_counts cs (Z.of_nat n) chunk_size = Ok tt) as ->.
  { clear -Hn. induction Hn as [|c cs [Hc Hs] _ IH]; [done|]. cbn. by rewrite Hc, Hs, !Z.eqb_refl. }
  assert (forall cs', Forall2 (fun c m => reaches c m n) cs' ms -> map cu_is_full cs' = map cu_is_full cs ->
    forall w : V, (do* _ := lift (Cursors.check_drained cs') in
      match cs' with
      | c0 :: _ => if negb (cu_is_full c0)
                   then step_err (Corrupt "the base manifest is not a full manifest") else step_ret tt
      | [] => step_ret tt
      end) w = (w, Ok tt)) as Hend.
  { intros cs' Hc' Hf w. rewrite (drained_spec n cs' ms) by done.
    destruct Hc as [|c m cs ms [post Hcm] _]; [done|]. destruct cs' as [|c' cs']; [done|].
    injection Hf as Hf _. destruct m as [es|ds]; [|done]. destruct Hcm as (Hcf & _). cbn.
    by rewrite Hf, Hcf. }
  unfold andthen, step_bind, lift, step_ret in *. destruct own.
  - destruct (walk_owns_spec n ms Hm 0 cs Hc) as (cs' & Hr & Hc' & Hf).
    unfold andthen, step_bind, step_ret in Hr. rewrite Hr.
    destruct (visit_owns _ _ _ v) as [v1 [[]|e]]; [|done]. by apply Hend.
  - unfold Cursors.walk_merged, step_bind, step_ret. rewrite step_iterM_nat.
    destruct (walk_merged_spec n ms Hm n 0 cs eq_refl Hc) as (cs' & Hr & Hc' & Hf).
    unfold andthen, step_bind, step_ret in Hr.
    rewrite drop_0 in Hr. change (Z.of_nat 0) with 0 in Hr. rewrite Hr.
    destruct (visit_all 0 _ v) as [v1 [[]|e]]; [|done]. by apply Hend.
Qed.
End walks.

(** ** Opened chains *)
Section chains.
Context `{PrimitiveLaws}.

(** The manifest stream of the member [m] is [mm], about [n] chunks. *)
Record manifest_of (n : nat) (chunk_size : Z) (m : OpenMember) (mm : MemberManifest) : Prop := {
  mo_ok : manifest_ok n mm;
  mo_kind : bool_decide (om_kind m = Incremental) = is_delta mm;
  mo_stream : exists kind r h post,
    Sb.aead_kind (om_superblock m) = Ok kind /\
    Img.stream_reader (om_reader m) SManifest (ik_meta_key (om_keys m)) kind = Ok r /\
    holds r (BlockHeader.enc h (is_delta mm) ++ manifest_enc mm ++ post) /\
    BlockHeader.ok h /\ bm_entry_count h = manifest_count mm /\
    bm_chunk_count h = Z.of_nat n /\ bm_chunk_size h = chunk_size;
}.

Lemma manifest_states_ok n cs ms mms : Forall2 (manifest_of n cs) ms mms -> Forall (manifest_ok n) mms.
Proof. induction 1 as [|? ? ? ? [] _ IH]; by constructor. Qed.

Lemma open_cursor_of n cs m mm :
  manifest_of n cs m mm -> exists c, Walks.open_cursor m = Ok c /\ reaches c mm 0 /\
    cu_chunk_count c = Z.of_nat n /\ cu_chunk_size c = cs.
Proof.
  intros [Hok Hk (kind & r & h & post & Hkind & Hr & Hh & Hhok & Hc & Hn & Hcs)].
  destruct (open_at n mm r h (om_file_name m) post Hok Hhok Hc Hh) as (c & Ho & Hat & Hcn & Hcc).
  exists c. unfold Walks.open_cursor. rewrite Hkind. cbn [bind]. rewrite Hr. cbn [bind].
  rewrite Hk, Ho, Hcn, Hcc. split_and!; [done|by exists post|done|done].
Qed.

Lemma open_cursors_of n cs ms mms :
  Forall2 (manifest_of n cs) ms mms -> exists cursors,
    collectM Walks.open_cursor ms = Ok cursors /\ Forall2 (fun c m => reaches c m 0) cursors mms /\
    Forall (fun c => cu_chunk_count c = Z.of_nat n /\ cu_chunk_size c = cs) cursors.
Proof.
  induction 1 as [|m mm ms mms Hm _ (cursors & IH & Hr & Hc)]; [by exists []|].
  destruct (open_cursor_of n cs m mm Hm) as (c & Ho & Hat & Hn & Hs).
  exists (c :: cursors). cbn [collectM]. rewrite Ho. cbn [bind]. rewrite IH. cbn [bind].
  split_and!; [done|by constructor|by constructor].
Qed.

(** *** What [new] has checked *)

Definition agrees_with (first member : Superblock) : Prop :=
  chunk_size member = chunk_size first /\ source_size_bytes member = source_size_bytes first /\
  image_kind member = image_kind first /\ set_id member = set_id first.

Lemma agrees_Ok first member u : Walks.agrees first member = Ok u -> agrees_with first member.
Proof.
  unfold Walks.agrees, agrees_with. repeat (case_match; [done|]). bprop. done.
Qed.

Lemma check_links_Ok first members : forall p previous u,
  p + zlen members <= 2 ^ 32 -> (previous = None <-> p = 0) -> 0 <= p ->
  Walks.check_links first p previous members = Ok u ->
  forall i m, members !! i = Some m ->
    om_seq_in_chain m = p + Z.of_nat i /\ agrees_with first (om_superblock m) /\
    (forall pm, (match i with O => previous | S j => members !! j end) = Some pm ->
      parent_uuid (om_superblock m) = om_image_uuid pm).
Proof.
  induction members as [|x members IH]; intros p previous u Hp Hprev H0p Hc i m Hi; [done|].
  rewrite zlen_cons in Hp. pose proof (zlen_nonneg members). cbn [Walks.check_links] in Hc.
  unfold U32_MAX in Hc. rewrite (proj2 (Z.leb_le _ _)) in Hc by lia.
  destruct (Z.eqb_spec (om_seq_in_chain x) p) as [Hx|]; [|done]. cbn [negb] in Hc.
  apply bind_Ok in Hc as (u1 & Hl & Hc). apply bind_Ok in Hc as (u2 & Ha & Hc).
  apply agrees_Ok in Ha. destruct i as [|i].
  - injection Hi as <-. split_and!; [lia|done|]. intros pm ->. apply ensure_Ok in Hl.
    rewrite Hx, (proj2 (Z.ltb_lt 0 p)) in Hl.
    + cbn [andb] in Hl. by bprop.
    + destruct (Z.eq_dec p 0) as [Hz|]; [by apply Hprev in Hz|lia].
  - destruct (IH (p + 1) (Some x) u ltac:(lia) ltac:(split; [done|lia]) ltac:(lia) Hc i m Hi)
      as (Hs & Hag & Hpar). split_and!; [lia|done|]. intros pm Hpm. apply Hpar. by destruct i.
Qed.
(** The access a walk hands out. *)
Definition access_of (w : ChainWalk) (access : ChunkAccess) : Prop := exists first rest kind,
  cw_members w = first :: rest /\ Sb.aead_kind (om_superblock first) = Ok kind /\
  access = Walks.access w first kind.

(** What the two walks visit. *)
Lemma walks_access (members : list OpenMember) (w : ChainWalk) (n : nat) (mms : list MemberManifest) :
  Walks.new members = Ok w -> Forall2 (manifest_of n (cw_chunk_size w)) (cw_members w) mms ->
  cw_chunk_count w = Z.of_nat n /\
  exists access, access_of w access /\
    forall V (visit : Z -> ChunkState -> ChunkAccess -> step V unit) v,
      Walks.walk w visit v = visit_all (fun i s => visit i s access) 0 (merged_states n mms) v /\
      Walks.walk_own_payloads w visit v = visit_owns (fun i s => visit i s access) n 0 mms v.
Proof.
  intros Hw Hm. unfold Walks.new in Hw.
  destruct members as [|m0 ms]; [done|].
  destruct (sort_by_key om_seq_in_chain (m0 :: ms)) as [|first rest]; [done|].
  destruct (negb _ || negb _) eqn:E0; [done|]. bprop. inv_ok. cbn [cw_members cw_chunk_size cw_chunk_count] in *.
  inversion Hm as [|? mm ? mms' Hm1 Hms]; subst. pose proof Hm1 as [Hok Hk Hst].
  destruct Hst as (kind & r & h & post & Hkind & Hr & Hh & Hhok & Hec & Hn & Hcs).
  assert (is_delta mm = false) as Hfull by (rewrite <- Hk; apply bool_decide_eq_false; congruence).
  match goal with HK : Sb.aead_kind _ = Ok ?k |- _ => assert (k = kind) as -> by congruence end.
  match goal with HS : Img.stream_reader _ _ _ _ = Ok ?r' |- _ => assert (r' = r) as -> by congruence end.
  destruct (proj1 (BlockHeader.header_read_codec h (is_delta mm) Hhok) _ _ Hh) as (wire & Hrd & _).
  match goal with HB : BlockHeader.read r = _ |- _ => rewrite Hrd in HB; injection HB as <- <- <- end.
  split; [done|]. exists (Walks.access {| cw_members := first :: rest; cw_chunk_count := bm_chunk_count h;
    cw_chunk_size := chunk_size (om_superblock first) |} first kind).
  assert (Forall (manifest_ok n) (mm :: mms')) as Hoks.
  { clear -Hm. induction Hm as [|? ? ? ? [] _ IH]; by constructor. }
  split; [by exists first, rest, kind|]. intros V visit st. split; unfold Walks.walk, Walks.walk_own_payloads, Walks.walk_with;
    cbn [cw_members cw_chunk_size cw_chunk_count]; rewrite Hkind; cbn [bind];
    destruct (open_cursors_of _ _ _ _ Hm) as (cursors & -> & Hc & Hcc); cbn [bind]; rewrite Hn.
  - apply (walk_spec _ n _ false); done.
  - apply (walk_spec _ n _ true); done.
Qed.

Lemma access_of_lists w access : access_of w access ->
  ca_readers access = map om_chunks (cw_members w) /\ ca_keys access = map Walks.access_keys (cw_members w).
Proof. by intros (first & rest & kind & _ & _ & ->). Qed.

Lemma walks_of (members : list OpenMember) (w : ChainWalk) (n : nat) (mms : list MemberManifest) :
  Walks.new members = Ok w -> Forall2 (manifest_of n (cw_chunk_size w)) (cw_members w) mms ->
  cw_chunk_count w = Z.of_nat n /\
  exists access, ca_readers access = map om_chunks (cw_members w) /\
    ca_keys access = map Walks.access_keys (cw_members w) /\
    forall V (visit : Z -> ChunkState -> ChunkAccess -> step V unit) v,
      Walks.walk w visit v = visit_all (fun i s => visit i s access) 0 (merged_states n mms) v /\
      Walks.walk_own_payloads w visit v = visit_owns (fun i s => visit i s access) n 0 mms v.
Proof.
  intros Hw Hm. destruct (walks_access members w n mms Hw Hm) as (Hn & access & Ha & Hv).
  destruct (access_of_lists w access Ha). split; [done|]. by exists access.
Qed.
End chains.

(** ** Properties *)
Section properties.
Context `{PrimitiveLaws}.

(** C37: [ChainWalk::new] accepts only chains. The members it keeps are those it
    was given, in sequence order 0, 1, 2, ... without gaps or duplicates; the
    first is a full; every other member names its predecessor as its parent;
    and all agree on chunk size, source size, image kind and set. *)
Theorem chain_new_sound (members : list OpenMember) (w : ChainWalk) :
  zlen members <= 2 ^ 32 -> Walks.new members = Ok w ->
  cw_members w ≡ₚ members /\
  exists first, cw_members w !! 0%nat = Some first /\ om_kind first = Full /\
    cw_chunk_size w = chunk_size (om_superblock first) /\
    forall i m, cw_members w !! i = Some m ->
      om_seq_in_chain m = Z.of_nat i /\ agrees_with (om_superblock first) (om_superblock m) /\
      (forall j pm, i = S j -> cw_members w !! j = Some pm ->
        parent_uuid (om_superblock m) = om_image_uuid pm).
Proof.
  intros Hlen Hw. unfold Walks.new in Hw. destruct members as [|m0 ms] eqn:Em; [done|]. rewrite <- Em in *.
  pose proof (sort_by_key_perm om_seq_in_chain members) as Hp.
  destruct (sort_by_key om_seq_in_chain members) as [|first rest]; [done|].
  destruct (negb _ || negb _) eqn:E0; [done|]. bprop.
  apply bind_Ok in Hw as (u & Hl & Hw). inv_ok. cbn [cw_members cw_chunk_size].
  split; [done|]. exists first. split_and!; [done..|]. intros i m Hi.
  assert (0 + zlen (first :: rest) <= 2 ^ 32) as Hz
    by (unfold zlen in *; rewrite (Permutation_length Hp); lia).
  destruct (check_links_Ok (om_superblock first) (first :: rest) 0 None u Hz ltac:(done) ltac:(done)
    Hl i m Hi) as (Hs & Ha & Hpar).
  split_and!; [lia|done|]. intros j pm -> Hj. by apply Hpar.
Qed.

(** C27: The walk merges the manifests. For a chain whose member manifests are
    read from their images, handing out chunk by chunk the entry of the last
    member that mentions it is the same as applying the manifests one after
    the other to the vector of all chunks: the callback sees every chunk once,
    in order, with exactly that state, its errors end the walk, and what it
    did to its own state before stays done. The walk
    over own payloads shows each member's own stored chunks, member by
    member. *)
Theorem chain_walk_merges {V} (members : list OpenMember) (w : ChainWalk) (n : nat)
    (mms : list MemberManifest) (visit : Z -> ChunkState -> ChunkAccess -> step V unit) (v : V) :
  Walks.new members = Ok w ->
  Forall2 (manifest_of n (cw_chunk_size w)) (cw_members w) mms ->
  exists access,
    ca_readers access = map om_chunks (cw_members w) /\
    cw_chunk_count w = Z.of_nat n /\
    Walks.walk w visit v =
      visit_all (fun i s => visit i s access) 0 (merged_states n mms) v /\
    Walks.walk_own_payloads w visit v =
      visit_owns (fun i s => visit i s access) n 0 mms v.
Proof.
  intros Hw Hm. destruct (walks_of members w n mms Hw Hm) as (Hn & access & Hr & _ & Hv).
  exists access. split; [done|]. split; [done|]. apply Hv.
Qed.

(** C28: Payload access never hands out the wrong bytes. What [read] returns
    for a state came from the member the state names, fits the chunk size and
    has, under that member's deduplication key, the content hash the state
    records; a state without a payload is refused. *)
Theorem chunk_access_sound (a : ChunkAccess) (state : ChunkState) (p : bytes) :
  Access.read a state = Ok p ->
  exists member hash offset stored_len reader keys record,
    state = Stored member hash offset stored_len /\
    ca_readers a !! Z.to_nat member = Some reader /\ ca_keys a !! Z.to_nat member = Some keys /\
    ChunkReaders.read_record reader offset = Ok record /\
    Mac.content_hash (ak_dedup_key keys) p = hash /\ zlen p <= ca_max_plaintext a.
Proof.
  unfold Access.read. destruct state as [| |member hash offset len|]; try done. intros Hr. inv_ok.
  apply ok_or_Ok in E, E0. apply open_chunk_hash in Hr as [Hh Hl].
  by exists member, hash, offset, len, v, v0, v1.
Qed.
End properties.
