(* ===== verification/Plan.v ===== *)
(** * The validated restore plan ([crates/lr-engine/src/plan.rs])

    What an image's manifests say before any payload is read: how many chunks
    are stored, zero, unused or unreadable. *)

From S2P Require Import Prelude Core Crypto Pages Wire Superblock Chunk Footer Files PageStream ImageReader Manifest Disk EngineKeys CatalogRecords Destination Chain.

Record BlockSummary := {
  bs_stored : Z;
  bs_zero : Z;
  bs_unused : Z;
  bs_bad : Z;
  bs_first_bad : option Z;
}.

Definition bad_sector_message (bad : Z) (first : option Z) : string :=
  "the image records {bad} chunk(s) its source could not read (bad sectors{}); those regions were never backed up, so the image cannot be restored completely".

Module Plans.
Definition empty : BlockSummary :=
  {| bs_stored := 0; bs_zero := 0; bs_unused := 0; bs_bad := 0; bs_first_bad := None |}.

(** [+= 1] on a [u64]. *)
Definition incr (n : Z) : Z := (n + 1) mod 2 ^ 64.

(** The [match] on a state; [at] is the offset of the chunk. *)
Definition count (state : ChunkState) (at_ : Z) (s : BlockSummary) : BlockSummary :=
  match state with
  | Stored _ _ _ _ =>
    {| bs_stored := incr (bs_stored s); bs_zero := bs_zero s; bs_unused := bs_unused s;
       bs_bad := bs_bad s; bs_first_bad := bs_first_bad s |}
  | Zero =>
    {| bs_stored := bs_stored s; bs_zero := incr (bs_zero s); bs_unused := bs_unused s;
       bs_bad := bs_bad s; bs_first_bad := bs_first_bad s |}
  | Unused =>
    {| bs_stored := bs_stored s; bs_zero := bs_zero s; bs_unused := incr (bs_unused s);
       bs_bad := bs_bad s; bs_first_bad := bs_first_bad s |}
  | BadSector =>
    {| bs_stored := bs_stored s; bs_zero := bs_zero s; bs_unused := bs_unused s;
       bs_bad := incr (bs_bad s);
       bs_first_bad := match bs_first_bad s with Some x => Some x | None => Some at_ end |}
  end.

Section ops.
Context `{Primitives}.

Definition block_chain (members : list OpenMember) (superblock : Superblock) : result BlockSummary :=
  let* walk := Walks.new members in
  if negb (cw_chunk_size walk =? chunk_size superblock) ||
     negb (cw_chunk_count walk =? div_ceil (source_size_bytes superblock) (chunk_size superblock)) then
    Err (Corrupt "the chain's chunk geometry does not match the image superblock")
  else
    match Walks.walk walk (fun index state _ =>
        modify (count state (wrapping_mul index (chunk_size superblock)))) empty with
    | (summary, Ok _) => Ok summary
    | (_, Err e) => Err e
    end.

(** One entry of a region manifest. *)
Definition region_entry `{ByteSource Src} (region_start chunk_size : Z)
    (loop : Z * BlockSummary * Src) : result (Z * BlockSummary * Src) :=
  let '(index, summary, wire) := loop in
  let* (entry, wire) := Entry.read wire in
  Ok (index + 1,
      count (ChunkStates.of_entry entry)
        ((region_start + wrapping_mul index chunk_size) mod 2 ^ 64) summary,
      wire).

(** One region of the disk. *)
Definition region `{ByteSource Src} (superblock : Superblock) (region : RegionRecord)
    (summary : BlockSummary) (wire : Src) : result (BlockSummary * Src) :=
  let* ((header, delta), wire) := BlockHeader.read wire in
  if delta then
    Err (Corrupt "region {} has a delta manifest; a whole-disk image carries full manifests")
  else if negb (bm_chunk_size header =? chunk_size superblock) then
    Err (Corrupt "region {} declares {}-byte chunks, the image {chunk_size}")
  else
    let* expected := Region.chunk_count region (chunk_size superblock) in
    if negb (bm_chunk_count header =? expected) || negb (bm_entry_count header =? expected) then
      Err (Corrupt "region {} needs {expected} entries, its manifest declares {} chunks and {} entries")
    else
      let region_start := wrapping_mul (rg_start_lba region) (logical_block_size superblock) in
      let* (_, summary, wire) :=
        iterM expected (region_entry region_start (chunk_size superblock)) (0, summary, wire) in
      Ok (summary, wire).

Fixpoint regions `{ByteSource Src} (superblock : Superblock) (rs : list RegionRecord)
    (summary : BlockSummary) (wire : Src) : result (BlockSummary * Src) :=
  match rs with
  | [] => Ok (summary, wire)
  | r :: rs =>
    let* (summary, wire) := region superblock r summary wire in
    regions superblock rs summary wire
  end.

(** [whole_disk] on the manifest stream. *)
Definition whole_disk_stream `{ByteSource Src} (superblock : Superblock) (stream : Src) :
    result BlockSummary :=
  let* (disk, wire) := DiskHeaders.read stream in
  DiskHeaders.validate disk;;;
  DiskHeaders.validate_geometry disk (source_size_bytes superblock) (logical_block_size superblock);;;
  let* (summary, wire) := regions superblock (DiskHeaders.manifest_regions disk) empty wire in
  if is_ok (Reader.u8 wire) then
    Err (Corrupt "the whole-disk manifest continues after its last region")
  else Ok summary.

Definition whole_disk (reader : ImageReader) (meta_key : bytes) (superblock : Superblock) :
    result BlockSummary :=
  let* kind := Sb.aead_kind superblock in
  let* stream := Img.stream_reader reader SManifest meta_key kind in
  whole_disk_stream superblock stream.
End ops.

Definition refuse_bad_sectors (summary : BlockSummary) : result unit :=
  if bs_bad summary =? 0 then Ok tt
  else Err (Unsupported "{}; it is refused before the target is touched").
End Plans.

(** ** Lemmas *)
Module PlanLemmas.
Import Plans.

Definition total (s : BlockSummary) : Z := bs_stored s + bs_zero s + bs_unused s + bs_bad s.

(** The counters of a summary that counts fewer than 2^64 chunks. *)
Definition counts_ok (s : BlockSummary) : Prop :=
  0 <= bs_stored s /\ 0 <= bs_zero s /\ 0 <= bs_unused s /\ 0 <= bs_bad s /\
  (bs_first_bad s = None <-> bs_bad s = 0).

Lemma count_total state at_ s :
  counts_ok s -> total s + 1 < 2 ^ 64 -> counts_ok (count state at_ s) /\ total (count state at_ s) = total s + 1.
Proof.
  intros (H1 & H2 & H3 & H4 & H5) Ht. unfold total in *.
  destruct state; unfold counts_ok, total, count, incr;
    cbn [bs_stored bs_zero bs_unused bs_bad bs_first_bad]; rewrite Z.mod_small by lia;
    (split; [|lia]); split_and!; try lia; try done.
  destruct (bs_first_bad s); split; intros; try done; try lia.
Qed.

Section hostile.
Context `{ByteSource Src}.

Lemma region_entries_total region_start cs : forall k i s w i' s' w',
  counts_ok s -> total s + Z.of_nat k < 2 ^ 64 ->
  nat_iterM k (region_entry region_start cs) (i, s, w : Src) = Ok (i', s', w') ->
  counts_ok s' /\ total s' = total s + Z.of_nat k.
Proof.
  induction k as [|k IH]; intros i s w i' s' w' Hs Ht Hr.
  - injection Hr as <- <- <-. split; [done|lia].
  - cbn [nat_iterM] in Hr. apply bind_Ok in Hr as ([[i1 s1] w1] & Hr1 & Hr).
    unfold region_entry in Hr1. apply bind_Ok in Hr1 as ([e w2] & _ & Hr1). injection Hr1 as <- <- <-.
    destruct (count_total (ChunkStates.of_entry e) ((region_start + wrapping_mul i cs) mod 2 ^ 64) s Hs)
      as [Hc Hn]; [lia|]. apply IH in Hr; [|done|lia]. destruct Hr as [Hc' ->]. split; [done|lia].
Qed.

(** The chunks of a region. *)
Definition region_count (cs : Z) (r : RegionRecord) : Z := div_ceil (rg_size_bytes r) cs.

Definition sum_counts (cs : Z) (rs : list RegionRecord) : Z := foldr (fun r n => region_count cs r + n) 0 rs.

Lemma region_count_bound cs r : 0 < cs -> 0 <= rg_size_bytes r -> 0 <= region_count cs r <= rg_size_bytes r.
Proof.
  intros Hc Hr. unfold region_count, div_ceil. pose proof (Z.div_mod (rg_size_bytes r) cs).
  pose proof (Z.mod_pos_bound (rg_size_bytes r) cs Hc). pose proof (Z.div_pos (rg_size_bytes r) cs).
  destruct (Z.eqb_spec (rg_size_bytes r mod cs) 0); nia.
Qed.

Lemma region_total sb r s w s' w' :
  0 < chunk_size sb -> 0 <= rg_size_bytes r -> counts_ok s ->
  total s + region_count (chunk_size sb) r < 2 ^ 64 ->
  region sb r s (w : Src) = Ok (s', w') ->
  counts_ok s' /\ total s' = total s + region_count (chunk_size sb) r.
Proof.
  intros Hc Hz Hs Ht Hr. unfold region in Hr. apply bind_Ok in Hr as ([[h d] w1] & _ & Hr).
  destruct d; [done|]. destruct (negb _); [done|]. apply bind_Ok in Hr as (n & Hn & Hr).
  destruct (_ || _); [done|]. apply bind_Ok in Hr as ([[i1 s1] w2] & Hr & Heq). injection Heq as <- <-.
  unfold Region.chunk_count in Hn. destruct (_ =? 0); [done|]. injection Hn as <-.
  pose proof (region_count_bound (chunk_size sb) r Hc Hz) as Hb. unfold region_count in *.
  rewrite <- (Z2Nat.id (div_ceil _ _)) in Hr by lia. rewrite iterM_nat in Hr.
  apply region_entries_total in Hr; [|done|lia]. rewrite Z2Nat.id in Hr by lia. done.
Qed.

Lemma sum_counts_nonneg cs rs :
  0 < cs -> Forall (fun r => 0 <= rg_size_bytes r) rs -> 0 <= sum_counts cs rs.
Proof.
  intros Hc. induction 1 as [|r rs Hr _ IH]; [done|]. cbn [sum_counts foldr].
  pose proof (region_count_bound cs r Hc Hr). unfold sum_counts in IH. lia.
Qed.

Lemma regions_total sb rs : forall s w s' w',
  0 < chunk_size sb -> Forall (fun r => 0 <= rg_size_bytes r) rs -> counts_ok s ->
  total s + sum_counts (chunk_size sb) rs < 2 ^ 64 ->
  regions sb rs s (w : Src) = Ok (s', w') ->
  counts_ok s' /\ total s' = total s + sum_counts (chunk_size sb) rs.
Proof.
  induction rs as [|r rs IH]; intros s w s' w' Hc Hz Hs Ht Hr.
  - injection Hr as <- <-. cbn. split; [done|lia].
  - inversion Hz as [|? ? Hz1 Hzs]; subst. cbn [sum_counts foldr] in *. fold (sum_counts (chunk_size sb) rs) in *.
    cbn [regions] in Hr. apply bind_Ok in Hr as ([s1 w1] & Hr1 & Hr).
    pose proof (sum_counts_nonneg (chunk_size sb) rs Hc Hzs).
    apply region_total in Hr1 as [Hs1 Ht1]; [|done..|lia].
    apply IH in Hr as [Hs2 Ht2]; [|done..|lia]. split; [done|lia].
Qed.

(** Regions that pass [validate] lie one after the other on the disk. *)
Lemma validate_regions_sum lbs disk_size rs : forall prev,
  DiskHeaders.validate_regions rs lbs disk_size prev = Ok tt -> prev <= disk_size ->
  prev + foldr (fun r n => rg_size_bytes r + n) 0 rs <= disk_size.
Proof.
  induction rs as [|r rs IH]; intros prev Hv Hp; cbn [foldr]; [lia|].
  cbn [DiskHeaders.validate_regions] in Hv. destruct (_ && _); [done|].
  apply bind_Ok in Hv as (start & _ & Hv). destruct (Z.ltb_spec start prev); [done|].
  apply bind_Ok in Hv as (end_ & He & Hv). apply ok_or_Ok, checked_add_Some in He as [-> _].
  destruct (Z.ltb_spec disk_size (start + rg_size_bytes r)); [done|]. specialize (IH _ Hv). lia.
Qed.

Lemma sum_counts_size cs rs :
  0 < cs -> Forall (fun r => 0 <= rg_size_bytes r) rs ->
  sum_counts cs (List.filter Region.has_manifest rs) <= foldr (fun r n => rg_size_bytes r + n) 0 rs.
Proof.
  intros Hc. induction 1 as [|r rs Hr _ IH]; [done|]. cbn [List.filter foldr].
  pose proof (region_count_bound cs r Hc Hr). destruct (Region.has_manifest r); [|lia].
  cbn [sum_counts foldr]. unfold sum_counts in IH. lia.
Qed.

Lemma u64_nonneg (s : Src) v s' : Reader.u64 s = Ok (v, s') -> 0 <= v.
Proof.
  unfold Reader.u64. intros Hr. apply bind_Ok in Hr as ([b s1] & _ & Hr). injection Hr as <- _.
  apply le_val_bound.
Qed.

Lemma region_read_size (s : Src) r s' : Region.read s = Ok (r, s') -> 0 <= rg_size_bytes r.
Proof.
  unfold Region.read. intros Hr.
  repeat (first [ apply bind_Ok in Hr as ([? ?] & ? & Hr) | apply bind_Ok in Hr as (? & ? & Hr)
                | match type of Hr with (if ?b then _ else _) = _ => destruct b; [done|] end ]).
  injection Hr as <- _. cbn [rg_size_bytes].
  repeat match goal with H : Reader.u64 _ = Ok _ |- _ => apply u64_nonneg in H end. assumption.
Qed.

Lemma disk_read_sizes (s : Src) d s' :
  DiskHeaders.read s = Ok (d, s') -> 0 <= dh_disk_size d /\ Forall (fun r => 0 <= rg_size_bytes r) (dh_regions d).
Proof.
  unfold DiskHeaders.read. intros Hr.
  repeat (first [ apply bind_Ok in Hr as ([? ?] & ? & Hr) | apply bind_Ok in Hr as (? & ? & Hr)
                | match type of Hr with (if ?b then _ else _) = _ => destruct b; [done|] end ]).
  injection Hr as <- _. cbn [dh_disk_size dh_regions]. split.
  - repeat match goal with H : Reader.u64 _ = Ok _ |- _ => apply u64_nonneg in H end. assumption.
  - match goal with H : Reader.push_n _ _ _ = Ok (?l, _) |- _ => rename H into Hp end.
    unfold Reader.push_n in Hp.
    eapply (iterM_inv (fun x : list RegionRecord * Src => Forall (fun r => 0 <= rg_size_bytes r) (fst x)))
      in Hp; [exact Hp| |constructor].
    intros [acc c1] [acc' c2] Ha He. apply bind_Ok in He as ([r c3] & Hr1 & He). injection He as <- <-.
    cbn [fst] in *. apply Forall_app. split; [done|]. constructor; [|constructor].
    by apply region_read_size in Hr1.
Qed.
End hostile.
End PlanLemmas.

(** ** Properties *)
Section properties.
Context `{Primitives}.
Import Plans PlanLemmas.

(** A whole-disk manifest that passes the plan accounts for the whole disk,
    whatever bytes it is read from: the header agrees with the superblock, its
    regions pass [validate], and every chunk of every region that carries a
    manifest is counted exactly once as stored, zero, unused or unreadable. No
    counter wraps, and an offset of a first unreadable chunk is reported
    exactly when there is one. *)
Theorem whole_disk_accounts `{ByteSource Src} (superblock : Superblock) (stream : Src) (s : BlockSummary) :
  0 < chunk_size superblock -> source_size_bytes superblock < 2 ^ 64 ->
  whole_disk_stream superblock stream = Ok s ->
  exists disk wire, DiskHeaders.read stream = Ok (disk, wire) /\
    DiskHeaders.validate disk = Ok tt /\ dh_disk_size disk = source_size_bytes superblock /\
    dh_logical_block_size disk = logical_block_size superblock /\
    total s = sum_counts (chunk_size superblock) (DiskHeaders.manifest_regions disk) /\
    (bs_first_bad s = None <-> bs_bad s = 0).
Proof.
  intros Hc Hsz Hw. unfold whole_disk_stream in Hw.
  apply bind_Ok in Hw as ([disk wire] & Hd & Hw). apply bind_Ok in Hw as ([] & Hv & Hw).
  apply bind_Ok in Hw as ([] & Hg & Hw). apply bind_Ok in Hw as ([s1 w1] & Hr & Hw).
  destruct (is_ok _); [done|]. injection Hw as ->. exists disk, wire.
  unfold DiskHeaders.validate_geometry in Hg.
  destruct (Z.eqb_spec (dh_disk_size disk) (source_size_bytes superblock)) as [Hds|]; [|done].
  destruct (Z.eqb_spec (dh_logical_block_size disk) (logical_block_size superblock)) as [Hls|]; [|done].
  destruct (disk_read_sizes stream disk wire Hd) as [Hd0 Hz].
  pose proof Hv as Hv'. unfold DiskHeaders.validate in Hv'.
  match type of Hv' with (if ?b then _ else _) = _ => destruct b; [done|] end.
  apply validate_regions_sum in Hv'; [|lia].
  pose proof (sum_counts_size (chunk_size superblock) (dh_regions disk) Hc Hz) as Hsum.
  apply regions_total in Hr as [(_ & _ & _ & _ & Hb) Ht].
  - by split_and!.
  - done.
  - unfold DiskHeaders.manifest_regions. rewrite List.Forall_forall in *. intros r [Hr' _]%filter_In. auto.
  - by unfold counts_ok.
  - unfold DiskHeaders.manifest_regions in *. cbn. unfold total, empty. cbn. lia.
Qed.
End properties.
