(* ===== verification/StreamImage.v ===== *)
(** * Reading a stream image back ([crates/lr-engine/src/stream.rs])

    The section list and the Btrfs layout of an image of subvolume streams,
    read without touching a chunk. *)

From S2P Require Import Prelude Text Core Crypto Pages Wire Superblock Chunk Footer Files PageStream ImageReader Manifest Extras EngineKeys CatalogRecords Destination Chain.

Record StreamLayout := {
  sl_fs_uuid : bytes;
  sl_label : bytes;
  sl_default_subvolid : Z;
  sl_default_subvol_path : bytes;
  sl_mount_options : bytes;
  sl_subvolumes : list (bytes * Z);
}.

Record ImageSection := { is_section : StreamSection; is_entries : list BlockEntry }.

Record ImageContents := {
  ic_image : bytes;
  ic_image_uuid : Id;
  ic_consistency : Consistency;
  ic_layout : StreamLayout;
  ic_sections : list ImageSection;
}.

Module Layouts.
(** [StreamLayout::default()]. *)
Definition default : StreamLayout :=
  {| sl_fs_uuid := []; sl_label := []; sl_default_subvolid := 0; sl_default_subvol_path := [];
     sl_mount_options := []; sl_subvolumes := [] |}.

Definition TAB : byte := Byte.x09.

(** [value.parse::<u64>().unwrap_or(0)]. *)
Definition parse_or_zero (value : bytes) : Z :=
  match Text.parse_unsigned (2 ^ 64 - 1) value with Some n => n | None => 0 end.

(** One line: the first prefix that fits decides. *)
Definition parse_line (l : StreamLayout) (line : bytes) : StreamLayout :=
  match Text.strip_prefix (str "fs_uuid=") line with
  | Some value =>
    {| sl_fs_uuid := value; sl_label := sl_label l; sl_default_subvolid := sl_default_subvolid l;
       sl_default_subvol_path := sl_default_subvol_path l; sl_mount_options := sl_mount_options l;
       sl_subvolumes := sl_subvolumes l |}
  | None =>
  match Text.strip_prefix (str "label=") line with
  | Some value =>
    {| sl_fs_uuid := sl_fs_uuid l; sl_label := value; sl_default_subvolid := sl_default_subvolid l;
       sl_default_subvol_path := sl_default_subvol_path l; sl_mount_options := sl_mount_options l;
       sl_subvolumes := sl_subvolumes l |}
  | None =>
  match Text.strip_prefix (str "default_subvolid=") line with
  | Some value =>
    {| sl_fs_uuid := sl_fs_uuid l; sl_label := sl_label l;
       sl_default_subvolid := parse_or_zero value;
       sl_default_subvol_path := sl_default_subvol_path l; sl_mount_options := sl_mount_options l;
       sl_subvolumes := sl_subvolumes l |}
  | None =>
  match Text.strip_prefix (str "default_subvol_path=") line with
  | Some value =>
    {| sl_fs_uuid := sl_fs_uuid l; sl_label := sl_label l;
       sl_default_subvolid := sl_default_subvolid l; sl_default_subvol_path := value;
       sl_mount_options := sl_mount_options l; sl_subvolumes := sl_subvolumes l |}
  | None =>
  match Text.strip_prefix (str "mount_options=") line with
  | Some value =>
    {| sl_fs_uuid := sl_fs_uuid l; sl_label := sl_label l;
       sl_default_subvolid := sl_default_subvolid l;
       sl_default_subvol_path := sl_default_subvol_path l; sl_mount_options := value;
       sl_subvolumes := sl_subvolumes l |}
  | None =>
  match Text.strip_prefix (str "subvol=") line with
  | Some value =>
    match Text.split_once TAB value with
    | Some (path, id) =>
      {| sl_fs_uuid := sl_fs_uuid l; sl_label := sl_label l;
         sl_default_subvolid := sl_default_subvolid l;
         sl_default_subvol_path := sl_default_subvol_path l;
         sl_mount_options := sl_mount_options l;
         sl_subvolumes := sl_subvolumes l ++ [(path, parse_or_zero id)] |}
    | None => l
    end
  | None => l
  end end end end end end.

Definition parse_stream_layout (text : bytes) : result StreamLayout :=
  let layout := foldl parse_line default (Text.lines text) in
  if bool_decide (sl_fs_uuid layout = []) then
    Err (Corrupt "the Btrfs layout record has no filesystem UUID")
  else Ok layout.
End Layouts.

(** ** What the backup writes *)

(** The fields of [lr_snapshot::TreeSnapshot] and of [SubvolumeReport] that
    [stream_layout] reads. *)
Record TreeSnapshot := {
  ts_fs_uuid : bytes;
  ts_label : bytes;
  ts_default_subvolid : Z;
  ts_mount_options : bytes;
  ts_excluded : list bytes;
}.

Record SubvolumeReport := { sv_subvol_path : bytes; sv_subvolid : Z }.

Module LayoutText.
Import Layouts.

Definition line (key value : bytes) : bytes := key ++ value ++ [Text.LF].

Definition default_path (snapshot : TreeSnapshot) (subvolumes : list SubvolumeReport) : bytes :=
  match List.find (fun s => sv_subvolid s =? ts_default_subvolid snapshot) subvolumes with
  | Some s => sv_subvol_path s
  | None => str "-"
  end.

Definition stream_layout (snapshot : TreeSnapshot) (subvolumes : list SubvolumeReport) : bytes :=
  line (str "fs_uuid=") (ts_fs_uuid snapshot) ++
  line (str "label=") (ts_label snapshot) ++
  line (str "default_subvolid=") (Text.to_decimal (ts_default_subvolid snapshot)) ++
  line (str "default_subvol_path=") (default_path snapshot subvolumes) ++
  line (str "mount_options=") (ts_mount_options snapshot) ++
  concat (map (fun s => line (str "subvol=")
      (sv_subvol_path s ++ [TAB] ++ Text.to_decimal (sv_subvolid s))) subvolumes) ++
  concat (map (line (str "excluded=")) (ts_excluded snapshot)).

(** ** Lemmas *)

(** A value that fills the rest of its line. *)
Definition line_ok (x : bytes) : Prop := (Text.LF ∉ x) /\ last x <> Some Text.CR.

Lemma line_ok_app p x : line_ok p -> line_ok x -> line_ok (p ++ x).
Proof.
  intros [Hp Hpl] [Hx Hxl]. split.
  - rewrite elem_of_app. by intros [|].
  - rewrite last_app. by destruct (last x).
Qed.

Lemma chop_cr_ok l : line_ok l -> Text.chop_cr l = l.
Proof.
  intros [_ Hl]. unfold Text.chop_cr. destruct (Text.strip_suffix _ l) as [r|] eqn:E; [|done].
  apply TextLemmas.strip_suffix_Some in E. subst l. by rewrite last_snoc in Hl.
Qed.

Lemma decimal_ok v : 0 <= v -> line_ok (Text.to_decimal v).
Proof.
  intros Hv. pose proof (TextLemmas.to_decimal_digits v Hv) as Hd. split.
  - by apply TextLemmas.digits_not_in.
  - intros Hl. apply last_Some in Hl as [l Hl]. rewrite Hl in Hd.
    apply Forall_app in Hd as [_ Hd]. by inversion Hd.
Qed.

Lemma lines_step p x rest :
  line_ok p -> line_ok x -> Text.lines (line p x ++ rest) = (p ++ x) :: Text.lines rest.
Proof.
  intros Hp Hx. unfold line. rewrite (app_assoc p), <- app_assoc. cbn [app].
  pose proof (line_ok_app p x Hp Hx) as Ho. apply TextLemmas.lines_line; [apply Ho|by apply chop_cr_ok].
Qed.

Lemma lines_many {A} (f : A -> bytes) p l rest :
  line_ok p -> Forall (fun a => line_ok (f a)) l ->
  Text.lines (concat (map (fun a => line p (f a)) l) ++ rest) = map (fun a => p ++ f a) l ++ Text.lines rest.
Proof.
  intros Hp. induction 1 as [|a l Ha _ IH]; [done|]. cbn [map concat app].
  rewrite <- app_assoc, lines_step by done. by rewrite IH.
Qed.

Ltac literal_ok := split; [refine (bool_decide_unpack _ _); vm_compute; exact I|done].

(** A line of each kind. *)
Ltac next_key := match goal with |- context [Text.strip_prefix ?k ?x] =>
  first [ rewrite TextLemmas.strip_prefix_app | change (Text.strip_prefix k x) with (@None bytes) ] end.

Lemma parse_uuid l v : parse_line l (str "fs_uuid=" ++ v) =
  {| sl_fs_uuid := v; sl_label := sl_label l; sl_default_subvolid := sl_default_subvolid l;
     sl_default_subvol_path := sl_default_subvol_path l; sl_mount_options := sl_mount_options l;
     sl_subvolumes := sl_subvolumes l |}.
Proof. unfold parse_line. by repeat next_key. Qed.

Lemma parse_label l v : parse_line l (str "label=" ++ v) =
  {| sl_fs_uuid := sl_fs_uuid l; sl_label := v; sl_default_subvolid := sl_default_subvolid l;
     sl_default_subvol_path := sl_default_subvol_path l; sl_mount_options := sl_mount_options l;
     sl_subvolumes := sl_subvolumes l |}.
Proof. unfold parse_line. by repeat next_key. Qed.

Lemma parse_default l v : parse_line l (str "default_subvolid=" ++ v) =
  {| sl_fs_uuid := sl_fs_uuid l; sl_label := sl_label l; sl_default_subvolid := parse_or_zero v;
     sl_default_subvol_path := sl_default_subvol_path l; sl_mount_options := sl_mount_options l;
     sl_subvolumes := sl_subvolumes l |}.
Proof. unfold parse_line. by repeat next_key. Qed.

Lemma parse_path l v : parse_line l (str "default_subvol_path=" ++ v) =
  {| sl_fs_uuid := sl_fs_uuid l; sl_label := sl_label l; sl_default_subvolid := sl_default_subvolid l;
     sl_default_subvol_path := v; sl_mount_options := sl_mount_options l;
     sl_subvolumes := sl_subvolumes l |}.
Proof. unfold parse_line. by repeat next_key. Qed.

Lemma parse_options l v : parse_line l (str "mount_options=" ++ v) =
  {| sl_fs_uuid := sl_fs_uuid l; sl_label := sl_label l; sl_default_subvolid := sl_default_subvolid l;
     sl_default_subvol_path := sl_default_subvol_path l; sl_mount_options := v;
     sl_subvolumes := sl_subvolumes l |}.
Proof. unfold parse_line. by repeat next_key. Qed.

Lemma parse_subvols subs : forall l,
  Forall (fun s => line_ok (sv_subvol_path s) /\ (TAB ∉ sv_subvol_path s) /\ u64_ok (sv_subvolid s)) subs ->
  foldl parse_line l (map (fun s => str "subvol=" ++ sv_subvol_path s ++ [TAB] ++ Text.to_decimal (sv_subvolid s)) subs) =
  {| sl_fs_uuid := sl_fs_uuid l; sl_label := sl_label l; sl_default_subvolid := sl_default_subvolid l;
     sl_default_subvol_path := sl_default_subvol_path l; sl_mount_options := sl_mount_options l;
     sl_subvolumes := sl_subvolumes l ++ map (fun s => (sv_subvol_path s, sv_subvolid s)) subs |}.
Proof.
  induction subs as [|s subs IH]; intros l Hs; [rewrite app_nil_r; by destruct l|].
  inversion Hs as [|? ? (_ & Ht & Hu) Hs']; subst. cbn [map foldl]. rewrite IH by done.
  assert (parse_line l (str "subvol=" ++ sv_subvol_path s ++ [TAB] ++ Text.to_decimal (sv_subvolid s)) =
    {| sl_fs_uuid := sl_fs_uuid l; sl_label := sl_label l; sl_default_subvolid := sl_default_subvolid l;
       sl_default_subvol_path := sl_default_subvol_path l; sl_mount_options := sl_mount_options l;
       sl_subvolumes := sl_subvolumes l ++ [(sv_subvol_path s, sv_subvolid s)] |}) as ->.
  { unfold parse_line. repeat next_key. cbn [app].
    rewrite TextLemmas.split_once_app by done. unfold parse_or_zero, u64_ok in *.
    by rewrite TextLemmas.parse_to_decimal by lia. }
  cbn [sl_fs_uuid sl_label sl_default_subvolid sl_default_subvol_path sl_mount_options sl_subvolumes].
  by rewrite <- app_assoc.
Qed.

Lemma parse_excluded paths l : foldl parse_line l (map (fun p => str "excluded=" ++ p) paths) = l.
Proof. induction paths as [|p paths IH]; [done|]. exact IH. Qed.

(** The layout record survives: what [parse_stream_layout] reads from the
    text [stream_layout] writes is the snapshot's UUID, label, default
    subvolume and mount options and every subvolume with its id, in order;
    the excluded paths change nothing. It needs every value to fit its line
    and no tab in a subvolume's path. *)
Theorem layout_roundtrip (snapshot : TreeSnapshot) (subvolumes : list SubvolumeReport) :
  ts_fs_uuid snapshot <> [] -> u64_ok (ts_default_subvolid snapshot) ->
  Forall line_ok ([ts_fs_uuid snapshot; ts_label snapshot; ts_mount_options snapshot] ++ ts_excluded snapshot) ->
  Forall (fun s => line_ok (sv_subvol_path s) /\ (TAB ∉ sv_subvol_path s) /\ u64_ok (sv_subvolid s)) subvolumes ->
  parse_stream_layout (stream_layout snapshot subvolumes) =
  Ok {| sl_fs_uuid := ts_fs_uuid snapshot; sl_label := ts_label snapshot;
        sl_default_subvolid := ts_default_subvolid snapshot;
        sl_default_subvol_path := default_path snapshot subvolumes;
        sl_mount_options := ts_mount_options snapshot;
        sl_subvolumes := map (fun s => (sv_subvol_path s, sv_subvolid s)) subvolumes |}.
Proof.
  intros Hne Hd Hl Hs. inversion Hl as [|? ? Hf Hl1]; subst. inversion Hl1 as [|? ? Hlab Hl2]; subst.
  inversion Hl2 as [|? ? Hm He]; subst. clear Hl Hl1 Hl2.
  assert (line_ok (default_path snapshot subvolumes)) as Hp.
  { unfold default_path. destruct (List.find _ _) as [s|] eqn:E; [|literal_ok].
    apply find_some in E as [Hin _]. rewrite List.Forall_forall in Hs. by apply Hs. }
  unfold parse_stream_layout, stream_layout.
  rewrite !lines_step by (done || literal_ok || (apply decimal_ok; unfold u64_ok in *; lia)).
  rewrite (lines_many (fun s => sv_subvol_path s ++ [TAB] ++ Text.to_decimal (sv_subvolid s))); [|literal_ok|].
  2:{ eapply Forall_impl; [exact Hs|]. intros s (Ho & _ & Hu). unfold u64_ok in *.
      apply line_ok_app; [done|]. apply line_ok_app; [literal_ok|apply decimal_ok; lia]. }
  rewrite <- (app_nil_r (concat (map (line _) _))), (lines_many (fun p => p)) by (literal_ok || done).
  change (Text.lines []) with (@nil bytes). rewrite app_nil_r. cbn [foldl]. rewrite foldl_app, parse_subvols by done.
  rewrite parse_excluded, parse_uuid, parse_label, parse_default, parse_path, parse_options.
  cbn [sl_fs_uuid sl_label sl_default_subvolid sl_default_subvol_path sl_mount_options sl_subvolumes default app].
  unfold parse_or_zero, u64_ok in *. rewrite TextLemmas.parse_to_decimal by lia.
  by rewrite bool_decide_false by done.
Qed.
End LayoutText.

Module StreamImages.
(** [entry_count] entries, each appended to the list. *)
Definition push_entry (loop : list BlockEntry * bytes) : result (list BlockEntry * bytes) :=
  let '(entries, wire) := loop in
  let* (entry, wire) := Entry.read wire in
  Ok (entries ++ [entry], wire).

(** [while cursor.position() < manifest.len()]; every section takes bytes, so
    [length wire] turns are enough. *)
Fixpoint sections_from (fuel : nat) (wire : bytes) (sections : list ImageSection) :
    result (list ImageSection) :=
  match wire with
  | [] => Ok sections
  | _ =>
    match fuel with
    | O => Err (Unsupported "sections_from: out of fuel")
    | S fuel =>
      let* (section, wire) := StreamSections.read wire in
      let* (entries, wire) := iterM (ss_entry_count section) push_entry ([], wire) in
      sections_from fuel wire (sections ++ [{| is_section := section; is_entries := entries |}])
    end
  end.

(** The extras: the last layout record wins, every record must parse. *)
Fixpoint layout_from (fuel : nat) (wire : bytes) (layout : option StreamLayout) :
    result (option StreamLayout) :=
  match wire with
  | [] => Ok layout
  | _ =>
    match fuel with
    | O => Err (Unsupported "layout_from: out of fuel")
    | S fuel =>
      let* ((kind, payload), wire) := Extras.read_record wire in
      if kind =? EXTRAS_BTRFS_LAYOUT then
        let* parsed := Layouts.parse_stream_layout (Text.utf8_lossy payload) in
        layout_from fuel wire (Some parsed)
      else layout_from fuel wire layout
    end
  end.

Section ops.
Context `{Primitives} `{Destination D}.

Definition read_page_stream (reader : ImageReader) (stream : StreamId) (meta_key : bytes)
    (kind : AeadKind) : result bytes :=
  let* page := Img.stream_reader reader stream meta_key kind in
  Members.drain_into (S (Img.bytes_left page)) page [].

Definition read_stream_image (d : D) (image : bytes) (encryption : Encryption) :
    result ImageContents :=
  let* handle := open_ro d image in
  let* reader := Img.open handle in
  let superblock := ir_superblock reader in
  let* keys := EKeys.unlock_image encryption superblock in
  let meta_key := if Sb.is_encrypted superblock then Some (ik_meta_key keys) else None in
  Img.authenticate reader meta_key;;;
  if negb (bool_decide (image_kind superblock = Stream)) then
    Err (Unsupported "this is a {:?} image, not a stream image")
  else
    let* kind := Sb.aead_kind superblock in
    let* manifest := read_page_stream reader SManifest (ik_meta_key keys) kind in
    let* sections := sections_from (length manifest) manifest [] in
    let* extras := read_page_stream reader SExtras (ik_meta_key keys) kind in
    let* layout := layout_from (length extras) extras None in
    let* layout := ok_or layout (Corrupt "the image carries no Btrfs layout record") in
    Ok {| ic_image := image; ic_image_uuid := image_uuid superblock;
          ic_consistency := consistency superblock; ic_layout := layout;
          ic_sections := sections |}.
End ops.
End StreamImages.
