(* ===== verification/EngineCatalog.v ===== *)
(** * The set catalog ([crates/lr-engine/src/catalog.rs])

    Scanning a set, building its catalog from the superblocks, validating the
    cached [catalog.json] against the scan and resolving a parent. The JSON
    text of a catalog is serde's and a parameter here. *)

From S2P Require Import Prelude Core Crypto Wire Superblock Files CatalogRecords Destination Chain.

(** [serde_json::from_slice] and [to_vec_pretty] on a [Catalog]. *)
Class CatalogJson := {
  from_json : bytes -> option Catalog;
  to_json : Catalog -> option bytes;
}.

Definition CATALOG_FILE : bytes := String.list_byte_of_string "catalog.json".
Definition TMP : bytes := String.list_byte_of_string ".tmp".
Definition LATEST : bytes := String.list_byte_of_string "latest".

Record ScannedMember := { sm_file_name : bytes; sm_superblock : Superblock; sm_size_bytes : Z }.
Record Scan := { sc_members : list ScannedMember; sc_warnings : list string }.
Record Loaded := { ld_catalog : Catalog; ld_warnings : list string; ld_rebuilt : bool }.

Module Scans.
Section ops.
Context `{Primitives} `{Destination D}.

Definition is_image (name : bytes) : bool :=
  Resolve.ends_with Resolve.LRIMG name && negb (Resolve.ends_with TMP name).

Definition warn (w : string) (scan : Scan) : Scan :=
  {| sc_members := sc_members scan; sc_warnings := sc_warnings scan ++ [w] |}.

(** One turn of the loop of [scan_set]. *)
Definition scan_file (d : D) (name : bytes) (scan : Scan) : result Scan :=
  if negb (is_image name) then Ok scan
  else
    let* reader := open_ro d name in
    match File.read_exact 0 SB_SIZE reader with
    | Err _ => Ok (warn "{name}: cannot read the superblock ({error})" scan)
    | Ok b =>
      match Sb.decode b with
      | Err _ => Ok (warn "{name}: damaged superblock ({error})" scan)
      | Ok superblock =>
        if negb (Sb.is_encrypted superblock) && negb (is_ok (Sb.verify_mac b None)) then
          Ok (warn "{name}: superblock MAC does not verify" scan)
        else
          Ok {| sc_members := sc_members scan ++
                  [{| sm_file_name := name; sm_superblock := superblock;
                      sm_size_bytes := zlen reader |}];
                sc_warnings := sc_warnings scan |}
      end
    end.

Definition scan_set (d : D) : result Scan :=
  let* names := list_files d in
  put_all (scan_file d) names {| sc_members := []; sc_warnings := [] |}.
End ops.
End Scans.

(** ** From a scan to a catalog *)
Module Builds.
Definition chain_of (m : ScannedMember) : Id := chain_id (sm_superblock m).
Definition created_of (m : ScannedMember) : Z := created_unix (sm_superblock m).

(** [chains.entry(member.superblock.chain_id).or_default().push(member)] on a
    [BTreeMap], the list of its entries in key order. *)
Fixpoint push_member (m : ScannedMember) (chains : list (Id * list ScannedMember)) :
    list (Id * list ScannedMember) :=
  match chains with
  | [] => [(chain_of m, [m])]
  | (k, ms) :: rest =>
    match bytes_cmp (chain_of m) k with
    | Eq => (k, ms ++ [m]) :: rest
    | Lt => (chain_of m, [m]) :: (k, ms) :: rest
    | Gt => (k, ms) :: push_member m rest
    end
  end.

Definition group (members : list ScannedMember) : list (Id * list ScannedMember) :=
  fold_left (fun chains m => push_member m chains) members [].

(** [members.iter().map(..).min().unwrap_or(0)]. *)
Definition earliest (members : list ScannedMember) : Z :=
  match map created_of members with
  | [] => 0
  | t :: ts => foldr Z.min t ts
  end.

Definition record_of (m : ScannedMember) : MemberRecord :=
  let s := sm_superblock m in
  {| mr_image_uuid := image_uuid s; mr_parent_uuid := parent_uuid s; mr_kind := member_kind s;
     mr_seq_in_chain := seq_in_chain s; mr_image_kind := image_kind s;
     mr_consistency := consistency s; mr_created_unix := created_unix s; mr_source_label := [];
     mr_size_bytes := sm_size_bytes m; mr_file_name := sm_file_name m; mr_verified_unix := None |}.

(** The body of the loop over the groups. *)
Definition chain_record (chain_id : Id) (members : list ScannedMember) : ChainRecord :=
  let members := sort_by_key (fun m => seq_in_chain (sm_superblock m)) members in
  {| ch_chain_id := chain_id; ch_created_unix := earliest members; ch_source_label := [];
     ch_members := map record_of members |}.

Definition set_id_of (scan : Scan) : Id :=
  match sc_members scan with m :: _ => set_id (sm_superblock m) | [] => Ids.ZERO end.

Definition build_catalog (set_name : bytes) (now : Z) (scan : Scan) : Catalog :=
  fold_left (fun catalog '(id, members) => Catalogs.upsert_chain catalog (chain_record id members))
    (group (sc_members scan)) (Catalogs.new (set_id_of scan) set_name now).

(** [members.windows(2)]. *)
Fixpoint link_warnings (members : list MemberRecord) : list string :=
  match members with
  | previous :: ((next :: _) as rest) =>
    (if mr_seq_in_chain previous =? mr_seq_in_chain next
     then ["chain {}: two members at seq {}"%string] else []) ++
    (if negb (bool_decide (mr_parent_uuid next = mr_image_uuid previous))
     then ["chain {}: member {} does not link to {}"%string] else []) ++
    link_warnings rest
  | _ => []
  end.

Definition chain_warnings (catalog : Catalog) : list string :=
  flat_map (fun chain => link_warnings (ch_members chain)) (cat_chains catalog).
End Builds.

(** ** The cached catalog *)
Module Caches.
(** The comparison of one member with its mate. *)
Definition same_member (member mate : MemberRecord) : bool :=
  bool_decide (mr_parent_uuid member = mr_parent_uuid mate)
  && bool_decide (mr_kind member = mr_kind mate)
  && (mr_seq_in_chain member =? mr_seq_in_chain mate)
  && bool_decide (mr_image_kind member = mr_image_kind mate)
  && bool_decide (mr_consistency member = mr_consistency mate)
  && (mr_created_unix member =? mr_created_unix mate)
  && (mr_size_bytes member =? mr_size_bytes mate)
  && bool_decide (mr_file_name member = mr_file_name mate).

Definition same_chain (chain other : ChainRecord) : bool :=
  (ch_created_unix chain =? ch_created_unix other)
  && (zlen (ch_members chain) =? zlen (ch_members other))
  && forallb (fun member =>
       match Chains.member other (mr_image_uuid member) with
       | Some mate => same_member member mate
       | None => false
       end) (ch_members chain).

Definition same_records (left right : Catalog) : bool :=
  (cat_version left =? cat_version right)
  && bool_decide (cat_set_id left = cat_set_id right)
  && (zlen (cat_chains left) =? zlen (cat_chains right))
  && forallb (fun chain =>
       match Catalogs.chain right (ch_chain_id chain) with
       | Some other => same_chain chain other
       | None => false
       end) (cat_chains left).

Definition set_verified (m : MemberRecord) (v : option Z) : MemberRecord :=
  {| mr_image_uuid := mr_image_uuid m; mr_parent_uuid := mr_parent_uuid m; mr_kind := mr_kind m;
     mr_seq_in_chain := mr_seq_in_chain m; mr_image_kind := mr_image_kind m;
     mr_consistency := mr_consistency m; mr_created_unix := mr_created_unix m;
     mr_source_label := mr_source_label m; mr_size_bytes := mr_size_bytes m;
     mr_file_name := mr_file_name m; mr_verified_unix := v |}.

(** [for chain in &mut c.chains { for member in &mut chain.members { .. } }]. *)
Definition update_members (f : MemberRecord -> MemberRecord) (c : Catalog) : Catalog :=
  Catalogs.with_chains c (map (fun chain =>
    {| ch_chain_id := ch_chain_id chain; ch_created_unix := ch_created_unix chain;
       ch_source_label := ch_source_label chain; ch_members := map f (ch_members chain) |})
    (cat_chains c)).

(** [cached.chains.iter().find_map(|chain| chain.member(uuid))]. *)
Fixpoint find_member (uuid : Id) (chains : list ChainRecord) : option MemberRecord :=
  match chains with
  | [] => None
  | chain :: chains =>
    match Chains.member chain uuid with
    | Some m => Some m
    | None => find_member uuid chains
    end
  end.

Definition carry_member (cached : Catalog) (member : MemberRecord) : MemberRecord :=
  match find_member (mr_image_uuid member) (cat_chains cached) with
  | Some old =>
    if bool_decide (mr_file_name old = mr_file_name member)
       && (mr_size_bytes old =? mr_size_bytes member)
    then set_verified member (mr_verified_unix old) else member
  | None => member
  end.

Definition carry_verification (cached built : Catalog) : Catalog :=
  update_members (carry_member cached) built.

Section ops.
Context `{Primitives} `{CatalogJson} `{Destination D}.

Definition read_cached (d : D) : result (option Catalog) :=
  match open_ro d CATALOG_FILE with
  | Ok b => Ok (from_json b)
  | Err (Io NotFound) => Ok None
  | Err e => Err e
  end.

(** [load]; it changes nothing. *)
Definition load (d : D) (set_name : bytes) (now : Z) : result Loaded :=
  let* scan := Scans.scan_set d in
  let built := Builds.build_catalog set_name now scan in
  let structural := Builds.chain_warnings built in
  match read_cached d with
  | Err _ =>
    Ok {| ld_catalog := built; ld_warnings := ["catalog.json could not be read ({error})"%string];
          ld_rebuilt := true |}
  | Ok cached =>
    let warnings := sc_warnings scan ++ structural in
    match cached with
    | Some cached =>
      if same_records cached built then
        Ok {| ld_catalog := cached; ld_warnings := warnings; ld_rebuilt := false |}
      else
        let built := carry_verification cached built in
        let warnings :=
          if negb (same_records cached built) then
            warnings ++ ["catalog.json disagrees with the member superblocks; using the scanned catalog"%string]
          else warnings in
        Ok {| ld_catalog := built; ld_warnings := warnings; ld_rebuilt := true |}
    | None => Ok {| ld_catalog := built; ld_warnings := warnings; ld_rebuilt := true |}
    end
  end.

(** [write_catalog]: temporary file, then [replace]; a failure deletes the
    temporary file and ignores the outcome of that. *)
Definition write_catalog (catalog : Catalog) : step D unit := fun d =>
  match to_json catalog with
  | None => (d, Err (Corrupt "catalog: {error}"))
  | Some b =>
    match create_tmp d CATALOG_FILE with
    | (d, Err e) => (d, Err e)
    | (d, Ok tmp) =>
      let '(d, published) :=
        (do* _ := (fun d => write_tmp d tmp b) in (fun d => replace d tmp CATALOG_FILE)) d in
      match published with
      | Ok _ => (d, Ok tt)
      | Err e => let '(d, _) := delete d tmp in (d, Err e)
      end
    end
  end.

(** [record_published]: what it returns is a warning, never an error. *)
Definition record_published (set_name : bytes) (now : Z) : step D (option string) := fun d =>
  let '(d, recorded) :=
    (do* loaded := reads (fun d => load d set_name now) in
     do* _ := lock_verify in
     write_catalog
       {| cat_version := cat_version (ld_catalog loaded); cat_set_id := cat_set_id (ld_catalog loaded);
          cat_set_name := cat_set_name (ld_catalog loaded); cat_updated_unix := now;
          cat_chains := cat_chains (ld_catalog loaded) |}) d in
  match recorded with
  | Ok _ => (d, Ok None)
  | Err _ =>
    (d, Ok (Some "the image is published, but the set's catalog was not updated ({error}); it is rebuilt from the images the next time the set is read"%string))
  end.
End ops.
End Caches.

(** ** Parents *)
Module Parents.
Definition chain_files (catalog : Catalog) (chain_id : Id) : result (list bytes) :=
  let* chain := ok_or (Catalogs.chain catalog chain_id)
    (Corrupt "chain {chain_id} is not in the catalog") in
  Ok (map mr_file_name (sort_by_key mr_seq_in_chain (ch_members chain))).

Definition latest_member (catalog : Catalog) : result (option MemberRecord) :=
  let complete := filter (fun c => Chains.is_complete c = true) (cat_chains catalog) in
  match max_by_key (fun t => t) (map ch_created_unix complete) with
  | None => Ok None
  | Some newest =>
    match filter (fun c => ch_created_unix c = newest) complete with
    | [only] => Ok (Chains.latest_member only)
    | _ => Err (Unsupported "--parent latest is ambiguous: chains {} were started in the same second; name the parent image with --parent <uuid>")
    end
  end.

(** The loop of [resolve_parent]. *)
Fixpoint find_parent (wanted : Id) (chains : list ChainRecord) : result MemberRecord :=
  match chains with
  | [] => Err (Unsupported "--parent {parent}: no such member in this set")
  | chain :: chains =>
    match Chains.member chain wanted with
    | Some member =>
      if negb (Chains.is_complete chain) then
        Err (Unsupported "--parent {parent}: chain {} is incomplete")
      else
        match Chains.latest_member chain with
        | Some latest =>
          if negb (bool_decide (mr_image_uuid latest = wanted)) then
            Err (Unsupported "--parent {parent}: the chain already has a newer member ({}); use --parent latest")
          else Ok member
        | None => Ok member
        end
    | None => find_parent wanted chains
    end
  end.

Definition resolve_parent (catalog : Catalog) (parent : bytes) : result MemberRecord :=
  if bool_decide (parent = LATEST) then
    let* latest := latest_member catalog in
    ok_or latest (Unsupported "--parent latest: the set has no complete chain yet")
  else
    let* wanted :=
      match Ids.from_str parent with
      | Ok id => Ok id
      | Err _ => Err (Unsupported "--parent {parent} is not a latest|<uuid> value")
      end in
    find_parent wanted (cat_chains catalog).
End Parents.

(** ** Lemmas: lists of chains *)
Section catalogs.
Implicit Types c : Catalog.

Lemma chain_Some c id ch : Catalogs.chain c id = Some ch -> In ch (cat_chains c) /\ ch_chain_id ch = id.
Proof. unfold Catalogs.chain. intros [? ?]%find_some. by bprop. Qed.

Lemma chain_In c ch :
  NoDup (Catalogs.ids c) -> In ch (cat_chains c) -> Catalogs.chain c (ch_chain_id ch) = Some ch.
Proof.
  unfold Catalogs.ids, Catalogs.chain. induction (cat_chains c) as [|x l IH]; [done|]. cbn.
  intros [Hx Hl]%NoDup_cons [->|Hin]; [by rewrite bool_decide_true|].
  rewrite bool_decide_false; [by apply IH|]. intros He. apply Hx. rewrite He.
  by apply list_elem_of_In, in_map.
Qed.

Lemma chains_same_id c ch ch' :
  NoDup (Catalogs.ids c) -> In ch (cat_chains c) -> In ch' (cat_chains c) ->
  ch_chain_id ch = ch_chain_id ch' -> ch = ch'.
Proof.
  intros Hd Hc Hc' He. apply (chain_In c) in Hc, Hc'; [|done..]. rewrite He in Hc. congruence.
Qed.

Lemma member_Some ch uuid m :
  Chains.member ch uuid = Some m -> In m (ch_members ch) /\ mr_image_uuid m = uuid.
Proof. unfold Chains.member. intros [? ?]%find_some. by bprop. Qed.
End catalogs.

(** ** Lemmas: the entries of the [BTreeMap] *)
Module Groups.
Import Builds.

Fixpoint ordered (g : list (Id * list ScannedMember)) : Prop :=
  match g with
  | [] => True
  | (k, _) :: g => Forall (fun e : Id * list ScannedMember => bytes_cmp k (fst e) = Lt) g /\ ordered g
  end.

Definition lookup (id : Id) (g : list (Id * list ScannedMember)) : list ScannedMember :=
  match find (fun e : Id * list ScannedMember => bool_decide (fst e = id)) g with Some (_, ms) => ms | None => [] end.

Lemma bytes_lt_trans a b c : bytes_cmp a b = Lt -> bytes_cmp b c = Lt -> bytes_cmp a c = Lt.
Proof.
  intros H1 H2. pose proof (bytes_cmp_trans a b c ltac:(congruence) ltac:(congruence)) as H3.
  destruct (bytes_cmp a c) eqn:E; [|done..]. apply bytes_cmp_eq in E as ->.
  rewrite bytes_cmp_antisym, H1 in H2. done.
Qed.

Lemma bytes_lt_ne a b : bytes_cmp a b = Lt -> a <> b.
Proof. intros H ->. by rewrite (proj2 (bytes_cmp_eq b b) eq_refl) in H. Qed.

Lemma lookup_later id k g :
  Forall (fun e : Id * list ScannedMember => bytes_cmp k (fst e) = Lt) g -> bytes_cmp id k <> Gt -> lookup id g = [].
Proof.
  intros Hg Hid. unfold lookup. case_match eqn:Ef; [|done]. exfalso.
  match type of Ef with _ = Some ?p => destruct p as [k' ms] end. apply find_some in Ef as [Hin He]. bprop. cbn in He. subst k'.
  rewrite List.Forall_forall in Hg. specialize (Hg _ Hin). cbn in Hg.
  by rewrite bytes_cmp_antisym, Hg in Hid.
Qed.

Lemma push_keys m g :
  Forall (fun e : Id * list ScannedMember => fst e = chain_of m \/ In (fst e) (map fst g)) (push_member m g).
Proof.
  induction g as [|[k ms] g IH]; cbn [push_member]; [by repeat constructor; left|].
  destruct (bytes_cmp (chain_of m) k) eqn:E.
  - constructor; [right; by left|]. apply List.Forall_forall. intros e He. right. right. by apply in_map.
  - constructor; [by left|]. constructor; [right; by left|].
    apply List.Forall_forall. intros e He. right. right. by apply in_map.
  - constructor; [right; by left|]. eapply Forall_impl; [exact IH|]. cbn. tauto.
Qed.

Lemma push_ordered m g : ordered g -> ordered (push_member m g).
Proof.
  induction g as [|[k ms] g IH]; cbn [push_member]; [by repeat constructor|].
  intros [Hk Hg]. destruct (bytes_cmp (chain_of m) k) eqn:E; cbn [ordered].
  - done.
  - split; [|done]. constructor; [done|]. eapply Forall_impl; [exact Hk|]. cbn. intros e.
    by apply bytes_lt_trans.
  - split; [|by apply IH]. pose proof (push_keys m g) as Hp.
    eapply Forall_impl; [exact Hp|]. cbn. intros e [He|Hin].
    + by rewrite He, bytes_cmp_antisym, E.
    + apply in_map_iff in Hin as (e' & He & Hin). rewrite List.Forall_forall in Hk.
      specialize (Hk _ Hin). cbn in Hk. by rewrite He in Hk.
Qed.

Lemma lookup_push m g id :
  ordered g ->
  lookup id (push_member m g) = lookup id g ++ (if decide (chain_of m = id) then [m] else []).
Proof.
  unfold lookup. induction g as [|[k ms] g IH]; cbn [push_member].
  { intros _. cbn. repeat case_decide; by repeat case_bool_decide. }
  intros [Hk Hg]. destruct (bytes_cmp (chain_of m) k) eqn:E.
  - apply bytes_cmp_eq in E as <-. cbn. case_decide as Hd.
    + by rewrite bool_decide_true.
    + by rewrite bool_decide_false, app_nil_r by done.
  - cbn. case_decide as Hd.
    + rewrite bool_decide_true by done. subst id.
      rewrite bool_decide_false by (by apply not_eq_sym, bytes_lt_ne).
      pose proof (lookup_later (chain_of m) k g Hk ltac:(congruence)) as Hl. unfold lookup in Hl.
      by rewrite Hl.
    + rewrite (bool_decide_false (chain_of m = id)) by done. by rewrite app_nil_r.
  - cbn. destruct (decide (k = id)) as [->|Hn].
    + rewrite bool_decide_true by done. rewrite decide_False; [by rewrite app_nil_r|].
      intros He. rewrite He in E. by rewrite (proj2 (bytes_cmp_eq id id) eq_refl) in E.
    + rewrite (bool_decide_false (k = id)) by done. by apply IH.
Qed.

Lemma group_spec members :
  ordered (group members) /\
  forall id, lookup id (group members) = filter (fun m => chain_of m = id) members.
Proof.
  unfold group. induction members as [|m ms [IHo IH]] using rev_ind; [done|].
  rewrite fold_left_app. cbn [fold_left]. split; [by apply push_ordered|]. intros id.
  by rewrite lookup_push, IH, filter_app by done.
Qed.

Lemma push_nonempty m g :
  Forall (fun e : Id * list ScannedMember => snd e <> []) g -> Forall (fun e : Id * list ScannedMember => snd e <> []) (push_member m g).
Proof.
  induction 1 as [|[k ms] g Hk Hg IH]; cbn [push_member]; [by repeat constructor|].
  destruct (bytes_cmp _ _); constructor; try done; [by destruct ms|by constructor].
Qed.

Lemma group_nonempty members : Forall (fun e : Id * list ScannedMember => snd e <> []) (group members).
Proof.
  unfold group. induction members as [|m ms IH] using rev_ind; [constructor|].
  rewrite fold_left_app. cbn [fold_left]. by apply push_nonempty.
Qed.
End Groups.

(** ** Lemmas: the catalog of a scan *)
Section building.
Import Builds.
Implicit Types g : list (Id * list ScannedMember).

Definition upsert_group (c : Catalog) (e : Id * list ScannedMember) : Catalog :=
  Catalogs.upsert_chain c (chain_record (fst e) (snd e)).

Lemma build_catalog_fold set_name now scan :
  build_catalog set_name now scan =
  fold_left upsert_group (group (sc_members scan)) (Catalogs.new (set_id_of scan) set_name now).
Proof.
  unfold build_catalog. generalize (Catalogs.new (set_id_of scan) set_name now).
  induction (group _) as [|[k ms] g IH]; intros c; [done|]. cbn [fold_left]. apply IH.
Qed.

Lemma upsert_group_ids c e :
  NoDup (Catalogs.ids c) -> NoDup (Catalogs.ids (upsert_group c e)).
Proof.
  intros Hd. unfold upsert_group, Catalogs.upsert_chain, Catalogs.ids.
  cbn [cat_chains Catalogs.with_chains]. rewrite Catalogs.upsert_ids.
  case_bool_decide as Hin; [done|]. apply NoDup_app. split_and!; [done| |apply NoDup_singleton].
  intros x Hx ->%list_elem_of_singleton. done.
Qed.

Lemma fold_upsert_spec g : forall c id,
  Groups.ordered g -> Forall (fun e : Id * list ScannedMember => snd e <> []) g ->
  NoDup (Catalogs.ids c) ->
  NoDup (Catalogs.ids (fold_left upsert_group g c)) /\
  Catalogs.chain (fold_left upsert_group g c) id =
    match Groups.lookup id g with
    | [] => Catalogs.chain c id
    | ms => Some (chain_record id ms)
    end.
Proof.
  induction g as [|[k ms] g IH]; intros c id Ho Hne Hd; [done|]. destruct Ho as [Hk Ho].
  inversion Hne as [|? ? Hms Hne']; subst. cbn [fold_left].
  destruct (IH (upsert_group c (k, ms)) id Ho Hne' (upsert_group_ids _ _ Hd)) as [Hd' Hl].
  split; [done|]. rewrite Hl. unfold upsert_group at 1, Catalogs.upsert_chain, Catalogs.chain.
  cbn [cat_chains Catalogs.with_chains fst snd]. rewrite Catalogs.find_upsert.
  cbn [ch_chain_id chain_record]. unfold Groups.lookup at 2. cbn [find fst].
  case_bool_decide as Hid.
  - subst id. rewrite (Groups.lookup_later k k g Hk) by (by rewrite (proj2 (bytes_cmp_eq k k))).
    by destruct ms.
  - done.
Qed.

(** The chain of an id is the record of the members that carry the id. *)
Lemma build_catalog_chain set_name now scan :
  NoDup (Catalogs.ids (build_catalog set_name now scan)) /\
  forall id, Catalogs.chain (build_catalog set_name now scan) id =
    match filter (fun m => chain_of m = id) (sc_members scan) with
    | [] => None
    | ms => Some (chain_record id ms)
    end.
Proof.
  rewrite build_catalog_fold. destruct (Groups.group_spec (sc_members scan)) as [Ho Hl].
  pose proof (fun id => fold_upsert_spec _ (Catalogs.new (set_id_of scan) set_name now) id Ho
    (Groups.group_nonempty _) ltac:(constructor)) as Hs.
  split; [apply (Hs Ids.ZERO)|]. intros id. destruct (Hs id) as [_ ->]. rewrite Hl.
  by case_match.
Qed.

(** A catalogued member is a scanned file of that chain. *)
Definition listed (scan : Scan) (ch : ChainRecord) (m : MemberRecord) : Prop :=
  exists sm, In sm (sc_members scan) /\ chain_of sm = ch_chain_id ch /\
    mr_image_uuid m = image_uuid (sm_superblock sm) /\ Caches.same_member m (record_of sm) = true.

Lemma same_member_refl m : Caches.same_member m m = true.
Proof.
  unfold Caches.same_member. rewrite !bool_decide_true, !Z.eqb_refl by done. done.
Qed.

Lemma same_member_verified m m' v :
  Caches.same_member (Caches.set_verified m v) m' = Caches.same_member m m'.
Proof. done. Qed.

Lemma same_member_trans a b c :
  Caches.same_member a b = true -> Caches.same_member b c = true -> Caches.same_member a c = true.
Proof.
  unfold Caches.same_member. intros Ha Hb. bprop.
  rewrite !andb_true_iff, !bool_decide_eq_true, !Z.eqb_eq. split_and!; congruence.
Qed.

Lemma built_listed set_name now scan ch m :
  In ch (cat_chains (build_catalog set_name now scan)) -> In m (ch_members ch) -> listed scan ch m.
Proof.
  intros Hc Hm. destruct (build_catalog_chain set_name now scan) as [Hd Hl].
  apply (chain_In _ _ Hd) in Hc. rewrite Hl in Hc.
  destruct (filter _ (sc_members scan)) as [|s ms] eqn:Ef; [done|]. injection Hc as Hc.
  rewrite <- Hc in Hm. cbn [ch_members chain_record] in Hm. apply in_map_iff in Hm as (sm & <- & Hin).
  exists sm. assert (In sm (filter (fun m => chain_of m = ch_chain_id ch) (sc_members scan))) as Hf.
  { rewrite Ef. eapply Permutation_in; [apply sort_by_key_perm|]. exact Hin. }
  apply list_elem_of_In, list_elem_of_filter in Hf as [Hid Hs]. apply list_elem_of_In in Hs.
  split_and!; [done|done|done|apply same_member_refl].
Qed.
End building.

(** ** Lemmas: validating the cache *)
Section validating.
Context `{Primitives} `{CatalogJson} `{DestinationLaws D}.

Lemma same_records_listed set_name now scan cached ch m :
  Caches.same_records cached (Builds.build_catalog set_name now scan) = true ->
  In ch (cat_chains cached) -> In m (ch_members ch) -> listed scan ch m.
Proof.
  unfold Caches.same_records. intros Hs Hc Hm. apply andb_true_iff in Hs as [_ Hs].
  rewrite forallb_forall in Hs. specialize (Hs _ Hc).
  destruct (Catalogs.chain _ _) as [other|] eqn:Eo; [|done]. apply chain_Some in Eo as [Hin Hid].
  unfold Caches.same_chain in Hs. apply andb_true_iff in Hs as [_ Hs].
  rewrite forallb_forall in Hs. specialize (Hs _ Hm).
  destruct (Chains.member other _) as [mate|] eqn:Em; [|done]. apply member_Some in Em as [Hmate Hu].
  destruct (built_listed set_name now scan other mate Hin Hmate) as (sm & ? & ? & ? & ?).
  exists sm. split_and!; [done|congruence|congruence|]. by eapply same_member_trans.
Qed.

Lemma carry_listed set_name now scan cached ch m :
  In ch (cat_chains (Caches.carry_verification cached (Builds.build_catalog set_name now scan))) ->
  In m (ch_members ch) -> listed scan ch m.
Proof.
  intros Hc Hm. apply in_map_iff in Hc as (ch0 & <- & Hc). cbn in Hm.
  apply in_map_iff in Hm as (m0 & <- & Hm).
  destruct (built_listed set_name now scan ch0 m0 Hc Hm) as (sm & ? & ? & ? & ?).
  exists sm. unfold Caches.carry_member. repeat case_match; done.
Qed.

Lemma update_members_ids f c : Catalogs.ids (Caches.update_members f c) = Catalogs.ids c.
Proof. unfold Catalogs.ids, Caches.update_members. cbn. rewrite map_map. done. Qed.

(** The cache lists no chain twice. *)
Definition cache_distinct (d : D) : Prop :=
  forall b c, contents d CATALOG_FILE = Some b -> from_json b = Some c -> NoDup (Catalogs.ids c).

Lemma load_listed d set_name now l :
  Caches.load d set_name now = Ok l ->
  exists scan, Scans.scan_set d = Ok scan /\
    (forall ch m, In ch (cat_chains (ld_catalog l)) -> In m (ch_members ch) -> listed scan ch m) /\
    (cache_distinct d -> NoDup (Catalogs.ids (ld_catalog l))).
Proof.
  unfold Caches.load. intros Hl. apply bind_Ok in Hl as (scan & Hs & Hl). exists scan.
  split; [done|]. destruct (build_catalog_chain set_name now scan) as [Hd _].
  destruct (Caches.read_cached d) as [[cached|]|e] eqn:Er.
  - destruct (Caches.same_records cached _) eqn:Es; inv_ok; cbn [ld_catalog].
    + split; [by eauto using same_records_listed|]. intros Hc. unfold Caches.read_cached in Er.
      destruct (open_ro d CATALOG_FILE) as [b|[[]| | | | | | | | | | | | | | |]] eqn:Eo; inv_ok; try done.
      apply open_ro_contents in Eo. by apply (Hc b).
    + split; [by eauto using carry_listed|]. intros _.
      unfold Caches.carry_verification. by rewrite update_members_ids.
  - inv_ok. split; [|done]. intros ch m. apply built_listed.
  - inv_ok. split; [|done]. intros ch m. apply built_listed.
Qed.

(** What a scan says of a file. *)
Definition scanned (d : D) (sm : ScannedMember) : Prop :=
  exists b, contents d (sm_file_name sm) = Some b /\ Scans.is_image (sm_file_name sm) = true /\
    zlen b = sm_size_bytes sm /\ Sb.decode (ztake SB_SIZE b) = Ok (sm_superblock sm).

Lemma scan_file_spec d name scan scan' :
  Scans.scan_file d name scan = Ok scan' ->
  sc_members scan' = sc_members scan \/
  exists sm, sc_members scan' = sc_members scan ++ [sm] /\ sm_file_name sm = name /\ scanned d sm.
Proof.
  unfold Scans.scan_file. destruct (Scans.is_image name) eqn:Ei; [|by intros [= ->]; left].
  cbn [negb]. intros Hs. apply bind_Ok in Hs as (b & Ho & Hs).
  destruct (File.read_exact 0 SB_SIZE b) as [h|] eqn:Er; [|inv_ok; by left].
  destruct (Sb.decode h) as [s|] eqn:Ed; [|inv_ok; by left].
  case_match; inv_ok; [by left|]. right. eexists. split; [done|]. cbn. split; [done|].
  exists b. cbn. split_and!; [by apply open_ro_contents|done|done|].
  unfold File.read_exact in Er. case_match; [|done]. injection Er as <-. by rewrite sub_0 in Ed.
Qed.

Lemma scan_set_spec d scan :
  Scans.scan_set d = Ok scan ->
  Forall (scanned d) (sc_members scan) /\ NoDup (map sm_file_name (sc_members scan)).
Proof.
  unfold Scans.scan_set. intros Hs. apply bind_Ok in Hs as (names & Hn & Hs).
  apply list_files_nodup in Hn.
  assert (forall ns s0 s1, put_all (Scans.scan_file d) ns s0 = Ok s1 -> NoDup ns ->
    Forall (scanned d) (sc_members s0) -> NoDup (map sm_file_name (sc_members s0)) ->
    (forall x, In x (map sm_file_name (sc_members s0)) -> ~ In x ns) ->
    Forall (scanned d) (sc_members s1) /\ NoDup (map sm_file_name (sc_members s1))) as Hgen.
  { induction ns as [|n ns IH]; cbn [put_all]; intros s0 s1 Hp Hd Hf Hnd Hx; [by inv_ok|].
    apply bind_Ok in Hp as (s2 & Hsf & Hp). apply NoDup_cons in Hd as [Hn0 Hd].
    apply scan_file_spec in Hsf as [He|(sm & He & <- & Hsm)].
    - apply (IH s2); [done..| | |]; rewrite He; [done..|]. intros x Hi Hj. eapply Hx; [done|by right].
    - apply (IH s2); [done..| | |]; rewrite He.
      + apply Forall_app. by repeat constructor.
      + rewrite map_app. apply NoDup_app. split_and!; [done| |apply NoDup_singleton].
        intros x Hi ->%list_elem_of_singleton. apply list_elem_of_In in Hi. eapply Hx; [done|by left].
      + rewrite map_app. intros x [Hi|[<-|[]]]%in_app_iff.
        * intros Hj. eapply Hx; [done|by right].
        * intros Hj. by apply Hn0, list_elem_of_In. }
  eapply Hgen; [done|done|constructor|constructor|done].
Qed.

(** In a loaded catalog a file belongs to one chain. *)
Lemma listed_same_chain scan ch ch' m m' :
  NoDup (map sm_file_name (sc_members scan)) ->
  listed scan ch m -> listed scan ch' m' -> mr_file_name m = mr_file_name m' ->
  ch_chain_id ch = ch_chain_id ch'.
Proof.
  intros Hd (sm & Hin & Hid & _ & Hs) (sm' & Hin' & Hid' & _ & Hs') Hf.
  unfold Caches.same_member in Hs, Hs'. bprop. cbn in *.
  assert (sm = sm') as <-; [|congruence].
  assert (sm_file_name sm = sm_file_name sm') as Hn by congruence.
  clear -Hd Hin Hin' Hn. induction (sc_members scan) as [|x l IH]; [done|]. cbn in Hd.
  apply NoDup_cons in Hd as [Hx Hd].
  destruct Hin as [->|Hin], Hin' as [->|Hin']; [done| | |by auto].
  - destruct Hx. rewrite Hn. by apply list_elem_of_In, in_map.
  - destruct Hx. rewrite <- Hn. by apply list_elem_of_In, in_map.
Qed.
End validating.

(** ** Lemmas: parents *)
Lemma find_parent_Ok wanted chains m :
  Parents.find_parent wanted chains = Ok m ->
  mr_image_uuid m = wanted /\ exists ch l, In ch chains /\ Chains.is_complete ch = true /\
    In m (ch_members ch) /\ Chains.latest_member ch = Some l /\ mr_image_uuid l = wanted.
Proof.
  induction chains as [|ch chains IH]; cbn [Parents.find_parent]; [done|].
  destruct (Chains.member ch wanted) as [m'|] eqn:Em.
  - apply member_Some in Em as [Hin Hu]. destruct (Chains.is_complete ch) eqn:Ec; [|done]. cbn [negb].
    destruct (Chains.latest_member ch) as [l|] eqn:El.
    + destruct (bool_decide _) eqn:Eb; [|done]. intros [= <-]. bprop. split; [done|].
      exists ch, l. split_and!; try done. by left.
    + exfalso. unfold Chains.latest_member in El.
      pose proof (max_by_key_spec mr_seq_in_chain (ch_members ch)) as Hm. rewrite El in Hm.
      by rewrite Hm in Hin.
  - intros Hm. destruct (IH Hm) as (? & ch' & l & ? & ?). split; [done|]. exists ch', l.
    split_and!; try tauto. by right.
Qed.

Lemma latest_member_Ok c m :
  Parents.latest_member c = Ok (Some m) ->
  exists ch, In ch (cat_chains c) /\ Chains.is_complete ch = true /\
    Chains.latest_member ch = Some m /\
    forall ch', In ch' (cat_chains c) -> Chains.is_complete ch' = true -> ch' <> ch ->
      ch_created_unix ch' < ch_created_unix ch.
Proof.
  unfold Parents.latest_member. set (complete := filter _ (cat_chains c)).
  pose proof (max_by_key_spec (fun t : Z => t) (map ch_created_unix complete)) as Hm.
  destruct (max_by_key _ _) as [newest|]; [|done]. destruct Hm as [_ Hmax].
  destruct (filter (fun c => ch_created_unix c = newest) complete) as [|only [|? ?]] eqn:Ef; try done.
  intros [= Hl]. exists only.
  assert (forall ch, In ch complete /\ ch_created_unix ch = newest <-> ch = only) as Honly.
  { intros ch. rewrite <- list_elem_of_In. split.
    - intros [? ?]. assert (ch ∈ [only]) as Hx by (rewrite <- Ef; by apply list_elem_of_filter).
      by apply list_elem_of_singleton in Hx.
    - intros ->. assert (only ∈ [only]) as Hx by by apply list_elem_of_singleton.
      rewrite <- Ef in Hx. apply list_elem_of_filter in Hx as [? ?]. done. }
  assert (forall ch, In ch complete <-> In ch (cat_chains c) /\ Chains.is_complete ch = true) as Hin.
  { intros ch. unfold complete. rewrite <- !list_elem_of_In, list_elem_of_filter. tauto. }
  destruct (proj2 (Honly only) eq_refl) as [Ho Hnew]. pose proof Ho as Ho'. apply Hin in Ho' as [? ?].
  split_and!; [done..|]. intros ch' Hc Hcomp Hne.
  assert (In ch' complete) as Hc' by by apply Hin.
  rewrite List.Forall_forall in Hmax.
  assert (ch_created_unix ch' <= newest) by (apply Hmax; by apply in_map).
  assert (ch_created_unix ch' <> newest) by (intros He; apply Hne, Honly; done). lia.
Qed.

(** ** Properties *)

(** Building a catalog loses nothing and mixes nothing up. Every chain id of
    the scan has exactly one chain; its members are the scanned members with
    that id, sorted by sequence number, and it was created when its oldest
    member was; there are no other chains. *)
Theorem build_catalog_spec (set_name : bytes) (now : Z) (scan : Scan) :
  let catalog := Builds.build_catalog set_name now scan in
  NoDup (Catalogs.ids catalog) /\
  (forall id, Catalogs.chain catalog id = None <->
    Forall (fun m => Builds.chain_of m <> id) (sc_members scan)) /\
  (forall id ch, Catalogs.chain catalog id = Some ch -> exists ms,
    ms ≡ₚ filter (fun m => Builds.chain_of m = id) (sc_members scan) /\
    sorted_by_key (fun m => seq_in_chain (sm_superblock m)) ms /\
    ch_members ch = map Builds.record_of ms /\
    Forall (fun m => ch_created_unix ch <= Builds.created_of m) ms /\
    Exists (fun m => ch_created_unix ch = Builds.created_of m) ms).
Proof.
  intros catalog. destruct (build_catalog_chain set_name now scan) as [Hd Hl].
  split; [done|]. split.
  - intros id. unfold catalog. rewrite Hl. split.
    + destruct (filter _ _) eqn:Ef; [|done]. intros _. apply Forall_forall. intros m Hm He.
      assert (m ∈ filter (fun m => Builds.chain_of m = id) (sc_members scan)) as Hx
        by by apply list_elem_of_filter.
      rewrite Ef in Hx. by apply elem_of_nil in Hx.
    + intros Hf. by rewrite filter_none.
  - intros id ch Hc. unfold catalog in Hc. rewrite Hl in Hc.
    destruct (filter _ _) as [|s ss] eqn:Ef; [done|]. injection Hc as <-.
    exists (sort_by_key (fun m => seq_in_chain (sm_superblock m)) (s :: ss)).
    pose proof (sort_by_key_perm (fun m => seq_in_chain (sm_superblock m)) (s :: ss)) as Hp.
    split; [done|]. split; [apply sort_by_key_sorted|]. split; [done|].
    unfold Builds.chain_record. cbn [ch_created_unix]. unfold Builds.earliest.
    destruct (sort_by_key _ (s :: ss)) as [|t ts]; [by apply Permutation_nil_l in Hp|].
    cbn [map]. clear Hp Ef Hl. induction ts as [|u ts IH]; cbn [map foldr].
    { split; constructor; [lia|constructor|done]. }
    destruct IH as [IHf IHe]. inversion IHf as [|? ? Ht Hts]; subst.
    set (low := foldr Z.min (Builds.created_of t) (map Builds.created_of ts)) in *. split.
    + constructor; [lia|]. constructor; [lia|]. eapply Forall_impl; [exact Hts|]. simpl. lia.
    + destruct (Z.min_spec (Builds.created_of u) low) as [[? ->]|[? ->]].
      * by apply Exists_cons_tl, Exists_cons_hd.
      * inversion IHe; subst; [by apply Exists_cons_hd|]. by do 2 apply Exists_cons_tl.
Qed.

(** The catalog that is used has been validated. Whatever [catalog.json]
    says, every member of a loaded catalog is a file of the set whose
    superblock was read from the file and carries the chain id, image id, parent,
    sequence number and creation time the catalog claims, with the file's
    real size; and a loaded catalog has one chain per id unless the cache
    already listed a chain twice. *)
Theorem load_validated `{Primitives} `{CatalogJson} `{DestinationLaws D}
    (d : D) (set_name : bytes) (now : Z) (l : Loaded) :
  Caches.load d set_name now = Ok l ->
  (forall ch m, In ch (cat_chains (ld_catalog l)) -> In m (ch_members ch) -> exists b s,
    contents d (mr_file_name m) = Some b /\ Scans.is_image (mr_file_name m) = true /\
    Sb.decode (ztake SB_SIZE b) = Ok s /\ zlen b = mr_size_bytes m /\
    chain_id s = ch_chain_id ch /\ image_uuid s = mr_image_uuid m /\
    parent_uuid s = mr_parent_uuid m /\ seq_in_chain s = mr_seq_in_chain m /\
    member_kind s = mr_kind m /\ created_unix s = mr_created_unix m) /\
  (cache_distinct d -> NoDup (Catalogs.ids (ld_catalog l))).
Proof.
  intros Hl. destruct (load_listed _ _ _ _ Hl) as (scan & Hs & Hm & Hd). split; [|done].
  intros ch m Hc Hin. destruct (Hm ch m Hc Hin) as (sm & Hsm & Hid & Hu & He).
  destruct (scan_set_spec d scan Hs) as [Hf _]. rewrite List.Forall_forall in Hf.
  destruct (Hf sm Hsm) as (b & Hb & Hi & Hz & Hsb). unfold Caches.same_member, Builds.chain_of in *. bprop. cbn in *.
  exists b, (sm_superblock sm). split_and!; congruence.
Qed.

(** A resolved parent can be extended. [resolve_parent] answers only with
    the newest member of a complete chain of the catalog: for an image id, of
    the chain that holds the image; for [latest], of the one chain that is newer
    than every other complete chain. Two newest chains are an error. *)
Theorem resolve_parent_sound (c : Catalog) (parent : bytes) (m : MemberRecord) :
  Parents.resolve_parent c parent = Ok m ->
  exists ch l, In ch (cat_chains c) /\ Chains.is_complete ch = true /\ In m (ch_members ch) /\
    Chains.latest_member ch = Some l /\ mr_image_uuid l = mr_image_uuid m /\
    (parent <> LATEST -> Ids.from_str parent = Ok (mr_image_uuid m)) /\
    (parent = LATEST -> l = m /\
      forall ch', In ch' (cat_chains c) -> Chains.is_complete ch' = true -> ch' <> ch ->
        ch_created_unix ch' < ch_created_unix ch).
Proof.
  unfold Parents.resolve_parent. case_bool_decide as Hp; intros Hr.
  - apply bind_Ok in Hr as ([l|] & Hl & Hr); [|done]. injection Hr as ->.
    apply latest_member_Ok in Hl as (ch & Hin & Hc & Hl & Hnew). exists ch, m.
    split_and!; try done. unfold Chains.latest_member in Hl.
    pose proof (max_by_key_spec mr_seq_in_chain (ch_members ch)) as Hm. rewrite Hl in Hm. tauto.
  - apply bind_Ok in Hr as (wanted & Hw & Hr). apply find_parent_Ok in Hr as (Hu & ch & l & Hr).
    exists ch, l. destruct (Ids.from_str parent); [|done]. injection Hw as ->.
    destruct Hr as (? & ? & ? & ? & Hlu). split_and!; [done..|congruence| |by intros ?].
    intros _. by rewrite Hu.
Qed.
