(* ===== verification/Verifier.v ===== *)
(** * The verifier as retention sees it ([crates/lr-engine/src/verify.rs])

    The report of a verification, what counts as a complete recovery point, and
    the stamp of a verified member. Verifying a chain member by member is an
    interface here: the class [ChainVerifier] stands for [verify_in_set]. *)

From S2P Require Import Prelude Core EngineKeys CatalogRecords Destination EngineCatalog.

Record VerifyReport := {
  rp_image_uri : bytes;
  rp_image_kind : ImageKind;
  rp_members : Z;
  rp_pages : Z;
  rp_chunks : Z;
  rp_bytes_checked : Z;
  rp_warnings : list string;
  rp_recorded_bad_chunks : Z;
  rp_every_member : bool;
}.

(** The fields of the request that select what is verified. *)
Record VerifyRequest := { vq_image : bytes; vq_encryption : Encryption; vq_chain : bool }.

(** [verify_in_set]: reading only, and naming the image to verify. *)
Class ChainVerifier (D : Type) := verify_in_set : D -> bytes -> VerifyRequest -> result VerifyReport.

Module Reports.
Definition ensure_complete_recovery (r : VerifyReport) : result unit :=
  if negb (rp_recorded_bad_chunks r =? 0) then
    Err (Unsupported "{bad_sector_message}")
  else Ok tt.
End Reports.

(** Mark the named members verified. *)
Definition mark_verified (catalog : Catalog) (files : list bytes) (now : Z) : Catalog :=
  Caches.update_members (fun member =>
    if bool_decide (mr_file_name member ∈ files) then Caches.set_verified member (Some now)
    else member) catalog.
