(* ===== verification/Observation.v ===== *)
(** * Observations of a verification attempt ([crates/lr-engine/src/verify/observation.rs])

    The facts a captured verification leaves behind, and the recorder that
    collects them stage by stage while the verifier runs. *)

From S2P Require Import Prelude Core Superblock CatalogRecords Verifier.

Inductive RecoveryScope := SelectedRecoveryPoint | EveryMember.

Inductive AttemptStage :=
  | ResolveAncestry | ScratchPreflight | Capture | IdentityValidation | Structure | Content.

Inductive FailureKind :=
  | FkCancelled | FkInvalidOptions | FkRawCapExceeded | FkHeadroomUnavailable | FkScratchUntrusted
  | FkSourceChanged | FkIdentityChanged | FkKeyOrAuthenticationFailure | FkCorrupt | FkUnsupported
  | FkUnavailable.

Inductive AttemptOutcome :=
  | IntegrityVerified
  | IntegrityVerifiedWithRecordedLoss
  | Incomplete (stage : AttemptStage) (reason : FailureKind).

Inductive MemberStage := NotRequested | NotStarted | InProgress | Complete | Failed.

#[export] Instance member_stage_eq_dec : EqDecision MemberStage.
Proof. solve_decision. Defined.

Inductive StructureNotice := RepeatedEncryptedMetadataPageNonce.

Inductive ContentCoverage :=
  | BlockSelectedMergedReferences
  | BlockEveryStoredPayload
  | FileSelectedTreeReferences
  | FileEveryTreeReferences
  | StreamSelectedMemberPayloadsSectionsAndLayout
  | StreamEveryMemberPayloadsSectionsAndLayout
  | WholeDiskRegionsAndLayout.

Inductive DigestAlgorithm := Blake3RawV1.

Record MemberIdentity := {
  mi_image_uuid : Id;
  mi_chain_id : Id;
  mi_parent_uuid : Id;
  mi_set_id : Id;
  mi_seq_in_chain : Z;
  mi_image_kind : ImageKind;
  mi_legacy_header_kind : MemberKind;
  mi_whole_disk : bool;
  mi_consistency : Consistency;
}.

Record MemberContentStages := {
  mc_recovery_point : MemberStage;
  mc_referenced_payloads : MemberStage;
  mc_every_stored_payload : MemberStage;
  mc_disk_region_payloads : MemberStage;
}.

Record MemberObservation := {
  mo_identity : option MemberIdentity;
  mo_raw_length : option Z;
  mo_blake3_bytes : option bytes;
  mo_capture : MemberStage;
  mo_structure : MemberStage;
  mo_structure_notice : option StructureNotice;
  mo_content : MemberContentStages;
}.

Record VerificationObservation := {
  vo_schema_version : Z;
  vo_digest_algorithm : DigestAlgorithm;
  vo_coverage_contract_version : Z;
  vo_outcome : AttemptOutcome;
  vo_requested_scope : RecoveryScope;
  vo_content_coverage : option ContentCoverage;
  vo_members : list MemberObservation;
}.

Record VerificationAttempt := {
  va_report : option VerifyReport;
  va_observation : VerificationObservation;
  va_diagnostic : option error;
}.

Module Observations.
Definition stages_pending : MemberContentStages :=
  {| mc_recovery_point := NotRequested; mc_referenced_payloads := NotRequested;
     mc_every_stored_payload := NotRequested; mc_disk_region_payloads := NotRequested |}.

(** [MemberObservation::pending]. *)
Definition pending : MemberObservation :=
  {| mo_identity := None; mo_raw_length := None; mo_blake3_bytes := None;
     mo_capture := NotStarted; mo_structure := NotStarted; mo_structure_notice := None;
     mo_content := stages_pending |}.

(** [VerificationObservation::new]. *)
Definition new (requested_scope : RecoveryScope) : VerificationObservation :=
  {| vo_schema_version := 1; vo_digest_algorithm := Blake3RawV1;
     vo_coverage_contract_version := 1; vo_outcome := Incomplete ResolveAncestry FkUnavailable;
     vo_requested_scope := requested_scope; vo_content_coverage := None; vo_members := [] |}.

Definition with_members (f : list MemberObservation -> list MemberObservation)
    (o : VerificationObservation) : VerificationObservation :=
  {| vo_schema_version := vo_schema_version o; vo_digest_algorithm := vo_digest_algorithm o;
     vo_coverage_contract_version := vo_coverage_contract_version o; vo_outcome := vo_outcome o;
     vo_requested_scope := vo_requested_scope o; vo_content_coverage := vo_content_coverage o;
     vo_members := f (vo_members o) |}.

Definition with_outcome (outcome : AttemptOutcome) (o : VerificationObservation) :
    VerificationObservation :=
  {| vo_schema_version := vo_schema_version o; vo_digest_algorithm := vo_digest_algorithm o;
     vo_coverage_contract_version := vo_coverage_contract_version o; vo_outcome := outcome;
     vo_requested_scope := vo_requested_scope o; vo_content_coverage := vo_content_coverage o;
     vo_members := vo_members o |}.

Definition set_incomplete (stage : AttemptStage) (reason : FailureKind) :=
  with_outcome (Incomplete stage reason).

Definition set_verified (recorded_bad_chunks : Z) :=
  with_outcome (if recorded_bad_chunks =? 0 then IntegrityVerified
                else IntegrityVerifiedWithRecordedLoss).

Definition set_coverage (coverage : ContentCoverage) (o : VerificationObservation) :
    VerificationObservation :=
  {| vo_schema_version := vo_schema_version o; vo_digest_algorithm := vo_digest_algorithm o;
     vo_coverage_contract_version := vo_coverage_contract_version o; vo_outcome := vo_outcome o;
     vo_requested_scope := vo_requested_scope o; vo_content_coverage := Some coverage;
     vo_members := vo_members o |}.

(** The assignments to single fields of a member. *)
Definition set_structure (stage : MemberStage) (m : MemberObservation) : MemberObservation :=
  {| mo_identity := mo_identity m; mo_raw_length := mo_raw_length m;
     mo_blake3_bytes := mo_blake3_bytes m; mo_capture := mo_capture m; mo_structure := stage;
     mo_structure_notice := mo_structure_notice m; mo_content := mo_content m |}.

Definition set_capture (stage : MemberStage) (m : MemberObservation) : MemberObservation :=
  {| mo_identity := mo_identity m; mo_raw_length := mo_raw_length m;
     mo_blake3_bytes := mo_blake3_bytes m; mo_capture := stage; mo_structure := mo_structure m;
     mo_structure_notice := mo_structure_notice m; mo_content := mo_content m |}.

Definition set_notice (notice : StructureNotice) (m : MemberObservation) : MemberObservation :=
  {| mo_identity := mo_identity m; mo_raw_length := mo_raw_length m;
     mo_blake3_bytes := mo_blake3_bytes m; mo_capture := mo_capture m;
     mo_structure := mo_structure m; mo_structure_notice := Some notice;
     mo_content := mo_content m |}.

Definition with_content (f : MemberContentStages -> MemberContentStages) (m : MemberObservation) :
    MemberObservation :=
  {| mo_identity := mo_identity m; mo_raw_length := mo_raw_length m;
     mo_blake3_bytes := mo_blake3_bytes m; mo_capture := mo_capture m;
     mo_structure := mo_structure m; mo_structure_notice := mo_structure_notice m;
     mo_content := f (mo_content m) |}.

Definition set_recovery_point (s : MemberStage) (c : MemberContentStages) : MemberContentStages :=
  {| mc_recovery_point := s; mc_referenced_payloads := mc_referenced_payloads c;
     mc_every_stored_payload := mc_every_stored_payload c;
     mc_disk_region_payloads := mc_disk_region_payloads c |}.

Definition set_referenced (s : MemberStage) (c : MemberContentStages) : MemberContentStages :=
  {| mc_recovery_point := mc_recovery_point c; mc_referenced_payloads := s;
     mc_every_stored_payload := mc_every_stored_payload c;
     mc_disk_region_payloads := mc_disk_region_payloads c |}.

Definition set_every_stored (s : MemberStage) (c : MemberContentStages) : MemberContentStages :=
  {| mc_recovery_point := mc_recovery_point c; mc_referenced_payloads := mc_referenced_payloads c;
     mc_every_stored_payload := s; mc_disk_region_payloads := mc_disk_region_payloads c |}.

Definition set_disk_regions (s : MemberStage) (c : MemberContentStages) : MemberContentStages :=
  {| mc_recovery_point := mc_recovery_point c; mc_referenced_payloads := mc_referenced_payloads c;
     mc_every_stored_payload := mc_every_stored_payload c; mc_disk_region_payloads := s |}.
End Observations.

(** [crates/lr-engine/src/verify.rs]: which branch checks what. *)
Definition content_coverage (image_kind : ImageKind) (whole_disk every_member : bool) :
    ContentCoverage :=
  if whole_disk then WholeDiskRegionsAndLayout
  else
    match image_kind, every_member with
    | Block, false => BlockSelectedMergedReferences
    | Block, true => BlockEveryStoredPayload
    | File, false => FileSelectedTreeReferences
    | File, true => FileEveryTreeReferences
    | Stream, false => StreamSelectedMemberPayloadsSectionsAndLayout
    | Stream, true => StreamEveryMemberPayloadsSectionsAndLayout
    end.

(** ** The recorder *)
Record VerificationRecorder := {
  vr_observation : VerificationObservation;
  vr_stage : AttemptStage;
}.

(** [observation::classify_error]. An [io::Error] whose OS error is [ENOSPC] is
    the kind [StorageFull]. *)
Definition classify_error (e : error) : FailureKind :=
  match e with
  | Cancelled => FkCancelled
  | Aead => FkKeyOrAuthenticationFailure
  | Corrupt _ => FkCorrupt
  | Unsupported _ => FkUnsupported
  | Io StorageFull => FkHeadroomUnavailable
  | NoSpace => FkHeadroomUnavailable
  | Io _ | NetworkTimeout _ => FkUnavailable
  | BadSector _ _ | SnapshotOverflow | FreezeTimeout | StreamParentMissing _
  | NoConsistentMethod _ | SetLocked _ | TargetChanged | TargetBusy _ | Denied _ _ => FkUnavailable
  end.

Module Recorders.
Import Observations.

Definition new (o : VerificationObservation) : VerificationRecorder :=
  {| vr_observation := o; vr_stage := Structure |}.

Definition at_stage (s : AttemptStage) (r : VerificationRecorder) : VerificationRecorder :=
  {| vr_observation := vr_observation r; vr_stage := s |}.

Definition on_members (f : list MemberObservation -> list MemberObservation)
    (r : VerificationRecorder) : VerificationRecorder :=
  {| vr_observation := with_members f (vr_observation r); vr_stage := vr_stage r |}.

(** [if let Some(member) = members_mut().get_mut(i) { .. }]. *)
Definition on_member (i : Z) (f : MemberObservation -> MemberObservation) :=
  on_members (alter f (Z.to_nat i)).

Definition begin_structure (member : Z) (r : VerificationRecorder) :=
  on_member member (set_structure InProgress) (at_stage Structure r).
Definition complete_structure (member : Z) := on_member member (set_structure Complete).
Definition fail_structure (member : Z) := on_member member (set_structure Failed).
Definition note_structure (member : Z) (notice : StructureNotice) :=
  on_member member (set_notice notice).
Definition enter_content_phase := at_stage Content.

(** One member of the loop of [begin_content]. *)
Definition begin_stages (coverage : ContentCoverage) (is_selected : bool)
    (c : MemberContentStages) : MemberContentStages :=
  let recovery_if (b : bool) c := if b then set_recovery_point NotStarted c else c in
  match coverage with
  | BlockSelectedMergedReferences | FileSelectedTreeReferences =>
    recovery_if is_selected (set_referenced NotStarted c)
  | BlockEveryStoredPayload =>
    recovery_if is_selected (set_every_stored NotStarted (set_referenced NotStarted c))
  | FileEveryTreeReferences => set_recovery_point NotStarted (set_referenced NotStarted c)
  | StreamSelectedMemberPayloadsSectionsAndLayout =>
    if is_selected then set_every_stored NotStarted (set_recovery_point NotStarted c) else c
  | StreamEveryMemberPayloadsSectionsAndLayout =>
    set_every_stored NotStarted (set_recovery_point NotStarted c)
  | WholeDiskRegionsAndLayout =>
    if is_selected then set_disk_regions NotStarted (set_recovery_point NotStarted c) else c
  end.

(** [member_count.saturating_sub(1)]. *)
Definition begin_content (coverage : ContentCoverage) (member_count : Z)
    (r : VerificationRecorder) : VerificationRecorder :=
  let selected := Z.to_nat (Z.max 0 (member_count - 1)) in
  on_members (imap (fun index =>
      with_content (begin_stages coverage (bool_decide (index = selected)))))
    {| vr_observation := set_coverage coverage (vr_observation r); vr_stage := Content |}.

Definition begin_recovery_point (member : Z) :=
  on_member member (with_content (set_recovery_point InProgress)).
Definition complete_recovery_point (member : Z) :=
  on_member member (with_content (set_recovery_point Complete)).

Definition begin_reference (c : MemberContentStages) : MemberContentStages :=
  if bool_decide (mc_referenced_payloads c = Complete) then c else set_referenced InProgress c.
Definition begin_referenced_payload (member : Z) :=
  on_member member (with_content begin_reference).

Definition complete_reference (c : MemberContentStages) : MemberContentStages :=
  match mc_referenced_payloads c with
  | NotStarted | InProgress => set_referenced Complete c
  | _ => c
  end.
Definition complete_referenced_payloads := on_members (map (with_content complete_reference)).

Definition begin_member_stored_payloads (member : Z) :=
  on_member member (with_content (set_every_stored InProgress)).
Definition complete_member_stored_payloads (member : Z) :=
  on_member member (with_content (set_every_stored Complete)).
Definition begin_all_stored_payloads :=
  on_members (map (with_content (set_every_stored InProgress))).
Definition complete_all_stored_payloads :=
  on_members (map (with_content (set_every_stored Complete))).
Definition begin_disk_region_payloads (member : Z) :=
  on_member member (with_content (set_disk_regions InProgress)).
Definition complete_disk_region_payloads (member : Z) :=
  on_member member (with_content (set_disk_regions Complete)).

Definition finish (report : VerifyReport) (r : VerificationRecorder) : VerificationAttempt :=
  {| va_report := Some report;
     va_observation := set_verified (rp_recorded_bad_chunks report) (vr_observation r);
     va_diagnostic := None |}.

(** What was in progress when the error came has failed. *)
Definition failed (s : MemberStage) : MemberStage :=
  match s with InProgress => Failed | s => s end.

Definition fail_member (m : MemberObservation) : MemberObservation :=
  let m := set_capture (failed (mo_capture m)) m in
  let m := set_structure (failed (mo_structure m)) m in
  with_content (fun c =>
    {| mc_recovery_point := failed (mc_recovery_point c);
       mc_referenced_payloads := failed (mc_referenced_payloads c);
       mc_every_stored_payload := failed (mc_every_stored_payload c);
       mc_disk_region_payloads := failed (mc_disk_region_payloads c) |}) m.

Definition fail (e : error) (r : VerificationRecorder) : VerificationAttempt :=
  {| va_report := None;
     va_observation := set_incomplete (vr_stage r) (classify_error e)
       (with_members (map fail_member) (vr_observation r));
     va_diagnostic := Some e |}.

(** [VerificationAttempt::incomplete]. *)
Definition incomplete (o : VerificationObservation) (stage : AttemptStage) (reason : FailureKind)
    (diagnostic : error) : VerificationAttempt :=
  {| va_report := None; va_observation := set_incomplete stage reason o;
     va_diagnostic := Some diagnostic |}.
End Recorders.

(** ** What the history accepts ([crates/lr-engine/src/verify/history.rs]) *)
Module Validation.
Definition validate_observation_header (o : VerificationObservation) : bool :=
  (vo_schema_version o =? 1) && (vo_coverage_contract_version o =? 1).

Definition some {A} (o : option A) : bool := match o with Some _ => true | None => false end.

Definition is_stage (s t : MemberStage) : bool := bool_decide (s = t).

(** One turn of the loop of [validate_partial_observation]: is the member all
    right, and does it carry a content fact? *)
Definition member_ok (m : MemberObservation) : bool :=
  let has_length := some (mo_raw_length m) in
  let has_digest := some (mo_blake3_bytes m) in
  let has_identity := some (mo_identity m) in
  let captured := is_stage (mo_capture m) Complete in
  match mo_capture m with
  | NotStarted | Failed => negb (has_digest || has_identity)
  | InProgress | NotRequested => false
  | Complete => has_length && has_digest
  end &&
  negb (has_digest && (negb has_length || negb captured)) &&
  negb (has_identity && (negb captured || negb has_length || negb has_digest)) &&
  match mo_structure m with
  | NotStarted => true
  | Complete | Failed => captured && has_identity
  | InProgress | NotRequested => false
  end &&
  negb (some (mo_structure_notice m) && negb (is_stage (mo_structure m) Complete)) &&
  forallb (fun s => negb (is_stage s InProgress))
    [mc_recovery_point (mo_content m); mc_referenced_payloads (mo_content m);
     mc_every_stored_payload (mo_content m); mc_disk_region_payloads (mo_content m)].

Definition content_fact (m : MemberObservation) : bool :=
  existsb (fun s => negb (is_stage s NotRequested))
    [mc_recovery_point (mo_content m); mc_referenced_payloads (mo_content m);
     mc_every_stored_payload (mo_content m); mc_disk_region_payloads (mo_content m)].

Definition validate_partial_observation (o : VerificationObservation) : bool :=
  forallb member_ok (vo_members o) &&
  match vo_content_coverage o, existsb content_fact (vo_members o) with
  | None, false => true
  | Some _, true => forallb (fun m =>
      is_stage (mo_capture m) Complete && some (mo_identity m) &&
      is_stage (mo_structure m) Complete) (vo_members o)
  | _, _ => false
  end.

Definition matches_expected_stage (actual : MemberStage) (expected_complete : bool) : bool :=
  is_stage actual (if expected_complete then Complete else NotRequested).

(** The loop of [valid_ancestry]: [previous] is the identity before, [seen] the
    image ids so far. *)
Fixpoint ancestry_from (first : MemberIdentity) (index : Z) (previous : option MemberIdentity)
    (seen : list Id) (members : list MemberObservation) : bool :=
  match members with
  | [] => true
  | member :: members =>
    match mo_identity member with
    | None => false
    | Some identity =>
      if 2 ^ 32 <=? index then false
      else
        let parent_matches :=
          if index =? 0 then bool_decide (mi_parent_uuid identity = Ids.ZERO)
          else match previous with
               | Some parent => bool_decide (mi_parent_uuid identity = mi_image_uuid parent)
               | None => false
               end in
        (mi_seq_in_chain identity =? index) &&
        bool_decide (mi_chain_id identity = mi_chain_id first) &&
        bool_decide (mi_set_id identity = mi_set_id first) &&
        bool_decide (mi_image_kind identity = mi_image_kind first) &&
        Bool.eqb (mi_whole_disk identity) (mi_whole_disk first) &&
        parent_matches &&
        negb ((0 <? index) && bool_decide (mi_legacy_header_kind identity = Full)) &&
        bool_decide (mi_image_uuid identity ∉ seen) &&
        ancestry_from first (index + 1) (Some identity) (mi_image_uuid identity :: seen) members
    end
  end.

Definition valid_ancestry (members : list MemberObservation) : bool :=
  match members with
  | [] => false
  | m0 :: _ =>
    match mo_identity m0 with
    | None => false
    | Some first =>
      if negb (mi_seq_in_chain first =? 0) || negb (bool_decide (mi_parent_uuid first = Ids.ZERO))
         || negb (bool_decide (mi_legacy_header_kind first = Full)) then false
      else if mi_whole_disk first &&
              (negb (zlen members =? 1) || negb (bool_decide (mi_image_kind first = Block))) then false
      else ancestry_from first 0 None [] members
    end
  end.

Definition coverage_matches (coverage : ContentCoverage) (target : MemberIdentity)
    (scope : RecoveryScope) : bool :=
  let kind k := bool_decide (mi_image_kind target = k) in
  let plain := negb (mi_whole_disk target) in
  let selected := match scope with SelectedRecoveryPoint => true | EveryMember => false end in
  match coverage with
  | BlockSelectedMergedReferences => kind Block && plain && selected
  | BlockEveryStoredPayload => kind Block && plain && negb selected
  | FileSelectedTreeReferences => kind File && plain && selected
  | FileEveryTreeReferences => kind File && plain && negb selected
  | StreamSelectedMemberPayloadsSectionsAndLayout => kind Stream && plain && selected
  | StreamEveryMemberPayloadsSectionsAndLayout => kind Stream && plain && negb selected
  | WholeDiskRegionsAndLayout => kind Block && mi_whole_disk target
  end.

(** Which stages of a member must be complete: recovery point, references,
    every stored payload, disk regions. *)
Definition expected_stages (coverage : ContentCoverage) (selected : bool) :
    bool * bool * bool * bool :=
  match coverage with
  | BlockSelectedMergedReferences => (selected, true, false, false)
  | BlockEveryStoredPayload => (selected, true, true, false)
  | FileSelectedTreeReferences => (selected, true, false, false)
  | FileEveryTreeReferences => (true, true, false, false)
  | StreamSelectedMemberPayloadsSectionsAndLayout => (selected, false, selected, false)
  | StreamEveryMemberPayloadsSectionsAndLayout => (true, false, true, false)
  | WholeDiskRegionsAndLayout => (selected, false, false, true)
  end.

Definition stages_match (coverage : ContentCoverage) (selected : bool) (c : MemberContentStages) :
    bool :=
  let '(recovery, referenced, stored, disk_regions) := expected_stages coverage selected in
  matches_expected_stage (mc_recovery_point c) recovery &&
  matches_expected_stage (mc_referenced_payloads c) referenced &&
  matches_expected_stage (mc_every_stored_payload c) stored &&
  matches_expected_stage (mc_disk_region_payloads c) disk_regions.

(** The last loop of [validate_success_observation]; [n] members remain. *)
Fixpoint stages_from (coverage : ContentCoverage) (target : MemberIdentity)
    (members : list MemberObservation) : bool :=
  match members with
  | [] => true
  | m :: members =>
    match mo_identity m with
    | None => false
    | Some actual =>
      stages_match coverage (match members with [] => true | _ => false end) (mo_content m) &&
      Bool.eqb (mi_whole_disk actual) (mi_whole_disk target) &&
      bool_decide (mi_image_kind actual = mi_image_kind target) &&
      stages_from coverage target members
    end
  end.

Definition captured_member (m : MemberObservation) : bool :=
  is_stage (mo_capture m) Complete && is_stage (mo_structure m) Complete &&
  match mo_raw_length m with Some length => negb (length =? 0) | None => false end &&
  some (mo_blake3_bytes m) && some (mo_identity m) &&
  negb (some (mo_structure_notice m) && negb (is_stage (mo_structure m) Complete)).

Definition validate_success_observation (o : VerificationObservation) : bool :=
  let members := vo_members o in
  match members, vo_content_coverage o with
  | [], _ | _, None => false
  | _, Some coverage =>
    forallb captured_member members && valid_ancestry members &&
    match last members with
    | Some m =>
      match mo_identity m with
      | Some target =>
        coverage_matches coverage target (vo_requested_scope o) &&
        stages_from coverage target members
      | None => false
      end
    | None => false
    end
  end.

Definition validate_attempt (a : VerificationAttempt) : bool :=
  let o := va_observation a in
  if negb (validate_observation_header o) || negb (validate_partial_observation o) then false
  else
    match vo_outcome o with
    | Incomplete _ _ => negb (some (va_report a))
    | IntegrityVerified =>
      match va_report a with Some r => rp_recorded_bad_chunks r =? 0 | None => false end &&
      validate_success_observation o
    | IntegrityVerifiedWithRecordedLoss =>
      match va_report a with Some r => 0 <? rp_recorded_bad_chunks r | None => false end &&
      validate_success_observation o
    end.

Definition same_captured_member (l r : MemberObservation) : bool :=
  match mo_identity l, mo_identity r, mo_raw_length l, mo_raw_length r, mo_blake3_bytes l,
        mo_blake3_bytes r with
  | Some li, Some ri, Some ll, Some rl, Some ld, Some rd =>
    bool_decide (mi_image_uuid li = mi_image_uuid ri) &&
    bool_decide (mi_chain_id li = mi_chain_id ri) &&
    bool_decide (mi_parent_uuid li = mi_parent_uuid ri) &&
    bool_decide (mi_set_id li = mi_set_id ri) &&
    (mi_seq_in_chain li =? mi_seq_in_chain ri) &&
    bool_decide (mi_image_kind li = mi_image_kind ri) &&
    bool_decide (mi_legacy_header_kind li = mi_legacy_header_kind ri) &&
    Bool.eqb (mi_whole_disk li) (mi_whole_disk ri) &&
    bool_decide (mi_consistency li = mi_consistency ri) && (ll =? rl) && bool_decide (ld = rd)
  | _, _, _, _, _, _ => false
  end.

Definition same_captured_members (left right : VerificationObservation) : bool :=
  match vo_members left with
  | [] => false
  | _ =>
    (zlen (vo_members left) =? zlen (vo_members right)) &&
    forallb (fun '(l, r) => same_captured_member l r) (combine (vo_members left) (vo_members right))
  end.
End Validation.
