(* ===== verification/VerifyImage.v ===== *)
(** * Verifying an image ([crates/lr-engine/src/verify.rs])

    [verify_members_in_set_inner] and its branches: the structure of every
    member, then the content the request covers. The state of a run is what the
    branches share in [VerificationProgress]: the reporter, the report and, for a
    captured verification, the recorder. What was reported and recorded before an
    error stays. *)

From S2P Require Import Prelude Maps Text Core Crypto Pages Wire Superblock Chunk Footer Files PageStream ImageReader Manifest Disk Extras FileManifest Tree EngineKeys CatalogRecords Destination Progress Chain Plan StreamImage Verifier Observation.

Record Verifying := {
  vs_run : Run;
  vs_reporter : Reporter;
  vs_report : Verifier.VerifyReport;
  vs_recorder : option VerificationRecorder;
}.

Definition MAX_STREAM_CHUNK : Z := 256 * 1024.

(** [legacy_nonce_warning]. *)
Definition legacy_nonce_warning (name : bytes) : string :=
  "{name} was written before the metadata nonce fix (D-110): its manifest and extras reuse nonces under one key, so their confidentiality and integrity are weakened (chunk data is not affected); create a new full backup to replace this chain".

(** The part of the request the verifier reads, and its context. *)
Record VerifyJob := { vj_request : VerifyRequest; vj_context : EngineContext }.

Module VerifySteps.
(** ** Touching the parts of the state *)
Definition with_run (run : Run) (s : Verifying) : Verifying :=
  {| vs_run := run; vs_reporter := vs_reporter s; vs_report := vs_report s;
     vs_recorder := vs_recorder s |}.

Definition on_run {A} (m : step Run A) : step Verifying A := fun s =>
  let '(run, r) := m (vs_run s) in (with_run run s, r).

Definition check_cancel (c : EngineContext) : step Verifying unit := on_run (Progress.check_cancel c).

(** [reporter.phase], [reporter.report] and [reporter.finish]. *)
Definition phase (name : bytes) : step Verifying unit := fun s =>
  on_run (Progress.phase (pr_context (vs_reporter s)) name) s.

Definition set_reporter (p : Reporter) : step Verifying unit := modify (fun s =>
  {| vs_run := vs_run s; vs_reporter := p; vs_report := vs_report s; vs_recorder := vs_recorder s |}).

Definition report (done : Z) : step Verifying unit := fun s =>
  (do* p := on_run (Progress.report (vs_reporter s) done) in set_reporter p) s.

Definition finish (done : Z) : step Verifying unit := fun s =>
  (do* p := on_run (Progress.finish (vs_reporter s) done) in set_reporter p) s.

(** [if let Some(recorder) = progress.recorder() { .. }]. *)
Definition record (f : VerificationRecorder -> VerificationRecorder) : step Verifying unit :=
  modify (fun s =>
    {| vs_run := vs_run s; vs_reporter := vs_reporter s; vs_report := vs_report s;
       vs_recorder := option_map f (vs_recorder s) |}).

Definition on_report (f : Verifier.VerifyReport -> Verifier.VerifyReport) : step Verifying unit :=
  modify (fun s =>
    {| vs_run := vs_run s; vs_reporter := vs_reporter s; vs_report := f (vs_report s);
       vs_recorder := vs_recorder s |}).

(** What the report says so far. *)
Definition looking {A} (f : Verifier.VerifyReport -> A) : step Verifying A :=
  reads (fun s => Ok (f (vs_report s))).

Definition add_u64 (a b : Z) : Z := (a + b) mod 2 ^ 64.

(** [report.chunks += 1; report.bytes_checked += len]. *)
Definition count_chunk (len : Z) (r : Verifier.VerifyReport) : Verifier.VerifyReport :=
  {| rp_image_uri := rp_image_uri r; rp_image_kind := rp_image_kind r; rp_members := rp_members r;
     rp_pages := rp_pages r; rp_chunks := add_u64 (rp_chunks r) 1;
     rp_bytes_checked := add_u64 (rp_bytes_checked r) len; rp_warnings := rp_warnings r;
     rp_recorded_bad_chunks := rp_recorded_bad_chunks r; rp_every_member := rp_every_member r |}.

(** [report.pages += pages; report.members += 1]. *)
Definition count_member (pages : Z) (r : Verifier.VerifyReport) : Verifier.VerifyReport :=
  {| rp_image_uri := rp_image_uri r; rp_image_kind := rp_image_kind r;
     rp_members := add_u64 (rp_members r) 1; rp_pages := add_u64 (rp_pages r) pages;
     rp_chunks := rp_chunks r; rp_bytes_checked := rp_bytes_checked r; rp_warnings := rp_warnings r;
     rp_recorded_bad_chunks := rp_recorded_bad_chunks r; rp_every_member := rp_every_member r |}.

Definition warn (w : string) (r : Verifier.VerifyReport) : Verifier.VerifyReport :=
  {| rp_image_uri := rp_image_uri r; rp_image_kind := rp_image_kind r; rp_members := rp_members r;
     rp_pages := rp_pages r; rp_chunks := rp_chunks r; rp_bytes_checked := rp_bytes_checked r;
     rp_warnings := rp_warnings r ++ [w]; rp_recorded_bad_chunks := rp_recorded_bad_chunks r;
     rp_every_member := rp_every_member r |}.

(** [report.recorded_bad_chunks += bad], with the warning when there are any. *)
Definition count_bad (bad : Z) (first_bad : option Z) (r : Verifier.VerifyReport) :
    Verifier.VerifyReport :=
  let r :=
    {| rp_image_uri := rp_image_uri r; rp_image_kind := rp_image_kind r; rp_members := rp_members r;
       rp_pages := rp_pages r; rp_chunks := rp_chunks r; rp_bytes_checked := rp_bytes_checked r;
       rp_warnings := rp_warnings r;
       rp_recorded_bad_chunks := add_u64 (rp_recorded_bad_chunks r) bad;
       rp_every_member := rp_every_member r |} in
  if 0 <? bad then warn (bad_sector_message bad first_bad) r else r.

(** A payload was checked: [report.chunks += 1; ..]. *)
Definition checked (plaintext : bytes) : step Verifying unit := on_report (count_chunk (zlen plaintext)).

(** [while cursor.position() < bytes.len() { .. }] over a buffer: every turn
    takes bytes, so [length b] turns are enough. *)
Fixpoint while_left {A} (fuel : nat) (body : A * bytes -> step Verifying (A * bytes)) (a : A) (b : bytes) :
    step Verifying A :=
  match b with
  | [] => step_ret a
  | _ =>
    match fuel with
    | O => step_err (Unsupported "while_left: out of fuel")
    | S fuel => do* (a, b) := body (a, b) in while_left fuel body a b
    end
  end.
End VerifySteps.

Module VerifyImages.
Import VerifySteps.

(** [map_err] of a call that touches nothing. *)
Definition failing {A} (e : error) (r : result A) : step Verifying A :=
  lift (match r with Ok a => Ok a | Err _ => Err e end).

(** [members[usize::from(member)]] with the name for a message; the message
    template is all the model keeps. *)
Definition target_index (members : list ChainMemberFile) : Z := zlen members - 1.

Section ops.
Context `{Primitives} `{Destination D} (d : D).

(** ** Structure *)
(** The closure of the loop. *)
Definition member_structure (job : VerifyJob) (name : bytes) :
    step Verifying (ImageReader.VerifyReport * bool) :=
  do* _ := check_cancel (vj_context job) in
  do* superblock := lift (Resolve.read_superblock d name) in
  do* keys := lift (EKeys.unlock_image (vq_encryption (vj_request job)) superblock) in
  let encrypted := Sb.is_encrypted superblock in
  do* handle := lift (open_ro d name) in
  do* page_report := failing (Corrupt "{}: structure of {} failed: {error}")
    (Verify.verify_structure handle (ik_meta_key keys) encrypted) in
  step_ret (page_report, encrypted).

(** The error path records the failure. *)
Definition or_fail_structure {A} (index : Z) (m : step Verifying A) : step Verifying A := fun s =>
  match m s with
  | (s, Ok a) => (s, Ok a)
  | (s, Err e) => (fst (record (Recorders.fail_structure index) s), Err e)
  end.

Definition verify_member (job : VerifyJob) (index : Z) (member : ChainMemberFile) :
    step Verifying Z :=
  do* _ := record (Recorders.begin_structure index) in
  do* (page_report, encrypted) :=
    or_fail_structure index (member_structure job (cm_file_name member)) in
  do* _ := record (Recorders.complete_structure index) in
  do* _ := on_report (count_member (Verify.total_pages page_report)) in
  do* _ :=
    if encrypted && vr_repeated_page_nonces page_report then
      do* _ := record (Recorders.note_structure index RepeatedEncryptedMetadataPageNonce) in
      on_report (warn (legacy_nonce_warning (cm_file_name member)))
    else step_ret tt in
  step_ret (index + 1).

(** ** Block chains *)
(** The variables [bad] and [first_bad] next to the shared state. *)
Definition BadCount : Type := Z * option Z.

Definition shared {L A} (m : step Verifying A) : step (Verifying * L) A := fun '(s, l) =>
  let '(s, r) := m s in ((s, l), r).

Definition locally {L A} (l : L) (m : step (Verifying * L) A) : step Verifying (A * L) := fun s =>
  let '((s, l), r) := m (s, l) in
  (s, match r with Ok a => Ok (a, l) | Err e => Err e end).

Definition count_bad_sector (offset : Z) (b : BadCount) : BadCount :=
  let '(bad, first_bad) := b in
  (add_u64 bad 1, match first_bad with Some x => Some x | None => Some offset end).

(** The callback of [walk]. *)
Definition visit_merged (chunk_size index : Z) (state : ChunkState) (access : ChunkAccess) :
    step (Verifying * BadCount) unit :=
  do* _ := shared (report index) in
  match state with
  | BadSector => modify (fun '(s, b) => (s, count_bad_sector (wrapping_mul index chunk_size) b))
  | Stored member _ _ _ =>
    shared (
      do* _ := record (Recorders.begin_referenced_payload member) in
      do* plaintext := failing
        (Corrupt "{member_name}: chunk {index} (member {member}, offset {offset}, {stored_len} stored bytes) failed: {error}")
        (Access.read access state) in
      checked plaintext)
  | _ => step_ret tt
  end.

(** The callback of [walk_own_payloads]. *)
Definition visit_own (index : Z) (state : ChunkState) (access : ChunkAccess) :
    step Verifying unit :=
  do* done := looking rp_chunks in
  do* _ := report done in
  match state with
  | Stored _ _ _ _ =>
    do* plaintext := failing
      (Corrupt "{member_name}: its own chunk {index} (offset {offset}, {stored_len} stored bytes) failed: {error}")
      (Access.read access state) in
    checked plaintext
  | _ => step_ret tt
  end.

Definition verify_block_chain (members : list ChainMemberFile) (encryption : Encryption)
    (every_member : bool) : step Verifying unit :=
  do* _ := record (Recorders.begin_recovery_point (target_index members)) in
  do* opened := lift (Members.open_chain d members encryption) in
  do* walk := lift (Walks.new opened) in
  do* (_, (bad, first_bad)) :=
    locally (0, None) (Walks.walk walk (visit_merged (cw_chunk_size walk))) in
  do* _ := record Recorders.complete_referenced_payloads in
  do* _ := record (Recorders.complete_recovery_point (target_index members)) in
  do* _ := on_report (count_bad bad first_bad) in
  if negb every_member then step_ret tt
  else
    do* _ := record Recorders.begin_all_stored_payloads in
    do* _ := Walks.walk_own_payloads walk visit_own in
    record Recorders.complete_all_stored_payloads.

(** ** File trees *)
(** The hash index: which member stores a chunk, and where. *)
Definition HashIndex : Type := list (bytes * (Z * Z)).

Fixpoint index_entries (fuel : nat) (position : Z) (b : bytes) (index : HashIndex) :
    result HashIndex :=
  match b with
  | [] => Ok index
  | _ =>
    match fuel with
    | O => Err (Unsupported "index_entries: out of fuel")
    | S fuel =>
      let* (entry, b) := Entry.read b in
      index_entries fuel position b
        (if Entry.is_stored entry
         then BMap.insert (be_hash entry) (position, be_offset entry) index else index)
    end
  end.

Fixpoint hash_index (position : Z) (opened : list OpenMember) (index : HashIndex) :
    result HashIndex :=
  match opened with
  | [] => Ok index
  | member :: opened =>
    let* b := Members.stream_bytes member SHashIndex in
    let* index := index_entries (length b) position b index in
    hash_index (position + 1) opened index
  end.

(** One reference of a record; the value is the position in the file. *)
Definition verify_reference (opened : list OpenMember) (index : HashIndex) (record_ : FileRecord)
    (position_in_file : Z) (hash : bytes) : step Verifying Z :=
  match BMap.get hash index with
  | None => step_err (Corrupt "{file_name}: {} references a chunk no member of the chain stores")
  | Some (owner, offset) =>
    do* _ := record (Recorders.begin_referenced_payload owner) in
    do* holder := lift (ok_or (opened !! Z.to_nat owner) (Unsupported "index out of bounds")) in
    do* entry := lift (Entry.stored (Cursors.member_index owner) hash offset 0) in
    do* plaintext := failing (Corrupt "{}: {} (offset {}, member {}) failed: {error}")
      (Members.chunk_plaintext holder entry MAX_STREAM_CHUNK) in
    do* _ := failing (Corrupt "{file_name}: {error}")
      (Trees.holes_hold_zeros (fr_holes record_) position_in_file plaintext) in
    do* done := looking rp_bytes_checked in
    do* _ := report done in
    do* _ := checked plaintext in
    step_ret (add_u64 position_in_file (zlen plaintext))
  end.

Definition verify_record (opened : list OpenMember) (index : HashIndex) (record_ : FileRecord) :
    step Verifying unit :=
  do* position_in_file :=
    step_fold (verify_reference opened index record_) (fe_chunk_refs_here (fr_entry record_)) 0 in
  if (fe_file_kind (fr_entry record_) =? FILE_KIND_REGULAR) &&
     negb (position_in_file =? fe_size (fr_entry record_))
  then step_err (Corrupt "{file_name}: {} records {} bytes, its chunks hold {position_in_file}")
  else step_ret tt.

(** One tree. *)
Definition verify_tree (opened : list OpenMember) (index : HashIndex) (position : Z) :
    step Verifying unit :=
  do* _ := record (Recorders.begin_recovery_point position) in
  do* member := lift (ok_or (opened !! Z.to_nat position) (Unsupported "index out of bounds")) in
  do* b := lift (Members.stream_bytes member SManifest) in
  do* records := lift (FileRecords.read_manifest b) in
  do* _ := phase (str "member " ++ om_file_name member) in
  do* _ := failing (Corrupt "{file_name}: {error}") (Trees.file_tree (Trees.of_records records)) in
  do* _ := step_iter (verify_record opened index) records in
  record (Recorders.complete_recovery_point position).

Definition verify_file (members : list ChainMemberFile) (encryption : Encryption)
    (every_member : bool) : step Verifying unit :=
  do* opened := lift (Members.open_chain d members encryption) in
  do* index := lift (hash_index 0 opened []) in
  let last := Z.max 0 (zlen opened - 1) in
  let trees := if every_member then seqZ 0 (zlen opened) else [last] in
  do* _ := step_iter (verify_tree opened index) trees in
  record Recorders.complete_referenced_payloads.

(** ** Stream images *)
(** One entry of a section. *)
Definition verify_stream_entry (kind : AeadKind) (keys : ImageKeys) (chunks : ChunkReader)
    (wire : bytes) : step Verifying bytes :=
  do* (entry, wire) := lift (Entry.read wire) in
  if negb (Entry.is_stored entry) then step_ret wire
  else
    do* b := lift (ChunkReaders.read_record chunks (be_offset entry)) in
    do* plaintext := failing (Corrupt "{}: chunk {index} of {} (offset {}) failed: {error}")
      (Chunk.open_chunk kind (ik_data_key keys) (ik_dedup_key keys) Stream (be_hash entry)
         MAX_STREAM_CHUNK b) in
    do* done := looking rp_chunks in
    do* _ := report done in
    do* _ := checked plaintext in
    step_ret wire.

Definition verify_section (kind : AeadKind) (keys : ImageKeys) (chunks : ChunkReader)
    (loop : unit * bytes) : step Verifying (unit * bytes) :=
  let '(_, wire) := loop in
  do* (section, wire) := lift (StreamSections.read wire) in
  do* wire := step_iterM (ss_entry_count section) (verify_stream_entry kind keys chunks) wire in
  step_ret (tt, wire).

Definition verify_stream_member (encryption : Encryption) (index : Z) (member : ChainMemberFile) :
    step Verifying Z :=
  do* _ := record (Recorders.begin_recovery_point index) in
  do* _ := record (Recorders.begin_member_stored_payloads index) in
  do* _ := phase (str "member " ++ cm_file_name member) in
  do* handle := lift (open_ro d (cm_file_name member)) in
  do* reader := lift (Img.open handle) in
  let superblock := ir_superblock reader in
  do* keys := lift (EKeys.unlock_image encryption superblock) in
  do* kind := lift (Sb.aead_kind superblock) in
  do* manifest := lift (StreamImages.read_page_stream reader SManifest (ik_meta_key keys) kind) in
  do* handle := lift (open_ro d (cm_file_name member)) in
  let chunks := ChunkReaders.new handle (data_end_offset (ir_footer reader)) in
  do* _ := while_left (length manifest) (verify_section kind keys chunks) tt manifest in
  do* _ := failing (Corrupt "{}: {error}")
    (StreamImages.read_stream_image d (cm_file_name member) encryption) in
  do* _ := record (Recorders.complete_recovery_point index) in
  do* _ := record (Recorders.complete_member_stored_payloads index) in
  step_ret (index + 1).

Definition verify_stream (members : list ChainMemberFile) (member_offset : Z)
    (encryption : Encryption) : step Verifying unit :=
  do* _ := step_fold (verify_stream_member encryption) members member_offset in
  step_ret tt.

(** ** Whole disks *)
Definition verify_region_entry (superblock : Superblock) (kind : AeadKind) (keys : ImageKeys)
    (chunks : ChunkReader) (wire : PageStreamReader) : step Verifying PageStreamReader :=
  do* done := looking rp_bytes_checked in
  do* _ := report done in
  do* (entry, wire) := lift (Entry.read wire) in
  if negb (Entry.is_stored entry) then step_ret wire
  else
    do* b := lift (ChunkReaders.read_record chunks (be_offset entry)) in
    do* plaintext := failing (Corrupt "region {} chunk {index} (offset {}) failed: {error}")
      (Chunk.open_chunk kind (ik_data_key keys) (ik_dedup_key keys) Block (be_hash entry)
         (chunk_size superblock) b) in
    do* _ := checked plaintext in
    step_ret wire.

Definition verify_region (superblock : Superblock) (kind : AeadKind) (keys : ImageKeys)
    (chunks : ChunkReader) (wire : PageStreamReader) (region : RegionRecord) :
    step Verifying PageStreamReader :=
  if negb (Region.has_manifest region) then step_ret wire
  else
    do* ((header, _), wire) := lift (BlockHeader.read wire) in
    step_iterM (bm_entry_count header) (verify_region_entry superblock kind keys chunks) wire.

Definition verify_whole_disk (name : bytes) (encryption : Encryption) (index : Z) :
    step Verifying unit :=
  do* _ := record (Recorders.begin_recovery_point index) in
  do* handle := lift (open_ro d name) in
  do* reader := lift (Img.open handle) in
  let superblock := ir_superblock reader in
  do* keys := lift (EKeys.unlock_image encryption superblock) in
  do* summary := lift (Plans.whole_disk reader (ik_meta_key keys) superblock) in
  do* _ := record (Recorders.complete_recovery_point index) in
  do* _ := record (Recorders.begin_disk_region_payloads index) in
  do* _ := on_report (count_bad (bs_bad summary) (bs_first_bad summary)) in
  do* kind := lift (Sb.aead_kind superblock) in
  do* handle := lift (open_ro d name) in
  let chunks := ChunkReaders.new handle (data_end_offset (ir_footer reader)) in
  do* manifest := lift (Img.stream_reader reader SManifest (ik_meta_key keys) kind) in
  do* (disk, wire) := lift (DiskHeaders.read manifest) in
  do* _ := lift (DiskHeaders.validate disk) in
  do* _ := step_fold (verify_region superblock kind keys chunks) (dh_regions disk) wire in
  record (Recorders.complete_disk_region_payloads index).

(** ** The whole verification *)
Definition is_whole_disk (s : Superblock) : bool := SbFlags.has (flags s) SbFlags.WHOLE_DISK.

Definition verify_content (members : list ChainMemberFile) (name : bytes) (target : Superblock)
    (request : VerifyRequest) : step Verifying unit :=
  let encryption := vq_encryption request in
  let every_member := vq_chain request in
  let begin whole_disk := record (Recorders.begin_content
    (content_coverage (image_kind target) whole_disk every_member) (zlen members)) in
  match image_kind target with
  | Block =>
    if is_whole_disk target then
      do* _ := begin true in verify_whole_disk name encryption (target_index members)
    else
      do* _ := begin false in verify_block_chain members encryption every_member
  | Stream =>
    let own := if every_member then members else drop (length members - 1) members in
    do* _ := begin false in
    verify_stream own (if every_member then 0 else target_index members) encryption
  | File => do* _ := begin false in verify_file members encryption every_member
  end.

Definition empty_report (request : VerifyRequest) (target : Superblock) (member_count : Z) :
    Verifier.VerifyReport :=
  {| rp_image_uri := vq_image request; rp_image_kind := image_kind target; rp_members := 0;
     rp_pages := 0; rp_chunks := 0; rp_bytes_checked := 0; rp_warnings := [];
     rp_recorded_bad_chunks := 0; rp_every_member := vq_chain request || (member_count =? 1) |}.

(** From the first phase on. *)
Definition verify_phases (members : list ChainMemberFile) (name : bytes) (target : Superblock)
    (job : VerifyJob) : step Verifying Verifier.VerifyReport :=
  do* _ := phase (str "structure") in
  do* _ := step_fold (verify_member job) members 0 in
  do* _ := phase (str "content") in
  do* _ := record Recorders.enter_content_phase in
  do* _ := check_cancel (vj_context job) in
  do* _ := verify_content members name target (vj_request job) in
  do* _ := check_cancel (vj_context job) in
  do* chunks := looking rp_chunks in
  do* _ := finish chunks in
  looking (fun r => r).

(** The run and the recorder outlive the reporter and the report. *)
Definition verify_members_in_set_inner (name : bytes) (members : list ChainMemberFile)
    (job : VerifyJob) : step (Run * option VerificationRecorder) Verifier.VerifyReport :=
  fun '(run, recorder) =>
  if negb (bool_decide (option_map cm_file_name (last members) = Some name)) then
    ((run, recorder), Err (Corrupt "{name} is not the last member of the selected chain"))
  else
    match Resolve.read_superblock d name with
    | Err e => ((run, recorder), Err e)
    | Ok target =>
      match Progress.reporter (vj_context job) 0 run with
      | (run, Err e) => ((run, recorder), Err e)
      | (run, Ok reporter) =>
        let '(s, r) := verify_phases members name target job
          {| vs_run := run; vs_reporter := reporter;
             vs_report := empty_report (vj_request job) target (zlen members);
             vs_recorder := recorder |} in
        ((vs_run s, vs_recorder s), r)
      end
    end.

Definition verify_members_in_set (name : bytes) (members : list ChainMemberFile) (job : VerifyJob) :
    step Run Verifier.VerifyReport := fun run =>
  let '((run, _), r) := verify_members_in_set_inner name members job (run, None) in (run, r).

Definition verify_in_set (name : bytes) (job : VerifyJob) : step Run Verifier.VerifyReport :=
  do* members := lift (Resolve.resolve_chain d name) in
  verify_members_in_set name members job.
End ops.

(** What the retention calls, with a context nobody listens to: the interface
    [Retention.v] is written against. *)
Definition silent_verify `{Primitives} `{Destination D} (d : D) (name : bytes)
    (request : VerifyRequest) : result Verifier.VerifyReport :=
  snd (verify_in_set d name {| vj_request := request; vj_context := Progress.silent |} start_run).
End VerifyImages.
