(* ===== verification/VerifySpec.v ===== *)
(** * What a successful verification means

    Soundness of [VerifyImage.v]: when the verifier reports success, every
    payload the request covers was read from the images, opened and found to have
    the content hash its manifest records; the report's numbers are the numbers
    of what was read. *)

From S2P Require Import Prelude Core Crypto Pages Wire Superblock Chunk Footer Files PageStream ImageReader Manifest EngineKeys CatalogRecords Destination Progress Chain ChainSpec Plan Verifier Observation VerifyImage.
Import VerifySteps VerifyImages.

(** ** Steps that leave the report alone *)
Definition keeps_report {A} (m : step Verifying A) : Prop :=
  forall s, vs_report (fst (m s)) = vs_report s.

Lemma keeps_on_run {A} (m : step Run A) : keeps_report (on_run m).
Proof. intros s. unfold on_run. by destruct (m (vs_run s)). Qed.

Lemma keeps_record f : keeps_report (record f).
Proof. done. Qed.

Lemma keeps_phase name : keeps_report (phase name).
Proof. intros s. unfold phase. apply keeps_on_run. Qed.

Lemma keeps_cancel c : keeps_report (check_cancel c).
Proof. apply keeps_on_run. Qed.

Lemma keeps_report_bind {A B} (m : step Verifying A) (k : A -> step Verifying B) :
  keeps_report m -> (forall a, keeps_report (k a)) -> keeps_report (step_bind m k).
Proof.
  intros Hm Hk s. unfold step_bind. specialize (Hm s). destruct (m s) as [s1 [a|e]]; [|done].
  cbn in Hm. by rewrite Hk.
Qed.

Lemma keeps_report_done n : keeps_report (report n).
Proof. intros s. unfold report. apply keeps_report_bind; [apply keeps_on_run|done]. Qed.

Lemma keeps_finish n : keeps_report (finish n).
Proof. intros s. unfold finish. apply keeps_report_bind; [apply keeps_on_run|done]. Qed.

Create HintDb verify.
#[export] Hint Resolve keeps_on_run keeps_record keeps_phase keeps_cancel keeps_report_done keeps_finish : verify.

(** The next step of a run that succeeded: split it off, and carry the report
    over it when it does not touch it. *)
Lemma kept {A} (m : step Verifying A) s s' r : keeps_report m -> m s = (s', r) -> vs_report s' = vs_report s.
Proof. intros Hk Hm. specialize (Hk s). by rewrite Hm in Hk. Qed.

Ltac next H x := let Hx := fresh "Hx" in apply step_bind_Ok in H as (? & x & Hx & H).
Ltac keep Hx := eapply kept in Hx; [|solve [eauto with verify]].

Lemma failing_Ok {A} e (r : result A) s s' a : failing e r s = (s', Ok a) -> s' = s /\ r = Ok a.
Proof. unfold failing, lift. destruct r; by intros [= -> ->]. Qed.

Lemma lift_Ok {S A} (r : result A) (s s' : S) a : lift r s = (s', Ok a) -> s' = s /\ r = Ok a.
Proof. unfold lift. by intros [= -> ->]. Qed.

(** ** Counting *)
Definition total_len (ps : list bytes) : Z := foldr (fun p n => zlen p + n) 0 ps.

Lemma total_len_app a b : total_len (a ++ b) = total_len a + total_len b.
Proof. induction a as [|p a IH]; [done|]. cbn [app total_len foldr].
  fold (total_len (a ++ b)) (total_len a). lia. Qed.

(** The report after the payloads [ps]. *)
Definition counted (r : Verifier.VerifyReport) (ps : list bytes) : Verifier.VerifyReport :=
  foldl (fun r p => count_chunk (zlen p) r) r ps.

Lemma counted_app r a b : counted r (a ++ b) = counted (counted r a) b.
Proof. apply foldl_app. Qed.

Lemma counted_spec ps : forall r, rp_chunks (counted r ps) mod 2 ^ 64 = (rp_chunks r + zlen ps) mod 2 ^ 64 /\
  rp_bytes_checked (counted r ps) mod 2 ^ 64 = (rp_bytes_checked r + total_len ps) mod 2 ^ 64 /\
  rp_members (counted r ps) = rp_members r /\ rp_recorded_bad_chunks (counted r ps) = rp_recorded_bad_chunks r /\
  rp_image_kind (counted r ps) = rp_image_kind r /\ rp_every_member (counted r ps) = rp_every_member r /\
  (0 <= rp_chunks r < 2 ^ 64 -> 0 <= rp_chunks (counted r ps) < 2 ^ 64) /\
  (0 <= rp_bytes_checked r < 2 ^ 64 -> 0 <= rp_bytes_checked (counted r ps) < 2 ^ 64).
Proof.
  induction ps as [|p ps IH]; intros r; [cbn; rewrite !Z.add_0_r; by split_and!|].
  cbn [counted foldl]. destruct (IH (count_chunk (zlen p) r)) as (H1 & H2 & H3 & H4 & H5 & H6 & H7 & H8).
  unfold counted in *. rewrite H1, H2, H3, H4, H5, H6. rewrite zlen_cons. cbn [total_len foldr].
  fold (total_len ps). cbn [count_chunk rp_chunks rp_bytes_checked rp_members rp_recorded_bad_chunks
    rp_image_kind rp_every_member] in *. unfold add_u64 in *.
  split_and!; try done.
  - rewrite Zplus_mod_idemp_l. f_equal. lia.
  - rewrite Zplus_mod_idemp_l. f_equal. lia.
  - intros _. apply H7, Z.mod_pos_bound. lia.
  - intros _. apply H8, Z.mod_pos_bound. lia.
Qed.

(** ** The states with a payload *)
Definition is_payload (s : ChunkState) : bool := match s with Stored _ _ _ _ => true | _ => false end.
Definition is_bad (s : ChunkState) : bool := match s with BadSector => true | _ => false end.
Definition owned_by (own : Z) (s : ChunkState) : bool :=
  match s with Stored member _ _ _ => member =? own | _ => false end.

(** The payloads each member stores itself. *)
Fixpoint own_payloads (n : nat) (position : Z) (mms : list MemberManifest) : list ChunkState :=
  match mms with
  | [] => []
  | m :: mms =>
    List.filter (owned_by (Cursors.member_index position)) (own_states n m) ++ own_payloads n (position + 1) mms
  end.

Definition bad_count (states : list ChunkState) : Z := zlen (List.filter is_bad states).

Section visits.
Context `{Primitives}.

(** [ps] are the plaintexts behind the payloads among [states]. *)
Definition opens (access : ChunkAccess) (states : list ChunkState) (ps : list bytes) : Prop :=
  Forall2 (fun st p => Access.read access st = Ok p) states ps.

Lemma visit_merged_Ok cs i st access s b s' b' :
  visit_merged cs i st access (s, b) = ((s', b'), Ok tt) ->
  match st with
  | Stored _ _ _ _ => exists p, Access.read access st = Ok p /\ b' = b /\
      vs_report s' = counted (vs_report s) [p]
  | BadSector => b' = count_bad_sector (wrapping_mul i cs) b /\ vs_report s' = vs_report s
  | _ => b' = b /\ vs_report s' = vs_report s
  end.
Proof.
  unfold visit_merged. intros Hv. next Hv x. destruct x0 as [s1 b1].
  unfold shared in Hx. destruct (report i s) as [s2 r] eqn:Er. injection Hx as -> -> ->.
  eapply kept in Er; [|auto with verify]. destruct st as [| |member hash offset len|].
  - injection Hv as <- <-. done.
  - injection Hv as <- <-. done.
  - unfold shared in Hv. destruct (step_bind _ _ s1) as [s2 r] eqn:E. injection Hv as -> <- ->.
    next E y. keep Hx. next E p. apply failing_Ok in Hx0 as [-> Hp]. exists p. split_and!; [done..|].
    unfold checked, on_report, modify in E. injection E as <-. cbn [vs_report]. rewrite Hx, Er. done.
  - injection Hv as <- <-. done.
Qed.

Lemma visit_all_merged cs access states : forall i s b s' b',
  visit_all (fun i st => visit_merged cs i st access) i states (s, b) = ((s', b'), Ok tt) ->
  exists ps, opens access (List.filter is_payload states) ps /\
    vs_report s' = counted (vs_report s) ps /\
    fst b' mod 2 ^ 64 = (fst b + bad_count states) mod 2 ^ 64 /\
    (0 <= fst b < 2 ^ 64 -> 0 <= fst b' < 2 ^ 64).
Proof.
  induction states as [|st states IH]; intros i s b s' b' Hv.
  - injection Hv as <- <-. exists []. unfold bad_count. cbn. rewrite Z.add_0_r. split_and!; try done. constructor.
  - cbn [visit_all] in Hv. apply step_bind_Ok in Hv as ([s1 b1] & [] & Hst & Hv).
    apply visit_merged_Ok in Hst. apply IH in Hv as (ps & Hp & Hr & Hb & Hb').
    unfold bad_count in *. destruct st as [| |member hash offset len|]; cbn [List.filter is_payload is_bad].
    + destruct Hst as [-> Hs]. exists ps. by rewrite Hr, Hs.
    + destruct Hst as [-> Hs]. exists ps. by rewrite Hr, Hs.
    + destruct Hst as (p & Hrd & -> & Hs). exists (p :: ps). rewrite Hr, Hs. split_and!; try done. by constructor.
    + destruct Hst as [-> Hs]. exists ps. rewrite Hr, Hs, zlen_cons. destruct b as [bad fb].
      cbn [count_bad_sector fst] in *. unfold add_u64 in *. split_and!; try done.
      * rewrite Hb, Zplus_mod_idemp_l. f_equal. lia.
      * intros _. apply Hb', Z.mod_pos_bound. lia.
Qed.

Lemma visit_own_Ok i st access s s' : visit_own i st access s = (s', Ok tt) ->
  match st with
  | Stored _ _ _ _ => exists p, Access.read access st = Ok p /\ vs_report s' = counted (vs_report s) [p]
  | _ => vs_report s' = vs_report s
  end.
Proof.
  unfold visit_own. intros Hv. next Hv done_. unfold looking, reads in Hx. injection Hx as -> <-.
  next Hv y. keep Hx. destruct st as [| |member hash offset len|]; try (by injection Hv as <-).
  next Hv p. apply failing_Ok in Hx0 as [-> Hp]. exists p. split; [done|].
  unfold checked, on_report, modify in Hv. injection Hv as <-. cbn [vs_report]. by rewrite Hx.
Qed.

Lemma visit_own_states access own states : forall i s s',
  ChainSpec.visit_own (fun i st => visit_own i st access) own i states s = (s', Ok tt) ->
  exists ps, opens access (List.filter (owned_by own) states) ps /\ vs_report s' = counted (vs_report s) ps.
Proof.
  induction states as [|st states IH]; intros i s s' Hv.
  - injection Hv as <-. exists []. split; [constructor|done].
  - cbn [ChainSpec.visit_own] in Hv. apply step_bind_Ok in Hv as (s1 & [] & Hst & Hv).
    apply IH in Hv as (ps & Hp & Hr). unfold Cursors.visit_if_own in Hst.
    destruct st as [| |member hash offset len|]; cbn [List.filter owned_by];
      try (injection Hst as <-; by exists ps).
    destruct (member =? own).
    + apply visit_own_Ok in Hst as (p & Hrd & Hs). exists (p :: ps). rewrite Hr, Hs. split; [by constructor|done].
    + injection Hst as <-. by exists ps.
Qed.

Lemma visit_owns_Ok n access mms : forall position s s',
  visit_owns (fun i st => visit_own i st access) n position mms s = (s', Ok tt) ->
  exists ps, opens access (own_payloads n position mms) ps /\ vs_report s' = counted (vs_report s) ps.
Proof.
  induction mms as [|m mms IH]; intros position s s' Hv.
  - injection Hv as <-. exists []. split; [constructor|done].
  - cbn [visit_owns] in Hv. apply step_bind_Ok in Hv as (s1 & [] & Hst & Hv).
    apply visit_own_states in Hst as (ps & Hp & Hs). apply IH in Hv as (qs & Hq & Hr).
    exists (ps ++ qs). rewrite counted_app, <- Hs, <- Hr. split; [|done]. by apply Forall2_app.
Qed.
End visits.

(** ** Structure *)
Section structure.
Context `{Primitives} `{Destination D} (d : D).

(** Magic numbers, MACs, chunk framing and every page tag of the file hold. *)
Definition structure_verified (encryption : Encryption) (member : ChainMemberFile) : Prop :=
  exists superblock keys b pages,
    Resolve.read_superblock d (cm_file_name member) = Ok superblock /\
    EKeys.unlock_image encryption superblock = Ok keys /\
    open_ro d (cm_file_name member) = Ok b /\
    Verify.verify_structure b (ik_meta_key keys) (Sb.is_encrypted superblock) = Ok pages.

(** The numbers about content. *)
Definition content_counts (r : Verifier.VerifyReport) : Z * Z * Z * ImageKind :=
  (rp_chunks r, rp_bytes_checked r, rp_recorded_bad_chunks r, rp_image_kind r).

Lemma member_structure_Ok job name s s' x :
  member_structure d job name s = (s', Ok x) ->
  vs_report s' = vs_report s /\ exists superblock keys b,
    Resolve.read_superblock d name = Ok superblock /\
    EKeys.unlock_image (vq_encryption (vj_request job)) superblock = Ok keys /\
    open_ro d name = Ok b /\
    Verify.verify_structure b (ik_meta_key keys) (Sb.is_encrypted superblock) = Ok (fst x).
Proof.
  unfold member_structure. intros Hm. next Hm u. keep Hx.
  next Hm sb. apply lift_Ok in Hx0 as [-> Hsb]. next Hm keys. apply lift_Ok in Hx0 as [-> Hk].
  next Hm b. apply lift_Ok in Hx0 as [-> Hb]. next Hm pages. apply failing_Ok in Hx0 as [-> Hp].
  injection Hm as <- <-. split; [done|]. by exists sb, keys, b.
Qed.

Lemma verify_member_Ok job index member s s' next_ :
  verify_member d job index member s = (s', Ok next_) ->
  structure_verified (vq_encryption (vj_request job)) member /\
  content_counts (vs_report s') = content_counts (vs_report s) /\
  rp_members (vs_report s') = add_u64 (rp_members (vs_report s)) 1.
Proof.
  unfold verify_member. intros Hm. next Hm u. keep Hx. next Hm z. destruct z as [pages encrypted].
  unfold or_fail_structure in Hx0. destruct (member_structure _ _ _ _) as [s2 [a|e]] eqn:Es; [|done].
  injection Hx0 as -> ->. apply member_structure_Ok in Es as (Hs & sb & keys & b & H1 & H2 & H3 & H4).
  split; [by exists sb, keys, b, pages|].
  next Hm u1. keep Hx0. next Hm u2. unfold on_report at 1, modify in Hx1. injection Hx1 as <-.
  next Hm u3. injection Hm as -> _. rewrite Hx in Hs. rewrite <- Hs, <- Hx0.
  destruct (_ && _).
  - next Hx1 u4. keep Hx2. unfold on_report, modify in Hx1. injection Hx1 as <-.
    cbn [vs_report warn content_counts rp_chunks rp_bytes_checked rp_recorded_bad_chunks rp_image_kind rp_members].
    unfold content_counts. by rewrite Hx2.
  - by injection Hx1 as <-.
Qed.

Lemma verify_members_Ok job members : forall index s s' next_,
  step_fold (verify_member d job) members index s = (s', Ok next_) ->
  Forall (structure_verified (vq_encryption (vj_request job))) members /\
  content_counts (vs_report s') = content_counts (vs_report s) /\
  rp_members (vs_report s') mod 2 ^ 64 = (rp_members (vs_report s) + zlen members) mod 2 ^ 64 /\
  (0 <= rp_members (vs_report s) < 2 ^ 64 -> 0 <= rp_members (vs_report s') < 2 ^ 64).
Proof.
  induction members as [|m members IH]; intros index s s' next_ Hm.
  - injection Hm as <- _. rewrite zlen_nil, Z.add_0_r. by split_and!.
  - cbn [step_fold] in Hm. next Hm i1. apply verify_member_Ok in Hx as (Hs & Hc & Hn).
    apply IH in Hm as (Hms & Hc' & Hn' & Hb). rewrite Hn' , Hc', Hn in *. rewrite zlen_cons.
    unfold add_u64 in *. split_and!; [by constructor|done| |].
    + rewrite Zplus_mod_idemp_l. f_equal. lia.
    + intros _. apply Hb, Z.mod_pos_bound. lia.
Qed.
End structure.

(** The whole run: the structure of every member, then the content branch. *)
Lemma inner_Ok `{Primitives} `{Destination D} (d : D) name members job run recorder finish rep target :
  verify_members_in_set_inner d name members job (run, recorder) = (finish, Ok rep) ->
  Resolve.read_superblock d name = Ok target ->
  exists s1 s2,
    Forall (structure_verified d (vq_encryption (vj_request job))) members /\
    content_counts (vs_report s1) = (0, 0, 0, image_kind target) /\
    rp_members (vs_report s1) = zlen members mod 2 ^ 64 /\
    verify_content d members name target (vj_request job) s1 = (s2, Ok tt) /\ rep = vs_report s2.
Proof.
  unfold verify_members_in_set_inner. intros Hv Ht. destruct (negb _); [done|]. rewrite Ht in Hv.
  destruct (Progress.reporter _ _ _) as [run1 [reporter|e]]; [|done].
  destruct (verify_phases _ _ _ _ _ _) as [s r] eqn:Ep. injection Hv as <- ->.
  unfold verify_phases in Ep. next Ep u. keep Hx. next Ep i. apply verify_members_Ok in Hx0 as (Hs & Hc & Hn & Hnb).
  rewrite Hx in Hc, Hn, Hnb. clear Hx. cbn [vs_report empty_report rp_members] in *.
  next Ep u1. keep Hx. next Ep u2. keep Hx0. next Ep u3. keep Hx1. next Ep u4. destruct u4. next Ep u5. keep Hx3.
  next Ep c. unfold looking at 1, reads in Hx4. injection Hx4 as -> <-. next Ep u6. keep Hx4.
  unfold looking, reads in Ep. injection Ep as -> <-. rewrite Hx4, Hx3.
  eexists _, _. split_and!; [done| |..|exact Hx2|done]; rewrite Hx1, Hx0, Hx; [done|].
  rewrite <- (Z.mod_small (rp_members _) (2 ^ 64)) by (apply Hnb; lia). by rewrite Hn.
Qed.

(** ** Block chains *)
Section chains.
Context `{PrimitiveLaws} `{Destination D} (d : D).

Lemma locally_Ok {L A} (l : L) (m : step (Verifying * L) A) s s' a l' :
  locally l m s = (s', Ok (a, l')) -> m (s, l) = ((s', l'), Ok a).
Proof. unfold locally. destruct (m (s, l)) as [[s1 l1] [x|e]]; [|done]. by intros [= -> -> ->]. Qed.

Lemma count_bad_counts bad fb r :
  rp_chunks (count_bad bad fb r) = rp_chunks r /\
  rp_bytes_checked (count_bad bad fb r) = rp_bytes_checked r /\
  rp_members (count_bad bad fb r) = rp_members r /\
  rp_recorded_bad_chunks (count_bad bad fb r) = add_u64 (rp_recorded_bad_chunks r) bad /\
  rp_image_kind (count_bad bad fb r) = rp_image_kind r.
Proof. unfold count_bad. by destruct (0 <? bad). Qed.

(** The numbers of a report that starts from nothing. *)
Lemma report_numbers r ps own bad fb :
  rp_chunks r = 0 -> rp_bytes_checked r = 0 -> rp_recorded_bad_chunks r = 0 -> 0 <= bad < 2 ^ 64 ->
  let r' := counted (count_bad bad fb (counted r ps)) own in
  rp_members r' = rp_members r /\ rp_chunks r' = zlen (ps ++ own) mod 2 ^ 64 /\
  rp_bytes_checked r' = total_len (ps ++ own) mod 2 ^ 64 /\ rp_recorded_bad_chunks r' = bad.
Proof.
  intros Hc Hl Hb Hbad. cbv zeta. destruct (counted_spec ps r) as (A1 & A2 & A3 & A4 & _ & _ & A7 & A8).
  destruct (count_bad_counts bad fb (counted r ps)) as (B1 & B2 & B3 & B4 & _).
  destruct (counted_spec own (count_bad bad fb (counted r ps))) as (C1 & C2 & C3 & C4 & _ & _ & C7 & C8).
  rewrite B1, B2, B3, B4 in *. rewrite zlen_app, total_len_app, C3, C4, A3, A4, Hb.
  rewrite Hc in A1, A7. rewrite Hl in A2, A8. unfold add_u64.
  rewrite <- (Z.mod_small (rp_chunks (counted (count_bad _ _ _) _)) (2 ^ 64)) by (apply C7, A7; lia).
  rewrite <- (Z.mod_small (rp_bytes_checked (counted (count_bad _ _ _) _)) (2 ^ 64)) by (apply C8, A8; lia).
  rewrite C1, C2. rewrite <- Zplus_mod_idemp_l, A1, <- (Zplus_mod_idemp_l (rp_bytes_checked _)), A2.
  rewrite !Zplus_mod_idemp_l, !Z.add_0_l. rewrite (Z.mod_small bad) by done. by split_and!.
Qed.

(** What the branch has read, when it succeeds. *)
Lemma verify_block_chain_Ok members encryption every s s' :
  verify_block_chain d members encryption every s = (s', Ok tt) ->
  exists opened walk, Members.open_chain d members encryption = Ok opened /\ Walks.new opened = Ok walk /\
  forall n mms, Forall2 (manifest_of n (cw_chunk_size walk)) (cw_members walk) mms ->
  exists access ps own,
    ca_readers access = map om_chunks (cw_members walk) /\
    ca_keys access = map Walks.access_keys (cw_members walk) /\
    opens access (List.filter is_payload (merged_states n mms)) ps /\
    opens access (if every then own_payloads n 0 mms else []) own /\
    exists bad fb, bad mod 2 ^ 64 = bad_count (merged_states n mms) mod 2 ^ 64 /\ 0 <= bad < 2 ^ 64 /\
      vs_report s' = counted (count_bad bad fb (counted (vs_report s) ps)) own.
Proof.
  unfold verify_block_chain. intros Hv. next Hv u. keep Hx.
  next Hv opened. apply lift_Ok in Hx0 as [-> Ho]. next Hv walk. apply lift_Ok in Hx0 as [-> Hw].
  exists opened, walk. split; [done|]. split; [done|]. intros n mms Hm.
  destruct (walks_of opened walk n mms Hw Hm) as (Hn & access & Hr & Hk & Hwalks).
  next Hv y. destruct y as [[] [bad fb]]. apply locally_Ok in Hx0.
  destruct (Hwalks _ (visit_merged (cw_chunk_size walk)) (x, (0, None))) as [Hw1 _]. rewrite Hw1 in Hx0.
  apply visit_all_merged in Hx0 as (ps & Hp & Hrep & Hb & Hb'). cbn [fst] in Hb, Hb'.
  next Hv u1. keep Hx0. next Hv u2. keep Hx1. next Hv u3. unfold on_report, modify in Hx2. injection Hx2 as <-.
  exists access, ps. destruct every; cbn [negb] in Hv.
  - next Hv u4. keep Hx2. next Hv u5.
    pose proof (fun v => proj2 (Hwalks _ VerifyImages.visit_own v)) as Hw2. destruct u5. rewrite Hw2 in Hx3.
    apply visit_owns_Ok in Hx3 as (own & Hown & Hrep2). keep Hv. cbn [vs_report] in Hx2.
    exists own. split_and!; try done. exists bad, fb. split_and!; [done|apply Hb'; lia..|].
    by rewrite Hv, Hrep2, Hx2, Hx1, Hx0, Hrep, Hx.
  - injection Hv as <-. exists []. split_and!; try done; [constructor|]. exists bad, fb.
    split_and!; [done|apply Hb'; lia..|]. cbn [vs_report counted foldl]. by rewrite Hx1, Hx0, Hrep, Hx.
Qed.
End chains.

(** ** The block branch *)
Section properties.
Context `{PrimitiveLaws} `{Destination D}.

Lemma block_chain_reads (d : D) (name : bytes) (members : list ChainMemberFile) (job : VerifyJob)
    (start finish : Run * option VerificationRecorder) (target : Superblock) (rep : Verifier.VerifyReport) :
  verify_members_in_set_inner d name members job start = (finish, Ok rep) ->
  Resolve.read_superblock d name = Ok target -> image_kind target = Block -> is_whole_disk target = false ->
  Forall (structure_verified d (vq_encryption (vj_request job))) members /\
  exists opened walk, Members.open_chain d members (vq_encryption (vj_request job)) = Ok opened /\
  Walks.new opened = Ok walk /\
  forall n mms, Forall2 (manifest_of n (cw_chunk_size walk)) (cw_members walk) mms ->
  exists access ps own,
    ca_readers access = map om_chunks (cw_members walk) /\
    ca_keys access = map Walks.access_keys (cw_members walk) /\
    opens access (List.filter is_payload (merged_states n mms)) ps /\
    opens access (if vq_chain (vj_request job) then own_payloads n 0 mms else []) own /\
    rp_members rep = zlen members mod 2 ^ 64 /\
    rp_chunks rep = zlen (ps ++ own) mod 2 ^ 64 /\
    rp_bytes_checked rep = total_len (ps ++ own) mod 2 ^ 64 /\
    rp_recorded_bad_chunks rep = bad_count (merged_states n mms) mod 2 ^ 64.
Proof.
  intros Hv Ht Hkind Hdisk. destruct start as [run recorder].
  destruct (inner_Ok d name members job run recorder finish rep target Hv Ht) as (s1 & s2 & Hs & Hc & Hm & Hx2 & ->).
  split; [done|].
  unfold verify_content in Hx2. rewrite Hkind, Hdisk in Hx2. next Hx2 u. keep Hx.
  apply verify_block_chain_Ok in Hx2 as (opened & walk & Ho & Hw & Hread).
  rewrite Hx in Hread. exists opened, walk. split; [done|]. split; [done|]. intros n mms Hmm.
  destruct (Hread n mms Hmm) as (access & ps & own & Hr & Hk & Hp & Hown & bad & fb & Hb & Hb' & Hrep).
  exists access, ps, own. do 4 (split; [done|]). rewrite Hrep.
  injection Hc as Hc1 Hc2 Hc3 _. destruct (report_numbers (vs_report s1) ps own bad fb Hc1 Hc2 Hc3 Hb') as (-> & -> & -> & ->).
  rewrite Hm, <- Hb, (Z.mod_small bad) by done. by split_and!.
Qed.

(** C2: A verified block chain can be read. When the verifier accepts a block
    image, the structure of every member of its chain holds; the chain opens; and
    for the states its manifests describe, every stored chunk of the recovery
    point was read, opened and hashed to the value its manifest records. With
    [chain] the same holds for every payload any member stores, superseded ones
    included. The report counts exactly these payloads and their bytes, and the
    chunks recorded as unreadable, modulo the width of its counters. *)
Theorem verified_block_chain (d : D) (name : bytes) (members : list ChainMemberFile) (job : VerifyJob)
    (start finish : Run * option VerificationRecorder) (target : Superblock) (rep : Verifier.VerifyReport) :
  verify_members_in_set_inner d name members job start = (finish, Ok rep) ->
  Resolve.read_superblock d name = Ok target -> image_kind target = Block -> is_whole_disk target = false ->
  Forall (structure_verified d (vq_encryption (vj_request job))) members /\
  exists opened walk, Members.open_chain d members (vq_encryption (vj_request job)) = Ok opened /\
  Walks.new opened = Ok walk /\
  forall n mms, Forall2 (manifest_of n (cw_chunk_size walk)) (cw_members walk) mms ->
  exists access ps own,
    ca_readers access = map om_chunks (cw_members walk) /\
    ca_keys access = map Walks.access_keys (cw_members walk) /\
    opens access (List.filter is_payload (merged_states n mms)) ps /\
    opens access (if vq_chain (vj_request job) then own_payloads n 0 mms else []) own /\
    rp_members rep = zlen members mod 2 ^ 64 /\
    rp_chunks rep = zlen (ps ++ own) mod 2 ^ 64 /\
    rp_bytes_checked rep = total_len (ps ++ own) mod 2 ^ 64 /\
    rp_recorded_bad_chunks rep = bad_count (merged_states n mms) mod 2 ^ 64.
Proof. apply block_chain_reads. Qed.
End properties.
