(* ===== verification/VerifyFiles.v ===== *)
(** * A verified file image restores

    The file branch of [VerifyImage.v] against the restore of [Tree.v]: the
    chunks the verifier read are chunks a restore of the same records writes, and
    it writes them without an error. *)

From S2P Require Import Prelude Maps Core Crypto Pages Wire Superblock Chunk Footer Files PageStream ImageReader Manifest FileManifest Tree EngineKeys CatalogRecords Destination Progress Chain ChainSpec Plan Verifier Observation VerifyImage VerifySpec.
Import VerifySteps VerifyImages Trees TreeLemmas TreeSpec.

Section files.
Context `{PrimitiveLaws}.

(** [p] is the plaintext of the chunk named [hash]: the index says which member
    stores it, that member's record opens to [p], and [p] has that hash. *)
Definition chunk_of (opened : list OpenMember) (index : HashIndex) (hash p : bytes) : Prop :=
  exists owner offset holder entry,
    BMap.get hash index = Some (owner, offset) /\ opened !! Z.to_nat owner = Some holder /\
    Entry.stored (Cursors.member_index owner) hash offset 0 = Ok entry /\
    Members.chunk_plaintext holder entry MAX_STREAM_CHUNK = Ok p /\
    Mac.content_hash (ik_dedup_key (om_keys holder)) p = hash.

Lemma stored_hash member hash offset len entry :
  Entry.stored member hash offset len = Ok entry -> be_hash entry = hash.
Proof. unfold Entry.stored. case_match; [done|]. by intros [= <-]. Qed.

Lemma chunk_plaintext_hash m entry max p :
  Members.chunk_plaintext m entry max = Ok p ->
  Mac.content_hash (ik_dedup_key (om_keys m)) p = be_hash entry.
Proof.
  unfold Members.chunk_plaintext. intros Hp. apply bind_Ok in Hp as (kind & _ & Hp).
  apply bind_Ok in Hp as (key & _ & Hp). apply bind_Ok in Hp as (b & _ & Hp).
  by apply open_chunk_hash in Hp as [Hh _].
Qed.

Lemma verify_reference_Ok opened index record_ position hash s s' position' :
  verify_reference opened index record_ position hash s = (s', Ok position') ->
  exists p, chunk_of opened index hash p /\ holes_hold_zeros (fr_holes record_) position p = Ok tt /\
    position' = add_u64 position (zlen p).
Proof.
  unfold verify_reference. destruct (BMap.get hash index) as [[owner offset]|] eqn:Ei; [|done].
  intros Hv. next Hv u. next Hv holder. apply lift_Ok in Hx0 as [-> Hh]. apply ok_or_Ok in Hh.
  next Hv entry. apply lift_Ok in Hx0 as [-> He]. next Hv p. apply failing_Ok in Hx0 as [-> Hp].
  next Hv z. apply failing_Ok in Hx0 as [-> Hz]. next Hv done_. next Hv u1. next Hv u2. injection Hv as _ <-.
  exists p. destruct z. split_and!; [|done|done]. exists owner, offset, holder, entry. split_and!; try done.
  by rewrite (chunk_plaintext_hash _ _ _ _ Hp), (stored_hash _ _ _ _ _ He).
Qed.

Lemma verify_references_Ok opened index record_ refs : forall position s s' position',
  0 <= position -> step_fold (verify_reference opened index record_) refs position s = (s', Ok position') ->
  exists ps, Forall2 (chunk_of opened index) refs ps /\
    (position + zlen (concat ps) < 2 ^ 64 ->
     holes_checked (fr_holes record_) position ps /\ position' = position + zlen (concat ps)).
Proof.
  induction refs as [|hash refs IH]; intros position s s' position' Hpos Hv.
  - injection Hv as _ <-. exists []. split; [constructor|]. intros _. cbn [concat]. rewrite zlen_nil. split; [done|lia].
  - cbn [step_fold] in Hv. next Hv p1. apply verify_reference_Ok in Hx as (p & Hc & Hz & ->).
    pose proof (zlen_nonneg p). unfold add_u64 in Hv.
    apply IH in Hv as (ps & Hps & Hrest); [|apply Z.mod_pos_bound; lia].
    exists (p :: ps). split; [by constructor|]. cbn [concat holes_checked]. rewrite zlen_app. intros Hlt.
    pose proof (zlen_nonneg (concat ps)). rewrite Z.mod_small in Hrest by lia.
    destruct Hrest as [Hch ->]; [lia|]. split; [done|lia].
Qed.

(** What verification establishes about one record. *)
Definition record_verified (opened : list OpenMember) (index : HashIndex) (r : FileRecord) : Prop :=
  exists ps, Forall2 (chunk_of opened index) (fe_chunk_refs_here (fr_entry r)) ps /\
    (zlen (concat ps) < 2 ^ 64 -> holes_checked (fr_holes r) 0 ps /\
      (is_regular (fr_entry r) = true -> zlen (concat ps) = fe_size (fr_entry r))).

Lemma verify_record_Ok opened index r s s' :
  verify_record opened index r s = (s', Ok tt) -> record_verified opened index r.
Proof.
  unfold verify_record. intros Hv. next Hv position.
  apply verify_references_Ok in Hx as (ps & Hps & Hrest); [|done].
  exists ps. split; [done|]. intros Hlt. destruct Hrest as [Hc ->]; [lia|]. split; [done|].
  unfold is_regular. intros Hk. rewrite Hk, Z.add_0_l in Hv. cbn [andb] in Hv.
  destruct (Z.eqb_spec (zlen (concat ps)) (fe_size (fr_entry r))); [done|]. done.
Qed.

Lemma step_iter_Ok {S A} (f : A -> step S unit) l : forall s s',
  step_iter f l s = (s', Ok tt) -> Forall (fun x => exists s1 s2, f x s1 = (s2, Ok tt)) l.
Proof.
  induction l as [|x l IH]; intros s s' Hi; [constructor|]. cbn [step_iter] in Hi.
  apply step_bind_Ok in Hi as (s1 & [] & Hx & Hi). constructor; [by exists s, s1|]. by apply IH in Hi.
Qed.

(** What verification establishes about the tree of one member. *)
Definition tree_verified (opened : list OpenMember) (index : HashIndex) (position : Z) : Prop :=
  exists member b records,
    opened !! Z.to_nat position = Some member /\ Members.stream_bytes member SManifest = Ok b /\
    FileRecords.read_manifest b = Ok records /\ file_tree (of_records records) = Ok tt /\
    Forall (record_verified opened index) records.

Lemma verify_tree_Ok opened index position s s' :
  verify_tree opened index position s = (s', Ok tt) -> tree_verified opened index position.
Proof.
  unfold verify_tree. intros Hv. next Hv u. next Hv member. apply lift_Ok in Hx0 as [-> Hm]. apply ok_or_Ok in Hm.
  next Hv b. apply lift_Ok in Hx0 as [-> Hb]. next Hv records. apply lift_Ok in Hx0 as [-> Hr].
  next Hv u1. next Hv z. apply failing_Ok in Hx1 as [-> Hz]. destruct z. next Hv u2. destruct u2.
  apply step_iter_Ok in Hx1. exists member, b, records. split_and!; try done.
  eapply Forall_impl; [exact Hx1|]. intros r (s1 & s2 & Hrec). by eapply verify_record_Ok.
Qed.

(** The records of a tree are records of the manifest. *)
Lemma tree_records records r : In r (map snd (of_records records)) -> In r records.
Proof.
  intros ([k r'] & <- & Hin)%in_map_iff. apply BMap.collect_In in Hin.
  apply in_map_iff in Hin as (r0 & [= _ <-] & Hin). done.
Qed.
End files.

(** ** Properties *)
Section properties.
Context `{PrimitiveLaws} `{Destination D}.

Lemma file_trees_restore (d : D) (name : bytes) (members : list ChainMemberFile) (job : VerifyJob)
    (start finish : Run * option VerificationRecorder) (target : Superblock) (rep : Verifier.VerifyReport) :
  verify_members_in_set_inner d name members job start = (finish, Ok rep) ->
  Resolve.read_superblock d name = Ok target -> image_kind target = File ->
  exists opened index,
    Members.open_chain d members (vq_encryption (vj_request job)) = Ok opened /\
    hash_index 0 opened [] = Ok index /\
    forall position,
      In position (if vq_chain (vj_request job) then seqZ 0 (zlen opened) else [Z.max 0 (zlen opened - 1)]) ->
    exists member b records,
      opened !! Z.to_nat position = Some member /\ Members.stream_bytes member SManifest = Ok b /\
      FileRecords.read_manifest b = Ok records /\ file_tree (of_records records) = Ok tt /\
      forall r cap, In r (map snd (of_records records)) -> is_regular (fr_entry r) = true ->
      exists ps, Forall2 (chunk_of opened index) (fe_chunk_refs_here (fr_entry r)) ps /\
        (zlen (concat ps) < 2 ^ 64 -> fe_size (fr_entry r) <= cap ->
         exists f, restore_regular r ps cap = Ok f /\ fw_bytes f = concat ps).
Proof.
  intros Hv Ht Hkind. destruct start as [run recorder].
  destruct (inner_Ok d name members job run recorder finish rep target Hv Ht) as (s1 & s2 & _ & _ & _ & Hf & _).
  unfold verify_content in Hf. rewrite Hkind in Hf. next Hf u. unfold verify_file in Hf.
  next Hf opened. apply lift_Ok in Hx0 as [-> Ho]. next Hf index. apply lift_Ok in Hx0 as [-> Hi].
  next Hf u1. destruct u1. apply step_iter_Ok in Hx0. rewrite List.Forall_forall in Hx0.
  exists opened, index. split; [done|]. split; [done|]. intros position Hp.
  destruct (Hx0 position Hp) as (t1 & t2 & Hvt).
  apply verify_tree_Ok in Hvt as (member & b & records & Hm & Hb & Hr & Htree & Hrecs).
  exists member, b, records. do 4 (split; [done|]). intros r cap Hin Hreg.
  pose proof (tree_records records r Hin) as Hin'. pose proof (read_manifest_widths b records Hr) as Hw.
  rewrite List.Forall_forall in Hrecs, Hw. destruct (Hrecs r Hin') as (ps & Hps & Hrest).
  exists ps. split; [done|]. intros Hlt Hcap. destruct (Hrest Hlt) as [Hc Hsz].
  apply restore_checked; auto. unfold file_tree in Htree. apply bind_Ok in Htree as ([] & _ & Htree).
  apply bind_Ok in Htree as ([] & Hcr & _). apply forM_Ok in Hcr. rewrite List.Forall_forall in Hcr. by apply Hcr.
Qed.

(** C3: A verified file image restores. When the verifier accepts a file image,
    the chain opens and its hash indexes can be read; each tree it read - the
    newest one, or with [chain] every member's - passes the checks of a restore;
    and for every regular file of such a tree there are plaintexts, one for each
    chunk reference and each with the hash the reference names, such that
    restoring the file with them on a disk with room succeeds and gives exactly
    their concatenation. *)
Theorem verified_files_restore (d : D) (name : bytes) (members : list ChainMemberFile) (job : VerifyJob)
    (start finish : Run * option VerificationRecorder) (target : Superblock) (rep : Verifier.VerifyReport) :
  verify_members_in_set_inner d name members job start = (finish, Ok rep) ->
  Resolve.read_superblock d name = Ok target -> image_kind target = File ->
  exists opened index,
    Members.open_chain d members (vq_encryption (vj_request job)) = Ok opened /\
    hash_index 0 opened [] = Ok index /\
    forall position,
      In position (if vq_chain (vj_request job) then seqZ 0 (zlen opened) else [Z.max 0 (zlen opened - 1)]) ->
    exists member b records,
      opened !! Z.to_nat position = Some member /\ Members.stream_bytes member SManifest = Ok b /\
      FileRecords.read_manifest b = Ok records /\ file_tree (of_records records) = Ok tt /\
      forall r cap, In r (map snd (of_records records)) -> is_regular (fr_entry r) = true ->
      exists ps, Forall2 (chunk_of opened index) (fe_chunk_refs_here (fr_entry r)) ps /\
        (zlen (concat ps) < 2 ^ 64 -> fe_size (fr_entry r) <= cap ->
         exists f, restore_regular r ps cap = Ok f /\ fw_bytes f = concat ps).
Proof. apply file_trees_restore. Qed.
End properties.
