(* ===== verification/VerifyRecord.v ===== *)
(** * What a captured verification records

    The recorder of [Observation.v] along every branch of [VerifyImage.v]: at
    each moment its observation is one the history accepts as a partial one, and
    after a success it is complete in exactly the stages its coverage promises. *)

From S2P Require Import Prelude Maps Core Crypto Pages Wire Superblock Chunk Footer Files PageStream ImageReader Manifest Disk FileManifest Tree EngineKeys CatalogRecords Destination Progress Chain Plan StreamImage Verifier Observation VerifyImage.
Import VerifySteps VerifyImages Recorders Observations Validation.

(** ** Following a recorder *)
Section tracking.

(** The members as the capture left them, and the scope of the request. *)
Context (ms0 : list MemberObservation) (scope : RecoveryScope).

Definition same_facts (m0 m : MemberObservation) : Prop :=
  mo_identity m = mo_identity m0 /\ mo_raw_length m = mo_raw_length m0 /\
  mo_blake3_bytes m = mo_blake3_bytes m0 /\ mo_capture m = mo_capture m0.

Definition headed (o : VerificationObservation) : Prop :=
  vo_schema_version o = 1 /\ vo_coverage_contract_version o = 1 /\ vo_requested_scope o = scope.

(** The facts of the capture stand, and [P] holds of every member. *)
Record tracks (cov : option ContentCoverage) (P : nat -> MemberObservation -> Prop)
    (r : VerificationRecorder) : Prop := {
  tr_headed : headed (vr_observation r);
  tr_coverage : vo_content_coverage (vr_observation r) = cov;
  tr_length : length (vo_members (vr_observation r)) = length ms0;
  tr_members : forall i m0 m, ms0 !! i = Some m0 -> vo_members (vr_observation r) !! i = Some m ->
    same_facts m0 m /\ P i m;
}.

(** Before any content. *)
Definition structuring (i : nat) (m : MemberObservation) : Prop :=
  mo_content m = stages_pending /\ mo_structure m <> NotRequested /\
  (mo_structure_notice m <> None -> mo_structure m = Complete).

(** The first [k] members have their structure verified, the others not even
    begun. *)
Definition structured (k : nat) (i : nat) (m : MemberObservation) : Prop :=
  structuring i m /\ ((i < k)%nat -> mo_structure m = Complete) /\
  ((k <= i)%nat -> mo_structure_notice m = None).

(** The same while member [k] is in the stage [st]. *)
Definition structured_at (k : nat) (st : MemberStage) (i : nat) (m : MemberObservation) : Prop :=
  structuring i m /\ ((i < k)%nat -> mo_structure m = Complete) /\
  ((k < i)%nat -> mo_structure_notice m = None) /\
  (i = k -> mo_structure m = st /\ (st <> Complete -> mo_structure_notice m = None)).

(** While content is verified: [f] tells the content stages of each member, and
    the selected one has its recovery point requested. *)
Definition contents_are (f : nat -> MemberContentStages -> Prop) (i : nat) (m : MemberObservation) : Prop :=
  mo_structure m = Complete /\ f i (mo_content m) /\
  (S i = length ms0 -> mc_recovery_point (mo_content m) <> NotRequested).

Definition anything (i : nat) (c : MemberContentStages) : Prop := True.

Lemma tracks_impl cov P Q r : (forall i m, P i m -> Q i m) -> tracks cov P r -> tracks cov Q r.
Proof.
  intros HPQ [Hh Hc Hl Hm]. constructor; try done. intros i m0 m H1 H2.
  destruct (Hm i m0 m H1 H2) as [Hs Hp]. auto.
Qed.

Lemma contents_impl cov f g r :
  (forall i c, f i c -> g i c) -> tracks cov (contents_are f) r -> tracks cov (contents_are g) r.
Proof. intros Hfg. apply tracks_impl. intros i m (H1 & H2 & H3). split_and!; auto. Qed.

Lemma contents_impl_lt cov f g r :
  (forall i c, (i < length ms0)%nat -> f i c -> g i c) ->
  tracks cov (contents_are f) r -> tracks cov (contents_are g) r.
Proof.
  intros Hfg [Hh Hc Hl Hm]. constructor; try done. intros i m0 m H1 H2.
  destruct (Hm i m0 m H1 H2) as [Hs (H3 & H4 & H5)]. apply lookup_lt_Some in H1. split; [done|]. split_and!; auto.
Qed.

(** *** The recorder's operations *)
Lemma tracks_on_members cov P Q (g : nat -> MemberObservation -> MemberObservation) r :
  (forall i m, P i m -> same_facts m (g i m) /\ Q i (g i m)) ->
  tracks cov P r -> tracks cov Q (on_members (imap g) r).
Proof.
  intros Hg [Hh Hc Hl Hm]. constructor; cbn [on_members vr_observation with_members vo_members vo_content_coverage].
  - exact Hh.
  - exact Hc.
  - by rewrite length_imap.
  - intros i m0 m H1 H2. rewrite list_lookup_imap in H2.
    destruct (vo_members (vr_observation r) !! i) as [m'|] eqn:E; [|done]. injection H2 as <-.
    destruct (Hm i m0 m' H1 E) as [Hs Hp]. destruct (Hg i m' Hp) as [Hs' Hq]. split; [|done].
    unfold same_facts in *. destruct Hs as (<- & <- & <- & <-). exact Hs'.
Qed.

Lemma imap_map {A} (f : A -> A) l : map f l = imap (fun _ => f) l.
Proof. induction l as [|x l IH]; [done|]. cbn. by rewrite IH. Qed.

Lemma imap_alter {A} (f : A -> A) i l :
  alter f i l = imap (fun j x => if decide (j = i) then f x else x) l.
Proof.
  apply list_eq. intros j. rewrite list_lookup_imap. destruct (decide (j = i)) as [->|Hne].
  - rewrite list_lookup_alter_eq. by destruct (l !! i).
  - rewrite list_lookup_alter_ne by done. by destruct (l !! j).
Qed.

Lemma tracks_map cov P Q g r :
  (forall i m, P i m -> same_facts m (g m) /\ Q i (g m)) ->
  tracks cov P r -> tracks cov Q (on_members (map g) r).
Proof.
  intros Hg Ht. destruct (tracks_on_members cov P Q (fun _ => g) r Hg Ht) as [Hh Hc Hl Hm].
  constructor; cbn [on_members vr_observation with_members vo_members] in *; rewrite ?imap_map; done.
Qed.

Lemma tracks_member cov P Q k g r :
  (forall m, P (Z.to_nat k) m -> same_facts m (g m) /\ Q (Z.to_nat k) (g m)) ->
  (forall i m, i <> Z.to_nat k -> P i m -> Q i m) ->
  tracks cov P r -> tracks cov Q (on_member k g r).
Proof.
  intros Hg Hne Ht.
  destruct (tracks_on_members cov P Q (fun j x => if decide (j = Z.to_nat k) then g x else x) r) as [Hh Hc Hl Hm].
  - intros i m Hp. destruct (decide (i = Z.to_nat k)) as [->|]; [auto|]. split; [by split_and!|auto].
  - done.
  - constructor; unfold on_member; cbn [on_members vr_observation with_members vo_members] in *;
      rewrite ?imap_alter; done.
Qed.

(** A change of content stages only. *)
Lemma contents_member cov f f' k g r :
  (forall c, f (Z.to_nat k) c -> f' (Z.to_nat k) (g c) /\
    (mc_recovery_point c <> NotRequested -> mc_recovery_point (g c) <> NotRequested)) ->
  (forall i c, i <> Z.to_nat k -> f i c -> f' i c) ->
  tracks cov (contents_are f) r -> tracks cov (contents_are f') (on_member k (with_content g) r).
Proof.
  intros Hg Hne. apply tracks_member.
  - intros m (H1 & H2 & H3). destruct (Hg _ H2) as [H4 H5]. split; [by split_and!|]. split_and!; auto.
  - intros i m Hi (H1 & H2 & H3). split_and!; auto.
Qed.

Lemma contents_all cov f f' g r :
  (forall i c, f i c -> f' i (g c) /\
    (mc_recovery_point c <> NotRequested -> mc_recovery_point (g c) <> NotRequested)) ->
  tracks cov (contents_are f) r -> tracks cov (contents_are f') (on_members (map (with_content g)) r).
Proof.
  intros Hg. apply tracks_map. intros i m (H1 & H2 & H3). destruct (Hg _ _ H2) as [H4 H5].
  split; [by split_and!|]. split_and!; auto.
Qed.

(** *** What a failure leaves *)
Definition captured_facts : Prop :=
  ms0 <> [] /\ Forall (fun m => mo_capture m = Complete /\ some (mo_blake3_bytes m) = true /\
    some (mo_identity m) = true /\
    match mo_raw_length m with Some length => length <> 0 | None => False end) ms0.

(** Where a run may fail. *)
Definition failable (r : VerificationRecorder) : Prop :=
  tracks None structuring r \/ exists cov, tracks (Some cov) (contents_are anything) r.

Lemma structured_failable k r : tracks None (structured k) r -> failable r.
Proof. intros Ht. left. eapply tracks_impl; [|exact Ht]. by intros i m []. Qed.

Lemma contents_failable cov f r : tracks (Some cov) (contents_are f) r -> failable r.
Proof. intros Ht. right. exists cov. by eapply contents_impl; [|exact Ht]. Qed.

Lemma lookup_both r i m cov P : tracks cov P r -> vo_members (vr_observation r) !! i = Some m ->
  exists m0, ms0 !! i = Some m0 /\ same_facts m0 m /\ P i m.
Proof.
  intros [Hh Hc Hl Hm] Hi. assert (i < length ms0)%nat as Hlt by (rewrite <- Hl; by eapply lookup_lt_Some).
  destruct (lookup_lt_is_Some_2 _ _ Hlt) as [m0 H0]. exists m0. split; [done|]. by apply (Hm i).
Qed.

Lemma Forall_by_lookup {A} (P : A -> Prop) l : (forall i x, l !! i = Some x -> P x) -> Forall P l.
Proof. intros Hl. apply Forall_lookup. exact Hl. Qed.

(** A member in any of these states is all right once [fail] has passed over it. *)
Lemma fail_member_ok m0 m :
  (mo_capture m0 = Complete /\ some (mo_blake3_bytes m0) = true /\ some (mo_identity m0) = true /\
    match mo_raw_length m0 with Some length => length <> 0 | None => False end) ->
  same_facts m0 m -> mo_structure m <> NotRequested ->
  (mo_structure_notice m <> None -> mo_structure m = Complete) -> member_ok (fail_member m) = true.
Proof.
  intros (F1 & F2 & F3 & F4) (S1 & S2 & S3 & S4) Hs Hn.
  rewrite <- S4 in F1. rewrite <- S3 in F2. rewrite <- S1 in F3. rewrite <- S2 in F4.
  unfold member_ok, fail_member, set_capture, set_structure, with_content.
  cbn [mo_identity mo_raw_length mo_blake3_bytes mo_capture mo_structure mo_structure_notice mo_content
    mc_recovery_point mc_referenced_payloads mc_every_stored_payload mc_disk_region_payloads].
  rewrite F1, F2, F3. destruct (mo_raw_length m); [|done].
  assert (forall s, negb (is_stage (failed s) InProgress) = true) as Hfl by by intros [].
  cbn [forallb]. rewrite !Hfl. clear Hfl. cbn [some failed is_stage andb orb negb bool_decide].
  destruct (mo_structure m) eqn:Es; cbn; try done; destruct (mo_structure_notice m) eqn:En; cbn; try done;
    by specialize (Hn ltac:(done)).
Qed.

Lemma fail_members_ok cov P r :
  captured_facts -> tracks cov P r ->
  (forall i m, P i m -> mo_structure m <> NotRequested /\
    (mo_structure_notice m <> None -> mo_structure m = Complete)) ->
  forallb member_ok (map fail_member (vo_members (vr_observation r))) = true.
Proof.
  intros [_ Hf] Ht Hp. rewrite forallb_forall. intros m' (m & <- & Hin)%in_map_iff.
  apply list_elem_of_In, list_elem_of_lookup in Hin as [i Hi].
  destruct (lookup_both r i m cov P Ht Hi) as (m0 & H0 & Hs & HP). destruct (Hp i m HP) as [Hst Hn].
  apply (fail_member_ok m0); try done. rewrite Forall_lookup in Hf. by apply (Hf i).
Qed.

Lemma failed_fact s : is_stage (failed s) NotRequested = is_stage s NotRequested.
Proof. by destruct s. Qed.

Lemma fail_content_fact m : content_fact (fail_member m) = content_fact m.
Proof.
  unfold content_fact, fail_member, with_content, set_structure, set_capture. cbn [mo_content existsb
    mc_recovery_point mc_referenced_payloads mc_every_stored_payload mc_disk_region_payloads].
  by rewrite !failed_fact.
Qed.

Lemma forallb_lookup {A} (f : A -> bool) l : (forall i x, l !! i = Some x -> f x = true) -> forallb f l = true.
Proof.
  intros Hl. apply forallb_forall. intros x Hx. apply list_elem_of_In, list_elem_of_lookup in Hx as [i Hi]. by apply (Hl i).
Qed.

(** While content is verified, the facts of every member stand and the selected
    one has a content fact. *)
Lemma contents_facts cov f r :
  captured_facts -> tracks (Some cov) (contents_are f) r ->
  forallb (fun m => is_stage (mo_capture m) Complete && some (mo_identity m) &&
    is_stage (mo_structure m) Complete) (vo_members (vr_observation r)) = true /\
  existsb content_fact (vo_members (vr_observation r)) = true.
Proof.
  intros [Hne Hf] Ht. rewrite Forall_lookup in Hf. split.
  - apply forallb_lookup. intros i m Hi.
    destruct (lookup_both r i m _ _ Ht Hi) as (m0 & H0 & (S1 & S2 & S3 & S4) & (C1 & _)).
    destruct (Hf i m0 H0) as (F1 & _ & F3 & _). by rewrite S4, F1, S1, F3, C1.
  - destruct ms0 as [|x l] eqn:E; [done|].
    assert (length l < length (vo_members (vr_observation r)))%nat as Hl
      by (rewrite (tr_length _ _ _ Ht), E; cbn; lia).
    destruct (lookup_lt_is_Some_2 _ _ Hl) as [m Hm].
    destruct (lookup_both r _ m _ _ Ht Hm) as (m0 & _ & _ & (_ & _ & Hr)).
    apply existsb_exists. exists m. split; [apply list_elem_of_In; by eapply list_elem_of_lookup_2|].
    unfold content_fact, is_stage. cbn [existsb]. rewrite E in Hr. cbn [length] in Hr.
    by rewrite bool_decide_false by auto.
Qed.

Lemma fail_accepted e r : captured_facts -> failable r -> validate_attempt (Recorders.fail e r) = true.
Proof.
  intros Hcap Hr. assert (headed (vr_observation r)) as (Hv1 & Hv2 & _) by (destruct Hr as [[] | [cov []]]; done).
  unfold validate_attempt, Recorders.fail, validate_observation_header, validate_partial_observation.
  cbn [va_observation va_report set_incomplete with_outcome with_members vo_outcome vo_members
    vo_content_coverage vo_schema_version vo_coverage_contract_version]. rewrite Hv1, Hv2.
  cbn [andb negb orb Z.eqb].
  assert (forall l, existsb content_fact (map fail_member l) = existsb content_fact l) as ->.
  { intros l. induction l as [|m l IH]; [done|]. cbn [map existsb]. by rewrite fail_content_fact, IH. }
  destruct Hr as [Ht|[cov Ht]].
  - rewrite (fail_members_ok _ _ _ Hcap Ht) by (intros i m (H1 & H2 & H3); done).
    rewrite (tr_coverage _ _ _ Ht).
    assert (existsb content_fact (vo_members (vr_observation r)) = false) as ->; [|done].
    apply not_true_iff_false. intros (m & Hm & Hc)%existsb_exists.
    apply list_elem_of_In, list_elem_of_lookup in Hm as [i Hi].
    destruct (lookup_both r i m _ _ Ht Hi) as (m0 & _ & _ & (Hp & _)). unfold content_fact in Hc. by rewrite Hp in Hc.
  - rewrite (fail_members_ok _ _ _ Hcap Ht) by (intros i m (H1 & _); split; congruence).
    rewrite (tr_coverage _ _ _ Ht). destruct (contents_facts _ _ _ Hcap Ht) as [Hfa ->]. cbn [andb].
    assert (forallb (fun m => is_stage (mo_capture m) Complete && some (mo_identity m) &&
      is_stage (mo_structure m) Complete) (map fail_member (vo_members (vr_observation r))) = true) as ->; [|done].
    rewrite forallb_forall in *. intros m' (m & <- & Hin)%in_map_iff. specialize (Hfa m Hin).
    rewrite !andb_true_iff in Hfa. destruct Hfa as [[H1 H2] H3]. unfold is_stage in *.
    apply bool_decide_eq_true in H1, H3. unfold fail_member, set_capture, set_structure, with_content.
    cbn [mo_capture mo_identity mo_structure]. by rewrite H1, H2, H3.
Qed.

(** *** What a success leaves *)
Lemma ancestry_from_ids first : forall l l' index previous seen,
  map mo_identity l = map mo_identity l' ->
  ancestry_from first index previous seen l = ancestry_from first index previous seen l'.
Proof.
  induction l as [|m l IH]; intros [|m' l'] index previous seen Hl; try done. injection Hl as Hm Hl.
  cbn [ancestry_from]. rewrite Hm. destruct (mo_identity m') as [i|]; [|done].
  destruct (2 ^ 32 <=? index); [done|]. by rewrite (IH l').
Qed.

Lemma valid_ancestry_ids l l' : map mo_identity l = map mo_identity l' -> valid_ancestry l = valid_ancestry l'.
Proof.
  intros Hl. destruct l as [|m l], l' as [|m' l']; try done. unfold valid_ancestry.
  assert (zlen (m :: l) = zlen (m' :: l')) as -> by
    (unfold zlen; rewrite <- (length_map mo_identity (m :: l)), Hl, length_map; done).
  pose proof Hl as Hl'. injection Hl as Hm _. rewrite Hm. destruct (mo_identity m') as [first|]; [|done].
  by rewrite (ancestry_from_ids first (m :: l) (m' :: l')).
Qed.

Lemma ancestry_from_uniform first : forall l index previous seen,
  ancestry_from first index previous seen l = true ->
  forall i m, l !! i = Some m -> exists id, mo_identity m = Some id /\
    mi_whole_disk id = mi_whole_disk first /\ mi_image_kind id = mi_image_kind first.
Proof.
  induction l as [|x l IH]; intros index previous seen Ha i m Hi; [done|]. cbn [ancestry_from] in Ha.
  destruct (mo_identity x) as [id|] eqn:Ex; [|done]. destruct (2 ^ 32 <=? index); [done|].
  rewrite !andb_true_iff in Ha. destruct Ha as [[[[[[[[_ _] _] Hk] Hw] _] _] _] Hr].
  destruct i as [|i]; [|by apply (IH _ _ _ Hr i)]. injection Hi as <-. exists id.
  apply bool_decide_eq_true in Hk. apply eqb_prop in Hw. done.
Qed.

Lemma valid_ancestry_uniform l : valid_ancestry l = true ->
  forall i m j m', l !! i = Some m -> l !! j = Some m' -> exists id id', mo_identity m = Some id /\
    mo_identity m' = Some id' /\ mi_whole_disk id = mi_whole_disk id' /\ mi_image_kind id = mi_image_kind id'.
Proof.
  unfold valid_ancestry. destruct l as [|x l1] eqn:El; [done|]. rewrite <- El.
  destruct (mo_identity x) as [first|]; [|done]. intros Ha i m j m' Hi Hj.
  destruct (_ || _); [done|]. destruct (_ && _); [done|].
  destruct (ancestry_from_uniform _ _ _ _ _ Ha i m Hi) as (a & H1 & H2 & H3).
  destruct (ancestry_from_uniform _ _ _ _ _ Ha j m' Hj) as (b & H4 & H5 & H6).
  exists a, b. split_and!; congruence.
Qed.

Lemma stages_from_lookup cov target members :
  (forall i m, members !! i = Some m -> exists id, mo_identity m = Some id /\
    mi_whole_disk id = mi_whole_disk target /\ mi_image_kind id = mi_image_kind target /\
    stages_match cov (bool_decide (S i = length members)) (mo_content m) = true) ->
  stages_from cov target members = true.
Proof.
  induction members as [|m members IH]; intros Hm; [done|]. cbn [stages_from].
  destruct (Hm 0%nat m eq_refl) as (id & -> & -> & -> & Hs). rewrite IH.
  - rewrite eqb_reflx, bool_decide_true, !andb_true_r by done. destruct members; exact Hs.
  - intros i m' Hi. destruct (Hm (S i) m' Hi) as (id' & H1 & H2 & H3 & H4). exists id'. split_and!; try done.
    rewrite <- H4. f_equal. apply bool_decide_ext. cbn. lia.
Qed.

Lemma stages_match_settled cov sel c : stages_match cov sel c = true ->
  forallb (fun s => negb (is_stage s InProgress))
    [mc_recovery_point c; mc_referenced_payloads c; mc_every_stored_payload c; mc_disk_region_payloads c] = true.
Proof.
  unfold stages_match. destruct (expected_stages cov sel) as [[[a b] d] e]. unfold matches_expected_stage, is_stage.
  rewrite !andb_true_iff, !bool_decide_eq_true. intros [[[-> ->] ->] ->]. by destruct a, b, d, e.
Qed.

(** The selected member of the captured chain. *)
Definition selected_identity (target : MemberIdentity) : Prop :=
  exists m, last ms0 = Some m /\ mo_identity m = Some target.

Lemma success_accepted rep r cov f target :
  captured_facts -> valid_ancestry ms0 = true -> selected_identity target ->
  coverage_matches cov target scope = true -> 0 <= rp_recorded_bad_chunks rep ->
  tracks (Some cov) (contents_are f) r ->
  (forall i c, (i < length ms0)%nat -> f i c -> stages_match cov (bool_decide (S i = length ms0)) c = true) ->
  validate_attempt (Recorders.finish rep r) = true.
Proof.
  intros Hcap Hva (mt & Hlast & Hmt) Hcov Hbad Ht Hf. pose proof Hcap as [Hne Hfa]. rewrite Forall_lookup in Hfa.
  pose proof (tr_length _ _ _ Ht) as Hlen. set (ms := vo_members (vr_observation r)) in *.
  assert (forall i m, ms !! i = Some m -> exists m0, ms0 !! i = Some m0 /\ same_facts m0 m /\
    mo_structure m = Complete /\ stages_match cov (bool_decide (S i = length ms0)) (mo_content m) = true) as Hms.
  { intros i m Hi. destruct (lookup_both r i m _ _ Ht Hi) as (m0 & H0 & Hs & (H1 & H2 & _)).
    exists m0. split_and!; try done. apply Hf; [by eapply lookup_lt_Some|done]. }
  assert (map mo_identity ms = map mo_identity ms0) as Hids.
  { apply list_eq. intros i. change (map mo_identity ms) with (mo_identity <$> ms).
    change (map mo_identity ms0) with (mo_identity <$> ms0). rewrite !list_lookup_fmap.
    destruct (ms !! i) as [m|] eqn:Ei.
    - destruct (Hms i m Ei) as (m0 & H0 & (S1 & _) & _). rewrite H0. cbn. by rewrite S1.
    - apply lookup_ge_None in Ei. by rewrite lookup_ge_None_2 by lia. }
  assert (validate_success_observation (vr_observation r) = true) as Hsucc.
  { unfold validate_success_observation. fold ms. rewrite (tr_coverage _ _ _ Ht).
    assert (ms <> []) as Hmsne by (intros He; rewrite He in Hlen; by destruct ms0).
    destruct ms as [|x l1] eqn:Ems; [done|]. rewrite <- Ems in *. rewrite (valid_ancestry_ids ms ms0 Hids), Hva.
    assert (forallb captured_member ms = true) as ->.
    { apply forallb_lookup. intros i m Hi. destruct (Hms i m Hi) as (m0 & H0 & (S1 & S2 & S3 & S4) & H1 & _).
      destruct (Hfa i m0 H0) as (F1 & F2 & F3 & F4). unfold captured_member.
      rewrite S4, F1, H1, S2, S3, F2, S1, F3. destruct (mo_raw_length m0); [|done].
      rewrite (proj2 (Z.eqb_neq _ _)) by done. by destruct (mo_structure_notice m). }
    assert (exists m, last ms = Some m /\ mo_identity m = Some target) as (m & -> & ->).
    { rewrite last_lookup in *. rewrite <- Hlen in Hlast.
      destruct (lookup_lt_is_Some_2 ms (pred (length ms))) as [m Hm]; [rewrite Ems; cbn; lia|].
      exists m. split; [done|]. destruct (Hms _ m Hm) as (m0 & H0 & (-> & _) & _). congruence. }
    destruct (tr_headed _ _ _ Ht) as (_ & _ & ->). rewrite Hcov. cbn [andb]. apply stages_from_lookup. intros i m' Hi.
    destruct (Hms i m' Hi) as (m0 & H0 & (S1 & _) & _ & Hst). rewrite last_lookup in Hlast.
    destruct (valid_ancestry_uniform ms0 Hva i m0 _ mt H0 Hlast) as (a & b & H1 & H2 & H3 & H4).
    exists a. rewrite S1. rewrite Hmt in H2. injection H2 as <-. rewrite Hlen. done. }
  unfold validate_attempt, Recorders.finish. cbn [va_observation va_report].
  assert (validate_partial_observation (vr_observation r) = true) as Hpart.
  { unfold validate_partial_observation. fold ms. rewrite (tr_coverage _ _ _ Ht).
    destruct (contents_facts _ _ _ Hcap Ht) as [H1 H2]. fold ms in H1, H2. rewrite H2, H1, andb_true_r.
    apply forallb_lookup. intros i m Hi. destruct (Hms i m Hi) as (m0 & H0 & (S1 & S2 & S3 & S4) & H3 & H4).
    destruct (Hfa i m0 H0) as (F1 & F2 & F3 & F4). unfold member_ok.
    rewrite S4, F1, H3, S2, S3, F2, S1, F3. destruct (mo_raw_length m0); [|done].
    rewrite (stages_match_settled _ _ _ H4). by destruct (mo_structure_notice m). }
  destruct (tr_headed _ _ _ Ht) as (Hv1 & Hv2 & _). set (o := set_verified _ _).
  change (validate_partial_observation o) with (validate_partial_observation (vr_observation r)).
  change (validate_success_observation o) with (validate_success_observation (vr_observation r)).
  change (validate_observation_header o) with (validate_observation_header (vr_observation r)).
  unfold validate_observation_header. rewrite Hv1, Hv2, Hpart, Hsucc. unfold o, set_verified, with_outcome.
  cbn [vo_outcome andb negb orb Z.eqb]. destruct (Z.eqb_spec (rp_recorded_bad_chunks rep) 0) as [He|He].
  - done.
  - by rewrite (proj2 (Z.ltb_lt 0 (rp_recorded_bad_chunks rep))) by lia.
Qed.
End tracking.

(** ** Triples over the verifier *)
Section running.
Context (ms0 : list MemberObservation) (scope : RecoveryScope).

Definition on (R : VerificationRecorder -> Prop) (s : Verifying) : Prop :=
  exists r, vs_recorder s = Some r /\ R r.

#[local] Abbreviation Tracks := (tracks ms0 scope).
#[local] Abbreviation Contents := (contents_are ms0).
#[local] Abbreviation Failable := (failable ms0 scope).

(** A step that leaves the recorder alone. *)
Definition quiet {A} (m : step Verifying A) : Prop := forall s, vs_recorder (fst (m s)) = vs_recorder s.

Lemma quiet_bind {A B} (m : step Verifying A) (k : A -> step Verifying B) :
  quiet m -> (forall a, quiet (k a)) -> quiet (step_bind m k).
Proof.
  intros Hm Hk s. unfold step_bind. specialize (Hm s). destruct (m s) as [s1 [a|e]]; [|done].
  cbn in Hm. by rewrite Hk.
Qed.

Lemma quiet_run {A} (m : step Run A) : quiet (on_run m).
Proof. intros s. unfold on_run. by destruct (m (vs_run s)). Qed.

Lemma quiet_report n : quiet (report n).
Proof. intros s. unfold report. apply quiet_bind; [apply quiet_run|done]. Qed.

Lemma quiet_finish n : quiet (VerifySteps.finish n).
Proof. intros s. unfold VerifySteps.finish. apply quiet_bind; [apply quiet_run|done]. Qed.

Lemma quiet_phase name : quiet (phase name).
Proof. intros s. apply quiet_run. Qed.

Lemma quiet_cancel c : quiet (check_cancel c).
Proof. apply quiet_run. Qed.

Lemma quiet_lift {A} (r : result A) : quiet (lift r).
Proof. done. Qed.

Lemma quiet_failing {A} e (r : result A) : quiet (failing e r).
Proof. done. Qed.

Lemma quiet_on_report f : quiet (on_report f).
Proof. done. Qed.

Lemma quiet_checked p : quiet (checked p).
Proof. done. Qed.

Lemma quiet_looking {A} (f : Verifier.VerifyReport -> A) : quiet (looking f).
Proof. done. Qed.

Lemma quiet_ret {A} (a : A) : quiet (step_ret a).
Proof. done. Qed.

Lemma quiet_err {A} e : quiet (step_err (A := A) e).
Proof. done. Qed.

Create HintDb quiet.
#[local] Hint Resolve quiet_run quiet_report quiet_finish quiet_phase quiet_cancel quiet_lift quiet_failing
  quiet_on_report quiet_checked quiet_looking quiet_ret quiet_err : quiet.

Lemma triple_quiet {A} (m : step Verifying A) (R : VerificationRecorder -> Prop) :
  quiet m -> (forall r, R r -> Failable r) -> triple (on R) m (fun _ => on R) (on Failable).
Proof.
  intros Hm HR s (r & Hr & HRr). specialize (Hm s). destruct (m s) as [s1 [a|e]]; cbn in Hm; rewrite Hr in Hm.
  - by exists r.
  - exists r. split; [done|]. by apply HR.
Qed.

Lemma triple_record f (R R' : VerificationRecorder -> Prop) E :
  (forall r, R r -> R' (f r)) -> triple (on R) (record f) (fun _ => on R') E.
Proof. intros Hf s (r & Hr & HRr). exists (f r). cbn. rewrite Hr. auto. Qed.

Lemma triple_on_impl {A} (R R' : VerificationRecorder -> Prop) (m : step Verifying A) Q E :
  (forall r, R r -> R' r) -> triple (on R') m Q E -> triple (on R) m Q E.
Proof. intros HR Hm s (r & Hr & HRr). apply Hm. exists r. auto. Qed.

Lemma triple_post {A} P (m : step Verifying A) (R R' : VerificationRecorder -> Prop) E :
  (forall r, R' r -> R r) -> triple P m (fun _ => on R') E -> triple P m (fun _ => on R) E.
Proof. intros HR Hm. eapply triple_conseq; [exact Hm|done| |done]. intros _ s (r & Hr & HRr). exists r. auto. Qed.

Lemma contents_fail cov f r : Tracks (Some cov) (Contents f) r -> Failable r.
Proof. apply contents_failable. Qed.
Lemma structured_fail k r : Tracks None (structured k) r -> Failable r.
Proof. apply structured_failable. Qed.
#[local] Hint Resolve contents_fail structured_fail : quiet.

(** Split off a first step that records nothing. *)
Ltac quietly := eapply triple_bind; [apply triple_quiet; [auto with quiet|eauto with quiet]|intros ?].
Ltac recording := eapply triple_bind; [apply triple_record; intros ? ?|intros ?].

(** *** Walks keep what their visitor keeps *)
Section walks.
Context `{ByteSource Src} {V : Type} (visit : Z -> ChunkState -> step V unit) (I E : V -> Prop).
Context (Hvisit : forall i st, triple I (visit i st) (fun _ => I) E) (HE : forall v, I v -> E v).

Lemma triple_lift_keep {A} (r : result A) : triple I (lift r) (fun _ => I) E.
Proof. apply triple_lift; auto. Qed.

Lemma merged_turn_keeps (s : Z * list (Cursor Src)) : triple I (Cursors.merged_turn visit s) (fun _ => I) E.
Proof.
  destruct s as [i cs]. unfold Cursors.merged_turn. eapply (triple_bind _ _ _ (fun _ => I)); [apply triple_lift_keep|].
  intros [st cs']. eapply (triple_bind _ _ _ (fun _ => I)); [apply Hvisit|]. intros _. apply (triple_ret _ (fun _ => I)).
Qed.

Lemma own_turn_keeps own (s : Z * Cursor Src) : triple I (Cursors.own_turn visit own s) (fun _ => I) E.
Proof.
  destruct s as [i c]. unfold Cursors.own_turn. eapply (triple_bind _ _ _ (fun _ => I)); [apply triple_lift_keep|].
  intros [st c']. eapply (triple_bind _ _ _ (fun _ => I)).
  - unfold Cursors.visit_if_own. destruct st; try apply (triple_ret _ (fun _ => I)).
    destruct (_ =? _); [apply Hvisit|apply (triple_ret _ (fun _ => I))].
  - intros _. apply (triple_ret _ (fun _ => I)).
Qed.

Lemma walk_owns_keeps n cs : forall position, triple I (Cursors.walk_owns visit n position cs) (fun _ => I) E.
Proof.
  induction cs as [|c cs IH]; intros position; [apply (triple_ret _ (fun _ => I))|]. cbn [Cursors.walk_owns].
  eapply (triple_bind _ _ _ (fun _ => I)).
  - unfold Cursors.walk_own. eapply (triple_bind _ _ _ (fun _ => I)).
    + apply (triple_iterM _ _ (fun _ => I)). intros s. apply own_turn_keeps.
    + intros [i c']. apply (triple_ret _ (fun _ => I)).
  - intros c'. eapply (triple_bind _ _ _ (fun _ => I)); [apply IH|]. intros cs'. apply (triple_ret _ (fun _ => I)).
Qed.

Lemma walk_keeps own n size (cs : list (Cursor Src)) :
  triple I (Cursors.walk visit own n size cs) (fun _ => I) E.
Proof.
  unfold Cursors.walk. eapply (triple_bind _ _ _ (fun _ => I)); [apply triple_lift_keep|]. intros _.
  eapply (triple_bind _ _ _ (fun _ => I)).
  - destruct own; [apply walk_owns_keeps|]. unfold Cursors.walk_merged. eapply (triple_bind _ _ _ (fun _ => I)).
    + apply (triple_iterM _ _ (fun _ => I)). intros s. apply merged_turn_keeps.
    + intros [i cs']. apply (triple_ret _ (fun _ => I)).
  - intros cs'. eapply (triple_bind _ _ _ (fun _ => I)); [apply triple_lift_keep|]. intros _.
    destruct cs'; [apply (triple_ret _ (fun _ => I))|]. destruct (negb _); [|apply (triple_ret _ (fun _ => I))].
    intros v Hv. cbn. auto.
Qed.
End walks.

Lemma walk_with_keeps `{Primitives} {V} w own (visit : Z -> ChunkState -> ChunkAccess -> step V unit) (I E : V -> Prop) :
  (forall i st a, triple I (visit i st a) (fun _ => I) E) -> (forall v, I v -> E v) ->
  triple I (Walks.walk_with w own visit) (fun _ => I) E.
Proof.
  intros Hv HE. unfold Walks.walk_with. destruct (cw_members w); [intros v Hi; cbn; auto|].
  eapply (triple_bind _ _ _ (fun _ => I)); [by apply triple_lift_keep|]. intros aead.
  eapply (triple_bind _ _ _ (fun _ => I)); [by apply triple_lift_keep|]. intros cs. apply walk_keeps; auto.
Qed.

Context `{Primitives} `{Destination D} (d : D).

(** *** Structure *)
Lemma structured_at_fail k st r : Tracks None (structured_at k st) r -> Failable r.
Proof. intros Ht. left. eapply tracks_impl; [|exact Ht]. by intros i m []. Qed.
#[local] Hint Resolve structured_at_fail : quiet.

Lemma begin_structure_tracks k r :
  Tracks None (structured k) r -> Tracks None (structured_at k InProgress) (begin_structure (Z.of_nat k) r).
Proof.
  intros Ht. unfold begin_structure.
  assert (Tracks None (structured k) (at_stage Structure r)) as Ht' by (destruct Ht; by constructor).
  eapply tracks_member; [| |exact Ht']; rewrite Nat2Z.id.
  - intros m ((H1 & H2 & H3) & H4 & H5). split; [by split_and!|]. unfold structured_at, structuring. cbn.
    specialize (H5 ltac:(lia)). split_and!; try done; lia.
  - intros i m Hi ((H1 & H2 & H3) & H4 & H5). split_and!; try done. intros. apply H5. lia.
Qed.

Lemma set_structure_tracks k st st' r :
  st <> Complete -> st' <> NotRequested ->
  Tracks None (structured_at k st) r ->
  Tracks None (structured_at k st') (on_member (Z.of_nat k) (set_structure st') r).
Proof.
  intros Hst Hst' Ht. eapply tracks_member; [| |exact Ht]; rewrite Nat2Z.id.
  - intros m ((H1 & H2 & H3) & H4 & H5 & H6). destruct (H6 eq_refl) as [_ Hn]. specialize (Hn Hst).
    split; [by split_and!|]. unfold structured_at, structuring. cbn. rewrite Hn. split_and!; try done; lia.
  - intros i m Hi ((H1 & H2 & H3) & H4 & H5 & H6). split_and!; try done.
Qed.

Lemma note_structure_tracks k n r :
  Tracks None (structured_at k Complete) r ->
  Tracks None (structured_at k Complete) (note_structure (Z.of_nat k) n r).
Proof.
  intros Ht. eapply tracks_member; [| |exact Ht]; rewrite Nat2Z.id.
  - intros m ((H1 & H2 & H3) & H4 & H5 & H6). destruct (H6 eq_refl) as [Hs _].
    split; [by split_and!|]. unfold structured_at, structuring. cbn. split_and!; try done; lia.
  - intros i m Hi Hm. exact Hm.
Qed.

Lemma structured_next k r : Tracks None (structured_at k Complete) r -> Tracks None (structured (S k)) r.
Proof.
  apply tracks_impl. intros i m (H1 & H2 & H3 & H4). split_and!; [exact H1| |intros; apply H3; lia].
  intros Hi. destruct (decide (i = k)) as [->|]; [by apply H4|apply H2; lia].
Qed.

Lemma quiet_structure job name : quiet (member_structure d job name).
Proof.
  unfold member_structure. apply quiet_bind; [auto with quiet|]. intros _. repeat (apply quiet_bind; [auto with quiet|intros ?]).
  auto with quiet.
Qed.

Lemma verify_member_triple job k member :
  triple (on (Tracks None (structured k))) (verify_member d job (Z.of_nat k) member)
    (fun j s => j = Z.of_nat (S k) /\ on (Tracks None (structured (S k))) s) (on Failable).
Proof.
  unfold verify_member. recording; [by apply begin_structure_tracks|].
  eapply (triple_bind _ _ _ (fun _ => on (Tracks None (structured_at k InProgress)))).
  { intros s (r & Hr & Ht). unfold or_fail_structure. pose proof (quiet_structure job (cm_file_name member) s) as Hq.
    destruct (member_structure _ _ _ s) as [s1 [v|e]]; cbn in Hq; rewrite Hr in Hq; [by exists r|].
    exists (fail_structure (Z.of_nat k) r). cbn. rewrite Hq. split; [done|].
    apply (structured_at_fail k Failed). by apply (set_structure_tracks k InProgress). }
  intros [pages encrypted].
  recording; [by apply (set_structure_tracks k InProgress Complete)|]. quietly.
  eapply (triple_bind _ _ _ (fun _ => on (Tracks None (structured_at k Complete)))).
  - destruct (encrypted && _); [|apply (triple_ret tt (fun _ => on _))].
    recording; [by apply note_structure_tracks|]. apply triple_quiet; eauto with quiet.
  - intros _ s (r & Hr & Ht). cbn. split; [lia|]. exists r. split; [done|]. by apply structured_next.
Qed.

Lemma verify_members_triple job members : forall k,
  triple (on (Tracks None (structured k))) (step_fold (verify_member d job) members (Z.of_nat k))
    (fun _ => on (Tracks None (structured (k + length members)))) (on Failable).
Proof.
  induction members as [|m members IH]; intros k; cbn [step_fold length].
  - rewrite Nat.add_0_r. apply (triple_ret _ (fun _ => on _)).
  - eapply triple_bind; [apply verify_member_triple|]. intros j s [-> Hs].
    replace (k + S (length members))%nat with (S k + length members)%nat by lia. by apply IH.
Qed.

(** *** Content stages, each told by a predicate *)
Definition stages (rp refs ev dk : nat -> MemberStage -> Prop) (i : nat) (c : MemberContentStages) : Prop :=
  rp i (mc_recovery_point c) /\ refs i (mc_referenced_payloads c) /\
  ev i (mc_every_stored_payload c) /\ dk i (mc_disk_region_payloads c).

Definition all (s : MemberStage) (i : nat) (x : MemberStage) : Prop := x = s.
(** The last member differs. *)
Definition sel (s t : MemberStage) (i : nat) (x : MemberStage) : Prop :=
  x = if bool_decide (S i = length ms0) then s else t.
Definition opened_refs (i : nat) (x : MemberStage) : Prop := x = NotStarted \/ x = InProgress.

#[local] Abbreviation Stages cov rp refs ev dk := (Tracks (Some cov) (Contents (stages rp refs ev dk))).

Lemma set_recovery_tracks cov (rp rp' refs ev dk : nat -> MemberStage -> Prop) k st r :
  st <> NotRequested -> rp' (Z.to_nat k) st -> (forall i x, i <> Z.to_nat k -> rp i x -> rp' i x) ->
  Stages cov rp refs ev dk r ->
  Stages cov rp' refs ev dk (on_member k (with_content (set_recovery_point st)) r).
Proof.
  intros Hst Hk Hi. apply contents_member.
  - intros c (H1 & H2 & H3 & H4). split; [by split_and!|done].
  - intros i c Hne (H1 & H2 & H3 & H4). split_and!; auto.
Qed.

Lemma set_every_tracks cov (rp refs ev ev' dk : nat -> MemberStage -> Prop) k st r :
  ev' (Z.to_nat k) st -> (forall i x, i <> Z.to_nat k -> ev i x -> ev' i x) ->
  Stages cov rp refs ev dk r -> Stages cov rp refs ev' dk (on_member k (with_content (set_every_stored st)) r).
Proof.
  intros Hk Hi. apply contents_member.
  - intros c (H1 & H2 & H3 & H4). split; [by split_and!|done].
  - intros i c Hne (H1 & H2 & H3 & H4). split_and!; auto.
Qed.

Lemma set_disk_tracks cov (rp refs ev dk dk' : nat -> MemberStage -> Prop) k st r :
  dk' (Z.to_nat k) st -> (forall i x, i <> Z.to_nat k -> dk i x -> dk' i x) ->
  Stages cov rp refs ev dk r -> Stages cov rp refs ev dk' (on_member k (with_content (set_disk_regions st)) r).
Proof.
  intros Hk Hi. apply contents_member.
  - intros c (H1 & H2 & H3 & H4). split; [by split_and!|done].
  - intros i c Hne (H1 & H2 & H3 & H4). split_and!; auto.
Qed.

Lemma all_every_tracks cov (rp refs ev dk : nat -> MemberStage -> Prop) st r :
  Stages cov rp refs ev dk r -> Stages cov rp refs (all st) dk (on_members (map (with_content (set_every_stored st))) r).
Proof. apply contents_all. intros i c (H1 & H2 & H3 & H4). split; [by split_and!|done]. Qed.

Lemma begin_reference_tracks cov (rp ev dk : nat -> MemberStage -> Prop) k r :
  Stages cov rp opened_refs ev dk r -> Stages cov rp opened_refs ev dk (begin_referenced_payload k r).
Proof.
  apply contents_member; [|done]. intros c (H1 & H2 & H3 & H4). unfold begin_reference.
  destruct H2 as [E|E]; rewrite E; cbn; (split; [split_and!; try done; by right|done]).
Qed.

Lemma complete_references_tracks cov (rp ev dk : nat -> MemberStage -> Prop) r :
  Stages cov rp opened_refs ev dk r -> Stages cov rp (all Complete) ev dk (complete_referenced_payloads r).
Proof.
  apply contents_all. intros i c (H1 & H2 & H3 & H4). unfold complete_reference.
  destruct H2 as [E|E]; rewrite E; by split.
Qed.

Lemma stages_impl cov (rp refs ev dk rp' refs' ev' dk' : nat -> MemberStage -> Prop) r :
  (forall i x, rp i x -> rp' i x) -> (forall i x, refs i x -> refs' i x) ->
  (forall i x, ev i x -> ev' i x) -> (forall i x, dk i x -> dk' i x) ->
  Stages cov rp refs ev dk r -> Stages cov rp' refs' ev' dk' r.
Proof. intros A B C E. apply contents_impl. intros i c (H1 & H2 & H3 & H4). split_and!; auto. Qed.

(** What [begin_content] asks for, once every structure is verified. *)
Lemma begin_content_tracks cov n r :
  Z.to_nat n = length ms0 -> 0 < n -> Tracks None (structured (length ms0)) r ->
  Tracks (Some cov) (Contents (fun i c => c = begin_stages cov (bool_decide (S i = length ms0)) stages_pending))
    (begin_content cov n r).
Proof.
  intros Hn Hpos [Hh Hc Hl Hm]. unfold begin_content.
  set (r1 := {| vr_observation := set_coverage cov (vr_observation r); vr_stage := Content |}).
  assert (Tracks (Some cov) (structured (length ms0)) r1) as Ht by by constructor.
  replace (Z.to_nat (Z.max 0 (n - 1))) with (pred (length ms0)) by lia.
  pose proof (tr_length _ _ _ _ _ Ht) as Hl1.
  constructor; [apply Ht|apply Ht| |].
  { cbn [on_members vr_observation with_members vo_members]. by rewrite length_imap. }
  intros i m0 m H1 H2. cbn [on_members vr_observation with_members vo_members] in H2.
  rewrite list_lookup_imap in H2. destruct (vo_members (vr_observation r1) !! i) as [m'|] eqn:E; [|done].
  injection H2 as <-. destruct (tr_members _ _ _ _ _ Ht i m0 m' H1 E) as [Hs ((H3 & H4 & H5) & H6 & H7)].
  apply lookup_lt_Some in H1. specialize (H6 H1). unfold contents_are, with_content. cbn [mo_structure mo_content].
  assert (bool_decide (i = pred (length ms0)) = bool_decide (S i = length ms0)) as ->
    by (apply bool_decide_ext; lia). rewrite H3. split; [done|]. split_and!; [done|done|].
  intros Hi. rewrite bool_decide_true by done. by destruct cov.
Qed.

(** Its stages, kind by kind. *)
Lemma begin_block_stages cov n every r :
  cov = content_coverage Block false every ->
  Z.to_nat n = length ms0 -> 0 < n -> Tracks None (structured (length ms0)) r ->
  Stages cov (sel NotStarted NotRequested) (all NotStarted) (all (if every then NotStarted else NotRequested))
    (all NotRequested) (begin_content cov n r).
Proof.
  intros -> Hn Hp Ht. eapply contents_impl; [|by apply begin_content_tracks].
  intros i c ->. unfold stages, sel, all. by destruct every, (bool_decide _).
Qed.

Lemma begin_file_stages cov n every r :
  cov = content_coverage File false every ->
  Z.to_nat n = length ms0 -> 0 < n -> Tracks None (structured (length ms0)) r ->
  Stages cov (if every then all NotStarted else sel NotStarted NotRequested) (all NotStarted) (all NotRequested)
    (all NotRequested) (begin_content cov n r).
Proof.
  intros -> Hn Hp Ht. eapply contents_impl; [|by apply begin_content_tracks].
  intros i c ->. unfold stages, sel, all. by destruct every, (bool_decide _).
Qed.

Lemma begin_stream_stages cov n every r :
  cov = content_coverage Stream false every ->
  Z.to_nat n = length ms0 -> 0 < n -> Tracks None (structured (length ms0)) r ->
  let f := if every then all NotStarted else sel NotStarted NotRequested in
  Stages cov f (all NotRequested) f (all NotRequested) (begin_content cov n r).
Proof.
  intros -> Hn Hp Ht. eapply contents_impl; [|by apply begin_content_tracks].
  intros i c ->. unfold stages, sel, all. by destruct every, (bool_decide _).
Qed.

Lemma begin_disk_stages n r :
  Z.to_nat n = length ms0 -> 0 < n -> Tracks None (structured (length ms0)) r ->
  Stages WholeDiskRegionsAndLayout (sel NotStarted NotRequested) (all NotRequested) (all NotRequested)
    (sel NotStarted NotRequested) (begin_content WholeDiskRegionsAndLayout n r).
Proof.
  intros Hn Hp Ht. eapply contents_impl; [|by apply begin_content_tracks].
  intros i c ->. unfold stages, sel, all. by destruct (bool_decide _).
Qed.

(** When the stages reached are those a coverage promises. *)
Definition settled (cov : ContentCoverage) (r : VerificationRecorder) : Prop :=
  Tracks (Some cov) (Contents (fun i c => stages_match cov (bool_decide (S i = length ms0)) c = true)) r.

Lemma settled_fail cov r : settled cov r -> Failable r.
Proof. apply contents_failable. Qed.
#[local] Hint Resolve settled_fail : quiet.

(** *** Block chains *)
Lemma triple_shared {L A} (m : step Verifying A) R R' E :
  triple (on R) m (fun _ => on R') (on E) ->
  triple (fun x : Verifying * L => on R (fst x)) (shared m) (fun _ x => on R' (fst x)) (fun x => on E (fst x)).
Proof.
  intros Hm [s l] Hs. unfold shared. specialize (Hm s Hs). by destruct (m s) as [s1 [v|e]].
Qed.

Lemma triple_locally {L A} (l : L) (m : step (Verifying * L) A) R R' E :
  triple (fun x : Verifying * L => on R (fst x)) m (fun _ x => on R' (fst x)) (fun x => on E (fst x)) ->
  triple (on R) (locally l m) (fun _ => on R') (on E).
Proof.
  intros Hm s Hs. unfold locally. specialize (Hm (s, l) Hs). by destruct (m (s, l)) as [[s1 l1] [v|e]].
Qed.

Lemma visit_merged_triple cov rp ev dk size i st access :
  let I := fun x : Verifying * BadCount => on (Stages cov rp opened_refs ev dk) (fst x) in
  triple I (visit_merged size i st access) (fun _ => I) (fun x => on Failable (fst x)).
Proof.
  cbv zeta. unfold visit_merged. eapply (triple_bind _ _ _ (fun _ x => on (Stages cov rp opened_refs ev dk) (fst x))).
  - apply triple_shared, triple_quiet; [auto with quiet|]. intros. by eapply contents_failable.
  - intros _. destruct st as [| |member hash offset len|].
    + intros x Hx. exact Hx.
    + intros x Hx. exact Hx.
    + apply triple_shared. recording; [by apply begin_reference_tracks|]. quietly. by apply triple_quiet; eauto with quiet.
    + intros [s b] Hx. exact Hx.
Qed.

Lemma quiet_visit_own i st access : quiet (visit_own i st access).
Proof.
  unfold visit_own. repeat (apply quiet_bind; [auto with quiet|intros ?]). destruct st; auto with quiet.
  apply quiet_bind; auto with quiet.
Qed.

Lemma index_last (members : list ChainMemberFile) :
  length members = length ms0 -> ms0 <> [] -> Z.to_nat (target_index members) = pred (length ms0).
Proof. intros Hl Hn. unfold target_index, zlen. rewrite Hl. destruct ms0; [done|]. cbn. lia. Qed.

(** The recovery point of the selected member goes from one stage to another. *)
Lemma sel_recovery cov s s' refs ev dk members r :
  length members = length ms0 -> ms0 <> [] -> s' <> NotRequested ->
  Stages cov (sel s NotRequested) refs ev dk r ->
  Stages cov (sel s' NotRequested) refs ev dk
    (on_member (target_index members) (with_content (set_recovery_point s')) r).
Proof.
  intros Hl Hn Hs. assert (length ms0 <> 0%nat) by (by destruct ms0).
  apply set_recovery_tracks; [done|..]; rewrite (index_last members Hl Hn); unfold sel.
  - by rewrite bool_decide_true by lia.
  - intros i x Hi. by rewrite !bool_decide_false by lia.
Qed.

Lemma verify_block_chain_triple members encryption every :
  let cov := content_coverage Block false every in
  length members = length ms0 -> ms0 <> [] ->
  triple (on (Stages cov (sel NotStarted NotRequested) (all NotStarted)
      (all (if every then NotStarted else NotRequested)) (all NotRequested)))
    (verify_block_chain d members encryption every) (fun _ => on (settled cov)) (on Failable).
Proof.
  intros cov Hl Hn. unfold verify_block_chain. recording; [by apply (sel_recovery cov NotStarted InProgress)|].
  quietly. quietly.
  eapply (triple_bind _ _ _ (fun _ => on (Stages cov (sel InProgress NotRequested) opened_refs
    (all (if every then NotStarted else NotRequested)) (all NotRequested)))).
  { apply triple_locally. eapply triple_conseq; [apply (walk_with_keeps _ false)| |intros ? x Hx; exact Hx|intros x Hx; exact Hx].
    - intros i st access. apply visit_merged_triple.
    - intros x (r & Hr & Ht). exists r. split; [done|]. by eapply contents_failable.
    - intros [s b] (r & Hr & Ht). exists r. split; [done|].
      eapply stages_impl; [..|exact Ht]; auto. intros i x ->. by left. }
  intros [_ [bad first_bad]]. recording; [by apply complete_references_tracks|].
  recording; [by apply (sel_recovery cov InProgress Complete)|]. quietly. destruct every; cbn [negb].
  - recording; [by eapply all_every_tracks|].
    eapply (triple_bind _ _ _ (fun _ => on (Stages cov (sel Complete NotRequested) (all Complete) (all InProgress) (all NotRequested)))).
    { apply (walk_with_keeps _ true).
      - intros i st access. apply triple_quiet; [apply quiet_visit_own|]. intros r. apply contents_failable.
      - intros s (r & Hr & Ht). exists r. split; [done|]. by eapply contents_failable. }
    intros _. apply triple_record. intros r Hr. apply (all_every_tracks _ _ _ _ _ Complete) in Hr.
    eapply contents_impl; [|exact Hr]. intros i c (H1 & H2 & H3 & H4). unfold stages_match. cbn.
    unfold sel, all in *. rewrite H1, H2, H3, H4. by destruct (bool_decide _).
  - intros s (r & Hr & Ht). exists r. split; [done|]. eapply contents_impl; [|exact Ht].
    intros i c (H1 & H2 & H3 & H4). unfold stages_match. cbn.
    unfold sel, all in *. rewrite H1, H2, H3, H4. by destruct (bool_decide _).
Qed.

(** *** Whole disks *)
Lemma quiet_step_fold {S A} (f : S -> A -> step Verifying S) l :
  (forall s x, quiet (f s x)) -> forall s, quiet (step_fold f l s).
Proof.
  intros Hf. induction l as [|x l IH]; intros s; cbn [step_fold]; [auto with quiet|].
  apply quiet_bind; [apply Hf|apply IH].
Qed.

Lemma quiet_step_iterM {S} n (f : S -> step Verifying S) : (forall s, quiet (f s)) -> forall s, quiet (step_iterM n f s).
Proof.
  intros Hf s. destruct n as [|q|q]; cbn [step_iterM]; [auto with quiet| |auto with quiet]. revert s.
  induction q as [q IH|q IH|]; intros s; cbn [pos_step_iterM]; [| |apply Hf].
  - apply quiet_bind; [apply Hf|]. intros. by apply quiet_bind.
  - by apply quiet_bind.
Qed.

Lemma quiet_region_entry sb kind keys chunks wire : quiet (verify_region_entry sb kind keys chunks wire).
Proof.
  unfold verify_region_entry. do 3 (apply quiet_bind; [auto with quiet|intros ?]). destruct a1 as [entry w].
  destruct (negb _); [auto with quiet|]. repeat (apply quiet_bind; [auto with quiet|intros ?]). auto with quiet.
Qed.

Lemma quiet_region sb kind keys chunks wire region : quiet (verify_region sb kind keys chunks wire region).
Proof.
  unfold verify_region. destruct (negb _); [auto with quiet|]. apply quiet_bind; [auto with quiet|].
  intros [[header delta] w]. apply quiet_step_iterM. apply quiet_region_entry.
Qed.

Lemma verify_whole_disk_triple name encryption members :
  length members = length ms0 -> length ms0 = 1%nat ->
  triple (on (Stages WholeDiskRegionsAndLayout (sel NotStarted NotRequested) (all NotRequested)
      (all NotRequested) (sel NotStarted NotRequested)))
    (verify_whole_disk d name encryption (target_index members))
    (fun _ => on (settled WholeDiskRegionsAndLayout)) (on Failable).
Proof.
  intros Hl H1. assert (ms0 <> []) as Hn by (by destruct ms0). unfold verify_whole_disk.
  recording; [by apply (sel_recovery WholeDiskRegionsAndLayout NotStarted InProgress)|]. quietly. quietly. quietly. quietly.
  recording; [by apply (sel_recovery WholeDiskRegionsAndLayout InProgress Complete)|].
  assert (forall s s' rp refs ev r, Stages WholeDiskRegionsAndLayout rp refs ev (sel s NotRequested) r ->
    Stages WholeDiskRegionsAndLayout rp refs ev (sel s' NotRequested)
      (on_member (target_index members) (with_content (set_disk_regions s')) r)) as Hdisk.
  { intros s s' rp refs ev r. apply set_disk_tracks; rewrite (index_last members Hl Hn); unfold sel.
    - by rewrite bool_decide_true by lia.
    - intros i x Hi. by rewrite !bool_decide_false by lia. }
  recording; [by apply (Hdisk NotStarted InProgress)|]. do 4 quietly. quietly. match goal with x : (DiskHeader * PageStreamReader)%type |- _ => destruct x as [disk wire] end.
  quietly. eapply triple_bind; [apply triple_quiet; [apply quiet_step_fold, quiet_region|eauto with quiet]|]. intros ?.
  apply triple_record. intros r Hr. apply (Hdisk InProgress Complete) in Hr.
  eapply contents_impl_lt; [|exact Hr]. intros i c Hi (E1 & E2 & E3 & E4). unfold stages_match. cbn.
  unfold sel, all in *. rewrite bool_decide_true in * by lia. by rewrite E1, E2, E3, E4.
Qed.

(** *** File trees *)
Lemma triple_fold {S A} (f : S -> A -> step Verifying S) l (I E : Verifying -> Prop) :
  (forall s x, triple I (f s x) (fun _ => I) E) -> forall s, triple I (step_fold f l s) (fun _ => I) E.
Proof.
  intros Hf. induction l as [|x l IH]; intros s; cbn [step_fold]; [apply (triple_ret s (fun _ => I))|].
  eapply (triple_bind _ _ _ (fun _ => I)); [apply Hf|apply IH].
Qed.

Lemma verify_reference_keeps opened index record_ position hash cov rp ev dk :
  triple (on (Stages cov rp opened_refs ev dk)) (verify_reference opened index record_ position hash)
    (fun _ => on (Stages cov rp opened_refs ev dk)) (on Failable).
Proof.
  unfold verify_reference. destruct (BMap.get hash index) as [[owner offset]|].
  - recording; [by apply begin_reference_tracks|]. do 7 quietly. apply triple_quiet; eauto with quiet.
  - apply triple_quiet; eauto with quiet.
Qed.

Lemma verify_record_keeps opened index record_ cov rp ev dk :
  triple (on (Stages cov rp opened_refs ev dk)) (verify_record opened index record_)
    (fun _ => on (Stages cov rp opened_refs ev dk)) (on Failable).
Proof.
  unfold verify_record. eapply (triple_bind _ _ _ (fun _ => on (Stages cov rp opened_refs ev dk))).
  - apply triple_fold. intros. apply verify_reference_keeps.
  - intros position. destruct (_ && _); apply triple_quiet; eauto with quiet.
Qed.

(** Of the trees [ts], those of [P] have been read. *)
Definition walked (ts : list Z) (P : Z -> Prop) (i : nat) (x : MemberStage) : Prop :=
  (P (Z.of_nat i) -> x = Complete) /\ (Z.of_nat i ∉ ts -> x = NotRequested).

Lemma verify_tree_triple opened index cov ts (P : Z -> Prop) z :
  z ∈ ts -> 0 <= z ->
  triple (on (Stages cov (walked ts P) opened_refs (all NotRequested) (all NotRequested)))
    (verify_tree opened index z)
    (fun _ => on (Stages cov (walked ts (fun y => P y \/ y = z)) opened_refs (all NotRequested) (all NotRequested)))
    (on Failable).
Proof.
  intros Hz H0z. unfold verify_tree. recording.
  { apply (set_recovery_tracks cov (walked ts P) (walked ts (fun y => P y /\ y <> z))); [done|..|eassumption].
    - split; [intros [_ Hne]; lia|]. intros Hn. rewrite Z2Nat.id in Hn by lia. done.
    - intros i x _ [A1 A2]. split; [intros [Hp _]; auto|auto]. }
  do 5 quietly.
  eapply (triple_bind _ _ _ (fun _ => on (Stages cov (walked ts (fun y => P y /\ y <> z)) opened_refs (all NotRequested) (all NotRequested)))).
  { apply triple_iter. intros. apply verify_record_keeps. }
  intros ?. apply triple_record. intros r Hr.
  apply (set_recovery_tracks cov (walked ts (fun y => P y /\ y <> z))); [done|..|exact Hr].
  - split; [done|]. intros Hn. rewrite Z2Nat.id in Hn by lia. done.
  - intros i x Hi [A1 A2]. split; [|done]. intros [Hp|Hp]; [|lia]. apply A1. split; [done|lia].
Qed.

Lemma verify_trees_triple opened index cov ts l : forall (P : Z -> Prop),
  Forall (fun z => z ∈ ts /\ 0 <= z) l ->
  triple (on (Stages cov (walked ts P) opened_refs (all NotRequested) (all NotRequested)))
    (step_iter (verify_tree opened index) l)
    (fun _ => on (Stages cov (walked ts (fun y => P y \/ y ∈ l)) opened_refs (all NotRequested) (all NotRequested)))
    (on Failable).
Proof.
  induction l as [|z l IH]; intros P Hl; cbn [step_iter].
  - intros s (r & Hr & Ht). exists r. split; [done|]. eapply stages_impl; [..|exact Ht]; auto.
    intros i x [A1 A2]. split; [|done]. intros [Hp|Hp]; [auto|by apply elem_of_nil in Hp].
  - inversion Hl as [|? ? [Hz H0z] Hl']; subst.
    eapply triple_bind; [by apply verify_tree_triple|]. intros ?. eapply triple_post; [|by apply IH].
    intros r Ht. eapply stages_impl; [..|exact Ht]; auto.
    intros i x [A1 A2]. split; [|done]. intros Hp. apply A1. rewrite elem_of_cons in Hp. tauto.
Qed.

Lemma collectM_length {A B} (f : A -> result B) l ys : collectM f l = Ok ys -> length ys = length l.
Proof. intros Hc. apply collectM_Forall2 in Hc. symmetry. by eapply Forall2_length. Qed.

Lemma open_chain_length files encryption opened :
  Members.open_chain d files encryption = Ok opened -> length opened = length files.
Proof.
  unfold Members.open_chain. destruct files as [|f files]; [done|]. intros Ho.
  apply bind_Ok in Ho as (readers & Hr & Ho). destruct readers as [|r0 rs0] eqn:Er; [done|]. rewrite <- Er in *.
  apply bind_Ok in Ho as ([key enc] & _ & Ho). apply collectM_length in Hr, Ho. rewrite Ho, length_combine, Hr. lia.
Qed.

Lemma verify_file_triple members encryption every :
  let cov := content_coverage File false every in
  length members = length ms0 -> ms0 <> [] ->
  triple (on (Stages cov (if every then all NotStarted else sel NotStarted NotRequested) (all NotStarted)
      (all NotRequested) (all NotRequested)))
    (verify_file d members encryption every) (fun _ => on (settled cov)) (on Failable).
Proof.
  intros cov Hl Hn. assert (length ms0 <> 0%nat) as Hlen by (by destruct ms0). unfold verify_file.
  eapply (triple_bind _ _ _ (fun opened s => length opened = length ms0 /\
    on (Stages cov (if every then all NotStarted else sel NotStarted NotRequested) (all NotStarted)
      (all NotRequested) (all NotRequested)) s)).
  { apply triple_lift.
    - intros s (r & Hr & Ht). exists r. split; [done|]. by eapply contents_failable.
    - intros opened s Ho Hs. apply open_chain_length in Ho. split; [congruence|done]. }
  intros opened s0 [Ho Hs0]. revert s0 Hs0.
  set (ts := if every then seqZ 0 (zlen opened) else [Z.max 0 (zlen opened - 1)]).
  assert (forall i, (i < length ms0)%nat -> Z.of_nat i ∈ ts <-> every = true \/ S i = length ms0) as Hts.
  { intros i Hi. unfold ts, zlen. rewrite Ho. destruct every.
    - rewrite elem_of_seqZ. split; [by left|lia].
    - rewrite list_elem_of_singleton. split; [right; lia|]. intros [|Hi']; [done|lia]. }
  assert (Forall (fun z => z ∈ ts /\ 0 <= z) ts) as Hall.
  { apply Forall_forall. intros z Hz. split; [done|]. unfold ts in Hz. destruct every.
    - apply elem_of_seqZ in Hz. lia.
    - apply list_elem_of_singleton in Hz. lia. }
  change (triple (on (Stages cov (if every then all NotStarted else sel NotStarted NotRequested) (all NotStarted)
      (all NotRequested) (all NotRequested)))
    (do* index := lift (hash_index 0 opened []) in
     do* _ := step_iter (verify_tree opened index) ts in record complete_referenced_payloads)
    (fun _ => on (settled cov)) (on Failable)).
  quietly.
  eapply triple_bind.
  { eapply triple_on_impl; [|apply (verify_trees_triple opened _ cov ts ts (fun _ => False)); exact Hall].
    intros r Ht. eapply contents_impl_lt; [|exact Ht]. intros i c Hi (E1 & E2 & E3 & E4). split_and!; try done; [|by left].
    split; [done|]. intros Hni. specialize (Hts i Hi). destruct every; [exfalso; apply Hni, Hts; by left|].
    unfold sel in E1. rewrite E1, bool_decide_false; [done|]. intros Hi'. apply Hni, Hts. by right. }
  intros ?. apply triple_record. intros r Hr. apply complete_references_tracks in Hr.
  eapply contents_impl_lt; [|exact Hr]. intros i c Hi ([A1 A2] & E2 & E3 & E4). specialize (Hts i Hi).
  unfold stages_match, all in *. rewrite E2, E3, E4. destruct every; cbn.
  - by rewrite A1 by (right; apply Hts; by left).
  - case_bool_decide as Hi'.
    + by rewrite A1 by (right; apply Hts; by right).
    + rewrite A2; [done|]. intros Hc. apply Hts in Hc as [|]; done.
Qed.

(** *** Stream images *)
Lemma quiet_while_left {A} (body : A * bytes -> step Verifying (A * bytes)) :
  (forall x, quiet (body x)) -> forall fuel x b, quiet (while_left fuel body x b).
Proof.
  intros Hb. induction fuel as [|fuel IH]; intros x b; destruct b; cbn [while_left]; auto with quiet.
  apply quiet_bind; [apply Hb|]. intros [x' b']. apply IH.
Qed.

Lemma quiet_section kind keys chunks loop : quiet (verify_section kind keys chunks loop).
Proof.
  destruct loop as [u wire]. unfold verify_section. apply quiet_bind; [auto with quiet|]. intros [section w].
  apply quiet_bind; [|auto with quiet]. apply quiet_step_iterM. intros w1. unfold verify_stream_entry.
  apply quiet_bind; [auto with quiet|]. intros [entry w2]. destruct (negb _); [auto with quiet|].
  repeat (apply quiet_bind; [auto with quiet|intros ?]). auto with quiet.
Qed.

(** Of the members from [off] on, those before [k] are done. *)
Definition passed (off k i : nat) (x : MemberStage) : Prop :=
  ((off <= i < k)%nat -> x = Complete) /\ ((i < off)%nat -> x = NotRequested).

Lemma passed_touch off k st i x : (off <= k)%nat -> (i <> k -> passed off k i x) -> i = k -> passed off k i st.
Proof. intros Ho _ ->. split; lia. Qed.

Lemma verify_stream_member_triple encryption member cov off k :
  (off <= k)%nat ->
  triple (on (Stages cov (passed off k) (all NotRequested) (passed off k) (all NotRequested)))
    (verify_stream_member d encryption (Z.of_nat k) member)
    (fun j s => j = Z.of_nat (S k) /\
      on (Stages cov (passed off (S k)) (all NotRequested) (passed off (S k)) (all NotRequested)) s)
    (on Failable).
Proof.
  intros Ho.
  assert (forall st, passed off k (Z.to_nat (Z.of_nat k)) st) as Hk by (intros st; rewrite Nat2Z.id; split; lia).
  assert (passed off (S k) (Z.to_nat (Z.of_nat k)) Complete) as Hk1 by (rewrite Nat2Z.id; split; [done|lia]).
  assert (forall i x, i <> Z.to_nat (Z.of_nat k) -> passed off k i x -> passed off (S k) i x) as Hi.
  { intros i x Hne [A1 A2]. rewrite Nat2Z.id in Hne. split; [intros; apply A1; lia|auto]. }
  unfold verify_stream_member. recording; [by apply (set_recovery_tracks cov (passed off k) (passed off k))|].
  recording; [by apply (set_every_tracks cov (passed off k) (all NotRequested) (passed off k) (passed off k))|].
  do 7 quietly.
  eapply triple_bind; [apply triple_quiet; [apply quiet_while_left, quiet_section|eauto with quiet]|]. intros ?.
  quietly.
  recording; [by apply (set_recovery_tracks cov (passed off k) (passed off (S k)))|].
  recording; [by apply (set_every_tracks cov (passed off (S k)) (all NotRequested) (passed off k) (passed off (S k)))|].
  intros s Hs. cbn. split; [lia|done].
Qed.

Lemma verify_stream_members_triple encryption cov off members : forall k,
  (off <= k)%nat ->
  triple (on (Stages cov (passed off k) (all NotRequested) (passed off k) (all NotRequested)))
    (step_fold (verify_stream_member d encryption) members (Z.of_nat k))
    (fun _ => on (Stages cov (passed off (k + length members)) (all NotRequested)
      (passed off (k + length members)) (all NotRequested))) (on Failable).
Proof.
  induction members as [|m members IH]; intros k Ho; cbn [step_fold length].
  - rewrite Nat.add_0_r. apply (triple_ret _ (fun _ => on _)).
  - eapply triple_bind; [by apply verify_stream_member_triple|]. intros j s [-> Hs].
    replace (k + S (length members))%nat with (S k + length members)%nat by lia. apply IH; [lia|done].
Qed.

Lemma verify_stream_triple encryption every members :
  let cov := content_coverage Stream false every in
  let f := if every then all NotStarted else sel NotStarted NotRequested in
  length members = length ms0 -> ms0 <> [] ->
  triple (on (Stages cov f (all NotRequested) f (all NotRequested)))
    (verify_stream d (if every then members else drop (length members - 1) members)
      (if every then 0 else target_index members) encryption)
    (fun _ => on (settled cov)) (on Failable).
Proof.
  intros cov f Hl Hn. assert (length ms0 <> 0%nat) as Hlen by (by destruct ms0).
  set (off := if every then 0%nat else (length ms0 - 1)%nat).
  assert ((if every then 0 else target_index members) = Z.of_nat off) as ->.
  { unfold off, target_index, zlen. destruct every; [done|]. rewrite Hl. lia. }
  set (own := if every then members else drop (length members - 1) members).
  assert (off + length own = length ms0)%nat as Hoff.
  { unfold off, own. destruct every; [lia|]. rewrite length_drop. lia. }
  unfold verify_stream. eapply triple_bind.
  { eapply triple_on_impl; [|by apply (verify_stream_members_triple encryption cov off own off)].
    intros r Ht. eapply contents_impl_lt; [|exact Ht]. intros i c Hi (E1 & E2 & E3 & E4).
    assert (forall x, f i x -> passed off off i x) as Hp.
    { intros x Hx. split; [lia|]. unfold off. intros Hi'. unfold f in Hx. destruct every; [lia|].
      unfold sel in Hx. by rewrite Hx, bool_decide_false by lia. }
    split_and!; auto. }
  intros ? s (r & Hr & Ht). exists r. split; [done|]. rewrite Hoff in Ht.
  eapply contents_impl_lt; [|exact Ht]. intros i c Hi ([A1 A2] & E2 & [A3 A4] & E4).
  unfold stages_match, all in *. rewrite E2, E4. unfold off in *. destruct every; cbn.
  - by rewrite A1, A3 by lia.
  - case_bool_decide as Hi'.
    + by rewrite A1, A3 by lia.
    + by rewrite A2, A4 by lia.
Qed.

(** *** The whole verification *)
Definition is_disk (target : Superblock) : bool := bool_decide (image_kind target = Block) && is_whole_disk target.

Definition coverage_of (target : Superblock) (request : VerifyRequest) : ContentCoverage :=
  content_coverage (image_kind target) (is_disk target) (vq_chain request).

Lemma verify_content_triple members name target request :
  length members = length ms0 -> ms0 <> [] -> (is_disk target = true -> length ms0 = 1%nat) ->
  triple (on (Tracks None (structured (length ms0)))) (verify_content d members name target request)
    (fun _ => on (settled (coverage_of target request))) (on Failable).
Proof.
  intros Hl Hn Hd. unfold verify_content, coverage_of, is_disk in *.
  assert (Z.to_nat (zlen members) = length ms0 /\ 0 < zlen members) as [Hz Hp].
  { unfold zlen. rewrite Hl. destruct ms0; [done|]. cbn. lia. }
  destruct (image_kind target) eqn:Ek; cbn [bool_decide decide andb] in *.
  - destruct (is_whole_disk target) eqn:Ew; cbn [andb] in *.
    + eapply triple_bind; [apply triple_record; intros r Hr; by apply begin_disk_stages|]. intros ?.
      by apply verify_whole_disk_triple; auto.
    + eapply triple_bind; [apply triple_record; intros r Hr; by eapply (begin_block_stages _ _ (vq_chain request))|].
      intros ?. by apply verify_block_chain_triple.
  - eapply triple_bind; [apply triple_record; intros r Hr; by eapply (begin_stream_stages _ _ (vq_chain request))|].
    intros ?. by apply verify_stream_triple.
  - eapply triple_bind; [apply triple_record; intros r Hr; by eapply (begin_file_stages _ _ (vq_chain request))|].
    intros ?. by apply verify_file_triple.
Qed.

Lemma verify_phases_triple members name target job :
  length members = length ms0 -> ms0 <> [] -> (is_disk target = true -> length ms0 = 1%nat) ->
  triple (on (Tracks None (structured 0))) (verify_phases d members name target job)
    (fun _ => on (settled (coverage_of target (vj_request job)))) (on Failable).
Proof.
  intros Hl Hn Hd. unfold verify_phases. quietly.
  eapply triple_bind; [apply (verify_members_triple job members 0)|]. intros ?. rewrite Hl. cbn [Nat.add].
  quietly. eapply (triple_bind _ _ _ (fun _ => on (Tracks None (structured (length ms0))))).
  { apply triple_record. intros r [Hh Hc Hl' Hm]. by constructor. }
  intros ?. quietly. eapply triple_bind; [by apply verify_content_triple|]. intros ?.
  do 3 quietly. apply triple_quiet; eauto with quiet.
Qed.
End running.

(** *** The recorded bad chunks are never negative *)
Section steady.
Definition steady {A} (m : step Verifying A) : Prop :=
  forall s, 0 <= rp_recorded_bad_chunks (vs_report s) -> 0 <= rp_recorded_bad_chunks (vs_report (fst (m s))).

Lemma steady_bind {A B} (m : step Verifying A) (k : A -> step Verifying B) :
  steady m -> (forall a, steady (k a)) -> steady (step_bind m k).
Proof.
  intros Hm Hk s Hs. unfold step_bind. specialize (Hm s Hs). destruct (m s) as [s1 [a|e]]; [|done]. by apply Hk.
Qed.

Lemma steady_run {A} (m : step Run A) : steady (on_run m).
Proof. intros s. unfold on_run. by destruct (m (vs_run s)). Qed.
Lemma steady_lift {A} (r : result A) : steady (lift r). Proof. by intros s. Qed.
Lemma steady_failing {A} e (r : result A) : steady (failing e r). Proof. by intros s. Qed.
Lemma steady_ret {A} (a : A) : steady (step_ret a). Proof. by intros s. Qed.
Lemma steady_err {A} e : steady (step_err (A := A) e). Proof. by intros s. Qed.
Lemma steady_record f : steady (record f). Proof. by intros s. Qed.
Lemma steady_looking {A} (f : Verifier.VerifyReport -> A) : steady (looking f). Proof. by intros s. Qed.
Lemma steady_checked p : steady (checked p). Proof. by intros s. Qed.
Lemma steady_phase name : steady (phase name). Proof. intros s. apply steady_run. Qed.
Lemma steady_report n : steady (report n).
Proof. intros s. unfold report. apply steady_bind; [apply steady_run|by intros a s1]. Qed.
Lemma steady_finish n : steady (VerifySteps.finish n).
Proof. intros s. unfold VerifySteps.finish. apply steady_bind; [apply steady_run|by intros a s1]. Qed.
Lemma steady_count_bad bad fb : steady (on_report (count_bad bad fb)).
Proof. intros s _. cbn. unfold count_bad. destruct (0 <? bad); cbn; apply Z.mod_pos_bound; lia. Qed.
Lemma steady_warn w : steady (on_report (warn w)). Proof. by intros s. Qed.
Lemma steady_member n : steady (on_report (count_member n)). Proof. by intros s. Qed.

Lemma steady_fold {S A} (f : S -> A -> step Verifying S) l :
  (forall s x, steady (f s x)) -> forall s, steady (step_fold f l s).
Proof.
  intros Hf. induction l as [|x l IH]; intros s; cbn [step_fold]; [apply steady_ret|].
  apply steady_bind; [apply Hf|apply IH].
Qed.

Lemma steady_iter {A} (f : A -> step Verifying unit) l : (forall x, steady (f x)) -> steady (step_iter f l).
Proof.
  intros Hf. induction l as [|x l IH]; cbn [step_iter]; [apply steady_ret|]. apply steady_bind; [apply Hf|done].
Qed.

Lemma steady_iterM {S} n (f : S -> step Verifying S) : (forall s, steady (f s)) -> forall s, steady (step_iterM n f s).
Proof.
  intros Hf s. destruct n as [|q|q]; cbn [step_iterM]; [apply steady_ret| |apply steady_ret]. revert s.
  induction q as [q IH|q IH|]; intros s; cbn [pos_step_iterM]; [| |apply Hf].
  - apply steady_bind; [apply Hf|]. intros. by apply steady_bind.
  - by apply steady_bind.
Qed.

Lemma steady_while {A} (body : A * bytes -> step Verifying (A * bytes)) :
  (forall x, steady (body x)) -> forall fuel x b, steady (while_left fuel body x b).
Proof.
  intros Hb. induction fuel as [|fuel IH]; intros x b; destruct b; cbn [while_left];
    try apply steady_ret; try apply steady_err. apply steady_bind; [apply Hb|]. intros [x' b']. apply IH.
Qed.

Create HintDb steady.
#[local] Hint Resolve steady_run steady_lift steady_failing steady_ret steady_err steady_record steady_looking
  steady_checked steady_phase steady_report steady_finish steady_count_bad steady_warn steady_member : steady.

Ltac steady_steps := repeat first
  [ solve [auto with steady]
  | apply steady_bind; [|intros ?]
  | apply steady_fold; intros | apply steady_iter; intros | apply steady_iterM; intros | apply steady_while; intros
  | match goal with |- steady (match ?x with _ => _ end) => destruct x end ].

Context `{Primitives} `{Destination D} (d : D).

Lemma steady_walk w visit : (forall i st a, steady (visit i st a)) -> steady (Walks.walk_own_payloads w visit).
Proof.
  intros Hv s Hs. pose proof (walk_with_keeps w true visit (fun s => 0 <= rp_recorded_bad_chunks (vs_report s))
    (fun s => 0 <= rp_recorded_bad_chunks (vs_report s))) as Hw.
  unfold Walks.walk_own_payloads. specialize (Hw ltac:(intros i st a t Ht; specialize (Hv i st a t Ht);
    by destruct (visit i st a t) as [t1 [[]|]]) ltac:(done) s Hs).
  by destruct (Walks.walk_with w true visit s) as [s1 [[]|]].
Qed.

Lemma steady_merged w : steady (locally (0, None) (Walks.walk w (visit_merged (cw_chunk_size w)))).
Proof.
  intros s Hs. set (I := fun x : Verifying * BadCount => 0 <= rp_recorded_bad_chunks (vs_report (fst x))).
  pose proof (walk_with_keeps w false (visit_merged (cw_chunk_size w)) I I) as Hw.
  assert (forall i st a, triple I (visit_merged (cw_chunk_size w) i st a) (fun _ => I) I) as Hv.
  { intros i st a. assert (forall {A} (m : step Verifying A), steady m -> triple I (shared m) (fun _ => I) I) as Hsh.
    { intros A m Hm [t l] Ht. unfold shared. specialize (Hm t Ht). by destruct (m t) as [t1 [v|e]]. }
    unfold visit_merged. eapply (triple_bind _ _ _ (fun _ => I)); [apply Hsh; steady_steps|]. intros ?.
    destruct st; try apply (triple_ret tt (fun _ => I)); [|by intros [t l] Ht]. apply Hsh. steady_steps. }
  specialize (Hw Hv ltac:(done) (s, (0, None)) Hs). unfold locally, Walks.walk.
  by destruct (Walks.walk_with w false (visit_merged (cw_chunk_size w)) (s, (0, None))) as [[s1 l] [[]|]].
Qed.

Lemma steady_content members name target request : steady (verify_content d members name target request).
Proof.
  unfold verify_content, verify_whole_disk, verify_block_chain, verify_stream, verify_file, verify_stream_member,
    verify_section, verify_stream_entry, verify_region, verify_region_entry, verify_tree, verify_record, verify_reference.
  steady_steps; try apply steady_merged; try (apply steady_walk; intros; unfold visit_own; steady_steps).
Qed.

Lemma steady_phases members name target job : steady (verify_phases d members name target job).
Proof.
  unfold verify_phases, verify_member.
  assert (forall A i (m : step Verifying A), steady m -> steady (or_fail_structure i m)) as Hor.
  { intros A i m Hm s Hs. unfold or_fail_structure. specialize (Hm s Hs). by destruct (m s) as [s1 [v|e]]. }
  steady_steps; try apply steady_content; try apply Hor; unfold member_structure, check_cancel; steady_steps.
Qed.
End steady.
