(* ===== verification/Capture.v ===== *)
(** * Capturing a chain ([crates/lr-engine/src/verify/capture.rs])

    A captured verification copies the whole ancestry into anonymous files first
    and lets the verifier read nothing else. The source set may change while it
    is copied, so the model asks it again at every moment the code does; the
    scratch filesystem answers whether it has room and lets the code write. *)

From S2P Require Import Prelude Maps Text Core Crypto Superblock Files Tree EngineKeys CatalogRecords Destination Progress Chain Verifier Observation VerifyImage.

Definition CAPTURE_BUFFER_BYTES : Z := 64 * 1024.

Record CaptureOptions := {
  co_scratch_directory : bytes;
  co_max_raw_bytes : Z;
  co_headroom_bytes : Z;
}.

Record CaptureFailure := { cf_stage : AttemptStage; cf_reason : FailureKind; cf_error : error }.

Record SourceMember := { sm_file : ChainMemberFile; sm_raw_length : Z }.

(** ** The captured files as a destination *)
Record CapturedDestination := { cd_files : list (bytes * bytes) }.

Module Captured.
Definition read_only {A} : result A := Err (Unsupported "captured verification resolver is read-only").

(** Only what was captured can be opened, and nothing can be changed. The clock
    is not one of the trait's methods; nothing here asks it. *)
#[global] Instance captured_destination : Destination CapturedDestination := {
  list_files d := Ok (BMap.keys (cd_files d));
  open_ro d name := ok_or (BMap.get name (cd_files d)) (Corrupt "captured resolver member is unavailable");
  delete d _ := (d, read_only);
  create_tmp d _ := (d, read_only);
  write_tmp d _ _ := (d, read_only);
  replace d _ _ := (d, read_only);
  lock_set d _ := (d, read_only);
  lock_set_breaking_stale d _ := (d, read_only);
  lock_verify d := (d, read_only);
  now_unix d := (d, 0);
}.
End Captured.

Record CapturedChain := {
  cc_destination : CapturedDestination;
  cc_members : list ChainMemberFile;
  cc_name : bytes;
}.

(** ** The world around a capture *)

(** The source set as the preflight finds it, as it is when the copy of the
    n-th member opens its file, and as that handle's reads find it. *)
Record Source (D : Type) := {
  so_preflight : D;
  so_opened : nat -> D;
  so_read : nat -> D;
}.
Arguments so_preflight {D}. Arguments so_opened {D}. Arguments so_read {D}.

(** What [stat] says about one component of a path. *)
Record Metadata := { md_uid : Z; md_mode : Z }.

(** The scratch filesystem: the components of a path, the bytes available, and
    the outcome of making, of the n-th write to and of reopening a capture. *)
Record Scratch := {
  sc_effective_uid : Z;
  sc_component : list bytes -> result Metadata;
  sc_available : result Z;
  sc_create : nat -> result unit;
  sc_write : nat -> Z -> result unit;
  sc_reopen : nat -> result unit;
}.

(** ** The directory ([PinnedScratch::open]) *)
Module PinnedScratch.
Definition component_trusted (effective_uid : Z) (final : bool) (m : Metadata) : bool :=
  let owner_is_trusted := (md_uid m =? effective_uid) || (md_uid m =? 0) in
  let writable_by_others := negb (Z.land (md_mode m) 0x12 =? 0) in
  let protected_sticky_directory :=
    (md_uid m =? 0) && negb (Z.land (md_mode m) 0x200 =? 0) in
  owner_is_trusted && negb (writable_by_others && negb protected_sticky_directory) &&
  negb (final && (negb (md_uid m =? effective_uid) || negb (Z.land (md_mode m) 0xfff =? 0x1c0))).

(** Down the path from the root; [above] are the components passed. *)
Fixpoint walk (s : Scratch) (above components : list bytes) : result unit :=
  match components with
  | [] => Ok tt
  | component :: rest =>
    let* m := sc_component s (above ++ [component]) in
    if component_trusted (sc_effective_uid s) (match rest with [] => true | _ => false end) m
    then walk s (above ++ [component]) rest
    else Err (Io OtherIo)
  end.

(** [Path::strip_prefix] leaves out the empty names and the dots at both ends. *)
Fixpoint trim_front (names : list bytes) : list bytes :=
  match names with
  | name :: rest =>
    if bool_decide (name = []) || bool_decide (name = [Trees.DOT]) then trim_front rest else names
  | [] => []
  end.

Definition below_root (path : bytes) : list bytes :=
  rev (trim_front (rev (trim_front (Text.split Trees.SLASH path)))).

Definition open (s : Scratch) (path : bytes) : result unit :=
  match path with
  | slash :: relative =>
    if negb (bool_decide (slash = Trees.SLASH)) then Err (Io OtherIo)
    else
      match below_root relative with
      | [] => Err (Io OtherIo)
      | components =>
        if forallb Trees.is_normal components then walk s [] components else Err (Io OtherIo)
      end
  | [] => Err (Io OtherIo)
  end.
End PinnedScratch.

(** ** Steps of a capture *)
Definition Capturing : Type := Run * VerificationObservation.

Definition capture (A : Type) : Type := Capturing -> Capturing * (A + CaptureFailure).

Module Captures.
Definition cap_ret {A} (a : A) : capture A := fun s => (s, inl a).
Definition cap_fail {A} (stage : AttemptStage) (reason : FailureKind) (e : error) : capture A :=
  fun s => (s, inr {| cf_stage := stage; cf_reason := reason; cf_error := e |}).
Definition cap_bind {A B} (m : capture A) (k : A -> capture B) : capture B := fun s =>
  match m s with
  | (s, inl a) => k a s
  | (s, inr f) => (s, inr f)
  end.
Notation "'cap*' x := m 'in' k" := (cap_bind m (fun x => k))
  (at level 10, x pattern, m at level 100, k at level 200) : lr_scope.

(** [.map_err(|e| CaptureFailure::new(stage, reason, e))] and [from_error]. *)
Definition failing_as {A} (stage : AttemptStage) (reason : error -> FailureKind) (r : result A) :
    capture A :=
  match r with Ok a => cap_ret a | Err e => cap_fail stage (reason e) e end.
Definition at_ {A} (stage : AttemptStage) (r : result A) : capture A :=
  failing_as stage classify_error r.

Definition on_run {A} (stage : AttemptStage) (m : step Run A) : capture A := fun '(run, o) =>
  let '(run, r) := m run in at_ stage r (run, o).

Definition check_cancel (c : EngineContext) (stage : AttemptStage) : capture unit :=
  on_run stage (Progress.check_cancel c).

(** [observation.members_mut()]. *)
Definition on_members (f : list MemberObservation -> list MemberObservation) : capture unit :=
  fun '(run, o) => ((run, Observations.with_members f o), inl tt).
Definition on_member (i : nat) (f : MemberObservation -> MemberObservation) : capture unit :=
  on_members (alter f i).

Definition set_raw_length (n : Z) (m : MemberObservation) : MemberObservation :=
  {| mo_identity := mo_identity m; mo_raw_length := Some n; mo_blake3_bytes := mo_blake3_bytes m;
     mo_capture := mo_capture m; mo_structure := mo_structure m;
     mo_structure_notice := mo_structure_notice m; mo_content := mo_content m |}.
Definition set_digest (b : bytes) (m : MemberObservation) : MemberObservation :=
  {| mo_identity := mo_identity m; mo_raw_length := mo_raw_length m; mo_blake3_bytes := Some b;
     mo_capture := mo_capture m; mo_structure := mo_structure m;
     mo_structure_notice := mo_structure_notice m; mo_content := mo_content m |}.
Definition set_identity (i : MemberIdentity) (m : MemberObservation) : MemberObservation :=
  {| mo_identity := Some i; mo_raw_length := mo_raw_length m; mo_blake3_bytes := mo_blake3_bytes m;
     mo_capture := mo_capture m; mo_structure := mo_structure m;
     mo_structure_notice := mo_structure_notice m; mo_content := mo_content m |}.

Definition identity_of (s : Superblock) : MemberIdentity :=
  {| mi_image_uuid := image_uuid s; mi_chain_id := chain_id s; mi_parent_uuid := parent_uuid s;
     mi_set_id := set_id s; mi_seq_in_chain := seq_in_chain s; mi_image_kind := image_kind s;
     mi_legacy_header_kind := member_kind s; mi_whole_disk := VerifyImages.is_whole_disk s;
     mi_consistency := consistency s |}.

(** [resize_with(n, MemberObservation::pending)] of the empty list. *)
Definition resize (n : nat) (l : list MemberObservation) : list MemberObservation :=
  take n l ++ replicate (n - length l) Observations.pending.

(** ** Preflight *)
Section ops.
Context `{Primitives} `{Destination D}.

(** One member: its length, its header, and the running total. *)
Definition preflight_member (source : D) (c : EngineContext) (max_raw_bytes : Z) (index : nat)
    (member : ChainMemberFile) (raw_total : Z) : capture (SourceMember * Superblock * Z) :=
  cap* _ := check_cancel c ScratchPreflight in
  cap* b := at_ ScratchPreflight (open_ro source (cm_file_name member)) in
  let raw_length := zlen b in
  if raw_length <? SB_SIZE then
    cap_fail ResolveAncestry FkIdentityChanged (Corrupt "source member is shorter than its superblock")
  else
    cap* header_bytes := at_ ResolveAncestry (File.read_exact 0 SB_SIZE b) in
    cap* header := at_ ResolveAncestry (Sb.decode header_bytes) in
    if negb (bool_decide (image_uuid header = cm_image_uuid member)) ||
       negb (seq_in_chain header =? cm_seq_in_chain member) then
      cap_fail ResolveAncestry FkIdentityChanged
        (Corrupt "resolved source member identity changed during preflight")
    else
      cap* raw_total := failing_as ScratchPreflight (fun _ => FkRawCapExceeded)
        (ok_or (checked_add raw_total raw_length)
          (Unsupported "captured ancestry raw-byte total overflowed")) in
      cap* _ := on_member index (set_raw_length raw_length) in
      if max_raw_bytes <? raw_total then
        cap_fail ScratchPreflight FkRawCapExceeded
          (Unsupported "captured ancestry exceeds the caller's raw-byte cap")
      else cap_ret ({| sm_file := member; sm_raw_length := raw_length |}, header, raw_total).

Fixpoint preflight (source : D) (c : EngineContext) (max_raw_bytes : Z) (index : nat)
    (members : list ChainMemberFile) (raw_total : Z) :
    capture (list SourceMember * list Superblock * Z) :=
  match members with
  | [] => cap_ret ([], [], raw_total)
  | member :: members =>
    cap* (s, header, raw_total) := preflight_member source c max_raw_bytes index member raw_total in
    cap* (sources, headers, raw_total) :=
      preflight source c max_raw_bytes (S index) members raw_total in
    cap_ret (s :: sources, header :: headers, raw_total)
  end.

(** ** Copying *)
(** The [while remaining != 0] loop; [b] is what the handle reads. A read fills
    its buffer when the file has the bytes. *)
Fixpoint copy_loop (fuel : nat) (c : EngineContext) (scratch : Scratch) (index : nat) (b : bytes)
    (copied : bytes) (remaining : Z) : capture bytes :=
  if remaining =? 0 then cap_ret copied
  else
    match fuel with
    | O => cap_fail Capture FkUnsupported (Unsupported "copy_loop: out of fuel")
    | S fuel =>
      cap* _ := check_cancel c Capture in
      let read_len := Z.min remaining CAPTURE_BUFFER_BYTES in
      let chunk := sub (zlen copied) read_len b in
      if zlen chunk =? 0 then
        cap_fail Capture FkSourceChanged (Corrupt "source member shrank after capture preflight")
      else
        cap* _ := at_ Capture (sc_write scratch index (zlen copied)) in
        copy_loop fuel c scratch index b (copied ++ chunk) (remaining - zlen chunk)
    end.

(** Each turn copies at least a byte. *)
Definition copy_member (world : Source D) (c : EngineContext) (scratch : Scratch) (index : nat)
    (source : SourceMember) : capture (bytes * bytes) :=
  cap* now := at_ Capture (open_ro (so_opened world index) (cm_file_name (sm_file source))) in
  if negb (zlen now =? sm_raw_length source) then
    cap_fail Capture FkSourceChanged (Corrupt "source member length changed after capture preflight")
  else
    cap* _ := at_ Capture (sc_create scratch index) in
    cap* b := at_ Capture (open_ro (so_read world index) (cm_file_name (sm_file source))) in
    cap* copied :=
      copy_loop (Z.to_nat (sm_raw_length source)) c scratch index b [] (sm_raw_length source) in
    cap* _ := check_cancel c Capture in
    if sm_raw_length source <? zlen b then
      cap_fail Capture FkSourceChanged (Corrupt "source member grew after capture preflight")
    else
      cap* _ := at_ Capture (sc_reopen scratch index) in
      cap_ret (copied, blake3_hash copied).

(** The error path marks the member. *)
Definition or_mark_failed {A} (index : nat) (m : capture A) : capture A := fun s =>
  match m s with
  | (s, inl a) => (s, inl a)
  | (s, inr f) => (fst (on_member index (Observations.set_capture Failed) s), inr f)
  end.

Definition capture_member (world : Source D) (c : EngineContext) (scratch : Scratch) (index : nat)
    (source : SourceMember) : capture bytes :=
  cap* _ := check_cancel c Capture in
  cap* _ := on_member index (Observations.set_capture InProgress) in
  cap* (copied, digest) := or_mark_failed index (copy_member world c scratch index source) in
  cap* _ := on_member index (Observations.set_capture Complete) in
  cap* _ := on_member index (set_digest digest) in
  cap_ret copied.

Fixpoint copy_members (world : Source D) (c : EngineContext) (scratch : Scratch) (index : nat)
    (sources : list SourceMember) (files : list (bytes * bytes)) : capture (list (bytes * bytes)) :=
  match sources with
  | [] => cap_ret files
  | source :: sources =>
    cap* copied := capture_member world c scratch index source in
    copy_members world c scratch (S index) sources
      (BMap.insert (cm_file_name (sm_file source)) copied files)
  end.

(** ** Identity *)
(** The eleven comparisons of a captured header with the resolved one. *)
Definition identity_changed (member : ChainMemberFile) (s source : Superblock) : bool :=
  negb (bool_decide (image_uuid s = cm_image_uuid member)) ||
  negb (seq_in_chain s =? cm_seq_in_chain member) ||
  negb (bool_decide (chain_id s = chain_id source)) ||
  negb (bool_decide (parent_uuid s = parent_uuid source)) ||
  negb (bool_decide (set_id s = set_id source)) ||
  negb (bool_decide (image_kind s = image_kind source)) ||
  negb (source_size_bytes s =? source_size_bytes source) ||
  negb (logical_block_size s =? logical_block_size source) ||
  negb (chunk_size s =? chunk_size source) ||
  negb (Bool.eqb (VerifyImages.is_whole_disk s) (VerifyImages.is_whole_disk source)) ||
  negb (bool_decide (consistency s = consistency source)).

Definition identify_member (files : list (bytes * bytes)) (index : nat) (member : ChainMemberFile)
    (source : Superblock) : capture Superblock :=
  cap* b := failing_as IdentityValidation (fun _ => FkUnavailable)
    (ok_or (BMap.get (cm_file_name member) files)
      (Corrupt "captured member disappeared before identity validation")) in
  cap* header_bytes := at_ IdentityValidation (File.read_exact 0 SB_SIZE b) in
  cap* s := at_ IdentityValidation (Sb.decode header_bytes) in
  if identity_changed member s source then
    cap_fail IdentityValidation FkIdentityChanged
      (Corrupt "captured member identity differs from the resolved ancestry")
  else
    cap* _ := on_member index (set_identity (identity_of s)) in
    cap_ret s.

Fixpoint identify (files : list (bytes * bytes)) (index : nat)
    (members : list (ChainMemberFile * Superblock)) : capture (list Superblock) :=
  match members with
  | [] => cap_ret []
  | (member, source) :: members =>
    cap* s := identify_member files index member source in
    cap* headers := identify files (S index) members in
    cap_ret (s :: headers)
  end.

(** One turn of [validate_captured_ancestry]; [previous] is [headers[index - 1]]. *)
Fixpoint ancestry_consistent (first : Superblock) (index : Z) (previous : option Superblock)
    (headers : list Superblock) : bool :=
  match headers with
  | [] => true
  | header :: headers =>
    (index <? 2 ^ 32) &&
    (seq_in_chain header =? index) &&
    bool_decide (chain_id header = chain_id first) && bool_decide (set_id header = set_id first) &&
    bool_decide (image_kind header = image_kind first) &&
    (bool_decide (image_kind header = File) || (source_size_bytes header =? source_size_bytes first)) &&
    (logical_block_size header =? logical_block_size first) &&
    (chunk_size header =? chunk_size first) &&
    Bool.eqb (VerifyImages.is_whole_disk header) (VerifyImages.is_whole_disk first) &&
    match previous with
    | Some p => bool_decide (parent_uuid header = image_uuid p)
    | None => true
    end &&
    ancestry_consistent first (index + 1) (Some header) headers
  end.

Definition validate_captured_ancestry (headers : list Superblock) : capture unit :=
  match headers with
  | [] =>
    cap_fail IdentityValidation FkIdentityChanged (Corrupt "captured ancestry is empty")
  | first :: _ =>
    if negb (seq_in_chain first =? 0) || negb (bool_decide (parent_uuid first = Ids.ZERO)) then
      cap_fail IdentityValidation FkIdentityChanged
        (Corrupt "captured ancestry does not start at a full member")
    else if negb (ancestry_consistent first 0 None headers) then
      cap_fail IdentityValidation FkIdentityChanged
        (Corrupt "captured ancestry topology or mode is inconsistent")
    else cap_ret tt
  end.

(** ** The whole capture, from an opened source set on *)
Definition capture_chain (world : Source D) (scratch : Scratch) (c : EngineContext)
    (options : CaptureOptions) (name : bytes) : capture CapturedChain :=
  if co_max_raw_bytes options =? 0 then
    cap_fail ScratchPreflight FkInvalidOptions
      (Unsupported "captured verification requires a positive raw-byte cap")
  else
  cap* _ := check_cancel c ResolveAncestry in
  cap* members := at_ ResolveAncestry (Resolve.resolve_chain (so_preflight world) name) in
  if negb (bool_decide (option_map cm_file_name (last members) = Some name)) then
    cap_fail ResolveAncestry FkCorrupt
      (Corrupt "selected image is not the last member of its resolved ancestry")
  else
  cap* _ := on_members (resize (length members)) in
  cap* (sources, headers, raw_total) :=
    preflight (so_preflight world) c (co_max_raw_bytes options) 0 members 0 in
  cap* _ := failing_as ScratchPreflight (fun _ => FkScratchUntrusted)
    (PinnedScratch.open scratch (co_scratch_directory options)) in
  cap* available := at_ ScratchPreflight (sc_available scratch) in
  if available <? raw_total + co_headroom_bytes options then
    cap_fail ScratchPreflight FkHeadroomUnavailable NoSpace
  else
  cap* _ := on_run Capture (Progress.phase c (String.list_byte_of_string "capture")) in
  cap* files := copy_members world c scratch 0 sources [] in
  cap* _ := check_cancel c IdentityValidation in
  cap* captured := identify files 0 (combine members headers) in
  cap* _ := validate_captured_ancestry captured in
  match last captured with
  | None => cap_fail IdentityValidation FkCorrupt (Corrupt "captured ancestry is empty")
  | Some target =>
    if VerifyImages.is_whole_disk target && negb (zlen captured =? 1) then
      cap_fail IdentityValidation FkUnsupported
        (Unsupported "captured whole-disk ancestry must contain one member")
    else cap_ret {| cc_destination := {| cd_files := files |}; cc_members := members; cc_name := name |}
  end.

(** [verify_image_captured]. *)
Definition verify_image_captured (world : Source D) (scratch : Scratch) (options : CaptureOptions)
    (name : bytes) (job : VerifyJob) (run : Run) : Run * VerificationAttempt :=
  let scope := if vq_chain (vj_request job) then EveryMember else SelectedRecoveryPoint in
  match capture_chain world scratch (vj_context job) options name (run, Observations.new scope) with
  | ((run, o), inr failure) =>
    (run, Recorders.incomplete o (cf_stage failure) (cf_reason failure) (cf_error failure))
  | ((run, o), inl captured) =>
    match VerifyImages.verify_members_in_set_inner (cc_destination captured) (cc_name captured)
        (cc_members captured) job (run, Some (Recorders.new o)) with
    | ((run, Some recorder), Ok report) => (run, Recorders.finish report recorder)
    | ((run, Some recorder), Err e) => (run, Recorders.fail e recorder)
    | ((run, None), Ok report) => (run, Recorders.finish report (Recorders.new o))
    | ((run, None), Err e) => (run, Recorders.fail e (Recorders.new o))
    end
  end.
End ops.
End Captures.
