(* ===== verification/CaptureSpec.v ===== *)
(** * Captured attempts are what the history accepts

    Every attempt [verify_image_captured] returns, whatever failed and wherever,
    passes the checks of [validate_attempt]: capture, verifier, recorder and
    history agree about what an observation may say. *)

From S2P Require Import Prelude Maps Core Crypto Superblock Files Tree EngineKeys CatalogRecords Destination Progress Chain Verifier Observation VerifyImage VerifyRecord Capture.
Import Captures Validation Observations.

(** ** Triples of a capture *)
Section triples.
Context (scope : RecoveryScope).

Definition ctriple {A} (P : VerificationObservation -> Prop) (m : capture A)
    (Q : A -> VerificationObservation -> Prop) (E : VerificationObservation -> Prop) : Prop :=
  forall run o, P o -> match m (run, o) with
  | ((_, o'), inl a) => Q a o'
  | ((_, o'), inr _) => E o'
  end.

Lemma ct_ret {A} (a : A) (Q : A -> VerificationObservation -> Prop) E : ctriple (Q a) (cap_ret a) Q E.
Proof. by intros run o Ho. Qed.

Lemma ct_fail {A} stage reason e (P : VerificationObservation -> Prop) (Q : A -> VerificationObservation -> Prop) E :
  (forall o, P o -> E o) -> ctriple P (cap_fail stage reason e) Q E.
Proof. intros HE run o Ho. cbn. auto. Qed.

Lemma ct_bind {A B} P (m : capture A) (k : A -> capture B) R Q E :
  ctriple P m R E -> (forall a, ctriple (R a) (k a) Q E) -> ctriple P (cap_bind m k) Q E.
Proof.
  intros Hm Hk run o Ho. specialize (Hm run o Ho). unfold cap_bind.
  destruct (m (run, o)) as [[run1 o1] [a|f]]; [by apply Hk|done].
Qed.

Lemma ct_conseq {A} (P P' : VerificationObservation -> Prop) (m : capture A) Q Q' (E E' : VerificationObservation -> Prop) :
  ctriple P' m Q' E' -> (forall o, P o -> P' o) -> (forall a o, Q' a o -> Q a o) ->
  (forall o, E' o -> E o) -> ctriple P m Q E.
Proof.
  intros Hm HP HQ HE run o Ho. specialize (Hm run o (HP o Ho)). destruct (m (run, o)) as [[r1 o1] [a|f]]; auto.
Qed.

(** A step that does not touch the observation; [R] is what its value satisfies. *)
Lemma ct_failing {A} stage reason (r : result A) (P : VerificationObservation -> Prop) E :
  (forall o, P o -> E o) -> ctriple P (failing_as stage reason r) (fun a o => r = Ok a /\ P o) E.
Proof. intros HE run o Ho. unfold failing_as. destruct r; cbn; auto. Qed.

Lemma ct_run {A} stage (m : step Run A) (P : VerificationObservation -> Prop) E :
  (forall o, P o -> E o) -> ctriple P (on_run stage m) (fun _ => P) E.
Proof.
  intros HE run o Ho. unfold on_run. destruct (m run) as [run1 r].
  unfold at_, failing_as. destruct r; cbn; auto.
Qed.

Lemma ct_members f (P : VerificationObservation -> Prop) (Q : unit -> VerificationObservation -> Prop) E :
  (forall o, P o -> Q tt (with_members f o)) -> ctriple P (on_members f) Q E.
Proof. intros Hf run o Ho. cbn. auto. Qed.

(** ** The members of an observation while they are captured *)
Record capturing (n : nat) (P : nat -> MemberObservation -> Prop) (o : VerificationObservation) : Prop := {
  cg_headed : headed scope o;
  cg_coverage : vo_content_coverage o = None;
  cg_length : length (vo_members o) = n;
  cg_members : forall i m, vo_members o !! i = Some m -> P i m;
}.

(** Nothing has been verified. *)
Definition unverified (m : MemberObservation) : Prop :=
  mo_structure m = NotStarted /\ mo_structure_notice m = None /\ mo_content m = stages_pending.

Definition has_length (m : MemberObservation) : Prop :=
  exists n, mo_raw_length m = Some n /\ SB_SIZE <= n.

(** The preflight has passed the first [k]. *)
Definition preflighted (k i : nat) (m : MemberObservation) : Prop :=
  unverified m /\ mo_identity m = None /\ mo_blake3_bytes m = None /\ mo_capture m = NotStarted /\
  ((i < k)%nat -> has_length m).

(** The first [k] are copied; the next one is in the stage [st]. *)
Definition copied (k : nat) (st : MemberStage) (i : nat) (m : MemberObservation) : Prop :=
  unverified m /\ mo_identity m = None /\ has_length m /\
  ((i < k)%nat -> mo_capture m = Complete /\ some (mo_blake3_bytes m) = true) /\
  ((k <= i)%nat -> mo_blake3_bytes m = None) /\
  (i = k -> mo_capture m = st) /\ ((k < i)%nat -> mo_capture m = NotStarted).

(** All are copied, the first of them identified by [headers]. *)
Definition identified (headers : list Superblock) (i : nat) (m : MemberObservation) : Prop :=
  unverified m /\ has_length m /\ mo_capture m = Complete /\ some (mo_blake3_bytes m) = true /\
  mo_identity m = identity_of <$> headers !! i.

(** What a failed capture leaves: the history accepts it. *)
Definition partial_ok (o : VerificationObservation) : Prop :=
  headed scope o /\ vo_content_coverage o = None /\
  Forall (fun m => member_ok m = true /\ content_fact m = false) (vo_members o).

Lemma partial_accepted o stage reason e :
  partial_ok o -> validate_attempt (Recorders.incomplete o stage reason e) = true.
Proof.
  intros ((H1 & H2 & _) & Hc & Hm). unfold validate_attempt, Recorders.incomplete. cbn [va_observation va_report].
  set (o' := set_incomplete stage reason o).
  change (validate_observation_header o') with (validate_observation_header o).
  change (validate_partial_observation o') with (validate_partial_observation o).
  unfold validate_observation_header, validate_partial_observation. rewrite H1, H2, Hc.
  assert (forallb member_ok (vo_members o) = true) as ->.
  { apply forallb_forall. intros m Hin. rewrite List.Forall_forall in Hm. by apply Hm. }
  assert (existsb content_fact (vo_members o) = false) as ->; [|done].
  apply not_true_iff_false. intros (m & Hin & Hf)%existsb_exists. rewrite List.Forall_forall in Hm.
  destruct (Hm m Hin) as [_ Hn]. congruence.
Qed.

Lemma capturing_impl n P Q o : (forall i m, (i < n)%nat -> P i m -> Q i m) -> capturing n P o -> capturing n Q o.
Proof.
  intros HPQ [A B C Dm]. constructor; try done. intros i m Hi. apply HPQ; [|by apply Dm].
  rewrite <- C. by eapply lookup_lt_Some.
Qed.

Lemma capturing_partial n P o :
  (forall i m, P i m -> unverified m /\
    match mo_capture m with
    | NotStarted | Failed => mo_blake3_bytes m = None /\ mo_identity m = None
    | Complete => has_length m /\ some (mo_blake3_bytes m) = true
    | _ => False
    end) -> capturing n P o -> partial_ok o.
Proof.
  intros HP [A B C Dm]. split_and!; [done|done|]. apply Forall_lookup. intros i m Hi.
  destruct (HP i m (Dm i m Hi)) as [(S1 & S2 & S3) Hc]. unfold member_ok, content_fact. rewrite S1, S2, S3.
  cbn [stages_pending mc_recovery_point mc_referenced_payloads mc_every_stored_payload mc_disk_region_payloads].
  split; [|done]. destruct (mo_capture m); try done.
  - destruct Hc as [-> ->]. by destruct (mo_raw_length m).
  - destruct Hc as [(len & -> & _) ->]. by destruct (mo_identity m).
  - destruct Hc as [-> ->]. by destruct (mo_raw_length m).
Qed.

Lemma preflighted_partial n k o : capturing n (preflighted k) o -> partial_ok o.
Proof. apply capturing_partial. intros i m (H1 & H2 & H3 & H4 & _). by rewrite H4. Qed.

Lemma copied_partial n k st o :
  st = NotStarted \/ st = Failed -> capturing n (copied k st) o -> partial_ok o.
Proof.
  intros Hst. apply capturing_partial. intros i m (H1 & H2 & H3 & H4 & H5 & H6 & H7). split; [done|].
  destruct (lt_eq_lt_dec i k) as [[Hi|Hi]|Hi].
  - destruct (H4 Hi) as [-> Hd]. done.
  - rewrite (H6 Hi). destruct Hst as [-> | ->]; split; try done; apply H5; lia.
  - rewrite (H7 Hi). split; [apply H5; lia|done].
Qed.

Lemma identified_partial n headers o : capturing n (identified headers) o -> partial_ok o.
Proof. apply capturing_partial. intros i m (H1 & H2 & H3 & H4 & _). by rewrite H3. Qed.

(** The change of one member. *)
Lemma capturing_alter n P Q k f o :
  (forall m, P k m -> Q k (f m)) -> (forall i m, i <> k -> P i m -> Q i m) ->
  capturing n P o -> capturing n Q (with_members (alter f k) o).
Proof.
  intros Hk Hi [A B C Dm]. constructor; cbn [with_members vo_members vo_content_coverage]; try done.
  - by rewrite length_alter.
  - intros i m Hl. destruct (decide (i = k)) as [->|Hne].
    + rewrite list_lookup_alter_eq in Hl. destruct (vo_members o !! k) as [m0|] eqn:E; [|done].
      injection Hl as <-. apply Hk. by apply Dm.
    + rewrite list_lookup_alter_ne in Hl by done. apply Hi; [done|]. by apply Dm.
Qed.

(** ** The steps of a capture *)
Context `{Primitives} `{Destination D}.

(** A value got out of a step that cannot change the observation. *)
Lemma ct_got {A B} stage reason (r : result A) (k : A -> capture B) P Q (E : VerificationObservation -> Prop) :
  (forall o, P o -> E o) -> (forall a, r = Ok a -> ctriple P (k a) Q E) ->
  ctriple P (cap_bind (failing_as stage reason r) k) Q E.
Proof.
  intros HE Hk. eapply ct_bind; [by apply ct_failing|]. intros a run o [Ha Ho]. by apply (Hk a Ha).
Qed.

Lemma ct_ran {A B} stage (m : step Run A) (k : A -> capture B) P Q (E : VerificationObservation -> Prop) :
  (forall o, P o -> E o) -> (forall a, ctriple P (k a) Q E) ->
  ctriple P (cap_bind (on_run stage m) k) Q E.
Proof. intros HE Hk. eapply ct_bind; [by apply ct_run|]. done. Qed.

Lemma preflight_member_triple source c cap n k member total :
  ctriple (capturing n (preflighted k)) (preflight_member source c cap k member total)
    (fun _ => capturing n (preflighted (S k))) partial_ok.
Proof.
  pose proof (preflighted_partial n k) as Hp. unfold preflight_member, check_cancel, at_.
  apply ct_ran; [done|]. intros _. apply ct_got; [done|]. intros b _.
  destruct (Z.ltb_spec (zlen b) SB_SIZE) as [|Hlen]; [by apply ct_fail|].
  apply ct_got; [done|]. intros hb _. apply ct_got; [done|]. intros h _.
  destruct (_ || _); [by apply ct_fail|]. apply ct_got; [done|]. intros t _.
  eapply (ct_bind _ _ _ (fun _ => capturing n (preflighted (S k)))).
  - apply ct_members. intros o. apply capturing_alter.
    + intros m ((U1 & U2 & U3) & H1 & H2 & H3 & _). split_and!; try done. intros _. by eexists.
    + intros i m Hi (H1 & H2 & H3 & H4 & H5). split_and!; try done. intros Hlt. apply H5. lia.
  - intros _. destruct (cap <? t); [apply ct_fail; apply preflighted_partial|apply (ct_ret _ (fun _ => capturing n _))].
Qed.

Lemma preflight_triple source c cap n members : forall k total,
  ctriple (capturing n (preflighted k)) (preflight source c cap k members total)
    (fun x o => capturing n (preflighted (k + length members)) o /\
      length (fst (fst x)) = length members /\ length (snd (fst x)) = length members) partial_ok.
Proof.
  induction members as [|member members IH]; intros k total; cbn [preflight length].
  - intros run o Ho. cbn. by rewrite Nat.add_0_r.
  - eapply ct_bind; [apply preflight_member_triple|]. intros [[s h] t].
    eapply ct_bind; [apply IH|]. intros [[sources headers] t'] run o (Ho & H1 & H2). cbn in *.
    replace (k + S (length members))%nat with (S k + length members)%nat by lia. split_and!; [done|lia..].
Qed.

Lemma copy_loop_keeps n k st fuel c scratch b : forall done_ remaining,
  ctriple (capturing n (copied k st)) (copy_loop fuel c scratch k b done_ remaining)
    (fun _ => capturing n (copied k st)) (capturing n (copied k st)).
Proof.
  induction fuel as [|fuel IH]; intros done_ remaining; cbn [copy_loop];
    (destruct (remaining =? 0); [apply (ct_ret _ (fun _ => capturing n _))|]); [by apply ct_fail|].
  apply ct_ran; [done|]. intros _. destruct (_ =? 0); [by apply ct_fail|]. apply ct_got; [done|]. intros _ _. apply IH.
Qed.

Lemma copy_member_keeps n k st world c scratch source :
  ctriple (capturing n (copied k st)) (copy_member world c scratch k source)
    (fun _ => capturing n (copied k st)) (capturing n (copied k st)).
Proof.
  unfold copy_member, at_, check_cancel. apply ct_got; [done|]. intros now _. destruct (negb _); [by apply ct_fail|].
  apply ct_got; [done|]. intros _ _. apply ct_got; [done|]. intros b _.
  eapply ct_bind; [apply copy_loop_keeps|]. intros x. apply ct_ran; [done|]. intros _.
  destruct (_ <? _); [by apply ct_fail|]. apply ct_got; [done|]. intros _ _. apply (ct_ret _ (fun _ => capturing n _)).
Qed.

Lemma set_capture_tracks n k st st' o :
  capturing n (copied k st) o -> capturing n (copied k st') (with_members (alter (set_capture st') k) o).
Proof.
  apply capturing_alter.
  - intros m ((U1 & U2 & U3) & H1 & H2 & H3 & H4 & H5 & H6). split_and!; try done; lia.
  - intros i m Hi (H1 & H2 & H3 & H4 & H5 & H6 & H7). split_and!; try done.
Qed.

Lemma capture_member_triple n world c scratch k source :
  ctriple (capturing n (copied k NotStarted)) (capture_member world c scratch k source)
    (fun _ => capturing n (copied (S k) NotStarted)) partial_ok.
Proof.
  unfold capture_member, check_cancel. apply ct_ran; [intros o Ho; eapply copied_partial; [by left|done]|]. intros _.
  eapply (ct_bind _ _ _ (fun _ => capturing n (copied k InProgress))).
  { apply ct_members. intros o. apply set_capture_tracks. }
  intros _. eapply (ct_bind _ _ _ (fun _ => capturing n (copied k InProgress))).
  { intros run o Ho. unfold or_mark_failed. pose proof (copy_member_keeps n k InProgress world c scratch source run o Ho) as Hc.
    destruct (copy_member _ _ _ _ _ _) as [[run1 o1] [x|f]]; [done|]. cbn.
    eapply copied_partial; [by right|]. by eapply set_capture_tracks. }
  intros [x digest]. eapply (ct_bind _ _ _ (fun _ => capturing n (copied k Complete))).
  { apply ct_members. intros o. apply set_capture_tracks. }
  intros _. eapply (ct_bind _ _ _ (fun _ => capturing n (copied (S k) NotStarted))).
  { apply ct_members. intros o. apply capturing_alter.
    - intros m ((U1 & U2 & U3) & H1 & H2 & H3 & H4 & H5 & H6). split_and!; try done; try lia.
      intros _. cbn. by rewrite H5.
    - intros i m Hi (H1 & H2 & H3 & H4 & H5 & H6 & H7). split_and!; try done.
      + intros Hlt. apply H4. lia.
      + intros Hlt. apply H5. lia.
      + intros ->. apply H7. lia.
      + intros Hlt. apply H7. lia. }
  intros _. apply (ct_ret _ (fun _ => capturing n _)).
Qed.

Lemma copy_members_triple n world c scratch sources : forall k files,
  ctriple (capturing n (copied k NotStarted)) (copy_members world c scratch k sources files)
    (fun _ => capturing n (copied (k + length sources) NotStarted)) partial_ok.
Proof.
  induction sources as [|source sources IH]; intros k files; cbn [copy_members length].
  - rewrite Nat.add_0_r. apply (ct_ret _ (fun _ => capturing n _)).
  - eapply ct_bind; [apply capture_member_triple|]. intros x.
    replace (k + S (length sources))%nat with (S k + length sources)%nat by lia. apply IH.
Qed.

Lemma identify_triple n files members : forall before,
  ctriple (capturing n (identified before)) (identify files (length before) members)
    (fun headers o => capturing n (identified (before ++ headers)) o /\
      Forall2 (fun m s => Resolve.read_superblock {| cd_files := files |} (cm_file_name (fst m)) = Ok s) members headers)
    partial_ok.
Proof.
  induction members as [|[member source] members IH]; intros before; cbn [identify].
  - intros run o Ho. cbn. by rewrite app_nil_r.
  - pose proof (identified_partial n before) as Hp.
    eapply (ct_bind _ _ _ (fun s o => capturing n (identified (before ++ [s])) o /\
      Resolve.read_superblock {| cd_files := files |} (cm_file_name member) = Ok s)).
    + unfold identify_member, at_. apply ct_got; [done|]. intros b Hb. apply ct_got; [done|]. intros hb Hhb.
      apply ct_got; [done|]. intros s Hs. destruct (identity_changed _ _ _); [by apply ct_fail|].
      eapply (ct_bind _ _ _ (fun _ => capturing n (identified (before ++ [s])))).
      * apply ct_members. intros o. apply capturing_alter.
        -- intros m ((U1 & U2 & U3) & H1 & H2 & H3 & H4). split_and!; try done. cbn. by rewrite list_lookup_middle.
        -- intros i m Hi (H1 & H2 & H3 & H4 & H5). split_and!; try done. rewrite H5.
           destruct (decide (i < length before)%nat); [by rewrite lookup_app_l|].
           rewrite lookup_ge_None_2 by lia. rewrite lookup_ge_None_2; [done|]. rewrite length_app. cbn. lia.
      * intros _ run o Ho. cbn. split; [done|]. unfold Resolve.read_superblock. cbn [open_ro Captured.captured_destination cd_files].
        apply ok_or_Ok in Hb. rewrite Hb. cbn [ok_or bind]. by rewrite Hhb.
    + intros s run o [Ho Hs]. specialize (IH (before ++ [s]) run o Ho). rewrite length_app, Nat.add_1_r in IH.
      unfold cap_bind. cbn [cap_ret]. destruct (identify files _ members (run, o)) as [[run1 o1] [headers|f]]; [|done].
      destruct IH as [Ho1 Hf]. rewrite <- app_assoc in Ho1. split; [done|]. by constructor.
Qed.

(** ** The whole capture *)
Definition started (o : VerificationObservation) : Prop := capturing 0 (preflighted 0) o.

(** What a finished capture hands to the verifier. *)
Definition captured_post (name : bytes) (c : CapturedChain) (o : VerificationObservation) : Prop :=
  cc_name c = name /\ option_map cm_file_name (last (cc_members c)) = Some name /\
  exists first rest,
    capturing (length (cc_members c)) (identified (first :: rest)) o /\
    Forall2 (fun m s => Resolve.read_superblock (cc_destination c) (cm_file_name m) = Ok s)
      (cc_members c) (first :: rest) /\
    seq_in_chain first = 0 /\ parent_uuid first = Ids.ZERO /\
    ancestry_consistent first 0 None (first :: rest) = true /\
    (forall target, last (first :: rest) = Some target -> VerifyImages.is_whole_disk target = true ->
      length (cc_members c) = 1%nat).

Lemma identify_all_triple n files members headers :
  n = length members -> length headers = length members ->
  ctriple (capturing n (copied n NotStarted)) (identify files 0 (combine members headers))
    (fun captured o => capturing n (identified captured) o /\
      Forall2 (fun m s => Resolve.read_superblock {| cd_files := files |} (cm_file_name m) = Ok s) members captured)
    partial_ok.
Proof.
  intros Hn Hl. eapply ct_conseq; [apply (identify_triple n files (combine members headers) [])|..|done].
  - intros o. apply capturing_impl. intros i m Hi (H1 & H2 & H3 & H4 & _). destruct (H4 Hi) as [H5 H6].
    by split_and!.
  - intros captured o [Ho Hf]. cbn [app] in Ho. split; [done|].
    clear -Hf Hl. revert headers captured Hl Hf.
    induction members as [|m members IH]; intros [|h headers] captured Hl Hf; try done; inversion Hf; subst; constructor.
    + done.
    + eapply IH; [|done]. by injection Hl.
Qed.

Lemma resize_pending n o : started o -> capturing n (preflighted 0) (with_members (resize n) o).
Proof.
  intros [A B C Dm]. assert (vo_members o = []) as Hnil by (by destruct (vo_members o)).
  constructor; cbn [with_members vo_members vo_content_coverage]; try done; rewrite Hnil; unfold resize; cbn [length].
  - rewrite take_nil, Nat.sub_0_r. cbn [app]. by rewrite length_replicate.
  - rewrite take_nil, Nat.sub_0_r. cbn [app]. intros i m Hi. apply lookup_replicate in Hi as [-> _].
    split_and!; try done. lia.
Qed.

Lemma started_partial o : started o -> partial_ok o.
Proof. apply preflighted_partial. Qed.

Lemma capture_chain_triple world scratch c options name :
  ctriple started (capture_chain world scratch c options name) (captured_post name) partial_ok.
Proof.
  unfold capture_chain, at_, check_cancel. destruct (_ =? 0); [apply ct_fail, started_partial|].
  apply ct_ran; [apply started_partial|]. intros _. apply ct_got; [apply started_partial|]. intros members _.
  destruct (bool_decide _) eqn:Elast; [|apply ct_fail, started_partial]. cbn [negb].
  apply bool_decide_eq_true in Elast. set (n := length members).
  pose proof (preflighted_partial n n) as Hpre. pose proof (copied_partial n n NotStarted) as Hcp.
  eapply (ct_bind _ _ _ (fun _ => capturing n (preflighted 0))).
  { apply ct_members. intros o. apply resize_pending. }
  intros _. eapply ct_bind; [apply (preflight_triple _ _ _ n members 0 0)|]. intros [[sources headers] total].
  cbn [fst snd Nat.add]. intros run0 o0 (Ho & Hs & Hh). fold n in Ho. revert run0 o0 Ho.
  match goal with |- forall run o, _ -> match ?m (run, o) with _ => _ end =>
    change (ctriple (capturing n (preflighted n)) m (captured_post name) partial_ok) end.
  apply ct_got; [done|]. intros _ _. apply ct_got; [done|]. intros available _.
  destruct (_ <? _); [by apply ct_fail|]. apply ct_ran; [done|]. intros _.
  eapply ct_bind.
  { eapply ct_conseq; [apply (copy_members_triple n world c scratch sources 0)|..|done].
    - intros o. apply capturing_impl. intros i m Hi (H1 & H2 & H3 & H4 & H5). split_and!; try done; auto; lia.
    - intros a o Ho. exact Ho. }
  intros files. cbn [Nat.add]. rewrite Hs. fold n. apply ct_ran; [intros o; apply Hcp; by left|]. intros _.
  eapply ct_bind; [by apply (identify_all_triple n files members headers)|]. intros captured.
  intros run0 o0 [Ho Hf]. revert run0 o0 Ho.
  match goal with |- forall run o, _ -> match ?m (run, o) with _ => _ end =>
    change (ctriple (capturing n (identified captured)) m (captured_post name) partial_ok) end.
  pose proof (identified_partial n captured) as Hid. unfold validate_captured_ancestry.
  destruct captured as [|first rest]; [by apply ct_fail|].
  destruct (_ || _) eqn:E1; [by apply ct_fail|]. bprop.
  destruct (ancestry_consistent _ _ _ _) eqn:E2; [|by apply ct_fail]. cbn [negb].
  destruct (last (first :: rest)) as [target|] eqn:E3; [|by apply ct_fail].
  destruct (VerifyImages.is_whole_disk target && _) eqn:E4; [by apply ct_fail|].
  intros run o Ho. cbn. split_and!; [done|done|]. exists first, rest. split_and!; try done.
  intros t Ht Hw. rewrite E3 in Ht. injection Ht as ->. rewrite Hw in E4. cbn [andb] in E4.
  apply negb_false_iff, Z.eqb_eq in E4. apply Forall2_length in Hf. unfold zlen in E4. cbn [cc_members length] in *. lia.
Qed.

(** ** The captured ancestry and the history's *)

Lemma member_kind_not_full s : seq_in_chain s <> 0 -> member_kind s <> Full.
Proof. intros Hs. unfold member_kind. rewrite (proj2 (Z.eqb_neq _ _)) by done. by destruct (_ || _). Qed.

Lemma ancestry_from_headers first headers : forall members index previous seen,
  Forall2 (fun m s => mo_identity m = Some (identity_of s)) members headers ->
  ancestry_consistent first index previous headers = true -> 0 <= index ->
  (previous = None -> index = 0 /\ forall s, head headers = Some s -> parent_uuid s = Ids.ZERO) ->
  (forall p, previous = Some p -> index <> 0) ->
  NoDup (map image_uuid headers) -> Forall (fun s => image_uuid s ∉ seen) headers ->
  ancestry_from (identity_of first) index (identity_of <$> previous) seen members = true.
Proof.
  induction headers as [|s headers IH]; intros members index previous seen Hf Hc Hix Hnone Hsome Hnd Hseen;
    inversion Hf as [|m ? members' ? Hm Hf']; subst; [done|].
  cbn [ancestry_from]. rewrite Hm. cbn [ancestry_consistent] in Hc. rewrite !andb_true_iff in Hc.
  destruct Hc as [[[[[[[[[[C1 C2] C3] C4] C5] _] _] _] C9] C10] C11].
  apply Z.ltb_lt in C1. rewrite (proj2 (Z.leb_gt _ _)) by lia.
  inversion Hnd as [|? ? Hni Hnd']; subst. inversion Hseen as [|? ? Hs Hseen']; subst.
  cbn [identity_of mi_seq_in_chain mi_chain_id mi_set_id mi_image_kind mi_whole_disk mi_parent_uuid mi_image_uuid
    mi_legacy_header_kind]. rewrite C2, C3, C4, C5, C9. cbn [andb].
  assert ((if index =? 0 then bool_decide (parent_uuid s = Ids.ZERO)
    else match identity_of <$> previous with
         | Some parent => bool_decide (parent_uuid s = mi_image_uuid parent)
         | None => false end) = true) as ->.
  { destruct previous as [p|]; cbn [fmap option_fmap option_map].
    - rewrite (proj2 (Z.eqb_neq _ _)) by (by apply (Hsome p)). exact C10.
    - destruct (Hnone eq_refl) as [-> Hz]. cbn. apply bool_decide_eq_true. by apply Hz. }
  assert (negb ((0 <? index) && bool_decide (member_kind s = Full)) = true) as ->.
  { apply Z.eqb_eq in C2. destruct (Z.ltb_spec 0 index); [|done]. cbn [andb].
    rewrite bool_decide_false; [done|]. apply member_kind_not_full. lia. }
  rewrite bool_decide_true by done. cbn [andb]. apply (IH members' (index + 1) (Some s)); try done; try lia.
  rewrite List.Forall_forall in *. intros t Ht Hin. apply elem_of_cons in Hin as [Heq|Hin].
  - apply Hni. rewrite <- Heq. apply list_elem_of_In, in_map. done.
  - by apply (Hseen' t).
Qed.

Lemma identities n headers o :
  capturing n (identified headers) o -> length headers = n ->
  Forall2 (fun m s => mo_identity m = Some (identity_of s)) (vo_members o) headers.
Proof.
  intros [_ _ Hl Hm] Hn. apply Forall2_same_length_lookup. split; [congruence|].
  intros i m s Hi Hs. destruct (Hm i m Hi) as (_ & _ & _ & _ & ->). by rewrite Hs.
Qed.

Lemma captured_facts_of n headers o :
  capturing n (identified headers) o -> length headers = n -> headers <> [] -> captured_facts (vo_members o).
Proof.
  intros Hc Hn Hne. pose proof (identities n headers o Hc Hn) as Hids. destruct Hc as [_ _ Hl Hm]. split.
  - intros Hnil. rewrite Hnil in Hl. cbn in Hl. apply Hne, nil_length_inv. lia.
  - apply Forall_lookup. intros i m Hi. destruct (Hm i m Hi) as (_ & (len & -> & Hlen) & H3 & H4 & _).
    destruct (Forall2_lookup_l _ _ _ _ _ Hids Hi) as (s & _ & ->). split_and!; try done. unfold SB_SIZE in Hlen. lia.
Qed.
End triples.

(** ** Properties *)
Section properties.
Context `{Primitives} `{Destination D}.

(** The image ids of an observation. *)
Definition observed_ids (o : VerificationObservation) : list Id :=
  omap (fun m => mi_image_uuid <$> mo_identity m) (vo_members o).

(** Only block images record a whole disk. *)
Definition disks_are_blocks (o : VerificationObservation) : Prop :=
  Forall (fun m => forall id, mo_identity m = Some id -> mi_whole_disk id = true -> mi_image_kind id = Block)
    (vo_members o).

Lemma observed_ids_headers (ms : list MemberObservation) (headers : list Superblock) :
  Forall2 (fun m s => mo_identity m = Some (identity_of s)) ms headers ->
  omap (fun m => mi_image_uuid <$> mo_identity m) ms = map image_uuid headers.
Proof. induction 1 as [|m s ms headers Hm _ IH]; [done|]. cbn [omap list_omap]. rewrite Hm. cbn. by rewrite IH. Qed.

Lemma omap_ids (l l' : list MemberObservation) : map mo_identity l = map mo_identity l' ->
  omap (fun m => mi_image_uuid <$> mo_identity m) l = omap (fun m => mi_image_uuid <$> mo_identity m) l'.
Proof.
  revert l'. induction l as [|m l IH]; intros [|m' l'] Hl; try done. injection Hl as Hm Hl.
  cbn [omap list_omap]. rewrite Hm. by rewrite (IH l').
Qed.

Lemma tracked_identities ms0 scope cov P r :
  tracks ms0 scope cov P r -> map mo_identity (vo_members (vr_observation r)) = map mo_identity ms0.
Proof.
  intros [_ _ Hl Hm]. apply list_eq. intros i.
  change (map mo_identity (vo_members (vr_observation r)) !! i) with ((mo_identity <$> vo_members (vr_observation r)) !! i).
  change (map mo_identity ms0 !! i) with ((mo_identity <$> ms0) !! i). rewrite !list_lookup_fmap.
  destruct (vo_members (vr_observation r) !! i) as [m|] eqn:E.
  - destruct (lookup_lt_is_Some_2 ms0 i) as [m0 H0']; [rewrite <- Hl; by eapply lookup_lt_Some|].
    destruct (Hm i m0 m H0' E) as [(Hid & _) _]. rewrite H0'. cbn. by rewrite Hid.
  - apply lookup_ge_None in E. by rewrite lookup_ge_None_2 by lia.
Qed.

(** The ancestry of a capture is the history's, when its ids differ. *)
Lemma captured_ancestry (o : VerificationObservation) first rest :
  Forall2 (fun m s => mo_identity m = Some (identity_of s)) (vo_members o) (first :: rest) ->
  seq_in_chain first = 0 -> parent_uuid first = Ids.ZERO ->
  ancestry_consistent first 0 None (first :: rest) = true ->
  NoDup (map image_uuid (first :: rest)) ->
  (VerifyImages.is_whole_disk first = true -> image_kind first = Block /\ rest = []) ->
  valid_ancestry (vo_members o) = true.
Proof.
  intros Hids Hseq Hpar Hanc Hnd Hdisk. inversion Hids as [|m ? ms ? Hm Hms Hvo]; subst. unfold valid_ancestry.
  rewrite Hm. cbn [identity_of mi_seq_in_chain mi_parent_uuid mi_legacy_header_kind mi_whole_disk mi_image_kind].
  rewrite Hseq, bool_decide_true by done. unfold member_kind. rewrite Hseq. cbn [Z.eqb negb orb bool_decide decide].
  rewrite bool_decide_true by done. cbn [negb].
  destruct (VerifyImages.is_whole_disk first) eqn:Ew; cbn [andb].
  - destruct (Hdisk eq_refl) as [Hk ->]. inversion Hms; subst. rewrite bool_decide_true by done. cbn [negb orb zlen length].
    apply (ancestry_from_headers first [first] [m] 0 None []); try done.
    + by constructor.
    + intros _. split; [done|]. by intros s [= <-].
    + constructor; [|constructor]. apply not_elem_of_nil.
  - apply (ancestry_from_headers first (first :: rest) (m :: ms) 0 None []); try done.
    + by constructor.
    + intros _. split; [done|]. by intros s [= <-].
    + apply List.Forall_forall. intros. apply not_elem_of_nil.
Qed.

Lemma coverage_matches_kind target request id :
  id = identity_of target ->
  (VerifyImages.is_whole_disk target = true -> image_kind target = Block) ->
  coverage_matches (coverage_of target request) id
    (if vq_chain request then EveryMember else SelectedRecoveryPoint) = true.
Proof.
  intros -> Hd. unfold coverage_of, is_disk, coverage_matches. cbn [identity_of mi_whole_disk mi_image_kind].
  destruct (image_kind target) eqn:Ek, (VerifyImages.is_whole_disk target) eqn:Ew, (vq_chain request); cbn; try done;
    by specialize (Hd eq_refl).
Qed.

Lemma phases_report {S} `{Destination S} (d : S) members name target job s0 s rep :
  VerifyImages.verify_phases d members name target job s0 = (s, Ok rep) -> rep = vs_report s.
Proof.
  unfold VerifyImages.verify_phases. intros Hp. do 9 (apply step_bind_Ok in Hp as (? & ? & _ & Hp)).
  unfold VerifySteps.looking, reads in Hp. by injection Hp as <- <-.
Qed.

Lemma ancestry_consistent_whole first index previous headers :
  ancestry_consistent first index previous headers = true ->
  forall s, In s headers -> VerifyImages.is_whole_disk s = VerifyImages.is_whole_disk first.
Proof.
  revert index previous. induction headers as [|h headers IH]; intros index previous Hc s [].
  - subst. cbn [ancestry_consistent] in Hc. rewrite !andb_true_iff in Hc. destruct Hc as [[[_ Hw] _] _].
    by apply eqb_prop in Hw.
  - cbn [ancestry_consistent] in Hc. rewrite !andb_true_iff in Hc. destruct Hc as [_ Hc]. by eapply IH.
Qed.

Lemma disks_of_headers (ms ms0 : list MemberObservation) headers :
  map mo_identity ms = map mo_identity ms0 ->
  Forall2 (fun m s => mo_identity m = Some (identity_of s)) ms0 headers ->
  Forall (fun m => forall id, mo_identity m = Some id -> mi_whole_disk id = true -> mi_image_kind id = Block) ms ->
  forall h, In h headers -> VerifyImages.is_whole_disk h = true -> image_kind h = Block.
Proof.
  intros Hs Hf. revert ms Hs. induction Hf as [|m0 h ms0 headers Hm _ IH]; intros [|m ms] Hs Hb g Hg Hw; try done.
  injection Hs as Hm' Hs. inversion Hb as [|? ? Hb1 Hb2]; subst. destruct Hg as [<-|Hg].
  - apply (Hb1 (identity_of h)); [congruence|done].
  - by eapply IH.
Qed.

(** C26: Every captured verification can be recorded. Whatever the destination, the
    scratch directory, the flag of cancellation or the images do, the attempt
    [verify_image_captured] returns passes the validation the history applies
    before it writes a receipt: a failed one at any stage, and a successful one
    with exactly the completed stages its coverage names and an ancestry from
    the full member to the selected one. For a success the images must carry
    distinct ids, and only a block image may be marked as a whole disk. *)
Theorem attempt_recordable (world : Source D) (scratch : Scratch) (options : CaptureOptions) (name : bytes)
    (job : VerifyJob) (run : Run) :
  let attempt := snd (verify_image_captured world scratch options name job run) in
  (va_report attempt <> None ->
    NoDup (observed_ids (va_observation attempt)) /\ disks_are_blocks (va_observation attempt)) ->
  validate_attempt attempt = true.
Proof.
  cbv zeta. unfold verify_image_captured.
  set (scope := if vq_chain (vj_request job) then EveryMember else SelectedRecoveryPoint).
  pose proof (capture_chain_triple scope world scratch (vj_context job) options name run (Observations.new scope)) as Hcap.
  destruct (capture_chain _ _ _ _ _ _) as [[run1 o] [c|f]].
  2:{ intros _. cbn [snd]. apply (partial_accepted scope), Hcap. by constructor. }
  destruct Hcap as (Hname & Hlast & first & rest & Hobs & Hread & Hseq & Hpar & Hanc & Hdisk); [by constructor|].
  pose proof (Forall2_length _ _ _ Hread) as Hlen. set (ms0 := vo_members o) in *.
  pose proof (captured_facts_of scope _ _ o Hobs (eq_sym Hlen) ltac:(done)) as Hfacts. fold ms0 in Hfacts.
  pose proof (identities scope _ _ o Hobs (eq_sym Hlen)) as Hids. fold ms0 in Hids.
  assert (length (cc_members c) = length ms0) as Hlm by (symmetry; exact (cg_length _ _ _ _ Hobs)).
  assert (tracks ms0 scope None (structured 0) (Recorders.new o)) as Htr.
  { destruct Hobs as [A B C Dm]. constructor; cbn [Recorders.new vr_observation]; try done.
    intros i m0 m H1 H2. fold ms0 in H2. assert (m = m0) as -> by congruence. split; [by split_and!|].
    destruct (Dm i m0 H1) as ((S1 & S2 & S3) & _). unfold structured, structuring. rewrite S1, S2. split_and!; try done. lia. }
  unfold VerifyImages.verify_members_in_set_inner. rewrite Hname, Hlast, bool_decide_true by done. cbn [negb].
  destruct (last (first :: rest)) as [target|] eqn:Et; [|by apply last_None in Et].
  assert (Resolve.read_superblock (cc_destination c) name = Ok target) as ->.
  { destruct (last (cc_members c)) as [lm|] eqn:El; [|done]. injection Hlast as <-.
    rewrite last_lookup in El. pose proof (last_lookup (first :: rest)) as Hl0. rewrite Et in Hl0. rewrite <- Hlen in Hl0.
    destruct (Forall2_lookup_l _ _ _ _ _ Hread El) as (s & Hs & Hok). congruence. }
  destruct (Progress.reporter _ _ _) as [run2 [reporter|e]]; [|intros _; cbn [snd]; apply (fail_accepted ms0 scope); [done|by eapply structured_failable]].
  assert (is_disk target = true -> length ms0 = 1%nat) as Hd1.
  { unfold is_disk. intros [_ Hw]%andb_true_iff. rewrite <- Hlm. by apply (Hdisk target). }
  set (s0 := {| vs_run := run2 |}).
  pose proof (verify_phases_triple ms0 scope (cc_destination c) (cc_members c) name target job Hlm (proj1 Hfacts) Hd1 s0) as Hrun.
  pose proof (steady_phases (cc_destination c) (cc_members c) name target job s0 ltac:(done)) as Hbad.
  destruct (VerifyImages.verify_phases _ _ _ _ _ s0) as [s [rep|e]] eqn:Hph.
  - destruct Hrun as (r & Hr & Ht); [by exists (Recorders.new o)|]. cbn [fst] in Hbad. rewrite Hr.
    intros Hhyp. cbn [snd va_report va_observation Recorders.finish] in Hhyp.
    destruct (Hhyp ltac:(done)) as [Hnd Hblk].
    assert (map mo_identity (vo_members (vr_observation r)) = map mo_identity ms0) as Hsame
      by by eapply tracked_identities.
    assert (NoDup (map image_uuid (first :: rest))) as Hnd'.
    { rewrite <- (observed_ids_headers ms0 (first :: rest) Hids), <- (omap_ids _ _ Hsame). exact Hnd. }
    assert (forall h, In h (first :: rest) -> VerifyImages.is_whole_disk h = true -> image_kind h = Block) as Hkinds.
    { by apply (disks_of_headers (vo_members (vr_observation r)) ms0). }
    assert (In target (first :: rest)) as Htin.
    { apply list_elem_of_In. rewrite last_lookup in Et. by eapply list_elem_of_lookup_2. }
    assert (valid_ancestry ms0 = true) as Hva.
    { apply (captured_ancestry o first rest); try done. intros Hw. split; [apply Hkinds; [by left|done]|].
      assert (VerifyImages.is_whole_disk target = true) as Hwt
        by (rewrite (ancestry_consistent_whole first 0 None (first :: rest) Hanc target Htin); done).
      specialize (Hdisk target eq_refl Hwt). rewrite Hlen in Hdisk. by destruct rest. }
    cbn [snd]. eapply (success_accepted ms0 scope rep r _ _ (identity_of target) Hfacts Hva); [|..|exact Ht|].
    + rewrite last_lookup in Et. rewrite <- (Forall2_length _ _ _ Hids) in Et.
      assert (ms0 <> []) as Hne by apply Hfacts.
      destruct (lookup_lt_is_Some_2 ms0 (pred (length ms0))) as [m Hm]; [destruct ms0; [done|cbn; lia]|].
      exists m. rewrite last_lookup. split; [done|].
      destruct (Forall2_lookup_l _ _ _ _ _ Hids Hm) as (h & Hh & ->). congruence.
    + apply coverage_matches_kind; [done|]. by apply Hkinds.
    + by rewrite (phases_report _ _ _ _ _ _ _ _ Hph).
    + by intros i cc _ Hcc.
  - destruct Hrun as (r & Hr & Ht); [by exists (Recorders.new o)|]. rewrite Hr. intros _. cbn [snd].
    by apply (fail_accepted ms0 scope).
Qed.
End properties.
