(* ===== verification/Retention.v ===== *)
(** * Retention ([crates/lr-engine/src/retention.rs])

    Which chains of a set stay, which go, and the deletion itself. Every step
    threads the destination, so that what an error leaves behind is part of
    the model. *)

From S2P Require Import Prelude Core Crypto Superblock ImageReader EngineKeys CatalogRecords Destination.
From S2P Require Import Chain EngineCatalog Verifier.

Definition SET_LOCK_TTL_SECS : Z := 300.

Record RetentionOptions := {
  ro_keep_chains : Z;
  ro_dry_run : bool;
  ro_break_stale_lock : bool;
  ro_set_lock_ttl_secs : option Z;
  ro_verify_first : bool;
  ro_encryption : Encryption;
}.

Definition default_options : RetentionOptions :=
  {| ro_keep_chains := 2; ro_dry_run := false; ro_break_stale_lock := false;
     ro_set_lock_ttl_secs := None; ro_verify_first := false; ro_encryption := NoEncrypt |}.

Record DeletedChain := {
  dc_chain_id : bytes;
  dc_files : list bytes;
  dc_bytes : Z;
  dc_reason : string;
}.

Record RetentionReport := {
  rr_set : bytes;
  rr_kept : list bytes;
  rr_deleted : list DeletedChain;
  rr_dry_run : bool;
  rr_complete_chains : Z;
  rr_warnings : list string;
}.

(** What [apply] has decided when it reaches the gate. *)
Record Selection := {
  se_usable : list ChainRecord;
  se_kept : list ChainRecord;
  se_freshly_verified : Z;
  se_doomed : list (ChainRecord * string);
  se_catalog : Catalog;
  se_warnings : list string;
}.

Module Retain.
Definition id_text (c : ChainRecord) : bytes := Ids.to_uuid_string (ch_chain_id c).

Definition files_of (c : ChainRecord) : list bytes := map mr_file_name (ch_members c).

(** [sum] and [+=] of sizes, as a release build computes them. *)
Definition sum_u64 (l : list Z) : Z := fold_left (fun a b => (a + b) mod 2 ^ 64) l 0.

Definition freed_bytes (r : RetentionReport) : Z := sum_u64 (map dc_bytes (rr_deleted r)).

Definition is_verified (c : ChainRecord) : bool :=
  negb (zlen (ch_members c) =? 0)
  && forallb (fun m => match mr_verified_unix m with Some _ => true | None => false end)
       (ch_members c).

(** The comparison of [complete.sort_by(..)]: newest first, then by id text. *)
Definition newest_leb (left right : ChainRecord) : bool :=
  match ch_created_unix right ?= ch_created_unix left with
  | Lt => true
  | Gt => false
  | Eq => negb (bool_decide (bytes_cmp (id_text right) (id_text left) = Gt))
  end.

Section ops.
Context `{Primitives} `{CatalogJson} `{Destination D} `{ChainVerifier D}.

(** [find_map] over the members; the text only says that there is one. *)
Fixpoint damaged_in (d : D) (members : list MemberRecord) : option string :=
  match members with
  | [] => None
  | member :: members =>
    match (let* b := open_ro d (mr_file_name member) in Img.open b) with
    | Err _ => Some "{}: {error}"%string
    | Ok _ => damaged_in d members
    end
  end.

Definition damaged_member (d : D) (chain : ChainRecord) : option string :=
  damaged_in d (ch_members chain).

(** The loop that fills [usable]. *)
Fixpoint usable_chains (d : D) (complete : list ChainRecord) (warnings : list string) :
    list ChainRecord * list string :=
  match complete with
  | [] => ([], warnings)
  | chain :: complete =>
    match damaged_member d chain with
    | None =>
      let '(usable, warnings) := usable_chains d complete warnings in (chain :: usable, warnings)
    | Some _ =>
      usable_chains d complete (warnings ++
        ["chain {} is damaged ({problem}); it does not count as a backup and is left in place"%string])
    end
  end.

Definition verify_replacement (d : D) (chain : ChainRecord) (encryption : Encryption) : result unit :=
  let* newest := ok_or (Chains.latest_member chain) (Corrupt "the recovery chain has no members") in
  let request :=
    {| vq_image := mr_file_name newest; vq_encryption := encryption; vq_chain := true |} in
  let* report := verify_in_set d (mr_file_name newest) request in
  Reports.ensure_complete_recovery report.

(** [verify_newest]: the loop keeps [usable[..index]] as it goes; what is left
    is [todo]. *)
Fixpoint verify_newest (todo : list ChainRecord) (keep_count passed : Z) (encryption : Encryption)
    (catalog : Catalog) (warnings : list string) :
    step D (list ChainRecord * Catalog * list string * Z) :=
  match todo with
  | [] => step_ret ([], catalog, warnings, passed)
  | chain :: rest =>
    if negb (passed <? keep_count) then step_ret (todo, catalog, warnings, passed)
    else fun d =>
      match verify_replacement d chain encryption with
      | Ok _ =>
        (do* now := clock in
         let catalog := mark_verified catalog (files_of chain) now in
         let chain :=
           match Catalogs.chain catalog (ch_chain_id chain) with Some c => c | None => chain end in
         do* (usable, catalog, warnings, passed) :=
           verify_newest rest keep_count (passed + 1) encryption catalog warnings in
         step_ret (chain :: usable, catalog, warnings, passed)) d
      | Err _ =>
        verify_newest rest keep_count passed encryption catalog (warnings ++
          ["chain {} failed verification ({error}); it does not count as a backup and is left in place"%string]) d
      end
  end.

(** The chains within [keep_count], and the newest verified one behind them
    when none of those is verified. *)
Definition kept_chains (usable : list ChainRecord) (keep_count : Z) (warnings : list string) :
    list ChainRecord * list string :=
  let kept := ztake keep_count usable in
  if negb (existsb is_verified kept) then
    match find is_verified (zdrop keep_count usable) with
    | Some verified =>
      (kept ++ [verified], warnings ++
        ["chain {} is kept as well: it is the newest verified chain, and no chain within keep_chains has been verified (run verify --chain, or retention --verify-first)"%string])
    | None => (kept, warnings)
    end
  else (kept, warnings).

(** The loop over the incomplete chains. *)
Fixpoint doom_incomplete (newest_kept_created : Z) (chains : list ChainRecord)
    (warnings : list string) : list (ChainRecord * string) * list string :=
  match chains with
  | [] => ([], warnings)
  | chain :: chains =>
    if Chains.is_complete chain then doom_incomplete newest_kept_created chains warnings
    else if newest_kept_created <? ch_created_unix chain then
      doom_incomplete newest_kept_created chains (warnings ++
        ["chain {} is incomplete and newer than the newest complete chain; leaving it"%string])
    else
      let '(doomed, warnings) := doom_incomplete newest_kept_created chains warnings in
      ((chain, "incomplete"%string) :: doomed, warnings)
  end.

Definition newest_created (usable : list ChainRecord) : Z :=
  match usable with chain :: _ => ch_created_unix chain | [] => 0 end.

(** [acquire_set_lock_for]. *)
Definition acquire_set_lock (options : RetentionOptions) : step D unit := fun d =>
  let ttl := match ro_set_lock_ttl_secs options with Some t => t | None => SET_LOCK_TTL_SECS end in
  if ro_break_stale_lock options then lock_set_breaking_stale d ttl else lock_set d ttl.

Definition keep_count_of (options : RetentionOptions) : Z := Z.max (ro_keep_chains options) 1.

(** The doomed chains, oldest first. *)
Definition doomed_chains (usable kept : list ChainRecord) (catalog : Catalog)
    (warnings : list string) : list (ChainRecord * string) * list string :=
  let ids := map id_text kept in
  let beyond := filter (fun c => id_text c ∉ ids) usable in
  let '(incomplete, warnings) :=
    doom_incomplete (newest_created usable) (cat_chains catalog) warnings in
  (sort_by_key (fun x => ch_created_unix (fst x))
     (map (fun c => (c, "beyond keep_chains"%string)) beyond ++ incomplete), warnings).

(** [apply] from the lock to the list of doomed chains. *)
Definition select (set_name : bytes) (options : RetentionOptions) : step D Selection :=
  do* _ := acquire_set_lock options in
  do* now := clock in
  do* loaded := reads (fun d => Caches.load d set_name now) in
  let complete :=
    sort_by newest_leb
      (filter (fun c => Chains.is_complete c = true) (cat_chains (ld_catalog loaded))) in
  let warnings :=
    (if zlen complete =? 0
     then ["the set has no complete chain; nothing to keep or delete"%string] else []) ++
    (if ro_keep_chains options =? 0
     then ["keep_chains is 0; the newest complete chain is kept anyway"%string] else []) in
  do* (usable, warnings) := reads (fun d => Ok (usable_chains d complete warnings)) in
  let keep_count := keep_count_of options in
  do* (usable, catalog, warnings, freshly_verified) :=
    (if ro_verify_first options then
       verify_newest usable keep_count 0 (ro_encryption options) (ld_catalog loaded) warnings
     else step_ret (usable, ld_catalog loaded, warnings, 0)) in
  let '(kept, warnings) := kept_chains usable keep_count warnings in
  let '(doomed, warnings) := doomed_chains usable kept catalog warnings in
  step_ret {| se_usable := usable; se_kept := kept; se_freshly_verified := freshly_verified;
              se_doomed := doomed; se_catalog := catalog; se_warnings := warnings |}.

(** The loop over the kept chains until one verifies. *)
Fixpoint any_verifies (d : D) (kept : list ChainRecord) (encryption : Encryption)
    (warnings : list string) : bool * list string :=
  match kept with
  | [] => (false, warnings)
  | chain :: kept =>
    match verify_replacement d chain encryption with
    | Ok _ => (true, warnings)
    | Err _ =>
      any_verifies d kept encryption
        (warnings ++ ["chain {} cannot authorize retention: {error}"%string])
    end
  end.

(** The gate: nothing is deleted before a kept chain has been verified. *)
Definition authorize (options : RetentionOptions) (s : Selection) : step D (list string) :=
  if negb (zlen (se_doomed s) =? 0) && (se_freshly_verified s =? 0) then
    do* (checked, warnings) :=
      reads (fun d => Ok (any_verifies d (se_kept s) (ro_encryption options) (se_warnings s))) in
    if negb checked then
      step_err (Unsupported "retention refused: no retained recovery chain passed fresh verification; no images were deleted. Supply the correct keys or create and verify a healthy backup. {}")
    else step_ret warnings
  else step_ret (se_warnings s).

Definition delete_file (file : bytes) : step D unit :=
  do* _ := lock_verify in fun d => delete d file.

(** The deletion loop. *)
Fixpoint delete_chains (dry_run : bool) (doomed : list (ChainRecord * string)) (catalog : Catalog) :
    step D (list DeletedChain * Catalog) :=
  match doomed with
  | [] => step_ret ([], catalog)
  | (chain, reason) :: doomed =>
    let files := files_of chain in
    let size := sum_u64 (map mr_size_bytes (ch_members chain)) in
    do* catalog :=
      (if dry_run then step_ret catalog
       else
         do* _ := step_iter delete_file files in
         step_ret (Catalogs.with_chains catalog
           (filter (fun c => ch_chain_id c <> ch_chain_id chain) (cat_chains catalog)))) in
    do* (deleted, catalog) := delete_chains dry_run doomed catalog in
    step_ret ({| dc_chain_id := id_text chain; dc_files := files; dc_bytes := size;
                 dc_reason := reason |} :: deleted, catalog)
  end.

Definition publish_catalog (catalog : Catalog) : step D unit :=
  do* now := clock in
  do* _ := lock_verify in
  Caches.write_catalog
    {| cat_version := cat_version catalog; cat_set_id := cat_set_id catalog;
       cat_set_name := cat_set_name catalog; cat_updated_unix := now;
       cat_chains := cat_chains catalog |}.

Definition apply (set_name : bytes) (options : RetentionOptions) : step D RetentionReport :=
  do* s := select set_name options in
  do* warnings := authorize options s in
  do* (deleted, catalog) := delete_chains (ro_dry_run options) (se_doomed s) (se_catalog s) in
  do* _ := (if ro_dry_run options then step_ret tt else publish_catalog catalog) in
  step_ret {| rr_set := set_name; rr_kept := map id_text (se_kept s); rr_deleted := deleted;
              rr_dry_run := ro_dry_run options; rr_complete_chains := zlen (se_usable s);
              rr_warnings := warnings |}.
End ops.

(** *** Policy helpers *)

(** [max_incrementals.filter(|max| *max > 0)] and the rest of [may_extend_chain]. *)
Definition may_extend_chain (chain : option ChainRecord) (max_incrementals : option Z) : bool :=
  match max_incrementals with
  | Some max =>
    if negb (0 <? max) then true
    else
      match chain with
      | None => false
      | Some chain =>
        if negb (Chains.is_complete chain) then false
        else zlen (filter (fun m => 0 < mr_seq_in_chain m) (ch_members chain)) <? max
      end
  | None => true
  end.

Definition validate_keep_chains (value : Z) : result Z :=
  if value <? 0 then Err (Unsupported "keep_chains must not be negative (got {value})")
  else Ok value.
End Retain.
