(* ===== verification/RetentionSafety.v ===== *)
(** * Retention never deletes the last good backup

    The safety of [Retention.v] over any lawful destination and any verifier:
    which files a run can touch, and what has been verified before it does. *)

From S2P Require Import Prelude Core Crypto Superblock ImageReader EngineKeys CatalogRecords Destination.
From S2P Require Import Chain EngineCatalog Verifier Retention.

(** ** Chains up to verification stamps *)
Definition unstamped_member (m : MemberRecord) : MemberRecord := Caches.set_verified m None.

Definition unstamped (c : ChainRecord) : ChainRecord :=
  {| ch_chain_id := ch_chain_id c; ch_created_unix := ch_created_unix c;
     ch_source_label := ch_source_label c; ch_members := map unstamped_member (ch_members c) |}.

Lemma find_map_pred {A B} (f : A -> B) (p : B -> bool) (q : A -> bool) l :
  (forall x, p (f x) = q x) -> find p (map f l) = option_map f (find q l).
Proof.
  intros Hp. induction l as [|x l IH]; [done|]. cbn. rewrite Hp. by destruct (q x).
Qed.

Lemma max_by_key_map {A B} (f : A -> B) (k : B -> Z) (k' : A -> Z) l :
  (forall x, k (f x) = k' x) -> max_by_key k (map f l) = option_map f (max_by_key k' l).
Proof.
  intros Hk. induction l as [|x l IH] using rev_ind; [done|].
  rewrite map_app. cbn [map]. rewrite !max_by_key_snoc, IH.
  destruct (max_by_key k' l) as [b|]; [|done]. cbn. rewrite !Hk. by case_match.
Qed.

Lemma complete_unstamped c : Chains.is_complete (unstamped c) = Chains.is_complete c.
Proof.
  unfold Chains.is_complete. assert (Chains.seqs (unstamped c) = Chains.seqs c) as ->.
  { unfold Chains.seqs, unstamped. cbn. by rewrite map_map. }
  cbn [ch_members unstamped]. rewrite (find_map_pred _ _ (fun m => mr_seq_in_chain m =? 0)) by done.
  by destruct (find _ (ch_members c)).
Qed.

Lemma files_unstamped c : Retain.files_of (unstamped c) = Retain.files_of c.
Proof. unfold Retain.files_of, unstamped. cbn. by rewrite map_map. Qed.

Lemma latest_unstamped c :
  Chains.latest_member (unstamped c) = option_map unstamped_member (Chains.latest_member c).
Proof. unfold Chains.latest_member, unstamped. cbn. by apply max_by_key_map. Qed.

Lemma unstamped_id a b : unstamped a = unstamped b -> ch_chain_id a = ch_chain_id b.
Proof. intros H. by apply (f_equal ch_chain_id) in H. Qed.

Lemma unstamped_files a b : unstamped a = unstamped b -> Retain.files_of a = Retain.files_of b.
Proof. intros H. by rewrite <- files_unstamped, H, files_unstamped. Qed.

Lemma unstamped_complete a b :
  unstamped a = unstamped b -> Chains.is_complete a = Chains.is_complete b.
Proof. intros H. by rewrite <- complete_unstamped, H, complete_unstamped. Qed.

Lemma marked_unstamped c files now :
  map unstamped (cat_chains (mark_verified c files now)) = map unstamped (cat_chains c).
Proof.
  unfold mark_verified, Caches.update_members. cbn [cat_chains Catalogs.with_chains].
  rewrite map_map. apply map_ext. intros ch. unfold unstamped. cbn. f_equal. rewrite map_map.
  apply map_ext. intros m. unfold unstamped_member. by case_bool_decide.
Qed.

Lemma ids_unstamped c : Catalogs.ids c = map ch_chain_id (map unstamped (cat_chains c)).
Proof. unfold Catalogs.ids. by rewrite map_map. Qed.

(** A chain of the catalog, up to stamps. *)
Definition known (c : Catalog) (u : ChainRecord) : Prop :=
  In (unstamped u) (map unstamped (cat_chains c)).

Lemma known_In c ch : In ch (cat_chains c) -> known c ch.
Proof. apply in_map. Qed.

Lemma known_same_id c u v :
  NoDup (Catalogs.ids c) -> known c u -> known c v -> ch_chain_id u = ch_chain_id v ->
  unstamped u = unstamped v.
Proof.
  unfold known. rewrite ids_unstamped. intros Hd Hu Hv He.
  change (ch_chain_id (unstamped u) = ch_chain_id (unstamped v)) in He.
  set (l := map unstamped (cat_chains c)) in *. clearbody l.
  generalize dependent (unstamped v). generalize dependent (unstamped u). clear u v c.
  intros u Hu v Hv He. induction l as [|x l IH]; [done|]. cbn in Hd.
  apply NoDup_cons in Hd as [Hx Hd].
  destruct Hu as [->|Hu], Hv as [->|Hv]; [done| | |by auto].
  - destruct Hx. rewrite He. by apply list_elem_of_In, in_map.
  - destruct Hx. rewrite <- He. by apply list_elem_of_In, in_map.
Qed.

(** ** Choosing *)
Section choosing.
Context `{Primitives} `{CatalogJson} `{DestinationLaws D} `{ChainVerifier D}.

Lemma verify_unstamped d a b encryption :
  unstamped a = unstamped b ->
  Retain.verify_replacement d a encryption = Retain.verify_replacement d b encryption.
Proof.
  intros Hab. unfold Retain.verify_replacement.
  assert (option_map unstamped_member (Chains.latest_member a) =
    option_map unstamped_member (Chains.latest_member b)) as He by by rewrite <- !latest_unstamped, Hab.
  destruct (Chains.latest_member a) as [x|], (Chains.latest_member b) as [y|]; try done.
  cbn in He. injection He as _ _ _ _ _ _ _ _ _ He. cbn. by rewrite He.
Qed.

Lemma usable_chains_spec d complete w :
  fst (Retain.usable_chains d complete w) =
    filter (fun c => Retain.damaged_member d c = None) complete.
Proof.
  revert w. induction complete as [|c l IH]; intros w; [done|]. cbn [Retain.usable_chains].
  rewrite filter_cons. destruct (Retain.damaged_member d c) eqn:E.
  - rewrite decide_False by done. apply IH.
  - rewrite decide_True by done. specialize (IH w).
    destruct (Retain.usable_chains d l w). cbn in *. by rewrite IH.
Qed.

Lemma undamaged_present d c f :
  Retain.damaged_member d c = None -> In f (Retain.files_of c) -> is_Some (contents d f).
Proof.
  unfold Retain.damaged_member, Retain.files_of. induction (ch_members c) as [|m ms IH]; [done|].
  cbn [Retain.damaged_in map]. destruct (open_ro d (mr_file_name m)) as [b|] eqn:Eo; [|done].
  cbn [bind]. destruct (Img.open b); [|done]. intros Hd [<-|Hin]; [|by apply IH].
  apply open_ro_contents in Eo. by eexists.
Qed.

(** The same files, whatever else has changed. *)
Definition same_files (d d' : D) : Prop := forall m, m <> LOCK_FILE -> contents d' m = contents d m.

(** A chain that has just been verified, payload by payload. *)
Definition verified_on (d : D) (encryption : Encryption) (c : ChainRecord) : Prop :=
  exists d1, same_files d d1 /\ Retain.verify_replacement d1 c encryption = Ok tt.

Lemma verified_on_files d d' encryption c :
  same_files d d' -> verified_on d' encryption c -> verified_on d encryption c.
Proof. intros Hs (d1 & Hd1 & Hv). exists d1. split; [|done]. intros m Hm. rewrite (Hd1 m Hm). by apply Hs. Qed.

Record newest_verified (d : D) (encryption : Encryption) (keep_count passed : Z)
    (todo : list ChainRecord) (catalog : Catalog)
    (usable : list ChainRecord) (catalog' : Catalog) (passed' : Z) : Prop := {
  nv_catalog : map unstamped (cat_chains catalog') = map unstamped (cat_chains catalog);
  nv_usable : Forall (fun u => Exists (fun t => unstamped u = unstamped t) todo) usable;
  nv_passed : passed <= passed' /\ passed' <= Z.max passed keep_count;
  nv_verified : Forall (verified_on d encryption) (ztake (passed' - passed) usable);
  nv_enough : passed' - passed <= zlen usable;
}.

Lemma verify_newest_keeps m todo keep passed encryption : forall catalog w,
  keeps m (Retain.verify_newest todo keep passed encryption catalog w).
Proof.
  revert passed. induction todo as [|c todo IH]; intros passed catalog w; [apply keeps_ret|].
  cbn [Retain.verify_newest]. case_match; [apply keeps_ret|]. intros d.
  destruct (Retain.verify_replacement d c encryption); [|apply IH].
  revert d. apply keeps_bind; [apply keeps_clock|]. intros now.
  apply keeps_bind; [apply IH|]. intros [[[? ?] ?] ?]. apply keeps_ret.
Qed.

Lemma verify_newest_spec todo keep encryption : forall passed catalog w (d d' : D) usable catalog' w' passed',
  NoDup (Catalogs.ids catalog) -> Forall (known catalog) todo ->
  Retain.verify_newest todo keep passed encryption catalog w d =
    (d', Ok (usable, catalog', w', passed')) ->
  newest_verified d encryption keep passed todo catalog usable catalog' passed'.
Proof.
  induction todo as [|c todo IH]; intros passed catalog w d d' usable catalog' w' passed' Hd Hk;
    cbn [Retain.verify_newest].
  { intros [= <- <- <- _ <-]. split; [done|constructor|lia| |unfold zlen; cbn; lia].
    rewrite ztake_nonpos by lia. constructor. }
  destruct (Z.ltb_spec passed keep) as [Hlt|Hge]; cbn [negb].
  2: { intros [= <- <- <- _ <-]. split; [done| |lia| |].
       - apply Forall_forall. intros u Hu. apply Exists_exists. by exists u.
       - rewrite ztake_nonpos by lia. constructor.
       - pose proof (zlen_nonneg (c :: todo)). lia. }
  inversion Hk as [|? ? Hc Hk']; subst.
  destruct (Retain.verify_replacement d c encryption) as [u0|e] eqn:Ev.
  - intros Hr. apply step_bind_Ok in Hr as (d1 & now & Hclock & Hr).
    apply step_bind_Ok in Hr as (d2 & [[[us cat2] w2] p2] & Hrest & Hr). injection Hr as <- <- <- <- <-.
    set (marked := mark_verified catalog (Retain.files_of c) now) in *.
    pose proof (marked_unstamped catalog (Retain.files_of c) now) as Hmk. fold marked in Hmk.
    assert (NoDup (Catalogs.ids marked)) as Hdm by by rewrite ids_unstamped, Hmk, <- ids_unstamped.
    assert (same_files d d1) as Hs1.
    { intros m _. pose proof (keeps_clock m d) as Hx. by rewrite Hclock in Hx. }
    destruct (IH _ _ _ _ _ _ _ _ _ Hdm ltac:(unfold known in *; by rewrite Hmk) Hrest) as [Hcat Hu Hp Hv He].
    set (c' := match Catalogs.chain marked (ch_chain_id c) with Some c => c | None => c end).
    assert (unstamped c' = unstamped c) as Hc'.
    { subst c'. destruct (Catalogs.chain marked _) as [x|] eqn:Ex; [|done].
      apply chain_Some in Ex as [Hin Hid]. apply (known_same_id marked); [done| | |done].
      - by apply known_In.
      - unfold known. by rewrite Hmk. }
    split.
    + by rewrite Hcat.
    + constructor; [by constructor|]. eapply Forall_impl; [exact Hu|]. intros x Hx.
      by apply Exists_cons_tl.
    + lia.
    + replace (p2 - passed) with (1 + (p2 - (passed + 1))) by lia. unfold ztake.
      rewrite Z2Nat.inj_add by lia. cbn [Nat.add]. change (Z.to_nat 1) with 1%nat. cbn [Nat.add take].
      constructor.
      * exists d. split; [done|]. rewrite (verify_unstamped _ _ c) by done. by destruct u0.
      * eapply Forall_impl; [exact Hv|]. intros x. by apply verified_on_files.
    + rewrite zlen_cons. lia.
  - intros Hr. destruct (IH _ _ _ _ _ _ _ _ _ Hd Hk' Hr) as [Hcat Hu Hp Hv He].
    split; [done| |done..]. eapply Forall_impl; [exact Hu|]. intros x Hx. by apply Exists_cons_tl.
Qed.

Lemma kept_chains_spec usable keep w :
  let kept := fst (Retain.kept_chains usable keep w) in
  (exists more, kept = ztake keep usable ++ more) /\ incl kept usable /\
  (Exists (fun c => Retain.is_verified c = true) usable ->
   Exists (fun c => Retain.is_verified c = true) kept).
Proof.
  unfold Retain.kept_chains. destruct (existsb Retain.is_verified (ztake keep usable)) eqn:Ee; cbn [negb fst].
  - split_and!; [exists []; by rewrite app_nil_r| |].
    + intros c Hc. rewrite <- (ztake_zdrop keep usable). apply in_or_app. by left.
    + intros _. apply existsb_exists in Ee as (c & Hin & Hc). apply Exists_exists. exists c.
      by rewrite list_elem_of_In.
  - destruct (find Retain.is_verified (zdrop keep usable)) as [v|] eqn:Ef; cbn [fst].
    + apply find_some in Ef as [Hin Hv]. split_and!; [by eexists| |].
      * intros c [Hc|[<-|[]]]%in_app_iff; rewrite <- (ztake_zdrop keep usable); apply in_or_app; tauto.
      * intros _. apply Exists_app. right. by constructor.
    + split_and!; [exists []; by rewrite app_nil_r| |].
      * intros c Hc. rewrite <- (ztake_zdrop keep usable). apply in_or_app. by left.
      * intros He. rewrite <- (ztake_zdrop keep usable) in He. apply Exists_app in He as [He|He]; [done|].
        apply Exists_exists in He as (c & Hin & Hc). apply list_elem_of_In in Hin.
        pose proof (find_none _ _ Ef _ Hin). congruence.
Qed.

Lemma doom_incomplete_spec newest chains w :
  fst (Retain.doom_incomplete newest chains w) =
  map (fun c => (c, "incomplete"%string))
    (filter (fun c => Chains.is_complete c = false /\ ch_created_unix c <= newest) chains).
Proof.
  revert w. induction chains as [|c l IH]; intros w; [done|]. cbn [Retain.doom_incomplete].
  rewrite filter_cons. destruct (Chains.is_complete c) eqn:Ec.
  - rewrite decide_False by (intros [? _]; congruence). apply IH.
  - destruct (Z.ltb_spec newest (ch_created_unix c)).
    + rewrite decide_False by lia. apply IH.
    + rewrite decide_True by (split; [done|lia]). specialize (IH w).
      destruct (Retain.doom_incomplete newest l w). cbn in *. by rewrite IH.
Qed.

Lemma doomed_chains_spec usable kept catalog w x :
  In x (fst (Retain.doomed_chains usable kept catalog w)) <->
  (In (fst x) usable /\ ~ In (Retain.id_text (fst x)) (map Retain.id_text kept) /\
   snd x = "beyond keep_chains"%string) \/
  (In (fst x) (cat_chains catalog) /\ Chains.is_complete (fst x) = false /\
   ch_created_unix (fst x) <= Retain.newest_created usable /\ snd x = "incomplete"%string).
Proof.
  unfold Retain.doomed_chains.
  pose proof (doom_incomplete_spec (Retain.newest_created usable) (cat_chains catalog) w) as Hi.
  destruct (Retain.doom_incomplete _ _ _) as [incomplete w']. cbn [fst] in *. subst incomplete.
  rewrite <- list_elem_of_In, (sort_by_key_perm _ _), list_elem_of_In, in_app_iff.
  f_equiv; rewrite in_map_iff.
  - split.
    + intros (c & <- & Hc). apply list_elem_of_In, list_elem_of_filter in Hc as [Hn Hc]. cbn.
      by rewrite <- !list_elem_of_In.
    + intros (Hu & Hn & Hs). destruct x as [c r]. cbn in *. subst r. exists c. split; [done|].
      apply list_elem_of_In, list_elem_of_filter. rewrite !list_elem_of_In. done.
  - split.
    + intros (c & <- & Hc). apply list_elem_of_In, list_elem_of_filter in Hc as [[? ?] Hc]. cbn.
      by rewrite <- list_elem_of_In.
    + intros (Hu & Hn & Hl & Hs). destruct x as [c r]. cbn in *. subst r. exists c. split; [done|].
      apply list_elem_of_In, list_elem_of_filter. by rewrite list_elem_of_In.
Qed.
End choosing.

(** ** Acting *)
Section acting.
Context `{Primitives} `{CatalogJson} `{DestinationLaws D} `{ChainVerifier D}.

Lemma ends_with_spec suffix name :
  Resolve.ends_with suffix name = true <-> exists pre, name = pre ++ suffix.
Proof.
  unfold Resolve.ends_with. rewrite bool_decide_eq_true. split.
  - intros He. exists (ztake (zlen name - zlen suffix) name). by rewrite <- He at 2; rewrite ztake_zdrop.
  - intros [pre ->]. apply zdrop_app_exact. rewrite zlen_app. lia.
Qed.

(** Images are neither the catalog, nor the lock, nor a temporary file. *)
Lemma image_not_catalog m : Scans.is_image m = true -> m <> CATALOG_FILE.
Proof. intros Hi ->. by vm_compute in Hi. Qed.

Lemma image_not_lock m : Scans.is_image m = true -> m <> LOCK_FILE.
Proof. intros Hi ->. by vm_compute in Hi. Qed.

Lemma image_not_tmp (d : D) n t m :
  snd (create_tmp d n) = Ok t -> Scans.is_image m = true -> m <> t.
Proof.
  intros (_ & random & ->)%create_tmp_name Hi ->. unfold Scans.is_image in Hi.
  apply andb_true_iff in Hi as [_ Hi]. apply negb_true_iff in Hi.
  assert (Resolve.ends_with TMP (n ++ [Byte.x2e] ++ random ++ String.list_byte_of_string ".tmp") = true)
    as Ht; [|congruence].
  apply ends_with_spec. exists (n ++ [Byte.x2e] ++ random). by rewrite <- !app_assoc.
Qed.

Lemma write_catalog_keeps m c : Scans.is_image m = true -> keeps m (Caches.write_catalog c).
Proof.
  intros Hi d. unfold Caches.write_catalog. destruct (to_json c) as [b|]; [|done].
  pose proof (fun Hm => create_tmp_frame d CATALOG_FILE m Hm) as Hf.
  pose proof (fun t Ht => image_not_tmp d CATALOG_FILE t m Ht Hi) as Hne.
  destruct (create_tmp d CATALOG_FILE) as [d1 [tmp|e]]; cbn [fst snd] in *; [|by apply Hf].
  specialize (Hf Hne). specialize (Hne tmp eq_refl).
  assert (forall d, contents (fst ((do* _ := (fun d => write_tmp d tmp b) in
    (fun d => replace d tmp CATALOG_FILE)) d)) m = contents d m) as Hk.
  { intros d2. unfold step_bind. pose proof (write_tmp_contents d2 tmp b) as Hw. pose proof (write_tmp_frame d2 tmp b m Hne) as Hf2.
    destruct (write_tmp d2 tmp b) as [d3 [u|e]]; cbn [fst snd] in *; [|done].
    rewrite (replace_frame d3 tmp CATALOG_FILE m b); [done|by apply (Hw u)|done|by apply image_not_catalog]. }
  specialize (Hk d1). destruct (step_bind _ _ d1) as [d2 [u|e]]; cbn [fst] in *; [congruence|].
  pose proof (delete_frame d2 tmp m Hne) as Hd. destruct (delete d2 tmp). cbn [fst] in *. congruence.
Qed.

Lemma publish_keeps m c : Scans.is_image m = true -> keeps m (Retain.publish_catalog c).
Proof.
  intros Hi. apply keeps_bind; [apply keeps_clock|]. intros now.
  apply keeps_bind; [apply keeps_lock|]. intros _. by apply write_catalog_keeps.
Qed.

Lemma acquire_keeps m options : m <> LOCK_FILE -> keeps (D := D) m (Retain.acquire_set_lock options).
Proof.
  intros Hi d. unfold Retain.acquire_set_lock.
  destruct (ro_break_stale_lock options); [by apply lock_breaking_frame|by apply lock_set_frame].
Qed.

Lemma select_keeps m set_name options : m <> LOCK_FILE -> keeps m (Retain.select set_name options).
Proof.
  intros Hi. apply keeps_bind; [by apply acquire_keeps|]. intros _. apply keeps_bind; [apply keeps_clock|]. intros now.
  apply keeps_bind; [apply keeps_reads|]. intros loaded.
  apply keeps_bind; [apply keeps_reads|]. intros [usable w].
  apply keeps_bind.
  { destruct (ro_verify_first options); [apply verify_newest_keeps|apply keeps_ret]. }
  intros [[[u c] w'] n]. do 2 case_match. apply keeps_ret.
Qed.

Lemma delete_chains_keeps m dry doomed : forall catalog,
  dry = true \/ Forall (fun x => ~ In m (Retain.files_of (fst x))) doomed ->
  keeps m (Retain.delete_chains dry doomed catalog).
Proof.
  induction doomed as [|[c r] doomed IH]; intros catalog Hm; [apply keeps_ret|].
  cbn [Retain.delete_chains]. apply keeps_bind.
  - destruct dry; [apply keeps_ret|]. destruct Hm as [|Hm]; [done|].
    inversion Hm as [|? ? Hc _]; subst. apply keeps_bind; [|intros; apply keeps_ret].
    apply keeps_iter. intros f Hf. apply keeps_bind; [apply keeps_lock|]. intros _.
    apply keeps_delete. by intros ->.
  - intros cat. apply keeps_bind; [|intros [? ?]; apply keeps_ret]. apply IH.
    destruct Hm as [|Hm]; [by left|right]. by inversion Hm.
Qed.

Lemma any_verifies_spec (d : D) kept encryption w :
  fst (Retain.any_verifies d kept encryption w) = true ->
  Exists (verified_on d encryption) kept.
Proof.
  revert w. induction kept as [|c kept IH]; intros w; [done|]. cbn [Retain.any_verifies].
  destruct (Retain.verify_replacement d c encryption) as [[]|e] eqn:Ev.
  - intros _. apply Exists_cons_hd. by exists d.
  - intros Hf. apply Exists_cons_tl. by eapply IH.
Qed.

Lemma authorize_spec options s (d : D) :
  fst (Retain.authorize options s d) = d /\
  forall w, snd (Retain.authorize options s d) = Ok w -> se_doomed s <> [] ->
    se_freshly_verified s <> 0 \/ Exists (verified_on d (ro_encryption options)) (se_kept s).
Proof.
  unfold Retain.authorize. destruct (zlen (se_doomed s) =? 0) eqn:E0.
  { split; [done|]. intros w _ Hd. bprop. apply zlen_0_nil in E0. done. }
  destruct (Z.eqb_spec (se_freshly_verified s) 0) as [Hz|Hz]; cbn [negb andb].
  2: { split; [done|]. intros. by left. }
  unfold step_bind, reads.
  pose proof (any_verifies_spec d (se_kept s) (ro_encryption options) (se_warnings s)) as Hv.
  destruct (Retain.any_verifies _ _ _ _) as [[|] w']; cbn [negb]; (split; [done|]); [|done].
  intros w _ _. right. by apply Hv.
Qed.

(** What a selection promises about the files of the set. *)
Record selection_ok (d : D) (options : RetentionOptions) (s : Selection) : Prop := {
  so_images : forall x f, In x (se_doomed s) \/ In (fst x) (se_kept s) ->
    In f (Retain.files_of (fst x)) -> Scans.is_image f = true;
  so_kept : incl (se_kept s) (se_usable s);
  so_newest : exists more, se_kept s = ztake (Retain.keep_count_of options) (se_usable s) ++ more;
  so_usable : Forall (fun c => Chains.is_complete c = true /\
    forall f, In f (Retain.files_of c) -> is_Some (contents d f)) (se_usable s);
  so_apart : forall x k f, In x (se_doomed s) -> In k (se_kept s) ->
    In f (Retain.files_of (fst x)) -> ~ In f (Retain.files_of k);
  so_fresh : se_freshly_verified s <> 0 ->
    Exists (verified_on d (ro_encryption options)) (se_kept s);
  so_verified : Exists (fun c => Retain.is_verified c = true) (se_usable s) ->
    Exists (fun c => Retain.is_verified c = true) (se_kept s);
  so_doomed : Forall (fun x => In (fst x) (se_usable s) \/ Chains.is_complete (fst x) = false /\
    ch_created_unix (fst x) <= Retain.newest_created (se_usable s)) (se_doomed s);
}.
End acting.

(** ** Selecting *)
Section selecting.
Context `{Primitives} `{CatalogJson} `{DestinationLaws D} `{ChainVerifier D}.

(** A catalog whose members are scanned files, one chain per id. *)
Record sound_catalog (d : D) (scan : Scan) (c : Catalog) : Prop := {
  sc_listed : forall ch m, In ch (cat_chains c) -> In m (ch_members ch) -> listed scan ch m;
  sc_ids : NoDup (Catalogs.ids c);
  sc_files : Forall (scanned d) (sc_members scan);
  sc_names : NoDup (map sm_file_name (sc_members scan));
}.

Lemma known_listed scan c u f :
  (forall ch m, In ch (cat_chains c) -> In m (ch_members ch) -> listed scan ch m) ->
  known c u -> In f (Retain.files_of u) -> exists ch m,
    ch_chain_id ch = ch_chain_id u /\ mr_file_name m = f /\ listed scan ch m.
Proof.
  intros Hl Hk Hf. apply in_map_iff in Hk as (ch & He & Hin).
  rewrite <- (unstamped_files _ _ He) in Hf. apply in_map_iff in Hf as (m & Hm & Hin').
  exists ch, m. split_and!; [by apply unstamped_id|done|by apply Hl].
Qed.

Lemma known_image d scan c u f :
  sound_catalog d scan c -> known c u -> In f (Retain.files_of u) -> Scans.is_image f = true.
Proof.
  intros [Hl _ Hf _] Hk Hin. destruct (known_listed scan c u f Hl Hk Hin) as (ch & m & _ & <- & Hm).
  destruct Hm as (sm & Hsm & _ & _ & Hs). rewrite List.Forall_forall in Hf.
  destruct (Hf sm Hsm) as (b & _ & Hi & _). unfold Caches.same_member in Hs. bprop. cbn in *. congruence.
Qed.

Lemma known_apart d scan c u v f :
  sound_catalog d scan c -> known c u -> known c v ->
  In f (Retain.files_of u) -> In f (Retain.files_of v) -> unstamped u = unstamped v.
Proof.
  intros [Hl Hd _ Hn] Hu Hv Hfu Hfv.
  destruct (known_listed scan c u f Hl Hu Hfu) as (cu & mu & Hiu & Hmu & Hlu).
  destruct (known_listed scan c v f Hl Hv Hfv) as (cv & mv & Hiv & Hmv & Hlv).
  apply (known_same_id c); [done..|]. rewrite <- Hiu, <- Hiv.
  eapply listed_same_chain; [exact Hn|exact Hlu|exact Hlv|congruence].
Qed.

Definition good_chain (d : D) (c : Catalog) (u : ChainRecord) : Prop :=
  known c u /\ Chains.is_complete u = true /\
  forall f, In f (Retain.files_of u) -> is_Some (contents d f).

Lemma good_unstamped d c u v : unstamped u = unstamped v -> good_chain d c u -> good_chain d c v.
Proof.
  intros He (Hk & Hc & Hf). split_and!.
  - unfold known in *. by rewrite <- He.
  - by rewrite <- (unstamped_complete _ _ He).
  - rewrite <- (unstamped_files _ _ He). done.
Qed.

Lemma choose_spec d options scan c c' usable fresh w :
  sound_catalog d scan c -> map unstamped (cat_chains c') = map unstamped (cat_chains c) ->
  Forall (good_chain d c) usable ->
  0 <= fresh <= Retain.keep_count_of options -> fresh <= zlen usable ->
  Forall (verified_on d (ro_encryption options)) (ztake fresh usable) ->
  forall kept w1 doomed w2,
  Retain.kept_chains usable (Retain.keep_count_of options) w = (kept, w1) ->
  Retain.doomed_chains usable kept c' w1 = (doomed, w2) ->
  selection_ok d options {| se_usable := usable; se_kept := kept; se_freshly_verified := fresh;
    se_doomed := doomed; se_catalog := c'; se_warnings := w2 |}.
Proof.
  intros Hsc Hc' Hus Hfresh Hlen Hv kept w1 doomed w2 Hk Hd.
  pose proof (kept_chains_spec usable (Retain.keep_count_of options) w) as Hks.
  rewrite Hk in Hks. cbn [fst] in Hks. destruct Hks as (Hnew & Hincl & Hver).
  assert (forall x, In x doomed <-> In x (fst (Retain.doomed_chains usable kept c' w1))) as Hdx
    by by rewrite Hd.
  setoid_rewrite doomed_chains_spec in Hdx. rewrite List.Forall_forall in Hus.
  assert (forall x, In x doomed -> known c (fst x)) as Hkd.
  { intros x [[Hx _]|[Hx _]]%Hdx; [by apply Hus|]. unfold known. rewrite <- Hc'. by apply in_map. }
  assert (forall k, In k kept -> good_chain d c k) as Hkk by (intros; apply Hus; auto).
  split; cbn [se_usable se_kept se_freshly_verified se_doomed].
  - intros x f [Hx|Hx] Hf; eapply known_image; [done| |done|done| |done]; [by apply Hkd|by apply Hkk].
  - done.
  - done.
  - apply List.Forall_forall. intros u Hu. destruct (Hus u Hu) as (_ & ? & ?). done.
  - intros x k f Hx Hkin Hfx Hfk. destruct (Hkk k Hkin) as (Hkn & Hcomp & _).
    pose proof (known_apart d scan c (fst x) k f Hsc (Hkd x Hx) Hkn Hfx Hfk) as He.
    apply Hdx in Hx as [(_ & Hn & _)|(_ & Hi & _)].
    + apply Hn. apply in_map_iff. exists k. split; [|done]. unfold Retain.id_text.
      by rewrite (unstamped_id _ _ He).
    + rewrite (unstamped_complete _ _ He) in Hi. congruence.
  - intros Hne. destruct Hnew as [more ->]. apply Exists_app. left.
    assert (0 < fresh) as Hpos by lia. destruct usable as [|u us]; [unfold zlen in Hlen; cbn in Hlen; lia|].
    unfold ztake in *. destruct (Z.to_nat fresh) eqn:Ef; [lia|].
    destruct (Z.to_nat (Retain.keep_count_of options)) eqn:Ek; [lia|].
    cbn [take] in *. inversion Hv; subst. by apply Exists_cons_hd.
  - done.
  - apply List.Forall_forall. intros x [[? _]|(_ & ? & ? & _)]%Hdx; [by left|by right].
Qed.

Lemma cache_distinct_files (d d' : D) : same_files d d' -> cache_distinct d -> cache_distinct d'.
Proof. intros Hs Hc b c. rewrite Hs by done. apply Hc. Qed.

Lemma same_files_keeps {A} (s : step D A) d d' r :
  (forall m, m <> LOCK_FILE -> keeps m s) -> s d = (d', r) -> same_files d d'.
Proof. intros Hk He m Hm. specialize (Hk m Hm d). by rewrite He in Hk. Qed.

Lemma same_files_trans (a b c : D) : same_files a b -> same_files b c -> same_files a c.
Proof. intros Hab Hbc m Hm. rewrite (Hbc m Hm). by apply Hab. Qed.

Lemma sound_loaded (d : D) set_name now l :
  cache_distinct d -> Caches.load d set_name now = Ok l ->
  exists scan, sound_catalog d scan (ld_catalog l).
Proof.
  intros Hc Hl. apply load_listed in Hl as (scan & Hs & Hm & Hd). exists scan.
  apply scan_set_spec in Hs as [Hf Hn]. split; auto.
Qed.

Lemma sound_files (d d' : D) scan c : same_files d d' -> sound_catalog d' scan c -> sound_catalog d scan c.
Proof.
  intros Hs [Hl Hi Hf Hn]. split; try done. eapply Forall_impl; [exact Hf|].
  intros sm (b & Hb & Him & Hx). exists b. by rewrite <- Hs by by apply image_not_lock.
Qed.

Lemma select_spec set_name options d d' s :
  cache_distinct d -> Retain.select set_name options d = (d', Ok s) -> selection_ok d options s.
Proof.
  intros Hcd Hs. unfold Retain.select in Hs.
  apply step_bind_Ok in Hs as (d1 & [] & Hlock & Hs).
  apply step_bind_Ok in Hs as (d2 & now & Hclock & Hs).
  apply step_bind_Ok in Hs as (d3 & l & Hload & Hs). injection Hload as <- Hload.
  assert (same_files d d2) as Hd2.
  { eapply same_files_trans; [|eapply same_files_keeps; [|exact Hclock]; intros; apply keeps_clock].
    eapply same_files_keeps; [|exact Hlock]. intros m. apply acquire_keeps. }
  destruct (sound_loaded d2 set_name now l (cache_distinct_files _ _ Hd2 Hcd) Hload) as [scan Hsc].
  apply step_bind_Ok in Hs as (d4 & [usable w] & Hus & Hs). injection Hus as <- Hus.
  set (complete := sort_by Retain.newest_leb _) in *.
  pose proof (usable_chains_spec d2 complete) as Hspec. match type of Hus with Retain.usable_chains _ _ ?w0 = _ =>
    specialize (Hspec w0); rewrite Hus in Hspec; cbn [fst] in Hspec end.
  assert (Forall (good_chain d2 (ld_catalog l)) usable) as Hgood.
  { rewrite Hspec. apply List.Forall_forall. intros u Hu.
    apply list_elem_of_In, list_elem_of_filter in Hu as [Hdam Hu]. unfold complete in Hu.
    rewrite (sort_by_perm _ _) in Hu. apply list_elem_of_filter in Hu as [Hcomp Hu].
    apply list_elem_of_In in Hu. split_and!; [by apply known_In|done|].
    intros f Hf. by eapply undamaged_present. }
  apply step_bind_Ok in Hs as (d5 & [[[us c'] w'] fresh] & Hnv & Hs).
  destruct (Retain.kept_chains us _ w') as [kept w1] eqn:Hk.
  destruct (Retain.doomed_chains us kept c' w1) as [doomed w2] eqn:Hdoom. injection Hs as <- <-.
  assert (Forall (good_chain d (ld_catalog l)) usable) as Hgood'.
  { eapply Forall_impl; [exact Hgood|]. intros u (? & ? & Hf). split_and!; [done..|].
    intros f Hin. rewrite <- Hd2; [by apply Hf|]. apply image_not_lock. by eapply known_image. }
  pose proof (sound_files _ _ _ _ Hd2 Hsc) as Hsc'.
  destruct (ro_verify_first options).
  - destruct (verify_newest_spec _ _ _ _ _ _ _ _ _ _ _ _ (sc_ids _ _ _ Hsc)
      ltac:(eapply Forall_impl; [exact Hgood|]; by intros u []) Hnv) as [Hc' Hu Hp Hv He].
    unfold Retain.keep_count_of in *. rewrite Z.sub_0_r in *.
    eapply (choose_spec d options scan (ld_catalog l) c'); [done|done| |unfold Retain.keep_count_of; lia|done| |exact Hk|done].
    + rewrite List.Forall_forall in Hu, Hgood' |- *. intros u Hin. specialize (Hu u Hin).
      apply Exists_exists in Hu as (t & Ht & He'). apply list_elem_of_In in Ht.
      eapply good_unstamped; [symmetry; exact He'|by apply Hgood'].
    + eapply Forall_impl; [exact Hv|]. intros u. by apply verified_on_files.
  - injection Hnv as <- <- <- <- <-.
    eapply (choose_spec d options scan (ld_catalog l)); [done|done|done| | | |exact Hk|done].
    + unfold Retain.keep_count_of. lia.
    + apply zlen_nonneg.
    + rewrite ztake_nonpos by lia. constructor.
Qed.
End selecting.

(** ** Deleting *)
Section deleting.
Context `{Primitives} `{CatalogJson} `{DestinationLaws D} `{ChainVerifier D}.

(** [apply] after the selection. *)
Definition finish (set_name : bytes) (options : RetentionOptions) (s : Selection) :
    step D RetentionReport :=
  do* warnings := Retain.authorize options s in
  do* (deleted, catalog) :=
    Retain.delete_chains (ro_dry_run options) (se_doomed s) (se_catalog s) in
  do* _ := (if ro_dry_run options then step_ret tt else Retain.publish_catalog catalog) in
  step_ret {| rr_set := set_name; rr_kept := map Retain.id_text (se_kept s); rr_deleted := deleted;
              rr_dry_run := ro_dry_run options; rr_complete_chains := zlen (se_usable s);
              rr_warnings := warnings |}.

(** A run can only touch the images of doomed chains, and only past the gate. *)
Lemma finish_keeps set_name options s (d : D) m :
  Scans.is_image m = true ->
  ro_dry_run options = true \/ Forall (fun x => ~ In m (Retain.files_of (fst x))) (se_doomed s) \/
    is_ok (snd (Retain.authorize options s d)) = false ->
  contents (fst (finish set_name options s d)) m = contents d m.
Proof.
  intros Hi Hm. unfold finish. unfold step_bind at 1.
  destruct (authorize_spec options s d) as [Ha _].
  destruct (Retain.authorize options s d) as [d1 [w|e]]; cbn [fst snd is_ok] in *; subst d1; [|done].
  assert (keeps (D := D) m (do* (deleted, catalog) :=
      Retain.delete_chains (ro_dry_run options) (se_doomed s) (se_catalog s) in
    do* _ := (if ro_dry_run options then step_ret tt else Retain.publish_catalog catalog) in
    step_ret {| rr_set := set_name; rr_kept := map Retain.id_text (se_kept s); rr_deleted := deleted;
                rr_dry_run := ro_dry_run options; rr_complete_chains := zlen (se_usable s);
                rr_warnings := w |})) as Hk; [|apply Hk].
  apply keeps_bind; [apply delete_chains_keeps; destruct Hm as [?|[?|?]]; [by left|by right|done]|].
  intros [deleted catalog].
  apply keeps_bind; [|intros; apply keeps_ret].
  destruct (ro_dry_run options); [apply keeps_ret|by apply publish_keeps].
Qed.

(** A step that, when it succeeds, leaves the absent file [m] absent. *)
Definition clears {A} (m : bytes) (s : step D A) : Prop := forall d d' a,
  contents d m = None -> s d = (d', Ok a) -> contents d' m = None.

Lemma clears_keeps {A} m (s : step D A) : keeps m s -> clears m s.
Proof. intros Hk d d' a Hd Hs. specialize (Hk d). rewrite Hs in Hk. cbn in Hk. congruence. Qed.

Lemma clears_bind {A B} m (s : step D A) (k : A -> step D B) :
  clears m s -> (forall a, clears m (k a)) -> clears m (step_bind s k).
Proof.
  intros Hs Hk d d' b Hd Hb. apply step_bind_Ok in Hb as (d1 & a & Hsa & Hka).
  eapply Hk; [|exact Hka]. by eapply Hs.
Qed.

Lemma clears_delete m f : clears m (Retain.delete_file f).
Proof.
  apply clears_bind; [apply clears_keeps, keeps_lock|]. intros _ d d' u Hd Hs.
  destruct (decide (m = f)) as [->|Hne].
  - pose proof (delete_gone d f u) as Hg. rewrite Hs in Hg. by apply Hg.
  - pose proof (delete_frame d f m Hne) as Hg. rewrite Hs in Hg. cbn in Hg. congruence.
Qed.

Lemma clears_iter m files : clears m (step_iter Retain.delete_file files).
Proof.
  induction files as [|f files IH]; [apply clears_keeps, keeps_ret|].
  apply clears_bind; [apply clears_delete|]. by intros _.
Qed.

Lemma clears_delete_chains m doomed : forall catalog,
  clears m (Retain.delete_chains false doomed catalog).
Proof.
  induction doomed as [|[c r] doomed IH]; intros catalog; [apply clears_keeps, keeps_ret|].
  cbn [Retain.delete_chains]. apply clears_bind.
  - apply clears_bind; [apply clears_iter|]. intros _. apply clears_keeps, keeps_ret.
  - intros cat. apply clears_bind; [apply IH|]. intros [? ?]. apply clears_keeps, keeps_ret.
Qed.

Lemma iter_gone files : forall (d d' : D) u,
  step_iter Retain.delete_file files d = (d', Ok u) -> Forall (fun f => contents d' f = None) files.
Proof.
  induction files as [|f files IH]; intros d d' u Hs; [constructor|].
  apply step_bind_Ok in Hs as (d1 & [] & Hd & Hs). constructor; [|by eapply IH].
  eapply clears_iter; [|exact Hs]. apply step_bind_Ok in Hd as (d0 & [] & _ & Hd).
  pose proof (delete_gone d0 f tt) as Hg. rewrite Hd in Hg. by apply Hg.
Qed.

(** The report of the deletion loop: one entry for every doomed chain, in
    order; without a dry run its files are gone. *)
Lemma delete_chains_spec dry doomed : forall catalog (d d' : D) deleted catalog',
  Retain.delete_chains dry doomed catalog d = (d', Ok (deleted, catalog')) ->
  map dc_files deleted = map (fun x => Retain.files_of (fst x)) doomed /\
  map dc_chain_id deleted = map (fun x => Retain.id_text (fst x)) doomed /\
  map dc_reason deleted = map snd doomed /\
  (dry = false -> Forall (fun c => Forall (fun f => contents d' f = None) (dc_files c)) deleted).
Proof.
  induction doomed as [|[c r] doomed IH]; intros catalog d d' deleted catalog' Hs.
  { injection Hs as <- <- <-. by split_and!. }
  cbn [Retain.delete_chains] in Hs. apply step_bind_Ok in Hs as (d1 & cat1 & Hd & Hs).
  apply step_bind_Ok in Hs as (d2 & [del cat2] & Hrest & Hs). injection Hs as <- <- <-.
  destruct (IH _ _ _ _ _ Hrest) as (Hf & Hi & Hr & Hg). cbn [map fst snd dc_files dc_chain_id dc_reason].
  rewrite Hf, Hi, Hr. split_and!; [done..|]. intros ->. constructor; [|by apply Hg]. cbn [dc_files].
  apply step_bind_Ok in Hd as (d0 & [] & Hiter & Hd). injection Hd as <- <-.
  apply iter_gone in Hiter. eapply Forall_impl; [exact Hiter|]. intros f Hf0.
  eapply clears_delete_chains; [exact Hf0|exact Hrest].
Qed.
End deleting.

(** ** Properties *)
Section properties.
Context `{Primitives} `{CatalogJson} `{DestinationLaws D} `{ChainVerifier D}.

Lemma a_chain_survives (set_name : bytes) (options : RetentionOptions) (d : D) (m : bytes) :
  cache_distinct d -> Scans.is_image m = true ->
  contents (fst (Retain.apply set_name options d)) m <> contents d m ->
  ro_dry_run options = false /\
  exists survivor, Chains.is_complete survivor = true /\
    verified_on d (ro_encryption options) survivor /\
    ~ In m (Retain.files_of survivor) /\
    forall f, In f (Retain.files_of survivor) ->
      is_Some (contents d f) /\ contents (fst (Retain.apply set_name options d)) f = contents d f.
Proof.
  intros Hcd Hi Hne. change (Retain.apply set_name options d) with
    ((do* s := Retain.select set_name options in finish set_name options s) d) in *.
  unfold step_bind in *. pose proof (fun m (Hm : Scans.is_image m = true) => select_keeps m set_name options (image_not_lock m Hm) d) as Hk.
  pose proof (fun m Hm => select_keeps m set_name options Hm d : contents _ m = contents d m) as Hsame.
  destruct (Retain.select set_name options d) as [d1 [s|e]] eqn:Es; cbn [fst] in *; [|by rewrite (Hk m Hi) in Hne].
  destruct (select_spec _ _ _ _ _ Hcd Es) as [Himg Hkept _ Hus Hap Hfresh _ _].
  pose proof (finish_keeps set_name options s d1 m Hi) as Hf. rewrite (Hk m Hi) in Hf.
  destruct (ro_dry_run options) eqn:Edry; [destruct Hne; apply Hf; by left|]. split; [done|].
  destruct (authorize_spec options s d1) as [_ Hauth].
  destruct (Retain.authorize options s d1) as [d2 [w|e]] eqn:Ea; cbn [snd] in *.
  2: { destruct Hne. apply Hf. by do 2 right. }
  assert (se_doomed s <> []) as Hdoom.
  { intros Hd. destruct Hne. apply Hf. right; left. by rewrite Hd. }
  assert (Exists (verified_on d (ro_encryption options)) (se_kept s)) as Hex.
  { destruct (Hauth w eq_refl Hdoom) as [Hn|He]; [by apply Hfresh|].
    eapply Exists_impl; [exact He|]. intros c. by apply (verified_on_files d d1). }
  apply Exists_exists in Hex as (k & Hin & Hv). apply list_elem_of_In in Hin.
  rewrite List.Forall_forall in Hus. destruct (Hus k (Hkept k Hin)) as [Hc Hpres].
  assert (forall f, In f (Retain.files_of k) ->
    Forall (fun x => ~ In f (Retain.files_of (fst x))) (se_doomed s)) as Hsafe.
  { intros f Hfk. apply List.Forall_forall. intros x Hx Hfx. by apply (Hap x k f). }
  exists k. split_and!; [done|done| |].
  - intros Hm. destruct Hne. apply Hf. right; left. by apply Hsafe.
  - intros f Hfk. split; [by apply Hpres|].
    assert (Scans.is_image f = true) as Hif by (eapply (Himg (k, ""%string)); [by right|exact Hfk]).
    rewrite <- (Hk f Hif). apply finish_keeps; [done|right; left; by apply Hsafe].
Qed.

(** C24: retention never gives up the last good backup. However a run ends, an
    error in the middle of the deletions or a lost lease included: if any image
    file of the set is not what it was, the run was no dry run, and there is a
    complete chain that was verified in this run before anything changed, on
    the unchanged files, and every file of that chain is still exactly what it
    was. The hypothesis excludes a cached catalog that lists a chain twice. *)
Theorem retention_safe (set_name : bytes) (options : RetentionOptions) (d : D) (m : bytes) :
  cache_distinct d -> Scans.is_image m = true ->
  contents (fst (Retain.apply set_name options d)) m <> contents d m ->
  ro_dry_run options = false /\
  exists survivor, Chains.is_complete survivor = true /\
    verified_on d (ro_encryption options) survivor /\
    ~ In m (Retain.files_of survivor) /\
    forall f, In f (Retain.files_of survivor) ->
      is_Some (contents d f) /\ contents (fst (Retain.apply set_name options d)) f = contents d f.
Proof. apply a_chain_survives. Qed.

(** C36: what a successful run has done. The report keeps chains and lists the
    deleted ones with their files: every kept chain is complete, its files are
    all there and unchanged; the first [keep_chains] usable chains (at least
    one) are kept, and a verified one if any is; unless the run was dry, every
    file of a deleted chain is gone. *)
Theorem retention_report (set_name : bytes) (options : RetentionOptions) (d d' : D)
    (r : RetentionReport) :
  cache_distinct d -> Retain.apply set_name options d = (d', Ok r) ->
  exists kept usable, rr_kept r = map Retain.id_text kept /\
    rr_complete_chains r = zlen usable /\ incl kept usable /\
    (exists more, kept = ztake (Z.max (ro_keep_chains options) 1) usable ++ more) /\
    (Exists (fun c => Retain.is_verified c = true) usable ->
     Exists (fun c => Retain.is_verified c = true) kept) /\
    Forall (fun c => Chains.is_complete c = true /\ forall f, In f (Retain.files_of c) ->
      is_Some (contents d' f) /\ contents d' f = contents d f /\
      Forall (fun x => ~ In f (dc_files x)) (rr_deleted r)) kept /\
    (ro_dry_run options = false ->
     Forall (fun x => Forall (fun f => contents d' f = None) (dc_files x)) (rr_deleted r)).
Proof.
  intros Hcd Ha. change (Retain.apply set_name options d) with
    ((do* s := Retain.select set_name options in finish set_name options s) d) in Ha.
  pose proof (fun m (Hm : Scans.is_image m = true) => select_keeps m set_name options (image_not_lock m Hm) d) as Hk.
  apply step_bind_Ok in Ha as (d1 & s & Es & Ha). rewrite Es in Hk. cbn [fst] in Hk.
  destruct (select_spec _ _ _ _ _ Hcd Es) as [Himg Hkept Hnew Hus Hap _ Hver _].
  pose proof (fun f Hf Hx => finish_keeps set_name options s d1 f Hf Hx) as Hfin. rewrite Ha in Hfin.
  cbn [fst] in Hfin. unfold finish in Ha. apply step_bind_Ok in Ha as (d2 & w & _ & Ha).
  apply step_bind_Ok in Ha as (d3 & [deleted catalog] & Hdel & Ha).
  apply step_bind_Ok in Ha as (d4 & u & Hpub & Ha). injection Ha as <- <-.
  cbn [rr_kept rr_complete_chains rr_deleted].
  destruct (delete_chains_spec _ _ _ _ _ _ _ Hdel) as (Hfiles & _ & _ & Hgone).
  exists (se_kept s), (se_usable s). rewrite List.Forall_forall in Hus. split_and!; try done.
  - apply List.Forall_forall. intros k Hin. destruct (Hus k (Hkept k Hin)) as [Hc Hpres].
    split; [done|]. intros f Hf.
    assert (Forall (fun x => ~ In f (Retain.files_of (fst x))) (se_doomed s)) as Hsafe.
    { apply List.Forall_forall. intros x Hx Hfx. by apply (Hap x k f). }
    assert (contents d4 f = contents d f) as He.
    { assert (Scans.is_image f = true) as Hif by (eapply (Himg (k, ""%string)); [by right|exact Hf]).
      rewrite <- (Hk f Hif). apply Hfin; [done|right; by left]. }
    split_and!; [rewrite He; by apply Hpres|done|].
    assert (Forall (fun fs => ~ In f fs) (map dc_files deleted)) as Hx.
    { rewrite Hfiles. by apply List.Forall_map. }
    rewrite List.Forall_map in Hx. exact Hx.
  - intros Hdry. specialize (Hgone Hdry). apply List.Forall_forall. intros x Hx.
    rewrite List.Forall_forall in Hgone. specialize (Hgone x Hx).
    rewrite Hdry in Hpub. rewrite List.Forall_forall in Hgone |- *. intros f Hf.
    pose proof (publish_keeps f catalog) as Hp.
    assert (Scans.is_image f = true) as Hi.
    { assert (In (dc_files x) (map (fun y => Retain.files_of (fst y)) (se_doomed s))) as Hm
        by (rewrite <- Hfiles; by apply in_map).
      apply in_map_iff in Hm as (y & Hy & Hyin). eapply (Himg y); [by left|by rewrite Hy]. }
    specialize (Hp Hi d3). rewrite Hpub in Hp. cbn in Hp. rewrite Hp. by apply Hgone.
Qed.
End properties.

(** Policy helpers. A chain may be extended exactly when there is no limit,
    or it is complete and holds fewer than the limit of members after its full;
    a [keep_chains] value is refused exactly when it is negative. *)
Theorem may_extend_chain_spec (chain : option ChainRecord) (limit : option Z) (value : Z) :
  (Retain.may_extend_chain chain limit = true <->
   (forall n, limit = Some n -> 0 < n -> exists c, chain = Some c /\
      Chains.is_complete c = true /\ Chains.incremental_count c < n)) /\
  (is_ok (Retain.validate_keep_chains value) = true <-> 0 <= value).
Proof.
  split.
  - unfold Retain.may_extend_chain. destruct limit as [n|]; [|by split].
    destruct (Z.ltb_spec 0 n) as [Hn|Hn]; cbn [negb].
    + destruct chain as [c|]; [|split; [done|intros Hx; by destruct (Hx n eq_refl Hn) as (? & ? & _)]].
      destruct (Chains.is_complete c) eqn:Ec; cbn [negb].
      * fold (Chains.incremental_count c). rewrite Z.ltb_lt. split.
        -- intros Hl k [= <-] _. by exists c.
        -- intros Hx. destruct (Hx n eq_refl Hn) as (c' & [= <-] & _ & ?). done.
      * split; [done|]. intros Hx. destruct (Hx n eq_refl Hn) as (c' & [= <-] & ? & _). congruence.
    + split; [|done]. intros _ k [= <-] ?. lia.
  - unfold Retain.validate_keep_chains. destruct (Z.ltb_spec value 0); cbn; split; (done || lia).
Qed.
