(* ===== verification/RetentionVerified.v ===== *)
(** * Retention with the verifier it runs

    [RetentionSafety.v] is proved against any [ChainVerifier]. Here the interface
    is given the verifier of [VerifyImage.v], so that "a verified chain survives"
    becomes "a chain whose payloads were just read survives". *)

From S2P Require Import Prelude Core Crypto Pages Wire Superblock Chunk Footer Files PageStream ImageReader Manifest FileManifest Tree EngineKeys CatalogRecords Destination Progress Chain ChainSpec EngineCatalog Verifier VerifyImage VerifySpec VerifyFiles Retention RetentionSafety.

(** [verify_in_set] as retention calls it. *)
#[local] Instance engine_verifier `{Primitives} `{Destination D} : ChainVerifier D :=
  VerifyImages.silent_verify.

Section properties.
Context `{PrimitiveLaws} `{CatalogJson} `{DestinationLaws D}.

(** Every payload the members store, superseded ones included, has been read
    from the block chain, and none of its chunks is recorded as unreadable. *)
Definition block_chain_readable (d : D) (encryption : Encryption) (members : list ChainMemberFile) : Prop :=
  exists opened walk, Members.open_chain d members encryption = Ok opened /\ Walks.new opened = Ok walk /\
  forall n mms, Z.of_nat n < 2 ^ 64 -> Forall2 (manifest_of n (cw_chunk_size walk)) (cw_members walk) mms ->
  exists access ps own,
    ca_readers access = map om_chunks (cw_members walk) /\
    ca_keys access = map Walks.access_keys (cw_members walk) /\
    opens access (List.filter is_payload (merged_states n mms)) ps /\
    opens access (own_payloads n 0 mms) own /\
    bad_count (merged_states n mms) = 0.

Lemma filter_length_le {A} (f : A -> bool) l : zlen (List.filter f l) <= zlen l.
Proof.
  induction l as [|x l IH]; [done|]. cbn [List.filter]. rewrite zlen_cons. destruct (f x); rewrite ?zlen_cons; lia.
Qed.

Lemma verified_chain_reads (d : D) name encryption rep members target :
  VerifyImages.silent_verify d name {| vq_image := name; vq_encryption := encryption; vq_chain := true |} = Ok rep ->
  rp_recorded_bad_chunks rep = 0 ->
  Resolve.resolve_chain d name = Ok members -> Resolve.read_superblock d name = Ok target ->
  Forall (structure_verified d encryption) members /\
  (image_kind target = Block -> VerifyImages.is_whole_disk target = false ->
   block_chain_readable d encryption members).
Proof.
  unfold VerifyImages.silent_verify, VerifyImages.verify_in_set. intros Hv Hbad Hm Ht.
  set (job := {| vj_request := _; vj_context := _ |}) in Hv.
  unfold step_bind, lift in Hv. rewrite Hm in Hv. unfold VerifyImages.verify_members_in_set in Hv.
  destruct (VerifyImages.verify_members_in_set_inner d name members job (start_run, None)) as [[run rec] r] eqn:E.
  cbn [snd] in Hv. subst r.
  destruct (inner_Ok d name members job start_run None (run, rec) rep target E Ht) as (s1 & s2 & Hs & _).
  split; [exact Hs|]. intros Hk Hw.
  destruct (block_chain_reads d name members job (start_run, None) (run, rec) target rep E Ht Hk Hw)
    as (_ & opened & walk & Ho & Hnew & Hread).
  exists opened, walk. split; [exact Ho|]. split; [done|]. intros n mms Hn Hmm.
  destruct (Hread n mms Hmm) as (access & ps & own & Hr & Hkeys & Hp & Hown & _ & _ & _ & Hb).
  exists access, ps, own. do 3 (split; [done|]). split; [exact Hown|]. rewrite Hbad in Hb.
  assert (zlen (merged_states n mms) = Z.of_nat n) as Hlen.
  { unfold zlen. f_equal. apply (merged_states_lookup n mms 0).
    clear -Hmm. induction Hmm as [|? ? ? ? [] _ IH]; by constructor. }
  pose proof (filter_length_le is_bad (merged_states n mms)) as Hle. unfold bad_count in *.
  pose proof (zlen_nonneg (List.filter is_bad (merged_states n mms))). rewrite Z.mod_small in Hb by lia. done.
Qed.

End properties.
