(* ===== verification/Jobs.v ===== *)
(** * Error codes ([crates/lr-daemon/src/status.rs]) and messages ([crates/lr-core/src/error.rs]) *)

From stdpp Require Import gmap.
From S2P Require Import Prelude Maps Text Steps Observation.

Module Status.
(** The [Display] of the error contract; numbers and [io::Error]s stay in their
    placeholders. *)
Definition display (e : error) : string :=
  match e with
  | Io _ => "i/o error: {0}"
  | BadSector _ _ => "bad sector at offset {offset} (length {len})"
  | NoSpace => "destination has no space left"
  | NetworkTimeout what => "network timeout: " +:+ what
  | SnapshotOverflow => "snapshot overflow"
  | FreezeTimeout => "freeze timeout"
  | StreamParentMissing subvol =>
    "incremental stream refused: the parent snapshot for subvolume " +:+ subvol +:+
    " is missing; run a new full backup"
  | NoConsistentMethod options =>
    "no consistent snapshot method for this source: " +:+ String.concat "; " options
  | SetLocked owner => "backup set is locked by " +:+ owner
  | TargetChanged => "restore target changed since prepare"
  | TargetBusy holder => "target is busy: " +:+ holder
  | Aead => "authenticated decryption failed"
  | Corrupt what => "corrupt image: " +:+ what
  | Cancelled => "cancelled"
  | Denied action reason => "permission denied for " +:+ action +:+ ": " +:+ reason
  | Unsupported cap => "unsupported: " +:+ cap
  end.

Definition code (e : error) : string :=
  match e with
  | Denied _ _ => "E_DENIED"
  | Cancelled => "E_CANCELLED"
  | SetLocked _ => "E_SET_LOCKED"
  | TargetChanged => "E_TARGET_CHANGED"
  | NoConsistentMethod _ => "E_NO_CONSISTENT_METHOD"
  | StreamParentMissing _ => "E_STREAM_PARENT_MISSING"
  | SnapshotOverflow => "E_SNAPSHOT_OVERFLOW"
  | FreezeTimeout => "E_FREEZE_TIMEOUT"
  | BadSector _ _ => "E_BAD_SECTOR"
  | Unsupported _ => "E_UNSUPPORTED"
  | Corrupt _ => "E_CORRUPT"
  | TargetBusy _ => "E_TARGET_BUSY"
  | NoSpace => "E_NO_SPACE"
  | NetworkTimeout _ => "E_NETWORK_TIMEOUT"
  | Aead => "E_AEAD"
  | Io _ => "E_IO"
  end.

Definition error_code (e : error) : string * string := (code e, display e).

(** The gRPC codes the daemon answers with. *)
Inductive Code :=
  | CPermissionDenied | CCancelled | CFailedPrecondition | CDataLoss | CAborted | CNotFound | CInternal.

(** [grpc_status], its code; the message is [code ++ ": " ++ message]. *)
Definition tonic_code (e : error) : Code :=
  match e with
  | Denied _ _ => CPermissionDenied
  | Cancelled => CCancelled
  | SetLocked _ | TargetBusy _ | NoSpace => CFailedPrecondition
  | TargetChanged | NoConsistentMethod _ | StreamParentMissing _ => CFailedPrecondition
  | Unsupported _ => CFailedPrecondition
  | Corrupt _ | Aead | BadSector _ _ => CDataLoss
  | SnapshotOverflow | FreezeTimeout => CAborted
  | Io NotFound => CNotFound
  | NetworkTimeout _ | Io _ => CInternal
  end.

Definition grpc_status (e : error) : Code * string :=
  let '(c, message) := error_code e in (tonic_code e, c +:+ ": " +:+ message).

(** The code of a failure says whether it was the requested cancellation. *)
Lemma code_cancelled e : code e = "E_CANCELLED" <-> e = Cancelled.
Proof. by destruct e. Qed.
End Status.

(** * The job registry ([crates/lr-daemon/src/jobs.rs])

    The entries, the event bus as the sequence of events sent to it, and the
    cancellation flags as cells that an entry and the engine working on the job
    share. Every operation that takes the lock is one step of the state. *)

Inductive JobState := Pending | Running | Finished | Failed | Cancelled.

#[export] Instance job_state_eq_dec : EqDecision JobState.
Proof. solve_decision. Defined.

(** [lr_engine::verify]: what recording a receipt came to. *)
Inductive HistoryFailure :=
  | InvalidOptions | InvalidAttempt | UntrustedDirectory | UnsupportedFilesystem | QuotaExceeded
  | ReceiptIdCollision | Busy | Unavailable.
Inductive PublicationFailure :=
  | LinkUnconfirmed | TemporaryNameRemovalUnconfirmed | DirectorySyncUnconfirmed.
Inductive RecordingOutcome :=
  | Recorded (receipt_id : bytes)
  | NotRecorded (reason : HistoryFailure)
  | PublicationUnconfirmed (receipt_id : bytes) (reason : PublicationFailure).

(** [verification::CapturedVerificationResult]. *)
Record CapturedVerificationResult := {
  cv_observation : VerificationObservation;
  cv_recording : RecordingOutcome;
  cv_report_json : option bytes;
}.

Module Results.
Definition failure (state : JobState) (code message : string) : JobState * option (string * string) :=
  (state, Some (code, message)).

(** [CapturedVerificationResult::job_outcome]. *)
Definition job_outcome (r : CapturedVerificationResult) : JobState * option (string * string) :=
  match vo_outcome (cv_observation r) with
  | Incomplete _ FkCancelled => failure Cancelled "E_CANCELLED" "verification was cancelled"
  | Incomplete _ _ => failure Failed "E_VERIFY_INCOMPLETE" "verification did not complete"
  | IntegrityVerified | IntegrityVerifiedWithRecordedLoss =>
    match cv_recording r with
    | Recorded _ => (Finished, None)
    | NotRecorded _ => failure Failed "E_HISTORY_NOT_RECORDED" "receipt was not recorded"
    | PublicationUnconfirmed _ _ =>
      failure Failed "E_HISTORY_PUBLICATION_UNCONFIRMED" "receipt publication was not confirmed"
    end
  end.
End Results.

Record JobSnapshot := {
  jn_job_id : bytes;
  jn_set : bytes;
  jn_state : JobState;
  jn_summary_json : option bytes;
  jn_error : option (string * string);
  jn_verification : option CapturedVerificationResult;
}.

Inductive JobEvent :=
  | EvStarted (job_id : bytes)
  | EvPhase (job_id : bytes) (name : bytes)
  | EvBytes (job_id : bytes) (done total : Z)
  | EvFinished (job_id : bytes) (summary_json : bytes)
  | EvFailed (job_id : bytes) (code message : string)
  | EvVerificationCompleted (job_id : bytes) (result : CapturedVerificationResult).

Module Events.
Definition job_id (e : JobEvent) : bytes :=
  match e with
  | EvStarted i | EvPhase i _ | EvBytes i _ _ | EvFinished i _ | EvVerificationCompleted i _
  | EvFailed i _ _ => i
  end.

Definition is_terminal (e : JobEvent) : bool :=
  match e with EvFinished _ _ | EvFailed _ _ _ | EvVerificationCompleted _ _ => true | _ => false end.
End Events.

(** The flag is the index of its cell. *)
Record Entry := {
  en_set : bytes;
  en_owner : Z;
  en_state : JobState;
  en_cancel : nat;
  en_summary_json : option bytes;
  en_error : option (string * string);
  en_verification : option CapturedVerificationResult;
}.

Record Registry := {
  rg_entries : gmap bytes Entry;
  rg_events : list JobEvent;
  rg_draining : bool;
  rg_flags : list bool;
}.

Module Jobs.
Definition new : Registry :=
  {| rg_entries := ∅; rg_events := []; rg_draining := false; rg_flags := [] |}.

(** [matches!(state, Pending | Running)]. *)
Definition is_active (s : JobState) : bool :=
  match s with Pending | Running => true | _ => false end.

Definition with_entries (entries : gmap bytes Entry) (r : Registry) : Registry :=
  {| rg_entries := entries; rg_events := rg_events r; rg_draining := rg_draining r;
     rg_flags := rg_flags r |}.

(** [entry.cancel.store(true)]. *)
Definition raise_flags (flags : list nat) (r : Registry) : Registry :=
  {| rg_entries := rg_entries r; rg_events := rg_events r; rg_draining := rg_draining r;
     rg_flags := foldr (fun i f => <[i := true]> f) (rg_flags r) flags |}.

Definition begin_drain : step Registry unit := modify (fun r =>
  {| rg_entries := rg_entries r; rg_events := rg_events r; rg_draining := true;
     rg_flags := rg_flags r |}).

(** The entries that are pending or running. *)
Definition active_entries (r : Registry) : list (bytes * Entry) :=
  List.filter (fun e : bytes * Entry => is_active (en_state (snd e))) (map_to_list (rg_entries r)).

Definition active (r : Registry) : Z := zlen (active_entries r).

Definition pair_leb (x y : bytes * bytes) : bool :=
  match bytes_cmp (fst x) (fst y) with
  | Lt => true
  | Gt => false
  | Eq => match bytes_cmp (snd x) (snd y) with Gt => false | _ => true end
  end.
Definition active_jobs (r : Registry) : list (bytes * bytes) :=
  sort_by pair_leb (map (fun '(id, e) => (id, en_set e)) (active_entries r)).

Definition cancel_all : step Registry unit := modify (fun r =>
  raise_flags (map (fun e => en_cancel (snd e)) (active_entries r)) r).

Definition publish (e : JobEvent) : step Registry unit := modify (fun r =>
  {| rg_entries := rg_entries r; rg_events := rg_events r ++ [e]; rg_draining := rg_draining r;
     rg_flags := rg_flags r |}).

(** What [register_for] does under the lock; the value is the job's flag. The
    first busy job found is any of them. *)
Definition admit_job (job_id set : bytes) (owner : Z) : step Registry nat := fun r =>
  if rg_draining r then
    (r, Err (TargetBusy "the daemon is stopping; start the job again once it is back"))
  else if match rg_entries r !! job_id with Some e => is_active (en_state e) | None => false end then
    (r, Err (TargetBusy "job {job_id} is already {}"))
  else if existsb (fun e : bytes * Entry =>
            negb (bool_decide (fst e = job_id)) && bool_decide (en_set (snd e) = set)
            && is_active (en_state (snd e))) (map_to_list (rg_entries r)) then
    (r, Err (TargetBusy "set {set} is busy with job {running}"))
  else
    let cancel := length (rg_flags r) in
    ({| rg_entries := <[job_id :=
          {| en_set := set; en_owner := owner; en_state := Running; en_cancel := cancel;
             en_summary_json := None; en_error := None; en_verification := None |}]> (rg_entries r);
        rg_events := rg_events r; rg_draining := rg_draining r; rg_flags := rg_flags r ++ [false] |},
     Ok cancel).

(** [Started] is published after the lock is dropped. The sink is the job's id. *)
Definition register_for (job_id set : bytes) (owner : Z) : step Registry (bytes * nat) :=
  do* cancel := admit_job job_id set owner in
  do* _ := publish (EvStarted job_id) in
  step_ret (job_id, cancel).

Definition register (job_id set : bytes) : step Registry (bytes * nat) := register_for job_id set 0.

(** [progress_bridge::Sink]. *)
Definition sink_phase (job_id name : bytes) : step Registry unit := publish (EvPhase job_id name).
Definition sink_bytes (job_id : bytes) (done total : Z) : step Registry unit :=
  publish (EvBytes job_id done total).

Definition snapshot_of (job_id : bytes) (e : Entry) : JobSnapshot :=
  {| jn_job_id := job_id; jn_set := en_set e; jn_state := en_state e;
     jn_summary_json := en_summary_json e; jn_error := en_error e;
     jn_verification := en_verification e |}.

(** [JobSnapshot::terminal_event]. *)
Definition terminal_event (s : JobSnapshot) : option JobEvent :=
  match jn_verification s with
  | Some result => Some (EvVerificationCompleted (jn_job_id s) result)
  | None =>
    match jn_state s with
    | Finished => option_map (EvFinished (jn_job_id s)) (jn_summary_json s)
    | Failed | Cancelled =>
      option_map (fun '(code, message) => EvFailed (jn_job_id s) code message) (jn_error s)
    | Pending | Running => None
    end
  end.

(** Change an entry and publish its terminal event under the same lock. *)
Definition settle (job_id : bytes) (change : Entry -> Entry) : step Registry JobSnapshot := fun r =>
  match rg_entries r !! job_id with
  | None => (r, Err (Unsupported "no job {job_id}"))
  | Some e =>
    let e := change e in
    let snapshot := snapshot_of job_id e in
    let r := with_entries (<[job_id := e]> (rg_entries r)) r in
    match terminal_event snapshot with
    | Some event => (fst (publish event r), Ok snapshot)
    | None => (r, Ok snapshot)
    end
  end.

Definition finished (outcome : result bytes) (e : Entry) : Entry :=
  let with_outcome state summary_json error :=
    {| en_set := en_set e; en_owner := en_owner e; en_state := state; en_cancel := en_cancel e;
       en_summary_json := summary_json; en_error := error; en_verification := None |} in
  match outcome with
  | Ok summary => with_outcome Finished (Some summary) None
  | Err error =>
    with_outcome (match error with Prelude.Cancelled => Cancelled | _ => Failed end) None
      (Some (Status.error_code error))
  end.

Definition finish (job_id : bytes) (outcome : result bytes) : step Registry JobSnapshot :=
  settle job_id (finished outcome).

Definition verified (result : CapturedVerificationResult) (e : Entry) : Entry :=
  let '(state, error) := Results.job_outcome result in
  {| en_set := en_set e; en_owner := en_owner e; en_state := state; en_cancel := en_cancel e;
     en_summary_json := None; en_error := error; en_verification := Some result |}.

Definition finish_verification (job_id : bytes) (result : CapturedVerificationResult) :
    step Registry JobSnapshot := settle job_id (verified result).

Definition entry (job_id : bytes) : step Registry Entry := reads (fun r =>
  ok_or (rg_entries r !! job_id) (Unsupported "no job {job_id}")).

Definition snapshot (job_id : bytes) : step Registry JobSnapshot :=
  do* e := entry job_id in step_ret (snapshot_of job_id e).

Definition snapshot_owned (job_id : bytes) (uid : Z) : step Registry JobSnapshot :=
  do* e := entry job_id in
  if negb (uid =? 0) && negb (uid =? en_owner e) then
    step_err (Denied "org.linuxreflect.disk.read" "verification result belongs to another user")
  else step_ret (snapshot_of job_id e).

Definition owner (job_id : bytes) : step Registry Z :=
  do* e := entry job_id in step_ret (en_owner e).

Definition cancelled (e : Entry) : Entry :=
  match en_state e with
  | Pending =>
    {| en_set := en_set e; en_owner := en_owner e; en_state := Cancelled; en_cancel := en_cancel e;
       en_summary_json := en_summary_json e; en_error := en_error e;
       en_verification := en_verification e |}
  | _ => e
  end.

(** What [cancel] does under its first lock. *)
Definition request_cancel (job_id : bytes) : step Registry unit :=
  do* e := entry job_id in
  do* _ := modify (raise_flags [en_cancel e]) in
  modify (fun r => with_entries (<[job_id := cancelled e]> (rg_entries r)) r).

Definition cancel (job_id : bytes) : step Registry JobSnapshot :=
  do* _ := request_cancel job_id in snapshot job_id.

Definition snapshot_leb (x y : JobSnapshot) : bool :=
  match bytes_cmp (jn_job_id x) (jn_job_id y) with Gt => false | _ => true end.

Definition list_jobs (r : Registry) : list JobSnapshot :=
  sort_by snapshot_leb (map (fun '(id, e) => snapshot_of id e) (map_to_list (rg_entries r))).

(** The engine reads the flag it was given. *)
Definition flag_raised (cancel : nat) (r : Registry) : bool :=
  match rg_flags r !! cancel with Some b => b | None => false end.
End Jobs.
