(* ===== verification/JobsSpec.v ===== *)
(** * The registry with its workers

    The daemon runs each job on a thread of its own: [register_for], then the
    work, then exactly one [finish] or [finish_verification]
    ([run_job] and [run_verification_job] of [service.rs]). A step of the system
    is one locked section or one publication of one thread; the threads
    interleave at will. [begin_drain] sets an atomic flag that [register_for]
    reads once under the lock: an admission that read it before counts as
    earlier. *)

From stdpp Require Import gmap relations.
From S2P Require Import Prelude Maps Steps Observation Jobs.
Import Jobs.

(** Where a thread is between its calls, and the flag it got. *)
Inductive Stage :=
  | Announcing (cancel : nat)   (* the lock is dropped, [Started] not yet published *)
  | Working (cancel : nat).

Definition stage_flag (s : Stage) : nat := match s with Announcing c | Working c => c end.

Record System := { sy_registry : Registry; sy_workers : gmap bytes Stage }.

Definition start : System := {| sy_registry := new; sy_workers := ∅ |}.

Inductive sys_step : System -> System -> Prop :=
  | StAdmit r w id set owner r' c :
      admit_job id set owner r = (r', Ok c) ->
      sys_step {| sy_registry := r; sy_workers := w |}
               {| sy_registry := r'; sy_workers := <[id := Announcing c]> w |}
  | StRefuse r w id set owner r' e :
      admit_job id set owner r = (r', Err e) ->
      sys_step {| sy_registry := r; sy_workers := w |} {| sy_registry := r'; sy_workers := w |}
  | StStarted r w id c :
      w !! id = Some (Announcing c) ->
      sys_step {| sy_registry := r; sy_workers := w |}
               {| sy_registry := fst (publish (EvStarted id) r); sy_workers := <[id := Working c]> w |}
  | StPhase r w id c name :
      w !! id = Some (Working c) ->
      sys_step {| sy_registry := r; sy_workers := w |}
               {| sy_registry := fst (sink_phase id name r); sy_workers := w |}
  | StBytes r w id c done total :
      w !! id = Some (Working c) ->
      sys_step {| sy_registry := r; sy_workers := w |}
               {| sy_registry := fst (sink_bytes id done total r); sy_workers := w |}
  | StFinish r w id c outcome :
      w !! id = Some (Working c) ->
      sys_step {| sy_registry := r; sy_workers := w |}
               {| sy_registry := fst (finish id outcome r); sy_workers := delete id w |}
  | StVerified r w id c result :
      w !! id = Some (Working c) ->
      sys_step {| sy_registry := r; sy_workers := w |}
               {| sy_registry := fst (finish_verification id result r); sy_workers := delete id w |}
  | StCancel r w id :
      sys_step {| sy_registry := r; sy_workers := w |}
               {| sy_registry := fst (request_cancel id r); sy_workers := w |}
  | StCancelAll r w :
      sys_step {| sy_registry := r; sy_workers := w |}
               {| sy_registry := fst (cancel_all r); sy_workers := w |}
  | StDrain r w :
      sys_step {| sy_registry := r; sy_workers := w |}
               {| sy_registry := fst (begin_drain r); sy_workers := w |}.

Definition reachable (s : System) : Prop := rtc sys_step start s.

(** ** What one subscriber sees of one job *)
Inductive Episode := Idle | Open.

(** A job's events come in episodes: started, then progress, then one terminal
    event. [None] is a sequence out of order. *)
Definition turn (id : bytes) (s : option Episode) (e : JobEvent) : option Episode :=
  if bool_decide (Events.job_id e = id) then
    match s, e with
    | Some Idle, EvStarted _ => Some Open
    | Some Open, (EvPhase _ _ | EvBytes _ _ _) => Some Open
    | Some Open, (EvFinished _ _ | EvFailed _ _ _ | EvVerificationCompleted _ _) => Some Idle
    | _, _ => None
    end
  else s.

Definition episodes (id : bytes) (events : list JobEvent) : option Episode :=
  fold_left (turn id) events (Some Idle).

Definition terminal_of (id : bytes) (e : JobEvent) : bool :=
  bool_decide (Events.job_id e = id) && Events.is_terminal e.

Definition last_terminal (id : bytes) (events : list JobEvent) : option JobEvent :=
  last (List.filter (terminal_of id) events).

#[local] Arguments episodes : simpl never.
#[local] Arguments last_terminal : simpl never.
#[local] Arguments request_cancel : simpl never.

Definition active_in (r : Registry) (id : bytes) (e : Entry) : Prop :=
  rg_entries r !! id = Some e /\ is_active (en_state e) = true.

(** ** The invariant *)
Record consistent (s : System) : Prop := {
  cs_pending : forall id e, rg_entries (sy_registry s) !! id = Some e -> en_state e <> Pending;
  cs_workers : forall id c, (exists st, sy_workers s !! id = Some st /\ stage_flag st = c) <->
    (exists e, active_in (sy_registry s) id e /\ en_cancel e = c);
  cs_sets : forall id id' e e', active_in (sy_registry s) id e -> active_in (sy_registry s) id' e' ->
    en_set e = en_set e' -> id = id';
  cs_flags : forall id id' e e', active_in (sy_registry s) id e -> active_in (sy_registry s) id' e' ->
    en_cancel e = en_cancel e' -> id = id';
  cs_cells : forall id e, active_in (sy_registry s) id e ->
    (en_cancel e < length (rg_flags (sy_registry s)))%nat;
  cs_events : forall id, episodes id (rg_events (sy_registry s)) =
    Some (match sy_workers s !! id with Some (Working _) => Open | _ => Idle end);
  cs_retained : forall id e, rg_entries (sy_registry s) !! id = Some e ->
    is_active (en_state e) = false ->
    terminal_event (snapshot_of id e) <> None /\
    last_terminal id (rg_events (sy_registry s)) = terminal_event (snapshot_of id e);
}.

(** ** Lemmas *)
Lemma episodes_snoc id events e : episodes id (events ++ [e]) = turn id (episodes id events) e.
Proof. unfold episodes. by rewrite fold_left_app. Qed.

Lemma last_terminal_snoc id events e :
  last_terminal id (events ++ [e]) =
  if terminal_of id e then Some e else last_terminal id events.
Proof.
  unfold last_terminal. rewrite List.filter_app. cbn [List.filter].
  destruct (terminal_of id e); [apply last_snoc|by rewrite app_nil_r].
Qed.

Lemma turn_other id s e : Events.job_id e <> id -> turn id s e = s.
Proof. intros Hne. unfold turn. by rewrite bool_decide_eq_false_2. Qed.

Lemma terminal_other id e : Events.job_id e <> id -> terminal_of id e = false.
Proof. intros Hne. unfold terminal_of. by rewrite bool_decide_eq_false_2. Qed.

Lemma terminal_event_job s e : terminal_event s = Some e -> Events.job_id e = jn_job_id s /\ Events.is_terminal e = true.
Proof.
  unfold terminal_event. destruct (jn_verification s); [by intros [= <-]|].
  destruct (jn_state s); try done.
  - destruct (jn_summary_json s); [by intros [= <-]|done].
  - destruct (jn_error s) as [[c m]|]; [by intros [= <-]|done].
  - destruct (jn_error s) as [[c m]|]; [by intros [= <-]|done].
Qed.

(** The two ways [admit_job] ends. *)
Lemma admit_cases id set owner r :
  match admit_job id set owner r with
  | (r', Err _) => r' = r
  | (r', Ok c) =>
    rg_draining r = false /\ c = length (rg_flags r) /\
    (forall e, ~ active_in r id e) /\
    (forall id' e, active_in r id' e -> en_set e <> set) /\
    exists e, r' = {| rg_entries := <[id := e]> (rg_entries r); rg_events := rg_events r;
                      rg_draining := rg_draining r; rg_flags := rg_flags r ++ [false] |} /\
      en_set e = set /\ en_owner e = owner /\ en_state e = Running /\ en_cancel e = c
  end.
Proof.
  unfold admit_job. destruct (rg_draining r) eqn:Ed; [done|].
  destruct (match rg_entries r !! id with Some e => _ | None => _ end) eqn:Ei; [done|].
  destruct (existsb _ _) eqn:Eb; [done|].
  assert (forall e, ~ active_in r id e) as Hid.
  { intros e [He Ha]. rewrite He in Ei. congruence. }
  split_and!; [done|done|done| |].
  - intros id' e [He Ha] Hs. destruct (decide (id' = id)) as [->|Hne]; [by apply (Hid e)|].
    assert (existsb (fun e : bytes * Entry => negb (bool_decide (fst e = id)) && bool_decide (en_set (snd e) = set)
      && is_active (en_state (snd e))) (map_to_list (rg_entries r)) = true) as Ht; [|congruence].
    apply existsb_exists. exists (id', e). split.
    + by apply list_elem_of_In, elem_of_map_to_list.
    + cbn. rewrite Ha, bool_decide_eq_false_2, bool_decide_eq_true_2; done.
  - eexists. split; [reflexivity|]. cbn. split_and!; reflexivity.
Qed.

(** Raising flags changes nothing else. *)
Lemma raised_length flags (l : list bool) :
  length (foldr (fun i f => <[i := true]> f) l flags) = length l.
Proof. induction flags as [|i flags IH]; [done|]. cbn. by rewrite length_insert. Qed.

Lemma consistent_flags r w flags :
  length flags = length (rg_flags r) -> consistent {| sy_registry := r; sy_workers := w |} ->
  consistent {| sy_registry := {| rg_entries := rg_entries r; rg_events := rg_events r;
    rg_draining := rg_draining r; rg_flags := flags |}; sy_workers := w |}.
Proof. intros Hl [? ? ? ? Hc ? ?]. split; try done. cbn in *. intros id e He. rewrite Hl. by apply (Hc id). Qed.

Lemma consistent_drain r w b :
  consistent {| sy_registry := r; sy_workers := w |} ->
  consistent {| sy_registry := {| rg_entries := rg_entries r; rg_events := rg_events r;
    rg_draining := b; rg_flags := rg_flags r |}; sy_workers := w |}.
Proof. by intros [? ? ? ? ? ? ?]; split. Qed.

Lemma consistent_start : consistent start.
Proof.
  split; cbn; unfold active_in; cbn; try done.
  - intros id c. split; [by intros (st & Hs & _)|by intros (e & [He _] & _)].
  - by intros id id' e e' [He _].
  - by intros id id' e e' [He _].
  - by intros id e [He _].
Qed.

Lemma consistent_admit r w id set owner r' c :
  admit_job id set owner r = (r', Ok c) -> consistent {| sy_registry := r; sy_workers := w |} ->
  consistent {| sy_registry := r'; sy_workers := <[id := Announcing c]> w |}.
Proof.
  intros Ha [Hp Hw Hs Hf Hc He Hr]. cbn in *.
  pose proof (admit_cases id set owner r) as Hcase. rewrite Ha in Hcase.
  destruct Hcase as (_ & -> & Hid & Hset & e & -> & Hes & _ & Hst & Hec).
  assert (forall id' e', active_in {| rg_entries := <[id := e]> (rg_entries r); rg_events := rg_events r;
      rg_draining := rg_draining r; rg_flags := rg_flags r ++ [false] |} id' e' <->
    (id' = id /\ e' = e) \/ (id' <> id /\ active_in r id' e')) as Hact.
  { intros id' e'. unfold active_in. cbn. destruct (decide (id' = id)) as [->|Hne].
    - rewrite lookup_insert_eq. split.
      + intros [[= <-] _]. by left.
      + intros [[_ ->]|[? _]]; [by rewrite Hst|done].
    - rewrite lookup_insert_ne by done. split; [by right|]. intros [[? _]|[_ ?]]; done. }
  split; cbn.
  - intros id' e' He'. apply lookup_insert_Some in He' as [[_ <-]|[_ He']]; [by rewrite Hst|by apply (Hp id')].
  - intros id' c'. setoid_rewrite Hact. destruct (decide (id' = id)) as [->|Hne].
    + rewrite lookup_insert_eq. split.
      * intros (st & [= <-] & <-). exists e. split; [by left|done].
      * intros (e' & [[_ ->]|[? _]] & <-); [|done]. eexists. split; [reflexivity|by cbn].
    + rewrite lookup_insert_ne by done. rewrite Hw. split.
      * intros (e' & He' & Hc'). exists e'. split; [by right|done].
      * intros (e' & [[? _]|[_ He']] & Hc'); [done|]. by exists e'.
  - intros i i' e1 e2 H1 H2 Heq. apply Hact in H1, H2.
    destruct H1 as [[-> ->]|[Hi H1]], H2 as [[-> ->]|[Hi' H2]]; [done| | |by apply (Hs _ _ e1 e2)].
    + exfalso. by apply (Hset i' e2 H2); congruence.
    + exfalso. by apply (Hset i e1 H1); congruence.
  - intros i i' e1 e2 H1 H2 Heq. apply Hact in H1, H2.
    destruct H1 as [[-> ->]|[Hi H1]], H2 as [[-> ->]|[Hi' H2]]; [done| | |by apply (Hf _ _ e1 e2)].
    + specialize (Hc i' e2 H2). lia.
    + specialize (Hc i e1 H1). lia.
  - intros id' e' H1. rewrite length_app. cbn. apply Hact in H1 as [[-> ->]|[_ H1]]; [lia|].
    specialize (Hc id' e' H1). lia.
  - intros id'. rewrite He. destruct (decide (id' = id)) as [->|Hne].
    + rewrite lookup_insert_eq. destruct (w !! id) as [st|] eqn:Ew; [|done].
      destruct (Hw id (stage_flag st)) as [Hw1 _].
      destruct Hw1 as (e' & H1 & _); [by exists st|]. exfalso. by apply (Hid e').
    + by rewrite lookup_insert_ne by done.
  - intros id' e' He' Hna. apply lookup_insert_Some in He' as [[_ <-]|[_ He']]; [by rewrite Hst in Hna|].
    by apply Hr.
Qed.

(** Publishing an event of a job that is not terminal moves the job's episode on
    and keeps everything else. *)
Lemma consistent_publish r w w' id e st :
  consistent {| sy_registry := r; sy_workers := w |} ->
  Events.job_id e = id -> Events.is_terminal e = false -> w !! id = Some st ->
  w' = <[id := Working (stage_flag st)]> w ->
  turn id (Some (match st with Working _ => Open | _ => Idle end)) e = Some Open ->
  consistent {| sy_registry := fst (publish e r); sy_workers := w' |}.
Proof.
  intros [Hp Hw Hs Hf Hc He Hr] Hid Ht Hst -> Hturn. cbn in *. split; cbn; try done.
  - intros id' c. unfold active_in in *. cbn. rewrite <- (Hw id' c). destruct (decide (id' = id)) as [->|Hne].
    + rewrite lookup_insert_eq, Hst. split; intros (st' & [= <-] & <-); eauto.
    + by rewrite lookup_insert_ne.
  - intros id'. rewrite episodes_snoc, He. destruct (decide (id' = id)) as [->|Hne].
    + rewrite lookup_insert_eq, Hst. destruct st; exact Hturn.
    + rewrite lookup_insert_ne by done. apply turn_other. congruence.
  - intros id' e' He' Hna. destruct (Hr id' e' He' Hna) as [Hn Hl]. split; [done|].
    rewrite last_terminal_snoc. unfold terminal_of. by rewrite Ht, andb_false_r.
Qed.

(** What the changes of [finish] and [finish_verification] have in common. *)
Definition settles (change : Entry -> Entry) : Prop := forall id e,
  is_active (en_state (change e)) = false /\
  en_set (change e) = en_set e /\ terminal_event (snapshot_of id (change e)) <> None.

Lemma finished_settles outcome : settles (finished outcome).
Proof.
  intros id e. destruct outcome as [summary|error]; cbn; [done|].
  destruct error; cbn; split_and!; done.
Qed.

Lemma verified_settles result : settles (verified result).
Proof.
  intros id e. unfold verified, Results.job_outcome.
  destruct (vo_outcome _) as [| |stage []]; try destruct (cv_recording result); cbn; split_and!; done.
Qed.

Lemma consistent_settle r w id c change :
  settles change -> w !! id = Some (Working c) -> consistent {| sy_registry := r; sy_workers := w |} ->
  consistent {| sy_registry := fst (settle id change r); sy_workers := delete id w |}.
Proof.
  intros Hch Hst [Hp Hw Hs Hf Hc He Hr]. cbn in *.
  destruct (Hw id c) as [Hw1 _]. destruct Hw1 as (e & [Hl Ha] & Hec); [by exists (Working c)|].
  destruct (Hch id e) as (Hna & Hset & Ht). unfold settle. rewrite Hl.
  destruct (terminal_event _) as [event|] eqn:Et; [|done].
  apply terminal_event_job in Et as Hev. destruct Hev as [Hid Hterm]. cbn [snapshot_of jn_job_id] in Hid.
  assert (forall id' e', active_in {| rg_entries := <[id := change e]> (rg_entries r);
      rg_events := rg_events r ++ [event]; rg_draining := rg_draining r; rg_flags := rg_flags r |} id' e' <->
    id' <> id /\ active_in r id' e') as Hact.
  { intros id' e'. unfold active_in. cbn. destruct (decide (id' = id)) as [->|Hne].
    - rewrite lookup_insert_eq. split; [|by intros []]. intros [[= <-] Hy]. congruence.
    - rewrite lookup_insert_ne by done. split; [done|by intros [_ ?]]. }
  split; cbn.
  - intros id' e' He'. apply lookup_insert_Some in He' as [[_ <-]|[_ He']]; [|by apply (Hp id')].
    intros Hpe. by rewrite Hpe in Hna.
  - intros id' c'. setoid_rewrite Hact. destruct (decide (id' = id)) as [->|Hne].
    + rewrite lookup_delete_eq. split; [by intros (st & ? & _)|by intros (e' & [[? _] _])].
    + rewrite lookup_delete_ne by done. rewrite Hw. split.
      * intros (e' & H1 & H2). by exists e'.
      * intros (e' & [_ H1] & H2). by exists e'.
  - intros i i' e1 e2 [_ H1]%Hact [_ H2]%Hact. by apply Hs.
  - intros i i' e1 e2 [_ H1]%Hact [_ H2]%Hact. by apply Hf.
  - intros i e1 [_ H1]%Hact. by apply (Hc i).
  - intros id'. rewrite episodes_snoc, He. destruct (decide (id' = id)) as [->|Hne].
    + rewrite lookup_delete_eq, Hst. unfold turn. rewrite bool_decide_eq_true_2 by done.
      by destruct event.
    + rewrite lookup_delete_ne by done. apply turn_other. congruence.
  - intros id' e' He' Hn. rewrite last_terminal_snoc.
    apply lookup_insert_Some in He' as [[<- <-]|[Hne He']].
    + rewrite Et. split; [done|]. unfold terminal_of. by rewrite bool_decide_eq_true_2, Hterm.
    + rewrite terminal_other by congruence. by apply Hr.
Qed.

Lemma request_cancel_flags id r w :
  consistent {| sy_registry := r; sy_workers := w |} ->
  fst (request_cancel id r) = match rg_entries r !! id with
                              | Some e => raise_flags [en_cancel e] r
                              | None => r
                              end.
Proof.
  intros Hc. unfold request_cancel, entry, reads, step_bind, modify, with_entries, raise_flags.
  destruct (rg_entries r !! id) as [e|] eqn:Ee; [|done]. cbn.
  assert (cancelled e = e) as ->.
  { unfold cancelled. pose proof (cs_pending _ Hc id e Ee). by destruct (en_state e). }
  by rewrite insert_id.
Qed.

Lemma consistent_step s s' : sys_step s s' -> consistent s -> consistent s'.
Proof.
  intros Hstep Hc. destruct Hstep as
    [r w id set owner r' c Ha|r w id set owner r' e Ha|r w id c Hw|r w id c name Hw|r w id c dn total Hw
    |r w id c outcome Hw|r w id c result Hw|r w id|r w|r w].
  - by eapply consistent_admit.
  - pose proof (admit_cases id set owner r) as Hcase. rewrite Ha in Hcase. by subst.
  - eapply (consistent_publish r w _ id _ (Announcing c)); try done.
    unfold turn. cbn. by rewrite bool_decide_eq_true_2.
  - eapply (consistent_publish r w _ id _ (Working c)); try done.
    + symmetry. by apply insert_id.
    + unfold turn. cbn. by rewrite bool_decide_eq_true_2.
  - eapply (consistent_publish r w _ id _ (Working c)); try done.
    + symmetry. by apply insert_id.
    + unfold turn. cbn. by rewrite bool_decide_eq_true_2.
  - eapply consistent_settle; [apply finished_settles|done..].
  - eapply consistent_settle; [apply verified_settles|done..].
  - rewrite (request_cancel_flags id r w Hc). destruct (rg_entries r !! id); [|done].
    apply consistent_flags; [apply raised_length|done].
  - apply consistent_flags; [apply raised_length|done].
  - by apply consistent_drain.
Qed.

Lemma reachable_consistent s : reachable s -> consistent s.
Proof.
  revert s. apply rtc_ind_r; [apply consistent_start|].
  intros s s' _ Hstep Hc. by eapply consistent_step.
Qed.

Lemma reachable_steps s s' : reachable s -> rtc sys_step s s' -> reachable s'.
Proof. unfold reachable. apply rtc_trans. Qed.

(** A flag never goes down, and a cell never moves. *)
Lemma raise_lookup (flags : list nat) (l : list bool) (i : nat) (b : bool) :
  l !! i = Some b -> exists b', (foldr (fun i f => <[i := true]> f) l flags : list bool) !! i = Some b' /\
    (b = true -> b' = true) /\ (i ∈ flags -> b' = true).
Proof.
  intros Hl. induction flags as [|j flags (b' & Hb & Hm & Hr)].
  - exists b. split_and!; [done|done|]. by intros ?%not_elem_of_nil.
  - cbn. destruct (decide (j = i)) as [->|Hne].
    + exists true. split_and!; [|done|done]. apply list_lookup_insert_eq.
      by apply lookup_lt_Some in Hb.
    + exists b'. split_and!; [by rewrite list_lookup_insert_ne|done|].
      intros [?|Hin]%elem_of_cons; [congruence|by apply Hr].
Qed.

Lemma settle_flags id change r : rg_flags (fst (settle id change r)) = rg_flags r.
Proof. unfold settle. destruct (_ !! id); [|done]. by destruct (terminal_event _). Qed.

Lemma settle_draining id change r : rg_draining (fst (settle id change r)) = rg_draining r.
Proof. unfold settle. destruct (_ !! id); [|done]. by destruct (terminal_event _). Qed.

Lemma flags_grow s s' c : sys_step s s' -> flag_raised c (sy_registry s) = true ->
  flag_raised c (sy_registry s') = true.
Proof.
  intros Hstep. unfold flag_raised. destruct (rg_flags (sy_registry s) !! c) as [b|] eqn:Ec; [|done]. intros ->.
  destruct Hstep as
    [r w id set owner r' c' Ha|r w id set owner r' e Ha|r w id c' Hw|r w id c' name Hw|r w id c' dn total Hw
    |r w id c' outcome Hw|r w id c' result Hw|r w id|r w|r w]; cbn in *; try (by rewrite Ec).
  - pose proof (admit_cases id set owner r) as Hcase. rewrite Ha in Hcase.
    destruct Hcase as (_ & _ & _ & _ & e & -> & _). cbn. by rewrite (lookup_app_l_Some _ _ _ _ Ec).
  - pose proof (admit_cases id set owner r) as Hcase. rewrite Ha in Hcase. subst. by rewrite Ec.
  - unfold finish. by rewrite settle_flags, Ec.
  - unfold finish_verification. by rewrite settle_flags, Ec.
  - unfold request_cancel, entry, reads, step_bind, modify. destruct (rg_entries r !! id) as [e|]; cbn; [|by rewrite Ec].
    destruct (raise_lookup [en_cancel e] _ _ _ Ec) as (b' & Hb & Hm & _). cbn in Hb. by rewrite Hb, Hm.
  - destruct (raise_lookup (map (fun e => en_cancel (snd e)) (active_entries r)) _ _ _ Ec) as (b' & Hb & Hm & _).
    by rewrite Hb, Hm.
Qed.

(** A draining registry starts nothing. *)
Lemma drain_step s s' : sys_step s s' -> consistent s -> rg_draining (sy_registry s) = true ->
  rg_draining (sy_registry s') = true /\
  forall id, is_Some (sy_workers s' !! id) -> is_Some (sy_workers s !! id).
Proof.
  intros Hstep Hc Hd. destruct Hstep as
    [r w id set owner r' c Ha|r w id set owner r' e Ha|r w id c Hw|r w id c name Hw|r w id c dn total Hw
    |r w id c outcome Hw|r w id c result Hw|r w id|r w|r w]; cbn in *; try done.
  - pose proof (admit_cases id set owner r) as Hcase. rewrite Ha in Hcase. destruct Hcase; congruence.
  - pose proof (admit_cases id set owner r) as Hcase. rewrite Ha in Hcase. by subst.
  - split; [done|]. intros i. destruct (decide (i = id)) as [->|]; [by rewrite Hw|by rewrite lookup_insert_ne].
  - split; [by unfold finish; rewrite settle_draining|].
    intros i. destruct (decide (i = id)) as [->|]; [by rewrite Hw|by rewrite lookup_delete_ne].
  - split; [by unfold finish_verification; rewrite settle_draining|].
    intros i. destruct (decide (i = id)) as [->|]; [by rewrite Hw|by rewrite lookup_delete_ne].
  - by rewrite (request_cancel_flags id r w Hc); destruct (rg_entries r !! id).
Qed.

Lemma active_entries_In r id e : In (id, e) (active_entries r) <-> active_in r id e.
Proof.
  unfold active_entries, active_in. rewrite List.filter_In, <- list_elem_of_In, elem_of_map_to_list. done.
Qed.

Lemma inactive_workers s : consistent s -> active (sy_registry s) = 0 <-> sy_workers s = ∅.
Proof.
  intros Hc. unfold active. split.
  - intros Hz%zlen_0_nil. apply map_eq. intros id. rewrite lookup_empty.
    destruct (sy_workers s !! id) as [st|] eqn:Es; [|done]. exfalso.
    destruct (cs_workers s Hc id (stage_flag st)) as [Hw _].
    destruct Hw as (e & He%active_entries_In & _); [by exists st|]. by rewrite Hz in He.
  - intros Hw. destruct (active_entries _) as [|[id e] l] eqn:El; [done|]. exfalso.
    assert (active_in (sy_registry s) id e) as Ha by (apply active_entries_In; rewrite El; by left).
    destruct (cs_workers s Hc id (en_cancel e)) as [_ Hw1].
    destruct Hw1 as (st & Hst & _); [by exists e|]. by rewrite Hw in Hst.
Qed.

(** Without workers only flags and the drain can move. *)
Lemma idle_step s s' : sys_step s s' -> consistent s -> rg_draining (sy_registry s) = true ->
  sy_workers s = ∅ ->
  rg_entries (sy_registry s') = rg_entries (sy_registry s) /\
  rg_events (sy_registry s') = rg_events (sy_registry s).
Proof.
  intros Hstep Hc Hd Hw0. destruct Hstep as
    [r w id set owner r' c Ha|r w id set owner r' e Ha|r w id c Hw|r w id c name Hw|r w id c dn total Hw
    |r w id c outcome Hw|r w id c result Hw|r w id|r w|r w]; cbn in *; subst; try done.
  - pose proof (admit_cases id set owner r) as Hcase. rewrite Ha in Hcase. destruct Hcase; congruence.
  - pose proof (admit_cases id set owner r) as Hcase. rewrite Ha in Hcase. by subst.
  - by rewrite (request_cancel_flags id r ∅ Hc); destruct (rg_entries r !! id).
Qed.

(** ** Properties *)

(** C34: However the daemon's threads interleave, the jobs that are pending or
    running are exactly those with a thread at work on them; no two of them have
    the same set or share a cancellation flag, and no job waits as pending. *)
Theorem registry_exclusive (s : System) :
  reachable s ->
  (forall id c, (exists st, sy_workers s !! id = Some st /\ stage_flag st = c) <->
     (exists e, active_in (sy_registry s) id e /\ en_cancel e = c)) /\
  (forall id id' e e', active_in (sy_registry s) id e -> active_in (sy_registry s) id' e' -> id <> id' ->
     en_set e <> en_set e' /\ en_cancel e <> en_cancel e') /\
  (forall id e, rg_entries (sy_registry s) !! id = Some e -> en_state e <> Pending).
Proof.
  intros Hc%reachable_consistent. split_and!; [apply (cs_workers s Hc)| |apply (cs_pending s Hc)].
  intros id id' e e' He He' Hne. split; intros Heq; apply Hne;
    [by apply (cs_sets s Hc _ _ e e')|by apply (cs_flags s Hc _ _ e e')].
Qed.

(** C33: The events of each job come in order, also when its id is used again: an
    episode is the start, then progress, then one terminal event, and the next
    start comes after it. A job whose state is terminal retains what the last of
    these events said, so a subscriber that missed it can read it back. *)
Theorem job_events_ordered (s : System) (id : bytes) :
  reachable s ->
  (exists st, episodes id (rg_events (sy_registry s)) = Some st /\
     (st = Open <-> exists c, sy_workers s !! id = Some (Working c))) /\
  (forall e, rg_entries (sy_registry s) !! id = Some e -> is_active (en_state e) = false ->
     exists event, terminal_event (snapshot_of id e) = Some event /\
       last_terminal id (rg_events (sy_registry s)) = Some event).
Proof.
  intros Hc%reachable_consistent. split.
  - eexists. split; [apply (cs_events s Hc)|]. destruct (sy_workers s !! id) as [[c|c]|]; split; try done.
    + by intros [c' ?].
    + intros _. by exists c.
    + by intros [c' ?].
  - intros e He Hna. destruct (cs_retained s Hc id e He Hna) as [Ht Hl].
    destruct (terminal_event _) as [event|]; [|done]. by exists event.
Qed.

(** Once the drain has begun no job is admitted, and the jobs at work only
    become fewer; and when the stopping daemon then finds no active job, that is
    final: whatever still happens, no entry changes and nothing is published. *)
Theorem drain_concludes (s s' : System) :
  reachable s -> rg_draining (sy_registry s) = true -> rtc sys_step s s' ->
  (forall id set owner, exists e, admit_job id set owner (sy_registry s') = (sy_registry s', Err e)) /\
  (forall id, is_Some (sy_workers s' !! id) -> is_Some (sy_workers s !! id)) /\
  (active (sy_registry s) = 0 ->
     active (sy_registry s') = 0 /\ rg_entries (sy_registry s') = rg_entries (sy_registry s) /\
     rg_events (sy_registry s') = rg_events (sy_registry s)).
Proof.
  intros Hr Hd Hsteps.
  assert (rg_draining (sy_registry s') = true /\
    (forall id, is_Some (sy_workers s' !! id) -> is_Some (sy_workers s !! id)) /\
    (active (sy_registry s) = 0 -> active (sy_registry s') = 0 /\
       rg_entries (sy_registry s') = rg_entries (sy_registry s) /\
       rg_events (sy_registry s') = rg_events (sy_registry s))) as (Hd' & Hw & Hz).
  { revert s' Hsteps. apply rtc_ind_r; [done|].
    intros t u Hst Hstep (Hdt & Hwt & Hzt).
    assert (consistent t) as Hct by (apply reachable_consistent; by eapply reachable_steps).
    destruct (drain_step t u Hstep Hct Hdt) as [Hdu Hwu].
    split_and!; [done|by auto|]. intros H0. destruct (Hzt H0) as (Hat & Het & Hvt).
    pose proof (proj1 (inactive_workers t Hct) Hat) as Hempty.
    destruct (idle_step t u Hstep Hct Hdt Hempty) as [Heu Hvu].
    split_and!; [|congruence..]. unfold active, active_entries in *. by rewrite Heu. }
  split_and!; [|done..]. intros id set owner. unfold admit_job. rewrite Hd'. by eexists.
Qed.

(** Cancelling reaches the job and only it: the flag its thread was given is up
    from then on, whatever the other threads do, and the flags of all other jobs
    at work are as they were. *)
Theorem cancel_reaches (s s' : System) (id : bytes) (st : Stage) :
  reachable s -> sy_workers s !! id = Some st ->
  let cancelled := {| sy_registry := fst (request_cancel id (sy_registry s)); sy_workers := sy_workers s |} in
  rtc sys_step cancelled s' ->
  flag_raised (stage_flag st) (sy_registry s') = true /\
  (forall id' st', id' <> id -> sy_workers s !! id' = Some st' ->
     flag_raised (stage_flag st') (sy_registry cancelled) = flag_raised (stage_flag st') (sy_registry s)).
Proof.
  intros Hr Hst cancelled Hsteps. apply reachable_consistent in Hr as Hc.
  destruct (cs_workers s Hc id (stage_flag st)) as [Hw _].
  destruct Hw as (e & He & Hce); [by exists st|].
  assert (sy_registry cancelled = raise_flags [en_cancel e] (sy_registry s)) as Hreg.
  { destruct s as [r w]. cbn in *. rewrite (request_cancel_flags id r w Hc). by destruct He as [-> _]. }
  split.
  - revert s' Hsteps. apply rtc_ind_r; [|intros t u _ Hstep; by apply flags_grow].
    unfold flag_raised. rewrite Hreg, <- Hce. cbn. rewrite list_lookup_insert_eq; [done|].
    by apply (cs_cells s Hc id).
  - intros id' st' Hne Hst'. destruct (cs_workers s Hc id' (stage_flag st')) as [Hw' _].
    destruct Hw' as (e' & He' & Hce'); [by exists st'|].
    unfold flag_raised. rewrite Hreg. cbn. rewrite list_lookup_insert_ne; [done|].
    intros Heq. apply Hne. symmetry. apply (cs_flags s Hc id id' e e' He He'). congruence.
Qed.
