(* ===== verification/Extents.v ===== *)
(** * Extents and read plans

    The range arithmetic of the used-block maps
    ([crates/lr-fsmap/src/extents.rs], [crates/lr-fsmap/src/lib.rs]) and the
    chunk plan made from a map ([crates/lr-blocksource/src/plan.rs]). Ranges are
    inclusive pairs; the arithmetic is that of [u64] in a release build. *)

From Stdlib Require Import Sorted.
From stdpp Require Import sorting.
From S2P Require Import Prelude.

Abbreviation Range := (Z * Z)%type.

Definition wrap64 (z : Z) : Z := z mod 2 ^ 64.
Definition saturating_add (a b : Z) : Z := Z.min (a + b) U64_MAX.
Definition saturating_sub (a b : Z) : Z := Z.max (a - b) 0.

Module Ranges.
Definition leb (x y : Range) : bool :=
  (fst x <? fst y) || ((fst x =? fst y) && (snd x <=? snd y)).

(** [for (start, end) in ranges] of [normalize]; [last] is [merged.last_mut()]. *)
Fixpoint join_disjoint (last : Range) (ranges : list Range) : result (list Range) :=
  match ranges with
  | [] => Ok [last]
  | (start, end_) :: ranges =>
    if start <=? saturating_add (snd last) 1 then
      if (start <=? snd last) && negb (start =? wrap64 (snd last + 1)) then
        Err (Corrupt "overlapping ranges {}..{} and {start}..{end}")
      else join_disjoint (fst last, Z.max (snd last) end_) ranges
    else
      let* merged := join_disjoint (start, end_) ranges in Ok (last :: merged)
  end.

Definition normalize (ranges : list Range) : result (list Range) :=
  ensure (forallb (fun r => fst r <=? snd r) ranges) (Corrupt "reversed range {start}-{end}");;;
  match sort_by leb ranges with
  | [] => Ok []
  | r :: ranges => join_disjoint r ranges
  end.

Fixpoint join_touching (last : Range) (ranges : list Range) : list Range :=
  match ranges with
  | [] => [last]
  | (start, end_) :: ranges =>
    if start <=? saturating_add (snd last) 1 then join_touching (fst last, Z.max (snd last) end_) ranges
    else last :: join_touching (start, end_) ranges
  end.

Definition merge (ranges : list Range) : list Range :=
  match sort_by leb ranges with
  | [] => []
  | r :: ranges => join_touching r ranges
  end.

Fixpoint gaps (first end_exclusive cursor : Z) (free : list Range) : result (list Range) :=
  match free with
  | [] => Ok (if cursor <? end_exclusive then [(cursor, end_exclusive - 1)] else [])
  | (start, end_) :: free =>
    if (start <? first) || (end_exclusive <=? end_) then
      Err (Corrupt "free range {start}-{end} lies outside {first}..{end_exclusive}")
    else
      let* used := gaps first end_exclusive (end_ + 1) free in
      Ok (if cursor <? start then (cursor, start - 1) :: used else used)
  end.

Definition complement (first end_exclusive : Z) (free : list Range) : result (list Range) :=
  gaps first end_exclusive first free.

Definition to_bytes (ranges : list Range) (block_size : Z) : list Range :=
  map (fun '(start, end_) =>
    (wrap64 (start * block_size), wrap64 (wrap64 (wrap64 (end_ + 1) * block_size) - 1))) ranges.
End Ranges.

Record ExtentMap := { em_extents : list Range; em_complete : bool }.

Module Extents.
Definition whole_device (size : Z) : ExtentMap :=
  {| em_extents := if size =? 0 then [] else [(0, size - 1)]; em_complete := false |}.

Definition covered_bytes (m : ExtentMap) : Z :=
  fold_left (fun sum '(start, end_) => wrap64 (sum + wrap64 (end_ - start + 1))) (em_extents m) 0.

Definition is_empty (m : ExtentMap) : bool := match em_extents m with [] => true | _ => false end.

Definition round_outward (chunk_size device_size : Z) (extent : Range) : option Range :=
  let '(start, end_) := extent in
  let first := start / chunk_size * chunk_size in
  let last := end_ / chunk_size * chunk_size in
  let last := Z.min (saturating_add last (chunk_size - 1)) (saturating_sub device_size 1) in
  if first <=? last then Some (first, last) else None.

Definition chunk_aligned (m : ExtentMap) (chunk_size device_size : Z) : list Range :=
  if chunk_size =? 0 then em_extents m
  else Ranges.merge (omap (round_outward chunk_size device_size) (em_extents m)).
End Extents.

(** ** Read plans *)
Record ChunkPlan := { cp_index : Z; cp_offset : Z; cp_len : Z }.

Record UsedChunks := {
  uc_chunk_size : Z;
  uc_device_size : Z;
  uc_chunk_count : Z;
  uc_regions : list Range;
  uc_region : nat;
  uc_next_offset : Z;
}.

Module Used.
Definition new (m : ExtentMap) (chunk_size device_size : Z) : result UsedChunks :=
  if chunk_size =? 0 then Err (Unsupported "chunk size must not be zero")
  else
    Ok {| uc_chunk_size := chunk_size; uc_device_size := device_size;
          uc_chunk_count := div_ceil device_size chunk_size;
          uc_regions := Extents.chunk_aligned m chunk_size device_size;
          uc_region := 0; uc_next_offset := 0 |}.

Definition planned_chunks (u : UsedChunks) : Z :=
  fold_left (fun sum '(start, end_) =>
    wrap64 (sum + div_ceil (wrap64 (end_ - start + 1)) (uc_chunk_size u))) (uc_regions u) 0.

Definition planned_bytes (u : UsedChunks) : Z :=
  fold_left (fun sum '(start, end_) => wrap64 (sum + wrap64 (end_ - start + 1))) (uc_regions u) 0.

Definition at_region (region : nat) (next_offset : Z) (u : UsedChunks) : UsedChunks :=
  {| uc_chunk_size := uc_chunk_size u; uc_device_size := uc_device_size u;
     uc_chunk_count := uc_chunk_count u; uc_regions := uc_regions u; uc_region := region;
     uc_next_offset := next_offset |}.

(** The [loop] of [next_chunk] over the regions from [self.region] on. *)
Fixpoint next_in (regions : list Range) (u : UsedChunks) : option ChunkPlan * UsedChunks :=
  match regions with
  | [] => (None, u)
  | (start, end_) :: later =>
    let offset := Z.max (uc_next_offset u) start in
    if end_ <? offset then next_in later (at_region (S (uc_region u)) 0 u)
    else
      let available := end_ - offset + 1 in
      let len := Z.min available (uc_chunk_size u) in
      let len := Z.min len (wrap64 (uc_device_size u - offset)) in
      (Some {| cp_index := offset / uc_chunk_size u; cp_offset := offset;
               cp_len := if len <=? U32_MAX then len else U32_MAX |},
       at_region (uc_region u) (wrap64 (offset + uc_chunk_size u)) u)
  end.

Definition next_chunk (u : UsedChunks) : option ChunkPlan * UsedChunks :=
  next_in (drop (uc_region u) (uc_regions u)) u.

(** [while let Some(chunk) = plan.next_chunk()]: the chunks in order. *)
Fixpoint drain (fuel : nat) (u : UsedChunks) : option (list ChunkPlan) :=
  match fuel with
  | O => None
  | S fuel =>
    match next_chunk u with
    | (None, _) => Some []
    | (Some c, u) => option_map (cons c) (drain fuel u)
    end
  end.
End Used.

Definition is_all_zero (b : bytes) : bool := forallb (fun c => b2z c =? 0) b.

(** ** Sets of numbers *)
Module RangeSpec.
Definition covers (l : list Range) (x : Z) : Prop := Exists (fun r : Range => fst r <= x <= snd r) l.

Definition valid (r : Range) : Prop := 0 <= fst r <= snd r /\ snd r < 2 ^ 64.

(** In order, with room between them. *)
Fixpoint separated (l : list Range) : Prop :=
  match l with
  | [] => True
  | r :: l => Forall (fun r' : Range => snd r + 1 < fst r') l /\ separated l
  end.

(** In order, not meeting. *)
Fixpoint disjoint (l : list Range) : Prop :=
  match l with
  | [] => True
  | r :: l => Forall (fun r' : Range => snd r < fst r') l /\ disjoint l
  end.

Lemma covers_nil x : covers [] x <-> False.
Proof. apply Exists_nil. Qed.

Lemma covers_cons r l x : covers (r :: l) x <-> fst r <= x <= snd r \/ covers l x.
Proof. apply Exists_cons. Qed.

Lemma covers_perm l k x : l ≡ₚ k -> covers l x <-> covers k x.
Proof. intros Hp. unfold covers. by rewrite Hp. Qed.

Lemma covers_app l k x : covers (l ++ k) x <-> covers l x \/ covers k x.
Proof. apply Exists_app. Qed.

Lemma separated_disjoint l : separated l -> disjoint l.
Proof.
  induction l as [|r l IH]; cbn; [done|]. intros [Hr Hl]. split; [|by apply IH].
  eapply Forall_impl; [exact Hr|]. cbn. lia.
Qed.

(** The order of [sort_unstable] on pairs. *)
Lemma leb_total x y : Ranges.leb x y = true \/ Ranges.leb y x = true.
Proof.
  unfold Ranges.leb. destruct (Z.ltb_spec (fst x) (fst y)); [by left|].
  destruct (Z.ltb_spec (fst y) (fst x)); [by right|].
  rewrite !(proj2 (Z.eqb_eq _ _)) by lia. cbn. rewrite !Z.leb_le. lia.
Qed.

Lemma leb_fst x y : Ranges.leb x y = true -> fst x <= fst y.
Proof. unfold Ranges.leb. intros [Hx|[Hx _]%andb_true_iff]%orb_true_iff; bprop; lia. Qed.

Lemma leb_trans x y z : Ranges.leb x y = true -> Ranges.leb y z = true -> Ranges.leb x z = true.
Proof.
  unfold Ranges.leb. rewrite !orb_true_iff, !andb_true_iff, !Z.ltb_lt, !Z.eqb_eq, !Z.leb_le. lia.
Qed.

Lemma sorted_starts l : sorted_by_key fst (sort_by Ranges.leb l).
Proof.
  pose proof (sort_by_sorted Ranges.leb leb_total leb_trans l) as Hs.
  induction (sort_by Ranges.leb l) as [|r k IH]; [done|]. destruct Hs as [Hr Hs].
  split; [|by apply IH]. eapply Forall_impl; [exact Hr|]. intros ? ?%leb_fst. done.
Qed.

Lemma join_touching_ends (P Q : Z -> Prop) ranges : forall last,
  Forall (fun r : Range => P (fst r) /\ Q (snd r)) (last :: ranges) ->
  Forall (fun r : Range => P (fst r) /\ Q (snd r)) (Ranges.join_touching last ranges).
Proof.
  induction ranges as [|[s e] ranges IH]; intros last Hf; [done|].
  apply Forall_cons in Hf as [Hl Hf]. apply Forall_cons in Hf as [[Hs He] Hf]. cbn.
  case_match.
  - apply IH. constructor; [|done]. cbn. split; [apply Hl|]. destruct Hl as [_ Hl].
    destruct (Z.max_spec (snd last) e) as [[_ ->]|[_ ->]]; done.
  - constructor; [done|]. apply IH. by constructor.
Qed.

(** Merging: the same numbers, in separated ranges. *)
Lemma join_touching_spec ranges : forall last,
  Forall valid (last :: ranges) -> sorted_by_key fst (last :: ranges) ->
  separated (Ranges.join_touching last ranges) /\
  Forall (fun r : Range => fst last <= fst r) (Ranges.join_touching last ranges) /\
  (forall x, covers (Ranges.join_touching last ranges) x <-> covers (last :: ranges) x).
Proof.
  induction ranges as [|[s e] ranges IH]; intros last Hv Hs.
  { cbn. split_and!; [done|done|by repeat constructor|done]. }
  apply Forall_cons in Hv as [Hl Hv]. apply Forall_cons in Hv as [He Hv].
  destruct Hs as [Hls Hs]. apply Forall_cons in Hls as [Hse Hls]. destruct Hs as [Hes Hs].
  unfold valid in Hl, He. cbn in *. destruct (_ <=? _) eqn:Ele; bprop; unfold saturating_add, U64_MAX in Ele.
  - destruct (IH (fst last, Z.max (snd last) e)) as (IH1 & IH2 & IH3).
    { constructor; [unfold valid; cbn; lia|done]. }
    { split; [done|done]. }
    split_and!; [done|done|]. intros x. rewrite IH3, !covers_cons. cbn. split; [|intuition lia].
    intros [Hx|]; [|by auto]. destruct (decide (x <= snd last)); [by left; lia|]. right. left. lia.
  - destruct (IH (s, e)) as (IH1 & IH2 & IH3).
    { by constructor. }
    { by split. }
    split_and!.
    + split; [|done]. eapply Forall_impl; [exact IH2|]. cbn. lia.
    + constructor; [lia|]. eapply Forall_impl; [exact IH2|]. cbn. lia.
    + intros x. by rewrite !covers_cons, IH3, covers_cons.
Qed.

Lemma merge_spec l : Forall valid l ->
  separated (Ranges.merge l) /\ (forall x, covers (Ranges.merge l) x <-> covers l x).
Proof.
  intros Hv. unfold Ranges.merge. pose proof (sort_by_perm Ranges.leb l) as Hp.
  pose proof (sorted_starts l) as Hs. rewrite <- Hp in Hv. destruct (sort_by Ranges.leb l) as [|r k].
  - split; [done|]. intros x. by apply covers_perm.
  - destruct (join_touching_spec k r Hv Hs) as (H1 & _ & H3). split; [done|].
    intros x. rewrite H3. by apply covers_perm.
Qed.

Lemma merge_ends (P Q : Z -> Prop) l :
  Forall (fun r : Range => P (fst r) /\ Q (snd r)) l ->
  Forall (fun r : Range => P (fst r) /\ Q (snd r)) (Ranges.merge l).
Proof.
  intros Hf. unfold Ranges.merge. rewrite <- (sort_by_perm Ranges.leb l) in Hf.
  destruct (sort_by Ranges.leb l); [done|]. by apply join_touching_ends.
Qed.

Lemma join_touching_valid ranges : forall last,
  Forall valid (last :: ranges) -> Forall valid (Ranges.join_touching last ranges).
Proof.
  induction ranges as [|[s e] ranges IH]; intros last Hv; [done|].
  apply Forall_cons in Hv as [Hl Hv]. apply Forall_cons in Hv as [He Hv]. cbn. case_match.
  - apply IH. constructor; [|done]. unfold valid in *. cbn in *. lia.
  - constructor; [done|]. apply IH. by constructor.
Qed.

Lemma merge_valid l : Forall valid l -> Forall valid (Ranges.merge l).
Proof.
  intros Hv. unfold Ranges.merge. rewrite <- (sort_by_perm Ranges.leb l) in Hv.
  destruct (sort_by Ranges.leb l); [done|]. by apply join_touching_valid.
Qed.

(** Without overlaps the strict join is the tolerant one. *)
Lemma join_disjoint_spec ranges : forall last,
  Forall valid (last :: ranges) -> sorted_by_key fst (last :: ranges) ->
  Forall (fun r : Range => snd r < U64_MAX) (last :: ranges) ->
  match Ranges.join_disjoint last ranges with
  | Ok m => m = Ranges.join_touching last ranges /\
      Forall (fun r : Range => snd last < fst r) ranges /\ disjoint ranges
  | Err _ => ~ disjoint (last :: ranges)
  end.
Proof.
  induction ranges as [|[s e] ranges IH]; intros last Hv Hs Hm; [done|].
  apply Forall_cons in Hv as [Hl Hv]. apply Forall_cons in Hv as [He Hv].
  destruct Hs as [Hls Hs]. apply Forall_cons in Hls as [Hse Hls]. destruct Hs as [Hes Hs].
  apply Forall_cons in Hm as [Hlm Hm]. apply Forall_cons in Hm as [Hem Hm].
  unfold valid in Hl, He. cbn in *. unfold saturating_add, wrap64.
  rewrite (Z.mod_small (snd last + 1)) by (unfold U64_MAX in *; lia).
  destruct (s <=? Z.min (snd last + 1) U64_MAX) eqn:Ele; bprop.
  - destruct (_ && _) eqn:Eo; bprop.
    { intros [Hd _]. apply Forall_cons in Hd as [Hd _]. cbn in Hd. lia. }
    assert (s = snd last + 1) as -> by (apply andb_false_iff in Eo as [Eo|Eo]; bprop; unfold U64_MAX in *; lia).
    specialize (IH (fst last, Z.max (snd last) e)). destruct (Ranges.join_disjoint _ ranges) as [m|].
    + destruct IH as (-> & Hd & Hds).
      { constructor; [unfold valid; cbn; lia|done]. }
      { split; [done|done]. }
      { constructor; [cbn; lia|done]. }
      cbn in Hd. split_and!; [done| | |done].
      * constructor; [cbn; lia|]. eapply Forall_impl; [exact Hd|]. cbn. lia.
      * eapply Forall_impl; [exact Hd|]. cbn. lia.
    + intros (_ & Hd & Hds). apply IH; [..|split; [|done]].
      * constructor; [unfold valid; cbn; lia|done].
      * split; [done|done].
      * constructor; [cbn; lia|done].
      * eapply Forall_impl; [exact Hd|]. cbn. lia.
  - specialize (IH (s, e)). destruct (Ranges.join_disjoint (s, e) ranges) as [m|]; cbn.
    + destruct IH as (-> & Hd & Hds); [by constructor|by split|by constructor|].
      cbn in Hd. split_and!; [done| |done|done].
      constructor; [cbn; lia|]. eapply Forall_impl; [exact Hd|]. cbn. lia.
    + intros (_ & Hd & Hds). apply IH; [by constructor|by split|by constructor|]. by split.
Qed.

Lemma gaps_spec first end_exclusive free : forall cursor,
  Forall valid free -> disjoint free -> 0 <= first <= cursor ->
  Forall (fun r : Range => cursor <= fst r \/ fst r < first) free ->
  match Ranges.gaps first end_exclusive cursor free with
  | Ok used => separated used /\ Forall (fun r : Range => cursor <= fst r <= snd r) used /\
      Forall (fun r : Range => first <= fst r /\ snd r < end_exclusive) free /\
      forall x, covers used x <-> cursor <= x < end_exclusive /\ ~ covers free x
  | Err _ => Exists (fun r : Range => fst r < first \/ end_exclusive <= snd r) free
  end.
Proof.
  induction free as [|[s e] free IH]; intros cursor Hv Hd Hc Hf; cbn [Ranges.gaps].
  { destruct (cursor <? end_exclusive) eqn:E; bprop; cbn.
    - split_and!; [done|done|repeat constructor; cbn; lia|done|].
      intros x. rewrite covers_cons, !covers_nil. cbn. intuition lia.
    - split_and!; [done|done|done|]. intros x. rewrite !covers_nil. intuition lia. }
  apply Forall_cons in Hv as [Hse Hv]. destruct Hd as [Hde Hd]. apply Forall_cons in Hf as [Hfs Hf].
  unfold valid in Hse. cbn in Hse, Hfs, Hde. destruct (_ || _) eqn:Eo.
  { apply Exists_cons_hd. cbn. apply orb_true_iff in Eo as [?|?]; bprop; lia. }
  bprop. specialize (IH (e + 1) Hv Hd). destruct (Ranges.gaps first end_exclusive (e + 1) free) as [used|].
  2: { apply Exists_cons_tl, IH; [lia|]. eapply Forall_impl; [exact Hde|]. cbn. lia. }
  cbn. destruct IH as (IH1 & IH2 & IH3 & IH4); [lia|eapply Forall_impl; [exact Hde|]; cbn; lia|].
  assert (Forall (fun r : Range => cursor <= fst r <= snd r) used) as Hu.
  { eapply Forall_impl; [exact IH2|]. cbn. lia. }
  assert (forall x, covers ((s, e) :: free) x <-> s <= x <= e \/ covers free x) as Hcov.
  { intros x. by rewrite covers_cons. }
  assert (forall x, covers free x -> e < x) as Hgt.
  { intros x Hx. apply Exists_exists in Hx as (r & Hr & Hx). pose proof (proj1 (Forall_forall _ _) Hde r Hr). cbn in *. lia. }
  destruct (cursor <? s) eqn:Ec; bprop.
  - split_and!.
    + split; [|done]. eapply Forall_impl; [exact IH2|]. cbn. lia.
    + constructor; [cbn; lia|done].
    + constructor; [cbn; lia|done].
    + intros x. rewrite covers_cons, IH4, Hcov. cbn. specialize (Hgt x).
      destruct (decide (x < s)), (decide (x <= e)); intuition lia.
  - split_and!; [done|done|constructor; [cbn; lia|done]|].
    intros x. rewrite IH4, Hcov. specialize (Hgt x). destruct (decide (x <= e)); intuition lia.
Qed.

(** ** Plans *)
Section plans.
Context (chunk_size device_size : Z).

Definition chunk_at (i : Z) : ChunkPlan :=
  {| cp_index := i; cp_offset := i * chunk_size;
     cp_len := Z.min chunk_size (device_size - i * chunk_size) |}.

Definition chunks_from (i last : Z) : list ChunkPlan := map chunk_at (seqZ i (last - i + 1)).

Definition region_chunks (r : Range) : list ChunkPlan :=
  chunks_from (fst r / chunk_size) (snd r / chunk_size).

(** What is left of the plan. *)
Definition pending (regions : list Range) (next_offset : Z) : list ChunkPlan :=
  match regions with
  | [] => []
  | (start, end_) :: later =>
    chunks_from (Z.max next_offset start / chunk_size) (end_ / chunk_size) ++ concat (map region_chunks later)
  end.

Definition start_ok (s : Z) : Prop := 0 <= s /\ s mod chunk_size = 0.
Definition end_ok (e : Z) : Prop :=
  0 <= e < device_size /\ ((e + 1) mod chunk_size = 0 \/ e + 1 = device_size).
Definition aligned (r : Range) : Prop := start_ok (fst r) /\ end_ok (snd r).

Context (chunk_pos : 0 < chunk_size).

Lemma chunks_from_nil i last : last < i -> chunks_from i last = [].
Proof. intros. unfold chunks_from. rewrite seqZ_nil by lia. done. Qed.

Lemma chunks_from_step i last : i <= last -> chunks_from i last = chunk_at i :: chunks_from (i + 1) last.
Proof.
  intros. unfold chunks_from. rewrite seqZ_cons by lia. cbn [map]. do 3 f_equal; lia.
Qed.

Lemma chunks_from_elem i last c : In c (chunks_from i last) <-> exists k, i <= k <= last /\ c = chunk_at k.
Proof.
  unfold chunks_from. rewrite in_map_iff. setoid_rewrite <- list_elem_of_In. setoid_rewrite elem_of_seqZ.
  split; intros (k & H1 & H2); exists k; (split; [lia|done]) || (split; [done|lia]).
Qed.

Lemma round_outward_aligned x r : valid x -> 0 < device_size < 2 ^ 64 ->
  Extents.round_outward chunk_size device_size x = Some r ->
  aligned r /\ valid r /\ fst r <= fst x /\ fst x - fst r < chunk_size /\
  (forall y, y < device_size -> fst x <= y <= snd x -> y <= snd r) /\
  snd r / chunk_size <= snd x / chunk_size.
Proof.
  destruct x as [s e]. unfold valid, Extents.round_outward, saturating_add, saturating_sub, U64_MAX. cbn.
  intros [Hs He] Hd. rewrite (Z.max_l (device_size - 1)) by lia.
  pose proof (Z.mul_div_le s chunk_size chunk_pos). pose proof (Z.mul_div_le e chunk_size chunk_pos).
  pose proof (Z.mul_succ_div_gt s chunk_size chunk_pos). pose proof (Z.mul_succ_div_gt e chunk_size chunk_pos).
  pose proof (Z.div_pos s chunk_size ltac:(lia) chunk_pos). pose proof (Z.div_pos e chunk_size ltac:(lia) chunk_pos).
  set (q := s / chunk_size) in *. set (t := e / chunk_size) in *.
  destruct (_ <=? _) eqn:E; [|done]. bprop. intros [= <-]. cbn.
  assert ((q * chunk_size) mod chunk_size = 0) by (apply Z.mod_mul; lia).
  assert (0 <= q * chunk_size) by nia. assert (0 <= t * chunk_size) by nia.
  split_and!.
  - split; [done|]. split; [cbn; lia|]. cbn.
    destruct (decide (t * chunk_size + (chunk_size - 1) < device_size - 1)); [left|right; lia].
    replace (_ + 1) with ((t + 1) * chunk_size) by lia. apply Z.mod_mul. lia.
  - lia.
  - lia.
  - lia.
  - lia.
  - lia.
  - intros y Hy Hy2. lia.
  - apply Z.lt_succ_r. apply Z.div_lt_upper_bound; lia.
Qed.

Lemma chunk_aligned_spec m : Forall valid (em_extents m) -> 0 < device_size < 2 ^ 64 ->
  let regions := Extents.chunk_aligned m chunk_size device_size in
  Forall aligned regions /\ separated regions /\ Forall valid regions /\
  (forall x, x < device_size -> covers (em_extents m) x -> covers regions x) /\
  (forall y, covers regions y -> exists x, covers (em_extents m) x /\ x / chunk_size = y / chunk_size).
Proof.
  intros Hv Hd. unfold Extents.chunk_aligned. rewrite (proj2 (Z.eqb_neq _ _)) by lia. cbn zeta.
  set (rounded := omap _ _).
  assert (forall r, r ∈ rounded -> exists x, x ∈ em_extents m /\ valid x /\
    Extents.round_outward chunk_size device_size x = Some r) as Hin.
  { intros r (x & Hx & Hr)%list_elem_of_omap. exists x. split_and!; [done| |done].
    by apply (proj1 (Forall_forall _ _) Hv). }
  assert (Forall aligned rounded /\ Forall valid rounded) as [Ha Hrv].
  { split; apply Forall_forall; intros r (x & _ & Hx & Hr)%Hin;
      by destruct (round_outward_aligned x r Hx Hd Hr) as (? & ? & _). }
  destruct (merge_spec rounded Hrv) as [Hs Hc]. split_and!; [by apply merge_ends|done|by apply merge_valid| |].
  - intros x Hx Hcov. apply Hc. apply Exists_exists in Hcov as (r & Hr & Hxr). apply Exists_exists.
    pose proof (proj1 (Forall_forall _ _) Hv r Hr) as Hvr.
    destruct (Extents.round_outward chunk_size device_size r) as [r'|] eqn:Er.
    + exists r'. destruct (round_outward_aligned r r' Hvr Hd Er) as (_ & _ & H1 & _ & H2 & _).
      split; [apply list_elem_of_omap; by exists r|]. split; [lia|by apply H2].
    + exfalso. destruct r as [s e]. unfold valid in Hvr. cbn in *.
      unfold Extents.round_outward, saturating_add, saturating_sub, U64_MAX in Er.
      destruct (_ <=? _) eqn:E; [done|]. bprop.
      pose proof (Z.mul_div_le s chunk_size chunk_pos). pose proof (Z.mul_div_le e chunk_size chunk_pos).
      pose proof (Z.mul_succ_div_gt e chunk_size chunk_pos).
      pose proof (Z.div_le_mono s e chunk_size ltac:(lia) ltac:(lia)). nia.
  - intros y Hy. apply Hc, Exists_exists in Hy as (r' & Hr' & Hy).
    apply Hin in Hr' as (r & Hr & Hvr & Er).
    destruct (round_outward_aligned r r' Hvr Hd Er) as ([Hs0 _] & Hv' & H1 & H2 & _ & H3).
    destruct Hs0 as [Hs0 Hsm]. unfold valid in Hv', Hvr.
    pose proof (Z.div_mod (fst r') chunk_size ltac:(lia)) as Hdm.
    assert (fst r / chunk_size = fst r' / chunk_size) as Hq.
    { symmetry. apply (Z.div_unique_pos _ _ _ (fst r - fst r')); lia. }
    destruct (decide (y / chunk_size <= fst r / chunk_size)).
    + exists (fst r). split; [apply Exists_exists; exists r; split; [done|lia]|].
      pose proof (Z.div_le_mono (fst r') y chunk_size ltac:(lia) ltac:(lia)). lia.
    + exists (Z.max (fst r) (y / chunk_size * chunk_size)).
      pose proof (Z.div_le_mono y (snd r') chunk_size ltac:(lia) ltac:(lia)) as Hyr.
      pose proof (Z.mul_succ_div_gt (fst r) chunk_size chunk_pos).
      pose proof (Z.mul_div_le (snd r) chunk_size chunk_pos).
      rewrite Z.max_r by nia. split; [|by rewrite Z.div_mul by lia].
      apply Exists_exists. exists r. split; [done|]. split; nia.
Qed.

(** ** The walk of the plan *)
Definition plan_state (u : UsedChunks) : Prop :=
  uc_chunk_size u = chunk_size /\ uc_device_size u = device_size /\
  start_ok (uc_next_offset u) /\ Forall aligned (uc_regions u).

Definition remaining (u : UsedChunks) : list ChunkPlan :=
  pending (drop (uc_region u) (uc_regions u)) (uc_next_offset u).

Context (room : device_size + chunk_size <= 2 ^ 64) (chunk_u32 : chunk_size <= U32_MAX).

Lemma mult_lt_div n e : start_ok n -> e < n -> e / chunk_size < n / chunk_size.
Proof. intros [Hn Hm] He. apply Z.div_lt_upper_bound; [lia|]. pose proof (Z.div_mod n chunk_size ltac:(lia)). lia. Qed.

Lemma next_in_spec regions : forall u, plan_state u -> regions = drop (uc_region u) (uc_regions u) ->
  match pending regions (uc_next_offset u) with
  | [] => fst (Used.next_in regions u) = None
  | c :: rest => exists u', Used.next_in regions u = (Some c, u') /\ plan_state u' /\ remaining u' = rest
  end.
Proof.
  induction regions as [|[s e] later IH]; intros u Hu Hd; [done|].
  destruct Hu as (Hcs & Hds & Hn & Ha).
  assert (aligned (s, e)) as [Hs He].
  { rewrite <- (take_drop (uc_region u) (uc_regions u)), <- Hd in Ha. apply Forall_app in Ha as [_ Ha].
    by apply Forall_cons in Ha as [? _]. }
  cbn in Hs, He. set (n := Z.max (uc_next_offset u) s).
  assert (start_ok n) as Hnok by (destruct (Z.max_spec (uc_next_offset u) s) as [[_ Hm]|[_ Hm]]; unfold n; by rewrite Hm).
  cbn [pending Used.next_in]. fold n. destruct (Z.ltb_spec e n) as [Hlt|Hle].
  - rewrite chunks_from_nil by (by apply mult_lt_div). cbn [app].
    set (u0 := Used.at_region (S (uc_region u)) 0 u).
    assert (later = drop (uc_region u0) (uc_regions u0)) as Hd0.
    { cbn. by rewrite <- Nat.add_1_r, Nat.add_comm, <- skipn_skipn, <- Hd. }
    specialize (IH u0). cbn [uc_next_offset u0 Used.at_region] in IH.
    assert (pending later 0 = concat (map region_chunks later)) as <-.
    { destruct later as [|[s' e'] later]; [done|]. cbn. unfold region_chunks. cbn. rewrite Z.max_r; [done|].
      rewrite <- (take_drop (uc_region u) (uc_regions u)), <- Hd in Ha.
      apply Forall_app in Ha as [_ Ha]. apply Forall_cons in Ha as [_ Ha].
      apply Forall_cons in Ha as [[[? _] _] _]. cbn in *. lia. }
    apply IH; [|done]. split_and!; [done..| |done]. split; [cbn; lia|]. cbn. apply Z.mod_0_l. lia.
  - destruct Hnok as [Hn0 Hnm]. destruct He as [He0 Hee].
    pose proof (Z.div_mod n chunk_size ltac:(lia)) as Hdn. rewrite Hnm in Hdn.
    rewrite chunks_from_step by (apply Z.div_le_mono; lia). cbn [app].
    rewrite Hcs, Hds. replace (wrap64 (n + chunk_size)) with (n + chunk_size) by (unfold wrap64; rewrite Z.mod_small; lia).
    eexists. split; [|split].
    + unfold chunk_at. replace (wrap64 (device_size - n)) with (device_size - n) by (unfold wrap64; rewrite Z.mod_small; lia).
      assert (Z.min (Z.min (e - n + 1) chunk_size) (device_size - n) = Z.min chunk_size (device_size - n)) as ->.
      { destruct Hee as [Hee|Hee]; [|lia].
        assert (chunk_size <= e - n + 1); [|lia].
        pose proof (Z.div_mod (e + 1) chunk_size ltac:(lia)) as Hde. rewrite Hee in Hde.
        assert (n / chunk_size < (e + 1) / chunk_size); [|nia].
        apply Z.div_lt_upper_bound; lia. }
      rewrite (proj2 (Z.leb_le _ _)) by lia.
      replace (n / chunk_size * chunk_size) with n by lia. reflexivity.
    + split_and!; [done..| |done]. cbn. split; [lia|]. rewrite <- Zplus_mod_idemp_r, Z.mod_same, Z.add_0_r by lia. done.
    + unfold remaining. cbn [Used.at_region uc_region uc_regions uc_next_offset]. rewrite <- Hd. cbn [pending].
      rewrite Z.max_l by lia.
      replace ((n + chunk_size) / chunk_size) with (n / chunk_size + 1); [done|].
      rewrite <- (Z.mul_1_l chunk_size) at 2. rewrite Z.div_add; lia.
Qed.

Lemma next_chunk_spec u : plan_state u ->
  match remaining u with
  | [] => fst (Used.next_chunk u) = None
  | c :: rest => exists u', Used.next_chunk u = (Some c, u') /\ plan_state u' /\ remaining u' = rest
  end.
Proof. intros Hu. by apply next_in_spec. Qed.

Lemma drain_spec chunks : forall u, plan_state u -> remaining u = chunks ->
  Used.drain (S (length chunks)) u = Some chunks.
Proof.
  induction chunks as [|c chunks IH]; intros u Hu Hr; pose proof (next_chunk_spec u Hu) as Hn; rewrite Hr in Hn.
  - cbn. by destruct (Used.next_chunk u) as [[c|] u'].
  - destruct Hn as (u' & Hn & Hu' & Hr'). cbn [length].
    change (Used.drain (S (S (length chunks))) u) with
      (match Used.next_chunk u with (None, _) => Some [] | (Some c, u) => option_map (cons c) (Used.drain (S (length chunks)) u) end).
    by rewrite Hn, (IH u' Hu' Hr').
Qed.

Definition total_len (chunks : list ChunkPlan) : Z := foldr (fun c sum => cp_len c + sum) 0 chunks.

Lemma plan_len_app a b : total_len (a ++ b) = total_len a + total_len b.
Proof. unfold total_len. induction a as [|c a IH]; cbn; [done|]. rewrite IH. lia. Qed.

Lemma region_chunks_total e n : end_ok e -> forall i, 0 <= i -> Z.to_nat (e / chunk_size - i + 1) = n ->
  i <= e / chunk_size + 1 -> total_len (chunks_from i (e / chunk_size)) = Z.max 0 (e + 1 - i * chunk_size).
Proof.
  intros [He Hee]. pose proof (Z.mul_div_le e chunk_size chunk_pos).
  pose proof (Z.mul_succ_div_gt e chunk_size chunk_pos).
  induction n as [|n IH]; intros i Hi Hn Hle.
  - rewrite chunks_from_nil by lia. cbn. nia.
  - rewrite chunks_from_step by lia. cbn [total_len foldr cp_len chunk_at].
    change (foldr _ _ _) with (total_len (chunks_from (i + 1) (e / chunk_size))). rewrite IH by lia.
    destruct Hee as [Hee|Hee]; [|nia].
    pose proof (Z.div_mod (e + 1) chunk_size ltac:(lia)) as Hde. rewrite Hee in Hde.
    assert ((e + 1) / chunk_size = e / chunk_size + 1) as Hq.
    { apply Z.le_antisymm; [|].
      - apply Z.lt_succ_r. apply Z.div_lt_upper_bound; lia.
      - assert (e / chunk_size < (e + 1) / chunk_size); [|lia]. apply Z.div_lt_upper_bound; lia. }
    rewrite Hq in Hde. nia.
Qed.

Lemma aligned_total r : aligned r -> fst r <= snd r ->
  total_len (region_chunks r) = snd r - fst r + 1.
Proof.
  intros [[Hs Hm] He] Hle. unfold region_chunks.
  pose proof (Z.div_mod (fst r) chunk_size ltac:(lia)) as Hd. rewrite Hm in Hd.
  pose proof (Z.div_le_mono (fst r) (snd r) chunk_size ltac:(lia) Hle).
  erewrite region_chunks_total; [|done|apply Z.div_pos; lia|reflexivity|lia]. lia.
Qed.

Lemma plan_regions_total regions : forall sum, 0 <= sum -> Forall aligned regions -> separated regions ->
  Forall (fun r : Range => sum <= fst r <= snd r) regions ->
  fold_left (fun sum '(start, end_) => wrap64 (sum + wrap64 (end_ - start + 1))) regions sum =
  sum + total_len (concat (map region_chunks regions)).
Proof.
  induction regions as [|[s e] regions IH]; intros sum Hsum Ha Hsep Hb; [cbn; lia|].
  apply Forall_cons in Ha as [Hr Ha]. destruct Hsep as [Hsr Hsep]. apply Forall_cons in Hb as [Hb Hbs].
  cbn [fold_left map concat]. rewrite plan_len_app, (aligned_total (s, e)) by (done || apply Hb).
  destruct Hr as [[Hs _] [He _]]. cbn in Hb, Hsr, Hs, He |- *.
  replace (wrap64 (sum + wrap64 (e - s + 1))) with (sum + (e - s + 1)) by
    (unfold wrap64; rewrite (Z.mod_small (e - s + 1)) by lia; rewrite Z.mod_small; lia).
  rewrite IH; [lia|lia|done|done|]. eapply Forall_impl; [exact (List.Forall_and Hsr Hbs)|]. cbn. lia.
Qed.

Lemma all_chunks_elem regions c : In c (concat (map region_chunks regions)) <->
  exists r k, In r regions /\ fst r / chunk_size <= k <= snd r / chunk_size /\ c = chunk_at k.
Proof.
  rewrite in_concat. setoid_rewrite in_map_iff. split.
  - intros (l & (r & <- & Hr) & (k & Hk & ->)%chunks_from_elem). by exists r, k.
  - intros (r & k & Hr & Hk & ->). exists (region_chunks r). split; [by exists r|].
    apply chunks_from_elem. by exists k.
Qed.

Lemma chunks_from_sorted n : forall i last, Z.to_nat (last - i + 1) = n ->
  StronglySorted Z.lt (map cp_index (chunks_from i last)).
Proof.
  induction n as [|n IH]; intros i last Hn; destruct (decide (last < i));
    try (rewrite chunks_from_nil by done; constructor); try lia.
  rewrite chunks_from_step by lia. cbn [map]. constructor; [apply IH; lia|].
  apply Forall_forall. intros k Hk. apply list_elem_of_In, in_map_iff in Hk as (c & <- & Hc).
  apply chunks_from_elem in Hc as (k & Hk & ->). cbn. lia.
Qed.

Lemma all_chunks_sorted regions : Forall aligned regions -> separated regions ->
  StronglySorted Z.lt (map cp_index (concat (map region_chunks regions))).
Proof.
  induction regions as [|r regions IH]; intros Ha Hs; [constructor|].
  apply Forall_cons in Ha as [Hr Ha]. destruct Hs as [Hsr Hs]. cbn [map concat].
  rewrite map_app. apply StronglySorted_app_2; [|by eapply chunks_from_sorted|by apply IH].
  intros i j Hi Hj. apply list_elem_of_In, in_map_iff in Hi as (c & <- & Hc).
  apply list_elem_of_In, in_map_iff in Hj as (c' & <- & Hc').
  apply chunks_from_elem in Hc as (k & Hk & ->). apply all_chunks_elem in Hc' as (r' & k' & Hr' & Hk' & ->).
  cbn. pose proof (proj1 (List.Forall_forall _ _) Hsr r' Hr') as Hlt.
  pose proof (proj1 (List.Forall_forall _ _) Ha r' Hr') as [Hs' _].
  pose proof (mult_lt_div (fst r') (snd r) Hs' ltac:(cbn in Hlt; lia)). lia.
Qed.

(** Everything the users of a plan need. *)
Record plans (m : ExtentMap) (chunks : list ChunkPlan) : Prop := {
  pl_form : Forall (fun c => c = chunk_at (cp_index c) /\ 0 <= cp_index c < div_ceil device_size chunk_size) chunks;
  pl_sorted : StronglySorted Z.lt (map cp_index chunks);
  pl_used : forall x, 0 <= x < device_size -> covers (em_extents m) x ->
    exists c, In c chunks /\ cp_offset c <= x < cp_offset c + cp_len c;
  pl_needed : forall c, In c chunks -> exists x, covers (em_extents m) x /\ x / chunk_size = cp_index c;
}.

Lemma div_ceil_index k : 0 <= k -> k * chunk_size < device_size -> k < div_ceil device_size chunk_size.
Proof. intros Hk Hlt. pose proof (div_ceil_spec device_size chunk_size ltac:(nia) chunk_pos). nia. Qed.

Lemma new_plans m u : Forall valid (em_extents m) -> 0 < device_size ->
  Used.new m chunk_size device_size = Ok u ->
  plan_state u /\ plans m (remaining u) /\ uc_chunk_count u = div_ceil device_size chunk_size /\
  Used.planned_bytes u = total_len (remaining u).
Proof.
  intros Hv Hd. unfold Used.new. rewrite (proj2 (Z.eqb_neq _ _)) by lia. intros [= <-].
  destruct (chunk_aligned_spec m Hv ltac:(lia)) as (Ha & Hs & Hval & Hcov & Hneed). cbn zeta in *.
  set (regions := Extents.chunk_aligned m chunk_size device_size) in *.
  assert (pending regions 0 = concat (map region_chunks regions)) as Hrem.
  { destruct regions as [|[s e] later]; [done|]. cbn. unfold region_chunks. cbn.
    apply Forall_cons in Hval as [[? _] _]. cbn in *. by rewrite Z.max_r by lia. }
  match goal with |- context [remaining ?u] => change (remaining u) with (pending regions 0) end.
  rewrite Hrem. split_and!.
  - split_and!; [done|done| |done]. split; [done|]. apply Z.mod_0_l. lia.
  - split.
    + apply List.Forall_forall. intros c (r & k & Hr & Hk & ->)%all_chunks_elem. cbn. split; [done|].
      pose proof (proj1 (List.Forall_forall _ _) Ha r Hr) as [[? _] [? _]].
      pose proof (Z.div_pos (fst r) chunk_size ltac:(lia) chunk_pos).
      split; [lia|]. apply div_ceil_index; [lia|].
      pose proof (Z.mul_div_le (snd r) chunk_size chunk_pos). nia.
    + by apply all_chunks_sorted.
    + intros x Hx Hc. apply Hcov in Hc as (r & Hr & Hxr)%Exists_exists; [|lia].
      apply list_elem_of_In in Hr. exists (chunk_at (x / chunk_size)). split.
      * apply all_chunks_elem. exists r, (x / chunk_size). split_and!; [done|apply Z.div_le_mono; lia..|done].
      * cbn. pose proof (Z.mul_div_le x chunk_size chunk_pos). pose proof (Z.mul_succ_div_gt x chunk_size chunk_pos). lia.
    + intros c (r & k & Hr & Hk & ->)%all_chunks_elem. cbn.
      pose proof (proj1 (List.Forall_forall _ _) Hval r Hr) as [? _].
      destruct (Hneed (Z.max (fst r) (k * chunk_size))) as (x & Hx & Hq).
      * apply Exists_exists. exists r. rewrite list_elem_of_In. split; [done|].
        pose proof (Z.mul_div_le (snd r) chunk_size chunk_pos). nia.
      * exists x. split; [done|]. rewrite Hq.
        pose proof (Z.mul_succ_div_gt (fst r) chunk_size chunk_pos).
        symmetry. apply (Z.div_unique_pos _ _ _ (Z.max (fst r) (k * chunk_size) - k * chunk_size)); nia.
  - done.
  - unfold Used.planned_bytes. cbn [uc_regions]. rewrite plan_regions_total; [done|done|done|done|].
    eapply Forall_impl; [exact Hval|]. unfold valid. cbn. lia.
Qed.
End plans.
End RangeSpec.

(** ** Properties *)

(** Sorting and joining the ranges of a listing loses no block and adds none, and
    is refused exactly when a range is reversed or two of them meet. *)
Theorem normalize_exact (l : list Range) :
  Forall (fun r : Range => 0 <= fst r /\ 0 <= snd r < U64_MAX) l ->
  match Ranges.normalize l with
  | Ok m => RangeSpec.separated m /\ (forall x, RangeSpec.covers m x <-> RangeSpec.covers l x) /\
      Forall RangeSpec.valid l /\ RangeSpec.disjoint (sort_by Ranges.leb l)
  | Err _ => Exists (fun r : Range => snd r < fst r) l \/ ~ RangeSpec.disjoint (sort_by Ranges.leb l)
  end.
Proof.
  intros Hb. unfold Ranges.normalize. destruct (forallb _ l) eqn:Ef; cbn.
  2: { left. apply not_true_iff_false in Ef. rewrite forallb_forall in Ef.
       destruct (decide (Exists (fun r : Range => snd r < fst r) l)) as [|Hn]; [done|]. exfalso. apply Ef.
       intros r Hr. apply Z.leb_le. apply Z.nlt_ge. intros Hlt. apply Hn, Exists_exists. exists r.
       by rewrite list_elem_of_In. }
  assert (Forall RangeSpec.valid l) as Hv.
  { apply Forall_forall. intros r Hr. rewrite forallb_forall in Ef.
    specialize (Ef r (proj1 (list_elem_of_In _ _) Hr)). apply Z.leb_le in Ef.
    pose proof (proj1 (Forall_forall _ _) Hb r Hr) as Hr'. cbn in Hr'. unfold RangeSpec.valid, U64_MAX in *. lia. }
  assert (Forall (fun r : Range => snd r < U64_MAX) l) as Hm.
  { eapply Forall_impl; [exact Hb|]. cbn. lia. }
  pose proof (sort_by_perm Ranges.leb l) as Hp. pose proof (RangeSpec.sorted_starts l) as Hs.
  pose proof (RangeSpec.merge_spec l Hv) as Hmerge. unfold Ranges.merge in Hmerge.
  rewrite <- Hp in Hm. assert (Forall RangeSpec.valid (sort_by Ranges.leb l)) as Hv' by by rewrite Hp.
  destruct (sort_by Ranges.leb l) as [|r k]; [by split_and!; try apply Hmerge|].
  pose proof (RangeSpec.join_disjoint_spec k r Hv' Hs Hm) as Hj.
  destruct (Ranges.join_disjoint r k) as [m|]; [|by right].
  destruct Hj as (-> & Hd & Hk). split_and!; [apply Hmerge|apply Hmerge|done|by split].
Qed.

(** C13: The read plan made from a used-block map: whole chunks in ascending order,
    each once, each cut at the end of the device; every used byte of the device
    is in one of them, and none is read without holding a used byte. The walk
    ends, and the bytes announced for it are the bytes it reads. *)
Theorem read_plan_exact (m : ExtentMap) (chunk_size device_size : Z) (u : UsedChunks) :
  Forall RangeSpec.valid (em_extents m) -> 0 < device_size -> 0 < chunk_size <= U32_MAX ->
  device_size + chunk_size <= 2 ^ 64 -> Used.new m chunk_size device_size = Ok u ->
  exists chunks, Used.drain (S (length chunks)) u = Some chunks /\
    Forall (fun c => c = RangeSpec.chunk_at chunk_size device_size (cp_index c) /\
                     0 <= cp_index c < uc_chunk_count u) chunks /\
    StronglySorted Z.lt (map cp_index chunks) /\
    (forall x, 0 <= x < device_size -> RangeSpec.covers (em_extents m) x ->
       exists c, In c chunks /\ cp_offset c <= x < cp_offset c + cp_len c) /\
    (forall c, In c chunks -> exists x, RangeSpec.covers (em_extents m) x /\ x / chunk_size = cp_index c) /\
    Used.planned_bytes u = RangeSpec.total_len chunks.
Proof.
  intros Hv Hd [Hc Hc32] Hroom Hnew.
  destruct (RangeSpec.new_plans chunk_size device_size Hc Hroom m u Hv Hd Hnew) as (Hu & [Hf Hs Hin Hneed] & Hn & Hp).
  exists (RangeSpec.remaining chunk_size device_size u).
  split_and!; [by eapply RangeSpec.drain_spec|by rewrite Hn|done..].
Qed.
