(* ===== verification/FsMaps.v ===== *)
(** * Used-block maps ([crates/lr-fsmap/src/ext4.rs], [xfs.rs], [lib.rs])

    The parsers of [dumpe2fs] and [xfs_db] output and the maps made from them.
    A tool's output is a byte string; reading a line of it needs valid UTF-8. *)

From S2P Require Import Prelude Text Extents.

(** [loop { line.clear(); reader.read_line(&mut line)? ... }]: the lines with
    their endings. *)
Module ToolOutput.
Fixpoint lines_in (pieces : list bytes) : list bytes :=
  match pieces with
  | [] => []
  | [last] => match last with [] => [] | _ => [last] end
  | piece :: pieces => (piece ++ [Text.LF]) :: lines_in pieces
  end.

Definition read_lines (output : bytes) : list bytes := lines_in (Text.split Text.LF output).

Definition read_line (line : bytes) : result bytes :=
  ensure (utf8_valid line) (Io OtherIo);;; Ok line.

Fixpoint fold_lines {S} (f : S -> bytes -> result S) (s : S) (lines : list bytes) : result S :=
  match lines with
  | [] => Ok s
  | line :: lines =>
    let* text := read_line line in
    let* s := f s text in
    fold_lines f s lines
  end.

(** [trim_end_matches(['\n', '\r'])]. *)
Fixpoint skip_newlines (s : bytes) : bytes :=
  match s with
  | c :: rest => if bool_decide (c = Text.LF) || bool_decide (c = Text.CR) then skip_newlines rest else s
  | [] => []
  end.
Definition trim_newlines (s : bytes) : bytes := rev (skip_newlines (rev s)).

Definition parse_u64 (s : bytes) : option Z := Text.parse_unsigned U64_MAX s.
End ToolOutput.
Import ToolOutput.

(** ** ext4 *)
Record Ext4Facts := {
  xf_block_size : Z;
  xf_block_count : Z;
  xf_first_block : Z;
  xf_free_blocks_total : Z;
}.

Record GroupFree := { gf_group : Z; gf_first : Z; gf_last : Z; gf_ranges : list Range }.

Record Ext4Dump := {
  xd_facts : Ext4Facts;
  xd_free : list Range;
  xd_groups : list GroupFree;
  xd_groups_without_free_list : Z;
}.

(** The local variables of [parse_dumpe2fs]. *)
Record DumpState := {
  ds_block_size : option Z;
  ds_block_count : option Z;
  ds_first_block : option Z;
  ds_free_blocks_total : option Z;
  ds_groups : list GroupFree;
  ds_pending_group : option (Z * Z * Z);
}.

Module Ext4.
Definition field (line name : bytes) : option Z :=
  match Text.strip_prefix name line with
  | Some rest => parse_u64 (Text.trim rest)
  | None => None
  end.

Definition group_header (line : bytes) : option (Z * Z * Z) :=
  rest ← Text.strip_prefix (str "Group ") line;
  '(number, rest) ← Text.split_once Byte.x3a rest;
  group ← parse_u64 (Text.trim number);
  rest ← Text.strip_prefix (str "(Blocks ") (Text.trim_start rest);
  '(range, _) ← Text.split_once Byte.x29 rest;
  '(first, last) ← Text.split_once Byte.x2d range;
  first ← parse_u64 (Text.trim first);
  last ← parse_u64 (Text.trim last);
  Some (group, first, last).

Definition parse_range (item : bytes) : result Range :=
  match Text.split_once Byte.x2d item with
  | Some (start, end_) =>
    let* start := ok_or (parse_u64 (Text.trim start)) (Corrupt "dumpe2fs: bad range '{item}'") in
    let* end_ := ok_or (parse_u64 (Text.trim end_)) (Corrupt "dumpe2fs: bad range '{item}'") in
    Ok (start, end_)
  | None =>
    let* value := ok_or (parse_u64 item) (Corrupt "dumpe2fs: bad range '{item}'") in
    Ok (value, value)
  end.

Definition parse_block_ranges (listing : bytes) : result (list Range) :=
  collectM parse_range (List.filter (fun item => negb (bool_decide (item = [])))
    (map Text.trim (Text.split Byte.x2c listing))).

Definition initial : DumpState :=
  {| ds_block_size := None; ds_block_count := None; ds_first_block := None;
     ds_free_blocks_total := None; ds_groups := []; ds_pending_group := None |}.

Definition with_pending (pending : option (Z * Z * Z)) (s : DumpState) : DumpState :=
  {| ds_block_size := ds_block_size s; ds_block_count := ds_block_count s;
     ds_first_block := ds_first_block s; ds_free_blocks_total := ds_free_blocks_total s;
     ds_groups := ds_groups s; ds_pending_group := pending |}.

Definition with_group (g : GroupFree) (s : DumpState) : DumpState :=
  {| ds_block_size := ds_block_size s; ds_block_count := ds_block_count s;
     ds_first_block := ds_first_block s; ds_free_blocks_total := ds_free_blocks_total s;
     ds_groups := ds_groups s ++ [g]; ds_pending_group := None |}.

Definition with_facts (block_size block_count first_block free_total : option Z) (s : DumpState) : DumpState :=
  {| ds_block_size := block_size; ds_block_count := block_count; ds_first_block := first_block;
     ds_free_blocks_total := free_total; ds_groups := ds_groups s; ds_pending_group := ds_pending_group s |}.

(** What one line does. *)
Definition parse_line (s : DumpState) (line : bytes) : result DumpState :=
  let text := trim_newlines line in
  let size := ds_block_size s in
  let count := ds_block_count s in
  let first := ds_first_block s in
  let total := ds_free_blocks_total s in
  match field text (str "Block size:") with
  | Some value => Ok (with_facts (Some value) count first total s)
  | None =>
    match field text (str "Block count:") with
    | Some value => Ok (with_facts size (Some value) first total s)
    | None =>
      match field text (str "First block:") with
      | Some value => Ok (with_facts size count (Some value) total s)
      | None =>
        match field text (str "Free blocks:") with
        | Some value => Ok (with_facts size count first (Some value) s)
        | None =>
          match group_header text with
          | Some header =>
            match ds_pending_group s with
            | Some _ =>
              Err (Corrupt "group {previous} ({from}-{to}) has no free-block list before group {group}")
            | None => Ok (with_pending (Some header) s)
            end
          | None =>
            match Text.strip_prefix (str "  Free blocks:") text with
            | Some listing =>
              let* (group, first, last) :=
                ok_or (ds_pending_group s) (Corrupt "free-block list without a preceding group header") in
              let* ranges := parse_block_ranges listing in
              ensure (forallb (fun '(start, end_) => negb ((start <? first) || (last <? end_))) ranges)
                (Corrupt "group {group} free range {start}-{end} lies outside {first}-{last}");;;
              Ok (with_group {| gf_group := group; gf_first := first; gf_last := last; gf_ranges := ranges |} s)
            | None => Ok s
            end
          end
        end
      end
    end
  end.

Definition sum_blocks (free : list Range) : Z :=
  fold_left (fun sum '(start, end_) => wrap64 (sum + wrap64 (end_ - start + 1))) free 0.

(** What follows the loop. *)
Definition conclude (s : DumpState) : result Ext4Dump :=
  let* block_size := ok_or (ds_block_size s) (Corrupt "dumpe2fs: no Block size") in
  let* block_count := ok_or (ds_block_count s) (Corrupt "dumpe2fs: no Block count") in
  let* first_block := ok_or (ds_first_block s) (Corrupt "dumpe2fs: no First block") in
  let* free_blocks_total :=
    ok_or (ds_free_blocks_total s) (Corrupt "dumpe2fs: no superblock Free blocks total") in
  if (block_size =? 0) || negb (is_power_of_two block_size) then
    Err (Corrupt "dumpe2fs: implausible block size {}")
  else match ds_pending_group s with
  | Some _ => Err (Corrupt "group {group} ({first}-{last}) has no free-block list")
  | None =>
    let* free := Ranges.normalize (concat (map gf_ranges (ds_groups s))) in
    if negb (sum_blocks free =? free_blocks_total) then
      Err (Corrupt "dumpe2fs: free lists sum to {free_from_lists} blocks but the superblock reports {}")
    else if block_count <=? first_block then
      Err (Corrupt "dumpe2fs: first block is past the filesystem end")
    else
      Ok {| xd_facts := {| xf_block_size := block_size; xf_block_count := block_count;
                           xf_first_block := first_block; xf_free_blocks_total := free_blocks_total |};
            xd_free := free; xd_groups := ds_groups s; xd_groups_without_free_list := 0 |}
  end.

Definition parse_dumpe2fs (output : bytes) : result Ext4Dump :=
  let* s := fold_lines parse_line initial (read_lines output) in conclude s.

Definition used_map (d : Ext4Dump) : result ExtentMap :=
  let* used_blocks :=
    Ranges.complement (xf_first_block (xd_facts d)) (xf_block_count (xd_facts d)) (xd_free d) in
  Ok {| em_extents := Ranges.to_bytes used_blocks (xf_block_size (xd_facts d)); em_complete := true |}.

Definition used_blocks (d : Ext4Dump) : Z :=
  saturating_sub (xf_block_count (xd_facts d)) (xf_free_blocks_total (xd_facts d)).

(** [used_extents], from the output of [dumpe2fs]. *)
Definition used_extents (output : bytes) : result ExtentMap :=
  let* dump := parse_dumpe2fs output in used_map dump.
End Ext4.

(** ** xfs *)
Record XfsGeometry := {
  xg_block_size : Z;
  xg_ag_blocks : Z;
  xg_ag_count : Z;
  xg_data_blocks : Z;
  xg_log_start : Z;
  xg_realtime_blocks : Z;
}.

Record XfsFreeSpace := { xs_extents : list Range; xs_total_extents : Z; xs_total_blocks : Z }.

(** The local variables of [parse_freesp]. *)
Record FreespState := {
  fs_extents : list Range;
  fs_total_extents : option Z;
  fs_total_blocks : option Z;
}.

Module Xfs.
(** The [BTreeMap]: the last insertion of a key counts. *)
Definition parse_value (values : list (bytes * Z)) (line : bytes) : result (list (bytes * Z)) :=
  match Text.split_once Byte.x3d (Text.trim line) with
  | Some (key, value) =>
    match parse_u64 (Text.trim value) with
    | Some value => Ok ((Text.trim key, value) :: values)
    | None => Ok values
    end
  | None => Ok values
  end.

Definition get (values : list (bytes * Z)) (name : bytes) : result Z :=
  let* (_, value) :=
    ok_or (List.find (fun kv : bytes * Z => bool_decide (fst kv = name)) values)
      (Corrupt "xfs_db: no '{field}' in the superblock output") in
  Ok value.

Definition parse_geometry (output : bytes) : result XfsGeometry :=
  let* values := fold_lines parse_value [] (read_lines output) in
  let* block_size := get values (str "blocksize") in
  let* ag_blocks := get values (str "agblocks") in
  let* ag_count := get values (str "agcount") in
  let* data_blocks := get values (str "dblocks") in
  let* log_start := get values (str "logstart") in
  let* realtime_blocks := get values (str "rblocks") in
  if negb (is_power_of_two block_size) || (block_size =? 0) then
    Err (Corrupt "xfs_db: implausible block size {}")
  else if (ag_count =? 0) || (ag_blocks =? 0) || (data_blocks =? 0) then
    Err (Corrupt "xfs_db: zero AG geometry")
  else if wrapping_mul ag_count ag_blocks <? data_blocks then
    Err (Corrupt "xfs_db: dblocks exceeds agcount * agblocks")
  else
    Ok {| xg_block_size := block_size; xg_ag_blocks := ag_blocks; xg_ag_count := ag_count;
          xg_data_blocks := data_blocks; xg_log_start := log_start;
          xg_realtime_blocks := realtime_blocks |}.

Definition add_extent (g : XfsGeometry) (agno agbno len : Z) (s : FreespState) : result FreespState :=
  if len =? 0 then Err (Corrupt "xfs_db: zero-length free extent")
  else if xg_ag_count g <=? agno then Err (Corrupt "xfs_db: AG {agno} is out of range")
  else if xg_ag_blocks g <? wrap64 (agbno + len) then
    Err (Corrupt "xfs_db: extent {agno}/{agbno}+{len} exceeds the allocation group")
  else
    Ok {| fs_extents := fs_extents s ++ [(wrap64 (wrap64 (agno * xg_ag_blocks g) + agbno), len)];
          fs_total_extents := fs_total_extents s; fs_total_blocks := fs_total_blocks s |}.

Definition parse_line (g : XfsGeometry) (s : FreespState) (line : bytes) : result FreespState :=
  let text := Text.trim line in
  match Text.strip_prefix (str "total free extents ") text with
  | Some rest =>
    Ok {| fs_extents := fs_extents s; fs_total_extents := parse_u64 (Text.trim rest);
          fs_total_blocks := fs_total_blocks s |}
  | None =>
    match Text.strip_prefix (str "total free blocks ") text with
    | Some rest =>
      Ok {| fs_extents := fs_extents s; fs_total_extents := fs_total_extents s;
            fs_total_blocks := parse_u64 (Text.trim rest) |}
    | None =>
      match map parse_u64 (Text.split_whitespace text) with
      | [Some agno; Some agbno; Some len] => add_extent g agno agbno len s
      | _ => Ok s
      end
    end
  end.

Definition parse_freesp (output : bytes) (g : XfsGeometry) : result XfsFreeSpace :=
  let* s := fold_lines (parse_line g)
    {| fs_extents := []; fs_total_extents := None; fs_total_blocks := None |} (read_lines output) in
  let* total_extents := ok_or (fs_total_extents s) (Corrupt "xfs_db: no 'total free extents' line") in
  let* total_blocks := ok_or (fs_total_blocks s) (Corrupt "xfs_db: no 'total free blocks' line") in
  if negb (zlen (fs_extents s) =? total_extents) then
    Err (Corrupt "xfs_db: parsed {} free extents but the tool reports {total_extents}")
  else if negb (fold_left (fun sum '(_, len) => wrap64 (sum + len)) (fs_extents s) 0 =? total_blocks) then
    Err (Corrupt "xfs_db: parsed {blocks} free blocks but the tool reports {total_blocks}")
  else
    Ok {| xs_extents := sort_by Ranges.leb (fs_extents s); xs_total_extents := total_extents;
          xs_total_blocks := total_blocks |}.

Definition used_map (g : XfsGeometry) (free : XfsFreeSpace) : result ExtentMap :=
  if (xg_log_start g =? 0) || (0 <? xg_realtime_blocks g) then
    Ok {| em_extents := [(0, wrap64 (wrapping_mul (xg_data_blocks g) (xg_block_size g) - 1))];
          em_complete := false |}
  else
    let ranges := map (fun '(start, len) => (start, wrap64 (wrap64 (start + len) - 1))) (xs_extents free) in
    let* ranges := Ranges.normalize ranges in
    let* used_blocks := Ranges.complement 0 (xg_data_blocks g) ranges in
    Ok {| em_extents := Ranges.to_bytes used_blocks (xg_block_size g); em_complete := true |}.

(** [used_extents], from the outputs of the two [xfs_db] calls. *)
Definition used_extents (geometry freesp : bytes) : result ExtentMap :=
  let* geometry := parse_geometry geometry in
  let* free := parse_freesp freesp geometry in
  used_map geometry free.
End Xfs.

(** ** Providers *)
Inductive Provider := Ext4Provider | XfsProvider | RawProvider.

Module Providers.
Definition to_ascii_lowercase (s : bytes) : bytes :=
  map (fun c => if in_range 0x41 0x5a c then z2b (b2z c + 32) else c) s.

Definition fs_type (p : Provider) : bytes :=
  match p with Ext4Provider => str "ext4" | XfsProvider => str "xfs" | RawProvider => str "raw" end.

Definition provider_for (fs_type : bytes) : Provider :=
  let normalised := to_ascii_lowercase (Text.trim fs_type) in
  if bool_decide (normalised ∈ [str "ext4"; str "ext3"; str "ext2"]) then Ext4Provider
  else if bool_decide (normalised ∈ [str "xfs"]) then XfsProvider
  else RawProvider.

Definition has_real_provider (fs_type : bytes) : bool :=
  match provider_for fs_type with RawProvider => false | _ => true end.
End Providers.

Definition sample_dump : bytes := str "Block count:              32
Free blocks:              10
First block:              0
Block size:               4096
Group 0: (Blocks 0-15) csum 0x1 [ITABLE_ZEROED]
  Free blocks: 5-9, 11
Group 1: (Blocks 16-31)
  Free blocks: 16-18, 31
".

Example dump_map : Ext4.used_extents sample_dump =
  Ok {| em_extents := [(0, 20479); (40960, 45055); (49152, 65535); (77824, 126975)]; em_complete := true |}.
Proof. vm_compute. reflexivity. Qed.

(** ** Lemmas *)
Module MapLemmas.
Import RangeSpec.

Lemma fold_lines_inv {S} (f : S -> bytes -> result S) (P : S -> Prop) lines : forall s s',
  (forall s line s', P s -> f s line = Ok s' -> P s') -> P s -> fold_lines f s lines = Ok s' -> P s'.
Proof.
  induction lines as [|line lines IH]; intros s s' Hf Hs Hr; cbn in Hr; inv_ok; [done|].
  eapply IH; [exact Hf| |exact Hr]. by eapply Hf.
Qed.

Lemma parse_u64_bound s v : parse_u64 s = Some v -> u64_ok v.
Proof.
  unfold parse_u64, Text.parse_unsigned, u64_ok, U64_MAX. destruct (match s with [] => _ | _ => _ end); [done|].
  destruct (Text.digits_val _ _) eqn:E; [|done]. apply TextLemmas.digits_val_nonneg in E; [|lia].
  destruct (_ <=? _) eqn:El; [|done]. bprop. intros [= <-]. lia.
Qed.

Lemma collectM_Forall {A B} (f : A -> result B) (P : B -> Prop) l k :
  (forall a b, f a = Ok b -> P b) -> collectM f l = Ok k -> Forall P k.
Proof.
  intros Hf. revert k. induction l as [|a l IH]; intros k Hk; cbn in Hk; inv_ok; [constructor|].
  constructor; [by eapply Hf|by apply IH].
Qed.

Definition bounded (r : Range) : Prop := u64_ok (fst r) /\ u64_ok (snd r).

Lemma parse_range_bounded item r : Ext4.parse_range item = Ok r -> bounded r.
Proof.
  unfold Ext4.parse_range. destruct (Text.split_once _ item) as [[a b]|]; intros H; inv_ok;
    repeat match goal with E : ok_or _ _ = Ok _ |- _ => apply ok_or_Ok, parse_u64_bound in E end; done.
Qed.

Lemma normalize_sound l m : Forall bounded l -> Ranges.normalize l = Ok m ->
  Forall valid l /\ separated m /\ Forall valid m /\ forall x, covers m x <-> covers l x.
Proof.
  intros Hb Hn. unfold Ranges.normalize in Hn. inv_ok.
  assert (Forall valid l) as Hv.
  { apply List.Forall_forall. intros r Hr. rewrite forallb_forall in E.
    specialize (E r Hr). apply Z.leb_le in E.
    pose proof (proj1 (List.Forall_forall _ _) Hb r Hr) as [? ?]. unfold valid, u64_ok in *. lia. }
  assert (m = Ranges.merge l) as ->.
  { unfold Ranges.merge. destruct (sort_by Ranges.leb l) as [|r k]; [by inv_ok|].
    revert r m Hn. induction k as [|[s e] k IH]; intros r m Hn; cbn in *; [by inv_ok|].
    destruct (_ <=? _); [destruct (_ && _); [done|by apply IH]|]. inv_ok. f_equal. by apply IH. }
  split_and!; [done|by apply merge_spec|by apply merge_valid|by apply merge_spec].
Qed.

Lemma complement_sound first end_exclusive free used :
  0 <= first -> Forall valid free -> separated free ->
  Ranges.complement first end_exclusive free = Ok used ->
  separated used /\ Forall (fun r : Range => first <= fst r <= snd r /\ snd r < end_exclusive) used /\
  forall x, covers used x <-> first <= x < end_exclusive /\ ~ covers free x.
Proof.
  intros Hf Hv Hs Hc. unfold Ranges.complement in Hc.
  pose proof (gaps_spec first end_exclusive free first Hv (separated_disjoint _ Hs) ltac:(lia)) as Hg.
  rewrite Hc in Hg. destruct Hg as (Hu & Hb & _ & Hx).
  { apply List.Forall_forall. intros r _. lia. }
  split_and!; [done| |done]. apply List.Forall_forall. intros r Hr.
  pose proof (proj1 (List.Forall_forall _ _) Hb r Hr) as Hr'. cbn in Hr'. split; [done|].
  apply (Hx (snd r)). apply Exists_exists. exists r. rewrite list_elem_of_In. split; [done|lia].
Qed.

(** Scaling to bytes. *)
Lemma last_byte e block_size : 0 < block_size -> 0 <= e -> (e + 1) * block_size <= 2 ^ 64 ->
  wrap64 (wrap64 (wrap64 (e + 1) * block_size) - 1) = (e + 1) * block_size - 1.
Proof.
  intros Hb He Hc. unfold wrap64.
  rewrite <- Zminus_mod_idemp_l, Z.mod_mod, Zminus_mod_idemp_l by lia.
  rewrite <- Zminus_mod_idemp_l, Zmult_mod_idemp_l, Zminus_mod_idemp_l. apply Z.mod_small. nia.
Qed.

Lemma to_bytes_one s e block_size count x : 0 < block_size -> count * block_size <= 2 ^ 64 ->
  0 <= s <= e -> e < count ->
  wrap64 (s * block_size) <= x <= wrap64 (wrap64 (wrap64 (e + 1) * block_size) - 1) <-> s <= x / block_size <= e.
Proof.
  intros Hb Hc Hse He. assert ((e + 1) * block_size <= count * block_size) by (apply Z.mul_le_mono_nonneg_r; lia).
  rewrite last_byte by lia. unfold wrap64. assert (s * block_size <= e * block_size) by (apply Z.mul_le_mono_nonneg_r; lia).
  assert (0 <= s * block_size) by (apply Z.mul_nonneg_nonneg; lia). rewrite Z.mod_small by lia.
  pose proof (Z.mul_div_le x block_size Hb). pose proof (Z.mul_succ_div_gt x block_size Hb).
  split; intros; split; nia.
Qed.

Lemma to_bytes_covers l block_size count x : 0 < block_size -> count * block_size <= 2 ^ 64 ->
  Forall (fun r : Range => 0 <= fst r <= snd r /\ snd r < count) l ->
  covers (Ranges.to_bytes l block_size) x <-> covers l (x / block_size).
Proof.
  intros Hb Hc Hl. induction l as [|[s e] l IH]; [by rewrite !covers_nil|].
  apply Forall_cons in Hl as [[Hse He] Hl]. cbn in Hse, He. cbn [Ranges.to_bytes map].
  rewrite !covers_cons. cbn [fst snd]. fold (Ranges.to_bytes l block_size).
  by rewrite (IH Hl), (to_bytes_one s e block_size count x).
Qed.

(** What the parser of [dumpe2fs] keeps of every line. *)
Record dump_ok (s : DumpState) : Prop := {
  do_size : forall v, ds_block_size s = Some v -> u64_ok v;
  do_count : forall v, ds_block_count s = Some v -> u64_ok v;
  do_first : forall v, ds_first_block s = Some v -> u64_ok v;
  do_groups : Forall (fun g => Forall (fun r : Range => bounded r /\ gf_first g <= fst r /\ snd r <= gf_last g)
    (gf_ranges g)) (ds_groups s);
}.

Lemma field_bound text name v : Ext4.field text name = Some v -> u64_ok v.
Proof. unfold Ext4.field. destruct (Text.strip_prefix name text); [apply parse_u64_bound|done]. Qed.

Lemma parse_line_ok s line s' : dump_ok s -> Ext4.parse_line s line = Ok s' -> dump_ok s'.
Proof.
  intros [Hs Hc Hf Hg]. unfold Ext4.parse_line.
  repeat (match goal with |- context [Ext4.field ?t ?n] => destruct (Ext4.field t n) eqn:? end;
    [intros [= <-]; split; cbn; try done; intros ? [= <-]; by eapply field_bound|]).
  destruct (Ext4.group_header _) as [h|].
  { destruct (ds_pending_group s); [done|]. intros [= <-]. by split. }
  destruct (Text.strip_prefix _ _) as [listing|]; intros H; inv_ok; [|by split].
  split; try done. cbn. apply Forall_app. split; [done|]. constructor; [|done]. cbn.
  unfold Ext4.parse_block_ranges in E0. apply (collectM_Forall _ _ _ _ parse_range_bounded) in E0.
  apply List.Forall_forall. intros r Hr. rewrite forallb_forall in E1. specialize (E1 r Hr).
  destruct r as [start end_]. bprop. split; [|cbn; lia].
  by apply (proj1 (List.Forall_forall _ _) E0).
Qed.

Lemma parse_dumpe2fs_ok output d : Ext4.parse_dumpe2fs output = Ok d ->
  let f := xd_facts d in
  0 < xf_block_size f /\ 0 <= xf_first_block f < xf_block_count f /\ xf_block_count f < 2 ^ 64 /\
  Ext4.sum_blocks (xd_free d) = xf_free_blocks_total f /\
  Forall (fun g => Forall (fun r : Range => bounded r /\ gf_first g <= fst r /\ snd r <= gf_last g)
    (gf_ranges g)) (xd_groups d) /\
  Ranges.normalize (concat (map gf_ranges (xd_groups d))) = Ok (xd_free d).
Proof.
  unfold Ext4.parse_dumpe2fs. intros H. inv_ok.
  assert (dump_ok v) as [Hs Hc Hf Hg].
  { eapply (fold_lines_inv _ dump_ok _ Ext4.initial); [|split; try (intros ? Hv; discriminate Hv); constructor|exact E]. intros s line s' Hs Hl. by eapply parse_line_ok. }
  unfold Ext4.conclude in H. inv_ok. destruct (_ || _) eqn:Eb; [done|].
  destruct (ds_pending_group v); [done|]. inv_ok.
  destruct (negb (_ =? _)) eqn:Es; [done|]. destruct (_ <=? _) eqn:El; [done|]. injection H as <-. cbn. bprop.
  repeat match goal with E : ok_or _ _ = Ok _ |- _ => apply ok_or_Ok in E end.
  apply Hs in E0. apply Hc in E1. apply Hf in E2. unfold u64_ok in *. split_and!; try done; lia.
Qed.

(** What the parser of [freesp] keeps. *)
Lemma freesp_extents g output free : Xfs.parse_freesp output g = Ok free ->
  Forall (fun x : Range => u64_ok (fst x) /\ 0 < snd x < 2 ^ 64) (xs_extents free) /\
  zlen (xs_extents free) = xs_total_extents free.
Proof.
  unfold Xfs.parse_freesp. intros H. inv_ok. destruct (negb (zlen _ =? _)) eqn:El; [done|].
  destruct (negb _) in H; [done|]. inv_ok. cbn. bprop. split; [rewrite sort_by_perm|].
  2: { rewrite <- El. unfold zlen. f_equal. apply Permutation_length, sort_by_perm. }
  refine (fold_lines_inv _ (fun s => Forall (fun x : Range => u64_ok (fst x) /\ 0 < snd x < 2 ^ 64) (fs_extents s))
    _ _ _ _ _ E); [|by cbn].
  intros s line s' Hs. unfold Xfs.parse_line. destruct (Text.strip_prefix _ _); [by intros [= <-]|].
  destruct (Text.strip_prefix _ _); [by intros [= <-]|].
  destruct (map parse_u64 _) as [|[agno|] [|[agbno|] [|[len|] [|]]]] eqn:Em; try (by intros [= <-]).
  unfold Xfs.add_extent. destruct (len =? 0) eqn:Ez; [done|]. destruct (_ <=? _); [done|].
  destruct (_ <? _); [done|]. intros [= <-]. cbn. apply Forall_app. split; [done|]. constructor; [|done].
  assert (u64_ok len) as Hlen.
  { assert (In (Some len) (map parse_u64 (Text.split_whitespace (Text.trim line)))) as Hin
      by (rewrite Em; right; right; by left).
    apply in_map_iff in Hin as (w & Hw & _). by eapply parse_u64_bound. }
  bprop. unfold u64_ok, wrap64 in *. cbn. split; [apply Z.mod_pos_bound; lia|lia].
Qed.

Lemma xfs_range start len : u64_ok start -> 0 < len < 2 ^ 64 ->
  bounded (start, wrap64 (wrap64 (start + len) - 1)) /\
  (start <= wrap64 (wrap64 (start + len) - 1) -> wrap64 (wrap64 (start + len) - 1) = start + len - 1).
Proof.
  intros Hs Hl. unfold bounded, u64_ok, wrap64 in *. cbn [fst snd].
  rewrite <- Zminus_mod_idemp_l, Z.mod_mod, Zminus_mod_idemp_l by lia.
  split; [split; [done|apply Z.mod_pos_bound; lia]|].
  destruct (decide (start + len - 1 < 2 ^ 64)); [intros _; apply Z.mod_small; lia|].
  replace (start + len - 1) with (start + len - 1 - 2 ^ 64 + 1 * 2 ^ 64) at 1 by lia.
  rewrite Z.mod_add by lia. rewrite Z.mod_small by lia. lia.
Qed.
End MapLemmas.

(** ** Properties *)

(** C14: The used-block map of an ext filesystem: the bytes from the first block to
    the end of the filesystem that are in no free range listed, and no others.
    Every free range lies in its group, and the free blocks are as many as the
    superblock says. *)
Theorem ext4_map_exact (output : bytes) (d : Ext4Dump) (m : ExtentMap) :
  Ext4.parse_dumpe2fs output = Ok d -> Ext4.used_map d = Ok m ->
  let f := xd_facts d in
  xf_block_count f * xf_block_size f <= 2 ^ 64 ->
  em_complete m = true /\
  (forall x, RangeSpec.covers (em_extents m) x <->
     xf_first_block f <= x / xf_block_size f < xf_block_count f /\
     ~ exists g r, In g (xd_groups d) /\ In r (gf_ranges g) /\ fst r <= x / xf_block_size f <= snd r) /\
  Forall (fun g => Forall (fun r : Range => gf_first g <= fst r <= snd r /\ snd r <= gf_last g) (gf_ranges g))
    (xd_groups d) /\
  Ext4.sum_blocks (xd_free d) = xf_free_blocks_total f.
Proof.
  intros Hp Hm f Hfit. destruct (MapLemmas.parse_dumpe2fs_ok output d Hp) as (Hb & Hfc & _ & Hsum & Hg & Hn).
  fold f in Hb, Hfc, Hsum. unfold Ext4.used_map in Hm. fold f in Hm. inv_ok.
  destruct (fun H => MapLemmas.normalize_sound _ _ H Hn) as (Hv & Hs & Hvm & Hcov).
  { apply List.Forall_forall. intros r Hr. apply in_concat in Hr as (l & Hl & Hr).
    apply in_map_iff in Hl as (g & <- & Hg'). pose proof (proj1 (List.Forall_forall _ _) Hg g Hg') as Hgr.
    by apply (proj1 (List.Forall_forall _ _) Hgr r). }
  destruct (MapLemmas.complement_sound _ _ _ _ (proj1 Hfc) Hvm Hs E) as (_ & Hin & Hused).
  split_and!; [done| | |done].
  - intros x. cbn. rewrite (MapLemmas.to_bytes_covers _ _ (xf_block_count f)) by
      (done || (eapply Forall_impl; [exact Hin|]; cbn; lia)).
    rewrite Hused, Hcov. apply and_iff_compat_l, not_iff_compat. unfold RangeSpec.covers.
    rewrite Exists_exists. setoid_rewrite list_elem_of_In. setoid_rewrite in_concat. setoid_rewrite in_map_iff. split.
    + intros (r & (l & (g & <- & Hgi) & Hr) & Hx). by exists g, r.
    + intros (g & r & Hgi & Hr & Hx). exists r. split; [|done]. exists (gf_ranges g). split; [by exists g|done].
  - apply List.Forall_forall. intros g Hgi. apply List.Forall_forall. intros r Hr.
    pose proof (proj1 (List.Forall_forall _ _) Hg g Hgi) as Hgr.
    pose proof (proj1 (List.Forall_forall _ _) Hgr r Hr) as Hr'. cbn in Hr'.
    assert (RangeSpec.valid r) as [? _]; [|lia]. apply (proj1 (List.Forall_forall _ _) Hv).
    apply in_concat. exists (gf_ranges g). split; [by apply in_map|done].
Qed.

(** The used-block map of an xfs filesystem with an internal log and no realtime
    device: the bytes of the data device that are in no free extent, and no
    others. Any other xfs gets one extent over the data device and is marked
    incomplete. *)
Theorem xfs_map_exact (output : bytes) (g : XfsGeometry) (free : XfsFreeSpace) (m : ExtentMap) :
  0 < xg_block_size g -> 0 < xg_data_blocks g -> xg_data_blocks g * xg_block_size g <= 2 ^ 64 ->
  0 <= xg_realtime_blocks g ->
  Xfs.parse_freesp output g = Ok free -> Xfs.used_map g free = Ok m ->
  (em_complete m = true <-> xg_log_start g <> 0 /\ xg_realtime_blocks g = 0) /\
  forall x, RangeSpec.covers (em_extents m) x <->
    0 <= x / xg_block_size g < xg_data_blocks g /\
    ~ (em_complete m = true /\
       exists e, In e (xs_extents free) /\ fst e <= x / xg_block_size g < fst e + snd e).
Proof.
  intros Hb Hd Hfit Hrt Hp Hm. destruct (MapLemmas.freesp_extents _ _ _ Hp) as [Hex _].
  unfold Xfs.used_map in Hm. destruct (_ || _) eqn:Ek; inv_ok.
  - cbn. split.
    { split; [done|]. apply orb_true_iff in Ek as [Ek|Ek]; bprop; lia. }
    intros x. rewrite RangeSpec.covers_cons, RangeSpec.covers_nil. cbn [fst snd].
    assert (wrap64 (wrapping_mul (xg_data_blocks g) (xg_block_size g) - 1) =
      xg_data_blocks g * xg_block_size g - 1) as ->.
    { unfold wrap64, wrapping_mul. rewrite Zminus_mod_idemp_l. apply Z.mod_small. nia. }
    pose proof (Z.mul_div_le x (xg_block_size g) Hb). pose proof (Z.mul_succ_div_gt x (xg_block_size g) Hb).
    split; [intros [Hx|[]]; split; [split; nia|by intros [? _]]|intros [Hx _]; left; split; nia].
  - bprop. cbn. split; [split; [intros _; split; [done|lia]|done]|]. intros x.
    set (ranges := map _ (xs_extents free)) in E.
    destruct (fun H => MapLemmas.normalize_sound _ _ H E) as (Hv & Hs & Hvm & Hcov).
    { apply List.Forall_forall. intros r Hr. apply in_map_iff in Hr as ([s l] & <- & Hr).
      pose proof (proj1 (List.Forall_forall _ _) Hex _ Hr) as [H1 H2]. by apply (MapLemmas.xfs_range s l H1 H2). }
    destruct (MapLemmas.complement_sound 0 _ _ _ ltac:(lia) Hvm Hs E0) as (_ & Hin & Hused).
    rewrite (MapLemmas.to_bytes_covers _ _ (xg_data_blocks g)) by
      (done || (eapply Forall_impl; [exact Hin|]; cbn; lia)).
    rewrite Hused, Hcov. apply and_iff_compat_l, not_iff_compat. unfold RangeSpec.covers, ranges.
    rewrite Exists_exists. setoid_rewrite list_elem_of_In.
    assert (forall s l, In (s, l) (xs_extents free) ->
      wrap64 (wrap64 (s + l) - 1) = s + l - 1) as Hend.
    { intros s l Hr. pose proof (proj1 (List.Forall_forall _ _) Hex _ Hr) as [H1 H2].
      apply (MapLemmas.xfs_range s l H1 H2).
      apply (proj1 (List.Forall_forall _ _) Hv (s, wrap64 (wrap64 (s + l) - 1))).
      apply in_map_iff. exists (s, l). done. }
    split.
    + intros (r & Hr & Hx). apply in_map_iff in Hr as ([s l] & <- & Hr). cbn in Hx. rewrite (Hend s l Hr) in Hx.
      split; [done|]. exists (s, l). split; [done|]. cbn. lia.
    + intros (_ & [s l] & Hr & Hx). cbn in Hx. exists (s, s + l - 1). split; [|cbn; lia].
      apply in_map_iff. exists (s, l). by rewrite (Hend s l Hr).
Qed.
