(* ===== verification/Devices.v ===== *)
(** * Block devices ([crates/lr-blocksource/src/direct.rs], [lib.rs])

    Reading and writing aligned runs of a device. The device itself is a
    parameter with the system calls the code uses; its contents are what the
    calls promise to read and write. *)

From S2P Require Import Prelude Steps Extents.

(** The descriptor: [pread], [pwrite] and [fsync]. *)
Class BlockDevice (D : Type) := {
  pread : D -> Z -> Z -> result bytes;
  pwrite : Z -> bytes -> step D Z;
  fsync : step D unit;
}.

(** Both calls may do less than asked for; [pwrite] changes only what it says it
    wrote. *)
Class BlockDeviceLaws (D : Type) `{BlockDevice D} := {
  contents : D -> bytes;
  pread_Ok : forall d off n b, 0 <= off -> pread d off n = Ok b ->
    zlen b <= Z.max 0 n /\ b = sub off (zlen b) (contents d);
  pwrite_Ok : forall d d' off b n, 0 <= off -> off + zlen b <= zlen (contents d) ->
    pwrite off b d = (d', Ok n) -> 0 <= n <= zlen b /\ contents d' = put_at off (ztake n b) (contents d);
  fsync_contents : forall d, contents (fst (fsync d)) = contents d;
}.

Definition MIN_ALIGNMENT : Z := 4096.

(** [lr_unsafe::AlignedBuf]: its bytes and the alignment of its address. *)
Record AlignedBuf := { ab_bytes : bytes; ab_alignment : Z }.

(** The two kinds of [Handle] differ in how a transfer is made. *)
Record DirectBlockSource (D : Type) := {
  bs_handle : D;
  bs_direct : bool;
  bs_size_bytes : Z;
  bs_logical_block_size : Z;
  bs_alignment : Z;
}.
#[global] Arguments bs_handle {D} _.
#[global] Arguments bs_direct {D} _.
#[global] Arguments bs_size_bytes {D} _.
#[global] Arguments bs_logical_block_size {D} _.
#[global] Arguments bs_alignment {D} _.

Record DirectBlockTarget (D : Type) := {
  bt_handle : D;
  bt_direct : bool;
  bt_size_bytes : Z;
  bt_logical_block_size : Z;
  bt_alignment : Z;
}.
#[global] Arguments bt_handle {D} _.
#[global] Arguments bt_direct {D} _.
#[global] Arguments bt_size_bytes {D} _.
#[global] Arguments bt_logical_block_size {D} _.
#[global] Arguments bt_alignment {D} _.

Module Devices.
Definition alignment_for (logical_sector_size : Z) : Z := Z.max logical_sector_size MIN_ALIGNMENT.

Definition is_multiple_of (a b : Z) : bool := if b =? 0 then a =? 0 else a mod b =? 0.

(** [AlignedBuf::new]: zeroed. *)
Definition buffer (alignment len : Z) : AlignedBuf :=
  {| ab_bytes := zrep len Byte.x00; ab_alignment := alignment |}.

(** [buf.as_mut_slice()[..len].copy_from_slice(b)]. *)
Definition fill (b : bytes) (buf : AlignedBuf) : AlignedBuf :=
  {| ab_bytes := put_at 0 b (ab_bytes buf); ab_alignment := ab_alignment buf |}.

Section io.
Context `{BlockDevice D}.

(** [lr_unsafe::pread_into]. *)
Definition pread_into (d : D) (buf : AlignedBuf) (len offset : Z) : result bytes :=
  if zlen (ab_bytes buf) <? len then Err (Io OtherIo) else pread d offset len.

(** The loop of [lr_unsafe::pwrite_all]; every turn writes something. The
    buffered [write_all_at] of the standard library loops in the same way. *)
Fixpoint pwrite_from (fuel : nat) (offset : Z) (slice : bytes) : step D unit :=
  match slice with
  | [] => step_ret tt
  | _ =>
    match fuel with
    | O => step_err (Unsupported "pwrite_from: out of fuel")
    | S fuel =>
      do* n := pwrite offset slice in
      if n =? 0 then step_err (Io OtherIo)
      else pwrite_from fuel (wrap64 (offset + n)) (zdrop n slice)
    end
  end.

Definition pwrite_all (buf : AlignedBuf) (len offset : Z) : step D unit :=
  if zlen (ab_bytes buf) <? len then step_err (Io OtherIo)
  else pwrite_from (Z.to_nat len) offset (ztake len (ab_bytes buf)).

(** [DirectBlockSource::read_at]: the bytes read, which lie at the front of the
    buffer. Reading the unaligned tail goes through a second descriptor of the
    same device. *)
Definition read_at (s : DirectBlockSource D) (offset : Z) (buf : AlignedBuf) (len : Z) :
    result bytes :=
  if bs_size_bytes s <=? offset then Ok []
  else
    let available := bs_size_bytes s - offset in
    let want := Z.min (Z.min len (zlen (ab_bytes buf))) available in
    if want =? 0 then Ok []
    else if ab_alignment buf <? bs_alignment s then
      Err (Unsupported "unaligned direct read of {want} bytes (alignment {}, sector {})")
    else if bs_direct s && negb (is_multiple_of want (bs_alignment s)) then pread (bs_handle s) offset want
    else if bs_direct s then pread_into (bs_handle s) buf want offset
    else pread (bs_handle s) offset want.

(** [read_chunk]. *)
Definition read_chunk (s : DirectBlockSource D) (plan : ChunkPlan) (buf : AlignedBuf) : result bytes :=
  let want := cp_len plan in
  if zlen (ab_bytes buf) <? want then Err (Unsupported "{} byte buffer cannot hold a {want} byte chunk")
  else
    match read_at s (cp_offset plan) buf want with
    | Err _ => Err (BadSector (cp_offset plan) (cp_len plan))
    | Ok b => if negb (zlen b =? want) then Err (BadSector (cp_offset plan) (cp_len plan)) else Ok b
    end.

Definition on_handle {A} (m : step D A) : step (DirectBlockTarget D) A := fun t =>
  let '(d, r) := m (bt_handle t) in
  ({| bt_handle := d; bt_direct := bt_direct t; bt_size_bytes := bt_size_bytes t;
      bt_logical_block_size := bt_logical_block_size t; bt_alignment := bt_alignment t |}, r).

(** [DirectBlockTarget::write_at]. *)
Definition write_at (offset : Z) (buf : AlignedBuf) (len : Z) : step (DirectBlockTarget D) unit := fun t =>
  (if len =? 0 then step_ret tt
   else if zlen (ab_bytes buf) <? len then
     step_err (Unsupported "{len} bytes requested from a {}-byte buffer")
   else if bt_size_bytes t <? wrap64 (offset + len) then step_err NoSpace
   else if bt_direct t && (ab_alignment buf <? bt_alignment t) then
     step_err (Unsupported "unaligned direct write of {len} bytes (alignment {}, sector {})")
   else on_handle (pwrite_all buf len offset)) t.

Definition sync : step (DirectBlockTarget D) unit := on_handle fsync.
End io.
End Devices.

(** ** Lemmas *)
Module DeviceLemmas.
Section lists.
Context {A : Type}.
Implicit Types l b : list A.

Lemma put_at_nil off l : put_at off [] l = l.
Proof. unfold put_at. rewrite zlen_nil, Z.add_0_r. apply ztake_zdrop. Qed.

Lemma cut_at off n l : 0 <= off -> 0 <= n -> off + n <= zlen l ->
  exists a old k, l = a ++ old ++ k /\ zlen a = off /\ zlen old = n.
Proof.
  intros. exists (ztake off l), (sub off n l), (zdrop (off + n) l). split_and!.
  - rewrite <- (ztake_zdrop off l) at 1. f_equal. unfold sub.
    rewrite <- (ztake_zdrop n (zdrop off l)) at 1. f_equal. rewrite zdrop_zdrop by lia. f_equal. lia.
  - rewrite zlen_ztake. lia.
  - apply zlen_sub; lia.
Qed.

(** A write in two parts. *)
Lemma put_at_twice off n b l : 0 <= off -> 0 <= n <= zlen b -> off + zlen b <= zlen l ->
  put_at (off + n) (zdrop n b) (put_at off (ztake n b) l) = put_at off b l.
Proof.
  intros Ho Hn Hl. pose proof (zlen_nonneg b).
  destruct (cut_at off (zlen b) l) as (a & old & k & -> & Ha & Hold); [lia|lia|lia|].
  destruct (cut_at 0 n old) as (x & o1 & o2 & -> & Hx & Ho1); [lia|lia|lia|].
  apply zlen_0_nil in Hx as ->. cbn [app] in *. rewrite zlen_app in Hold.
  rewrite (put_at_hit off b (o1 ++ o2)) by (rewrite ?zlen_app; lia). rewrite <- (app_assoc o1).
  rewrite (put_at_hit off) by (try rewrite zlen_ztake; lia).
  rewrite (app_assoc a). rewrite (put_at_hit (off + n)) by (rewrite ?zlen_app, ?zlen_ztake, ?zlen_zdrop; lia).
  rewrite <- app_assoc. f_equal. by rewrite app_assoc, ztake_zdrop.
Qed.

Lemma sub_put_at_hit off b l : 0 <= off -> off + zlen b <= zlen l -> sub off (zlen b) (put_at off b l) = b.
Proof.
  intros Ho Hl. pose proof (zlen_nonneg b).
  destruct (cut_at off (zlen b) l) as (a & old & k & -> & Ha & Hold); [lia|lia|lia|].
  rewrite put_at_hit by lia. rewrite sub_skip by lia. by rewrite sub_hit by lia.
Qed.

Lemma sub_put_at_before off b l o n : 0 <= o -> 0 <= n -> o + n <= off -> off + zlen b <= zlen l ->
  sub o n (put_at off b l) = sub o n l.
Proof.
  intros. pose proof (zlen_nonneg b).
  destruct (cut_at off (zlen b) l) as (a & old & k & -> & Ha & Hold); [lia|lia|lia|].
  rewrite put_at_hit by lia. by rewrite !sub_inside by lia.
Qed.

Lemma sub_put_at_after off b l o n : 0 <= off -> off + zlen b <= o -> off + zlen b <= zlen l ->
  sub o n (put_at off b l) = sub o n l.
Proof.
  intros. pose proof (zlen_nonneg b).
  destruct (cut_at off (zlen b) l) as (a & old & k & -> & Ha & Hold); [lia|lia|lia|].
  rewrite put_at_hit by lia. rewrite !(app_assoc a), !sub_skip by (rewrite zlen_app; lia).
  f_equal. rewrite !zlen_app. lia.
Qed.
End lists.

Section io.
Context `{BlockDeviceLaws D}.

Lemma read_chunk_Ok (s : DirectBlockSource D) plan buf b : 0 <= cp_offset plan -> 0 <= cp_len plan ->
  Devices.read_chunk s plan buf = Ok b ->
  zlen b = cp_len plan /\ b = sub (cp_offset plan) (cp_len plan) (contents (bs_handle s)).
Proof.
  intros Ho Hl. unfold Devices.read_chunk. destruct (_ <? _) eqn:Eb; [done|].
  destruct (Devices.read_at _ _ _ _) as [b'|] eqn:Er; [|done]. destruct (negb _) eqn:En; [done|].
  intros [= ->]. bprop. split; [done|].
  assert (b = [] \/ exists n, pread (bs_handle s) (cp_offset plan) n = Ok b) as [->|[n Hn]].
  { revert Er. unfold Devices.read_at, Devices.pread_into. repeat (case_match; try done); intros; inv_ok; eauto. }
  - rewrite <- En, zlen_nil. unfold sub. by rewrite ztake_nonpos.
  - apply pread_Ok in Hn as [_ Hn]; [|done]. by rewrite En in Hn.
Qed.

(** Every error of a chunk's read is a bad sector, apart from a buffer too small
    for the chunk. *)
Lemma read_chunk_Err (s : DirectBlockSource D) plan buf e : Devices.read_chunk s plan buf = Err e ->
  e = BadSector (cp_offset plan) (cp_len plan) \/ zlen (ab_bytes buf) < cp_len plan.
Proof.
  unfold Devices.read_chunk. intros Hr. destruct (_ <? _) eqn:Eb; [right; bprop; lia|]. left.
  destruct (Devices.read_at _ _ _ _); [case_match; congruence|congruence].
Qed.

Lemma pwrite_from_Ok fuel : forall d d' off b, 0 <= off -> off + zlen b <= zlen (contents d) ->
  zlen (contents d) < 2 ^ 64 -> Devices.pwrite_from fuel off b d = (d', Ok tt) ->
  contents d' = put_at off b (contents d).
Proof.
  induction fuel as [|fuel IH]; intros d d' off b Hoff Hlen Hsz; destruct b as [|c b]; cbn [Devices.pwrite_from];
    unfold step_ret, step_err; try (intros [= <-]; by rewrite put_at_nil).
  set (slice := c :: b) in *. unfold step_bind. destruct (pwrite off slice d) as [d1 [n|e]] eqn:Ew; [|done].
  destruct (pwrite_Ok _ _ _ _ _ Hoff Hlen Ew) as [Hn Hc].
  destruct (n =? 0) eqn:E0; [done|]. bprop. intros Hrest.
  assert (zlen (contents d1) = zlen (contents d)) as Hl.
  { rewrite Hc, zlen_put_at; [done|done|]. rewrite zlen_ztake. lia. }
  assert (wrap64 (off + n) = off + n) as Hw by (apply Z.mod_small; lia). rewrite Hw in Hrest.
  rewrite (IH d1 d' (off + n) (zdrop n slice)), Hc; [apply put_at_twice; lia|lia| |lia|done].
  rewrite zlen_zdrop. lia.
Qed.

(** A device that takes what it is given takes all of it: the loop ends. *)
Definition takes_writes : Prop := forall d off b, 0 <= off -> off + zlen b <= zlen (contents d) -> b <> [] ->
  exists d' n, pwrite off b d = (d', Ok n) /\ 0 < n.

Lemma pwrite_from_total (Htakes : takes_writes) fuel : forall d off b, 0 <= off -> off + zlen b <= zlen (contents d) ->
  zlen (contents d) < 2 ^ 64 -> zlen b <= Z.of_nat fuel -> exists d', Devices.pwrite_from fuel off b d = (d', Ok tt).
Proof.
  induction fuel as [|fuel IH]; intros d off [|c b] Ho Hl Hs Hf; cbn [Devices.pwrite_from].
  { by exists d. }
  { rewrite zlen_cons in Hf. pose proof (zlen_nonneg b). lia. }
  { by exists d. }
  set (slice := c :: b) in *. destruct (Htakes d off slice Ho Hl) as (d1 & n & Hw & Hn); [done|].
  destruct (pwrite_Ok _ _ _ _ _ Ho Hl Hw) as [Hb Hc]. unfold step_bind. rewrite Hw.
  rewrite (proj2 (Z.eqb_neq _ _)) by lia. unfold wrap64. rewrite Z.mod_small by lia.
  assert (zlen (contents d1) = zlen (contents d)) as Hl1.
  { rewrite Hc, zlen_put_at; [done|done|]. rewrite zlen_ztake. lia. }
  apply IH; rewrite ?Hl1, ?zlen_zdrop; lia.
Qed.

Lemma write_at_total (t : DirectBlockTarget D) off buf len : takes_writes -> 0 <= off -> 0 <= len ->
  bt_size_bytes t = zlen (contents (bt_handle t)) -> bt_size_bytes t < 2 ^ 63 -> off + len <= bt_size_bytes t ->
  len <= zlen (ab_bytes buf) -> bt_alignment t <= ab_alignment buf ->
  exists t', Devices.write_at off buf len t = (t', Ok tt).
Proof.
  intros Htakes Ho Hl Hs Hsz Hlen Hb Ha. unfold Devices.write_at. destruct (len =? 0); [by eexists|].
  rewrite (proj2 (Z.ltb_ge _ _)) by lia. unfold wrap64. rewrite Z.mod_small by lia.
  rewrite (proj2 (Z.ltb_ge _ _)) by lia. rewrite (proj2 (Z.ltb_ge _ _) Ha), andb_false_r.
  unfold Devices.on_handle, Devices.pwrite_all. rewrite (proj2 (Z.ltb_ge _ _)) by lia.
  destruct (pwrite_from_total Htakes (Z.to_nat len) (bt_handle t) off (ztake len (ab_bytes buf))) as [d' Hd];
    [done|rewrite zlen_ztake; lia|lia|rewrite zlen_ztake; lia|].
  rewrite Hd. by eexists.
Qed.

(** What a successful [write_at] leaves on the device. *)
Lemma write_at_Ok (t t' : DirectBlockTarget D) off buf len : 0 <= off -> 0 <= len ->
  bt_size_bytes t = zlen (contents (bt_handle t)) -> bt_size_bytes t < 2 ^ 63 -> off < 2 ^ 63 -> len < 2 ^ 63 ->
  Devices.write_at off buf len t = (t', Ok tt) ->
  contents (bt_handle t') = put_at off (ztake len (ab_bytes buf)) (contents (bt_handle t)) /\
  bt_size_bytes t' = bt_size_bytes t /\ (len = 0 \/ off + len <= bt_size_bytes t) /\
  (len = 0 \/ len <= zlen (ab_bytes buf)).
Proof.
  intros Ho Hl Hs Hsz Ho2 Hl2. unfold Devices.write_at. destruct (Z.eqb_spec len 0) as [->|Hne].
  { unfold step_ret. intros [= <-]. rewrite ztake_nonpos, put_at_nil by lia. auto. }
  destruct (_ <? _) eqn:Eb; [done|]. bprop. unfold wrap64. rewrite Z.mod_small by lia.
  destruct (_ <? _) eqn:Es; [done|]. bprop. destruct (_ && _); [done|].
  unfold Devices.on_handle, Devices.pwrite_all. rewrite (proj2 (Z.ltb_ge _ _)) by lia.
  destruct (Devices.pwrite_from _ _ _ _) as [d [[]|e]] eqn:Ew; [|done]. intros [= <-]. cbn.
  apply pwrite_from_Ok in Ew; [|done|rewrite zlen_ztake; lia|lia]. auto.
Qed.
End io.
End DeviceLemmas.
