(* ===== verification/RestoreBlock.v ===== *)
(** * Writing a block chain ([write_block_chain] of [crates/lr-engine/src/restore.rs])

    The merged states of a chain go chunk by chunk to the claimed target; what
    the theorems say is what the target then holds. *)

From S2P Require Import Prelude Core Crypto Superblock Manifest EngineKeys Steps Progress Chain ChainSpec Extents Devices.

(** Also the result of a whole-disk restore. *)
Record RestoreReport := {
  rr_image : bytes;
  rr_target : bytes;
  rr_image_uuid : Id;
  rr_consistency : Consistency;
  rr_stored_chunks_written : Z;
  rr_zero_chunks_written : Z;
  rr_skipped_chunks : Z;
  rr_bytes_written : Z;
}.

(** The variables the callback of the walk changes. *)
Record Writing (D : Type) := {
  wr_target : DirectBlockTarget D;
  wr_buffer : AlignedBuf;
  wr_stored : Z;
  wr_zero : Z;
  wr_skipped : Z;
  wr_bytes : Z;
}.
#[global] Arguments wr_target {D} _.
#[global] Arguments wr_buffer {D} _.
#[global] Arguments wr_stored {D} _.
#[global] Arguments wr_zero {D} _.
#[global] Arguments wr_skipped {D} _.
#[global] Arguments wr_bytes {D} _.

Module RestoreBlock.
Section ops.
Context `{Primitives} `{BlockDevice D}.

Definition on_target {A} (m : step (DirectBlockTarget D) A) : step (Writing D) A := fun w =>
  let '(t, r) := m (wr_target w) in
  ({| wr_target := t; wr_buffer := wr_buffer w; wr_stored := wr_stored w; wr_zero := wr_zero w;
      wr_skipped := wr_skipped w; wr_bytes := wr_bytes w |}, r).

(** The counters of the three kinds of chunk. *)
Definition count (stored zero skipped bytes : Z) : step (Writing D) unit := modify (fun w =>
  {| wr_target := wr_target w; wr_buffer := wr_buffer w; wr_stored := wrap64 (wr_stored w + stored);
     wr_zero := wrap64 (wr_zero w + zero); wr_skipped := wrap64 (wr_skipped w + skipped);
     wr_bytes := wrap64 (wr_bytes w + bytes) |}).

Definition fill_buffer (plaintext : bytes) : step (Writing D) unit := modify (fun w =>
  {| wr_target := wr_target w; wr_buffer := Devices.fill plaintext (wr_buffer w); wr_stored := wr_stored w;
     wr_zero := wr_zero w; wr_skipped := wr_skipped w; wr_bytes := wr_bytes w |}).

Definition buffered : step (Writing D) AlignedBuf := reads (fun w => Ok (wr_buffer w)).

(** The [match state] of the callback. *)
Definition write_chunk (zeros : AlignedBuf) (offset chunk_len : Z) (state : ChunkState)
    (access : ChunkAccess) : step (Writing D) unit :=
  match state with
  | Stored _ _ _ _ =>
    do* plaintext := lift (Access.read access state) in
    if negb (zlen plaintext =? chunk_len) then
      step_err (Corrupt "chunk {index} restored to {} bytes, expected {chunk_len}")
    else
      do* _ := fill_buffer plaintext in
      do* buffer := buffered in
      do* _ := on_target (Devices.write_at offset buffer chunk_len) in
      count 1 0 0 chunk_len
  | Zero =>
    do* _ := on_target (Devices.write_at offset zeros chunk_len) in
    count 0 1 0 chunk_len
  | Unused => count 0 0 1 0
  | BadSector => step_err (Prelude.BadSector offset chunk_len)
  end.

(** The callback. *)
Definition visit (superblock : Superblock) (zeros : AlignedBuf) (index : Z) (state : ChunkState)
    (access : ChunkAccess) : step (Progress.tracked (Writing D)) unit :=
  let chunk_size := chunk_size superblock in
  do* _ := Progress.report_tracked (wrapping_mul index chunk_size) in
  let offset := wrapping_mul index chunk_size in
  if source_size_bytes superblock <=? offset then step_ret tt
  else
    let chunk_len := Z.min chunk_size (source_size_bytes superblock - offset) in
    Progress.inside (write_chunk zeros offset chunk_len state access).

(** [image] and [target_path] are what the token names. The run goes on with
    the target inside, so that a failure leaves what was written. *)
Definition write_block_chain (members : list OpenMember) (superblock : Superblock)
    (image target_path : bytes) : step (Progress.tracked (DirectBlockTarget D)) RestoreReport :=
  fun '(run, reporter, target) =>
  let chunk_size := chunk_size superblock in
  match Walks.new members with
  | Err e => ((run, reporter, target), Err e)
  | Ok walk =>
    if negb (cw_chunk_size walk =? chunk_size) ||
       negb (cw_chunk_count walk =? div_ceil (source_size_bytes superblock) chunk_size) then
      ((run, reporter, target), Err (Corrupt "the chain's chunk geometry does not match the image superblock"))
    else if bt_size_bytes target <? source_size_bytes superblock then ((run, reporter, target), Err NoSpace)
    else
      let buffer := Devices.buffer (bt_alignment target) chunk_size in
      let zeros := Devices.buffer (bt_alignment target) chunk_size in
      let writing := {| wr_target := target; wr_buffer := buffer; wr_stored := 0; wr_zero := 0;
                        wr_skipped := 0; wr_bytes := 0 |} in
      let '((run, reporter, writing), done) :=
        (do* _ := Walks.walk walk (visit superblock zeros) in
         do* _ := Progress.finish_tracked (source_size_bytes superblock) in
         Progress.inside (on_target Devices.sync)) (run, reporter, writing) in
      ((run, reporter, wr_target writing),
       let* _ := done in
       Ok {| rr_image := image; rr_target := target_path; rr_image_uuid := image_uuid superblock;
             rr_consistency := consistency superblock; rr_stored_chunks_written := wr_stored writing;
             rr_zero_chunks_written := wr_zero writing; rr_skipped_chunks := wr_skipped writing;
             rr_bytes_written := wr_bytes writing |})
  end.
End ops.
End RestoreBlock.

(** ** What a restore leaves *)
Module RestoreSpec.
Import DeviceLemmas.
#[local] Arguments Access.read : simpl never.
Section spec.
Context `{PrimitiveLaws} `{BlockDeviceLaws D}.

(** The bytes of a chunk after the restore: its payload, zeros, or what was
    there before; an unreadable chunk is never restored. *)
Definition restored (access : ChunkAccess) (len : Z) (state : ChunkState) (old new : bytes) : Prop :=
  match state with
  | Stored _ _ _ _ => Access.read access state = Ok new /\ zlen new = len
  | Zero => new = zrep len Byte.x00
  | Unused => new = old
  | BadSector => False
  end.

Definition target_ok (t : DirectBlockTarget D) : Prop :=
  bt_size_bytes t = zlen (contents (bt_handle t)) /\ bt_size_bytes t < 2 ^ 63.

Definition is_stored (s : ChunkState) : bool := match s with Stored _ _ _ _ => true | _ => false end.
Definition is_zero (s : ChunkState) : bool := match s with Zero => true | _ => false end.
Definition is_unused (s : ChunkState) : bool := match s with Unused => true | _ => false end.

Definition counted (f : ChunkState -> bool) (states : list ChunkState) : Z := zlen (List.filter f states).

Lemma counted_step f s states x :
  wrap64 (wrap64 (x + if f s : bool then 1 else 0) + counted f states) = wrap64 (x + counted f (s :: states)).
Proof.
  unfold wrap64, counted. rewrite Zplus_mod_idemp_l. cbn [List.filter]. destruct (f s); rewrite ?zlen_cons; f_equal; lia.
Qed.

Lemma put_at_same off len (l : bytes) : 0 <= off -> 0 <= len -> off + len <= zlen l ->
  put_at off (sub off len l) l = l.
Proof.
  intros. destruct (DeviceLemmas.cut_at off len l) as (a & old & k & -> & Ha & Hold); [done..|].
  rewrite sub_skip by lia. rewrite sub_hit by lia. by rewrite put_at_hit.
Qed.

Lemma write_chunk_Ok (zeros : AlignedBuf) off len chunk_size state access w w' :
  target_ok (wr_target w) -> 0 <= off -> 0 < len <= chunk_size -> off + len <= bt_size_bytes (wr_target w) ->
  ab_bytes zeros = zrep chunk_size Byte.x00 -> zlen (ab_bytes (wr_buffer w)) = chunk_size ->
  RestoreBlock.write_chunk zeros off len state access w = (w', Ok tt) ->
  exists new, zlen new = len /\
    contents (bt_handle (wr_target w')) = put_at off new (contents (bt_handle (wr_target w))) /\
    restored access len state (sub off len (contents (bt_handle (wr_target w)))) new /\
    bt_size_bytes (wr_target w') = bt_size_bytes (wr_target w) /\
    zlen (ab_bytes (wr_buffer w')) = chunk_size /\
    wr_stored w' = wrap64 (wr_stored w + if is_stored state then 1 else 0) /\
    wr_zero w' = wrap64 (wr_zero w + if is_zero state then 1 else 0) /\
    wr_skipped w' = wrap64 (wr_skipped w + if is_unused state then 1 else 0).
Proof.
  intros [Hts Htb] Ho Hl Hfit Hz Hb. destruct state as [| |m hash o l|]; cbn [RestoreBlock.write_chunk].
  - unfold RestoreBlock.count, modify. intros [= <-]. cbn. exists (sub off len (contents (bt_handle (wr_target w)))).
    split_and!; try done; [apply zlen_sub; lia|]. rewrite put_at_same by lia. done.
  - unfold step_bind, RestoreBlock.on_target. destruct (Devices.write_at _ _ _ _) as [t [[]|e]] eqn:Ew; [|done].
    apply DeviceLemmas.write_at_Ok in Ew as (Hc & Hs & _); [|lia..]. intros [= <-]. cbn.
    exists (zrep len Byte.x00). rewrite zlen_zrep. split_and!; try done; [lia|].
    rewrite Hc, Hz. f_equal. unfold ztake, zrep. rewrite take_replicate. f_equal. lia.
  - unfold step_bind, lift. destruct (Access.read access _) as [p|e] eqn:Er; [|done].
    destruct (negb _) eqn:El; [done|]. bprop. unfold RestoreBlock.fill_buffer, RestoreBlock.buffered, reads, modify.
    unfold RestoreBlock.on_target. cbn. destruct (Devices.write_at _ _ _ _) as [t [[]|e]] eqn:Ew; [|done].
    apply DeviceLemmas.write_at_Ok in Ew as (Hc & Hs & _); [|lia..]. intros [= <-]. cbn.
    exists p. split_and!; try done.
    + rewrite Hc. f_equal. unfold Devices.fill, put_at. cbn. rewrite (ztake_nonpos 0) by lia. cbn [app]. by apply ztake_app_exact.
    + by rewrite zlen_put_at by lia.
  - done.
Qed.

(** Why a chunk cannot be restored. *)
Definition unreadable (access : ChunkAccess) (offset len : Z) (state : ChunkState) (e : error) : Prop :=
  match state with
  | Stored _ _ _ _ => Access.read access state = Err e \/
      exists p, Access.read access state = Ok p /\ zlen p <> len /\
        e = Corrupt "chunk {index} restored to {} bytes, expected {chunk_len}"
  | BadSector => e = Prelude.BadSector offset len
  | Zero | Unused => False
  end.

Lemma write_chunk_Err (zeros : AlignedBuf) off len chunk_size state access w w' e :
  takes_writes -> target_ok (wr_target w) -> 0 <= off -> 0 < len <= chunk_size ->
  off + len <= bt_size_bytes (wr_target w) -> ab_bytes zeros = zrep chunk_size Byte.x00 ->
  bt_alignment (wr_target w) <= ab_alignment zeros -> bt_alignment (wr_target w) <= ab_alignment (wr_buffer w) ->
  zlen (ab_bytes (wr_buffer w)) = chunk_size ->
  RestoreBlock.write_chunk zeros off len state access w = (w', Err e) -> unreadable access off len state e.
Proof.
  intros Htakes [Hts Htb] Ho Hl Hfit Hz Haz Hab Hb. destruct state as [| |m hash o l|]; cbn [RestoreBlock.write_chunk unreadable].
  - done.
  - unfold step_bind, RestoreBlock.on_target.
    destruct (write_at_total (wr_target w) off zeros len) as [t ->]; try done; try lia.
    rewrite Hz, zlen_zrep. lia.
  - unfold step_bind, lift. destruct (Access.read access _) as [p|e'] eqn:Er; [|intros [= _ <-]; by left].
    destruct (negb _) eqn:El; bprop; [intros [= _ <-]; right; by exists p|].
    unfold RestoreBlock.fill_buffer, RestoreBlock.buffered, reads, modify, RestoreBlock.on_target. cbn.
    destruct (write_at_total (wr_target w) off (Devices.fill p (wr_buffer w)) len) as [t ->]; try done; try lia.
    unfold Devices.fill. cbn. rewrite zlen_put_at by lia. lia.
  - by intros [= _ <-].
Qed.

Lemma write_at_alignment off buf len (t : DirectBlockTarget D) :
  bt_alignment (fst (Devices.write_at off buf len t)) = bt_alignment t.
Proof.
  unfold Devices.write_at, Devices.on_handle. by repeat case_match.
Qed.

Lemma write_chunk_alignment zeros off len state access (w : Writing D) :
  bt_alignment (wr_target (fst (RestoreBlock.write_chunk zeros off len state access w))) = bt_alignment (wr_target w) /\
  ab_alignment (wr_buffer (fst (RestoreBlock.write_chunk zeros off len state access w))) = ab_alignment (wr_buffer w).
Proof.
  destruct state as [| |m hash o l|]; cbn [RestoreBlock.write_chunk]; try done;
    unfold step_bind, lift, RestoreBlock.on_target, RestoreBlock.fill_buffer, RestoreBlock.buffered, reads, modify; cbn.
  - pose proof (write_at_alignment off zeros len (wr_target w)) as Ha.
    by destruct (Devices.write_at _ _ _ _) as [t [[]|e]].
  - destruct (Access.read _ _) as [p|e]; [|done]. destruct (negb _); [done|]. cbn.
    pose proof (write_at_alignment off (Devices.fill p (wr_buffer w)) len (wr_target w)) as Ha.
    by destruct (Devices.write_at _ _ _ _) as [t [[]|e]].
Qed.

Section walk.
Context (superblock : Superblock) (access : ChunkAccess) (zeros : AlignedBuf).
Context (size_bound : 0 <= source_size_bytes superblock < 2 ^ 63) (chunk_bound : 0 < chunk_size superblock < 2 ^ 32).
Context (zeros_zero : ab_bytes zeros = zrep (chunk_size superblock) Byte.x00).

Definition offset_of (i : Z) : Z := i * chunk_size superblock.
Definition len_of (i : Z) : Z := Z.min (chunk_size superblock) (source_size_bytes superblock - offset_of i).

Definition writing_ok (w : Writing D) : Prop :=
  target_ok (wr_target w) /\ source_size_bytes superblock <= bt_size_bytes (wr_target w) /\
  zlen (ab_bytes (wr_buffer w)) = chunk_size superblock.

Definition counters_ok (w : Writing D) : Prop :=
  u64_ok (wr_stored w) /\ u64_ok (wr_zero w) /\ u64_ok (wr_skipped w).

(** One chunk of the walk. *)
Lemma visit_Ok i state st st' : 0 <= i -> offset_of i < source_size_bytes superblock -> writing_ok (snd st) ->
  RestoreBlock.visit superblock zeros i state access st = (st', Ok tt) ->
  exists new, zlen new = len_of i /\
    contents (bt_handle (wr_target (snd st'))) = put_at (offset_of i) new (contents (bt_handle (wr_target (snd st)))) /\
    restored access (len_of i) state (sub (offset_of i) (len_of i) (contents (bt_handle (wr_target (snd st))))) new /\
    writing_ok (snd st') /\ bt_size_bytes (wr_target (snd st')) = bt_size_bytes (wr_target (snd st)) /\
    wr_stored (snd st') = wrap64 (wr_stored (snd st) + if is_stored state then 1 else 0) /\
    wr_zero (snd st') = wrap64 (wr_zero (snd st) + if is_zero state then 1 else 0) /\
    wr_skipped (snd st') = wrap64 (wr_skipped (snd st) + if is_unused state then 1 else 0).
Proof.
  intros Hi Hoff (Ht & Hfit & Hb). unfold RestoreBlock.visit, step_bind.
  assert (wrapping_mul i (chunk_size superblock) = offset_of i) as ->.
  { unfold wrapping_mul, offset_of in *. apply Z.mod_small. nia. }
  pose proof (Progress.report_tracked_cases (offset_of i) st) as Hrep.
  destruct (Progress.report_tracked _ st) as [[[run p] w] [[]|e]]; [|done].
  rewrite (proj2 (Z.leb_gt _ _)) by done. subst w. unfold Progress.inside.
  fold (len_of i). destruct (RestoreBlock.write_chunk _ _ _ _ _ _) as [w' [[]|e]] eqn:Ew; [|done].
  intros [= <-]. cbn [snd]. assert (0 <= offset_of i) by (unfold offset_of; nia).
  apply (write_chunk_Ok zeros _ _ (chunk_size superblock)) in Ew as (new & Hn & Hc & Hr & Hs & Hbuf & Hcount);
    [|done|done|unfold len_of; lia|unfold len_of; lia|done|done].
  exists new. split; [done|]. split; [done|]. split; [done|]. split; [|by split].
  destruct Ht as [Ht1 Ht2]. split; [split; [|lia]|split; [lia|done]].
  rewrite Hs, Hc, zlen_put_at; [done|done|]. rewrite Hn. unfold len_of. lia.
Qed.

(** The walk of a job nobody cancels, on a device that takes writes, stops only
    at a chunk that cannot be restored. *)
Definition uncancelled (st : Progress.tracked (Writing D)) : Prop :=
  let '(_, p, w) := st in
  ctx_cancel (pr_context p) = None /\ bt_alignment (wr_target w) = ab_alignment zeros /\
  ab_alignment (wr_buffer w) = ab_alignment zeros.

Lemma visit_Err i state st st' r : takes_writes -> 0 <= i -> offset_of i < source_size_bytes superblock ->
  writing_ok (snd st) -> uncancelled st ->
  RestoreBlock.visit superblock zeros i state access st = (st', r) ->
  uncancelled st' /\ forall e, r = Err e -> unreadable access (offset_of i) (len_of i) state e.
Proof.
  intros Htakes Hi Hoff (Ht & Hfit & Hb) Hun. destruct st as [[run p] w]. destruct Hun as (Hc & Hat & Hab). cbn [snd] in *.
  unfold RestoreBlock.visit, step_bind.
  assert (wrapping_mul i (chunk_size superblock) = offset_of i) as ->.
  { unfold wrapping_mul, offset_of in *. apply Z.mod_small. nia. }
  destruct (Progress.report_tracked_silent (offset_of i) run p w Hc) as (run1 & p1 & -> & Hc1).
  rewrite (proj2 (Z.leb_gt _ _)) by done. unfold Progress.inside. fold (len_of i).
  pose proof (write_chunk_alignment zeros (offset_of i) (len_of i) state access w) as [Ha1 Ha2].
  destruct (RestoreBlock.write_chunk _ _ _ _ _ _) as [w' rw] eqn:Ew. cbn [fst] in *. intros [= <- <-].
  split; [split_and!; congruence|]. intros e ->. assert (0 <= offset_of i) by (unfold offset_of; nia).
  eapply (write_chunk_Err zeros _ _ (chunk_size superblock) state access w w' e); try done; unfold len_of; lia.
Qed.

Lemma visit_all_Err (Htakes : takes_writes) states : forall i st st' e, 0 <= i ->
  (forall k, (k < length states)%nat -> offset_of (i + Z.of_nat k) < source_size_bytes superblock) ->
  writing_ok (snd st) -> uncancelled st ->
  visit_all (fun i s => RestoreBlock.visit superblock zeros i s access) i states st = (st', Err e) ->
  exists k s, states !! k = Some s /\
    unreadable access (offset_of (i + Z.of_nat k)) (len_of (i + Z.of_nat k)) s e.
Proof.
  induction states as [|state states IH]; intros i st st' e Hi Hoff Hw Hun; [done|].
  cbn [visit_all]. unfold step_bind. specialize (Hoff 0%nat ltac:(cbn; lia)) as Hoff0. rewrite Z.add_0_r in Hoff0.
  destruct (RestoreBlock.visit _ _ _ _ _ _) as [st1 r] eqn:Ev.
  destruct (visit_Err i state st st1 r Htakes Hi Hoff0 Hw Hun Ev) as [Hun1 He].
  destruct r as [[]|e']; intros Hr.
  - destruct (visit_Ok i state st st1 Hi Hoff0 Hw Ev) as (_ & _ & _ & _ & Hw1 & _).
    destruct (IH (i + 1) st1 st' e ltac:(lia)) as (k & s & Hk & Hu); [|done|done|done|].
    { intros k Hk. replace (i + 1 + Z.of_nat k) with (i + Z.of_nat (S k)) by lia. apply Hoff. cbn. lia. }
    exists (S k), s. split; [done|]. by replace (i + Z.of_nat (S k)) with (i + 1 + Z.of_nat k) by lia.
  - injection Hr as _ <-. exists 0%nat, state. split; [done|]. rewrite Z.add_0_r. by apply He.
Qed.

Lemma visit_all_Ok states : forall i st st', 0 <= i ->
  (forall k, (k < length states)%nat -> offset_of (i + Z.of_nat k) < source_size_bytes superblock) ->
  writing_ok (snd st) -> counters_ok (snd st) ->
  visit_all (fun i s => RestoreBlock.visit superblock zeros i s access) i states st = (st', Ok tt) ->
  let before := contents (bt_handle (wr_target (snd st))) in
  let after := contents (bt_handle (wr_target (snd st'))) in
  zlen after = zlen before /\ writing_ok (snd st') /\
  (forall o n, 0 <= o -> 0 <= n -> o + n <= offset_of i \/ source_size_bytes superblock <= o ->
     sub o n after = sub o n before) /\
  (forall k s, states !! k = Some s -> let j := i + Z.of_nat k in
     restored access (len_of j) s (sub (offset_of j) (len_of j) before) (sub (offset_of j) (len_of j) after)) /\
  wr_stored (snd st') = wrap64 (wr_stored (snd st) + counted is_stored states) /\
  wr_zero (snd st') = wrap64 (wr_zero (snd st) + counted is_zero states) /\
  wr_skipped (snd st') = wrap64 (wr_skipped (snd st) + counted is_unused states).
Proof.
  induction states as [|state states IH]; intros i st st' Hi Hoff Hw (Hos & Hoz & Hou); cbn zeta.
  { intros [= <-]. assert (forall f, counted f [] = 0) as Hnil by done. rewrite !Hnil, !Z.add_0_r.
    split_and!; try done; symmetry; by apply Z.mod_small. }
  cbn [visit_all]. unfold step_bind.
  destruct (RestoreBlock.visit _ _ _ _ _ _) as [st1 [[]|e]] eqn:Ev; [|done]. intros Hrest.
  specialize (Hoff 0%nat ltac:(cbn; lia)) as Hoff0. rewrite Z.add_0_r in Hoff0.
  destruct (visit_Ok i state st st1 Hi Hoff0 Hw Ev) as (new & Hn & Hc & Hr & Hw1 & Hsz & Hs & Hz & Hu).
  destruct (IH (i + 1) st1 st') as (IHl & IHw & IHsame & IHst & IHs & IHz & IHu); [lia| |done| |done|].
  { intros k Hk. replace (i + 1 + Z.of_nat k) with (i + Z.of_nat (S k)) by lia. apply Hoff. cbn. lia. }
  { unfold counters_ok, u64_ok. rewrite Hs, Hz, Hu. split_and!; apply Z.mod_pos_bound; lia. }
  assert (0 <= offset_of i) by (unfold offset_of; nia).
  assert (0 < len_of i) by (unfold len_of; lia).
  assert (offset_of i + len_of i <= offset_of (i + 1)) by (unfold len_of, offset_of; lia).
  assert (offset_of i + len_of i <= source_size_bytes superblock) by (unfold len_of; lia).
  assert (source_size_bytes superblock <= zlen (contents (bt_handle (wr_target (snd st))))) as Hfit.
  { destruct Hw as ([-> _] & Hle & _). done. }
  split_and!; [| |intros o n Ho0 Hn0 Ho|intros [|k] s Hk; [injection Hk as <-|]|..].
  - rewrite IHl, Hc, zlen_put_at; lia.
  - done.
  - rewrite IHsame, Hc; [|done|done|]; destruct Ho as [Ho|Ho].
    + apply sub_put_at_before; lia.
    + apply sub_put_at_after; lia.
    + left. unfold offset_of in *. lia.
    + by right.
  - rewrite Z.add_0_r, IHsame by lia. rewrite Hc.
    assert (forall l, offset_of i + len_of i <= zlen l -> sub (offset_of i) (len_of i) (put_at (offset_of i) new l) = new) as ->
      by (intros l Hl; rewrite <- Hn; apply sub_put_at_hit; lia); [done|lia].
  - specialize (IHst k s Hk). cbn zeta in IHst. replace (i + Z.of_nat (S k)) with (i + 1 + Z.of_nat k) by lia.
    rewrite Hc in IHst. rewrite sub_put_at_after in IHst; [done|lia| |lia].
    rewrite Hn. unfold offset_of in *. nia.
  - rewrite IHs, Hs. apply counted_step.
  - rewrite IHz, Hz. apply counted_step.
  - rewrite IHu, Hu. apply counted_step.
Qed.
End walk.
End spec.
End RestoreSpec.

(** ** Properties *)
Section properties.
Context `{PrimitiveLaws} `{BlockDeviceLaws D}.
Import RestoreSpec.

(** What follows the walk. *)
Lemma tail_Ok size (st st' : Progress.tracked (Writing D)) :
  (do* _ := Progress.finish_tracked size in
   Progress.inside (RestoreBlock.on_target Devices.sync)) st = (st', Ok tt) ->
  contents (bt_handle (wr_target (snd st'))) = contents (bt_handle (wr_target (snd st))) /\
  wr_stored (snd st') = wr_stored (snd st) /\ wr_zero (snd st') = wr_zero (snd st) /\
  wr_skipped (snd st') = wr_skipped (snd st).
Proof.
  destruct st as [[run p] w]. unfold step_bind, Progress.finish_tracked, Progress.finish. cbn.
  pose proof (fsync_contents (bt_handle (wr_target w))) as Hsync.
  unfold step_bind, Progress.report_bytes, Progress.emit, modify, Progress.inside, RestoreBlock.on_target, Devices.sync, Devices.on_handle.
  destruct (fsync (bt_handle (wr_target w))) as [d' [[]|e]]; intros [= <-]; by cbn in *.
Qed.

Lemma tail_total size (Hsync : forall d : D, exists d', fsync d = (d', Ok tt)) (st : Progress.tracked (Writing D)) :
  exists st', (do* _ := Progress.finish_tracked size in
   Progress.inside (RestoreBlock.on_target Devices.sync)) st = (st', Ok tt).
Proof.
  destruct st as [[run p] w]. destruct (Hsync (bt_handle (wr_target w))) as [d' Hd].
  unfold step_bind, Progress.finish_tracked, Progress.finish, Progress.report_bytes, Progress.emit, modify,
    Progress.inside, RestoreBlock.on_target, Devices.sync, Devices.on_handle, step_bind, step_ret.
  cbn. rewrite Hd. by eexists.
Qed.

(** What the restore of a block chain leaves, and the access it read with. *)
Lemma restore_exact (members : list OpenMember) (w : ChainWalk) (n : nat)
    (mms : list MemberManifest) (superblock : Superblock) (image target_path : bytes)
    (run run' : Run) (p p' : Reporter) (t t' : DirectBlockTarget D) (report : RestoreReport) :
  Walks.new members = Ok w -> Forall2 (manifest_of n (cw_chunk_size w)) (cw_members w) mms ->
  0 <= source_size_bytes superblock < 2 ^ 63 -> 0 < chunk_size superblock < 2 ^ 32 -> target_ok t ->
  RestoreBlock.write_block_chain members superblock image target_path (run, p, t) = ((run', p', t'), Ok report) ->
  exists access,
    access_of w access /\
    let states := merged_states n mms in
    let before := contents (bt_handle t) in
    let after := contents (bt_handle t') in
    zlen after = zlen before /\ source_size_bytes superblock <= zlen before /\
    Z.of_nat n = div_ceil (source_size_bytes superblock) (chunk_size superblock) /\
    (forall i s, states !! i = Some s ->
       let off := Z.of_nat i * chunk_size superblock in
       let len := Z.min (chunk_size superblock) (source_size_bytes superblock - off) in
       restored access len s (sub off len before) (sub off len after)) /\
    (forall o k, source_size_bytes superblock <= o -> 0 <= k -> sub o k after = sub o k before) /\
    rr_stored_chunks_written report = counted is_stored states /\
    rr_zero_chunks_written report = counted is_zero states /\
    rr_skipped_chunks report = counted is_unused states.
Proof.
  intros Hw Hm Hsz Hcs [Ht1 Ht2]. unfold RestoreBlock.write_block_chain. rewrite Hw.
  destruct (walks_access members w n mms Hw Hm) as (Hn & access & Hr & Hv).
  destruct (_ || _) eqn:Eg; [done|]. apply orb_false_iff in Eg as [Eg1 Eg2].
  destruct (_ <? _) eqn:Ef; [done|]. bprop.
  set (zeros := Devices.buffer (bt_alignment t) (chunk_size superblock)). set (w0 := Build_Writing _ _ _ _ _ _ _).
  destruct (step_bind _ _ _) as [[[run1 p1] w1] [[]|e]] eqn:Ev; [|done].
  intros [= -> -> <- <-]. cbn zeta. cbn [rr_stored_chunks_written rr_zero_chunks_written rr_skipped_chunks].
  apply step_bind_Ok in Ev as ([[run2 p2] w2] & [] & Ev & Htail). rewrite (proj1 (Hv _ _ _)) in Ev.
  apply tail_Ok in Htail as (Hc & Hs & Hz & Hu). cbn [snd] in *.
  destruct (merged_states_lookup n mms 0 (manifest_states_ok _ _ _ _ Hm)) as [Hlen _]. rewrite Eg2 in Hn.
  assert (forall k, (k < n)%nat -> offset_of superblock (Z.of_nat k) < source_size_bytes superblock) as Hin.
  { intros k Hk. unfold offset_of.
    pose proof (div_ceil_spec (source_size_bytes superblock) (chunk_size superblock) ltac:(lia) ltac:(lia)). nia. }
  destruct (visit_all_Ok superblock access zeros ltac:(done) ltac:(done) eq_refl (merged_states n mms) 0 (run, p, w0) (run2, p2, w2))
    as (Hl & _ & Hout & Hst & Hcs' & Hcz & Hcu); [done| | | |done|].
  { rewrite Hlen. intros k Hk. by apply Hin. }
  { split; [by split|]. split; [cbn; lia|]. cbn. rewrite zlen_zrep. lia. }
  { unfold counters_ok, u64_ok. cbn. lia. }
  cbn [snd w0 wr_target wr_stored wr_zero wr_skipped] in *. rewrite Hc.
  assert (forall f, 0 <= counted f (merged_states n mms) < 2 ^ 63) as Hcount.
  { intros f. unfold counted. pose proof (zlen_nonneg (List.filter f (merged_states n mms))).
    assert (zlen (List.filter f (merged_states n mms)) <= Z.of_nat n) by (unfold zlen; pose proof (List.filter_length_le f (merged_states n mms)); lia).
    pose proof (div_ceil_spec (source_size_bytes superblock) (chunk_size superblock) ltac:(lia) ltac:(lia)). nia. }
  exists access. split; [done|]. split; [done|]. split; [lia|]. split; [done|]. split; [done|]. split.
  { intros o k Ho Hk. apply Hout; [lia|done|by right]. }
  rewrite Hs, Hz, Hu, Hcs', Hcz, Hcu. unfold wrap64.
  split_and!; rewrite Z.mod_small; try done; match goal with |- context [counted ?f] => specialize (Hcount f) end; lia.
Qed.

(** C7: After a restore of a block chain that reports success, the target holds for
    every chunk of the chain's merged state its payload, or zeros, and where the
    source had nothing what it held before; the bytes past the source are as they
    were, and no chunk was recorded as unreadable. The report counts the chunks
    of each kind. *)
Theorem block_restore_exact (members : list OpenMember) (w : ChainWalk) (n : nat)
    (mms : list MemberManifest) (superblock : Superblock) (image target_path : bytes)
    (run run' : Run) (p p' : Reporter) (t t' : DirectBlockTarget D) (report : RestoreReport) :
  Walks.new members = Ok w -> Forall2 (manifest_of n (cw_chunk_size w)) (cw_members w) mms ->
  0 <= source_size_bytes superblock < 2 ^ 63 -> 0 < chunk_size superblock < 2 ^ 32 -> target_ok t ->
  RestoreBlock.write_block_chain members superblock image target_path (run, p, t) = ((run', p', t'), Ok report) ->
  exists access,
    ca_readers access = map om_chunks (cw_members w) /\
    let states := merged_states n mms in
    let before := contents (bt_handle t) in
    let after := contents (bt_handle t') in
    zlen after = zlen before /\ source_size_bytes superblock <= zlen before /\
    Z.of_nat n = div_ceil (source_size_bytes superblock) (chunk_size superblock) /\
    (forall i s, states !! i = Some s ->
       let off := Z.of_nat i * chunk_size superblock in
       let len := Z.min (chunk_size superblock) (source_size_bytes superblock - off) in
       restored access len s (sub off len before) (sub off len after)) /\
    (forall o k, source_size_bytes superblock <= o -> 0 <= k -> sub o k after = sub o k before) /\
    rr_stored_chunks_written report = counted is_stored states /\
    rr_zero_chunks_written report = counted is_zero states /\
    rr_skipped_chunks report = counted is_unused states.
Proof.
  intros Hw Hm Hsz Hcs Ht Hr.
  destruct (restore_exact members w n mms superblock image target_path run run' p p' t t' report Hw Hm Hsz Hcs Ht Hr)
    as (access & Ha & Hrest).
  exists access. split; [by apply access_of_lists|exact Hrest].
Qed.

(** C8: A restore that nobody cancels, onto a device that is large enough and takes
    its writes, completes unless a chunk of the merged state cannot be restored:
    one recorded as unreadable, or one whose payload does not open to its length.
    The error is that chunk's. *)
Theorem block_restore_completes (members : list OpenMember) (w : ChainWalk) (n : nat)
    (mms : list MemberManifest) (superblock : Superblock) (image target_path : bytes)
    (run : Run) (p : Reporter) (t : DirectBlockTarget D) :
  Walks.new members = Ok w -> Forall2 (manifest_of n (cw_chunk_size w)) (cw_members w) mms ->
  0 <= source_size_bytes superblock < 2 ^ 63 -> 0 < chunk_size superblock < 2 ^ 32 -> target_ok t ->
  cw_chunk_size w = chunk_size superblock ->
  Z.of_nat n = div_ceil (source_size_bytes superblock) (chunk_size superblock) ->
  source_size_bytes superblock <= bt_size_bytes t -> ctx_cancel (pr_context p) = None ->
  DeviceLemmas.takes_writes -> (forall d : D, exists d', fsync d = (d', Ok tt)) ->
  exists access,
    ca_readers access = map om_chunks (cw_members w) /\
    match snd (RestoreBlock.write_block_chain members superblock image target_path (run, p, t)) with
    | Ok _ => True
    | Err e => exists i s, merged_states n mms !! i = Some s /\
        let off := Z.of_nat i * chunk_size superblock in
        unreadable access off (Z.min (chunk_size superblock) (source_size_bytes superblock - off)) s e
    end.
Proof.
  intros Hw Hm Hsz Hcs Ht Hgcs Hgn Hfit Hc Htakes Hsync. destruct (walks_of members w n mms Hw Hm) as (Hn & access & Hr & _ & Hv).
  exists access. split; [done|]. unfold RestoreBlock.write_block_chain. rewrite Hw, Hgcs, Hn, Hgn, !Z.eqb_refl. cbn [negb orb].
  rewrite (proj2 (Z.ltb_ge _ _)) by done.
  set (zeros := Devices.buffer (bt_alignment t) (chunk_size superblock)). set (w0 := Build_Writing _ _ _ _ _ _ _).
  unfold step_bind at 1. rewrite (proj1 (Hv _ _ _)).
  destruct (merged_states_lookup n mms 0 (manifest_states_ok _ _ _ _ Hm)) as [Hlen _].
  assert (forall k, (k < n)%nat -> offset_of superblock (0 + Z.of_nat k) < source_size_bytes superblock) as Hin.
  { intros k Hk. unfold offset_of.
    pose proof (div_ceil_spec (source_size_bytes superblock) (chunk_size superblock) ltac:(lia) ltac:(lia)). nia. }
  pose proof (visit_all_Err superblock access zeros Hsz Hcs eq_refl Htakes (merged_states n mms) 0 (run, p, w0)) as Herr.
  destruct (visit_all _ _ _ _) as [[[run1 p1] w1] [[]|e]] eqn:Ev.
  - destruct (tail_total (source_size_bytes superblock) Hsync (run1, p1, w1)) as ([[run2 p2] w2] & ->). done.
  - cbn. destruct (Herr (run1, p1, w1) e) as (k & s & Hk & Hu); try done.
    + by rewrite Hlen.
    + split; [done|]. split; [done|]. cbn. rewrite zlen_zrep. lia.
    + by exists k, s.
Qed.
End properties.
