(* ===== verification/BackupPlan.v ===== *)
(** * Planning a backup ([crates/lr-engine/src/backup_plan.rs], [backup.rs])

    Which member a request makes: its parent from the catalog, its place in the
    chain, and how its manifest is written. Everything is resolved while the set
    lock is held. *)

From S2P Require Import Prelude Text Core Crypto Superblock EngineKeys CatalogRecords Destination Chain EngineCatalog.

Inductive MemberType := TypeFull | TypeIncremental | TypeDifferential.
Inductive BackupMode := ModeBlock | ModeFile | ModeBtrfsStream.
Inductive ManifestEncoding := BlockFull | BlockDelta | FileTree | BtrfsSend.

#[export] Instance member_type_eq_dec : EqDecision MemberType.
Proof. solve_decision. Defined.
#[export] Instance manifest_encoding_eq_dec : EqDecision ManifestEncoding.
Proof. solve_decision. Defined.

(** What planning reads of a [BackupRequest]. *)
Record PlanRequest := {
  pq_member_type : MemberType;
  pq_parent : option bytes;
  pq_max_incrementals_per_chain : option Z;
  pq_set_name : bytes;
  pq_set_id : Id;
  pq_chain_id : Id;
}.

Record ParentChain := {
  pc_member : MemberRecord;
  pc_chain_id : Id;
  pc_set_id : Id;
  pc_prefix : list (Z * Id);
  pc_files : list ChainMemberFile;
  pc_superblock : Superblock;
}.

Record ResolvedBackupPlan := {
  bp_parent : option ParentChain;
  bp_member_type : MemberType;
  bp_encoding : ManifestEncoding;
  bp_set_id : Id;
  bp_chain_id : Id;
  bp_seq_in_chain : Z;
  bp_parent_uuid : Id;
}.

Module MemberTypes.
Definition file_tag (t : MemberType) : bytes :=
  match t with
  | TypeFull => str "full"
  | TypeIncremental => str "incr"
  | TypeDifferential => str "diff"
  end.
End MemberTypes.

Module BackupPlans.
Section ops.
Context `{Primitives} `{Destination D} `{CatalogJson}.

(** The loop over [records]: the files and the member list of the prefix. *)
Fixpoint prefix_of (index : Z) (records : list MemberRecord) :
    result (list (Z * Id) * list ChainMemberFile) :=
  match records with
  | [] => Ok ([], [])
  | member :: records =>
    if 255 <? index then Err (Unsupported "chains longer than 255 members are not supported")
    else
      let* (prefix, files) := prefix_of (index + 1) records in
      Ok ((index, mr_image_uuid member) :: prefix,
          {| cm_file_name := mr_file_name member; cm_seq_in_chain := mr_seq_in_chain member;
             cm_image_uuid := mr_image_uuid member |} :: files)
  end.

(** [filter(|limit| *limit > 0)], and the count against it. *)
Definition chain_is_full (limit : option Z) (chain : ChainRecord) : bool :=
  match limit with
  | Some limit => if 0 <? limit then limit <=? Chains.incremental_count chain else false
  | None => false
  end.

Definition resolve_parent_chain (rq : PlanRequest) (d : D) (now : Z) : result (option ParentChain) :=
  if bool_decide (pq_member_type rq = TypeFull) then
    match pq_parent rq with
    | Some _ => Err (Unsupported "a full image starts a new chain and has no --parent")
    | None => Ok None
    end
  else
    let* loaded := Caches.load d (pq_set_name rq) now in
    let* parent := Parents.resolve_parent (ld_catalog loaded)
      (match pq_parent rq with Some parent => parent | None => LATEST end) in
    let* chain := ok_or
      (List.find (fun chain =>
         match Chains.member chain (mr_image_uuid parent) with Some _ => true | None => false end)
        (cat_chains (ld_catalog loaded)))
      (Corrupt "the parent's chain vanished from the catalog") in
    if chain_is_full (pq_max_incrementals_per_chain rq) chain then Ok None
    else
      let records := sort_by_key mr_seq_in_chain
        (List.filter (fun member => mr_seq_in_chain member <=? mr_seq_in_chain parent) (ch_members chain)) in
      let* (prefix, files) := prefix_of 0 records in
      let* superblock := Resolve.read_superblock d (mr_file_name parent) in
      Ok (Some {| pc_member := parent; pc_chain_id := ch_chain_id chain; pc_set_id := set_id superblock;
                  pc_prefix := prefix; pc_files := files; pc_superblock := superblock |}).

Definition validate_mode (mode : BackupMode) (t : MemberType) : result unit :=
  match mode, t with
  | ModeBtrfsStream, TypeDifferential =>
    Err (Unsupported "btrfs Stream images are incremental or full; a differential would need the chain's first snapshot, which is not kept")
  | _, _ => Ok tt
  end.

Definition encoding_of (mode : BackupMode) (t : MemberType) : ManifestEncoding :=
  match mode, t with
  | ModeBlock, TypeIncremental => BlockDelta
  | ModeBlock, (TypeFull | TypeDifferential) => BlockFull
  | ModeFile, _ => FileTree
  | ModeBtrfsStream, _ => BtrfsSend
  end.

Definition from_parent (mode : BackupMode) (requested_type : MemberType) (requested_chain_id requested_set_id : Id)
    (parent : option ParentChain) : result ResolvedBackupPlan :=
  validate_mode mode requested_type;;;
  match parent with
  | Some p =>
    if bool_decide (requested_type = TypeFull) then
      Err (Unsupported "a full image cannot use a resolved parent")
    else
      let* seq_in_chain :=
        (if mr_seq_in_chain (pc_member p) + 1 <=? U32_MAX then Ok (mr_seq_in_chain (pc_member p) + 1)
         else Err (Unsupported "backup chain sequence overflow")) in
      Ok {| bp_parent := Some p; bp_member_type := requested_type;
            bp_encoding := encoding_of mode requested_type; bp_set_id := pc_set_id p;
            bp_chain_id := pc_chain_id p; bp_seq_in_chain := seq_in_chain;
            bp_parent_uuid := mr_image_uuid (pc_member p) |}
  | None =>
    Ok {| bp_parent := None; bp_member_type := TypeFull; bp_encoding := encoding_of mode TypeFull;
          bp_set_id := requested_set_id; bp_chain_id := requested_chain_id; bp_seq_in_chain := 0;
          bp_parent_uuid := Ids.ZERO |}
  end.

Definition resolve (rq : PlanRequest) (mode : BackupMode) (d : D) (now : Z) : result ResolvedBackupPlan :=
  validate_mode mode (pq_member_type rq);;;
  let* parent := resolve_parent_chain rq d now in
  from_parent mode (pq_member_type rq) (pq_chain_id rq) (pq_set_id rq) parent.

Definition file_tag (p : ResolvedBackupPlan) : bytes := MemberTypes.file_tag (bp_member_type p).

Definition member_kind (p : ResolvedBackupPlan) : MemberKind :=
  match bp_member_type p with
  | TypeFull => Full
  | TypeIncremental => Incremental
  | TypeDifferential => Differential
  end.
End ops.
End BackupPlans.
