(* ===== verification/BlockBackup.v ===== *)
(** * Block backups ([crates/lr-engine/src/backup.rs])

    One member of a chain: every used chunk of the source is read, compared with
    the parent's state and stored when it differs; the manifest is spooled and
    copied into the image behind the chunks; the image is published under the
    set lock.

    What discovery and the snapshot provider found ([Snapshotted]) is an input:
    a source that does not change, its used-block map, and the answers of the
    health checks. The scratch file of the spool never runs full. *)

From S2P Require Import Prelude Text Core Crypto Pages Keys Wire Superblock Chunk Footer Files PageStream Writer.
From S2P Require Import Manifest Extras EngineKeys CatalogRecords Destination Progress Chain EngineCatalog Extents Devices BackupPlan.

Inductive Compression := CompressNone | CompressZstd (level : Z).
Inductive BadSectorPolicy := AbortBad | RecordBad.

#[export] Instance compression_eq_dec : EqDecision Compression.
Proof. solve_decision. Defined.

(** The fields of the request this job reads. *)
Record BackupRequest := {
  rq_source : bytes;
  rq_dest_root : bytes;
  rq_dest : bytes;
  rq_set_name : bytes;
  rq_set_id : Id;
  rq_chain_id : Id;
  rq_image_uuid : Id;
  rq_chunk_size : Z;
  rq_compression : Compression;
  rq_encryption : Encryption;
  rq_aead : AeadKind;
  rq_on_bad_sector : BadSectorPolicy;
  rq_member_type : MemberType;
  rq_parent : option bytes;
  rq_break_stale_lock : bool;
  rq_max_incrementals_per_chain : option Z;
  rq_set_lock_ttl_secs : option Z;
  rq_context : EngineContext;
}.

(** [BlockSnapshot], the opened source and the facts of the layout. The n-th
    health check of a job finds [sn_health n]. *)
Record Snapshotted (Dev : Type) := {
  sn_consistency : Consistency;
  sn_health : nat -> result unit;
  sn_final_health : result unit;
  sn_source : DirectBlockSource Dev;
  sn_map : ExtentMap;
  sn_fs_type : bytes;
  sn_fs_uuid : bytes;
  sn_label : bytes;
}.
#[global] Arguments sn_consistency {Dev} _.
#[global] Arguments sn_health {Dev} _ _.
#[global] Arguments sn_final_health {Dev} _.
#[global] Arguments sn_source {Dev} _.
#[global] Arguments sn_map {Dev} _.
#[global] Arguments sn_fs_type {Dev} _.
#[global] Arguments sn_fs_uuid {Dev} _.
#[global] Arguments sn_label {Dev} _.

Record Counts := {
  ct_stored : Z;
  ct_zero : Z;
  ct_bad : Z;
  ct_changed : Z;
  ct_inherited : Z;
  ct_visited : Z;
}.

Inductive SourceState :=
  | SourceUnchanged
  | SourceStored (entry : BlockEntry)
  | SourceZero
  | SourceBadSector (entry : BlockEntry)
  | SourceMissing.

(** What a pass over the source changes. *)
Record Pass := {
  pa_writer : ImageWriter;
  pa_nonces : NonceSeq;
  pa_checks : nat;
  pa_plan : UsedChunks;
  pa_next : option ChunkPlan;
  pa_spool : bytes;
  pa_counts : Counts;
}.

(** What stays the same during it. *)
Record Job (Dev : Type) := {
  jb_snapshot : Snapshotted Dev;
  jb_options : ChunkOptions;
  jb_keys : WriterKeys;
  jb_buffer : AlignedBuf;
  jb_on_bad_sector : BadSectorPolicy;
  jb_chunk_size : Z;
  jb_member : Z;
}.
#[global] Arguments jb_snapshot {Dev} _.
#[global] Arguments jb_options {Dev} _.
#[global] Arguments jb_keys {Dev} _.
#[global] Arguments jb_buffer {Dev} _.
#[global] Arguments jb_on_bad_sector {Dev} _.
#[global] Arguments jb_chunk_size {Dev} _.
#[global] Arguments jb_member {Dev} _.

Module Passes.
Definition no_counts : Counts :=
  {| ct_stored := 0; ct_zero := 0; ct_bad := 0; ct_changed := 0; ct_inherited := 0; ct_visited := 0 |}.

Definition add_counts (stored zero bad changed inherited visited : Z) (c : Counts) : Counts :=
  {| ct_stored := wrap64 (ct_stored c + stored); ct_zero := wrap64 (ct_zero c + zero);
     ct_bad := wrap64 (ct_bad c + bad); ct_changed := wrap64 (ct_changed c + changed);
     ct_inherited := wrap64 (ct_inherited c + inherited); ct_visited := wrap64 (ct_visited c + visited) |}.

Definition count (stored zero bad changed inherited visited : Z) : step Pass unit := modify (fun p =>
  {| pa_writer := pa_writer p; pa_nonces := pa_nonces p; pa_checks := pa_checks p; pa_plan := pa_plan p;
     pa_next := pa_next p; pa_spool := pa_spool p;
     pa_counts := add_counts stored zero bad changed inherited visited (pa_counts p) |}).

(** [next = plan.next_chunk()]. *)
Definition advance : step Pass unit := modify (fun p =>
  let '(next, plan) := Used.next_chunk (pa_plan p) in
  {| pa_writer := pa_writer p; pa_nonces := pa_nonces p; pa_checks := pa_checks p; pa_plan := plan;
     pa_next := next; pa_spool := pa_spool p; pa_counts := pa_counts p |}).

(** A write to the spool. *)
Definition spooled (f : bytes -> result bytes) : step Pass unit := fun p =>
  match f (pa_spool p) with
  | Ok spool =>
    ({| pa_writer := pa_writer p; pa_nonces := pa_nonces p; pa_checks := pa_checks p; pa_plan := pa_plan p;
        pa_next := pa_next p; pa_spool := spool; pa_counts := pa_counts p |}, Ok tt)
  | Err e => (p, Err e)
  end.

Definition put_entry (e : BlockEntry) : step Pass unit := spooled (Entry.write e).

Section ops.
Context `{Primitives} `{BlockDevice Dev}.

Definition check_health (j : Job Dev) : step Pass unit := fun p =>
  ({| pa_writer := pa_writer p; pa_nonces := pa_nonces p; pa_checks := S (pa_checks p);
      pa_plan := pa_plan p; pa_next := pa_next p; pa_spool := pa_spool p; pa_counts := pa_counts p |},
   sn_health (jb_snapshot j) (pa_checks p)).

Definition append_chunk (j : Job Dev) (plaintext : bytes) : step Pass ChunkRef := fun p =>
  match Writer.append_chunk (pa_writer p) (jb_options j) (jb_keys j) Block (pa_nonces p) plaintext with
  | Ok (reference, nonces, writer) =>
    ({| pa_writer := writer; pa_nonces := nonces; pa_checks := pa_checks p; pa_plan := pa_plan p;
        pa_next := pa_next p; pa_spool := pa_spool p; pa_counts := pa_counts p |}, Ok reference)
  | Err e => (p, Err e)
  end.

(** [if let ChunkState::Stored { hash: parent_hash, .. } = parent && *parent_hash == hash]. *)
Definition inherits (parent : ChunkState) (hash : bytes) : bool :=
  match parent with Stored _ parent_hash _ _ => bool_decide (parent_hash = hash) | _ => false end.

Definition store_chunk (j : Job Dev) (member : Z) (chunk : ChunkPlan) (parent : ChunkState) : step Pass SourceState :=
  do* _ := check_health j in
  match Devices.read_chunk (sn_source (jb_snapshot j)) chunk (jb_buffer j) with
  | Ok plaintext =>
    do* _ := check_health j in
    if is_all_zero plaintext then
      step_ret (if bool_decide (parent = Zero) then SourceUnchanged else SourceZero)
    else
      let hash := Mac.content_hash (wk_dedup_key (jb_keys j)) plaintext in
      if inherits parent hash then step_ret SourceUnchanged
      else
        do* reference := append_chunk j plaintext in
        do* entry := lift (Entry.stored member (ref_hash reference) (ref_offset reference) (ref_stored_len reference)) in
        step_ret (SourceStored entry)
  | Err (Prelude.BadSector offset len) =>
    match jb_on_bad_sector j with
    | AbortBad => step_err (Prelude.BadSector offset len)
    | RecordBad => step_ret (SourceBadSector (Entry.bad_sector (cp_offset chunk) (cp_len chunk)))
    end
  | Err e => step_err e
  end.

(** *** Full members *)
(** [while next_index < limit { unused.write(spool)? }]. *)
Definition fill_unused (next_index limit : Z) : step Pass unit :=
  step_iterM (limit - next_index) (fun _ => put_entry Entry.unused) tt.

Definition full_entry (state : SourceState) : step Pass BlockEntry :=
  match state with
  | SourceStored entry => do* _ := count 1 0 0 0 0 0 in step_ret entry
  | SourceZero => do* _ := count 0 1 0 0 0 0 in step_ret Entry.zero
  | SourceBadSector entry => do* _ := count 0 0 1 0 0 0 in step_ret entry
  | SourceUnchanged | SourceMissing => step_ret Entry.unused
  end.

(** One turn of the loop over the plan. *)
Definition full_chunk (j : Job Dev) (next_index : Z) (chunk : ChunkPlan) : step Pass unit :=
  do* _ := fill_unused next_index (cp_index chunk) in
  do* state := store_chunk j 0 chunk Unused in
  do* entry := full_entry state in
  do* _ := put_entry entry in
  count 0 0 0 0 0 1.

(** [while let Some(chunk) = plan.next_chunk()]; [next] holds the chunk just
    fetched. *)
Fixpoint full_loop (fuel : nat) (j : Job Dev) (next_index : Z) : step (Progress.tracked Pass) Z :=
  match fuel with
  | O => step_err (Unsupported "full_loop: out of fuel")
  | S fuel =>
    do* _ := Progress.inside advance in
    do* next := Progress.inside (reads (fun p => Ok (pa_next p))) in
    match next with
    | None => step_ret next_index
    | Some chunk =>
      do* _ := Progress.report_tracked (cp_offset chunk) in
      do* _ := Progress.inside (full_chunk j next_index chunk) in
      full_loop fuel j (cp_index chunk + 1)
    end
  end.

(** [write_full_entries]. *)
Definition write_full_entries (j : Job Dev) (chunk_count : Z) : step (Progress.tracked Pass) unit :=
  do* next_index := full_loop (S (Z.to_nat chunk_count)) j 0 in
  Progress.inside (fill_unused next_index chunk_count).

(** *** Incremental and differential members *)
Definition entry_of (state : ChunkState) : BlockEntry :=
  match state with
  | Stored member hash offset stored_len =>
    match Entry.stored member hash offset stored_len with Ok e => e | Err _ => Entry.unused end
  | Zero => Entry.zero
  | Unused => Entry.unused
  | BadSector => Entry.bad_sector 0 0
  end.

Definition put_change (delta : bool) (index : Z) (entry : BlockEntry) : step Pass unit :=
  do* _ := count 0 0 0 1 0 0 in
  if delta then spooled (Delta.write {| de_chunk_no := index; de_entry := entry |}) else put_entry entry.

(** [let source_state = ...]. *)
Definition source_state (j : Job Dev) (index : Z) (parent : ChunkState) : step Pass SourceState :=
  do* next := reads (fun p => Ok (pa_next p)) in
  match next with
  | Some chunk =>
    if cp_index chunk =? index then
      do* _ := advance in
      store_chunk j (jb_member j) chunk parent
    else step_ret (if bool_decide (parent = Unused) then SourceUnchanged else SourceMissing)
  | None => step_ret (if bool_decide (parent = Unused) then SourceUnchanged else SourceMissing)
  end.

Definition diff_chunk (j : Job Dev) (delta : bool) (index : Z) (parent : ChunkState) : step Pass unit :=
  do* _ := count 0 0 0 0 0 1 in
  do* state := source_state j index parent in
  match state with
  | SourceUnchanged =>
    do* _ := count 0 0 0 0 1 0 in
    if delta then step_ret tt else put_entry (entry_of parent)
  | SourceStored entry => do* _ := count 1 0 0 0 0 0 in put_change delta index entry
  | SourceZero => do* _ := count 0 1 0 0 0 0 in put_change delta index Entry.zero
  | SourceBadSector entry => do* _ := count 0 0 1 0 0 0 in put_change delta index entry
  | SourceMissing => put_change delta index Entry.unused
  end.

(** The callback of the walk over the parent chain. *)
Definition diff_visit (j : Job Dev) (delta : bool) (index : Z) (parent : ChunkState) (_ : ChunkAccess) :
    step (Progress.tracked Pass) unit :=
  do* _ := Progress.report_tracked (wrapping_mul index (jb_chunk_size j)) in
  Progress.inside (diff_chunk j delta index parent).

(** [patch_entry_count]: the field lies 16 bytes into the header, which the
    spool begins with. *)
Definition ENTRY_COUNT_OFFSET : Z := 2 + 1 + 1 + 4 + 8.

Definition patch_entry_count (header_offset entry_count : Z) : step Pass unit := modify (fun p =>
  {| pa_writer := pa_writer p; pa_nonces := pa_nonces p; pa_checks := pa_checks p; pa_plan := pa_plan p;
     pa_next := pa_next p;
     pa_spool := put_at (header_offset + ENTRY_COUNT_OFFSET) (le_bytes 8 entry_count) (pa_spool p);
     pa_counts := pa_counts p |}).
End ops.
End Passes.

(** ** The job *)

Record BackupReport := {
  br_warnings : list string;
  br_image_path : bytes;
  br_image_uri : bytes;
  br_image_uuid : Id;
  br_chain_id : Id;
  br_consistency : Consistency;
  br_source_size_bytes : Z;
  br_chunk_size : Z;
  br_total_chunks : Z;
  br_stored_chunks : Z;
  br_zero_chunks : Z;
  br_bad_chunks : Z;
  br_used_bytes : Z;
  br_imaged_bytes : Z;
  br_image_bytes : Z;
  br_fs_type : bytes;
  br_map_complete : bool;
  br_encrypted : bool;
  br_member_kind : MemberKind;
  br_manifest_encoding : option ManifestEncoding;
  br_seq_in_chain : Z;
  br_parent_uuid : Id;
  br_changed_chunks : Z;
  br_inherited_chunks : Z;
}.

Module Backups.
Definition SET_LOCK_TTL_SECS : Z := 300.
Definition RAW_FS_TYPE : bytes := str "raw".

Definition validate_chunk_size (chunk_size : Z) : result unit :=
  ensure (is_power_of_two chunk_size && ((MIN_CHUNK_SIZE <=? chunk_size) && (chunk_size <=? MAX_CHUNK_SIZE)))
    (Unsupported "chunk size {chunk_size} must be a power of two between {} and {}").

(** [{seq_in_chain:03}]. *)
Definition three_digits (v : Z) : bytes :=
  let digits := Text.to_decimal v in zrep (3 - zlen digits) Byte.x30 ++ digits.

Definition SLASH : bytes := [Byte.x2f].

Definition image_name (plan : ResolvedBackupPlan) (image_uuid : Id) : bytes :=
  Ids.to_uuid_string (bp_chain_id plan) ++ SLASH ++
  three_digits (bp_seq_in_chain plan) ++ str "-" ++ BackupPlans.file_tag plan ++ str "-" ++
  Ids.to_uuid_string image_uuid ++ str ".lrimg".

(** [Path::join] with a relative name. *)
Definition local_image_path (set_root image_name : bytes) : bytes :=
  match set_root with
  | [] => image_name
  | _ => if Text.ends_with SLASH set_root then set_root ++ image_name else set_root ++ SLASH ++ image_name
  end.

Definition destination_label (rq : BackupRequest) : bytes :=
  match rq_dest rq with [] => rq_dest_root rq | _ => rq_dest rq end.

(** [trim_end_matches('/')]. *)
Fixpoint skip_slashes (s : bytes) : bytes :=
  match s with c :: rest => if bool_decide (c = Byte.x2f) then skip_slashes rest else s | [] => [] end.

Definition image_uri (rq : BackupRequest) (name : bytes) : bytes :=
  rev (skip_slashes (rev (destination_label rq))) ++ SLASH ++ rq_set_name rq ++ SLASH ++ name.

(** [Consistency::label]. *)
Definition consistency_label (c : Consistency) : bytes :=
  match c with
  | PointInTime => str "point-in-time"
  | Frozen => str "frozen"
  | Offline => str "offline"
  | PerFile => str "per-file"
  | CNone => str "none (inconsistent)"
  end.

Definition incomplete_map_warning (fs_type : bytes) : option string :=
  if bool_decide (fs_type = RAW_FS_TYPE) then None
  else
    Some "the {fs_type} filesystem on {what} could not be mapped completely{reason}, so the whole device was read; anything the filesystem keeps on another device, such as an external log or a realtime subvolume, is not in this image"%string.

Definition durability_warning (durability : Durability) : option string :=
  match durability with
  | Synced => None
  | Unconfirmed _ => Some "{what} was published but may not survive a crash of the destination: {reason}"%string
  end.

Definition option_list {A} (o : option A) : list A := match o with Some a => [a] | None => [] end.

Definition plan_request (rq : BackupRequest) : PlanRequest :=
  {| pq_member_type := rq_member_type rq; pq_parent := rq_parent rq;
     pq_max_incrementals_per_chain := rq_max_incrementals_per_chain rq; pq_set_name := rq_set_name rq;
     pq_set_id := rq_set_id rq; pq_chain_id := rq_chain_id rq |}.

Definition chunk_options (rq : BackupRequest) : ChunkOptions :=
  {| Chunk.kind := rq_aead rq;
     Chunk.level := match rq_compression rq with CompressNone => 0 | CompressZstd level => level end;
     Chunk.compress := match rq_compression rq with CompressNone => false | CompressZstd _ => true end |}.

Definition writer_keys (nk : NewChainKeys) : WriterKeys :=
  {| wk_data_key := ik_data_key (nk_keys nk); wk_meta_key := ik_meta_key (nk_keys nk);
     wk_dedup_key := ik_dedup_key (nk_keys nk) |}.

Section ops.
Context `{Primitives} `{BlockDevice Dev}.

Definition superblock_flags (rq : BackupRequest) (plan : ResolvedBackupPlan) (nk : NewChainKeys) : Z :=
  let flags := if nk_encrypted nk then SbFlags.ENCRYPTED else 0 in
  let flags := if Chunk.compress (chunk_options rq) then Z.lor flags SbFlags.COMPRESSED else flags in
  if bool_decide (bp_encoding plan = BlockDelta) then Z.lor flags SbFlags.DELTA_MANIFEST else flags.

Definition superblock (rq : BackupRequest) (plan : ResolvedBackupPlan) (sn : Snapshotted Dev)
    (nk : NewChainKeys) (now : Z) : Superblock :=
  Sb.set_consistency
    {| format_major := FORMAT_MAJOR; min_reader := MIN_READER; flags := superblock_flags rq plan nk;
       image_kind := Block; consistency := sn_consistency sn; image_uuid := rq_image_uuid rq;
       chain_id := bp_chain_id plan; set_id := bp_set_id plan; parent_uuid := bp_parent_uuid plan;
       seq_in_chain := bp_seq_in_chain plan; created_unix := now;
       source_size_bytes := bs_size_bytes (sn_source sn);
       logical_block_size := bs_logical_block_size (sn_source sn); chunk_size := rq_chunk_size rq;
       kdf_id := if nk_encrypted nk then 1 else 0; aead_id := Aeads.id (rq_aead rq);
       kdf_salt := nk_kdf_salt nk; argon2_m_cost_kib := Kdf.m_cost_kib (nk_params nk);
       argon2_t_cost := Kdf.t_cost (nk_params nk); argon2_p_cost := Kdf.p_cost (nk_params nk);
       wrap_nonce := nk_wrap_nonce nk; wrapped_chain_key := nk_wrapped_chain_key nk |}
    (sn_consistency sn).

Definition manifest_header (rq : BackupRequest) (sn : Snapshotted Dev) (chunk_count : Z) : BlockManifestHeader :=
  {| bm_chunk_size := rq_chunk_size rq; bm_chunk_count := chunk_count; bm_entry_count := 0;
     bm_used_extent_count := zlen (em_extents (sn_map sn)); bm_used_bytes := Extents.covered_bytes (sn_map sn);
     bm_fs_type := sn_fs_type sn; bm_fs_uuid := sn_fs_uuid sn; bm_label := sn_label sn |}.

Definition job (rq : BackupRequest) (plan : ResolvedBackupPlan) (sn : Snapshotted Dev) (nk : NewChainKeys) : Job Dev :=
  {| jb_snapshot := sn; jb_options := chunk_options rq; jb_keys := writer_keys nk;
     jb_buffer := Devices.buffer (bs_alignment (sn_source sn)) (rq_chunk_size rq);
     jb_on_bad_sector := rq_on_bad_sector rq; jb_chunk_size := rq_chunk_size rq;
     jb_member := bp_seq_in_chain plan |}.
End ops.

Section phases.
Context `{Primitives} `{BlockDevice Dev} `{Destination D}.

(** Phase A: chunk records and the spooled manifest. *)
Definition scan (d : D) (rq : BackupRequest) (plan : ResolvedBackupPlan) (j : Job Dev) (chunk_count : Z) :
    step (Progress.tracked Pass) unit :=
  let header := manifest_header rq (jb_snapshot j) chunk_count in
  match bp_parent plan with
  | None =>
    do* _ := Progress.inside (Passes.spooled (BlockHeader.write header false)) in
    do* _ := Passes.write_full_entries j chunk_count in
    Progress.inside (Passes.patch_entry_count 0 chunk_count)
  | Some parent =>
    let delta := bool_decide (bp_encoding plan = BlockDelta) in
    do* _ := Progress.inside (Passes.spooled (BlockHeader.write header delta)) in
    do* _ := lift (ensure (bp_seq_in_chain plan <? 2 ^ 16)
      (Unsupported "chains longer than 65535 members are not supported")) in
    do* members := lift (Members.open_chain d (pc_files parent) (rq_encryption rq)) in
    do* walk := lift (Walks.new members) in
    if negb (cw_chunk_count walk =? chunk_count) then
      step_err (Unsupported "the source has {chunk_count} chunks but the parent image has {}; start a new full chain")
    else
      do* _ := Progress.inside Passes.advance in
      do* _ := Walks.walk walk (Passes.diff_visit j delta) in
      do* changed := Progress.inside (reads (fun p => Ok (ct_changed (pa_counts p)))) in
      Progress.inside (Passes.patch_entry_count 0 (if delta then changed else chunk_count))
  end.

(** Phase B: the spool goes into the page stream in pieces of 64 KiB. *)
Definition write_manifest (rq : BackupRequest) (meta_key spool : bytes) (w : ImageWriter) : result ImageWriter :=
  let manifest := Writer.page_stream w SManifest (rq_aead rq) meta_key in
  let* manifest := put_all (fun piece manifest => PageStreams.write manifest piece) (zchunks (64 * 1024) spool) manifest in
  let* manifest := PageStreams.finish manifest in
  Ok (ps_sink manifest).

(** The members listed: the prefix the parent has, and this one. *)
Definition listed_members (rq : BackupRequest) (plan : ResolvedBackupPlan) : list ChainMember :=
  (match bp_parent plan with
   | Some parent => map (fun '(index, uuid) => Build_ChainMember index uuid) (pc_prefix parent)
   | None => []
   end) ++
  [Build_ChainMember (if bp_seq_in_chain plan <=? 255 then bp_seq_in_chain plan else 255) (rq_image_uuid rq)].

Definition metadata (rq : BackupRequest) (plan : ResolvedBackupPlan) (sn : Snapshotted Dev) : bytes :=
  str "source=" ++ rq_source rq ++ [Text.LF] ++
  str "consistency=" ++ consistency_label (sn_consistency sn) ++ [Text.LF] ++
  str "fs_type=" ++ sn_fs_type sn ++ [Text.LF] ++
  str "kind=" ++ BackupPlans.file_tag plan ++ [Text.LF] ++
  str "seq=" ++ Text.to_decimal (bp_seq_in_chain plan) ++ [Text.LF].

Definition write_extras (rq : BackupRequest) (plan : ResolvedBackupPlan) (sn : Snapshotted Dev)
    (meta_key : bytes) (w : ImageWriter) : result ImageWriter :=
  let extras := Writer.page_stream w SExtras (rq_aead rq) meta_key in
  let* extras := Extras.write_chain_members (listed_members rq plan) extras in
  let* extras := Extras.write_record EXTRAS_IMAGE_METADATA (metadata rq plan sn) extras in
  let* extras := PageStreams.finish extras in
  Ok (ps_sink extras).

Definition mac_key (nk : NewChainKeys) : option bytes :=
  if nk_encrypted nk then Some (ik_meta_key (nk_keys nk)) else None.

Definition new_pass (w : ImageWriter) (plan : UsedChunks) : Pass :=
  {| pa_writer := w; pa_nonces := Nonce.new; pa_checks := 0; pa_plan := plan; pa_next := None; pa_spool := [];
     pa_counts := Passes.no_counts |}.
End phases.

Section job.
Context `{Primitives} `{BlockDevice Dev} `{Destination D} `{Publisher D} `{CatalogJson}.

Definition on_dest {A} (m : step D A) : step (D * Run) A := fun '(d, run) =>
  let '(d, r) := m d in ((d, run), r).
Definition on_run {A} (m : step Run A) : step (D * Run) A := fun '(d, run) =>
  let '(run, r) := m run in ((d, run), r).

(** A loop that reports, from the state it starts with to the one it ends with. *)
Definition on_pass (reporter : Reporter) (pass : Pass) (m : D -> step (Progress.tracked Pass) unit) :
    step (D * Run) (Reporter * Pass) := fun '(d, run) =>
  let '((run, reporter, pass), r) := m d (run, reporter, pass) in
  ((d, run), let* _ := r in Ok (reporter, pass)).

(** [TempGuard]: a failure deletes the temporary image; what that returns is
    ignored. *)
Definition guarded {A} (tmp : bytes) (m : step (D * Run) A) : step (D * Run) A := fun s =>
  match m s with
  | (s, Ok a) => (s, Ok a)
  | ((d, run), Err e) => let '(d, _) := delete d tmp in ((d, run), Err e)
  end.

Definition acquire_set_lock (rq : BackupRequest) : step D unit := fun d =>
  let ttl := match rq_set_lock_ttl_secs rq with Some ttl => ttl | None => SET_LOCK_TTL_SECS end in
  if rq_break_stale_lock rq then lock_set_breaking_stale d ttl else lock_set d ttl.

Definition new_keys (rq : BackupRequest) (plan : ResolvedBackupPlan) (rnd : Randomness) : result NewChainKeys :=
  match bp_parent plan with
  | Some parent =>
    EKeys.member_chain_keys rnd (rq_encryption rq) (pc_superblock parent) (bp_chain_id plan) (rq_image_uuid rq)
  | None => EKeys.new_chain_keys rnd (rq_encryption rq) (bp_chain_id plan) (rq_image_uuid rq)
  end.

(** What was counted, and the length of the image file. *)
Definition write_image (rq : BackupRequest) (plan : ResolvedBackupPlan) (sn : Snapshotted Dev) (nk : NewChainKeys)
    (now : Z) (used : UsedChunks) (reporter : Reporter) (space : Z) (tmp image_name : bytes) :
    step (D * Run) (Counts * Z * Durability) :=
  let meta_key := ik_meta_key (nk_keys nk) in
  let j := job rq plan sn nk in
  do* writer := lift (Writer.create (File.new space) (superblock rq plan sn nk now) (mac_key nk)) in
  do* (reporter, pass) := on_pass reporter (new_pass writer used) (fun d => scan d rq plan j (uc_chunk_count used)) in
  do* _ := lift (sn_final_health sn) in
  do* _ := on_run (Progress.phase (rq_context rq) (str "manifest")) in
  do* writer := lift (write_manifest rq meta_key (pa_spool pass) (pa_writer pass)) in
  do* writer := lift (write_extras rq plan sn meta_key writer) in
  do* _ := on_run (Progress.phase (rq_context rq) (str "finalize")) in
  do* _ := on_run (Progress.finish reporter (Used.planned_bytes used)) in
  do* (file, _) := lift (Writer.finish writer meta_key (mac_key nk) (rq_aead rq)) in
  do* _ := on_dest (fun d => write_tmp d tmp (fw_bytes file)) in
  do* _ := on_dest lock_verify in
  do* durability := on_dest (publish_new tmp image_name) in
  step_ret (pa_counts pass, zlen (fw_bytes file), durability).

(** [backup_block_with] once the source is known; [set_root] is the local
    root of the set, empty for a remote one, and [space] what the destination
    has room for. *)
Definition backup_block_with (rq : BackupRequest) (sn : Snapshotted Dev) (rnd : Randomness) (set_root : bytes)
    (space : Z) : step (D * Run) BackupReport :=
  do* _ := lift (validate_chunk_size (rq_chunk_size rq)) in
  do* _ := on_run (Progress.phase (rq_context rq) (str "snapshot")) in
  let device_size := bs_size_bytes (sn_source sn) in
  do* used := lift (Used.new (sn_map sn) (rq_chunk_size rq) device_size) in
  let imaged_bytes := Used.planned_bytes used in
  do* reporter := on_run (Progress.reporter (rq_context rq) imaged_bytes) in
  do* _ := on_run (Progress.phase (rq_context rq) (str "scan")) in
  do* _ := on_dest (acquire_set_lock rq) in
  do* now := on_dest clock in
  do* plan := on_dest (reads (fun d => BackupPlans.resolve (plan_request rq) ModeBlock d now)) in
  do* nk := lift (new_keys rq plan rnd) in
  let name := image_name plan (rq_image_uuid rq) in
  do* tmp := on_dest (fun d => create_tmp d name) in
  do* (counts, image_bytes, durability) :=
    guarded tmp (write_image rq plan sn nk now used reporter space tmp name) in
  do* later := on_dest clock in
  do* catalog_warning := on_dest (Caches.record_published (rq_set_name rq) later) in
  step_ret {|
    br_warnings := option_list (durability_warning durability) ++ option_list catalog_warning ++
      option_list (if em_complete (sn_map sn) then None else incomplete_map_warning (sn_fs_type sn));
    br_image_path := local_image_path set_root name; br_image_uri := image_uri rq name;
    br_image_uuid := rq_image_uuid rq; br_chain_id := bp_chain_id plan; br_consistency := sn_consistency sn;
    br_source_size_bytes := device_size; br_chunk_size := rq_chunk_size rq;
    br_total_chunks := uc_chunk_count used; br_stored_chunks := ct_stored counts;
    br_zero_chunks := ct_zero counts; br_bad_chunks := ct_bad counts;
    br_used_bytes := Extents.covered_bytes (sn_map sn); br_imaged_bytes := imaged_bytes;
    br_image_bytes := image_bytes; br_fs_type := sn_fs_type sn; br_map_complete := em_complete (sn_map sn);
    br_encrypted := nk_encrypted nk; br_member_kind := BackupPlans.member_kind plan;
    br_manifest_encoding := Some (bp_encoding plan); br_seq_in_chain := bp_seq_in_chain plan;
    br_parent_uuid := bp_parent_uuid plan; br_changed_chunks := ct_changed counts;
    br_inherited_chunks := ct_inherited counts |}.
End job.
End Backups.
