(* ===== verification/BackupSafety.v ===== *)
(** * What a backup leaves alone

    Whatever happens during a block backup, the images the set had stay as they
    were: the job adds one image at most, under a name nothing had. *)

From S2P Require Import Prelude Core Crypto EngineKeys CatalogRecords Steps Destination Progress Chain EngineCatalog Extents Devices.
From S2P Require Import RetentionSafety BackupPlan BlockBackup.

Module BackupSafety.
Section safety.
Context `{PrimitiveLaws} `{BlockDevice Dev} `{PublisherLaws D} `{CatalogJson}.

(** The images of a set, and one more. *)
Definition extends (name : bytes) (d d' : D) : Prop := forall m, Scans.is_image m = true ->
  (m <> name -> Destination.contents d' m = Destination.contents d m) /\
  (forall b, Destination.contents d m = Some b -> Destination.contents d' m = Some b).

Lemma extends_same name d d' :
  (forall m, Scans.is_image m = true -> Destination.contents d' m = Destination.contents d m) -> extends name d d'.
Proof. intros Hs m Hm. rewrite (Hs m Hm). done. Qed.

Lemma extends_trans name d1 d2 d3 : extends name d1 d2 -> extends name d2 d3 -> extends name d1 d3.
Proof.
  intros H12 H23 m Hm. destruct (H12 m Hm) as [Hn12 Hb12], (H23 m Hm) as [Hn23 Hb23].
  split; [intros; by rewrite Hn23, Hn12|auto].
Qed.

Definition respects {A} (name : bytes) (s : step (D * Run) A) : Prop :=
  forall x, extends name (fst x) (fst (fst (s x))).

Lemma respects_ret {A} name (a : A) : respects name (step_ret a).
Proof. intros x. by apply extends_same. Qed.

Lemma respects_bind {A B} name (s : step (D * Run) A) (k : A -> step (D * Run) B) (P : A -> Prop) :
  respects name s -> (forall x a, snd (s x) = Ok a -> P a) -> (forall a, P a -> respects name (k a)) ->
  respects name (step_bind s k).
Proof.
  intros Hs HP Hk x. unfold step_bind. specialize (Hs x). specialize (HP x).
  destruct (s x) as [x1 [a|e]]; [|done]. cbn in *. eapply extends_trans; [exact Hs|]. by apply Hk, HP.
Qed.

Lemma respects_seq {A B} name (s : step (D * Run) A) (k : A -> step (D * Run) B) :
  respects name s -> (forall a, respects name (k a)) -> respects name (step_bind s k).
Proof. intros Hs Hk. by apply (respects_bind name s k (fun _ => True)). Qed.

Lemma respects_lift {A} name (r : result A) : respects name (lift r).
Proof. intros x. by apply extends_same. Qed.

Lemma respects_run {A} name (m : step Run A) : respects name (Backups.on_run m).
Proof. intros [d run]. unfold Backups.on_run. destruct (m run). by apply extends_same. Qed.

Lemma respects_pass name reporter pass m : respects name (Backups.on_pass reporter pass m).
Proof. intros [d run]. unfold Backups.on_pass. destruct (m d _) as [[[? ?] ?] ?]. by apply extends_same. Qed.

Lemma respects_dest {A} name (m : step D A) : (forall d, extends name d (fst (m d))) -> respects name (Backups.on_dest m).
Proof. intros Hm [d run]. unfold Backups.on_dest. specialize (Hm d). by destruct (m d). Qed.

Lemma respects_keeps {A} name (m : step D A) :
  (forall f, Scans.is_image f = true -> keeps f m) -> respects name (Backups.on_dest m).
Proof. intros Hm. apply respects_dest. intros d. apply extends_same. intros f Hf. by apply Hm. Qed.

(** The temporary file of an image is not an image. *)
Lemma respects_delete name tmp d : Scans.is_image tmp = false -> extends name d (fst (delete d tmp)).
Proof. intros Ht. apply extends_same. intros m Hm. apply delete_frame. congruence. Qed.

Lemma respects_guarded {A} name tmp (m : step (D * Run) A) : Scans.is_image tmp = false ->
  respects name m -> respects name (Backups.guarded tmp m).
Proof.
  intros Ht Hm x. unfold Backups.guarded. specialize (Hm x). destruct (m x) as [[d run] [a|e]]; [done|].
  cbn in *. pose proof (respects_delete name tmp d Ht). destruct (delete d tmp). cbn in *. by eapply extends_trans.
Qed.

Lemma publish_extends name tmp d b : Scans.is_image tmp = false -> Destination.contents d tmp = Some b ->
  extends name d (fst (publish_new tmp name d)).
Proof.
  intros Ht Hb m Hm. assert (m <> tmp) as Hne by congruence. split; [intros; by apply (publish_frame _ _ _ _ b)|]. intros b' Hb'.
  destruct (decide (m = name)) as [->|]; [by apply publish_existing|by rewrite (publish_frame _ _ _ _ b)].
Qed.

(** Writing the temporary file and publishing it. *)
Lemma respects_published {A} name tmp b (k : Durability -> step (D * Run) A) : Scans.is_image tmp = false ->
  (forall durability, respects name (k durability)) ->
  respects name (do* _ := Backups.on_dest (fun d => write_tmp d tmp b) in
    do* _ := Backups.on_dest lock_verify in do* durability := Backups.on_dest (publish_new tmp name) in k durability).
Proof.
  intros Ht Hk [d run]. unfold step_bind at 1, Backups.on_dest at 1.
  assert (extends name d (fst (write_tmp d tmp b))) as Hw by (apply extends_same; intros; apply write_tmp_frame; congruence).
  pose proof (write_tmp_contents d tmp b) as Hc. destruct (write_tmp d tmp b) as [d1 [u|e]]; [|exact Hw].
  unfold step_bind at 1, Backups.on_dest at 1. cbn [fst snd] in *. specialize (Hc u eq_refl).
  pose proof (fun m => lock_verify_frame d1 m) as Hl. destruct (lock_verify d1) as [d2 r]. cbn [fst] in Hl.
  assert (extends name d d2) as H2' by (eapply extends_trans; [exact Hw|by apply extends_same]).
  destruct r as [v|e]; [|exact H2'].
  unfold step_bind at 1, Backups.on_dest at 1. pose proof (publish_extends name tmp d2 b Ht ltac:(by rewrite Hl)) as Hp.
  destruct (publish_new tmp name d2) as [d3 r]. cbn [fst] in Hp.
  assert (extends name d d3) as H3' by (by eapply extends_trans).
  destruct r as [durability|e]; [|exact H3']. specialize (Hk durability (d3, run)). by eapply extends_trans.
Qed.

(** The image of the job is written beside the others. *)
Lemma write_image_respects rq plan (sn : Snapshotted Dev) nk now used reporter space tmp name :
  Scans.is_image tmp = false ->
  respects name (Backups.write_image rq plan sn nk now used reporter space tmp name).
Proof.
  intros Ht. unfold Backups.write_image.
  apply respects_seq; [apply respects_lift|]. intros writer.
  apply respects_seq; [apply respects_pass|]. intros [reporter' pass].
  do 4 (apply respects_seq; [first [apply respects_lift|apply respects_run]|]; intros ?).
  do 3 (apply respects_seq; [first [apply respects_lift|apply respects_run]|]; intros ?).
  case_match. apply respects_published; [done|]. intros ?. apply respects_ret.
Qed.

(** Recording the publication writes the catalog. *)
Lemma record_published_keeps m set_name now : Scans.is_image m = true -> keeps (D := D) m (Caches.record_published set_name now).
Proof.
  intros Hm d. unfold Caches.record_published. cbv beta.
  assert (keeps m (do* loaded := reads (fun d : D => Caches.load d set_name now) in
     do* _ := lock_verify in
     Caches.write_catalog
       {| cat_version := cat_version (ld_catalog loaded); cat_set_id := cat_set_id (ld_catalog loaded);
          cat_set_name := cat_set_name (ld_catalog loaded); cat_updated_unix := now;
          cat_chains := cat_chains (ld_catalog loaded) |})) as Hk.
  { apply keeps_bind; [apply keeps_reads|]. intros loaded. apply keeps_bind; [apply keeps_lock|]. intros _.
    by apply write_catalog_keeps. }
  specialize (Hk d). destruct (step_bind _ _ d) as [d' [u|e]]; exact Hk.
Qed.

Lemma acquire_lock_keeps m rq : Scans.is_image m = true -> keeps (D := D) m (Backups.acquire_set_lock rq).
Proof.
  intros Hi%RetentionSafety.image_not_lock d. unfold Backups.acquire_set_lock.
  destruct (rq_break_stale_lock rq); [by apply lock_breaking_frame|by apply lock_set_frame].
Qed.

(** A step before the name of the image is known. *)
Definition adds_one {A} (uuid : Id) (s : step (D * Run) A) : Prop :=
  forall x, exists plan, extends (Backups.image_name plan uuid) (fst x) (fst (fst (s x))).

Definition no_plan : ResolvedBackupPlan :=
  {| bp_parent := None; bp_member_type := TypeFull; bp_encoding := BlockFull; bp_set_id := Ids.ZERO;
     bp_chain_id := Ids.ZERO; bp_seq_in_chain := 0; bp_parent_uuid := Ids.ZERO |}.

Lemma adds_one_bind {A B} uuid (s : step (D * Run) A) (k : A -> step (D * Run) B) :
  (forall name, respects name s) -> (forall a, adds_one uuid (k a)) -> adds_one uuid (step_bind s k).
Proof.
  intros Hs Hk x. unfold step_bind. destruct (s x) as [x1 [a|e]] eqn:E.
  - destruct (Hk a x1) as [plan Hp]. exists plan. specialize (Hs (Backups.image_name plan uuid) x). rewrite E in Hs.
    by eapply extends_trans.
  - exists no_plan. specialize (Hs (Backups.image_name no_plan uuid) x). by rewrite E in Hs.
Qed.

Lemma adds_one_job rq (sn : Snapshotted Dev) rnd set_root space :
  adds_one (rq_image_uuid rq) (Backups.backup_block_with rq sn rnd set_root space).
Proof.
  unfold Backups.backup_block_with. set (name_of := Backups.image_name).
  apply adds_one_bind; [intros; apply respects_lift|]. intros _.
  apply adds_one_bind; [intros; apply respects_run|]. intros _.
  apply adds_one_bind; [intros; apply respects_lift|]. intros used.
  apply adds_one_bind; [intros; apply respects_run|]. intros reporter.
  apply adds_one_bind; [intros; apply respects_run|]. intros _.
  apply adds_one_bind; [intros; apply respects_keeps; intros; by apply acquire_lock_keeps|]. intros _.
  apply adds_one_bind; [intros; apply respects_keeps; intros; apply keeps_clock|]. intros now.
  apply adds_one_bind; [intros; apply respects_keeps; intros; apply keeps_reads|]. intros plan.
  apply adds_one_bind; [intros; apply respects_lift|]. intros nk x. exists plan. revert x.
  apply (respects_bind _ _ _ (fun tmp => Scans.is_image tmp = false)).
  - apply respects_keeps. intros m Hm d. apply create_tmp_frame. intros t Ht. by eapply image_not_tmp.
  - intros [d run] t. unfold Backups.on_dest. pose proof (fun m => image_not_tmp d (name_of plan (rq_image_uuid rq)) t m) as Hn.
    destruct (create_tmp d _) as [d1 r]. cbn in *. intros ->. apply not_true_iff_false. intros Hi. by eapply Hn.
  - intros tmp Ht. apply respects_seq; [apply respects_guarded; [done|by apply write_image_respects]|]. intros [[counts image_bytes] durability].
    apply respects_seq; [apply respects_keeps; intros; apply keeps_clock|]. intros later.
    apply respects_seq; [apply respects_keeps; intros; by apply record_published_keeps|]. intros ?. apply respects_ret.
Qed.
End safety.
End BackupSafety.

(** ** Properties *)

(** C12: Whatever becomes of a block backup, it changes no image of the set: every
    image that existed is still there with the same bytes, and apart from the
    image of the job's own identifier no other name gains or loses one. *)
Theorem backup_keeps_images `{PrimitiveLaws} `{BlockDevice Dev} `{PublisherLaws D} `{CatalogJson} rq
    (sn : Snapshotted Dev) rnd set_root space (d : D) run :
  let d' := fst (fst (Backups.backup_block_with rq sn rnd set_root space (d, run))) in
  exists plan, forall m, Scans.is_image m = true ->
    (m <> Backups.image_name plan (rq_image_uuid rq) -> Destination.contents d' m = Destination.contents d m) /\
    (forall b, Destination.contents d m = Some b -> Destination.contents d' m = Some b).
Proof.
  intros d'. subst d'. apply (BackupSafety.adds_one_job rq sn rnd set_root space (d, run)).
Qed.
