(* ===== verification/BackupSpec.v ===== *)
(** * What a block backup records

    The pass over the source, full or against a parent, leaves a manifest that
    describes the source: chunk by chunk the state it gives to a chunk that was
    read, and the payload behind it. *)

From Stdlib Require Import Sorted.
From stdpp Require Import sorting.
From S2P Require Import Prelude Core Crypto Pages Wire Superblock Chunk Footer Files PageStream Writer ImageReader Roundtrip.
From S2P Require Import Manifest EngineKeys CatalogRecords Steps Destination Progress Chain ChainSpec Extents Devices BackupPlan BlockBackup.
Import Image.

Module PassSpec.
Section pass.
Context `{PrimitiveLaws} `{BlockDeviceLaws Dev} (j : Job Dev) (w0 : ImageWriter).

Definition source_bytes : bytes := Devices.contents (bs_handle (sn_source (jb_snapshot j))).
Definition source_chunk (c : ChunkPlan) : bytes := sub (cp_offset c) (cp_len c) source_bytes.

(** The chunk records of the image under construction: the payloads stored so
    far and the references to them. *)
Definition appended (stored : list bytes) (refs : list ChunkRef) (p : Pass) : Prop :=
  append_all w0 (jb_options j) (jb_keys j) Block Nonce.new stored = Ok (refs, pa_nonces p, pa_writer p).

(** The states that describe a chunk of the source: zeros; a payload stored by
    this member; the parent's payload, when it has the source's content hash; or
    an unreadable chunk, where the request tolerates one. *)
Inductive described (member : Z) (stored : list bytes) (refs : list ChunkRef) (c : ChunkPlan)
    (parent : ChunkState) : ChunkState -> Prop :=
  | described_zero : zlen (source_chunk c) = cp_len c -> is_all_zero (source_chunk c) = true ->
      described member stored refs c parent Zero
  | described_new k r : zlen (source_chunk c) = cp_len c ->
      stored !! k = Some (source_chunk c) -> refs !! k = Some r ->
      described member stored refs c parent (Stored member (ref_hash r) (ref_offset r) (ref_stored_len r))
  | described_inherited m hash offset len : zlen (source_chunk c) = cp_len c ->
      parent = Stored m hash offset len ->
      hash = Mac.content_hash (wk_dedup_key (jb_keys j)) (source_chunk c) ->
      described member stored refs c parent parent
  | described_bad : jb_on_bad_sector j = RecordBad -> described member stored refs c parent BadSector.

Lemma described_app member stored refs more rmore c parent s :
  described member stored refs c parent s -> described member (stored ++ more) (refs ++ rmore) c parent s.
Proof.
  intros [? ?|k r ? Hk Hr|m hash offset len ? Hp Hh|?].
  - by constructor.
  - eapply described_new; [done| |]; by apply lookup_app_l_Some.
  - by eapply described_inherited.
  - by constructor.
Qed.

(** *** Appending *)
Lemma append_all_snoc ps : forall w ns q,
  append_all w (jb_options j) (jb_keys j) Block ns (ps ++ [q]) =
  let* (refs, ns, w) := append_all w (jb_options j) (jb_keys j) Block ns ps in
  let* (r, ns, w) := Writer.append_chunk w (jb_options j) (jb_keys j) Block ns q in
  Ok (refs ++ [r], ns, w).
Proof.
  induction ps as [|p ps IH]; intros w ns q; cbn [app append_all].
  - cbn [bind]. destruct (Writer.append_chunk _ _ _ _ _ _) as [[[r ns1] w1]|]; done.
  - destruct (Writer.append_chunk _ _ _ _ _ _) as [[[r ns1] w1]|]; [|done]. cbn [bind]. rewrite IH.
    destruct (append_all _ _ _ _ _ _) as [[[refs ns2] w2]|]; [|done]. cbn [bind].
    destruct (Writer.append_chunk _ _ _ _ _ _) as [[[r2 ns3] w3]|]; done.
Qed.

Lemma append_chunk_Ok stored refs q p p' r : appended stored refs p ->
  Passes.append_chunk j q p = (p', Ok r) ->
  appended (stored ++ [q]) (refs ++ [r]) p' /\ pa_plan p' = pa_plan p /\ pa_next p' = pa_next p /\
  pa_spool p' = pa_spool p /\ pa_counts p' = pa_counts p.
Proof.
  unfold appended, Passes.append_chunk. intros Ha. rewrite append_all_snoc, Ha. cbn [bind].
  destruct (Writer.append_chunk _ _ _ _ _ _) as [[[r' ns] w]|] eqn:E; [|done]. intros [= <- ->]. cbn.
  by split_and!.
Qed.

(** What the references are good for. *)
Record ref_ok (r : ChunkRef) : Prop := {
  ro_hash : zlen (ref_hash r) = 32;
  ro_offset : u64_ok (ref_offset r);
  ro_len : u32_ok (ref_stored_len r);
}.

Context (kind : AeadKind) (key : bytes) (w0_rep : wrep kind key [] [] w0) (w0_cap : fw_cap (iw_file w0) <= U64_MAX).

Lemma appended_refs stored refs p : appended stored refs p -> Forall (fun q => zlen q <= MAX_STORED_LEN) stored ->
  length refs = length stored /\ Forall ref_ok refs /\
  Forall2 (fun r q => ref_hash r = Mac.content_hash (wk_dedup_key (jb_keys j)) q) refs stored.
Proof.
  intros Ha Hl. destruct (append_all_rep kind key _ _ _ _ [] _ _ _ _ _ w0_rep Hl Ha) as (rs & Hw & Hok & _ & Hst & Hid).
  cbn [app] in *. destruct Hid as [_ Hcap]. split; [by eapply Forall2_length|]. split.
  - apply List.Forall_forall. intros r Hr. apply list_elem_of_In, list_elem_of_lookup_1 in Hr as [i Hi].
    destruct (Forall2_lookup_l _ _ _ _ _ Hst Hi) as (q & _ & pre & x & post & -> & Ho & Hsl & Hh & _).
    pose proof (wr_cap _ _ _ _ _ Hw) as Hc. pose proof (wr_sb _ _ _ _ _ Hw) as Hsb.
    rewrite (wr_bytes _ _ _ _ _ Hw), zlen_app, Hsb in Hc. unfold body in Hc.
    rewrite map_app, concat_app in Hc. cbn [map concat] in Hc. rewrite app_nil_r, zlen_app, zlen_app in Hc.
    pose proof (zlen_nonneg (concat (map Chunk.record_bytes pre))).
    pose proof (zlen_nonneg (Chunk.record_bytes x)). pose proof (zlen_nonneg (concat (map Chunk.record_bytes post))).
    apply Forall_app in Hok as [_ Hok]. apply Forall_cons in Hok as [Hx _].
    split; [by rewrite Hh, Mac.zlen_content_hash| |].
    + rewrite Ho. unfold u64_ok, SB_SIZE, U64_MAX in *. lia.
    + rewrite Hsl. destruct Hx. unfold u32_ok. pose proof (zlen_nonneg (cr_payload x)). unfold MAX_STORED_LEN, MAX_CHUNK_SIZE in *. lia.
  - eapply Forall2_impl; [exact Hst|]. intros r q (pre & x & post & _ & _ & _ & Hh & _). done.
Qed.

(** What a pass leaves alone apart from the writer. *)
Definition same_spool (p p' : Pass) : Prop :=
  pa_plan p' = pa_plan p /\ pa_next p' = pa_next p /\ pa_spool p' = pa_spool p /\ pa_counts p' = pa_counts p.

Lemma check_health_Ok p p' : Passes.check_health j p = (p', Ok tt) ->
  same_spool p p' /\ forall stored refs, appended stored refs p -> appended stored refs p'.
Proof. unfold Passes.check_health. intros [= <- _]. by split. Qed.

Definition chunk_ok (c : ChunkPlan) : Prop :=
  u64_ok (cp_offset c) /\ u32_ok (cp_len c) /\ cp_len c <= MAX_STORED_LEN.

Definition payloads_fit (stored : list bytes) : Prop := Forall (fun q => zlen q <= MAX_STORED_LEN) stored.

(** The state a chunk of the source is given, and the payload stored for it. *)
Definition state_for (member : Z) (stored : list bytes) (refs : list ChunkRef) (c : ChunkPlan) (parent : ChunkState)
    (s : SourceState) : Prop :=
  match s with
  | SourceUnchanged => parent <> BadSector /\ parent <> Unused /\ described member stored refs c parent parent
  | SourceStored e => Entry.ok e /\ described member stored refs c parent (ChunkStates.of_entry e)
  | SourceZero => described member stored refs c parent Zero
  | SourceBadSector e =>
    Entry.ok e /\ ChunkStates.of_entry e = BadSector /\ described member stored refs c parent BadSector
  | SourceMissing => False
  end.

Lemma store_chunk_Ok member c parent stored refs p p' s :
  0 <= member -> chunk_ok c -> payloads_fit stored -> appended stored refs p ->
  Passes.store_chunk j member c parent p = (p', Ok s) ->
  exists more rmore, appended (stored ++ more) (refs ++ rmore) p' /\ payloads_fit (stored ++ more) /\
    same_spool p p' /\ state_for member (stored ++ more) (refs ++ rmore) c parent s /\
    zlen more = match s with SourceStored _ => 1 | _ => 0 end.
Proof.
  intros Hm (Ho & Hl & Hmax) Hfit Ha. unfold Passes.store_chunk. intros Hs.
  apply step_bind_Ok in Hs as (p1 & [] & [Hs1 Ha1]%check_health_Ok & Hs). apply Ha1 in Ha.
  destruct (Devices.read_chunk _ _ _) as [q|e] eqn:Er.
  - apply DeviceLemmas.read_chunk_Ok in Er as [Hq ->]; [|unfold u64_ok, u32_ok in *; lia..].
    change (sub (cp_offset c) (cp_len c) _) with (source_chunk c) in *.
    apply step_bind_Ok in Hs as (p2 & [] & [Hs2 Ha2]%check_health_Ok & Hs). apply Ha2 in Ha.
    assert (same_spool p p2) as Hsame by (unfold same_spool in *; intuition congruence).
    destruct (is_all_zero (source_chunk c)) eqn:Ez.
    { injection Hs as <- <-. exists [], []. rewrite !app_nil_r. refine (conj Ha (conj Hfit (conj Hsame (conj _ _)))); [|by case_bool_decide].
      case_bool_decide; subst; [|by constructor]. split; [done|]. split; [done|]. by constructor. }
    destruct (Passes.inherits _ _) eqn:Ei.
    { injection Hs as <- <-. exists [], []. rewrite !app_nil_r. refine (conj Ha (conj Hfit (conj Hsame (conj _ eq_refl)))).
      destruct parent as [| |pm ph po pl|]; try done. cbn in Ei. bprop. split; [done|]. split; [done|]. by eapply described_inherited. }
    apply step_bind_Ok in Hs as (p3 & r & Hr & Hs).
    apply (append_chunk_Ok _ _ _ _ _ _ Ha) in Hr as (Ha3 & Hs3).
    assert (payloads_fit (stored ++ [source_chunk c])) as Hfit3.
    { apply Forall_app. split; [done|]. constructor; [lia|constructor]. }
    destruct (appended_refs _ _ _ Ha3 Hfit3) as (Hlen & Hrefs & _).
    apply step_bind_Ok in Hs as (p4 & e & He & Hs). unfold lift in He. injection He as <- He.
    unfold Entry.stored in He. destruct (_ <? _) eqn:Em; [done|]. injection He as <-. injection Hs as <- <-. bprop.
    exists [source_chunk c], [r]. refine (conj Ha3 (conj Hfit3 (conj _ (conj _ eq_refl)))); [unfold same_spool in *; intuition congruence|].
    apply Forall_app in Hrefs as [_ Hr]. apply Forall_cons in Hr as [[Hh Hoff Hsl] _].
    split; [split; cbn; try done; lia|]. cbn. change (STATE_STORED =? STATE_STORED) with true. cbn [ChunkStates.of_entry].
    apply (described_new _ _ _ _ _ (length stored) r); [done|by rewrite lookup_app_r, Nat.sub_diag by done|].
    rewrite !length_app in Hlen. cbn in Hlen.
    rewrite lookup_app_r by lia. replace (length stored - length refs)%nat with 0%nat by lia. done.
  - destruct e; try done. destruct (jb_on_bad_sector j) eqn:Ep; [done|]. injection Hs as <- <-. exists [], [].
    rewrite !app_nil_r. refine (conj Ha (conj Hfit (conj Hs1 (conj _ eq_refl)))). split; [|split; [done|by constructor]].
    by split; cbn.
Qed.

(** *** The spool *)
Definition same_image (p p' : Pass) : Prop :=
  pa_writer p' = pa_writer p /\ pa_nonces p' = pa_nonces p /\ pa_plan p' = pa_plan p /\ pa_next p' = pa_next p.

Lemma same_image_trans p1 p2 p3 : same_image p1 p2 -> same_image p2 p3 -> same_image p1 p3.
Proof. unfold same_image. intuition congruence. Qed.

Lemma same_image_appended stored refs p p' : same_image p p' -> appended stored refs p -> appended stored refs p'.
Proof. unfold appended. intros (-> & -> & _). done. Qed.

Lemma spooled_Ok f b p p' u : emits f b -> Passes.spooled f p = (p', Ok u) ->
  pa_spool p' = pa_spool p ++ b /\ same_image p p' /\ pa_counts p' = pa_counts p.
Proof. unfold Passes.spooled. intros -> ; [|done]. cbn. intros [= <-]. by split. Qed.

Lemma put_entry_Ok e p p' u : Entry.ok e -> Passes.put_entry e p = (p', Ok u) ->
  pa_spool p' = pa_spool p ++ Entry.enc e /\ same_image p p' /\ pa_counts p' = pa_counts p.
Proof. intros He. apply spooled_Ok. by apply Entry.entry_write_emits. Qed.

Lemma unused_ok : Entry.ok Entry.unused.
Proof. by split; cbn. Qed.

Lemma zero_ok : Entry.ok Entry.zero.
Proof. by split; cbn. Qed.

Lemma fill_nat n : forall p p' u, nat_step_iterM n (fun _ => Passes.put_entry Entry.unused) tt p = (p', Ok u) ->
  pa_spool p' = pa_spool p ++ concat (map Entry.enc (replicate n Entry.unused)) /\ same_image p p' /\
  pa_counts p' = pa_counts p.
Proof.
  induction n as [|n IH]; intros p p' u; cbn [nat_step_iterM].
  - intros [= <- _]. by rewrite app_nil_r.
  - intros Hf. apply step_bind_Ok in Hf as (p1 & [] & Hput & Hf). apply (put_entry_Ok _ _ _ _ unused_ok) in Hput as (Hs1 & Hi1 & Hc1).
    apply IH in Hf as (Hs & Hi & Hc). split_and!; [|by eapply same_image_trans|congruence].
    rewrite Hs, Hs1, <- app_assoc. done.
Qed.

Lemma fill_unused_Ok next limit p p' u : next <= limit -> Passes.fill_unused next limit p = (p', Ok u) ->
  pa_spool p' = pa_spool p ++ concat (map Entry.enc (replicate (Z.to_nat (limit - next)) Entry.unused)) /\
  same_image p p' /\ pa_counts p' = pa_counts p.
Proof.
  intros Hle. unfold Passes.fill_unused. rewrite <- (Z2Nat.id (limit - next)) at 1 by lia.
  rewrite step_iterM_nat. apply fill_nat.
Qed.

(** ** Describing the source *)

(** Each state of a manifest either describes the chunk the plan reads there, or
    stands for a chunk the source has no data in. *)
Definition describes (member : Z) (chunks : list ChunkPlan) (parents states : list ChunkState)
    (stored : list bytes) (refs : list ChunkRef) : Prop :=
  forall i s, states !! i = Some s -> exists parent, parents !! i = Some parent /\
    ((exists c, In c chunks /\ cp_index c = Z.of_nat i /\ described member stored refs c parent s) \/
     ((forall c, In c chunks -> cp_index c <> Z.of_nat i) /\ s = Unused)).

Lemma describes_more member chunks more parents states stored refs mstored mrefs :
  (forall c, In c more -> Z.of_nat (length states) <= cp_index c) ->
  describes member chunks parents states stored refs ->
  describes member (chunks ++ more) parents states (stored ++ mstored) (refs ++ mrefs).
Proof.
  intros Hm Hd i s Hi. destruct (Hd i s Hi) as (parent & Hp & Hcase). exists parent. split; [done|].
  pose proof (lookup_lt_Some _ _ _ Hi). destruct Hcase as [(c & Hin & Hc & Hs)|[Hn ->]].
  - left. exists c. split_and!; [apply in_or_app; by left|done|by apply described_app].
  - right. split; [|done]. intros c [Hin|Hin]%in_app_or; [by apply Hn|]. specialize (Hm c Hin). lia.
Qed.

Lemma describes_snoc member chunks parents states stored refs s parent :
  describes member chunks parents states stored refs -> parents !! length states = Some parent ->
  ((exists c, In c chunks /\ cp_index c = Z.of_nat (length states) /\ described member stored refs c parent s) \/
   ((forall c, In c chunks -> cp_index c <> Z.of_nat (length states)) /\ s = Unused)) ->
  describes member chunks parents (states ++ [s]) stored refs.
Proof.
  intros Hd Hp Hs i s' Hi. apply lookup_app_Some in Hi as [Hi|[Hle Hi]]; [by apply Hd|].
  apply list_lookup_singleton_Some in Hi as [Hi ->]. replace i with (length states) by lia. by exists parent.
Qed.

Lemma describes_unused member chunks parents states stored refs n :
  describes member chunks parents states stored refs ->
  (forall i, (i < n)%nat -> is_Some (parents !! (length states + i)%nat)) ->
  (forall c, In c chunks -> cp_index c < Z.of_nat (length states) \/ Z.of_nat (length states + n) <= cp_index c) ->
  describes member chunks parents (states ++ replicate n Unused) stored refs.
Proof.
  intros Hd Hp Hc i s Hi. apply lookup_app_Some in Hi as [Hi|[Hle Hi]]; [by apply Hd|].
  apply lookup_replicate in Hi as [-> Hlt]. destruct (Hp (i - length states)%nat Hlt) as [parent Hpar].
  replace (length states + (i - length states))%nat with i in Hpar by lia. exists parent. split; [done|].
  right. split; [|done]. intros c Hin. specialize (Hc c Hin). lia.
Qed.

(** ** The pass of a full member *)
Record full_inv (n : nat) (header : bytes) (seen : list ChunkPlan) (es : list BlockEntry) (stored : list bytes)
    (refs : list ChunkRef) (p : Pass) : Prop := {
  fi_spool : pa_spool p = header ++ concat (map Entry.enc es);
  fi_ok : Forall Entry.ok es;
  fi_appended : appended stored refs p;
  fi_fit : payloads_fit stored;
  fi_describes : describes 0 seen (replicate n Unused) (map ChunkStates.of_entry es) stored refs;
  fi_seen : Forall (fun c => cp_index c < zlen es) seen;
  fi_stored : ct_stored (pa_counts p) = zlen stored;
  fi_few : zlen stored <= zlen seen;
}.

Definition is_new (s : SourceState) : Z := match s with SourceStored _ => 1 | _ => 0 end.

(** The entry a chunk of a full member gets. *)
Lemma full_entry_Ok stored refs c s p p' e :
  state_for 0 stored refs c Unused s -> 0 <= ct_stored (pa_counts p) < 2 ^ 63 -> Passes.full_entry s p = (p', Ok e) ->
  Entry.ok e /\ described 0 stored refs c Unused (ChunkStates.of_entry e) /\
  same_image p p' /\ pa_spool p' = pa_spool p /\
  ct_stored (pa_counts p') = ct_stored (pa_counts p) + is_new s.
Proof.
  intros Hs Hc. destruct s as [|e'| |e'|]; cbn [Passes.full_entry state_for is_new] in *.
  - by destruct Hs as (_ & Hs & _).
  - destruct Hs as [He Hd]. unfold step_bind, Passes.count, modify, step_ret. intros [= <- <-].
    split_and!; try done. cbn. unfold wrap64. apply Z.mod_small. lia.
  - unfold step_bind, Passes.count, modify, step_ret. intros [= <- <-].
    split_and!; try done. cbn. unfold wrap64. rewrite Z.add_0_r. apply Z.mod_small. lia.
  - destruct Hs as (He & Hb & Hd). unfold step_bind, Passes.count, modify, step_ret. intros [= <- <-].
    split_and!; try done; [by rewrite Hb|]. cbn. unfold wrap64. rewrite Z.add_0_r. apply Z.mod_small. lia.
  - done.
Qed.

Lemma map_unused k : map ChunkStates.of_entry (replicate k Entry.unused) = replicate k Unused.
Proof. induction k as [|k IH]; [done|]. cbn. by f_equal. Qed.

Lemma full_fill n header seen es stored refs p limit p' u :
  full_inv n header seen es stored refs p -> zlen es <= limit <= Z.of_nat n ->
  Passes.fill_unused (zlen es) limit p = (p', Ok u) ->
  full_inv n header seen (es ++ replicate (Z.to_nat (limit - zlen es)) Entry.unused) stored refs p' /\
  zlen (es ++ replicate (Z.to_nat (limit - zlen es)) Entry.unused) = limit /\ pa_plan p' = pa_plan p.
Proof.
  intros [Hsp Hok Ha Hf Hd Hs Hst Hfew] Hl Hfill.
  apply fill_unused_Ok in Hfill as (Hsp' & Hi & Hc); [|lia]. set (k := Z.to_nat (limit - zlen es)) in *.
  assert (zlen (es ++ replicate k Entry.unused) = limit) as Hlen.
  { rewrite zlen_app. change (replicate k Entry.unused) with (zrep (limit - zlen es) Entry.unused).
    rewrite zlen_zrep. lia. }
  split; [|split; [done|apply Hi]]. split.
  - by rewrite Hsp', Hsp, map_app, concat_app, app_assoc.
  - apply Forall_app. split; [done|]. apply Forall_replicate. apply unused_ok.
  - by eapply same_image_appended.
  - done.
  - rewrite map_app, map_unused. apply describes_unused; [done| |].
    + intros i Hi'. rewrite length_map. apply lookup_lt_is_Some_2. rewrite length_replicate. unfold k, zlen in *. lia.
    + intros c Hin. left. rewrite length_map. apply (proj1 (List.Forall_forall _ _) Hs c Hin).
  - rewrite Hlen. eapply Forall_impl; [exact Hs|]. cbn. lia.
  - by rewrite Hc.
  - done.
Qed.

Lemma full_chunk_Ok n header seen es stored refs p c p' u :
  full_inv n header seen es stored refs p -> chunk_ok c -> zlen es <= cp_index c < Z.of_nat n -> zlen seen < 2 ^ 62 ->
  Passes.full_chunk j (zlen es) c p = (p', Ok u) ->
  exists es' stored' refs', full_inv n header (seen ++ [c]) es' stored' refs' p' /\ zlen es' = cp_index c + 1 /\
    pa_plan p' = pa_plan p.
Proof.
  intros Hinv Hc Hidx Hseen. unfold Passes.full_chunk. intros Hch.
  apply step_bind_Ok in Hch as (p1 & [] & Hfill & Hch).
  apply (full_fill _ _ _ _ _ _ _ _ _ _ Hinv) in Hfill as (Hinv1 & Hlen1 & Hplan1); [|lia].
  set (es1 := es ++ _) in *. destruct Hinv1 as [Hsp Hok Ha Hf Hd Hs Hst Hfew].
  apply step_bind_Ok in Hch as (p2 & s & Hstore & Hch).
  apply (store_chunk_Ok 0 c Unused _ _ _ _ _ ltac:(lia) Hc Hf Ha) in Hstore
    as (more & rmore & Ha2 & Hf2 & (Hpl2 & _ & Hsp2 & Hct2) & Hfor & Hnew).
  apply step_bind_Ok in Hch as (p3 & e & He & Hch). pose proof (zlen_nonneg stored).
  apply (full_entry_Ok _ _ _ _ _ _ _ Hfor) in He as (Heok & Hed & Hi3 & Hsp3 & Hct3); [|rewrite Hct2; lia].
  apply step_bind_Ok in Hch as (p4 & [] & Hput & Hch). apply (put_entry_Ok _ _ _ _ Heok) in Hput as (Hsp4 & Hi4 & Hct4).
  unfold Passes.count, modify in Hch. injection Hch as <- _.
  exists (es1 ++ [e]), (stored ++ more), (refs ++ rmore). split; [|split].
  - split; cbn [pa_spool pa_counts].
    + by rewrite Hsp4, Hsp3, Hsp2, Hsp, map_app, concat_app, <- app_assoc; cbn; rewrite app_nil_r.
    + apply Forall_app. split; [done|by constructor].
    + assert (appended (stored ++ more) (refs ++ rmore) p4) as Ha4 by (eapply same_image_appended, Ha2; by eapply same_image_trans).
      exact Ha4.
    + done.
    + rewrite map_app. cbn [map]. apply (describes_snoc _ _ _ _ _ _ _ Unused).
      * apply describes_more; [|done]. intros c' [<-|[]]. rewrite length_map. unfold zlen in *. lia.
      * rewrite length_map. apply lookup_replicate_2. unfold zlen in *. lia.
      * left. exists c. split; [apply in_or_app; right; by left|]. rewrite length_map. split; [unfold zlen in *; lia|done].
    + rewrite zlen_app. apply Forall_app. split; [eapply Forall_impl; [exact Hs|]; cbn; len|].
      constructor; [|constructor]. change (zlen [e]) with 1. lia.
    + cbn. unfold wrap64. rewrite Hct4, Hct3, Hct2, Hst, zlen_app, Hnew, Z.add_0_r. apply Z.mod_small.
      unfold is_new. destruct s; lia.
    + rewrite !zlen_app. change (zlen [c]) with 1. destruct s; lia.
  - rewrite zlen_app. change (zlen [e]) with 1. lia.
  - cbn. destruct Hi3 as (_ & _ & Hp3 & _), Hi4 as (_ & _ & Hp4 & _). congruence.
Qed.

Lemma inside_Ok {T A} (m : step T A) run rep t st' a : Progress.inside m (run, rep, t) = (st', Ok a) ->
  exists t', m t = (t', Ok a) /\ st' = (run, rep, t').
Proof. unfold Progress.inside. destruct (m t) as [t' r]. intros [= <- ->]. by exists t'. Qed.

Lemma report_tracked_Ok {T} (done : Z) (st st' : Progress.tracked T) u : Progress.report_tracked done st = (st', Ok u) ->
  snd st' = snd st.
Proof.
  intros Hr. pose proof (Progress.report_tracked_cases done st) as Hc. rewrite Hr in Hc. by destruct st' as [[? ?] ?].
Qed.

Context (chunk_size device_size : Z) (chunk_pos : 0 < chunk_size) (room : device_size + chunk_size <= 2 ^ 64)
  (chunk_u32 : chunk_size <= U32_MAX).
#[local] Abbreviation remaining := (RangeSpec.remaining chunk_size device_size).
#[local] Abbreviation plan_state := (RangeSpec.plan_state chunk_size device_size).

(** [next = plan.next_chunk()]. *)
Lemma advance_spec p : plan_state (pa_plan p) ->
  exists p', Passes.advance p = (p', Ok tt) /\
    pa_writer p' = pa_writer p /\ pa_nonces p' = pa_nonces p /\ pa_spool p' = pa_spool p /\ pa_counts p' = pa_counts p /\
    match remaining (pa_plan p) with
    | [] => pa_next p' = None
    | c :: rest => pa_next p' = Some c /\ remaining (pa_plan p') = rest /\ plan_state (pa_plan p')
    end.
Proof.
  intros Hp. pose proof (RangeSpec.next_chunk_spec chunk_size device_size chunk_pos room chunk_u32 (pa_plan p) Hp) as Hn.
  unfold Passes.advance, modify. destruct (RangeSpec.remaining _ _ _) as [|c rest].
  - destruct (Used.next_chunk (pa_plan p)) as [next plan] eqn:E. cbn in Hn. subst next.
    eexists. split; [reflexivity|]. by split_and!.
  - destruct Hn as (u & -> & Hu & Hr). eexists. split; [reflexivity|]. by split_and!.
Qed.

(** A plan that is still to be read, from chunk [next] of [n] on. *)
Record todo_ok (n : nat) (next : Z) (todo : list ChunkPlan) : Prop := {
  td_chunks : Forall (fun c => chunk_ok c /\ next <= cp_index c < Z.of_nat n) todo;
  td_sorted : StronglySorted Z.lt (map cp_index todo);
}.

Lemma todo_cons n next c todo : todo_ok n next (c :: todo) ->
  chunk_ok c /\ next <= cp_index c < Z.of_nat n /\ todo_ok n (cp_index c + 1) todo.
Proof.
  intros [Hc Hs]. apply Forall_cons in Hc as [[Hok Hi] Hc]. cbn in Hs. apply StronglySorted_inv in Hs as [Hs Hlt].
  split; [done|]. split; [done|]. split; [|done]. apply List.Forall_forall. intros c' Hin.
  destruct (proj1 (List.Forall_forall _ _) Hc c' Hin) as [? ?]. split; [done|]. split; [|lia].
  assert (cp_index c < cp_index c'); [|lia]. apply (proj1 (List.Forall_forall _ _) Hlt), (in_map cp_index), Hin.
Qed.

(** With enough fuel, more changes nothing: the loop ends with the plan. *)
Lemma full_loop_fuel f1 : forall f2 next run rep p, plan_state (pa_plan p) ->
  (length (remaining (pa_plan p)) < f1)%nat -> (length (remaining (pa_plan p)) < f2)%nat ->
  (forall next c q q' u, Passes.full_chunk j next c q = (q', Ok u) -> pa_plan q' = pa_plan q) ->
  Passes.full_loop f1 j next (run, rep, p) = Passes.full_loop f2 j next (run, rep, p).
Proof.
  induction f1 as [|f1 IH]; intros [|f2] next run rep p Hp Hf1 Hf2 Hkeep; [lia..|]. cbn [Passes.full_loop].
  destruct (advance_spec p Hp) as (p1 & Ha & _ & _ & _ & _ & Hn).
  unfold step_bind, Progress.inside, reads. rewrite Ha. cbn. destruct (remaining (pa_plan p)) as [|c rest]; [by rewrite Hn|].
  destruct Hn as (-> & Hr & Hp1). pose proof (Progress.report_tracked_cases (cp_offset c) (run, rep, p1)) as Hrep.
  destruct (Progress.report_tracked _ _) as [[[run1 rep1] p2] [[]|e]]; [|done]. cbn in Hrep. subst p2.
  destruct (Passes.full_chunk j next c p1) as [p3 [[]|e]] eqn:E; [|done]. apply Hkeep in E.
  cbn [length] in *. apply IH; rewrite ?E, ?Hr; [done|lia..|done].
Qed.

Lemma full_loop_Ok fuel : forall n header seen es stored refs todo run rep p st' next',
  full_inv n header seen es stored refs p -> plan_state (pa_plan p) -> remaining (pa_plan p) = todo ->
  todo_ok n (zlen es) todo -> zlen es <= Z.of_nat n -> zlen seen + zlen todo < 2 ^ 62 ->
  Passes.full_loop fuel j (zlen es) (run, rep, p) = (st', Ok next') ->
  exists es' stored' refs', full_inv n header (seen ++ todo) es' stored' refs' (snd st') /\
    next' = zlen es' /\ zlen es' <= Z.of_nat n.
Proof.
  induction fuel as [|fuel IH]; intros n header seen es stored refs todo run rep p st' next' Hinv Hp Hrem Htodo Hes Hfew;
    cbn [Passes.full_loop]; [done|]. intros Hl.
  destruct (advance_spec p Hp) as (p1 & Hadv & Hw1 & Hns1 & Hsp1 & Hct1 & Hn). rewrite Hrem in Hn.
  apply step_bind_Ok in Hl as (st1 & [] & (p1' & Ha & ->)%inside_Ok & Hl). rewrite Hadv in Ha. injection Ha as <-.
  assert (full_inv n header seen es stored refs p1) as Hinv1.
  { destruct Hinv. split; rewrite ?Hsp1, ?Hct1; try done. unfold appended in *. by rewrite Hw1, Hns1. }
  apply step_bind_Ok in Hl as (st2 & next & (p2 & Hr & ->)%inside_Ok & Hl). injection Hr as <- <-.
  destruct todo as [|c todo].
  - rewrite Hn in Hl. injection Hl as <- <-. exists es, stored, refs. rewrite app_nil_r. by split_and!.
  - destruct Hn as (Hnx & Hrem1 & Hp1). rewrite Hnx in Hl. apply todo_cons in Htodo as (Hc & Hi & Htodo).
    apply step_bind_Ok in Hl as ([[run3 rep3] p3] & [] & Hrep & Hl). apply report_tracked_Ok in Hrep. cbn in Hrep. subst p3.
    apply step_bind_Ok in Hl as (st4 & [] & (p4 & Hch & ->)%inside_Ok & Hl). rewrite zlen_cons in Hfew.
    pose proof (zlen_nonneg todo).
    apply (full_chunk_Ok _ _ _ _ _ _ _ _ _ _ Hinv1 Hc) in Hch as (es4 & stored4 & refs4 & Hinv4 & Hlen4 & Hpl4); [|lia..].
    rewrite <- Hlen4 in Hl. rewrite <- Hlen4 in Htodo.
    eapply IH in Hl as (es' & stored' & refs' & Hinv' & Hn' & Hle); [|done|by rewrite Hpl4|by rewrite Hpl4|done|lia|].
    + rewrite <- app_assoc in Hinv'. by exists es', stored', refs'.
    + rewrite zlen_app. change (zlen [c]) with 1. lia.
Qed.

(** Steps of the pass that leave the plan alone. *)
Definition keeps_plan {A} (m : step Pass A) : Prop := forall p, pa_plan (fst (m p)) = pa_plan p.

Lemma keeps_plan_bind {A B} (m : step Pass A) (k : A -> step Pass B) :
  keeps_plan m -> (forall a, keeps_plan (k a)) -> keeps_plan (step_bind m k).
Proof.
  intros Hm Hk p. unfold step_bind. specialize (Hm p). destruct (m p) as [p1 [a|e]]; [|done].
  cbn in Hm. by rewrite Hk.
Qed.

Lemma keeps_plan_spooled f : keeps_plan (Passes.spooled f).
Proof. intros p. unfold Passes.spooled. by destruct (f (pa_spool p)). Qed.

Lemma keeps_plan_fill next limit : keeps_plan (Passes.fill_unused next limit).
Proof.
  unfold Passes.fill_unused. destruct (Z.le_ge_cases 0 (limit - next)) as [Hl|Hl].
  - rewrite <- (Z2Nat.id _ Hl). intros p. rewrite step_iterM_nat. revert p. generalize (Z.to_nat (limit - next)).
    induction n as [|n IH]; [done|]. apply (keeps_plan_bind (Passes.put_entry _)); [apply keeps_plan_spooled|by intros []].
  - destruct (limit - next); [done|lia|done].
Qed.

Lemma keeps_plan_store member c parent : keeps_plan (Passes.store_chunk j member c parent).
Proof.
  unfold Passes.store_chunk. apply keeps_plan_bind; [done|]. intros [].
  destruct (Devices.read_chunk _ _ _) as [q|[]]; try done; [|by destruct (jb_on_bad_sector j)].
  apply keeps_plan_bind; [done|]. intros []. destruct (is_all_zero q); [done|]. destruct (Passes.inherits _ _); [done|].
  apply keeps_plan_bind; [|intros r; by apply keeps_plan_bind].
  intros p. unfold Passes.append_chunk. by destruct (Writer.append_chunk _ _ _ _ _ _) as [[[? ?] ?]|].
Qed.

Lemma keeps_plan_full next c : keeps_plan (Passes.full_chunk j next c).
Proof.
  unfold Passes.full_chunk. apply keeps_plan_bind; [apply keeps_plan_fill|]. intros _.
  apply keeps_plan_bind; [apply keeps_plan_store|]. intros s.
  apply keeps_plan_bind; [destruct s; by try apply keeps_plan_bind|]. intros e.
  apply keeps_plan_bind; [apply keeps_plan_spooled|done].
Qed.

(** The fuel of [write_full_entries] is enough: the plan has at most one chunk
    per index. *)
Lemma sorted_length n (todo : list ChunkPlan) : forall next, todo_ok n next todo ->
  Z.of_nat (length todo) <= Z.max 0 (Z.of_nat n - next).
Proof.
  induction todo as [|c todo IH]; intros next Ht; [cbn; lia|]. apply todo_cons in Ht as (_ & Hi & Ht).
  specialize (IH _ Ht). cbn [length]. lia.
Qed.

Lemma full_loop_enough n run rep p more : plan_state (pa_plan p) -> todo_ok n 0 (remaining (pa_plan p)) ->
  Passes.full_loop (S n + more) j 0 (run, rep, p) = Passes.full_loop (S n) j 0 (run, rep, p).
Proof.
  intros Hp Ht. apply sorted_length in Ht. apply full_loop_fuel; [done|lia|lia|].
  intros next c q q' u Hq. pose proof (keeps_plan_full next c q) as Hk. by rewrite Hq in Hk.
Qed.

(** The pass of a full member describes the source. *)
Lemma write_full_entries_Ok n header run rep p st' u :
  full_inv n header [] [] [] [] p -> plan_state (pa_plan p) -> todo_ok n 0 (remaining (pa_plan p)) ->
  Z.of_nat n < 2 ^ 62 -> Passes.write_full_entries j (Z.of_nat n) (run, rep, p) = (st', Ok u) ->
  exists es stored refs, full_inv n header (remaining (pa_plan p)) es stored refs (snd st') /\ length es = n.
Proof.
  intros Hinv Hp Ht Hn. unfold Passes.write_full_entries. intros Hw.
  apply step_bind_Ok in Hw as ([[run1 rep1] p1] & next & Hl & Hw). apply inside_Ok in Hw as (p2 & Hw & ->).
  pose proof (sorted_length _ _ _ Ht) as Hlen.
  apply (full_loop_Ok _ n header [] [] [] [] _ _ _ _ _ _ Hinv Hp eq_refl Ht) in Hl
    as (es & stored & refs & Hinv1 & -> & Hle); [|rewrite zlen_nil; lia|rewrite zlen_nil; unfold zlen; lia].
  cbn [app snd] in *. apply (full_fill _ _ _ _ _ _ _ _ _ _ Hinv1) in Hw as (Hinv2 & Hlen2 & _); [|lia].
  eexists _, stored, refs. split; [exact Hinv2|]. unfold zlen in *. lia.
Qed.

(** ** The pass of an incremental or differential member *)

Lemma entry_of_ok s : recordable s -> s <> BadSector ->
  Entry.ok (Passes.entry_of s) /\ ChunkStates.of_entry (Passes.entry_of s) = s.
Proof.
  intros (e & [? ? ? ? ?] & <-) Hb. unfold ChunkStates.of_entry in *.
  destruct (be_state e =? STATE_STORED) eqn:E1; [|destruct (be_state e =? STATE_ZERO); [by split|destruct (be_state e =? STATE_BAD_SECTOR); [done|by split]]].
  cbn [Passes.entry_of]. unfold Entry.stored. rewrite (proj2 (Z.ltb_ge _ _)) by lia. split; [|done].
  by split; cbn.
Qed.

(** The manifest after the first chunks, whose states it makes of the parent's. *)
Definition manifest_states (parents : list ChunkState) (mm : MemberManifest) (states : list ChunkState) : Prop :=
  match mm with
  | MFull es => Forall Entry.ok es /\ map ChunkStates.of_entry es = states
  | MDelta ds => Forall Delta.ok ds /\ increasing ds /\
      Forall (fun d => 0 <= de_chunk_no d < zlen states) ds /\
      forall k parent, (k < length states)%nat -> parents !! k = Some parent ->
        states !! k = Some (ChunkStates.merged ds k parent)
  end.

Definition changes (mm : MemberManifest) : Z := match mm with MFull _ => 0 | MDelta ds => zlen ds end.

Lemma increasing_snoc ds d : increasing ds -> Forall (fun d' => de_chunk_no d' < de_chunk_no d) ds -> increasing (ds ++ [d]).
Proof.
  induction ds as [|x ds IH]; [done|]. intros [Hx Hds] Hall. apply Forall_cons in Hall as [Hxd Hall]. cbn [app increasing].
  split; [|by apply IH]. apply Forall_app. split; [done|]. by constructor.
Qed.

Definition add_same (parent : ChunkState) (mm : MemberManifest) : MemberManifest :=
  match mm with MFull es => MFull (es ++ [Passes.entry_of parent]) | MDelta ds => MDelta ds end.

Definition add_change (index : Z) (e : BlockEntry) (mm : MemberManifest) : MemberManifest :=
  match mm with
  | MFull es => MFull (es ++ [e])
  | MDelta ds => MDelta (ds ++ [{| de_chunk_no := index; de_entry := e |}])
  end.

Lemma add_same_states parents mm states parent :
  manifest_states parents mm states -> parents !! length states = Some parent -> recordable parent -> parent <> BadSector ->
  manifest_states parents (add_same parent mm) (states ++ [parent]).
Proof.
  intros Hmm Hp Hok Hb. destruct mm as [es|ds]; cbn [manifest_states add_same] in *.
  - destruct Hmm as [He <-]. destruct (entry_of_ok _ Hok Hb) as [Ho Hs]. split.
    + apply Forall_app. split; [done|by constructor].
    + rewrite map_app. cbn. by rewrite Hs.
  - destruct Hmm as (Hds & Hinc & Hlt & Hm). split; [done|]. split; [done|]. split.
    + eapply Forall_impl; [exact Hlt|]. cbn. rewrite zlen_app. change (zlen [parent]) with 1. lia.
    + intros k parent' Hk Hp'. rewrite length_app in Hk. cbn in Hk. destruct (decide (k < length states)%nat).
      * rewrite lookup_app_l by done. by apply Hm.
      * assert (k = length states) as -> by lia. rewrite lookup_app_r, Nat.sub_diag by done. cbn.
        assert (parent' = parent) as -> by congruence. rewrite merged_other; [done|].
        eapply Forall_impl; [exact Hlt|]. cbn. unfold zlen. lia.
Qed.

Lemma add_change_states parents mm states e :
  manifest_states parents mm states -> Entry.ok e -> zlen states < 2 ^ 64 ->
  manifest_states parents (add_change (zlen states) e mm) (states ++ [ChunkStates.of_entry e]).
Proof.
  intros Hmm Hok Hlen. pose proof (zlen_nonneg states). destruct mm as [es|ds]; cbn [manifest_states add_change] in *.
  - destruct Hmm as [He <-]. split; [|by rewrite map_app]. apply Forall_app. split; [done|by constructor].
  - destruct Hmm as (Hds & Hinc & Hlt & Hm). split; [|split; [|split]].
    + apply Forall_app. split; [done|]. constructor; [|constructor]. split; [|done]. unfold u64_ok. cbn. lia.
    + apply increasing_snoc; [done|]. eapply Forall_impl; [exact Hlt|]. cbn. lia.
    + rewrite zlen_app. change (zlen [_]) with 1. apply Forall_app. split; [eapply Forall_impl; [exact Hlt|]; cbn; lia|].
      constructor; [cbn; lia|constructor].
    + intros k parent Hk Hp. rewrite length_app in Hk. cbn in Hk. unfold ChunkStates.merged. rewrite foldl_app. cbn [foldl de_chunk_no de_entry].
      fold (ChunkStates.merged ds k parent). destruct (decide (k < length states)%nat).
      * rewrite lookup_app_l by done. rewrite decide_False by (unfold zlen; lia). by apply Hm.
      * assert (k = length states) as -> by lia. rewrite lookup_app_r, Nat.sub_diag by done. cbn.
        by rewrite decide_True by (unfold zlen; lia).
Qed.

(** What is left of the plan, with the chunk fetched ahead. *)
Definition ahead (p : Pass) (todo : list ChunkPlan) : Prop :=
  match pa_next p with
  | Some c => todo = c :: remaining (pa_plan p) /\ plan_state (pa_plan p)
  | None => todo = []
  end.

Record diff_inv (n : nat) (header : bytes) (parents : list ChunkState) (seen todo : list ChunkPlan)
    (mm : MemberManifest) (states : list ChunkState) (stored : list bytes) (refs : list ChunkRef) (p : Pass) : Prop := {
  di_spool : pa_spool p = header ++ manifest_enc mm;
  di_manifest : manifest_states parents mm states;
  di_appended : appended stored refs p;
  di_fit : payloads_fit stored;
  di_describes : describes (jb_member j) seen parents states stored refs;
  di_seen : Forall (fun c => cp_index c < zlen states) seen;
  di_ahead : ahead p todo;
  di_todo : todo_ok n (zlen states) todo;
  di_stored : ct_stored (pa_counts p) = zlen stored;
  di_few : zlen stored <= zlen states;
  di_range : u64_ok (ct_changed (pa_counts p));
  di_changed : is_delta mm = true -> ct_changed (pa_counts p) = changes mm;
  di_changes : changes mm <= zlen states;
}.

Lemma todo_later n next todo : todo_ok n next todo -> (forall c, In c todo -> cp_index c <> next) -> todo_ok n (next + 1) todo.
Proof.
  intros [Hc Hs] Hne. split; [|done]. apply List.Forall_forall. intros c Hin.
  destruct (proj1 (List.Forall_forall _ _) Hc c Hin). specialize (Hne c Hin). split; [done|lia].
Qed.

(** What the look at one index finds: the chunks seen and still to come, what was
    stored on the way, and the state of the source there. *)
Definition source_found (n : nat) (parents : list ChunkState) (seen todo : list ChunkPlan) (states : list ChunkState)
    (stored : list bytes) (refs : list ChunkRef) (p p' : Pass) (parent : ChunkState) (s : SourceState) : Prop :=
  exists seen' todo' more rmore,
    appended (stored ++ more) (refs ++ rmore) p' /\ payloads_fit (stored ++ more) /\
    ahead p' todo' /\ todo_ok n (zlen states + 1) todo' /\ seen' ++ todo' = seen ++ todo /\
    pa_spool p' = pa_spool p /\ pa_counts p' = pa_counts p /\ zlen more = is_new s /\
    Forall (fun c => cp_index c <= zlen states) seen' /\
    describes (jb_member j) seen' parents states (stored ++ more) (refs ++ rmore) /\
    match s with
    | SourceMissing => (forall c, In c seen' -> cp_index c <> zlen states)
    | SourceUnchanged => (parent = Unused /\ (forall c, In c seen' -> cp_index c <> zlen states)) \/
        (exists c, In c seen' /\ cp_index c = zlen states /\ state_for (jb_member j) (stored ++ more) (refs ++ rmore) c parent s)
    | _ => exists c, In c seen' /\ cp_index c = zlen states /\ state_for (jb_member j) (stored ++ more) (refs ++ rmore) c parent s
    end.

(** What the source holds at the next index. *)
Lemma source_state_Ok n header parents seen todo mm states stored refs p p' parent s :
  0 <= jb_member j -> diff_inv n header parents seen todo mm states stored refs p ->
  parents !! length states = Some parent -> Passes.source_state j (zlen states) parent p = (p', Ok s) ->
  source_found n parents seen todo states stored refs p p' parent s.
Proof.
  intros Hmem Hinv Hpar. unfold Passes.source_state. intros Hs.
  apply step_bind_Ok in Hs as (p1 & next & Hr & Hs). unfold reads in Hr. injection Hr as <- <-.
  destruct Hinv as [Hsp Hmm Ha Hf Hd Hseen Hah Htodo _ _ _ _ _].
  assert (forall q, ahead q todo -> q = p -> (forall c, In c todo -> cp_index c <> zlen states) ->
    (step_ret (if bool_decide (parent = Unused) then SourceUnchanged else SourceMissing) p : Pass * result SourceState) = (p', Ok s) ->
    source_found n parents seen todo states stored refs p p' parent s) as Hskip.
  { intros q _ _ Hne Hret. injection Hret as <- <-. exists seen, todo, [], []. rewrite !app_nil_r.
    assert (forall c, In c seen -> cp_index c <> zlen states) as Hns.
    { intros c Hin. pose proof (proj1 (List.Forall_forall _ _) Hseen c Hin) as Hlt. cbn in Hlt. lia. }
    refine (conj Ha (conj Hf (conj Hah (conj (todo_later _ _ _ Htodo Hne) (conj eq_refl (conj eq_refl (conj eq_refl _))))))).
    split; [by case_bool_decide|]. split; [eapply Forall_impl; [exact Hseen|]; cbn; lia|]. split; [done|].
    case_bool_decide; [by left|done]. }
  unfold ahead in Hah. destruct (pa_next p) as [c|] eqn:En.
  2: { subst todo. apply (Hskip p); [|done|by intros ? []|done]. unfold ahead. by rewrite En. }
  destruct Hah as [-> Hps]. destruct (Z.eqb_spec (cp_index c) (zlen states)) as [Hi|Hi].
  2: { apply (Hskip p); [|done| |done]; [unfold ahead; by rewrite En|].
       intros c' [<-|Hin]; [done|]. apply todo_cons in Htodo as (_ & Hlo & [Hc _]).
       destruct (proj1 (List.Forall_forall _ _) Hc c' Hin). lia. }
  apply step_bind_Ok in Hs as (p2 & [] & Hadv & Hs).
  destruct (advance_spec p Hps) as (q & Hq & Hw & Hns & Hsp2 & Hct & Hn). rewrite Hq in Hadv. injection Hadv as ->.
  apply todo_cons in Htodo as (Hc & Hlo & Htodo).
  assert (appended stored refs p2) as Ha2 by (unfold appended in *; by rewrite Hw, Hns).
  destruct (store_chunk_Ok _ _ _ _ _ _ _ _ Hmem Hc Hf Ha2 Hs) as (more & rmore & Ha3 & Hf3 & Hsame & Hfor & Hnew).
  destruct Hsame as (Hp3 & Hn3 & Hsp3 & Hct3).
  exists (seen ++ [c]), (remaining (pa_plan p)), more, rmore.
  refine (conj Ha3 (conj Hf3 (conj _ (conj _ (conj _ (conj _ (conj _ (conj Hnew (conj _ (conj _ _)))))))))).
  - unfold ahead. rewrite Hn3, Hp3. destruct (remaining (pa_plan p)) as [|c2 rest]; [by rewrite Hn|].
    destruct Hn as (-> & -> & Hst). by split.
  - by rewrite <- Hi.
  - by rewrite <- app_assoc.
  - by rewrite Hsp3.
  - by rewrite Hct3.
  - apply Forall_app. split; [eapply Forall_impl; [exact Hseen|]; cbn; lia|]. constructor; [lia|constructor].
  - apply describes_more; [|done]. intros c' [<-|[]]. unfold zlen in Hi. lia.
  - assert (In c (seen ++ [c])) as Hin by (apply in_or_app; right; by left).
    destruct s; [right| | | |done]; by exists c.
Qed.

(** *** One chunk of the walk over the parent *)
Lemma count_Ok a b c d e f p p' u : Passes.count a b c d e f p = (p', Ok u) ->
  same_image p p' /\ pa_spool p' = pa_spool p /\
  ct_stored (pa_counts p') = wrap64 (ct_stored (pa_counts p) + a) /\
  ct_changed (pa_counts p') = wrap64 (ct_changed (pa_counts p) + d).
Proof. unfold Passes.count, modify. by intros [= <- _]. Qed.

Lemma wrap64_small v : 0 <= v < 2 ^ 64 -> wrap64 v = v.
Proof. apply Z.mod_small. Qed.

Lemma put_change_Ok index e mm header p p' u :
  Entry.ok e -> u64_ok index -> pa_spool p = header ++ manifest_enc mm ->
  Passes.put_change (is_delta mm) index e p = (p', Ok u) ->
  pa_spool p' = header ++ manifest_enc (add_change index e mm) /\ same_image p p' /\
  ct_changed (pa_counts p') = wrap64 (ct_changed (pa_counts p) + 1) /\
  ct_stored (pa_counts p') = wrap64 (ct_stored (pa_counts p) + 0).
Proof.
  intros He Hi Hsp. unfold Passes.put_change. intros Hp.
  apply step_bind_Ok in Hp as (p1 & [] & (Him1 & Hsp1 & Hst1 & Hch1)%count_Ok & Hp).
  rewrite <- Hst1, <- Hch1. destruct mm as [es|ds]; cbn [is_delta add_change manifest_enc] in *.
  - apply (put_entry_Ok _ _ _ _ He) in Hp as (Hs & Him & ->). split; [|split; [by eapply same_image_trans|done]].
    by rewrite Hs, Hsp1, Hsp, map_app, concat_app, <- app_assoc; cbn; rewrite app_nil_r.
  - assert (Delta.ok {| de_chunk_no := index; de_entry := e |}) as Hd by by split.
    apply (spooled_Ok _ _ _ _ _ (Delta.delta_write_emits _ Hd)) in Hp as (Hs & Him & ->).
    split; [|split; [by eapply same_image_trans|done]].
    by rewrite Hs, Hsp1, Hsp, map_app, concat_app, <- app_assoc; cbn; rewrite app_nil_r.
Qed.

Lemma same_image_ahead p p' todo : same_image p p' -> ahead p todo -> ahead p' todo.
Proof. unfold ahead. intros (_ & _ & -> & ->). done. Qed.

(** The entry a state of the source is recorded with; none where the parent's
    state stays. *)
Definition recorded (s : SourceState) : option BlockEntry :=
  match s with
  | SourceUnchanged => None
  | SourceStored e | SourceBadSector e => Some e
  | SourceZero => Some Entry.zero
  | SourceMissing => Some Entry.unused
  end.

Lemma recorded_ok member stored refs c parent s e : state_for member stored refs c parent s \/ s = SourceMissing ->
  recorded s = Some e -> Entry.ok e.
Proof.
  intros Hs He. destruct s; cbn in He; simplify_eq; destruct Hs as [Hs|Hs]; try done; cbn in Hs; try by destruct Hs.
Qed.

Definition add_found (parent : ChunkState) (index : Z) (s : SourceState) (mm : MemberManifest) : MemberManifest :=
  match recorded s with Some e => add_change index e mm | None => add_same parent mm end.

Definition found (parent : ChunkState) (s : SourceState) : ChunkState :=
  match recorded s with Some e => ChunkStates.of_entry e | None => parent end.

Lemma diff_record_Ok index parent s mm header p p' u :
  (forall e, recorded s = Some e -> Entry.ok e) -> (recorded s = None -> Entry.ok (Passes.entry_of parent)) ->
  u64_ok index -> pa_spool p = header ++ manifest_enc mm ->
  match s with
  | SourceUnchanged =>
    do* _ := Passes.count 0 0 0 0 1 0 in
    if is_delta mm then step_ret tt else Passes.put_entry (Passes.entry_of parent)
  | SourceStored entry => do* _ := Passes.count 1 0 0 0 0 0 in Passes.put_change (is_delta mm) index entry
  | SourceZero => do* _ := Passes.count 0 1 0 0 0 0 in Passes.put_change (is_delta mm) index Entry.zero
  | SourceBadSector entry => do* _ := Passes.count 0 0 1 0 0 0 in Passes.put_change (is_delta mm) index entry
  | SourceMissing => Passes.put_change (is_delta mm) index Entry.unused
  end p = (p', Ok u) ->
  u64_ok (ct_stored (pa_counts p) + is_new s) -> 0 <= ct_changed (pa_counts p) < 2 ^ 64 ->
  u64_ok (ct_stored (pa_counts p)) ->
  pa_spool p' = header ++ manifest_enc (add_found parent index s mm) /\ same_image p p' /\
  ct_stored (pa_counts p') = ct_stored (pa_counts p) + is_new s /\
  ct_changed (pa_counts p') = wrap64 (ct_changed (pa_counts p) + match s with SourceUnchanged => 0 | _ => 1 end).
Proof.
  intros Hrec Hent Hi Hsp Hrun Hst Hch Hst0. unfold add_found, u64_ok in *.
  assert (forall a b c d e f p1 u1, Passes.count a b c d e f p = (p1, Ok u1) -> pa_spool p1 = header ++ manifest_enc mm) as Hcsp.
  { intros ? ? ? ? ? ? p1 u1 (_ & -> & _)%count_Ok. done. }
  destruct s; cbn [recorded is_new] in *.
  1: apply step_bind_Ok in Hrun as (p1 & [] & Hc & Hrun); pose proof (Hcsp _ _ _ _ _ _ _ _ Hc) as Hsp1;
     apply count_Ok in Hc as (Him1 & _ & Hst1 & Hch1); destruct mm as [es|ds]; cbn [is_delta add_same manifest_enc] in *;
     [apply (put_entry_Ok _ _ _ _ (Hent eq_refl)) in Hrun as (Hs & Him & ->)
     |injection Hrun as <-; rewrite Hst1, Hch1; rewrite !wrap64_small by lia; by rewrite !Z.add_0_r];
     rewrite Hst1, Hch1, (wrap64_small (ct_stored _ + _)) by lia;
     split; [|split; [by eapply same_image_trans|by rewrite Z.add_0_r]];
     by rewrite Hs, Hsp1, map_app, concat_app, <- app_assoc; cbn; rewrite app_nil_r.
  1-3: apply step_bind_Ok in Hrun as (p1 & [] & Hc & Hrun); pose proof (Hcsp _ _ _ _ _ _ _ _ Hc) as Hsp1;
     apply count_Ok in Hc as (Him1 & _ & Hst1 & Hch1);
     apply (put_change_Ok _ _ mm header) in Hrun as (Hs & Him & Hch2 & Hst2); [|by apply Hrec|done..];
     (split; [done|split; [by eapply same_image_trans|]]);
     split; [rewrite Hst2, Hst1, !wrap64_small by (rewrite ?wrap64_small; lia); lia
            |by rewrite Hch2, Hch1, (Z.add_0_r (ct_changed _)), (wrap64_small (ct_changed _)) by lia].
  apply (put_change_Ok _ _ mm header) in Hrun as (Hs & Him & Hch2 & Hst2); [|by apply Hrec|done..].
  split_and!; [done..| |done]. rewrite Hst2, wrap64_small; lia.
Qed.

Lemma is_delta_found parent index s mm : is_delta (add_found parent index s mm) = is_delta mm.
Proof. unfold add_found. destruct (recorded s), mm; done. Qed.

Lemma changes_found parent index s mm : is_delta mm = true ->
  changes (add_found parent index s mm) = changes mm + match s with SourceUnchanged => 0 | _ => 1 end.
Proof.
  destruct mm as [|ds]; [done|]. intros _. unfold add_found. destruct s; cbn [recorded add_same add_change changes];
    rewrite ?zlen_app; change (zlen [_]) with 1; lia.
Qed.

Lemma changes_grow parent index s mm : changes (add_found parent index s mm) <= changes mm + 1.
Proof.
  destruct (is_delta mm) eqn:E; [rewrite changes_found by done; destruct s; lia|].
  destruct mm; [|done]. unfold add_found. destruct (recorded s); cbn; lia.
Qed.

Lemma found_states parents parent s mm states :
  manifest_states parents mm states -> parents !! length states = Some parent -> recordable parent ->
  zlen states < 2 ^ 64 -> (recorded s = None -> parent <> BadSector) -> (forall e, recorded s = Some e -> Entry.ok e) ->
  manifest_states parents (add_found parent (zlen states) s mm) (states ++ [found parent s]).
Proof.
  intros Hm Hp Hok Hlen Hb He. unfold add_found, found. destruct (recorded s) as [e|].
  - apply add_change_states; [done|by apply He|done].
  - apply add_same_states; try done. by apply Hb.
Qed.

(** What was found at an index describes the chunk the plan has there. *)
Lemma found_describes n parents seen todo states stored refs p p' parent s :
  source_found n parents seen todo states stored refs p p' parent s -> parents !! length states = Some parent ->
  exists seen' todo' more rmore,
    appended (stored ++ more) (refs ++ rmore) p' /\ payloads_fit (stored ++ more) /\
    ahead p' todo' /\ todo_ok n (zlen states + 1) todo' /\ seen' ++ todo' = seen ++ todo /\
    pa_spool p' = pa_spool p /\ pa_counts p' = pa_counts p /\ zlen more = is_new s /\
    Forall (fun c => cp_index c <= zlen states) seen' /\
    describes (jb_member j) seen' parents (states ++ [found parent s]) (stored ++ more) (refs ++ rmore) /\
    (recorded s = None -> parent <> BadSector) /\ (forall e, recorded s = Some e -> Entry.ok e).
Proof.
  intros (seen' & todo' & more & rmore & Ha & Hf & Hah & Htd & Hst & Hsp & Hct & Hn & Hse & Hd & Hs) Hp.
  exists seen', todo', more, rmore. refine (conj Ha (conj Hf (conj Hah (conj Htd (conj Hst (conj Hsp (conj Hct (conj Hn (conj Hse _))))))))).
  assert (((exists c, In c seen' /\ cp_index c = Z.of_nat (length states) /\
             state_for (jb_member j) (stored ++ more) (refs ++ rmore) c parent s) \/
           ((forall c, In c seen' -> cp_index c <> Z.of_nat (length states)) /\
             (s = SourceMissing \/ (s = SourceUnchanged /\ parent = Unused)))) /\ True) as [Hcase _].
  { split; [|done]. unfold zlen in Hs. destruct s; try (left; exact Hs); [|right; by split; [|left]].
    destruct Hs as [[-> Hs]|Hs]; [right|by left]. split; [done|by right]. }
  split_and!.
  - apply (describes_snoc _ _ _ _ _ _ _ parent); [done..|]. destruct Hcase as [(c & Hin & Hi & Hc)|[Hno Hs']].
    + left. exists c. split; [done|]. split; [done|]. unfold found. destruct s; cbn [state_for recorded] in *.
      * by destruct Hc as (_ & _ & Hc).
      * by destruct Hc as (_ & Hc).
      * done.
      * by destruct Hc as (_ & -> & Hc).
      * done.
    + right. split; [done|]. by destruct Hs' as [->|[-> ->]].
  - intros Hr. destruct Hcase as [(c & _ & _ & Hc)|[_ [->|[-> ->]]]]; [|done..]. destruct s; try done. by destruct Hc.
  - intros e He. destruct Hcase as [(c & _ & _ & Hc)|[_ [->|[-> _]]]]; [|by injection He as <-|done].
    by eapply recorded_ok; [left|].
Qed.

Lemma diff_inv_count n header parents seen todo mm states stored refs b c e f p p' u :
  Z.of_nat n < 2 ^ 62 -> (length states < n)%nat ->
  diff_inv n header parents seen todo mm states stored refs p -> Passes.count 0 b c 0 e f p = (p', Ok u) ->
  diff_inv n header parents seen todo mm states stored refs p'.
Proof.
  intros Hn Hl [Hsp Hmm Ha Hf Hd Hse Hah Htd Hst Hfe Hra Hch Hcs] (Him & Hs & Ht & Hc)%count_Ok.
  pose proof (zlen_nonneg stored). unfold u64_ok in *. rewrite Z.add_0_r, wrap64_small in Hc by done.
  rewrite Z.add_0_r, wrap64_small in Ht by (unfold zlen in *; lia).
  split; try done; rewrite ?Hs, ?Ht, ?Hc; try done.
  - by eapply same_image_appended.
  - by eapply same_image_ahead.
Qed.

Lemma diff_chunk_Ok n header parents seen todo mm states stored refs p p' u parent :
  0 <= jb_member j -> Z.of_nat n < 2 ^ 62 -> (length states < n)%nat ->
  diff_inv n header parents seen todo mm states stored refs p ->
  parents !! length states = Some parent -> recordable parent ->
  Passes.diff_chunk j (is_delta mm) (zlen states) parent p = (p', Ok u) ->
  exists seen' todo' mm' s stored' refs',
    diff_inv n header parents seen' todo' mm' (states ++ [s]) stored' refs' p' /\
    is_delta mm' = is_delta mm /\ seen' ++ todo' = seen ++ todo.
Proof.
  intros Hm Hn Hl Hinv Hp Hok Hrun. unfold Passes.diff_chunk in Hrun.
  apply step_bind_Ok in Hrun as (p1 & [] & Hc & Hrun).
  eapply diff_inv_count in Hc; [|done..]. clear Hinv. rename Hc into Hinv.
  apply step_bind_Ok in Hrun as (p2 & s & Hs & Hrun).
  pose proof (source_state_Ok _ _ _ _ _ _ _ _ _ _ _ _ _ Hm Hinv Hp Hs) as Hfound.
  apply found_describes in Hfound as (seen' & todo' & more & rmore & Ha & Hf & Hah & Htd & Hst & Hsp & Hct & Hnew & Hse & Hd & Hbad & Hrec); [|done].
  destruct Hinv as [Hsp1 Hmm _ _ _ _ _ _ Hst1 Hfew Hra Hch Hcs]. rewrite <- Hsp in Hsp1.
  pose proof (zlen_nonneg stored). pose proof (zlen_nonneg more).
  assert (zlen states < 2 ^ 62) by (unfold zlen; lia). assert (is_new s <= 1) by (destruct s; cbn; lia).
  eapply diff_record_Ok in Hrun as (Hsp3 & Him & Hst3 & Hch3); [|done|intros Hr; by apply entry_of_ok; [|apply Hbad]
    |unfold u64_ok, zlen in *; lia|done|rewrite Hct, Hst1; unfold u64_ok; lia|by rewrite Hct|rewrite Hct, Hst1; unfold u64_ok; lia].
  exists seen', todo', (add_found parent (zlen states) s mm), (found parent s), (stored ++ more), (refs ++ rmore).
  split; [|split; [apply is_delta_found|done]]. rewrite Hct in Hst3, Hch3.
  pose proof (changes_grow parent (zlen states) s mm).
  assert (forall x, zlen (states ++ [x]) = zlen states + 1) as Hz by (intros x; by rewrite zlen_app).
  split; try done; rewrite ?Hz.
  - apply found_states; try done; lia.
  - by eapply same_image_appended.
  - eapply Forall_impl; [exact Hse|]. cbn. lia.
  - by eapply same_image_ahead.
  - done.
  - rewrite Hst3, Hst1, zlen_app. lia.
  - rewrite zlen_app. lia.
  - rewrite Hch3. apply Z.mod_pos_bound. lia.
  - rewrite is_delta_found. intros Hdel. rewrite changes_found, Hch3, (Hch Hdel) by done. apply wrap64_small.
    rewrite (Hch Hdel) in Hra. unfold u64_ok in Hra. destruct s; lia.
  - lia.
Qed.

(** *** The walk *)
Lemma todo_none n todo : todo_ok n (Z.of_nat n) todo -> todo = [].
Proof. intros [Hc _]. destruct todo as [|c todo]; [done|]. apply Forall_cons in Hc as [[_ Hc] _]. lia. Qed.

Lemma diff_walk_Ok n header parents access rest : forall seen todo mm states stored refs run rep p st' u,
  0 <= jb_member j -> Z.of_nat n < 2 ^ 62 -> length parents = n -> Forall recordable parents ->
  drop (length states) parents = rest ->
  diff_inv n header parents seen todo mm states stored refs p ->
  visit_all (fun i s => Passes.diff_visit j (is_delta mm) i s access) (zlen states) rest (run, rep, p) = (st', Ok u) ->
  exists seen' todo' mm' states' stored' refs',
    diff_inv n header parents seen' todo' mm' states' stored' refs' (snd st') /\
    (length states <= n -> length states' = n)%nat /\ is_delta mm' = is_delta mm /\ seen' ++ todo' = seen ++ todo.
Proof.
  induction rest as [|parent rest IH]; intros seen todo mm states stored refs run rep p st' u Hm Hn Hp Hok Hd Hinv; cbn [visit_all].
  - intros [= <- _]. exists seen, todo, mm, states, stored, refs. split_and!; [done| |done..].
    intros Hle. apply (f_equal length) in Hd. rewrite length_drop in Hd. cbn in Hd. lia.
  - assert (parents !! length states = Some parent) as Hpar.
    { rewrite <- (Nat.add_0_r (length states)), <- lookup_drop, Hd. done. }
    pose proof (lookup_lt_Some _ _ _ Hpar) as Hlt.
    intros Hv. apply step_bind_Ok in Hv as ([[run1 rep1] p1] & [] & Hvis & Hv).
    unfold Passes.diff_visit in Hvis. apply step_bind_Ok in Hvis as ([[run2 rep2] p2] & [] & Hrep & Hvis).
    apply report_tracked_Ok in Hrep. cbn in Hrep. subst p2. apply inside_Ok in Hvis as (p3 & Hch & [= -> -> ->]).
    rewrite Forall_lookup in Hok. pose proof (Hok _ _ Hpar) as Hpok.
    eapply diff_chunk_Ok in Hch as (seen1 & todo1 & mm1 & s1 & stored1 & refs1 & Hinv1 & Hdel & Hst);
      [|done|done|lia|done|done|done].
    replace (zlen states + 1) with (zlen (states ++ [s1])) in Hv by (by rewrite zlen_app). rewrite <- Hdel in Hv.
    eapply IH in Hv as (seen' & todo' & mm' & states' & stored' & refs' & Hinv' & Hl & Hdel' & Hst');
      [|done|done|done|by rewrite Forall_lookup| |done].
    + exists seen', todo', mm', states', stored', refs'. split_and!; [done| |congruence..].
      intros _. apply Hl. rewrite length_app. cbn. lia.
    + rewrite length_app. cbn. rewrite <- drop_drop, Hd. done.
Qed.

(** A manifest that has passed all chunks makes the states of the parent's. *)
Lemma manifest_states_all n parents mm states : length parents = n -> length states = n ->
  manifest_states parents mm states -> manifest_ok n mm /\ apply_manifest parents mm = states.
Proof.
  intros Hp Hl. destruct mm as [es|ds]; cbn [manifest_states manifest_ok apply_manifest].
  - intros [He <-]. rewrite length_map in Hl. done.
  - intros (Hds & Hinc & Hr & Hm). assert (Forall (ChunkStates.in_range n) ds) as Hir.
    { eapply Forall_impl; [exact Hr|]. unfold ChunkStates.in_range, zlen. cbn. lia. }
    split; [done|]. destruct (ChunkStates.apply_delta_Ok parents ds) as [_ Hk]; [by rewrite Hp|].
    apply list_eq. intros k. rewrite Hk. destruct (decide (k < n)%nat) as [Hlt|Hge].
    + destruct (lookup_lt_is_Some_2 parents k ltac:(lia)) as [parent Hpar]. rewrite Hpar. cbn. symmetry.
      apply Hm; [lia|done].
    + rewrite !lookup_ge_None_2 by lia. done.
Qed.

(** What a pass leaves: the manifest in the spool, about a source described by
    the states it makes of the parent's. *)
Record recorded_by (n : nat) (header : bytes) (member : Z) (chunks : list ChunkPlan) (parents : list ChunkState)
    (p : Pass) (mm : MemberManifest) (stored : list bytes) (refs : list ChunkRef) : Prop := {
  rb_spool : pa_spool p = header ++ manifest_enc mm;
  rb_manifest : manifest_ok n mm;
  rb_appended : appended stored refs p;
  rb_fit : payloads_fit stored;
  rb_describes : describes member chunks parents (apply_manifest parents mm) stored refs;
  rb_stored : ct_stored (pa_counts p) = zlen stored;
  rb_changed : is_delta mm = true -> ct_changed (pa_counts p) = manifest_count mm;
}.

Lemma is_delta_changes mm : is_delta mm = true -> changes mm = manifest_count mm.
Proof. by destruct mm. Qed.

(** The pass of a member against its parent describes the source. *)
Lemma diff_pass_Ok n header parents mm todo access run rep p st' u :
  0 <= jb_member j -> Z.of_nat n < 2 ^ 62 -> length parents = n -> Forall recordable parents ->
  diff_inv n header parents [] todo mm [] [] [] p ->
  visit_all (fun i s => Passes.diff_visit j (is_delta mm) i s access) 0 parents (run, rep, p) = (st', Ok u) ->
  exists mm' stored refs, recorded_by n header (jb_member j) todo parents (snd st') mm' stored refs /\
    is_delta mm' = is_delta mm.
Proof.
  intros Hm Hn Hp Hok Hinv Hv.
  destruct (diff_walk_Ok n header parents access parents [] todo mm [] [] [] run rep p st' u Hm Hn Hp Hok eq_refl Hinv Hv)
    as (seen' & todo' & mm' & states' & stored & refs & [Hsp Hmm Ha Hf Hd _ _ Htd Hst _ _ Hch _] & Hl & Hdel & Htodo).
  specialize (Hl ltac:(cbn; lia)). unfold zlen in Htd. rewrite Hl in Htd. apply todo_none in Htd as ->.
  rewrite app_nil_r in Htodo. cbn in Htodo. subst seen'.
  destruct (manifest_states_all _ _ _ _ Hp Hl Hmm) as [Hmo Happ].
  exists mm', stored, refs. split; [|done]. split; try done; [by rewrite Happ|].
  intros Hdel'. by rewrite <- is_delta_changes, Hch.
Qed.

(** The pass of a full member as well. *)
Lemma full_recorded n header chunks es stored refs p :
  full_inv n header chunks es stored refs p -> length es = n ->
  recorded_by n header 0 chunks (replicate n Unused) p (MFull es) stored refs.
Proof. intros [] Hl. by split. Qed.

(** The first chunk fetched ahead of the walk. *)
Lemma diff_start n header parents (delta : bool) p p' : pa_spool p = header -> pa_writer p = w0 -> pa_nonces p = Nonce.new ->
  pa_counts p = Passes.no_counts -> plan_state (pa_plan p) -> todo_ok n 0 (remaining (pa_plan p)) ->
  Passes.advance p = (p', Ok tt) ->
  diff_inv n header parents [] (remaining (pa_plan p)) (if delta then MDelta [] else MFull []) [] [] [] p'.
Proof.
  intros Hsp Hw Hns Hct Hp Htd Ha. destruct (advance_spec p Hp) as (q & Hq & Hw' & Hns' & Hsp' & Hct' & Hn).
  rewrite Hq in Ha. injection Ha as ->. split; rewrite ?Hct', ?Hct; try done.
  - rewrite Hsp', Hsp. by destruct delta; rewrite app_nil_r.
  - destruct delta; [|done]. cbn. split_and!; try done. lia.
  - unfold appended. by rewrite Hw', Hw, Hns', Hns.
  - constructor.
  - unfold ahead. destruct (remaining (pa_plan p)) as [|c rest]; [by rewrite Hn|].
    by destruct Hn as (-> & -> & Hst).
  - by destruct delta.
  - by destruct delta.
Qed.
End pass.

(** ** Both passes *)
Section scan.
Context `{PrimitiveLaws} `{BlockDeviceLaws Dev} `{Destination D} (d : D) (rq : BackupRequest) (plan : ResolvedBackupPlan) (j : Job Dev).

Definition counted (entry_count : Z) (h : BlockManifestHeader) : BlockManifestHeader :=
  {| bm_chunk_size := bm_chunk_size h; bm_chunk_count := bm_chunk_count h; bm_entry_count := entry_count;
     bm_used_extent_count := bm_used_extent_count h; bm_used_bytes := bm_used_bytes h; bm_fs_type := bm_fs_type h;
     bm_fs_uuid := bm_fs_uuid h; bm_label := bm_label h |}.

Lemma patch_header h delta count rest :
  put_at (0 + Passes.ENTRY_COUNT_OFFSET) (le_bytes 8 count) (BlockHeader.enc h delta ++ rest) =
  BlockHeader.enc (counted count h) delta ++ rest.
Proof.
  unfold BlockHeader.enc. cbn [counted bm_chunk_size bm_chunk_count bm_entry_count bm_used_extent_count bm_used_bytes bm_fs_type bm_fs_uuid bm_label].
  set (front := le_bytes 2 MANIFEST_VER ++ le_bytes 1 (if delta then SECTION_BLOCK_DELTA else SECTION_BLOCK_FULL) ++
    le_bytes 1 0 ++ le_bytes 4 (bm_chunk_size h) ++ le_bytes 8 (bm_chunk_count h)).
  set (back := le_bytes 8 (bm_used_extent_count h) ++ _).
  assert (forall c, (le_bytes 2 MANIFEST_VER ++ le_bytes 1 (if delta then SECTION_BLOCK_DELTA else SECTION_BLOCK_FULL) ++
    le_bytes 1 0 ++ le_bytes 4 (bm_chunk_size h) ++ le_bytes 8 (bm_chunk_count h) ++ le_bytes 8 c ++ back) ++ rest =
    front ++ le_bytes 8 c ++ (back ++ rest)) as Hassoc by (intros c; unfold front; by rewrite <- !app_assoc).
  rewrite !Hassoc. apply put_at_hit; [|done]. unfold front. by rewrite !zlen_app, !zlen_le_bytes.
Qed.

(** The states a member is compared with. *)
Definition parent_states (n : nat) (parents : list ChunkState) : Prop :=
  match bp_parent plan with
  | None => parents = replicate n Unused
  | Some parent => exists members w mms, Members.open_chain d (pc_files parent) (rq_encryption rq) = Ok members /\
      Walks.new members = Ok w /\ Forall2 (manifest_of n (cw_chunk_size w)) (cw_members w) mms /\
      parents = merged_states n mms
  end.

Definition member_no : Z := match bp_parent plan with None => 0 | Some _ => jb_member j end.

Definition delta_manifest : bool :=
  match bp_parent plan with None => false | Some _ => bool_decide (bp_encoding plan = BlockDelta) end.

Lemma scan_Ok kind key w0 chunk_size used n parents run rep st' u :
  wrep kind key [] [] w0 -> fw_cap (iw_file w0) <= U64_MAX -> 0 < chunk_size <= U32_MAX ->
  let device_size := bs_size_bytes (sn_source (jb_snapshot j)) in
  let chunks := RangeSpec.remaining chunk_size device_size used in
  let header := Backups.manifest_header rq (jb_snapshot j) (Z.of_nat n) in
  device_size + chunk_size <= 2 ^ 64 -> RangeSpec.plan_state chunk_size device_size used ->
  todo_ok n 0 chunks -> Z.of_nat n < 2 ^ 62 -> 0 <= jb_member j -> BlockHeader.ok header -> parent_states n parents ->
  Backups.scan d rq plan j (Z.of_nat n) (run, rep, Backups.new_pass w0 used) = (st', Ok u) ->
  exists mm stored refs,
    recorded_by j w0 n (BlockHeader.enc (counted (manifest_count mm) header) (is_delta mm)) member_no chunks parents
      (snd st') mm stored refs /\ is_delta mm = delta_manifest.
Proof.
  intros Hw Hcap Hcs device_size chunks header Hroom Hps Htd Hn Hmem Hh Hpar. unfold Backups.scan, parent_states, member_no, delta_manifest in *.
  fold header. destruct (bp_parent plan) as [parent|].
  - destruct Hpar as (members & w & mms & Ho & Hnew & Hms & ->). set (delta := bool_decide _). intros Hs.
    apply step_bind_Ok in Hs as (st1 & [] & (p1 & Hsp & ->)%inside_Ok & Hs).
    apply (spooled_Ok _ _ _ _ _ (BlockHeader.header_write_emits _ _ Hh)) in Hsp as (Hsp1 & (Hw1 & Hns1 & Hpl1 & _) & Hct1).
    apply step_bind_Ok in Hs as (st2 & [] & Hl & Hs). unfold lift in Hl. injection Hl as <- _.
    rewrite Ho in Hs. apply step_bind_Ok in Hs as (st3 & ms & Hl & Hs). unfold lift in Hl. injection Hl as <- <-.
    rewrite Hnew in Hs. apply step_bind_Ok in Hs as (st4 & w' & Hl & Hs). unfold lift in Hl. injection Hl as <- <-.
    destruct (walks_access members w n mms Hnew Hms) as (Hcc & access & _ & Hv).
    rewrite Hcc, Z.eqb_refl in Hs. cbn [negb] in Hs.
    apply step_bind_Ok in Hs as (st5 & [] & (p5 & Hadv & ->)%inside_Ok & Hs).
    assert (diff_inv j w0 chunk_size device_size n (BlockHeader.enc header delta) (merged_states n mms) [] chunks
      (if delta then MDelta [] else MFull []) [] [] [] p5) as Hinit.
    { change used with (pa_plan (Backups.new_pass w0 used)) in chunks. unfold chunks. rewrite <- Hpl1.
      eapply diff_start; rewrite ?Hsp1, ?Hw1, ?Hns1, ?Hct1, ?Hpl1; try done; lia. }
    apply step_bind_Ok in Hs as (st6 & [] & Hwalk & Hs).
    assert (is_delta (if delta then MDelta [] else MFull []) = delta) as Hdel by by destruct delta.
    pose proof (proj1 (Hv _ (Passes.diff_visit j delta) (run, rep, p5))) as Heq. rewrite Hwalk in Heq. symmetry in Heq.
    rewrite <- Hdel in Heq.
    destruct (merged_states_lookup n mms 0 (manifest_states_ok _ _ _ _ Hms)) as [Hlen _].
    apply (diff_pass_Ok j w0 kind key Hw Hcap chunk_size device_size ltac:(lia) ltac:(done) ltac:(lia) n
      (BlockHeader.enc header delta) (merged_states n mms) _ chunks access) in Heq as (mm & stored & refs & Hrec & Hd);
      [|done..|by apply (merged_recordable n), (manifest_states_ok _ _ _ _ Hms)|done].
    rewrite Hdel in Hd. exists mm, stored, refs. split; [|done]. destruct Hrec as [Hsp6 Hmo Ha Hf Hde Hst Hch].
    destruct st6 as [[run6 rep6] p6]. cbn [snd] in *.
    apply step_bind_Ok in Hs as (st7 & changed & (p7 & Hr & ->)%inside_Ok & Hs). unfold reads in Hr. injection Hr as <- <-.
    apply inside_Ok in Hs as (p8 & Hp & ->). unfold Passes.patch_entry_count, modify in Hp. injection Hp as <- _.
    cbn [snd]. split; cbn [pa_spool pa_counts]; try done.
    rewrite Hsp6, patch_header, Hd. do 3 f_equal. destruct mm as [es|ds]; cbn [is_delta] in Hd; rewrite <- Hd.
    + cbn [manifest_count]. destruct Hmo as [_ <-]. done.
    + by rewrite Hch.
  - subst parents. intros Hs.
    apply step_bind_Ok in Hs as (st1 & [] & (p1 & Hsp & ->)%inside_Ok & Hs).
    apply (spooled_Ok _ _ _ _ _ (BlockHeader.header_write_emits _ _ Hh)) in Hsp as (Hsp1 & (Hw1 & Hns1 & Hpl1 & _) & Hct1).
    cbn in Hsp1, Hw1, Hns1, Hpl1, Hct1.
    apply step_bind_Ok in Hs as ([[run2 rep2] p2] & [] & Hfull & Hs).
    apply (write_full_entries_Ok j w0 kind key Hw Hcap chunk_size device_size ltac:(lia) ltac:(done) ltac:(lia) n
      (BlockHeader.enc header false)) in Hfull as (es & stored & refs & Hinv & Hlen); [| |by rewrite Hpl1|by rewrite Hpl1|done].
    2: { split; rewrite ?Hsp1, ?Hct1; try done; unfold appended; rewrite ?Hw1, ?Hns1; first [done|by rewrite app_nil_r|by constructor]. }
    cbn [snd] in Hinv. rewrite Hpl1 in Hinv. apply full_recorded in Hinv as [Hsp2 Hmo Ha Hf Hde Hst Hch]; [|done].
    apply inside_Ok in Hs as (p8 & Hp & ->). unfold Passes.patch_entry_count, modify in Hp. injection Hp as <- _.
    exists (MFull es), stored, refs. split; [|done]. cbn [snd]. split; cbn [pa_spool pa_counts]; try done.
    rewrite Hsp2, patch_header. cbn [manifest_count is_delta]. unfold zlen. by rewrite Hlen.
Qed.
End scan.
End PassSpec.
