(* ===== verification/BackupImage.v ===== *)
(** * The image of a block backup

    What the job writes is an image as the writer's client writes it: the
    superblock, the payloads, the manifest and the extras, the footer. A full
    member opens as a chain of its own, under the protection it was written with,
    and its walk shows the source. *)

From S2P Require Import Prelude Core Crypto Pages Keys Wire Superblock Chunk Footer Files PageStream Writer ImageReader ImageSafety Roundtrip.
From S2P Require Import Manifest Extras EngineKeys CatalogRecords Steps Destination Progress Chain ChainSpec EngineCatalog RetentionSafety.
From S2P Require Import Extents Devices BackupPlan BlockBackup BackupSafety BackupSpec.
Import Image PassSpec.

Module BackupImage.
Section parts.
Context `{PrimitiveLaws}.

Lemma write_emits `{ByteSinkLaws W} (b : bytes) : emits (fun w => write_bytes w b) b.
Proof. by intros out _. Qed.

(** The copy of the spool is one write of it. *)
Lemma write_manifest_stream rq meta_key spool w :
  Backups.write_manifest rq meta_key spool w = write_stream w (rq_aead rq) meta_key SManifest spool.
Proof.
  unfold Backups.write_manifest, write_stream. f_equal.
  pose proof (emits_put_all (W := PageStream ImageWriter) (fun piece m => write_bytes m piece) (fun x => x)
    (zchunks (64 * 1024) spool) (fun x _ => write_emits x)) as He.
  rewrite map_id, concat_zchunks in He by done. apply He. done.
Qed.

Lemma write_record_fits `{ByteSink W} kind payload (out out' : W) :
  Extras.write_record kind payload out = Ok out' -> zlen payload <= U32_MAX.
Proof. unfold Extras.write_record. destruct (_ <? _) eqn:E; [done|]. intros _. bprop. lia. Qed.

Lemma zlen_extras_enc kind payload : zlen (Extras.enc kind payload) = 8 + zlen payload.
Proof. unfold Extras.enc. rewrite !zlen_app, !zlen_le_bytes. lia. Qed.

(** So are the two records. *)
Lemma write_extras_stream `{BlockDevice Dev} rq plan (sn : Snapshotted Dev) meta_key w w' :
  Backups.write_extras rq plan sn meta_key w = Ok w' ->
  exists extras, write_stream w (rq_aead rq) meta_key SExtras extras = Ok w' /\ zlen extras <= 16 + 2 * U32_MAX.
Proof.
  unfold Backups.write_extras, write_stream, Extras.write_chain_members. intros Hw.
  rewrite (put_all_vec _ Extras.member_enc) in Hw by apply Extras.put_member_emits. cbn [bind] in Hw.
  set (members := concat _) in *. set (meta := Backups.metadata rq plan sn) in *.
  apply bind_Ok in Hw as (ps1 & Hw1 & Hw). apply bind_Ok in Hw as (ps2 & Hw2 & Hw).
  pose proof (write_record_fits _ _ _ _ Hw1) as Hf1. pose proof (write_record_fits _ _ _ _ Hw2) as Hf2.
  exists (Extras.enc EXTRAS_CHAIN_MEMBERS members ++ Extras.enc EXTRAS_IMAGE_METADATA meta). split.
  - pose proof (emits_seq _ _ _ _ (Extras.extras_write_emits (W := PageStream ImageWriter) EXTRAS_CHAIN_MEMBERS members Hf1)
      (Extras.extras_write_emits EXTRAS_IMAGE_METADATA meta Hf2)) as He.
    change (PageStreams.write ?p ?b) with (write_bytes p b). rewrite <- He by done. by rewrite Hw1; cbn [bind]; rewrite Hw2.
  - rewrite zlen_app, !zlen_extras_enc. lia.
Qed.

Lemma zlen_zchunks n (l : bytes) : 0 < n -> n * zlen (zchunks n l) <= zlen l + n.
Proof.
  intros Hn. revert l. apply (zchunks_ind (fun l => n * zlen (zchunks n l) <= zlen l + n) n Hn); [rewrite zchunks_nil; unfold zlen; cbn [length]; lia|].
  intros l Hl IH. rewrite zchunks_step by done. rewrite zlen_cons. rewrite zlen_zdrop in IH.
  destruct (Z.le_ge_cases (zlen l) n) as [Hle|Hge]; [|lia].
  rewrite zdrop_all by done. rewrite zchunks_nil, zlen_nil. pose proof (zlen_nonneg l). lia.
Qed.

(** The key fields of a new chain have their lengths. *)
Lemma new_key_fields nk rnd encryption chain uuid :
  zlen (rnd_salt rnd) = 16 -> zlen (rnd_nonce rnd) = 12 -> zlen (rnd_chain_key rnd) = Keys.CHAIN_KEY_LEN ->
  EKeys.new_chain_keys rnd encryption chain uuid = Ok nk ->
  zlen (nk_kdf_salt nk) = 16 /\ zlen (nk_wrap_nonce nk) = 12 /\ zlen (nk_wrapped_chain_key nk) = 48 /\
  u32_ok (Kdf.m_cost_kib (nk_params nk)) /\ u32_ok (Kdf.t_cost (nk_params nk)) /\ u32_ok (Kdf.p_cost (nk_params nk)).
Proof.
  intros Hs Hn Hk. unfold EKeys.new_chain_keys. destruct encryption as [pass|]; intros He; inv_ok; cbn.
  - destruct (Keys.wrap_unwrap _ _ _ _ _ _ Hk E0) as (-> & Hw & _). by split_and!.
  - by split_and!.
Qed.

(** ** The superblock *)
Section superblock.
Context `{BlockDevice Dev} (rq : BackupRequest) (plan : ResolvedBackupPlan) (sn : Snapshotted Dev) (nk : NewChainKeys) (now : Z).
Let s : Superblock := Backups.superblock rq plan sn nk now.

Lemma superblock_flags_ok : u64_ok (flags s) /\ Sb.is_encrypted s = nk_encrypted nk /\
  Sb.is_delta_manifest s = bool_decide (bp_encoding plan = BlockDelta).
Proof.
  unfold s, Backups.superblock, Sb.set_consistency, Sb.with_consistency, Sb.is_encrypted, Sb.is_delta_manifest.
  cbn [flags]. unfold Backups.superblock_flags.
  destruct (nk_encrypted nk), (Chunk.compress (Backups.chunk_options rq)), (bool_decide (bp_encoding plan = BlockDelta)), (sn_consistency sn);
    vm_compute; by repeat split.
Qed.

Lemma superblock_aead : Sb.aead_kind s = Ok (rq_aead rq).
Proof. apply Aeads.from_id_id. Qed.
End superblock.
End parts.

(** What a request and a source are: identifiers of 16 bytes, sizes that fit the
    header, and what the random source returns. *)
Record backup_ok {Dev} (rq : BackupRequest) (sn : Snapshotted Dev) (rnd : Randomness) : Prop := {
  bk_uuid : id_ok (rq_image_uuid rq);
  bk_set : id_ok (rq_set_id rq);
  bk_chain : id_ok (rq_chain_id rq);
  bk_size : 0 < bs_size_bytes (sn_source sn) < 2 ^ 63;
  bk_block : u32_ok (bs_logical_block_size (sn_source sn));
  bk_map : Forall RangeSpec.valid (em_extents (sn_map sn));
  bk_extents : zlen (em_extents (sn_map sn)) < 2 ^ 64;
  bk_names : str_ok (sn_fs_type sn) /\ str_ok (sn_fs_uuid sn) /\ str_ok (sn_label sn);
  bk_random : zlen (rnd_salt rnd) = 16 /\ zlen (rnd_nonce rnd) = 12 /\ zlen (rnd_chain_key rnd) = Keys.CHAIN_KEY_LEN;
}.

(** ** What the job leaves in the file *)
Section written.
Context `{PrimitiveLaws} `{BlockDeviceLaws Dev} `{PublisherLaws D} (rq : BackupRequest) (plan : ResolvedBackupPlan)
  (sn : Snapshotted Dev) (nk : NewChainKeys) (now : Z).
#[local] Abbreviation superblock := (Backups.superblock rq plan sn nk now).
#[local] Abbreviation job := (Backups.job rq plan sn nk).

(** The image that a pass, its manifest and the extras make up. *)
Record built (space : Z) (n : nat) (chunks : list ChunkPlan) (parents : list ChunkState) (counts : Counts)
    (mm : MemberManifest) (stored : list bytes) (refs : list ChunkRef) (extras : bytes) (file : FileW)
    (footer : FooterRec) : Prop := {
  bu_manifest : manifest_ok n mm;
  bu_delta : is_delta mm = delta_manifest plan;
  bu_describes : describes job (member_no plan job) chunks parents (apply_manifest parents mm) stored refs;
  bu_fit : payloads_fit stored;
  bu_stored : ct_stored counts = zlen stored;
  bu_extras : zlen extras <= 16 + 2 * U32_MAX;
  bu_image : write_image (File.new space) superblock (Backups.mac_key nk) (Backups.chunk_options rq) (Backups.writer_keys nk)
    stored [(SManifest, BlockHeader.enc (counted (manifest_count mm) (Backups.manifest_header rq sn (Z.of_nat n))) (is_delta mm) ++
                        manifest_enc mm); (SExtras, extras)] = Ok (refs, file, footer);
}.

Lemma run_state {A} (m : step Run A) (d d' : D) run run' a :
  Backups.on_run m (d, run) = ((d', run'), Ok a) -> d' = d.
Proof. unfold Backups.on_run. destruct (m run). by intros [= -> _ _]. Qed.

Lemma dest_Ok {A} (m : step D A) (d d' : D) run run' a :
  Backups.on_dest m (d, run) = ((d', run'), Ok a) -> m d = (d', Ok a).
Proof. unfold Backups.on_dest. destruct (m d). by intros [= -> _ ->]. Qed.

(** The finished temporary file is what gets the name. *)
Lemma published_Ok {A} tmp name b (r : Durability -> A) (d d' : D) run run' a : tmp <> name ->
  (do* _ := Backups.on_dest (fun d : D => write_tmp d tmp b) in
   do* _ := Backups.on_dest lock_verify in
   do* durability := Backups.on_dest (publish_new tmp name) in
   step_ret (r durability)) (d, run) = ((d', run'), Ok a) ->
  Destination.contents d name = None /\ Destination.contents d' name = Some b /\ exists durability, a = r durability.
Proof.
  intros Hne Hp. apply step_bind_Ok in Hp as ([d1 run1] & [] & Hw%dest_Ok & Hp).
  apply step_bind_Ok in Hp as ([d2 run2] & [] & Hv%dest_Ok & Hp).
  apply step_bind_Ok in Hp as ([d3 run3] & du & Hn%dest_Ok & Hp). injection Hp as <- <- <-.
  pose proof (write_tmp_contents d tmp b tt) as Hc. pose proof (write_tmp_frame d tmp b name) as Hf. rewrite Hw in Hc, Hf.
  pose proof (lock_verify_frame d1 name) as Hl. pose proof (lock_verify_frame d1 tmp) as Hl2. rewrite Hv in Hl, Hl2.
  pose proof (publish_contents tmp name d2 b du) as Hpc. rewrite Hn in Hpc. cbn [fst snd] in *.
  destruct (Hpc ltac:(by rewrite Hl2, Hc) eq_refl) as [Hno Hyes]. split; [|split; [|by exists du]].
  - rewrite <- Hf by congruence. by rewrite <- Hl.
  - done.
Qed.

Lemma write_image_Ok used n parents reporter space tmp name (d d' : D) run run' counts len durability :
  Sb.sb_ok superblock -> 0 < rq_chunk_size rq <= U32_MAX -> space <= U64_MAX ->
  let device_size := bs_size_bytes (sn_source sn) in
  let chunks := RangeSpec.remaining (rq_chunk_size rq) device_size used in
  device_size + rq_chunk_size rq <= 2 ^ 64 -> RangeSpec.plan_state (rq_chunk_size rq) device_size used ->
  todo_ok n 0 chunks -> Z.of_nat n < 2 ^ 62 -> uc_chunk_count used = Z.of_nat n -> 0 <= bp_seq_in_chain plan ->
  BlockHeader.ok (Backups.manifest_header rq sn (Z.of_nat n)) -> parent_states d rq plan n parents -> tmp <> name ->
  Backups.write_image rq plan sn nk now used reporter space tmp name (d, run) = ((d', run'), Ok (counts, len, durability)) ->
  exists mm stored refs extras file footer,
    built space n chunks parents counts mm stored refs extras file footer /\
    Destination.contents d name = None /\ Destination.contents d' name = Some (fw_bytes file) /\ len = zlen (fw_bytes file).
Proof.
  intros Hsb Hcs Hspace device_size chunks Hroom Hps Htd Hn Hcount Hseq Hh Hpar Htmp Hw. unfold Backups.write_image in Hw.
  apply step_bind_Ok in Hw as ([d1 run1] & w0 & Hl & Hw). unfold lift in Hl. injection Hl as <- <- Hcreate.
  destruct (create_rep (rq_aead rq) (ik_meta_key (nk_keys nk)) (File.new space) superblock _ _ eq_refl Hsb Hcreate) as (Hrep & _ & Hcap).
  apply step_bind_Ok in Hw as ([d1 run1] & [reporter1 pass] & Hpass & Hw). unfold Backups.on_pass in Hpass.
  destruct (Backups.scan d rq plan job (uc_chunk_count used) (run, reporter, Backups.new_pass w0 used)) as [[[run2 rep2] p2] [[]|e]] eqn:Hscan; [|done].
  injection Hpass as <- <- <- <-. rewrite Hcount in Hscan.
  eapply scan_Ok in Hscan as (mm & stored & refs & [Hsp Hmo Ha Hf Hd Hst Hch] & Hdel);
    [|exact Hrep|by rewrite Hcap|exact Hcs|done|exact Hps|exact Htd|done|exact Hseq|exact Hh|exact Hpar]. cbn [snd] in *.
  apply step_bind_Ok in Hw as ([d3 run3] & [] & Hl & Hw). unfold lift in Hl. injection Hl as <- <- _.
  apply step_bind_Ok in Hw as ([d4 run4] & [] & ->%run_state & Hw).
  apply step_bind_Ok in Hw as ([d5 run5] & w1 & Hl & Hw). unfold lift in Hl. injection Hl as <- <- Hman.
  apply step_bind_Ok in Hw as ([d6 run6] & w2 & Hl & Hw). unfold lift in Hl. injection Hl as <- <- Hext.
  rewrite write_manifest_stream in Hman. apply write_extras_stream in Hext as (extras & Hext & Hlen).
  apply step_bind_Ok in Hw as ([d7 run7] & [] & ->%run_state & Hw).
  apply step_bind_Ok in Hw as ([d8 run8] & reporter8 & ->%run_state & Hw).
  apply step_bind_Ok in Hw as ([d9 run9] & [file footer] & Hl & Hw). unfold lift in Hl. injection Hl as <- <- Hfin.
  apply (published_Ok tmp name (fw_bytes file) (fun durability => (pa_counts p2, zlen (fw_bytes file), durability))) in Hw
    as (Hnone & Hsome & du & [= -> -> ->]); [|done].
  exists mm, stored, refs, extras, file, footer. split; [|done]. split; try done.
  unfold write_image. rewrite Hcreate. cbn [bind]. unfold appended in Ha. cbn [jb_options jb_keys Backups.job] in Ha.
  change (image_kind superblock) with Block. rewrite Ha. cbn [bind write_streams].
  rewrite Hsp in Hman. cbn [jb_snapshot Backups.job] in Hman. change (wk_meta_key (Backups.writer_keys nk)) with (ik_meta_key (nk_keys nk)).
  change (Chunk.kind (Backups.chunk_options rq)) with (rq_aead rq). rewrite Hman. cbn [bind]. rewrite Hext. cbn [bind].
  by rewrite Hfin.
Qed.
End written.

(** ** A full member *)
Section full.
Context `{PrimitiveLaws} `{BlockDeviceLaws Dev} `{PublisherLaws D} `{CatalogJson} (rq : BackupRequest) (sn : Snapshotted Dev) (rnd : Randomness).

(** The plan of a backup without a parent. *)
Definition full_plan : ResolvedBackupPlan :=
  {| bp_parent := None; bp_member_type := TypeFull; bp_encoding := BlockFull; bp_set_id := rq_set_id rq;
     bp_chain_id := rq_chain_id rq; bp_seq_in_chain := 0; bp_parent_uuid := Ids.ZERO |}.

Lemma superblock_ok nk now : backup_ok rq sn rnd -> u64_ok now -> 0 <= rq_chunk_size rq <= U32_MAX ->
  EKeys.new_chain_keys rnd (rq_encryption rq) (rq_chain_id rq) (rq_image_uuid rq) = Ok nk ->
  Sb.sb_ok (Backups.superblock rq full_plan sn nk now).
Proof.
  intros [? ? ? ? ? _ _ _ (Hs & Hn & Hk)] Hnow Hcs Hnk.
  destruct (new_key_fields nk rnd _ _ _ Hs Hn Hk Hnk) as (? & ? & ? & ? & ? & ?).
  destruct (superblock_flags_ok rq full_plan sn nk now) as [Hf _].
  split; try done; cbn; unfold u64_ok, u32_ok, U32_MAX in *; try lia.
  - by destruct (nk_encrypted nk).
  - by destruct (rq_aead rq).
Qed.

Lemma superblock_carries nk now :
  EKeys.carries (Backups.superblock rq full_plan sn nk now) nk (rq_chain_id rq) (rq_image_uuid rq).
Proof.
  destruct (superblock_flags_ok rq full_plan sn nk now) as (_ & He & _). split; try done. by destruct nk as [? ? [] ? ? ?].
Qed.

(** The image as a member of a chain. *)
Definition full_member (nk : NewChainKeys) (now : Z) (name b : bytes) (img : ImageReader) : OpenMember :=
  {| om_file_name := name; om_seq_in_chain := 0; om_image_uuid := rq_image_uuid rq; om_kind := Full;
     om_superblock := Backups.superblock rq full_plan sn nk now; om_reader := img;
     om_chunks := ChunkReaders.new b (data_end_offset (ir_footer img)); om_keys := nk_keys nk |}.

Definition full_file (name : bytes) : ChainMemberFile :=
  {| cm_file_name := name; cm_seq_in_chain := 0; cm_image_uuid := rq_image_uuid rq |}.

Lemma full_opens nk now name b img (d : D) : backup_ok rq sn rnd ->
  EKeys.new_chain_keys rnd (rq_encryption rq) (rq_chain_id rq) (rq_image_uuid rq) = Ok nk ->
  open_ro d name = Ok b -> Img.open b = Ok img -> ir_superblock img = Backups.superblock rq full_plan sn nk now ->
  Img.authenticate img (Backups.mac_key nk) = Ok tt ->
  Members.open_chain d [full_file name] (rq_encryption rq) = Ok [full_member nk now name b img].
Proof.
  intros Hok Hnk Ho Hi Hsb Hauth. pose proof (bk_random _ _ _ Hok) as (_ & _ & Hck).
  destruct (EKeys.new_chain_opens _ _ _ _ _ _ Hck Hnk (superblock_carries nk now)) as (Hu & _ & _).
  rewrite EKeys.unlock_image_eq in Hu. apply bind_Ok in Hu as ([key encrypted] & Hkey & Hu).
  unfold Members.open_chain. cbn [collectM full_file cm_file_name]. rewrite Ho. cbn [bind]. rewrite Hi. cbn [bind].
  rewrite Hsb, Hkey. cbn [bind combine collectM Members.open_member]. rewrite Hsb, bool_decide_true by done.
  cbn [negb full_file cm_file_name]. rewrite Hu. cbn [bind].
  apply EKeys.chain_key_encrypted in Hkey. rewrite (proj1 (proj2 (superblock_flags_ok _ _ _ _ _))) in Hkey.
  unfold Backups.mac_key in Hauth. rewrite Hkey, Hauth. cbn [bind]. by rewrite Ho.
Qed.

Lemma full_walks nk now name b img n es h r post :
  let m := full_member nk now name b img in
  Img.stream_reader img SManifest (ik_meta_key (nk_keys nk)) (rq_aead rq) = Ok r ->
  holds r (BlockHeader.enc h false ++ manifest_enc (MFull es) ++ post) -> BlockHeader.ok h ->
  manifest_ok n (MFull es) -> bm_entry_count h = zlen es -> bm_chunk_count h = Z.of_nat n -> bm_chunk_size h = rq_chunk_size rq ->
  exists w, Walks.new [m] = Ok w /\ cw_members w = [m] /\ cw_chunk_size w = rq_chunk_size rq /\
    Forall2 (manifest_of n (cw_chunk_size w)) (cw_members w) [MFull es].
Proof.
  intros m Hr Hh Hok Hmo Hec Hcc Hcs.
  exists {| cw_members := [m]; cw_chunk_count := bm_chunk_count h; cw_chunk_size := rq_chunk_size rq |}.
  split; [|split_and!; [done..|]].
  - destruct (proj1 (BlockHeader.header_read_codec h false Hok) _ _ Hh) as (wire & Hrd & _).
    unfold Walks.new. change (sort_by_key om_seq_in_chain [m]) with [m].
    cbv beta iota. change (negb (om_seq_in_chain m =? 0) || negb (bool_decide (om_kind m = Full))) with false. cbv iota.
    assert (Walks.check_links (om_superblock m) 0 None [m] = Ok tt) as ->.
    { cbn [Walks.check_links]. unfold Walks.agrees. rewrite !Z.eqb_refl, !bool_decide_true by done. done. }
    cbn [bind].
    change (om_superblock m) with (Backups.superblock rq full_plan sn nk now). rewrite superblock_aead. cbn [bind].
    cbn [m full_member om_reader om_keys]. rewrite Hr. cbn [bind]. by rewrite Hrd.
  - constructor; [|constructor]. split; [done|done|]. exists (rq_aead rq), r, h, post.
    split; [apply superblock_aead|]. by split_and!.
Qed.

(** ** Sizes *)
Lemma covered_bytes_u64 (m : ExtentMap) : u64_ok (Extents.covered_bytes m).
Proof.
  unfold Extents.covered_bytes. assert (u64_ok 0) as Hz by done. revert Hz. generalize 0.
  induction (em_extents m) as [|[a b] l IH]; intros z Hz; [done|]. cbn [fold_left]. apply IH. apply Z.mod_pos_bound. lia.
Qed.

Lemma header_fits n count : backup_ok rq sn rnd -> 0 <= rq_chunk_size rq <= U32_MAX -> Z.of_nat n < 2 ^ 62 -> u64_ok count ->
  BlockHeader.ok (counted count (Backups.manifest_header rq sn (Z.of_nat n))).
Proof.
  intros [_ _ _ _ _ _ He (Hf & Hu & Hl) _] Hc Hn Hcount. split; cbn; try done.
  - unfold u32_ok, U32_MAX in *. lia.
  - unfold u64_ok. lia.
  - unfold u64_ok. pose proof (zlen_nonneg (em_extents (sn_map sn))). lia.
  - apply covered_bytes_u64.
Qed.

Lemma zlen_manifest n mm : manifest_ok n mm -> is_delta mm = false -> zlen (manifest_enc mm) = ENTRY_LEN * Z.of_nat n.
Proof.
  destruct mm as [es|]; [|done]. intros [He <-] _. cbn [manifest_enc].
  rewrite (zlen_concat_const ENTRY_LEN); [unfold zlen; by rewrite length_map|].
  apply Forall_map. eapply Forall_impl; [exact He|]. apply Entry.zlen_enc.
Qed.

Lemma zlen_header_enc h delta : BlockHeader.ok h -> zlen (BlockHeader.enc h delta) <= 2 ^ 18.
Proof.
  intros [_ _ _ _ _ [Hf _] [Hu _] [Hl _]]. unfold BlockHeader.enc. rewrite !zlen_app, !zlen_le_bytes. unfold u16_ok in *. lia.
Qed.

(** The streams of an image this size have a page table the reader takes. *)
Lemma pages_fit (spool extras : bytes) : zlen spool <= 2 ^ 38 -> zlen extras <= 16 + 2 * U32_MAX ->
  PAGE_ENTRY_SIZE * zlen (flat_map (fun '(_, data) => zchunks DEFAULT_PAGE_LEN data)
    [(SManifest, spool); (SExtras, extras)]) <= MAX_PAGE_TABLE_BYTES.
Proof.
  intros Hs He. cbn [flat_map]. rewrite app_nil_r, zlen_app.
  pose proof (zlen_zchunks DEFAULT_PAGE_LEN spool ltac:(done)). pose proof (zlen_zchunks DEFAULT_PAGE_LEN extras ltac:(done)).
  unfold PAGE_ENTRY_SIZE, MAX_PAGE_TABLE_BYTES, DEFAULT_PAGE_LEN, U32_MAX in *. lia.
Qed.

(** ** The image, opened *)

Lemma open_file b img : Img.open b = Ok img -> ir_file img = b.
Proof. unfold Img.open. case_match; [done|]. intros Hi. by inv_ok. Qed.

(** What a state of the chain tells of a chunk of the source. *)
Definition shows (access : ChunkAccess) (c : ChunkPlan) (s : ChunkState) : Prop :=
  let source := sub (cp_offset c) (cp_len c) (Devices.contents (bs_handle (sn_source sn))) in
  match s with
  | Zero => zlen source = cp_len c /\ is_all_zero source = true
  | Stored _ _ _ _ => zlen source = cp_len c /\ Access.read access s = Ok source
  | Unused => forall x, cp_offset c <= x < cp_offset c + cp_len c -> ~ RangeSpec.covers (em_extents (sn_map sn)) x
  | BadSector => rq_on_bad_sector rq = RecordBad
  end.

Definition opens_to (d : D) (name : bytes) (n : nat) (Q : ChunkAccess -> nat -> ChunkState -> Prop) : Prop :=
  exists members w access states,
    Members.open_chain d [full_file name] (rq_encryption rq) = Ok members /\ Walks.new members = Ok w /\
    cw_chunk_count w = Z.of_nat n /\ length states = n /\
    (forall V (visit : Z -> ChunkState -> ChunkAccess -> step V unit) v,
       Walks.walk w visit v = visit_all (fun i s => visit i s access) 0 states v) /\
    forall i s, states !! i = Some s -> Q access i s.

Lemma built_opens nk now space n chunks counts mm stored refs extras file footer name (d : D) :
  backup_ok rq sn rnd -> u64_ok now -> 0 < rq_chunk_size rq <= MAX_CHUNK_SIZE -> space <= U64_MAX -> Z.of_nat n <= 2 ^ 32 ->
  EKeys.new_chain_keys rnd (rq_encryption rq) (rq_chain_id rq) (rq_image_uuid rq) = Ok nk ->
  built rq full_plan sn nk now space n chunks (replicate n Unused) counts mm stored refs extras file footer ->
  open_ro d name = Ok (fw_bytes file) ->
  opens_to d name n (fun access i s =>
    (exists parent, parent = Unused /\
      ((exists c, In c chunks /\ cp_index c = Z.of_nat i /\
          described (Backups.job rq full_plan sn nk) 0 stored refs c parent s) \/
       ((forall c, In c chunks -> cp_index c <> Z.of_nat i) /\ s = Unused))) /\
    forall k r p, stored !! k = Some p -> refs !! k = Some r -> zlen p <= rq_chunk_size rq ->
      s = Stored 0 (ref_hash r) (ref_offset r) (ref_stored_len r) -> Access.read access s = Ok p).
Proof.
  intros Hok Hnow [Hcs Hmax] Hspace Hn Hnk [Hmo Hdel Hdesc Hfit Hst Hext Him] Ho.
  assert (0 <= rq_chunk_size rq <= U32_MAX) as Hcs32 by (unfold MAX_CHUNK_SIZE, U32_MAX in *; lia).
  pose proof (superblock_ok nk now Hok Hnow Hcs32 Hnk) as Hsb.
  destruct mm as [es|]; [|by cbn in Hdel].
  pose proof (zlen_manifest n (MFull es) Hmo eq_refl) as Hml. destruct Hmo as [Hes Hesn].
  assert (u64_ok (zlen es)) as Hcnt by (unfold u64_ok, zlen; lia).
  pose proof (header_fits n (zlen es) Hok Hcs32 ltac:(lia) Hcnt) as Hh.
  set (h := counted (zlen es) _) in *. cbn [is_delta manifest_count] in Him. fold h in Him.
  set (spool := BlockHeader.enc h false ++ manifest_enc (MFull es)) in *.
  assert (zlen spool <= 2 ^ 38) as Hspool.
  { unfold spool. rewrite zlen_app, Hml. pose proof (zlen_header_enc h false Hh). unfold ENTRY_LEN. lia. }
  assert (image_input_ok (File.new space) (Backups.superblock rq full_plan sn nk now) stored [(SManifest, spool); (SExtras, extras)]) as Hin.
  { split; try done; [by apply (bool_decide_unpack _)|by intros [?|[?|[]]]|by apply pages_fit]. }
  destruct (write_image_reads _ _ _ _ _ _ _ _ _ _ Hin Him)
    as (rs & pgs & img & Hst' & _ & Hpay & Hopen & Hisb & _ & _ & Hauth & _ & Hstr & Hrec & _).
  destruct (Hstr SManifest) as (r & Hr & Hh' & _). rewrite Hpay in Hh'. cbn in Hh'.
  change (wk_meta_key (Backups.writer_keys nk)) with (ik_meta_key (nk_keys nk)) in *.
  change (Chunk.kind (Backups.chunk_options rq)) with (rq_aead rq) in *.
  pose proof (full_opens nk now name _ img d Hok Hnk Ho Hopen Hisb Hauth) as Hch.
  destruct (full_walks nk now name (fw_bytes file) img n es h r [] Hr) as (w & Hw & Hms & Hwcs & Hmof);
    [by rewrite app_nil_r|done|by split|done..|].
  destruct (walks_access _ w n [MFull es] Hw Hmof) as (Hcc & access & Hacc & Hv).
  exists [full_member nk now name (fw_bytes file) img], w, access, (map ChunkStates.of_entry es).
  split; [done|]. split; [done|]. split; [done|]. split; [by rewrite length_map|].
  split; [intros V visit v; apply (proj1 (Hv V visit v))|].
  intros i s Hi. split.
  - destruct (Hdesc i s Hi) as (parent & Hp & Hcase). apply lookup_replicate in Hp as [-> _]. by exists Unused.
  - intros k ref p Hk Hrk Hlen ->. destruct Hacc as (first & rest & kind & Hfr & Hkind & ->).
    rewrite Hms in Hfr. injection Hfr as <- <-. cbn [full_member om_superblock] in Hkind.
    rewrite superblock_aead in Hkind. injection Hkind as <-.
    unfold Access.read. cbn [ca_readers ca_keys Walks.access ca_aead ca_image_kind ca_max_plaintext]. rewrite Hms.
    change (Z.to_nat 0) with O. cbn [map lookup list_lookup ok_or bind full_member om_chunks Walks.access_keys om_keys ak_data_key ak_dedup_key om_superblock].
    destruct (Forall2_lookup_l _ _ _ _ _ Hst' Hrk) as (p' & Hp' & pre & x & post & Hrs & Hoff & _ & _ & Hop).
    assert (p' = p) as -> by congruence.
    rewrite <- (open_file _ _ Hopen). change (ChunkReaders.new (ir_file img) (data_end_offset (ir_footer img))) with (ChunkReaders.of_image img).
    change (ChunkReaders.read_record (ChunkReaders.of_image img) (ref_offset ref)) with (Img.read_chunk_record img (ref_offset ref)).
    rewrite Hoff, (Hrec _ _ _ Hrs). cbn [bind].
    apply Hop. by rewrite Hwcs.
Qed.

(** ** The job *)
Lemma image_name_is_image (plan : ResolvedBackupPlan) (uuid : Id) : Scans.is_image (Backups.image_name plan uuid) = true.
Proof.
  unfold Scans.is_image, Backups.image_name. set (pre := Ids.to_uuid_string (bp_chain_id plan)).
  rewrite !app_assoc. set (front := ((((((pre ++ _) ++ _) ++ _) ++ _) ++ _) ++ _)).
  apply andb_true_iff. split; [apply ends_with_spec; by exists front|]. apply negb_true_iff, not_true_iff_false.
  intros [other He]%ends_with_spec. apply (f_equal (fun l => head (rev l))) in He. rewrite !rev_app_distr in He. done.
Qed.

Lemma resolve_full (d : D) now plan : rq_member_type rq = TypeFull ->
  BackupPlans.resolve (Backups.plan_request rq) ModeBlock d now = Ok plan -> plan = full_plan.
Proof.
  intros Ht. unfold BackupPlans.resolve, BackupPlans.resolve_parent_chain. cbn [pq_member_type Backups.plan_request BackupPlans.validate_mode bind].
  rewrite Ht, bool_decide_true by done. cbn [pq_parent]. cbn. destruct (rq_parent rq); [by cbn|]. cbn [bind].
  unfold BackupPlans.from_parent. cbn. by intros [= <-].
Qed.

Lemma plan_todo m u n : Forall RangeSpec.valid (em_extents m) -> 0 < bs_size_bytes (sn_source sn) < 2 ^ 63 ->
  0 < rq_chunk_size rq <= MAX_CHUNK_SIZE -> Z.of_nat n = div_ceil (bs_size_bytes (sn_source sn)) (rq_chunk_size rq) ->
  RangeSpec.plans (rq_chunk_size rq) (bs_size_bytes (sn_source sn)) m (RangeSpec.remaining (rq_chunk_size rq) (bs_size_bytes (sn_source sn)) u) ->
  todo_ok n 0 (RangeSpec.remaining (rq_chunk_size rq) (bs_size_bytes (sn_source sn)) u).
Proof.
  intros Hv Hs [Hc Hmax] Hn [Hf Hsort _ _]. split; [|done]. eapply Forall_impl; [exact Hf|]. intros c [Hform Hi]. cbn in Hi.
  rewrite Hn. split; [|done]. rewrite Hform. cbn.
  pose proof (div_ceil_spec (bs_size_bytes (sn_source sn)) (rq_chunk_size rq) ltac:(lia) Hc).
  unfold chunk_ok, u64_ok, u32_ok, MAX_STORED_LEN, MAX_CHUNK_SIZE in *. cbn. split_and!; nia.
Qed.

(** The steps of a successful job around the image. *)
Lemma job_Ok set_root space (d d' : D) run run' report : rq_member_type rq = TypeFull ->
  Backups.backup_block_with rq sn rnd set_root space (d, run) = ((d', run'), Ok report) ->
  let name := Backups.image_name full_plan (rq_image_uuid rq) in
  exists used nk now reporter tmp d1 run1 d2 run2 counts len durability d0,
    Backups.validate_chunk_size (rq_chunk_size rq) = Ok tt /\
    Used.new (sn_map sn) (rq_chunk_size rq) (bs_size_bytes (sn_source sn)) = Ok used /\
    now_unix d0 = (fst (now_unix d0), now) /\
    EKeys.new_chain_keys rnd (rq_encryption rq) (rq_chain_id rq) (rq_image_uuid rq) = Ok nk /\
    tmp <> name /\
    Backups.write_image rq full_plan sn nk now used reporter space tmp name (d1, run1) = ((d2, run2), Ok (counts, len, durability)) /\
    Destination.contents d1 name = Destination.contents d name /\
    Destination.contents d' name = Destination.contents d2 name /\
    br_stored_chunks report = ct_stored counts /\ br_total_chunks report = uc_chunk_count used /\ br_image_bytes report = len.
Proof.
  intros Ht Hrun name. pose proof (image_name_is_image full_plan (rq_image_uuid rq)) as Himg. fold name in Himg.
  unfold Backups.backup_block_with in Hrun.
  apply step_bind_Ok in Hrun as ([d1 run1] & [] & Hl & Hrun). unfold lift in Hl. injection Hl as <- <- Hval.
  apply step_bind_Ok in Hrun as ([d2 run2] & [] & ->%run_state & Hrun).
  apply step_bind_Ok in Hrun as ([d3 run3] & used & Hl & Hrun). unfold lift in Hl. injection Hl as <- <- Hused.
  apply step_bind_Ok in Hrun as ([d4 run4] & reporter & ->%run_state & Hrun).
  apply step_bind_Ok in Hrun as ([d5 run5] & [] & ->%run_state & Hrun).
  apply step_bind_Ok in Hrun as ([d6 run6] & [] & Hlock%dest_Ok & Hrun).
  apply step_bind_Ok in Hrun as ([d7 run7] & now & Hnow & Hrun).
  pose proof (BackupSafety.acquire_lock_keeps name rq Himg d) as Hk6. rewrite Hlock in Hk6.
  apply dest_Ok in Hnow. pose proof (keeps_clock name d6) as Hk7. rewrite Hnow in Hk7.
  apply step_bind_Ok in Hrun as ([d8 run8] & plan & Hplan%dest_Ok & Hrun). unfold reads in Hplan. injection Hplan as <- Hplan.
  apply resolve_full in Hplan as ->; [|done].
  apply step_bind_Ok in Hrun as ([d9 run9] & nk & Hl & Hrun). unfold lift in Hl. injection Hl as <- <- Hnk.
  apply step_bind_Ok in Hrun as ([d10 run10] & tmp & Htmp%dest_Ok & Hrun).
  fold name in Htmp, Hrun.
  pose proof (image_not_tmp d7 name tmp name) as Hne. rewrite Htmp in Hne. specialize (Hne eq_refl Himg).
  pose proof (create_tmp_frame d7 name name) as Hk10. rewrite Htmp in Hk10. cbn [fst snd] in *.
  apply step_bind_Ok in Hrun as ([d11 run11] & [[counts len] durability] & Hwrite & Hrun).
  unfold Backups.guarded in Hwrite. destruct (Backups.write_image _ _ _ _ _ _ _ _ _ _ _) as [[d12 run12] [a|e]] eqn:Ew;
    [|by destruct (delete d12 tmp)]. injection Hwrite as -> -> ->.
  apply step_bind_Ok in Hrun as ([d13 run13] & later & Hlater%dest_Ok & Hrun).
  pose proof (keeps_clock name d11) as Hk13. rewrite Hlater in Hk13.
  apply step_bind_Ok in Hrun as ([d14 run14] & warning & Hpub%dest_Ok & Hrun).
  pose proof (BackupSafety.record_published_keeps name (rq_set_name rq) later Himg d13) as Hk14. rewrite Hpub in Hk14.
  injection Hrun as <- <- <-. cbn [fst] in *. unfold clock in Hnow.
  exists used, nk, now, reporter, tmp, d10, run10, d11, run11, counts, len, durability, d6.
  split_and!; try done; try congruence; try (by intros ->).
  - destruct (now_unix d6). by injection Hnow as <- <-.
  - rewrite Hk10 by congruence. congruence.
Qed.

(** A chunk the plan does not read holds no used byte. *)
Lemma unused_uncovered used i n : 0 < bs_size_bytes (sn_source sn) < 2 ^ 63 -> 0 < rq_chunk_size rq <= MAX_CHUNK_SIZE ->
  Z.of_nat n = div_ceil (bs_size_bytes (sn_source sn)) (rq_chunk_size rq) ->
  let chunks := RangeSpec.remaining (rq_chunk_size rq) (bs_size_bytes (sn_source sn)) used in
  RangeSpec.plans (rq_chunk_size rq) (bs_size_bytes (sn_source sn)) (sn_map sn) chunks -> (i < n)%nat ->
  (forall c, In c chunks -> cp_index c <> Z.of_nat i) ->
  let c := RangeSpec.chunk_at (rq_chunk_size rq) (bs_size_bytes (sn_source sn)) (Z.of_nat i) in
  forall x, cp_offset c <= x < cp_offset c + cp_len c -> ~ RangeSpec.covers (em_extents (sn_map sn)) x.
Proof.
  intros Hsize [Hcs _] Hnc chunks [Hform _ Hused _] Hlt Hno c x Hx Hcov. subst c. cbn [RangeSpec.chunk_at cp_offset cp_len] in Hx.
  pose proof (div_ceil_spec (bs_size_bytes (sn_source sn)) (rq_chunk_size rq) ltac:(lia) Hcs) as Hdc.
  destruct (Hused x) as (c & Hin & Hxc); [nia|done|].
  destruct (proj1 (List.Forall_forall _ _) Hform c Hin) as [Hc Hci]. cbn beta in Hci. rewrite Hc in Hxc. cbn in Hxc.
  apply (Hno c Hin). assert (cp_index c * rq_chunk_size rq < (Z.of_nat i + 1) * rq_chunk_size rq) by lia.
  assert (Z.of_nat i * rq_chunk_size rq < (cp_index c + 1) * rq_chunk_size rq) by lia. nia.
Qed.

Lemma parents_length (d : D) plan n parents : parent_states d rq plan n parents -> length parents = n.
Proof.
  unfold parent_states. destruct (bp_parent plan) as [parent|].
  - intros (members & w & mms & _ & _ & Hms & ->).
    apply (proj1 (merged_states_lookup n mms 0 (manifest_states_ok _ _ _ _ Hms))).
  - intros ->. by rewrite length_replicate.
Qed.

Lemma described_shows nk stored refs access c s :
  described (Backups.job rq full_plan sn nk) 0 stored refs c Unused s ->
  cp_len c <= rq_chunk_size rq ->
  (forall k r p, stored !! k = Some p -> refs !! k = Some r -> zlen p <= rq_chunk_size rq ->
     s = Stored 0 (ref_hash r) (ref_offset r) (ref_stored_len r) -> Access.read access s = Ok p) ->
  shows access c s.
Proof.
  intros Hd Hlen Hr. destruct Hd as [Hz Ha|k r Hz Hk Hrk|m hash offset len _ Hp _|Hb]; try done.
  split; [done|]. unfold source_chunk, source_bytes in Hk, Hz. cbn [jb_snapshot Backups.job] in *.
  apply (Hr k r); try done. lia.
Qed.

Lemma full_shows nk space n counts mm stored refs extras file footer now (d : D) name used :
  backup_ok rq sn rnd -> u64_ok now -> 0 < rq_chunk_size rq <= MAX_CHUNK_SIZE -> space <= U64_MAX -> Z.of_nat n <= 2 ^ 32 ->
  EKeys.new_chain_keys rnd (rq_encryption rq) (rq_chain_id rq) (rq_image_uuid rq) = Ok nk ->
  let size := bs_size_bytes (sn_source sn) in
  let chunks := RangeSpec.remaining (rq_chunk_size rq) size used in
  Z.of_nat n = div_ceil size (rq_chunk_size rq) -> RangeSpec.plans (rq_chunk_size rq) size (sn_map sn) chunks ->
  built rq full_plan sn nk now space n chunks (replicate n Unused) counts mm stored refs extras file footer ->
  open_ro d name = Ok (fw_bytes file) ->
  opens_to d name n (fun access i s => shows access (RangeSpec.chunk_at (rq_chunk_size rq) size (Z.of_nat i)) s).
Proof.
  intros Hok Hnow Hcs Hspace Hn Hnk size chunks Hnc Hplans Hb Ho. pose proof (RangeSpec.pl_form _ _ _ _ Hplans) as Hform.
  destruct (built_opens nk now space n chunks counts mm stored refs extras file footer name d Hok Hnow Hcs Hspace Hn Hnk Hb Ho)
    as (members & w & access & states & Hch & Hw & Hcc & Hl & Hv & Hs).
  exists members, w, access, states. do 5 (split; [done|]). intros i s Hi.
  destruct (Hs i s Hi) as [(parent & -> & Hcase) Hread]. pose proof (lookup_lt_Some _ _ _ Hi) as Hlt.
  destruct Hcase as [(c & Hin & Hidx & Hd)|[Hno ->]].
  - destruct (proj1 (List.Forall_forall _ _) Hform c Hin) as [Hc _]. rewrite <- Hidx, <- Hc.
    eapply described_shows; [exact Hd| |exact Hread]. rewrite Hc. cbn. lia.
  - exact (unused_uncovered used i n (bk_size _ _ _ Hok) Hcs Hnc Hplans ltac:(lia) Hno).
Qed.
End full.
End BackupImage.

(** ** Properties *)

(** C10: A full backup that reports success can be read back. Its name was free and
    now holds an image; opened under the protection of the request it is a chain
    of its own, of as many chunks as the report says, whose walk shows the source:
    a chunk recorded as zero is zeros, a stored one has a payload that decodes to
    the source's bytes, one recorded as unused holds no byte of the used-block
    map, and an unreadable one is only recorded where the request tolerates it. *)
Theorem full_backup_reads_back `{PrimitiveLaws} `{BlockDeviceLaws Dev} `{PublisherLaws D} `{CatalogJson}
    (rq : BackupRequest) (sn : Snapshotted Dev) (rnd : Randomness) set_root space (d d' : D) run run' report :
  BackupImage.backup_ok rq sn rnd -> rq_member_type rq = TypeFull -> (forall d : D, u64_ok (snd (now_unix d))) -> space <= U64_MAX ->
  bs_size_bytes (sn_source sn) <= 2 ^ 32 * rq_chunk_size rq ->
  Backups.backup_block_with rq sn rnd set_root space (d, run) = ((d', run'), Ok report) ->
  let name := Backups.image_name (BackupImage.full_plan rq) (rq_image_uuid rq) in
  let chunk i := RangeSpec.chunk_at (rq_chunk_size rq) (bs_size_bytes (sn_source sn)) (Z.of_nat i) in
  Destination.contents d name = None /\
  exists b, Destination.contents d' name = Some b /\ br_image_bytes report = zlen b /\
    (open_ro d' name = Ok b ->
     exists members w access states,
       Members.open_chain d' [BackupImage.full_file rq name] (rq_encryption rq) = Ok members /\ Walks.new members = Ok w /\
       cw_chunk_count w = br_total_chunks report /\ zlen states = br_total_chunks report /\
       (forall V (visit : Z -> ChunkState -> ChunkAccess -> step V unit) v,
          Walks.walk w visit v = visit_all (fun i s => visit i s access) 0 states v) /\
       forall i s, states !! i = Some s -> BackupImage.shows rq sn access (chunk i) s).
Proof.
  intros Hok Ht Hclock Hspace Hsize Hrun name chunk.
  destruct (BackupImage.job_Ok rq sn rnd set_root space d d' run run' report Ht Hrun)
    as (used & nk & now & reporter & tmp & d1 & run1 & d2 & run2 & counts & len & durability & d0 &
        Hval & Hused & Hnow & Hnk & Htmp & Hw & Hd1 & Hd' & _ & Htotal & Hlen).
  assert (0 < rq_chunk_size rq <= MAX_CHUNK_SIZE) as Hcs.
  { unfold Backups.validate_chunk_size in Hval. apply ensure_Ok in Hval. bprop. unfold MIN_CHUNK_SIZE, MAX_CHUNK_SIZE in *. lia. }
  pose proof (Hclock d0) as Hnow64. rewrite Hnow in Hnow64. cbn in Hnow64.
  pose proof (BackupImage.bk_size _ _ _ Hok) as Hpos. set (size := bs_size_bytes (sn_source sn)) in *.
  assert (size + rq_chunk_size rq <= 2 ^ 64) as Hroom by (unfold MAX_CHUNK_SIZE in *; lia).
  destruct (RangeSpec.new_plans (rq_chunk_size rq) size ltac:(lia) Hroom (sn_map sn) used (BackupImage.bk_map _ _ _ Hok) ltac:(lia) Hused)
    as (Hps & Hplans & Hcount & _).
  pose proof (div_ceil_spec size (rq_chunk_size rq) ltac:(lia) ltac:(lia)) as Hdc.
  set (n := Z.to_nat (div_ceil size (rq_chunk_size rq))).
  assert (Z.of_nat n = div_ceil size (rq_chunk_size rq)) as Hn by (unfold n; nia).
  assert (Z.of_nat n <= 2 ^ 32) as Hn32 by nia.
  assert (0 < rq_chunk_size rq <= U32_MAX) as Hcs32 by (unfold MAX_CHUNK_SIZE, U32_MAX in *; lia).
  pose proof (BackupImage.superblock_ok rq sn rnd nk now Hok Hnow64 ltac:(lia) Hnk) as Hsb.
  pose proof (BackupImage.plan_todo rq sn (sn_map sn) used n (BackupImage.bk_map _ _ _ Hok) Hpos Hcs Hn Hplans) as Htodo.
  eapply (BackupImage.write_image_Ok rq (BackupImage.full_plan rq) sn nk now used n (replicate n Unused)) in Hw
    as (mm & stored & refs & extras & file & footer & Hb & Hnone & Hsome & ->);
    [|done|exact Hcs32|done|done|exact Hps|exact Htodo|lia|congruence|done| |done|done].
  2: { apply (BackupImage.header_fits rq sn rnd n 0 Hok ltac:(lia) ltac:(lia) ltac:(done)). }
  split; [unfold name; by rewrite <- Hd1|]. exists (fw_bytes file). split; [unfold name; by rewrite Hd'|]. split; [done|]. intros Ho.
  destruct (BackupImage.full_shows rq sn rnd nk space n counts mm stored refs extras file footer now d' name used
    Hok Hnow64 Hcs Hspace Hn32 Hnk Hn Hplans Hb Ho) as (members & w & access & states & Hch & Hwk & Hcc & Hl & Hv & Hs).
  exists members, w, access, states. split; [done|]. split; [done|]. rewrite Htotal, Hcount, <- Hn.
  split; [done|]. split; [unfold zlen; by rewrite Hl|]. split; [done|]. exact Hs.
Qed.

(** C11: What a pass over the source records, whether the member is full or builds on
    a parent. The manifest it leaves is well formed and announces its own length;
    applied to the parent's states it gives every chunk of the source a state that
    describes it - zeros, a payload of this member, the parent's payload with the
    same content hash, or, where tolerated, unreadable - and marks every chunk
    without used bytes as unused. *)
Theorem pass_describes_source `{PrimitiveLaws} `{BlockDeviceLaws Dev} `{Destination D} (d : D) (rq : BackupRequest)
    (plan : ResolvedBackupPlan) (sn : Snapshotted Dev) (nk : NewChainKeys) (now : Z) (mac : option bytes) (space : Z)
    (w0 : ImageWriter) (used : UsedChunks) (n : nat) (parents : list ChunkState) run rep st' u :
  Sb.sb_ok (Backups.superblock rq plan sn nk now) -> space <= U64_MAX ->
  Writer.create (File.new space) (Backups.superblock rq plan sn nk now) mac = Ok w0 ->
  0 < rq_chunk_size rq <= MAX_CHUNK_SIZE -> Forall RangeSpec.valid (em_extents (sn_map sn)) ->
  0 < bs_size_bytes (sn_source sn) < 2 ^ 63 ->
  Used.new (sn_map sn) (rq_chunk_size rq) (bs_size_bytes (sn_source sn)) = Ok used ->
  uc_chunk_count used = Z.of_nat n -> Z.of_nat n < 2 ^ 62 -> 0 <= bp_seq_in_chain plan ->
  BlockHeader.ok (Backups.manifest_header rq sn (Z.of_nat n)) -> parent_states d rq plan n parents ->
  let j := Backups.job rq plan sn nk in
  Backups.scan d rq plan j (Z.of_nat n) (run, rep, Backups.new_pass w0 used) = (st', Ok u) ->
  exists mm stored refs,
    pa_spool (snd st') = BlockHeader.enc (counted (manifest_count mm) (Backups.manifest_header rq sn (Z.of_nat n))) (is_delta mm) ++
      manifest_enc mm /\
    manifest_ok n mm /\ is_delta mm = delta_manifest plan /\ appended j w0 stored refs (snd st') /\
    ct_stored (pa_counts (snd st')) = zlen stored /\
    (is_delta mm = true -> ct_changed (pa_counts (snd st')) = manifest_count mm) /\
    forall i s, apply_manifest parents mm !! i = Some s -> exists parent, parents !! i = Some parent /\
      let c := RangeSpec.chunk_at (rq_chunk_size rq) (bs_size_bytes (sn_source sn)) (Z.of_nat i) in
      described j (member_no plan j) stored refs c parent s \/
      (s = Unused /\ forall x, cp_offset c <= x < cp_offset c + cp_len c -> ~ RangeSpec.covers (em_extents (sn_map sn)) x).
Proof.
  intros Hsb Hspace Hcreate Hcs Hv Hsize Hused Hcount Hn Hseq Hh Hpar j Hscan.
  destruct (create_rep (rq_aead rq) (ik_meta_key (nk_keys nk)) (File.new space) _ _ _ eq_refl Hsb Hcreate) as (Hrep & _ & Hcap).
  assert (bs_size_bytes (sn_source sn) + rq_chunk_size rq <= 2 ^ 64) as Hroom by (unfold MAX_CHUNK_SIZE in *; lia).
  destruct (RangeSpec.new_plans (rq_chunk_size rq) _ ltac:(lia) Hroom (sn_map sn) used Hv ltac:(lia) Hused) as (Hps & Hplans & Hc & _).
  rewrite Hcount in Hc.
  pose proof (BackupImage.plan_todo rq sn (sn_map sn) used n Hv Hsize Hcs Hc Hplans) as Htodo.
  eapply scan_Ok in Hscan as (mm & stored & refs & [Hsp Hmo Ha Hf Hd Hst Hch] & Hdel);
    [|exact Hrep|by rewrite Hcap| |exact Hroom|exact Hps|exact Htodo|done|exact Hseq|exact Hh|exact Hpar];
    [|unfold MAX_CHUNK_SIZE, U32_MAX in *; lia].
  exists mm, stored, refs. do 6 (split; [done|]). intros i s Hi. destruct (Hd i s Hi) as (parent & Hp & Hcase).
  exists parent. split; [done|]. intros c. destruct Hcase as [(c' & Hin & Hidx & Hd')|[Hno ->]].
  - left. destruct Hplans as [Hform _ _ _]. destruct (proj1 (List.Forall_forall _ _) Hform c' Hin) as [Hc' _].
    subst c. by rewrite <- Hidx, <- Hc'.
  - right. split; [done|]. apply lookup_lt_Some in Hp. rewrite (BackupImage.parents_length rq d plan n parents Hpar) in Hp.
    exact (BackupImage.unused_uncovered rq sn used i n Hsize Hcs Hc Hplans Hp Hno).
Qed.
