(* ===== verification/Sysfs.v ===== *)
(** * Block devices and mounts of the running system ([crates/lr-core/src/sysfs.rs])

    Paths are the bytes of a [Path]. What the kernel shows (sysfs, the mount
    table) and what commands print is a value of [Host], the state of the
    machine at the time of one look; everything made of it is a function. *)

From S2P Require Import Prelude Text Maps Extents.

(** ** Paths *)
Module Paths.
Definition SLASH : byte := Byte.x2f.
Definition DOT : bytes := [Byte.x2e].
Definition DOTDOT : bytes := [Byte.x2e; Byte.x2e].

(** [Path::join]. *)
Definition join (a b : bytes) : bytes :=
  match b with
  | c :: _ => if bool_decide (c = SLASH) then b
              else match a with
                   | [] => b
                   | _ => if Text.ends_with [SLASH] a then a ++ b else a ++ [SLASH] ++ b
                   end
  | [] => match a with [] => [] | _ => if Text.ends_with [SLASH] a then a else a ++ [SLASH] end
  end.

(** [Path::components]: absolute or not, a leading [.], and the names. *)
Definition names (p : bytes) : list bytes :=
  List.filter (fun n => negb (bool_decide (n = [])) && negb (bool_decide (n = DOT))) (Text.split SLASH p).
Definition components (p : bytes) : bool * bool * list bytes :=
  let absolute := Text.starts_with [SLASH] p in
  (absolute, negb absolute && match Text.split SLASH p with n :: _ => bool_decide (n = DOT) | [] => false end, names p).

(** [Path]'s [==]. *)
Definition eqb (a b : bytes) : bool := bool_decide (components a = components b).

Definition file_name (p : bytes) : option bytes :=
  match last (names p) with
  | Some n => if bool_decide (n = DOTDOT) then None else Some n
  | None => None
  end.
End Paths.

(** ** Data *)
Record SysfsBlockDevice := {
  sd_name : bytes;
  sd_path : bytes;
  sd_size_bytes : Z;
  sd_logical_block_size : Z;
  sd_physical_block_size : Z;
  sd_dev_id : bytes;
  sd_removable : bool;
  sd_read_only : bool;
  sd_partition : option Z;
  sd_parent : option bytes;
  sd_holders : list bytes;
}.

Record MountEntry := {
  me_source : bytes;
  me_mountpoint : bytes;
  me_fs_type : bytes;
  me_options : bytes;
  me_dev_id : bytes;
}.

(** [std::fs::metadata], as far as it is looked at. *)
Record Metadata := { md_is_dir : bool; md_is_file : bool; md_len : Z; md_rdev : Z; md_readonly : bool }.

(** What the machine answers. Directory listings have no order of their own. *)
Record Host := {
  ho_sysfs_root : bytes;
  (** [read_to_string], [read_dir], [metadata], [canonicalize]. *)
  ho_read_to_string : bytes -> result bytes;
  ho_read_dir : bytes -> result (list bytes);
  ho_metadata : bytes -> result Metadata;
  ho_canonicalize : bytes -> result bytes;
  ho_mountinfo : result bytes;
}.

Module Sysfs.
Definition str_dev : bytes := Text.str "/dev".

Definition is_dir (h : Host) (p : bytes) : bool :=
  match ho_metadata h p with Ok m => md_is_dir m | Err _ => false end.
Definition exists_ (h : Host) (p : bytes) : bool := is_ok (ho_metadata h p).

(** [lr_unsafe::read_sysfs_string], [read_sysfs_u64]. *)
Definition read_sysfs_string (h : Host) (p : bytes) : result bytes :=
  let* s := ho_read_to_string h p in Ok (Text.trim s).
Definition parse_file (max : Z) (h : Host) (p : bytes) : result Z :=
  let* raw := read_sysfs_string h p in
  match Text.parse_unsigned max raw with Some v => Ok v | None => Err (Io OtherIo) end.
Definition parse_u64_file : Host -> bytes -> result Z := parse_file U64_MAX.
Definition parse_u32_file : Host -> bytes -> result Z := parse_file U32_MAX.
Definition read_bool_file (h : Host) (p : bytes) : option bool :=
  match read_sysfs_string h p with Ok v => Some (negb (bool_decide (v = Text.str "0"))) | Err _ => None end.

Definition unwrap_or {A} (default : A) (r : result A) : A := match r with Ok a => a | Err _ => default end.
Definition ok {A} (r : result A) : option A := match r with Ok a => Some a | Err _ => None end.

Definition class_block (h : Host) (name : bytes) : bytes :=
  Paths.join (Paths.join (ho_sysfs_root h) (Text.str "class/block")) name.

(** Names sorted as [String]s. *)
Definition name_leb (a b : bytes) : bool := match bytes_cmp a b with Gt => false | _ => true end.

Definition read_dir_names (h : Host) (dir : bytes) : list bytes :=
  match ho_read_dir h dir with
  | Err _ => []
  | Ok entries => sort_by name_leb (map Text.utf8_lossy entries)
  end.

Definition read_holders (h : Host) (name : bytes) : list bytes :=
  read_dir_names h (Paths.join (class_block h name) (Text.str "holders")).

Definition parent_dir_name (real : bytes) : option bytes :=
  match rev (Paths.names real) with
  | _ :: parent :: _ => if bool_decide (parent = Paths.DOTDOT) then None else Some (Text.utf8_lossy parent)
  | _ => None
  end.

Definition read_device (h : Host) (name dir : bytes) : option SysfsBlockDevice :=
  match parse_u64_file h (Paths.join dir (Text.str "size")) with
  | Err _ => None
  | Ok size_sectors =>
    let logical := unwrap_or 512 (parse_u32_file h (Paths.join dir (Text.str "queue/logical_block_size"))) in
    let physical := unwrap_or logical (parse_u32_file h (Paths.join dir (Text.str "queue/physical_block_size"))) in
    let partition := ok (parse_u32_file h (Paths.join dir (Text.str "partition"))) in
    Some {| sd_name := name; sd_path := Paths.join str_dev name; sd_size_bytes := wrapping_mul size_sectors 512;
            sd_logical_block_size := logical; sd_physical_block_size := physical;
            sd_dev_id := unwrap_or (Text.str "0:0") (read_sysfs_string h (Paths.join dir (Text.str "dev")));
            sd_removable := default false (read_bool_file h (Paths.join dir (Text.str "removable")));
            sd_read_only := default false (read_bool_file h (Paths.join dir (Text.str "ro")));
            sd_partition := partition;
            sd_parent := match partition with
                         | None => None
                         | Some _ => match ho_canonicalize h dir with
                                     | Ok real => parent_dir_name real
                                     | Err _ => None
                                     end
                         end;
            sd_holders := read_holders h name |}
  end.

Definition is_whole_disk (d : SysfsBlockDevice) : bool := match sd_partition d with None => true | Some _ => false end.

Definition list_devices_in (h : Host) (dir : bytes) (include_partitions : bool) : result (list SysfsBlockDevice) :=
  match ho_read_dir h dir with
  | Err (Io NotFound) => Ok []
  | Err e => Err e
  | Ok entries =>
    let devices := omap (fun entry =>
      let name := Text.utf8_lossy entry in
      let path := Paths.join dir entry in
      if negb (is_dir h path) then None
      else match read_device h name path with
           | Some device => if include_partitions || is_whole_disk device then Some device else None
           | None => None
           end) entries in
    Ok (sort_by (fun a b => name_leb (sd_name a) (sd_name b)) devices)
  end.

Definition list_block_devices (h : Host) : result (list SysfsBlockDevice) :=
  list_devices_in h (Paths.join (ho_sysfs_root h) (Text.str "block")) false.
Definition list_all_block_devices (h : Host) : result (list SysfsBlockDevice) :=
  list_devices_in h (Paths.join (ho_sysfs_root h) (Text.str "class/block")) true.

Definition device_name (device : bytes) : result bytes :=
  match Paths.file_name device with
  | Some n => Ok (Text.utf8_lossy n)
  | None => Err (Io OtherIo)
  end.

Definition logical_block_size (h : Host) (device : bytes) : result Z :=
  let* name := device_name device in
  parse_u32_file h (Paths.join (class_block h name) (Text.str "queue/logical_block_size")).

(** ** The mount table *)

(** [str::replace]; [fuel] is the length of the text. *)
Fixpoint replace_fuel (fuel : nat) (p to s : bytes) : bytes :=
  match fuel with
  | O => s
  | S fuel =>
    match Text.strip_prefix p s with
    | Some rest => to ++ replace_fuel fuel p to rest
    | None => match s with [] => [] | c :: s => c :: replace_fuel fuel p to s end
    end
  end.
Definition replace (p to s : bytes) : bytes := replace_fuel (length s) p to s.

(** [split_once] of a string. *)
Fixpoint split_once_str (p s : bytes) : option (bytes * bytes) :=
  match Text.strip_prefix p s with
  | Some rest => Some ([], rest)
  | None =>
    match s with
    | [] => None
    | c :: s => match split_once_str p s with Some (a, b) => Some (c :: a, b) | None => None end
    end
  end.

Definition BACKSLASH : byte := Byte.x5c.
Definition code (digits : string) : bytes := BACKSLASH :: Text.str digits.

Definition unescape_mount_field (field : bytes) : bytes :=
  replace (code "134") [BACKSLASH] (replace (code "012") [Text.LF] (replace (code "011") [Byte.x09]
    (replace (code "040") [Byte.x20] field))).

Definition parse_mount_line (line : bytes) : option MountEntry :=
  match split_once_str (Text.str " - ") line with
  | None => None
  | Some (head, rest) =>
    let left_fields := Text.split_whitespace head in
    let right_fields := Text.split_whitespace rest in
    match left_fields, right_fields with
    | _ :: _ :: dev_id :: _ :: mountpoint :: _ :: _, fs_type :: source :: options :: _ =>
      Some {| me_source := unescape_mount_field source; me_mountpoint := unescape_mount_field mountpoint;
              me_fs_type := fs_type; me_options := options; me_dev_id := dev_id |}
    | _, _ => None
    end
  end.

Definition parse_mountinfo (raw : bytes) : list MountEntry := omap parse_mount_line (Text.lines raw).

Definition read_mounts (h : Host) : result (list MountEntry) :=
  let* raw := ho_mountinfo h in Ok (parse_mountinfo raw).

Definition mounts_of (dev_id : option bytes) (device : bytes) (m : MountEntry) : bool :=
  bool_decide (me_source m = Text.utf8_lossy device) || Paths.eqb (me_source m) device ||
  bool_decide (dev_id = Some (me_dev_id m)).

Definition read_mountpoints (h : Host) (device : bytes) : result (list bytes) :=
  let name := unwrap_or [] (device_name device) in
  let dev_id := ok (read_sysfs_string h (Paths.join (class_block h name) (Text.str "dev"))) in
  let* mounts := read_mounts h in
  Ok (map me_mountpoint (List.filter (mounts_of dev_id device) mounts)).

(** The paths in the order of their text; of two with one text, the first. *)
Definition merge_mountpoints (a b : list bytes) : list bytes :=
  map snd (fold_left (fun m p =>
    let key := Text.utf8_lossy p in
    match BMap.get key m with Some _ => m | None => BMap.insert key p m end) (a ++ b) []).
End Sysfs.
