(* ===== verification/Discovery.v ===== *)
(** * Source discovery ([crates/lr-core/src/discovery.rs])

    What the engine finds out about a device or an image file before it touches
    it: its size, its partitions with whatever holds or mounts them, the
    filesystem on it. The partition-table parsers are the [gpt] and [mbrman]
    crates, [blkid] and [btrfs] are commands: what they say is part of the
    machine's answers. *)

From S2P Require Import Prelude Text Maps Extents Sysfs.

Inductive BlockDeviceType := Disk | Partition | Loop | DeviceMapper | Md | Ram | Rom | RegularFile | Other.
#[export] Instance BlockDeviceType_eq_dec : EqDecision BlockDeviceType.
Proof. solve_decision. Defined.

Record DeviceFacts := {
  dv_name : bytes;
  dv_path : bytes;
  dv_dev_type : BlockDeviceType;
  dv_size_bytes : Z;
  dv_logical_block_size : Z;
  dv_physical_block_size : Z;
  dv_dev_id : option bytes;
  dv_removable : bool;
  dv_read_only : bool;
  dv_model : option bytes;
  dv_serial : option bytes;
  dv_wwid : option bytes;
}.

Record FsFacts := {
  fs_type : bytes;
  fs_uuid : option bytes;
  fs_label : option bytes;
  fs_block_size : option Z;
  fs_usage : option bytes;
}.

Inductive PartitionTableKind := Gpt | Mbr | NoTable.

Record PartitionTableInfo := {
  pt_kind : PartitionTableKind;
  pt_disk_guid : option bytes;
  pt_logical_block_size : Z;
  pt_first_usable_lba : option Z;
  pt_last_usable_lba : option Z;
  pt_entry_count : option Z;
  pt_has_mbr_signature : bool;
}.

Record PartitionLayout := {
  pl_index : Z;
  pl_name : option bytes;
  pl_path : option bytes;
  pl_start_lba : Z;
  pl_size_bytes : Z;
  pl_type_guid : option bytes;
  pl_type_name : option bytes;
  pl_part_uuid : option bytes;
  pl_mbr_type : option Z;
  pl_fs_type : option bytes;
  pl_fs_uuid : option bytes;
  pl_fs_label : option bytes;
  pl_mountpoints : list bytes;
  pl_holders : list bytes;
  pl_bootable : bool;
}.

Record LvmFacts := {
  lv_is_pv : bool;
  lv_is_dm : bool;
  lv_vg_name : option bytes;
  lv_lv_name : option bytes;
  lv_dm_name : option bytes;
  lv_thin : option bool;
}.

Record BtrfsSubvolume := { bs_id : Z; bs_parent_id : option Z; bs_path : bytes }.
Record BtrfsFacts := {
  bf_fs_uuid : option bytes;
  bf_label : option bytes;
  bf_mountpoints : list bytes;
  bf_subvolumes : list BtrfsSubvolume;
  bf_default_subvolid : option Z;
  bf_probed : bool;
}.

Record SourceLayout := {
  sl_device : bytes;
  sl_device_facts : DeviceFacts;
  sl_partition_table : option PartitionTableInfo;
  sl_partitions : list PartitionLayout;
  sl_fs : option FsFacts;
  sl_mountpoints : list bytes;
  sl_holders : list bytes;
  sl_lvm : option LvmFacts;
  sl_btrfs : option BtrfsFacts;
  sl_warnings : list string;
}.

(** ** What the crates, the [ioctl]s and the commands say *)

(** A partition of the [gpt] crate, its type compared with the ones it names:
    the name the table of [gpt_type_name] gives it, or what [Debug] prints. *)
Record GptPartition := {
  gp_first_lba : Z;
  gp_last_lba : Z;
  gp_type_guid : bytes;
  gp_type_name : bytes;
  gp_part_guid : bytes;
  gp_bootable_flag : bool;
  gp_is_bios : bool;
}.
Record GptDisk := {
  gd_guid : bytes;
  gd_first_usable : Z;
  gd_last_usable : Z;
  gd_num_parts : Z;
  (** Ascending in the index. *)
  gd_partitions : list (Z * GptPartition);
}.
(** A used or unused slot of the [mbrman] crate. *)
Record MbrEntry := { mb_unused : bool; mb_starting_lba : Z; mb_sectors : Z; mb_sys : Z; mb_active : bool }.

Inductive ToolError := CannotRun | ToolFailed.

Record Probes := {
  pr_host : Host;
  (** The bytes of a device or file; [None] when it does not open. *)
  pr_open : bytes -> option bytes;
  pr_size : bytes -> result Z;
  pr_logical_sector : bytes -> result Z;
  pr_physical_sector : bytes -> result Z;
  (** [GptConfig::open] with a block size, [MBR::read_from] with a sector size. *)
  pr_gpt : bytes -> Z -> option GptDisk;
  pr_mbr : bytes -> Z -> option (list (Z * MbrEntry));
  (** The standard output of [blkid -p -o export], over a region when given. *)
  pr_blkid : bytes -> option (Z * Z) -> option bytes;
  (** The standard output of [btrfs subvolume list -u]. *)
  pr_btrfs : bytes -> bytes + ToolError;
}.

Module Layouts.
Definition is_offline (l : SourceLayout) : bool :=
  match sl_mountpoints l, sl_holders l with [], [] => true | _, _ => false end.
Definition is_whole_disk (l : SourceLayout) : bool := match sl_partitions l with [] => false | _ => true end.
End Layouts.

(** A [BTreeMap] with numbers as keys. *)
Module ZMap.
Section ops.
Context {V : Type}.

Fixpoint insert (k : Z) (v : V) (m : list (Z * V)) : list (Z * V) :=
  match m with
  | [] => [(k, v)]
  | (k', v') :: rest =>
    if k <? k' then (k, v) :: m
    else if k =? k' then (k, v) :: rest
    else (k', v') :: insert k v rest
  end.
Fixpoint get (k : Z) (m : list (Z * V)) : option V :=
  match m with
  | [] => None
  | (k', v) :: rest => if k =? k' then Some v else get k rest
  end.
Definition remove (k : Z) (m : list (Z * V)) : list (Z * V) :=
  List.filter (fun e => negb (fst e =? k)) m.
End ops.
End ZMap.

(** Local sysfs facts of one partition. *)
Record SysfsPartition := {
  sp_name : bytes;
  sp_path : bytes;
  sp_size_bytes : Z;
  sp_start_lba : Z;
  sp_mountpoints : list bytes;
  sp_holders : list bytes;
}.

Module Discover.
(** ** Block sizes *)
Definition block_bytes (logical_block_size : Z) : Z := if logical_block_size =? 0 then 512 else logical_block_size.
Definition sysfs_start_in_blocks (start_512 logical_block_size : Z) : Z :=
  wrapping_mul start_512 512 / block_bytes logical_block_size.
(** The block sizes the [gpt] crate knows. *)
Definition disk_block_size (logical_block_size : Z) : Z :=
  let b := block_bytes logical_block_size in if b =? 4096 then 4096 else 512.

Definition read_optional (h : Host) (p : bytes) : option bytes :=
  match Sysfs.read_sysfs_string h p with
  | Ok v => match v with [] => None | _ => Some v end
  | Err _ => None
  end.
Definition read_sysfs_bool (h : Host) (p : bytes) : bool :=
  match Sysfs.read_sysfs_string h p with Ok v => negb (bool_decide (v = Text.str "0")) | Err _ => false end.
Definition or_else {A} (a b : option A) : option A := match a with Some _ => a | None => b end.

Definition classify_block_device (h : Host) (name class_dir : bytes) : BlockDeviceType :=
  if Sysfs.exists_ h (Paths.join class_dir (Text.str "partition")) then Partition
  else if Text.starts_with (Text.str "loop") name then Loop
  else if Text.starts_with (Text.str "dm-") name then DeviceMapper
  else if Text.starts_with (Text.str "md") name then Md
  else if Text.starts_with (Text.str "ram") name then Ram
  else if Text.starts_with (Text.str "sr") name || Text.starts_with (Text.str "zram") name then Rom
  else if Sysfs.exists_ h (Paths.join class_dir (Text.str "device")) then Disk
  else Other.

Definition device_facts (p : Probes) (device : bytes) (warnings : list string) :
    result (DeviceFacts * list string) :=
  let h := pr_host p in
  let resolved := Sysfs.unwrap_or device (ho_canonicalize h device) in
  let* name := Sysfs.device_name resolved in
  let class_dir := Sysfs.class_block h name in
  if Sysfs.is_dir h class_dir then
    let '(size, warnings) :=
      match pr_size p resolved with
      | Ok size => (size, warnings)
      | Err _ => (wrapping_mul (Sysfs.unwrap_or 0 (Sysfs.parse_u64_file h (Paths.join class_dir (Text.str "size")))) 512,
                  warnings ++ ["BLKGETSIZE64 on {}: {io_err}"%string])
      end in
    let logical := match pr_logical_sector p device with
      | Ok v => v
      | Err _ => Sysfs.unwrap_or 512
          (Sysfs.parse_u64_file h (Paths.join class_dir (Text.str "queue/logical_block_size"))) mod 2 ^ 32
      end in
    let physical := Sysfs.unwrap_or logical (pr_physical_sector p resolved) in
    let device_dir := Paths.join class_dir (Text.str "device") in
    Ok ({| dv_name := name; dv_path := device; dv_dev_type := classify_block_device h name class_dir;
           dv_size_bytes := size; dv_logical_block_size := logical; dv_physical_block_size := physical;
           dv_dev_id := Sysfs.ok (Sysfs.read_sysfs_string h (Paths.join class_dir (Text.str "dev")));
           dv_removable := read_sysfs_bool h (Paths.join class_dir (Text.str "removable"));
           dv_read_only := read_sysfs_bool h (Paths.join class_dir (Text.str "ro"));
           dv_model := or_else (read_optional h (Paths.join device_dir (Text.str "model")))
                         (read_optional h (Paths.join device_dir (Text.str "vendor")));
           dv_serial := read_optional h (Paths.join device_dir (Text.str "serial"));
           dv_wwid := read_optional h (Paths.join device_dir (Text.str "wwid")) |}, warnings)
  else
    let* metadata := ho_metadata h device in
    Ok ({| dv_name := name; dv_path := device;
           dv_dev_type := if md_is_file metadata then RegularFile else Other;
           dv_size_bytes := md_len metadata; dv_logical_block_size := 512; dv_physical_block_size := 512;
           dv_dev_id := None; dv_removable := false; dv_read_only := md_readonly metadata;
           dv_model := None; dv_serial := None; dv_wwid := None |}, warnings).

Definition sysfs_partition_index (h : Host) (parent : bytes) : list (Z * SysfsPartition) :=
  match Sysfs.list_all_block_devices h with
  | Err _ => []
  | Ok devices =>
    fold_left (fun m device =>
      if negb (bool_decide (sd_parent device = Some parent)) then m
      else match sd_partition device with
           | None => m
           | Some index =>
             let mountpoints := Sysfs.unwrap_or [] (Sysfs.read_mountpoints h (sd_path device)) in
             let start_lba := Sysfs.unwrap_or 0 (Sysfs.parse_u64_file h
               (Paths.join (Sysfs.class_block h (sd_name device)) (Text.str "start"))) in
             ZMap.insert index
               {| sp_name := sd_name device; sp_path := sd_path device; sp_size_bytes := sd_size_bytes device;
                  sp_start_lba := start_lba; sp_mountpoints := mountpoints; sp_holders := sd_holders device |} m
           end) devices []
  end.

(** ** Partition tables *)
Definition GPT_SIGNATURE : bytes := Text.str "EFI PART".

Definition probe_partition_table (p : Probes) (device : bytes) (lbs : Z) (warnings : list string) :
    option PartitionTableInfo * list string :=
  match pr_open p device with
  | None => (None, warnings ++ ["cannot read {}: {e}"%string])
  | Some file =>
    if zlen file <? 512 then (None, warnings)
    else
      let has_mbr_signature := bool_decide (sub 510 2 file = [Byte.x55; Byte.xaa]) in
      let at_ := block_bytes lbs in
      if (at_ + 92 <=? zlen file) && bool_decide (sub at_ 8 file = GPT_SIGNATURE) then
        match pr_gpt p device (disk_block_size lbs) with
        | Some disk =>
          (Some {| pt_kind := Gpt; pt_disk_guid := Some (gd_guid disk); pt_logical_block_size := lbs;
                   pt_first_usable_lba := Some (gd_first_usable disk); pt_last_usable_lba := Some (gd_last_usable disk);
                   pt_entry_count := Some (gd_num_parts disk); pt_has_mbr_signature := has_mbr_signature |}, warnings)
        | None => (None, warnings ++ ["GPT parse of {} failed: {e}"%string])
        end
      else if has_mbr_signature then
        (Some {| pt_kind := Mbr; pt_disk_guid := None; pt_logical_block_size := lbs; pt_first_usable_lba := None;
                 pt_last_usable_lba := None; pt_entry_count := Some 4; pt_has_mbr_signature := true |}, warnings)
      else (None, warnings)
  end.

Definition sys_name (sys : option SysfsPartition) : option bytes := option_map sp_name sys.
Definition sys_path (sys : option SysfsPartition) : option bytes := option_map sp_path sys.
Definition sys_mountpoints (sys : option SysfsPartition) : list bytes := default [] (option_map sp_mountpoints sys).
Definition sys_holders (sys : option SysfsPartition) : list bytes := default [] (option_map sp_holders sys).

Definition gpt_partition (lbs index : Z) (part : GptPartition) (sys : option SysfsPartition) : PartitionLayout :=
  let sectors := wrap64 (Z.max 0 (gp_last_lba part - gp_first_lba part) + 1) in
  {| pl_index := index; pl_name := sys_name sys; pl_path := sys_path sys; pl_start_lba := gp_first_lba part;
     pl_size_bytes := wrapping_mul sectors lbs; pl_type_guid := Some (gp_type_guid part);
     pl_type_name := Some (gp_type_name part); pl_part_uuid := Some (gp_part_guid part); pl_mbr_type := None;
     pl_fs_type := None; pl_fs_uuid := None; pl_fs_label := None; pl_mountpoints := sys_mountpoints sys;
     pl_holders := sys_holders sys; pl_bootable := gp_bootable_flag part || gp_is_bios part |}.

(** What sysfs knows of a partition is taken out of its map. *)
Definition gpt_partitions (p : Probes) (device : bytes) (lbs : Z) (warnings : list string)
    (sys : list (Z * SysfsPartition)) : list PartitionLayout * list string * list (Z * SysfsPartition) :=
  match pr_gpt p device (disk_block_size lbs) with
  | None => ([], warnings ++ ["cannot enumerate GPT partitions of {}"%string], sys)
  | Some disk =>
    let '(out, sys) := fold_left (fun '(out, sys) '(index, part) =>
      (out ++ [gpt_partition (block_bytes lbs) index part (ZMap.get index sys)], ZMap.remove index sys))
      (gd_partitions disk) ([], sys) in
    (out, warnings, sys)
  end.

Definition mbr_type_name (sys : Z) : bytes :=
  if (sys =? 0x05) || (sys =? 0x0f) || (sys =? 0x85) then Text.str "Extended"
  else if sys =? 0x07 then Text.str "NTFS/exFAT"
  else if (sys =? 0x0b) || (sys =? 0x0c) then Text.str "FAT32"
  else if sys =? 0x82 then Text.str "Linux swap"
  else if sys =? 0x83 then Text.str "Linux"
  else if sys =? 0x8e then Text.str "Linux LVM"
  else if sys =? 0xee then Text.str "GPT protective"
  else if sys =? 0xef then Text.str "EFI System"
  else if sys =? 0xfd then Text.str "Linux RAID"
  else Text.str "unknown".

Definition mbr_partition (sector_size index : Z) (entry : MbrEntry) (sys : option SysfsPartition) : PartitionLayout :=
  {| pl_index := index; pl_name := sys_name sys; pl_path := sys_path sys; pl_start_lba := mb_starting_lba entry;
     pl_size_bytes := mb_sectors entry * sector_size; pl_type_guid := None;
     pl_type_name := Some (mbr_type_name (mb_sys entry)); pl_part_uuid := None; pl_mbr_type := Some (mb_sys entry);
     pl_fs_type := None; pl_fs_uuid := None; pl_fs_label := None; pl_mountpoints := sys_mountpoints sys;
     pl_holders := sys_holders sys; pl_bootable := mb_active entry |}.

Definition mbr_partitions (p : Probes) (device : bytes) (sector_size : Z) (sys : list (Z * SysfsPartition)) :
    list PartitionLayout :=
  match pr_mbr p device sector_size with
  | None => []
  | Some mbr =>
    omap (fun '(slot, entry) =>
      if mb_unused entry : bool then None
      else
        let index := if slot <=? U32_MAX then slot else 0 in
        Some (mbr_partition sector_size index entry (ZMap.get index sys))) mbr
  end.

Definition read_table (p : Probes) (device : bytes) (lbs : Z) (warnings : list string)
    (sys : list (Z * SysfsPartition)) :
    option PartitionTableInfo * list PartitionLayout * list string * list (Z * SysfsPartition) :=
  let '(table, warnings) := probe_partition_table p device lbs warnings in
  match option_map pt_kind table with
  | Some Gpt =>
    let '(partitions, warnings, sys) := gpt_partitions p device lbs warnings sys in
    (table, partitions, warnings, sys)
  | Some Mbr => (table, mbr_partitions p device (block_bytes lbs) sys, warnings, sys)
  | Some NoTable | None => (table, [], warnings, sys)
  end.

(** ** Filesystems *)
Definition blkid_fields (stdout : bytes) : list (bytes * bytes) :=
  fold_left (fun m line =>
    match Text.split_once Byte.x3d line with
    | Some (key, value) => BMap.insert (Text.trim key) (Text.trim value) m
    | None => m
    end) (Text.lines stdout) [].

(** [inl] is what was recognised, [inr] that [blkid] could not be run. *)
Definition blkid_probe_at (p : Probes) (path : bytes) (region : option (Z * Z)) : option FsFacts + string :=
  match pr_blkid p path region with
  | None => inr "cannot run blkid: {e}"%string
  | Some output =>
    let stdout := Text.utf8_lossy output in
    match Text.trim stdout with
    | [] => inl None
    | _ =>
      let fields := blkid_fields stdout in
      match BMap.get (Text.str "TYPE") fields with
      | None => inl None
      | Some fs_type =>
        inl (Some {| fs_type := fs_type; fs_uuid := BMap.get (Text.str "UUID") fields;
                     fs_label := BMap.get (Text.str "LABEL") fields;
                     fs_block_size := match BMap.get (Text.str "BLOCK_SIZE") fields with
                                      | Some v => Text.parse_unsigned U32_MAX v
                                      | None => None
                                      end;
                     fs_usage := BMap.get (Text.str "USAGE") fields |})
      end
    end
  end.
Definition blkid_probe (p : Probes) (path : bytes) : option FsFacts + string := blkid_probe_at p path None.

Definition partition_fs_probe (p : Probes) (device : bytes) (facts : DeviceFacts) (part : PartitionLayout) :
    option FsFacts + string :=
  let by_offset :=
    if bool_decide (dv_dev_type facts = RegularFile) && (0 <? pl_size_bytes part) then
      blkid_probe_at p device
        (Some (wrapping_mul (pl_start_lba part) (dv_logical_block_size facts), pl_size_bytes part))
    else inl None in
  match pl_path part with
  | Some path => if Sysfs.exists_ (pr_host p) path then blkid_probe p path else by_offset
  | None => by_offset
  end.

Definition lvm_facts (h : Host) (facts : DeviceFacts) (fs : option FsFacts) : option LvmFacts :=
  let is_pv := match fs with Some f => Text.starts_with (Text.str "LVM2_member") (fs_type f) | None => false end in
  let is_dm := bool_decide (dv_dev_type facts = DeviceMapper) in
  if negb is_pv && negb is_dm then None
  else
    let dm_name := if is_dm then read_optional h (Paths.join (Sysfs.class_block h (dv_name facts)) (Text.str "dm/name"))
                   else None in
    let split := match dm_name with Some name => Text.split_once Byte.x2d name | None => None end in
    Some {| lv_is_pv := is_pv; lv_is_dm := is_dm; lv_vg_name := option_map fst split;
            lv_lv_name := option_map snd split; lv_dm_name := dm_name; lv_thin := None |}.

(** [parse_btrfs_subvolume_line]: the loop over the words. *)
Fixpoint subvolume_words (words : list bytes) (id parent : option Z) (path : option bytes) : option BtrfsSubvolume :=
  match words with
  | [] => match id, path with
          | Some id, Some path => Some {| bs_id := id; bs_parent_id := parent; bs_path := path |}
          | _, _ => None
          end
  | w :: words1 =>
    if bool_decide (w = Text.str "ID") then
      match words1 with
      | v :: words2 => subvolume_words words2 (Text.parse_unsigned U64_MAX v) parent path
      | [] => subvolume_words words1 None parent path
      end
    else if bool_decide (w = Text.str "top") then
      match words1 with
      | l :: words2 =>
        if bool_decide (l = Text.str "level") then
          match words2 with
          | v :: words3 => subvolume_words words3 id (Text.parse_unsigned U64_MAX v) path
          | [] => subvolume_words words2 id None path
          end
        else subvolume_words words1 id parent path
      | [] => subvolume_words words1 id parent path
      end
    else if bool_decide (w = Text.str "path") then
      match words1 with
      | v :: words2 => subvolume_words words2 id parent (Some v)
      | [] => subvolume_words words1 id parent None
      end
    else subvolume_words words1 id parent path
  end.
Definition parse_btrfs_subvolume_line (line : bytes) : option BtrfsSubvolume :=
  subvolume_words (Text.split_whitespace line) None None None.

Definition btrfs_facts (p : Probes) (facts : FsFacts) (mountpoints : list bytes) (warnings : list string) :
    BtrfsFacts * list string :=
  let found subvolumes probed :=
    {| bf_fs_uuid := fs_uuid facts; bf_label := fs_label facts; bf_mountpoints := mountpoints;
       bf_subvolumes := subvolumes; bf_default_subvolid := None; bf_probed := probed |} in
  match mountpoints with
  | [] => (found [] false, warnings ++ ["btrfs filesystem is not mounted; subvolume list skipped"%string])
  | mountpoint :: _ =>
    match pr_btrfs p mountpoint with
    | inl stdout => (found (omap parse_btrfs_subvolume_line (Text.lines (Text.utf8_lossy stdout))) true, warnings)
    | inr ToolFailed => (found [] false, warnings ++ ["btrfs subvolume list failed: {}"%string])
    | inr CannotRun => (found [] false, warnings ++ ["btrfs tool unavailable: {e}"%string])
    end
  end.

(** ** The whole *)
Definition sysfs_only (lbs index : Z) (sys : SysfsPartition) : PartitionLayout :=
  {| pl_index := index; pl_name := Some (sp_name sys); pl_path := Some (sp_path sys);
     pl_start_lba := sysfs_start_in_blocks (sp_start_lba sys) lbs; pl_size_bytes := sp_size_bytes sys;
     pl_type_guid := None; pl_type_name := None; pl_part_uuid := None; pl_mbr_type := None; pl_fs_type := None;
     pl_fs_uuid := None; pl_fs_label := None; pl_mountpoints := sp_mountpoints sys; pl_holders := sp_holders sys;
     pl_bootable := false |}.

(** The partitions sysfs knows and the table does not. *)
Definition add_missing (lbs : Z) (sys : list (Z * SysfsPartition)) (partitions : list PartitionLayout) :
    list PartitionLayout :=
  fold_left (fun partitions '(index, s) =>
    if existsb (fun q => pl_index q =? index) partitions then partitions
    else partitions ++ [sysfs_only lbs index s]) sys partitions.

Definition with_fs (part : PartitionLayout) (facts : FsFacts) : PartitionLayout :=
  {| pl_index := pl_index part; pl_name := pl_name part; pl_path := pl_path part; pl_start_lba := pl_start_lba part;
     pl_size_bytes := pl_size_bytes part; pl_type_guid := pl_type_guid part; pl_type_name := pl_type_name part;
     pl_part_uuid := pl_part_uuid part; pl_mbr_type := pl_mbr_type part; pl_fs_type := Some (fs_type facts);
     pl_fs_uuid := fs_uuid facts; pl_fs_label := fs_label facts; pl_mountpoints := pl_mountpoints part;
     pl_holders := pl_holders part; pl_bootable := pl_bootable part |}.
Definition with_mountpoints (part : PartitionLayout) (mountpoints : list bytes) : PartitionLayout :=
  {| pl_index := pl_index part; pl_name := pl_name part; pl_path := pl_path part; pl_start_lba := pl_start_lba part;
     pl_size_bytes := pl_size_bytes part; pl_type_guid := pl_type_guid part; pl_type_name := pl_type_name part;
     pl_part_uuid := pl_part_uuid part; pl_mbr_type := pl_mbr_type part; pl_fs_type := pl_fs_type part;
     pl_fs_uuid := pl_fs_uuid part; pl_fs_label := pl_fs_label part; pl_mountpoints := mountpoints;
     pl_holders := pl_holders part; pl_bootable := pl_bootable part |}.

(** One turn of the loop over the partitions. *)
Definition probe_partition (p : Probes) (device : bytes) (facts : DeviceFacts) (part : PartitionLayout)
    (warnings : list string) : PartitionLayout * list string :=
  let '(part, warnings) :=
    match partition_fs_probe p device facts part with
    | inl (Some f) => (with_fs part f, warnings)
    | inl None => (part, warnings)
    | inr _ => (part, warnings ++ ["blkid on partition {}: {reason}"%string])
    end in
  match pl_mountpoints part, pl_path part with
  | [], Some path =>
    if Sysfs.exists_ (pr_host p) path then
      (with_mountpoints part (Sysfs.unwrap_or [] (Sysfs.read_mountpoints (pr_host p) path)), warnings)
    else (part, warnings)
  | _, _ => (part, warnings)
  end.

Fixpoint probe_partitions (p : Probes) (device : bytes) (facts : DeviceFacts) (parts : list PartitionLayout)
    (warnings : list string) : list PartitionLayout * list string :=
  match parts with
  | [] => ([], warnings)
  | part :: parts =>
    let '(part, warnings) := probe_partition p device facts part warnings in
    let '(parts, warnings) := probe_partitions p device facts parts warnings in
    (part :: parts, warnings)
  end.

Definition mounts_for_source (h : Host) (device : bytes) : list bytes :=
  match Sysfs.read_mounts h with
  | Ok mounts => map me_mountpoint (List.filter (Sysfs.mounts_of None device) mounts)
  | Err _ => []
  end.

Definition discover_source (p : Probes) (device : bytes) : result SourceLayout :=
  let h := pr_host p in
  let* (facts, warnings) := device_facts p device [] in
  let lbs := dv_logical_block_size facts in
  let sys := if bool_decide (dv_dev_type facts = RegularFile) then [] else sysfs_partition_index h (dv_name facts) in
  let '(table, partitions, warnings, sys) := read_table p device lbs warnings sys in
  let partitions := add_missing lbs sys partitions in
  let '(partitions, warnings) := probe_partitions p device facts partitions warnings in
  let partitions := sort_by_key pl_index partitions in
  let '(fs, warnings) :=
    match blkid_probe p device with
    | inl facts => (facts, warnings)
    | inr _ => (None, warnings ++ ["blkid on {}: {reason}"%string])
    end in
  let mountpoints :=
    if bool_decide (dv_dev_type facts = RegularFile) then mounts_for_source h device
    else match Sysfs.read_mountpoints h device with Ok l => l | Err _ => mounts_for_source h device end in
  let holders := Sysfs.read_holders h (dv_name facts) in
  let lvm := lvm_facts h facts fs in
  let '(btrfs, warnings) :=
    match fs with
    | Some f =>
      if bool_decide (fs_type f = Text.str "btrfs") then
        let '(b, warnings) := btrfs_facts p f mountpoints warnings in (Some b, warnings)
      else (None, warnings)
    | None => (None, warnings)
    end in
  Ok {| sl_device := device; sl_device_facts := facts; sl_partition_table := table; sl_partitions := partitions;
        sl_fs := fs; sl_mountpoints := mountpoints; sl_holders := holders; sl_lvm := lvm; sl_btrfs := btrfs;
        sl_warnings := warnings |}.
End Discover.

(** ** Nothing the kernel shows is lost *)
Module DiscoveryLemmas.
Import Discover.

(** A partition of the layout that says what sysfs says about it. *)
Definition carries (index : Z) (sys : SysfsPartition) (part : PartitionLayout) : Prop :=
  pl_index part = index /\ pl_holders part = sp_holders sys /\ pl_path part = Some (sp_path sys) /\
  (sp_mountpoints sys <> [] -> pl_mountpoints part = sp_mountpoints sys).

Lemma get_remove_ne {V} k k' (m : list (Z * V)) : k <> k' -> ZMap.get k (ZMap.remove k' m) = ZMap.get k m.
Proof.
  intros Hk. unfold ZMap.remove. induction m as [|[i v] m IH]; [done|]. cbn.
  destruct (Z.eqb_spec i k'); cbn; [destruct (Z.eqb_spec k i); [congruence|done]|]. by rewrite IH.
Qed.

Lemma carries_gpt lbs index part s : carries index s (gpt_partition lbs index part (Some s)).
Proof. by split_and!. Qed.

Lemma gpt_fold lbs index s parts : forall out sys,
  ZMap.get index sys = Some s ->
  let '(out', sys') := fold_left (fun '(out, sys) '(index, part) =>
    (out ++ [gpt_partition lbs index part (ZMap.get index sys)], ZMap.remove index sys)) parts (out, sys) in
  (forall q, q ∈ out -> q ∈ out') /\
  ((exists q, q ∈ out' /\ carries index s q) \/
   (ZMap.get index sys' = Some s /\ forall q, q ∈ out' -> q ∈ out \/ pl_index q <> index)).
Proof.
  induction parts as [|[i part] parts IH]; intros out sys Hs; [cbn; auto|]. cbn [fold_left].
  destruct (Z.eq_dec i index) as [->|Hi].
  - rewrite Hs. clear IH Hs.
    assert (carries index s (gpt_partition lbs index part (Some s))) as Hc by apply carries_gpt.
    revert Hc. generalize (gpt_partition lbs index part (Some s)) as g. generalize (ZMap.remove index sys) as sys1.
    intros sys1 g Hg. assert (forall parts out sys, let '(out', _) := fold_left (fun '(out, sys) '(index, part) =>
      (out ++ [gpt_partition lbs index part (ZMap.get index sys)], ZMap.remove index sys)) parts (out, sys) in
      forall q, q ∈ out -> q ∈ out') as Hkeep.
    { clear. induction parts as [|[i part] parts IH]; intros out sys; [cbn; auto|]. cbn [fold_left].
      specialize (IH (out ++ [gpt_partition lbs i part (ZMap.get i sys)]) (ZMap.remove i sys)).
      destruct (fold_left _ _ _) as [out' sys']. intros q Hq. apply IH, elem_of_app. by left. }
    specialize (Hkeep parts (out ++ [g]) sys1). destruct (fold_left _ _ _) as [out' sys']. split.
    + intros q Hq. apply Hkeep, elem_of_app. by left.
    + left. exists g. split; [|done]. apply Hkeep, elem_of_app. right. by apply list_elem_of_singleton.
  - specialize (IH (out ++ [gpt_partition lbs i part (ZMap.get i sys)]) (ZMap.remove i sys)).
    rewrite get_remove_ne in IH by congruence. specialize (IH Hs). destruct (fold_left _ _ _) as [out' sys'].
    destruct IH as [Hkeep Hor]. split; [intros q Hq; apply Hkeep, elem_of_app; by left|].
    destruct Hor as [|[Hg Hq]]; [by left|]. right. split; [done|]. intros q [Hin|]%Hq; [|by right].
    apply elem_of_app in Hin as [|Hin%list_elem_of_singleton]; [by left|]. subst q. by right.
Qed.

Lemma existsb_index index partitions :
  existsb (fun q => pl_index q =? index) partitions = true <-> exists q, q ∈ partitions /\ pl_index q = index.
Proof.
  rewrite existsb_exists. split; intros (q & Hq & Hi).
  - exists q. rewrite list_elem_of_In. split; [done|lia].
  - exists q. rewrite <- list_elem_of_In. split; [done|lia].
Qed.

Lemma add_missing_keeps lbs sys : forall partitions q, q ∈ partitions -> q ∈ add_missing lbs sys partitions.
Proof.
  induction sys as [|[i s] sys IH]; intros partitions q Hq; [done|]. unfold add_missing. cbn [fold_left].
  apply IH. destruct (existsb _ _); [done|]. apply elem_of_app. by left.
Qed.

Lemma add_missing_complete lbs index s : forall sys partitions,
  ZMap.get index sys = Some s ->
  (exists q, q ∈ partitions /\ carries index s q) \/ (forall q, q ∈ partitions -> pl_index q <> index) ->
  exists q, q ∈ add_missing lbs sys partitions /\ carries index s q.
Proof.
  intros sys partitions Hs [(q & Hq & Hc)|Hno]; [exists q; split; [by apply add_missing_keeps|done]|].
  revert partitions Hno. induction sys as [|[i s'] sys IH]; intros partitions Hno; [done|].
  unfold add_missing. cbn [fold_left]. cbn in Hs. destruct (Z.eqb_spec index i) as [<-|Hi].
  - injection Hs as ->. destruct (existsb _ _) eqn:Ex; [apply existsb_index in Ex as (q & Hq & Hx); by destruct (Hno q Hq)|].
    exists (sysfs_only lbs index s). split; [|by split_and!]. apply add_missing_keeps, elem_of_app. right.
    by apply list_elem_of_singleton.
  - apply IH; [done|]. intros q. destruct (existsb _ _); [by apply Hno|].
    rewrite elem_of_app, list_elem_of_singleton. intros [Hq| ->]; [by apply Hno|]. cbn. congruence.
Qed.

Lemma table_complete p device lbs w sys index s table partitions w' sys' :
  ZMap.get index sys = Some s ->
  read_table p device lbs w sys = (table, partitions, w', sys') ->
  exists q, q ∈ add_missing lbs sys' partitions /\ carries index s q.
Proof.
  intros Hs. unfold read_table. destruct (probe_partition_table _ _ _ _) as [t w1].
  assert (forall q, q ∈ ([] : list PartitionLayout) -> pl_index q <> index) as Hnil by (intros q Hq; by apply not_elem_of_nil in Hq).
  destruct (option_map pt_kind t) as [[| |]|].
  - unfold gpt_partitions. destruct (pr_gpt _ _ _) as [disk|].
    + pose proof (gpt_fold (block_bytes lbs) index s (gd_partitions disk) [] sys Hs) as Hf.
      destruct (fold_left _ _ _) as [out sys1]. intros [= <- <- <- <-]. destruct Hf as [_ [(q & Hq & Hc)|[Hg Hno]]].
      * exists q. split; [by apply add_missing_keeps|done].
      * apply add_missing_complete; [done|]. right. intros q [Hq|]%Hno; [by apply not_elem_of_nil in Hq|done].
    + intros [= <- <- <- <-]. apply add_missing_complete; [done|by right].
  - intros [= <- <- <- <-]. apply add_missing_complete; [done|]. unfold mbr_partitions.
    destruct (pr_mbr _ _ _) as [mbr|]; [|by right].
    destruct (existsb (fun q => pl_index q =? index) (omap (fun '(slot, entry) => if mb_unused entry : bool then None else
      let index := if slot <=? U32_MAX then slot else 0 in
      Some (mbr_partition (block_bytes lbs) index entry (ZMap.get index sys))) mbr)) eqn:Ex.
    + left. apply existsb_index in Ex as (q & Hq & Hx). exists q. split; [done|].
      apply list_elem_of_omap in Hq as ([slot entry] & _ & Hq). destruct (mb_unused entry); [done|]. injection Hq as <-.
      cbn in Hx. rewrite Hx, Hs. by split_and!.
    + right. intros q Hq Hx. assert (exists q, q ∈ omap (fun '(slot, entry) => if mb_unused entry : bool then None else
        let index := if slot <=? U32_MAX then slot else 0 in
        Some (mbr_partition (block_bytes lbs) index entry (ZMap.get index sys))) mbr /\ pl_index q = index)
        as Hex%existsb_index by (by exists q). congruence.
  - intros [= <- <- <- <-]. apply add_missing_complete; [done|by right].
  - intros [= <- <- <- <-]. apply add_missing_complete; [done|by right].
Qed.
End DiscoveryLemmas.
