(* ===== verification/MountPolicy.v ===== *)
(** * Required mounts of destinations ([crates/lr-store/src/mount_policy.rs])

    A named destination may insist on the file system it lives on. The check
    compares two looks at the machine, the mount table and the mount a
    directory is on, both answers of a [MountView]. A normalized absolute path
    is the list of its names. *)

From S2P Require Import Prelude Text Sysfs.

Record RequiredMount := { qm_path : bytes; qm_source : bytes; qm_fs_type : bytes }.

(** One line of the mount table. *)
Record MountInfo := {
  mi_id : Z;
  mi_root : bytes;
  mi_target : bytes;
  mi_fs_type : bytes;
  mi_source : bytes;
}.

(** What the machine answers. *)
Record MountView := {
  mv_current_dir : result bytes;
  (** [symlink_metadata]: is there anything? *)
  mv_lstat : bytes -> result unit;
  mv_canonicalize : bytes -> result bytes;
  (** [metadata]: a directory or not; [None] for nothing there, be it
      [NotFound] or [NotADirectory]. *)
  mv_metadata : bytes -> option (result bool);
  (** The [fdinfo] of the directory once opened. *)
  mv_fdinfo : bytes -> result bytes;
  mv_mountinfo : result bytes;
}.

Module MountPolicy.
Definition is_absolute (p : bytes) : bool := Text.starts_with [Paths.SLASH] p.
Definition has_parent_dir (p : bytes) : bool := existsb (fun n => bool_decide (n = Paths.DOTDOT)) (Paths.names p).

(** The text of a normalized path; [Path::starts_with]. *)
Definition absolute (names : list bytes) : bytes := Paths.SLASH :: Text.join [Paths.SLASH] names.
Fixpoint below (prefix names : list bytes) : bool :=
  match prefix, names with
  | [], _ => true
  | a :: prefix, b :: names => bool_decide (a = b) && below prefix names
  | _ :: _, [] => false
  end.

Definition validate (policy : RequiredMount) : result unit :=
  if negb (is_absolute (qm_path policy)) || has_parent_dir (qm_path policy) then
    Err (Unsupported "required mount path must be an absolute, normalized path")
  else if bool_decide (qm_source policy = []) then Err (Unsupported "required mount source must not be empty")
  else if negb (bool_decide (Text.split_whitespace (qm_fs_type policy) = [qm_fs_type policy])) then
    Err (Unsupported "required mount filesystem type must be a non-empty field")
  else Ok tt.

Definition validate_destination_path (path : bytes) : result unit :=
  if has_parent_dir path then
    Err (Unsupported "a destination with '..' is refused when a required mount is configured: {}")
  else Ok tt.

(** ** Resolving *)

(** The last name first. *)
Definition push_component (normalized : list bytes) (name : bytes) : list bytes :=
  if bool_decide (name = Paths.DOTDOT) then tail normalized else name :: normalized.

(** The longest part of the path that exists, and the names after it. *)
Fixpoint existing_part (v : MountView) (reversed missing : list bytes) : result (list bytes * list bytes) :=
  match mv_lstat v (absolute (rev reversed)) with
  | Ok _ => Ok (rev reversed, missing)
  | Err (Io NotFound) =>
    match reversed with
    | [] => Err (Io NotFound)
    | name :: reversed => existing_part v reversed (name :: missing)
    end
  | Err e => Err e
  end.

Definition resolve_existing_prefix (v : MountView) (path : bytes) : result (list bytes) :=
  let* full := (if is_absolute path then Ok path else let* dir := mv_current_dir v in Ok (Paths.join dir path)) in
  let normalized := fold_left push_component (Paths.names full) [] in
  let* (existing, missing) := existing_part v normalized [] in
  let* resolved := mv_canonicalize v (absolute existing) in
  Ok (Paths.names resolved ++ missing).

(** ** The mount a path is on *)
Definition unresolved_visible_mount {A} : result A := Err (Unsupported "could not determine the visible mount record at {}").

Fixpoint parse_mount_id (lines : list bytes) (mount_id : option Z) : result (option Z) :=
  match lines with
  | [] => Ok mount_id
  | line :: lines =>
    match Text.strip_prefix (Text.str "mnt_id:") line with
    | None => parse_mount_id lines mount_id
    | Some value =>
      match mount_id with
      | Some _ => Err (Corrupt "fdinfo has duplicate mount IDs")
      | None =>
        match Text.parse_unsigned U64_MAX (Text.trim value) with
        | Some id => parse_mount_id lines (Some id)
        | None => Err (Corrupt "could not parse mount ID in fdinfo")
        end
      end
    end
  end.
Definition parse_fdinfo_mount_id (text : bytes) : result (option Z) := parse_mount_id (Text.lines text) None.

Definition fdinfo_mount_id (text : bytes) : result Z :=
  let* id := parse_fdinfo_mount_id text in
  match id with Some id => Ok id | None => unresolved_visible_mount end.

(** The deepest directory at or above the path. *)
Fixpoint existing_dir (v : MountView) (reversed : list bytes) : result (list bytes) :=
  match mv_metadata v (absolute (rev reversed)) with
  | Some (Ok true) => Ok (rev reversed)
  | Some (Ok false) => match reversed with [] => unresolved_visible_mount | _ :: reversed => existing_dir v reversed end
  | None => match reversed with [] => Err (Io NotFound) | _ :: reversed => existing_dir v reversed end
  | Some (Err e) => Err e
  end.

Definition visible_mount (v : MountView) (path : list bytes) : result Z :=
  let* directory := existing_dir v (rev path) in
  let* fdinfo := mv_fdinfo v (absolute directory) in
  fdinfo_mount_id fdinfo.

(** ** The mount table *)
Definition octal (b : byte) : bool := in_range 0x30 0x37 b.

(** [decode_field]; [None] for an escape above 255. *)
Fixpoint decode_bytes (b : bytes) : option bytes :=
  match b with
  | [] => Some []
  | c :: ((x :: y :: z :: rest) as tail) =>
    if bool_decide (c = Sysfs.BACKSLASH) && octal x && octal y && octal z then
      let value := (b2z x - 0x30) * 64 + (b2z y - 0x30) * 8 + (b2z z - 0x30) in
      if value <=? 255 then option_map (cons (z2b value)) (decode_bytes rest) else None
    else option_map (cons c) (decode_bytes tail)
  | c :: tail => option_map (cons c) (decode_bytes tail)
  end.

Definition decode_field (field : bytes) : result bytes :=
  match decode_bytes field with
  | None => Err (Corrupt "mountinfo contains an invalid octal escape")
  | Some decoded => if utf8_valid decoded then Ok decoded else Err (Corrupt "mountinfo contains a non-UTF-8 mount field")
  end.

Definition parse_mount (line : bytes) : result MountInfo :=
  match Sysfs.split_once_str (Text.str " - ") line with
  | None => Err (Corrupt "could not parse /proc/self/mountinfo entry")
  | Some (before, after) =>
    match Text.split_whitespace before, Text.split_whitespace after with
    | id :: _ :: _ :: root :: target :: _ :: _, fs_type :: source :: _ :: _ =>
      match Text.parse_unsigned U64_MAX id with
      | None => Err (Corrupt "could not parse mount ID in mountinfo")
      | Some id =>
        let* root := decode_field root in
        let* target := decode_field target in
        if negb (is_absolute root) || negb (is_absolute target) then
          Err (Corrupt "mountinfo root and mount point must be absolute paths")
        else
          let* fs_type := decode_field fs_type in
          let* source := decode_field source in
          Ok {| mi_id := id; mi_root := root; mi_target := target; mi_fs_type := fs_type; mi_source := source |}
      end
    | _, _ => Err (Corrupt "could not parse /proc/self/mountinfo fields")
    end
  end.

Fixpoint duplicate_id (mounts : list MountInfo) : bool :=
  match mounts with
  | [] => false
  | m :: mounts => existsb (fun other => mi_id other =? mi_id m) mounts || duplicate_id mounts
  end.

Definition parse_mountinfo (text : bytes) : result (list MountInfo) :=
  let* mounts := collectM parse_mount (Text.lines text) in
  if duplicate_id mounts then Err (Corrupt "duplicate mount ID in mountinfo") else Ok mounts.

(** ** The check *)
Definition target_of (m : MountInfo) : list bytes := Paths.names (mi_target m).
Definition expected (policy : RequiredMount) (m : MountInfo) : bool :=
  bool_decide (mi_source m = qm_source policy) && bool_decide (mi_fs_type m = qm_fs_type policy).
Definition identity_mismatch {A} : result A :=
  Err (Unsupported "required mount {} identity mismatch: expected {} source {} but found {} source {} at {}").

(** The depth of the deepest target that holds the path. *)
Definition deepest_depth (mounts : list MountInfo) (destination : list bytes) : option nat :=
  match map (fun m => length (target_of m)) (List.filter (fun m => below (target_of m) destination) mounts) with
  | [] => None
  | depth :: depths => Some (fold_left Nat.max depths depth)
  end.

Definition check_mountinfo (policy : RequiredMount) (required destination : list bytes) (text : bytes)
    (visible_required_id visible_destination_id : Z) : result unit :=
  if negb (below required destination) then
    Err (Unsupported "local destination {} is not beneath required mount {}")
  else
    let* mounts := parse_mountinfo text in
    match List.find (fun m => bool_decide (target_of m = required) && (mi_id m =? visible_required_id)) mounts with
    | None =>
      if existsb (fun m => bool_decide (target_of m = required)) mounts then unresolved_visible_mount
      else Err (Unsupported "required mount {} is not mounted")
    | Some required_mount =>
      if negb (bool_decide (Paths.names (mi_root required_mount) = [])) then
        Err (Unsupported "required mount {} is a non-root mount projection ({})")
      else if negb (expected policy required_mount) then identity_mismatch
      else
        match deepest_depth mounts destination with
        | None => Err (Unsupported "no mounted filesystem contains local destination {}")
        | Some depth =>
          match List.find (fun m => below (target_of m) destination && (Nat.eqb (length (target_of m)) depth) &&
                                    (mi_id m =? visible_destination_id)) mounts with
          | None => unresolved_visible_mount
          | Some containing =>
            if negb (mi_id containing =? mi_id required_mount) then
              Err (Unsupported "local destination {} is on a nested or overmounted filesystem at {}, not required mount {}")
            else if negb (expected policy containing) then identity_mismatch
            else Ok tt
          end
        end
    end.

Definition check_path (v : MountView) (policy : RequiredMount) (path : bytes) : result unit :=
  validate policy;;;
  validate_destination_path path;;;
  let* required_path := resolve_existing_prefix v (qm_path policy) in
  let* destination_path := resolve_existing_prefix v path in
  let* visible_required_id := visible_mount v required_path in
  let* visible_destination_id := visible_mount v destination_path in
  let* mountinfo := mv_mountinfo v in
  check_mountinfo policy required_path destination_path mountinfo visible_required_id visible_destination_id.
End MountPolicy.

(** ** Lemmas *)
Module MountLemmas.
Import MountPolicy.

Lemma below_spec a b : below a b = true <-> exists c, b = a ++ c.
Proof.
  revert b. induction a as [|x a IH]; intros b; cbn [below app]; [split; [by exists b|done]|].
  destruct b as [|y b]; [split; [done|by intros []]|]. rewrite andb_true_iff, bool_decide_eq_true, IH. split.
  - intros [-> [c ->]]. by exists c.
  - intros [c [= <- ->]]. split; [done|by exists c].
Qed.

(** Of two prefixes of a path the shorter is a prefix of the longer. *)
Lemma below_shorter a b d : below a d = true -> below b d = true -> (length a <= length b)%nat -> below a b = true.
Proof.
  rewrite !below_spec. intros [u ->] [v E] Hl. exists (drop (length a) b).
  apply (f_equal (take (length b))) in E. rewrite take_app_length in E. rewrite <- E.
  rewrite take_app_ge by done. by rewrite drop_app_length.
Qed.

Lemma below_length a b : below a b = true -> (length a <= length b)%nat.
Proof. intros [c ->]%below_spec. rewrite length_app. lia. Qed.

Lemma unique_id mounts m n : duplicate_id mounts = false -> m ∈ mounts -> n ∈ mounts -> mi_id m = mi_id n -> m = n.
Proof.
  induction mounts as [|x mounts IH]; [intros _ Hm; by apply elem_of_nil in Hm|]. cbn [duplicate_id]. intros [Hx Hd]%orb_false_iff Hm Hn He.
  assert (forall y, y ∈ mounts -> mi_id y <> mi_id x) as Hne.
  { intros y Hy Hyx. apply not_true_iff_false in Hx. apply Hx, existsb_exists. exists y. split; [by apply list_elem_of_In|lia]. }
  apply elem_of_cons in Hm as [->|Hm], Hn as [->|Hn]; [done|by destruct (Hne n Hn)|by destruct (Hne m Hm)|by apply IH].
Qed.

Lemma find_unique (f : MountInfo -> bool) mounts m : m ∈ mounts -> f m = true ->
  (forall n, n ∈ mounts -> f n = true -> n = m) -> List.find f mounts = Some m.
Proof.
  intros Hm Hf Hu. destruct (List.find f mounts) as [n|] eqn:E.
  - apply List.find_some in E as [Hn Hfn]. f_equal. apply Hu; [by apply list_elem_of_In|done].
  - pose proof (List.find_none f mounts E m) as Hx. rewrite Hx in Hf; [done|by apply list_elem_of_In].
Qed.

Lemma fold_max l : forall d, (d <= fold_left Nat.max l d)%nat /\ (forall x, x ∈ l -> (x <= fold_left Nat.max l d)%nat) /\
  (fold_left Nat.max l d = d \/ fold_left Nat.max l d ∈ l).
Proof.
  induction l as [|y l IH]; intros d; cbn [fold_left]; [split_and!; [done|intros x Hx; by apply elem_of_nil in Hx|by left]|].
  destruct (IH (Nat.max d y)) as (Hd & Hl & He). split_and!; [lia| |].
  - intros x [->|Hx]%elem_of_cons; [lia|by apply Hl].
  - destruct He as [->|He]; [|right; by right]. destruct (Nat.max_spec d y) as [[_ ->]|[_ ->]]; [right; left|by left].
Qed.

Lemma deepest_spec mounts destination depth : deepest_depth mounts destination = Some depth <->
  (exists m, m ∈ mounts /\ below (target_of m) destination = true /\ length (target_of m) = depth) /\
  (forall n, n ∈ mounts -> below (target_of n) destination = true -> (length (target_of n) <= depth)%nat).
Proof.
  unfold deepest_depth. set (found := List.filter _ mounts).
  assert (forall n, n ∈ found <-> n ∈ mounts /\ below (target_of n) destination = true) as Hf
    by (intros n; unfold found; rewrite list_elem_of_In, List.filter_In, <- list_elem_of_In; done).
  transitivity ((exists m, m ∈ found /\ length (target_of m) = depth) /\
    forall n, n ∈ found -> (length (target_of n) <= depth)%nat).
  2: { split; intros [(m & Hm & He) Ha].
       - split; [exists m; split_and!; [by apply Hf..|done]|]. intros n Hn Hb. apply Ha. by apply Hf.
       - destruct He as [Hb He]. split; [exists m; split; [by apply Hf|done]|]. intros n [Hn Hnb]%Hf. by apply Ha. }
  clearbody found. clear. destruct found as [|m found]; cbn [map].
  { split; [done|]. intros [(m & Hm & _) _]. by apply elem_of_nil in Hm. }
  destruct (fold_max (map (fun m => length (target_of m)) found) (length (target_of m))) as (Hd & Hl & He).
  set (top := fold_left _ _ _) in *.
  assert (forall n, n ∈ m :: found -> (length (target_of n) <= top)%nat) as Hle.
  { intros n [->|Hn]%elem_of_cons; [done|]. apply Hl, list_elem_of_fmap. by exists n. }
  assert (exists n, n ∈ m :: found /\ length (target_of n) = top) as (n & Hn & Htop).
  { destruct He as [->|(n & -> & Hn)%list_elem_of_fmap]; [exists m; split; [left|done]|exists n; split; [by right|done]]. }
  split.
  - intros [= <-]. split; [by exists n|done].
  - intros [(x & Hx & <-) Hy]. f_equal. pose proof (Hle x Hx). specialize (Hy n Hn). lia.
Qed.

Lemma table_unique text mounts : parse_mountinfo text = Ok mounts -> duplicate_id mounts = false.
Proof. unfold parse_mountinfo. intros (l & _ & H)%bind_Ok. destruct (duplicate_id l) eqn:E; [done|]. by injection H as <-. Qed.

(** The mount [m] is the one required, and no other lies between it and the destination. *)
Record holds (policy : RequiredMount) (required destination : list bytes) (id : Z) (mounts : list MountInfo)
    (m : MountInfo) : Prop := {
  ho_listed : m ∈ mounts;
  ho_target : target_of m = required;
  ho_id : mi_id m = id;
  ho_whole : Paths.names (mi_root m) = [];
  ho_source : mi_source m = qm_source policy;
  ho_fs_type : mi_fs_type m = qm_fs_type policy;
  ho_below : below required destination = true;
  ho_nested : forall n, n ∈ mounts -> below (target_of n) destination = true -> below (target_of n) required = true;
}.

Lemma expected_spec policy m : expected policy m = true <-> mi_source m = qm_source policy /\ mi_fs_type m = qm_fs_type policy.
Proof. unfold expected. by rewrite andb_true_iff, !bool_decide_eq_true. Qed.

Lemma check_holds policy required destination text rid did : check_mountinfo policy required destination text rid did = Ok tt ->
  rid = did /\ exists mounts m, parse_mountinfo text = Ok mounts /\ holds policy required destination rid mounts m.
Proof.
  unfold check_mountinfo. destruct (below required destination) eqn:Hb; [|done]. cbn [negb].
  intros (mounts & Hp & H)%bind_Ok. destruct (List.find _ mounts) as [m|] eqn:Ef; [|by destruct (existsb _ _)].
  apply List.find_some in Ef as [Hm Hf]. apply andb_true_iff in Hf as [Ht Hi]. apply bool_decide_eq_true in Ht.
  case_bool_decide as Hroot; [|done]. cbn [negb] in H. destruct (expected policy m) eqn:Ee; [|done]. cbn [negb] in H.
  apply expected_spec in Ee as [Es Et].
  destruct (deepest_depth mounts destination) as [depth|] eqn:Ed; [|done]. apply deepest_spec in Ed as [_ Hdeep].
  destruct (List.find _ mounts) as [c|] eqn:Ec; [|done]. apply List.find_some in Ec as [Hc Hfc].
  apply andb_true_iff in Hfc as [[Hcb Hcl]%andb_true_iff Hci]. destruct (mi_id c =? mi_id m) eqn:Eid; [|done]. clear H.
  assert (c = m) as -> by (apply (unique_id mounts); [by eapply table_unique|by apply list_elem_of_In..|lia]).
  split; [lia|]. exists mounts, m. split; [done|]. split; try done; [by apply list_elem_of_In|lia|].
  intros n Hn Hnb. apply (below_shorter _ _ destination); [done|done|]. rewrite <- Ht.
  apply Nat.eqb_eq in Hcl. rewrite Hcl. by apply Hdeep.
Qed.

Lemma holds_check policy required destination text id mounts m : parse_mountinfo text = Ok mounts ->
  holds policy required destination id mounts m -> check_mountinfo policy required destination text id id = Ok tt.
Proof.
  intros Hp [Hm Ht Hi Hr Hs Hf Hb Hn]. unfold check_mountinfo. rewrite Hb. cbn [negb]. rewrite Hp. cbn [bind].
  pose proof (table_unique _ _ Hp) as Hu.
  assert (forall n, n ∈ mounts -> mi_id n = id -> n = m) as Hone by (intros n Hin Hid; apply (unique_id mounts); [done..|congruence]).
  rewrite (find_unique _ mounts m); [|done|by rewrite bool_decide_true, Hi, Z.eqb_refl|].
  2: { intros n Hin [_ Hid]%andb_true_iff. apply Hone; [done|lia]. }
  rewrite bool_decide_true by done. cbn [negb]. rewrite (proj2 (expected_spec policy m)) by done. cbn [negb].
  assert (deepest_depth mounts destination = Some (length required)) as ->.
  { apply deepest_spec. split; [exists m; by rewrite Ht|]. intros n Hin Hnb. by apply below_length, Hn. }
  rewrite (find_unique _ mounts m); [|done|by rewrite Ht, Hb, Nat.eqb_refl, Hi, Z.eqb_refl|].
  2: { intros n Hin [_ Hid]%andb_true_iff. apply Hone; [done|lia]. }
  rewrite Z.eqb_refl. cbn [negb]. by rewrite (proj2 (expected_spec policy m)).
Qed.
End MountLemmas.

(** C40: A destination passes its mount policy exactly when the policy is well
    formed, the directory lies below the required mount point, both are on the
    mount the table lists there, which has the source and type of the policy
    and is no projection of a part, and no mount of the table lies deeper on
    the way to the destination. *)
Theorem required_mount_exact v policy path : MountPolicy.check_path v policy path = Ok tt <->
  MountPolicy.validate policy = Ok tt /\ MountPolicy.validate_destination_path path = Ok tt /\
  exists required destination id text mounts m,
    MountPolicy.resolve_existing_prefix v (qm_path policy) = Ok required /\
    MountPolicy.resolve_existing_prefix v path = Ok destination /\
    MountPolicy.visible_mount v required = Ok id /\ MountPolicy.visible_mount v destination = Ok id /\
    mv_mountinfo v = Ok text /\ MountPolicy.parse_mountinfo text = Ok mounts /\
    MountLemmas.holds policy required destination id mounts m.
Proof.
  unfold MountPolicy.check_path. split.
  - intros ([] & Hv & H)%bind_Ok. apply bind_Ok in H as ([] & Hd & H). split; [done|]. split; [done|].
    apply bind_Ok in H as (required & Hr & H). apply bind_Ok in H as (destination & Hp & H).
    apply bind_Ok in H as (rid & Hrid & H). apply bind_Ok in H as (did & Hdid & H). apply bind_Ok in H as (text & Ht & H).
    apply MountLemmas.check_holds in H as (<- & mounts & m & Hm & Hh). by exists required, destination, rid, text, mounts, m.
  - intros (Hv & Hd & required & destination & id & text & mounts & m & Hr & Hp & Hrid & Hdid & Ht & Hm & Hh).
    rewrite Hv, Hd, Hr, Hp. cbn [bind]. rewrite Hrid, Hdid, Ht. cbn [bind]. by eapply MountLemmas.holds_check.
Qed.
