(* ===== verification/Volume.v ===== *)
(** * The directory of a local destination ([crates/lr-unsafe/src/beneath.rs, lib.rs])

    What a destination's process sees of a file system: the nodes below the
    root of the destination, by the names that lead to them, and the system
    calls of the code on them. Every call can fail: [vo_faults] says how the
    next ones do. A call names one entry of a directory that is open, so a
    symbolic link at it is never followed. *)

From stdpp Require Import gmap.
From S2P Require Import Prelude Maps Text Core Steps Sysfs MountPolicy.

Inductive node := NFile (ino : Z) (data : bytes) | NLink | NDir.
Abbreviation path := (list bytes).

(** What fails next, and how much a failing write has written. *)
Record Fault := { ft_kind : io_kind; ft_written : Z }.

(** A held set lock: the inode of the lock file, when the lease was written
    last, and why it was lost. *)
Record Lease := { le_ino : Z; le_ttl : Z; le_refreshed : Z; le_lost : option string }.

Record Volume := {
  vo_nodes : gmap path node;
  vo_next_ino : Z;
  (** The inodes on which other live processes hold an [flock]. *)
  vo_flocked : list Z;
  vo_faults : list (option Fault);
  (** [Id::generate], and the seconds that pass before a look at the clock. *)
  vo_random : list Id;
  vo_now : Z;
  vo_ticks : list Z;
  vo_mounts : MountView;
  vo_lease : option Lease;
}.

Module Volumes.
Definition set_nodes (nodes : gmap path node) (v : Volume) : Volume :=
  {| vo_nodes := nodes; vo_next_ino := vo_next_ino v; vo_flocked := vo_flocked v; vo_faults := vo_faults v;
     vo_random := vo_random v; vo_now := vo_now v; vo_ticks := vo_ticks v; vo_mounts := vo_mounts v; vo_lease := vo_lease v |}.
Definition set_faults (faults : list (option Fault)) (v : Volume) : Volume :=
  {| vo_nodes := vo_nodes v; vo_next_ino := vo_next_ino v; vo_flocked := vo_flocked v; vo_faults := faults;
     vo_random := vo_random v; vo_now := vo_now v; vo_ticks := vo_ticks v; vo_mounts := vo_mounts v; vo_lease := vo_lease v |}.
Definition set_next_ino (ino : Z) (v : Volume) : Volume :=
  {| vo_nodes := vo_nodes v; vo_next_ino := ino; vo_flocked := vo_flocked v; vo_faults := vo_faults v;
     vo_random := vo_random v; vo_now := vo_now v; vo_ticks := vo_ticks v; vo_mounts := vo_mounts v; vo_lease := vo_lease v |}.
Definition set_random (random : list Id) (v : Volume) : Volume :=
  {| vo_nodes := vo_nodes v; vo_next_ino := vo_next_ino v; vo_flocked := vo_flocked v; vo_faults := vo_faults v;
     vo_random := random; vo_now := vo_now v; vo_ticks := vo_ticks v; vo_mounts := vo_mounts v; vo_lease := vo_lease v |}.
Definition set_clock (now : Z) (ticks : list Z) (v : Volume) : Volume :=
  {| vo_nodes := vo_nodes v; vo_next_ino := vo_next_ino v; vo_flocked := vo_flocked v; vo_faults := vo_faults v;
     vo_random := vo_random v; vo_now := now; vo_ticks := ticks; vo_mounts := vo_mounts v; vo_lease := vo_lease v |}.
Definition set_lease (lease : option Lease) (v : Volume) : Volume :=
  {| vo_nodes := vo_nodes v; vo_next_ino := vo_next_ino v; vo_flocked := vo_flocked v; vo_faults := vo_faults v;
     vo_random := vo_random v; vo_now := vo_now v; vo_ticks := vo_ticks v; vo_mounts := vo_mounts v; vo_lease := lease |}.

(** ** System calls *)

(** One call: it fails as foreseen, or does its work. *)
Definition call_with {A} (failing : Fault -> Volume -> Volume) (work : step Volume A) : step Volume A := fun v =>
  match vo_faults v with
  | Some fault :: faults => (failing fault (set_faults faults v), Err (Io (ft_kind fault)))
  | None :: faults => work (set_faults faults v)
  | [] => work v
  end.
Definition call {A} (work : step Volume A) : step Volume A := call_with (fun _ v => v) work.

Definition NUL : byte := Byte.x00.
(** A name with a NUL byte cannot be handed to the kernel. *)
Definition has_nul (p : path) : bool := existsb (fun c => bool_decide (c = NUL)) (List.last p []).
Definition at_entry {A} (p : path) (work : step Volume A) : step Volume A :=
  if has_nul p then step_err (Io OtherIo) else call work.
Definition at_entries {A} (p q : path) (work : step Volume A) : step Volume A :=
  if has_nul p || has_nul q then step_err (Io OtherIo) else call work.

Definition look (p : path) : Volume -> option node := fun v => vo_nodes v !! p.

(** [Id::generate], [now_unix] and [Instant::now]. *)
Definition generate : step Volume Id := fun v =>
  match vo_random v with
  | id :: random => (set_random random v, Ok id)
  | [] => (v, Err (Io OtherIo))
  end.
Definition now_unix (v : Volume) : Volume * Z :=
  match vo_ticks v with
  | tick :: ticks => (set_clock (vo_now v + tick) ticks v, vo_now v + tick)
  | [] => (v, vo_now v)
  end.
Definition clock : step Volume Z := fun v => let '(v, now) := now_unix v in (v, Ok now).

(** [create_dir_all] of the root. *)
Definition create_root : step Volume unit := call (fun v =>
  match look [] v with
  | None => (set_nodes (<[[] := NDir]> (vo_nodes v)) v, Ok tt)
  | Some NDir => (v, Ok tt)
  | Some _ => (v, Err (Io OtherIo))
  end).
(** [open_root]. *)
Definition open_root : step Volume path := call (reads (fun v =>
  match look [] v with
  | Some NDir => Ok []
  | Some _ => Err (Io OtherIo)
  | None => Err (Io NotFound)
  end)).

(** [mkdir_in]: an entry that exists, of whatever kind, is left alone. *)
Definition mkdir_in (dir : path) (name : bytes) : step Volume unit := at_entry (dir ++ [name]) (fun v =>
  match look (dir ++ [name]) v with
  | Some _ => (v, Ok tt)
  | None => (set_nodes (<[dir ++ [name] := NDir]> (vo_nodes v)) v, Ok tt)
  end).

(** [open_dir_beneath] with one name. *)
Definition open_dir_beneath (dir : path) (name : bytes) : step Volume path := at_entry (dir ++ [name]) (reads (fun v =>
  match look (dir ++ [name]) v with
  | Some NDir => Ok (dir ++ [name])
  | Some _ => Err (Io OtherIo)
  | None => Err (Io NotFound)
  end)).

(** [open] with [create_new] and [O_NOFOLLOW]; [None] when there is something. *)
Definition create_new (p : path) : step Volume (option Z) := at_entry p (fun v =>
  match look p v with
  | Some _ => (v, Ok None)
  | None =>
    (set_next_ino (vo_next_ino v + 1) (set_nodes (<[p := NFile (vo_next_ino v) []]> (vo_nodes v)) v), Ok (Some (vo_next_ino v)))
  end).

(** [open_nofollow], then reading to the end; a directory opens but does not read. *)
Definition open_nofollow (p : path) : step Volume node := at_entry p (reads (fun v =>
  match look p v with
  | Some NLink => Err (Io OtherIo)
  | Some n => Ok n
  | None => Err (Io NotFound)
  end)).
Definition read_to_end (n : node) : step Volume bytes :=
  call (lift (match n with NFile _ data => Ok data | _ => Err (Io OtherIo) end)).
Definition sync_all : step Volume unit := call (step_ret tt).

(** Writing to the open file that the entry names. *)
Definition put_data (p : path) (data : bytes) (v : Volume) : Volume :=
  match look p v with
  | Some (NFile ino _) => set_nodes (<[p := NFile ino data]> (vo_nodes v)) v
  | _ => v
  end.
Definition write_all (p : path) (data : bytes) : step Volume unit :=
  call_with (fun fault => put_data p (ztake (ft_written fault) data)) (fun v =>
    match look p v with
    | Some (NFile _ _) => (put_data p data v, Ok tt)
    | _ => (v, Err (Io OtherIo))
    end).

(** [remove_file]: [unlink] takes no directory. *)
Definition remove_file (p : path) : step Volume unit := at_entry p (fun v =>
  match look p v with
  | Some NDir => (v, Err (Io OtherIo))
  | Some _ => (set_nodes (delete p (vo_nodes v)) v, Ok tt)
  | None => (v, Err (Io NotFound))
  end).

(** ** Renaming *)
Fixpoint strip (prefix p : path) : option path :=
  match prefix, p with
  | [], _ => Some p
  | a :: prefix, b :: p => if bool_decide (a = b) then strip prefix p else None
  | _ :: _, [] => None
  end.

(** A directory takes everything below along. *)
Definition moved (from to p : path) : path := match strip from p with Some rest => to ++ rest | None => p end.
Definition move_tree (from to : path) (nodes : gmap path node) : gmap path node :=
  list_to_map (map (fun e => (moved from to (fst e), snd e)) (map_to_list nodes)).
Definition is_empty (p : path) (nodes : gmap path node) : bool :=
  forallb (fun e => match strip p (fst e) with Some (_ :: _) => false | _ => true end) (map_to_list nodes).

Definition rename_nodes (from to : path) (nodes : gmap path node) : option (gmap path node) :=
  match nodes !! from with
  | None => None
  | Some n =>
    if decide (from = to) then Some nodes
    else
      match n, nodes !! to with
      | NDir, Some NDir =>
        if is_empty to nodes && negb (bool_decide (is_Some (strip from to))) then Some (move_tree from to nodes) else None
      | NDir, Some _ => None
      | NDir, None => if bool_decide (is_Some (strip from to)) then None else Some (move_tree from to nodes)
      | _, Some NDir => None
      | n, _ => Some (<[to := n]> (delete from nodes))
      end
  end.

Definition rename (from to : path) : step Volume unit := at_entries from to (fun v =>
  match rename_nodes from to (vo_nodes v) with
  | Some nodes => (set_nodes nodes v, Ok tt)
  | None => (v, Err (Io OtherIo))
  end).

(** [rename_noreplace]; [true] for [AlreadyExists]. *)
Definition rename_noreplace (from to : path) : step Volume bool := at_entries from to (fun v =>
  match look from v, look to v with
  | None, _ => (v, Err (Io NotFound))
  | Some _, Some _ => (v, Ok true)
  | Some _, None =>
    match rename_nodes from to (vo_nodes v) with
    | Some nodes => (set_nodes nodes v, Ok false)
    | None => (v, Err (Io OtherIo))
    end
  end).

(** ** Listing *)

(** What a directory can name; [.] and [..] are not listed. *)
Definition plain (name : bytes) : bool :=
  negb (bool_decide (name = [])) && negb (bool_decide (name = Paths.DOT)) && negb (bool_decide (name = Paths.DOTDOT)) &&
  forallb (fun c => negb (bool_decide (c = Paths.SLASH))) name.
Definition child_of (dir p : path) : option bytes :=
  match strip dir p with Some [name] => if plain name then Some name else None | _ => None end.
Definition read_dir (dir : path) : step Volume (list (bytes * node)) := call (reads (fun v =>
  Ok (omap (fun e => match child_of dir (fst e) with Some name => Some (name, snd e) | None => None end) (map_to_list (vo_nodes v))))).

(** The longest path there is. *)
Definition depth (v : Volume) : nat := fold_right Nat.max 0%nat (map (fun e => length (fst e)) (map_to_list (vo_nodes v))).

(** [normal_components]. *)
Definition normal_components (name : bytes) : option path :=
  match name with
  | [] => Some []
  | _ =>
    let parts := Text.split Paths.SLASH name in
    if existsb (fun n => bool_decide (n = []) || bool_decide (n = Paths.DOT) || bool_decide (n = Paths.DOTDOT)) parts
    then None else Some parts
  end.
End Volumes.
