(* ===== verification/Local.v ===== *)
(** * The local destination ([crates/lr-store/src/local.rs])

    A destination that keeps its sets in directories below a root. Everything
    below the root is reached from open directories, one name at a time, and no
    symbolic link is followed. It implements the [Destination] interface of the
    engine, and its laws hold of it. *)

From stdpp Require Import gmap.
From S2P Require Import Prelude Maps Text Core Steps Destination Sysfs MountPolicy Volume.

(** ** Set locks ([lib.rs]) *)
Record LockOwner := { lo_host_id : bytes; lo_pid : Z }.
Record LockRecord := { lk_owner : LockOwner; lk_created : Z; lk_ttl_secs : Z; lk_token : bytes }.

(** [serde_json] on lock records. *)
Class LockJson := {
  lock_to_json : LockRecord -> bytes;
  lock_from_json : bytes -> option LockRecord;
}.

Module LockRecords.
Definition is_stale (r : LockRecord) (now : Z) : bool :=
  negb (lk_ttl_secs r =? 0) && (Z.min U64_MAX (lk_created r + lk_ttl_secs r) <? now).
End LockRecords.

Record LocalDestination := {
  ld_root : bytes;
  ld_set_name : bytes;
  ld_required_mount : option RequiredMount;
}.

Module Local.
Import Volumes.

Definition temp_name (final_name : bytes) : step Volume bytes :=
  do* random := generate in
  step_ret (final_name ++ [Byte.x2e] ++ Ids.to_uuid_string random ++ String.list_byte_of_string ".tmp").

(** [refused]: what is missing is missing, anything else is a refusal. *)
Definition refused (e : error) : error :=
  match e with
  | Io NotFound => Io NotFound
  | _ => Unsupported "{} cannot be reached without following a symlink or is not a directory ({error}); refusing to use it"
  end.

Definition lease_lost (reason : string) : error :=
  SetLocked "another job: this job's lease on {path} was lost ({reason}), so it stops before changing the set".

Section local.
Context `{LockJson} (l : LocalDestination).

Definition set_dir : bytes := Paths.join (ld_root l) (ld_set_name l).

Definition check_required_mount_at (p : bytes) : step Volume unit := reads (fun v =>
  match ld_required_mount l with
  | Some required_mount => MountPolicy.check_path (vo_mounts v) required_mount p
  | None => Ok tt
  end).

(** The set directory, opened. *)
Definition set_fd (create : bool) : step Volume path :=
  do* _ := lift (Names.validate_set_name (ld_set_name l)) in
  do* _ := check_required_mount_at set_dir in
  do* _ := (if create then create_root else step_ret tt) in
  do* root := open_root in
  do* _ := (if create then mkdir_in root (ld_set_name l) else step_ret tt) in
  step_map_err refused (open_dir_beneath root (ld_set_name l)).

Definition descend (create : bool) (dir : path) (name : bytes) : step Volume path :=
  do* _ := (if create then mkdir_in dir name else step_ret tt) in
  step_map_err refused (open_dir_beneath dir name).

(** The directory that holds [name], and the entry for [name] in it. *)
Definition entry (name : bytes) (create : bool) : step Volume (path * path) :=
  match normal_components name with
  | None => step_err (Unsupported "destination name '{name}' must be a plain relative path")
  | Some components =>
    match rev components with
    | [] => step_err (Unsupported "empty destination name")
    | file :: directories =>
      do* _ := check_required_mount_at (Paths.join set_dir name) in
      do* dir := set_fd create in
      do* dir := step_fold (descend create) (rev directories) dir in
      step_ret (dir, dir ++ [file])
    end
  end.

Definition publish (tmp final_name : bytes) (replacing : bool) : step Volume Durability :=
  do* (_, tmp_path) := entry tmp false in
  do* (_, final_path) := entry final_name true in
  do* _ := open_nofollow tmp_path in
  do* _ := sync_all in
  do* _ :=
    (if replacing then rename tmp_path final_path
     else
       do* existed := rename_noreplace tmp_path final_path in
       if existed : bool then step_err (Unsupported "{final_name} already exists; a published image is never replaced")
       else step_ret tt) in
  do* _ := sync_all in
  step_ret Synced.

(** ** The trait *)
Definition open_set : step Volume unit := do* _ := set_fd true in step_ret tt.

Definition open_existing_set : step Volume unit := fun v =>
  match set_fd false v with
  | (v, Ok _) => (v, Ok tt)
  | (v, Err (Io NotFound)) => (v, Err (Io NotFound))
  | (v, Err e) => (v, Err e)
  end.

Definition create_tmp (final_name : bytes) : step Volume bytes :=
  do* name := temp_name final_name in
  do* (_, p) := entry name true in
  do* created := create_new p in
  match created with
  | Some _ => step_ret name
  | None => step_err (Io OtherIo)
  end.

(** What the engine does with the writer of a [TempFile]: the file it created is
    the one its name names. *)
Definition file_path (name : bytes) : path := ld_set_name l :: default [] (normal_components name).
Definition write_tmp (tmp contents : bytes) : step Volume unit :=
  match normal_components tmp with
  | Some (_ :: _) => do* _ := write_all (file_path tmp) contents in sync_all
  | _ => step_err (Io OtherIo)
  end.

Definition open_ro (name : bytes) : step Volume bytes :=
  do* (_, p) := entry name false in
  do* n := open_nofollow p in
  read_to_end n.

Definition delete_file (name : bytes) : step Volume unit :=
  do* (_, p) := entry name false in
  remove_file p.

(** [collect_beneath]; [fuel] is at least the number of levels. *)
Fixpoint collect_beneath (fuel : nat) (dir : path) (prefix : bytes) (found : list bytes) : step Volume (list bytes) :=
  match fuel with
  | O => step_ret found
  | S fuel =>
    let at_ := Paths.join set_dir prefix in
    do* _ := check_required_mount_at at_ in
    do* entries := read_dir dir in
    step_fold (fun found e =>
      let '(name, n) := e in
      if negb (utf8_valid name) then step_ret found
      else
        match n with
        | NDir =>
          do* _ := check_required_mount_at (Paths.join at_ name) in
          do* sub := step_map_err refused (open_dir_beneath dir name) in
          collect_beneath fuel sub (prefix ++ name ++ [Paths.SLASH]) found
        | NFile _ _ => step_ret (found ++ [prefix ++ name])
        | NLink => step_ret found
        end) entries found
  end.

Definition list_set : step Volume (list bytes) := fun v =>
  match set_fd false v with
  | (v, Err (Io NotFound)) => (v, Ok [])
  | (v, Err e) => (v, Err e)
  | (v, Ok dir) =>
    (do* found := collect_beneath (S (depth v)) dir [] [] in
     step_ret (sort_by Sysfs.name_leb found)) v
  end.

(** ** The lock *)
Definition read_lock (p : path) : step Volume (option LockRecord) := fun v =>
  match (do* n := open_nofollow p in read_to_end n) v with
  | (v, Ok data) => (v, Ok (lock_from_json data))
  | (v, Err (Io NotFound)) => (v, Ok None)
  | (v, Err e) => (v, Err e)
  end.

(** [File::try_lock]. *)
Definition try_lock (ino : Z) : step Volume bool :=
  call (reads (fun v => Ok (negb (bool_decide (ino ∈ vo_flocked v))))).

(** One round; [false] when a stale lock was removed and the next round is due. *)
Definition attempt (p : path) (record : LockRecord) (break_stale : bool) : step Volume bool :=
  do* created := create_new p in
  match created with
  | Some ino =>
    do* locked := try_lock ino in
    if negb locked then step_err (SetLocked "a process that opened the new lock file first")
    else
      do* _ := write_all p (lock_to_json record) in
      do* _ := sync_all in
      do* now := clock in
      (* the refreshing thread *)
      do* _ := (if lk_ttl_secs record =? 0 then step_ret tt else call (step_ret tt)) in
      do* _ := modify (set_lease (Some {| le_ino := ino; le_ttl := lk_ttl_secs record; le_refreshed := now; le_lost := None |})) in
      step_ret true
  | None =>
    do* existing := read_lock p in
    match existing with
    | None => step_err (SetLocked "unreadable {}")
    | Some existing =>
      do* now := clock in
      if LockRecords.is_stale existing now && break_stale then
        do* n := open_nofollow p in
        match n with
        | NFile ino _ =>
          do* locked := try_lock ino in
          if negb locked then
            step_err (SetLocked "{}; its lease looks expired, but its process is still alive on this host, so it is not broken")
          else do* _ := remove_file p in step_ret false
        | _ => step_err (Io OtherIo)
        end
      else step_err (SetLocked "{} pid {} since {} (ttl {}s)")
    end
  end.

(** The rounds of [loop]. *)
Fixpoint attempts (fuel : nat) (p : path) (record : LockRecord) (break_stale : bool) : step Volume unit :=
  match fuel with
  | O => step_err (SetLocked "")
  | S fuel =>
    do* done := attempt p record break_stale in
    if done : bool then step_ret tt else attempts fuel p record break_stale
  end.

Definition acquire (owner : LockOwner) (ttl : Z) (break_stale : bool) : step Volume unit :=
  do* (_, p) := entry LOCK_FILE true in
  do* created := clock in
  do* token := generate in
  let record := {| lk_owner := owner; lk_created := created; lk_ttl_secs := ttl; lk_token := Ids.to_uuid_string token |} in
  attempts 2 p record break_stale.

(** [Lease::still_ours]: what the path names, without following a link. *)
Definition still_ours (lease : Lease) : step Volume unit := at_entry (file_path LOCK_FILE) (reads (fun v =>
  match look (file_path LOCK_FILE) v with
  | None => Err (lease_lost "the lock file is gone: {error}")
  | Some (NFile ino _) => if ino =? le_ino lease then Ok tt else Err (lease_lost "the lock file was replaced by another holder")
  | Some _ => Err (lease_lost "the lock file was replaced by another holder")
  end)).

(** [Lease::verify] on the lock the job holds. *)
Definition lock_verify : step Volume unit := fun v =>
  match vo_lease v with
  | None => (v, Err (SetLocked ""))
  | Some lease =>
    match le_lost lease with
    | Some reason => (v, Err (lease_lost reason))
    | None =>
      (do* _ := step_map_err (fun e => match e with Io _ => lease_lost "the lock file is gone: {error}" | e => e end) (still_ours lease) in
       do* now := clock in
       if negb (le_ttl lease =? 0) && (le_ttl lease <? now - le_refreshed lease) then
         step_err (lease_lost "it expired while the job was not running, and another job may have broken it")
       else step_ret tt) v
    end
  end.

(** Dropping the lock: the file goes only while it is this holder's. *)
Definition release : step Volume unit := fun v =>
  match vo_lease v with
  | None => (v, Ok tt)
  | Some lease =>
    let v := set_lease None v in
    match still_ours lease v with
    | (v, Ok _) => (fst (remove_file (file_path LOCK_FILE) v), Ok tt)
    | (v, Err _) => (v, Ok tt)
    end
  end.

(** The next turn of [refresh_loop]: [false] when it ends. *)
Definition refresh (record : LockRecord) : step Volume bool := fun v =>
  match vo_lease v with
  | None => (v, Ok false)
  | Some lease =>
    let lose reason v := (set_lease (Some {| le_ino := le_ino lease; le_ttl := le_ttl lease; le_refreshed := le_refreshed lease;
                                             le_lost := Some (default reason (le_lost lease)) |}) v, Ok false) in
    match still_ours lease v with
    | (v, Err _) => lose "the lock file is gone: {error}"%string v
    | (v, Ok _) =>
      let '(v, now) := now_unix v in
      match write_all (file_path LOCK_FILE) (lock_to_json
              {| lk_owner := lk_owner record; lk_created := now; lk_ttl_secs := lk_ttl_secs record; lk_token := lk_token record |}) v with
      | (v, Err _) => lose "refreshing it failed: {error}"%string v
      | (v, Ok _) =>
        let '(v, now) := now_unix v in
        (set_lease (Some {| le_ino := le_ino lease; le_ttl := le_ttl lease; le_refreshed := now; le_lost := le_lost lease |}) v, Ok true)
      end
    end
  end.

End local.
End Local.
