(* ===== verification/Uri.v ===== *)
(** * Destination URIs ([crates/lr-store/src/uri.rs])

    Where a destination is and, in the URI of an image, which set and member it
    names. *)

From S2P Require Import Prelude Text Sysfs.

Inductive DestinationUri :=
  | Local (path : bytes)
  | Sftp (user : option bytes) (host : bytes) (port : Z) (path : bytes).

Record ImageLocation := { il_dest : bytes; il_set : bytes; il_name : bytes }.

Module Uris.
Import Paths.
Definition COLON : byte := Byte.x3a.
Definition AT : byte := Byte.x40.
Definition U16_MAX : Z := 2 ^ 16 - 1.

Definition is_local (u : DestinationUri) : bool := match u with Local _ => true | Sftp _ _ _ _ => false end.

Definition authority (u : DestinationUri) : bytes :=
  match u with
  | Local _ => []
  | Sftp user host port _ =>
    Text.str "sftp://" ++ match user with Some u => u ++ [AT] | None => [] end ++ host ++ [COLON] ++ Text.to_decimal port
  end.

Definition split_port (authority : bytes) : result (bytes * Z) :=
  match Text.rsplit_once COLON authority with
  | None => Ok (authority, 22)
  | Some (host_part, port) =>
    match port with
    | [] => Err (Unsupported "'{port}' is not an sftp port")
    | _ =>
      if negb (forallb Text.is_ascii_digit port) then Err (Unsupported "'{port}' is not an sftp port")
      else match Text.parse_unsigned U16_MAX port with
           | Some port => Ok (host_part, port)
           | None => Err (Unsupported "sftp port '{port}' is out of range")
           end
    end
  end.

Definition parse_sftp (rest : bytes) : result DestinationUri :=
  let '(authority, path) := match Text.split_once SLASH rest with
                            | Some (authority, path) => (authority, SLASH :: path)
                            | None => (rest, [])
                            end in
  match path with
  | [] => Err (Unsupported "an sftp destination needs a path, e.g. sftp://host/srv/backups")
  | _ =>
    let* (user, host_port) :=
      match Text.split_once AT authority with
      | Some (user, host) =>
        if bool_decide (COLON ∈ user) then
          Err (Unsupported "a password in a destination URI is refused; use --identity or ssh-agent")
        else Ok (Some user, host)
      | None => Ok (None, authority)
      end in
    let* (host, port) := split_port host_port in
    match host with
    | [] => Err (Unsupported "an sftp destination needs a host")
    | _ => Ok (Sftp user host port path)
    end
  end.

Definition parse (uri : bytes) : result DestinationUri :=
  let uri := Text.trim uri in
  match uri with
  | [] => Err (Unsupported "the destination URI is empty")
  | _ =>
    match Text.strip_prefix (Text.str "sftp://") uri with
    | Some rest => parse_sftp rest
    | None =>
      match Text.strip_prefix (Text.str "file://") uri with
      | Some rest => Ok (Local (if Text.starts_with [SLASH] rest then rest else uri))
      | None =>
        if Text.contains (Text.str "://") uri then
          Err (Unsupported "destination scheme '{scheme}' is not supported (use a path, file:// or sftp://)")
        else Ok (Local uri)
      end
    end
  end.

(** [path_components]. *)
Definition path_components (path : bytes) : result (list bytes) :=
  if existsb (fun n => bool_decide (n = DOTDOT)) (names path) then
    Err (Unsupported "an image path may not contain {other:?}")
  else Ok (map Text.utf8_lossy (names path)).

Definition nonempty (n : bytes) : bool := negb (bool_decide (n = [])).

Definition split_named (rest : bytes) : result ImageLocation :=
  match List.filter nonempty (Text.split SLASH rest) with
  | name :: set :: m1 :: m2 :: member =>
    Ok {| il_dest := AT :: name; il_set := set; il_name := Text.join [SLASH] (m1 :: m2 :: member) |}
  | _ => Err (Unsupported "'{uri}' must name a set, a chain and a member, e.g. @<name>/<set>/<chain>/<file>.lrimg")
  end.

Definition split_image (uri : bytes) : result ImageLocation :=
  match Text.strip_prefix [AT] uri with
  | Some rest => split_named rest
  | None =>
    let* parsed := parse uri in
    let* components :=
      match parsed with
      | Local path => path_components path
      | Sftp _ _ _ path =>
        Ok (List.filter (fun part => nonempty part && negb (bool_decide (part = DOT))) (Text.split SLASH path))
      end in
    if zlen components <? 3 then
      Err (Unsupported "'{uri}' must name a set, a chain and a member, e.g. <dest>/<set>/<chain>/<file>.lrimg")
    else
      let split := zlen components - 3 in
      let prefix := Text.join [SLASH] (ztake split components) in
      let dest := match parsed with
                  | Local _ => match prefix with [] => [SLASH] | _ => SLASH :: prefix end
                  | Sftp _ _ _ _ => authority parsed ++ [SLASH] ++ prefix
                  end in
      match zdrop split components with
      | set :: rest => Ok {| il_dest := dest; il_set := set; il_name := Text.join [SLASH] rest |}
      | [] => Err (Unsupported "unreachable: at least three components")
      end
  end.
End Uris.

(** ** Lemmas *)
Module UriLemmas.
Import Uris Paths.

(** A name that is one component of a path, as text. *)
Definition clean (n : bytes) : Prop :=
  n <> [] /\ ~ (SLASH ∈ n) /\ n <> DOT /\ n <> DOTDOT /\ Text.utf8_lossy n = n.

Lemma split_join (l : list bytes) : l <> [] -> Forall (fun n => SLASH ∉ n) l -> Text.split SLASH (Text.join [SLASH] l) = l.
Proof.
  induction l as [|n l IH]; [done|]. intros _ [Hn Hl]%Forall_cons. destruct l as [|m l].
  - cbn [Text.join]. clear IH Hl. induction n as [|c n IH]; [done|]. apply not_elem_of_cons in Hn as [Hc Hn].
    cbn [Text.split]. rewrite bool_decide_false by congruence. by rewrite IH.
  - cbn [Text.join app]. rewrite TextLemmas.split_cons_app by done. f_equal. by apply IH.
Qed.

Lemma names_join l : l <> [] -> Forall clean l -> names (SLASH :: Text.join [SLASH] l) = l.
Proof.
  intros Hne Hl. unfold names. cbn [Text.split]. rewrite bool_decide_true by done.
  rewrite split_join; [|done|eapply Forall_impl; [exact Hl|]; by intros n (_ & ? & _)]. cbn [List.filter].
  rewrite bool_decide_true by done. cbn [negb andb]. clear Hne. induction Hl as [|n l (Hn & _ & Hd & _) _ IH]; [done|].
  cbn [List.filter]. rewrite !bool_decide_false by done. cbn. by rewrite IH.
Qed.

Lemma lossy_clean l : Forall clean l -> map Text.utf8_lossy l = l.
Proof. induction 1 as [|n l (_ & _ & _ & _ & Hu) _ IH]; [done|]. cbn. by rewrite Hu, IH. Qed.

Lemma no_dotdot l : Forall clean l -> existsb (fun n => bool_decide (n = DOTDOT)) l = false.
Proof. induction 1 as [|n l (_ & _ & _ & Hd & _) _ IH]; [done|]. cbn. by rewrite bool_decide_false. Qed.

Lemma contains_mid p a b : Text.contains p (a ++ p ++ b) = true.
Proof.
  induction a as [|x a IH]; cbn [app].
  - assert (Text.starts_with p (p ++ b) = true) as Hs by (unfold Text.starts_with; by rewrite TextLemmas.strip_prefix_app).
    destruct (p ++ b); cbn [Text.contains]; by rewrite Hs.
  - cbn [Text.contains]. by rewrite IH, orb_true_r.
Qed.

Lemma no_scheme p a uri : Text.contains p uri = false -> Text.strip_prefix (a ++ p) uri = None.
Proof.
  intros Hc. destruct (Text.strip_prefix (a ++ p) uri) as [r|] eqn:E; [|done].
  apply TextLemmas.strip_prefix_Some in E. rewrite E, <- app_assoc, contains_mid in Hc. done.
Qed.

Lemma parse_plain_path uri : uri <> [] -> Text.trim uri = uri -> Text.contains (Text.str "://") uri = false ->
  parse uri = Ok (Local uri).
Proof.
  intros Hne Ht Hc. unfold parse. rewrite Ht. destruct uri as [|c uri]; [done|].
  rewrite (no_scheme (Text.str "://") (Text.str "sftp")), (no_scheme (Text.str "://") (Text.str "file")), Hc by done. done.
Qed.

Lemma split_path uri dest set chain file : Text.strip_prefix [AT] uri = None -> uri <> [] -> Text.trim uri = uri ->
  Text.contains (Text.str "://") uri = false -> names uri = dest ++ [set; chain; file] -> Forall clean (dest ++ [set; chain; file]) ->
  split_image uri = Ok {| il_dest := match dest with [] => [SLASH] | _ => SLASH :: Text.join [SLASH] dest end;
                          il_set := set; il_name := chain ++ [SLASH] ++ file |}.
Proof.
  intros Ha Hne Ht Hc Hn Hl. unfold split_image. rewrite Ha, parse_plain_path by done. cbn [bind]. unfold path_components.
  rewrite Hn, no_dotdot, lossy_clean by done. cbn [bind]. rewrite zlen_app. change (zlen [set; chain; file]) with 3.
  pose proof (zlen_nonneg dest). rewrite (proj2 (Z.ltb_ge _ _)) by lia. replace (zlen dest + 3 - 3) with (zlen dest) by lia.
  rewrite ztake_app_exact, zdrop_app_exact by done. do 2 f_equal.
  destruct dest as [|d dest]; [done|]. destruct (Text.join [SLASH] (d :: dest)) as [|c l] eqn:E; [|done].
  apply Forall_cons in Hl as [(Hd & _) _]. destruct dest as [|d' dest]; cbn in E; [done|]. by destruct d.
Qed.
End UriLemmas.

(** ** Properties *)

(** The location of an image below a local directory is read back from its
    path: destination, set and member. A relative path is read as if it began
    at the root. *)
Theorem split_image_local dest set chain file :
  Forall UriLemmas.clean (dest ++ [set; chain; file]) ->
  let relative := Text.join [Paths.SLASH] (dest ++ [set; chain; file]) in
  let location := {| il_dest := match dest with [] => [Paths.SLASH] | _ => Paths.SLASH :: Text.join [Paths.SLASH] dest end;
                     il_set := set; il_name := chain ++ [Paths.SLASH] ++ file |} in
  (Text.trim (Paths.SLASH :: relative) = Paths.SLASH :: relative ->
   Text.contains (Text.str "://") (Paths.SLASH :: relative) = false ->
   Uris.split_image (Paths.SLASH :: relative) = Ok location) /\
  (Text.trim relative = relative -> Text.contains (Text.str "://") relative = false ->
   Text.strip_prefix [Uris.AT] relative = None -> Uris.split_image relative = Ok location).
Proof.
  intros Hl relative location. assert (dest ++ [set; chain; file] <> []) as Hne by (by destruct dest).
  pose proof (UriLemmas.names_join _ Hne Hl) as Hn. split.
  - intros Ht Hc. by apply UriLemmas.split_path.
  - intros Ht Hc Ha. apply UriLemmas.split_path; try done.
    + unfold relative. intros E. fold relative in Hn. unfold Paths.names in Hn. fold relative in E. rewrite E in Hn. cbn in Hn.
      by destruct dest.
Qed.
