(* ===== verification/LocalSpec.v ===== *)
(** * The local destination keeps the destination's contract

    The files of a set are the regular files below its directory. Every
    operation of the local destination touches the file it names and no other,
    whatever fails in between. *)

From stdpp Require Import gmap.
From S2P Require Import Prelude Maps Text Core Steps Destination Sysfs MountPolicy Volume Local Uri.

Module LocalSpec.
Import Volumes.

(** ** Names and paths *)
Lemma join_split c s : Text.join [c] (Text.split c s) = s.
Proof.
  induction s as [|x s IH]; [done|]. cbn [Text.split]. case_bool_decide as Hx.
  - subst x. destruct (Text.split c s) as [|a l] eqn:E; [by destruct s; cbn in E; repeat case_match|].
    change (Text.join [c] ([] :: a :: l)) with ([] ++ [c] ++ Text.join [c] (a :: l)). by rewrite IH.
  - destruct (Text.split c s) as [|a l] eqn:E; [by destruct s; cbn in E; repeat case_match|].
    destruct l as [|b l]; cbn [Text.join app] in IH |- *; by rewrite IH.
Qed.

Lemma components_join n p : normal_components n = Some p -> Text.join [Paths.SLASH] p = n.
Proof.
  unfold normal_components. destruct n as [|c n]; [by intros [= <-]|]. destruct (existsb _ _); [done|]. intros [= <-].
  exact (join_split Paths.SLASH (c :: n)).
Qed.

Lemma components_inj n m p : normal_components n = Some p -> normal_components m = Some p -> n = m.
Proof. intros Hn%components_join Hm%components_join. congruence. Qed.

(** ** The file at a path *)
Definition file_in (p : path) (nodes : gmap path node) : option bytes :=
  match nodes !! p with Some (NFile _ b) => Some b | _ => None end.
Definition file_at (p : path) (v : Volume) : option bytes := file_in p (vo_nodes v).

(** A step after which the file at [p] is what it was, however it ends. *)
Definition stays {A} (p : path) (s : step Volume A) : Prop := forall v, file_at p (fst (s v)) = file_at p v.

Lemma stays_ret {A} p (a : A) : stays p (step_ret a).
Proof. done. Qed.
Lemma stays_err {A} p e : stays p (step_err (A := A) e).
Proof. done. Qed.
Lemma stays_lift {A} p (r : result A) : stays p (lift r).
Proof. done. Qed.
Lemma stays_reads {A} p (f : Volume -> result A) : stays p (reads f).
Proof. done. Qed.
Lemma stays_bind {A B} p (s : step Volume A) (k : A -> step Volume B) :
  stays p s -> (forall a, stays p (k a)) -> stays p (step_bind s k).
Proof.
  intros Hs Hk v. specialize (Hs v). unfold step_bind. destruct (s v) as [v1 [a|e]]; [|done]. cbn [fst] in Hs. by rewrite Hk.
Qed.
Lemma stays_map_err {A} p f (s : step Volume A) : stays p s -> stays p (step_map_err f s).
Proof. intros Hs v. specialize (Hs v). unfold step_map_err. by destruct (s v) as [v1 [a|e]]. Qed.
Lemma stays_fold {A S} p (f : S -> A -> step Volume S) l : (forall s a, stays p (f s a)) -> forall s, stays p (step_fold f l s).
Proof.
  intros Hf. induction l as [|x l IH]; intros s; [apply stays_ret|]. apply stays_bind; [apply Hf|]. intros. apply IH.
Qed.
Lemma stays_call_with {A} p failing (s : step Volume A) :
  (forall f v, file_at p (failing f v) = file_at p v) -> stays p s -> stays p (call_with failing s).
Proof.
  intros Hf Hs v. unfold call_with. destruct (vo_faults v) as [|[f|] fs]; [apply Hs| |].
  - cbn [fst]. by rewrite Hf.
  - by rewrite (Hs (set_faults fs v)).
Qed.
Lemma stays_call {A} p (s : step Volume A) : stays p s -> stays p (call s).
Proof. by apply stays_call_with. Qed.
Lemma stays_entry {A} p q (s : step Volume A) : stays p s -> stays p (at_entry q s).
Proof. intros Hs. unfold at_entry. destruct (has_nul q); [apply stays_err|by apply stays_call]. Qed.
Lemma stays_entries {A} p q q' (s : step Volume A) : stays p s -> stays p (at_entries q q' s).
Proof. intros Hs. unfold at_entries. destruct (_ || _); [apply stays_err|by apply stays_call]. Qed.

Lemma file_at_insert p q n v : p <> q -> file_at p (set_nodes (<[q := n]> (vo_nodes v)) v) = file_at p v.
Proof. intros Hne. unfold file_at, file_in. cbn. by rewrite lookup_insert_ne. Qed.
Lemma file_at_mkdir p q v : vo_nodes v !! q = None -> file_at p (set_nodes (<[q := NDir]> (vo_nodes v)) v) = file_at p v.
Proof.
  intros Hq. destruct (decide (p = q)) as [->|]; [|by apply file_at_insert]. unfold file_at, file_in. cbn. by rewrite lookup_insert_eq, Hq.
Qed.

(** ** Calls that leave every file alone *)
Lemma stays_generate p : stays p generate.
Proof. intros v. unfold generate. by destruct (vo_random v). Qed.
Lemma stays_now p v : file_at p (fst (now_unix v)) = file_at p v.
Proof. unfold now_unix. by destruct (vo_ticks v). Qed.
Lemma stays_clock p : stays p clock.
Proof. intros v. unfold clock. pose proof (stays_now p v). by destruct (now_unix v). Qed.
Lemma stays_mkdir p dir name : stays p (mkdir_in dir name).
Proof.
  apply stays_entry. intros v. unfold look. destruct (vo_nodes v !! (dir ++ [name])) eqn:E; [done|]. by apply file_at_mkdir.
Qed.
Lemma stays_root p : stays p create_root.
Proof.
  apply stays_call. intros v. unfold look. destruct (vo_nodes v !! []) as [[]|] eqn:E; try done. by apply file_at_mkdir.
Qed.
Lemma stays_open_root p : stays p open_root.
Proof. by apply stays_call. Qed.
Lemma stays_open_dir p dir name : stays p (open_dir_beneath dir name).
Proof. by apply stays_entry. Qed.
Lemma stays_open_nofollow p q : stays p (open_nofollow q).
Proof. by apply stays_entry. Qed.
Lemma stays_read p n : stays p (read_to_end n).
Proof. by apply stays_call. Qed.
Lemma stays_sync p : stays p sync_all.
Proof. by apply stays_call. Qed.
Lemma stays_try_lock p ino : stays p (Local.try_lock ino).
Proof. by apply stays_call. Qed.
Lemma stays_read_dir p dir : stays p (read_dir dir).
Proof. by apply stays_call. Qed.
Lemma stays_lease p lease : stays p (modify (set_lease lease)).
Proof. done. Qed.

Create HintDb stays.
#[local] Hint Resolve stays_ret stays_err stays_lift stays_reads stays_generate stays_clock stays_mkdir stays_root
  stays_open_root stays_open_dir stays_open_nofollow stays_read stays_sync stays_try_lock stays_read_dir stays_lease
  stays_map_err stays_call : stays.

Ltac staying := repeat (first
  [ progress auto with stays
  | apply stays_bind; [|intros ?]
  | apply stays_fold; intros ? ?
  | case_match ]).

(** ** Calls that change the file they name *)
Lemma stays_create p q : p <> q -> stays p (create_new q).
Proof.
  intros Hne. apply stays_entry. intros v. unfold look. destruct (vo_nodes v !! q) eqn:E; [done|].
  unfold file_at, file_in. cbn. by rewrite lookup_insert_ne.
Qed.
Lemma put_data_other p q b v : p <> q -> file_at p (put_data q b v) = file_at p v.
Proof. intros Hne. unfold put_data, look. destruct (vo_nodes v !! q) as [[]|]; try done. by apply file_at_insert. Qed.
Lemma stays_write p q b : p <> q -> stays p (write_all q b).
Proof.
  intros Hne. apply stays_call_with; [intros; by apply put_data_other|]. intros v.
  destruct (look q v) as [[]|]; try done. by apply put_data_other.
Qed.
Lemma stays_remove p q : p <> q -> stays p (remove_file q).
Proof.
  intros Hne. apply stays_entry. intros v. unfold look. destruct (vo_nodes v !! q) as [[]|] eqn:E; try done;
    unfold file_at, file_in; cbn; by rewrite lookup_delete_ne.
Qed.

(** Renaming a file: what the two names do not name is left alone, and the file
    itself gets the new name. *)
Lemma rename_file from to ino b nodes nodes' : nodes !! from = Some (NFile ino b) -> rename_nodes from to nodes = Some nodes' ->
  nodes' = (if decide (from = to) then nodes else <[to := NFile ino b]> (base.delete from nodes)) /\ nodes !! to <> Some NDir.
Proof.
  intros Hf. unfold rename_nodes. rewrite Hf. case_decide as He; [subst to; rewrite Hf; by intros [= <-]|].
  destruct (nodes !! to) as [[]|]; try done; by intros [= <-].
Qed.

(** ** The operations *)
Section ops.
Context `{LockJson} (l : LocalDestination).
Import Local.

Lemma stays_check p q : stays p (check_required_mount_at l q).
Proof. done. Qed.
#[local] Hint Resolve stays_check : stays.
Lemma stays_set_fd p create : stays p (set_fd l create).
Proof. unfold set_fd. staying. Qed.
#[local] Hint Resolve stays_set_fd : stays.
Lemma stays_descend p create dir name : stays p (descend create dir name).
Proof. unfold descend. staying. Qed.
#[local] Hint Resolve stays_descend : stays.
Lemma stays_entry_path p name create : stays p (entry l name create).
Proof. unfold entry. staying. Qed.
#[local] Hint Resolve stays_entry_path : stays.

(** The path an entry gives is the path of its name. *)
Lemma call_Ok {A} (work : step Volume A) v v' a : call work v = (v', Ok a) ->
  exists faults, work (set_faults faults v) = (v', Ok a).
Proof.
  unfold call, call_with. destruct (vo_faults v) as [|[f|] fs] eqn:E; [|done|intros Hw; by exists fs].
  intros Hw. exists []. rewrite <- E. by destruct v.
Qed.

Lemma entry_call_Ok {A} p (work : step Volume A) v v' a : at_entry p work v = (v', Ok a) ->
  exists faults, work (set_faults faults v) = (v', Ok a).
Proof. unfold at_entry. destruct (has_nul p); [done|apply call_Ok]. Qed.

Lemma map_err_Ok {A} f (s : step Volume A) v v' a : step_map_err f s v = (v', Ok a) -> s v = (v', Ok a).
Proof. unfold step_map_err. destruct (s v) as [v1 [b|e]]; [|done]. by intros [= -> ->]. Qed.

Lemma open_dir_Ok dir name v v' p : open_dir_beneath dir name v = (v', Ok p) ->
  p = dir ++ [name] /\ vo_nodes v' = vo_nodes v /\ vo_nodes v !! p = Some NDir.
Proof.
  intros [fs Hw]%entry_call_Ok. unfold reads, look in Hw. cbn in Hw.
  destruct (vo_nodes v !! (dir ++ [name])) as [[]|] eqn:E; try done. by injection Hw as <- <-.
Qed.

Lemma set_fd_Ok create v v' dir : set_fd l create v = (v', Ok dir) -> dir = [ld_set_name l] /\ vo_nodes v' !! dir = Some NDir.
Proof.
  unfold set_fd. intros Hs. apply step_bind_Ok in Hs as (v1 & ? & _ & Hs).
  apply step_bind_Ok in Hs as (v2 & ? & _ & Hs). apply step_bind_Ok in Hs as (v3 & ? & _ & Hs).
  apply step_bind_Ok in Hs as (v4 & root & Hr & Hs). apply step_bind_Ok in Hs as (v5 & ? & _ & Hs).
  apply map_err_Ok, open_dir_Ok in Hs as (-> & -> & Hd).
  apply call_Ok in Hr as [fs Hr]. unfold reads in Hr. destruct (look [] _) as [[]|]; try done. injection Hr as _ <-. done.
Qed.

Lemma descend_Ok create dir name v v' p : descend create dir name v = (v', Ok p) ->
  p = dir ++ [name] /\ vo_nodes v' !! p = Some NDir.
Proof. unfold descend. intros (v1 & ? & _ & (-> & -> & ?)%map_err_Ok%open_dir_Ok)%step_bind_Ok. done. Qed.

Lemma descends_Ok create names : forall dir v v' p, step_fold (descend create) names dir v = (v', Ok p) -> p = dir ++ names.
Proof.
  induction names as [|n names IH]; intros dir v v' p; cbn [step_fold]; [intros [= _ ->]; by rewrite app_nil_r|].
  intros (v1 & d & [-> _]%descend_Ok & ->%IH)%step_bind_Ok. by rewrite <- app_assoc.
Qed.

(** A name the destination takes. *)
Definition named (name : bytes) : Prop := exists c cs, normal_components name = Some (c :: cs).

Lemma entry_Ok name create v v' dir p : entry l name create v = (v', Ok (dir, p)) -> named name /\ p = file_path l name.
Proof.
  unfold entry, file_path. destruct (normal_components name) as [cs|] eqn:E; [|done].
  destruct (rev cs) as [|file dirs] eqn:Er; [done|]. intros (v1 & ? & _ & Hs)%step_bind_Ok.
  apply step_bind_Ok in Hs as (v2 & d & [-> _]%set_fd_Ok & Hs).
  apply step_bind_Ok in Hs as (v3 & d & ->%descends_Ok & [= _ _ <-]).
  apply (f_equal (@rev _)) in Er. rewrite rev_involutive in Er. cbn [rev] in Er. subst cs. cbn [default from_option].
  split; [|done]. unfold named. rewrite E. destruct (rev dirs ++ [file]) as [|c cs] eqn:Ex; [by destruct (rev dirs)|].
  by exists c, cs.
Qed.

Lemma file_path_inj n m : named n -> named m -> file_path l n = file_path l m -> n = m.
Proof.
  intros (c & cs & Hn) (c' & cs' & Hm). unfold file_path. rewrite Hn, Hm. cbn. intros [= -> ->]. by eapply components_inj.
Qed.

(** The files of the set. *)
Definition file_of (v : Volume) (name : bytes) : option bytes :=
  match normal_components name with
  | Some (_ :: _) => file_at (file_path l name) v
  | _ => None
  end.

Lemma file_of_named v name : named name -> file_of v name = file_at (file_path l name) v.
Proof. intros (c & cs & Hn). unfold file_of. by rewrite Hn. Qed.
Lemma file_of_Some v name b : file_of v name = Some b -> named name.
Proof. unfold file_of, named. destruct (normal_components name) as [[|c cs]|]; try done. intros _. by exists c, cs. Qed.

(** A step that leaves a file alone when it leaves its path alone. *)
Lemma keeps_stays {A} (s : step Volume A) v m : (named m -> file_at (file_path l m) (fst (s v)) = file_at (file_path l m) v) ->
  file_of (fst (s v)) m = file_of v m.
Proof.
  intros Hs. unfold file_of. destruct (normal_components m) as [[|c cs]|] eqn:E; try done. apply Hs. by exists c, cs.
Qed.
(** ** Deleting and opening *)
Lemma delete_other name v m : m <> name -> file_of (fst (delete_file l name v)) m = file_of v m.
Proof.
  intros Hne. apply keeps_stays. intros Hm. unfold delete_file, step_bind.
  pose proof (stays_entry_path (file_path l m) name false v) as He.
  destruct (entry l name false v) as [v1 [[dir p]|e]] eqn:E; [|done]. cbn [fst] in He. rewrite <- He.
  apply entry_Ok in E as [Hn ->]. apply stays_remove. intros Heq. apply Hne. by apply file_path_inj.
Qed.

Lemma delete_done name v u : snd (delete_file l name v) = Ok u -> file_of (fst (delete_file l name v)) name = None.
Proof.
  intros Hs. destruct (delete_file l name v) as [v' r] eqn:E. cbn in Hs |- *. subst r. unfold delete_file in E.
  apply step_bind_Ok in E as (v1 & [dir p] & [Hn ->]%entry_Ok & [fs E]%entry_call_Ok).
  rewrite file_of_named by done. unfold look in E. cbn in E.
  destruct (vo_nodes v1 !! file_path l name) as [[]|] eqn:El; try done; injection E as <- _; unfold file_at, file_in; cbn;
    by rewrite lookup_delete_eq.
Qed.

Lemma open_nofollow_Ok p v v' n : open_nofollow p v = (v', Ok n) -> vo_nodes v !! p = Some n /\ vo_nodes v' = vo_nodes v /\ n <> NLink.
Proof.
  intros [fs Hw]%entry_call_Ok. unfold reads, look in Hw. cbn in Hw.
  destruct (vo_nodes v !! p) as [[]|]; try done; by injection Hw as <- <-.
Qed.

Lemma read_Ok n v v' b : read_to_end n v = (v', Ok b) -> exists ino, n = NFile ino b.
Proof. intros [fs Hw]%call_Ok. unfold lift in Hw. destruct n as [ino data| |]; try done. injection Hw as _ ->. by exists ino. Qed.

Lemma open_ro_Ok name v v' b : open_ro l name v = (v', Ok b) -> file_of v name = Some b.
Proof.
  unfold open_ro. intros (v1 & [dir p] & He & Hs)%step_bind_Ok. pose proof He as [Hn ->]%entry_Ok.
  pose proof (stays_entry_path (file_path l name) name false v) as Hk. rewrite He in Hk. cbn [fst] in Hk.
  apply step_bind_Ok in Hs as (v2 & n & (Hl & _ & _)%open_nofollow_Ok & [ino ->]%read_Ok).
  rewrite file_of_named, <- Hk by done. unfold file_at, file_in. by rewrite Hl.
Qed.

(** ** Temporary files *)
Lemma create_Ok p v v' ino : create_new p v = (v', Ok (Some ino)) -> vo_nodes v !! p = None /\ vo_nodes v' !! p = Some (NFile ino []).
Proof.
  intros [fs Hw]%entry_call_Ok. unfold look in Hw. cbn in Hw. destruct (vo_nodes v !! p); [done|].
  injection Hw as <- <-. split; [done|]. cbn. by rewrite lookup_insert_eq.
Qed.

Lemma create_failed p q v : (forall ino, snd (create_new p v) <> Ok (Some ino)) -> file_at q (fst (create_new p v)) = file_at q v.
Proof.
  unfold create_new, at_entry. destruct (has_nul p); [done|]. unfold call, call_with.
  destruct (vo_faults v) as [|[f|] fs]; [|done|]; unfold look; cbn.
  - destruct (vo_nodes v !! p); [done|]. intros Hx. by destruct (Hx (vo_next_ino v)).
  - destruct (vo_nodes v !! p); [done|]. intros Hx. by destruct (Hx (vo_next_ino v)).
Qed.

Lemma create_tmp_other name v m : (forall t, snd (create_tmp l name v) = Ok t -> m <> t) ->
  file_of (fst (create_tmp l name v)) m = file_of v m.
Proof.
  intros Ht. apply keeps_stays. intros Hm. unfold create_tmp in Ht |- *. unfold step_bind at 1. unfold step_bind at 1 in Ht.
  assert (stays (file_path l m) (temp_name name)) as Hs by (unfold temp_name; staying).
  specialize (Hs v). destruct (temp_name name v) as [v1 [t|e]]; [|done]. cbn [fst] in Hs. rewrite <- Hs. clear Hs.
  unfold step_bind at 1. unfold step_bind at 1 in Ht. pose proof (stays_entry_path (file_path l m) t true v1) as He.
  destruct (entry l t true v1) as [v2 [[dir p]|e]] eqn:E; [|done]. cbn [fst] in He. rewrite <- He. clear He.
  apply entry_Ok in E as [Hn ->]. unfold step_bind in Ht |- *.
  destruct (decide (m = t)) as [->|Hne].
  - pose proof (create_failed (file_path l t) (file_path l t) v2) as Hc.
    destruct (create_new _ v2) as [v3 [[ino|]|e]]; cbn [fst snd] in *; [by destruct (Ht t)|by apply Hc|by apply Hc].
  - pose proof (stays_create (file_path l m) (file_path l t)) as Hc.
    specialize (Hc ltac:(intros ?; by apply Hne, file_path_inj) v2).
    by destruct (create_new _ v2) as [v3 [[ino|]|e]].
Qed.

Lemma create_tmp_Ok name v v' t : create_tmp l name v = (v', Ok t) ->
  named t /\ file_of v t = None /\ file_of v' t = Some [] /\
  exists random, t = name ++ [Byte.x2e] ++ random ++ String.list_byte_of_string ".tmp".
Proof.
  unfold create_tmp. intros (v1 & t1 & Ht & Hs)%step_bind_Ok.
  apply step_bind_Ok in Hs as (v2 & [dir p] & He & Hs). pose proof He as [Hn ->]%entry_Ok.
  apply step_bind_Ok in Hs as (v3 & [ino|] & Hc & Hs); [|done]. injection Hs as <- <-. apply create_Ok in Hc as [Hno Hyes].
  assert (stays (file_path l t1) (temp_name name)) as Hk by (unfold temp_name; staying). specialize (Hk v). rewrite Ht in Hk.
  pose proof (stays_entry_path (file_path l t1) t1 true v1) as Hk2. rewrite He in Hk2. cbn [fst] in *.
  split; [done|]. rewrite !file_of_named, <- Hk, <- Hk2 by done. split; [unfold file_at, file_in; by rewrite Hno|].
  split; [unfold file_at, file_in; by rewrite Hyes|].
  unfold temp_name in Ht. apply step_bind_Ok in Ht as (v4 & id & _ & [= _ <-]). by eexists.
Qed.

Lemma write_tmp_other t b v m : m <> t -> file_of (fst (write_tmp l t b v)) m = file_of v m.
Proof.
  intros Hne. apply keeps_stays. intros Hm. unfold write_tmp. destruct (normal_components t) as [[|c cs]|] eqn:E; try done.
  apply stays_bind; [|intros; apply stays_sync]. apply stays_write. intros Heq. apply Hne, file_path_inj; [done| |done].
  by exists c, cs.
Qed.

Lemma write_tmp_done t b v u : snd (write_tmp l t b v) = Ok u -> file_of (fst (write_tmp l t b v)) t = Some b.
Proof.
  intros Hs. destruct (write_tmp l t b v) as [v' r] eqn:E. cbn in Hs |- *. subst r. unfold write_tmp in E.
  destruct (normal_components t) as [[|c cs]|] eqn:En; try done. apply step_bind_Ok in E as (v1 & [] & Hw & Hsync).
  pose proof (stays_sync (file_path l t) v1) as Hk. rewrite Hsync in Hk. cbn [fst] in Hk.
  rewrite file_of_named, Hk by (by exists c, cs). unfold write_all, call_with in Hw.
  assert (forall v0, (match look (file_path l t) v0 with
    | Some (NFile _ _) => (put_data (file_path l t) b v0, Ok tt) | _ => (v0, Err (Io OtherIo)) end) = (v1, Ok tt) ->
    file_at (file_path l t) v1 = Some b) as Hdone.
  { intros v0. unfold put_data. destruct (look (file_path l t) v0) as [[ino d| |]|]; try done. intros [= <-].
    unfold file_at, file_in. cbn. by rewrite lookup_insert_eq. }
  destruct (vo_faults v) as [|[f|] fs]; [by apply (Hdone v)|done|by apply (Hdone _ Hw)].
Qed.
(** ** Publishing *)
Lemma at_entries_work {A} p q (work : step Volume A) v :
  (exists e, at_entries p q work v = (v, Err e)) \/
  (exists faults, at_entries p q work v = (set_faults faults v, Err (Io OtherIo)) \/
   (exists k, at_entries p q work v = (set_faults faults v, Err (Io k))) \/ at_entries p q work v = work (set_faults faults v)).
Proof.
  unfold at_entries. destruct (_ || _); [left; by eexists|]. right. unfold call, call_with.
  destruct (vo_faults v) as [|[f|] fs] eqn:E; [exists []|exists fs|exists fs].
  - right; right. rewrite <- E. by destruct v.
  - right; left. by eexists.
  - by right; right.
Qed.

(** What renaming a file does. *)
Record renames (from to : path) (b : bytes) (nodes nodes' : gmap path node) : Prop := {
  rn_other : forall p, p <> from -> p <> to -> file_in p nodes' = file_in p nodes;
  rn_done : file_in to nodes' = Some b;
}.

Lemma rename_nodes_renames from to b nodes nodes' : file_in from nodes = Some b ->
  rename_nodes from to nodes = Some nodes' -> renames from to b nodes nodes'.
Proof.
  intros Hb Hr. unfold file_in in Hb. destruct (nodes !! from) as [[ino b'| |]|] eqn:E; try done. injection Hb as ->.
  destruct (rename_file from to ino b _ _ E Hr) as [-> _]. split; unfold file_in.
  - intros p Hf Ht. case_decide; [done|]. by rewrite lookup_insert_ne, lookup_delete_ne.
  - case_decide as He; [subst to; by rewrite E|]. by rewrite lookup_insert_eq.
Qed.

Lemma rename_spec from to b v v' r : file_at from v = Some b -> rename from to v = (v', r) ->
  (is_ok r = false /\ vo_nodes v' = vo_nodes v) \/ (r = Ok tt /\ renames from to b (vo_nodes v) (vo_nodes v')).
Proof.
  intros Hb Hr. unfold rename in Hr. set (work := fun v : Volume => _) in Hr.
  destruct (at_entries_work from to work v) as [[e He]|[fs [He|[[k He]|He]]]]; rewrite He in Hr; try (injection Hr as <- <-; by left).
  unfold work in Hr. cbn [vo_nodes set_faults] in Hr. destruct (rename_nodes from to (vo_nodes v)) as [nodes|] eqn:En.
  - injection Hr as <- <-. right. split; [done|]. by apply rename_nodes_renames.
  - injection Hr as <- <-. by left.
Qed.

Lemma noreplace_spec from to b v v' r : file_at from v = Some b -> rename_noreplace from to v = (v', r) ->
  (r <> Ok false /\ vo_nodes v' = vo_nodes v) \/
  (r = Ok false /\ vo_nodes v !! to = None /\ renames from to b (vo_nodes v) (vo_nodes v')).
Proof.
  intros Hb Hr. unfold rename_noreplace in Hr. set (work := fun v : Volume => _) in Hr.
  destruct (at_entries_work from to work v) as [[e He]|[fs [He|[[k He]|He]]]]; rewrite He in Hr; try (injection Hr as <- <-; by left).
  unfold work, look in Hr. cbn [vo_nodes set_faults] in Hr.
  destruct (vo_nodes v !! from); [|injection Hr as <- <-; by left].
  destruct (vo_nodes v !! to) eqn:Et; [injection Hr as <- <-; by left|].
  destruct (rename_nodes from to (vo_nodes v)) as [nodes|] eqn:En.
  - injection Hr as <- <-. right. split; [done|]. split; [done|]. by apply rename_nodes_renames.
  - injection Hr as <- <-. by left.
Qed.

(** A step that leaves every file alone, and what follows it. *)
Definition same (v v' : Volume) : Prop := forall p, file_at p v' = file_at p v.

Lemma still_then {A B} (s : step Volume A) (k : A -> step Volume B) v v' r : (forall p, stays p s) ->
  step_bind s k v = (v', r) ->
  (is_ok r = false /\ same v v') \/ exists a v1, same v v1 /\ s v = (v1, Ok a) /\ k a v1 = (v', r).
Proof.
  intros Hs Hk. unfold step_bind in Hk. assert (same v (fst (s v))) as Hv by (intros p; apply Hs).
  destruct (s v) as [v1 [a|e]]; [right; by exists a, v1|]. injection Hk as <- <-. by left.
Qed.

Lemma same_trans v1 v2 v3 : same v1 v2 -> same v2 v3 -> same v1 v3.
Proof. intros H12 H23 p. by rewrite H23. Qed.

Lemma renames_named tmp name b v v1 v' : named tmp -> named name -> same v v1 ->
  renames (file_path l tmp) (file_path l name) b (vo_nodes v1) (vo_nodes v') ->
  (forall m, m <> tmp -> m <> name -> file_of v' m = file_of v m) /\ file_of v' name = Some b.
Proof.
  intros Ht Hn Hs [Ho Hd]. split; [|by rewrite file_of_named].
  intros m Hmt Hmn. unfold file_of. destruct (normal_components m) as [[|c cs]|] eqn:E; try done.
  assert (named m) as Hm by (by exists c, cs). rewrite <- Hs. apply Ho; intros Heq; [apply Hmt|apply Hmn]; by apply file_path_inj.
Qed.

(** The name in place and the directory flushed. *)
Lemma place_spec tmp name replacing b v v' r : file_of v tmp = Some b -> named name ->
  (do* _ := (if replacing : bool then rename (file_path l tmp) (file_path l name)
     else
       do* existed := rename_noreplace (file_path l tmp) (file_path l name) in
       if existed : bool then step_err (Unsupported "{final_name} already exists; a published image is never replaced")
       else step_ret tt) in
   do* _ := sync_all in step_ret Synced) v = (v', r) ->
  (is_ok r = false /\ same v v') \/
  ((forall m, m <> tmp -> m <> name -> file_of v' m = file_of v m) /\ (replacing = false -> file_of v name = None) /\
   file_of v' name = Some b).
Proof.
  intros Hb Hn Hp. pose proof (file_of_Some _ _ _ Hb) as Htn. rewrite file_of_named in Hb by done.
  assert (forall v1, (do* _ := sync_all in step_ret Synced) v1 = (v', r) -> same v1 v') as Hsync.
  { intros v1 Hs p. rewrite <- (stays_bind p sync_all (fun _ => step_ret Synced) (stays_sync p) (fun _ => stays_ret p _) v1).
    by rewrite Hs. }
  unfold step_bind at 1 in Hp. destruct replacing.
  - destruct (rename _ _ v) as [v1 r1] eqn:E. destruct (rename_spec _ _ _ _ _ _ Hb E) as [[Hr Hs]|[-> Hr]].
    + destruct r1; [done|]. injection Hp as <- <-. left. split; [done|]. intros p. unfold file_at. by rewrite Hs.
    + right. destruct (renames_named tmp name b v v v1) as [Ho Hd]; [done..|]. specialize (Hsync _ Hp).
      assert (forall m, file_of v' m = file_of v1 m) as Hv by (intros m; unfold file_of; repeat case_match; done || apply Hsync).
      split; [intros; rewrite Hv; by apply Ho|]. split; [done|by rewrite Hv].
  - unfold step_bind in Hp. destruct (rename_noreplace _ _ v) as [v1 r1] eqn:E.
    destruct (noreplace_spec _ _ _ _ _ _ Hb E) as [[Hr Hs]|(-> & Hno & Hr)].
    + left. destruct r1 as [[]|e]; [|done|]; injection Hp as <- <-; (split; [done|]); intros p; unfold file_at; by rewrite Hs.
    + right. destruct (renames_named tmp name b v v v1) as [Ho Hd]; [done..|]. specialize (Hsync _ Hp).
      assert (forall m, file_of v' m = file_of v1 m) as Hv by (intros m; unfold file_of; repeat case_match; done || apply Hsync).
      split; [intros; rewrite Hv; by apply Ho|]. split; [intros _|by rewrite Hv].
      rewrite file_of_named by done. unfold file_at, file_in. by rewrite Hno.
Qed.

(** The names are looked up, then the file is renamed, or nothing happens to any file. *)
Lemma publish_spec tmp name replacing b v v' r : file_of v tmp = Some b -> publish l tmp name replacing v = (v', r) ->
  (is_ok r = false /\ forall m, file_of v' m = file_of v m) \/
  ((forall m, m <> tmp -> m <> name -> file_of v' m = file_of v m) /\ (replacing = false -> file_of v name = None) /\
   file_of v' name = Some b).
Proof.
  intros Hb Hp. assert (forall v v', same v v' -> forall m, file_of v' m = file_of v m) as Hof
    by (intros w w' Hs m; unfold file_of; repeat case_match; done || apply Hs).
  apply still_then in Hp as [[Hr Hs]|([d1 p1] & v1 & H1 & E1 & Hp)]; [left; split; [done|by apply Hof]| |intros; apply stays_entry_path].
  apply still_then in Hp as [[Hr Hs]|([d2 p2] & v2 & H2 & E2 & Hp)];
    [left; split; [done|apply Hof; by eapply same_trans]| |intros; apply stays_entry_path].
  apply entry_Ok in E1 as [_ ->], E2 as [Hn ->]. pose proof (same_trans _ _ _ H1 H2) as H12.
  apply still_then in Hp as [[Hr Hs]|(n & v3 & H3 & _ & Hp)];
    [left; split; [done|apply Hof; by eapply same_trans]| |intros; apply stays_open_nofollow].
  pose proof (same_trans _ _ _ H12 H3) as H13.
  apply still_then in Hp as [[Hr Hs]|(u & v4 & H4 & _ & Hp)];
    [left; split; [done|apply Hof; by eapply same_trans]| |intros; apply stays_sync].
  pose proof (Hof _ _ (same_trans _ _ _ H13 H4)) as Hv.
  apply (place_spec _ _ _ b) in Hp as [[Hr Hs]|(Ho & Hno & Hd)]; [| |by rewrite Hv|done].
  - left. split; [done|]. apply Hof. eapply same_trans; [|exact Hs]. by eapply same_trans.
  - right. split; [intros; rewrite <- Hv; by apply Ho|]. split; [intros; rewrite <- Hv; by apply Hno|done].
Qed.

(** ** The lock *)
Lemma lock_other p record fuel break_stale : p <> file_path l LOCK_FILE ->
  stays p (attempts fuel (file_path l LOCK_FILE) record break_stale).
Proof.
  intros Hp. assert (stays p (attempt (file_path l LOCK_FILE) record break_stale)) as Ha.
  { unfold attempt. apply stays_bind; [by apply stays_create|]. intros [ino|].
    - staying; by apply stays_write.
    - apply stays_bind.
      { intros v. unfold read_lock. pose proof (stays_bind p (open_nofollow (file_path l LOCK_FILE)) read_to_end
          (stays_open_nofollow p _) (fun n => stays_read p n) v) as Hs.
        by destruct (step_bind _ _ v) as [v1 [data|[[]| | | | | | | | | | | | | | |]]]. }
      intros [existing|]; [|apply stays_err]. staying; by apply stays_remove. }
  induction fuel as [|fuel IH]; [apply stays_err|]. cbn [attempts]. apply stays_bind; [done|]. intros []; [apply stays_ret|done].
Qed.

Lemma acquire_other owner ttl break_stale v m : m <> LOCK_FILE -> file_of (fst (acquire l owner ttl break_stale v)) m = file_of v m.
Proof.
  intros Hne. apply keeps_stays. intros Hm. unfold acquire, step_bind at 1.
  pose proof (stays_entry_path (file_path l m) LOCK_FILE true v) as He.
  destruct (entry l LOCK_FILE true v) as [v1 [[dir p]|e]] eqn:E; [|done]. cbn [fst] in He. rewrite <- He.
  apply entry_Ok in E as [Hn ->].
  assert (file_path l m <> file_path l LOCK_FILE) as Hp by (intros ?; by apply Hne, file_path_inj).
  revert v1 He. intros v1 _. revert v1. change (stays (file_path l m) (do* created := clock in do* token := generate in
    attempts 2 (file_path l LOCK_FILE) {| lk_owner := owner; lk_created := created; lk_ttl_secs := ttl; lk_token := Ids.to_uuid_string token |} break_stale)).
  apply stays_bind; [apply stays_clock|]. intros created. apply stays_bind; [apply stays_generate|]. intros token. by apply lock_other.
Qed.

Lemma verify_other p : stays p (lock_verify l).
Proof.
  intros v. unfold lock_verify. destruct (vo_lease v) as [lease|]; [|done]. destruct (le_lost lease); [done|].
  revert v. change (stays p (do* _ := step_map_err (fun e => match e with Io _ => lease_lost "the lock file is gone: {error}" | e => e end)
    (still_ours l lease) in do* now := clock in
    if negb (le_ttl lease =? 0) && (le_ttl lease <? now - le_refreshed lease) then
      step_err (lease_lost "it expired while the job was not running, and another job may have broken it") else step_ret tt)).
  apply stays_bind; [apply stays_map_err; by apply stays_entry|]. intros. staying.
Qed.

(** An existing file is never replaced, whatever is published. *)
Lemma noreplace_existing from to v n : vo_nodes v !! to = Some n -> vo_nodes (fst (rename_noreplace from to v)) = vo_nodes v.
Proof.
  intros Ht. unfold rename_noreplace. set (work := fun v : Volume => _).
  destruct (at_entries_work from to work v) as [[e ->]|[fs [->|[[k ->]| ->]]]]; try done.
  unfold work, look. cbn [vo_nodes set_faults]. rewrite Ht. by destruct (vo_nodes v !! from).
Qed.

Lemma publish_existing_file tmp name v b : file_of v name = Some b -> file_of (fst (publish l tmp name false v)) name = Some b.
Proof.
  intros Hb. pose proof (file_of_Some _ _ _ Hb) as Hn. rewrite file_of_named in Hb |- * by done.
  destruct (publish l tmp name false v) as [v' r] eqn:Hp. cbn [fst]. rewrite <- Hb.
  apply still_then in Hp as [[_ Hs]|([d1 p1] & v1 & H1 & E1 & Hp)]; [apply Hs| |intros; apply stays_entry_path].
  rewrite <- H1. apply still_then in Hp as [[_ Hs]|([d2 p2] & v2 & H2 & E2 & Hp)]; [apply Hs| |intros; apply stays_entry_path].
  rewrite <- H2. apply entry_Ok in E2 as [_ ->].
  apply still_then in Hp as [[_ Hs]|(n & v3 & H3 & _ & Hp)]; [apply Hs| |intros; apply stays_open_nofollow].
  rewrite <- H3. apply still_then in Hp as [[_ Hs]|(u & v4 & H4 & _ & Hp)]; [apply Hs| |intros; apply stays_sync].
  rewrite <- H4. rewrite <- H1, <- H2, <- H3, <- H4 in Hb. clear E1 n H3 H2 H1 H4.
  assert (exists n, vo_nodes v4 !! file_path l name = Some n) as [n Hl].
  { unfold file_at, file_in in Hb. destruct (vo_nodes v4 !! _) as [n|]; [by exists n|done]. }
  pose proof (noreplace_existing p1 (file_path l name) v4 n Hl) as Hkeep. unfold step_bind at 1 2 in Hp.
  destruct (rename_noreplace p1 (file_path l name) v4) as [v5 [existed|e]]; cbn [fst] in Hkeep.
  2: { injection Hp as <- _. unfold file_at. by rewrite Hkeep. }
  destruct existed; [injection Hp as <- _; unfold file_at; by rewrite Hkeep|]. cbn in Hp.
  transitivity (file_at (file_path l name) v5); [|unfold file_at; by rewrite Hkeep].
  rewrite <- (stays_bind (file_path l name) sync_all (fun _ => step_ret Synced) (stays_sync _) (fun _ => stays_ret _ _) v5).
  change (step_bind sync_all (fun _ => step_ret Synced) v5 = (v', r)) in Hp. by rewrite Hp.
Qed.

End ops.
End LocalSpec.

(** * Listing a set

    The listing of the local destination finds every regular file that
    directories lead to, each once, and nothing else. *)

Module LocalListing.
Import Volumes LocalSpec.

Section ops.
Context `{LockJson} (l : LocalDestination).
Import Local.

(** ** Listing *)

(** The relative path of a regular file, reached through directories. *)
Fixpoint found_at (nodes : gmap path node) (dir p : path) : Prop :=
  match p with
  | [] => False
  | name :: rest =>
    plain name = true /\ utf8_valid name = true /\
    match rest with
    | [] => exists ino b, nodes !! (dir ++ [name]) = Some (NFile ino b)
    | _ => nodes !! (dir ++ [name]) = Some NDir /\ found_at nodes (dir ++ [name]) rest
    end
  end.

Lemma strip_spec prefix p rest : strip prefix p = Some rest <-> p = prefix ++ rest.
Proof.
  revert p. induction prefix as [|a prefix IH]; intros p; cbn [strip app]; [split; [by intros [= ->]|by intros ->]|].
  destruct p as [|b p]; [done|]. case_bool_decide as Hab.
  - rewrite IH. subst b. split; [by intros ->|by intros [= ->]].
  - split; [done|]. intros [= -> ->]. done.
Qed.

Lemma child_of_spec dir p name : child_of dir p = Some name <-> p = dir ++ [name] /\ plain name = true.
Proof.
  unfold child_of. destruct (strip dir p) as [[|a [|b rest]]|] eqn:E.
  - apply strip_spec in E as ->. split; [done|]. intros [Hx _]. by apply app_inj_1 in Hx as [_ ?].
  - apply strip_spec in E as ->. destruct (plain a) eqn:Ea; split; try done.
    + by intros [= <-].
    + by intros [[_ [= ->]]%app_inj_1 _].
    + intros [[_ [= ->]]%app_inj_1 ?]; [congruence|done].
  - apply strip_spec in E as ->. split; [done|]. intros [Hx _]. by apply app_inj_1 in Hx as [_ ?].
  - split; [done|]. intros [-> _]. pose proof (proj2 (strip_spec dir (dir ++ [name]) [name]) eq_refl). congruence.
Qed.

Lemma read_dir_Ok dir v v' es : read_dir dir v = (v', Ok es) -> vo_nodes v' = vo_nodes v /\ NoDup (map fst es) /\
  forall name n, (name, n) ∈ es <-> plain name = true /\ vo_nodes v !! (dir ++ [name]) = Some n.
Proof.
  intros [fs Hr]%call_Ok. unfold reads in Hr. injection Hr as <- <-. split; [done|]. cbn [vo_nodes set_faults].
  set (f := fun e : path * node => _). assert (forall e name n, f e = Some (name, n) <-> plain name = true /\ e = (dir ++ [name], n)) as Hf.
  { intros [p n'] name n. unfold f. cbn [fst snd]. destruct (child_of dir p) as [c|] eqn:E.
    - apply child_of_spec in E as [-> Hc]. split; [by intros [= -> ->]|]. intros [_ [= Hx%app_inj_1 ->]]; [|done]. by destruct Hx as [_ [= ->]].
    - split; [done|]. intros [Hp [= -> ->]]. by rewrite (proj2 (child_of_spec _ _ _) (conj eq_refl Hp)) in E. }
  split.
  - pose proof (NoDup_fst_map_to_list (vo_nodes v)) as Hnd. induction (map_to_list (vo_nodes v)) as [|e es IH]; [constructor|].
    cbn [map] in Hnd. apply NoDup_cons in Hnd as [Hni Hnd]. cbn [omap list_omap]. destruct (f e) as [[name n]|] eqn:E; [|by apply IH].
    cbn [map fst]. apply NoDup_cons. split; [|by apply IH]. intros ([name' n'] & -> & (e' & He' & Hfe)%list_elem_of_omap)%list_elem_of_fmap.
    apply Hf in E as [_ ->], Hfe as [_ ->]. apply Hni. cbn [fst] in *. apply list_elem_of_fmap. by eexists (_, n').
  - intros name n. rewrite list_elem_of_omap. split.
    + intros (e & He & [Hp ->]%Hf). split; [done|]. by apply elem_of_map_to_list.
    + intros [Hp Hl]. exists (dir ++ [name], n). split; [by apply elem_of_map_to_list|]. by apply Hf.
Qed.

(** What a listing has found: the paths, each once, below the prefix. *)
Record lists (nodes : gmap path node) (dir : path) (prefix : bytes) (names : list bytes) (limit : nat)
    (before after : list bytes) (ps : list path) : Prop := {
  li_names : after = before ++ map (fun p => prefix ++ Text.join [Paths.SLASH] p) ps;
  li_once : NoDup ps;
  li_found : forall p, p ∈ ps -> found_at nodes dir p /\ exists name rest, p = name :: rest /\ name ∈ names;
  li_all : forall name rest, name ∈ names -> found_at nodes dir (name :: rest) -> (length rest < limit)%nat -> name :: rest ∈ ps;
}.

Lemma lists_nil nodes dir prefix limit before : lists nodes dir prefix [] limit before before [].
Proof.
  split; [by rewrite app_nil_r|constructor|intros p Hp; by apply elem_of_nil in Hp|intros name rest Hn; by apply elem_of_nil in Hn].
Qed.

(** One more name with what was found below it. *)
Lemma lists_cons nodes dir prefix name names limit before middle after qs ps : name ∉ names ->
  middle = before ++ map (fun p => prefix ++ Text.join [Paths.SLASH] p) (map (cons name) qs) -> NoDup qs ->
  (forall q, q ∈ qs -> found_at nodes dir (name :: q)) ->
  (forall q, found_at nodes dir (name :: q) -> (length q < limit)%nat -> q ∈ qs) ->
  lists nodes dir prefix names limit middle after ps ->
  lists nodes dir prefix (name :: names) limit before after (map (cons name) qs ++ ps).
Proof.
  intros Hn -> Hqs Hf Ha [-> Hps Hl Hall]. split.
  - by rewrite map_app, app_assoc.
  - apply NoDup_app. split; [by apply (NoDup_fmap_2 (cons name))|]. split; [|done].
    intros p (q & -> & _)%list_elem_of_fmap [_ (n & r & [= -> ->] & Hin)]%Hl. done.
  - intros p [(q & -> & Hq)%list_elem_of_fmap|[Hp (n & r & -> & Hin)]%Hl]%elem_of_app.
    + split; [by apply Hf|]. exists name, q. split; [done|left].
    + split; [done|]. exists n, r. split; [done|by right].
  - intros n rest Hin Hp Hlt. apply elem_of_app. apply elem_of_cons in Hin as [->|Hin].
    + left. apply list_elem_of_fmap. exists rest. split; [done|]. by apply Ha.
    + right. by apply Hall.
Qed.

Lemma looks_check q v : vo_nodes (fst (check_required_mount_at l q v)) = vo_nodes v.
Proof. done. Qed.

Definition listing_step (collect : path -> bytes -> list bytes -> step Volume (list bytes)) (dir : path) (prefix : bytes)
    (found : list bytes) (e : bytes * node) : step Volume (list bytes) :=
  let '(name, n) := e in
  if negb (utf8_valid name) then step_ret found
  else
    match n with
    | NDir =>
      do* _ := check_required_mount_at l (Paths.join (Paths.join (set_dir l) prefix) name) in
      do* sub := step_map_err refused (open_dir_beneath dir name) in
      collect sub (prefix ++ name ++ [Paths.SLASH]) found
    | NFile _ _ => step_ret (found ++ [prefix ++ name])
    | NLink => step_ret found
    end.

Lemma join_cons name q : q <> [] -> Text.join [Paths.SLASH] (name :: q) = name ++ [Paths.SLASH] ++ Text.join [Paths.SLASH] q.
Proof. by destruct q. Qed.

Lemma found_dir nodes dir name q : nodes !! (dir ++ [name]) = Some NDir -> plain name = true -> utf8_valid name = true ->
  found_at nodes dir (name :: q) <-> found_at nodes (dir ++ [name]) q.
Proof.
  intros Hd Hp Hu. cbn [found_at]. destruct q as [|c q].
  - split; [|done]. intros (_ & _ & ino & b & Hf). congruence.
  - split; [by intros (_ & _ & _ & ?)|by intros ?].
Qed.

Lemma found_file nodes dir name q ino b : nodes !! (dir ++ [name]) = Some (NFile ino b) -> found_at nodes dir (name :: q) -> q = [].
Proof. intros Hf. cbn [found_at]. destruct q as [|c q]; [done|]. intros (_ & _ & Hd & _). congruence. Qed.

Lemma listing_spec limit collect dir prefix nodes :
  (forall sub pre found v v' r, vo_nodes v = nodes -> collect sub pre found v = (v', Ok r) ->
    vo_nodes v' = nodes /\ exists ps, r = found ++ map (fun p => pre ++ Text.join [Paths.SLASH] p) ps /\ NoDup ps /\
      (forall p, p ∈ ps -> found_at nodes sub p) /\ (forall p, found_at nodes sub p -> (length p <= limit)%nat -> p ∈ ps)) ->
  forall es, NoDup (map fst es) -> (forall name n, (name, n) ∈ es -> plain name = true /\ nodes !! (dir ++ [name]) = Some n) ->
  forall found v v' r, vo_nodes v = nodes -> step_fold (listing_step collect dir prefix) es found v = (v', Ok r) ->
  vo_nodes v' = nodes /\ exists ps, lists nodes dir prefix (map fst es) (S limit) found r ps.
Proof.
  intros Hc. induction es as [|[name n] es IH]; intros Hnd Hes found v v' r Hv; cbn [step_fold map fst].
  { intros [= <- <-]. split; [done|]. exists []. apply lists_nil. }
  apply NoDup_cons in Hnd as [Hni Hnd]. destruct (Hes name n) as [Hp Hl]; [left|].
  assert (forall name n, (name, n) ∈ es -> plain name = true /\ nodes !! (dir ++ [name]) = Some n) as Hes' by (intros; apply Hes; by right).
  intros (v1 & found1 & Hone & Hrest)%step_bind_Ok. cbn [listing_step] in Hone.
  assert (forall qs, vo_nodes v1 = nodes -> found1 = found ++ map (fun p => prefix ++ Text.join [Paths.SLASH] p) (map (cons name) qs) ->
    NoDup qs -> (forall q, q ∈ qs -> found_at nodes dir (name :: q)) ->
    (forall q, found_at nodes dir (name :: q) -> (length q < S limit)%nat -> q ∈ qs) ->
    vo_nodes v' = nodes /\ exists ps, lists nodes dir prefix (name :: map fst es) (S limit) found r ps) as Hgo.
  { intros qs Hv1 Hf Hqs Hin Hall. destruct (IH Hnd Hes' found1 v1 v' r Hv1 Hrest) as (Hv' & ps & Hps). split; [done|].
    exists (map (cons name) qs ++ ps). by eapply lists_cons. }
  destruct (utf8_valid name) eqn:Hu; cbn [negb] in Hone.
  2: { injection Hone as <- <-. apply (Hgo []); [done|by rewrite app_nil_r|constructor|intros q Hq; by apply elem_of_nil in Hq|].
       intros q (_ & Hu' & _). congruence. }
  destruct n as [ino b| |].
  - injection Hone as <- <-. apply (Hgo [[]]); [done|done|apply NoDup_singleton| |].
    + intros q ->%list_elem_of_singleton. cbn. split_and!; [done..|by eexists _, _].
    + intros q Hq _. rewrite (found_file _ _ _ _ _ _ Hl Hq). left.
  - injection Hone as <- <-. apply (Hgo []); [done|by rewrite app_nil_r|constructor|intros q Hq; by apply elem_of_nil in Hq|].
    intros q Hq. exfalso. cbn in Hq. destruct q; destruct Hq as (_ & _ & Hq); [destruct Hq as (? & ? & ?)|destruct Hq]; congruence.
  - apply step_bind_Ok in Hone as (v2 & ? & Hk & Hone). unfold check_required_mount_at, reads in Hk. injection Hk as <- _.
    apply step_bind_Ok in Hone as (v3 & sub & (-> & Hv3 & _)%map_err_Ok%open_dir_Ok & Hone).
    apply Hc in Hone as (Hv1 & qs & -> & Hqs & Hin & Hall); [|congruence].
    assert (forall q, q ∈ qs -> q <> []) as Hne by (intros q Hq ->; by apply Hin in Hq).
    apply (Hgo qs); [done| |done| |].
    + f_equal. rewrite map_map. apply map_ext_in. intros q Hq%list_elem_of_In. rewrite join_cons by auto. by rewrite <- !app_assoc.
    + intros q Hq. apply found_dir; [done..|by apply Hin].
    + intros q Hq Hlt. apply Hall; [by apply found_dir in Hq|lia].
Qed.

Lemma collect_spec nodes fuel : forall dir prefix found v v' r, vo_nodes v = nodes ->
  collect_beneath l fuel dir prefix found v = (v', Ok r) ->
  vo_nodes v' = nodes /\ exists ps, r = found ++ map (fun p => prefix ++ Text.join [Paths.SLASH] p) ps /\ NoDup ps /\
    (forall p, p ∈ ps -> found_at nodes dir p) /\ (forall p, found_at nodes dir p -> (length p <= fuel)%nat -> p ∈ ps).
Proof.
  induction fuel as [|fuel IH]; intros dir prefix found v v' r Hv; cbn [collect_beneath].
  { intros [= <- <-]. split; [done|]. exists []. split; [by rewrite app_nil_r|]. split; [constructor|].
    split; [intros p Hp; by apply elem_of_nil in Hp|]. intros [|name p]; [done|]. cbn [length]. lia. }
  intros (v1 & u & Hk & Hr)%step_bind_Ok. unfold check_required_mount_at, reads in Hk. injection Hk as <- _.
  apply step_bind_Ok in Hr as (v2 & es & (Hv2 & Hnd & Hes)%read_dir_Ok & Hr). rewrite Hv in Hv2, Hes.
  apply (listing_spec fuel (collect_beneath l fuel) dir prefix nodes) in Hr as (Hv' & ps & [Hn Ho Hf Ha]);
    [|by apply IH|done|intros; by apply Hes|done].
  split; [done|]. exists ps. split; [done|]. split; [done|]. split; [intros; by apply Hf|].
  intros [|name rest] Hp Hl; [done|]. apply Ha; [|done|cbn in Hl; lia]. apply list_elem_of_fmap.
  assert (exists n, nodes !! (dir ++ [name]) = Some n /\ plain name = true) as (n & Hn1 & Hpl).
  { cbn in Hp. destruct rest; destruct Hp as (Hpl & _ & Hp); [destruct Hp as (ino & b & Hp)|destruct Hp as [Hp _]]; by eexists. }
  exists (name, n). split; [done|]. by apply Hes.
Qed.

Lemma found_present nodes p : forall dir, found_at nodes dir p -> is_Some (nodes !! (dir ++ p)).
Proof.
  induction p as [|name p IH]; intros dir; [done|]. cbn [found_at]. destruct p as [|c p].
  - intros (_ & _ & ino & b & Hf). by eexists.
  - intros (_ & _ & _ & Hp%IH). by rewrite <- app_assoc in Hp.
Qed.

Lemma depth_bound v p : is_Some (vo_nodes v !! p) -> (length p <= depth v)%nat.
Proof.
  intros [n Hn%elem_of_map_to_list]. unfold depth. induction (map_to_list (vo_nodes v)) as [|e es IH]; [by apply elem_of_nil in Hn|].
  cbn [map fold_right]. apply elem_of_cons in Hn as [<-|Hn]; [cbn [fst]; lia|]. specialize (IH Hn). lia.
Qed.

Lemma found_plain nodes p : forall dir, found_at nodes dir p -> Forall (fun n => plain n = true) p.
Proof.
  induction p as [|name p IH]; intros dir; [done|]. cbn [found_at]. destruct p as [|c p].
  - intros (Hp & _). by repeat constructor.
  - intros (Hp & _ & _ & Hr%IH). by constructor.
Qed.

Lemma plain_spec n : plain n = true <-> n <> [] /\ n <> Paths.DOT /\ n <> Paths.DOTDOT /\ (Paths.SLASH ∉ n).
Proof.
  unfold plain. rewrite !andb_true_iff, !negb_true_iff, !bool_decide_eq_false, forallb_forall. split.
  - intros [[[? ?] ?] Hf]. split_and!; [done..|]. intros Hin%list_elem_of_In. apply Hf in Hin. by rewrite bool_decide_true in Hin.
  - intros (? & ? & ? & Hs). split_and!; [done..|]. intros c Hc%list_elem_of_In. rewrite bool_decide_false; [done|by intros ->].
Qed.

Lemma components_ne s : s <> [] -> normal_components s =
  if existsb (fun n => bool_decide (n = []) || bool_decide (n = Paths.DOT) || bool_decide (n = Paths.DOTDOT)) (Text.split Paths.SLASH s)
  then None else Some (Text.split Paths.SLASH s).
Proof. by destruct s. Qed.

Lemma components_plain p : p <> [] -> Forall (fun n => plain n = true) p -> normal_components (Text.join [Paths.SLASH] p) = Some p.
Proof.
  intros Hne Hp. assert (Text.split Paths.SLASH (Text.join [Paths.SLASH] p) = p) as Hs.
  { apply UriLemmas.split_join; [done|]. eapply Forall_impl; [exact Hp|]. intros n (_ & _ & _ & ?)%plain_spec. done. }
  rewrite components_ne by (intros E; rewrite E in Hs; cbn in Hs; subst p; by apply List.Forall_inv in Hp).
  rewrite Hs. replace (existsb _ p) with false; [done|]. symmetry. apply not_true_iff_false.
  intros (n & Hn & Hx)%existsb_exists. rewrite List.Forall_forall in Hp. apply Hp, plain_spec in Hn as (? & ? & ? & _).
  rewrite !orb_true_iff, !bool_decide_eq_true in Hx. tauto.
Qed.

Lemma list_spec v v1 dir v' names : set_fd l false v = (v1, Ok dir) -> list_set l v = (v', Ok names) ->
  NoDup names /\ forall n, n ∈ names <-> exists p, normal_components n = Some p /\ found_at (vo_nodes v1) [ld_set_name l] p.
Proof.
  intros Hs Hl. unfold list_set in Hl. rewrite Hs in Hl. pose proof (set_fd_Ok _ _ _ _ _ Hs) as [-> _].
  apply step_bind_Ok in Hl as (v2 & found & Hc & [= _ <-]).
  apply (collect_spec (vo_nodes v1)) in Hc as (_ & ps & -> & Hnd & Hf & Ha); [|done].
  cbn [app]. set (names := map _ ps).
  assert (forall p, p ∈ ps -> normal_components (Text.join [Paths.SLASH] p) = Some p) as Hcomp.
  { intros p Hp. apply components_plain; [by intros ->; apply Hf in Hp|]. by eapply found_plain, Hf. }
  pose proof (sort_by_perm Sysfs.name_leb names) as Hperm. split.
  - rewrite Hperm. unfold names. clear Hperm Ha names. induction Hnd as [|p ps Hni Hnd IH]; [constructor|]. cbn [map].
    apply NoDup_cons. split.
    + intros (q & Heq & Hq)%list_elem_of_fmap. pose proof (Hcomp p ltac:(left)) as H1. rewrite Heq in H1.
      cbn [app] in H1. rewrite (Hcomp q ltac:(by right)) in H1. by injection H1 as ->.
    + apply IH; intros; [apply Hf; by right|apply Hcomp; by right].
  - intros n. rewrite Hperm. unfold names. rewrite list_elem_of_fmap. split.
    + intros (p & -> & Hp). exists p. split; [by apply Hcomp|by apply Hf].
    + intros (p & Hn & Hp). exists p. split; [symmetry; by apply components_join|]. apply Ha; [done|].
      pose proof (depth_bound v1 ([ld_set_name l] ++ p) (found_present _ _ _ Hp)) as Hd. rewrite length_app in Hd. lia.
Qed.

Lemma list_once v v' names : list_set l v = (v', Ok names) -> NoDup names.
Proof.
  intros Hl. destruct (set_fd l false v) as [v1 [dir|e]] eqn:E; [by eapply list_spec|].
  unfold list_set in Hl. rewrite E in Hl. destruct e as [[]| | | | | | | | | | | | | | |]; try done. injection Hl as _ <-. constructor.
Qed.
End ops.
End LocalListing.
