(* ===== verification/LocalConfined.v ===== *)
(** * Nothing outside a set is touched

    Every operation of the local destination stays below the directory of its
    set, also when directories are renamed and when calls fail. With this, the
    contract of the interface and the listing, the properties of the local
    destination. *)

From stdpp Require Import gmap.
From S2P Require Import Prelude Maps Text Core Steps Destination Sysfs MountPolicy Volume Local Uri LocalSpec.

Module LocalConfined.
Import Volumes LocalSpec LocalListing.

Section ops.
Context `{LockJson} (l : LocalDestination).
Import Local.

(** ** What lies outside the set *)
Definition outside (p : path) : Prop := match p with [] => True | name :: _ => name <> ld_set_name l end.

(** Outside the set nothing changes but the root, which may come into being. *)
Definition confined {A} (s : step Volume A) : Prop := forall v p, outside p -> p <> [] \/ is_Some (vo_nodes v !! p) ->
  vo_nodes (fst (s v)) !! p = vo_nodes v !! p.

Lemma confined_keep {A} (s : step Volume A) : (forall v, vo_nodes (fst (s v)) = vo_nodes v) -> confined s.
Proof. intros Hs v p _ _. by rewrite Hs. Qed.
Lemma confined_bind {A B} (s : step Volume A) (k : A -> step Volume B) : confined s -> (forall a, confined (k a)) -> confined (step_bind s k).
Proof.
  intros Hs Hk v p Ho Hp. specialize (Hs v p Ho Hp). unfold step_bind. destruct (s v) as [v1 [a|e]]; [|done]. cbn [fst] in Hs.
  rewrite Hk; [done|done|]. destruct Hp as [?|?]; [by left|right; by rewrite Hs].
Qed.
(** What follows depends on what the step returned. *)
Lemma confined_then {A B} (P : A -> Prop) (s : step Volume A) (k : A -> step Volume B) : confined s ->
  (forall v v' a, s v = (v', Ok a) -> P a) -> (forall a, P a -> confined (k a)) -> confined (step_bind s k).
Proof.
  intros Hs HP Hk v p Ho Hp. specialize (Hs v p Ho Hp). unfold step_bind. destruct (s v) as [v1 [a|e]] eqn:E; [|done]. cbn [fst] in Hs.
  rewrite (Hk a (HP _ _ _ E)); [done|done|]. destruct Hp as [?|?]; [by left|right; by rewrite Hs].
Qed.
Lemma confined_map_err {A} f (s : step Volume A) : confined s -> confined (step_map_err f s).
Proof. intros Hs v p Ho Hp. specialize (Hs v p Ho Hp). unfold step_map_err. by destruct (s v) as [v1 [a|e]]. Qed.
Lemma confined_call_with {A} failing (s : step Volume A) :
  (forall f, confined (fun v => (failing f v, Ok tt))) -> confined s -> confined (call_with failing s).
Proof.
  intros Hf Hs v p Ho Hp. unfold call_with. destruct (vo_faults v) as [|[f|] fs]; [by apply Hs|by apply (Hf f (set_faults fs v))|].
  by apply (Hs (set_faults fs v)).
Qed.
Lemma confined_call {A} (s : step Volume A) : confined s -> confined (call s).
Proof. intros Hs. apply confined_call_with; [|done]. intros f. by apply confined_keep. Qed.
Lemma confined_entry {A} q (s : step Volume A) : confined s -> confined (at_entry q s).
Proof. intros Hs. unfold at_entry. destruct (has_nul q); [by apply confined_keep|by apply confined_call]. Qed.
Lemma confined_entries {A} q q' (s : step Volume A) : confined s -> confined (at_entries q q' s).
Proof. intros Hs. unfold at_entries. destruct (_ || _); [by apply confined_keep|by apply confined_call]. Qed.

Lemma confined_insert {A} q n (r : result A) : ~ outside q -> confined (fun v => (set_nodes (<[q := n]> (vo_nodes v)) v, r)).
Proof. intros Hq v p Ho _. cbn. rewrite lookup_insert_ne; [done|]. by intros ->. Qed.

Lemma inside_path name : ~ outside (file_path l name).
Proof. unfold file_path, outside. tauto. Qed.
Lemma inside_below dir p : ~ outside dir -> ~ outside (dir ++ p).
Proof. unfold outside. destruct dir; [tauto|done]. Qed.

Ltac confining := intros ? ? Ho Hp; unfold look; repeat case_match; cbn;
  rewrite ?lookup_insert_ne, ?lookup_delete_ne; try done; by intros <-.

Lemma confined_mkdir dir name : ~ outside (dir ++ [name]) -> confined (mkdir_in dir name).
Proof. intros Hi. apply confined_entry. confining. Qed.
Lemma confined_root : confined create_root.
Proof.
  apply confined_call. intros v p Ho Hp. unfold look. destruct (vo_nodes v !! []) as [[]|] eqn:E; try done. cbn.
  rewrite lookup_insert_ne; [done|]. intros <-. by destruct Hp as [?|[? ?]]; [|congruence].
Qed.
Lemma confined_create p : ~ outside p -> confined (create_new p).
Proof. intros Hi. apply confined_entry. confining. Qed.
Lemma confined_remove p : ~ outside p -> confined (remove_file p).
Proof. intros Hi. apply confined_entry. confining. Qed.
Lemma confined_put q b {A} (r : result A) : ~ outside q -> confined (fun v => (put_data q b v, r)).
Proof. intros Hi. unfold put_data. confining. Qed.
Lemma confined_write q b : ~ outside q -> confined (write_all q b).
Proof.
  intros Hi. apply confined_call_with; [intros f; by apply confined_put|]. unfold put_data. confining.
Qed.

Lemma moved_outside from to p k : ~ outside to -> outside p -> moved from to k = p -> k = p.
Proof. unfold moved. destruct (strip from k) as [rest|]; [|done]. intros Hi Ho <-. by apply (inside_below _ rest) in Hi. Qed.

Lemma move_outside from to nodes p : ~ outside from -> ~ outside to -> outside p -> move_tree from to nodes !! p = nodes !! p.
Proof.
  intros Hf Ht Ho. unfold move_tree. set (es := map _ _).
  assert (forall n, (p, n) ∈ es <-> nodes !! p = Some n) as Hes.
  { intros n. unfold es. rewrite list_elem_of_fmap. split.
    - intros ([k n'] & [= Hk ->] & Hin%elem_of_map_to_list). symmetry in Hk. by apply moved_outside in Hk as ->.
    - intros Hn. exists (p, n). split; [|by apply elem_of_map_to_list]. cbn [fst snd]. f_equal. unfold moved.
      destruct (strip from p) as [rest|] eqn:E; [|done]. apply strip_spec in E as ->. by destruct (inside_below from rest Hf). }
  destruct (nodes !! p) as [n|] eqn:E.
  - apply elem_of_list_to_map_1'; [|by apply Hes]. intros y Hy. apply Hes in Hy. by injection Hy.
  - apply not_elem_of_list_to_map_1. intros ([k n] & -> & Hin)%list_elem_of_fmap. by apply Hes in Hin.
Qed.

Lemma rename_outside from to nodes nodes' p : ~ outside from -> ~ outside to -> outside p ->
  rename_nodes from to nodes = Some nodes' -> nodes' !! p = nodes !! p.
Proof.
  intros Hf Ht Ho. unfold rename_nodes. assert (from <> p /\ to <> p) as [Hfp Htp] by (split; by intros ->).
  repeat case_match; try done; intros [= <-]; rewrite ?lookup_insert_ne, ?lookup_delete_ne by done; (done || by apply move_outside).
Qed.

Lemma confined_rename from to : ~ outside from -> ~ outside to -> confined (rename from to).
Proof.
  intros Hf Ht. apply confined_entries. intros v p Ho Hp. destruct (rename_nodes from to (vo_nodes v)) eqn:E; [|done].
  by apply (rename_outside from to _ _ p) in E.
Qed.
Lemma confined_noreplace from to : ~ outside from -> ~ outside to -> confined (rename_noreplace from to).
Proof.
  intros Hf Ht. apply confined_entries. intros v p Ho Hp. unfold look. destruct (vo_nodes v !! from); [|done].
  destruct (vo_nodes v !! to); [done|]. destruct (rename_nodes from to (vo_nodes v)) eqn:E; [|done].
  by apply (rename_outside from to _ _ p) in E.
Qed.

Lemma confined_lift {A} (r : result A) : confined (lift r).
Proof. by apply confined_keep. Qed.
Lemma confined_ret {A} (a : A) : confined (step_ret a).
Proof. by apply confined_keep. Qed.
Lemma confined_err {A} e : confined (step_err (A := A) e).
Proof. by apply confined_keep. Qed.
Lemma confined_reads {A} (f : Volume -> result A) : confined (reads f).
Proof. by apply confined_keep. Qed.
Lemma confined_clock : confined clock.
Proof. apply confined_keep. intros v. unfold clock, now_unix. by destruct (vo_ticks v). Qed.
Lemma confined_generate : confined generate.
Proof. apply confined_keep. intros v. unfold generate. by destruct (vo_random v). Qed.
Create HintDb confined.
#[local] Hint Resolve confined_lift confined_ret confined_err confined_reads confined_clock confined_generate confined_root
  confined_map_err confined_entry confined_call inside_path inside_below : confined.

Lemma confined_open_dir dir name : confined (open_dir_beneath dir name).
Proof. unfold open_dir_beneath. auto with confined. Qed.
Lemma confined_open_nofollow p : confined (open_nofollow p).
Proof. unfold open_nofollow. auto with confined. Qed.
Lemma confined_sync : confined sync_all.
Proof. unfold sync_all. auto with confined. Qed.
Lemma confined_read n : confined (read_to_end n).
Proof. unfold read_to_end. auto with confined. Qed.
#[local] Hint Resolve confined_open_dir confined_open_nofollow confined_sync confined_read : confined.

Lemma confined_set_fd create : confined (set_fd l create).
Proof.
  unfold set_fd. apply confined_bind; [auto with confined|]. intros u. apply confined_bind; [apply confined_reads|]. intros u2.
  apply confined_bind; [destruct create; auto with confined|]. intros u3.
  apply (confined_then (fun root => root = [])).
  - unfold open_root. auto with confined.
  - intros v v' root [fs Hr]%call_Ok. unfold reads in Hr. by destruct (look [] _) as [[]|]; try done; injection Hr as _ <-.
  - intros root ->. apply confined_bind; [|intros; auto with confined]. destruct create; [|auto with confined].
    apply confined_mkdir. unfold outside. cbn. tauto.
Qed.

Lemma confined_path name create : confined (entry l name create).
Proof.
  unfold entry. destruct (normal_components name) as [cs|]; [|apply confined_err]. destruct (rev cs) as [|file dirs]; [apply confined_err|].
  apply confined_bind; [apply confined_reads|]. intros u.
  apply (confined_then (fun dir => ~ outside dir)); [apply confined_set_fd| |].
  { intros v v' dir [-> _]%set_fd_Ok. unfold outside. tauto. }
  intros dir Hd. apply confined_bind; [|intros; auto with confined]. revert dir Hd.
  induction (rev dirs) as [|c cs' IH]; intros dir Hd; cbn [step_fold]; [auto with confined|].
  apply (confined_then (fun dir => ~ outside dir)).
  - unfold descend. apply confined_bind; [|intros; auto with confined]. destruct create; [|auto with confined].
    apply confined_mkdir. auto with confined.
  - intros v v' d [-> _]%descend_Ok. auto with confined.
  - done.
Qed.

(** A step on the path of a name. *)
Lemma confined_named {B} name create (k : path * path -> step Volume B) :
  (forall dir, confined (k (dir, file_path l name))) -> confined (step_bind (entry l name create) k).
Proof.
  intros Hk. apply (confined_then (fun dp => snd dp = file_path l name)); [apply confined_path| |].
  - intros v v' [dir p] [_ ->]%entry_Ok. done.
  - intros [dir p] Hp. cbn in Hp. subst p. apply Hk.
Qed.

Lemma confined_publish tmp name replacing : confined (publish l tmp name replacing).
Proof.
  unfold publish. apply confined_named. intros d1. apply confined_named. intros d2.
  apply confined_bind; [auto with confined|]. intros n. apply confined_bind; [auto with confined|]. intros u.
  apply confined_bind; [|intros; apply confined_bind; auto with confined]. destruct replacing.
  - apply confined_rename; apply inside_path.
  - apply confined_bind; [apply confined_noreplace; apply inside_path|]. intros []; auto with confined.
Qed.

Lemma confined_create_tmp name : confined (create_tmp l name).
Proof.
  unfold create_tmp. apply confined_bind; [unfold temp_name; apply confined_bind; auto with confined|]. intros t.
  apply confined_named. intros d. apply confined_bind; [apply confined_create, inside_path|]. intros []; auto with confined.
Qed.

Lemma confined_write_tmp t b : confined (write_tmp l t b).
Proof.
  unfold write_tmp. repeat case_match; auto with confined. apply confined_bind; [apply confined_write, inside_path|]. auto with confined.
Qed.

Lemma confined_delete name : confined (delete_file l name).
Proof. unfold delete_file. apply confined_named. intros d. apply confined_remove, inside_path. Qed.

Lemma confined_attempts fuel record break_stale : confined (attempts fuel (file_path l LOCK_FILE) record break_stale).
Proof.
  induction fuel as [|fuel IH]; [apply confined_err|]. cbn [attempts]. apply confined_bind; [|intros []; auto with confined].
  unfold attempt. apply confined_bind; [apply confined_create, inside_path|]. intros [ino|].
  - apply confined_bind; [unfold try_lock; auto with confined|]. intros locked. destruct (negb locked); [apply confined_err|].
    apply confined_bind; [apply confined_write, inside_path|]. intros u. apply confined_bind; [auto with confined|]. intros u2.
    apply confined_bind; [auto with confined|]. intros now. apply confined_bind; [destruct (_ =? 0); auto with confined|]. intros u3.
    apply confined_bind; [by apply confined_keep|]. auto with confined.
  - apply confined_bind.
    { intros v p Ho Hp. unfold read_lock.
      pose proof (confined_bind (open_nofollow (file_path l LOCK_FILE)) read_to_end (confined_open_nofollow _) confined_read v p Ho Hp) as Hs.
      by destruct (step_bind _ _ v) as [v1 [data|[[]| | | | | | | | | | | | | | |]]]. }
    intros [existing|]; [|apply confined_err]. apply confined_bind; [auto with confined|]. intros now.
    destruct (_ && _); [|apply confined_err]. apply confined_bind; [auto with confined|]. intros [ino data| |]; auto with confined.
    apply confined_bind; [unfold try_lock; auto with confined|]. intros locked. destruct (negb locked); [apply confined_err|].
    apply confined_bind; [apply confined_remove, inside_path|]. auto with confined.
Qed.

Lemma confined_acquire owner ttl break_stale : confined (acquire l owner ttl break_stale).
Proof.
  unfold acquire. apply confined_named. intros d. apply confined_bind; [auto with confined|]. intros created.
  apply confined_bind; [auto with confined|]. intros token. apply confined_attempts.
Qed.
(** ** Links are not followed *)
Definition grows {A} (s : step Volume A) : Prop := forall v q n, vo_nodes v !! q = Some n -> vo_nodes (fst (s v)) !! q = Some n.

Lemma grows_keep {A} (s : step Volume A) : (forall v, vo_nodes (fst (s v)) = vo_nodes v) -> grows s.
Proof. intros Hs v q n. by rewrite Hs. Qed.
Lemma grows_bind {A B} (s : step Volume A) (k : A -> step Volume B) : grows s -> (forall a, grows (k a)) -> grows (step_bind s k).
Proof.
  intros Hs Hk v q n Hq. specialize (Hs v q n Hq). unfold step_bind. destruct (s v) as [v1 [a|e]]; [by apply Hk|done].
Qed.
Lemma grows_map_err {A} f (s : step Volume A) : grows s -> grows (step_map_err f s).
Proof. intros Hs v q n Hq. specialize (Hs v q n Hq). unfold step_map_err. by destruct (s v) as [v1 [a|e]]. Qed.
Lemma grows_call {A} (s : step Volume A) : grows s -> grows (call s).
Proof.
  intros Hs v q n Hq. unfold call, call_with. destruct (vo_faults v) as [|[f|] fs]; [by apply Hs|done|by apply (Hs (set_faults fs v))].
Qed.
Lemma grows_entry {A} p (s : step Volume A) : grows s -> grows (at_entry p s).
Proof. intros Hs. unfold at_entry. destruct (has_nul p); [by apply grows_keep|by apply grows_call]. Qed.
Lemma grows_mkdir dir name : grows (mkdir_in dir name).
Proof.
  apply grows_entry. intros v q n Hq. unfold look. destruct (vo_nodes v !! (dir ++ [name])) eqn:E; [done|]. cbn.
  rewrite lookup_insert_ne; [done|congruence].
Qed.
Lemma grows_root : grows create_root.
Proof.
  apply grows_call. intros v q n Hq. unfold look. destruct (vo_nodes v !! []) as [[]|] eqn:E; try done. cbn.
  rewrite lookup_insert_ne; [done|congruence].
Qed.
Lemma grows_descend create dir name : grows (descend create dir name).
Proof.
  unfold descend. apply grows_bind; [destruct create; [apply grows_mkdir|by apply grows_keep]|]. intros u.
  apply grows_map_err, grows_entry. by apply grows_keep.
Qed.
Lemma grows_set_fd create : grows (set_fd l create).
Proof.
  unfold set_fd. apply grows_bind; [by apply grows_keep|]. intros u. apply grows_bind; [by apply grows_keep|]. intros u2.
  apply grows_bind; [destruct create; [apply grows_root|by apply grows_keep]|]. intros u3.
  apply grows_bind; [apply grows_call; by apply grows_keep|]. intros root.
  apply grows_bind; [destruct create; [apply grows_mkdir|by apply grows_keep]|]. intros u4.
  apply grows_map_err, grows_entry. by apply grows_keep.
Qed.
Lemma grows_descends create names : forall dir, grows (step_fold (descend create) names dir).
Proof.
  induction names as [|n names IH]; intros dir; cbn [step_fold]; [by apply grows_keep|]. apply grows_bind; [apply grows_descend|]. done.
Qed.

(** The directories on the way were there or were made. *)
Lemma descends_dirs create names : forall dir v v' d, step_fold (descend create) names dir v = (v', Ok d) ->
  forall some rest, names = some ++ rest -> some <> [] -> vo_nodes v' !! (dir ++ some) = Some NDir.
Proof.
  induction names as [|n names IH]; intros dir v v' d Hs some rest Hn Hne; [by destruct some|].
  destruct some as [|s some]; [done|]. injection Hn as <- Hn. cbn [step_fold] in Hs.
  apply step_bind_Ok in Hs as (v1 & d1 & [-> Hd]%descend_Ok & Hs). destruct some as [|s some].
  - pose proof (grows_descends create names (dir ++ [n]) v1 _ _ Hd) as Hg. by rewrite Hs in Hg.
  - rewrite (cons_middle n dir (s :: some)), app_assoc. by apply (IH _ _ _ _ Hs (s :: some) rest).
Qed.

Lemma entry_dirs name create v v' dp : entry l name create v = (v', Ok dp) ->
  forall q rest, file_path l name = q ++ rest -> q <> [] -> rest <> [] -> forall n, vo_nodes v !! q = Some n -> n = NDir.
Proof.
  unfold entry, file_path. destruct (normal_components name) as [cs|]; [|done]. cbn [default from_option].
  destruct (rev cs) as [|file dirs] eqn:Er; [done|]. intros (v1 & u & Hk & Hs)%step_bind_Ok.
  unfold check_required_mount_at, reads in Hk. injection Hk as <- _.
  apply step_bind_Ok in Hs as (v2 & dir & Hset & Hs). pose proof Hset as [-> Hsd]%set_fd_Ok.
  apply step_bind_Ok in Hs as (v3 & d & Hdirs & [= <- _]).
  apply (f_equal (@rev _)) in Er. rewrite rev_involutive in Er. cbn [rev] in Er. subst cs.
  intros q rest Hq Hne Hrest n Hn. destruct q as [|s q]; [done|]. injection Hq as <- Hq.
  pose proof (grows_set_fd create v (ld_set_name l :: q) n Hn) as H1. rewrite Hset in H1. cbn [fst] in H1.
  pose proof (grows_descends create (rev dirs) [ld_set_name l] v2 _ _ H1) as H2. rewrite Hdirs in H2. cbn [fst] in H2.
  destruct q as [|c q]; [congruence|].
  destruct (exists_last Hrest) as (rest' & x & ->).
  assert (rev dirs = (c :: q) ++ rest') as Hr by (rewrite app_assoc in Hq; by apply app_inj_tail in Hq as [-> _]).
  pose proof (descends_dirs create (rev dirs) _ _ _ _ Hdirs (c :: q) rest' Hr ltac:(done)) as H3. cbn [app] in H3. congruence.
Qed.

End ops.
End LocalConfined.

(** ** The implementation of the interface *)
Module LocalStore.
Section store.
Context `{LockJson} (l : LocalDestination) (owner : LockOwner).

Definition destination : Destination Volume := {|
  list_files v := snd (Local.list_set l v);
  Destination.open_ro v name := snd (Local.open_ro l name v);
  Destination.delete v name := Local.delete_file l name v;
  Destination.create_tmp v name := Local.create_tmp l name v;
  Destination.write_tmp v tmp b := Local.write_tmp l tmp b v;
  replace v tmp name := let '(v, r) := Local.publish l tmp name true v in (v, let* _ := r in Ok tt);
  lock_set v ttl := Local.acquire l owner ttl false v;
  lock_set_breaking_stale v ttl := Local.acquire l owner ttl true v;
  Destination.lock_verify v := Local.lock_verify l v;
  Destination.now_unix := Volumes.now_unix;
|}.

Definition publisher : Publisher Volume := fun tmp name => Local.publish l tmp name false.

Definition laws : @DestinationLaws Volume destination.
Proof.
  refine (@Build_DestinationLaws Volume destination (LocalSpec.file_of l) _ _ _ _ _ _ _ _ _ _ _ _ _ _); cbn.
  - intros v names Hl. destruct (Local.list_set l v) as [v' r] eqn:E. cbn in Hl. subst r. by eapply LocalListing.list_once.
  - intros v n b Ho. destruct (Local.open_ro l n v) as [v' r] eqn:E. cbn in Ho. subst r. by eapply LocalSpec.open_ro_Ok.
  - intros v n m Hne. by apply LocalSpec.delete_other.
  - intros v n u. apply LocalSpec.delete_done.
  - intros v n m Ht. by apply LocalSpec.create_tmp_other.
  - intros v n t Ht. destruct (Local.create_tmp l n v) as [v' r] eqn:E. cbn in Ht. subst r.
    by apply LocalSpec.create_tmp_Ok in E as (_ & ? & _ & ?).
  - intros v t b m Hne. by apply LocalSpec.write_tmp_other.
  - intros v t b u. apply LocalSpec.write_tmp_done.
  - intros v t n m b Hb Ht Hn. destruct (Local.publish l t n true v) as [v' r] eqn:E. cbn [fst].
    apply (LocalSpec.publish_spec l _ _ _ b) in E as [[_ Hs]|(Ho & _)]; [done|by apply Ho|done].
  - intros v t n b u Hb Hr. destruct (Local.publish l t n true v) as [v' r] eqn:E. cbn [fst snd] in *.
    apply (LocalSpec.publish_spec l _ _ _ b) in E as [[Hx _]|(_ & _ & Hd)]; [by destruct r|done|done].
  - intros v ttl m Hne. by apply LocalSpec.acquire_other.
  - intros v ttl m Hne. by apply LocalSpec.acquire_other.
  - intros v m. apply LocalSpec.keeps_stays. intros _. apply LocalSpec.verify_other.
  - intros v m. unfold LocalSpec.file_of. repeat case_match; try done. apply LocalSpec.stays_now.
Defined.

Lemma publisher_laws : @PublisherLaws Volume destination laws publisher.
Proof.
  split; unfold publish_new, publisher; intros tmp name v.
  - intros m b Hb Ht Hn. destruct (Local.publish l tmp name false v) as [v' r] eqn:E. cbn [fst].
    apply (LocalSpec.publish_spec l _ _ _ b) in E as [[_ Hs]|(Ho & _)]; [apply Hs|by apply Ho|done].
  - intros b Hb _. by apply LocalSpec.publish_existing_file.
  - intros b durability Hb Hr. destruct (Local.publish l tmp name false v) as [v' r] eqn:E. cbn [fst snd] in *. subst r.
    apply (LocalSpec.publish_spec l _ _ _ b) in E as [[Hx _]|(_ & Hno & Hd)]; [done|by split; [apply Hno|]|done].
Qed.

(** What changes the volume. *)
Inductive operation :=
  | OpenSet
  | CreateTmp (final_name : bytes)
  | WriteTmp (tmp contents : bytes)
  | PublishNew (tmp final_name : bytes)
  | Replace (tmp final_name : bytes)
  | Delete (name : bytes)
  | LockSet (ttl : Z) (break_stale : bool).

Definition run (o : operation) (v : Volume) : Volume :=
  match o with
  | OpenSet => fst (Local.open_set l v)
  | CreateTmp final_name => fst (Local.create_tmp l final_name v)
  | WriteTmp tmp contents => fst (Local.write_tmp l tmp contents v)
  | PublishNew tmp final_name => fst (Local.publish l tmp final_name false v)
  | Replace tmp final_name => fst (Local.publish l tmp final_name true v)
  | Delete name => fst (Local.delete_file l name v)
  | LockSet ttl break_stale => fst (Local.acquire l owner ttl break_stale v)
  end.
End store.
End LocalStore.

(** ** Properties *)

(** C15: The local destination implements the interface the engine is proved
    against: with the regular files below the directory of the set as contents,
    it has the laws of a destination and of a publisher, whichever of its system
    calls fail; and while the set directory opens, its listing is exactly the
    files that directories lead to, each once. *)
Theorem local_destination_lawful `{LockJson} l owner :
  (exists L : @DestinationLaws Volume (LocalStore.destination l owner),
    @contents Volume (LocalStore.destination l owner) L = LocalSpec.file_of l /\
    @PublisherLaws Volume (LocalStore.destination l owner) L (LocalStore.publisher l)) /\
  forall v v1 dir names, Local.set_fd l false v = (v1, Ok dir) ->
    @list_files Volume (LocalStore.destination l owner) v = Ok names ->
    forall name, name ∈ names <-> exists p, Volumes.normal_components name = Some p /\
      LocalListing.found_at (vo_nodes v1) [ld_set_name l] p.
Proof.
  split.
  - exists (LocalStore.laws l owner). split; [done|]. apply LocalStore.publisher_laws.
  - intros v v1 dir names Hs Hl. cbn in Hl. destruct (Local.list_set l v) as [v' r] eqn:E. cbn in Hl. subst r.
    by eapply LocalListing.list_spec.
Qed.

