(* ===== verification/Leases.v ===== *)
(** * Processes that want one set lock ([crates/lr-store/src/local.rs])

    [acquire], [Lease] and [LeaseGuard] as the system calls of several processes
    of one host, in any order: what the path of the lock file names, the inodes
    with their records, who holds an [flock] on them, and the clock. *)

From stdpp Require Import gmap relations.
From S2P Require Import Prelude.

Module Leases.
(** Where a process is between two calls. *)
Inductive Phase :=
  | Starting
  | Found                  (* [create_new] met a file *)
  | Stale                  (* which had expired *)
  | Opened (ino : Z)       (* and is open *)
  | Flocked (ino : Z)      (* with [try_lock] *)
  | Removed (ino : Z)      (* the path has been removed *)
  | Created (ino : Z)      (* [create_new] made a file *)
  | Locked (ino : Z)       (* with [try_lock] *)
  | Holding (ino : Z)      (* its record is written: a [SetLock] *)
  | Leaving (ino : Z)      (* dropping it, the path was still its own *)
  | Refused
  | Lost
  | Gone.

(** [break_stale], and the lease in seconds unless it never expires. *)
Record Process := { ps_break : bool; ps_ttl : option Z; ps_phase : Phase }.

Record World := {
  wo_path : option Z;
  (** The record in the file: none yet, or its last second if it has one. *)
  wo_records : gmap Z (option (option Z));
  wo_flocks : gmap Z nat;
  wo_next : Z;
  wo_now : Z;
  wo_processes : list Process;
}.

Definition stale (now : Z) (record : option (option Z)) : bool :=
  match record with Some (Some last) => last <? now | _ => false end.
Definition last_second (now : Z) (ttl : option Z) : option Z := option_map (Z.add now) ttl.

Definition drop_flocks (i : nat) (flocks : gmap Z nat) : gmap Z nat := filter (fun e => snd e <> i) flocks.

(** The rest of the world after a call of process [i]. *)
Inductive advance (i : nat) (p : Process) : World -> option Z -> gmap Z (option (option Z)) -> gmap Z nat -> Z -> Phase -> Prop :=
  | adv_create w : ps_phase p = Starting -> wo_path w = None ->
      advance i p w (Some (wo_next w)) (<[wo_next w := None]> (wo_records w)) (wo_flocks w) (wo_next w + 1) (Created (wo_next w))
  | adv_exists w ino : ps_phase p = Starting -> wo_path w = Some ino ->
      advance i p w (wo_path w) (wo_records w) (wo_flocks w) (wo_next w) Found
  | adv_stale w ino record : ps_phase p = Found -> wo_path w = Some ino -> wo_records w !! ino = Some record ->
      stale (wo_now w) record = true -> ps_break p = true ->
      advance i p w (wo_path w) (wo_records w) (wo_flocks w) (wo_next w) Stale
  | adv_refused w : ps_phase p = Found ->
      (forall ino record, wo_path w = Some ino -> wo_records w !! ino = Some record ->
        stale (wo_now w) record && ps_break p = false) ->
      advance i p w (wo_path w) (wo_records w) (wo_flocks w) (wo_next w) Refused
  | adv_open w ino : ps_phase p = Stale -> wo_path w = Some ino ->
      advance i p w (wo_path w) (wo_records w) (wo_flocks w) (wo_next w) (Opened ino)
  | adv_gone w : ps_phase p = Stale -> wo_path w = None ->
      advance i p w (wo_path w) (wo_records w) (wo_flocks w) (wo_next w) Refused
  | adv_flock w ino : ps_phase p = Opened ino -> wo_flocks w !! ino = None ->
      advance i p w (wo_path w) (wo_records w) (<[ino := i]> (wo_flocks w)) (wo_next w) (Flocked ino)
  | adv_alive w ino j : ps_phase p = Opened ino -> wo_flocks w !! ino = Some j ->
      advance i p w (wo_path w) (wo_records w) (wo_flocks w) (wo_next w) Refused
  | adv_remove w ino named : ps_phase p = Flocked ino -> wo_path w = Some named ->
      advance i p w None (wo_records w) (wo_flocks w) (wo_next w) (Removed ino)
  | adv_missing w ino : ps_phase p = Flocked ino -> wo_path w = None ->
      advance i p w None (wo_records w) (delete ino (wo_flocks w)) (wo_next w) Refused
  | adv_again w ino : ps_phase p = Removed ino ->
      advance i p w (wo_path w) (wo_records w) (delete ino (wo_flocks w)) (wo_next w) Starting
  | adv_lock w ino : ps_phase p = Created ino -> wo_flocks w !! ino = None ->
      advance i p w (wo_path w) (wo_records w) (<[ino := i]> (wo_flocks w)) (wo_next w) (Locked ino)
  | adv_beaten w ino j : ps_phase p = Created ino -> wo_flocks w !! ino = Some j ->
      advance i p w (wo_path w) (wo_records w) (wo_flocks w) (wo_next w) Refused
  | adv_write w ino : ps_phase p = Locked ino ->
      advance i p w (wo_path w) (<[ino := Some (last_second (wo_now w) (ps_ttl p))]> (wo_records w)) (wo_flocks w) (wo_next w) (Holding ino)
  | adv_refresh w ino : ps_phase p = Holding ino -> wo_path w = Some ino ->
      advance i p w (wo_path w) (<[ino := Some (last_second (wo_now w) (ps_ttl p))]> (wo_records w)) (wo_flocks w) (wo_next w) (Holding ino)
  | adv_lost w ino : ps_phase p = Holding ino -> wo_path w <> Some ino ->
      advance i p w (wo_path w) (wo_records w) (wo_flocks w) (wo_next w) Lost
  | adv_leave w ino : ps_phase p = Holding ino -> wo_path w = Some ino ->
      advance i p w (wo_path w) (wo_records w) (wo_flocks w) (wo_next w) (Leaving ino)
  | adv_unlink w ino : ps_phase p = Leaving ino ->
      advance i p w None (wo_records w) (drop_flocks i (wo_flocks w)) (wo_next w) Gone
  | adv_die w : advance i p w (wo_path w) (wo_records w) (drop_flocks i (wo_flocks w)) (wo_next w) Gone.

Definition at_phase (p : Process) (phase : Phase) : Process :=
  {| ps_break := ps_break p; ps_ttl := ps_ttl p; ps_phase := phase |}.

Inductive step : World -> World -> Prop :=
  | step_process w i p path records flocks next phase : wo_processes w !! i = Some p ->
      advance i p w path records flocks next phase ->
      step w {| wo_path := path; wo_records := records; wo_flocks := flocks; wo_next := next; wo_now := wo_now w;
                wo_processes := <[i := at_phase p phase]> (wo_processes w) |}
  | step_clock w seconds : 0 <= seconds ->
      step w {| wo_path := wo_path w; wo_records := wo_records w; wo_flocks := wo_flocks w; wo_next := wo_next w;
                wo_now := wo_now w + seconds; wo_processes := wo_processes w |}.

(** The file a process has created, and whether [SetLock::verify] lets it pass. *)
Definition own (phase : Phase) : option Z :=
  match phase with Created ino | Locked ino | Holding ino | Leaving ino => Some ino | _ => None end.
Definition passes (w : World) (i : nat) : Prop :=
  exists p ino, wo_processes w !! i = Some p /\ ps_phase p = Holding ino /\ wo_path w = Some ino.

(** Before anybody starts: a lock file that was there is older than the inodes to come. *)
Definition fresh (w : World) : Prop :=
  Forall (fun p => ps_phase p = Starting) (wo_processes w) /\ (forall ino, wo_path w = Some ino -> ino < wo_next w).

(** What the interleavings keep: nobody shares the file of another. *)
Record orderly (w : World) : Prop := {
  or_own : forall i p ino, wo_processes w !! i = Some p -> own (ps_phase p) = Some ino -> ino < wo_next w;
  or_apart : forall i j p q ino, wo_processes w !! i = Some p -> wo_processes w !! j = Some q ->
    own (ps_phase p) = Some ino -> own (ps_phase q) = Some ino -> i = j;
}.

Lemma fresh_orderly w : fresh w -> orderly w.
Proof.
  intros [Hs _]. assert (forall i p, wo_processes w !! i = Some p -> own (ps_phase p) = None) as Hn.
  { intros i p Hp. rewrite Forall_lookup in Hs. by rewrite (Hs i p Hp). }
  split.
  - intros i p ino Hp Ho. rewrite (Hn i p Hp) in Ho. done.
  - intros i j p q ino Hp _ Ho. rewrite (Hn i p Hp) in Ho. done.
Qed.

(** A call keeps the file of a process or gives it a new one. *)
Lemma advance_own i p w path records flocks next phase : advance i p w path records flocks next phase ->
  wo_next w <= next /\ forall ino, own phase = Some ino -> own (ps_phase p) = Some ino \/ (ino = wo_next w /\ next = wo_next w + 1).
Proof.
  intros Ha. destruct Ha; cbn [own]; (split; [lia|]); intros ino' Ho; try done; injection Ho as <-;
    try (left; match goal with E : ps_phase p = _ |- _ => by rewrite E end); by right.
Qed.

Lemma orderly_step w w' : orderly w -> step w w' -> orderly w'.
Proof.
  intros [Ho Ha] Hs. destruct Hs as [w i p path records flocks next phase Hp Hadv|w seconds _]; [|by split].
  apply advance_own in Hadv as [Hnext Hown].
  assert (forall j q ino, <[i := at_phase p phase]> (wo_processes w) !! j = Some q -> own (ps_phase q) = Some ino ->
    (exists q', wo_processes w !! j = Some q' /\ own (ps_phase q') = Some ino) \/ (j = i /\ ino = wo_next w /\ next = wo_next w + 1)) as Hq.
  { intros j q ino Hl Hi. apply list_lookup_insert_Some in Hl as [(<- & <- & _)|[_ Hl]]; [|left; by exists q].
    cbn [at_phase ps_phase] in Hi. destruct (Hown ino Hi) as [?|[-> ->]]; [left; by exists p|by right]. }
  split; cbn [wo_processes wo_next].
  - intros j q ino Hl Hi. destruct (Hq j q ino Hl Hi) as [(q' & Hl' & Hi')|(_ & -> & ->)]; [|lia].
    specialize (Ho j q' ino Hl' Hi'). lia.
  - intros j k q r ino Hl Hk Hi Hi'.
    destruct (Hq j q ino Hl Hi) as [(q' & Hl' & Hoq)|(-> & Hy & _)], (Hq k r ino Hk Hi') as [(r' & Hk' & Hor)|(-> & Hx & _)].
    + by eapply Ha.
    + specialize (Ho j q' _ Hl' Hoq). lia.
    + specialize (Ho k r' _ Hk' Hor). lia.
    + done.
Qed.

Lemma orderly_run w w' : orderly w -> rtc step w w' -> orderly w'.
Proof. intros Ho Hr. induction Hr as [|w w1 w' Hs _ IH]; [done|]. apply IH. by eapply orderly_step. Qed.

Lemma passes_one w i j : orderly w -> passes w i -> passes w j -> i = j.
Proof.
  intros [_ Ha] (p & ino & Hp & Hh & Hn) (q & ino' & Hq & Hh' & Hn'). assert (ino' = ino) as -> by congruence.
  apply (Ha i j p q ino Hp Hq); by rewrite ?Hh, ?Hh'.
Qed.

(** ** A race *)

(** An expired lock file nobody holds, and two processes that break stale locks. *)
Definition breaker : Process := {| ps_break := true; ps_ttl := Some 600; ps_phase := Starting |}.
Definition contested : World :=
  {| wo_path := Some 0; wo_records := {[0 := Some (Some 1)]}; wo_flocks := ∅; wo_next := 1; wo_now := 1000;
     wo_processes := [breaker; breaker] |}.

Lemma run_step w i p path records flocks next phase w' : wo_processes w !! i = Some p ->
  advance i p w path records flocks next phase ->
  rtc step {| wo_path := path; wo_records := records; wo_flocks := flocks; wo_next := next; wo_now := wo_now w;
              wo_processes := <[i := at_phase p phase]> (wo_processes w) |} w' -> rtc step w w'.
Proof. intros Hp Ha Hr. eapply rtc_l; [|exact Hr]. by eapply step_process. Qed.

(** Both find the file expired and open it; the first breaks it and takes the
    lock; the second, now that the old file is no longer locked, removes the
    lock of the first. *)
Lemma live_lock_broken : exists w, rtc step contested w /\
  (exists p q, wo_processes w !! 0%nat = Some p /\ wo_processes w !! 1%nat = Some q /\
    ps_phase p = Holding 1 /\ ps_phase q = Holding 2) /\
  wo_path w = Some 2 /\ wo_flocks w !! 1 = Some 0%nat /\
  (forall record, wo_records w !! 1 = Some record -> stale (wo_now w) record = false).
Proof.
  eexists. split.
  - unfold contested.
    eapply (run_step _ 0); [done|by eapply (adv_exists _ _ _ 0)|]. cbn.
    eapply (run_step _ 1); [done|by eapply (adv_exists _ _ _ 0)|]. cbn.
    eapply (run_step _ 0); [done|by eapply (adv_stale _ _ _ 0 (Some (Some 1)))|]. cbn.
    eapply (run_step _ 1); [done|by eapply (adv_stale _ _ _ 0 (Some (Some 1)))|]. cbn.
    eapply (run_step _ 0); [done|by eapply (adv_open _ _ _ 0)|]. cbn.
    eapply (run_step _ 1); [done|by eapply (adv_open _ _ _ 0)|]. cbn.
    eapply (run_step _ 0); [done|by eapply (adv_flock _ _ _ 0)|]. cbn.
    eapply (run_step _ 0); [done|by eapply (adv_remove _ _ _ 0 0)|]. cbn.
    eapply (run_step _ 0); [done|by eapply (adv_again _ _ _ 0)|]. cbn.
    eapply (run_step _ 0); [done|by eapply adv_create|]. cbn.
    eapply (run_step _ 0); [done|by eapply (adv_lock _ _ _ 1)|]. cbn.
    eapply (run_step _ 0); [done|by eapply (adv_write _ _ _ 1)|]. cbn.
    eapply (run_step _ 1); [done|by eapply (adv_flock _ _ _ 0)|]. cbn.
    eapply (run_step _ 1); [done|by eapply (adv_remove _ _ _ 0 1)|]. cbn.
    eapply (run_step _ 1); [done|by eapply (adv_again _ _ _ 0)|]. cbn.
    eapply (run_step _ 1); [done|by eapply adv_create|]. cbn.
    eapply (run_step _ 1); [done|by eapply (adv_lock _ _ _ 2)|]. cbn.
    eapply (run_step _ 1); [done|by eapply (adv_write _ _ _ 2)|]. cbn.
    apply rtc_refl.
  - cbn. split; [by eexists _, _|]. split; [done|]. split; [done|]. intros record Hr. by vm_compute in Hr; injection Hr as <-.
Qed.
End Leases.

(** C17: Of all the processes that contend for a set lock, in any order of their
    system calls, at most one passes [verify] at any moment, and its own file is
    what the path names. The lock can be lost by a live process all the same:
    of two processes that break the same expired lock, the second can remove
    the lock the first has just taken, fresh record and [flock] notwithstanding;
    only [verify] then tells the first. *)
Theorem lease_passes_one : 
  (forall w w' i j, Leases.fresh w -> rtc Leases.step w w' -> Leases.passes w' i -> Leases.passes w' j -> i = j) /\
  exists w, rtc Leases.step Leases.contested w /\
    (exists p q, Leases.wo_processes w !! 0%nat = Some p /\ Leases.wo_processes w !! 1%nat = Some q /\
      Leases.ps_phase p = Leases.Holding 1 /\ Leases.ps_phase q = Leases.Holding 2) /\
    Leases.wo_path w = Some 2 /\ Leases.wo_flocks w !! 1 = Some 0%nat /\
    (forall record, Leases.wo_records w !! 1 = Some record -> Leases.stale (Leases.wo_now w) record = false).
Proof.
  split; [|apply Leases.live_lock_broken].
  intros w w' i j Hf Hr. apply Leases.passes_one. eapply Leases.orderly_run; [|exact Hr]. by apply Leases.fresh_orderly.
Qed.
