(* ===== verification/Tokens.v ===== *)
(** * Restore tokens ([crates/lr-engine/src/restore.rs], [restore/secret_file.rs])

    The short-lived permission that [prepare] hands out and [apply] asks for:
    what identifies a target and a chain member, the token with its MAC, and
    the directory of used tokens. The serialised form of a token is what
    [serde_json] makes of it, a parameter with the laws the code relies on;
    [hex] likewise. *)

From stdpp Require Import relations.
From S2P Require Import Prelude Text Core Crypto Superblock Files Destination Progress Chain Extents.

Definition DEFAULT_TTL : Z := 600.
Definition TARGET_HASH_BYTES : Z := 1024 * 1024.
Definition TOKEN_PREFIX : bytes := Text.str "lrt1".

(** ** What is bound *)
Record TargetFacts := {
  tf_dev_id : Z;
  tf_wwid_or_serial : option bytes;
  tf_size_bytes : Z;
  tf_pt_hash : bytes;
}.

(** [crates/lr-engine/src/target.rs]. *)
Record DirectoryFacts := { df_dev_id : Z; df_ino : Z; df_path : bytes }.

Record RestoreMemberIdentity := {
  rm_file_name : bytes;
  rm_chain_id : Id;
  rm_set_id : Id;
  rm_seq_in_chain : Z;
  rm_image_uuid : Id;
  rm_parent_uuid : Id;
  rm_image_kind : ImageKind;
  rm_superblock_hash : bytes;
}.

#[export] Instance TargetFacts_eq_dec : EqDecision TargetFacts.
Proof. solve_decision. Defined.
#[export] Instance DirectoryFacts_eq_dec : EqDecision DirectoryFacts.
Proof. solve_decision. Defined.
#[export] Instance RestoreMemberIdentity_eq_dec : EqDecision RestoreMemberIdentity.
Proof. solve_decision. Defined.

(** Where the images live ([TokenImage]). *)
Record TokenImage := {
  ti_dest : bytes;
  ti_set : bytes;
  ti_image : bytes;
  ti_chain : list bytes;
  ti_identity : option bytes;
  ti_known_hosts : option bytes;
  ti_insecure_ignore_host_key : bool;
}.

Record RestoreToken := {
  rt_dest : bytes;
  rt_set : bytes;
  rt_image : bytes;
  rt_chain : list bytes;
  rt_chain_members : list RestoreMemberIdentity;
  rt_identity : option bytes;
  rt_known_hosts : option bytes;
  rt_insecure_ignore_host_key : bool;
  rt_image_uuid : Id;
  rt_target_path : bytes;
  rt_target : TargetFacts;
  rt_target_directory : option DirectoryFacts;
  rt_merge : bool;
  rt_strict_metadata : bool;
  rt_expires_at : Z;
  rt_uid : Z;
  rt_nonce : bytes;
  rt_mac : bytes;
}.

#[export] Instance RestoreToken_eq_dec : EqDecision RestoreToken.
Proof. solve_decision. Defined.

(** The [hex] crate. *)
Class HexCodec := {
  hex_encode : bytes -> bytes;
  hex_decode : bytes -> option bytes;
}.

Definition is_ascii_hexdigit (c : byte) : bool :=
  in_range 0x30 0x39 c || in_range 0x41 0x46 c || in_range 0x61 0x66 c.

Class HexLaws `{HexCodec} : Prop := {
  hex_decode_encode : forall b, hex_decode (hex_encode b) = Some b;
  hex_encode_digits : forall b, forallb is_ascii_hexdigit (hex_encode b) = true;
  hex_encode_nonempty : forall b, b <> [] -> hex_encode b <> [];
}.

(** [serde_json] of a token: [None] where a path is no text. *)
Class TokenJson := {
  token_to_json : RestoreToken -> option bytes;
  token_from_json : bytes -> option RestoreToken;
}.

Class TokenJsonLaws `{TokenJson} : Prop := {
  token_from_to : forall t j, token_to_json t = Some j -> token_from_json j = Some t;
  token_json_object : forall t j, token_to_json t = Some j ->
    exists body, j = [Byte.x7b] ++ body ++ [Byte.x7d];
  token_json_empty : token_from_json [] = None;
}.

Module Facts.
Section ops.
Context `{Primitives} `{HexCodec}.

(** [hash_prefix]: the loop reads up to the limit or to the end of the device. *)
Definition hash_prefix (device : result bytes) : result bytes :=
  let* content := device in
  Ok (hex_encode (Mac.unkeyed_mac32 (ztake TARGET_HASH_BYTES content))).

(** [TargetFacts::read]: the [stat] of the device, what discovery says of it
    (size, WWID and serial number), and its first bytes. *)
Definition read (rdev : result Z) (layout : result (Z * option bytes * option bytes)) (device : result bytes) :
    result TargetFacts :=
  let* dev_id := rdev in
  let* (size_bytes, wwid, serial) := layout in
  let* pt_hash := hash_prefix device in
  Ok {| tf_dev_id := dev_id;
        tf_wwid_or_serial := match wwid with Some w => Some w | None => serial end;
        tf_size_bytes := size_bytes; tf_pt_hash := pt_hash |}.

(** [TargetFacts::for_directory]. *)
Definition for_directory (directory : result DirectoryFacts) (size : Z) : result TargetFacts :=
  let* facts := directory in
  Ok {| tf_dev_id := df_dev_id facts; tf_wwid_or_serial := None; tf_size_bytes := size;
        tf_pt_hash := hex_encode (Mac.unkeyed_mac32 (df_path facts)) |}.

Definition facts_match (a b : TargetFacts) : bool := bool_decide (a = b).
Definition directory_matches (a b : DirectoryFacts) : bool := bool_decide (a = b).
End ops.
End Facts.

Module Identities.
(** [RestoreMemberIdentity::read]. *)
Definition read `{Primitives} `{Destination D} (d : D) (file_name : bytes) : result RestoreMemberIdentity :=
  let* reader := open_ro d file_name in
  let* b := File.read_exact 0 SB_SIZE reader in
  let* superblock := Sb.decode b in
  Ok {| rm_file_name := file_name; rm_chain_id := chain_id superblock; rm_set_id := set_id superblock;
        rm_seq_in_chain := seq_in_chain superblock; rm_image_uuid := image_uuid superblock;
        rm_parent_uuid := parent_uuid superblock; rm_image_kind := image_kind superblock;
        rm_superblock_hash := Mac.unkeyed_mac32 b |}.
End Identities.

(** ** The token *)
Module Tokens.
Definition set_mac (t : RestoreToken) (mac : bytes) : RestoreToken :=
  {| rt_dest := rt_dest t; rt_set := rt_set t; rt_image := rt_image t; rt_chain := rt_chain t;
     rt_chain_members := rt_chain_members t; rt_identity := rt_identity t; rt_known_hosts := rt_known_hosts t;
     rt_insecure_ignore_host_key := rt_insecure_ignore_host_key t; rt_image_uuid := rt_image_uuid t;
     rt_target_path := rt_target_path t; rt_target := rt_target t; rt_target_directory := rt_target_directory t;
     rt_merge := rt_merge t; rt_strict_metadata := rt_strict_metadata t; rt_expires_at := rt_expires_at t;
     rt_uid := rt_uid t; rt_nonce := rt_nonce t; rt_mac := mac |}.

Definition token_expired (expires_at now : Z) : bool := expires_at <? now.

Section ops.
Context `{Primitives} `{HexCodec} `{TokenJson}.

(** [payload]. *)
Definition payload (t : RestoreToken) : result bytes :=
  match token_to_json (set_mac t []) with
  | Some j => Ok j
  | None => Err (Corrupt "token payload: {e}")
  end.

(** [token.mac = hex::encode(mac32(token_secret(), &token.payload()?))]. *)
Definition seal (secret : bytes) (t : RestoreToken) : result RestoreToken :=
  let* p := payload t in Ok (set_mac t (hex_encode (Mac.mac32 secret p))).

(** [issue] with the random nonce, the clock and the key it reads. *)
Definition issue (secret random : bytes) (now : Z) (image : TokenImage) (target_path : bytes) (image_uuid : Id)
    (target : TargetFacts) (directory : option DirectoryFacts) (merge : bool) (ttl uid : Z) : result RestoreToken :=
  let nonce := hex_encode random in
  let expires_at := wrap64 (now + ttl) in
  seal secret
    {| rt_dest := ti_dest image; rt_set := ti_set image; rt_image := ti_image image; rt_chain := ti_chain image;
       rt_chain_members := []; rt_identity := ti_identity image; rt_known_hosts := ti_known_hosts image;
       rt_insecure_ignore_host_key := ti_insecure_ignore_host_key image; rt_image_uuid := image_uuid;
       rt_target_path := target_path; rt_target := target; rt_target_directory := directory;
       rt_merge := merge; rt_strict_metadata := false; rt_expires_at := expires_at; rt_uid := uid;
       rt_nonce := nonce; rt_mac := [] |}.

Definition with_strict_metadata (secret : bytes) (t : RestoreToken) (strict : bool) : result RestoreToken :=
  seal secret
    {| rt_dest := rt_dest t; rt_set := rt_set t; rt_image := rt_image t; rt_chain := rt_chain t;
       rt_chain_members := rt_chain_members t; rt_identity := rt_identity t; rt_known_hosts := rt_known_hosts t;
       rt_insecure_ignore_host_key := rt_insecure_ignore_host_key t; rt_image_uuid := rt_image_uuid t;
       rt_target_path := rt_target_path t; rt_target := rt_target t; rt_target_directory := rt_target_directory t;
       rt_merge := rt_merge t; rt_strict_metadata := strict; rt_expires_at := rt_expires_at t;
       rt_uid := rt_uid t; rt_nonce := rt_nonce t; rt_mac := rt_mac t |}.

Definition with_chain_members (secret : bytes) (t : RestoreToken) (members : list RestoreMemberIdentity) :
    result RestoreToken :=
  seal secret
    {| rt_dest := rt_dest t; rt_set := rt_set t; rt_image := rt_image t; rt_chain := rt_chain t;
       rt_chain_members := members; rt_identity := rt_identity t; rt_known_hosts := rt_known_hosts t;
       rt_insecure_ignore_host_key := rt_insecure_ignore_host_key t; rt_image_uuid := rt_image_uuid t;
       rt_target_path := rt_target_path t; rt_target := rt_target t; rt_target_directory := rt_target_directory t;
       rt_merge := rt_merge t; rt_strict_metadata := rt_strict_metadata t; rt_expires_at := rt_expires_at t;
       rt_uid := rt_uid t; rt_nonce := rt_nonce t; rt_mac := rt_mac t |}.

Definition verify (secret : bytes) (now : Z) (t : RestoreToken) : result unit :=
  match hex_decode (rt_mac t) with
  | None => Err (Corrupt "restore token MAC is not hex")
  | Some expected =>
    if negb (zlen expected =? 32) then Err (Corrupt "restore token MAC has the wrong length")
    else
      let* p := payload t in
      if negb (Mac.verify_mac32 secret p expected) then Err (Corrupt "restore token MAC does not verify")
      else if token_expired (rt_expires_at t) now then Err (Corrupt "restore token expired at {}")
      else Ok tt
  end.

Definition encode (t : RestoreToken) : bytes :=
  TOKEN_PREFIX ++ [Byte.x3a] ++ match token_to_json t with Some j => j | None => [] end.

Definition decode (text : bytes) : result RestoreToken :=
  match Text.strip_prefix TOKEN_PREFIX (Text.trim text) with
  | Some rest =>
    match Text.strip_prefix [Byte.x3a] rest with
    | Some json =>
      match token_from_json json with
      | Some t => Ok t
      | None => Err (Corrupt "restore token: {e}")
      end
    | None => Err (Corrupt "restore token must start with 'lrt1:'")
    end
  | None => Err (Corrupt "restore token must start with 'lrt1:'")
  end.

Definition remaining_seconds (now : Z) (t : RestoreToken) : Z := Z.max 0 (rt_expires_at t - now).
End ops.
End Tokens.

(** ** Used tokens

    The state is the list of the file names of the [consumed] directory. *)

(** How the file system behaves during one call. *)
Record RecordIo := {
  ri_directory : result unit;
  ri_read_dir : result unit;
  (** Entries the listing skips or [remove_file] leaves. *)
  ri_stays : bytes -> bool;
  (** An error of [open] other than [AlreadyExists]. *)
  ri_create : result unit;
  ri_sync : result unit;
}.

Module Used.
Definition DASH : byte := Byte.x2d.

Definition nonce_ok (nonce : bytes) : bool :=
  match nonce with [] => false | _ => forallb is_ascii_hexdigit nonce end.

Definition record_name (expires_at : Z) (nonce : bytes) : bytes := Text.to_decimal expires_at ++ [DASH] ++ nonce.

(** The expiry a record's name states. *)
Definition expiry (name : bytes) : option Z :=
  if utf8_valid name then
    match Text.split_once DASH name with
    | Some (expiry, _) => Text.parse_unsigned U64_MAX expiry
    | None => None
    end
  else None.

Definition expired (now : Z) (name : bytes) : bool :=
  match expiry name with Some e => e <? now | None => false end.

Definition consume (io : RecordIo) (nonce : bytes) (expires_at now : Z) : step (list bytes) bool := fun names =>
  if negb (nonce_ok nonce) then (names, Err (Corrupt "restore token nonce is not hex"))
  else
    match (ri_directory io;;; ri_read_dir io) with
    | Err e => (names, Err e)
    | Ok _ =>
      let names := List.filter (fun name => negb (expired now name) || ri_stays io name) names in
      match ri_create io with
      | Err e => (names, Err e)
      | Ok _ =>
        let record := record_name expires_at nonce in
        if bool_decide (record ∈ names) then (names, Ok false)
        else (record :: names, let* _ := ri_sync io in Ok true)
      end
    end.

(** [RestoreToken::redeem]. *)
Definition redeem (io : RecordIo) (now uid : Z) (t : RestoreToken) : step (list bytes) unit :=
  if negb (uid =? rt_uid t) then
    step_err (Denied "org.linuxreflect.restore.apply"
      "this restore token was prepared by uid {}, not uid {uid}")
  else
    do* fresh := consume io (rt_nonce t) (rt_expires_at t) now in
    if fresh : bool then step_ret tt
    else step_err (Corrupt "this restore token was already used; prepare the restore again").
End Used.

(** ** Concurrent consumers

    [consume] is not one step of the file system: a listing, a removal per
    stale record and an exclusive creation, with other processes in between. *)
Module Consumers.
Inductive Phase :=
  | Starting
  (** The names of the listing still to look at. *)
  | Pruning (todo : list bytes)
  | Done (fresh : bool)
  | Gone.

Record Consumer := { co_record : bytes; co_now : Z; co_phase : Phase }.

Definition at_phase (c : Consumer) (p : Phase) : Consumer :=
  {| co_record := co_record c; co_now := co_now c; co_phase := p |}.

(** One operation of one consumer on the directory. *)
Inductive advance : list bytes * Consumer -> list bytes * Consumer -> Prop :=
  | adv_list names c listed : co_phase c = Starting ->
      advance (names, c) (names, at_phase c (Pruning listed))
  | adv_keep names c name todo : co_phase c = Pruning (name :: todo) ->
      advance (names, c) (names, at_phase c (Pruning todo))
  | adv_remove names c name todo : co_phase c = Pruning (name :: todo) ->
      Used.expired (co_now c) name = true ->
      advance (names, c) (List.filter (fun n => negb (bool_decide (n = name))) names, at_phase c (Pruning todo))
  | adv_create names c : co_phase c = Pruning [] -> co_record c ∉ names ->
      advance (names, c) (co_record c :: names, at_phase c (Done true))
  | adv_exists names c : co_phase c = Pruning [] -> co_record c ∈ names ->
      advance (names, c) (names, at_phase c (Done false))
  (** Created, but not known to be on disk. *)
  | adv_unsynced names c : co_phase c = Pruning [] -> co_record c ∉ names ->
      advance (names, c) (co_record c :: names, at_phase c Gone)
  | adv_fail names c : (forall fresh, co_phase c <> Done fresh) -> co_phase c <> Gone ->
      advance (names, c) (names, at_phase c Gone).

(** Any of the consumers moves. *)
Inductive step : list bytes * list Consumer -> list bytes * list Consumer -> Prop :=
  | step_one names names' cs i c c' : cs !! i = Some c -> advance (names, c) (names', c') ->
      step (names, cs) (names', <[i := c']> cs).

Definition waiting (record : bytes) (now : Z) : Consumer :=
  {| co_record := record; co_now := now; co_phase := Starting |}.

Definition won (record : bytes) (c : Consumer) : bool :=
  bool_decide (co_record c = record) && match co_phase c with Done true => true | _ => false end.

Definition wins (record : bytes) (cs : list Consumer) : Z := zlen (List.filter (won record) cs).

Definition in_time (record : bytes) (cs : list Consumer) : Prop :=
  Forall (fun c => Used.expired (co_now c) record = false) cs.

(** Whoever won has left a record, and nobody wins twice, nor once where the
    record was there before. *)
Definition exclusive (before : Z) (record : bytes) (s : list bytes * list Consumer) : Prop :=
  in_time record (snd s) /\ wins record (snd s) + before <= (if bool_decide (record ∈ fst s) then 1 else 0).

Lemma wins_insert record cs i c c' : cs !! i = Some c ->
  wins record (<[i := c']> cs) =
  wins record cs - (if won record c then 1 else 0) + (if won record c' then 1 else 0).
Proof.
  unfold wins. revert i. induction cs as [|x cs IH]; intros i Hi; [by rewrite lookup_nil in Hi|].
  destruct i as [|i]; cbn in Hi.
  - injection Hi as ->. cbn. destruct (won record c), (won record c'); rewrite ?zlen_cons; lia.
  - specialize (IH i Hi). change (<[S i:=c']> (x :: cs)) with (x :: <[i:=c']> cs). cbn [List.filter].
    destruct (won record x); rewrite ?zlen_cons, IH; lia.
Qed.

Lemma wins_nonneg record cs : 0 <= wins record cs.
Proof. apply zlen_nonneg. Qed.

Lemma mem_filter_other (record name : bytes) names : name <> record ->
  (record ∈ List.filter (fun n => negb (bool_decide (n = name))) names) <-> record ∈ names.
Proof.
  intros Hn. rewrite !list_elem_of_In, List.filter_In. split; [by intros [? _]|]. intros ?. split; [done|].
  rewrite bool_decide_false; [done|]. congruence.
Qed.

Lemma elem_of_cons_ne (a b : bytes) l : a <> b -> a ∈ b :: l <-> a ∈ l.
Proof. intros Hne. rewrite elem_of_cons. split; [by intros [->|]|by right]. Qed.

Lemma exclusive_advance record names c names' c' : advance (names, c) (names', c') ->
  co_now c' = co_now c /\
  (Used.expired (co_now c) record = false ->
   (if won record c then 1 else 0) <= (if bool_decide (record ∈ names) then 1 else 0) ->
   (if won record c' then 1 else 0) - (if won record c then 1 else 0) <=
   (if bool_decide (record ∈ names') then 1 else 0) - (if bool_decide (record ∈ names) then 1 else 0)).
Proof.
  intros Ha. split; [by inversion Ha|]. unfold won. intros Ht Hw.
  inversion Ha; subst; cbn [co_record co_phase at_phase]; try match goal with Hp : co_phase c = _ |- _ => rewrite Hp end.
  - rewrite !andb_false_r. lia.
  - rewrite !andb_false_r. lia.
  - rewrite !andb_false_r. assert (name <> record) as Hn by (intros ->; congruence).
    rewrite (bool_decide_ext _ _ (mem_filter_other record name names Hn)). lia.
  - rewrite !andb_false_r, andb_true_r. case_bool_decide; subst.
    + rewrite (bool_decide_true (co_record c ∈ co_record c :: names)) by left.
      rewrite (bool_decide_false (co_record c ∈ names)) by done. lia.
    + rewrite (bool_decide_ext (record ∈ co_record c :: names) (record ∈ names)) by (by apply elem_of_cons_ne). lia.
  - rewrite !andb_false_r. lia.
  - rewrite !andb_false_r. destruct (decide (record ∈ names)) as [Hin|Hin].
    + rewrite !bool_decide_true by (done || by right). lia.
    + rewrite (bool_decide_false (record ∈ names)) by done. repeat destruct (bool_decide _); cbn; lia.
  - rewrite andb_false_r. destruct (bool_decide _); cbn; [|lia]. destruct (co_phase c) as [| |[]|]; lia.
Qed.

Lemma wins_at_least record cs i c : cs !! i = Some c -> (if won record c then 1 else 0) <= wins record cs.
Proof.
  intros Hi. pose proof (wins_insert record cs i c (at_phase c Gone) Hi) as Hw.
  pose proof (wins_nonneg record (<[i := at_phase c Gone]> cs)).
  assert (won record (at_phase c Gone) = false) as Hg by (unfold won; by rewrite andb_false_r).
  rewrite Hg in Hw. lia.
Qed.

Lemma wins_two record cs i j c c' : i <> j -> cs !! i = Some c -> cs !! j = Some c' ->
  won record c = true -> won record c' = true -> 2 <= wins record cs.
Proof.
  intros Hij Hi Hj Hc Hc'. pose proof (wins_insert record cs i c (at_phase c Gone) Hi) as Hw.
  assert (won record (at_phase c Gone) = false) as Hg by (unfold won; by rewrite andb_false_r).
  assert (<[i := at_phase c Gone]> cs !! j = Some c') as Hj' by (by rewrite list_lookup_insert_ne).
  pose proof (wins_at_least record _ _ _ Hj') as Hl. rewrite Hc' in Hl. rewrite Hc, Hg in Hw. lia.
Qed.

Lemma exclusive_step before record s s' : 0 <= before -> step s s' -> exclusive before record s -> exclusive before record s'.
Proof.
  intros Hb Hs [Ht Hw]. destruct Hs as [names names' cs i c c' Hi Ha]. cbn [fst snd] in *.
  destruct (exclusive_advance record names c names' c' Ha) as [Hn Hstep].
  pose proof (Forall_lookup_1 _ _ _ _ Ht Hi) as Htc. cbn beta in Htc.
  pose proof (wins_at_least record cs i c Hi). split; cbn [fst snd].
  - apply Forall_insert; [done|]. by rewrite Hn.
  - rewrite (wins_insert record cs i c c' Hi). specialize (Hstep Htc ltac:(lia)). lia.
Qed.

Lemma exclusive_run before record s s' : 0 <= before -> rtc step s s' -> exclusive before record s -> exclusive before record s'.
Proof. intros Hb. induction 1 as [|s1 s2 s3 H12 _ IH]; [done|]. intros He. apply IH. by eapply exclusive_step. Qed.

Lemma wins_starting record cs : Forall (fun c => co_phase c = Starting) cs -> wins record cs = 0.
Proof.
  unfold wins. induction 1 as [|c cs Hc _ IH]; [done|]. cbn [List.filter].
  assert (won record c = false) as -> by (unfold won; by rewrite Hc, andb_false_r). done.
Qed.

(** *** One consumer alone does what [consume] does *)
Lemma alone names c names' c' : advance (names, c) (names', c') -> step (names, [c]) (names', [c']).
Proof. intros Ha. by apply (step_one names names' [c] 0%nat c c'). Qed.

Definition leaves (now : Z) (stays : bytes -> bool) (todo : list bytes) (name : bytes) : bool :=
  negb (bool_decide (name ∈ todo)) || (negb (Used.expired now name) || stays name).

Lemma prunes record now stays todo : forall names,
  rtc step (names, [at_phase (waiting record now) (Pruning todo)])
    (List.filter (leaves now stays todo) names, [at_phase (waiting record now) (Pruning [])]).
Proof.
  induction todo as [|name todo IH]; intros names.
  - rewrite (List.filter_ext _ (fun _ => true)) by (intros a; unfold leaves; by rewrite bool_decide_false by apply not_elem_of_nil).
    assert (List.filter (fun _ : bytes => true) names = names) as -> by (induction names; cbn; congruence). done.
  - destruct (negb (Used.expired now name) || stays name) eqn:E.
    + eapply rtc_l; [apply alone; by eapply adv_keep|]. cbn.
      rewrite (List.filter_ext _ (leaves now stays todo)); [apply IH|].
      intros a. unfold leaves. destruct (decide (a = name)) as [->|Hne].
      * by rewrite E, !orb_true_r.
      * rewrite (bool_decide_ext (a ∈ name :: todo) (a ∈ todo)); [done|]. by apply elem_of_cons_ne.
    + apply orb_false_iff in E as [Ee Es]. apply negb_false_iff in Ee.
      eapply rtc_l; [apply alone; by eapply adv_remove|]. cbn.
      assert (List.filter (leaves now stays (name :: todo)) names =
        List.filter (leaves now stays todo) (List.filter (fun n => negb (bool_decide (n = name))) names)) as ->; [|apply IH].
      induction names as [|a names IHn]; [done|]. cbn [List.filter]. rewrite IHn. unfold leaves.
      destruct (decide (a = name)) as [->|Hne].
      * rewrite (bool_decide_true (name ∈ name :: todo)) by left. rewrite Ee, Es, (bool_decide_true (name = name)) by done. done.
      * rewrite (bool_decide_ext (a ∈ name :: todo) (a ∈ todo)) by (by apply elem_of_cons_ne).
        rewrite (bool_decide_false (a = name)) by done. cbn [negb List.filter]. done.
Qed.

Lemma consume_runs io nonce expires_at now names names' fresh :
  Used.consume io nonce expires_at now names = (names', Ok fresh) ->
  let c := waiting (Used.record_name expires_at nonce) now in
  rtc step (names, [c]) (names', [at_phase c (Done fresh)]).
Proof.
  intros Hc. set (c := waiting _ _). cbv zeta. unfold Used.consume in Hc. destruct (negb (Used.nonce_ok nonce)); [done|].
  destruct (ri_directory io;;; ri_read_dir io) as [u|e]; [|done].
  destruct (ri_create io) as [u'|e]; [|done].
  eapply rtc_l; [apply alone; by apply (adv_list names c names)|].
  etransitivity; [apply (prunes _ now (ri_stays io))|].
  rewrite (List.filter_ext_in _ (fun name => negb (Used.expired now name) || ri_stays io name)); cycle 1.
  { intros a Hin%list_elem_of_In. unfold leaves. by rewrite bool_decide_true. }
  case_bool_decide as Hin.
  - injection Hc as <- <-. eapply rtc_l; [apply alone; by apply adv_exists|]. done.
  - destruct (ri_sync io); [|done]. injection Hc as <- <-. eapply rtc_l; [apply alone; by apply adv_create|]; done.
Qed.
End Consumers.

(** ** Lemmas *)
Module TokenLemmas.
Import Tokens.

(** An ASCII character that is no white space and no part of a longer one. *)
Definition visible (b : byte) : bool := in_range 0x21 0x7e b.

Lemma visible_ws1 b : visible b = true -> Text.ws1 b = false.
Proof. unfold visible, Text.ws1, in_range. lia. Qed.
Lemma visible_ws2 b c : visible b = true \/ visible c = true -> Text.ws2 b c = false.
Proof. unfold visible, Text.ws2, in_range. lia. Qed.
Lemma visible_ws3 b c d : visible b = true \/ visible d = true -> Text.ws3 b c d = false.
Proof. unfold visible, Text.ws3, in_range. lia. Qed.

Lemma trim_start_visible b s : visible b = true -> Text.trim_start (b :: s) = b :: s.
Proof.
  intros Hb. cbn [Text.trim_start]. rewrite visible_ws1 by done. destruct s as [|c s]; [done|].
  rewrite visible_ws2 by auto. destruct s as [|d s]; [done|]. by rewrite visible_ws3 by auto.
Qed.

Lemma trim_rev_visible b s : visible b = true -> Text.trim_rev (b :: s) = b :: s.
Proof.
  intros Hb. cbn [Text.trim_rev]. rewrite visible_ws1 by done. destruct s as [|c s]; [done|].
  rewrite visible_ws2 by auto. destruct s as [|d s]; [done|]. by rewrite visible_ws3 by auto.
Qed.

Lemma trim_visible a s b : visible a = true -> visible b = true -> Text.trim (a :: s ++ [b]) = a :: s ++ [b].
Proof.
  intros Ha Hb. unfold Text.trim, Text.trim_end. rewrite trim_start_visible by done.
  assert (rev (a :: s ++ [b]) = b :: rev (a :: s)) as -> by (by rewrite app_comm_cons, rev_unit).
  rewrite trim_rev_visible by done. cbn [rev]. rewrite rev_app_distr, rev_involutive. done.
Qed.

Section lemmas.
Context `{PrimitiveLaws} `{HexLaws} `{TokenJsonLaws}.

Lemma decode_encode t j : token_to_json t = Some j -> decode (encode t) = Ok t.
Proof.
  intros Hj. unfold encode. rewrite Hj. destruct (token_json_object t j Hj) as [body Hbody].
  unfold decode. assert (Text.trim (TOKEN_PREFIX ++ [Byte.x3a] ++ j) = TOKEN_PREFIX ++ [Byte.x3a] ++ j) as ->.
  { rewrite Hbody. apply (trim_visible Byte.x6c (Text.str "rt1:" ++ [Byte.x7b] ++ body) Byte.x7d); reflexivity. }
  rewrite TextLemmas.strip_prefix_app, TextLemmas.strip_prefix_app. by rewrite (token_from_to t j Hj).
Qed.

Lemma decode_own t t' : decode (encode t) = Ok t' -> t' = t.
Proof.
  destruct (token_to_json t) as [j|] eqn:Ej; [rewrite (decode_encode t j Ej); by intros [= <-]|].
  unfold encode. rewrite Ej, app_nil_r. unfold decode.
  assert (Text.strip_prefix TOKEN_PREFIX (Text.trim (TOKEN_PREFIX ++ [Byte.x3a])) = Some [Byte.x3a]) as -> by (vm_compute; reflexivity).
  assert (Text.strip_prefix [Byte.x3a] [Byte.x3a] = Some []) as -> by reflexivity. by rewrite token_json_empty.
Qed.

Lemma set_mac_own t : set_mac t (rt_mac t) = t.
Proof. by destruct t. Qed.

Lemma payload_set_mac t mac : payload (set_mac t mac) = payload t.
Proof. done. Qed.

Lemma seal_Ok secret t sealed : seal secret t = Ok sealed ->
  exists p mac, sealed = set_mac t mac /\ payload sealed = Ok p /\ hex_decode mac = Some (Mac.mac32 secret p).
Proof.
  unfold seal. intros Hs. apply bind_Ok in Hs as (p & Hp & [= <-]).
  eexists _, _. split; [done|]. rewrite payload_set_mac. split; [exact Hp|]. apply hex_decode_encode.
Qed.

Definition sealed (secret : bytes) (t : RestoreToken) : Prop :=
  exists p, payload t = Ok p /\ hex_decode (rt_mac t) = Some (Mac.mac32 secret p).

Lemma seal_sealed secret t t' : seal secret t = Ok t' -> sealed secret t'.
Proof. intros (p & mac & -> & Hp & Hm)%seal_Ok. by exists p. Qed.

Lemma verify_sealed secret now t : sealed secret t -> verify secret now t =
  if token_expired (rt_expires_at t) now then Err (Corrupt "restore token expired at {}") else Ok tt.
Proof.
  intros (p & Hp & Hm). unfold verify. rewrite Hm, Mac.zlen_mac32, Hp. cbn [Z.eqb negb bind Pos.eqb].
  by rewrite Mac.verify_own_mac.
Qed.

Lemma verify_Ok secret now t u : verify secret now t = Ok u -> sealed secret t /\ now <= rt_expires_at t.
Proof.
  unfold verify. destruct (hex_decode (rt_mac t)) as [expected|] eqn:Eh; [|done].
  destruct (negb _); [done|]. intros (p & Hp & Hv)%bind_Ok.
  destruct (negb (Mac.verify_mac32 _ _ _)) eqn:Em; [done|]. destruct (token_expired _ _) eqn:Ee; [done|].
  apply negb_false_iff in Em. unfold Mac.verify_mac32 in Em. apply bool_decide_eq_true in Em. subst expected.
  split; [by exists p|]. unfold token_expired in Ee. lia.
Qed.

(** Two accepted tokens with one MAC are one token, or two payloads have the
    same keyed hash. *)
Lemma sealed_binds secret t t' : sealed secret t -> sealed secret t' -> rt_mac t = rt_mac t' ->
  t = t' \/ exists p p', payload t = Ok p /\ payload t' = Ok p' /\ p <> p' /\ Mac.mac32 secret p = Mac.mac32 secret p'.
Proof.
  intros (p & Hp & Hm) (p' & Hp' & Hm') Heq. rewrite Heq, Hm' in Hm. injection Hm as Hm.
  destruct (decide (p = p')) as [<-|Hne]; [left|right; by exists p, p'].
  unfold payload in Hp, Hp'. destruct (token_to_json (set_mac t [])) as [j|] eqn:E; [|done]. injection Hp as <-.
  destruct (token_to_json (set_mac t' [])) as [j'|] eqn:E'; [|done]. injection Hp' as ->.
  apply token_from_to in E. apply token_from_to in E'. rewrite E in E'.
  apply (inj Some) in E'. rewrite <- (set_mac_own t), <- (set_mac_own t'), Heq. exact (f_equal (fun x => set_mac x (rt_mac t')) E').
Qed.
End lemmas.

(** *** The names of records *)
Lemma hexdigit_not_dash c : is_ascii_hexdigit c = true -> b2z c <= 127.
Proof. unfold is_ascii_hexdigit, in_range. lia. Qed.

Lemma expiry_record e nonce : 0 <= e <= U64_MAX -> Used.nonce_ok nonce = true ->
  Used.expiry (Used.record_name e nonce) = Some e.
Proof.
  intros He Hn. unfold Used.expiry, Used.record_name. pose proof (TextLemmas.to_decimal_digits e ltac:(lia)) as Hd.
  rewrite utf8_ascii.
  - cbn [app]. rewrite TextLemmas.split_once_app; [by apply TextLemmas.parse_to_decimal|]. by apply TextLemmas.digits_not_in.
  - unfold ascii_bytes. rewrite !forallb_app. apply andb_true_iff. split.
    + apply forallb_forall. intros c Hc. apply list_elem_of_In in Hc. rewrite Forall_forall in Hd. specialize (Hd c Hc).
      cbn beta in Hd. unfold Text.is_ascii_digit, in_range in Hd. lia.
    + cbn. unfold Used.nonce_ok in Hn. destruct nonce as [|c l]; [done|]. apply forallb_forall. intros x Hx.
      rewrite forallb_forall in Hn. specialize (Hn x Hx). apply hexdigit_not_dash in Hn. lia.
Qed.

Lemma expired_record e nonce now : 0 <= e <= U64_MAX -> Used.nonce_ok nonce = true ->
  Used.expired now (Used.record_name e nonce) = (e <? now).
Proof. intros He Hn. unfold Used.expired. by rewrite expiry_record. Qed.
End TokenLemmas.

(** ** Properties *)

(** C30: The token of [prepare] says what was prepared and comes back unchanged
    from its text; it is accepted up to its expiry and not after; and whoever
    presents another token under its MAC and has it accepted has found two
    payloads with the same keyed hash. *)
Theorem issued_token_accepted `{PrimitiveLaws} `{HexLaws} `{TokenJsonLaws} secret random now image path uuid target
    directory merge ttl uid members strict t0 t1 t j :
  0 <= now -> 0 <= ttl -> now + ttl < 2 ^ 64 ->
  Tokens.issue secret random now image path uuid target directory merge ttl uid = Ok t0 ->
  Tokens.with_chain_members secret t0 members = Ok t1 ->
  Tokens.with_strict_metadata secret t1 strict = Ok t ->
  token_to_json t = Some j ->
  Tokens.decode (Tokens.encode t) = Ok t /\
  (rt_image_uuid t = uuid /\ rt_target_path t = path /\ rt_target t = target /\ rt_target_directory t = directory /\
   rt_chain t = ti_chain image /\ rt_chain_members t = members /\ rt_merge t = merge /\ rt_strict_metadata t = strict /\
   rt_uid t = uid /\ rt_expires_at t = now + ttl) /\
  (forall later, Tokens.verify secret later t =
    if later <=? now + ttl then Ok tt else Err (Corrupt "restore token expired at {}")) /\
  (forall t' later, Tokens.verify secret later t' = Ok tt -> rt_mac t' = rt_mac t ->
    t' = t \/ exists p p', Tokens.payload t' = Ok p /\ Tokens.payload t = Ok p' /\ p <> p' /\
      Mac.mac32 secret p = Mac.mac32 secret p').
Proof.
  intros Hn Ht Hlt Hi Hc Hs Hj. pose proof (TokenLemmas.seal_sealed _ _ _ Hs) as Hsealed.
  apply TokenLemmas.seal_Ok in Hi as (p0 & m0 & -> & _). apply TokenLemmas.seal_Ok in Hc as (p1 & m1 & -> & _).
  apply TokenLemmas.seal_Ok in Hs as (p & m & -> & _).
  assert (wrap64 (now + ttl) = now + ttl) as Hw by (apply Z.mod_small; lia).
  split; [by eapply TokenLemmas.decode_encode|]. split; [by split_and!|]. split.
  - intros later. rewrite TokenLemmas.verify_sealed by done. unfold Tokens.token_expired. cbn [Tokens.set_mac rt_expires_at].
    rewrite Hw. destruct (Z.ltb_spec (now + ttl) later), (Z.leb_spec later (now + ttl)); (done || lia).
  - intros t' later [Hs' _]%TokenLemmas.verify_Ok Hmac. by apply (TokenLemmas.sealed_binds secret).
Qed.

(** The file system in working order. *)
Definition working : RecordIo :=
  {| ri_directory := Ok tt; ri_read_dir := Ok tt; ri_stays := fun _ => false; ri_create := Ok tt; ri_sync := Ok tt |}.

(** C6: However many processes redeem tokens at the same time, their file
    operations interleaved in any way, a token is redeemed at most once, and
    not at all when its record was there, as long as no clock is past its
    expiry. A redemption is such a sequence of operations. Past the expiry
    nothing is left of this: the token is redeemed every time. *)
Theorem redeem_once t : 0 <= rt_expires_at t <= U64_MAX -> Used.nonce_ok (rt_nonce t) = true ->
  let record := Used.record_name (rt_expires_at t) (rt_nonce t) in
  (forall names0 cs0 names cs,
    Forall (fun c => Consumers.co_phase c = Consumers.Starting /\ Consumers.co_now c <= rt_expires_at t) cs0 ->
    rtc Consumers.step (names0, cs0) (names, cs) ->
    (forall i j c c', cs !! i = Some c -> cs !! j = Some c' ->
      Consumers.won record c = true -> Consumers.won record c' = true -> i = j) /\
    (record ∈ names0 -> forall i c, cs !! i = Some c -> Consumers.won record c = false)) /\
  (forall io now uid names names', Used.redeem io now uid t names = (names', Ok tt) ->
    uid = rt_uid t /\ exists c, Consumers.won record c = true /\
    rtc Consumers.step (names, [Consumers.waiting record now]) (names', [c])) /\
  (forall now names, rt_expires_at t < now -> snd (Used.redeem working now (rt_uid t) t names) = Ok tt).
Proof.
  intros He Hn record. split; [|split].
  - intros names0 cs0 names cs Hcs Hrun.
    assert (forall before, before <= (if bool_decide (record ∈ names0) then 1 else 0) ->
      Consumers.exclusive before record (names0, cs0)) as H0.
    { intros before Hb. split; cbn [fst snd].
      - eapply Forall_impl; [exact Hcs|]. intros c [_ Hc]. cbn beta in *. unfold record. rewrite TokenLemmas.expired_record by done. lia.
      - rewrite Consumers.wins_starting by (eapply Forall_impl; [exact Hcs|]; by intros c [? _]). lia. }
    split.
    + intros i j c c' Hi Hj Hc Hc'. destruct (decide (i = j)) as [|Hij]; [done|].
      pose proof (Consumers.wins_two record cs i j c c' Hij Hi Hj Hc Hc').
      destruct (Consumers.exclusive_run 0 record _ _ ltac:(lia) Hrun) as [_ Hw]; [apply H0; by destruct (bool_decide _)|].
      cbn [fst snd] in Hw. destruct (bool_decide (record ∈ names)); lia.
    + intros Hin i c Hi. destruct (Consumers.won record c) eqn:Hc; [|done].
      pose proof (Consumers.wins_at_least record cs i c Hi) as Hl. rewrite Hc in Hl.
      destruct (Consumers.exclusive_run 1 record _ _ ltac:(lia) Hrun) as [_ Hw]; [apply H0; by rewrite bool_decide_true|].
      cbn [fst snd] in Hw. destruct (bool_decide (record ∈ names)); lia.
  - intros io now uid names names' Hr. unfold Used.redeem in Hr. destruct (negb (uid =? rt_uid t)) eqn:Eu; [done|].
    bprop. split; [lia|]. unfold step_bind in Hr. destruct (Used.consume _ _ _ _ _) as [n [fresh|e]] eqn:Ec; [|done].
    destruct fresh; [|done]. injection Hr as ->. apply Consumers.consume_runs in Ec. cbv zeta in Ec. fold record in Ec.
    eexists. split; [|exact Ec]. unfold Consumers.won. cbn. by rewrite bool_decide_true.
  - intros now names Hlate. unfold Used.redeem. rewrite Z.eqb_refl. cbn [negb]. unfold step_bind, Used.consume.
    rewrite Hn. cbn [negb working ri_directory ri_read_dir ri_create ri_stays bind].
    fold record. rewrite bool_decide_false; [done|]. intros [_ Hx]%list_elem_of_In%List.filter_In.
    unfold record in Hx. rewrite TokenLemmas.expired_record in Hx by done. cbn [ri_stays] in Hx. lia.
Qed.
