(* ===== verification/Targets.v ===== *)
(** * Target safety checks ([crates/lr-engine/src/target.rs], [crates/lr-snapshot/src/offline.rs])

    Before anything is written, the target and everything on it must be free:
    not mounted, no swap, not held, no LVM physical volume, not what the system
    runs from; and an image goes where its kind belongs. *)

From S2P Require Import Prelude Text Extents Superblock Tree Sysfs Discovery Tokens.

(** What else the machine answers: [/proc/swaps], the output of a [pvs] that
    succeeded, and how an exclusive read-only open goes. *)
Record TargetHost := {
  th_probes : Probes;
  th_swaps : result bytes;
  th_pvs : option bytes;
  th_exclusive : bytes -> option (option error);
}.

Definition th_host (t : TargetHost) : Host := pr_host (th_probes t).

(** ** The offline provider *)
Module Offline.
Definition layout_busy_reason (src : SourceLayout) : option string :=
  match sl_mountpoints src with
  | _ :: _ => Some "{} is mounted at {}"%string
  | [] =>
    match sl_holders src with
    | _ :: _ => Some "{} is held by {holder}"%string
    | [] =>
      match List.find (fun p => match pl_mountpoints p, pl_holders p with [], [] => false | _, _ => true end)
              (sl_partitions src) with
      | Some p => Some (match pl_mountpoints p with
                        | _ :: _ => "partition {} is mounted at {}"
                        | [] => "partition {} is held by {holder}" end)%string
      | None =>
        match sl_fs src with
        | Some facts =>
          if Text.starts_with (Text.str "LVM2_member") (fs_type facts) then Some "{} is an LVM physical volume"%string
          else None
        | None => None
        end
      end
    end
  end.

Definition first_word (line : bytes) : option bytes := head (Text.split_whitespace line).
Definition parse_swaps (text : bytes) : list bytes := omap first_word (tail (Text.lines text)).
Definition read_swaps (t : TargetHost) : result (list bytes) := let* text := th_swaps t in Ok (parse_swaps text).

Definition is_active_pv (t : TargetHost) (device : bytes) : bool :=
  match th_pvs t with
  | None => false
  | Some stdout =>
    existsb (fun line => bool_decide (Text.trim line = Text.trim (Text.utf8_lossy device)))
      (Text.lines (Text.utf8_lossy stdout))
  end.

Definition busy {A} (holder : string) : result A := Err (TargetBusy holder).

(** The checks of one child of the device. *)
Definition check_child (t : TargetHost) (swaps : list bytes) (child : SysfsBlockDevice) : result unit :=
  match sd_holders child with
  | _ :: _ => busy "{} is held by {}"
  | [] =>
    if existsb (fun swap => Paths.eqb swap (sd_path child)) swaps then busy "{} is in use as swap"
    else match Sysfs.unwrap_or [] (Sysfs.read_mountpoints (th_host t) (sd_path child)) with
         | _ :: _ => busy "{} is mounted at {}"
         | [] => Ok tt
         end
  end.

Definition is_child (name : bytes) (d : SysfsBlockDevice) : bool := bool_decide (sd_parent d = Some name).

Definition preflight (t : TargetHost) (device : bytes) (src : SourceLayout) : result unit :=
  let h := th_host t in
  let* metadata := ho_metadata h device in
  if md_is_dir metadata then Err (Io OtherIo)
  else
    match layout_busy_reason src with
    | Some reason => busy reason
    | None =>
      let* name := Sysfs.device_name device in
      let swaps := Sysfs.unwrap_or [] (read_swaps t) in
      if existsb (fun swap => Paths.eqb swap device) swaps then busy "{} is in use as swap"
      else
        match Sysfs.read_holders h name with
        | _ :: _ => busy "{} is held by {holder}"
        | [] =>
          (match Sysfs.list_all_block_devices h with
           | Ok devices => Trees.forM (check_child t swaps) (List.filter (is_child name) devices)
           | Err _ => Ok tt
           end);;;
          if is_active_pv t device then busy "{} is an active LVM physical volume" else Ok tt
        end
    end.
End Offline.

Module Target.
Definition BOOT_MOUNTPOINTS : list bytes := [Text.str "/"; Text.str "/boot"; Text.str "/boot/efi"].

(** [DirectoryFacts::read]: the canonical path with its [st_dev] and [st_ino]. *)
Definition directory_facts (h : Host) (inode : bytes -> Z * Z) (path : bytes) : result DirectoryFacts :=
  let* canonical := ho_canonicalize h path in
  let* metadata := ho_metadata h canonical in
  if negb (md_is_dir metadata) then Err (Unsupported "{} is not a directory; file-mode restores need one")
  else Ok {| df_dev_id := fst (inode canonical); df_ino := snd (inode canonical); df_path := canonical |}.

(** glibc's encoding of major and minor numbers. *)
Definition NOT_FFF : Z := 2 ^ 64 - 1 - 0xfff.
Definition NOT_FF : Z := 2 ^ 64 - 1 - 0xff.
Definition split_dev (dev : Z) : Z * Z :=
  let major := Z.lor (Z.land (Z.shiftr dev 8) 0xfff) (Z.land (Z.shiftr dev 32) NOT_FFF) in
  let minor := Z.lor (Z.land dev 0xff) (Z.land (Z.shiftr dev 12) NOT_FF) in
  (major mod 2 ^ 32, minor mod 2 ^ 32).

Definition parse_dev_id (text : bytes) : option (Z * Z) :=
  match Text.split_once Byte.x3a text with
  | Some (major, minor) =>
    match Text.parse_unsigned U32_MAX (Text.trim major), Text.parse_unsigned U32_MAX (Text.trim minor) with
    | Some a, Some b => Some (a, b)
    | _, _ => None
    end
  | None => None
  end.

Definition backs (target : Z * Z) (mount : MountEntry) : bool :=
  bool_decide (Text.utf8_lossy (me_mountpoint mount) ∈ BOOT_MOUNTPOINTS) &&
  bool_decide (parse_dev_id (me_dev_id mount) = Some target).

Definition refuse_if_running_root (h : Host) (device : bytes) : result unit :=
  let* metadata := ho_metadata h device in
  let target := md_rdev metadata in
  if target =? 0 then Ok tt
  else
    let* mounts := Sysfs.read_mounts h in
    if existsb (backs (split_dev target)) mounts then
      Err (TargetBusy "{} backs the running system's {} mount")
    else Ok tt.

Definition preflight_target (t : TargetHost) (device : bytes) : result unit :=
  let* layout := Discover.discover_source (th_probes t) device in
  Offline.preflight t device layout;;;
  refuse_if_running_root (th_host t) device.

(** An exclusive open that says the device is busy gives [None]. *)
Definition probe_exclusive (t : TargetHost) (device : bytes) : result unit :=
  match th_exclusive t device with
  | Some None => Ok tt
  | Some (Some e) => Err e
  | None => Err (TargetBusy "{} is in use: it is mounted (possibly in another mount namespace), held by another device, or claimed by another program")
  end.

Definition check_kinds (p : Probes) (target : bytes) (superblock : Superblock) (replace_partition_table : bool) :
    result (list string) :=
  let* layout := Discover.discover_source p target in
  let facts := sl_device_facts layout in
  if Sb.is_whole_disk superblock then
    if bool_decide (dv_dev_type facts = Partition) then
      Err (Unsupported "{} is a partition, but this is a whole-disk image with its own partition table; restore it to a whole disk")
    else if negb (bool_decide (dv_dev_type facts = RegularFile)) &&
            negb (dv_logical_block_size facts =? logical_block_size superblock) then
      Err (Unsupported "{} uses {target_lbs}-byte logical blocks, but this whole-disk image comes from a disk with {}-byte blocks, and its partition table cannot describe the target; restore it to a disk with {}-byte blocks or to an image file")
    else Ok []
  else if negb (Layouts.is_whole_disk layout) then Ok []
  else
    let summary := "{} is a whole disk with a partition table; restoring this single-filesystem image onto it replaces the partition table and removes every partition: {}"%string in
    if negb replace_partition_table then
      Err (Unsupported "{summary}. Choose one of its partitions as the target, or confirm replacing the whole disk")
    else Ok [summary].
End Target.

(** ** Lemmas *)
Module TargetLemmas.

(** *** Device numbers *)

(** glibc's [makedev]. *)
Definition makedev (major minor : Z) : Z :=
  Z.lor (Z.lor (Z.shiftl (Z.land major 0xfff) 8) (Z.shiftl (Z.land major (Z.lnot 0xfff)) 32))
    (Z.lor (Z.land minor 0xff) (Z.shiftl (Z.land minor (Z.lnot 0xff)) 12)).

Lemma testbit_ones n i : 0 <= n -> 0 <= i -> Z.testbit (2 ^ n - 1) i = (i <? n).
Proof.
  intros Hn Hi. replace (2 ^ n - 1) with (Z.ones n) by (rewrite Z.ones_equiv; lia).
  destruct (Z.ltb_spec i n); [by apply Z.ones_spec_low|by apply Z.ones_spec_high].
Qed.

Lemma testbit_high n i : 0 <= n < 64 -> 0 <= i -> Z.testbit (2 ^ 64 - 1 - (2 ^ n - 1)) i = (n <=? i) && (i <? 64).
Proof.
  intros Hn Hi. replace (2 ^ 64 - 1 - (2 ^ n - 1)) with (Z.ldiff (2 ^ 64 - 1) (2 ^ n - 1)).
  - rewrite Z.ldiff_spec, !testbit_ones by lia. destruct (Z.leb_spec n i), (Z.ltb_spec i n), (i <? 64); (done || lia).
  - rewrite <- Z.sub_nocarry_ldiff; [done|]. apply Z.bits_inj'. intros j Hj.
    rewrite Z.ldiff_spec, Z.bits_0, !testbit_ones by lia. destruct (Z.ltb_spec j n), (Z.ltb_spec j 64); (done || lia).
Qed.

Lemma high_bits z n i : 0 <= z < 2 ^ n -> n <= i -> Z.testbit z i = false.
Proof. intros Hz Hi. destruct (Z.eq_dec z 0) as [->|]; [apply Z.bits_0|]. apply Z.bits_above_log2; [lia|]. enough (Z.log2 z < n) by lia. by apply Z.log2_lt_pow2; lia. Qed.

Lemma testbit_lnot_ones n i : 0 <= n -> 0 <= i -> Z.testbit (Z.lnot (2 ^ n - 1)) i = negb (i <? n).
Proof. intros. by rewrite Z.lnot_spec, testbit_ones by lia. Qed.

Lemma makedev_bit major minor j : 0 <= j ->
  Z.testbit (makedev major minor) j =
  (Z.testbit major (j - 8) && ((8 <=? j) && (j <? 20))) || (Z.testbit major (j - 32) && (44 <=? j)) ||
  (Z.testbit minor j && (j <? 8)) || (Z.testbit minor (j - 12) && (20 <=? j)).
Proof.
  intros Hj. unfold makedev. change 0xfff with (2 ^ 12 - 1). change 0xff with (2 ^ 8 - 1).
  rewrite !Z.lor_spec, !Z.shiftl_spec, !Z.land_spec, (testbit_ones 8), orb_assoc by lia.
  f_equal; [f_equal; f_equal|].
  - destruct (Z.leb_spec 8 j) as [H|H]; [|by rewrite Z.testbit_neg_r, andb_false_r by lia].
    rewrite testbit_ones by lia. f_equal. lia.
  - destruct (Z.leb_spec 32 j) as [H|H]; [rewrite testbit_lnot_ones by lia; f_equal; lia|].
    by rewrite Z.testbit_neg_r by lia.
  - destruct (Z.leb_spec 12 j) as [H|H]; [rewrite testbit_lnot_ones by lia; f_equal; lia|].
    by rewrite Z.testbit_neg_r by lia.
Qed.

Lemma testbit_mod32 z i : 0 <= i -> Z.testbit (z mod 2 ^ 32) i = Z.testbit z i && (i <? 32).
Proof.
  intros Hi. rewrite <- (Z.land_ones z 32), Z.land_spec, Z.ones_equiv by lia. f_equal. apply (testbit_ones 32); lia.
Qed.

Lemma split_makedev major minor : 0 <= major < 2 ^ 32 -> 0 <= minor < 2 ^ 32 ->
  Target.split_dev (makedev major minor) = (major, minor).
Proof.
  intros Ha Hi. unfold Target.split_dev, Target.NOT_FFF, Target.NOT_FF.
  change 0xfff with (2 ^ 12 - 1). change 0xff with (2 ^ 8 - 1).
  f_equal; apply Z.bits_inj'; intros i Hn; rewrite testbit_mod32 by lia; rewrite Z.lor_spec, !Z.land_spec, !Z.shiftr_spec by lia;
    rewrite testbit_ones, testbit_high, !makedev_bit by lia; (destruct (Z.lt_ge_cases i 32) as [H32|H32];
    [|rewrite (high_bits _ 32 i) by lia; by rewrite (proj2 (Z.ltb_ge i 32)), andb_false_r by lia]).
  - destruct (Z.lt_ge_cases i 12) as [H|H].
    + replace (i + 8 - 8) with i by lia. replace ((8 <=? i + 8) && (i + 8 <? 20)) with true by lia.
      replace (44 <=? i + 8) with false by lia. replace (i + 8 <? 8) with false by lia.
      replace (20 <=? i + 8) with false by lia. replace (i <? 12) with true by lia. replace (12 <=? i) with false by lia.
      replace (i <? 32) with true by lia. cbn [andb]. rewrite !andb_true_r, !andb_false_r, !orb_false_r. done.
    + rewrite (high_bits major 32 (i + 32 - 8)) by lia. replace (i + 32 - 32) with i by lia.
      replace (44 <=? i + 32) with true by lia. replace (i + 32 <? 8) with false by lia.
      rewrite (high_bits minor 32 (i + 32 - 12)) by lia. replace (i <? 12) with false by lia.
      replace ((12 <=? i) && (i <? 64)) with true by lia. replace (i <? 32) with true by lia. cbn [andb orb].
      rewrite !andb_true_r, !andb_false_r, !orb_false_r. done.
  - destruct (Z.lt_ge_cases i 8) as [H|H].
    + replace ((8 <=? i) && (i <? 20)) with false by lia. replace (44 <=? i) with false by lia.
      replace (i <? 8) with true by lia. replace (20 <=? i) with false by lia. replace (8 <=? i) with false by lia.
      replace (i <? 32) with true by lia. cbn [andb]. rewrite !andb_true_r, !andb_false_r, !orb_false_r. done.
    + replace ((8 <=? i + 12) && (i + 12 <? 20)) with false by lia.
      assert (Z.testbit major (i + 12 - 32) && (44 <=? i + 12) = false) as ->.
      { destruct (Z.leb_spec 44 (i + 12)); [lia|apply andb_false_r]. }
      replace (i + 12 <? 8) with false by lia. replace (20 <=? i + 12) with true by lia. replace (i + 12 - 12) with i by lia.
      replace (i <? 8) with false by lia. replace ((8 <=? i) && (i <? 64)) with true by lia.
      replace (i <? 32) with true by lia. rewrite !andb_true_r, !andb_false_r. done.
Qed.

Lemma parse_u32_range s v : Text.parse_unsigned U32_MAX s = Some v -> v <= U32_MAX.
Proof.
  unfold Text.parse_unsigned. destruct (match s with [] => [] | c :: rest => _ end); [done|].
  destruct (Text.digits_val _ _) as [w|]; [|done]. destruct (Z.leb_spec w U32_MAX); [|done]. by intros [= <-].
Qed.

Lemma parse_u32_nonneg s v : Text.parse_unsigned U32_MAX s = Some v -> 0 <= v.
Proof.
  unfold Text.parse_unsigned. destruct (match s with [] => [] | c :: rest => _ end) as [|c l]; [done|].
  destruct (Text.digits_val _ _) as [w|] eqn:E; [|done]. destruct (_ <=? _); [|done]. intros [= <-].
  eapply TextLemmas.digits_val_nonneg; [|exact E]. lia.
Qed.

Lemma parse_dev_range text major minor : Target.parse_dev_id text = Some (major, minor) ->
  0 <= major < 2 ^ 32 /\ 0 <= minor < 2 ^ 32.
Proof.
  unfold Target.parse_dev_id. destruct (Text.split_once _ _) as [[a b]|]; [|done].
  destruct (Text.parse_unsigned _ (Text.trim a)) as [x|] eqn:Ea; [|done].
  destruct (Text.parse_unsigned _ (Text.trim b)) as [y|] eqn:Eb; [|done]. intros [= <- <-].
  pose proof (parse_u32_range _ _ Ea). pose proof (parse_u32_range _ _ Eb).
  pose proof (parse_u32_nonneg _ _ Ea). pose proof (parse_u32_nonneg _ _ Eb). unfold U32_MAX in *. lia.
Qed.

(** *** What discovery keeps *)
Lemma probe_partition_keeps p device facts q w q' w' : Discover.probe_partition p device facts q w = (q', w') ->
  pl_mountpoints q' = [] -> pl_holders q' = [] -> pl_mountpoints q = [] /\ pl_holders q = [].
Proof.
  unfold Discover.probe_partition. destruct (Discover.partition_fs_probe p device facts q) as [[f|]|e];
    cbn [pl_mountpoints pl_path Discover.with_fs]; destruct (pl_mountpoints q) eqn:Em, (pl_path q); try destruct (Sysfs.exists_ _ _);
    intros [= <- <-]; cbn; intros; (split; [congruence|done]).
Qed.

Lemma probe_partitions_keeps p device facts qs : forall w qs' w',
  Discover.probe_partitions p device facts qs w = (qs', w') ->
  Forall (fun q => pl_mountpoints q = [] /\ pl_holders q = []) qs' ->
  Forall (fun q => pl_mountpoints q = [] /\ pl_holders q = []) qs.
Proof.
  induction qs as [|q qs IH]; intros w qs' w'; cbn [Discover.probe_partitions]; [done|].
  destruct (Discover.probe_partition _ _ _ _ _) as [q1 w1] eqn:E1. destruct (Discover.probe_partitions _ _ _ _ _) as [qs1 w2] eqn:E2.
  intros [= <- <-] [[Hm Hh] Hqs]%Forall_cons. apply Forall_cons. split; [|by eapply IH].
  by eapply probe_partition_keeps.
Qed.

Lemma discovered p device layout : Discover.discover_source p device = Ok layout ->
  Forall (fun q => pl_mountpoints q = [] /\ pl_holders q = []) (sl_partitions layout) ->
  dv_dev_type (sl_device_facts layout) <> RegularFile ->
  forall index s, ZMap.get index (Discover.sysfs_partition_index (pr_host p) (dv_name (sl_device_facts layout))) = Some s ->
  sp_mountpoints s = [] /\ sp_holders s = [].
Proof.
  unfold Discover.discover_source. intros ([facts w] & _ & Hd)%bind_Ok.
  destruct (Discover.read_table _ _ _ _ _) as [[[table parts] w1] sys'] eqn:Et.
  destruct (Discover.probe_partitions _ _ _ _ _) as [parts' w2] eqn:Ep.
  destruct (match Discover.blkid_probe p device with inl _ => _ | inr _ => _ end) as [fs w3].
  destruct (match fs with Some _ => _ | None => _ end) as [btrfs w4]. injection Hd as <-. cbn [sl_partitions sl_device_facts].
  intros Hfree Hreg index s Hs. rewrite sort_by_key_perm in Hfree.
  pose proof (probe_partitions_keeps _ _ _ _ _ _ _ Ep Hfree) as Hpre. rewrite bool_decide_false in Et by done.
  destruct (DiscoveryLemmas.table_complete _ _ _ _ _ _ _ _ _ _ _ Hs Et) as (q & Hq & _ & Hh & _ & Hm).
  rewrite Forall_forall in Hpre. destruct (Hpre q Hq) as [Hm' Hh']. split; [|congruence].
  destruct (decide (sp_mountpoints s = [])) as [|Hne]; [done|]. by rewrite <- Hm.
Qed.

Lemma not_busy src : Offline.layout_busy_reason src = None ->
  sl_mountpoints src = [] /\ sl_holders src = [] /\
  Forall (fun q => pl_mountpoints q = [] /\ pl_holders q = []) (sl_partitions src).
Proof.
  unfold Offline.layout_busy_reason. destruct (sl_mountpoints src); [|done]. destruct (sl_holders src); [|done].
  destruct (List.find _ _) as [q|] eqn:E; [done|]. intros _. split_and!; [done..|]. rewrite Forall_forall. intros q Hq.
  apply list_elem_of_In in Hq. pose proof (List.find_none _ _ E q Hq) as Hn. cbn in Hn.
  by destruct (pl_mountpoints q), (pl_holders q).
Qed.

Lemma existsb_false {A} (f : A -> bool) l x : existsb f l = false -> x ∈ l -> f x = false.
Proof.
  intros He Hx. destruct (f x) eqn:E; [|done]. assert (existsb f l = true) as Ht; [|congruence].
  apply existsb_exists. exists x. by rewrite <- list_elem_of_In.
Qed.
End TargetLemmas.

(** ** Properties *)

(** What the kernel shows of a device and of what lies on it is out of use. *)
Record out_of_use (t : TargetHost) (device : bytes) : Prop := {
  ou_swap : forall swaps swap, Offline.read_swaps t = Ok swaps -> swap ∈ swaps -> Paths.eqb swap device = false;
  ou_holders : forall name, Sysfs.device_name device = Ok name -> Sysfs.read_holders (th_host t) name = [];
  ou_children : forall name devices child, Sysfs.device_name device = Ok name ->
    Sysfs.list_all_block_devices (th_host t) = Ok devices -> child ∈ devices -> sd_parent child = Some name ->
    sd_holders child = [] /\
    (forall mounts, Sysfs.read_mountpoints (th_host t) (sd_path child) = Ok mounts -> mounts = []) /\
    (forall swaps swap, Offline.read_swaps t = Ok swaps -> swap ∈ swaps -> Paths.eqb swap (sd_path child) = false);
  ou_volume : Offline.is_active_pv t device = false;
  ou_root : forall metadata mounts mount major minor, ho_metadata (th_host t) device = Ok metadata ->
    md_rdev metadata <> 0 -> Sysfs.read_mounts (th_host t) = Ok mounts -> mount ∈ mounts ->
    Text.utf8_lossy (me_mountpoint mount) ∈ Target.BOOT_MOUNTPOINTS ->
    Target.parse_dev_id (me_dev_id mount) = Some (major, minor) ->
    md_rdev metadata <> TargetLemmas.makedev major minor;
}.

