(* ===== verification/ApplyRestore.v ===== *)
(** * Preparing and applying a restore ([crates/lr-engine/src/restore.rs])

    [prepare_restore_as] and [apply_restore_as], every check in its place. What
    the two look at changes while they run, so the destination, the machine and
    the clock are given for each look. The writers of file trees, streams and
    whole disks are arguments; the writer of block chains is
    [RestoreBlock.write_block_chain]. *)

From S2P Require Import Prelude Text Core Crypto Pages Superblock Files PageStream ImageReader Manifest FileManifest Tree EngineKeys CatalogRecords Destination Progress Chain Plan StreamImage Verifier VerifyImage Devices RestoreBlock Sysfs Discovery Uri Tokens Targets.

Record SelectedPayloadRequest := {
  sp_image_name : bytes;
  sp_selected_names : list bytes;
  sp_expected_members : option (list RestoreMemberIdentity);
  sp_whole_disk : bool;
  sp_verification : VerifyJob;
}.

(** [TargetFacts::read] of what the machine shows of a device. *)
Definition read_target_facts `{Primitives} `{HexCodec} (p : Probes) (device : bytes) : result TargetFacts :=
  Facts.read
    (let* metadata := ho_metadata (pr_host p) device in Ok (md_rdev metadata))
    (let* layout := Discover.discover_source p device in
     let facts := sl_device_facts layout in Ok (dv_size_bytes facts, dv_wwid facts, dv_serial facts))
    (match pr_open p device with Some b => Ok b | None => Err (Io OtherIo) end).

(** ** The members of a restore *)
Module Selected.
Section ops.
Context `{Primitives} `{Destination D}.

Definition open_image (d : D) (name : bytes) (encryption : Encryption) :
    result (ImageReader * ImageKeys * Superblock) :=
  let* handle := open_ro d name in
  let* reader := Img.open handle in
  let superblock := ir_superblock reader in
  let* keys := EKeys.unlock_image encryption superblock in
  let mac_key := if Sb.is_encrypted superblock then Some (ik_meta_key keys) else None in
  Img.authenticate reader mac_key;;;
  Ok (reader, keys, superblock).

Definition selected_member_identities (d : D) (image_name : bytes) (selected_names : list bytes) (whole_disk : bool) :
    result (list RestoreMemberIdentity) :=
  if whole_disk then
    if negb (bool_decide (selected_names = [image_name])) then
      Err (Corrupt "a whole-disk restore must select exactly its named image")
    else let* m := Identities.read d image_name in Ok [m]
  else
    let* resolved := Resolve.resolve_chain d image_name in
    if negb (bool_decide (map cm_file_name resolved = selected_names)) then
      Err (Corrupt "the resolved restore chain differs from the prepared member order; prepare again")
    else collectM (fun m => Identities.read d (cm_file_name m)) resolved.

Definition chain_files_from_identities (members : list RestoreMemberIdentity) : list ChainMemberFile :=
  map (fun m => {| cm_file_name := rm_file_name m; cm_seq_in_chain := rm_seq_in_chain m;
                   cm_image_uuid := rm_image_uuid m |}) members.

(** The destination as it is before, during and after the verification. *)
Definition verify_selected_payloads (before_d during_d after_d : D) (selection : SelectedPayloadRequest) :
    step Run (list RestoreMemberIdentity) :=
  let image_name := sp_image_name selection in
  let selected_names := sp_selected_names selection in
  let expected_members := sp_expected_members selection in
  let whole_disk := sp_whole_disk selection in
  let job := sp_verification selection in
  if negb (bool_decide (last selected_names = Some image_name)) then
    step_err (Corrupt "restore member order does not end at the selected image")
  else if match expected_members with
          | Some expected => bool_decide (expected = []) || negb (bool_decide (map rm_file_name expected = selected_names))
          | None => false
          end then
    step_err (Corrupt "restore token does not bind the selected member order; prepare again")
  else
    do* before := lift (selected_member_identities before_d image_name selected_names whole_disk) in
    if match expected_members with Some expected => negb (bool_decide (expected = before)) | None => false end then
      step_err (Corrupt "restore chain metadata changed since prepare; prepare the restore again")
    else
      let verify_members := chain_files_from_identities before in
      do* _ := Progress.check_cancel (vj_context job) in
      do* report := VerifyImages.verify_members_in_set during_d image_name verify_members job in
      do* _ := lift (Reports.ensure_complete_recovery report) in
      do* after := lift (selected_member_identities after_d image_name selected_names whole_disk) in
      if negb (bool_decide (after = before)) ||
         match expected_members with Some expected => negb (bool_decide (expected = after)) | None => false end then
        step_err (Corrupt "restore chain metadata changed during verification; prepare the restore again")
      else step_ret after.

Definition validate_selected_members_current (d : D) (image_name : bytes) (selected_names : list bytes)
    (expected : list RestoreMemberIdentity) (whole_disk : bool) : result unit :=
  let* current := selected_member_identities d image_name selected_names whole_disk in
  if negb (bool_decide (current = expected)) then
    Err (Corrupt "restore chain metadata changed after verification; prepare the restore again")
  else Ok tt.

Definition member_matches (d : D) (member : OpenMember) (expected : RestoreMemberIdentity) : result bool :=
  let superblock := om_superblock member in
  if bool_decide (om_file_name member = rm_file_name expected) &&
     (om_seq_in_chain member =? rm_seq_in_chain expected) &&
     bool_decide (om_image_uuid member = rm_image_uuid expected) &&
     bool_decide (chain_id superblock = rm_chain_id expected) &&
     bool_decide (set_id superblock = rm_set_id expected) &&
     bool_decide (parent_uuid superblock = rm_parent_uuid expected) &&
     bool_decide (image_kind superblock = rm_image_kind expected) then
    let* current := Identities.read d (om_file_name member) in Ok (bool_decide (current = expected))
  else Ok false.

Fixpoint match_members (d : D) (l : list (OpenMember * RestoreMemberIdentity)) : result unit :=
  match l with
  | [] => Ok tt
  | (member, expected) :: l =>
    let* same := member_matches d member expected in
    if same : bool then match_members d l
    else Err (Corrupt "{} no longer matches the prepared restore member")
  end.

Definition validate_open_chain_members (d : D) (opened : list OpenMember) (expected : list RestoreMemberIdentity) :
    result unit :=
  if negb (zlen opened =? zlen expected) then
    Err (Corrupt "the opened restore chain has a different number of members")
  else match_members d (List.combine opened expected).
End ops.
End Selected.

(** ** Preparing *)
Record PrepareRequest := {
  pq_image : bytes;
  pq_target : bytes;
  pq_encryption : Encryption;
  pq_ttl : Z;
  pq_identity : option bytes;
  pq_known_hosts : option bytes;
  pq_insecure_ignore_host_key : bool;
  pq_merge : bool;
  pq_strict_metadata : bool;
  pq_replace_partition_table : bool;
}.

Record RestorePlan := {
  pn_dest : bytes;
  pn_set : bytes;
  pn_image : bytes;
  pn_members : list bytes;
  pn_image_uuid : Id;
  pn_consistency : Consistency;
  pn_image_kind : ImageKind;
  pn_source_size_bytes : Z;
  pn_chunk_size : Z;
  pn_target : bytes;
  pn_target_facts : TargetFacts;
  pn_target_size_bytes : Z;
  pn_encrypted : bool;
  pn_warnings : list string;
  pn_token : bytes;
}.

(** What a preparation finds. The destination it opened stands for every look
    it takes. *)
Record PrepareEnv (D : Type) := {
  pe_open : ImageLocation -> result D;
  pe_secret : bytes;
  pe_random : bytes;
  pe_now : Z;
  pe_target : TargetHost;
  (** [st_dev] and [st_ino]; the free bytes of the filesystem below. *)
  pe_inode : bytes -> Z * Z;
  pe_free_bytes : bytes -> result Z;
}.
#[global] Arguments pe_open {D} _.
#[global] Arguments pe_secret {D} _.
#[global] Arguments pe_random {D} _.
#[global] Arguments pe_now {D} _.
#[global] Arguments pe_target {D} _.
#[global] Arguments pe_inode {D} _.
#[global] Arguments pe_free_bytes {D} _.

Module Prepare.
Section ops.
Context `{Primitives} `{Destination D} `{HexCodec} `{TokenJson}.

(** The members with their descriptors, each checked before a token exists. *)
Definition prepared_members (d : D) (name : bytes) (encryption : Encryption) (reader : ImageReader) (keys : ImageKeys)
    (superblock : Superblock) : result (list bytes * list RestoreMemberIdentity) :=
  if Sb.is_whole_disk superblock then
    let* summary := Plans.whole_disk reader (ik_meta_key keys) superblock in
    Plans.refuse_bad_sectors summary;;;
    let* member := Identities.read d name in
    Ok ([name], [member])
  else
    let* files := Resolve.resolve_chain d name in
    let* chain_members := collectM (fun file => Identities.read d (cm_file_name file)) files in
    let* validated := Members.open_chain d files encryption in
    match image_kind superblock with
    | Block =>
      let* summary := Plans.block_chain validated superblock in
      Plans.refuse_bad_sectors summary
    | File =>
      match last validated with
      | Some newest =>
        let* b := Members.stream_bytes newest SManifest in
        let* records := FileRecords.read_manifest b in
        Trees.file_tree (Trees.of_records records)
      | None => Ok tt
      end
    | Stream =>
      Trees.forM (fun file =>
        let* _ := StreamImages.read_stream_image d (cm_file_name file) encryption in Ok tt) files
    end;;;
    Ok (map cm_file_name files, chain_members).

(** The facts of the target, of a directory when it is one, and what [check_kinds]
    warns of. *)
Definition prepared_target (env : PrepareEnv D) (request : PrepareRequest) (superblock : Superblock) :
    result (TargetFacts * option DirectoryFacts * list string) :=
  let t := pe_target env in
  let h := th_host t in
  if bool_decide (image_kind superblock = File) then
    let* directory := Target.directory_facts h (pe_inode env) (pq_target request) in
    let* full :=
      (if pq_merge request then Ok false
       else let* entries := ho_read_dir h (pq_target request) in
            Ok (match entries with [] => false | _ => true end)) in
    if full : bool then
      Err (Unsupported "{} is not empty; choose to restore into it anyway (--merge, or the restore wizard's option), which replaces files with the same name")
    else
      let* free := pe_free_bytes env (df_path directory) in
      if free <? source_size_bytes superblock then Err NoSpace
      else
        let* facts := Facts.for_directory (Target.directory_facts h (pe_inode env) (pq_target request))
                        (source_size_bytes superblock) in
        Ok (facts, Some directory, [])
  else
    let* facts := read_target_facts (th_probes t) (pq_target request) in
    if tf_size_bytes facts <? source_size_bytes superblock then Err NoSpace
    else
      Target.preflight_target t (pq_target request);;;
      Target.probe_exclusive t (pq_target request);;;
      let* warnings := Target.check_kinds (th_probes t) (pq_target request) superblock
                         (pq_replace_partition_table request) in
      Ok (facts, None, warnings).

Definition plan_warnings (name : bytes) (superblock : Superblock) (facts : TargetFacts) (directory : option DirectoryFacts)
    (repeated : bool) (members : list bytes) : list string :=
  (if (source_size_bytes superblock <? tf_size_bytes facts) && match directory with None => true | Some _ => false end
   then ["target is {} bytes larger than the source; the extra space stays unallocated (spec §H.1)"%string] else []) ++
  (match directory with
   | Some _ => ["file mode restores into the existing directory {}; content is written in place"%string]
   | None => []
   end) ++
  (if Sb.is_encrypted superblock then [] else ["image is not encrypted and not tamper-evident"%string]) ++
  (if repeated then [legacy_nonce_warning name] else []) ++
  (match consistency superblock with
   | CNone => ["image consistency is 'none' (a live read); applying it requires --accept-inconsistent"%string]
   | PerFile => ["image consistency is 'per-file': every file is consistent as read, but there is no point in time across files (spec §D.2)"%string]
   | _ => []
   end) ++
  (if bool_decide (image_kind superblock = Block) && negb (source_size_bytes superblock mod chunk_size superblock =? 0)
   then ["the final chunk is partial; its tail is written as recorded"%string] else []) ++
  (if 1 <? zlen members
   then ["restoring a chain: {} members are applied in order, ending with {}"%string] else []).

Definition prepare_restore_as (env : PrepareEnv D) (request : PrepareRequest) (uid : Z) : result RestorePlan :=
  let* location := Uris.split_image (pq_image request) in
  let* d := pe_open env location in
  let* (reader, keys, superblock) := Selected.open_image d (il_name location) (pq_encryption request) in
  let* repeated :=
    (if Sb.is_encrypted superblock then
       let* kind := Sb.aead_kind superblock in Img.has_repeated_page_nonces reader (ik_meta_key keys) kind
     else Ok false) in
  let* (members, chain_members) :=
    prepared_members d (il_name location) (pq_encryption request) reader keys superblock in
  let* (facts, directory, kind_warnings) := prepared_target env request superblock in
  let warnings := kind_warnings ++ plan_warnings (il_name location) superblock facts directory repeated members in
  let* token := Tokens.issue (pe_secret env) (pe_random env) (pe_now env)
    {| ti_dest := il_dest location; ti_set := il_set location; ti_image := il_name location; ti_chain := members;
       ti_identity := pq_identity request; ti_known_hosts := pq_known_hosts request;
       ti_insecure_ignore_host_key := pq_insecure_ignore_host_key request |}
    (pq_target request) (image_uuid superblock) facts directory (pq_merge request) (pq_ttl request) uid in
  let* token := Tokens.with_chain_members (pe_secret env) token chain_members in
  let* token := Tokens.with_strict_metadata (pe_secret env) token (pq_strict_metadata request) in
  Ok {| pn_dest := il_dest location; pn_set := il_set location; pn_image := il_name location; pn_members := members;
        pn_image_uuid := image_uuid superblock; pn_consistency := consistency superblock;
        pn_image_kind := image_kind superblock; pn_source_size_bytes := source_size_bytes superblock;
        pn_chunk_size := chunk_size superblock; pn_target := pq_target request; pn_target_facts := facts;
        pn_target_size_bytes := tf_size_bytes facts; pn_encrypted := Sb.is_encrypted superblock;
        pn_warnings := warnings; pn_token := Tokens.encode token |}.
End ops.
End Prepare.

(** ** Applying *)
Record ApplyRequest := {
  aq_token : bytes;
  aq_confirm : bool;
  aq_accept_inconsistent : bool;
  aq_encryption : Encryption;
  aq_context : EngineContext;
}.

Inductive RestoreOutcome (SR FR : Type) :=
  | OutBlock (report : RestoreReport)
  | OutStream (report : SR)
  | OutFile (report : FR).
Arguments OutBlock {SR FR} _.
Arguments OutStream {SR FR} _.
Arguments OutFile {SR FR} _.

(** The looks at the destination, at the machine and at the clock, in order. *)
Inductive Look :=
  | LookImage
  | LookBefore
  | LookVerify
  | LookAfter
  | LookCurrent
  | LookChunks
  | LookSuperblocks
  | LookPlan
  | LookMembers
  | LookDescriptors.
Inductive Check := FirstFacts | FirstPreflight | LastFacts | LastPreflight.
Inductive Tick := TickStart | TickAdmission | TickRedeem.

Record ApplyEnv (D : Type) := {
  ae_secret : bytes;
  ae_clock : Tick -> Z;
  ae_open : RestoreToken -> result (Look -> D);
  ae_target : Check -> TargetHost;
  (** What [DirectoryFacts::read] finds. *)
  ae_directory : bytes -> result DirectoryFacts;
  (** [DirectBlockTarget::open]: size, block size and alignment of the claimed
      device; and its number, at both checks. *)
  ae_claim : bytes -> result (Z * Z * Z);
  ae_device_id : Check -> result Z;
  ae_records : RecordIo;
}.
#[global] Arguments ae_secret {D} _.
#[global] Arguments ae_clock {D} _.
#[global] Arguments ae_open {D} _.
#[global] Arguments ae_target {D} _.
#[global] Arguments ae_directory {D} _.
#[global] Arguments ae_claim {D} _.
#[global] Arguments ae_device_id {D} _.
#[global] Arguments ae_records {D} _.

(** What an application changes: the run, the used-token records, the device,
    and the file system that file and stream restores write. *)
Record Applying (Dev O : Type) := {
  ap_run : Run;
  ap_records : list bytes;
  ap_device : Dev;
  ap_files : O;
}.
#[global] Arguments ap_run {Dev O} _.
#[global] Arguments ap_records {Dev O} _.
#[global] Arguments ap_device {Dev O} _.
#[global] Arguments ap_files {Dev O} _.

(** The writers of the other kinds. *)
Record Writers (D Dev O SR FR : Type) := {
  (** [file::restore_file_for_apply]. *)
  ww_file : ApplyRequest -> RestoreToken -> list bytes -> DirectoryFacts -> step (Run * O) FR;
  (** [stream::restore_stream_for_apply]: it claims the device itself. *)
  ww_stream : ApplyRequest -> RestoreToken -> list bytes -> step (Run * (Dev * O)) SR;
  (** [whole_disk::restore_whole_disk], given the handle of the chunks. *)
  ww_disk : ImageReader -> bytes -> ImageKeys -> Superblock -> RestoreToken ->
    step (Progress.tracked (DirectBlockTarget Dev)) RestoreReport;
}.
#[global] Arguments ww_file {D Dev O SR FR} _.
#[global] Arguments ww_stream {D Dev O SR FR} _.
#[global] Arguments ww_disk {D Dev O SR FR} _.

Module Apply.
Section ops.
Context `{Primitives} `{Destination D} `{BlockDevice Dev} `{HexCodec} `{TokenJson} {O SR FR : Type}.
Context (writers : Writers D Dev O SR FR).

Definition state : Type := Applying Dev O.

Definition on_run {A} (m : step Run A) : step state A := fun s =>
  let '(run, r) := m (ap_run s) in
  ({| ap_run := run; ap_records := ap_records s; ap_device := ap_device s; ap_files := ap_files s |}, r).
Definition on_records {A} (m : step (list bytes) A) : step state A := fun s =>
  let '(records, r) := m (ap_records s) in
  ({| ap_run := ap_run s; ap_records := records; ap_device := ap_device s; ap_files := ap_files s |}, r).
Definition on_files {A} (m : step (Run * O) A) : step state A := fun s =>
  let '((run, files), r) := m (ap_run s, ap_files s) in
  ({| ap_run := run; ap_records := ap_records s; ap_device := ap_device s; ap_files := files |}, r).
Definition on_both {A} (m : step (Run * (Dev * O)) A) : step state A := fun s =>
  let '((run, (device, files)), r) := m (ap_run s, (ap_device s, ap_files s)) in
  ({| ap_run := run; ap_records := ap_records s; ap_device := device; ap_files := files |}, r).

(** The claimed target is the device behind the claim. *)
Definition claimed (claim : Z * Z * Z) (d : Dev) : DirectBlockTarget Dev :=
  let '(size, lbs, alignment) := claim in
  {| bt_handle := d; bt_direct := true; bt_size_bytes := size; bt_logical_block_size := lbs; bt_alignment := alignment |}.
Definition on_target {A} (claim : Z * Z * Z) (reporter : Reporter)
    (m : step (Progress.tracked (DirectBlockTarget Dev)) A) : step state A := fun s =>
  let '((run, _, t), r) := m (ap_run s, reporter, claimed claim (ap_device s)) in
  ({| ap_run := run; ap_records := ap_records s; ap_device := bt_handle t; ap_files := ap_files s |}, r).

(** The names of the members a token lists. *)
Definition chain_of (token : RestoreToken) : list bytes :=
  match rt_chain token with [] => [rt_image token] | chain => chain end.

(** The facts of the target are those of the token, for the claimed device. *)
Definition same_target (env : ApplyEnv D) (facts_at : Check) (token : RestoreToken) : result unit :=
  let* current := read_target_facts (th_probes (ae_target env facts_at)) (rt_target_path token) in
  if negb (Facts.facts_match current (rt_target token)) then Err TargetChanged
  else
    let* device := ae_device_id env facts_at in
    if negb (device =? tf_dev_id current) then Err TargetChanged else Ok tt.

(** [token.verify()?] and [token.redeem(uid)?] after the last cancellation check. *)
Definition admit_token (env : ApplyEnv D) (context : EngineContext) (token : RestoreToken) (uid : Z) : step state unit :=
  do* _ := on_run (Progress.check_cancel context) in
  do* _ := lift (Tokens.verify (ae_secret env) (ae_clock env TickAdmission) token) in
  on_records (Used.redeem (ae_records env) (ae_clock env TickRedeem) uid token).

(** The [ImageKind::File] branch. *)
Definition apply_file (env : ApplyEnv D) (request : ApplyRequest) (token : RestoreToken) (uid : Z) :
    step state (RestoreOutcome SR FR) :=
  match rt_target_directory token with
  | None => step_err (Corrupt "the token authorises no directory target")
  | Some expected =>
    do* current := lift (ae_directory env (rt_target_path token)) in
    if negb (Facts.directory_matches current expected) then step_err TargetChanged
    else
      do* _ := admit_token env (aq_context request) token uid in
      do* report := on_files (ww_file writers request token (chain_of token) expected) in
      step_ret (OutFile report)
  end.

(** The payloads of a block image are verified under the claim, then the
    target is looked at again. *)
Definition verify_claimed (env : ApplyEnv D) (at_ : Look -> D) (request : ApplyRequest) (token : RestoreToken)
    (superblock : Superblock) : step state unit :=
  do* _ := on_run (Selected.verify_selected_payloads (at_ LookBefore) (at_ LookVerify) (at_ LookAfter)
    {| sp_image_name := rt_image token; sp_selected_names := chain_of token;
       sp_expected_members := Some (rt_chain_members token); sp_whole_disk := Sb.is_whole_disk superblock;
       sp_verification :=
         {| vj_request := {| vq_image := rt_image token; vq_encryption := aq_encryption request; vq_chain := false |};
            vj_context := aq_context request |} |}) in
  do* _ := on_run (Progress.check_cancel (aq_context request)) in
  do* _ := lift (same_target env LastFacts token) in
  do* _ := lift (Target.preflight_target (ae_target env LastPreflight) (rt_target_path token)) in
  do* _ := on_run (Progress.check_cancel (aq_context request)) in
  on_run (Progress.phase (aq_context request) (Text.str "restore")).

Definition apply_disk (at_ : Look -> D) (request : ApplyRequest) (token : RestoreToken) (reader : ImageReader)
    (keys : ImageKeys) (superblock : Superblock) (claim : Z * Z * Z) (reporter : Reporter) :
    step state (RestoreOutcome SR FR) :=
  do* _ := lift (Selected.validate_selected_members_current (at_ LookCurrent) (rt_image token) (chain_of token)
    (rt_chain_members token) true) in
  do* _ := on_run (Progress.check_cancel (aq_context request)) in
  do* chunks := lift (open_ro (at_ LookChunks) (rt_image token)) in
  do* report := on_target claim reporter (ww_disk writers reader chunks keys superblock token) in
  step_ret (OutBlock report).

Definition member_file (d : D) (name : bytes) : result ChainMemberFile :=
  let* member := Resolve.read_superblock d name in
  Ok {| cm_file_name := name; cm_seq_in_chain := seq_in_chain member; cm_image_uuid := image_uuid member |}.

Definition apply_chain (at_ : Look -> D) (request : ApplyRequest) (token : RestoreToken) (superblock : Superblock)
    (claim : Z * Z * Z) (reporter : Reporter) : step state (RestoreOutcome SR FR) :=
  do* files := lift (collectM (member_file (at_ LookSuperblocks)) (chain_of token)) in
  do* checked := lift (Members.open_chain (at_ LookPlan) files (aq_encryption request)) in
  do* summary := lift (Plans.block_chain checked superblock) in
  do* _ := lift (Plans.refuse_bad_sectors summary) in
  do* members := lift (Members.open_chain (at_ LookMembers) files (aq_encryption request)) in
  do* _ := lift (Selected.validate_open_chain_members (at_ LookDescriptors) members (rt_chain_members token)) in
  do* _ := on_run (Progress.check_cancel (aq_context request)) in
  do* report := on_target claim reporter
    (RestoreBlock.write_block_chain members superblock (rt_image token) (rt_target_path token)) in
  step_ret (OutBlock report).

(** Everything else goes to a device. *)
Definition apply_device (env : ApplyEnv D) (at_ : Look -> D) (request : ApplyRequest) (token : RestoreToken) (uid : Z)
    (reader : ImageReader) (keys : ImageKeys) (superblock : Superblock) : step state (RestoreOutcome SR FR) :=
  if Sb.is_inconsistent superblock && negb (aq_accept_inconsistent request) then
    step_err (Unsupported "image is flagged inconsistent; pass --accept-inconsistent to restore it")
  else
    do* claim := lift (ae_claim env (rt_target_path token)) in
    do* _ := lift (same_target env FirstFacts token) in
    do* _ := lift (Target.preflight_target (ae_target env FirstPreflight) (rt_target_path token)) in
    do* reporter := on_run (Progress.reporter (aq_context request) (source_size_bytes superblock)) in
    do* _ := admit_token env (aq_context request) token uid in
    do* _ := (if bool_decide (image_kind superblock = Block) then verify_claimed env at_ request token superblock
              else step_ret tt) in
    if Sb.is_whole_disk superblock then apply_disk at_ request token reader keys superblock claim reporter
    else if bool_decide (image_kind superblock = Stream) then
      do* report := on_both (ww_stream writers request token (chain_of token)) in
      step_ret (OutStream report)
    else apply_chain at_ request token superblock claim reporter.

Definition apply_restore_as (env : ApplyEnv D) (request : ApplyRequest) (uid : Z) : step state (RestoreOutcome SR FR) :=
  if negb (aq_confirm request) then
    step_err (Unsupported "restore apply requires --confirm; nothing has been written")
  else
    do* token := lift (Tokens.decode (aq_token request)) in
    do* _ := lift (Tokens.verify (ae_secret env) (ae_clock env TickStart) token) in
    do* at_ := lift (ae_open env token) in
    do* image := lift (Selected.open_image (at_ LookImage) (rt_image token) (aq_encryption request)) in
    let '(reader, keys, superblock) := image in
    if negb (bool_decide (image_uuid superblock = rt_image_uuid token)) then step_err TargetChanged
    else if bool_decide (image_kind superblock = File) then apply_file env request token uid
    else apply_device env at_ request token uid reader keys superblock.
End ops.
End Apply.

(** ** What stands between a request and the first write *)
Module ApplyLemmas.
Import Apply.
Section lemmas.
Context `{PrimitiveLaws} `{Destination D} `{BlockDevice Dev} `{HexLaws} `{TokenJsonLaws} {O SR FR : Type}.
Context (writers : Writers D Dev O SR FR).

(** The device or the files are no longer what they were. *)
Definition moved (s s' : Applying Dev O) : Prop := ap_device s' <> ap_device s \/ ap_files s' <> ap_files s.

(** A step that neither writes nor records. *)
Definition still {A} (m : step (Applying Dev O) A) : Prop := forall s,
  ap_device (fst (m s)) = ap_device s /\ ap_files (fst (m s)) = ap_files s /\ ap_records (fst (m s)) = ap_records s.

Lemma still_lift {A} (r : result A) : still (lift r).
Proof. done. Qed.
Lemma still_ret {A} (a : A) : still (step_ret a).
Proof. done. Qed.
Lemma still_err {A} e : still (step_err (A := A) e).
Proof. done. Qed.
Lemma still_on_run {A} (m : step Run A) : still (on_run m).
Proof. intros s. unfold on_run. by destruct (m (ap_run s)). Qed.
Lemma still_bind {A B} (m : step (Applying Dev O) A) (k : A -> step (Applying Dev O) B) :
  still m -> (forall a, still (k a)) -> still (step_bind m k).
Proof.
  intros Hm Hk s. specialize (Hm s). unfold step_bind. destruct (m s) as [s1 [a|e]]; [|done]. cbn [fst] in *.
  destruct (Hk a s1) as (-> & -> & ->). done.
Qed.

(** What moved came after a still step that went well. *)
Lemma moved_after {A B} (m : step (Applying Dev O) A) (k : A -> step (Applying Dev O) B) s s' r :
  still m -> step_bind m k s = (s', r) -> moved s s' ->
  exists a s1, m s = (s1, Ok a) /\ k a s1 = (s', r) /\ moved s1 s' /\ ap_records s1 = ap_records s.
Proof.
  intros Hm. unfold step_bind. specialize (Hm s). destruct (m s) as [s1 [a|e]]; cbn [fst] in Hm; destruct Hm as (Hd & Hf & Hr).
  - intros Hk Hmv. exists a, s1. split_and!; try done. unfold moved in *. by rewrite Hd, Hf.
  - intros [= <- <-] [|]; done.
Qed.

Lemma nothing_moved {A} (m : step (Applying Dev O) A) s s' r : still m -> m s = (s', r) -> ~ moved s s'.
Proof. intros Hm Hs. specialize (Hm s). rewrite Hs in Hm. destruct Hm as (Hd & Hf & _). by intros [|]. Qed.

Lemma lifted {A} (r : result A) (s s1 : Applying Dev O) a : lift r s = (s1, Ok a) -> r = Ok a /\ s1 = s.
Proof. by intros [= -> ->]. Qed.

(** The target is the one of the token, and free. *)
Definition target_checked (env : ApplyEnv D) (token : RestoreToken) (facts preflight : Check) : Prop :=
  read_target_facts (th_probes (ae_target env facts)) (rt_target_path token) = Ok (rt_target token) /\
  ae_device_id env facts = Ok (tf_dev_id (rt_target token)) /\
  Target.preflight_target (ae_target env preflight) (rt_target_path token) = Ok tt.

Lemma same_target_Ok (env : ApplyEnv D) facts token u : same_target env facts token = Ok u ->
  read_target_facts (th_probes (ae_target env facts)) (rt_target_path token) = Ok (rt_target token) /\
  ae_device_id env facts = Ok (tf_dev_id (rt_target token)).
Proof.
  unfold same_target. intros (current & Hc & Hk)%bind_Ok. unfold Facts.facts_match in Hk. case_bool_decide; [|done].
  subst current. cbn [negb] in Hk. apply bind_Ok in Hk as (dev & Hd & Hk). destruct (Z.eqb_spec dev (tf_dev_id (rt_target token))); [|done].
  by subst.
Qed.

(** The token was let in. *)
Definition token_admitted (env : ApplyEnv D) (token : RestoreToken) (uid : Z) (records : list bytes) : Prop :=
  ae_clock env TickAdmission <= rt_expires_at token /\ uid = rt_uid token /\
  exists records', Used.redeem (ae_records env) (ae_clock env TickRedeem) uid token records = (records', Ok tt).

Lemma admitted_token (env : ApplyEnv D) context token uid (s s1 : Applying Dev O) u : admit_token env context token uid s = (s1, Ok u) ->
  token_admitted env token uid (ap_records s) /\ ap_device s1 = ap_device s /\ ap_files s1 = ap_files s.
Proof.
  unfold admit_token. intros (s2 & c & Hc & Hk)%step_bind_Ok. pose proof (still_on_run (Progress.check_cancel context) s) as Hst.
  rewrite Hc in Hst. cbn [fst] in Hst. destruct Hst as (Hd & Hf & Hr). apply step_bind_Ok in Hk as (s3 & v & Hv & Hk).
  apply lifted in Hv as [Hv ->]. apply TokenLemmas.verify_Ok in Hv as [_ Hexp]. unfold on_records in Hk.
  destruct (Used.redeem _ _ _ _ _) as [records' [[]|e]] eqn:E; [|done]. injection Hk as <- <-. cbn [ap_device ap_files].
  rewrite Hr in E. split_and!; [|done..]. split_and!; [done| |by exists records'].
  unfold Used.redeem in E. destruct (Z.eqb_spec uid (rt_uid token)); [done|]. done.
Qed.

Lemma moved_after_admission {B} (env : ApplyEnv D) context token uid (k : step (Applying Dev O) B) s s' r :
  (do* _ := admit_token env context token uid in k) s = (s', r) -> moved s s' ->
  token_admitted env token uid (ap_records s) /\ exists s1, k s1 = (s', r) /\ moved s1 s'.
Proof.
  unfold step_bind. destruct (admit_token env context token uid s) as [s1 [u|e]] eqn:E.
  - intros Hk Hm. apply admitted_token in E as (Ha & Hd & Hf). split; [done|]. exists s1. split; [done|].
    unfold moved in *. by rewrite Hd, Hf.
  - intros [= <- <-]. unfold admit_token, step_bind in E. intros Hm. exfalso. revert E Hm.
    destruct (on_run _ s) as [s2 [c|e2]] eqn:E2; pose proof (still_on_run (Progress.check_cancel context) s) as Hst;
      rewrite E2 in Hst; cbn [fst] in Hst; destruct Hst as (Hd & Hf & _); [|intros [= <- <-] [|]; done].
    destruct (lift _ s2) as [s3 [v|e3]] eqn:E3; injection E3 as <- _; [|intros [= <- <-] [|]; done].
    unfold on_records. destruct (Used.redeem _ _ _ _ _) as [n [q|e4]]; intros [= <- <-]; cbn; intros [|]; done.
Qed.

(** What a block image had to pass before its target was written. *)
Definition payloads_checked (env : ApplyEnv D) (at_ : Look -> D) (request : ApplyRequest) (token : RestoreToken)
    (superblock : Superblock) : Prop :=
  (exists run run', Selected.verify_selected_payloads (at_ LookBefore) (at_ LookVerify) (at_ LookAfter)
    {| sp_image_name := rt_image token; sp_selected_names := chain_of token;
       sp_expected_members := Some (rt_chain_members token); sp_whole_disk := Sb.is_whole_disk superblock;
       sp_verification :=
         {| vj_request := {| vq_image := rt_image token; vq_encryption := aq_encryption request; vq_chain := false |};
            vj_context := aq_context request |} |} run = (run', Ok (rt_chain_members token))) /\
  target_checked env token LastFacts LastPreflight.

Lemma verified_members before_d during_d after_d selection expected run run' after :
  sp_expected_members selection = Some expected ->
  Selected.verify_selected_payloads before_d during_d after_d selection run = (run', Ok after) -> after = expected.
Proof.
  intros He. unfold Selected.verify_selected_payloads. rewrite He.
  destruct (negb (bool_decide (last _ = _))); [done|]. destruct (_ || _); [done|].
  intros (r1 & before & _ & Hk)%step_bind_Ok. destruct (negb (bool_decide (expected = before))) eqn:Eb; [done|].
  repeat match goal with H : step_bind _ _ _ = _ |- _ => apply step_bind_Ok in H as (? & ? & _ & H) end.
  destruct (_ || _) eqn:Ea in Hk; [done|]. injection Hk as _ <-. apply orb_false_iff in Ea as [_ Ea].
  apply negb_false_iff, bool_decide_eq_true in Ea. done.
Qed.

Lemma on_run_Ok {A} (m : step Run A) (s s1 : Applying Dev O) a :
  on_run m s = (s1, Ok a) -> exists run run', m run = (run', Ok a).
Proof. unfold on_run. destruct (m (ap_run s)) as [run' r] eqn:E. intros [= _ ->]. by eauto. Qed.

Lemma verify_claimed_still (env : ApplyEnv D) at_ request token superblock : 
  still (verify_claimed (Dev := Dev) (O := O) env at_ request token superblock).
Proof. unfold verify_claimed. repeat (apply still_bind; [apply still_on_run || apply still_lift|intros ?]). apply still_on_run. Qed.

Lemma verify_claimed_Ok (env : ApplyEnv D) at_ request token superblock (s s1 : Applying Dev O) u :
  verify_claimed env at_ request token superblock s = (s1, Ok u) -> payloads_checked env at_ request token superblock.
Proof.
  unfold verify_claimed. intros (s2 & ids & Hv & Hk)%step_bind_Ok. apply on_run_Ok in Hv as (run & run' & Hv).
  apply step_bind_Ok in Hk as (s3 & c & _ & Hk). apply step_bind_Ok in Hk as (s4 & t & Ht & Hk).
  apply lifted in Ht as [[Hf Hd]%same_target_Ok _]. apply step_bind_Ok in Hk as (s5 & [] & Hp & _).
  apply lifted in Hp as [Hp _]. split; [|by split_and!]. exists run, run'. rewrite Hv. do 2 f_equal.
  by eapply verified_members; [|exact Hv].
Qed.

(** What a device had to be, and what a chain or a disk image, for the first
    write. *)
Definition device_checked (env : ApplyEnv D) (at_ : Look -> D) (request : ApplyRequest) (token : RestoreToken)
    (superblock : Superblock) : Prop :=
  (Sb.is_inconsistent superblock = true -> aq_accept_inconsistent request = true) /\
  target_checked env token FirstFacts FirstPreflight /\
  (image_kind superblock = Block -> payloads_checked env at_ request token superblock) /\
  (if Sb.is_whole_disk superblock then
     Selected.selected_member_identities (at_ LookCurrent) (rt_image token) (chain_of token) true =
       Ok (rt_chain_members token)
   else image_kind superblock = Stream \/ exists files members summary,
     collectM (member_file (at_ LookSuperblocks)) (chain_of token) = Ok files /\
     (exists checked, Members.open_chain (at_ LookPlan) files (aq_encryption request) = Ok checked /\
       Plans.block_chain checked superblock = Ok summary /\ bs_bad summary = 0) /\
     Members.open_chain (at_ LookMembers) files (aq_encryption request) = Ok members /\
     Selected.validate_open_chain_members (at_ LookDescriptors) members (rt_chain_members token) = Ok tt).

Lemma disk_moved (env : ApplyEnv D) at_ request token reader keys superblock claim reporter s s' r :
  apply_disk writers at_ request token reader keys superblock claim reporter s = (s', r) -> moved s s' ->
  Selected.selected_member_identities (at_ LookCurrent) (rt_image token) (chain_of token) true = Ok (rt_chain_members token).
Proof.
  unfold apply_disk. intros Hk Hm. apply moved_after in Hk as (u & s1 & Hl & _); [|apply still_lift|done].
  apply lifted in Hl as [Hl _]. unfold Selected.validate_selected_members_current in Hl.
  apply bind_Ok in Hl as (current & Hc & Hl). destruct (bool_decide (current = _)) eqn:E; [|done].
  apply bool_decide_eq_true in E. by subst.
Qed.

Lemma chain_moved (at_ : Look -> D) request token superblock claim reporter (s s' : Applying Dev O) r :
  apply_chain (SR := SR) (FR := FR) at_ request token superblock claim reporter s = (s', r) -> moved s s' ->
  exists files members summary,
  collectM (member_file (at_ LookSuperblocks)) (chain_of token) = Ok files /\
  (exists checked, Members.open_chain (at_ LookPlan) files (aq_encryption request) = Ok checked /\
    Plans.block_chain checked superblock = Ok summary /\ bs_bad summary = 0) /\
  Members.open_chain (at_ LookMembers) files (aq_encryption request) = Ok members /\
  Selected.validate_open_chain_members (at_ LookDescriptors) members (rt_chain_members token) = Ok tt.
Proof.
  unfold apply_chain. intros Hk Hm.
  apply moved_after in Hk as (files & s1 & Hf%lifted & Hk & Hm1 & _); [|apply still_lift|done].
  apply moved_after in Hk as (checked & s2 & Hc%lifted & Hk & Hm2 & _); [|apply still_lift|done].
  apply moved_after in Hk as (summary & s3 & Hs%lifted & Hk & Hm3 & _); [|apply still_lift|done].
  apply moved_after in Hk as (u & s4 & Hb%lifted & Hk & Hm4 & _); [|apply still_lift|done].
  apply moved_after in Hk as (members & s5 & Ho%lifted & Hk & Hm5 & _); [|apply still_lift|done].
  apply moved_after in Hk as ([] & s6 & Hv%lifted & Hk & Hm6 & _); [|apply still_lift|done].
  exists files, members, summary. destruct_and!. split_and!; [done| |done..]. exists checked. split_and!; [done..|].
  unfold Plans.refuse_bad_sectors in *. destruct (Z.eqb_spec (bs_bad summary) 0); done.
Qed.

Lemma device_moved (env : ApplyEnv D) at_ request token uid reader keys superblock s s' r :
  apply_device writers env at_ request token uid reader keys superblock s = (s', r) -> moved s s' ->
  device_checked env at_ request token superblock /\ token_admitted env token uid (ap_records s).
Proof.
  unfold apply_device, device_checked. destruct (Sb.is_inconsistent superblock && _) eqn:Ei; [intros Hk Hm; by destruct (nothing_moved _ _ _ _ (still_err _) Hk)|].
  intros Hk Hm. apply moved_after in Hk as (claim & s1 & _ & Hk & Hm1 & R1); [|apply still_lift|done].
  apply moved_after in Hk as (t & s2 & [[Hf Hd]%same_target_Ok _]%lifted & Hk & Hm2 & R2); [|apply still_lift|done].
  apply moved_after in Hk as ([] & s3 & [Hp _]%lifted & Hk & Hm3 & R3); [|apply still_lift|done].
  apply moved_after in Hk as (reporter & s4 & _ & Hk & Hm4 & R4); [|apply still_on_run|done].
  apply moved_after_admission in Hk as (Ha & s5 & Hk & Hm5); [|done]. rewrite R4, R3, R2, R1 in Ha. split; [|done].
  split; [intros Hi; rewrite Hi in Ei; by destruct (aq_accept_inconsistent request)|]. split; [by split_and!|].
  apply moved_after in Hk as (u & s6 & Hv & Hk & Hm6 & _); [|case_bool_decide; [apply verify_claimed_still|apply still_ret]|done].
  split; [intros Hb; rewrite bool_decide_true in Hv by done; by eapply verify_claimed_Ok|].
  destruct (Sb.is_whole_disk superblock); [by eapply disk_moved|]. case_bool_decide; [by left|]. right.
  by eapply chain_moved.
Qed.

Lemma file_moved (env : ApplyEnv D) request token uid s s' r :
  apply_file writers env request token uid s = (s', r) -> moved s s' ->
  token_admitted env token uid (ap_records s) /\
  exists expected, rt_target_directory token = Some expected /\ ae_directory env (rt_target_path token) = Ok expected.
Proof.
  unfold apply_file. destruct (rt_target_directory token) as [expected|]; [|intros Hk Hm; by destruct (nothing_moved _ _ _ _ (still_err _) Hk)].
  intros Hk Hm. apply moved_after in Hk as (current & s1 & [Hc _]%lifted & Hk & Hm1 & R1); [|apply still_lift|done].
  unfold Facts.directory_matches in Hk. case_bool_decide as Hcur; [|by destruct (nothing_moved _ _ _ _ (still_err _) Hk)].
  cbn [negb] in Hk. apply moved_after_admission in Hk as (Ha & _); [|done]. rewrite R1 in Ha. split; [done|].
  exists expected. subst. done.
Qed.
End lemmas.
End ApplyLemmas.

(** ** Properties *)

