(* ===== verification/PrepareApply.v ===== *)
(** * From the plan to the write

    What [prepare_restore_as] promises and what [apply_restore_as] asks for fit
    together: when nothing changed in between, only the payloads themselves can
    keep a prepared restore from being written. *)

From S2P Require Import Prelude Text Core Crypto Pages Superblock Files ImageReader Manifest EngineKeys CatalogRecords Destination Progress Chain ChainSpec Plan Verifier VerifyImage Extents Devices RestoreBlock Uri Tokens Targets ApplyRestore.

Module PrepareLemmas.
Import Apply.
Section lemmas.
Context `{PrimitiveLaws} `{Destination D} `{BlockDevice Dev} `{HexLaws} `{TokenJsonLaws} {O SR FR : Type}.

Lemma step_goes {S A B} (m : step S A) (k : A -> step S B) s s1 a :
  m s = (s1, Ok a) -> step_bind m k s = k a s1.
Proof. unfold step_bind. by intros ->. Qed.

Lemma lift_goes {S A B} (r : result A) (k : A -> step S B) s a : r = Ok a -> step_bind (lift r) k s = k a s.
Proof. intros ->. done. Qed.

Lemma check_goes {A} context (k : unit -> step (Applying Dev O) A) (s : Applying Dev O) :
  ctx_cancel context = None -> step_bind (on_run (Progress.check_cancel context)) k s = k tt s.
Proof.
  intros Hc. apply step_goes. unfold on_run, Progress.check_cancel. rewrite Hc. by destruct s.
Qed.

Lemma image_superblock (b : bytes) reader : Img.open b = Ok reader ->
  exists sb, File.read_exact 0 SB_SIZE b = Ok sb /\ Sb.decode sb = Ok (ir_superblock reader).
Proof.
  unfold Img.open. cbv zeta. destruct (_ <? _); [done|]. intros (sb & Hs & Hk)%bind_Ok. apply bind_Ok in Hk as (superblock & Hd & Hk).
  apply bind_Ok in Hk as (fb & _ & Hk). apply bind_Ok in Hk as (f & _ & Hk). apply bind_Ok in Hk as (u & _ & [= <-]).
  by exists sb.
Qed.

(** *** The members that were resolved *)
Lemma resolved_files (d : D) name files : Resolve.resolve_chain d name = Ok files ->
  files <> [] /\ Forall (fun f => member_file d (cm_file_name f) = Ok f) files.
Proof.
  unfold Resolve.resolve_chain. intros (target & _ & Hk)%bind_Ok. apply bind_Ok in Hk as (names & _ & Hk). cbv zeta in Hk.
  apply bind_Ok in Hk as (u & _ & Hk). set (found := sort_by_key cm_seq_in_chain _) in Hk.
  assert (files = found /\ found <> []) as [-> Hne] by (destruct found; [done|]; by injection Hk as <-).
  split; [done|]. unfold found. rewrite sort_by_key_perm, Forall_forall. intros f Hf.
  apply list_elem_of_omap in Hf as (n & _ & Hc). unfold Resolve.candidate in Hc. destruct (negb _); [done|].
  destruct (Resolve.read_superblock d n) as [c|e] eqn:Er; [|done]. destruct (_ || _); [done|]. injection Hc as <-.
  unfold member_file. cbn [cm_file_name]. by rewrite Er.
Qed.

Lemma collect_resolved (d : D) files : Forall (fun f => member_file d (cm_file_name f) = Ok f) files ->
  collectM (member_file d) (map cm_file_name files) = Ok files.
Proof. induction 1 as [|f l Hf _ IH]; [done|]. cbn [map collectM]. by rewrite Hf, IH. Qed.

Lemma identity_of (d : D) name b sb superblock m : open_ro d name = Ok b -> File.read_exact 0 SB_SIZE b = Ok sb ->
  Sb.decode sb = Ok superblock -> Identities.read d name = Ok m ->
  rm_file_name m = name /\ rm_chain_id m = chain_id superblock /\ rm_set_id m = set_id superblock /\
  rm_seq_in_chain m = seq_in_chain superblock /\ rm_image_uuid m = image_uuid superblock /\
  rm_parent_uuid m = parent_uuid superblock /\ rm_image_kind m = image_kind superblock.
Proof.
  intros Hb Hs Hd. unfold Identities.read. rewrite Hb. cbn [bind]. rewrite Hs. cbn [bind]. rewrite Hd.
  by intros [= <-].
Qed.

Lemma opened_member (d : D) chain_key chain encrypted file reader member m :
  (let* b := open_ro d (cm_file_name file) in Img.open b) = Ok reader ->
  Members.open_member d chain_key chain encrypted (file, reader) = Ok member ->
  Identities.read d (cm_file_name file) = Ok m ->
  Selected.member_matches d member m = Ok true.
Proof.
  intros (b & Hb & Hr)%bind_Ok Ho Hm. apply image_superblock in Hr as (sb & Hs & Hd).
  destruct (identity_of _ _ _ _ _ _ Hb Hs Hd Hm) as (E1 & E2 & E3 & E4 & E5 & E6 & E7).
  unfold Members.open_member in Ho. destruct (negb _); [done|].
  apply bind_Ok in Ho as (keys & _ & Ho). cbv zeta in Ho. apply bind_Ok in Ho as (u & _ & Ho). apply bind_Ok in Ho as (h & _ & [= <-]).
  unfold Selected.member_matches. cbn [om_superblock om_file_name om_seq_in_chain om_image_uuid].
  rewrite E1, E2, E3, E4, E5, E6, E7, Z.eqb_refl, !bool_decide_true by done. cbn [andb]. rewrite Hm. cbn [bind].
  by rewrite bool_decide_true.
Qed.

Lemma opened_members (d : D) files encryption members ids :
  Members.open_chain d files encryption = Ok members ->
  collectM (fun f => Identities.read d (cm_file_name f)) files = Ok ids ->
  Selected.validate_open_chain_members d members ids = Ok tt.
Proof.
  unfold Members.open_chain. destruct files as [|f0 files0] eqn:Ef; [done|]. rewrite <- Ef. clear Ef f0 files0.
  intros (readers & Hr & Hk)%bind_Ok Hids. destruct readers as [|r0 readers0] eqn:Er; [done|]. rewrite <- Er in *. clear Er readers0.
  apply bind_Ok in Hk as ([chain_key encrypted] & _ & Hm). cbv zeta in Hm.
  apply collectM_Forall2 in Hr. apply collectM_Forall2 in Hids. apply collectM_Forall2 in Hm.
  revert members ids Hm Hids. revert Hr. generalize (chain_id (ir_superblock r0)) as chain. intros chain Hr.
  induction Hr as [|file reader files readers Hfr _ IH]; intros members ids Hm Hids.
  - inversion Hm; subst. inversion Hids; subst. done.
  - cbn [combine] in Hm. inversion Hm as [|? member ? members' Ho Hm']; subst. inversion Hids as [|? m ? ids' Hi Hids']; subst.
    specialize (IH members' ids' Hm' Hids'). unfold Selected.validate_open_chain_members in *.
    rewrite !zlen_cons. destruct (Z.eqb_spec (zlen members') (zlen ids')) as [El|]; [|done]. rewrite El, Z.eqb_refl. cbn [negb].
    cbn [List.combine Selected.match_members]. rewrite (opened_member _ _ _ _ _ _ _ _ Hfr Ho Hi). cbn [bind]. exact IH.
Qed.

(** *** What a preparation of a block chain says *)
Lemma prepared_block (pe : PrepareEnv D) request uid plan (d : D) reader keys superblock :
  Prepare.prepare_restore_as pe request uid = Ok plan -> (forall l, pe_open pe l = Ok d) ->
  Selected.open_image d (pn_image plan) (pq_encryption request) = Ok (reader, keys, superblock) ->
  image_kind superblock = Block -> Sb.is_whole_disk superblock = false ->
  exists files ids validated summary token,
    Resolve.resolve_chain d (pn_image plan) = Ok files /\
    collectM (fun f => Identities.read d (cm_file_name f)) files = Ok ids /\
    Members.open_chain d files (pq_encryption request) = Ok validated /\
    Plans.block_chain validated superblock = Ok summary /\ Plans.refuse_bad_sectors summary = Ok tt /\
    read_target_facts (th_probes (pe_target pe)) (pq_target request) = Ok (pn_target_facts plan) /\
    Target.preflight_target (pe_target pe) (pq_target request) = Ok tt /\
    pn_token plan = Tokens.encode token /\ TokenLemmas.sealed (pe_secret pe) token /\
    pn_members plan = map cm_file_name files /\
    (rt_image token = pn_image plan /\ rt_chain token = map cm_file_name files /\ rt_chain_members token = ids /\
     rt_image_uuid token = image_uuid superblock /\ rt_target_path token = pq_target request /\
     rt_target token = pn_target_facts plan /\ rt_uid token = uid /\ rt_nonce token = hex_encode (pe_random pe) /\
     rt_expires_at token = wrap64 (pe_now pe + pq_ttl request) /\ rt_identity token = pq_identity request /\
     rt_known_hosts token = pq_known_hosts request /\ rt_target_directory token = None).
Proof.
  unfold Prepare.prepare_restore_as. intros (location & _ & Hk)%bind_Ok Hopen Himg Hkind Hdisk. rewrite Hopen in Hk. cbn [bind] in Hk.
  apply bind_Ok in Hk as ([[reader' keys'] superblock'] & Hi & Hk). apply bind_Ok in Hk as (repeated & _ & Hk).
  apply bind_Ok in Hk as ([members ids] & Hm & Hk). apply bind_Ok in Hk as ([[facts directory] kw] & Ht & Hk). cbv zeta in Hk.
  apply bind_Ok in Hk as (t0 & H0' & Hk). apply bind_Ok in Hk as (t1 & H1' & Hk). apply bind_Ok in Hk as (t & H2' & Hplan).
  injection Hplan as <-. cbn [pn_image pn_target_facts pn_token pn_members] in *.
  rewrite Himg in Hi. injection Hi as <- <- <-. pose proof (TokenLemmas.seal_sealed _ _ _ H2') as Hsealed.
  unfold Prepare.prepared_members in Hm. rewrite Hdisk in Hm. apply bind_Ok in Hm as (files & Hf & Hm).
  apply bind_Ok in Hm as (ids' & Hids & Hm). apply bind_Ok in Hm as (validated & Hv & Hm). rewrite Hkind in Hm.
  apply bind_Ok in Hm as ([] & (summary & Hs & Hb)%bind_Ok & [= <- <-]).
  unfold Prepare.prepared_target in Ht. rewrite Hkind, bool_decide_false in Ht by done. apply bind_Ok in Ht as (facts' & Hfacts & Ht).
  destruct (_ <? _); [done|]. apply bind_Ok in Ht as ([] & Hp & Ht). apply bind_Ok in Ht as (u & _ & Ht).
  apply bind_Ok in Ht as (kw' & _ & [= <- <- <-]).
  exists files, ids', validated, summary, t. split_and!; try done;
  apply TokenLemmas.seal_Ok in H0' as (p0 & m0 & -> & _); apply TokenLemmas.seal_Ok in H1' as (p1 & m1 & -> & _);
  apply TokenLemmas.seal_Ok in H2' as (p & m & -> & _); done.
Qed.

(** *** What is let in *)
Lemma nonce_ok_hex (random : bytes) : random <> [] -> Used.nonce_ok (hex_encode random) = true.
Proof.
  intros Hr. unfold Used.nonce_ok. pose proof (hex_encode_nonempty random Hr). pose proof (hex_encode_digits random).
  by destruct (hex_encode random).
Qed.

Lemma redeem_fresh now t names : Used.nonce_ok (rt_nonce t) = true ->
  Used.record_name (rt_expires_at t) (rt_nonce t) ∉ names ->
  exists names', Used.redeem working now (rt_uid t) t names = (names', Ok tt).
Proof.
  intros Hn Hf. unfold Used.redeem. rewrite Z.eqb_refl. cbn [negb]. unfold step_bind, Used.consume. rewrite Hn.
  cbn [negb working ri_directory ri_read_dir ri_create ri_stays ri_sync bind]. rewrite bool_decide_false; [by eexists|].
  intros [Hin _]%list_elem_of_In%List.filter_In. by apply Hf, list_elem_of_In.
Qed.

Lemma identity_files (d : D) files ids : Forall (fun f => member_file d (cm_file_name f) = Ok f) files ->
  collectM (fun f => Identities.read d (cm_file_name f)) files = Ok ids ->
  Selected.chain_files_from_identities ids = files /\ map rm_file_name ids = map cm_file_name files.
Proof.
  intros Hf Hids%collectM_Forall2. induction Hids as [|f m files ids Hm _ IH]; [done|].
  apply Forall_cons in Hf as [Hf Hfs]. destruct (IH Hfs) as [IH1 IH2]. unfold Selected.chain_files_from_identities in *. cbn [map].
  rewrite IH1, IH2. unfold member_file, Resolve.read_superblock in Hf. apply bind_Ok in Hf as (superblock & Hs & [= <-]).
  apply bind_Ok in Hs as (b & Hb & Hs). apply bind_Ok in Hs as (sb & Hr & Hd).
  destruct (identity_of _ _ _ _ _ _ Hb Hr Hd Hm) as (-> & _ & _ & -> & -> & _). done.
Qed.

Lemma same_selection (d : D) name files ids : Resolve.resolve_chain d name = Ok files ->
  collectM (fun f => Identities.read d (cm_file_name f)) files = Ok ids ->
  Selected.selected_member_identities d name (map cm_file_name files) false = Ok ids.
Proof.
  intros Hr Hi. unfold Selected.selected_member_identities. rewrite Hr. cbn [bind]. by rewrite bool_decide_true.
Qed.

(** The verification of a selection that is as it was prepared. *)
Definition verification (d : D) (image : bytes) (files : list ChainMemberFile) (job : VerifyJob) : step Run unit :=
  do* report := VerifyImages.verify_members_in_set d image files job in lift (Reports.ensure_complete_recovery report).

Lemma verified_selection (d : D) image files ids job run :
  Resolve.resolve_chain d image = Ok files -> collectM (fun f => Identities.read d (cm_file_name f)) files = Ok ids ->
  last (map cm_file_name files) = Some image -> ctx_cancel (vj_context job) = None ->
  Selected.verify_selected_payloads d d d
    {| sp_image_name := image; sp_selected_names := map cm_file_name files; sp_expected_members := Some ids;
       sp_whole_disk := false; sp_verification := job |} run =
  (let '(run, r) := verification d image files job run in (run, let* _ := r in Ok ids)).
Proof.
  intros Hr Hi Hl Hc. pose proof (resolved_files _ _ _ Hr) as [Hne Hf]. destruct (identity_files _ _ _ Hf Hi) as [Hfiles Hnames].
  unfold Selected.verify_selected_payloads. cbn [sp_image_name sp_selected_names sp_expected_members sp_whole_disk sp_verification].
  assert (ids <> []) as Hids by (intros ->; by destruct files).
  rewrite (bool_decide_true (last _ = _)) by done.
  rewrite Hnames.
  rewrite (bool_decide_false (ids = [])) by done.
  rewrite (bool_decide_true (map _ _ = _)) by done.
  cbn [negb orb].
  rewrite (lift_goes _ _ _ ids) by (by apply same_selection). cbv beta iota zeta.
  rewrite (bool_decide_true (ids = ids)) by done. cbn [negb]. rewrite Hfiles.
  unfold Progress.check_cancel, verification, step_bind, lift. rewrite Hc.
  destruct (VerifyImages.verify_members_in_set _ _ _ _ run) as [run1 [report|e]]; [|done].
  destruct (Reports.ensure_complete_recovery report) as [[]|e]; [|done]. rewrite (same_selection d image files ids) by done.
  rewrite (bool_decide_true (ids = ids)) by done. done.
Qed.

Definition with_run (s : Applying Dev O) (run : Run) : Applying Dev O :=
  {| ap_run := run; ap_records := ap_records s; ap_device := ap_device s; ap_files := ap_files s |}.

Lemma reporter_goes {A} context size (k : Reporter -> step (Applying Dev O) A) (s : Applying Dev O) :
  ctx_cancel context = None ->
  step_bind (on_run (Progress.reporter context size)) k s =
  k {| pr_context := context; pr_total := size; pr_last_report := 0; pr_step := REPORT_STEP |} s.
Proof.
  intros Hc. apply step_goes. unfold on_run, Progress.reporter, step_bind, Progress.check_cancel. rewrite Hc. by destruct s.
Qed.

Lemma admit_goes {A} (env : ApplyEnv D) context token uid records (k : unit -> step (Applying Dev O) A) s :
  ctx_cancel context = None -> Tokens.verify (ae_secret env) (ae_clock env TickAdmission) token = Ok tt ->
  Used.redeem (ae_records env) (ae_clock env TickRedeem) uid token (ap_records s) = (records, Ok tt) ->
  step_bind (admit_token env context token uid) k s =
  k tt {| ap_run := ap_run s; ap_records := records; ap_device := ap_device s; ap_files := ap_files s |}.
Proof.
  intros Hc Hv Hr. apply step_goes. unfold admit_token. rewrite check_goes, (lift_goes _ _ _ tt) by done.
  unfold on_records. by rewrite Hr.
Qed.

Lemma claimed_goes (env : ApplyEnv D) (d : D) request token superblock files (s : Applying Dev O) :
  ctx_cancel (aq_context request) = None -> Sb.is_whole_disk superblock = false ->
  Resolve.resolve_chain d (rt_image token) = Ok files ->
  collectM (fun f => Identities.read d (cm_file_name f)) files = Ok (rt_chain_members token) ->
  chain_of token = map cm_file_name files -> last (map cm_file_name files) = Some (rt_image token) ->
  same_target env LastFacts token = Ok tt ->
  Target.preflight_target (ae_target env LastPreflight) (rt_target_path token) = Ok tt ->
  verify_claimed env (fun _ => d) request token superblock s =
  match verification d (rt_image token) files
    {| vj_request := {| vq_image := rt_image token; vq_encryption := aq_encryption request; vq_chain := false |};
       vj_context := aq_context request |} (ap_run s) with
  | (run, Err e) => (with_run s run, Err e)
  | (run, Ok _) => (with_run s (fst (Progress.phase (aq_context request) (Text.str "restore") run)), Ok tt)
  end.
Proof.
  intros Hc Hd Hr Hi Hco Hl Hs Hp. unfold verify_claimed. rewrite Hd, Hco. unfold step_bind at 1, on_run at 1.
  rewrite (verified_selection d (rt_image token) files) by done.
  destruct (verification _ _ _ _ _) as [run [u|e]]; [|done]. cbn [bind]. rewrite check_goes by done.
  rewrite (lift_goes _ _ _ tt), (lift_goes _ _ _ tt), check_goes by done. unfold on_run, Progress.phase, Progress.emit, modify.
  done.
Qed.

Lemma chain_goes (d : D) request token superblock claim reporter files members summary (s : Applying Dev O) :
  Resolve.resolve_chain d (rt_image token) = Ok files ->
  collectM (fun f => Identities.read d (cm_file_name f)) files = Ok (rt_chain_members token) ->
  chain_of token = map cm_file_name files -> ctx_cancel (aq_context request) = None ->
  Members.open_chain d files (aq_encryption request) = Ok members ->
  Plans.block_chain members superblock = Ok summary -> Plans.refuse_bad_sectors summary = Ok tt ->
  apply_chain (SR := SR) (FR := FR) (fun _ => d) request token superblock claim reporter s =
  (do* report := on_target claim reporter
     (RestoreBlock.write_block_chain members superblock (rt_image token) (rt_target_path token)) in
   step_ret (OutBlock report)) s.
Proof.
  intros Hr Hi Hco Hc Ho Hp Hb. pose proof (resolved_files _ _ _ Hr) as [_ Hf]. unfold apply_chain.
  rewrite (lift_goes _ _ _ files) by (rewrite Hco; by apply collect_resolved).
  rewrite (lift_goes _ _ _ members), (lift_goes _ _ _ summary), (lift_goes _ _ _ tt), (lift_goes _ _ _ members) by done.
  rewrite (lift_goes _ _ _ tt) by (by eapply opened_members). by rewrite check_goes.
Qed.

(** What [apply_device] does once nothing is in its way. *)
Lemma device_goes (writers : Writers D Dev O SR FR) (env : ApplyEnv D) (d : D) request token uid reader keys superblock
    claim files members summary records (s : Applying Dev O) :
  (Sb.is_inconsistent superblock = true -> aq_accept_inconsistent request = true) ->
  ae_claim env (rt_target_path token) = Ok claim ->
  (forall c, same_target env c token = Ok tt) ->
  (forall c, Target.preflight_target (ae_target env c) (rt_target_path token) = Ok tt) ->
  ctx_cancel (aq_context request) = None ->
  Tokens.verify (ae_secret env) (ae_clock env TickAdmission) token = Ok tt ->
  Used.redeem (ae_records env) (ae_clock env TickRedeem) uid token (ap_records s) = (records, Ok tt) ->
  image_kind superblock = Block -> Sb.is_whole_disk superblock = false ->
  Resolve.resolve_chain d (rt_image token) = Ok files ->
  collectM (fun f => Identities.read d (cm_file_name f)) files = Ok (rt_chain_members token) ->
  chain_of token = map cm_file_name files -> last (map cm_file_name files) = Some (rt_image token) ->
  Members.open_chain d files (aq_encryption request) = Ok members ->
  Plans.block_chain members superblock = Ok summary -> Plans.refuse_bad_sectors summary = Ok tt ->
  apply_device writers env (fun _ => d) request token uid reader keys superblock s =
  match verification d (rt_image token) files
    {| vj_request := {| vq_image := rt_image token; vq_encryption := aq_encryption request; vq_chain := false |};
       vj_context := aq_context request |} (ap_run s) with
  | (run, Err e) =>
    ({| ap_run := run; ap_records := records; ap_device := ap_device s; ap_files := ap_files s |}, Err e)
  | (run, Ok _) =>
    (do* report := on_target claim
       {| pr_context := aq_context request; pr_total := source_size_bytes superblock; pr_last_report := 0;
          pr_step := REPORT_STEP |}
       (RestoreBlock.write_block_chain members superblock (rt_image token) (rt_target_path token)) in
     step_ret (OutBlock report))
      {| ap_run := fst (Progress.phase (aq_context request) (Text.str "restore") run); ap_records := records;
         ap_device := ap_device s; ap_files := ap_files s |}
  end.
Proof.
  intros Hinc Hclaim Hsame Hpre Hctx Hv Hredeem Hkind Hdisk Hres Hids Hco Hlast Hopen Hplan Hbad. unfold apply_device.
  assert (Sb.is_inconsistent superblock && negb (aq_accept_inconsistent request) = false) as ->.
  { destruct (Sb.is_inconsistent superblock); [by rewrite Hinc|done]. }
  rewrite (lift_goes _ _ _ claim), (lift_goes _ _ _ tt), (lift_goes _ _ _ tt), reporter_goes by done.
  rewrite (admit_goes _ _ _ _ records) by done. rewrite Hkind, bool_decide_true, Hdisk, bool_decide_false by done.
  unfold step_bind at 1. rewrite (claimed_goes _ _ _ _ _ files) by done. cbn [ap_run].
  destruct (verification _ _ _ _ _) as [run [u|e]]; [|done]. by rewrite (chain_goes _ _ _ _ _ _ files members summary).
Qed.
End lemmas.
End PrepareLemmas.

(** Nothing changed between the plan and its application, and the files were
    all there is to destinations. *)
Record unchanged `{Primitives} `{HexCodec} {D : Type} (pe : PrepareEnv D) (request : PrepareRequest) (plan : RestorePlan)
    (env : ApplyEnv D) (d : D) (claim : Z * Z * Z) : Prop := {
  un_opened : forall l, pe_open pe l = Ok d;
  un_open : forall t, ae_open env t = Ok (fun _ => d);
  un_secret : ae_secret env = pe_secret pe;
  un_target : forall c, ae_target env c = pe_target pe;
  un_claim : ae_claim env (pq_target request) = Ok claim;
  un_device : forall c, ae_device_id env c = Ok (tf_dev_id (pn_target_facts plan));
  un_clock : forall k, ae_clock env k <= pe_now pe + pq_ttl request;
  un_records : ae_records env = working;
}.

(** C5: A restore of a block chain that was prepared is let through by every
    check when nothing changed, the token is in time and its nonce unused: the
    payloads are verified, and if they hold, the chain is written to the claimed
    target; if not, the error is the verification's and nothing is written. *)
Theorem prepared_restore_applies `{PrimitiveLaws} `{Destination D} `{BlockDevice Dev} `{HexLaws} `{TokenJsonLaws}
    {O SR FR : Type} (writers : Writers D Dev O SR FR) (pe : PrepareEnv D) (env : ApplyEnv D) (d : D) claim
    (preparation : PrepareRequest) (request : ApplyRequest) uid plan reader keys superblock (s : Applying Dev O) :
  Prepare.prepare_restore_as pe preparation uid = Ok plan ->
  unchanged pe preparation plan env d claim ->
  Selected.open_image d (pn_image plan) (pq_encryption preparation) = Ok (reader, keys, superblock) ->
  image_kind superblock = Block -> Sb.is_whole_disk superblock = false ->
  last (pn_members plan) = Some (pn_image plan) ->
  (Sb.is_inconsistent superblock = true -> aq_accept_inconsistent request = true) ->
  0 <= pe_now pe -> 0 <= pq_ttl preparation -> pe_now pe + pq_ttl preparation < 2 ^ 64 ->
  is_ok (Tokens.decode (pn_token plan)) = true ->
  pe_random pe <> [] -> (forall e, Used.record_name e (hex_encode (pe_random pe)) ∉ ap_records s) ->
  aq_token request = pn_token plan -> aq_confirm request = true -> aq_encryption request = pq_encryption preparation ->
  ctx_cancel (aq_context request) = None ->
  exists files members reporter records,
    Resolve.resolve_chain d (pn_image plan) = Ok files /\
    Members.open_chain d files (pq_encryption preparation) = Ok members /\
    match PrepareLemmas.verification d (pn_image plan) files
        {| vj_request := {| vq_image := pn_image plan; vq_encryption := pq_encryption preparation; vq_chain := false |};
           vj_context := aq_context request |} (ap_run s) with
    | (run, Err e) =>
      Apply.apply_restore_as writers env request uid s =
        ({| ap_run := run; ap_records := records; ap_device := ap_device s; ap_files := ap_files s |}, Err e)
    | (run, Ok _) =>
      Apply.apply_restore_as writers env request uid s =
        (do* report := Apply.on_target claim reporter
           (RestoreBlock.write_block_chain members superblock (pn_image plan) (pq_target preparation)) in
         step_ret (OutBlock report))
          {| ap_run := fst (Progress.phase (aq_context request) (Text.str "restore") run); ap_records := records;
             ap_device := ap_device s; ap_files := ap_files s |}
    end.
Proof.
  intros Hprep [Hopened Hopen Hsecret Htarget Hclaim Hdevice Hclock Hrecords] Himg Hkind Hdisk Hlast Hinc Hnow Httl Hwidth
    Hjson Hrandom Hfresh Htok Hconf Henc Hctx.
  destruct (PrepareLemmas.prepared_block _ _ _ _ _ _ _ _ Hprep Hopened Himg Hkind Hdisk) as (files & ids & members & summary & token &
    Hres & Hids & Hchain & Hplan & Hbad & Hfacts & Hpre & Hencode & Hsealed & Hmembers &
    Timage & Tchain & Tids & Tuuid & Tpath & Ttarget & Tuid & Tnonce & Texp & Tid & Tkh & Tdir).
  assert (rt_expires_at token = pe_now pe + pq_ttl preparation) as Te by (rewrite Texp; apply Z.mod_small; lia).
  assert (Tokens.decode (pn_token plan) = Ok token) as Hdecode.
  { destruct (Tokens.decode (pn_token plan)) as [t|e] eqn:E; [|done]. rewrite Hencode in E. f_equal. by apply TokenLemmas.decode_own. }
  pose proof (PrepareLemmas.resolved_files _ _ _ Hres) as [Hne Hfiles].
  assert (Apply.chain_of token = map cm_file_name files) as Hco.
  { unfold Apply.chain_of. rewrite Tchain. by destruct files. }
  destruct (PrepareLemmas.redeem_fresh (ae_clock env TickRedeem) token (ap_records s)) as [records Hredeem];
    [rewrite Tnonce; by apply PrepareLemmas.nonce_ok_hex|rewrite Tnonce; apply Hfresh|].
  assert (forall k, Tokens.verify (ae_secret env) (ae_clock env k) token = Ok tt) as Hverify.
  { intros k. rewrite Hsecret, TokenLemmas.verify_sealed by done. unfold Tokens.token_expired.
    specialize (Hclock k). rewrite (proj2 (Z.ltb_ge _ _)) by lia. done. }
  assert (forall c, Apply.same_target env c token = Ok tt) as Hsame.
  { intros c. unfold Apply.same_target. rewrite Htarget, Tpath, Hfacts. cbn [bind]. unfold Facts.facts_match.
    rewrite Ttarget, bool_decide_true by done. cbn [negb]. rewrite Hdevice. cbn [bind]. by rewrite Z.eqb_refl. }
  exists files, members, {| pr_context := aq_context request; pr_total := source_size_bytes superblock; pr_last_report := 0;
    pr_step := Progress.REPORT_STEP |}, records.
  split; [done|]. split; [done|].
  assert (Apply.apply_restore_as writers env request uid s =
    Apply.apply_device writers env (fun _ => d) request token uid reader keys superblock s) as ->.
  { unfold Apply.apply_restore_as. rewrite Hconf. cbn [negb].
    rewrite (PrepareLemmas.lift_goes _ _ _ token) by (by rewrite Htok).
    rewrite (PrepareLemmas.lift_goes _ _ _ tt) by done. rewrite (PrepareLemmas.lift_goes _ _ _ (fun _ => d)) by done.
    rewrite (PrepareLemmas.lift_goes _ _ _ (reader, keys, superblock)) by (rewrite Timage, Henc; done).
    rewrite Tuuid, bool_decide_true, Hkind, bool_decide_false by done. done. }
  rewrite (PrepareLemmas.device_goes writers env d request token uid reader keys superblock claim files members summary records);
    rewrite ?Timage, ?Tpath, ?Tids, ?Htarget, ?Hrecords, ?Henc, <- ?Tuid; try done.
  - by destruct (PrepareLemmas.verification _ _ _ _ _) as [run [u|e]].
  - intros c. by rewrite Htarget.
  - by rewrite <- Hmembers.
Qed.
