(* ===== verification/Exports.v ===== *)
(** * Read-only views of a chain ([crates/lr-export/src/backend.rs])

    What an export serves: an index of the merged states built by one walk, and
    reads that decode one chunk at a time, with the last one kept. *)

From stdpp Require Import gmap.
From S2P Require Import Prelude Core Crypto Pages Wire Superblock Chunk Footer Files PageStream ImageReader Manifest EngineKeys CatalogRecords Steps Destination Progress Chain ChainSpec Extents Devices RestoreBlock.

Inductive ChunkSlot :=
  | SlotZero
  | SlotBadSector
  | SlotStored (member : Z) (hash : bytes) (offset stored_len : Z).

Record ImageBackend := {
  ib_size : Z;
  ib_chunk_size : Z;
  ib_chunk_count : Z;
  ib_slots : gmap Z ChunkSlot;
  ib_members : list OpenMember;
  ib_fs_type : bytes;
  ib_fs_uuid : bytes;
  ib_label : bytes;
}.

(** The mutable field of the backend: the last decoded chunk. *)
Definition Cache : Type := option (Z * bytes).

Module Exports.
Section open.
Context `{Primitives} `{Destination D} (d : D).

Definition slot_of (state : ChunkState) : option ChunkSlot :=
  match state with
  | Unused => None
  | Zero => Some SlotZero
  | BadSector => Some SlotBadSector
  | Stored member hash offset stored_len => Some (SlotStored member hash offset stored_len)
  end.

(** The callback of the walk. *)
Definition index_chunk (number : Z) (state : ChunkState) (_ : ChunkAccess) : step (gmap Z ChunkSlot) unit :=
  match slot_of state with
  | None => step_ret tt
  | Some slot => modify (fun slots => <[number := slot]> slots)
  end.

Definition file_of (name : bytes) : result ChainMemberFile :=
  let* member := Resolve.read_superblock d name in
  Ok {| cm_file_name := name; cm_seq_in_chain := seq_in_chain member; cm_image_uuid := image_uuid member |}.

Definition open (images : list bytes) (encryption : Encryption) : result ImageBackend :=
  let* files := collectM file_of images in
  match files with
  | [] => Err (Unsupported "the export has no images")
  | file :: _ =>
    let* head := Resolve.read_superblock d (cm_file_name file) in
    if negb (bool_decide (image_kind head = Block)) then
      Err (Unsupported "block export needs a Block image; this is {:?}")
    else if Sb.is_whole_disk head then
      Err (Unsupported "whole-disk export is not part of Slice S13; export one partition image")
    else
      let* walk_members := Members.open_chain d files encryption in
      let* walk := Walks.new walk_members in
      let '(slots, walked) := Walks.walk walk index_chunk ∅ in
      let* _ := walked in
      let* read_members := Members.open_chain d files encryption in
      match read_members with
      | [] => Err (Unsupported "the export has no images")
      | first :: _ =>
        let* manifest := Members.stream_bytes first SManifest in
        let* (header, _, _) := BlockHeader.read manifest in
        if negb (bm_chunk_size header =? cw_chunk_size walk) then
          Err (Corrupt "the manifest and the superblock disagree about the chunk size")
        else
          Ok {| ib_size := source_size_bytes head; ib_chunk_size := cw_chunk_size walk;
                ib_chunk_count := cw_chunk_count walk; ib_slots := slots; ib_members := read_members;
                ib_fs_type := bm_fs_type header; ib_fs_uuid := bm_fs_uuid header;
                ib_label := bm_label header |}
      end
  end.
End open.

Definition is_stored_slot (slot : ChunkSlot) : bool :=
  match slot with SlotStored _ _ _ _ => true | _ => false end.

Definition stored_chunks (b : ImageBackend) : Z :=
  zlen (List.filter (fun e : Z * ChunkSlot => is_stored_slot (snd e)) (map_to_list (ib_slots b))).

Definition chunk_length (b : ImageBackend) (number : Z) : Z :=
  let start := Z.min (number * ib_chunk_size b) U64_MAX in
  Z.min (saturating_sub (ib_size b) start) (ib_chunk_size b).

(** [Vec::resize(len, 0)]. *)
Definition resize (len : Z) (b : bytes) : bytes := ztake len b ++ zrep (len - zlen b) Byte.x00.

Section reads.
Context `{Primitives}.

(** The [match] on the slot. *)
Definition decode_chunk (b : ImageBackend) (number : Z) : result bytes :=
  let length := chunk_length b number in
  match ib_slots b !! number with
  | None | Some SlotZero => Ok (zrep length Byte.x00)
  | Some SlotBadSector =>
    Err (Prelude.BadSector (wrapping_mul number (ib_chunk_size b)) (ib_chunk_size b))
  | Some (SlotStored member hash offset stored_len) =>
    let* entry := Entry.stored member hash offset stored_len in
    let* owner := ok_or (ib_members b !! Z.to_nat member)
      (Corrupt "chunk points at member {member}, which is missing") in
    let* plaintext := Members.chunk_plaintext owner entry (ib_chunk_size b) in
    Ok (resize length plaintext)
  end.

Definition chunk (b : ImageBackend) (number : Z) : step Cache bytes := fun cache =>
  match cache with
  | Some (cached, bytes) =>
    if cached =? number then (cache, Ok bytes)
    else match decode_chunk b number with
         | Ok bytes => (Some (number, bytes), Ok bytes)
         | Err e => (cache, Err e)
         end
  | None =>
    match decode_chunk b number with
    | Ok bytes => (Some (number, bytes), Ok bytes)
    | Err e => (cache, Err e)
    end
  end.

(** The loop of [read_at]; every turn fills at least one byte. The result is
    what lies in the buffer from [filled] on. *)
Fixpoint fill (fuel : nat) (b : ImageBackend) (position want : Z) : step Cache bytes :=
  if want <=? 0 then step_ret []
  else
    match fuel with
    | O => step_err (Unsupported "fill: out of fuel")
    | S fuel =>
      let number := position / ib_chunk_size b in
      if ib_chunk_count b <=? number then step_ret (zrep want Byte.x00)
      else
        do* c := chunk b number in
        let within := position mod ib_chunk_size b in
        let available := saturating_sub (zlen c) within in
        let take := Z.min available want in
        if take =? 0 then
          do* rest := fill fuel b (position + 1) (want - 1) in step_ret (Byte.x00 :: rest)
        else
          do* rest := fill fuel b (position + take) (want - take) in
          step_ret (sub within take c ++ rest)
    end.

(** [read_at] into a buffer of [len] bytes. *)
Definition read_at (b : ImageBackend) (offset len : Z) : step Cache bytes :=
  match checked_add offset len with
  | None => step_err (Corrupt "read past the address space")
  | Some end_ =>
    if ib_size b <? end_ then step_err (Corrupt "read of {} bytes at {offset} is past the {}-byte export")
    else fill (Z.to_nat len) b offset len
  end.
End reads.

(** [FileBackend]: the size is read once, the bytes at every call. *)
Definition file_read_at (file : bytes) (offset len : Z) : result bytes :=
  if (0 <? len) && (zlen file <? offset + len) then Err (Io UnexpectedEof) else Ok (sub offset len file).
End Exports.

(** * Exports against restores

    An export of a chain and a restore of the same chain are two ways to read
    it: one indexes the merged states and decodes on demand through the members,
    the other writes everything through the walk's payload access. *)

Module ExportSpec.
Import RestoreSpec.
#[local] Arguments Access.read : simpl never.

(** ** The index *)
Lemma index_all access states : forall i (slots : gmap Z ChunkSlot), (forall x, i <= x -> slots !! x = None) ->
  exists slots', visit_all (fun j s => Exports.index_chunk j s access) i states slots = (slots', Ok tt) /\
    (forall k s, states !! k = Some s -> slots' !! (i + Z.of_nat k) = Exports.slot_of s) /\
    (forall x, x < i -> slots' !! x = slots !! x).
Proof.
  induction states as [|s states IH]; intros i slots Hnone; [by exists slots|]. cbn [visit_all].
  unfold step_bind, Exports.index_chunk.
  assert (exists slots1, (match Exports.slot_of s with
      | None => step_ret tt
      | Some slot => modify (fun slots : gmap Z ChunkSlot => <[i := slot]> slots) end) slots = (slots1, Ok tt) /\
    slots1 !! i = Exports.slot_of s /\ (forall x, x <> i -> slots1 !! x = slots !! x)) as (slots1 & -> & Hi & Hx).
  { destruct (Exports.slot_of s) as [slot|].
    - eexists. split; [reflexivity|]. split; [by rewrite lookup_insert_eq|]. intros. by rewrite lookup_insert_ne.
    - exists slots. split; [done|]. split; [by apply Hnone|done]. }
  destruct (IH (i + 1) slots1) as (slots' & Hv & Hk & Hlow).
  { intros x Hle. rewrite Hx by lia. apply Hnone. lia. }
  exists slots'. split; [exact Hv|]. split.
  - intros [|k] s' Hs.
    + injection Hs as <-. rewrite Z.add_0_r, Hlow by lia. done.
    + replace (i + Z.of_nat (S k)) with (i + 1 + Z.of_nat k) by lia. by apply Hk.
  - intros x Hlt. rewrite Hlow, Hx by lia. done.
Qed.

(** ** Two ways to a payload *)
Section payloads.
Context `{Primitives}.

(** Members that differ in nothing a payload depends on. *)
Definition uniform (members : list OpenMember) : Prop := forall m m', In m members -> In m' members ->
  Sb.aead_kind (om_superblock m) = Sb.aead_kind (om_superblock m') /\
  image_kind (om_superblock m) = image_kind (om_superblock m') /\
  Sb.is_encrypted (om_superblock m) = Sb.is_encrypted (om_superblock m').

Definition keyed (m : OpenMember) : Prop :=
  is_Some (ik_data_key (om_keys m)) <-> Sb.is_encrypted (om_superblock m) = true.

Lemma open_member_facts `{Destination D} (d : D) chain_key chain encrypted file reader m :
  Members.open_member d chain_key chain encrypted (file, reader) = Ok m ->
  om_superblock m = ir_superblock reader /\ om_file_name m = cm_file_name file /\
  (is_Some (ik_data_key (om_keys m)) <-> encrypted = true).
Proof.
  unfold Members.open_member. intros Ho. destruct (negb _); [done|]. inv_ok. cbn. split_and!; [done|done|].
  unfold EKeys.unlock_with_chain_key in E. destruct (negb _); [done|]. by eapply EKeys.image_keys_data.
Qed.

Lemma open_members_facts `{Destination D} (d : D) chain_key chain encrypted R files readers members :
  Forall2 R files readers ->
  Forall2 (fun x m => Members.open_member d chain_key chain encrypted x = Ok m) (combine files readers) members ->
  Forall2 (fun r m => om_superblock m = ir_superblock r /\
    (is_Some (ik_data_key (om_keys m)) <-> encrypted = true)) readers members.
Proof.
  intros Hfr. revert members. induction Hfr as [|f r fs rs _ _ IH]; intros members Ho; cbn [combine] in Ho.
  - inversion Ho. constructor.
  - inversion Ho as [|? m ? ms Hm Hms]; subst. constructor; [|by apply IH].
    apply open_member_facts in Hm. tauto.
Qed.

Lemma open_chain_facts `{Destination D} (d : D) files encryption members :
  Members.open_chain d files encryption = Ok members ->
  exists first readers,
    Forall2 (fun f r => exists b, open_ro d (cm_file_name f) = Ok b /\ Img.open b = Ok r) files (first :: readers) /\
    Forall2 (fun r m => om_superblock m = ir_superblock r /\
      (is_Some (ik_data_key (om_keys m)) <-> Sb.is_encrypted (ir_superblock first) = true)) (first :: readers) members.
Proof.
  unfold Members.open_chain. destruct files as [|f files]; [done|]. intros Ho. inv_ok.
  destruct v as [|first readers]; [done|]. inv_ok. exists first, readers. split.
  - apply collectM_Forall2 in E. eapply Forall2_impl; [exact E|]. intros f' r Hr. cbn in Hr. inv_ok. eauto.
  - assert (b = Sb.is_encrypted (ir_superblock first)) as ->.
    { by eapply EKeys.chain_key_encrypted. }
    apply collectM_Forall2 in E, Ho. by eapply open_members_facts.
Qed.

Lemma access_payload w access member hash offset stored_len p :
  access_of w access -> uniform (cw_members w) -> Forall keyed (cw_members w) ->
  Access.read access (Stored member hash offset stored_len) = Ok p ->
  exists owner, cw_members w !! Z.to_nat member = Some owner /\
    forall e, be_hash e = hash -> be_offset e = offset -> Members.chunk_plaintext owner e (cw_chunk_size w) = Ok p.
Proof.
  intros (first & rest & kind & Hms & Hkind & ->) Hu Hk. unfold Access.read. intros Hr. inv_ok. apply ok_or_Ok in E, E0.
  cbn [ca_readers ca_keys Walks.access ca_aead ca_image_kind ca_max_plaintext] in *.
  change (map om_chunks (cw_members w)) with (om_chunks <$> cw_members w) in E.
  change (map Walks.access_keys (cw_members w)) with (Walks.access_keys <$> cw_members w) in E0.
  rewrite list_lookup_fmap in E. rewrite list_lookup_fmap in E0. destruct (cw_members w !! Z.to_nat member) as [owner|] eqn:Eo; [|done].
  injection E as <-. injection E0 as <-. exists owner. split; [done|]. intros e <- <-.
  assert (In owner (cw_members w)) as Hin by (by eapply list_elem_of_In, list_elem_of_lookup_2).
  assert (In first (cw_members w)) as Hf by (rewrite Hms; by left).
  destruct (Hu owner first Hin Hf) as (Ha & Hi & _). apply (proj1 (List.Forall_forall _ _)) with (x := owner) in Hk; [|done].
  unfold Members.chunk_plaintext. rewrite Ha, Hkind. cbn [bind].
  destruct (ik_data_key (om_keys owner)) as [dk|] eqn:Ed.
  - rewrite (proj1 Hk ltac:(by eexists)). cbn [ok_or bind]. rewrite E1, Hi. cbn [bind].
    cbn [Walks.access_keys ak_data_key ak_dedup_key] in Hr. by rewrite Ed in Hr.
  - destruct (Sb.is_encrypted (om_superblock owner)) eqn:Ee; [destruct (proj2 Hk Ee); congruence|].
    cbn [bind]. rewrite E1, Hi. cbn [bind]. cbn [Walks.access_keys ak_data_key ak_dedup_key] in Hr. by rewrite Ed in Hr.
Qed.
End payloads.

(** ** Reads *)
Section reads.
Context `{Primitives} (b : ImageBackend) (image : bytes).

Definition chunk_offset (i : Z) : Z := i * ib_chunk_size b.
Definition chunk_len (i : Z) : Z := Z.min (ib_chunk_size b) (ib_size b - chunk_offset i).

(** Every chunk decodes to its part of [image]. *)
Record exports : Prop := {
  ex_chunk_size : 0 < ib_chunk_size b < 2 ^ 32;
  ex_size : 0 <= ib_size b < 2 ^ 63;
  ex_count : ib_chunk_count b = div_ceil (ib_size b) (ib_chunk_size b);
  ex_len : ib_size b <= zlen image;
  ex_chunks : forall i, 0 <= i < ib_chunk_count b ->
    Exports.decode_chunk b i = Ok (sub (chunk_offset i) (chunk_len i) image);
}.

Definition cached (cache : Cache) : Prop := match cache with
  | Some (i, c) => 0 <= i < ib_chunk_count b /\ c = sub (chunk_offset i) (chunk_len i) image
  | None => True
  end.

Lemma chunk_spec i cache : exports -> cached cache -> 0 <= i < ib_chunk_count b ->
  exists cache', Exports.chunk b i cache = (cache', Ok (sub (chunk_offset i) (chunk_len i) image)) /\ cached cache'.
Proof.
  intros Hex Hc Hi. unfold Exports.chunk. rewrite (ex_chunks Hex i Hi).
  destruct cache as [[j c]|].
  - destruct (Z.eqb_spec j i) as [->|]; [exists (Some (i, c))|by eexists].
    by destruct Hc as [_ ->].
  - by eexists.
Qed.

Lemma fill_spec fuel : forall position want cache, exports -> cached cache -> 0 <= position ->
  position + want <= ib_size b -> want <= Z.of_nat fuel ->
  exists cache', Exports.fill fuel b position want cache = (cache', Ok (sub position want image)) /\ cached cache'.
Proof.
  induction fuel as [|fuel IH]; intros position want cache Hex Hc Hp Hw Hf; cbn [Exports.fill];
    destruct (Z.leb_spec want 0) as [Hz|Hz];
    try (exists cache; split; [unfold sub; by rewrite ztake_nonpos by done|done]); [lia|].
  destruct (ex_chunk_size Hex) as [Hcs _]. pose proof (ex_len Hex) as Hl. pose proof (ex_size Hex) as Hs.
  pose proof (div_ceil_spec (ib_size b) (ib_chunk_size b) ltac:(lia) Hcs) as Hdc. rewrite <- (ex_count Hex) in Hdc.
  pose proof (Z.mul_div_le position (ib_chunk_size b) Hcs) as Hlo.
  pose proof (Z.mul_succ_div_gt position (ib_chunk_size b) Hcs) as Hhi.
  pose proof (Z.div_mod position (ib_chunk_size b) ltac:(lia)) as Hdm.
  pose proof (Z.mod_pos_bound position (ib_chunk_size b) Hcs) as Hmod.
  pose proof (Z.div_pos position (ib_chunk_size b) Hp Hcs) as Hpos.
  set (i := position / ib_chunk_size b) in *. set (within := position mod ib_chunk_size b) in *.
  assert (i < ib_chunk_count b) as Hi by nia.
  rewrite (proj2 (Z.leb_gt _ _)) by done. unfold step_bind.
  destruct (chunk_spec i cache Hex Hc) as (cache1 & -> & Hc1); [done|].
  assert (chunk_offset i + within = position) as Hpw by (unfold chunk_offset; lia).
  assert (within < chunk_len i) as Hin by (unfold chunk_len; lia).
  assert (zlen (sub (chunk_offset i) (chunk_len i) image) = chunk_len i) as Hcl.
  { apply zlen_sub; unfold chunk_len, chunk_offset in *; nia. }
  rewrite Hcl. unfold saturating_sub. rewrite (Z.max_l (chunk_len i - within)) by lia.
  set (take := Z.min (chunk_len i - within) want). rewrite (proj2 (Z.eqb_neq take 0)) by lia.
  destruct (IH (position + take) (want - take) cache1 Hex Hc1) as (cache2 & -> & Hc2); [lia..|].
  exists cache2. split; [|done]. unfold step_ret. do 2 f_equal.
  replace want with (take + (want - take)) at 2 by lia. rewrite sub_split by lia. f_equal.
  rewrite <- Hpw. unfold sub at 2, zdrop at 1. unfold sub, ztake, zdrop. rewrite skipn_firstn_comm, take_take, skipn_skipn.
  f_equal; [lia|]. f_equal. unfold chunk_offset in *. lia.
Qed.

Lemma read_spec offset len cache : exports -> cached cache -> 0 <= offset -> 0 <= len -> offset + len <= ib_size b ->
  exists cache', Exports.read_at b offset len cache = (cache', Ok (sub offset len image)) /\ cached cache'.
Proof.
  intros Hex Hc Ho Hl Hs. pose proof (ex_size Hex). unfold Exports.read_at, checked_add, U64_MAX.
  rewrite (proj2 (Z.leb_le _ _)) by lia. rewrite (proj2 (Z.ltb_ge _ _)) by lia. apply fill_spec; try done. lia.
Qed.
End reads.

(** Reads one after the other, as a client of the export makes them. *)
Fixpoint serve `{Primitives} (b : ImageBackend) (requests : list (Z * Z)) : step Cache (list bytes) :=
  match requests with
  | [] => step_ret []
  | (offset, len) :: requests =>
    do* buffer := Exports.read_at b offset len in
    do* buffers := serve b requests in
    step_ret (buffer :: buffers)
  end.

Lemma serve_spec `{Primitives} b image requests : exports b image ->
  Forall (fun '(o, l) => 0 <= o /\ 0 <= l /\ o + l <= ib_size b) requests -> forall cache, cached b image cache ->
  exists cache', serve b requests cache = (cache', Ok (map (fun '(o, l) => sub o l image) requests)).
Proof.
  intros Hex. induction 1 as [|[o l] requests (Ho & Hl & Hs) _ IH]; intros cache Hc; [by eexists|].
  cbn [serve map]. unfold step_bind. destruct (read_spec b image o l cache Hex Hc Ho Hl Hs) as (cache1 & -> & Hc1).
  destruct (IH cache1 Hc1) as (cache2 & ->). by eexists.
Qed.

(** ** The export of a restored chain *)
Section agreement.
Context `{PrimitiveLaws} `{BlockDeviceLaws D}.

Definition member_fits (s : ChunkState) : Prop :=
  match s with Stored member _ _ _ => 0 <= member <= MAX_MEMBER | _ => True end.

Lemma of_entry_fits e : Entry.ok e -> member_fits (ChunkStates.of_entry e).
Proof. intros []. unfold ChunkStates.of_entry. by repeat case_match. Qed.

(** A merged state names a member an entry can name. *)
Lemma merged_fits n mms i s : Forall (manifest_ok n) mms -> merged_states n mms !! i = Some s -> member_fits s.
Proof.
  intros Hm Hs. pose proof (merged_recordable n mms Hm) as Hr. rewrite Forall_lookup in Hr.
  destruct (Hr i s Hs) as (e & He & <-). by apply of_entry_fits.
Qed.

Lemma open_superblock b r : Img.open b = Ok r ->
  (let* s := File.read_exact 0 SB_SIZE b in Sb.decode s) = Ok (ir_superblock r).
Proof. unfold Img.open. case_match; [done|]. intros Ho. inv_ok. rewrite E. cbn. exact E0. Qed.

(** Every member of a walk agrees with the first. *)
Lemma walk_agrees members w : zlen members <= 2 ^ 32 -> Walks.new members = Ok w ->
  exists first rest, cw_members w = first :: rest /\ cw_chunk_size w = chunk_size (om_superblock first) /\
    forall m, In m (cw_members w) -> agrees_with (om_superblock first) (om_superblock m).
Proof.
  intros Hlen Hw. unfold Walks.new in Hw. destruct members as [|m0 ms] eqn:Em; [done|]. rewrite <- Em in *.
  pose proof (sort_by_key_perm om_seq_in_chain members) as Hp.
  destruct (sort_by_key om_seq_in_chain members) as [|first rest]; [done|].
  destruct (negb _ || negb _); [done|]. apply bind_Ok in Hw as (u & Hl & Hw). inv_ok. cbn [cw_members cw_chunk_size].
  exists first, rest. split_and!; [done..|]. intros m Hm. apply list_elem_of_In, list_elem_of_lookup_1 in Hm as [i Hi].
  assert (0 + zlen (first :: rest) <= 2 ^ 32) as Hz by (unfold zlen in *; rewrite (Permutation_length Hp); lia).
  by destruct (check_links_Ok (om_superblock first) (first :: rest) 0 None u Hz ltac:(done) ltac:(done) Hl i m Hi) as (_ & Ha & _).
Qed.

(** A decoded chunk is what the restore wrote. *)
Lemma decode_restored b w access i state old new :
  access_of w access -> uniform (cw_members w) -> Forall keyed (cw_members w) ->
  ib_members b = cw_members w -> ib_chunk_size b = cw_chunk_size w ->
  0 <= i -> 0 < ib_chunk_size b < 2 ^ 32 -> 0 <= ib_size b < 2 ^ 63 -> chunk_offset b i < ib_size b ->
  ib_slots b !! i = Exports.slot_of state -> member_fits state ->
  (state = Unused -> old = zrep (chunk_len b i) Byte.x00) ->
  restored access (chunk_len b i) state old new -> Exports.decode_chunk b i = Ok new.
Proof.
  intros Ha Hu Hk Hms Hcs Hi Hc Hsz Hoff Hslot Hfit Hold Hr. unfold Exports.decode_chunk. rewrite Hslot.
  assert (Exports.chunk_length b i = chunk_len b i) as ->.
  { unfold Exports.chunk_length, chunk_len, chunk_offset, saturating_sub, U64_MAX in *. lia. }
  destruct state as [| |member hash offset stored_len|]; cbn [Exports.slot_of restored] in *.
  - rewrite Hr. by rewrite Hold.
  - by rewrite Hr.
  - destruct Hr as [Hr Hl]. destruct (access_payload w access member hash offset stored_len new Ha Hu Hk Hr) as (owner & Ho & Hp).
    unfold Entry.stored. cbn [member_fits] in Hfit. rewrite (proj2 (Z.ltb_ge _ _)) by lia. cbn [bind].
    rewrite Hms, Ho. cbn [ok_or bind]. rewrite Hcs, Hp by done. cbn [bind].
    unfold Exports.resize. rewrite ztake_all, Hl, Z.sub_diag by lia. by rewrite app_nil_r.
  - done.
Qed.

Lemma open_keyed `{Destination DD} (d : DD) files encryption members :
  Members.open_chain d files encryption = Ok members -> uniform members -> Forall keyed members.
Proof.
  intros Ho Hu. apply open_chain_facts in Ho as (first & readers & _ & Hm).
  inversion Hm as [|? m1 ? ms [Hs1 Hk1] Hms]; subst. apply List.Forall_forall. intros m Hin.
  pose proof Hin as Hi. apply list_elem_of_In, list_elem_of_lookup_1 in Hi as [i Hi].
  destruct (Forall2_lookup_r _ _ _ _ _ Hm Hi) as (r & _ & _ & Hk). unfold keyed. rewrite Hk, <- Hs1.
  by destruct (Hu m1 m (or_introl eq_refl) Hin) as (_ & _ & <-).
Qed.

(** What an opened export is over. *)
Lemma open_backend `{Destination DD} (d : DD) images files encryption members w n mms b :
  collectM (Exports.file_of d) images = Ok files -> Members.open_chain d files encryption = Ok members ->
  Walks.new members = Ok w -> Forall2 (manifest_of n (cw_chunk_size w)) (cw_members w) mms ->
  Exports.open d images encryption = Ok b ->
  ib_members b = members /\ ib_chunk_size b = cw_chunk_size w /\ ib_chunk_count b = Z.of_nat n /\
  (exists first rest, members = first :: rest /\ ib_size b = source_size_bytes (om_superblock first)) /\
  forall k s, merged_states n mms !! k = Some s -> ib_slots b !! Z.of_nat k = Exports.slot_of s.
Proof.
  intros Hf Ho Hw Hm. unfold Exports.open. rewrite Hf. cbn [bind]. destruct files as [|file files]; [done|].
  intros Hb. apply bind_Ok in Hb as (head & Hh & Hb). destruct (negb _); [done|]. destruct (Sb.is_whole_disk head); [done|].
  rewrite Ho in Hb. cbn [bind] in Hb. rewrite Hw in Hb. cbn [bind] in Hb.
  destruct (walks_access members w n mms Hw Hm) as (Hn & access & Ha & Hv). rewrite (proj1 (Hv _ _ _)) in Hb.
  destruct (index_all access (merged_states n mms) 0 ∅) as (slots & Hi & Hk & _); [by intros|].
  rewrite Hi in Hb. cbn [bind] in Hb. destruct members as [|first rest]; [done|].
  apply bind_Ok in Hb as (manifest & _ & Hb). apply bind_Ok in Hb as ([[header delta] src] & _ & Hb).
  destruct (negb _); [done|]. injection Hb as <-. cbn. split_and!; [done|done|done| |].
  - exists first, rest. split; [done|]. apply open_chain_facts in Ho as (r & rs & Hfr & Hrm).
    inversion Hfr as [|? ? ? ? (x & Hx & Hr) _]; subst. inversion Hrm as [|? ? ? ? [Hs1 _] _]; subst. rewrite Hs1.
    unfold Resolve.read_superblock in Hh. rewrite Hx in Hh. cbn [bind] in Hh.
    pose proof (open_superblock _ _ Hr) as Hs. rewrite Hs in Hh. by injection Hh as <-.
  - intros k s Hs. by apply (Hk k s).
Qed.

(** C9: An export serves what a restore writes. When the members of a chain are
    given to the export in chain order and agree on cipher and encryption, then
    after a restore of that chain has succeeded onto a target that was zero where
    the source had nothing, every sequence of reads inside the export returns the
    bytes of the restored target, whatever the cache held in between; and the
    export is as long as the source. *)
Theorem export_serves_restore `{Destination DD} (d : DD) (images : list bytes) (files : list ChainMemberFile)
    (encryption : Encryption) (members : list OpenMember) (w : ChainWalk) (n : nat) (mms : list MemberManifest)
    (b : ImageBackend) (m : OpenMember) (image target_path : bytes) (run run' : Run) (p p' : Reporter)
    (t t' : DirectBlockTarget D) (report : RestoreReport) (requests : list (Z * Z)) :
  collectM (Exports.file_of d) images = Ok files -> Members.open_chain d files encryption = Ok members ->
  zlen members <= 2 ^ 32 -> uniform members ->
  Walks.new members = Ok w -> cw_members w = members ->
  Forall2 (manifest_of n (cw_chunk_size w)) members mms ->
  Exports.open d images encryption = Ok b ->
  In m members -> 0 <= source_size_bytes (om_superblock m) < 2 ^ 63 -> 0 < chunk_size (om_superblock m) < 2 ^ 32 ->
  target_ok t ->
  (forall i, merged_states n mms !! i = Some Unused ->
     sub (chunk_offset b (Z.of_nat i)) (chunk_len b (Z.of_nat i)) (contents (bt_handle t)) =
       zrep (chunk_len b (Z.of_nat i)) Byte.x00) ->
  RestoreBlock.write_block_chain members (om_superblock m) image target_path (run, p, t) =
    ((run', p', t'), Ok report) ->
  Forall (fun '(o, l) => 0 <= o /\ 0 <= l /\ o + l <= ib_size b) requests ->
  ib_size b = source_size_bytes (om_superblock m) /\
  exists cache, serve b requests None =
    (cache, Ok (map (fun '(o, l) => sub o l (contents (bt_handle t'))) requests)).
Proof.
  intros Hf Ho Hlen Hu Hw Hsame Hm Hb Hin Hsz Hcs Ht Hzero Hr Hreq. rewrite <- Hsame in Hm.
  destruct (open_backend d images files encryption members w n mms b Hf Ho Hw Hm Hb)
    as (Hms & Hbc & Hbn & (first & rest & Hfr & Hbs) & Hslots).
  destruct (walk_agrees members w Hlen Hw) as (first' & rest' & Hfr' & Hwc & Hag).
  assert (first' = first) as -> by congruence. rewrite Hsame in Hag. destruct (Hag m Hin) as (Hc & Hs & _).
  assert (ib_size b = source_size_bytes (om_superblock m)) as Hsize by congruence.
  assert (ib_chunk_size b = chunk_size (om_superblock m)) as Hchunk by congruence.
  split; [done|].
  destruct (restore_exact members w n mms (om_superblock m) image target_path run run' p p' t t' report Hw Hm Hsz Hcs Ht Hr)
    as (access & Ha & Hal & Hfit & Hcount & Hchunks & _).
  apply serve_spec; [|done|done]. rewrite <- Hsize, <- Hchunk in *. split; [done|done|by rewrite Hbn|lia|].
  intros i Hi. destruct (merged_states_lookup n mms (Z.to_nat i) (manifest_states_ok _ _ _ _ Hm)) as [Hl Hx].
  specialize (Hx ltac:(lia)). specialize (Hchunks _ _ Hx). cbn zeta in Hchunks. rewrite Z2Nat.id in Hchunks by lia.
  pose proof (div_ceil_spec (ib_size b) (ib_chunk_size b) ltac:(lia) ltac:(lia)) as Hdc.
  apply (decode_restored b w access i (merged_state mms (Z.to_nat i) Unused)
    (sub (chunk_offset b i) (chunk_len b i) (contents (bt_handle t)))); try done; try lia.
  - by rewrite Hsame.
  - rewrite Hsame. by eapply open_keyed.
  - by rewrite Hsame.
  - unfold chunk_offset. nia.
  - rewrite <- (Hslots _ _ Hx). by rewrite Z2Nat.id by lia.
  - by eapply merged_fits, Hx; eapply manifest_states_ok.
  - intros Hun. rewrite Hun in Hx. specialize (Hzero _ Hx). by rewrite Z2Nat.id in Hzero by lia.
Qed.
End agreement.
End ExportSpec.
