(* ===== verification/Nbd.v ===== *)
(** * The NBD server ([crates/lr-export/src/nbd.rs])

    One client of a read-only export: the handshake, option haggling and the
    transmission phase, over a connection that has a client's bytes to read,
    takes the server's and can break. *)

From S2P Require Import Prelude Text Core Steps Crypto EngineKeys Exports.

(** [BlockBackend]. *)
Class BlockBackend (B : Type) := {
  size_bytes : B -> Z;
  backend_read : Z -> Z -> step B bytes;
}.

Record ExportConfig := { ec_name : bytes; ec_description : bytes; ec_read_only : bool }.

(** A connection with the backend it serves: what the client sends before it
    closes its side, what has reached it, how much it still takes ([None]:
    everything), and the next looks at the stop flag. *)
Record Conn (B : Type) := {
  cn_in : bytes;
  cn_out : bytes;
  cn_room : option Z;
  cn_stops : list bool;
  cn_backend : B;
}.
Arguments cn_in {B} _.
Arguments cn_out {B} _.
Arguments cn_room {B} _.
Arguments cn_stops {B} _.
Arguments cn_backend {B} _.

Module Nbd.
Definition NBDMAGIC : Z := 0x4e42444d41474943.
Definition IHAVEOPT : Z := 0x49484156454f5054.
Definition REP_MAGIC : Z := 0x3e889045565a9.
Definition REQUEST_MAGIC : Z := 0x25609513.
Definition SIMPLE_REPLY_MAGIC : Z := 0x67446698.
Definition FLAG_FIXED_NEWSTYLE : Z := 1.
Definition FLAG_NO_ZEROES : Z := 2.
Definition FLAG_C_FIXED_NEWSTYLE : Z := 1.
Definition FLAG_HAS_FLAGS : Z := 1.
Definition FLAG_READ_ONLY : Z := 2.
Definition FLAG_SEND_FLUSH : Z := 4.
Definition FLAG_SEND_TRIM : Z := 32.
Definition OPT_EXPORT_NAME : Z := 1.
Definition OPT_ABORT : Z := 2.
Definition OPT_LIST : Z := 3.
Definition OPT_INFO : Z := 6.
Definition OPT_GO : Z := 7.
Definition REP_ACK : Z := 1.
Definition REP_SERVER : Z := 2.
Definition REP_INFO : Z := 3.
Definition REP_ERR_UNSUP : Z := 0x80000001.
Definition REP_ERR_INVALID : Z := 0x80000003.
Definition INFO_EXPORT : Z := 0.
Definition INFO_NAME : Z := 1.
Definition INFO_BLOCK_SIZE : Z := 3.
Definition CMD_READ : Z := 0.
Definition CMD_WRITE : Z := 1.
Definition CMD_DISC : Z := 2.
Definition CMD_FLUSH : Z := 3.
Definition CMD_TRIM : Z := 4.
Definition CMD_WRITE_ZEROES : Z := 6.
Definition ERR_PERM : Z := 1.
Definition ERR_IO : Z := 5.
Definition ERR_NOTSUP : Z := 95.

Definition be (n : nat) (z : Z) : bytes := rev (le_bytes n z).
Definition be_val (b : bytes) : Z := le_val (rev b).

Definition transmission_flags (c : ExportConfig) : Z :=
  let flags := Z.lor (Z.lor FLAG_HAS_FLAGS FLAG_SEND_FLUSH) FLAG_SEND_TRIM in
  if ec_read_only c then Z.lor flags FLAG_READ_ONLY else flags.

Section server.
Context {B : Type} `{BlockBackend B}.
Abbreviation step := (step (Conn B)).

(** ** The stream *)
Definition read_exact (n : Z) : step bytes := fun c =>
  let rest input := {| cn_in := input; cn_out := cn_out c; cn_room := cn_room c; cn_stops := cn_stops c; cn_backend := cn_backend c |} in
  if n <=? zlen (cn_in c) then (rest (zdrop n (cn_in c)), Ok (ztake n (cn_in c))) else (rest [], Err (Io UnexpectedEof)).
(** [write_all], and [flush], which a socket does not need. *)
Definition write_all (b : bytes) : step unit := fun c =>
  let wrote b room := {| cn_in := cn_in c; cn_out := cn_out c ++ b; cn_room := room; cn_stops := cn_stops c; cn_backend := cn_backend c |} in
  match cn_room c with
  | None => (wrote b None, Ok tt)
  | Some room => if zlen b <=? room then (wrote b (Some (room - zlen b)), Ok tt) else (wrote (ztake room b) (Some 0), Err (Io BrokenPipe))
  end.
Definition stopped : step bool := fun c =>
  ({| cn_in := cn_in c; cn_out := cn_out c; cn_room := cn_room c; cn_stops := tail (cn_stops c); cn_backend := cn_backend c |},
   Ok (default false (head (cn_stops c)))).
Definition on_backend {A} (s : Steps.step B A) : step A := fun c =>
  let '(b, r) := s (cn_backend c) in
  ({| cn_in := cn_in c; cn_out := cn_out c; cn_room := cn_room c; cn_stops := cn_stops c; cn_backend := b |}, r).

Definition read_u32 : step Z := do* b := read_exact 4 in step_ret (be_val b).
Definition read_u64 : step Z := do* b := read_exact 8 in step_ret (be_val b).
Definition write_u16 (v : Z) : step unit := write_all (be 2 v).
Definition write_u32 (v : Z) : step unit := write_all (be 4 v).
Definition write_u64 (v : Z) : step unit := write_all (be 8 v).

Definition is_disconnect (e : error) : bool :=
  match e with Io UnexpectedEof | Io ConnectionReset | Io ConnectionAborted | Io BrokenPipe => true | _ => false end.
(** [None] when the client has gone. *)
Definition unless_gone {A} (s : step A) : step (option A) := fun c =>
  match s c with
  | (c, Ok a) => (c, Ok (Some a))
  | (c, Err e) => if is_disconnect e then (c, Ok None) else (c, Err e)
  end.

(** ** The phases *)
Section config.
Context (config : ExportConfig).

Definition handshake : step bool :=
  do* _ := write_u64 NBDMAGIC in
  do* _ := write_u64 IHAVEOPT in
  do* _ := write_u16 (Z.lor FLAG_FIXED_NEWSTYLE FLAG_NO_ZEROES) in
  do* client_flags := unless_gone read_u32 in
  match client_flags with
  | None => step_ret false
  | Some flags =>
    if Z.land flags FLAG_C_FIXED_NEWSTYLE =? 0 then step_err (Corrupt "the client did not accept the fixed newstyle handshake")
    else step_ret true
  end.

Definition option_reply (option reply_type : Z) (payload : bytes) : step unit :=
  do* _ := write_u64 REP_MAGIC in
  do* _ := write_u32 option in
  do* _ := write_u32 reply_type in
  do* _ := write_u32 (zlen payload) in
  write_all payload.

Definition known_name (name : bytes) : bool := bool_decide (ec_name config = []) || bool_decide (Text.utf8_lossy name = ec_name config).

(** The information requests that are there, of [n] announced. *)
Fixpoint infos (n : nat) (data : bytes) : list Z :=
  match n, data with
  | S n, a :: b :: data => be_val [a; b] :: infos n data
  | _, _ => []
  end.
(** [Vec::dedup]. *)
Fixpoint dedup (l : list Z) : list Z :=
  match l with
  | x :: ((y :: _) as l') => if x =? y then dedup l' else x :: dedup l'
  | l => l
  end.

Definition reply_info (option info : Z) : step unit := fun c =>
  (if info =? INFO_EXPORT then
     option_reply option REP_INFO (be 2 INFO_EXPORT ++ be 8 (size_bytes (cn_backend c)) ++ be 2 (transmission_flags config))
   else if info =? INFO_NAME then option_reply option REP_INFO (be 2 INFO_NAME ++ ec_name config)
   else if info =? INFO_BLOCK_SIZE then
     option_reply option REP_INFO (be 2 INFO_BLOCK_SIZE ++ be 4 512 ++ be 4 4096 ++ be 4 (32 * 1024 * 1024))
   else step_ret tt) c.

(** [OPT_INFO] and [OPT_GO]; [true] when the transmission phase begins. *)
Definition info_or_go (option : Z) (data : bytes) : step bool :=
  if zlen data <? 6 then do* _ := option_reply option REP_ERR_INVALID (Text.str "short info request") in step_ret false
  else
    let name_len := be_val (sub 0 4 data) in
    if zlen data <? 4 + name_len + 2 then do* _ := option_reply option REP_ERR_INVALID (Text.str "bad info request") in step_ret false
    else if negb (known_name (sub 4 name_len data)) then
      do* _ := option_reply option REP_ERR_UNSUP (Text.str "unknown export") in step_ret false
    else
      let count_at := 4 + name_len in
      let requested := be_val (sub count_at 2 data) in
      let requested_infos := infos (Z.to_nat requested) (zdrop (count_at + 2) data) in
      let requests :=
        if option =? OPT_GO then INFO_EXPORT :: requested_infos
        else if requested =? 0 then [INFO_EXPORT; INFO_BLOCK_SIZE]
        else requested_infos in
      do* _ := step_iter (reply_info option) (dedup requests) in
      do* _ := option_reply option REP_ACK [] in
      step_ret (option =? OPT_GO).

(** One option: whether haggling is over, and with the transmission phase next. *)
Definition haggle_option (option : Z) (data : bytes) : step (Datatypes.option bool) :=
  if option =? OPT_EXPORT_NAME then
    if negb (known_name data) then step_ret (Some false)
    else fun c =>
      (do* _ := write_u64 (size_bytes (cn_backend c)) in
       do* _ := write_u16 (transmission_flags config) in
       step_ret (Some true)) c
  else if option =? OPT_ABORT then step_ret (Some false)
  else if option =? OPT_LIST then
    do* _ := option_reply option REP_SERVER (be 4 (zlen (ec_name config)) ++ ec_name config ++
                                             be 4 (zlen (ec_description config)) ++ ec_description config) in
    do* _ := option_reply option REP_ACK [] in
    step_ret None
  else if (option =? OPT_INFO) || (option =? OPT_GO) then
    do* go := info_or_go option data in step_ret (if go : bool then Some true else None)
  else
    do* _ := option_reply option REP_ERR_UNSUP (Text.str "unsupported option") in step_ret None.

(** The loop; every option takes sixteen bytes at least. *)
Fixpoint option_haggling (fuel : nat) : step bool :=
  match fuel with
  | O => step_err (Unsupported "option_haggling: out of fuel")
  | S fuel =>
    do* magic := unless_gone read_u64 in
    match magic with
    | None => step_ret false
    | Some magic =>
      if negb (magic =? IHAVEOPT) then step_err (Corrupt "option magic {magic:#x} is not IHAVEOPT")
      else
        do* option := read_u32 in
        do* length := read_u32 in
        do* data := read_exact length in
        do* over := haggle_option option data in
        match over with
        | Some go => step_ret go
        | None => option_haggling fuel
        end
    end
  end.
End config.

Definition simple_error (code handle : Z) : step unit :=
  do* _ := write_u32 SIMPLE_REPLY_MAGIC in
  do* _ := write_u32 code in
  write_u64 handle.

Definition read_backend (offset len : Z) : Steps.step B bytes := fun b =>
  match checked_add offset len with
  | None => (b, Err (Corrupt "NBD read overflows the address space"))
  | Some end_ =>
    if size_bytes b <? end_ then (b, Err (Corrupt "NBD read of {} bytes at {offset} is past the end of the {size}-byte export"))
    else backend_read offset len b
  end.

Definition reply_read (handle offset len : Z) : step unit := fun c =>
  match on_backend (read_backend offset len) c with
  | (c, Ok buffer) =>
    (do* _ := write_u32 SIMPLE_REPLY_MAGIC in
     do* _ := write_u32 0 in
     do* _ := write_u64 handle in
     write_all buffer) c
  | (c, Err _) => simple_error ERR_IO handle c
  end.

(** One request; [false] for the last one. *)
Definition request (command handle offset len : Z) : step bool :=
  if command =? CMD_READ then do* _ := reply_read handle offset len in step_ret true
  else if command =? CMD_DISC then step_ret false
  else if (command =? CMD_FLUSH) || (command =? CMD_TRIM) then do* _ := simple_error 0 handle in step_ret true
  else if (command =? CMD_WRITE) || (command =? CMD_WRITE_ZEROES) then do* _ := simple_error ERR_PERM handle in step_ret true
  else do* _ := simple_error ERR_NOTSUP handle in step_ret true.

Fixpoint transmission (fuel : nat) : step unit :=
  match fuel with
  | O => step_err (Unsupported "transmission: out of fuel")
  | S fuel =>
    do* stop := stopped in
    if stop : bool then step_ret tt
    else
      do* header := unless_gone (read_exact 28) in
      match header with
      | None => step_ret tt
      | Some header =>
        if negb (be_val (sub 0 4 header) =? REQUEST_MAGIC) then step_err (Corrupt "request magic {magic:#x} is not {REQUEST_MAGIC:#x}")
        else
          do* more := request (be_val (sub 6 2 header)) (be_val (sub 8 8 header)) (be_val (sub 16 8 header)) (be_val (sub 24 4 header)) in
          if more : bool then transmission fuel else step_ret tt
      end
  end.

Definition serve_connection (config : ExportConfig) : step unit :=
  do* there := handshake in
  if negb there then step_ret tt
  else fun c =>
    (do* go := option_haggling config (S (length (cn_in c))) in
     if negb go then step_ret tt
     else fun c => transmission (S (length (cn_in c))) c) c.
End server.
End Nbd.

(** ** Any client *)
Module NbdTotal.
Import Nbd.
Section total.
Context {B : Type} `{BlockBackend B}.

Definition proper {A} (r : result A) : Prop := match r with Ok _ | Err (Io _) | Err (Corrupt _) => True | _ => False end.
Definition left_in (c : Conn B) : nat := length (cn_in c).
(** A step that ends as a server may and never makes up input. *)
Definition tame {A} (s : step (Conn B) A) : Prop := forall c, proper (snd (s c)) /\ (left_in (fst (s c)) <= left_in c)%nat.

Lemma tame_ret {A} (a : A) : tame (step_ret a).
Proof. by split. Qed.
Lemma tame_corrupt {A} what : tame (step_err (A := A) (Corrupt what)).
Proof. by split. Qed.
Lemma tame_bind {A C} (s : step (Conn B) A) (k : A -> step (Conn B) C) : tame s -> (forall a, tame (k a)) -> tame (step_bind s k).
Proof.
  intros Hs Hk c. specialize (Hs c). unfold step_bind. destruct (s c) as [c1 [a|e]]; cbn [fst snd] in Hs; [|done].
  destruct (Hk a c1) as [Hp Hl]. split; [done|lia].
Qed.
Lemma tame_read n : tame (read_exact n).
Proof. intros c. unfold read_exact, left_in. destruct (_ <=? _); cbn; [|by split; [|lia]]. split; [done|]. unfold zdrop. rewrite length_skipn. lia. Qed.
Lemma tame_write b : tame (write_all b).
Proof. intros c. unfold write_all. destruct (cn_room c); [destruct (_ <=? _)|]; by split. Qed.
Lemma tame_unless {A} (s : step (Conn B) A) : tame s -> tame (unless_gone s).
Proof. intros Hs c. specialize (Hs c). unfold unless_gone. destruct (s c) as [c1 [a|e]]; [done|]. destruct (is_disconnect e); [|done]. by split; [|apply Hs]. Qed.
Lemma tame_stopped : tame stopped.
Proof. by split. Qed.
Lemma tame_iter {A} (f : A -> step (Conn B) unit) l : (forall x, tame (f x)) -> tame (step_iter f l).
Proof. intros Hf. induction l as [|x l IH]; [apply tame_ret|]. by apply tame_bind. Qed.

Ltac tame_by other := repeat lazymatch goal with
  | |- tame (step_ret _) => apply tame_ret
  | |- tame (step_err (Corrupt _)) => apply tame_corrupt
  | |- tame (read_exact _) => apply tame_read
  | |- tame (write_all _) => apply tame_write
  | |- tame (unless_gone _) => apply tame_unless
  | |- tame (step_bind _ _) => apply tame_bind; [|intros ?]
  | |- tame (step_iter _ _) => apply tame_iter; intros ?
  | |- tame (if ?b then _ else _) => destruct b
  | |- tame (match ?o with Some _ => _ | None => _ end) => destruct o
  | |- _ => other
  end.
Ltac tame := tame_by fail.

Lemma tame_reply option kind payload : tame (option_reply option kind payload).
Proof. unfold option_reply, write_u64, write_u32. tame. Qed.
Lemma tame_error code handle : tame (simple_error code handle).
Proof. unfold simple_error, write_u64, write_u32. tame. Qed.
Lemma tame_handshake : tame handshake.
Proof. unfold handshake, write_u64, write_u16, read_u32. tame. Qed.
Lemma tame_info config option info : tame (reply_info config option info).
Proof. intros c. unfold reply_info. destruct (_ =? _); [|destruct (_ =? _); [|destruct (_ =? _)]]; (apply tame_reply || apply tame_ret). Qed.
Lemma tame_go config option data : tame (info_or_go config option data).
Proof. unfold info_or_go. cbv zeta. tame_by ltac:(apply tame_reply || apply tame_info). Qed.
Lemma tame_option config option data : tame (haggle_option config option data).
Proof.
  unfold haggle_option, write_u64, write_u16. tame_by ltac:(apply tame_reply || apply tame_go).
  intros c. apply tame_bind; intros; tame.
Qed.
Lemma tame_reply_read handle offset len : tame (reply_read handle offset len).
Proof.
  intros c. unfold reply_read, on_backend. destruct (read_backend offset len (cn_backend c)) as [b r].
  set (c1 := Build_Conn _ _ _ _ _ _). destruct r as [buffer|e].
  - destruct (tame_bind (write_u32 SIMPLE_REPLY_MAGIC) (fun _ => do* _ := write_u32 0 in do* _ := write_u64 handle in write_all buffer)
      ltac:(apply tame_write) ltac:(intros; unfold write_u64, write_u32; tame) c1) as [Hp Hl]. by split.
  - destruct (tame_error ERR_IO handle c1) as [Hp Hl]. by split.
Qed.
Lemma tame_request command handle offset len : tame (request command handle offset len).
Proof. unfold request. tame_by ltac:(apply tame_reply_read || apply tame_error). Qed.

(** *** The loops *)

(** A step on a connection with less than [n] bytes to read. *)
Definition tame_for {A} (n : nat) (s : step (Conn B) A) : Prop := forall c, (left_in c < n)%nat ->
  proper (snd (s c)) /\ (left_in (fst (s c)) <= left_in c)%nat.
Lemma tame_tame_for {A} n (s : step (Conn B) A) : tame s -> tame_for n s.
Proof. intros Hs c _. apply Hs. Qed.
Lemma tame_for_bind {A C} n (s : step (Conn B) A) (k : A -> step (Conn B) C) : tame s -> (forall a, tame_for n (k a)) -> tame_for n (step_bind s k).
Proof.
  intros Hs Hk c Hn. specialize (Hs c). unfold step_bind. destruct (s c) as [c1 [a|e]]; cbn [fst snd] in Hs; [|done].
  destruct (Hk a c1) as [Hp Hl]; [lia|]. split; [done|lia].
Qed.

(** After a read, one turn of the loop is paid for. *)
Lemma tame_for_read {A} n m (k : Datatypes.option bytes -> step (Conn B) A) : 0 < m -> tame (k None) -> (forall b, tame_for n (k (Some b))) ->
  tame_for (S n) (step_bind (unless_gone (read_exact m)) k).
Proof.
  intros Hm Hnone Hk c Hn. unfold step_bind, unless_gone, read_exact. destruct (Z.leb_spec m (zlen (cn_in c))).
  - set (c1 := Build_Conn _ _ _ _ _ _). assert (left_in c1 < left_in c)%nat as Hlt.
    { unfold left_in, c1, zdrop, zlen in *. cbn. rewrite length_skipn. lia. }
    destruct (Hk (ztake m (cn_in c)) c1) as [Hp Hl]; [lia|]. split; [done|lia].
  - cbn [is_disconnect]. set (c1 := Build_Conn _ _ _ _ _ _). destruct (Hnone c1) as [Hp Hl]. split; [done|]. unfold left_in in *. cbn in Hl. lia.
Qed.

Lemma tame_transmission n : tame_for n (transmission n).
Proof.
  induction n as [|n IH]; intros c Hn; [lia|]. revert c Hn. cbn [transmission]. apply tame_for_bind; [apply tame_stopped|].
  intros []; [apply tame_tame_for, tame_ret|]. apply tame_for_read; [lia|apply tame_ret|]. intros header.
  destruct (negb _); [apply tame_tame_for, tame_corrupt|]. apply tame_for_bind; [apply tame_request|].
  intros []; [exact IH|apply tame_tame_for, tame_ret].
Qed.

Lemma tame_haggling config n : tame_for n (option_haggling config n).
Proof.
  induction n as [|n IH]; intros c Hn; [lia|]. cbn [option_haggling].
  assert (forall k : Datatypes.option Z -> step (Conn B) bool, step_bind (unless_gone read_u64) k c =
    step_bind (unless_gone (read_exact 8)) (fun b => k (option_map be_val b)) c) as ->.
  { intros k. unfold step_bind, unless_gone, read_u64, step_bind. destruct (read_exact 8 c) as [c1 [b|e]]; [done|]. by destruct (is_disconnect e). }
  revert c Hn. apply tame_for_read; [lia|apply tame_ret|]. intros b. cbn [option_map].
  destruct (negb _); [apply tame_tame_for, tame_corrupt|]. unfold read_u32.
  apply tame_for_bind; [tame|]. intros option. apply tame_for_bind; [tame|]. intros length. apply tame_for_bind; [tame|]. intros data.
  apply tame_for_bind; [apply tame_option|]. intros [go|]; [apply tame_tame_for, tame_ret|exact IH].
Qed.

Lemma tame_serve config : tame (serve_connection config).
Proof.
  unfold serve_connection. apply tame_bind; [apply tame_handshake|]. intros []; cbn [negb]; [|apply tame_ret].
  intros c. pose proof (tame_haggling config (S (length (cn_in c))) c ltac:(unfold left_in; lia)) as Hh.
  unfold step_bind. destruct (option_haggling config _ c) as [c1 [[]|e]]; cbn [fst snd negb] in Hh |- *; [|done|done].
  destruct (tame_transmission (S (length (cn_in c1))) c1 ltac:(unfold left_in; lia)) as [Hp Hl]. split; [done|lia].
Qed.
End total.
End NbdTotal.

(** ** A well-behaved client *)

(** A request of the transmission phase. *)
Record Request := { rq_flags : Z; rq_command : Z; rq_handle : Z; rq_offset : Z; rq_length : Z }.

(** What the backend answers while it stays in [I]: the bytes of [content]. *)
Record serves {B} `{BlockBackend B} (I : B -> Prop) (content : bytes) : Prop := {
  sv_size : forall b, I b -> size_bytes b = zlen content;
  sv_read : forall b offset len, I b -> 0 <= offset -> 0 <= len -> offset + len <= zlen content ->
    exists b', backend_read offset len b = (b', Ok (sub offset len content)) /\ I b';
}.

Module NbdSpec.
Import Nbd.

Definition encode_request (r : Request) : bytes :=
  be 4 REQUEST_MAGIC ++ be 2 (rq_flags r) ++ be 2 (rq_command r) ++ be 8 (rq_handle r) ++ be 8 (rq_offset r) ++ be 4 (rq_length r).
(** It goes on the wire, and no data follows it. *)
Record request_ok (r : Request) : Prop := {
  ro_command : 0 <= rq_command r < 2 ^ 16;
  ro_handle : 0 <= rq_handle r < 2 ^ 64;
  ro_offset : 0 <= rq_offset r < 2 ^ 64;
  ro_length : 0 <= rq_length r < 2 ^ 32;
  ro_no_data : rq_command r <> CMD_WRITE;
}.

Definition status_reply (code handle : Z) : bytes := be 4 SIMPLE_REPLY_MAGIC ++ be 4 code ++ be 8 handle.
(** The reply a client is owed. *)
Definition reply (content : bytes) (r : Request) : bytes :=
  if rq_command r =? CMD_READ then
    if rq_offset r + rq_length r <=? zlen content then status_reply 0 (rq_handle r) ++ sub (rq_offset r) (rq_length r) content
    else status_reply ERR_IO (rq_handle r)
  else if (rq_command r =? CMD_FLUSH) || (rq_command r =? CMD_TRIM) then status_reply 0 (rq_handle r)
  else if rq_command r =? CMD_WRITE_ZEROES then status_reply ERR_PERM (rq_handle r)
  else status_reply ERR_NOTSUP (rq_handle r).

Definition greeting : bytes := be 8 NBDMAGIC ++ be 8 IHAVEOPT ++ be 2 3.
Definition option_bytes (option kind : Z) (payload : bytes) : bytes :=
  be 8 REP_MAGIC ++ be 4 option ++ be 4 kind ++ be 4 (zlen payload) ++ payload.

(** [NBD_OPT_GO] for a name with some information requests, and what is owed. *)
Definition go_data (name : bytes) (infos : list Z) : bytes := be 4 (zlen name) ++ name ++ be 2 (zlen infos) ++ concat (map (be 2) infos).
Definition encode_go (name : bytes) (infos : list Z) : bytes :=
  be 8 IHAVEOPT ++ be 4 OPT_GO ++ be 4 (zlen (go_data name infos)) ++ go_data name infos.
Definition info_reply (config : ExportConfig) (size info : Z) : bytes :=
  if info =? INFO_EXPORT then option_bytes OPT_GO REP_INFO (be 2 INFO_EXPORT ++ be 8 size ++ be 2 (transmission_flags config))
  else if info =? INFO_NAME then option_bytes OPT_GO REP_INFO (be 2 INFO_NAME ++ ec_name config)
  else if info =? INFO_BLOCK_SIZE then
    option_bytes OPT_GO REP_INFO (be 2 INFO_BLOCK_SIZE ++ be 4 512 ++ be 4 4096 ++ be 4 (32 * 1024 * 1024))
  else [].
Definition go_reply (config : ExportConfig) (size : Z) (infos : list Z) : bytes :=
  concat (map (info_reply config size) (dedup (INFO_EXPORT :: infos))) ++ option_bytes OPT_GO REP_ACK [].

(** The client disconnects, or its side of the connection ends. *)
Definition ends (rest : bytes) : Prop := zlen rest < 28 \/ exists r rest', request_ok r /\ rq_command r = CMD_DISC /\ rest = encode_request r ++ rest'.

Lemma zlen_be n z : zlen (be n z) = Z.of_nat n.
Proof. unfold be, zlen. by rewrite length_rev, length_le_bytes. Qed.
Lemma be_val_be n z : 0 <= z < 256 ^ Z.of_nat n -> be_val (be n z) = z.
Proof. intros Hz. unfold be_val, be. by rewrite rev_involutive, le_val_bytes_small. Qed.

Section session.
Context {B : Type} `{BlockBackend B} (I : B -> Prop) (content : bytes).
Hypothesis Hserves : serves I content.
Hypothesis Hsize : zlen content < 2 ^ 64.

(** A connection that takes everything. *)
Definition conn (input output : bytes) (b : B) : Conn B :=
  {| cn_in := input; cn_out := output; cn_room := None; cn_stops := []; cn_backend := b |}.

Lemma write_conn x i o b : write_all x (conn i o b) = (conn i (o ++ x) b, Ok tt).
Proof. done. Qed.
Lemma read_conn a i o b n : n = zlen a -> read_exact n (conn (a ++ i) o b) = (conn i o b, Ok a).
Proof.
  intros ->. unfold read_exact, conn. cbn [cn_in]. rewrite zlen_app. pose proof (zlen_nonneg i).
  rewrite (proj2 (Z.leb_le _ _)) by lia. by rewrite zdrop_app_exact, ztake_app_exact.
Qed.

Lemma stopped_conn i o b : stopped (conn i o b) = (conn i o b, Ok false).
Proof. done. Qed.

Lemma status_conn code handle i o b : simple_error code handle (conn i o b) = (conn i (o ++ status_reply code handle) b, Ok tt).
Proof.
  unfold simple_error, write_u32, write_u64, step_bind. rewrite !write_conn. unfold status_reply. by rewrite !app_assoc.
Qed.

Lemma read_reply r i o b : request_ok r -> I b ->
  exists b', reply_read (rq_handle r) (rq_offset r) (rq_length r) (conn i o b) =
    (conn i (o ++ (if rq_offset r + rq_length r <=? zlen content
                   then status_reply 0 (rq_handle r) ++ sub (rq_offset r) (rq_length r) content
                   else status_reply ERR_IO (rq_handle r))) b', Ok tt) /\ I b'.
Proof.
  intros [_ _ Ho Hl _] Hb. unfold reply_read, on_backend, read_backend. cbn [cn_backend conn].
  unfold checked_add, U64_MAX. rewrite (sv_size _ _ Hserves b Hb).
  destruct (Z.leb_spec (rq_offset r + rq_length r) (zlen content)).
  - rewrite (proj2 (Z.leb_le _ _)) by lia. rewrite (proj2 (Z.ltb_ge _ _)) by lia.
    destruct (sv_read _ _ Hserves b (rq_offset r) (rq_length r) Hb) as (b' & -> & Hb'); [lia..|].
    exists b'. split; [|done]. unfold status_reply. change (Build_Conn _ _ _ _ _ b') with (conn i o b').
    unfold write_u32, write_u64, step_bind. rewrite !write_conn. by rewrite !app_assoc.
  - exists b. split; [|done]. destruct (_ <=? _).
    + rewrite (proj2 (Z.ltb_lt _ _)) by lia. apply status_conn.
    + apply status_conn.
Qed.

Lemma request_reply r i o b : request_ok r -> rq_command r <> CMD_DISC -> I b ->
  exists b', request (rq_command r) (rq_handle r) (rq_offset r) (rq_length r) (conn i o b) = (conn i (o ++ reply content r) b', Ok true) /\ I b'.
Proof.
  intros Hr Hd Hb. unfold request, reply. destruct (Z.eqb_spec (rq_command r) CMD_READ) as [|Hn].
  - destruct (read_reply r i o b Hr Hb) as (b' & He & Hb'). exists b'. split; [|done]. unfold step_bind. by rewrite He.
  - exists b. split; [|done]. rewrite (proj2 (Z.eqb_neq _ CMD_DISC)) by done.
    destruct (_ || _); [unfold step_bind; by rewrite status_conn|].
    rewrite (proj2 (Z.eqb_neq _ CMD_WRITE)) by apply (ro_no_data _ Hr). cbn [orb].
    destruct (_ =? _); unfold step_bind; by rewrite status_conn.
Qed.

(** The fields of a header. *)
Lemma header_fields r : request_ok r -> let h := encode_request r in
  zlen h = 28 /\ be_val (sub 0 4 h) = REQUEST_MAGIC /\ be_val (sub 6 2 h) = rq_command r /\ be_val (sub 8 8 h) = rq_handle r /\
  be_val (sub 16 8 h) = rq_offset r /\ be_val (sub 24 4 h) = rq_length r.
Proof.
  intros [Hc Hh Ho Hl _] h. assert (forall n z, zlen (be n z) = Z.of_nat n) as Hz by apply zlen_be.
  assert (forall off n (x k : bytes), 0 <= off -> zlen x = off -> sub off n (x ++ k) = sub 0 n k) as Hskip.
  { intros off n x k Hoff <-. rewrite sub_skip by lia. by rewrite Z.sub_diag. }
  assert (forall n z k, sub 0 (Z.of_nat n) (be n z ++ k) = be n z) as Hit by (intros n z k; apply sub_hit; [done|by rewrite Hz]).
  split; [unfold h, encode_request; by rewrite !zlen_app, !Hz|].
  split; [unfold h, encode_request; by rewrite (Hit 4%nat)|].
  assert (h = (be 4 REQUEST_MAGIC ++ be 2 (rq_flags r)) ++ be 2 (rq_command r) ++ be 8 (rq_handle r) ++ be 8 (rq_offset r) ++ be 4 (rq_length r)) as E1
    by (unfold h, encode_request; by rewrite <- app_assoc).
  split; [rewrite E1, Hskip, (Hit 2%nat) by (done || by rewrite zlen_app, !Hz); by apply be_val_be|].
  assert (h = (be 4 REQUEST_MAGIC ++ be 2 (rq_flags r) ++ be 2 (rq_command r)) ++ be 8 (rq_handle r) ++ be 8 (rq_offset r) ++ be 4 (rq_length r)) as E2
    by (unfold h, encode_request; by rewrite <- !app_assoc).
  split; [rewrite E2, Hskip, (Hit 8%nat) by (done || by rewrite !zlen_app, !Hz); by apply be_val_be|].
  assert (h = (be 4 REQUEST_MAGIC ++ be 2 (rq_flags r) ++ be 2 (rq_command r) ++ be 8 (rq_handle r)) ++ be 8 (rq_offset r) ++ be 4 (rq_length r)) as E3
    by (unfold h, encode_request; by rewrite <- !app_assoc).
  split; [rewrite E3, Hskip, (Hit 8%nat) by (done || by rewrite !zlen_app, !Hz); by apply be_val_be|].
  assert (h = (be 4 REQUEST_MAGIC ++ be 2 (rq_flags r) ++ be 2 (rq_command r) ++ be 8 (rq_handle r) ++ be 8 (rq_offset r)) ++ be 4 (rq_length r) ++ []) as E4
    by (unfold h, encode_request; by rewrite <- !app_assoc, app_nil_r).
  rewrite E4, Hskip, (Hit 4%nat) by (done || by rewrite !zlen_app, !Hz). by apply be_val_be.
Qed.

(** One turn of the transmission loop. *)
Lemma transmission_turn fuel r i o b : request_ok r -> transmission (S fuel) (conn (encode_request r ++ i) o b) =
  (do* more := request (rq_command r) (rq_handle r) (rq_offset r) (rq_length r) in
   if more : bool then transmission fuel else step_ret tt) (conn i o b).
Proof.
  intros Hr. destruct (header_fields r Hr) as (Hz & Hm & Hc & Hh & Ho & Hl). cbn [transmission].
  unfold step_bind at 1. rewrite stopped_conn. unfold step_bind at 1, unless_gone. rewrite (read_conn _ _ _ _ 28) by done.
  by rewrite Hm, Z.eqb_refl, Hc, Hh, Ho, Hl.
Qed.

Lemma transmission_end fuel i o b : ends i -> exists i', transmission (S fuel) (conn i o b) = (conn i' o b, Ok tt).
Proof.
  intros [Hs|(r & rest & Hr & Hd & ->)].
  - exists []. cbn [transmission]. unfold step_bind at 1. rewrite stopped_conn.
    unfold step_bind, unless_gone, read_exact, conn. cbn [cn_in]. by rewrite (proj2 (Z.leb_gt _ _)).
  - exists rest. rewrite transmission_turn by done. unfold request. by rewrite Hd.
Qed.

Lemma transmission_replies rs i : Forall (fun r => request_ok r /\ rq_command r <> CMD_DISC) rs -> ends i -> forall fuel o b,
  (length rs < fuel)%nat -> I b ->
  exists i' b', transmission fuel (conn (concat (map encode_request rs) ++ i) o b) =
    (conn i' (o ++ concat (map (reply content) rs)) b', Ok tt) /\ I b'.
Proof.
  intros Hrs Hi. induction Hrs as [|r rs [Hr Hd] _ IH]; intros [|fuel] o b Hf Hb; cbn [length] in Hf; try lia.
  - destruct (transmission_end fuel i o b Hi) as [i' He]. exists i', b. cbn [map concat app]. by rewrite app_nil_r.
  - cbn [map concat]. rewrite <- app_assoc, transmission_turn by done.
    destruct (request_reply r (concat (map encode_request rs) ++ i) o b Hr Hd Hb) as (b1 & He & Hb1).
    unfold step_bind. rewrite He. destruct (IH fuel (o ++ reply content r) b1) as (i' & b' & -> & Hb'); [lia|done|].
    exists i', b'. by rewrite <- app_assoc.
Qed.

(** *** Handshake and options *)
Lemma handshake_conn flags i b : 0 <= flags < 2 ^ 32 -> Z.land flags FLAG_C_FIXED_NEWSTYLE <> 0 ->
  handshake (conn (be 4 flags ++ i) [] b) = (conn i greeting b, Ok true).
Proof.
  intros Hf Hn. unfold handshake, write_u64, write_u16, read_u32, unless_gone, step_bind. rewrite !write_conn.
  rewrite (read_conn (be 4 flags)) by by rewrite zlen_be. cbn [step_ret]. rewrite be_val_be by done.
  by rewrite (proj2 (Z.eqb_neq _ 0)).
Qed.

Lemma option_conn option kind payload i o b :
  option_reply option kind payload (conn i o b) = (conn i (o ++ option_bytes option kind payload) b, Ok tt).
Proof.
  unfold option_reply, write_u64, write_u32, step_bind. rewrite !write_conn. unfold option_bytes. by rewrite <- !app_assoc.
Qed.

Lemma infos_back l : Forall (fun x => 0 <= x < 2 ^ 16) l -> infos (length l) (concat (map (be 2) l)) = l.
Proof.
  induction 1 as [|x l Hx _ IH]; [done|]. cbn [length map concat].
  pose proof (be_val_be 2 x Hx) as Hv. pose proof (zlen_be 2 x) as Hl. unfold zlen in Hl.
  destruct (be 2 x) as [|c [|d [|? ?]]]; cbn [length] in Hl; try lia. cbn [app infos]. by rewrite IH, Hv.
Qed.

Section go.
Context (config : ExportConfig) (name : bytes) (wanted : list Z).
Hypothesis Hknown : known_name config name = true.
Hypothesis Hname : zlen name < 2 ^ 31.
Hypothesis Hcount : zlen wanted < 2 ^ 16.
Hypothesis Hwanted : Forall (fun x => 0 <= x < 2 ^ 16) wanted.

Lemma go_data_fields : let data := go_data name wanted in
  be_val (sub 0 4 data) = zlen name /\ sub 4 (zlen name) data = name /\ be_val (sub (4 + zlen name) 2 data) = zlen wanted /\
  zdrop (4 + zlen name + 2) data = concat (map (be 2) wanted) /\ zlen data = 4 + zlen name + 2 + zlen (concat (map (be 2) wanted)).
Proof.
  intros data. unfold data, go_data. pose proof (zlen_nonneg name). pose proof (zlen_nonneg wanted).
  assert (zlen (be 4 (zlen name)) = 4) as H4 by apply zlen_be. assert (zlen (be 2 (zlen wanted)) = 2) as H2 by apply zlen_be.
  split; [rewrite sub_hit by (done || lia); apply be_val_be; lia|].
  split; [rewrite sub_skip, H4, Z.sub_diag by lia; by apply sub_hit|].
  split.
  { rewrite sub_skip, H4 by lia. rewrite sub_skip by lia. rewrite sub_hit by lia. by apply be_val_be. }
  split; [|rewrite !zlen_app; lia].
  rewrite zdrop_app_ge by lia. rewrite H4, zdrop_app_ge by lia. by rewrite zdrop_app_exact by lia.
Qed.

Lemma info_conn size info i o b : size_bytes b = size ->
  reply_info config OPT_GO info (conn i o b) = (conn i (o ++ info_reply config size info) b, Ok tt).
Proof.
  intros <-. unfold reply_info, info_reply. cbn [cn_backend conn].
  destruct (_ =? _); [apply option_conn|]. destruct (_ =? _); [apply option_conn|]. destruct (_ =? _); [apply option_conn|].
  by rewrite app_nil_r.
Qed.

Lemma infos_conn size l : forall i o b, size_bytes b = size ->
  step_iter (reply_info config OPT_GO) l (conn i o b) = (conn i (o ++ concat (map (info_reply config size) l)) b, Ok tt).
Proof.
  induction l as [|x l IH]; intros i o b Hb; cbn [step_iter map concat]; [by rewrite app_nil_r|].
  unfold step_bind. rewrite (info_conn size) by done. rewrite IH by done. by rewrite app_assoc.
Qed.

Lemma go_conn size i o b : size_bytes b = size ->
  info_or_go config OPT_GO (go_data name wanted) (conn i o b) = (conn i (o ++ go_reply config size wanted) b, Ok true).
Proof.
  intros Hb. destruct go_data_fields as (Hn & Hs & Hc & Hd & Hl). unfold info_or_go. cbv zeta. rewrite Hn, Hs, Hc, Hd, Hl, Hknown.
  pose proof (zlen_nonneg name). pose proof (zlen_nonneg (concat (map (be 2) wanted))).
  rewrite (proj2 (Z.ltb_ge _ 6)), (proj2 (Z.ltb_ge _ (4 + zlen name + 2))) by lia. cbn [negb].
  unfold zlen at 1. rewrite Nat2Z.id, infos_back by done.
  change (OPT_GO =? OPT_GO) with true. cbn iota. unfold step_bind. rewrite (infos_conn size) by done. rewrite option_conn.
  unfold go_reply. by rewrite <- app_assoc.
Qed.

Lemma haggling_conn fuel size i o b : size_bytes b = size -> zlen (go_data name wanted) < 2 ^ 32 ->
  option_haggling config (S fuel) (conn (encode_go name wanted ++ i) o b) = (conn i (o ++ go_reply config size wanted) b, Ok true).
Proof.
  intros Hb Hl. unfold encode_go. rewrite <- !app_assoc. cbn [option_haggling]. unfold step_bind at 1.
  unfold unless_gone, read_u64, read_u32, step_bind. rewrite (read_conn (be 8 IHAVEOPT)) by by rewrite zlen_be. cbn [step_ret].
  rewrite be_val_be by done. change (negb (IHAVEOPT =? IHAVEOPT)) with false. cbn beta iota.
  rewrite (read_conn (be 4 OPT_GO)) by by rewrite zlen_be. cbn [step_ret].
  rewrite (read_conn (be 4 (zlen (go_data name wanted)))) by by rewrite zlen_be. cbn [step_ret].
  pose proof (zlen_nonneg (go_data name wanted)). rewrite !be_val_be by (done || lia). rewrite read_conn by done.
  unfold haggle_option. change (OPT_GO =? OPT_EXPORT_NAME) with false. change (OPT_GO =? OPT_ABORT) with false.
  change (OPT_GO =? OPT_LIST) with false. change ((OPT_GO =? OPT_INFO) || (OPT_GO =? OPT_GO)) with true. cbn iota.
  unfold step_bind. by rewrite (go_conn size).
Qed.

Lemma serve_session flags rs rest b : 0 <= flags < 2 ^ 32 -> Z.land flags FLAG_C_FIXED_NEWSTYLE <> 0 ->
  zlen (go_data name wanted) < 2 ^ 32 -> Forall (fun r => request_ok r /\ rq_command r <> CMD_DISC) rs -> ends rest -> I b ->
  exists input b', serve_connection config (conn (be 4 flags ++ encode_go name wanted ++ concat (map encode_request rs) ++ rest) [] b) =
    (conn input (greeting ++ go_reply config (zlen content) wanted ++ concat (map (reply content) rs)) b', Ok tt) /\ I b'.
Proof.
  intros Hf Hn Hl Hrs Hrest Hb. unfold serve_connection, step_bind at 1. rewrite handshake_conn by done. cbn [negb].
  unfold step_bind. rewrite (haggling_conn _ (zlen content)) by (done || by apply sv_size with (1 := Hserves)). cbn [negb].
  destruct (transmission_replies rs rest Hrs Hrest (S (length (concat (map encode_request rs) ++ rest)))
    (greeting ++ go_reply config (zlen content) wanted) b) as (i' & b' & He & Hb'); [|done|].
  - rewrite length_app. enough (length rs <= length (concat (map encode_request rs)))%nat by lia.
    clear. induction rs as [|r rs IH]; [done|]. cbn [map concat length]. rewrite length_app.
    assert (length (encode_request r) = 28%nat) as -> by (unfold encode_request, be; by rewrite !length_app, !length_rev, !length_le_bytes). lia.
  - exists i', b'. split; [|done]. cbn [cn_in conn]. rewrite He. by rewrite <- app_assoc.
Qed.
End go.
End session.
End NbdSpec.

(** ** The backends *)
Module Backends.
Section image.
Context `{Primitives}.

(** [ImageBackend] with its cache. *)
#[export] Instance image_backend : BlockBackend (ImageBackend * Cache) := {
  size_bytes b := ib_size (fst b);
  backend_read offset len b := let '(cache, r) := Exports.read_at (fst b) offset len (snd b) in ((fst b, cache), r);
}.

(** An export whose chunks decode to their part of [image] serves it. *)
Lemma image_serves b image : ExportSpec.exports b image ->
  serves (fun bc => fst bc = b /\ ExportSpec.cached b image (snd bc)) (ztake (ib_size b) image).
Proof.
  intros Hex. pose proof (ExportSpec.ex_len b image Hex) as Hl. pose proof (ExportSpec.ex_size b image Hex) as Hs.
  assert (zlen (ztake (ib_size b) image) = ib_size b) as Hz by (rewrite zlen_ztake; lia).
  split.
  - intros [b' cache] [<- _]. by rewrite Hz.
  - intros [b' cache] offset len [He Hc] Ho Hn Hle. cbn [fst snd] in He, Hc. subst b'. rewrite Hz in Hle.
    destruct (ExportSpec.read_spec b image offset len cache Hex Hc Ho Hn Hle) as (cache' & Hr & Hc').
    exists (b, cache'). unfold backend_read, image_backend. cbn [fst snd]. rewrite Hr. split; [|done].
    by rewrite sub_ztake by lia.
Qed.
End image.

(** [FileBackend]: the file, and the size it had when it was opened. *)
#[export] Instance file_backend : BlockBackend (bytes * Z) := {
  size_bytes := snd;
  backend_read offset len b := (b, Exports.file_read_at (fst b) offset len);
}.
Lemma file_serves file : serves (fun b => b = (file, zlen file)) file.
Proof.
  split; [by intros b ->|]. intros b offset len -> Ho Hl Hle. exists (file, zlen file). split; [|done].
  unfold backend_read, file_backend, Exports.file_read_at. cbn [fst]. rewrite (proj2 (Z.ltb_ge (zlen file) _)) by lia. by rewrite andb_false_r.
Qed.
End Backends.

