(* ===== verification/Examples.v ===== *)
(** * Concrete runs

    For each property that has hypotheses, a concrete input where they hold:
    images, chains, manifests and sets small enough to compute with, over the
    toy primitives of [Crypto.v] and the destination of [Memory.v]. *)

From S2P Require Import Prelude Core Crypto Pages Keys Wire Superblock Chunk Footer Files PageStream.
From S2P Require Import Writer ImageReader ImageSafety Roundtrip Manifest Disk Extras.
From S2P Require Import FileManifest EngineKeys CatalogRecords Destination Chain ChainSpec.
From S2P Require Import EngineCatalog Verifier Retention RetentionSafety.

#[local] Existing Instance Toy.toy.
#[local] Existing Instance Toy.toy_laws.
#[local] Existing Instance Memory.destination.
#[local] Existing Instance Memory.destination_laws.

(** Run [x], which must succeed with [p]. *)
Ltac evaluates x p E :=
  let H := fresh in
  assert (is_ok x = true) as H by (vm_compute; reflexivity);
  destruct x as [p|] eqn:E; [clear H|discriminate H].

(** Ranges of concrete numbers. *)
Ltac bounds := unfold u64_ok, u32_ok, u8_ok, i64_ok, str_ok, id_ok; vm_compute; intuition (done || discriminate).

(** ** Cryptography *)

Lemma id_uuid_roundtrip_witness :
  Ids.from_str (Ids.to_uuid_string (zrep 16 Byte.xab)) = Ok (zrep 16 Byte.xab).
Proof. apply (id_uuid_roundtrip (zrep 16 Byte.xab)). reflexivity. Defined.

Lemma nonce_draws_distinct_witness :
  (exists xs s', Nonce.draws 3 {| Nonce.counter := 5 |} = Ok (xs, s') /\ NoDup xs) /\
  exists what, Nonce.draws 3 {| Nonce.counter := Nonce.MAX_COUNTER |} = Err (Corrupt what).
Proof.
  split.
  - destruct (nonce_draws_distinct 3 {| Nonce.counter := 5 |}) as [Hd _].
    { unfold Nonce.seq_ok. vm_compute. split; discriminate. }
    destruct Hd as (xs & s' & Hx & _ & Hn & _); [vm_compute; discriminate|]. exists xs, s'. split; [exact Hx|exact Hn].
  - apply (nonce_draws_distinct 3 {| Nonce.counter := Nonce.MAX_COUNTER |}).
    + unfold Nonce.seq_ok. vm_compute. split; discriminate.
    + reflexivity.
Defined.

Lemma page_seal_open_witness : exists r ns',
  Page.seal_page Aes256Gcm Sample.key SManifest 2 (zrep 5 Byte.x41) (Nonce.new) = Ok (r, ns') /\
  zlen r = 39 /\ Page.open_page Aes256Gcm Sample.key SManifest 2 r = Ok (zrep 5 Byte.x41).
Proof.
  assert (is_ok (Page.seal_page Aes256Gcm Sample.key SManifest 2 (zrep 5 Byte.x41) (Nonce.new)) = true)
    as Hok by (vm_compute; reflexivity).
  destruct (Page.seal_page Aes256Gcm Sample.key SManifest 2 (zrep 5 Byte.x41) (Nonce.new))
    as [[r ns']|e] eqn:E; [|discriminate].
  exists r, ns'. split; [reflexivity|].
  destruct (page_seal_open Aes256Gcm Sample.key SManifest 2) as (_ & Hs & _).
  apply (Hs _ _ _ _ E).
Defined.

Lemma chain_key_roundtrip_witness : exists n w,
  Keys.wrap_chain_key (zrep 12 Byte.x09) (zrep 32 Byte.x05) Sample.key (Sample.id Byte.x02) = Ok (n, w) /\
  Keys.unwrap_chain_key (zrep 32 Byte.x05) (Sample.id Byte.x02) n w = Ok Sample.key.
Proof.
  assert (is_ok (Keys.wrap_chain_key (zrep 12 Byte.x09) (zrep 32 Byte.x05) Sample.key (Sample.id Byte.x02)) = true)
    as Hok by (vm_compute; reflexivity).
  destruct (Keys.wrap_chain_key (zrep 12 Byte.x09) (zrep 32 Byte.x05) Sample.key (Sample.id Byte.x02))
    as [[n w]|e] eqn:E; [|discriminate].
  exists n, w. split; [reflexivity|].
  destruct (chain_key_roundtrip (zrep 32 Byte.x05) (Sample.id Byte.x02)) as (Hs & _).
  apply (Hs _ Sample.key n w eq_refl E).
Defined.

(** ** Superblock and footer *)

Lemma superblock_roundtrip_witness : exists b,
  Sb.encode Sample.superblock (Some Sample.key) = Ok b /\ Sb.decode b = Ok Sample.superblock /\
  Sb.verify_mac b (Some Sample.key) = Ok tt.
Proof.
  assert (is_ok (Sb.encode Sample.superblock (Some Sample.key)) = true) as Hok by (vm_compute; reflexivity).
  destruct (superblock_roundtrip Sample.superblock (Some Sample.key) Sample.sb_ok) as [_ Hr].
  destruct (Sb.encode Sample.superblock (Some Sample.key)) as [b|e]; [|discriminate].
  exists b. split; [reflexivity|]. destruct (Hr b eq_refl) as (_ & Hd & Hv). split; [exact Hd|exact Hv].
Defined.

Definition sample_sb_bytes : bytes :=
  match Sb.encode Sample.superblock (Some Sample.key) with Ok b => b | Err _ => [] end.

Lemma superblock_decode_exact_witness :
  exists b', Sb.encode Sample.superblock (Some Sample.key) = Ok b' /\
    ztake 214 sample_sb_bytes = ztake 214 b'.
Proof.
  destruct (superblock_decode_exact sample_sb_bytes Sample.superblock (Some Sample.key))
    as (b' & He & Ht & _).
  - vm_compute. reflexivity.
  - vm_compute. reflexivity.
  - vm_compute. reflexivity.
  - exists b'. split; [exact He|exact Ht].
Defined.

Lemma set_consistency_valid_witness :
  header_valid (Sb.set_consistency Sample.superblock CNone) /\
  consistency (Sb.set_consistency Sample.superblock CNone) = CNone.
Proof.
  assert (header_valid Sample.superblock) as Hv
    by (apply validate_header_valid; vm_compute; reflexivity).
  destruct (set_consistency_valid Sample.superblock CNone) as (Hs & Hc & _).
  - unfold u64_ok. cbn. lia.
  - exact Hv.
  - split; [exact Hs|exact Hc].
Defined.

Definition sample_footer : FooterRec :=
  {| total_chunks := 2; data_end_offset := 5000;
     page_table := [{| pe_stream := SManifest; pe_offset := 4500; pe_len := 94 |}]; f_flags := 0 |}.

Lemma sample_footer_ok : Footer.footer_ok sample_footer.
Proof.
  split; unfold u64_ok, u32_ok; cbn; try lia. repeat constructor; cbn; unfold u32_ok, u64_ok; cbn; lia.
Qed.

Definition sample_copy : bytes := ztake SUPERBLOCK_COPY_LEN sample_sb_bytes.

Lemma footer_roundtrip_witness : exists b,
  Footer.encode sample_footer sample_copy (Some Sample.key) = Ok b /\
  Footer.decode b sample_copy = Ok sample_footer /\
  exists what, Footer.decode b [] = Err (Corrupt what).
Proof.
  evaluates (Footer.encode sample_footer sample_copy (Some Sample.key)) b E.
  destruct (footer_roundtrip sample_footer sample_copy (Some Sample.key) b sample_footer_ok) as (_ & _ & Hd & Hp).
  - vm_compute. discriminate.
  - exact E.
  - exists b. split; [reflexivity|]. split; [exact Hd|]. apply Hp. vm_compute. discriminate.
Defined.

Definition sample_footer_bytes : bytes :=
  match Footer.encode sample_footer sample_copy (Some Sample.key) with Ok b => b | Err _ => [] end.

Lemma footer_decode_exact_witness : exists b',
  Footer.encode sample_footer sample_copy (Some Sample.key) = Ok b' /\ sample_footer_bytes = b'.
Proof.
  destruct (footer_decode_exact sample_footer_bytes sample_copy sample_footer (Some Sample.key))
    as (b' & He & _ & Hb).
  - vm_compute. reflexivity.
  - vm_compute. reflexivity.
  - vm_compute. reflexivity.
  - discriminate.
  - exists b'. split; [exact He|]. apply Hb; vm_compute; reflexivity.
Defined.

(** ** Chunks *)

Definition sample_chunk : bytes := zrep 100 Byte.x41.

Lemma chunk_seal_open_witness : exists rec h ns,
  Chunk.seal_chunk Chunk.default_options (Some Sample.key) Sample.key Block Nonce.new sample_chunk =
    Ok (rec, h, ns) /\
  Chunk.open_chunk Aes256Gcm (Some Sample.key) Sample.key Block h 100 rec = Ok sample_chunk.
Proof.
  evaluates (Chunk.seal_chunk Chunk.default_options (Some Sample.key) Sample.key Block Nonce.new sample_chunk) x E.
  destruct x as [[rec h] ns]. exists rec, h, ns. split; [reflexivity|].
  rewrite <- (app_nil_r rec).
  apply (chunk_seal_open Chunk.default_options (Some Sample.key) Sample.key Block Nonce.new sample_chunk
    rec h ns 100 []); [vm_compute; discriminate|vm_compute; discriminate|exact E].
Defined.

Definition sample_record : bytes * bytes :=
  match Chunk.seal_chunk Chunk.default_options (Some Sample.key) Sample.key Block Nonce.new sample_chunk with
  | Ok (rec, h, _) => (rec, h)
  | Err _ => ([], [])
  end.

Lemma open_chunk_sound_witness :
  Mac.content_hash Sample.key sample_chunk = snd sample_record /\ zlen sample_chunk <= 100.
Proof.
  destruct (open_chunk_sound Aes256Gcm (Some Sample.key) Sample.key Block (snd sample_record) 100
    (fst sample_record) sample_chunk) as (Hh & Hl & _); [vm_compute; reflexivity|].
  split; [exact Hh|exact Hl].
Defined.

(** ** Page streams *)

(** A sink that records the pages it gets. *)
Definition page_log : Type := list (StreamId * Z * bytes) * NonceSeq.

Definition log_sink : PageSink page_log := {|
  write_page log st no rec := Ok (fst log ++ [(st, no, rec)], snd log);
  meta_nonces log := snd log;
  set_meta_nonces ns log := (fst log, ns);
|}.
#[local] Existing Instance log_sink.

Definition log_stream : option (PageStream page_log) :=
  PageStreams.with_page_len ([], Nonce.new) SManifest Aes256Gcm Sample.key 4.

Definition log_parts : list bytes := [zrep 3 Byte.x01; []; zrep 7 Byte.x02].

Lemma page_stream_pages_witness : exists ps,
  log_stream = Some ps /\
  (let* ps := put_all (fun b ps => PageStreams.write ps b) log_parts ps in
   let* ps := PageStreams.finish ps in Ok (ps_sink ps)) =
  PageStreams.emit_pages Aes256Gcm Sample.key SManifest 0 (zchunks 4 (concat log_parts)) ([], Nonce.new).
Proof.
  destruct log_stream as [ps|] eqn:E; [|discriminate].
  exists ps. split; [reflexivity|].
  apply (page_stream_pages ([], Nonce.new) SManifest Aes256Gcm Sample.key 4 ps log_parts). exact E.
Defined.

(** ** Images *)

Definition image_file : bytes :=
  match Sample.image with Ok (_, file, _) => fw_bytes file | Err _ => [] end.

Lemma open_bounds_witness : exists img,
  Img.open image_file = Ok img /\ layout_ok img /\ is_corrupt (Img.read_chunk_bytes img 0 10).
Proof.
  evaluates (Img.open image_file) img E. exists img. split; [reflexivity|].
  destruct (open_bounds image_file img) as (_ & Hl & Hb & _); [vm_compute; reflexivity|exact E|].
  split; [exact Hl|]. destruct (Hb 0 10) as [Hc|(_ & Hs & _)]; [discriminate|exact Hc|].
  exfalso. vm_compute in Hs. apply Hs. reflexivity.
Defined.


(** ** A chain of a full and an incremental image, in a set *)
Module Backup.
Definition ok {A} (r : result A) (default : A) : A := match r with Ok a => a | Err _ => default end.

Definition passphrase : Encryption := Passphrase [Byte.x70; Byte.x77].
Definition chain : Id := Sample.id Byte.x02.
Definition uuid (seq : Z) : Id := Sample.id (z2b (16 + seq)).

Definition rnd (seq : Z) : Randomness :=
  {| rnd_salt := zrep 16 Byte.x04; rnd_chain_key := zrep 32 Byte.x61; rnd_nonce := zrep 12 (z2b seq) |}.

(** The superblock a backup builds from its key material. *)
Definition superblock_of (nk : NewChainKeys) (chain : Id) (seq created : Z) (delta : Z) : Superblock :=
  {| format_major := 1; min_reader := 1; flags := 1 + delta; image_kind := Block;
     consistency := PointInTime; image_uuid := uuid seq; chain_id := chain;
     set_id := Sample.id Byte.x03; parent_uuid := if seq =? 0 then Ids.ZERO else uuid (seq - 1);
     seq_in_chain := seq; created_unix := created; source_size_bytes := 3 * 2 ^ 18;
     logical_block_size := 512; chunk_size := 2 ^ 18; kdf_id := 1; aead_id := 1;
     kdf_salt := nk_kdf_salt nk; argon2_m_cost_kib := Kdf.m_cost_kib (nk_params nk);
     argon2_t_cost := Kdf.t_cost (nk_params nk); argon2_p_cost := Kdf.p_cost (nk_params nk);
     wrap_nonce := nk_wrap_nonce nk; wrapped_chain_key := nk_wrapped_chain_key nk |}.

Definition no_keys : NewChainKeys :=
  {| nk_keys := {| ik_data_key := None; ik_meta_key := []; ik_dedup_key := [] |};
     nk_kdf_salt := []; nk_params := EKeys.zero_params; nk_wrap_nonce := [];
     nk_wrapped_chain_key := []; nk_encrypted := false |}.

Definition keys0 : NewChainKeys := ok (EKeys.new_chain_keys (rnd 0) passphrase chain (uuid 0)) no_keys.
Definition sb0 : Superblock := superblock_of keys0 chain 0 1000 0.

Definition keys1 : NewChainKeys :=
  ok (EKeys.member_chain_keys (rnd 1) passphrase sb0 chain (uuid 1)) no_keys.
Definition sb1 : Superblock := superblock_of keys1 chain 1 2000 SbFlags.DELTA_MANIFEST.

Definition writer_keys (nk : NewChainKeys) : WriterKeys :=
  {| wk_data_key := ik_data_key (nk_keys nk); wk_meta_key := ik_meta_key (nk_keys nk);
     wk_dedup_key := ik_dedup_key (nk_keys nk) |}.

Definition image (s : Superblock) (nk : NewChainKeys) (plaintexts : list bytes)
    (streams : list (StreamId * bytes)) :=
  write_image Sample.file s (Some (ik_meta_key (nk_keys nk))) Chunk.default_options
    (writer_keys nk) plaintexts streams.

(** The entries that refer to the chunks of an image. *)
Definition entries_of (s : Superblock) (nk : NewChainKeys) (plaintexts : list bytes) : list BlockEntry :=
  match image s nk plaintexts [(SExtras, [Byte.x00])] with
  | Ok (refs, _, _) =>
    map (fun r => {| be_state := STATE_STORED; be_member := seq_in_chain s; be_hash := ref_hash r;
                     be_offset := ref_offset r; be_stored_len := ref_stored_len r |}) refs
  | Err _ => []
  end.

Definition plain0 : list bytes := [zrep 40 Byte.x41; zrep 41 Byte.x42].
Definition plain1 : list bytes := [zrep 42 Byte.x43].

Definition entry (l : list BlockEntry) (i : nat) : BlockEntry := nth i l Entry.unused.

Definition manifest0 : MemberManifest :=
  MFull [entry (entries_of sb0 keys0 plain0) 0; Entry.zero; entry (entries_of sb0 keys0 plain0) 1].
Definition manifest1 : MemberManifest :=
  MDelta [{| de_chunk_no := 1; de_entry := entry (entries_of sb1 keys1 plain1) 0 |}].

Definition header (m : MemberManifest) : BlockManifestHeader :=
  {| bm_chunk_size := 2 ^ 18; bm_chunk_count := 3; bm_entry_count := manifest_count m;
     bm_used_extent_count := 1; bm_used_bytes := 100; bm_fs_type := [Byte.x65]; bm_fs_uuid := [];
     bm_label := [] |}.

Definition stream_of (m : MemberManifest) : bytes :=
  BlockHeader.enc (header m) (is_delta m) ++ manifest_enc m.

Abbreviation image0 := (image sb0 keys0 plain0 [(SManifest, stream_of manifest0)]).
Abbreviation image1 := (image sb1 keys1 plain1 [(SManifest, stream_of manifest1)]).

Definition file_of (r : result (list ChunkRef * FileW * FooterRec)) : bytes :=
  match r with Ok (_, f, _) => fw_bytes f | Err _ => [] end.

Definition name0 : bytes := String.list_byte_of_string "a/000-full.lrimg".
Definition name1 : bytes := String.list_byte_of_string "a/001-inc.lrimg".

Definition set : list (bytes * bytes) := [(name1, file_of image1); (name0, file_of image0)].

Definition files : list ChainMemberFile := ok (Resolve.resolve_chain set name1) [].
Definition members : list OpenMember := ok (Members.open_chain set files passphrase) [].

Definition no_walk : ChainWalk := {| cw_members := []; cw_chunk_count := 0; cw_chunk_size := 0 |}.
Definition walk : ChainWalk := ok (Walks.new members) no_walk.

Lemma ok_is_Ok {A} (r : result A) (d : A) : is_ok r = true -> r = Ok (ok r d).
Proof. by destruct r. Qed.

Lemma walk_ok : Walks.new members = Ok walk.
Proof. apply ok_is_Ok. vm_compute. reflexivity. Qed.

(** The walk holds the two images, unlocked. *)
Lemma walk_members :
  map (fun m => (om_kind m, om_superblock m, om_keys m)) (cw_members walk) =
    [(Full, sb0, nk_keys keys0); (Incremental, sb1, nk_keys keys1)] /\
  map (fun m => Ok (om_reader m)) (cw_members walk) =
    [Img.open (file_of image0); Img.open (file_of image1)].
Proof. split; vm_compute; reflexivity. Qed.

(** A member whose image has been written with a manifest stream. *)
Lemma written_manifest_of (m : OpenMember) (s : Superblock) (nk : NewChainKeys) plaintexts mm :
  image_input_ok Sample.file s plaintexts [(SManifest, stream_of mm)] ->
  is_ok (image s nk plaintexts [(SManifest, stream_of mm)]) = true ->
  Sb.aead_kind s = Ok Aes256Gcm -> om_superblock m = s -> om_keys m = nk_keys nk ->
  Img.open (file_of (image s nk plaintexts [(SManifest, stream_of mm)])) = Ok (om_reader m) ->
  manifest_ok 3 mm -> BlockHeader.ok (header mm) ->
  bool_decide (om_kind m = Incremental) = is_delta mm ->
  manifest_of 3 (2 ^ 18) m mm.
Proof.
  intros Hin Hok Hk Hs Hkeys Ho Hmm Hh Hkind. unfold image in *.
  destruct (write_image _ _ _ _ _ _ _) as [[[refs file'] footer]|e] eqn:E; [|done]. cbn [file_of] in Ho.
  destruct (write_image_reads _ _ _ _ _ _ _ _ _ _ Hin E)
    as (rs & pgs & img & _ & _ & Hpay & Ho' & _ & _ & _ & _ & _ & Hstr & _).
  assert (img = om_reader m) as -> by congruence.
  destruct (Hstr SManifest) as (r & Hr & Hh' & _). rewrite Hpay in Hh'. cbn in Hh'.
  split; [done|done|]. exists Aes256Gcm, r, (header mm), []. rewrite Hs, Hkeys, app_nil_r.
  split_and!; done.
Qed.

Lemma input0 : image_input_ok Sample.file sb0 plain0 [(SManifest, stream_of manifest0)].
Proof.
  split; [done|done| | | |cbn; intuition discriminate|vm_compute; discriminate].
  - split; unfold u32_ok, u64_ok, id_ok; vm_compute; (done || (split; [discriminate|done])).
  - repeat constructor; vm_compute; discriminate.
  - cbn. apply NoDup_singleton.
Qed.

Lemma input1 : image_input_ok Sample.file sb1 plain1 [(SManifest, stream_of manifest1)].
Proof.
  split; [done|done| | | |cbn; intuition discriminate|vm_compute; discriminate].
  - split; unfold u32_ok, u64_ok, id_ok; vm_compute; (done || (split; [discriminate|done])).
  - repeat constructor; vm_compute; discriminate.
  - cbn. apply NoDup_singleton.
Qed.

Lemma manifests_ok : manifest_ok 3 manifest0 /\ manifest_ok 3 manifest1.
Proof.
  split.
  - split; [|done]. unfold manifest0.
    repeat constructor; vm_compute; (done || (split; [discriminate|done]) || discriminate).
  - split_and!; repeat constructor; vm_compute; (done || (split; [discriminate|done]) || discriminate).
Qed.

Lemma headers_ok : BlockHeader.ok (header manifest0) /\ BlockHeader.ok (header manifest1).
Proof. split; split; bounds. Qed.

Lemma map_two {A B} (f : A -> B) l a b :
  map f l = [a; b] -> exists x y, l = [x; y] /\ f x = a /\ f y = b.
Proof. destruct l as [|x [|y [|? ?]]]; try discriminate. intros [= <- <-]. by exists x, y. Qed.

Lemma walk_manifests : Forall2 (manifest_of 3 (cw_chunk_size walk)) (cw_members walk) [manifest0; manifest1].
Proof.
  assert (cw_chunk_size walk = 2 ^ 18) as -> by (vm_compute; reflexivity).
  destruct walk_members as [Hm Hr]. apply map_two in Hm as (m0 & m1 & Hl & Hm0 & Hm1).
  rewrite Hl in *. apply map_two in Hr as (x0 & x1 & Hl' & Hr0 & Hr1). injection Hl' as <- <-.
  apply pair_equal_spec in Hm0 as [[Hk0 Hs0]%pair_equal_spec Hy0].
  apply pair_equal_spec in Hm1 as [[Hk1 Hs1]%pair_equal_spec Hy1].
  destruct manifests_ok, headers_ok. constructor; [|constructor; [|constructor]].
  - apply (written_manifest_of m0 sb0 keys0 plain0);
      [exact input0|vm_compute; reflexivity|vm_compute; reflexivity|exact Hs0|exact Hy0|symmetry; exact Hr0|assumption|assumption|].
    rewrite Hk0. reflexivity.
  - apply (written_manifest_of m1 sb1 keys1 plain1);
      [exact input1|vm_compute; reflexivity|vm_compute; reflexivity|exact Hs1|exact Hy1|symmetry; exact Hr1|assumption|assumption|].
    rewrite Hk1. reflexivity.
Qed.
End Backup.

(** The states a walk hands out, in order. *)
Definition collect_states (i : Z) (s : ChunkState) (a : ChunkAccess) :
    step (list (Z * ChunkState)) unit := modify (fun v => v ++ [(i, s)]).

Lemma chain_walk_merges_witness : exists access,
  Walks.walk Backup.walk collect_states [] =
    visit_all (fun i s => collect_states i s access) 0
      (merged_states 3 [Backup.manifest0; Backup.manifest1]) [].
Proof.
  destruct (chain_walk_merges Backup.members Backup.walk 3 [Backup.manifest0; Backup.manifest1]
    collect_states []) as (access & _ & _ & Hw & _).
  - exact Backup.walk_ok.
  - exact Backup.walk_manifests.
  - exists access. exact Hw.
Defined.

Lemma chain_new_sound_witness : exists first,
  cw_members Backup.walk !! 0%nat = Some first /\ om_kind first = Full.
Proof.
  destruct (chain_new_sound Backup.members Backup.walk) as (_ & first & Hf & Hk & _).
  - vm_compute. discriminate.
  - exact Backup.walk_ok.
  - exists first. split; [exact Hf|exact Hk].
Defined.

Definition sample_access : ChunkAccess :=
  match cw_members Backup.walk with
  | m :: _ => Walks.access Backup.walk m Aes256Gcm
  | [] => {| ca_readers := []; ca_keys := []; ca_aead := Aes256Gcm; ca_image_kind := Block; ca_max_plaintext := 0 |}
  end.

Definition sample_state : ChunkState :=
  ChunkStates.of_entry
    (Backup.entry (Backup.entries_of Backup.sb1 Backup.keys1 Backup.plain1) 0).

Lemma chunk_access_sound_witness : exists member offset len keys,
  sample_state =
    Stored member (Mac.content_hash (ak_dedup_key keys) (zrep 42 Byte.x43)) offset len /\
  ca_keys sample_access !! Z.to_nat member = Some keys.
Proof.
  destruct (chunk_access_sound sample_access sample_state (zrep 42 Byte.x43))
    as (member & hash & offset & len & reader & keys & record & Hs & _ & Hk & _ & Hh & _).
  - vm_compute. reflexivity.
  - exists member, offset, len, keys. split; [rewrite Hh; exact Hs|exact Hk].
Defined.

(** ** Keys of a chain *)

Lemma new_chain_unlocks_witness :
  EKeys.unlock_image Backup.passphrase Backup.sb0 = Ok (nk_keys Backup.keys0).
Proof.
  destruct (new_chain_unlocks (Backup.rnd 0) Backup.passphrase Backup.chain (Backup.uuid 0)
    Backup.keys0 Backup.sb0) as (Hu & _).
  - reflexivity.
  - vm_compute. reflexivity.
  - split; reflexivity.
  - exact Hu.
Defined.

Lemma member_joins_chain_witness : exists key,
  EKeys.chain_key_of Backup.passphrase Backup.sb1 = Ok (key, true) /\
  EKeys.unlock_image Backup.passphrase Backup.sb1 = Ok (nk_keys Backup.keys1).
Proof.
  destruct (member_joins_chain (Backup.rnd 1) Backup.passphrase Backup.sb0 Backup.chain (Backup.uuid 1))
    as (Hj & _).
  exists (zrep 32 Byte.x61).
  destruct (Hj Backup.keys1 Backup.sb1 (zrep 32 Byte.x61) true) as (Hc & Hu & _).
  - vm_compute. reflexivity.
  - split; reflexivity.
  - vm_compute. reflexivity.
  - split; [exact Hc|exact Hu].
Defined.

(** ** Disk layouts *)

Definition sample_disk : DiskHeader :=
  {| dh_disk_size := 2 ^ 30; dh_logical_block_size := 512; dh_pt_type := PtGpt; dh_serial_wwid := [Byte.x73];
     dh_pt_raw := []; dh_regions := [Region.new Leading 0 0 (2 ^ 20); Region.new PartitionFs 1 2048 (2 ^ 29)] |}.

Lemma sample_disk_ok : DiskLemmas.ok sample_disk.
Proof.
  split; [bounds..|]. repeat constructor; bounds.
Qed.

Lemma disk_validate_spec_witness :
  DiskHeaders.validate sample_disk = Ok tt /\ DiskLemmas.in_order 512 (dh_regions sample_disk).
Proof.
  pose proof (disk_validate_spec sample_disk sample_disk_ok) as [Hv _].
  assert (DiskHeaders.validate sample_disk = Ok tt) as H by (vm_compute; reflexivity).
  split; [exact H|]. apply Hv. exact H.
Defined.

Lemma region_chunks_tile_witness : exists l,
  Region.chunks (Region.new PartitionFs 1 2048 (2 ^ 20 + 5)) (2 ^ 18) 512 = Ok l /\
  Region.chunk_count (Region.new PartitionFs 1 2048 (2 ^ 20 + 5)) (2 ^ 18) = Ok (zlen l).
Proof.
  destruct (region_chunks_tile (Region.new PartitionFs 1 2048 (2 ^ 20 + 5)) (2 ^ 18) 512)
    as (l & Hl & Hc & _).
  - split; bounds.
  - vm_compute. split; [reflexivity|discriminate].
  - discriminate.
  - vm_compute. discriminate.
  - vm_compute. reflexivity.
  - exists l. split; [exact Hl|exact Hc].
Defined.

(** ** File manifests and extras *)

Definition sample_entry : FileEntry :=
  {| fe_file_kind := FILE_KIND_REGULAR; fe_mode := 420; fe_uid := 0; fe_gid := 0; fe_mtime_sec := -5;
     fe_mtime_nsec := 1; fe_size := 10; fe_rdev := 0; fe_hardlink_group := 0; fe_link_target := [];
     fe_path := [Byte.x61]; fe_xattrs := [{| xa_name := [Byte.x6e]; xa_value := [] |}]; fe_acl := [];
     fe_chunk_refs_total := 1; fe_chunk_refs_here := [zrep 32 Byte.x09] |}.

Definition sample_files : list FileRecord :=
  [{| fr_entry := sample_entry; fr_holes := [(4096, 512)] |}; {| fr_entry := sample_entry; fr_holes := [] |}].

Lemma sample_entry_ok : entry_ok sample_entry.
Proof. split; try bounds; repeat constructor; bounds. Qed.

Lemma file_manifest_roundtrip_witness : exists b,
  put_all FileRecords.write_record sample_files [] = Ok b /\ FileRecords.read_manifest b = Ok sample_files.
Proof.
  apply (file_manifest_roundtrip sample_files).
  repeat constructor; try exact sample_entry_ok; bounds.
Defined.

Definition sample_tokens : list ChangeToken :=
  [{| ct_index := 3; ct_ino := 77; ct_ctime_sec := -1; ct_ctime_nsec := 9 |}].

Lemma file_changes_roundtrip_witness : exists b records,
  Extras.write_file_changes sample_tokens ([] : bytes) = Ok b /\
  Reader.push_n Extras.read_record (zlen records) b = Ok (records, []).
Proof.
  destruct (file_changes_roundtrip (W := bytes) (Src := bytes) sample_tokens)
    as (b & records & batches & He & [Hc _] & _).
  - repeat constructor; bounds.
  - exists b, records. split; [exact (He [] I)|].
    destruct (Hc b []) as (s & Hr & Hs).
    + rewrite app_nil_r. reflexivity.
    + rewrite Hr. cbv in Hs. rewrite Hs. reflexivity.
Defined.

(** ** Catalogs *)

Definition sample_member (seq : Z) : MemberRecord :=
  {| mr_image_uuid := Backup.uuid seq; mr_parent_uuid := Backup.uuid (seq - 1);
     mr_kind := if seq =? 0 then Full else Incremental; mr_seq_in_chain := seq;
     mr_image_kind := Block; mr_consistency := PointInTime; mr_created_unix := 1000 + seq;
     mr_source_label := []; mr_size_bytes := 10; mr_file_name := [z2b (97 + seq)];
     mr_verified_unix := None |}.

Definition sample_chain : ChainRecord :=
  {| ch_chain_id := Backup.chain; ch_created_unix := 1000; ch_source_label := [];
     ch_members := [sample_member 1; sample_member 0; sample_member 2] |}.

Lemma is_complete_spec_witness : exists m,
  Chains.latest_member sample_chain = Some m /\ mr_seq_in_chain m = 2.
Proof.
  destruct (is_complete_spec sample_chain) as [_ Hl].
  - vm_compute. discriminate.
  - destruct (Hl ltac:(vm_compute; reflexivity)) as (m & Hm & _ & Hs & _). exists m. split; [exact Hm|exact Hs].
Defined.

Definition sample_catalog : Catalog :=
  Catalogs.upsert_chain (Catalogs.new (Sample.id Byte.x03) [Byte.x73] 5) sample_chain.

Lemma resolve_parent_sound_witness : exists ch,
  In ch (cat_chains sample_catalog) /\ Chains.is_complete ch = true /\
  Chains.latest_member ch = Some (sample_member 2).
Proof.
  destruct (resolve_parent_sound sample_catalog LATEST (sample_member 2))
    as (ch & l & Hin & Hc & _ & Hl & _ & _ & He).
  - vm_compute. reflexivity.
  - exists ch. split; [exact Hin|]. split; [exact Hc|]. rewrite Hl. f_equal. apply He. reflexivity.
Defined.

(** ** Sets *)

(** A catalog text that never parses, and a verifier that opens the image. *)
Definition no_json : CatalogJson := {| from_json _ := None; to_json _ := Some [Byte.x7b; Byte.x7d] |}.
#[local] Existing Instance no_json.

Definition opening_verifier : ChainVerifier (list (bytes * bytes)) := fun d name request =>
  let* b := open_ro d name in
  let* img := Img.open b in
  Ok {| rp_image_uri := vq_image request; rp_image_kind := image_kind (ir_superblock img);
        rp_members := 1; rp_pages := 0; rp_chunks := 0; rp_bytes_checked := 0; rp_warnings := [];
        rp_recorded_bad_chunks := 0; rp_every_member := vq_chain request |}.
#[local] Existing Instance opening_verifier.

Definition no_loaded : Loaded :=
  {| ld_catalog := Catalogs.new [] [] 0; ld_warnings := []; ld_rebuilt := false |}.
Definition sample_loaded : Loaded := Backup.ok (Caches.load Backup.set [Byte.x73] 9) no_loaded.

Lemma load_validated_witness : exists ch m b,
  In ch (cat_chains (ld_catalog sample_loaded)) /\ In m (ch_members ch) /\
  Memory.find_file Backup.set (mr_file_name m) = Some b /\ zlen b = mr_size_bytes m.
Proof.
  destruct (load_validated Backup.set [Byte.x73] 9 sample_loaded) as [Hv _].
  - apply Backup.ok_is_Ok. vm_compute. reflexivity.
  - assert (exists ch m, In ch (cat_chains (ld_catalog sample_loaded)) /\ In m (ch_members ch))
      as (ch & m & Hc & Hm).
    { assert (match cat_chains (ld_catalog sample_loaded) with
              | ch :: _ => match ch_members ch with _ :: _ => true | [] => false end
              | [] => false end = true) as Hne by (vm_compute; reflexivity).
      destruct (cat_chains (ld_catalog sample_loaded)) as [|ch ?]; [discriminate|].
      destruct (ch_members ch) as [|m ?] eqn:E; [discriminate|].
      exists ch, m. rewrite E. split; left; reflexivity. }
    destruct (Hv ch m Hc Hm) as (b & s & Hb & _ & _ & Hz & _).
    exists ch, m, b. split; [exact Hc|]. split; [exact Hm|]. split; [exact Hb|exact Hz].
Defined.

(** An older chain with one full, next to the newer one. *)
Definition old_chain : Id := Sample.id Byte.x0a.
Definition old_keys : NewChainKeys :=
  Backup.ok (EKeys.new_chain_keys (Backup.rnd 0) Backup.passphrase old_chain (Backup.uuid 0)) Backup.no_keys.
Definition old_name : bytes := String.list_byte_of_string "b/000-full.lrimg".
Definition two_chains : list (bytes * bytes) :=
  (old_name, Backup.file_of (Backup.image (Backup.superblock_of old_keys old_chain 0 500 0) old_keys
    Backup.plain0 [(SManifest, [Byte.x00])])) :: Backup.set.

Definition keep_one : RetentionOptions :=
  {| ro_keep_chains := 1; ro_dry_run := false; ro_break_stale_lock := false;
     ro_set_lock_ttl_secs := None; ro_verify_first := false; ro_encryption := Backup.passphrase |}.

Lemma two_chains_distinct : cache_distinct two_chains.
Proof. intros b c Hb. vm_compute in Hb. discriminate. Qed.

Abbreviation retained := (Retain.apply [Byte.x73] keep_one two_chains).

Lemma pair_ok {A B} (x : A * result B) (b : B) :
  is_ok (snd x) = true -> x = (fst x, Ok (Backup.ok (snd x) b)).
Proof. destruct x as [a r]. cbn. intros Hr. f_equal. by apply Backup.ok_is_Ok. Qed.

Lemma retention_safe_witness : exists survivor,
  Chains.is_complete survivor = true /\ verified_on two_chains Backup.passphrase survivor /\
  ~ In old_name (Retain.files_of survivor).
Proof.
  destruct (retention_safe [Byte.x73] keep_one two_chains old_name two_chains_distinct)
    as (_ & survivor & Hc & Hv & Hn & _).
  - vm_compute. reflexivity.
  - intros He.
    assert (match contents (fst (Retain.apply [Byte.x73] keep_one two_chains)) old_name with
            | Some _ => false | None => true end = true) as Hgone by (vm_compute; reflexivity).
    assert (match contents two_chains old_name with Some _ => true | None => false end = true)
      as Hthere by (vm_compute; reflexivity).
    rewrite He in Hgone. destruct (contents two_chains old_name); discriminate.
  - exists survivor. split; [exact Hc|]. split; [exact Hv|exact Hn].
Defined.

Definition no_report : RetentionReport :=
  {| rr_set := []; rr_kept := []; rr_deleted := []; rr_dry_run := false; rr_complete_chains := 0;
     rr_warnings := [] |}.

Lemma retention_report_witness :
  exists kept usable, rr_kept (Backup.ok (snd retained) no_report) = map Retain.id_text kept /\
    rr_complete_chains (Backup.ok (snd retained) no_report) = zlen usable /\ incl kept usable.
Proof.
  destruct (retention_report [Byte.x73] keep_one two_chains (fst retained)
    (Backup.ok (snd retained) no_report) two_chains_distinct) as (kept & usable & Hk & Hu & Hi & _).
  - apply pair_ok. vm_compute. reflexivity.
  - exists kept, usable. split; [exact Hk|]. split; [exact Hu|exact Hi].
Defined.

(** *** A cache that hides a member

    [same_records] looks up every cached member in the scan, but not every
    scanned member in the cache: a cached chain that lists one member twice
    hides another. *)

Definition both_scanned : Scan :=
  {| sc_members := [{| sm_file_name := Backup.name0; sm_superblock := Backup.sb0; sm_size_bytes := 9 |};
                    {| sm_file_name := Backup.name1; sm_superblock := Backup.sb1; sm_size_bytes := 9 |}];
     sc_warnings := [] |}.

Definition built_catalog : Catalog := Builds.build_catalog [Byte.x73] 9 both_scanned.

Definition hiding_catalog : Catalog :=
  Catalogs.with_chains built_catalog (map (fun ch =>
    {| ch_chain_id := ch_chain_id ch; ch_created_unix := ch_created_unix ch;
       ch_source_label := ch_source_label ch;
       ch_members := match ch_members ch with m :: _ :: ms => m :: m :: ms | ms => ms end |})
    (cat_chains built_catalog)).

Example cache_hides_member :
  Caches.same_records hiding_catalog built_catalog = true /\
  Caches.find_member (Backup.uuid 1) (cat_chains built_catalog) <> None /\
  Caches.find_member (Backup.uuid 1) (cat_chains hiding_catalog) = None.
Proof. vm_compute. split; [reflexivity|]. split; [discriminate|reflexivity]. Qed.
