(* ===== verification/Scenarios.v ===== *)
(** * Concrete runs of the verifier, the restore plans and the capture

    The witnesses of the properties about whole operations, on the images and
    sets of [Examples.v]. *)

From stdpp Require Import gmap relations.
From S2P Require Import Prelude Maps Text Core Crypto Pages Wire Superblock Chunk Footer Files ImageReader Roundtrip.
From S2P Require Import Manifest Disk FileManifest Tree EngineKeys CatalogRecords Steps Destination.
From S2P Require Import Progress Chain ChainSpec Plan StreamImage Verifier Observation VerifyImage VerifySpec.
From S2P Require Import VerifyFiles Capture CaptureSpec Retention RetentionSafety RetentionVerified Jobs JobsSpec Examples.

#[local] Existing Instance Toy.toy.
#[local] Existing Instance Toy.toy_laws.
#[local] Existing Instance Memory.destination.
#[local] Existing Instance Memory.destination_laws.
#[local] Existing Instance no_json.

(** ** Progress *)
Definition listening : EngineContext := {| ctx_progress := true; ctx_cancel := None |}.

Lemma reports_throttled_witness : exists r1 p,
  Progress.reporter listening 0 start_run = (r1, Ok p) /\
  match Progress.reports p [1; 70000000; 70000001; 140000000] r1 with
  | (r2, Ok _) => Progress.bytes_sent r2 <= 140000000 / REPORT_STEP
  | (r2, Err e) => e = Prelude.Cancelled /\ Progress.bytes_sent r2 <= 140000000 / REPORT_STEP
  end.
Proof.
  eexists _, _. split; [reflexivity|].
  apply (Progress.reports_throttled listening 0 140000000 [1; 70000000; 70000001; 140000000] start_run).
  - repeat constructor; vm_compute; discriminate.
  - vm_compute. discriminate.
  - vm_compute. reflexivity.
  - reflexivity.
Defined.

(** ** File trees *)
Definition entry_at (kind size group : Z) (path : string) (refs : list bytes) : FileEntry :=
  {| fe_file_kind := kind; fe_mode := 420; fe_uid := 0; fe_gid := 0; fe_mtime_sec := 0;
     fe_mtime_nsec := 0; fe_size := size; fe_rdev := 0; fe_hardlink_group := group;
     fe_link_target := []; fe_path := str path; fe_xattrs := []; fe_acl := [];
     fe_chunk_refs_total := zlen refs; fe_chunk_refs_here := refs |}.

(** A directory, a sparse file in it and a hard link to that file. *)
Definition sparse_file : FileRecord :=
  {| fr_entry := entry_at FILE_KIND_REGULAR 10 1 "d/f" []; fr_holes := [(2, 3); (6, 2)] |}.
Definition sample_link : FileRecord :=
  {| fr_entry := entry_at FILE_KIND_HARDLINK 0 1 "d/g" []; fr_holes := [] |}.
Definition sample_directory : FileRecord :=
  {| fr_entry := entry_at FILE_KIND_DIRECTORY 0 0 "d" []; fr_holes := [] |}.
Definition sample_tree : Tree := Trees.of_records [sparse_file; sample_link; sample_directory].

Lemma sample_widths : Forall TreeSpec.widths_ok [sample_directory; sparse_file; sample_link].
Proof.
  repeat (apply List.Forall_cons || apply List.Forall_nil);
    split; repeat (apply List.Forall_cons || apply List.Forall_nil); bounds.
Qed.

Lemma file_tree_spec_witness : TreeSpec.tree_ok sample_tree.
Proof.
  apply (TreeSpec.file_tree_spec sample_tree).
  - exact sample_widths.
  - vm_compute. reflexivity.
Defined.

Definition sparse_parts : list bytes :=
  [[Byte.x41; Byte.x42; Byte.x00; Byte.x00]; [Byte.x00; Byte.x43; Byte.x00; Byte.x00; Byte.x44; Byte.x45]].

Lemma sparse_restore_exact_witness : exists f,
  Trees.restore_regular sparse_file sparse_parts 100 = Ok f /\ fw_bytes f = concat sparse_parts.
Proof.
  destruct (TreeSpec.sparse_restore_exact sparse_file sparse_parts 100) as [Hs He].
  - apply (Forall_inv (Forall_inv_tail sample_widths)).
  - vm_compute. reflexivity.
  - vm_compute. reflexivity.
  - destruct He as [f Hf].
    + vm_compute. reflexivity.
    + vm_compute. discriminate.
    + repeat (apply List.Forall_cons || apply List.Forall_nil);
        (apply (TreeLemmas.hole_is_zero_Ok _ _ _ 10); [..|reflexivity]; bounds).
    + exists f. split; [exact Hf|]. apply Hs. exact Hf.
Defined.

(** ** Plans *)
(** A disk with the manifests of two regions, of one chunk and of two, one of
    which could not be read. *)
Definition plan_disk : DiskHeader :=
  {| dh_disk_size := 2 ^ 20; dh_logical_block_size := 512; dh_pt_type := PtGpt;
     dh_serial_wwid := [Byte.x73]; dh_pt_raw := [];
     dh_regions := [Region.new Leading 0 0 (2 ^ 18); Region.new PartitionFs 1 512 (2 ^ 19)] |}.

Definition plan_superblock : Superblock :=
  let s := Sample.superblock in
  {| format_major := format_major s; min_reader := min_reader s; flags := SbFlags.WHOLE_DISK;
     image_kind := Block; consistency := consistency s; image_uuid := image_uuid s;
     chain_id := chain_id s; set_id := set_id s; parent_uuid := parent_uuid s; seq_in_chain := 0;
     created_unix := created_unix s; source_size_bytes := 2 ^ 20; logical_block_size := 512;
     chunk_size := 2 ^ 18; kdf_id := kdf_id s; aead_id := aead_id s; kdf_salt := kdf_salt s;
     argon2_m_cost_kib := argon2_m_cost_kib s; argon2_t_cost := argon2_t_cost s;
     argon2_p_cost := argon2_p_cost s; wrap_nonce := wrap_nonce s;
     wrapped_chain_key := wrapped_chain_key s |}.

Definition plan_region (chunks : Z) : BlockManifestHeader :=
  {| bm_chunk_size := 2 ^ 18; bm_chunk_count := chunks; bm_entry_count := chunks; bm_used_extent_count := 1;
     bm_used_bytes := 100; bm_fs_type := [Byte.x65]; bm_fs_uuid := []; bm_label := [] |}.

Definition plan_stream : bytes :=
  Backup.ok (DiskHeaders.write plan_disk []) [] ++ BlockHeader.enc (plan_region 1) false ++
  Entry.enc Entry.zero ++ BlockHeader.enc (plan_region 2) false ++ Entry.enc Entry.zero ++ Entry.enc (Entry.bad_sector 4096 (2 ^ 18)).

Lemma whole_disk_accounts_witness : exists s,
  Plans.whole_disk_stream plan_superblock plan_stream = Ok s /\ PlanLemmas.total s = 3 /\
  bs_first_bad s <> None.
Proof.
  evaluates (Plans.whole_disk_stream plan_superblock plan_stream) s E.
  destruct (whole_disk_accounts plan_superblock plan_stream s)
    as (disk & wire & Hd & _ & _ & _ & Ht & Hf).
  - vm_compute. reflexivity.
  - vm_compute. reflexivity.
  - exact E.
  - exists s. split; [reflexivity|]. split.
    + rewrite Ht. vm_compute in Hd. injection Hd as <- <-. vm_compute. reflexivity.
    + intros Hn. apply Hf in Hn. vm_compute in E. injection E as <-. vm_compute in Hn. discriminate.
Defined.

(** ** The layout record *)
Definition sample_snapshot : TreeSnapshot :=
  {| ts_fs_uuid := str "1f"; ts_label := str "root"; ts_default_subvolid := 257;
     ts_mount_options := str "rw,subvol=/@"; ts_excluded := [str "@/var"] |}.
Definition sample_subvolumes : list SubvolumeReport :=
  [{| sv_subvol_path := str "@"; sv_subvolid := 257 |}; {| sv_subvol_path := str "@home"; sv_subvolid := 258 |}].

Lemma layout_roundtrip_witness :
  Layouts.parse_stream_layout (LayoutText.stream_layout sample_snapshot sample_subvolumes) =
  Ok {| sl_fs_uuid := str "1f"; sl_label := str "root"; sl_default_subvolid := 257;
        sl_default_subvol_path := str "@"; sl_mount_options := str "rw,subvol=/@";
        sl_subvolumes := [(str "@", 257); (str "@home", 258)] |}.
Proof.
  apply (LayoutText.layout_roundtrip sample_snapshot sample_subvolumes).
  - discriminate.
  - bounds.
  - repeat (apply List.Forall_cons || apply List.Forall_nil); split;
      (apply (bool_decide_unpack _); vm_compute; exact I) || discriminate.
  - repeat (apply List.Forall_cons || apply List.Forall_nil); split_and!;
      try (split; [apply (bool_decide_unpack _); vm_compute; exact I|discriminate]);
      (apply (bool_decide_unpack _); vm_compute; exact I) || bounds.
Defined.

(** ** Verification *)
Definition silent_job (chain : bool) : VerifyJob :=
  {| vj_request := {| vq_image := Backup.name1; vq_encryption := Backup.passphrase; vq_chain := chain |};
     vj_context := Progress.silent |}.

Abbreviation block_run :=
  (VerifyImages.verify_members_in_set_inner Backup.set Backup.name1 Backup.files (silent_job true) (start_run, None)).

Lemma verified_block_chain_witness : exists opened walk rep,
  Members.open_chain Backup.set Backup.files Backup.passphrase = Ok opened /\ Walks.new opened = Ok walk /\
  rp_chunks rep = 6 /\
  forall n mms, Forall2 (manifest_of n (cw_chunk_size walk)) (cw_members walk) mms ->
  exists access ps, opens access (List.filter is_payload (merged_states n mms)) ps.
Proof.
  destruct block_run as [finish r] eqn:E.
  assert (match r with Ok rep => rp_chunks rep =? 6 | Err _ => false end = true) as Hr.
  { replace r with (snd block_run) by (by rewrite E). vm_compute. reflexivity. }
  destruct r as [rep|]; [|discriminate Hr].
  destruct (verified_block_chain Backup.set Backup.name1 Backup.files (silent_job true) (start_run, None)
    finish Backup.sb1 rep E) as (_ & opened & walk & Ho & Hw & Hall).
  - vm_compute. reflexivity.
  - reflexivity.
  - vm_compute. reflexivity.
  - exists opened, walk, rep. split; [exact Ho|]. split; [exact Hw|].
    split; [apply Z.eqb_eq; exact Hr|]. intros n mms Hm.
    destruct (Hall n mms Hm) as (access & ps & own & _ & _ & Hp & _). exists access, ps. exact Hp.
Defined.

(** A file image: one chunk, its hash index, and a tree with one file. *)
Definition file_superblock : Superblock :=
  let s := Backup.sb0 in
  {| format_major := format_major s; min_reader := min_reader s; flags := flags s; image_kind := File;
     consistency := consistency s; image_uuid := image_uuid s; chain_id := chain_id s;
     set_id := set_id s; parent_uuid := parent_uuid s; seq_in_chain := 0;
     created_unix := created_unix s; source_size_bytes := 40; logical_block_size := 512;
     chunk_size := 2 ^ 18; kdf_id := kdf_id s; aead_id := aead_id s; kdf_salt := kdf_salt s;
     argon2_m_cost_kib := argon2_m_cost_kib s; argon2_t_cost := argon2_t_cost s;
     argon2_p_cost := argon2_p_cost s; wrap_nonce := wrap_nonce s;
     wrapped_chain_key := wrapped_chain_key s |}.

Definition file_plain : list bytes := [zrep 40 Byte.x41].
Definition file_chunk : BlockEntry :=
  Backup.entry (Backup.entries_of file_superblock Backup.keys0 file_plain) 0.
Definition one_file : FileRecord :=
  {| fr_entry := entry_at FILE_KIND_REGULAR 40 0 "f" [be_hash file_chunk]; fr_holes := [] |}.
Definition file_streams : list (StreamId * bytes) :=
  [(SManifest, Backup.ok (put_all FileRecords.write_record [one_file] []) []);
   (SHashIndex, Entry.enc file_chunk)].
Definition file_set : list (bytes * bytes) :=
  [(Backup.name0, Backup.file_of (Backup.image file_superblock Backup.keys0 file_plain file_streams))].
Definition file_members : list ChainMemberFile := Backup.ok (Resolve.resolve_chain file_set Backup.name0) [].

Abbreviation file_run :=
  (VerifyImages.verify_members_in_set_inner file_set Backup.name0 file_members (silent_job false) (start_run, None)).

Lemma verified_files_restore_witness : exists opened index member b records,
  Members.open_chain file_set file_members Backup.passphrase = Ok opened /\
  VerifyImages.hash_index 0 opened [] = Ok index /\ opened !! 0%nat = Some member /\
  Members.stream_bytes member SManifest = Ok b /\ FileRecords.read_manifest b = Ok records /\
  Trees.file_tree (Trees.of_records records) = Ok tt.
Proof.
  destruct file_run as [finish r] eqn:E.
  assert (is_ok r = true) as Hr.
  { replace r with (snd file_run) by (by rewrite E). vm_compute. reflexivity. }
  destruct r as [rep|]; [|discriminate Hr].
  destruct (verified_files_restore file_set Backup.name0 file_members (silent_job false) (start_run, None)
    finish file_superblock rep E) as (opened & index & Ho & Hi & Hall).
  - vm_compute. reflexivity.
  - reflexivity.
  - destruct (Hall (Z.max 0 (zlen opened - 1))) as (member & b & records & Hm & Hb & Hrec & Ht & _).
    + left. reflexivity.
    + assert (Z.to_nat (Z.max 0 (zlen opened - 1)) = 0%nat) as Hz.
      { assert (match Members.open_chain file_set file_members Backup.passphrase with
                | Ok l => zlen l =? 1 | Err _ => false end = true) as Hl by (vm_compute; reflexivity).
        cbn [vj_request vq_encryption silent_job] in Ho. rewrite Ho in Hl. apply Z.eqb_eq in Hl.
        rewrite Hl. reflexivity. }
      rewrite Hz in Hm. exists opened, index, member, b, records.
      split; [exact Ho|]. split; [exact Hi|]. split; [exact Hm|]. split; [exact Hb|].
      split; [exact Hrec|exact Ht].
Defined.


(** ** Capture *)
Definition sample_scratch : Scratch :=
  {| sc_effective_uid := 1000;
     sc_component := fun above => Ok {| md_uid := 1000; md_mode := 0x1c0 |};
     sc_available := Ok (2 ^ 30); sc_create := fun _ => Ok tt; sc_write := fun _ _ => Ok tt;
     sc_reopen := fun _ => Ok tt |}.
Definition steady_source : Source (list (bytes * bytes)) :=
  {| so_preflight := Backup.set; so_opened := fun _ => Backup.set; so_read := fun _ => Backup.set |}.
Definition capture_options : CaptureOptions :=
  {| co_scratch_directory := str "/s"; co_max_raw_bytes := 2 ^ 30; co_headroom_bytes := 0 |}.

Lemma attempt_recordable_witness :
  Validation.validate_attempt (snd (Captures.verify_image_captured steady_source sample_scratch
    capture_options Backup.name1 (silent_job true) start_run)) = true.
Proof.
  apply (attempt_recordable steady_source sample_scratch capture_options Backup.name1 (silent_job true) start_run).
  intros _. split.
  - apply (bool_decide_unpack _). vm_compute. exact I.
  - vm_compute. repeat (apply List.Forall_cons || apply List.Forall_nil); intros i [= <-]; discriminate.
Defined.

(** ** The daemon's jobs: one is running, another has failed *)
Definition job_a : bytes := str "a".
Definition job_b : bytes := str "b".
Definition set_a : bytes := str "home".
Definition set_b : bytes := str "root".

Definition run_of {A} (m : step Registry A) (r : Registry) : Registry := fst (m r).

Definition both_admitted : Registry :=
  run_of (Jobs.admit_job job_b set_b 1000) (run_of (Jobs.admit_job job_a set_a 1000) Jobs.new).
Definition both_started : Registry :=
  run_of (Jobs.publish (EvStarted job_b)) (run_of (Jobs.publish (EvStarted job_a)) both_admitted).
Definition b_failed : Registry := run_of (Jobs.finish job_b (Err Prelude.Cancelled)) both_started.

Definition a_working : gmap bytes Stage := {[job_a := Working 0]}.
Definition running : System := {| sy_registry := b_failed; sy_workers := a_working |}.
Definition draining : System := {| sy_registry := run_of Jobs.begin_drain b_failed; sy_workers := a_working |}.
Definition drained : System :=
  {| sy_registry := run_of (Jobs.finish job_a (Ok [])) (sy_registry draining); sy_workers := ∅ |}.

Lemma rtc_eq {A} (R : A -> A -> Prop) (x y : A) : x = y -> rtc R x y.
Proof. intros ->. apply rtc_refl. Qed.

Lemma running_reachable : reachable running.
Proof.
  unfold reachable.
  eapply rtc_l; [eapply (StAdmit _ _ job_a set_a 1000); vm_compute; reflexivity|].
  eapply rtc_l; [eapply (StAdmit _ _ job_b set_b 1000); vm_compute; reflexivity|].
  eapply rtc_l; [eapply (StStarted _ _ job_a); vm_compute; reflexivity|].
  eapply rtc_l; [eapply (StStarted _ _ job_b); vm_compute; reflexivity|].
  eapply rtc_l; [eapply (StFinish _ _ job_b _ (Err Prelude.Cancelled)); vm_compute; reflexivity|].
  apply rtc_eq. vm_compute. reflexivity.
Qed.

Lemma draining_reachable : reachable draining.
Proof.
  eapply rtc_r; [exact running_reachable|]. apply (StDrain b_failed a_working).
Qed.

Lemma drained_reachable : rtc sys_step draining drained.
Proof.
  eapply rtc_l; [eapply (StFinish _ _ job_a _ (Ok [])); vm_compute; reflexivity|].
  apply rtc_eq. vm_compute. reflexivity.
Qed.

Lemma job_events_ordered_witness :
  episodes job_a (rg_events (sy_registry running)) = Some Open /\
  last_terminal job_b (rg_events (sy_registry running)) =
    Some (EvFailed job_b "E_CANCELLED" "cancelled").
Proof.
  destruct (JobsSpec.job_events_ordered running job_a running_reachable) as [(st & Hst & Ho) _].
  destruct (JobsSpec.job_events_ordered running job_b running_reachable) as [_ Hr].
  split.
  - rewrite Hst. f_equal. apply Ho. exists 0%nat. vm_compute. reflexivity.
  - match type of Hr with forall e, ?l = Some e -> _ =>
      let o := eval vm_compute in l in match o with Some ?e => destruct (Hr e) as (ev & H1 & H2) end end.
    + vm_compute. reflexivity.
    + reflexivity.
    + rewrite H2, <- H1. vm_compute. reflexivity.
Defined.

Lemma registry_exclusive_witness : exists e, active_in (sy_registry running) job_a e /\ en_cancel e = 0%nat.
Proof.
  apply (JobsSpec.registry_exclusive running running_reachable).
  exists (Working 0). split; [vm_compute; reflexivity|reflexivity].
Defined.

Lemma drain_concludes_witness :
  exists e, Jobs.admit_job job_b set_b 1000 (sy_registry drained) = (sy_registry drained, Err e).
Proof.
  apply (JobsSpec.drain_concludes draining drained draining_reachable);
    [reflexivity|exact drained_reachable].
Defined.

Lemma cancel_reaches_witness :
  Jobs.flag_raised 0 (fst (Jobs.request_cancel job_a (sy_registry running))) = true.
Proof.
  apply (JobsSpec.cancel_reaches running
    {| sy_registry := fst (Jobs.request_cancel job_a (sy_registry running)); sy_workers := sy_workers running |}
    job_a (Working 0) running_reachable); [vm_compute; reflexivity|apply rtc_refl].
Defined.
