(* ===== verification/BlockScenarios.v ===== *)
(** * Block scenarios

    A device of bytes, a small encrypted chain that is restored to it and
    exported, and the properties of the block components on them. *)

From stdpp Require Import gmap sorting.
From S2P Require Import Prelude Core Crypto Pages Wire Superblock Chunk Files Writer ImageReader Roundtrip Manifest Extras.
From S2P Require Import EngineKeys CatalogRecords Steps Destination Progress Chain ChainSpec Extents FsMaps Devices RestoreBlock Exports Examples.

#[local] Existing Instance Toy.toy.
#[local] Existing Instance Toy.toy_laws.
#[local] Existing Instance Memory.destination.
#[local] Existing Instance Memory.destination_laws.

(** ** A device of bytes *)
Module ByteDevice.
Definition write (off : Z) (b : bytes) : step bytes Z := fun d => (put_at off b d, Ok (zlen b)).

#[export] Instance device : BlockDevice bytes := {
  pread d off n := Ok (sub off n d);
  pwrite := write;
  fsync := step_ret tt;
}.

#[export] Instance device_laws : BlockDeviceLaws bytes.
Proof.
  refine (Build_BlockDeviceLaws bytes device (fun d => d) _ _ _).
  - intros d off n b Ho [= <-]. unfold sub, ztake, zlen. rewrite length_take. split; [lia|].
    destruct (Nat.le_ge_cases (Z.to_nat n) (length (zdrop off d))); [f_equal; lia|].
    rewrite !take_ge by lia. done.
  - intros d d' off b n _ _ [= <- <-]. split; [pose proof (zlen_nonneg b); lia|]. by rewrite ztake_all by lia.
  - done.
Defined.

Lemma takes : DeviceLemmas.takes_writes (D := bytes).
Proof.
  intros d off b _ _ Hb. exists (put_at off b d), (zlen b). split; [done|].
  destruct b; [done|]. rewrite zlen_cons. pose proof (zlen_nonneg b0). lia.
Qed.
End ByteDevice.
#[local] Existing Instance ByteDevice.device.
#[local] Existing Instance ByteDevice.device_laws.

(** ** A chain with a short last chunk *)
Module Small.
Import Backup.

Definition sized (s : Superblock) : Superblock :=
  {| format_major := format_major s; min_reader := min_reader s; flags := flags s; image_kind := image_kind s;
     consistency := consistency s; image_uuid := image_uuid s; chain_id := chain_id s; set_id := set_id s;
     parent_uuid := parent_uuid s; seq_in_chain := seq_in_chain s; created_unix := created_unix s;
     source_size_bytes := 2 * 2 ^ 18 + 40; logical_block_size := logical_block_size s; chunk_size := chunk_size s;
     kdf_id := kdf_id s; aead_id := aead_id s; kdf_salt := kdf_salt s;
     argon2_m_cost_kib := argon2_m_cost_kib s; argon2_t_cost := argon2_t_cost s;
     argon2_p_cost := argon2_p_cost s; wrap_nonce := wrap_nonce s; wrapped_chain_key := wrapped_chain_key s |}.

Definition sb0 : Superblock := sized Backup.sb0.
Definition sb1 : Superblock := sized Backup.sb1.
Definition plain0 : list bytes := [zrep 40 Byte.x41].
Definition plain1 : list bytes := [zrep 40 Byte.x42].

Definition manifest0 : MemberManifest :=
  MFull [Entry.unused; Entry.zero; entry (entries_of sb0 keys0 plain0) 0].
Definition manifest1 : MemberManifest :=
  MDelta [{| de_chunk_no := 2; de_entry := entry (entries_of sb1 keys1 plain1) 0 |}].

Abbreviation image0 := (image sb0 keys0 plain0 [(SManifest, stream_of manifest0)]).
Abbreviation image1 := (image sb1 keys1 plain1 [(SManifest, stream_of manifest1)]).

Definition set : list (bytes * bytes) := [(name1, file_of image1); (name0, file_of image0)].
Definition images : list bytes := [name0; name1].
Definition files : list ChainMemberFile := ok (collectM (Exports.file_of set) images) [].
Definition members : list OpenMember := ok (Members.open_chain set files passphrase) [].
Definition walk : ChainWalk := ok (Walks.new members) no_walk.

Lemma files_ok : collectM (Exports.file_of set) images = Ok files.
Proof. apply ok_is_Ok. vm_compute. reflexivity. Qed.

Lemma members_ok : Members.open_chain set files passphrase = Ok members.
Proof. apply ok_is_Ok. vm_compute. reflexivity. Qed.

Lemma small_walk_ok : Walks.new members = Ok walk.
Proof. apply ok_is_Ok. vm_compute. reflexivity. Qed.

Lemma walk_same : cw_members walk = members.
Proof. vm_compute. reflexivity. Qed.

Lemma member_facts :
  map (fun m => (om_kind m, om_superblock m, om_keys m)) members =
    [(Full, sb0, nk_keys keys0); (Incremental, sb1, nk_keys keys1)] /\
  map (fun m => Ok (om_reader m)) members = [Img.open (file_of image0); Img.open (file_of image1)].
Proof. split; vm_compute; reflexivity. Qed.

Lemma uniform_members : ExportSpec.uniform members.
Proof.
  destruct member_facts as [Hm _]. apply map_two in Hm as (m0 & m1 & -> & Hm0 & Hm1).
  apply pair_equal_spec in Hm0 as [[_ Hs0]%pair_equal_spec _].
  apply pair_equal_spec in Hm1 as [[_ Hs1]%pair_equal_spec _].
  intros m m' [<-|[<-|[]]] [<-|[<-|[]]]; rewrite ?Hs0, ?Hs1; vm_compute; repeat split; reflexivity.
Qed.

Lemma small_input0 : image_input_ok Sample.file sb0 plain0 [(SManifest, stream_of manifest0)].
Proof.
  split; [done|done| | | |cbn; intuition discriminate|vm_compute; discriminate].
  - split; unfold u32_ok, u64_ok, id_ok; vm_compute; (done || (split; [discriminate|done])).
  - repeat constructor; vm_compute; discriminate.
  - cbn. apply NoDup_singleton.
Qed.

Lemma small_input1 : image_input_ok Sample.file sb1 plain1 [(SManifest, stream_of manifest1)].
Proof.
  split; [done|done| | | |cbn; intuition discriminate|vm_compute; discriminate].
  - split; unfold u32_ok, u64_ok, id_ok; vm_compute; (done || (split; [discriminate|done])).
  - repeat constructor; vm_compute; discriminate.
  - cbn. apply NoDup_singleton.
Qed.

Lemma small_manifests_ok : manifest_ok 3 manifest0 /\ manifest_ok 3 manifest1.
Proof.
  split.
  - split; [|done]. unfold manifest0.
    repeat constructor; vm_compute; (done || (split; [discriminate|done]) || discriminate).
  - split_and!; repeat constructor; vm_compute; (done || (split; [discriminate|done]) || discriminate).
Qed.

Lemma small_headers_ok : BlockHeader.ok (header manifest0) /\ BlockHeader.ok (header manifest1).
Proof. split; split; bounds. Qed.

Lemma member_manifests : Forall2 (manifest_of 3 (cw_chunk_size walk)) members [manifest0; manifest1].
Proof.
  assert (cw_chunk_size walk = 2 ^ 18) as -> by (vm_compute; reflexivity).
  destruct member_facts as [Hm Hr]. apply map_two in Hm as (m0 & m1 & Hl & Hm0 & Hm1).
  rewrite Hl in *. apply map_two in Hr as (x0 & x1 & Hl' & Hr0 & Hr1). injection Hl' as <- <-.
  apply pair_equal_spec in Hm0 as [[Hk0 Hs0]%pair_equal_spec Hy0].
  apply pair_equal_spec in Hm1 as [[Hk1 Hs1]%pair_equal_spec Hy1].
  destruct small_manifests_ok, small_headers_ok. constructor; [|constructor; [|constructor]].
  - apply (written_manifest_of m0 sb0 keys0 plain0);
      [exact small_input0|vm_compute; reflexivity|vm_compute; reflexivity|exact Hs0|exact Hy0|symmetry; exact Hr0|assumption|assumption|].
    rewrite Hk0. reflexivity.
  - apply (written_manifest_of m1 sb1 keys1 plain1);
      [exact small_input1|vm_compute; reflexivity|vm_compute; reflexivity|exact Hs1|exact Hy1|symmetry; exact Hr1|assumption|assumption|].
    rewrite Hk1. reflexivity.
Qed.
End Small.

(** ** Restoring it *)
Module Restored.
Import Small.

Definition target : DirectBlockTarget bytes :=
  {| bt_handle := zrep (2 * 2 ^ 18 + 64) Byte.x00; bt_direct := true; bt_size_bytes := 2 * 2 ^ 18 + 64;
     bt_logical_block_size := 512; bt_alignment := 4096 |}.
Definition reporter : Reporter :=
  {| pr_context := Progress.silent; pr_total := 2 * 2 ^ 18 + 40; pr_last_report := 0; pr_step := 1 |}.

Abbreviation restore := (RestoreBlock.write_block_chain members sb1 Backup.name1 [] (start_run, reporter, target)).

(** The bytes of the last chunk on the target, and the report. *)
Definition tail_of (r : Progress.tracked (DirectBlockTarget bytes) * result RestoreReport) : option (bytes * list Z) :=
  let '((_, _, t), report) := r in
  match report with
  | Ok report => Some (zdrop (2 * 2 ^ 18) (bt_handle t),
      [rr_stored_chunks_written report; rr_zero_chunks_written report; rr_skipped_chunks report])
  | Err _ => None
  end.

Lemma restores : tail_of restore = Some (zrep 40 Byte.x42 ++ zrep 24 Byte.x00, [1; 1; 1]).
Proof. vm_compute. reflexivity. Qed.

Lemma restores_Ok : exists run p t report, restore = ((run, p, t), Ok report).
Proof.
  assert (is_ok (snd restore) = true) as Hr by (vm_compute; reflexivity).
  destruct restore as [[[run p] t] [report|e]]; [|discriminate Hr]. by eexists _, _, _, _.
Qed.

Lemma target_fits : RestoreSpec.target_ok target.
Proof. split; vm_compute; reflexivity. Qed.

Lemma manifests : Forall2 (manifest_of 3 (cw_chunk_size walk)) (cw_members walk) [manifest0; manifest1].
Proof. rewrite walk_same. exact member_manifests. Qed.
End Restored.
Import Small Restored.

Lemma block_restore_exact_witness : exists t report access,
  snd (fst restore) = t /\ snd restore = Ok report /\
  ca_readers access = map om_chunks (cw_members walk) /\
  rr_stored_chunks_written report =
    RestoreSpec.counted RestoreSpec.is_stored (merged_states 3 [manifest0; manifest1]).
Proof.
  destruct restores_Ok as (run' & p' & t' & report & E).
  destruct (block_restore_exact members walk 3 [manifest0; manifest1] sb1 Backup.name1 [] start_run run'
    reporter p' target t' report) as (access & Ha & _ & _ & _ & _ & _ & Hs & _).
  - exact small_walk_ok.
  - exact manifests.
  - vm_compute. split; [discriminate|reflexivity].
  - vm_compute. split; reflexivity.
  - exact target_fits.
  - exact E.
  - rewrite E. exists t', report, access. split; [reflexivity|]. split; [reflexivity|]. split; [exact Ha|exact Hs].
Defined.

Lemma block_restore_completes_witness : exists access,
  ca_readers access = map om_chunks (cw_members walk) /\
  match snd restore with
  | Ok _ => True
  | Err e => exists i s, merged_states 3 [manifest0; manifest1] !! i = Some s /\
      RestoreSpec.unreadable access (Z.of_nat i * chunk_size sb1)
        (Z.min (chunk_size sb1) (source_size_bytes sb1 - Z.of_nat i * chunk_size sb1)) s e
  end.
Proof.
  apply (block_restore_completes members walk 3 [manifest0; manifest1] sb1 Backup.name1 [] start_run reporter target).
  - exact small_walk_ok.
  - exact manifests.
  - vm_compute. split; [discriminate|reflexivity].
  - vm_compute. split; reflexivity.
  - exact target_fits.
  - vm_compute. reflexivity.
  - vm_compute. reflexivity.
  - vm_compute. discriminate.
  - reflexivity.
  - exact ByteDevice.takes.
  - intros d. exists d. reflexivity.
Defined.

(** ** Exporting it *)
Definition no_backend : ImageBackend :=
  {| ib_size := 0; ib_chunk_size := 0; ib_chunk_count := 0; ib_slots := ∅; ib_members := []; ib_fs_type := [];
     ib_fs_uuid := []; ib_label := [] |}.
Definition backend : ImageBackend := Backup.ok (Exports.open set images Backup.passphrase) no_backend.
Definition requests : list (Z * Z) := [(2 * 2 ^ 18 - 8, 16); (0, 4); (2 * 2 ^ 18 + 30, 10)].

Lemma backend_ok : Exports.open set images Backup.passphrase = Ok backend.
Proof. apply Backup.ok_is_Ok. vm_compute. reflexivity. Qed.

Lemma zeros_sub off n k : 0 <= off -> off + n <= k -> sub off n (zrep k Byte.x00) = zrep n Byte.x00.
Proof. intros. unfold sub, ztake, zdrop, zrep. rewrite drop_replicate, take_replicate. f_equal. lia. Qed.

Lemma unused_zero i : merged_states 3 [manifest0; manifest1] !! i = Some Unused ->
  sub (ExportSpec.chunk_offset backend (Z.of_nat i)) (ExportSpec.chunk_len backend (Z.of_nat i))
    (contents (bt_handle target)) = zrep (ExportSpec.chunk_len backend (Z.of_nat i)) Byte.x00.
Proof.
  destruct i as [|[|[|i]]]; intros Hi; try (vm_compute in Hi; discriminate Hi).
  change (contents (bt_handle target)) with (zrep (2 * 2 ^ 18 + 64) Byte.x00). apply zeros_sub; vm_compute; discriminate.
Qed.

Lemma export_serves_restore_witness : exists t,
  ib_size backend = 2 * 2 ^ 18 + 40 /\ bt_handle (snd (fst restore)) = t /\
  exists cache, ExportSpec.serve backend requests None =
    (cache, Ok (map (fun '(o, l) => sub o l t) requests)).
Proof.
  destruct restores_Ok as (run' & p' & t' & report & E).
  destruct member_facts as [Hm _]. apply Backup.map_two in Hm as (m0 & m1 & Hms & _ & Hm1).
  apply pair_equal_spec in Hm1 as [[_ Hs1]%pair_equal_spec _].
  destruct (ExportSpec.export_serves_restore set images files Backup.passphrase members walk 3 [manifest0; manifest1]
    backend m1 Backup.name1 [] start_run run' reporter p' target t' report requests)
    as [Hs Hserve]; rewrite ?Hs1.
  - exact files_ok.
  - exact members_ok.
  - vm_compute. discriminate.
  - exact uniform_members.
  - exact small_walk_ok.
  - exact walk_same.
  - exact member_manifests.
  - exact backend_ok.
  - rewrite Hms. right. left. reflexivity.
  - vm_compute. split; [discriminate|reflexivity].
  - vm_compute. split; reflexivity.
  - exact target_fits.
  - exact unused_zero.
  - exact E.
  - repeat (apply List.Forall_cons || apply List.Forall_nil); vm_compute; split; (split || idtac); discriminate.
  - rewrite E. exists (bt_handle t'). rewrite Hs, Hs1. split; [reflexivity|]. split; [reflexivity|exact Hserve].
Defined.

(** ** Used blocks and read plans *)
Lemma normalize_exact_witness : Ranges.normalize [(5, 9); (0, 2); (3, 4)] = Ok [(0, 9)] /\
  Forall RangeSpec.valid [(5, 9); (0, 2); (3, 4)].
Proof.
  pose proof (normalize_exact [(5, 9); (0, 2); (3, 4)]) as Hn.
  destruct (Ranges.normalize _) as [m|e] eqn:E; [|vm_compute in E; discriminate E].
  vm_compute in E. injection E as <-. split; [reflexivity|].
  apply Hn. repeat (apply List.Forall_cons || apply List.Forall_nil); bounds.
Defined.

Definition sample_map : ExtentMap := {| em_extents := [(0, 20479); (40960, 45055)]; em_complete := true |}.

Lemma read_plan_exact_witness : exists u chunks,
  Used.new sample_map 16384 50000 = Ok u /\ Used.drain (S (length chunks)) u = Some chunks /\
  StronglySorted Z.lt (map cp_index chunks) /\ Used.planned_bytes u = RangeSpec.total_len chunks.
Proof.
  destruct (Used.new sample_map 16384 50000) as [u|e] eqn:E; [|vm_compute in E; discriminate E].
  destruct (read_plan_exact sample_map 16384 50000 u) as (chunks & Hd & _ & Hs & _ & _ & Hp).
  - repeat (apply List.Forall_cons || apply List.Forall_nil); bounds.
  - lia.
  - unfold U32_MAX. lia.
  - lia.
  - exact E.
  - exists u, chunks. split; [reflexivity|]. split; [exact Hd|]. split; [exact Hs|exact Hp].
Defined.

Lemma ext4_map_exact_witness : exists d m,
  Ext4.parse_dumpe2fs sample_dump = Ok d /\ Ext4.used_map d = Ok m /\ em_complete m = true.
Proof.
  destruct (Ext4.parse_dumpe2fs sample_dump) as [d|e] eqn:E; [|vm_compute in E; discriminate E].
  destruct (Ext4.used_map d) as [m|e] eqn:Em; [|vm_compute in E; injection E as <-; vm_compute in Em; discriminate Em].
  exists d, m. split; [reflexivity|]. split; [exact Em|].
  apply (ext4_map_exact sample_dump d m E Em). vm_compute in E. injection E as <-. vm_compute. discriminate.
Defined.
