(* ===== verification/BackupScenarios.v ===== *)
(** * Backup scenarios

    A full backup of a small device, and a pass over a changed device against a
    chain of two members: the properties of the backup components on them. *)

From S2P Require Import Prelude Core Crypto Pages Wire Superblock Chunk Files Writer ImageReader Roundtrip Manifest Extras.
From S2P Require Import EngineKeys CatalogRecords Steps Destination Progress Chain ChainSpec EngineCatalog Examples.
From S2P Require Import Extents Devices BackupPlan BlockBackup BackupSafety BackupSpec BackupImage BlockScenarios.
Import PassSpec.

#[local] Existing Instance Toy.toy.
#[local] Existing Instance Toy.toy_laws.
#[local] Existing Instance Memory.destination.
#[local] Existing Instance Memory.destination_laws.
#[local] Existing Instance ByteDevice.device.
#[local] Existing Instance ByteDevice.device_laws.
#[local] Existing Instance no_json.

(** ** Publishing in memory *)
Module MemoryPublisher.
Definition publish (tmp name : bytes) : step Memory.mem Durability := fun m =>
  match Memory.find_file m name with
  | Some _ => (m, Err (Io OtherIo))
  | None => let '(m, r) := Memory.rename m tmp name in (m, let* _ := r in Ok Synced)
  end.

#[export] Instance publisher : Publisher Memory.mem := publish.

#[export] Instance publisher_laws : PublisherLaws Memory.mem.
Proof.
  split; unfold publish_new, publisher, publish; intros tmp name.
  - intros d m b Hb Ht Hn. destruct (Memory.find_file d name); [done|].
    pose proof (replace_frame d tmp name m b Hb Ht Hn) as Hr. cbn in Hr. by destruct (Memory.rename d tmp name).
  - intros d b Hb Hne. cbn in Hb. by rewrite Hb.
  - intros d b durability Hb Hd. destruct (Memory.find_file d name) eqn:E; [done|]. split; [exact E|].
    pose proof (replace_contents d tmp name b tt Hb) as Hr. cbn in Hr.
    destruct (Memory.rename d tmp name) as [m [[]|e]]; [|done]. by apply Hr.
Defined.
End MemoryPublisher.
#[local] Existing Instance MemoryPublisher.publisher.
#[local] Existing Instance MemoryPublisher.publisher_laws.

(** ** A device and a request *)
Module Job.
Definition size : Z := 2 * 2 ^ 18 + 40.

(** Zeros, a gap in the used-block map, and a short chunk of data. *)
Definition device : bytes := zrep (2 * 2 ^ 18) Byte.x00 ++ zrep 40 Byte.x43.
Definition map : ExtentMap := {| em_extents := [(0, 4095); (2 * 2 ^ 18, size - 1)]; em_complete := true |}.

Definition source : DirectBlockSource bytes :=
  {| bs_handle := device; bs_direct := true; bs_size_bytes := size; bs_logical_block_size := 512; bs_alignment := 4096 |}.

Definition snapshotted : Snapshotted bytes :=
  {| sn_consistency := PointInTime; sn_health := fun _ => Ok tt; sn_final_health := Ok tt; sn_source := source;
     sn_map := map; sn_fs_type := Text.str "ext4"; sn_fs_uuid := []; sn_label := [] |}.

Definition request (t : MemberType) (uuid : Id) : BackupRequest :=
  {| rq_source := Text.str "/dev/sda1"; rq_dest_root := Text.str "/srv"; rq_dest := []; rq_set_name := Text.str "root";
     rq_set_id := Sample.id Byte.x03; rq_chain_id := Backup.chain; rq_image_uuid := uuid; rq_chunk_size := 2 ^ 18;
     rq_compression := CompressZstd 3; rq_encryption := Backup.passphrase; rq_aead := Aes256Gcm;
     rq_on_bad_sector := AbortBad; rq_member_type := t; rq_parent := None; rq_break_stale_lock := false;
     rq_max_incrementals_per_chain := None; rq_set_lock_ttl_secs := None; rq_context := Progress.silent |}.

Definition full : BackupRequest := request TypeFull (Backup.uuid 0).

Abbreviation run := (Backups.backup_block_with full snapshotted (Backup.rnd 0) [] (2 ^ 30) ([], start_run)).

Lemma request_ok t uuid : id_ok uuid -> BackupImage.backup_ok (request t uuid) snapshotted (Backup.rnd 0).
Proof.
  intros Hu. split.
  - exact Hu.
  - reflexivity.
  - reflexivity.
  - split; vm_compute; reflexivity.
  - bounds.
  - repeat (apply List.Forall_cons || apply List.Forall_nil); (split; [split; vm_compute; discriminate|vm_compute; reflexivity]).
  - vm_compute. reflexivity.
  - bounds.
  - split_and!; vm_compute; reflexivity.
Qed.

Lemma run_Ok : exists d run' report, run = ((d, run'), Ok report).
Proof.
  assert (is_ok (snd run) = true) as Hr by (vm_compute; reflexivity).
  destruct run as [[d run'] [report|e]]; [|discriminate Hr]. by eexists _, _, _.
Qed.
End Job.

Lemma full_backup_reads_back_witness : exists d' run' report b,
  Job.run = ((d', run'), Ok report) /\
  Memory.find_file d' (Backups.image_name (BackupImage.full_plan Job.full) (Backup.uuid 0)) = Some b /\
  br_image_bytes report = zlen b.
Proof.
  destruct Job.run_Ok as (d' & run' & report & E).
  destruct (full_backup_reads_back Job.full Job.snapshotted (Backup.rnd 0) [] (2 ^ 30) [] d' start_run run' report)
    as (_ & b & Hb & Hl & _).
  - exact (Job.request_ok TypeFull (Backup.uuid 0) eq_refl).
  - reflexivity.
  - intros d. vm_compute. split; [discriminate|reflexivity].
  - vm_compute. discriminate.
  - vm_compute. discriminate.
  - exact E.
  - exists d', run', report, b. split; [exact E|]. split; [exact Hb|exact Hl].
Defined.

(** An image of another job lies on the destination already. *)
Module Beside.
Definition older : bytes := Text.str "older.lrimg".
Definition bytes_of_older : bytes := zrep 5 Byte.x41.
Abbreviation run := (Backups.backup_block_with Job.full Job.snapshotted (Backup.rnd 0) [] (2 ^ 30)
  ([(older, bytes_of_older)], start_run)).
End Beside.

Lemma backup_keeps_images_witness : exists d' run' report,
  Beside.run = ((d', run'), Ok report) /\ Memory.find_file d' Beside.older = Some Beside.bytes_of_older.
Proof.
  assert (is_ok (snd Beside.run) = true) as Hr by (vm_compute; reflexivity).
  pose proof (backup_keeps_images Job.full Job.snapshotted (Backup.rnd 0) [] (2 ^ 30)
    [(Beside.older, Beside.bytes_of_older)] start_run) as Hplan.
  destruct Beside.run as [[d' run'] [report|e]]; [|discriminate Hr].
  cbv zeta in Hplan. cbn [fst snd] in Hplan. destruct Hplan as [plan Hplan]. exists d', run', report.
  split; [reflexivity|].
  destruct (Hplan Beside.older eq_refl) as [_ Hkept]. exact (Hkept Beside.bytes_of_older eq_refl).
Defined.

(** ** A pass against a chain *)
Module Pass.
Import Small.

Definition member : MemberRecord :=
  {| mr_image_uuid := Backup.uuid 1; mr_parent_uuid := Backup.uuid 0; mr_kind := Incremental; mr_seq_in_chain := 1;
     mr_image_kind := Block; mr_consistency := PointInTime; mr_created_unix := 2000; mr_source_label := [];
     mr_size_bytes := 0; mr_file_name := Backup.name1; mr_verified_unix := None |}.

Definition parent : ParentChain :=
  {| pc_member := member; pc_chain_id := Backup.chain; pc_set_id := Sample.id Byte.x03;
     pc_prefix := [(0, Backup.uuid 0); (1, Backup.uuid 1)]; pc_files := files; pc_superblock := sb1 |}.

Definition rq : BackupRequest := Job.request TypeIncremental (Backup.uuid 2).
Definition plan : ResolvedBackupPlan :=
  {| bp_parent := Some parent; bp_member_type := TypeIncremental; bp_encoding := BlockDelta; bp_set_id := Sample.id Byte.x03;
     bp_chain_id := Backup.chain; bp_seq_in_chain := 2; bp_parent_uuid := Backup.uuid 1 |}.

Definition nk : NewChainKeys :=
  Backup.ok (EKeys.member_chain_keys (Backup.rnd 2) Backup.passphrase sb1 Backup.chain (Backup.uuid 2)) Backup.no_keys.
Definition superblock : Superblock := Backups.superblock rq plan Job.snapshotted nk 3000.
Abbreviation created := (Writer.create (File.new (2 ^ 30)) superblock (Backups.mac_key nk)).

Definition no_plan : UsedChunks :=
  {| uc_chunk_size := 0; uc_device_size := 0; uc_chunk_count := 0; uc_regions := []; uc_region := 0; uc_next_offset := 0 |}.
Definition used : UsedChunks := Backup.ok (Used.new Job.map (2 ^ 18) Job.size) no_plan.

Lemma pass_superblock_ok : Sb.sb_ok superblock.
Proof. split; unfold u32_ok, u64_ok, id_ok; vm_compute; (done || (split; [discriminate|done])). Qed.

Lemma pass_parents : parent_states set rq plan 3 (merged_states 3 [manifest0; manifest1]).
Proof.
  exists members, walk, [manifest0; manifest1]. split; [exact members_ok|]. split; [exact small_walk_ok|].
  split; [rewrite walk_same; exact member_manifests|reflexivity].
Qed.
End Pass.

Lemma pass_describes_source_witness : exists w0 st' mm stored refs,
  Backups.scan Small.set Pass.rq Pass.plan (Backups.job Pass.rq Pass.plan Job.snapshotted Pass.nk) 3
    (start_run, Restored.reporter, Backups.new_pass w0 Pass.used) = (st', Ok tt) /\
  is_delta mm = true /\ appended (Backups.job Pass.rq Pass.plan Job.snapshotted Pass.nk) w0 stored refs (snd st') /\
  ct_changed (pa_counts (snd st')) = manifest_count mm.
Proof.
  evaluates (Writer.create (File.new (2 ^ 30)) Pass.superblock (Backups.mac_key Pass.nk)) w0 Ew.
  assert (is_ok (snd (match Writer.create (File.new (2 ^ 30)) Pass.superblock (Backups.mac_key Pass.nk) with
    | Ok w => Backups.scan Small.set Pass.rq Pass.plan (Backups.job Pass.rq Pass.plan Job.snapshotted Pass.nk) 3
        (start_run, Restored.reporter, Backups.new_pass w Pass.used)
    | Err e => ((start_run, Restored.reporter, Backups.new_pass w0 Pass.used), Err e)
    end)) = true) as Hs by (vm_compute; reflexivity).
  rewrite Ew in Hs. cbv iota in Hs.
  destruct (Backups.scan _ _ _ _ _ _) as [st' [[]|e]] eqn:E; [|discriminate Hs]. exists w0, st'.
  destruct (pass_describes_source Small.set Pass.rq Pass.plan Job.snapshotted Pass.nk 3000 (Backups.mac_key Pass.nk) (2 ^ 30) w0
    Pass.used 3 (merged_states 3 [Small.manifest0; Small.manifest1]) start_run Restored.reporter st' tt)
    as (mm & stored & refs & _ & _ & Hd & Ha & _ & Hc & _).
  - exact Pass.pass_superblock_ok.
  - vm_compute. discriminate.
  - exact Ew.
  - vm_compute. split; [reflexivity|discriminate].
  - exact (BackupImage.bk_map _ _ _ (Job.request_ok TypeIncremental (Backup.uuid 2) eq_refl)).
  - split; vm_compute; reflexivity.
  - vm_compute. reflexivity.
  - vm_compute. reflexivity.
  - vm_compute. reflexivity.
  - vm_compute. discriminate.
  - exact (BackupImage.header_fits Pass.rq Job.snapshotted (Backup.rnd 0) 3 0 (Job.request_ok TypeIncremental (Backup.uuid 2) eq_refl) ltac:(vm_compute; split; discriminate) ltac:(vm_compute; reflexivity) ltac:(bounds)).
  - exact Pass.pass_parents.
  - exact E.
  - exists mm, stored, refs. split; [exact E|]. split; [exact Hd|]. split; [exact Ha|]. apply Hc. exact Hd.
Defined.
