(* ===== verification/RestoreScenarios.v ===== *)
(** * Restore scenarios

    A chain of two members is prepared and applied to an image file; tokens are
    redeemed side by side; a disk is checked: the properties of the restore
    components on them. *)

From stdpp Require Import relations.
From S2P Require Import Prelude Text Core Crypto Pages Wire Superblock Chunk Files Writer ImageReader Roundtrip Manifest Extras.
From S2P Require Import EngineKeys CatalogRecords Steps Destination Progress Chain ChainSpec Plan EngineCatalog Verifier VerifyImage Examples.
From S2P Require Import Extents Devices RestoreBlock BlockScenarios Sysfs Discovery Uri Tokens Targets ApplyRestore PrepareApply.

#[local] Existing Instance Toy.toy.
#[local] Existing Instance Toy.toy_laws.
#[local] Existing Instance Memory.destination.
#[local] Existing Instance Memory.destination_laws.
#[local] Existing Instance ByteDevice.device.
#[local] Existing Instance ByteDevice.device_laws.

(** ** Hexadecimal and tokens as text *)
Module HexText.
#[export] Instance codec : HexCodec := {
  hex_encode := Ids.hex_bytes;
  hex_decode b := match Ids.parse_pairs b with Ok l => Some l | Err _ => None end;
}.

Lemma digits_hex l : forallb is_ascii_hexdigit (Ids.hex_bytes l) = true.
Proof.
  unfold Ids.hex_bytes. induction l as [|b l IH]; [done|]. cbn [map concat]. rewrite forallb_app, IH, andb_true_r.
  destruct b; vm_compute; reflexivity.
Qed.

#[export] Instance laws : HexLaws.
Proof.
  split.
  - intros b. unfold hex_decode, hex_encode, codec. by rewrite Ids.parse_pairs_hex.
  - exact digits_hex.
  - intros [|b l] Hb; done.
Defined.
End HexText.
#[local] Existing Instance HexText.codec.
#[local] Existing Instance HexText.laws.

(** The tokens of a list can be written, whatever their MAC. *)
Module TokenStore.
Section store.
Context (known : list RestoreToken).

Definition position (t : RestoreToken) : option nat :=
  fst <$> list_find (fun b => b = Tokens.set_mac t []) known.

Definition to_json (t : RestoreToken) : option bytes :=
  match position t with
  | Some i => if decide (i < 256)%nat then Some ([Byte.x7b] ++ (z2b (Z.of_nat i) :: rt_mac t) ++ [Byte.x7d]) else None
  | None => None
  end.

Definition from_json (j : bytes) : option RestoreToken :=
  match j with
  | _ :: i :: rest =>
    match known !! Z.to_nat (b2z i) with
    | Some b => Some (Tokens.set_mac b (take (length rest - 1) rest))
    | None => None
    end
  | _ => None
  end.

Definition json : TokenJson := {| token_to_json := to_json; token_from_json := from_json |}.

Lemma json_laws : @TokenJsonLaws json.
Proof.
  split; cbn [token_to_json token_from_json json]; [| |done].
  - intros t j. unfold to_json, position. destruct (list_find _ known) as [[i b]|] eqn:E; [|done]. cbn [fmap option_fmap option_map fst].
    destruct (decide _) as [Hi|]; [|done]. intros [= <-]. apply list_find_Some in E as (Hb & Heq & _). cbn [app from_json].
    rewrite b2z_z2b, Z.mod_small, Nat2Z.id, Hb by lia. subst b. f_equal. rewrite length_app. cbn [length].
    replace (length (rt_mac t) + 1 - 1)%nat with (length (rt_mac t)) by lia. rewrite take_app_length. by destruct t.
  - intros t j. unfold to_json. destruct (position t) as [i|]; [|done]. destruct (decide _); [|done]. intros [= <-]. by exists (z2b (Z.of_nat i) :: rt_mac t).
Qed.
End store.
End TokenStore.

(** ** A machine with an image file and a disk *)
Module Machine.
Definition file : bytes := Text.str "/t.img".
Definition disk : bytes := Text.str "/dev/sdb".
Definition size : Z := 2 * 2 ^ 18 + 40.

(** The attributes below [/sys]. *)
Definition attributes : list (bytes * bytes) :=
  [(Text.str "/sys/class/block/sdb/size", Text.str "2048"); (Text.str "/sys/class/block/sdb/dev", Text.str "8:16");
   (Text.str "/sys/class/block/sdb1/size", Text.str "1024"); (Text.str "/sys/class/block/sdb1/dev", Text.str "8:17");
   (Text.str "/sys/class/block/sdb1/partition", Text.str "1"); (Text.str "/sys/class/block/sdb1/start", Text.str "8")].
Definition directories : list (bytes * list bytes) :=
  [(Text.str "/sys/class/block", [Text.str "sdb1"; Text.str "sdb"]);
   (Text.str "/sys/class/block/sdb", []); (Text.str "/sys/class/block/sdb1", [])].

Definition find {A} (l : list (bytes * A)) (p : bytes) : result A :=
  match List.find (fun e => bool_decide (fst e = p)) l with Some e => Ok (snd e) | None => Err (Io NotFound) end.

Definition is_dir (p : bytes) : bool := is_ok (find directories p).

Definition host : Host :=
  {| ho_sysfs_root := Text.str "/sys";
     ho_read_to_string := find attributes;
     ho_read_dir := find directories;
     ho_metadata p :=
       if bool_decide (p = file) then Ok {| md_is_dir := false; md_is_file := true; md_len := size; md_rdev := 0; md_readonly := false |}
       else if bool_decide (p = disk) then Ok {| md_is_dir := false; md_is_file := false; md_len := 0; md_rdev := 0x810; md_readonly := false |}
       else if is_dir p then Ok {| md_is_dir := true; md_is_file := false; md_len := 0; md_rdev := 0; md_readonly := false |}
       else if is_ok (find attributes p) then Ok {| md_is_dir := false; md_is_file := true; md_len := 0; md_rdev := 0; md_readonly := false |}
       else Err (Io NotFound);
     ho_canonicalize p :=
       if bool_decide (p = Text.str "/sys/class/block/sdb1") then Ok (Text.str "/sys/devices/block/sdb/sdb1") else Ok p;
     ho_mountinfo := Ok (Text.str "20 1 8:1 / / rw,relatime shared:1 - ext4 /dev/sda1 rw") |}.

(** What a read of the image file returns at once: its first bytes. *)
Definition first_bytes : bytes := zrep 64 Byte.x00.

Definition probes : Probes :=
  {| pr_host := host;
     pr_open p := if bool_decide (p = file) then Some first_bytes else None;
     pr_size _ := Ok (2048 * 512); pr_logical_sector _ := Ok 512; pr_physical_sector _ := Ok 4096;
     pr_gpt _ _ := None; pr_mbr _ _ := None; pr_blkid _ _ := Some []; pr_btrfs _ := inr CannotRun |}.

Definition target : TargetHost :=
  {| th_probes := probes; th_swaps := Ok (Text.str "Filename Type Size Used Priority"); th_pvs := None;
     th_exclusive _ := Some None |}.
End Machine.


(** ** A plan for the chain, and its application *)
Module Restoring.
Definition secret : bytes := zrep 32 Byte.x53.
Definition random : bytes := zrep 16 Byte.x5a.

Definition request : PrepareRequest :=
  {| pq_image := Text.str "/srv/root/" ++ Backup.name1; pq_target := Machine.file; pq_encryption := Backup.passphrase;
     pq_ttl := DEFAULT_TTL; pq_identity := None; pq_known_hosts := None; pq_insecure_ignore_host_key := false;
     pq_merge := false; pq_strict_metadata := false; pq_replace_partition_table := false |}.

Definition env : PrepareEnv Memory.mem :=
  {| pe_open _ := Ok Small.set; pe_secret := secret; pe_random := random; pe_now := 1000; pe_target := Machine.target;
     pe_inode _ := (0, 0); pe_free_bytes _ := Ok 0 |}.

Definition no_facts : TargetFacts := {| tf_dev_id := 0; tf_wwid_or_serial := None; tf_size_bytes := 0; tf_pt_hash := [] |}.
Definition facts : TargetFacts := Backup.ok (read_target_facts Machine.probes Machine.file) no_facts.
Definition identities : list RestoreMemberIdentity := Backup.ok (collectM (Identities.read Small.set) [Backup.name0; Backup.name1]) [].

Definition image : TokenImage :=
  {| ti_dest := Text.str "/srv"; ti_set := Text.str "root"; ti_image := Backup.name1; ti_chain := [Backup.name0; Backup.name1];
     ti_identity := None; ti_known_hosts := None; ti_insecure_ignore_host_key := false |}.

(** The tokens of the plan without their MACs. *)
Definition blank (members : list RestoreMemberIdentity) : RestoreToken :=
  {| rt_dest := ti_dest image; rt_set := ti_set image; rt_image := ti_image image; rt_chain := ti_chain image;
     rt_chain_members := members; rt_identity := None; rt_known_hosts := None; rt_insecure_ignore_host_key := false;
     rt_image_uuid := Backup.uuid 1; rt_target_path := Machine.file; rt_target := facts; rt_target_directory := None;
     rt_merge := false; rt_strict_metadata := false; rt_expires_at := 1600; rt_uid := 1000;
     rt_nonce := hex_encode random; rt_mac := [] |}.
Definition known : list RestoreToken := [blank []; blank identities].

#[export] Instance json : TokenJson := TokenStore.json known.
#[export] Instance json_laws : TokenJsonLaws := TokenStore.json_laws known.

Definition no_plan : RestorePlan :=
  {| pn_dest := []; pn_set := []; pn_image := []; pn_members := []; pn_image_uuid := []; pn_consistency := CNone;
     pn_image_kind := Block; pn_source_size_bytes := 0; pn_chunk_size := 0; pn_target := []; pn_target_facts := no_facts;
     pn_target_size_bytes := 0; pn_encrypted := false; pn_warnings := []; pn_token := [] |}.
Definition plan : RestorePlan := Backup.ok (Prepare.prepare_restore_as env request 1000) no_plan.

Lemma plan_ok : Prepare.prepare_restore_as env request 1000 = Ok plan.
Proof. apply Backup.ok_is_Ok. vm_compute. reflexivity. Qed.

Lemma plan_image : pn_image plan = Backup.name1.
Proof. vm_compute. reflexivity. Qed.

Definition apply_env : ApplyEnv Memory.mem :=
  {| ae_secret := secret; ae_clock _ := 1200; ae_open _ := Ok (fun _ => Small.set); ae_target _ := Machine.target;
     ae_directory _ := Err (Io NotFound); ae_claim _ := Ok (Machine.size, 512, 4096); ae_device_id _ := Ok 0;
     ae_records := working |}.

Definition apply_request : ApplyRequest :=
  {| aq_token := pn_token plan; aq_confirm := true; aq_accept_inconsistent := false; aq_encryption := Backup.passphrase;
     aq_context := Progress.silent |}.

Definition writers : Writers Memory.mem bytes unit unit unit :=
  {| ww_file _ _ _ _ := step_err TargetChanged; ww_stream _ _ _ := step_err TargetChanged;
     ww_disk _ _ _ _ _ := step_err TargetChanged |}.

Definition state : Applying bytes unit :=
  {| ap_run := start_run; ap_records := []; ap_device := zrep Machine.size Byte.x00; ap_files := tt |}.

Lemma unchanged_env : unchanged env request plan apply_env Small.set (Machine.size, 512, 4096).
Proof.
  split.
  - reflexivity.
  - reflexivity.
  - reflexivity.
  - reflexivity.
  - reflexivity.
  - intros c. vm_compute. reflexivity.
  - intros k. vm_compute. discriminate.
  - reflexivity.
Qed.

Abbreviation run := (Apply.apply_restore_as writers apply_env apply_request 1000 state).
End Restoring.
#[local] Existing Instance Restoring.json.
#[local] Existing Instance Restoring.json_laws.

Lemma prepared_restore_applies_witness : exists files members reporter records run,
  PrepareLemmas.verification Small.set Backup.name1 files
    {| vj_request := {| vq_image := Backup.name1; vq_encryption := Backup.passphrase; vq_chain := false |};
       vj_context := Progress.silent |} start_run = (run, Ok tt) /\
  Restoring.run =
    (do* report := Apply.on_target (Machine.size, 512, 4096) reporter
       (RestoreBlock.write_block_chain members Small.sb1 Backup.name1 Machine.file) in step_ret (OutBlock report))
      {| ap_run := fst (Progress.phase Progress.silent (Text.str "restore") run); ap_records := records;
         ap_device := zrep Machine.size Byte.x00; ap_files := tt |}.
Proof.
  evaluates (Selected.open_image Small.set Backup.name1 Backup.passphrase) image Ei.
  destruct image as [[reader keys] superblock].
  assert (superblock = Small.sb1) as -> by
    (pose proof (f_equal (fun r => match r with Ok (_, _, s) => s | Err _ => Small.sb1 end) Ei) as Hs; rewrite <- Hs; vm_compute; reflexivity).
  destruct (prepared_restore_applies Restoring.writers Restoring.env Restoring.apply_env Small.set (Machine.size, 512, 4096)
    Restoring.request Restoring.apply_request 1000 Restoring.plan reader keys Small.sb1 Restoring.state)
    as (files & members & reporter & records & Hf & Hm & Hrun).
  - exact Restoring.plan_ok.
  - exact Restoring.unchanged_env.
  - rewrite Restoring.plan_image. exact Ei.
  - reflexivity.
  - reflexivity.
  - vm_compute. reflexivity.
  - vm_compute. discriminate.
  - vm_compute. discriminate.
  - vm_compute. discriminate.
  - vm_compute. reflexivity.
  - vm_compute. reflexivity.
  - discriminate.
  - intros e. apply not_elem_of_nil.
  - reflexivity.
  - reflexivity.
  - reflexivity.
  - reflexivity.
  - assert (Backup.ok (Resolve.resolve_chain Small.set Backup.name1) [] = files) as <- by
      (rewrite Restoring.plan_image in Hf; rewrite Hf; reflexivity).
    exists (Backup.ok (Resolve.resolve_chain Small.set Backup.name1) []), members, reporter, records.
    rewrite Restoring.plan_image in Hrun.
    assert (is_ok (snd (PrepareLemmas.verification Small.set Backup.name1
      (Backup.ok (Resolve.resolve_chain Small.set Backup.name1) [])
      {| vj_request := {| vq_image := Backup.name1; vq_encryption := Backup.passphrase; vq_chain := false |};
         vj_context := Progress.silent |} start_run)) = true) as Hv by (vm_compute; reflexivity).
    change (pq_encryption Restoring.request) with Backup.passphrase in Hrun.
    change (aq_context Restoring.apply_request) with Progress.silent in Hrun.
    change (ap_run Restoring.state) with start_run in Hrun.
    destruct (PrepareLemmas.verification _ _ _ _ _) as [run [[]|e]]; [|discriminate Hv]. exists run. split; [reflexivity|exact Hrun].
Defined.


(** ** Tokens *)
Module Issued.
Import Restoring.
Definition t0 : RestoreToken :=
  Backup.ok (Tokens.issue secret random 1000 image Machine.file (Backup.uuid 1) facts None false DEFAULT_TTL 1000) (blank []).
Definition t1 : RestoreToken := Backup.ok (Tokens.with_chain_members secret t0 identities) (blank []).
Definition t2 : RestoreToken := Backup.ok (Tokens.with_strict_metadata secret t1 false) (blank []).

Lemma t0_ok : Tokens.issue secret random 1000 image Machine.file (Backup.uuid 1) facts None false DEFAULT_TTL 1000 = Ok t0.
Proof. apply Backup.ok_is_Ok. vm_compute. reflexivity. Qed.
Lemma t1_ok : Tokens.with_chain_members secret t0 identities = Ok t1.
Proof. apply Backup.ok_is_Ok. vm_compute. reflexivity. Qed.
Lemma t2_ok : Tokens.with_strict_metadata secret t1 false = Ok t2.
Proof. apply Backup.ok_is_Ok. vm_compute. reflexivity. Qed.
Lemma t2_text : exists j, token_to_json t2 = Some j.
Proof.
  assert (match token_to_json t2 with Some _ => true | None => false end = true) as Hj by (vm_compute; reflexivity).
  destruct (token_to_json t2) as [j|]; [by exists j|discriminate Hj].
Qed.
End Issued.

Lemma issued_token_accepted_witness : exists t,
  Tokens.decode (Tokens.encode t) = Ok t /\ Tokens.verify Restoring.secret 1600 t = Ok tt /\
  Tokens.verify Restoring.secret 1601 t = Err (Corrupt "restore token expired at {}").
Proof.
  destruct Issued.t2_text as [j Hj].
  destruct (issued_token_accepted Restoring.secret Restoring.random 1000 Restoring.image Machine.file (Backup.uuid 1)
    Restoring.facts None false DEFAULT_TTL 1000 Restoring.identities false Issued.t0 Issued.t1 Issued.t2 j) as (Hd & _ & Hv & _);
    [vm_compute; discriminate|vm_compute; discriminate|reflexivity|exact Issued.t0_ok|exact Issued.t1_ok|exact Issued.t2_ok|exact Hj|].
  exists Issued.t2. split; [exact Hd|]. split; [exact (Hv 1600)|exact (Hv 1601)].
Defined.

(** Two processes with one token: the second finds the record of the first. *)
Module Race.
Definition token : RestoreToken := Restoring.blank [].
Definition record : bytes := Used.record_name (rt_expires_at token) (rt_nonce token).
Definition consumer : Consumers.Consumer := Consumers.waiting record 1200.
Definition done (fresh : bool) : Consumers.Consumer := Consumers.at_phase consumer (Consumers.Done fresh).

Definition listed : Consumers.Consumer := Consumers.at_phase consumer (Consumers.Pruning []).

Lemma raced : rtc Consumers.step ([], [consumer; consumer]) ([record], [done true; done false]).
Proof.
  apply rtc_l with ([], [listed; consumer]).
  { apply (Consumers.step_one [] [] [consumer; consumer] 0 consumer listed); [reflexivity|]. by apply Consumers.adv_list. }
  apply rtc_l with ([], [listed; listed]).
  { apply (Consumers.step_one [] [] [listed; consumer] 1 consumer listed); [reflexivity|]. by apply Consumers.adv_list. }
  apply rtc_l with ([record], [done true; listed]).
  { apply (Consumers.step_one [] [record] [listed; listed] 0 listed (done true)); [reflexivity|].
    apply (Consumers.adv_create [] listed); [reflexivity|apply not_elem_of_nil]. }
  apply rtc_l with ([record], [done true; done false]).
  { apply (Consumers.step_one [record] [record] [done true; listed] 1 listed (done false)); [reflexivity|].
    apply (Consumers.adv_exists [record] listed); [reflexivity|by left]. }
  apply rtc_refl.
Qed.
End Race.

Lemma redeem_once_witness :
  Consumers.won Race.record (Race.done true) = true /\ Consumers.won Race.record (Race.done false) = false /\
  snd (Used.redeem working 1601 1000 Race.token [Race.record]) = Ok tt.
Proof.
  destruct (redeem_once Race.token) as (Honce & _ & Hlate); [vm_compute; split; discriminate|vm_compute; reflexivity|].
  assert (Consumers.won Race.record (Race.done true) = true) as Hfirst by (vm_compute; reflexivity).
  split; [exact Hfirst|]. split; [|exact (Hlate 1601 [Race.record] ltac:(vm_compute; reflexivity))].
  destruct (Honce [] [Race.consumer; Race.consumer] [Race.record] [Race.done true; Race.done false] ltac:(repeat (apply List.Forall_cons || apply List.Forall_nil); (split; [reflexivity|vm_compute; discriminate]))
    Race.raced) as [Hone _].
  destruct (Consumers.won Race.record (Race.done false)) eqn:E; [|reflexivity].
  discriminate (Hone 0%nat 1%nat (Race.done true) (Race.done false) eq_refl eq_refl Hfirst E).
Defined.

(** ** Locations *)
Lemma split_image_local_witness :
  let location := {| il_dest := Text.str "/srv/backups"; il_set := Text.str "root"; il_name := Text.str "chain/000.lrimg" |} in
  Uris.split_image (Text.str "/srv/backups/root/chain/000.lrimg") = Ok location /\
  Uris.split_image (Text.str "srv/backups/root/chain/000.lrimg") = Ok location.
Proof.
  destruct (split_image_local [Text.str "srv"; Text.str "backups"] (Text.str "root") (Text.str "chain") (Text.str "000.lrimg"))
    as [Habs Hrel].
  - repeat (apply List.Forall_cons || apply List.Forall_nil);
      (split; [discriminate|split; [apply (bool_decide_eq_true_1 (~ _)); vm_compute; reflexivity|
       split; [discriminate|split; [discriminate|vm_compute; reflexivity]]]]).
  - split; [apply Habs; vm_compute; reflexivity|apply Hrel; vm_compute; reflexivity].
Defined.
