(* ===== verification/Publish.v ===== *)
(** * Publishing on a server ([crates/lr-store/src/publish.rs])

    A rename whose reply is lost may have happened all the same. The protocol
    looks at the server before it tries again. It runs over the operations of
    the trait [RemoteOps], a class here with the laws of a server that has no
    other client for these names; an operation that fails leaves the state the
    server is in by then. *)

From S2P Require Import Prelude Text Core Steps Destination.

Class RemoteOps (R : Type) := {
  remote_size : bytes -> step R (option Z);
  remote_sync : bytes -> step R bool;
  remote_rename : bytes -> bytes -> step R unit;
  remote_rename_over : bytes -> bytes -> step R bool;
  remote_remove : bytes -> step R unit;
  (** [thread::sleep] in milliseconds, and [Id::generate]. *)
  sleep : Z -> step R unit;
  generate : step R Id;
  (** What an error displays, with the values of its message. *)
  displayed : error -> bytes;
}.

Record Retry := { attempts : nat; delay : Z; max_delay : Z }.

Module Sftp.
Definition lower (b : byte) : byte := if in_range 0x41 0x5a b then z2b (b2z b + 32) else b.
(** [is_transient]; [to_lowercase] matters for ASCII only here. *)
Definition NEEDLES : list bytes :=
  map (fun s => Text.str s) ["connection lost"; "no connection"; "timeout"; "broken pipe"; "reset by peer"; "unexpected packet"; "session closed"]%string.
Definition is_transient (text : error -> bytes) (e : error) : bool :=
  match e with
  | NetworkTimeout _ => true
  | Io kind =>
    match kind with
    | ConnectionReset | ConnectionAborted | BrokenPipe | TimedOut | UnexpectedEof | NotConnected | WouldBlock => true
    | _ => false
    end
  | e => existsb (fun needle => Text.contains needle (map lower (text e))) NEEDLES
  end.
End Sftp.

Module Publish.
Section publish.
Context {R : Type} `{RemoteOps R}.

Definition vanished : error := Io NotFound.

Definition synced (path : bytes) : step R Durability :=
  do* done := remote_sync path in
  step_ret (if done : bool then Synced
            else Unconfirmed (Text.str "the SFTP server does not offer fsync@openssh.com, so it never confirmed that the data reached its disk")).

(** What the server holds after a failed attempt: done after all, or the next
    round is due. *)
Definition reconcile (from to : bytes) (expected : Z) (last_round : bool) (e : error) : step R bool :=
  do* at_from := remote_size from in
  do* at_to := remote_size to in
  let transient := Sftp.is_transient displayed e in
  match at_from, at_to with
  | None, Some size => if size =? expected then step_ret true else step_err vanished
  | Some _, Some _ =>
    if negb transient then step_err (Unsupported "{to} already exists; a published image is never replaced")
    else if last_round then step_err e else step_ret false
  | None, None => step_err vanished
  | Some _, None => if transient && negb last_round then step_ret false else step_err e
  end.

(** The rounds that are left. An attempt returns whether the server has the
    operation; an earlier one that turns out to have happened had it. *)
Fixpoint rounds (n : nat) (from to : bytes) (expected delay max_delay : Z) (attempt : step R bool) : step R bool := fun r =>
  match n with
  | O => (r, Err (NetworkTimeout "publishing {to}"))
  | S n =>
    match attempt r with
    | (r, Ok supported) => (r, Ok supported)
    | (r, Err e) =>
      (do* done := reconcile from to expected (Nat.eqb n 0) e in
       if done : bool then step_ret true
       else
         do* _ := sleep delay in
         rounds n from to expected (Z.min (delay * 2) max_delay) max_delay attempt) r
    end
  end.

Definition renamed_with (from to : bytes) (expected : Z) (retry : Retry) (attempt : step R bool) : step R bool :=
  rounds (attempts retry) from to expected (delay retry) (max_delay retry) attempt.

(** One attempt to rename without replacing. *)
Definition plain_rename (from to : bytes) : step R bool := do* _ := remote_rename from to in step_ret true.

Definition size_of (from : bytes) : step R Z :=
  do* size := remote_size from in
  match size with Some size => step_ret size | None => step_err vanished end.

Definition publish_new_with (from to : bytes) (retry : Retry) : step R Durability :=
  do* durability := synced from in
  do* expected := size_of from in
  do* _ := renamed_with from to expected retry (plain_rename from to) in
  step_ret durability.

Definition aside_name (to : bytes) (id : Id) : bytes := to ++ [Byte.x2e] ++ Ids.to_uuid_string id ++ Text.str ".old".

(** Without an atomic replacement: the old copy is moved aside first. *)
Definition replace_by_moving (from to : bytes) (expected : Z) (retry : Retry) : step R unit :=
  do* at_to := remote_size to in
  do* aside :=
    (match at_to with
     | Some size =>
       do* id := generate in
       let aside := aside_name to id in
       do* _ := renamed_with to aside size retry (plain_rename to aside) in
       step_ret (Some aside)
     | None => step_ret None
     end) in
  do* _ := renamed_with from to expected retry (plain_rename from to) in
  match aside with
  | Some aside => fun r => (fst (remote_remove aside r), Ok tt)
  | None => step_ret tt
  end.

Definition replace_with (from to : bytes) (retry : Retry) : step R Durability :=
  do* durability := synced from in
  do* expected := size_of from in
  do* supported := renamed_with from to expected retry (remote_rename_over from to) in
  if supported : bool then step_ret durability
  else
    do* _ := replace_by_moving from to expected retry in
    step_ret durability.
End publish.
End Publish.

(** ** The laws of a server *)
Class RemoteLaws (R : Type) `{RemoteOps R} := {
  remote : R -> bytes -> option bytes;
  size_truth : forall p r n, snd (remote_size p r) = Ok n -> n = option_map zlen (remote r p);
  size_frame : forall p r m, remote (fst (remote_size p r)) m = remote r m;
  sync_frame : forall p r m, remote (fst (remote_sync p r)) m = remote r m;
  sleep_frame : forall t r m, remote (fst (sleep t r)) m = remote r m;
  generate_frame : forall r m, remote (fst (generate r)) m = remote r m;
  (** A rename touches two names. It has happened, which takes a file and a free
      name, or it has not; told to be done, it has. *)
  rename_frame : forall from to r m, m <> from -> m <> to -> remote (fst (remote_rename from to r)) m = remote r m;
  rename_spec : forall from to r, from <> to ->
    let '(r', res) := remote_rename from to r in
    (is_ok res = false /\ remote r' from = remote r from /\ remote r' to = remote r to) \/
    (is_Some (remote r from) /\ remote r to = None /\ remote r' from = None /\ remote r' to = remote r from);
  rename_over_frame : forall from to r m, m <> from -> m <> to -> remote (fst (remote_rename_over from to r)) m = remote r m;
  rename_over_spec : forall from to r, from <> to ->
    let '(r', res) := remote_rename_over from to r in
    (res <> Ok true /\ remote r' from = remote r from /\ remote r' to = remote r to) \/
    (res <> Ok false /\ is_Some (remote r from) /\ remote r' from = None /\ remote r' to = remote r from);
  remove_frame : forall p r m, m <> p -> remote (fst (remote_remove p r)) m = remote r m;
}.

(** ** What becomes of the files *)
Module PublishSpec.
Import Publish.
Section spec.
Context {R : Type} `{RemoteLaws R}.

(** The files were [files], but what was [from] is [to] now. *)
Definition renamed (files : bytes -> option bytes) (from to : bytes) (m : bytes) : option bytes :=
  if bool_decide (m = from) then None else if bool_decide (m = to) then files from else files m.
Definition holds (files : bytes -> option bytes) (r : R) : Prop := forall m, remote r m = files m.
Definition either (files : bytes -> option bytes) (from to : bytes) (r : R) : Prop := holds files r \/ holds (renamed files from to) r.

Lemma same_holds files r r' : (forall m, remote r' m = remote r m) -> holds files r -> holds files r'.
Proof. intros Hs Hh m. by rewrite Hs. Qed.

Lemma holds_ext files files' r : (forall m, files m = files' m) -> holds files r -> holds files' r.
Proof. intros He Hh m. by rewrite Hh. Qed.

(** What only looks keeps what the server holds. *)
Lemma triple_keeps {A} (s : step R A) (P : R -> Prop) (Q : A -> R -> Prop) E :
  (forall r m, remote (fst (s r)) m = remote r m) ->
  (forall r r', (forall m, remote r' m = remote r m) -> P r -> E r') ->
  (forall r r' a, s r = (r', Ok a) -> (forall m, remote r' m = remote r m) -> P r -> Q a r') -> triple P s Q E.
Proof.
  intros Hf HE HQ r Hr. pose proof (Hf r) as Hs. destruct (s r) as [r' [a|e]] eqn:Es; cbn [fst] in Hs; [by eapply HQ|by eapply HE].
Qed.

Lemma triple_size p files :
  triple (holds files) (remote_size p) (fun n r => n = option_map zlen (files p) /\ holds files r) (holds files).
Proof.
  apply triple_keeps; [apply size_frame|apply same_holds|]. intros r r' n Hs Hr Hh. split; [|by eapply same_holds].
  pose proof (size_truth p r n) as Ht. rewrite Hs in Ht. rewrite <- Hh. by apply Ht.
Qed.

(** What is known of the value before the state. *)
Lemma triple_pure {A} (F : Prop) (P : R -> Prop) (s : step R A) Q E : (F -> triple P s Q E) -> triple (fun r => F /\ P r) s Q E.
Proof. intros Hs r [HF HP]. by apply Hs. Qed.

Lemma triple_synced p files : triple (holds files) (synced p) (fun _ => holds files) (holds files).
Proof.
  unfold synced. eapply triple_bind; [|intros a; apply (triple_ret _ (fun _ => holds files))].
  apply triple_keeps; [apply sync_frame|apply same_holds|]. intros r r' a _ Hr. by apply same_holds.
Qed.

Lemma triple_size_of p files :
  triple (holds files) (size_of p) (fun n r => option_map zlen (files p) = Some n /\ holds files r) (holds files).
Proof.
  eapply triple_bind; [apply triple_size|]. intros [n|] r [He Hh]; cbn; [by rewrite <- He|done].
Qed.

(** *** One attempt *)
Section names.
Context (files : bytes -> option bytes) (from to : bytes) (b : bytes).
Hypothesis Hne : from <> to.
Hypothesis Hfrom : files from = Some b.

Lemma renamed_from : renamed files from to from = None.
Proof. unfold renamed. by rewrite bool_decide_true. Qed.
Lemma renamed_to : renamed files from to to = Some b.
Proof. unfold renamed. by rewrite bool_decide_false, bool_decide_true. Qed.
Lemma renamed_other m : m <> from -> m <> to -> renamed files from to m = files m.
Proof. intros. unfold renamed. by rewrite !bool_decide_false. Qed.

(** The state after a step that touches two names. *)
Lemma touched r r' : holds files r -> (forall m, m <> from -> m <> to -> remote r' m = remote r m) ->
  (remote r' from = files from -> remote r' to = files to -> holds files r') /\
  (remote r' from = None -> remote r' to = files from -> holds (renamed files from to) r').
Proof.
  intros Hh Hf. split; intros Hr Ht m.
  - destruct (decide (m = from)) as [->|]; [done|]. destruct (decide (m = to)) as [->|]; [done|]. by rewrite Hf.
  - destruct (decide (m = from)) as [->|]; [by rewrite renamed_from|].
    destruct (decide (m = to)) as [->|]; [by rewrite renamed_to, Ht|]. rewrite renamed_other by done. by rewrite Hf.
Qed.

(** An attempt answers [false] when the server has no such operation. *)
Definition attempted (optional : Prop) (attempt : step R bool) : Prop :=
  triple (holds files) attempt (fun s r => if s : bool then holds (renamed files from to) r else optional /\ holds files r)
    (either files from to).

Lemma plain_attempt : files to = None -> attempted False (plain_rename from to).
Proof.
  intros Hto r Hh. unfold plain_rename, step_bind.
  pose proof (rename_spec from to r Hne) as Hs. pose proof (rename_frame from to r) as Hf.
  destruct (remote_rename from to r) as [r' res]. cbn [fst] in Hf. destruct (touched r r' Hh Hf) as [Hk Hm]. rewrite !Hh in Hs.
  destruct res as [[]|e], Hs as [(He & Hfr & Htr)|(_ & _ & Hfr & Htr)]; try done; cbn; [by apply Hm|left; by apply Hk|right; by apply Hm].
Qed.

(** A name that is taken stays what it is. *)
Lemma refused_attempt old : files to = Some old -> triple (holds files) (plain_rename from to) (fun _ _ => False) (holds files).
Proof.
  intros Hto r Hh. unfold plain_rename, step_bind.
  pose proof (rename_spec from to r Hne) as Hs. pose proof (rename_frame from to r) as Hf.
  destruct (remote_rename from to r) as [r' res]. cbn [fst] in Hf. destruct (touched r r' Hh Hf) as [Hk _]. rewrite !Hh in Hs.
  destruct Hs as [(He & Hfr & Htr)|(_ & Hno & _)]; [|congruence]. destruct res; [done|]. by apply Hk.
Qed.

Lemma over_attempt : attempted True (remote_rename_over from to).
Proof.
  intros r Hh. pose proof (rename_over_spec from to r Hne) as Hs. pose proof (rename_over_frame from to r) as Hf.
  destruct (remote_rename_over from to r) as [r' res]. cbn [fst] in Hf. destruct (touched r r' Hh Hf) as [Hk Hm]. rewrite !Hh in Hs.
  destruct res as [[]|e], Hs as [(He & Hfr & Htr)|(He & _ & Hfr & Htr)]; try done;
    [by apply Hm|split; [done|by apply Hk]|left; by apply Hk|right; by apply Hm].
Qed.

(** *** All rounds *)
Ltac answer n := eapply triple_bind; [apply triple_size|]; intros n; apply triple_pure; intros ->.

(** Looking at the server tells the two states apart. *)
Lemma reconcile_waiting expected last e :
  triple (holds files) (reconcile from to expected last e) (fun done r => done = false /\ holds files r) (holds files).
Proof.
  unfold reconcile. answer n. answer n'. rewrite Hfrom. cbn [option_map].
  destruct (files to), (Sftp.is_transient displayed e), last; cbn [option_map negb andb]; intros r Hr; by try split.
Qed.
Lemma reconcile_renamed last e :
  triple (holds (renamed files from to)) (reconcile from to (zlen b) last e)
    (fun done r => done = true /\ holds (renamed files from to) r) (holds (renamed files from to)).
Proof.
  unfold reconcile. answer n. answer n'. rewrite renamed_from, renamed_to. cbn [option_map]. rewrite Z.eqb_refl.
  intros r Hr. by split.
Qed.

Lemma triple_rounds n optional attempt : attempted optional attempt -> forall delay max_delay,
  triple (holds files) (rounds n from to (zlen b) delay max_delay attempt)
    (fun s r => if s : bool then holds (renamed files from to) r else optional /\ holds files r) (either files from to).
Proof.
  intros Ha. induction n as [|n IH]; intros delay max_delay; [intros r Hr; by left|]. intros r Hr. cbn [rounds].
  specialize (Ha r Hr). destruct (attempt r) as [r1 [s|e]]; [done|]. unfold step_bind. destruct Ha as [Hh|Hh].
  - pose proof (reconcile_waiting (zlen b) (Nat.eqb n 0) e r1 Hh) as Hc.
    destruct (reconcile from to (zlen b) (Nat.eqb n 0) e r1) as [r2 [d|e']]; [|by left]. destruct Hc as [-> Hc].
    pose proof (sleep_frame delay r2) as Hs. destruct (sleep delay r2) as [r3 [[]|e']]; cbn [fst] in Hs.
    + apply IH. by eapply same_holds.
    + left. by eapply same_holds.
  - pose proof (reconcile_renamed (Nat.eqb n 0) e r1 Hh) as Hc.
    destruct (reconcile from to (zlen b) (Nat.eqb n 0) e r1) as [r2 [d|e']]; [|by right]. destruct Hc as [-> Hc]. done.
Qed.

(** To a name that is taken, no round gets anywhere. *)
Lemma refused_rounds n expected old : files to = Some old -> forall delay max_delay,
  triple (holds files) (rounds n from to expected delay max_delay (plain_rename from to)) (fun _ _ => False) (holds files).
Proof.
  intros Ho. induction n as [|n IH]; intros delay max_delay; [by intros r Hr|]. intros r Hr. cbn [rounds].
  pose proof (refused_attempt old Ho r Hr) as Ha. destruct (plain_rename from to r) as [r1 [s|e]]; [done|]. unfold step_bind.
  pose proof (reconcile_waiting expected (Nat.eqb n 0) e r1 Ha) as Hc.
  destruct (reconcile from to expected (Nat.eqb n 0) e r1) as [r2 [d|e']]; [|done]. destruct Hc as [-> Hc].
  pose proof (sleep_frame delay r2) as Hs. destruct (sleep delay r2) as [r3 [[]|e']]; cbn [fst] in Hs; [|by eapply same_holds].
  apply IH. by eapply same_holds.
Qed.

(** A rename that happens ends the rounds, whatever its reply. *)
Lemma rounds_happen n delay max_delay r : files to = None -> holds files r ->
  (forall p r, is_ok (snd (remote_size p r)) = true) -> remote (fst (remote_rename from to r)) to = Some b ->
  is_ok (snd (rounds (S n) from to (zlen b) delay max_delay (plain_rename from to) r)) = true.
Proof.
  intros Hto Hh Hsize Hdone. cbn [rounds]. unfold plain_rename at 1, step_bind at 1.
  pose proof (plain_attempt Hto r Hh) as Ha. unfold plain_rename, step_bind in Ha.
  destruct (remote_rename from to r) as [r1 [[]|e]]; [done|]. cbn [fst] in Hdone. unfold step_bind.
  assert (holds (renamed files from to) r1) as Hr by (destruct Ha as [Ha|Ha]; [specialize (Ha to); congruence|done]).
  pose proof (reconcile_renamed (Nat.eqb n 0) e r1 Hr) as Hc.
  assert (is_ok (snd (reconcile from to (zlen b) (Nat.eqb n 0) e r1)) = true) as Hok.
  { unfold reconcile, step_bind. pose proof (Hsize from r1) as H1. pose proof (triple_size from _ r1 Hr) as T1.
    destruct (remote_size from r1) as [r2 [n1|e1]]; [|done]. destruct T1 as [-> Hr2].
    pose proof (Hsize to r2) as H2. pose proof (triple_size to _ r2 Hr2) as T2.
    destruct (remote_size to r2) as [r3 [n2|e2]]; [|done]. destruct T2 as [-> Hr3].
    rewrite renamed_from, renamed_to. cbn [option_map]. by rewrite Z.eqb_refl. }
  destruct (reconcile from to (zlen b) (Nat.eqb n 0) e r1) as [r2 [d|e']]; [|done]. by destruct Hc as [-> _].
Qed.
End names.

(** *** Publishing *)
Lemma triple_begin {A} files from to (s : step R A) Q :
  triple (holds files) s Q (holds files) -> triple (holds files) s Q (either files from to).
Proof. intros Hs. eapply triple_conseq; [exact Hs|done|done|by left]. Qed.

Lemma triple_renamed files from to retry b : from <> to -> files from = Some b -> files to = None ->
  triple (holds files) (renamed_with from to (zlen b) retry (plain_rename from to)) (fun _ => holds (renamed files from to))
    (either files from to).
Proof.
  intros Hne Hf Ht. eapply triple_conseq; [by apply (triple_rounds files from to b Hne Hf _ False), (plain_attempt _ _ _ b)|done| |done].
  by intros [] r; [|intros [? _]].
Qed.

Lemma publish_new_free files from to retry b : from <> to -> files from = Some b -> files to = None ->
  triple (holds files) (publish_new_with from to retry) (fun _ => holds (renamed files from to)) (either files from to).
Proof.
  intros Hne Hf Ht. unfold publish_new_with. eapply triple_bind; [apply triple_begin, triple_synced|].
  intros d. cbn beta. eapply triple_bind; [apply triple_begin, triple_size_of|].
  intros n. apply triple_pure. rewrite Hf. intros [= <-].
  eapply triple_bind; [by apply triple_renamed|]. intros s. apply (triple_ret _ (fun _ => holds (renamed files from to))).
Qed.

Lemma publish_new_taken files from to retry b old : from <> to -> files from = Some b -> files to = Some old ->
  triple (holds files) (publish_new_with from to retry) (fun _ _ => False) (holds files).
Proof.
  intros Hne Hf Ht. unfold publish_new_with. eapply triple_bind; [apply triple_synced|].
  intros d. cbn beta. eapply triple_bind; [apply triple_size_of|]. intros n. apply triple_pure. rewrite Hf. intros [= <-].
  eapply triple_bind; [by eapply refused_rounds|]. intros s r Hr. destruct Hr.
Qed.

(** *** Replacing *)

(** The file of [to] is there, or under a name of its own to the side; the new one
    is still [from], or [to] already. Nothing else has changed. *)
Record kept (files : bytes -> option bytes) (from to : bytes) (r : R) : Prop := {
  kp_new : remote r from = files from \/ remote r to = files from;
  kp_old : remote r to = files to \/ remote r to = files from \/ exists id, remote r (aside_name to id) = files to;
  kp_other : forall m, m <> from -> m <> to -> (forall id, m <> aside_name to id) -> remote r m = files m;
}.

Lemma aside_ne to id : aside_name to id <> to.
Proof. unfold aside_name. intros He%(f_equal length). rewrite !length_app in He. cbn [length] in He. lia. Qed.

Lemma kept_same files from to r : holds files r -> kept files from to r.
Proof. intros Hh. split; [left; apply Hh|left; apply Hh|]. intros m _ _ _. apply Hh. Qed.
Lemma kept_renamed files from to r : from <> to -> holds (renamed files from to) r -> kept files from to r.
Proof.
  intros Hne Hh. assert (remote r to = files from) as Ht by (rewrite Hh; unfold renamed; by rewrite bool_decide_false, bool_decide_true).
  split; [by right|right; by left|]. intros m Hf Hm _. rewrite Hh. by apply renamed_other.
Qed.
Lemma kept_either files from to r : from <> to -> either files from to r -> kept files from to r.
Proof. intros Hne [?|?]; [by apply kept_same|by apply kept_renamed]. Qed.

(** What a successful replacement leaves. *)
Definition replaced (files : bytes -> option bytes) (from to : bytes) (r : R) : Prop :=
  remote r to = files from /\ remote r from = None /\ kept files from to r.

Section moving.
Context (files : bytes -> option bytes) (from to : bytes) (b old : bytes) (id : Id).
Hypothesis Hne : from <> to.
Hypothesis Haside : from <> aside_name to id.
Hypothesis Hfrom : files from = Some b.
Hypothesis Hto : files to = Some old.
Abbreviation aside := (aside_name to id).
Abbreviation files2 := (renamed files to aside).

Lemma aside_from : files2 from = Some b.
Proof. by rewrite renamed_other by done. Qed.
Lemma aside_to : files2 to = None.
Proof. apply renamed_from. Qed.
Lemma aside_old : files2 aside = files to.
Proof. unfold renamed. rewrite bool_decide_false by apply aside_ne. by rewrite bool_decide_true. Qed.

Lemma kept_aside r : holds files2 r -> kept files from to r.
Proof.
  intros Hh. split; [left; by rewrite Hh, aside_from|right; right; exists id; by rewrite Hh, aside_old|].
  intros m Hf Ht Ha. rewrite Hh. by apply renamed_other.
Qed.

Lemma replaced_moved r : holds (renamed files2 from to) r -> replaced files from to r.
Proof.
  intros Hh. assert (remote r to = files from) as Ht by (rewrite Hh, (renamed_to files2 from to b), Hfrom; done || apply aside_from).
  split; [done|]. split; [rewrite Hh; apply renamed_from|]. split; [by right|right; by left|].
  intros m Hf Hm Ha. rewrite Hh, !renamed_other; done || by intros ->.
Qed.

Lemma triple_moved retry :
  triple (holds files2) (renamed_with from to (zlen b) retry (plain_rename from to)) (fun _ => replaced files from to) (kept files from to).
Proof.
  eapply triple_conseq; [apply (triple_renamed files2 from to retry b); [done|apply aside_from|apply aside_to]|done|..].
  - intros s r. apply replaced_moved.
  - intros r [Hh|Hh]; [by apply kept_aside|by apply replaced_moved].
Qed.

(** Making way; a taken name refuses. *)
Lemma triple_aside retry :
  triple (holds files) (renamed_with to aside (zlen old) retry (plain_rename to aside)) (fun _ => holds files2) (kept files from to).
Proof.
  assert (to <> aside) as Hna by (intros He; by apply (aside_ne to id)).
  destruct (files aside) as [x|] eqn:E.
  - eapply triple_conseq; [by apply (refused_rounds files to aside old Hna Hto _ _ x)|done|done|]. apply kept_same.
  - eapply triple_conseq; [by apply (triple_renamed files to aside retry old)|done|done|].
    intros r [Hh|Hh]; [by apply kept_same|by apply kept_aside].
Qed.

Lemma triple_cleared : triple (replaced files from to) (fun r => (fst (remote_remove aside r), Ok tt)) (fun _ => replaced files from to)
  (kept files from to).
Proof.
  intros r (Ht & Hf & [Hn Ho Hm]). pose proof (fun m => remove_frame aside r m) as Hr.
  assert (to <> aside) as Hna by (intros He; by apply (aside_ne to id)).
  split; [by rewrite Hr|]. split; [by rewrite Hr|]. split; [right; by rewrite Hr|right; left; by rewrite Hr|].
  intros m Hmf Hmt Hma. rewrite Hr by done. by apply Hm.
Qed.
End moving.

Lemma triple_by_moving files from to retry b : from <> to -> (forall id, from <> aside_name to id) -> files from = Some b ->
  triple (holds files) (replace_by_moving from to (zlen b) retry) (fun _ => replaced files from to) (kept files from to).
Proof.
  intros Hne Ha Hf. unfold replace_by_moving.
  eapply triple_bind; [eapply triple_conseq; [apply triple_size|done|done|apply kept_same]|].
  intros n. apply triple_pure. intros ->. destruct (files to) as [old|] eqn:Ht; cbn [option_map].
  - eapply (triple_bind _ _ _ (fun aside r => exists id, aside = Some (aside_name to id) /\ holds (renamed files to (aside_name to id)) r)).
    + eapply triple_bind.
      { apply (triple_keeps generate (holds files) (fun _ => holds files) (kept files from to)); [apply generate_frame|..].
        - intros r r' Hs Hh. apply kept_same. by eapply same_holds.
        - intros r r' id _ Hs Hh. by eapply same_holds. }
      intros id. cbn beta zeta. eapply triple_bind; [by eapply triple_aside|]. intros s r Hr. by exists id.
    + intros aside r (id & -> & Hr). revert r Hr. eapply triple_bind; [by eapply triple_moved|]. intros s. by apply triple_cleared.
  - eapply (triple_bind _ _ _ (fun aside r => aside = None /\ holds files r)); [by intros r Hr|].
    intros aside. apply triple_pure. intros ->.
    eapply triple_bind; [eapply triple_conseq; [by apply (triple_renamed files from to retry b)|done|intros s r Hr; exact Hr|]|].
    + intros r Hr. by apply kept_either.
    + intros s r Hr. cbn. split; [rewrite Hr; by erewrite renamed_to|]. split; [rewrite Hr; apply renamed_from|]. by apply kept_renamed.
Qed.

Lemma triple_replace files from to retry b : from <> to -> (forall id, from <> aside_name to id) -> files from = Some b ->
  triple (holds files) (replace_with from to retry) (fun _ => replaced files from to) (kept files from to).
Proof.
  intros Hne Ha Hf. unfold replace_with.
  eapply triple_bind; [eapply triple_conseq; [apply triple_synced|done|done|apply kept_same]|]. intros d. cbn beta.
  eapply triple_bind; [eapply triple_conseq; [apply triple_size_of|done|done|apply kept_same]|].
  intros n. apply triple_pure. rewrite Hf. intros [= <-].
  eapply triple_bind; [eapply triple_conseq; [by apply (triple_rounds files from to b Hne Hf _ True), (over_attempt _ _ _ b)|done|done|]|].
  - intros r. by apply kept_either.
  - intros [].
    + intros r Hr. cbn. split; [rewrite Hr; by erewrite renamed_to|]. split; [rewrite Hr; apply renamed_from|]. by apply kept_renamed.
    + apply triple_pure. intros _. eapply triple_bind; [by apply triple_by_moving|]. intros u.
      apply (triple_ret _ (fun _ => replaced files from to)).
Qed.
(** However publishing ends, it has happened under a free name or not at all. *)
Lemma publish_new_outcome from to retry r b : from <> to -> remote r from = Some b ->
  match publish_new_with from to retry r with
  | (r', Ok _) => remote r to = None /\ holds (renamed (remote r) from to) r'
  | (r', Err _) => holds (remote r) r' \/ (remote r to = None /\ holds (renamed (remote r) from to) r')
  end.
Proof.
  intros Hne Hf. assert (holds (remote r) r) as Hr by done. destruct (remote r to) as [old|] eqn:Ht.
  - pose proof (publish_new_taken (remote r) from to retry b old Hne Hf Ht r Hr) as Hp.
    destruct (publish_new_with from to retry r) as [r' [d|e]]; [done|by left].
  - pose proof (publish_new_free (remote r) from to retry b Hne Hf Ht r Hr) as Hp.
    destruct (publish_new_with from to retry r) as [r' [d|e]]; [done|]. destruct Hp; [by left|by right].
Qed.
End spec.
End PublishSpec.

(** C19: Publishing on a server never replaces and never loses anything, whatever
    the replies: success means the name was free and now names what the
    temporary file was, failure that this has happened or nothing has, and no
    other file changes. A rename that happened counts even when its reply is
    lost, as long as the server answers afterwards. *)
Theorem publish_new_exact {R} `{RemoteLaws R} from to retry r b : from <> to -> remote r from = Some b ->
  (match Publish.publish_new_with from to retry r with
   | (r', Ok _) => remote r to = None /\ PublishSpec.holds (PublishSpec.renamed (remote r) from to) r'
   | (r', Err _) => PublishSpec.holds (remote r) r' \/ (remote r to = None /\ PublishSpec.holds (PublishSpec.renamed (remote r) from to) r')
   end) /\
  ((forall p r, is_ok (snd (remote_size p r)) = true) -> (forall r, is_ok (snd (remote_sync from r)) = true) ->
   (forall r', remote r' from = Some b -> remote r' to = None -> remote (fst (remote_rename from to r')) to = Some b) ->
   remote r to = None -> (0 < attempts retry)%nat -> is_ok (snd (Publish.publish_new_with from to retry r)) = true).
Proof.
  intros Hne Hf. assert (PublishSpec.holds (remote r) r) as Hr by done. split.
  - by apply (PublishSpec.publish_new_outcome _ _ _ _ b).
  - intros Hsize Hsync Hren Ht Hn. unfold Publish.publish_new_with, step_bind at 1.
    pose proof (PublishSpec.triple_synced from (remote r) r Hr) as Hs. unfold Publish.synced, step_bind in Hs |- *.
    specialize (Hsync r). destruct (remote_sync from r) as [r1 [s|e]]; [|done]. cbn [step_ret] in Hs |- *.
    unfold Publish.size_of, step_bind. pose proof (Hsize from r1) as Hok. pose proof (PublishSpec.triple_size from (remote r) r1 Hs) as H1.
    destruct (remote_size from r1) as [r2 [n|e]]; [|done]. destruct H1 as [-> H2]. rewrite Hf. cbn [option_map step_ret].
    unfold Publish.renamed_with. destruct (attempts retry) as [|k]; [lia|].
    pose proof (PublishSpec.rounds_happen (remote r) from to b Hne Hf k (delay retry) (max_delay retry) r2 Ht H2 Hsize) as Hd.
    specialize (Hren r2). rewrite !H2 in Hren. specialize (Hd (Hren Hf Ht)).
    by destruct (Publish.rounds _ _ _ _ _ _ _ r2) as [r3 [a|e]].
Qed.

(** C20: Replacing a file on a server never loses the only copy: success means
    that the new file is in place; however it ends, the new file is at one of
    its two names, the old one was replaced by it, is still there or stands
    aside under a name of its own, and nothing else has changed. *)
Theorem replace_keeps_copies {R} `{RemoteLaws R} from to retry r b : from <> to -> (forall id, from <> Publish.aside_name to id) ->
  remote r from = Some b ->
  match Publish.replace_with from to retry r with
  | (r', Ok _) => remote r' to = Some b /\ remote r' from = None /\ PublishSpec.kept (remote r) from to r'
  | (r', Err _) => PublishSpec.kept (remote r) from to r'
  end.
Proof.
  intros Hne Ha Hf. pose proof (PublishSpec.triple_replace (remote r) from to retry b Hne Ha Hf r ltac:(done)) as Hp.
  destruct (Publish.replace_with from to retry r) as [r' [d|e]]; [|done]. unfold PublishSpec.replaced in Hp. by rewrite Hf in Hp.
Qed.
