(* ===== verification/Sftp.v ===== *)
(** * The SFTP destination's session ([crates/lr-store/src/sftp.rs])

    Connecting, retrying and the operations publication needs, over the requests
    of an SFTP session. The library that speaks the protocol and the server
    behind it are a class with laws: a request touches the names it is about,
    and may have been carried out although it failed. *)

From S2P Require Import Prelude Text Core Steps Destination Publish.

Inductive StatusCode := StOk | StConnectionLost | StNoConnection | StNoSuchFile | StFailure.
(** [russh_sftp]'s error. *)
Inductive SftpError := SeStatus (code : StatusCode) | SeTimeout | SeOther.

Inductive answer (A : Type) := Replied (a : A) | Failed (e : SftpError).
Arguments Replied {A} a.
Arguments Failed {A} e.

Record Metadata := { md_size : option Z; md_dir : bool }.

Class SftpServer (S : Type) := {
  (** Whether there is a session, [connect_async], and dropping the session. *)
  connected : S -> bool;
  connect_async : step S unit;
  drop_session : S -> S;
  (** The extensions the server announced to this session, with their versions. *)
  extension : S -> bytes -> option bytes;
  metadata : bytes -> S -> S * answer Metadata;
  create_dir : bytes -> S -> S * answer unit;
  fsync_open : bytes -> S -> S * answer bytes;
  fsync : bytes -> S -> S * answer unit;
  close_handle : bytes -> S -> S;
  request_rename : bytes -> bytes -> S -> S * answer unit;
  (** An extended request by its name, and the status of the reply if it is one. *)
  extended : bytes -> bytes -> S -> S * answer (option StatusCode);
  remove_file : bytes -> S -> S * answer unit;
  pause : Z -> S -> S;
  random_id : step S Id;
  error_text : error -> bytes;
}.

Record SftpConfig := { sc_host : bytes; sc_root : bytes; sc_set_name : bytes }.

Module SftpSession.
Definition RETRY_ATTEMPTS : nat := 5.
Definition RETRY_BASE_DELAY : Z := 250.
Definition RETRY_MAX_DELAY : Z := 8000.
Definition POSIX_RENAME : bytes := Text.str "posix-rename@openssh.com".
Definition FSYNC : bytes := Text.str "fsync@openssh.com".
Definition SLASH : byte := Byte.x2f.

Fixpoint trim_slashes_rev (s : bytes) : bytes :=
  match s with c :: s' => if bool_decide (c = SLASH) then trim_slashes_rev s' else s | [] => [] end.
(** [trim_end_matches('/')]. *)
Definition trim_end_slashes (s : bytes) : bytes := rev (trim_slashes_rev (rev s)).

Definition set_path (c : SftpConfig) : bytes := trim_end_slashes (sc_root c) ++ [SLASH] ++ sc_set_name c.
Definition file_path (c : SftpConfig) (name : bytes) : bytes := set_path c ++ [SLASH] ++ name.

(** Connection loss is retryable. *)
Definition sftp_error (e : SftpError) : error :=
  match e with
  | SeStatus StConnectionLost | SeStatus StNoConnection => Io ConnectionAborted
  | SeTimeout => NetworkTimeout "context"
  | SeStatus StNoSuchFile => Io Prelude.NotFound
  | _ => Corrupt "{context}: {other}"
  end.

Section session.
Context {S : Type} `{SftpServer S}.

Definition ask {A} (request : S -> S * answer A) : step S A := fun s =>
  match request s with
  | (s, Replied a) => (s, Ok a)
  | (s, Failed e) => (s, Err (sftp_error e))
  end.

Definition supports (name : bytes) (s : S) : bool := bool_decide (extension s name = Some (Text.str "1")).

Definition connection : step S unit := fun s => if connected s then (s, Ok tt) else connect_async s.

(** One try; the session is dropped when the error calls for a new one. *)
Definition once {A} (operation : step S A) : step S A := fun s =>
  match connection s with
  | (s, Err e) => (s, Err e)
  | (s, Ok _) =>
    match operation s with
    | (s, Ok a) => (s, Ok a)
    | (s, Err e) => (if Sftp.is_transient error_text e then drop_session s else s, Err e)
    end
  end.

(** The attempts that are left, and the last error so far. *)
Fixpoint run_from {A} (n : nat) (delay : Z) (last : option error) (operation : step S A) : step S A := fun s =>
  match n with
  | O => (s, Err (default (NetworkTimeout "label") last))
  | Datatypes.S n =>
    let next := Z.min (delay * 2) RETRY_MAX_DELAY in
    match connection s with
    | (s, Err e) => run_from n next (Some e) operation (pause delay s)
    | (s, Ok _) =>
      match operation s with
      | (s, Ok a) => (s, Ok a)
      | (s, Err e) =>
        if negb (Sftp.is_transient error_text e) || Nat.eqb n 0 then (s, Err e)
        else run_from n next (Some e) operation (pause delay (drop_session s))
      end
    end
  end.
Definition run_with {A} (operation : step S A) : step S A := run_from RETRY_ATTEMPTS RETRY_BASE_DELAY None operation.

(** ** The operations of publication *)
Definition size (path : bytes) : step S (option Z) := run_with (fun s =>
  match ask (metadata path) s with
  | (s, Ok md) => (s, Ok (Some (default 0 (md_size md))))
  | (s, Err (Io Prelude.NotFound)) => (s, Ok None)
  | (s, Err e) => (s, Err e)
  end).

Definition sync (path : bytes) : step S bool := run_with (fun s =>
  if negb (supports FSYNC s) then (s, Ok false)
  else
    (do* handle := ask (fsync_open path) in
     fun s =>
       match ask (fsync handle) s with
       | (s, Ok _) => (close_handle handle s, Ok true)
       | (s, Err e) => (close_handle handle s, Err e)
       end) s).

Definition rename (from to : bytes) : step S unit := once (ask (request_rename from to)).

(** The packet of a [posix-rename]: both names with their lengths, as far as
    these fit. *)
Definition u32_be (n : Z) : bytes := map z2b [n / 2 ^ 24; n / 2 ^ 16; n / 2 ^ 8; n].
Definition put_name (text : bytes) : answer bytes :=
  if zlen text <=? 2 ^ 32 - 1 then Replied (u32_be (zlen text) ++ text) else Failed SeOther.
Definition posix_rename (from to : bytes) (s : S) : S * answer unit :=
  match put_name from, put_name to with
  | Replied a, Replied b =>
    match extended POSIX_RENAME (a ++ b) s with
    | (s, Replied (Some StOk)) => (s, Replied tt)
    | (s, Replied (Some code)) => (s, Failed (SeStatus code))
    | (s, Replied None) => (s, Failed SeOther)
    | (s, Failed e) => (s, Failed e)
    end
  | Failed e, _ => (s, Failed e)
  | _, Failed e => (s, Failed e)
  end.

Definition rename_over (from to : bytes) : step S bool := once (fun s =>
  if negb (supports POSIX_RENAME s) then (s, Ok false)
  else
    match ask (posix_rename from to) s with
    | (s, Ok _) => (s, Ok true)
    | (s, Err e) => (s, Err e)
    end).

Definition remove (path : bytes) : step S unit := run_with (ask (remove_file path)).

#[export] Instance remote_ops : RemoteOps S := {
  remote_size := size;
  remote_sync := sync;
  remote_rename := rename;
  remote_rename_over := rename_over;
  remote_remove := remove;
  sleep t s := (pause t s, Ok tt);
  generate := random_id;
  displayed := error_text;
}.

Definition retry : Retry := {| attempts := RETRY_ATTEMPTS; delay := RETRY_BASE_DELAY; max_delay := RETRY_MAX_DELAY |}.

Section destination.
Context (c : SftpConfig).
Definition publish_new (tmp final_name : bytes) : step S Durability :=
  Publish.publish_new_with (file_path c tmp) (file_path c final_name) retry.
Definition replace (tmp final_name : bytes) : step S Durability :=
  Publish.replace_with (file_path c tmp) (file_path c final_name) retry.
Definition delete (name : bytes) : step S unit := run_with (ask (remove_file (file_path c name))).

(** [mkdir_all]: the error of a directory that is there after all does not count. *)
Fixpoint mkdir_from (components : list bytes) (current : bytes) : S -> S * answer unit := fun s =>
  match components with
  | [] => (s, Replied tt)
  | component :: components =>
    let current := current ++ [SLASH] ++ component in
    match metadata current s with
    | (s, Replied _) => mkdir_from components current s
    | (s, Failed _) =>
      match create_dir current s with
      | (s, Replied _) => mkdir_from components current s
      | (s, Failed e) =>
        match metadata current s with
        | (s, Replied _) => mkdir_from components current s
        | (s, Failed _) => (s, Failed e)
        end
      end
    end
  end.
Definition mkdir_all (path : bytes) : S -> S * answer unit :=
  mkdir_from (List.filter (fun part => negb (bool_decide (part = []))) (Text.split SLASH path)) [].
Definition open_set : step S unit := run_with (ask (mkdir_all (set_path c))).
Definition open_existing_set : step S unit := fun s =>
  match run_with (fun s =>
    match ask (metadata (set_path c)) s with
    | (s, Ok md) => (s, Ok (Some (md_dir md)))
    | (s, Err (Io Prelude.NotFound)) => (s, Ok None)
    | (s, Err e) => (s, Err e)
    end) s with
  | (s, Ok (Some true)) => (s, Ok tt)
  | (s, Ok (Some false)) => (s, Err (Unsupported "{path} is not a directory"))
  | (s, Ok None) => (s, Err (Io Prelude.NotFound))
  | (s, Err e) => (s, Err e)
  end.
End destination.
End session.
End SftpSession.

(** What the code relies on. [entry] is what is at a name: the bytes of a file
    (of a directory, as many as its size). *)
Class ServerLaws (S : Type) `{SftpServer S} := {
  entry : S -> bytes -> option bytes;
  connect_frame : forall s m, entry (fst (connect_async s)) m = entry s m;
  drop_frame : forall s m, entry (drop_session s) m = entry s m;
  pause_frame : forall t s m, entry (pause t s) m = entry s m;
  random_frame : forall s m, entry (fst (random_id s)) m = entry s m;
  metadata_frame : forall p s m, entry (fst (metadata p s)) m = entry s m;
  metadata_found : forall p s md, snd (metadata p s) = Replied md -> exists b, entry s p = Some b /\ md_size md = Some (zlen b);
  metadata_missing : forall p s, snd (metadata p s) = Failed (SeStatus StNoSuchFile) -> entry s p = None;
  fsync_open_frame : forall p s m, entry (fst (fsync_open p s)) m = entry s m;
  fsync_frame : forall h s m, entry (fst (fsync h s)) m = entry s m;
  close_frame : forall h s m, entry (close_handle h s) m = entry s m;
  request_rename_frame : forall from to s m, m <> from -> m <> to -> entry (fst (request_rename from to s)) m = entry s m;
  (** [SSH_FXP_RENAME] refuses a name that is taken. *)
  request_rename_spec : forall from to s, from <> to ->
    let '(s', reply) := request_rename from to s in
    (reply <> Replied tt /\ entry s' from = entry s from /\ entry s' to = entry s to) \/
    (is_Some (entry s from) /\ entry s to = None /\ entry s' from = None /\ entry s' to = entry s from);
  extended_frame : forall from to a b s m, SftpSession.put_name from = Replied a -> SftpSession.put_name to = Replied b ->
    m <> from -> m <> to -> entry (fst (extended SftpSession.POSIX_RENAME (a ++ b) s)) m = entry s m;
  extended_spec : forall from to a b s, from <> to ->
    SftpSession.put_name from = Replied a -> SftpSession.put_name to = Replied b ->
    let '(s', reply) := extended SftpSession.POSIX_RENAME (a ++ b) s in
    (reply <> Replied (Some StOk) /\ entry s' from = entry s from /\ entry s' to = entry s to) \/
    (is_Some (entry s from) /\ entry s' from = None /\ entry s' to = entry s from);
  remove_file_frame : forall p s m, m <> p -> entry (fst (remove_file p s)) m = entry s m;
}.

Module SftpSpec.
Import SftpSession.
Section spec.
Context {S : Type} `{ServerLaws S}.

(** Predicates that only look at what is at the names in [ms]. *)
Definition about (ms : bytes -> Prop) (P : S -> Prop) : Prop := forall s s', (forall m, ms m -> entry s' m = entry s m) -> P s -> P s'.

Lemma connection_frame s m : entry (fst (connection s)) m = entry s m.
Proof. unfold connection. destruct (connected s); [done|apply connect_frame]. Qed.

Section loops.
Context {A : Type} (P : S -> Prop) (Q : A -> S -> Prop) (operation : step S A).
Hypothesis Hstable : about (fun _ => True) P.

(** Connecting, waiting and dropping the session change no file, so the attempts
    together do what one does. *)
Lemma triple_run : triple P operation Q P -> triple P (run_with operation) Q P.
Proof.
  intros Ho. unfold run_with. generalize RETRY_BASE_DELAY at 1. generalize (@None error) at 1. generalize RETRY_ATTEMPTS.
  induction n as [|n IH]; intros last delay s Hs; [done|]. cbn [run_from].
  pose proof (connection_frame s) as Hc. destruct (connection s) as [s1 [[]|e]]; cbn [fst] in Hc.
  - assert (P s1) as H1 by (eapply Hstable; [|exact Hs]; done). specialize (Ho s1 H1).
    destruct (operation s1) as [s2 [a|e]]; [done|]. destruct (_ || _); [done|]. apply IH.
    eapply Hstable; [|exact Ho]. intros m _. by rewrite pause_frame, drop_frame.
  - apply IH. eapply Hstable; [|exact Hs]. intros m _. by rewrite pause_frame.
Qed.

Lemma triple_once E : about (fun _ => True) E -> (forall s, P s -> E s) -> triple P operation Q E -> triple P (once operation) Q E.
Proof.
  intros HE HPE Ho s Hs. unfold once. pose proof (connection_frame s) as Hc.
  destruct (connection s) as [s1 [[]|e]]; cbn [fst] in Hc.
  - assert (P s1) as H1 by (eapply Hstable; [|exact Hs]; done). specialize (Ho s1 H1).
    destruct (operation s1) as [s2 [a|e]]; [done|]. destruct (Sftp.is_transient _ _); [|done].
    eapply HE; [|exact Ho]. intros m _. apply drop_frame.
  - eapply HE; [|by apply HPE]. done.
Qed.
End loops.

(** The server holds at [m] what it held in [s0]; at every name. *)
Definition same_at (s0 : S) (m : bytes) (s : S) : Prop := entry s m = entry s0 m.
Definition same (s0 s : S) : Prop := forall m, entry s m = entry s0 m.

Lemma about_at s0 m : about (fun _ => True) (same_at s0 m).
Proof. intros s s' Hs Hh. unfold same_at. by rewrite Hs. Qed.
Lemma about_same s0 : about (fun _ => True) (same s0).
Proof. intros s s' Hs Hh m. by rewrite Hs. Qed.

(** A request that keeps [m] does so whatever the reply. *)
Lemma ask_keeps {A} (request : S -> S * answer A) s0 m : (forall s, entry (fst (request s)) m = entry s m) ->
  triple (same_at s0 m) (ask request) (fun _ => same_at s0 m) (same_at s0 m).
Proof.
  intros Hr s Hs. specialize (Hr s). unfold ask, same_at in *. destruct (request s) as [s1 [a|e]]; cbn [fst] in Hr; congruence.
Qed.

(** From a triple at every name back to the names. *)
Lemma run_keeps {A} (s : step S A) m : (forall s0, triple (same_at s0 m) s (fun _ => same_at s0 m) (same_at s0 m)) ->
  forall s0, entry (fst (s s0)) m = entry s0 m.
Proof.
  intros Ht s0. specialize (Ht s0 s0). destruct (s s0) as [s1 [a|e]]; by apply Ht.
Qed.

Lemma size_triple p s0 : triple (same s0) (size p) (fun n s => n = option_map zlen (entry s0 p) /\ same s0 s) (same s0).
Proof.
  apply triple_run; [apply about_same|]. intros s Hs. unfold ask.
  pose proof (metadata_frame p s) as Hf. pose proof (metadata_found p s) as Hfound. pose proof (metadata_missing p s) as Hmiss.
  destruct (metadata p s) as [s1 [md|e]]; cbn [fst snd] in *.
  - destruct (Hfound md eq_refl) as (b & Hb & Hsize). split; [|intros m; by rewrite Hf]. rewrite <- Hs, Hb, Hsize. done.
  - assert (same s0 s1) as H1 by (intros m; by rewrite Hf). destruct e as [[]| |]; cbn [sftp_error]; try done.
    split; [|done]. by rewrite <- Hs, (Hmiss eq_refl).
Qed.

Lemma size_keeps p s m : entry (fst (size p s)) m = entry s m.
Proof.
  pose proof (size_triple p s s) as Ht. destruct (size p s) as [s1 [n|e]]; [destruct Ht as [_ Ht]; [done|by apply Ht]|by apply Ht].
Qed.

Lemma sync_keeps p s m : entry (fst (sync p s)) m = entry s m.
Proof.
  apply run_keeps. intros s0. apply triple_run; [apply about_at|]. intros s1 Hs. destruct (negb _); [done|]. revert s1 Hs.
  eapply triple_bind; [apply ask_keeps; intros s'; apply fsync_open_frame|]. intros handle s1 Hs. cbn beta in Hs.
  pose proof (ask_keeps (fsync handle) s0 m (fun s' => fsync_frame handle s' m) s1 Hs) as Hf.
  destruct (ask (fsync handle) s1) as [s2 [a|e]]; unfold same_at in *; by rewrite close_frame.
Qed.

Lemma rename_keeps from to s m : m <> from -> m <> to -> entry (fst (rename from to s)) m = entry s m.
Proof.
  intros Hf Ht. apply run_keeps. intros s0. apply triple_once; [apply about_at|apply about_at|done|].
  apply ask_keeps. intros s'. by apply request_rename_frame.
Qed.

(** The names of a rename, before and after. *)
Definition unmoved (s0 : S) (from to : bytes) (s : S) : Prop := entry s from = entry s0 from /\ entry s to = entry s0 to.
Definition moved (s0 : S) (from to : bytes) (s : S) : Prop :=
  is_Some (entry s0 from) /\ entry s from = None /\ entry s to = entry s0 from.
Lemma about_moves s0 from to (F G : Prop) : about (fun _ => True) (fun s => (F /\ unmoved s0 from to s) \/ (G /\ moved s0 from to s)).
Proof. unfold unmoved, moved. intros s s' Hs. by rewrite !Hs. Qed.
Lemma about_unmoved s0 from to : about (fun _ => True) (unmoved s0 from to).
Proof. unfold unmoved. intros s s' Hs. by rewrite !Hs. Qed.

Lemma rename_triple from to s0 : from <> to ->
  triple (unmoved s0 from to) (rename from to) (fun _ s => entry s0 to = None /\ moved s0 from to s)
    (fun s => (True /\ unmoved s0 from to s) \/ (entry s0 to = None /\ moved s0 from to s)).
Proof.
  intros Hne. apply triple_once; [apply about_unmoved|apply about_moves|by left|].
  intros s [Hf Ht]. unfold ask. pose proof (request_rename_spec from to s Hne) as Hr.
  destruct (request_rename from to s) as [s1 [[]|e]]; unfold unmoved, moved; rewrite Hf, Ht in Hr; cbn; naive_solver.
Qed.

Lemma posix_keeps from to s m : m <> from -> m <> to -> entry (fst (posix_rename from to s)) m = entry s m.
Proof.
  intros Hf Ht. unfold posix_rename. destruct (put_name from) as [a|] eqn:Ea; [|done]. destruct (put_name to) as [b|] eqn:Eb; [|done].
  pose proof (extended_frame from to a b s m Ea Eb Hf Ht) as He. by destruct (extended _ _ s) as [s1 [[[]|]|]].
Qed.
Lemma posix_spec from to s : from <> to ->
  let '(s', reply) := posix_rename from to s in
  (reply <> Replied tt /\ unmoved s from to s') \/ moved s from to s'.
Proof.
  intros Hne. unfold posix_rename. destruct (put_name from) as [a|] eqn:Ea; [|left; by repeat split].
  destruct (put_name to) as [b|] eqn:Eb; [|left; by repeat split].
  pose proof (extended_spec from to a b s Hne Ea Eb) as He. unfold unmoved, moved.
  destruct (extended _ _ s) as [s1 [[[]|]|]]; naive_solver.
Qed.

Lemma over_keeps from to s m : m <> from -> m <> to -> entry (fst (rename_over from to s)) m = entry s m.
Proof.
  intros Hf Ht. apply run_keeps. intros s0. apply triple_once; [apply about_at|apply about_at|done|]. intros s1 Hs.
  destruct (negb _); [done|]. pose proof (ask_keeps (posix_rename from to) s0 m (fun s' => posix_keeps from to s' m Hf Ht) s1 Hs) as Ha.
  by destruct (ask _ s1) as [s2 [a|e]].
Qed.
Lemma over_triple from to s0 : from <> to ->
  triple (unmoved s0 from to) (rename_over from to)
    (fun done s => if done : bool then moved s0 from to s else unmoved s0 from to s)
    (fun s => (True /\ unmoved s0 from to s) \/ (True /\ moved s0 from to s)).
Proof.
  intros Hne. apply triple_once; [apply about_unmoved|apply about_moves|by left|]. intros s [Hf Ht]. destruct (negb _); [done|].
  unfold ask. pose proof (posix_spec from to s Hne) as Hr. unfold unmoved, moved in *.
  destruct (posix_rename from to s) as [s1 [[]|e]]; rewrite Hf, Ht in Hr; cbn; naive_solver.
Qed.

#[export] Instance remote_laws : @RemoteLaws S remote_ops.
Proof.
  refine (@Build_RemoteLaws S remote_ops entry _ _ _ _ _ _ _ _ _ _);
    cbn [remote_size remote_sync remote_rename remote_rename_over remote_remove sleep generate remote_ops].
  - intros p s n Hn. pose proof (size_triple p s s ltac:(done)) as Ht. destruct (size p s) as [s1 [n'|e]]; cbn in Hn; [|done].
    injection Hn as ->. by destruct Ht.
  - apply size_keeps.
  - apply sync_keeps.
  - intros t s m. apply pause_frame.
  - apply random_frame.
  - apply rename_keeps.
  - intros from to s Hne. pose proof (rename_triple from to s Hne s ltac:(done)) as Ht.
    unfold moved, unmoved in Ht. destruct (rename from to s) as [s1 [[]|e]]; naive_solver.
  - apply over_keeps.
  - intros from to s Hne. pose proof (over_triple from to s Hne s ltac:(done)) as Ht.
    unfold moved, unmoved in Ht. destruct (rename_over from to s) as [s1 [[]|e]]; naive_solver.
  - intros p s m Hm. apply run_keeps. intros s0. apply triple_run; [apply about_at|]. apply ask_keeps. intros s'. by apply remove_file_frame.
Defined.
End spec.
End SftpSpec.

(** C18: The operations publication needs, as the SFTP destination implements them
    with its retries and reconnections, obey the laws the publication protocol
    is proved against; so publishing through a session that keeps failing never
    replaces a file of the set, and success means that the name was free and
    holds the temporary file's bytes. *)
Theorem sftp_publishes {S} `{ServerLaws S} :
  (exists L : @RemoteLaws S SftpSession.remote_ops, @remote S SftpSession.remote_ops L = entry) /\
  forall c tmp name s b, tmp <> name -> entry s (SftpSession.file_path c tmp) = Some b ->
    let '(s', res) := SftpSession.publish_new c tmp name s in
    (is_Some (entry s (SftpSession.file_path c name)) -> (forall m, entry s' m = entry s m) /\ is_ok res = false) /\
    (is_ok res = true -> entry s (SftpSession.file_path c name) = None /\ entry s' (SftpSession.file_path c name) = Some b).
Proof.
  split; [by exists SftpSpec.remote_laws|]. intros c tmp name s b Hne Hb.
  assert (SftpSession.file_path c tmp <> SftpSession.file_path c name) as Hp.
  { unfold SftpSession.file_path. intros He%app_inv_head. by injection He. }
  pose proof (@PublishSpec.publish_new_outcome S SftpSession.remote_ops SftpSpec.remote_laws (SftpSession.file_path c tmp) (SftpSession.file_path c name) SftpSession.retry s b Hp Hb) as Hx.
  unfold SftpSession.publish_new. destruct (Publish.publish_new_with _ _ _ s) as [s' [d|e]].
  - destruct Hx as [Hno Hh]. change (entry s (SftpSession.file_path c name) = None) in Hno.
    split; [intros [? ?]; congruence|]. intros _. split; [done|].
    exact (eq_trans (Hh (SftpSession.file_path c name)) (PublishSpec.renamed_to _ _ _ b Hp Hb)).
  - split; [|done]. intros [old Ho]. split; [|done]. destruct Hx as [Hh|[Hno _]]; [exact Hh|].
    change (entry s (SftpSession.file_path c name) = None) in Hno. congruence.
Qed.
