(* ===== verification/KnownHosts.v ===== *)
(** * Host keys ([crates/lr-store/src/known_hosts.rs])

    Which server keys a [known_hosts] file trusts for a host: the lines of the
    file, their markers, host patterns plain, negated, with a port or hashed,
    and the base64 of the hashed ones. HMAC-SHA1 is a parameter. *)

From stdpp Require Import gmap.
From S2P Require Import Prelude Maps Text Core Sysfs.

(** [Hmac::<Sha1>]: the code of a message under a key. *)
Class HmacSha1 := hmac_sha1 : bytes -> bytes -> bytes.

Inductive Marker := MNone | MRevoked | MCertAuthority.
Record Entry := { en_marker : Marker; en_hosts : gset bytes; en_algorithm : bytes; en_blob : bytes }.
Record HostKeyVerifier := { hv_entries : list Entry; hv_host : bytes; hv_port : Z; hv_insecure : bool }.

Module KnownHosts.
Definition PIPE : byte := Byte.x7c.
Definition STAR : byte := Byte.x2a.
Definition BANG : byte := Byte.x21.
Definition COLON : byte := Byte.x3a.
Definition COMMA : byte := Byte.x2c.
Definition HASH_SIGN : byte := Byte.x23.
Definition AT : byte := Byte.x40.
Definition EQUALS : byte := Byte.x3d.
Definition LBRACKET : byte := Byte.x5b.
Definition RBRACKET : byte := Byte.x5d.
Definition HASHED : bytes := Text.str "|1|".

(** ** Base64 *)
Definition ALPHABET : bytes := Text.str "ABCDEFGHIJKLMNOPQRSTUVWXYZabcdefghijklmnopqrstuvwxyz0123456789+/".

Fixpoint position (c : byte) (l : bytes) (i : Z) : option Z :=
  match l with
  | [] => None
  | x :: l => if bool_decide (x = c) then Some i else position c l (i + 1)
  end.

(** The loop of [base64_decode]; [buffer] is a [u32]. *)
Fixpoint decode_from (text : bytes) (buffer bits : Z) : result bytes :=
  match text with
  | [] => Ok []
  | byte :: text =>
    if bool_decide (byte = EQUALS) then Ok []
    else
      match position byte ALPHABET 0 with
      | None => Err (Corrupt "known_hosts contains invalid base64")
      | Some value =>
        let buffer := Z.lor (Z.shiftl buffer 6 mod 2 ^ 32) value in
        let bits := bits + 6 in
        if 8 <=? bits then
          let* out := decode_from text buffer (bits - 8) in
          Ok (z2b (Z.shiftr buffer (bits - 8)) :: out)
        else decode_from text buffer bits
      end
  end.
Definition base64_decode (text : bytes) : result bytes := decode_from text 0 0.

(** One character of a chunk of [len] bytes. *)
Definition encode_char (buffer : Z) (len index : nat) : byte :=
  if (index <=? len)%nat then
    List.nth (Z.to_nat (Z.land (Z.shiftr buffer (18 - Z.of_nat index * 6)) 0x3f)) ALPHABET EQUALS
  else EQUALS.
Definition encode_chunk (chunk : bytes) : bytes :=
  let buffer := Z.lor (Z.lor (Z.shiftl (b2z (List.nth 0 chunk Byte.x00)) 16) (Z.shiftl (b2z (List.nth 1 chunk Byte.x00)) 8))
                  (b2z (List.nth 2 chunk Byte.x00)) in
  map (encode_char buffer (length chunk)) [0; 1; 2; 3]%nat.
Fixpoint base64_encode (b : bytes) : bytes :=
  match b with
  | x :: y :: z :: b => encode_chunk [x; y; z] ++ base64_encode b
  | [] => []
  | b => encode_chunk b
  end.

(** ** Patterns *)
Definition glob_matches (pattern host : bytes) : bool :=
  match Text.split_once STAR pattern with
  | None => bool_decide (pattern = host)
  | Some (prefix, suffix) =>
    Text.starts_with prefix host && Text.ends_with suffix host && (zlen prefix + zlen suffix <=? zlen host)
  end.

(** A [host] or [[host]:port] pattern; an unqualified name matches any port. *)
Definition plain_matches (pattern host : bytes) (port : Z) : bool :=
  match match Text.strip_prefix [LBRACKET] pattern with Some p => Text.split_once RBRACKET p | None => None end with
  | Some (name, rest) =>
    let pattern_port := match Text.strip_prefix [COLON] rest with Some p => Text.parse_unsigned 65535 p | None => None end in
    bool_decide (name = host) && bool_decide (pattern_port = Some port)
  | None => glob_matches pattern host
  end.

Definition candidates (host : bytes) (port : Z) : list bytes :=
  [host; [LBRACKET] ++ host ++ [RBRACKET; COLON] ++ Text.to_decimal port].

Section hashed.
Context `{HmacSha1}.

Definition hashed_matches (pattern host : bytes) (port : Z) : bool :=
  match Text.split PIPE pattern with
  | first :: second :: salt :: expected :: _ =>
    if negb (bool_decide (first = []) && bool_decide (second = Text.str "1")) then false
    else
      match base64_decode salt with
      | Err _ => false
      | Ok salt => existsb (fun candidate => bool_decide (base64_encode (hmac_sha1 salt candidate) = expected)) (candidates host port)
      end
  | _ => false
  end.

(** The patterns in order: a negated one that matches ends the search. *)
Fixpoint match_patterns (patterns : list bytes) (host : bytes) (port : Z) (positive : bool) : bool :=
  match patterns with
  | [] => positive
  | pattern :: patterns =>
    match Text.strip_prefix [BANG] pattern with
    | Some negated => if plain_matches negated host port then false else match_patterns patterns host port positive
    | None => match_patterns patterns host port (positive || plain_matches pattern host port)
    end
  end.

Definition entry_matches (e : Entry) (host : bytes) (port : Z) (algorithm blob : bytes) : bool :=
  if negb (bool_decide (en_algorithm e = algorithm)) || negb (bool_decide (en_blob e = blob)) then false
  else if existsb (Text.starts_with HASHED) (elements (en_hosts e)) then
    existsb (fun pattern => hashed_matches pattern host port) (elements (en_hosts e))
  else match_patterns (elements (en_hosts e)) host port false.

(** The entries that match, one after the other. *)
Fixpoint verify_entries (matching : list Entry) (trusted : bool) : bool :=
  match matching with
  | [] => trusted
  | e :: matching =>
    match en_marker e with
    | MRevoked => false
    | MNone => verify_entries matching true
    | MCertAuthority => verify_entries matching trusted
    end
  end.
Definition verify (v : HostKeyVerifier) (algorithm blob : bytes) : bool :=
  if hv_insecure v then true
  else verify_entries (List.filter (fun e => entry_matches e (hv_host v) (hv_port v) algorithm blob) (hv_entries v)) false.
End hashed.

(** ** The file *)

(** The entry of a line, if it is one. *)
Definition parse_fields (marker : Marker) (line : bytes) : option Entry :=
  match Text.split_whitespace line with
  | hosts :: algorithm :: blob :: _ =>
    Some {| en_marker := marker; en_hosts := list_to_set (Text.split COMMA hosts); en_algorithm := algorithm; en_blob := blob |}
  | _ => None
  end.
Definition parse_line (line : bytes) : result (option Entry) :=
  let line := Text.trim line in
  match line with
  | [] => Ok None
  | c :: _ =>
    if bool_decide (c = HASH_SIGN) then Ok None
    else if bool_decide (c = AT) then
      let '(word, rest) := default (line, []) (Text.split_once_ws line) in
      let* marker :=
        if bool_decide (word = Text.str "@revoked") then Ok MRevoked
        else if bool_decide (word = Text.str "@cert-authority") then Ok MCertAuthority
        else Err (Unsupported "known_hosts line {} has the unknown marker {other}; refusing to guess what it means") in
      Ok (parse_fields marker (Text.trim_start rest))
    else Ok (parse_fields MNone line)
  end.
Fixpoint parse_lines (lines : list bytes) : result (list Entry) :=
  match lines with
  | [] => Ok []
  | line :: lines =>
    let* e := parse_line line in
    let* entries := parse_lines lines in
    Ok (match e with Some e => e :: entries | None => entries end)
  end.
Definition parse (text : bytes) : result (list Entry) := parse_lines (Text.lines text).

(** [HostKeyVerifier::load]; the home directory, and what reading a file gives. *)
Definition load (home : option bytes) (read : bytes -> result bytes) (host : bytes) (port : Z) (known_hosts : option bytes)
    (insecure : bool) : result HostKeyVerifier :=
  if insecure then Ok {| hv_entries := []; hv_host := host; hv_port := port; hv_insecure := true |}
  else
    let* path := match known_hosts, home with
                 | Some path, _ => Ok path
                 | None, Some home => Ok (Paths.join home (Text.str ".ssh/known_hosts"))
                 | None, None => Err (Unsupported "no known_hosts file: pass --known-hosts or set HOME; use --insecure-ignore-host-key only for tests")
                 end in
    let* entries := match read path with
                    | Ok text => parse text
                    | Err (Io NotFound) => Ok []
                    | Err e => Err e
                    end in
    Ok {| hv_entries := entries; hv_host := host; hv_port := port; hv_insecure := false |}.
End KnownHosts.

(** ** What it means *)
Module KnownHostsSpec.
Import KnownHosts.

(** *** Base64 *)
Lemma position_nth v : 0 <= v < 64 ->
  position (List.nth (Z.to_nat v) ALPHABET EQUALS) ALPHABET 0 = Some v /\ List.nth (Z.to_nat v) ALPHABET EQUALS <> EQUALS /\
  List.nth (Z.to_nat v) ALPHABET EQUALS <> PIPE.
Proof.
  intros Hv. assert (Forall (fun n => position (List.nth n ALPHABET EQUALS) ALPHABET 0 = Some (Z.of_nat n) /\
    List.nth n ALPHABET EQUALS <> EQUALS /\ List.nth n ALPHABET EQUALS <> PIPE) (seq 0 64)) as Hall.
  { repeat (apply List.Forall_cons; [by vm_compute|]). apply List.Forall_nil. }
  rewrite List.Forall_forall in Hall. specialize (Hall (Z.to_nat v)). rewrite Z2Nat.id in Hall by lia. apply Hall. apply List.in_seq. lia.
Qed.

(** One character: six more bits. *)
Lemma decode_char v text buffer bits : 0 <= v < 64 ->
  decode_from (List.nth (Z.to_nat v) ALPHABET EQUALS :: text) buffer bits =
  let buffer := buffer * 64 mod 2 ^ 32 + v in
  if 2 <=? bits then let* out := decode_from text buffer (bits - 2) in Ok (z2b (buffer / 2 ^ (bits - 2)) :: out)
  else decode_from text buffer (bits + 6).
Proof.
  intros Hv. destruct (position_nth v Hv) as (Hp & He & _). cbn [decode_from]. rewrite bool_decide_false, Hp by done.
  assert (Z.lor (Z.shiftl buffer 6 mod 2 ^ 32) v = buffer * 64 mod 2 ^ 32 + v) as ->.
  { rewrite Z.shiftl_mul_pow2 by lia. change (2 ^ 6) with 64.
    replace (buffer * 64 mod 2 ^ 32) with (Z.shiftl (buffer mod 2 ^ 26) 6).
    - assert (0 <= buffer mod 2 ^ 26) by (apply Z.mod_pos_bound; lia).
      rewrite Z.lor_comm, lor_shiftl, Z.shiftl_mul_pow2 by (done || (change (2 ^ 6) with 64; lia)). lia.
    - rewrite Z.shiftl_mul_pow2 by lia. change (2 ^ 6) with 64. Z.to_euclidean_division_equations. lia. }
  cbn zeta. replace (8 <=? bits + 6) with (2 <=? bits) by lia. destruct (2 <=? bits) eqn:E; [|done].
  replace (bits + 6 - 8) with (bits - 2) by lia. by rewrite Z.shiftr_div_pow2 by lia.
Qed.

(** A chunk is a number of 24 bits, of which a character shows six. *)
Definition chunk_value (x y z : byte) : Z := b2z x * 65536 + b2z y * 256 + b2z z.
Definition sextet (value index : Z) : Z := value / 2 ^ (18 - index * 6) mod 64.
Abbreviation char v := (List.nth (Z.to_nat v) ALPHABET EQUALS).

Lemma sextet_range value index : 0 <= sextet value index < 64.
Proof. apply Z.mod_pos_bound. lia. Qed.

Lemma chunk_buffer x y z : Z.lor (Z.lor (Z.shiftl (b2z x) 16) (Z.shiftl (b2z y) 8)) (b2z z) = chunk_value x y z.
Proof.
  pose proof (b2z_bound x). pose proof (b2z_bound y). pose proof (b2z_bound z). unfold chunk_value.
  replace (Z.lor (Z.shiftl (b2z x) 16) (Z.shiftl (b2z y) 8)) with (Z.shiftl (b2z x * 256 + b2z y) 8).
  - rewrite Z.lor_comm, lor_shiftl by lia. lia.
  - rewrite <- (Z.shiftl_shiftl _ 8 8), <- Z.shiftl_lor by lia. f_equal. rewrite Z.lor_comm, lor_shiftl by lia. lia.
Qed.

Lemma encode_char_eq value len index : (index <= 3)%nat ->
  encode_char value len index = if (index <=? len)%nat then char (sextet value (Z.of_nat index)) else EQUALS.
Proof.
  intros Hi. unfold encode_char, sextet. change 0x3f with (Z.ones 6). by rewrite Z.land_ones, Z.shiftr_div_pow2 by lia.
Qed.

Lemma encode_chunk_eq x l : (length l <= 2)%nat -> encode_chunk (x :: l) =
  let value := chunk_value x (List.nth 0 l Byte.x00) (List.nth 1 l Byte.x00) in
  char (sextet value 0) :: char (sextet value 1) ::
  match l with
  | [] => [EQUALS; EQUALS]
  | [_] => [char (sextet value 2); EQUALS]
  | _ => [char (sextet value 2); char (sextet value 3)]
  end.
Proof.
  intros Hl. unfold encode_chunk. cbn [List.nth]. rewrite chunk_buffer. cbn [map]. rewrite !encode_char_eq by lia.
  destruct l as [|y [|z [|? ?]]]; [done..|cbn in Hl; lia].
Qed.

(** The bytes that a decoder finds again, whatever it had read before. *)
Lemma byte_back x v : v mod 256 = b2z x -> z2b v = x.
Proof. intros Hv. rewrite <- (z2b_b2z x), <- Hv. unfold z2b. by rewrite Zmod_mod. Qed.

(** Byte [k] of a chunk comes with character [k + 1]. *)
Definition fed (buffer v : Z) : Z := buffer * 64 mod 2 ^ 32 + v.
Lemma fed_first x y z buffer :
  z2b (fed (fed buffer (sextet (chunk_value x y z) 0)) (sextet (chunk_value x y z) 1) / 2 ^ 4) = x.
Proof.
  apply byte_back. pose proof (b2z_bound x). pose proof (b2z_bound y). pose proof (b2z_bound z). unfold fed, sextet, chunk_value.
  cbn -[b2z]. Z.to_euclidean_division_equations. lia.
Qed.
Lemma fed_second x y z buffer :
  z2b (fed (fed buffer (sextet (chunk_value x y z) 1)) (sextet (chunk_value x y z) 2) / 2 ^ 2) = y.
Proof.
  apply byte_back. pose proof (b2z_bound x). pose proof (b2z_bound y). pose proof (b2z_bound z). unfold fed, sextet, chunk_value.
  cbn -[b2z]. Z.to_euclidean_division_equations. lia.
Qed.
Lemma fed_third x y z buffer :
  z2b (fed (fed buffer (sextet (chunk_value x y z) 2)) (sextet (chunk_value x y z) 3) / 2 ^ 0) = z.
Proof.
  apply byte_back. pose proof (b2z_bound x). pose proof (b2z_bound y). pose proof (b2z_bound z). unfold fed, sextet, chunk_value.
  cbn -[b2z]. Z.to_euclidean_division_equations. lia.
Qed.

(** The four characters of a chunk. *)
Lemma decode_at0 v text buffer : 0 <= v < 64 -> decode_from (char v :: text) buffer 0 = decode_from text (fed buffer v) 6.
Proof. intros Hv. by rewrite decode_char. Qed.
Lemma decode_at bits v text buffer : 2 <= bits -> 0 <= v < 64 ->
  decode_from (char v :: text) buffer bits =
  let* out := decode_from text (fed buffer v) (bits - 2) in Ok (z2b (fed buffer v / 2 ^ (bits - 2)) :: out).
Proof. intros Hb Hv. rewrite decode_char by done. cbn zeta. by destruct (Z.leb_spec 2 bits); [|lia]. Qed.

Lemma base64_back b : forall buffer, decode_from (base64_encode b) buffer 0 = Ok b.
Proof.
  induction b as [b IH] using (induction_ltof1 _ (@length byte)). intros buffer.
  assert (forall value index, 0 <= sextet value index < 64) as Hs by apply sextet_range.
  destruct b as [|x [|y [|z b]]]; [done|..]; cbn [base64_encode]; rewrite encode_chunk_eq by (cbn; lia);
    cbn [List.nth app]; cbn zeta; rewrite decode_at0 by done; rewrite (decode_at 6), fed_first by (done || lia).
  - done.
  - by rewrite (decode_at (6 - 2)), fed_second by (done || lia).
  - rewrite (decode_at (6 - 2)), fed_second by (done || lia). rewrite (decode_at (6 - 2 - 2)), fed_third by (done || lia).
    change (6 - 2 - 2 - 2) with 0. rewrite IH; [done|]. unfold ltof. cbn. lia.
Qed.

Lemma char_pipe v : 0 <= v < 64 -> char v <> PIPE.
Proof. intros Hv. by apply position_nth. Qed.
Lemma encode_no_pipe b : PIPE ∉ base64_encode b.
Proof.
  induction b as [b IH] using (induction_ltof1 _ (@length byte)).
  assert (forall value index, char (sextet value index) <> PIPE) as Hc by (intros; apply char_pipe, sextet_range).
  assert (EQUALS <> PIPE) as He by done.
  destruct b as [|x [|y [|z b]]]; [set_solver|..]; cbn [base64_encode]; rewrite encode_chunk_eq by (cbn; lia); cbn zeta.
  1, 2: cbn [List.nth]; rewrite !not_elem_of_cons; split_and!; try (by apply not_eq_sym, Hc); try (by apply not_eq_sym); set_solver.
  cbn [app List.nth]. rewrite !not_elem_of_cons. split_and!; try (by apply not_eq_sym, Hc). apply IH. unfold ltof. cbn. lia.
Qed.

Lemma split_whole c s : c ∉ s -> Text.split c s = [s].
Proof.
  induction s as [|x s IH]; [done|]. rewrite not_elem_of_cons. intros [Hx Hs]. cbn [Text.split].
  rewrite bool_decide_false by done. by rewrite IH.
Qed.

(** *** Lines and patterns *)
Section applies.
Context `{HmacSha1} (host : bytes) (port : Z) (algorithm blob : bytes).

Definition hashed (hosts : gset bytes) : Prop := exists p, p ∈ hosts /\ Text.starts_with HASHED p = true.
Definition included (hosts : gset bytes) : Prop :=
  exists p, p ∈ hosts /\ Text.strip_prefix [BANG] p = None /\ plain_matches p host port = true.
Definition excluded (hosts : gset bytes) : Prop := exists p, BANG :: p ∈ hosts /\ plain_matches p host port = true.

(** A line is about this key of this host. *)
Record applies (e : Entry) : Prop := {
  ap_algorithm : en_algorithm e = algorithm;
  ap_blob : en_blob e = blob;
  ap_hashed : hashed (en_hosts e) -> exists p, p ∈ en_hosts e /\ hashed_matches p host port = true;
  ap_plain : ~ hashed (en_hosts e) -> included (en_hosts e) /\ ~ excluded (en_hosts e);
}.

Lemma match_patterns_spec patterns : forall positive, match_patterns patterns host port positive = true <->
  (positive = true \/ exists p, p ∈ patterns /\ Text.strip_prefix [BANG] p = None /\ plain_matches p host port = true) /\
  ~ exists p, BANG :: p ∈ patterns /\ plain_matches p host port = true.
Proof.
  induction patterns as [|q patterns IH]; intros positive; cbn [match_patterns].
  { split; [intros ->; split; [by left|by intros (p & Hp%elem_of_nil & _)]|]. by intros [[?|(p & Hp%elem_of_nil & _)] _]. }
  destruct (Text.strip_prefix [BANG] q) as [negated|] eqn:Eq.
  - apply TextLemmas.strip_prefix_Some in Eq as ->. cbn [app]. destruct (plain_matches negated host port) eqn:Em.
    + split; [done|]. intros [_ Hn]. destruct Hn. exists negated. split; [left|done].
    + rewrite IH. split; intros [Hp Hn].
      * split; [destruct Hp as [?|(p & ? & ?)]; [by left|right; exists p; split; [by right|done]]|].
        intros (p & [[= ->]|Hp']%elem_of_cons & Hm); [congruence|]. apply Hn. by exists p.
      * split; [|intros (p & ? & ?); apply Hn; exists p; split; [by right|done]]. destruct Hp as [?|(p & [->|Hp]%elem_of_cons & Hs & Hm)]; [by left|done|]. right. by exists p.
  - rewrite IH, orb_true_iff. assert (forall p, BANG :: p <> q) as Hq by (intros p <-; done). split; intros [Hp Hn]; split.
    + destruct Hp as [[?|?]|(p & ? & ? & ?)]; [by left|right; exists q; split_and!; [left|done..]|right; exists p; split; [by right|done]].
    + intros (p & [Hqp|Hp']%elem_of_cons & Hm); [by destruct (Hq p)|]. apply Hn. by exists p.
    + destruct Hp as [?|(p & [->|Hp]%elem_of_cons & Hs & Hm)]; [by left; left|by left; right|right; by exists p].
    + intros (p & ? & ?). apply Hn. exists p. split; [by right|done].
Qed.

Lemma exists_hosts (f : bytes -> bool) (hosts : gset bytes) : existsb f (elements hosts) = true <-> exists p, p ∈ hosts /\ f p = true.
Proof.
  rewrite existsb_exists. split; intros (p & Hp & Hf); exists p; split; try done.
  - by apply elem_of_elements, list_elem_of_In.
  - by apply list_elem_of_In, elem_of_elements.
Qed.

Lemma entry_matches_spec e : entry_matches e host port algorithm blob = true <-> applies e.
Proof.
  unfold entry_matches. destruct (negb _ || negb _) eqn:Ek.
  { split; [done|]. intros [Ha Hb _ _]. by rewrite Ha, Hb, !bool_decide_true in Ek. }
  apply orb_false_iff in Ek as [Ea%negb_false_iff Eb%negb_false_iff]. apply bool_decide_eq_true in Ea, Eb.
  destruct (existsb (Text.starts_with HASHED) _) eqn:Eh.
  - apply exists_hosts in Eh. rewrite exists_hosts. split; [by intros Hp; split|]. intros [_ _ Hh _]. by apply Hh.
  - assert (~ hashed (en_hosts e)) as Hno by (intros Hh; apply exists_hosts in Hh; congruence).
    rewrite match_patterns_spec. setoid_rewrite elem_of_elements. split.
    + intros [[?|Hi] Hx]; [done|]. by split.
    + intros [_ _ _ Hp]. destruct (Hp Hno) as [Hi Hx]. by split; [right|].
Qed.

Lemma verify_entries_spec matching : forall trusted, verify_entries matching trusted = true <->
  (trusted = true \/ exists e, e ∈ matching /\ en_marker e = MNone) /\ forall e, e ∈ matching -> en_marker e <> MRevoked.
Proof.
  induction matching as [|e matching IH]; intros trusted; cbn [verify_entries].
  { split; [intros ->; split; [by left|by intros e He%elem_of_nil]|]. by intros [[?|(e & He%elem_of_nil & _)] _]. }
  destruct (en_marker e) eqn:Em.
  - rewrite IH. split; intros [Hp Hn]; split.
    + right. exists e. split; [left|done].
    + intros x [->|Hx]%elem_of_cons; [by rewrite Em|by apply Hn].
    + by left.
    + intros x Hx. apply Hn. by right.
  - split; [done|]. intros [_ Hn]. by destruct (Hn e ltac:(left)).
  - rewrite IH. split; intros [Hp Hn]; split.
    + destruct Hp as [?|(x & ? & ?)]; [by left|right; exists x; split; [by right|done]].
    + intros x [->|Hx]%elem_of_cons; [by rewrite Em|by apply Hn].
    + destruct Hp as [?|(x & [->|Hx]%elem_of_cons & Hm)]; [by left|congruence|right; by exists x].
    + intros x Hx. apply Hn. by right.
Qed.
End applies.

Lemma parse_lines_spec lines : forall entries, parse_lines lines = Ok entries ->
  forall e, e ∈ entries <-> exists line, line ∈ lines /\ parse_line line = Ok (Some e).
Proof.
  induction lines as [|line lines IH]; cbn [parse_lines]; [intros entries [= <-]; set_solver|].
  intros entries (o & Ho & (later & Hl & [= <-])%bind_Ok)%bind_Ok e. specialize (IH later Hl e).
  destruct o as [x|]; [rewrite elem_of_cons|]; rewrite IH; setoid_rewrite elem_of_cons; naive_solver congruence.
Qed.
End KnownHostsSpec.

(** C21: The key a server shows is trusted exactly when some line of the file
    without a marker is about it and the host and no [@revoked] line is,
    wherever the lines stand: a line is about a host through a hashed pattern
    that fits, or through a plain one when no negated one fits. Without a file
    no key is trusted. *)
Theorem host_key_exact `{HmacSha1} home read host port known_hosts path v text algorithm blob :
  KnownHosts.load home read host port known_hosts false = Ok v ->
  (known_hosts = Some path \/ (known_hosts = None /\ exists h, home = Some h /\ path = Paths.join h (Text.str ".ssh/known_hosts"))) ->
  (read path = Ok text \/ (read path = Err (Io NotFound) /\ text = [])) ->
  KnownHosts.verify v algorithm blob = true <->
  (exists line e, line ∈ Text.lines text /\ KnownHosts.parse_line line = Ok (Some e) /\ en_marker e = MNone /\
    KnownHostsSpec.applies host port algorithm blob e) /\
  (forall line e, line ∈ Text.lines text -> KnownHosts.parse_line line = Ok (Some e) -> en_marker e = MRevoked ->
    ~ KnownHostsSpec.applies host port algorithm blob e).
Proof.
  intros Hl Hp Ht. unfold KnownHosts.load in Hl. apply bind_Ok in Hl as (p & Hpath & (entries & He & [= <-])%bind_Ok).
  assert (p = path) as -> by (destruct Hp as [->|[-> (h & -> & ->)]]; [destruct home|]; by injection Hpath).
  assert (forall e, e ∈ entries <-> exists line, line ∈ Text.lines text /\ KnownHosts.parse_line line = Ok (Some e)) as Hs.
  { apply KnownHostsSpec.parse_lines_spec. by destruct Ht as [Ht|[Ht ->]]; rewrite Ht in He. }
  unfold KnownHosts.verify. cbn [hv_insecure hv_entries hv_host hv_port]. rewrite KnownHostsSpec.verify_entries_spec.
  assert (forall e, e ∈ List.filter (fun e => KnownHosts.entry_matches e host port algorithm blob) entries <->
    e ∈ entries /\ KnownHostsSpec.applies host port algorithm blob e) as Hf.
  { intros e. by rewrite !list_elem_of_In, List.filter_In, KnownHostsSpec.entry_matches_spec. }
  split.
  - intros [[?|(e & [(line & ? & ?)%Hs ?]%Hf & ?)] Hn]; [done|]. split; [by exists line, e|].
    intros line' e' ? ? ? ?. apply (Hn e'); [apply Hf; split; [apply Hs; by exists line'|done]|done].
  - intros [(line & e & ? & ? & ? & ?) Hn]. split; [right; exists e; split; [apply Hf; split; [apply Hs; by exists line|done]|done]|].
    intros e' [(line' & ? & ?)%Hs ?]%Hf ?. by eapply Hn.
Qed.

(** What is encoded as base64 decodes to itself, so a host name hashed with a
    salt the way OpenSSH does is found again, with its port or without. *)
Theorem hashed_host_found `{HmacSha1} salt host port name b :
  KnownHosts.base64_decode (KnownHosts.base64_encode b) = Ok b /\
  (name ∈ KnownHosts.candidates host port ->
   KnownHosts.hashed_matches (KnownHosts.HASHED ++ KnownHosts.base64_encode salt ++ [KnownHosts.PIPE] ++ KnownHosts.base64_encode (hmac_sha1 salt name))
     host port = true).
Proof.
  split; [apply KnownHostsSpec.base64_back|]. intros Hn. unfold KnownHosts.hashed_matches.
  assert (forall x, KnownHosts.HASHED ++ x = [] ++ KnownHosts.PIPE :: Text.str "1" ++ KnownHosts.PIPE :: x) as -> by done.
  rewrite TextLemmas.split_cons_app by apply not_elem_of_nil.
  rewrite TextLemmas.split_cons_app by (intros Hx%list_elem_of_In; by destruct Hx as [?|[]]).
  cbn [app]. rewrite TextLemmas.split_cons_app, KnownHostsSpec.split_whole by apply KnownHostsSpec.encode_no_pipe.
  rewrite !bool_decide_true by done. cbn [negb andb]. unfold KnownHosts.base64_decode. rewrite KnownHostsSpec.base64_back.
  apply existsb_exists. exists name. split; [by apply list_elem_of_In|]. by apply bool_decide_eq_true.
Qed.
