(* ===== verification/Schedule.v ===== *)
(** * Scheduled jobs ([crates/lr-engine/src/schedule.rs], [options.rs], [keystore.rs])

    The configuration of scheduled jobs, its checks, the systemd units it is
    rendered to, and writing and removing them; with the option parsers the
    checks share with the command line, and passphrase files. How systemd reads
    a unit file is stated in [Systemd], the reading the renderer relies on. *)

From stdpp Require Import gmap.
From S2P Require Import Prelude Maps Text Core Steps Chunk EngineKeys Sysfs BackupPlan BlockBackup.

(** ** Options *)
Inductive Mode := ModeAuto | ModeBlock | ModeStream | ModeFile.

Module Options.
Definition to_ascii_lowercase : bytes -> bytes := map (fun c => if in_range 0x41 0x5a c then z2b (b2z c + 32) else c).

Definition size_suffix (text : bytes) : bytes * Z :=
  match Text.strip_suffix (str "GiB") text with
  | Some rest => (rest, 1024 * 1024 * 1024)
  | None =>
    match Text.strip_suffix (str "MiB") text with
    | Some rest => (rest, 1024 * 1024)
    | None =>
      match Text.strip_suffix (str "KiB") text with
      | Some rest => (rest, 1024)
      | None => match Text.strip_suffix (str "B") text with Some rest => (rest, 1) | None => (text, 1) end
      end
    end
  end.
Definition parse_size (text : bytes) : result Z :=
  let '(digits, multiplier) := size_suffix (Text.trim text) in
  let* value := ok_or (Text.parse_unsigned U64_MAX (Text.trim digits)) (Unsupported "`{text}` is not a size (try `1MiB`)") in
  ok_or (checked_mul value multiplier) (Unsupported "size `{text}` overflows").

(** [parse::<i32>()]. *)
Definition parse_i32 (s : bytes) : option Z :=
  match s with
  | c :: rest =>
    if bool_decide (c = Byte.x2d) then
      match rest with
      | [] => None
      | _ => match Text.digits_val 0 rest with Some v => if v <=? 2 ^ 31 then Some (- v) else None | None => None end
      end
    else Text.parse_unsigned (2 ^ 31 - 1) s
  | [] => None
  end.

Definition parse_compression (text : bytes) : result Compression :=
  let text := to_ascii_lowercase (Text.trim text) in
  if bool_decide (text = str "none") then Ok CompressNone
  else
    let* level := ok_or (Text.strip_prefix (str "zstd:") text) (Unsupported "compression must be `zstd:<level>` or `none`") in
    let* level := ok_or (parse_i32 level) (Unsupported "`{level}` is not a zstd level") in
    if (Compress.MIN_LEVEL <=? level) && (level <=? Compress.MAX_LEVEL) then Ok (CompressZstd level)
    else Err (Unsupported "zstd level {level} is outside {}..={}").

Definition parse_member_type (text : bytes) : result MemberType :=
  let text := to_ascii_lowercase (Text.trim text) in
  if bool_decide (text = []) || bool_decide (text = str "full") then Ok TypeFull
  else if bool_decide (text = str "incremental") then Ok TypeIncremental
  else if bool_decide (text = str "differential") then Ok TypeDifferential
  else Err (Unsupported "`{other}` is not a chain member type (full, incremental, differential)").

Definition parse_bad_sector (text : bytes) : result BadSectorPolicy :=
  let text := to_ascii_lowercase (Text.trim text) in
  if bool_decide (text = []) || bool_decide (text = str "abort") then Ok AbortBad
  else if bool_decide (text = str "record") then Ok RecordBad
  else Err (Unsupported "`{other}` is not a bad-sector policy (abort, record)").

Definition parse_mode (text : bytes) : result Mode :=
  if bool_decide (text = []) || bool_decide (text = str "auto") then Ok ModeAuto
  else if bool_decide (text = str "block") then Ok ModeBlock
  else if bool_decide (text = str "stream") then Ok ModeStream
  else if bool_decide (text = str "file") then Ok ModeFile
  else Err (Unsupported "unknown mode `{other}`; use auto, block, stream or file").

Definition parse_snapshot (text : bytes) : option bytes :=
  let text := Text.trim text in
  if bool_decide (text = []) || bool_decide (text = str "auto") then None else Some text.
End Options.

(** ** Passphrase files *)

(** A file opened without following a link: whether it is regular, its mode, and its bytes. *)
Record Opened := { op_regular : result bool; op_mode : result Z; op_bytes : result bytes }.

Module Keystore.
Definition MAX_PASSPHRASE_BYTES : Z := 4096.
(** 0o777 and 0o600. *)
Definition MODE_BITS : Z := 0x1ff.
Definition MODE_0600 : Z := 0x180.

(** The [while] that pops line ends. *)
Fixpoint skip_line_ends (reversed : bytes) : bytes :=
  match reversed with
  | c :: rest => if bool_decide (c = Text.LF) || bool_decide (c = Text.CR) then skip_line_ends rest else reversed
  | [] => []
  end.

Definition read_passphrase (fd : Opened) : result bytes :=
  let* regular := op_regular fd in
  if negb regular then Err (Unsupported "{} is not a regular file")
  else
    let* mode := op_mode fd in
    if negb (Z.land mode MODE_BITS =? MODE_0600) then Err (Unsupported "{} has mode {mode:o}; a passphrase file must be 0600")
    else
      let* all := op_bytes fd in
      let bytes := ztake (MAX_PASSPHRASE_BYTES + 1) all in
      if MAX_PASSPHRASE_BYTES <? zlen bytes then
        Err (Unsupported "{} is larger than {MAX_PASSPHRASE_BYTES} bytes; it is probably not a passphrase file")
      else
        match rev (skip_line_ends (rev bytes)) with
        | [] => Err (Unsupported "{} is empty")
        | passphrase => Ok passphrase
        end.

Section files.
(** [lr_unsafe::open_readonly_nofollow], and what LINUXREFLECT_PASSPHRASE_FILE holds. *)
Context (open_readonly_nofollow : bytes -> result Opened) (environment : option bytes).

Definition load_passphrase_file (path : bytes) : result bytes :=
  match open_readonly_nofollow path with
  | Ok fd => read_passphrase fd
  | Err _ => Err (Unsupported "cannot open passphrase file {}: {e}")
  end.
Definition passphrase_file_path (explicit : option bytes) : option bytes :=
  match explicit with Some path => Some path | None => environment end.
Definition resolve_passphrase (explicit : option bytes) : result bytes :=
  let* path := ok_or (passphrase_file_path explicit)
    (Unsupported "no passphrase: pass --passphrase-file <path> (a 0600 file) or set {PASSPHRASE_FILE_ENV}, or use --no-encrypt") in
  load_passphrase_file path.

Definition backup_encryption (no_encrypt : bool) (passphrase_file : option bytes) : result Encryption :=
  if no_encrypt then Ok NoEncrypt
  else let* passphrase := resolve_passphrase passphrase_file in Ok (Passphrase passphrase).
Definition restore_encryption (passphrase_file : option bytes) : result Encryption :=
  match passphrase_file_path passphrase_file with
  | Some path => let* passphrase := load_passphrase_file path in Ok (Passphrase passphrase)
  | None => Ok NoEncrypt
  end.
End files.
End Keystore.

(** ** The configuration *)
Record DaemonConfig := { dc_socket : bytes; dc_log_level : bytes; dc_lvm_cow_size : option bytes }.
Record RetentionConfig := {
  rc_keep_chains : option Z;
  rc_max_incrementals_per_chain : option Z;
  rc_new_chain_on_calendar : option bytes;
}.
Record JobConfig := {
  jc_name : bytes;
  jc_source : list bytes;
  jc_dest : bytes;
  jc_set : bytes;
  jc_member_type : bytes;
  jc_parent : option bytes;
  jc_mode : option bytes;
  jc_snapshot : option bytes;
  jc_compress : option bytes;
  jc_encrypt : bool;
  jc_passphrase_file : option bytes;
  jc_on_calendar : bytes;
  jc_randomized_delay : option bytes;
  jc_persistent : bool;
  jc_retention : option RetentionConfig;
}.
Record DestinationConfig := {
  ds_kind : bytes;
  ds_host : option bytes;
  ds_user : option bytes;
  ds_known_hosts : option bytes;
  ds_identity : option bytes;
  ds_path : option bytes;
}.
(** The destinations are a [BTreeMap], here in the order of its keys. *)
Record Config := { cf_daemon : DaemonConfig; cf_jobs : list JobConfig; cf_destinations : list (bytes * DestinationConfig) }.

Record ChainUnits := { cu_service_name : bytes; cu_service : bytes; cu_timer_name : bytes; cu_timer : bytes }.
Record JobUnits := {
  ju_job : bytes;
  ju_service_name : bytes;
  ju_service : bytes;
  ju_timer_name : bytes;
  ju_timer : bytes;
  ju_destination : bytes;
  ju_new_chain : option ChainUnits;
}.
Record CommandContext := {
  cc_program : bytes;
  cc_destination : bytes;
  cc_named : option DestinationConfig;
  cc_lvm_cow_size : option bytes;
}.

Module Schedule.
Definition DEFAULT_SYSTEMD_DIR : bytes := str "/etc/systemd/system".
Definition UNIT_PREFIX : bytes := str "linuxreflect-job@".
Definition CHAIN_UNIT_PREFIX : bytes := str "linuxreflect-newchain@".
Definition default_socket : bytes := str "/run/linuxreflect/daemon.sock".
Definition default_log_level : bytes := str "info".

Definition uri (d : DestinationConfig) : bytes :=
  match bool_decide (ds_kind d = str "sftp"), ds_host d, ds_path d with
  | true, Some host, Some path =>
    str "sftp://" ++ match ds_user d with Some user => user ++ str "@" | None => [] end ++ host ++ path
  | _, _, _ => default [] (ds_path d)
  end.
Definition is_network (d : DestinationConfig) : bool := bool_decide (ds_kind d = str "sftp").

(** [config.destinations.get]. *)
Fixpoint get (name : bytes) (l : list (bytes * DestinationConfig)) : option DestinationConfig :=
  match l with
  | [] => None
  | (n, d) :: l => if bool_decide (n = name) then Some d else get name l
  end.

(** ** The checks *)

(** [char::is_control] of some character: C0, DEL or C1. *)
Fixpoint has_control (s : bytes) : bool :=
  match s with
  | [] => false
  | a :: s =>
    (b2z a <? 0x20) || (b2z a =? 0x7f) || ((b2z a =? 0xc2) && match s with b :: _ => in_range 0x80 0x9f b | [] => false end) || has_control s
  end.
Definition unit_safe (value : bytes) : result unit :=
  if has_control value then Err (Corrupt "{owner}: {field} contains the control character {bad:?}, which cannot go into a systemd unit")
  else Ok tt.
Definition unit_safe_path (path : bytes) : result unit :=
  if utf8_valid path then unit_safe path else Err (Corrupt "{owner}: {field} is not valid UTF-8").
Definition PERCENT : byte := Byte.x25.
Definition timer_safe (value : bytes) : result unit :=
  let* _ := unit_safe value in
  if bool_decide (PERCENT ∈ value) then Err (Corrupt "{owner}: {field} contains `%`, which systemd would expand") else Ok tt.

(** A [for] loop of checks, and a check of what is there. *)
Fixpoint all {A} (f : A -> result unit) (l : list A) : result unit :=
  match l with
  | [] => Ok tt
  | x :: l => let* _ := f x in all f l
  end.
Definition given {A} (f : A -> result unit) (o : option A) : result unit := match o with Some x => f x | None => Ok tt end.

Definition check_daemon (d : DaemonConfig) : result unit :=
  if negb (bool_decide (dc_socket d = default_socket)) then
    Err (Corrupt "[daemon] socket = {:?} is not used: the daemon listens on the socket linuxreflect-daemon.socket gives it ({})")
  else if negb (bool_decide (dc_log_level d = default_log_level)) then
    Err (Corrupt "[daemon] log_level = {:?} is not used: set RUST_LOG for linuxreflect-daemon.service instead")
  else given unit_safe (dc_lvm_cow_size d).

Definition check_destination (d : DestinationConfig) : result unit :=
  if negb (bool_decide (ds_kind d = str "sftp") || bool_decide (ds_kind d = str "local")) then Err (Corrupt "{owner}: kind = {:?}; use sftp or local")
  else
    let* _ := all unit_safe [ds_kind d; default [] (ds_host d); default [] (ds_user d); default [] (ds_path d)] in
    let* _ := given unit_safe_path (ds_identity d) in
    given unit_safe_path (ds_known_hosts d).

Definition new_chain_calendar (job : JobConfig) : option bytes := r ← jc_retention job; rc_new_chain_on_calendar r.

(** An error of a parser, as an error of the job's field. *)
Definition invalid {A} (r : result A) : result unit :=
  match r with Ok _ => Ok tt | Err _ => Err (Corrupt "{owner}: {field}: {error}") end.

Definition SNAPSHOTS : list bytes := map (fun s => str s) ["auto"; "btrfs"; "lvm"; "freeze"; "offline"; "none"]%string.
Definition TYPES : list bytes := map (fun s => str s) ["full"; "incremental"; "differential"]%string.

(** What goes into the units. *)
Definition check_values (job : JobConfig) : result unit :=
  let* _ := all unit_safe (jc_source job) in
  let* _ := all unit_safe [jc_dest job; default [] (jc_parent job); default [] (jc_mode job); default [] (jc_snapshot job);
                           default [] (jc_compress job)] in
  let* _ := given unit_safe_path (jc_passphrase_file job) in
  let* _ := timer_safe (jc_on_calendar job) in
  let* _ := given timer_safe (jc_randomized_delay job) in
  given timer_safe (new_chain_calendar job).

(** What the command line would refuse. *)
Definition check_options (job : JobConfig) : result unit :=
  let* _ := given (fun mode => invalid (Options.parse_mode mode)) (jc_mode job) in
  let* _ := given (fun snapshot => if bool_decide (snapshot ∈ SNAPSHOTS) then Ok tt
                                   else Err (Corrupt "{owner}: snapshot = {snapshot:?}; use auto, btrfs, lvm, freeze, offline or none"))
              (jc_snapshot job) in
  let* _ := given (fun compress => invalid (Options.parse_compression compress)) (jc_compress job) in
  let* _ := given (fun parent => if bool_decide (parent = str "latest") || is_ok (Ids.from_str parent) then Ok tt
                                 else Err (Corrupt "{owner}: parent = {parent:?}; use latest or an image UUID")) (jc_parent job) in
  let* _ := match Names.validate_job_name (jc_name job) with Ok _ => Ok tt | Err _ => Err (Corrupt "{error}") end in
  match Names.validate_set_name (jc_set job) with Ok _ => Ok tt | Err _ => Err (Corrupt "job {}: {error}") end.

Definition check_job (destinations : list (bytes * DestinationConfig)) (job : JobConfig) : result unit :=
  match jc_source job with
  | [] => Err (Corrupt "job {} has no source")
  | _ =>
    if bool_decide (jc_dest job = []) then Err (Corrupt "job {} has no destination")
    else if bool_decide (Text.trim (jc_on_calendar job) = []) then Err (Corrupt "job {} has an empty on_calendar")
    else if negb (bool_decide (jc_member_type job ∈ TYPES)) then Err (Corrupt "job {} has an unknown type `{other}`")
    else if jc_encrypt job && bool_decide (jc_passphrase_file job = None) then Err (Corrupt "job {} encrypts but names no passphrase_file")
    else
      match get (jc_dest job) destinations with
      | Some d => if bool_decide (uri d = []) then Err (Corrupt "job {} names destination {}, which has no path") else Ok tt
      | None => Ok tt
      end
  end.

Fixpoint check_jobs (destinations : list (bytes * DestinationConfig)) (names : list bytes) (jobs : list JobConfig) : result unit :=
  match jobs with
  | [] => Ok tt
  | job :: jobs =>
    let* _ := check_values job in
    let* _ := check_options job in
    if bool_decide (jc_name job ∈ names) then Err (Corrupt "duplicate job name {}")
    else
      let* _ := check_job destinations job in
      check_jobs destinations (jc_name job :: names) jobs
  end.

Definition validate (config : Config) : result unit :=
  let* _ := check_daemon (cf_daemon config) in
  let* _ := all (fun d => check_destination (snd d)) (cf_destinations config) in
  check_jobs (cf_destinations config) [] (cf_jobs config).

(** ** Quoting *)
Definition BACKSLASH : byte := Byte.x5c.
Definition QUOTE : byte := Byte.x22.
Definition DOLLAR : byte := Byte.x24.

(** [replace(c, ec)]. *)
Definition escape_with (e c : byte) (s : bytes) : bytes := s ≫= fun x => if bool_decide (x = c) then [e; c] else [x].
Definition quote (argument : bytes) : bytes :=
  let escaped := escape_with DOLLAR DOLLAR (escape_with PERCENT PERCENT (escape_with BACKSLASH QUOTE (escape_with BACKSLASH BACKSLASH argument))) in
  [QUOTE] ++ escaped ++ [QUOTE].
Definition SPACE : byte := Byte.x20.
Definition command_line (arguments : list bytes) : bytes := Text.join [SPACE] (map quote arguments).

(** ** The units *)
Definition resolve_destination (config : Config) (job : JobConfig) : result (bytes * bool) :=
  match get (jc_dest job) (cf_destinations config) with
  | Some d => if bool_decide (uri d = []) then Err (Corrupt "destination {} has no path") else Ok (uri d, is_network d)
  | None => Ok (jc_dest job, Text.contains (str "://") (jc_dest job) || Text.starts_with (str "@") (jc_dest job))
  end.

Definition unit_name (job kind : bytes) : bytes := UNIT_PREFIX ++ job ++ str "." ++ kind.
Definition chain_unit_name (job kind : bytes) : bytes := CHAIN_UNIT_PREFIX ++ job ++ str "." ++ kind.

(** [Path::display]. *)
Definition display (path : bytes) : bytes := Text.utf8_lossy path.
Definition option_of (name : string) (value : option bytes) : list bytes := match value with Some v => [str name; v] | None => [] end.
Definition ssh_options (context : CommandContext) : list bytes :=
  match cc_named context with
  | None => []
  | Some named => option_of "--identity" (display <$> ds_identity named) ++ option_of "--known-hosts" (display <$> ds_known_hosts named)
  end.
Definition passphrase_option (job : JobConfig) : list bytes :=
  if jc_encrypt job then option_of "--passphrase-file" (display <$> jc_passphrase_file job) else [].

Definition backup_command (context : CommandContext) (job : JobConfig) (member_type source : bytes) : list bytes :=
  [cc_program context; str "backup"; str "create"; str "--source"; source; str "--dest"; cc_destination context; str "--set"; jc_set job;
   str "--type"; member_type] ++
  (if bool_decide (member_type = str "full") then []
   else option_of "--parent" (Some (default (str "latest") (jc_parent job))) ++
        option_of "--max-incrementals" (r ← jc_retention job; Text.to_decimal <$> rc_max_incrementals_per_chain r)) ++
  option_of "--mode" (jc_mode job) ++ option_of "--snapshot" (jc_snapshot job) ++ option_of "--compress" (jc_compress job) ++
  option_of "--lvm-cow-size" (cc_lvm_cow_size context) ++ passphrase_option job ++ ssh_options context ++
  (if jc_encrypt job then [] else [str "--no-encrypt"]) ++ [str "--json"].

Definition retention_command (context : CommandContext) (job : JobConfig) (keep : Z) : list bytes :=
  [cc_program context; str "retention"; str "apply"; str "--dest"; cc_destination context; str "--set"; jc_set job;
   str "--keep-chains"; Text.to_decimal keep] ++ passphrase_option job ++ ssh_options context.

Definition commands (context : CommandContext) (job : JobConfig) (member_type : bytes) : list (list bytes) :=
  map (backup_command context job member_type) (jc_source job) ++
  match (r ← jc_retention job; rc_keep_chains r) with Some keep => [retention_command context job keep] | None => [] end.

Definition line (s : bytes) : bytes := s ++ [Text.LF].
Definition service_unit (description : bytes) (network : bool) (after : option bytes) (commands : list (list bytes)) : bytes :=
  line (str "[Unit]") ++ line (str "Description=" ++ description) ++
  (if network then line (str "Wants=network-online.target") ++ line (str "After=network-online.target") else []) ++
  match after with Some after => line (str "After=" ++ after) | None => [] end ++
  line [] ++ line (str "[Service]") ++ line (str "Type=oneshot") ++ line (str "User=root") ++
  concat (map (fun command => line (str "ExecStart=" ++ command_line command)) commands).

Definition timer_unit (description : bytes) (job : JobConfig) (calendar unit : bytes) : bytes :=
  line (str "[Unit]") ++ line (str "Description=" ++ description) ++
  line [] ++ line (str "[Timer]") ++ line (str "OnCalendar=" ++ calendar) ++
  line (str "Persistent=" ++ (if jc_persistent job then str "true" else str "false")) ++
  match jc_randomized_delay job with Some delay => line (str "RandomizedDelaySec=" ++ delay) | None => [] end ++
  line (str "Unit=" ++ unit) ++ line [] ++ line (str "[Install]") ++ line (str "WantedBy=timers.target").

Definition command_context (config : Config) (job : JobConfig) (cli destination : bytes) : CommandContext := {|
  cc_program := display cli;
  cc_destination := destination;
  cc_named := get (jc_dest job) (cf_destinations config);
  cc_lvm_cow_size := dc_lvm_cow_size (cf_daemon config);
|}.

Definition chain_units (context : CommandContext) (job : JobConfig) (network : bool) (calendar : bytes) : ChainUnits := {|
  cu_service_name := chain_unit_name (jc_name job) (str "service");
  cu_service := service_unit (str "LinuxReflect new chain for " ++ jc_name job) network None (commands context job (str "full"));
  cu_timer_name := chain_unit_name (jc_name job) (str "timer");
  cu_timer := timer_unit (str "LinuxReflect new-chain timer for " ++ jc_name job) job calendar (chain_unit_name (jc_name job) (str "service"));
|}.

Definition render_job (config : Config) (job : JobConfig) (cli : bytes) : result JobUnits :=
  let* (destination, network) := resolve_destination config job in
  let context := command_context config job cli destination in
  let after := (fun _ => chain_unit_name (jc_name job) (str "service")) <$> new_chain_calendar job in
  Ok {|
    ju_job := jc_name job;
    ju_service_name := unit_name (jc_name job) (str "service");
    ju_service := service_unit (str "LinuxReflect backup job " ++ jc_name job) network after (commands context job (jc_member_type job));
    ju_timer_name := unit_name (jc_name job) (str "timer");
    ju_timer := timer_unit (str "LinuxReflect backup timer for " ++ jc_name job) job (jc_on_calendar job) (unit_name (jc_name job) (str "service"));
    ju_destination := destination;
    ju_new_chain := chain_units context job network <$> new_chain_calendar job;
  |}.

(** *** Units as files *)
Definition unit_files (units : JobUnits) : list (bytes * bytes) :=
  [(ju_service_name units, ju_service units); (ju_timer_name units, ju_timer units)] ++
  match ju_new_chain units with
  | Some chain => [(cu_service_name chain, cu_service chain); (cu_timer_name chain, cu_timer chain)]
  | None => []
  end.
Definition timers (units : JobUnits) : list bytes :=
  ju_timer_name units :: match ju_new_chain units with Some chain => [cu_timer_name chain] | None => [] end.
End Schedule.

(** ** Writing and removing *)

(** The files by their paths, how each of the next calls that could fail does
    (an unfinished write leaves a part of the file), what the next runs of
    [systemctl] end in ([None]: it cannot be run), and the runs so far. *)
Record SystemdHost := {
  sh_files : gmap bytes bytes;
  sh_faults : list (option (io_kind * option Z));
  sh_answers : list (option bool);
  sh_calls : list (list bytes);
}.
Record ScheduleReport := {
  sr_config : bytes;
  sr_systemd_dir : bytes;
  sr_dry_run : bool;
  sr_jobs : list JobUnits;
  sr_written : list bytes;
  sr_reloaded : bool;
  sr_started : bool;
  sr_warnings : list string;
}.

Module Materialize.
Import Schedule.
Abbreviation step := (step SystemdHost).

(** ** The calls *)
Definition fault : step (option (io_kind * option Z)) := fun h =>
  ({| sh_files := sh_files h; sh_faults := tail (sh_faults h); sh_answers := sh_answers h; sh_calls := sh_calls h |},
   Ok (default None (head (sh_faults h)))).
Definition with_files (f : gmap bytes bytes -> gmap bytes bytes) : step unit :=
  modify (fun h => {| sh_files := f (sh_files h); sh_faults := sh_faults h; sh_answers := sh_answers h; sh_calls := sh_calls h |}).
Definition create_dir_all : step unit :=
  do* f := fault in match f with Some (kind, _) => step_err (Io kind) | None => step_ret tt end.
Definition write (path contents : bytes) : step unit :=
  do* f := fault in
  match f with
  | None => with_files <[path := contents]>
  | Some (kind, None) => step_err (Io kind)
  | Some (kind, Some n) => do* _ := with_files <[path := ztake n contents]> in step_err (Io kind)
  end.
Definition remove_file (path : bytes) : step unit := fun h =>
  match sh_files h !! path with
  | None => (h, Err (Io NotFound))
  | Some _ =>
    (do* f := fault in
     match f with Some (kind, _) => step_err (Io kind) | None => with_files (base.delete path) end) h
  end.
(** [Command::new("systemctl").args(args).output()]; its success. *)
Definition systemctl (args : list bytes) : step (option bool) := fun h =>
  ({| sh_files := sh_files h; sh_faults := sh_faults h; sh_answers := tail (sh_answers h); sh_calls := sh_calls h ++ [args] |},
   Ok (default (Some true) (head (sh_answers h)))).
Definition run_systemctl (args : list bytes) : step bool :=
  do* answer := systemctl args in
  match answer with
  | None => step_err (Unsupported "systemctl could not be run: {error}")
  | Some false => step_err (Unsupported "systemctl {} failed: {}")
  | Some true => step_ret true
  end.

Section config.
(** [read_to_string] and [toml::from_str]. *)
Context (read_to_string : bytes -> result bytes) (from_str : bytes -> option Config).

Definition parse (text : bytes) : result Config :=
  let* config := ok_or (from_str text) (Corrupt "config.toml: {error}") in
  let* _ := validate config in
  Ok config.
Definition load (path : bytes) : result Config :=
  match read_to_string path with
  | Err _ => Err (Unsupported "cannot read {}: {error}")
  | Ok text =>
    match parse text with
    | Err (Corrupt _) => Err (Corrupt "{}: {what}")
    | other => other
    end
  end.

Definition list (config_path cli : bytes) : result (Datatypes.list JobUnits) :=
  let* config := load config_path in
  collectM (fun job => render_job config job cli) (cf_jobs config).

Fixpoint write_units (dir : bytes) (files : Datatypes.list (bytes * bytes)) : step (Datatypes.list bytes) :=
  match files with
  | [] => step_ret []
  | (name, contents) :: files =>
    do* _ := write (Paths.join dir name) contents in
    do* written := write_units dir files in
    step_ret (Paths.join dir name :: written)
  end.

Definition is_system_dir (dir : bytes) : bool := Paths.eqb dir DEFAULT_SYSTEMD_DIR.

(** Reload, and start the timers. *)
Definition start_timers (dir : bytes) (jobs : Datatypes.list JobUnits) (start : bool) : step (bool * bool * Datatypes.list string) :=
  if is_system_dir dir then
    do* reloaded := run_systemctl [str "daemon-reload"] in
    do* started := if start then run_systemctl ([str "enable"; str "--now"] ++ (jobs ≫= timers)) else step_ret false in
    step_ret (reloaded, started, [])
  else step_ret (false, false, ["{} is not the system unit directory; systemd was not reloaded"%string]).

Definition materialize (config_path cli : bytes) (systemd_dir : option bytes) (dry_run daemon_reload start : bool) : step ScheduleReport :=
  do* config := lift (load config_path) in
  let dir := default DEFAULT_SYSTEMD_DIR systemd_dir in
  do* jobs := lift (collectM (fun job => render_job config job cli) (cf_jobs config)) in
  do* written := if dry_run then step_ret []
                 else do* _ := create_dir_all in write_units dir (jobs ≫= unit_files) in
  do* systemd := if daemon_reload && negb dry_run then start_timers dir jobs start else step_ret (false, false, []) in
  let '(reloaded, started, warnings) := systemd in
  step_ret {|
    sr_config := display config_path;
    sr_systemd_dir := display dir;
    sr_dry_run := dry_run;
    sr_jobs := jobs;
    sr_written := written;
    sr_reloaded := reloaded;
    sr_started := started;
    sr_warnings := warnings;
  |}.
End config.

(** The unit files of a job, whether it has them all or not. *)
Definition names_of (job : bytes) : Datatypes.list bytes :=
  [unit_name job (str "service"); unit_name job (str "timer"); chain_unit_name job (str "service"); chain_unit_name job (str "timer")].
Fixpoint remove_units (paths : Datatypes.list bytes) : step (Datatypes.list bytes) :=
  match paths with
  | [] => step_ret []
  | path :: paths => fun h =>
    match remove_file path h with
    | (h, Ok _) => (do* removed := remove_units paths in step_ret (path :: removed)) h
    | (h, Err (Io NotFound)) => remove_units paths h
    | (h, Err e) => (h, Err e)
    end
  end.
Definition remove (job : bytes) (systemd_dir : option bytes) : step (Datatypes.list bytes) :=
  let dir := default DEFAULT_SYSTEMD_DIR systemd_dir in
  do* version := systemctl [str "--version"] in
  let live := is_system_dir dir && negb (bool_decide (version = None)) in
  do* _ := if live then
             do* _ := systemctl [str "disable"; str "--now"; unit_name job (str "timer"); chain_unit_name job (str "timer")] in step_ret tt
           else step_ret tt in
  do* removed := remove_units (map (Paths.join dir) (names_of job)) in
  do* _ := if live then do* _ := run_systemctl [str "daemon-reload"] in step_ret tt else step_ret tt in
  step_ret removed.
End Materialize.

(** ** How systemd reads a unit file *)
Module Systemd.
Import Schedule.

(** *** Lines (systemd.syntax(7)) *)
Definition space (c : byte) : bool := bool_decide (c ∈ [SPACE; Byte.x09; Byte.x0a; Byte.x0d]).
Fixpoint skip_space (s : bytes) : bytes :=
  match s with c :: rest => if space c then skip_space rest else s | [] => [] end.
Definition strip (s : bytes) : bytes := rev (skip_space (rev (skip_space s))).
(** A line whose last backslash is not itself escaped goes on below. *)
Fixpoint goes_on (escaped : bool) (s : bytes) : bool :=
  match s with [] => escaped | c :: s => goes_on (negb escaped && bool_decide (c = BACKSLASH)) s end.
Definition comment (s : bytes) : bool := match skip_space s with c :: _ => bool_decide (c ∈ [Byte.x23; Byte.x3b]) | [] => false end.
Fixpoint logical (before : bytes) (lines : list bytes) : list bytes :=
  match lines with
  | [] => match before with [] => [] | _ => [before] end
  | l :: lines =>
    if comment l then logical before lines
    else if goes_on false l then logical (before ++ removelast l ++ [SPACE]) lines
    else (before ++ l) :: logical [] lines
  end.

(** *** Sections and assignments *)
Definition section_of (l : bytes) : option bytes :=
  match l with
  | c :: rest => if bool_decide (c = Byte.x5b) then Text.strip_suffix [Byte.x5d] rest else None
  | [] => None
  end.
Fixpoint assignments (section : bytes) (lines : list bytes) : list (bytes * bytes * bytes) :=
  match lines with
  | [] => []
  | l :: lines =>
    match section_of (strip l) with
    | Some section => assignments section lines
    | None =>
      match Text.split_once Byte.x3d l with
      | Some (key, value) => (section, strip key, strip value) :: assignments section lines
      | None => assignments section lines
      end
    end
  end.
Definition read (unit : bytes) : list (bytes * bytes * bytes) := assignments [] (logical [] (Text.split Text.LF unit)).

(** *** Command lines (systemd.service(5))

    Of the quoting: double quotes, and in them the escapes of a backslash and
    of a quote; then doubled percent and dollar signs. [None]: a specifier, a
    variable or an escape not listed here would be expanded. *)
Fixpoint single (c : byte) (s : bytes) : option bytes :=
  match s with
  | [] => Some []
  | x :: s =>
    if bool_decide (x = c) then
      match s with y :: s => if bool_decide (y = c) then cons c <$> single c s else None | [] => None end
    else cons x <$> single c s
  end.
Definition expand (word : bytes) : option bytes := s ← single PERCENT word; single DOLLAR s.
Inductive place := Gap | Bare (word : bytes) | Quoted (word : bytes) | Escaped (word : bytes).
Fixpoint words (a : place) (s : bytes) : option (list bytes) :=
  match s with
  | [] => match a with Gap => Some [] | Bare w => w ← expand w; Some [w] | Quoted _ | Escaped _ => None end
  | c :: s =>
    match a with
    | Gap => if space c then words Gap s else if bool_decide (c = QUOTE) then words (Quoted []) s else words (Bare [c]) s
    | Bare w =>
      if space c then w ← expand w; l ← words Gap s; Some (w :: l)
      else if bool_decide (c = QUOTE) then words (Quoted w) s else words (Bare (w ++ [c])) s
    | Quoted w =>
      if bool_decide (c = QUOTE) then words (Bare w) s
      else if bool_decide (c = BACKSLASH) then words (Escaped w) s else words (Quoted (w ++ [c])) s
    | Escaped w => if bool_decide (c = QUOTE) || bool_decide (c = BACKSLASH) then words (Quoted (w ++ [c])) s else None
    end
  end.
Definition argv (value : bytes) : option (list bytes) := words Gap value.
End Systemd.

(** ** What systemd reads is what was meant *)
Module SystemdSpec.
Import Schedule Systemd.

(** *** Command lines *)
Lemma escape_nil e c : escape_with e c [] = [].
Proof. done. Qed.
Lemma escape_cons e c x s : escape_with e c (x :: s) = escape_with e c [x] ++ escape_with e c s.
Proof. unfold escape_with, mbind. cbn [list_bind]. by rewrite app_nil_r. Qed.
Lemma escape_app e c a b : escape_with e c (a ++ b) = escape_with e c a ++ escape_with e c b.
Proof. apply bind_app. Qed.
Lemma escape_other e c x : x <> c -> escape_with e c [x] = [x].
Proof. intros Hx. unfold escape_with. cbn. by rewrite bool_decide_false. Qed.

Lemma single_escape c s : single c (escape_with c c s) = Some s.
Proof.
  induction s as [|x s IH]; [done|]. rewrite escape_cons. destruct (decide (x = c)) as [->|Hx].
  - unfold escape_with at 1. cbn. rewrite bool_decide_true by done. cbn. by rewrite !bool_decide_true, IH by done.
  - rewrite escape_other by done. cbn. by rewrite bool_decide_false, IH by done.
Qed.

(** What a quoted argument is once the quotes and backslashes are gone. *)
Definition doubled (s : bytes) : bytes := escape_with DOLLAR DOLLAR (escape_with PERCENT PERCENT s).
Lemma doubled_cons x s : doubled (x :: s) = doubled [x] ++ doubled s.
Proof. unfold doubled. by rewrite (escape_cons PERCENT), escape_app. Qed.
Lemma doubled_swap s : doubled s = escape_with PERCENT PERCENT (escape_with DOLLAR DOLLAR s).
Proof.
  induction s as [|x s IH]; [done|]. rewrite doubled_cons, (escape_cons DOLLAR), escape_app, <- IH. f_equal. unfold doubled.
  destruct (decide (x = PERCENT)) as [->|Hp]; [done|]. destruct (decide (x = DOLLAR)) as [->|Hd]; [done|]. by rewrite !escape_other.
Qed.
Lemma expand_doubled s : expand (doubled s) = Some s.
Proof. unfold expand. rewrite doubled_swap, single_escape. apply single_escape. Qed.

Definition escaped (s : bytes) : bytes := doubled (escape_with BACKSLASH QUOTE (escape_with BACKSLASH BACKSLASH s)).
Lemma escaped_cons x s : escaped (x :: s) = escaped [x] ++ escaped s.
Proof.
  unfold escaped. rewrite (escape_cons BACKSLASH BACKSLASH), escape_app. unfold doubled. by rewrite !escape_app.
Qed.

Lemma pair_read c w rest : bool_decide (c = QUOTE) = false -> bool_decide (c = BACKSLASH) = false ->
  words (Quoted w) (c :: c :: rest) = words (Quoted (w ++ [c; c])) rest.
Proof. intros Hq Hb. cbn [words]. rewrite Hq, Hb. cbn iota. by rewrite <- app_assoc. Qed.
Lemma words_escaped s : forall w rest, words (Quoted w) (escaped s ++ rest) = words (Quoted (w ++ doubled s)) rest.
Proof.
  induction s as [|x s IH]; intros w rest; [by rewrite app_nil_r|]. rewrite escaped_cons, doubled_cons, <- (app_assoc (escaped [x])), (app_assoc w), <- IH.
  destruct (decide (x = BACKSLASH)) as [->|Hb]; [done|]. destruct (decide (x = QUOTE)) as [->|Hq]; [done|].
  assert (escaped [x] = doubled [x]) as -> by (unfold escaped; by rewrite !(escape_other BACKSLASH)).
  destruct (decide (x = PERCENT)) as [->|Hp]; [exact (pair_read PERCENT w (escaped s ++ rest) eq_refl eq_refl)|].
  destruct (decide (x = DOLLAR)) as [->|Hd]; [exact (pair_read DOLLAR w (escaped s ++ rest) eq_refl eq_refl)|].
  unfold doubled. rewrite !escape_other by done. cbn. by rewrite !bool_decide_false.
Qed.

Lemma argv_command_line args : argv (command_line args) = Some args.
Proof.
  unfold argv, command_line.
  assert (forall arg rest, words Gap (quote arg ++ rest) = words (Bare (doubled arg)) rest) as Hq.
  { intros arg rest. unfold quote. fold (doubled (escape_with BACKSLASH QUOTE (escape_with BACKSLASH BACKSLASH arg))). fold (escaped arg).
    rewrite <- !app_assoc. cbn [app words]. change (space QUOTE) with false. cbn iota. rewrite bool_decide_true by done.
    by rewrite words_escaped. }
  induction args as [|a args IH]; [done|]. destruct args as [|b args].
  - cbn [map Text.join]. rewrite <- (app_nil_r (quote a)), Hq. cbn [words]. by rewrite expand_doubled.
  - change (Text.join [SPACE] (map quote (a :: b :: args))) with (quote a ++ SPACE :: Text.join [SPACE] (map quote (b :: args))).
    rewrite Hq. cbn [words]. change (space SPACE) with true. cbn iota. rewrite expand_doubled. cbn [mbind option_bind]. by rewrite IH.
Qed.

(** *** Lines *)
Lemma goes_on_plain p s b : BACKSLASH ∉ p -> p <> [] -> goes_on b (p ++ s) = goes_on false s.
Proof.
  revert b. induction p as [|x p IH]; [done|]. intros b [Hx Hp]%not_elem_of_cons _. cbn [app goes_on].
  rewrite bool_decide_false, andb_false_r by done. destruct p as [|y p]; [done|]. by apply IH.
Qed.
Lemma goes_on_last s c b : c <> BACKSLASH -> goes_on b (s ++ [c]) = false.
Proof. intros Hc. revert b. induction s as [|x s IH]; intros b; cbn [app goes_on]; [by rewrite bool_decide_false, andb_false_r|]. apply IH. Qed.

(** One directive, one line. *)
Record closed (l : bytes) : Prop := {
  cl_one : Text.LF ∉ l;
  cl_ends : goes_on false l = false;
  cl_text : comment l = false;
}.
Definition all_lines (unit : bytes) : list bytes := logical [] (Text.split Text.LF unit).
Lemma all_lines_line l rest : closed l -> all_lines (line l ++ rest) = l :: all_lines rest.
Proof.
  intros [Ho He Ht]. unfold all_lines, line. rewrite <- app_assoc. cbn [app]. rewrite TextLemmas.split_cons_app by done.
  cbn [logical]. by rewrite Ht, He.
Qed.
Lemma all_lines_concat {A} (f : A -> bytes) l rest : (forall x, x ∈ l -> closed (f x)) ->
  all_lines (concat (map (fun x => line (f x)) l) ++ rest) = map f l ++ all_lines rest.
Proof.
  induction l as [|x l IH]; intros Hl; [done|]. cbn [map concat]. rewrite <- app_assoc, all_lines_line by (apply Hl; left).
  cbn [app]. rewrite IH; [done|]. intros y Hy. apply Hl. by right.
Qed.

(** A directive whose key is written in the code. *)
Definition plain_key (key : bytes) : bool :=
  match key with c :: _ => negb (space c) && negb (bool_decide (c ∈ [Byte.x23; Byte.x3b; Byte.x5b])) | [] => false end &&
  forallb (fun c => negb (bool_decide (c ∈ [BACKSLASH; Text.LF; Byte.x3d]))) key && bool_decide (strip key = key).
Lemma plain_key_not key c : plain_key key = true -> c ∈ [BACKSLASH; Text.LF; Byte.x3d] -> c ∉ key.
Proof.
  unfold plain_key. intros [[_ Hf]%andb_prop _]%andb_prop Hc Hin. rewrite forallb_forall in Hf.
  specialize (Hf c ltac:(by apply list_elem_of_In)). by rewrite bool_decide_true in Hf.
Qed.
Lemma skip_space_app a c b : space c = false -> skip_space (a ++ c :: b) = skip_space a ++ c :: b.
Proof. intros Hc. induction a as [|x a IH]; cbn [app skip_space]; [by rewrite Hc|]. by destruct (space x). Qed.
Lemma strip_first c s : space c = false -> exists s', strip (c :: s) = c :: s'.
Proof.
  intros Hc. unfold strip. cbn [skip_space]. rewrite Hc. cbn [rev]. rewrite skip_space_app by done.
  exists (rev (skip_space (rev s))). by rewrite rev_app_distr.
Qed.
Lemma strip_whole c s d : space c = false -> space d = false -> strip (c :: s ++ [d]) = c :: s ++ [d].
Proof.
  intros Hc Hd. unfold strip. cbn [skip_space]. rewrite Hc. change (c :: s ++ [d]) with ((c :: s) ++ [d]).
  rewrite rev_app_distr. cbn [rev app skip_space]. rewrite Hd. cbn [rev]. by rewrite rev_app_distr, rev_involutive.
Qed.

Lemma directive_closed key value : plain_key key = true -> Text.LF ∉ value -> goes_on false value = false ->
  closed (key ++ [Byte.x3d] ++ value).
Proof.
  intros Hk Hl Hg. split.
  - rewrite !elem_of_app, list_elem_of_singleton. intros [Hin|[Hin|Hin]]; [|by vm_compute in Hin|done].
    revert Hin. apply plain_key_not; [done|]. by right; left.
  - rewrite app_assoc, goes_on_plain; [done| |by destruct key].
    rewrite elem_of_app, list_elem_of_singleton. intros [Hin|Hin]; [|by vm_compute in Hin]. revert Hin. apply plain_key_not; [done|]. by left.
  - destruct key as [|c key]; [done|]. unfold plain_key in Hk. apply andb_prop in Hk as [[[Hs Hc]%andb_prop _]%andb_prop _].
    apply negb_true_iff in Hs, Hc. unfold comment. cbn [app skip_space]. rewrite Hs. apply bool_decide_eq_false in Hc.
    apply bool_decide_eq_false. intros Hin. apply Hc. apply elem_of_cons in Hin as [->|Hin]; [left|].
    apply list_elem_of_singleton in Hin as ->. right. left.
Qed.
Lemma directive_read section key value lines : plain_key key = true ->
  assignments section ((key ++ [Byte.x3d] ++ value) :: lines) = (section, key, strip value) :: assignments section lines.
Proof.
  intros Hk. pose proof (plain_key_not key Byte.x3d Hk ltac:(by right; right; left)) as Heq. cbn [assignments].
  assert (section_of (strip (key ++ [Byte.x3d] ++ value)) = None) as ->.
  { destruct key as [|c key]; [done|]. unfold plain_key in Hk. apply andb_prop in Hk as [[[Hs Hc]%andb_prop _]%andb_prop _].
    apply negb_true_iff in Hs, Hc. cbn [app]. destruct (strip_first c (key ++ Byte.x3d :: value) Hs) as [s' ->]. cbn [section_of].
    rewrite bool_decide_false; [done|]. intros ->. by vm_compute in Hc. }
  cbn [app]. rewrite TextLemmas.split_once_app by done. unfold plain_key in Hk. apply andb_prop in Hk as [_ Hs].
  apply bool_decide_eq_true in Hs. by rewrite Hs.
Qed.

(** *** Units *)
Inductive item := Heading (section : bytes) | Blank | Directive (key value : bytes).
Definition item_line (i : item) : bytes :=
  match i with Heading s => [Byte.x5b] ++ s ++ [Byte.x5d] | Blank => [] | Directive key value => key ++ [Byte.x3d] ++ value end.
Definition text (items : list item) : bytes := concat (map (fun i => line (item_line i)) items).
(** What it says. *)
Fixpoint meaning (section : bytes) (items : list item) : list (bytes * bytes * bytes) :=
  match items with
  | [] => []
  | Heading s :: items => meaning s items
  | Blank :: items => meaning section items
  | Directive key value :: items => (section, key, strip value) :: meaning section items
  end.
Definition fits (value : bytes) : Prop := (Text.LF ∉ value) /\ goes_on false value = false.
Definition heading_ok (s : bytes) : bool :=
  let l := [Byte.x5b] ++ s ++ [Byte.x5d] in
  bool_decide (Text.LF ∉ l) && negb (goes_on false l) && negb (comment l) && bool_decide (section_of (strip l) = Some s).
Definition item_ok (i : item) : Prop :=
  match i with Heading s => heading_ok s = true | Blank => True | Directive key value => plain_key key = true /\ fits value end.

Lemma read_text items : Forall item_ok items -> read (text items) = meaning [] items.
Proof.
  unfold read. intros Hi. generalize (@nil byte) at 1 3. induction Hi as [|i items Hok _ IH]; intros section; [done|].
  change (text (i :: items)) with (line (item_line i) ++ text items). fold (all_lines (line (item_line i) ++ text items)).
  assert (closed (item_line i)) as Hc.
  { destruct i as [s| |key value]; cbn [item_line item_ok] in *.
    - unfold heading_ok in Hok. apply andb_prop in Hok as [[[Hl Hg]%andb_prop Hc]%andb_prop _].
      apply bool_decide_eq_true in Hl. apply negb_true_iff in Hg, Hc. by split.
    - split; [apply not_elem_of_nil|done|done].
    - destruct Hok as [Hk [Hl Hg]]. by apply directive_closed. }
  rewrite all_lines_line by done. destruct i as [s| |key value]; cbn [item_line item_ok meaning] in *.
  - unfold heading_ok in Hok. apply andb_prop in Hok as [_ Hs]. apply bool_decide_eq_true in Hs. cbn [assignments]. rewrite Hs. apply IH.
  - apply IH.
  - rewrite directive_read by apply Hok. f_equal. apply IH.
Qed.

Definition service_items (description : bytes) (network : bool) (after : option bytes) (commands : list (list bytes)) : list item :=
  [Heading (str "Unit"); Directive (str "Description") description] ++
  (if network then [Directive (str "Wants") (str "network-online.target"); Directive (str "After") (str "network-online.target")] else []) ++
  match after with Some after => [Directive (str "After") after] | None => [] end ++
  [Blank; Heading (str "Service"); Directive (str "Type") (str "oneshot"); Directive (str "User") (str "root")] ++
  map (fun command => Directive (str "ExecStart") (command_line command)) commands.
Definition timer_items (description : bytes) (job : JobConfig) (calendar unit : bytes) : list item :=
  [Heading (str "Unit"); Directive (str "Description") description; Blank; Heading (str "Timer"); Directive (str "OnCalendar") calendar;
   Directive (str "Persistent") (if jc_persistent job then str "true" else str "false")] ++
  match jc_randomized_delay job with Some delay => [Directive (str "RandomizedDelaySec") delay] | None => [] end ++
  [Directive (str "Unit") unit; Blank; Heading (str "Install"); Directive (str "WantedBy") (str "timers.target")].

Lemma text_app a b : text (a ++ b) = text a ++ text b.
Proof. unfold text. by rewrite map_app, concat_app. Qed.
Lemma service_text d network after commands : service_unit d network after commands = text (service_items d network after commands).
Proof.
  unfold service_items. rewrite !text_app.
  assert (text (map (fun command => Directive (str "ExecStart") (command_line command)) commands) =
    concat (map (fun command => line (str "ExecStart=" ++ command_line command)) commands)) as ->
    by (unfold text; by rewrite map_map).
  unfold service_unit. destruct network, after as [a|]; unfold text; cbn [map concat item_line]; rewrite <- ?app_assoc, ?app_nil_r; done.
Qed.
Lemma timer_text d job calendar unit : timer_unit d job calendar unit = text (timer_items d job calendar unit).
Proof.
  unfold timer_items, timer_unit. rewrite !text_app. destruct (jc_randomized_delay job);
    unfold text; cbn [map concat item_line]; rewrite <- ?app_assoc, ?app_nil_r; done.
Qed.

(** *** What is written into them *)
Lemma no_control_line s : has_control s = false -> Text.LF ∉ s.
Proof.
  induction s as [|c s IH]; [intros _; apply not_elem_of_nil|]. cbn [has_control]. intros [[[Hc _]%orb_false_elim _]%orb_false_elim Hs]%orb_false_elim.
  rewrite not_elem_of_cons. split; [|by apply IH]. intros <-. by vm_compute in Hc.
Qed.
Lemma lossy_forall (P : byte -> Prop) s : Forall P Text.REPLACEMENT -> Forall P s -> Forall P (Text.utf8_lossy s).
Proof.
  intros Hr. remember (length s) as n eqn:Hn. revert s Hn. induction (lt_wf n) as [n _ IH]. intros s -> Hs.
  assert (forall r, (length r < length s)%nat -> Forall P r -> Forall P (Text.utf8_lossy r)) as IHr by (intros r Hl; by eapply IH).
  clear IH. destruct s as [|b s]; [done|]. cbn [Text.utf8_lossy]. cbn [length] in IHr. apply Forall_cons in Hs as [Hb Hs].
  repeat case_match; subst; cbn [length] in IHr;
    repeat match goal with H : Forall P (_ :: _) |- _ => apply Forall_cons in H as [? H] end;
    repeat (apply Forall_cons_2; [assumption|]); try (apply Forall_app_2; [assumption|]); try assumption;
    (apply IHr; [cbn [length]; lia|]); repeat (apply Forall_cons_2; [assumption|]); assumption.
Qed.
Lemma lossy_line s : Text.LF ∉ s -> Text.LF ∉ Text.utf8_lossy s.
Proof.
  intros Hs Hin. assert (Forall (fun c => c <> Text.LF) (Text.utf8_lossy s)) as Hf.
  - apply lossy_forall; [by repeat constructor|]. apply Forall_forall. intros c Hc ->. done.
  - rewrite Forall_forall in Hf. by apply (Hf _ Hin).
Qed.

(** What it takes for a service to say what it was given. *)
Definition one_line (s : bytes) : Prop := Text.LF ∉ s.
Ltac literal_line := unfold one_line; apply (bool_decide_unpack _); vm_compute; exact I.
Lemma app_line a b : one_line a -> one_line b -> one_line (a ++ b).
Proof. unfold one_line. rewrite elem_of_app. tauto. Qed.
Lemma escape_line e c s : e <> Text.LF -> c <> Text.LF -> one_line s -> one_line (escape_with e c s).
Proof.
  intros He Hc Hs Hin. apply list_elem_of_bind in Hin as (x & Hx & Hin). case_bool_decide.
  - apply elem_of_cons in Hx as [Hx|Hx%list_elem_of_singleton]; congruence.
  - apply list_elem_of_singleton in Hx as Hx. congruence.
Qed.
Lemma quote_line s : one_line s -> one_line (quote s).
Proof.
  intros Hs. unfold quote. apply app_line; [literal_line|]. apply app_line; [|literal_line].
  by repeat (apply escape_line; [done|done|]).
Qed.
Lemma command_line_line l : Forall one_line l -> one_line (command_line l).
Proof.
  unfold command_line. induction 1 as [|s l Hs Hl IH]; [apply not_elem_of_nil|]. destruct l as [|s' l].
  - by apply quote_line.
  - change (one_line (quote s ++ [SPACE] ++ Text.join [SPACE] (map quote (s' :: l)))).
    apply app_line; [by apply quote_line|]. apply app_line; [literal_line|done].
Qed.
Lemma command_line_ends l : l = [] \/ exists s, command_line l = QUOTE :: s ++ [QUOTE].
Proof.
  destruct l as [|a l]; [by left|]. right. unfold command_line. revert a. induction l as [|b l IH]; intros a.
  - unfold quote at 1. cbn [map Text.join]. unfold quote. by eexists.
  - destruct (IH b) as [s Hs]. change (exists t, quote a ++ SPACE :: Text.join [SPACE] (map quote (b :: l)) = QUOTE :: t ++ [QUOTE]).
    rewrite Hs. unfold quote. set (e := escape_with DOLLAR _ _). exists (e ++ [QUOTE] ++ SPACE :: QUOTE :: s). cbn [app]. f_equal.
    by rewrite <- !app_assoc.
Qed.
Lemma command_line_fits l : Forall one_line l -> fits (command_line l).
Proof.
  intros Hl. split; [by apply command_line_line|]. destruct (command_line_ends l) as [->|[s ->]]; [done|].
  change (QUOTE :: s ++ [QUOTE]) with ((QUOTE :: s) ++ [QUOTE]). by apply goes_on_last.
Qed.
Lemma command_line_strip l : strip (command_line l) = command_line l.
Proof. destruct (command_line_ends l) as [->|[s ->]]; [done|]. by apply strip_whole. Qed.

Lemma read_service d network after commands : fits d -> (forall a, after = Some a -> fits a) -> Forall (Forall one_line) commands ->
  read (service_unit d network after commands) =
    [(str "Unit", str "Description", strip d)] ++
    (if network then [(str "Unit", str "Wants", str "network-online.target"); (str "Unit", str "After", str "network-online.target")] else []) ++
    match after with Some after => [(str "Unit", str "After", strip after)] | None => [] end ++
    [(str "Service", str "Type", str "oneshot"); (str "Service", str "User", str "root")] ++
    map (fun command => (str "Service", str "ExecStart", command_line command)) commands.
Proof.
  intros Hd Ha Hc. rewrite service_text, read_text.
  - assert (meaning (str "Service") (map (fun command => Directive (str "ExecStart") (command_line command)) commands) =
      map (fun command => (str "Service", str "ExecStart", command_line command)) commands) as He.
    { clear Hc. induction commands as [|c commands IH]; [done|]. cbn [map meaning]. by rewrite command_line_strip, IH. }
    rewrite <- He. by destruct network, after.
  - unfold service_items. assert (Forall item_ok (map (fun command => Directive (str "ExecStart") (command_line command)) commands)).
    { apply Forall_map. eapply Forall_impl; [exact Hc|]. intros c Hl. split; [by vm_compute|by apply command_line_fits]. }
    repeat apply Forall_app_2; try done.
    + repeat constructor; try apply Hd.
    + destruct network; repeat constructor; literal_line.
    + destruct after as [a|]; repeat constructor; by apply Ha.
    + repeat constructor; literal_line.
Qed.

Lemma read_timer d job calendar unit : fits d -> fits calendar -> (forall delay, jc_randomized_delay job = Some delay -> fits delay) -> fits unit ->
  read (timer_unit d job calendar unit) =
    [(str "Unit", str "Description", strip d); (str "Timer", str "OnCalendar", strip calendar);
     (str "Timer", str "Persistent", if jc_persistent job then str "true" else str "false")] ++
    match jc_randomized_delay job with Some delay => [(str "Timer", str "RandomizedDelaySec", strip delay)] | None => [] end ++
    [(str "Timer", str "Unit", strip unit); (str "Install", str "WantedBy", str "timers.target")].
Proof.
  intros Hd Hc Hr Hu. rewrite timer_text, read_text.
  - unfold timer_items. by destruct (jc_randomized_delay job), (jc_persistent job).
  - unfold timer_items. repeat apply Forall_app_2.
    + repeat apply Forall_cons_2; try done. destruct (jc_persistent job); repeat constructor; literal_line.
    + destruct (jc_randomized_delay job); repeat constructor; by apply Hr.
    + repeat apply Forall_cons_2; try done. repeat constructor; literal_line.
Qed.
End SystemdSpec.

(** ** What an accepted configuration holds *)
Module ScheduleSpec.
Import Schedule SystemdSpec.

Lemma all_ok {A} (f : A -> result unit) l u : all f l = Ok u -> Forall (fun x => is_ok (f x) = true) l.
Proof. induction l as [|x l IH]; intros Ha; cbn [all] in Ha; [constructor|]. inv_ok. constructor; [by rewrite E|by apply IH]. Qed.
Lemma given_ok {A} (f : A -> result unit) o u x : given f o = Ok u -> o = Some x -> is_ok (f x) = true.
Proof. intros Hg ->. cbn in Hg. by rewrite Hg. Qed.
Lemma unit_safe_line s : is_ok (unit_safe s) = true -> one_line s.
Proof. unfold unit_safe. destruct (has_control s) eqn:Eh; [done|]. intros _. by apply no_control_line. Qed.
Lemma timer_safe_line s : is_ok (timer_safe s) = true -> one_line s.
Proof. unfold timer_safe. destruct (unit_safe s) eqn:Eu; [|done]. intros _. apply unit_safe_line. by rewrite Eu. Qed.
Lemma path_safe_line p : is_ok (unit_safe_path p) = true -> one_line (display p).
Proof. unfold unit_safe_path. destruct (utf8_valid p); [|done]. intros Hs%unit_safe_line. by apply lossy_line. Qed.

Lemma name_plain kind name : is_ok (Names.validate_name kind name) = true -> Forall (fun c => c <> BACKSLASH /\ c <> Text.LF) name.
Proof.
  unfold Names.validate_name. destruct name as [|c name]; [done|]. destruct (_ <? _); [done|]. destruct (Names.is_ascii_alphanumeric c); [|done].
  destruct (forallb Names.is_name_char (c :: name)) eqn:Ef; [|done]. intros _. apply Forall_forall. intros x Hx%list_elem_of_In.
  rewrite forallb_forall in Ef. specialize (Ef x Hx). split; intros ->; by vm_compute in Ef.
Qed.
Lemma goes_on_none s : BACKSLASH ∉ s -> Systemd.goes_on false s = false.
Proof. induction s as [|c s IH]; [done|]. intros [Hc Hs]%not_elem_of_cons. cbn [Systemd.goes_on]. rewrite bool_decide_false by done. by apply IH. Qed.
(** A name between two texts of the code. *)
Lemma name_fits kind name before after : is_ok (Names.validate_name kind name) = true ->
  Text.LF ∉ before ++ after -> BACKSLASH ∉ before ++ after -> fits (before ++ name ++ after).
Proof.
  intros Hn%name_plain Hl Hb. rewrite Forall_forall in Hn. split; [|apply goes_on_none].
  - intros [Hin|[Hin|Hin]%elem_of_app]%elem_of_app; [apply Hl, elem_of_app; by left| |apply Hl, elem_of_app; by right].
    by destruct (Hn _ Hin).
  - intros [Hin|[Hin|Hin]%elem_of_app]%elem_of_app; [apply Hb, elem_of_app; by left| |apply Hb, elem_of_app; by right].
    by destruct (Hn _ Hin).
Qed.

Lemma get_in name l d : get name l = Some d -> (name, d) ∈ l.
Proof.
  induction l as [|[n d'] l IH]; [done|]. cbn [get]. case_bool_decide; [|intros Hg; right; by apply IH]. intros [= ->]. subst. left.
Qed.

(** *** Jobs *)
Record accepted (destinations : list (bytes * DestinationConfig)) (job : JobConfig) : Prop := {
  ac_values : is_ok (check_values job) = true;
  ac_options : is_ok (check_options job) = true;
  ac_job : is_ok (check_job destinations job) = true;
}.
Lemma check_jobs_ok destinations jobs : forall names u, check_jobs destinations names jobs = Ok u ->
  Forall (accepted destinations) jobs /\ NoDup (map jc_name jobs) /\ (forall n, n ∈ map jc_name jobs -> n ∉ names).
Proof.
  induction jobs as [|job jobs IH]; intros names u Hc; cbn [check_jobs] in Hc.
  - split; [constructor|]. split; [constructor|]. intros n Hn. by apply elem_of_nil in Hn.
  - inv_ok. case_bool_decide as Hin; [done|]. inv_ok. destruct (IH _ _ Hc) as (Hj & Hd & Hn). split; [|split].
    + constructor; [|done]. split; by rewrite ?E, ?E0, ?E1.
    + constructor; [|done]. intros Hin'. apply (Hn _ Hin'). left.
    + intros n [->|Hn']%elem_of_cons; [done|]. specialize (Hn _ Hn'). rewrite not_elem_of_cons in Hn. tauto.
Qed.

(** The values of a job that go into its units. *)
Record job_lines (job : JobConfig) : Prop := {
  jl_source : Forall one_line (jc_source job);
  jl_dest : one_line (jc_dest job);
  jl_parent : forall v, jc_parent job = Some v -> one_line v;
  jl_mode : forall v, jc_mode job = Some v -> one_line v;
  jl_snapshot : forall v, jc_snapshot job = Some v -> one_line v;
  jl_compress : forall v, jc_compress job = Some v -> one_line v;
  jl_passphrase : forall v, jc_passphrase_file job = Some v -> one_line (display v);
  jl_calendar : one_line (jc_on_calendar job);
  jl_delay : forall v, jc_randomized_delay job = Some v -> one_line v;
  jl_chain : forall v, new_chain_calendar job = Some v -> one_line v;
}.
Lemma values_lines job : is_ok (check_values job) = true -> job_lines job.
Proof.
  intros Hv. destruct (check_values job) as [u|] eqn:Ev; [|done]. unfold check_values in Ev. inv_ok.
  apply all_ok in E, E0. rewrite Forall_forall in E. apply Forall_cons in E0 as [Hd E0].
  assert (Forall (fun v => one_line (default [] v)) [jc_parent job; jc_mode job; jc_snapshot job; jc_compress job]) as Ho.
  { change (Forall (fun s => is_ok (unit_safe s) = true) (map (default []) [jc_parent job; jc_mode job; jc_snapshot job; jc_compress job])) in E0.
    apply Forall_map in E0. eapply Forall_impl; [exact E0|]. intros s. apply unit_safe_line. }
  repeat (apply Forall_cons in Ho as [? Ho]). split.
  - apply Forall_forall. intros s Hs. by apply unit_safe_line, E.
  - by apply unit_safe_line.
  - intros s Hj. by rewrite Hj in *.
  - intros s Hj. by rewrite Hj in *.
  - intros s Hj. by rewrite Hj in *.
  - intros s Hj. by rewrite Hj in *.
  - intros s Hj. by apply path_safe_line, (given_ok _ _ _ _ E1).
  - apply timer_safe_line. by rewrite E2.
  - intros s Hj. by apply timer_safe_line, (given_ok _ _ _ _ E3).
  - intros s Hj. by apply timer_safe_line, (given_ok _ _ _ _ Ev).
Qed.
Lemma options_names job : is_ok (check_options job) = true ->
  is_ok (Names.validate_job_name (jc_name job)) = true /\ is_ok (Names.validate_set_name (jc_set job)) = true.
Proof.
  intros Ho. destruct (check_options job) as [u|] eqn:Eo; [|done]. unfold check_options in Eo. inv_ok.
  split; [by destruct (Names.validate_job_name (jc_name job))|by destruct (Names.validate_set_name (jc_set job))].
Qed.
Lemma types_line ty : ty ∈ TYPES -> one_line ty.
Proof. intros Ht. repeat (apply elem_of_cons in Ht as [->|Ht]; [literal_line|]). by apply elem_of_nil in Ht. Qed.
Lemma job_type destinations job : is_ok (check_job destinations job) = true -> jc_member_type job ∈ TYPES.
Proof.
  unfold check_job. destruct (jc_source job); [done|]. case_bool_decide; [done|]. case_bool_decide; [done|].
  case_bool_decide as Ht; [by intros _|done].
Qed.

(** *** Destinations *)
Record destination_lines (d : DestinationConfig) : Prop := {
  dl_uri : one_line (uri d);
  dl_identity : forall v, ds_identity d = Some v -> one_line (display v);
  dl_known_hosts : forall v, ds_known_hosts d = Some v -> one_line (display v);
}.
Lemma checked_destination d : is_ok (check_destination d) = true -> destination_lines d.
Proof.
  intros Hc. destruct (check_destination d) as [u|] eqn:Ed; [|done]. unfold check_destination in Ed. destruct (negb _); [done|]. inv_ok.
  apply all_ok in E. do 4 apply Forall_cons in E as [? E]. split.
  - unfold uri. repeat match goal with H : is_ok (unit_safe _) = true |- _ => apply unit_safe_line in H end.
    destruct (bool_decide _); [|done]. destruct (ds_host d); [|done]. destruct (ds_path d); [|done]. cbn [default] in *.
    apply app_line; [literal_line|]. apply app_line; [destruct (ds_user d); [apply app_line; [done|literal_line]|literal_line]|].
    by apply app_line.
  - intros s Hs. by apply path_safe_line, (given_ok _ _ _ _ E0).
  - intros s Hs. by apply path_safe_line, (given_ok _ _ _ _ Ed).
Qed.

Lemma validated config u : validate config = Ok u ->
  is_ok (check_daemon (cf_daemon config)) = true /\ (forall n d, get n (cf_destinations config) = Some d -> destination_lines d) /\
  Forall (accepted (cf_destinations config)) (cf_jobs config) /\ NoDup (map jc_name (cf_jobs config)).
Proof.
  unfold validate. intros Hv. inv_ok. split; [by rewrite E|]. apply all_ok in E0. rewrite Forall_forall in E0.
  destruct (check_jobs_ok _ _ _ _ Hv) as (Hj & Hd & _). split; [|done].
  intros n d Hg%get_in. apply checked_destination, (E0 _ Hg).
Qed.

(** *** Commands *)
Lemma to_decimal_line v : one_line (Text.to_decimal v).
Proof.
  unfold Text.to_decimal. generalize (S (Z.to_nat (Z.log2 (Z.max 1 v)))). intros n Hin. apply (proj1 (TextLemmas.rev_spec _ _)) in Hin. revert v Hin.
  induction n as [|n IH]; intros v Hin; cbn [Text.decimal_rev] in Hin; [by apply elem_of_nil in Hin|].
  apply elem_of_cons in Hin as [Hc|Hin]; [|destruct (v <? 10); [by apply elem_of_nil in Hin|by apply (IH (v / 10))]].
  apply (f_equal b2z) in Hc. pose proof (Z.mod_pos_bound v 10 ltac:(lia)). rewrite TextLemmas.b2z_digit in Hc by lia.
  change (b2z Text.LF) with 10 in Hc. lia.
Qed.
Lemma option_of_lines name o : one_line (str name) -> (forall v, o = Some v -> one_line v) -> Forall one_line (option_of name o).
Proof. intros Hn Ho. destruct o as [v|]; [|constructor]. repeat constructor; [done|by apply Ho]. Qed.
Lemma option_of_map_lines {A} name (f : A -> bytes) o : one_line (str name) -> (forall v, o = Some v -> one_line (f v)) ->
  Forall one_line (option_of name (f <$> o)).
Proof. intros Hn Ho. apply option_of_lines; [done|]. intros v Hv. apply fmap_Some in Hv as (x & Hx & ->). by apply Ho. Qed.

(** What else goes into the commands. *)
Record context_lines (c : CommandContext) : Prop := {
  xl_program : one_line (cc_program c);
  xl_destination : one_line (cc_destination c);
  xl_named : forall d, cc_named c = Some d -> destination_lines d;
  xl_cow : forall v, cc_lvm_cow_size c = Some v -> one_line v;
}.
Lemma passphrase_lines job : job_lines job -> Forall one_line (passphrase_option job).
Proof. intros Hj. unfold passphrase_option. destruct (jc_encrypt job); [|constructor]. apply option_of_map_lines; [literal_line|apply Hj]. Qed.
Lemma ssh_lines c : context_lines c -> Forall one_line (ssh_options c).
Proof.
  intros Hc. unfold ssh_options. destruct (cc_named c) as [d|] eqn:Ed; [|constructor]. pose proof (xl_named c Hc d Ed) as Hd.
  apply Forall_app_2; (apply option_of_map_lines; [literal_line|apply Hd]).
Qed.
Ltac known_lines := repeat (apply Forall_cons_2; [first [assumption | literal_line]|]); try apply Forall_nil_2.
Lemma backup_lines c job ty source : context_lines c -> job_lines job -> one_line (jc_set job) -> one_line ty -> one_line source ->
  Forall one_line (backup_command c job ty source).
Proof.
  intros Hc Hj Hs Ht Hso. pose proof (xl_program c Hc). pose proof (xl_destination c Hc). unfold backup_command.
  apply Forall_app_2; [known_lines|]. apply Forall_app_2.
  { case_bool_decide; [constructor|]. apply Forall_app_2.
    - apply option_of_lines; [literal_line|]. intros v [= <-]. destruct (jc_parent job) eqn:Ep; [by apply (jl_parent job Hj)|literal_line].
    - apply option_of_lines; [literal_line|]. intros v Hv. apply bind_Some in Hv as (r & _ & Hv). apply fmap_Some in Hv as (x & _ & ->).
      apply to_decimal_line. }
  do 3 (apply Forall_app_2; [apply option_of_lines; [literal_line|apply Hj]|]).
  apply Forall_app_2; [apply option_of_lines; [literal_line|apply Hc]|].
  apply Forall_app_2; [by apply passphrase_lines|]. apply Forall_app_2; [by apply ssh_lines|].
  destruct (jc_encrypt job); known_lines.
Qed.
Lemma commands_lines c job ty : context_lines c -> job_lines job -> one_line (jc_set job) -> one_line ty ->
  Forall (Forall one_line) (commands c job ty).
Proof.
  intros Hc Hj Hs Ht. unfold commands. apply Forall_app_2.
  - apply Forall_map. eapply Forall_impl; [apply (jl_source job Hj)|]. intros s Hso. by apply backup_lines.
  - destruct (_ ≫= _) as [keep|]; [|constructor]. apply Forall_cons_2; [|constructor]. unfold retention_command.
    pose proof (xl_program c Hc). pose proof (xl_destination c Hc). pose proof (to_decimal_line keep).
    apply Forall_app_2; [known_lines|]. apply Forall_app_2; [by apply passphrase_lines|by apply ssh_lines].
Qed.

(** *** Rendering *)
Lemma resolved config job : is_ok (check_job (cf_destinations config) job) = true -> exists d n, resolve_destination config job = Ok (d, n).
Proof.
  unfold check_job, resolve_destination. destruct (jc_source job); [done|]. case_bool_decide; [done|]. case_bool_decide; [done|].
  case_bool_decide; [|done]. cbn [negb]. destruct (_ && _); [done|]. destruct (get _ _) as [d|]; [|by do 2 eexists].
  case_bool_decide; [done|]. by do 2 eexists.
Qed.
Lemma resolved_line config job d n : (forall n d, get n (cf_destinations config) = Some d -> destination_lines d) -> one_line (jc_dest job) ->
  resolve_destination config job = Ok (d, n) -> one_line d.
Proof.
  intros Hd Hj. unfold resolve_destination. destruct (get _ _) as [x|] eqn:Eg; [|by intros [= <- _]].
  case_bool_decide; [done|]. intros [= <- _]. apply (Hd _ _ Eg).
Qed.

(** *** The promise *)
Definition service_says (unit description : bytes) (network : bool) (after : option bytes) (commands : list (list bytes)) : Prop :=
  exists execs, Forall2 (fun value command => Systemd.argv value = Some command) execs commands /\
  Systemd.read unit =
    [(str "Unit", str "Description", Systemd.strip description)] ++
    (if network then [(str "Unit", str "Wants", str "network-online.target"); (str "Unit", str "After", str "network-online.target")] else []) ++
    match after with Some after => [(str "Unit", str "After", Systemd.strip after)] | None => [] end ++
    [(str "Service", str "Type", str "oneshot"); (str "Service", str "User", str "root")] ++
    map (fun value => (str "Service", str "ExecStart", value)) execs.
(** A timer, unless a value that is copied as it is ends in a backslash. *)
Definition timer_says (unit description : bytes) (job : JobConfig) (calendar started : bytes) : Prop :=
  Systemd.goes_on false calendar = false -> (forall delay, jc_randomized_delay job = Some delay -> Systemd.goes_on false delay = false) ->
  Systemd.read unit =
    [(str "Unit", str "Description", Systemd.strip description); (str "Timer", str "OnCalendar", Systemd.strip calendar);
     (str "Timer", str "Persistent", if jc_persistent job then str "true" else str "false")] ++
    match jc_randomized_delay job with Some delay => [(str "Timer", str "RandomizedDelaySec", Systemd.strip delay)] | None => [] end ++
    [(str "Timer", str "Unit", Systemd.strip started); (str "Install", str "WantedBy", str "timers.target")].

Lemma service_holds d network after commands : fits d -> (forall a, after = Some a -> fits a) -> Forall (Forall one_line) commands ->
  service_says (service_unit d network after commands) d network after commands.
Proof.
  intros Hd Ha Hc. exists (map command_line commands). split.
  - clear Hc. induction commands as [|c l IH]; constructor; [apply argv_command_line|done].
  - rewrite read_service by done. by rewrite map_map.
Qed.
Lemma timer_holds d job calendar unit : fits d -> job_lines job -> one_line calendar -> fits unit ->
  timer_says (timer_unit d job calendar unit) d job calendar unit.
Proof.
  intros Hd Hj Hc Hu Hg Hr. apply read_timer; [done|by split| |done]. intros delay He. split; [by apply (jl_delay job Hj)|by apply Hr].
Qed.

(** The names of the code around a job's. *)
Lemma described_fits before name : is_ok (Names.validate_job_name name) = true -> Text.LF ∉ before -> BACKSLASH ∉ before -> fits (before ++ name).
Proof. intros Hn Hl Hb. rewrite <- (app_nil_r name). by apply (name_fits NameJob); rewrite ?app_nil_r. Qed.
Lemma unit_name_fits name : is_ok (Names.validate_job_name name) = true -> fits (unit_name name (str "service")).
Proof. intros Hn. apply (name_fits NameJob); [done|literal_line..]. Qed.
Lemma chain_name_fits name : is_ok (Names.validate_job_name name) = true -> fits (chain_unit_name name (str "service")).
Proof. intros Hn. apply (name_fits NameJob); [done|literal_line..]. Qed.
End ScheduleSpec.


(** ** The unit directory *)
Module MaterializeSpec.
Import Schedule Materialize.

(** Where a file of the unit directory is. *)
Definition place (dir : bytes) : bytes := match dir with [] => [] | _ => if Text.ends_with [Paths.SLASH] dir then dir else dir ++ [Paths.SLASH] end.
Lemma join_name dir c name : c <> Paths.SLASH -> Paths.join dir (c :: name) = place dir ++ c :: name.
Proof.
  intros Hc. unfold Paths.join, place. rewrite bool_decide_false by done. destruct dir as [|d dir]; [done|].
  destruct (Text.ends_with [Paths.SLASH] (d :: dir)); [done|]. by rewrite <- app_assoc.
Qed.
Lemma join_names dir job name : name ∈ names_of job -> Paths.join dir name = place dir ++ name.
Proof.
  intros Hn. unfold names_of in Hn. repeat (apply elem_of_cons in Hn as [->|Hn]; [by apply join_name|]). by apply elem_of_nil in Hn.
Qed.

Lemma last_differs a b (x y : bytes) : head (rev x) <> head (rev y) -> x <> [] -> y <> [] -> a ++ x <> b ++ y.
Proof.
  intros Hxy Hx Hy He. apply (f_equal (fun l => head (rev l))) in He. rewrite !rev_app_distr in He.
  destruct (rev x) as [|c x'] eqn:Ex; [by destruct x; [|apply (f_equal length) in Ex; rewrite length_rev in Ex]|].
  destruct (rev y) as [|d y'] eqn:Ey; [by destruct y; [|apply (f_equal length) in Ey; rewrite length_rev in Ey]|]. done.
Qed.
Lemma kinds_differ a b : a ++ str ".service" <> b ++ str ".timer".
Proof. by apply last_differs. Qed.
Lemma unit_names_differ j k j' k' : unit_name j k <> chain_unit_name j' k'.
Proof. by intros [=]. Qed.
Lemma unit_kinds_differ j j' : unit_name j (str "service") <> unit_name j' (str "timer").
Proof. unfold unit_name. intros He%app_inv_head. by apply kinds_differ in He. Qed.
Lemma chain_kinds_differ j j' : chain_unit_name j (str "service") <> chain_unit_name j' (str "timer").
Proof. unfold chain_unit_name. intros He%app_inv_head. by apply kinds_differ in He. Qed.
Lemma unit_name_inj j j' k : unit_name j k = unit_name j' k -> j = j'.
Proof. unfold unit_name. intros He%app_inv_head. by apply app_inv_tail in He. Qed.
Lemma chain_name_inj j j' k : chain_unit_name j k = chain_unit_name j' k -> j = j'.
Proof. unfold chain_unit_name. intros He%app_inv_head. by apply app_inv_tail in He. Qed.

#[local] Opaque unit_name chain_unit_name.
Lemma names_of_one j j' name : name ∈ names_of j -> name ∈ names_of j' -> j = j'.
Proof.
  unfold names_of. intros Hn Hn'. (* each pair of names: the same kind of unit of the two jobs, or different kinds *)
  repeat (apply elem_of_cons in Hn as [->|Hn]); try (by apply elem_of_nil in Hn);
    repeat (apply elem_of_cons in Hn' as [He|Hn']); try (by apply elem_of_nil in Hn');
    first [by apply unit_name_inj in He | by apply chain_name_inj in He | by apply unit_kinds_differ in He | symmetry in He; by apply unit_kinds_differ in He
          | by apply chain_kinds_differ in He | symmetry in He; by apply chain_kinds_differ in He
          | by apply unit_names_differ in He | symmetry in He; by apply unit_names_differ in He].
Qed.
Lemma names_of_distinct j : NoDup (names_of j).
Proof.
  unfold names_of. repeat constructor; rewrite ?elem_of_cons, ?elem_of_nil; intros Hn; destruct_or?; try done;
    first [by apply unit_kinds_differ in Hn | by apply chain_kinds_differ in Hn | by apply unit_names_differ in Hn].
Qed.

#[local] Transparent unit_name chain_unit_name.

(** *** Writing *)
Definition paths (dir : bytes) (files : Datatypes.list (bytes * bytes)) : Datatypes.list bytes := map (fun f => Paths.join dir (fst f)) files.
Definition put (dir : bytes) (m : gmap bytes bytes) (f : bytes * bytes) : gmap bytes bytes := <[Paths.join dir (fst f) := snd f]> m.

Lemma write_spec path contents h :
  match write path contents h with
  | (h', Ok _) => sh_files h' = <[path := contents]> (sh_files h)
  | (h', Err _) => forall p, p <> path -> sh_files h' !! p = sh_files h !! p
  end.
Proof.
  unfold write, step_bind, fault. destruct (head (sh_faults h)) as [[[kind [n|]]|]|]; cbn; try done.
  intros p Hp. by rewrite lookup_insert_ne.
Qed.
Lemma write_units_spec dir files : forall h,
  match write_units dir files h with
  | (h', Ok written) => written = paths dir files /\ sh_files h' = fold_left (put dir) files (sh_files h)
  | (h', Err _) => forall p, p ∉ paths dir files -> sh_files h' !! p = sh_files h !! p
  end.
Proof.
  induction files as [|[name contents] files IH]; intros h; [done|]. cbn [write_units]. unfold step_bind at 1.
  pose proof (write_spec (Paths.join dir name) contents h) as Hw.
  destruct (write _ _ h) as [h1 [u|e]]; [|intros p Hp; apply Hw; by apply not_elem_of_cons in Hp as [? _]].
  unfold step_bind. specialize (IH h1). destruct (write_units dir files h1) as [h2 [written|e]].
  - destruct IH as [-> Hf]. cbn. by rewrite Hf, Hw.
  - intros p [Hp Hps]%not_elem_of_cons. rewrite IH by done. rewrite Hw. by rewrite lookup_insert_ne.
Qed.
Lemma put_other dir files : forall m p, p ∉ paths dir files -> fold_left (put dir) files m !! p = m !! p.
Proof.
  induction files as [|f files IH]; intros m p Hp; [done|]. apply not_elem_of_cons in Hp as [Hp Hps]. cbn [fold_left].
  rewrite IH by done. unfold put. by rewrite lookup_insert_ne.
Qed.
Lemma put_all dir files m f : NoDup (paths dir files) -> f ∈ files -> fold_left (put dir) files m !! Paths.join dir (fst f) = Some (snd f).
Proof.
  revert m. induction files as [|g files IH]; intros m Hd Hf; [by apply elem_of_nil in Hf|]. apply NoDup_cons in Hd as [Hg Hd].
  cbn [fold_left]. apply elem_of_cons in Hf as [->|Hf]; [|by apply IH]. rewrite put_other by done. apply lookup_insert_eq.
Qed.

(** *** Which files *)
Lemma rendered_job config job cli u : render_job config job cli = Ok u -> ju_job u = jc_name job /\ map fst (unit_files u) `sublist_of` names_of (jc_name job).
Proof.
  unfold render_job. intros Hr. inv_ok. split; [done|]. unfold unit_files. cbn. destruct (new_chain_calendar job); cbn; [done|].
  do 2 apply sublist_skip. apply sublist_nil_l.
Qed.
Lemma rendered_names config cli jobs us : collectM (fun job => render_job config job cli) jobs = Ok us ->
  NoDup (map jc_name jobs) -> NoDup (us ≫= fun u => map fst (unit_files u)).
Proof.
  revert us. induction jobs as [|job jobs IH]; intros us Hc Hd; cbn [collectM] in Hc; inv_ok; [constructor|].
  apply NoDup_cons in Hd as [Hj Hd]. destruct (rendered_job _ _ _ _ E) as [_ Hs].
  change (NoDup (map fst (unit_files v) ++ (v0 ≫= fun u => map fst (unit_files u)))). apply NoDup_app. split; [|split].
  - eapply sublist_NoDup; [apply names_of_distinct|exact Hs].
  - intros name Hn Hb. apply list_elem_of_bind in Hb as (u & Hu & Hin). apply collectM_Forall2 in E0.
    apply list_elem_of_lookup in Hin as [i Hi]. destruct (Forall2_lookup_r _ _ _ _ _ E0 Hi) as (job' & Hj' & Hr). destruct (rendered_job _ _ _ _ Hr) as [_ Hs'].
    apply Hj. rewrite (names_of_one (jc_name job) (jc_name job') name); [by eapply list_elem_of_fmap_2, list_elem_of_lookup_2|exact (elem_of_sublist _ _ _ Hn Hs)|exact (elem_of_sublist _ _ _ Hu Hs')].
  - by apply IH.
Qed.

(** *** Removing *)

(** No call on a file that is there says that it is not. *)
Definition honest (h : SystemdHost) : Prop := Forall (fun f => forall n, f <> Some (NotFound, n)) (sh_faults h).

Lemma remove_file_spec path h : honest h ->
  match remove_file path h with
  | (h', Ok _) => is_Some (sh_files h !! path) /\ sh_files h' = base.delete path (sh_files h) /\ honest h'
  | (h', Err e) => sh_files h' = sh_files h /\ honest h' /\ (e = Io NotFound -> sh_files h !! path = None)
  end.
Proof.
  intros Hh. unfold remove_file. destruct (sh_files h !! path) as [c|] eqn:Ep; [|done]. unfold step_bind, fault, honest in *.
  destruct (sh_faults h) as [|f fs]; [by cbn|]. apply Forall_cons in Hh as [Hf Hfs]. destruct f as [[kind n]|]; cbn; [|done].
  split; [done|]. split; [done|]. intros [= ->]. by destruct (Hf n).
Qed.

(** Some of the files at [gone] are gone, the others are as they were. *)
Definition without (gone : Datatypes.list bytes) (m m' : gmap bytes bytes) : Prop :=
  forall p, m' !! p = m !! p \/ (p ∈ gone /\ m' !! p = None).
Lemma remove_units_spec ps : forall h, honest h ->
  match remove_units ps h with
  | (h', Ok removed) => (forall p, sh_files h' !! p = if bool_decide (p ∈ ps) then None else sh_files h !! p) /\
                        (forall p, p ∈ removed <-> p ∈ ps /\ is_Some (sh_files h !! p))
  | (h', Err _) => without ps (sh_files h) (sh_files h')
  end.
Proof.
  induction ps as [|path ps IH]; intros h Hh.
  - cbn. split; [done|]. intros p. rewrite elem_of_nil. tauto.
  - cbn [remove_units]. pose proof (remove_file_spec path h Hh) as Hr. destruct (remove_file path h) as [h1 [u|e]].
    + destruct Hr as (Hsome & Hf & Hh1). unfold step_bind. specialize (IH h1 Hh1). destruct (remove_units ps h1) as [h2 [removed|e]].
      * destruct IH as [Hp Hrem]. cbn [step_ret]. split.
        -- intros p. rewrite Hp, Hf. destruct (decide (p = path)) as [->|Hne].
           ++ rewrite lookup_delete_eq, (bool_decide_true (path ∈ path :: ps)) by left. by case_bool_decide.
           ++ rewrite lookup_delete_ne by done. by rewrite (bool_decide_ext (p ∈ path :: ps) (p ∈ ps)) by (rewrite elem_of_cons; tauto).
        -- intros p. rewrite !elem_of_cons, Hrem, Hf. destruct (decide (p = path)) as [->|Hne].
           ++ split; [intros _; split; [by left|done]|by left].
           ++ rewrite lookup_delete_ne by done. tauto.
      * intros p. destruct (IH p) as [He|[Hin He]]; [|right; split; [by right|done]]. rewrite He, Hf.
        destruct (decide (p = path)) as [->|Hne]; [right; split; [left|apply lookup_delete_eq]|left; by apply lookup_delete_ne].
    + destruct Hr as (Hf & Hh1 & Hn). assert (without (path :: ps) (sh_files h) (sh_files h1)) as Hw by (intros p; left; by rewrite Hf).
      destruct e as [[]| | | | | | | | | | | | | | |]; try done. specialize (IH h1 Hh1). specialize (Hn eq_refl).
      destruct (remove_units ps h1) as [h2 [removed|e]].
      * destruct IH as [Hp Hrem]. rewrite Hf in *. split.
        -- intros p. rewrite Hp. destruct (decide (p = path)) as [->|Hne].
           ++ rewrite Hn, (bool_decide_true (path ∈ path :: ps)) by left. by case_bool_decide.
           ++ by rewrite (bool_decide_ext (p ∈ path :: ps) (p ∈ ps)) by (rewrite elem_of_cons; tauto).
        -- intros p. rewrite Hrem, elem_of_cons. destruct (decide (p = path)) as [->|Hne]; [|tauto]. rewrite Hn. split; [tauto|].
           intros [_ [? ?]]. done.
      * intros p. destruct (IH p) as [He|[Hin He]]; [left; by rewrite He, Hf|right; split; [by right|done]].
Qed.

Lemma remove_spec job dir h : honest h -> let d := default DEFAULT_SYSTEMD_DIR dir in
  let names := map (Paths.join d) (names_of job) in
  match remove job dir h with
  | (h', Ok removed) => (forall p, sh_files h' !! p = if bool_decide (p ∈ names) then None else sh_files h !! p) /\
                        (forall p, p ∈ removed <-> p ∈ names /\ is_Some (sh_files h !! p))
  | (h', Err _) => without names (sh_files h) (sh_files h')
  end.
Proof.
  intros Hh d names. unfold remove, step_bind at 1, systemctl at 1. fold d. fold names.
  set (h1 := Build_SystemdHost _ _ _ _). change (sh_files h) with (sh_files h1). change (honest h1) in Hh.
  generalize (is_system_dir d && negb (bool_decide (default (Some true) (head (sh_answers h)) = None))). intros live.
  unfold step_bind at 1.
  assert (exists h2, (if live then step_bind (systemctl [str "disable"; str "--now"; unit_name job (str "timer"); chain_unit_name job (str "timer")]) (fun _ => step_ret tt)
    else step_ret tt) h1 = (h2, Ok tt) /\ sh_files h2 = sh_files h1 /\ honest h2) as (h2 & -> & <- & Hh2).
  { destruct live; [|by exists h1]. unfold step_bind, systemctl, step_ret. eexists. by split. }
  pose proof (remove_units_spec names h2 Hh2) as Hr. unfold step_bind at 1. destruct (remove_units names h2) as [h3 [removed|e]]; [|done].
  unfold step_bind. destruct live; [|done]. unfold run_systemctl, step_bind, systemctl. cbn iota beta.
  assert (without names (sh_files h2) (sh_files h3)) as Hw by (intros p; destruct Hr as [-> _]; case_bool_decide; [by right|by left]).
  by destruct (head (sh_answers h3)) as [[[]|]|].
Qed.

(** *** Materializing *)
Definition places (dir : bytes) (us : Datatypes.list JobUnits) : Datatypes.list bytes := paths dir (us ≫= unit_files).

Section config.
Context (read_to_string : bytes -> result bytes) (from_str : bytes -> option Config).

Lemma loaded_config_valid path config : load read_to_string from_str path = Ok config -> validate config = Ok tt.
Proof.
  unfold load. destruct (read_to_string path) as [text|]; [|done]. unfold parse. destruct (from_str text) as [c|]; [|done]. cbn [ok_or bind].
  destruct (validate c) as [[]|e] eqn:Ev; [by intros [= <-]|]. by destruct e.
Qed.
Lemma listed_distinct dir path cli us : list read_to_string from_str path cli = Ok us -> NoDup (places dir us).
Proof.
  unfold list. intros Hl. inv_ok. destruct (ScheduleSpec.validated v tt (loaded_config_valid _ _ E)) as (_ & _ & _ & Hd).
  pose proof (rendered_names _ _ _ _ Hl Hd) as Hn. apply collectM_Forall2 in Hl.
  assert (forall name, name ∈ (us ≫= fun u => map fst (unit_files u)) -> Paths.join dir name = place dir ++ name) as Hp.
  { intros name Hin. apply list_elem_of_bind in Hin as (u & Hin & Hu). apply list_elem_of_lookup in Hu as [i Hi].
    destruct (Forall2_lookup_r _ _ _ _ _ Hl Hi) as (job & _ & Hr). destruct (rendered_job _ _ _ _ Hr) as [_ Hs].
    by apply (join_names dir (jc_name job)), (elem_of_sublist _ _ _ Hin). }
  unfold places, paths. assert (map (fun f => Paths.join dir (fst f)) (us ≫= unit_files) = map (Paths.join dir) (us ≫= fun u => map fst (unit_files u))) as ->.
  { clear. induction us as [|u us IH]; [done|]. rewrite !bind_cons, !map_app, IH. by rewrite map_map. }
  rewrite (map_ext_in _ (app (place dir))) by (intros name Hin; by apply Hp, list_elem_of_In).
  by apply (NoDup_fmap_2 (app (place dir))).
Qed.

Lemma start_timers_files dir us start h : sh_files (fst (start_timers dir us start h)) = sh_files h.
Proof.
  unfold start_timers, run_systemctl, step_bind, systemctl. destruct (is_system_dir dir); [|done]. cbn.
  destruct (head (sh_answers h)) as [[[]|]|]; cbn; try done; destruct start; try done; cbn;
    by destruct (head (tail (sh_answers h))) as [[[]|]|].
Qed.

Lemma materialize_spec path cli dir dry_run daemon_reload start h : let d := default DEFAULT_SYSTEMD_DIR dir in
  match materialize read_to_string from_str path cli dir dry_run daemon_reload start h with
  | (h', Ok report) =>
    list read_to_string from_str path cli = Ok (sr_jobs report) /\
    (if dry_run then h' = h /\ sr_written report = []
     else sr_written report = places d (sr_jobs report) /\
          sh_files h' = fold_left (put d) (sr_jobs report ≫= unit_files) (sh_files h))
  | (h', Err _) =>
    match list read_to_string from_str path cli with
    | Err _ => h' = h
    | Ok us => if dry_run then h' = h else forall p, p ∉ places d us -> sh_files h' !! p = sh_files h !! p
    end
  end.
Proof.
  intros d. unfold materialize, list, lift. unfold step_bind at 1. destruct (load read_to_string from_str path) as [config|]; [|done].
  cbn [bind]. unfold step_bind at 1. destruct (collectM _ _) as [us|]; [|done]. fold d. destruct dry_run.
  - unfold step_bind. by rewrite andb_false_r.
  - unfold step_bind at 1 2, create_dir_all, step_bind at 1, fault. set (h1 := Build_SystemdHost _ _ _ _).
    change (sh_files h) with (sh_files h1). clearbody h1.
    destruct (default None (head (sh_faults h))) as [[kind n]|]; [done|]. cbn [step_ret].
    pose proof (write_units_spec d (us ≫= unit_files) h1) as Hw. destruct (write_units d _ h1) as [h2 [written|e]]; [|done].
    destruct Hw as [-> Hf]. rewrite andb_true_r. unfold step_bind.
    pose proof (start_timers_files d us start h2) as Hst.
    destruct daemon_reload; [|by split]. destruct (start_timers d us start h2) as [h3 [[[reloaded started] warnings]|e]]; cbn [fst] in Hst.
    + cbn. by rewrite Hst, Hf.
    + intros p Hp. rewrite Hst, Hf. by apply put_other.
Qed.
End config.
End MaterializeSpec.

(** Materializing a configuration writes exactly the units of its jobs, each under
    a name of its own, or nothing on a dry run, and touches no other file,
    failures included; removing a job takes away exactly the four files such a
    job may have and reports those that were there. *)
Theorem materialize_exact read_to_string from_str path cli dir dry_run daemon_reload start h :
  let d := default Schedule.DEFAULT_SYSTEMD_DIR dir in
  (match Materialize.materialize read_to_string from_str path cli dir dry_run daemon_reload start h with
   | (h', Ok report) =>
     Materialize.list read_to_string from_str path cli = Ok (sr_jobs report) /\
     if dry_run then h' = h
     else sr_written report = MaterializeSpec.places d (sr_jobs report) /\
       (forall u name contents, u ∈ sr_jobs report -> (name, contents) ∈ Schedule.unit_files u ->
          sh_files h' !! Paths.join d name = Some contents) /\
       (forall p, p ∉ MaterializeSpec.places d (sr_jobs report) -> sh_files h' !! p = sh_files h !! p)
   | (h', Err _) =>
     match Materialize.list read_to_string from_str path cli with
     | Err _ => h' = h
     | Ok us => forall p, dry_run = true \/ p ∉ MaterializeSpec.places d us -> sh_files h' !! p = sh_files h !! p
     end
   end) /\
  (forall job, MaterializeSpec.honest h -> let names := map (Paths.join d) (Materialize.names_of job) in
   match Materialize.remove job dir h with
   | (h', Ok removed) => (forall p, sh_files h' !! p = if bool_decide (p ∈ names) then None else sh_files h !! p) /\
                         (forall p, p ∈ removed <-> p ∈ names /\ is_Some (sh_files h !! p))
   | (h', Err _) => MaterializeSpec.without names (sh_files h) (sh_files h')
   end).
Proof.
  intros d. split; [|intros job Hh; by apply MaterializeSpec.remove_spec].
  pose proof (MaterializeSpec.materialize_spec read_to_string from_str path cli dir dry_run daemon_reload start h) as Hm. cbv zeta in Hm. fold d in Hm.
  destruct (Materialize.materialize _ _ _ _ _ _ _ _ h) as [h' [report|e]].
  - destruct Hm as [Hl Hm]. split; [done|]. destruct dry_run; [by destruct Hm|]. destruct Hm as [Hw Hf]. split; [done|]. rewrite Hf. split.
    + intros u name contents Hu Hin. apply (MaterializeSpec.put_all d _ _ (name, contents)).
      * by apply (MaterializeSpec.listed_distinct _ _ d _ _ _ Hl).
      * apply list_elem_of_bind. by exists u.
    + intros p Hp. by apply MaterializeSpec.put_other.
  - destruct (Materialize.list _ _ _ _) as [us|]; [|done]. intros p Hp. destruct dry_run; [by rewrite Hm|]. apply Hm. by destruct Hp.
Qed.
