(* ===== verification/Snapshots.v ===== *)
(** * Quiesced reads ([crates/lr-snapshot/src/freeze.rs], [probe.rs], [live_none.rs])

    Choosing a snapshot provider, and the freeze provider: a job that freezes a
    mounted filesystem while it reads, may be killed at any moment, and the
    deadman helpers that thaw the filesystem in its place. The code of the job
    is a program of calls; a step of the whole is one call of the job, one step
    of a helper, a timer that fires or time that passes. *)

From stdpp Require Import gmap relations.
From S2P Require Import Prelude Maps Text Core Sysfs Discovery.

Record SnapshotOpts := {
  so_provider : option bytes;
  so_allow_freeze : bool;
  so_freeze_timeout_secs : option Z;
  so_allow_inconsistent : bool;
  so_deadman_grace_secs : option Z;
  so_destination : option bytes;
  so_destination_remote : bool;
}.
Inductive Support := Yes | No (reason : string).

(** ** Choosing a provider *)
Inductive Provider := PROVIDER_BTRFS | PROVIDER_LVM | PROVIDER_OFFLINE | PROVIDER_FREEZE | PROVIDER_LIVE_NONE.
#[export] Instance provider_eq : EqDecision Provider.
Proof. solve_decision. Defined.

Record Decision := { dn_provider : Provider; dn_image_kind : ImageKind; dn_consistency : Consistency; dn_warnings : list string }.

Module Probe.
(** The names. *)
Definition name_of (p : Provider) : bytes :=
  match p with
  | PROVIDER_BTRFS => str "btrfs" | PROVIDER_LVM => str "lvm" | PROVIDER_OFFLINE => str "offline"
  | PROVIDER_FREEZE => str "freeze" | PROVIDER_LIVE_NONE => str "live-none"
  end.
Definition provider_id (name : bytes) : bytes := if bool_decide (name = str "none") then name_of PROVIDER_LIVE_NONE else name.
(** [filter(|name| *name != "auto")]. *)
Definition not_auto (o : option bytes) : option bytes := name ← o; if bool_decide (name = str "auto") then None else Some name.

Definition BOOT : list bytes := [str "/"; str "/boot"; str "/boot/efi"].
Definition is_running_root (layout : SourceLayout) : bool :=
  existsb (fun m => bool_decide (Text.utf8_lossy m ∈ BOOT)) (sl_mountpoints layout ++ (sl_partitions layout ≫= pl_mountpoints)).

Definition decide (layout : SourceLayout) (opts : SnapshotOpts) : result Decision :=
  let forced := provider_id <$> not_auto (so_provider opts) in
  let btrfs := match sl_fs layout with Some facts => bool_decide (fs_type facts = str "btrfs") | None => false end in
  let lvm := match sl_lvm layout with Some facts => lv_is_dm facts || lv_is_pv facts | None => false end in
  let partitions_busy := existsb (fun p => negb (bool_decide (pl_mountpoints p = [])) || negb (bool_decide (pl_holders p = []))) (sl_partitions layout) in
  let offline := Layouts.is_offline layout && negb partitions_busy in
  let mounted := negb (bool_decide (sl_mountpoints layout = [])) ||
                 existsb (fun p => negb (bool_decide (pl_mountpoints p = []))) (sl_partitions layout) in
  let is_root := is_running_root layout in
  let candidate p := match forced with None => true | Some name => bool_decide (name = name_of p) end in
  if btrfs && candidate PROVIDER_BTRFS then
    Ok {| dn_provider := PROVIDER_BTRFS; dn_image_kind := Stream; dn_consistency := PointInTime; dn_warnings := [] |}
  else if lvm && candidate PROVIDER_LVM then
    Ok {| dn_provider := PROVIDER_LVM; dn_image_kind := Block; dn_consistency := PointInTime; dn_warnings := [] |}
  else if offline && candidate PROVIDER_OFFLINE then
    Ok {| dn_provider := PROVIDER_OFFLINE; dn_image_kind := Block; dn_consistency := Offline; dn_warnings := [] |}
  else
    let freeze := mounted && candidate PROVIDER_FREEZE && (so_allow_freeze opts || bool_decide (forced = Some (name_of PROVIDER_FREEZE))) in
    let warnings := if freeze && is_root
                    then ["the freeze provider refuses the filesystem holding /; boot rescue media instead"%string] else [] in
    if freeze && negb is_root then
      Ok {| dn_provider := PROVIDER_FREEZE; dn_image_kind := Block; dn_consistency := Frozen;
            dn_warnings := ["writers on the source filesystem block for the whole read (quiesced, not a snapshot)"%string] |}
    else if so_allow_inconsistent opts && candidate PROVIDER_LIVE_NONE then
      Ok {| dn_provider := PROVIDER_LIVE_NONE; dn_image_kind := Block; dn_consistency := CNone;
            dn_warnings := warnings ++ ["reading a mounted device as-is: the image is flagged inconsistent (spec §D.2)"%string] |}
    else
      Err (NoConsistentMethod (
        (if bool_decide (forced = None) then [] else ["the requested provider '{name}' cannot handle this source; omit --snapshot"%string]) ++
        ["unmount the source and retry (offline consistency)"%string; "install the source on LVM or Btrfs for point-in-time snapshots"%string;
         "boot rescue media and run the statically linked CLI"%string] ++
        (if mounted && negb is_root then ["pass --allow-freeze to quiesce the filesystem instead (writers block)"%string] else []) ++
        ["pass --allow-inconsistent to accept a torn image"%string])).

Definition confirm (supports : Support) : result unit :=
  match supports with
  | Yes => Ok tt
  | No reason => Err (NoConsistentMethod ["{} refuses this source: {reason}"%string; "see `linuxreflect probe` for the alternatives"%string])
  end.
End Probe.

Module LiveNone.
Definition supports (src : SourceLayout) (opts : SnapshotOpts) : Support :=
  if negb (so_allow_inconsistent opts) then No "requires --allow-inconsistent"
  else if Layouts.is_offline src then No "the device is not mounted; the offline provider is consistent and faster"
  else
    match so_provider opts with
    | Some name => if bool_decide (name ∈ [str "live-none"; str "none"; str "auto"]) then Yes else No "another provider was requested"
    | None => Yes
    end.
Definition create (src : SourceLayout) (opts : SnapshotOpts) : result (bytes * Consistency) :=
  if negb (so_allow_inconsistent opts) then
    Err (NoConsistentMethod ["a live read of a mounted device is torn unless --allow-inconsistent is given"%string])
  else Ok (sl_device src, CNone).
End LiveNone.

(** ** The machine *)

(** A helper at its script: asleep until a time; at [ -f "$marker" ] with so
    many tries; reading the marker; at [fsfreeze -u]; removing the files;
    between two tries; at its end. *)
Inductive HelperAt :=
  | Sleeping (until : Z)
  | Testing (tries : Z)
  | Reading (tries : Z)
  | Thawing (tries : Z) (mountpoint : bytes)
  | Removing
  | Waiting (tries until : Z)
  | Gone (tries : Z).
Record Helper := { he_script : bytes; he_marker : bytes; he_at : HelperAt }.

(** The filesystem the job is about, the runtime directory, the transient
    timers with when they are due, and the helpers; when the first deadman was
    armed and when the filesystem was frozen. *)
Record Machine := {
  mc_now : Z;
  mc_mountpoint : bytes;
  mc_frozen : bool;
  mc_files : gmap bytes bytes;
  mc_timers : list (bytes * Z * Helper);
  mc_helpers : list Helper;
  mc_armed : option Z;
  mc_froze : option Z;
}.

(** What the provider asks of the system, one call each. *)
Inductive call :=
  | CreateNew (path contents : bytes)
  | RemoveFile (path : bytes)
  | SystemdRun (unit : bytes) (seconds : Z) (script marker : bytes)
  | Spawn (script marker : bytes) (seconds : Z)
  | OpenDir
  | FreezeFs
  | ThawFs
  | StopTimer (unit : bytes)
  | ResetFailed (unit : bytes)
  | Now.

Module Calls.
Definition tick (now : Z) (m : Machine) : Machine :=
  {| mc_now := now; mc_mountpoint := mc_mountpoint m; mc_frozen := mc_frozen m; mc_files := mc_files m; mc_timers := mc_timers m;
     mc_helpers := mc_helpers m; mc_armed := mc_armed m; mc_froze := mc_froze m |}.
Definition with_frozen (frozen : bool) (m : Machine) : Machine :=
  {| mc_now := mc_now m; mc_mountpoint := mc_mountpoint m; mc_frozen := frozen; mc_files := mc_files m; mc_timers := mc_timers m;
     mc_helpers := mc_helpers m; mc_armed := mc_armed m; mc_froze := if frozen then Some (mc_now m) else mc_froze m |}.
Definition with_files (f : gmap bytes bytes -> gmap bytes bytes) (m : Machine) : Machine :=
  {| mc_now := mc_now m; mc_mountpoint := mc_mountpoint m; mc_frozen := mc_frozen m; mc_files := f (mc_files m); mc_timers := mc_timers m;
     mc_helpers := mc_helpers m; mc_armed := mc_armed m; mc_froze := mc_froze m |}.
Definition with_timers (timers : list (bytes * Z * Helper)) (m : Machine) : Machine :=
  {| mc_now := mc_now m; mc_mountpoint := mc_mountpoint m; mc_frozen := mc_frozen m; mc_files := mc_files m; mc_timers := timers;
     mc_helpers := mc_helpers m; mc_armed := mc_armed m; mc_froze := mc_froze m |}.
Definition with_helpers (helpers : list Helper) (m : Machine) : Machine :=
  {| mc_now := mc_now m; mc_mountpoint := mc_mountpoint m; mc_frozen := mc_frozen m; mc_files := mc_files m; mc_timers := mc_timers m;
     mc_helpers := helpers; mc_armed := mc_armed m; mc_froze := mc_froze m |}.
Definition armed (m : Machine) : Machine :=
  {| mc_now := mc_now m; mc_mountpoint := mc_mountpoint m; mc_frozen := mc_frozen m; mc_files := mc_files m; mc_timers := mc_timers m;
     mc_helpers := mc_helpers m; mc_armed := Some (default (mc_now m) (mc_armed m)); mc_froze := mc_froze m |}.

(** One call; [fate] is how it fails, a file that could not be written in full
    with the bytes it got. A filesystem is frozen once, and thawed when frozen. *)
Definition exec (c : call) (fate : option (io_kind * option Z)) (m : Machine) : Machine * result Z :=
  match c, fate with
  | CreateNew path contents, None =>
    match mc_files m !! path with
    | Some _ => (m, Err (Io OtherIo))
    | None => (with_files <[path := contents]> m, Ok 0)
    end
  | CreateNew path contents, Some (kind, Some n) =>
    match mc_files m !! path with
    | Some _ => (m, Err (Io OtherIo))
    | None => (with_files <[path := ztake n contents]> m, Err (Io kind))
    end
  | RemoveFile path, None => (with_files (base.delete path) m, Ok 0)
  | SystemdRun unit seconds script marker, None =>
    (armed (with_timers (mc_timers m ++ [(unit, mc_now m + seconds, {| he_script := script; he_marker := marker; he_at := Testing 0 |})]) m), Ok 0)
  | Spawn script marker seconds, None =>
    (armed (with_helpers (mc_helpers m ++ [{| he_script := script; he_marker := marker; he_at := Sleeping (mc_now m + seconds) |}]) m), Ok 0)
  | OpenDir, None => (m, Ok 0)
  | FreezeFs, None => if mc_frozen m then (m, Err (Io OtherIo)) else (with_frozen true m, Ok 0)
  | ThawFs, None => if mc_frozen m then (with_frozen false m, Ok 0) else (m, Err (Io OtherIo))
  | StopTimer unit, None => (with_timers (List.filter (fun t => negb (bool_decide (fst (fst t) = unit))) (mc_timers m)) m, Ok 0)
  | ResetFailed _, None => (m, Ok 0)
  | Now, _ => (m, Ok (mc_now m))
  | _, Some (kind, _) => (m, Err (Io kind))
  end.
End Calls.

(** ** Programs *)
Inductive prog (A : Type) :=
  | Ret (a : A)
  | Do (c : call) (k : result Z -> prog A).
Arguments Ret {A} a.
Arguments Do {A} c k.

Fixpoint prog_bind {A B} (p : prog A) (f : A -> prog B) : prog B :=
  match p with
  | Ret a => f a
  | Do c k => Do c (fun r => prog_bind (k r) f)
  end.
Notation "'run*' x := p 'in' f" := (prog_bind p (fun x => f)) (at level 10, x pattern, p at level 100, f at level 200) : lr_scope.
(** [?] in a program. *)
Definition prog_try {A B} (p : prog (result A)) (f : A -> prog (result B)) : prog (result B) :=
  run* r := p in match r with Ok a => f a | Err e => Ret (Err e) end.
Notation "'try*' x := p 'in' f" := (prog_try p (fun x => f)) (at level 10, x pattern, p at level 100, f at level 200) : lr_scope.
Definition ask (c : call) : prog (result Z) := Do c (fun r => Ret r).

(** ** The freeze provider *)

(** What the refusal looks at: devices of paths, the working directory, what
    exists; and where a marker can be put, and programs found. *)
Record FreezeView := {
  fv_dev : bytes -> option Z;
  fv_current_dir : option bytes;
  fv_exists : bytes -> bool;
  fv_writable : bytes -> bool;
  fv_which : bytes -> bool;
}.
Record FreezeGuard := { fg_job : bytes; fg_marker : bytes; fg_dir : bool; fg_thawed : bool }.
Record FreezeHealth := { fh_started : Z; fh_timeout : Z }.

Module Freeze.
Definition ID : bytes := str "freeze".
Definition DEFAULT_TIMEOUT_SECS : Z := 300.
Definition DEFAULT_GRACE_SECS : Z := 30.
Definition FORBIDDEN_PATHS : list bytes := [str "/var/log"; str "/var/lib/linuxreflect"; str "/run"; str "/tmp"].

Definition mountpoint_of (src : SourceLayout) : option bytes :=
  match sl_mountpoints src with
  | m :: _ => Some m
  | [] => head (sl_partitions src ≫= fun p => match pl_mountpoints p with m :: _ => [m] | [] => [] end)
  end.

(** [Path::parent] of a path without a slash at its end, and [ancestors]. *)
Definition parent (p : bytes) : option bytes :=
  match Text.rsplit_once Paths.SLASH p with
  | Some ([], []) => None
  | Some ([], _) => Some [Paths.SLASH]
  | Some (d, _) => Some d
  | None => match p with [] => None | _ => Some [] end
  end.
Fixpoint ancestors (fuel : nat) (p : bytes) : list bytes :=
  match fuel with
  | O => [p]
  | S fuel => p :: match parent p with Some d => ancestors fuel d | None => [] end
  end.

Section view.
Context (v : FreezeView).

(** The loop over the paths that must stay writable. *)
Definition forbidden (mountpoint : bytes) (path : bytes) : option string :=
  let text := Text.utf8_lossy mountpoint in
  let inside := bool_decide (text = str "/") || Text.starts_with (text ++ str "/") path in
  if bool_decide (text = path) || inside then Some "{} contains {forbidden}, which must stay writable"%string
  else
    match fv_dev v mountpoint, fv_dev v path with
    | Some a, Some b => if a =? b then Some "the filesystem being frozen contains {forbidden}"%string else None
    | _, _ => None
    end.

Definition refusal (src : SourceLayout) (opts : SnapshotOpts) : option string :=
  let forced := Probe.not_auto (so_provider opts) in
  if match forced with Some name => negb (bool_decide (name = ID)) | None => false end then
    Some "another provider ({name}) was requested"%string
  else if negb (so_allow_freeze opts) && negb (bool_decide (forced = Some ID)) then
    Some "freezing blocks every writer on the source; pass --allow-freeze"%string
  else
    match mountpoint_of src with
    | None => Some "the source is not mounted; use the offline provider"%string
    | Some mountpoint =>
      if Probe.is_running_root src then Some "{} holds the running system"%string
      else
        match head (omap (forbidden mountpoint) FORBIDDEN_PATHS) with
        | Some reason => Some reason
        | None =>
          let dev := fv_dev v mountpoint in
          if match dev, fv_current_dir v with Some a, Some cwd => bool_decide (fv_dev v cwd = Some a) | _, _ => false end then
            Some "the working directory {} is on the filesystem being frozen"%string
          else if so_destination_remote opts then None
          else
            match so_destination opts with
            | None => Some "freeze needs the destination to prove it is on another filesystem"%string
            | Some destination =>
              let existing := default destination (find (fv_exists v) (ancestors (length destination) destination)) in
              match dev, fv_dev v existing with
              | Some a, Some b =>
                if a =? b then Some "the destination {} is on the filesystem being frozen; the backup would deadlock"%string else None
              | _, _ => Some "cannot stat {} or {}"%string
              end
            end
        end
    end.
Definition supports (src : SourceLayout) (opts : SnapshotOpts) : Support :=
  match refusal src opts with Some reason => No reason | None => Yes end.

Definition marker_path (job : bytes) : result bytes :=
  match find (fv_writable v) [str "/run/linuxreflect"; str "/tmp"] with
  | Some dir => Ok (Paths.join dir (job ++ str ".freeze"))
  | None => Err (Io OtherIo)
  end.
(** [with_extension("thaw")]: a marker has an extension. *)
Definition helper_path (marker : bytes) : bytes :=
  match Text.rsplit_once Byte.x2e marker with Some (stem, _) => stem | None => marker end ++ str ".thaw".

(** ** The deadman's files *)
Definition HELPER_PATH : bytes := str "/usr/local/sbin:/usr/local/bin:/usr/sbin:/usr/bin:/sbin:/bin".
Definition lines_of (l : list bytes) : bytes := concat (map (fun s => s ++ [Text.LF]) l).
(** The script; what it does is [Helpers.helper_step]. *)
Definition thaw_helper (path : bytes) : bytes := lines_of [
  str "#!/bin/sh";
  str "# LinuxReflect freeze deadman: thaw the filesystem the marker names";
  str "# unless the job removed the marker after thawing it itself.";
  str "PATH='" ++ path ++ str "'";
  str "marker=$1";
  str "[ -n " ++ [Byte.x22] ++ str "$2" ++ [Byte.x22] ++ str " ] && sleep " ++ [Byte.x22] ++ str "$2" ++ [Byte.x22];
  str "tries=0";
  str "while [ -f " ++ [Byte.x22] ++ str "$marker" ++ [Byte.x22] ++ str " ] && [ " ++ [Byte.x22] ++ str "$tries" ++ [Byte.x22] ++ str " -lt 30 ]; do";
  str "    mountpoint=$(cat " ++ [Byte.x22] ++ str "$marker" ++ [Byte.x22] ++ str ")";
  str "    if fsfreeze -u " ++ [Byte.x22] ++ str "$mountpoint" ++ [Byte.x22] ++ str "; then";
  str "        rm -f " ++ [Byte.x22] ++ str "$marker" ++ [Byte.x22] ++ str " " ++ [Byte.x22] ++ str "$0" ++ [Byte.x22];
  str "        exit 0";
  str "    fi";
  str "    tries=$((tries + 1))";
  str "    sleep 1";
  str "done"].

Definition remove_marker (marker : bytes) : prog unit :=
  run* _ := ask (RemoveFile marker) in
  run* _ := ask (RemoveFile (helper_path marker)) in
  Ret tt.
Definition disarm_deadman (job : bytes) : prog unit :=
  let unit := str "lr-thaw-" ++ job in
  run* _ := ask (StopTimer unit) in
  run* _ := ask (ResetFailed unit) in
  Ret tt.
Definition write_deadman_files (mountpoint marker path : bytes) : prog (result bytes) :=
  if bool_decide (Byte.x27 ∈ path) then Ret (Err (Unsupported "the helper PATH may not contain a quote"))
  else
    try* _ := ask (CreateNew marker (mountpoint ++ [Text.LF])) in
    let helper := helper_path marker in
    run* created := ask (CreateNew helper (thaw_helper path)) in
    match created with
    | Ok _ => Ret (Ok helper)
    | Err e => run* _ := remove_marker marker in Ret (Err e)
    end.
Definition arm_deadman (job mountpoint marker : bytes) (after : Z) : prog (result unit) :=
  try* helper := write_deadman_files mountpoint marker HELPER_PATH in
  let seconds := Z.max after 1 in
  run* _ := (if fv_which v (str "systemd-run") then run* _ := ask (SystemdRun (str "lr-thaw-" ++ job) seconds helper marker) in Ret tt
             else Ret tt) in
  try* _ := ask (Spawn helper marker seconds) in
  Ret (Ok tt).

(** ** Freezing and thawing *)
Definition create (job : bytes) (src : SourceLayout) (opts : SnapshotOpts) : prog (result (FreezeGuard * FreezeHealth)) :=
  match refusal src opts with
  | Some _ =>
    Ret (Err (NoConsistentMethod ["freeze refused: {reason}"%string; "unmount the filesystem for offline consistency"%string;
                                  "install the source on LVM or Btrfs and snapshot it"%string]))
  | None =>
    match mountpoint_of src with
    | None => Ret (Err (Unsupported "freeze needs a mounted source, but none was found"))
    | Some mountpoint =>
      let timeout := default DEFAULT_TIMEOUT_SECS (so_freeze_timeout_secs opts) in
      let grace := default DEFAULT_GRACE_SECS (so_deadman_grace_secs opts) in
      match marker_path job with
      | Err e => Ret (Err e)
      | Ok marker =>
        try* _ := arm_deadman job mountpoint marker (timeout + grace) in
        run* dir := ask OpenDir in
        match dir with
        | Err e => run* _ := remove_marker marker in Ret (Err e)
        | Ok _ =>
          run* froze := ask FreezeFs in
          match froze with
          | Err e =>
            run* _ := remove_marker marker in
            run* _ := disarm_deadman job in
            Ret (Err e)
          | Ok _ =>
            try* started := ask Now in
            Ret (Ok ({| fg_job := job; fg_marker := marker; fg_dir := true; fg_thawed := false |},
                     {| fh_started := started; fh_timeout := timeout |}))
          end
        end
      end
    end
  end.
End view.

(** [FreezeHealth::check], at a time. *)
Definition check (health : FreezeHealth) (now : Z) : result unit :=
  if fh_timeout health <? now - fh_started health then Err FreezeTimeout else Ok tt.

(** [Drop for FreezeGuard]. *)
Definition drop (guard : FreezeGuard) : prog unit :=
  if fg_thawed guard then Ret tt
  else
    run* thawed := (if fg_dir guard then run* r := ask ThawFs in Ret (is_ok r) else Ret true) in
    if thawed : bool then
      run* _ := remove_marker (fg_marker guard) in
      disarm_deadman (fg_job guard)
    else Ret tt.
End Freeze.

(** ** The whole: the job, the helpers, the timers and time *)
Inductive Job :=
  | Creating (p : prog (result (FreezeGuard * FreezeHealth)))
  | Holding (guard : FreezeGuard) (health : FreezeHealth)
  | Dropping (p : prog unit)
  | Over
  | Killed.

Module Helpers.
(** [$(cat "$marker")]: the line ends at the end are gone. *)
Fixpoint skip_line_ends (reversed : bytes) : bytes :=
  match reversed with c :: rest => if bool_decide (c = Text.LF) then skip_line_ends rest else reversed | [] => [] end.
Definition chomp (s : bytes) : bytes := rev (skip_line_ends (rev s)).

(** A step of the script; whether [fsfreeze] works for it. *)
Definition helper_step (works : bool) (h : Helper) (m : Machine) : option (Machine * HelperAt) :=
  match he_at h with
  | Sleeping until => if until <=? mc_now m then Some (m, Testing 0) else None
  | Testing tries =>
    if negb (bool_decide (mc_files m !! he_marker h = None)) && (tries <? 30) then Some (m, Reading tries) else Some (m, Gone tries)
  | Reading tries => Some (m, Thawing tries (chomp (default [] (mc_files m !! he_marker h))))
  | Thawing tries mountpoint =>
    if works && bool_decide (mountpoint = mc_mountpoint m) && mc_frozen m then Some (Calls.with_frozen false m, Removing)
    else Some (m, Waiting (tries + 1) (mc_now m + 1))
  | Removing => Some (Calls.with_files (fun f => base.delete (he_script h) (base.delete (he_marker h) f)) m, Gone 0)
  | Waiting tries until => if until <=? mc_now m then Some (m, Testing tries) else None
  | Gone _ => None
  end.
Definition at_ (h : Helper) (a : HelperAt) : Helper := {| he_script := he_script h; he_marker := he_marker h; he_at := a |}.

Inductive machine_step : Machine -> Machine -> Prop :=
  | passes now m : mc_now m <= now -> machine_step m (Calls.tick now m)
  | fires l unit due h l' m : mc_timers m = l ++ (unit, due, h) :: l' -> due <= mc_now m ->
      machine_step m (Calls.with_timers (l ++ l') (Calls.with_helpers (mc_helpers m ++ [h]) m))
  | helps l h l' works m m' a : mc_helpers m = l ++ h :: l' -> helper_step works h m = Some (m', a) ->
      machine_step m (Calls.with_helpers (l ++ at_ h a :: l') m').

Inductive step : Job * Machine -> Job * Machine -> Prop :=
  | creates c k fate m m' r : Calls.exec c fate m = (m', r) -> step (Creating (Do c k), m) (Creating (k r), m')
  | created guard health m : step (Creating (Ret (Ok (guard, health))), m) (Holding guard health, m)
  | refused e m : step (Creating (Ret (Err e)), m) (Over, m)
  | releases guard health m : step (Holding guard health, m) (Dropping (Freeze.drop guard), m)
  | drops c k fate m m' r : Calls.exec c fate m = (m', r) -> step (Dropping (Do c k), m) (Dropping (k r), m')
  | dropped m : step (Dropping (Ret tt), m) (Over, m)
  | killed j m : step (j, m) (Killed, m)
  | others j m m' : machine_step m m' -> step (j, m) (j, m').

(** Before the job: nothing of it is there, and the filesystem is not frozen. *)
Record before (mountpoint : bytes) (m : Machine) : Prop := {
  bf_mountpoint : mc_mountpoint m = mountpoint;
  bf_frozen : mc_frozen m = false;
  bf_timers : mc_timers m = [];
  bf_helpers : mc_helpers m = [];
  bf_armed : mc_armed m = None;
  bf_froze : mc_froze m = None;
}.
End Helpers.

(** ** Reasoning about a program among helpers *)
Module Rely.
Import Helpers.
Section rely.
Context (I : Machine -> Prop).
Hypothesis I_stable : forall m m', I m -> machine_step m m' -> I m'.

(** What the helpers, the timers and time leave as it is. *)
Definition stable (K : Machine -> Prop) : Prop := forall m m', I m -> machine_step m m' -> K m -> K m'.

(** From [K], [p] keeps [I] and ends in [Q], whatever happens between its calls. *)
Fixpoint ok {A} (p : prog A) (K : Machine -> Prop) (Q : A -> Machine -> Prop) : Prop :=
  match p with
  | Ret a => forall m, I m -> K m -> Q a m
  | Do c k => exists R, (forall r, stable (R r)) /\
      (forall m fate m' r, I m -> K m -> Calls.exec c fate m = (m', r) -> I m' /\ R r m') /\ forall r, ok (k r) (R r) Q
  end.

Lemma ok_weaken {A} (p : prog A) : forall (K K' : Machine -> Prop) Q, (forall m, I m -> K m -> K' m) -> ok p K' Q -> ok p K Q.
Proof.
  destruct p as [a|c k]; intros K K' Q HK; cbn [ok]; [by eauto|]. intros (R & Hs & Hc & Hk). exists R. split; [done|]. split; [|done].
  intros m fate m' r HI Hm. by apply Hc, HK.
Qed.
Lemma ok_post {A} (p : prog A) : forall K (Q Q' : A -> Machine -> Prop), (forall a m, I m -> Q a m -> Q' a m) -> ok p K Q -> ok p K Q'.
Proof.
  induction p as [a|c k IH]; intros K Q Q' HQ; cbn [ok]; [by eauto|]. intros (R & Hs & Hc & Hk). exists R. split; [done|]. split; [done|].
  intros r. by eapply IH.
Qed.
Lemma ok_bind {A B} (p : prog A) (f : A -> prog B) : forall K Q S, ok p K Q -> (forall a, ok (f a) (Q a) S) -> ok (prog_bind p f) K S.
Proof.
  induction p as [a|c k IH]; intros K Q S; cbn [ok prog_bind].
  - intros Hp Hf. by eapply ok_weaken, Hf.
  - intros (R & Hs & Hc & Hk) Hf. exists R. split; [done|]. split; [done|]. intros r. by eapply IH.
Qed.
Lemma ok_try {A B} (p : prog (result A)) (f : A -> prog (result B)) K Q (S : result B -> Machine -> Prop) : ok p K Q ->
  (forall e m, I m -> Q (Err e) m -> S (Err e) m) -> (forall a, ok (f a) (Q (Ok a)) S) -> ok (prog_try p f) K S.
Proof. intros Hp He Hf. eapply ok_bind; [exact Hp|]. intros [a|e]; [apply Hf|]. cbn. by apply He. Qed.
Lemma ok_ask c (K : Machine -> Prop) (R : result Z -> Machine -> Prop) : (forall r, stable (R r)) ->
  (forall m fate m' r, I m -> K m -> Calls.exec c fate m = (m', r) -> I m' /\ R r m') -> ok (ask c) K R.
Proof. intros Hs Hc. exists R. split; [done|]. split; [done|]. by intros r m. Qed.

(** A state of the whole in which the job is where its program allows. *)
Definition sound {A} (p : prog A) (Q : A -> Machine -> Prop) (m : Machine) : Prop := exists K : Machine -> Prop, stable K /\ K m /\ ok p K Q.
Lemma sound_call {A} c (k : result Z -> prog A) Q fate m m' r : I m -> sound (Do c k) Q m -> Calls.exec c fate m = (m', r) ->
  I m' /\ sound (k r) Q m'.
Proof.
  intros HI (K & Hs & HK & R & HR & Hc & Hk) He. destruct (Hc m fate m' r HI HK He) as [HI' Hr]. split; [done|].
  exists (R r). by repeat split.
Qed.
Lemma sound_others {A} (p : prog A) Q m m' : I m -> sound p Q m -> machine_step m m' -> sound p Q m'.
Proof. intros HI (K & Hs & HK & Hp) Hm. exists K. split; [done|]. split; [by eapply Hs|done]. Qed.
Lemma sound_ret {A} (a : A) Q m : I m -> sound (Ret a) Q m -> Q a m.
Proof. intros HI (K & _ & HK & Hp). by apply Hp. Qed.
End rely.
End Rely.

(** ** What the freeze provider keeps *)
Module FreezeSpec.
Import Calls Helpers Rely.

Section job.
Context (mountpoint marker : bytes) (T : Z).
Hypothesis Hmount : Helpers.chomp (mountpoint ++ [Text.LF]) = mountpoint.

Definition marked (m : Machine) : Prop := mc_files m !! marker = Some (mountpoint ++ [Text.LF]).
(** A helper that is about to thaw the filesystem, or has failed to thirty times. *)
Definition watching (h : Helper) : Prop :=
  match he_at h with Thawing _ m => m = mountpoint | Removing => False | Gone tries => 30 <= tries | _ => True end.
Definition asleep (until : Z) (h : Helper) : Prop := exists u, he_at h = Sleeping u /\ until <= u.

(** What every call and every step keeps. *)
Record Inv (m : Machine) : Prop := {
  in_mountpoint : mc_mountpoint m = mountpoint;
  in_frozen : mc_frozen m = true -> exists f a, mc_froze m = Some f /\ mc_armed m = Some a /\
    (f < a + T -> marked m /\ exists h, h ∈ mc_helpers m /\ watching h);
  in_removing : forall h, h ∈ mc_helpers m -> he_at h = Removing -> mc_frozen m = false /\ mc_froze m <> None;
  in_asleep : forall a, mc_armed m = Some a -> mc_now m < a + T ->
    Forall (asleep (a + T)) (mc_helpers m) /\ Forall (fun t => a + T <= snd (fst t)) (mc_timers m);
  in_markers : Forall (fun h => he_marker h = marker) (mc_helpers m) /\
    Forall (fun t => he_marker (snd t) = marker /\ he_at (snd t) = Testing 0) (mc_timers m);
  in_none : mc_armed m = None -> mc_helpers m = [] /\ mc_timers m = [];
  in_past : forall a, mc_armed m = Some a -> a <= mc_now m;
}.

Lemma helper_now works h m m' a : helper_step works h m = Some (m', a) ->
  mc_now m' = mc_now m /\ mc_mountpoint m' = mc_mountpoint m /\ mc_timers m' = mc_timers m /\ mc_helpers m' = mc_helpers m /\
  mc_armed m' = mc_armed m /\ mc_froze m' = mc_froze m.
Proof. unfold helper_step. intros He. repeat case_match; simplify_eq; by repeat split. Qed.
(** Only a thaw changes whether the filesystem is frozen, only the end of the script the files. *)
Lemma helper_frozen works h m m' a : helper_step works h m = Some (m', a) ->
  mc_frozen m' = mc_frozen m \/ (mc_frozen m = true /\ mc_frozen m' = false /\ a = Removing).
Proof.
  unfold helper_step. intros He. repeat case_match; simplify_eq; try by left. bprop. right. by destruct (mc_frozen m).
Qed.
Lemma helper_files works h m m' a : helper_step works h m = Some (m', a) -> he_at h = Removing \/ mc_files m' = mc_files m.
Proof. unfold helper_step. intros He. repeat case_match; simplify_eq; by (left + right). Qed.
Lemma helper_removing works h m m' a : helper_step works h m = Some (m', a) -> a = Removing -> mc_frozen m = true /\ mc_frozen m' = false.
Proof. unfold helper_step. intros He ->. repeat case_match; simplify_eq. bprop. by destruct (mc_frozen m). Qed.
Lemma helper_asleep works h m until : asleep until h -> mc_now m < until -> helper_step works h m = None.
Proof. intros (u & Ha & Hu) Hn. unfold helper_step. rewrite Ha. by rewrite (proj2 (Z.leb_gt u (mc_now m))) by lia. Qed.
Lemma helper_watching works h m m' a : he_marker h = marker -> watching h -> marked m -> helper_step works h m = Some (m', a) ->
  mc_frozen m' = true -> watching (at_ h a).
Proof.
  intros Hm Hw Hf Hs Hz. unfold helper_step in Hs. unfold watching in *. cbn [at_ he_at]. destruct (he_at h) eqn:Eh; try done.
  - by case_match; simplify_eq.
  - rewrite Hm, Hf in Hs. cbn in Hs. destruct (Z.ltb_spec tries 30); simplify_eq; [done|lia].
  - rewrite Hm, Hf in Hs. cbn in Hs. simplify_eq. exact Hmount.
  - case_match; simplify_eq; done.
  - by case_match; simplify_eq.
Qed.

Lemma Inv_helps l h l' works m m' a : Inv m -> mc_helpers m = l ++ h :: l' -> helper_step works h m = Some (m', a) ->
  Inv (with_helpers (l ++ at_ h a :: l') m').
Proof.
  intros [Hmp Hfr Hre Has Hma Hno Hpa] Hh Hs. destruct (helper_now _ _ _ _ _ Hs) as (En & Ep & Et & _ & Ea & Ef).
  assert (h ∈ mc_helpers m) as Hin by (rewrite Hh, elem_of_app; right; left).
  assert (he_marker h = marker) as Hmk by (by apply (proj1 (Forall_forall _ _) (proj1 Hma))).
  split; cbn.
  - by rewrite Ep.
  - intros Hz. destruct (helper_frozen _ _ _ _ _ Hs) as [Hf|(_ & Hf & _)]; [|congruence]. rewrite Hz in Hf.
    destruct (Hfr (eq_sym Hf)) as (f & t & Hff & Hft & Hw). exists f, t. rewrite Ea, Ef. split; [done|]. split; [done|]. intros Hlt.
    destruct (Hw Hlt) as [Hmark (w & Hwin & Hww)].
    assert (marked m') as Hmark'.
    { destruct (helper_files _ _ _ _ _ Hs) as [Hr|He]; [|unfold marked; by rewrite He]. destruct (Hre h Hin Hr). congruence. }
    split; [done|]. rewrite Hh in Hwin. apply elem_of_app in Hwin as [Hwin|[->|Hwin]%elem_of_cons].
    + exists w. by split; [apply elem_of_app; left|].
    + exists (at_ h a). split; [apply elem_of_app; right; left|]. exact (helper_watching _ _ _ _ _ Hmk Hww Hmark Hs Hz).
    + exists w. by split; [apply elem_of_app; right; right|].
  - intros x Hx Hxr. destruct (helper_frozen _ _ _ _ _ Hs) as [Hf|(Hf & Hf' & _)].
    + rewrite Hf, Ef. apply elem_of_app in Hx as [Hx|[->|Hx]%elem_of_cons].
      * apply (Hre x); [rewrite Hh; apply elem_of_app; by left|done].
      * destruct (helper_removing _ _ _ _ _ Hs Hxr). congruence.
      * apply (Hre x); [rewrite Hh; apply elem_of_app; right; by right|done].
    + split; [done|]. rewrite Ef. destruct (Hfr Hf) as (f & t & -> & _). done.
  - intros t Ht Hlt. rewrite Ea in Ht. rewrite En in Hlt. destruct (Has t Ht Hlt) as [Hall _]. rewrite Forall_forall in Hall.
    by rewrite (helper_asleep works h m (t + T) (Hall _ Hin) Hlt) in Hs.
  - destruct Hma as [Hm1 Hm2]. rewrite Hh in Hm1. apply Forall_app in Hm1 as [Hm1 Hm1']. apply Forall_cons in Hm1' as [Hm0 Hm1'].
    rewrite Et. split; [|done]. apply Forall_app_2; [done|]. by apply Forall_cons_2.
  - intros Hn. rewrite Ea in Hn. destruct (Hno Hn) as [He _]. rewrite He in Hh. by destruct l.
  - intros t Ht. rewrite Ea in Ht. rewrite En. by apply Hpa.
Qed.

Lemma Inv_stable m m' : Inv m -> machine_step m m' -> Inv m'.
Proof.
  intros HI Hstep. revert HI. destruct Hstep as [now m1 Hnow|l unit due h l' m1 Ht Hd|l h l' works m1 m2 a Hh Hs]; intros HI;
    [| |exact (Inv_helps _ _ _ _ _ _ _ HI Hh Hs)].
  - destruct HI as [Hmp Hfr Hre Has Hma Hno Hpa]. split; cbn; try done.
    + intros a Ha Hlt. apply Has; [done|lia].
    + intros a Ha. specialize (Hpa a Ha). lia.
  - destruct HI as [Hmp Hfr Hre Has Hma Hno Hpa]. destruct Hma as [Hm1 Hm2]. rewrite Ht in Hm2.
    apply Forall_app in Hm2 as [Hm2 Hm3]. apply Forall_cons in Hm3 as [[Hmk Hat] Hm3]. split; cbn.
    + done.
    + intros Hz. destruct (Hfr Hz) as (f & t & Hf & Ha & Hw). exists f, t. split; [done|]. split; [done|]. intros Hlt.
      destruct (Hw Hlt) as [Hmark (w & Hin & Hww)]. split; [done|]. exists w. split; [apply elem_of_app; by left|done].
    + intros x [Hx|Hx%list_elem_of_singleton]%elem_of_app Hxr; [by apply (Hre x)|]. subst x. cbn in Hat. congruence.
    + intros a Ha Hlt. destruct (Has a Ha Hlt) as [_ Hall]. rewrite Ht in Hall. apply Forall_app in Hall as [_ Hall].
      apply Forall_cons in Hall as [Hdue _]. cbn in Hdue. lia.
    + split; [apply Forall_app_2; [done|by repeat constructor]|by apply Forall_app_2].
    + intros Hn. destruct (Hno Hn) as [_ He]. rewrite He in Ht. by destruct l.
    + done.
Qed.

(** *** What the job knows at its places *)

(** Not frozen so far; frozen and thawed again. *)
Definition calm (m : Machine) : Prop := mc_froze m = None /\ mc_frozen m = false.
Definition thawed (m : Machine) : Prop := mc_froze m <> None /\ mc_frozen m = false.
(** The marker is written; the deadman is armed; the filesystem is frozen until the deadman is due. *)
Definition written (m : Machine) : Prop := calm m /\ mc_armed m = None /\ marked m.
Definition arming (m : Machine) : Prop := calm m /\ (forall a, mc_armed m = Some a -> mc_now m < a + T -> marked m) /\ (mc_armed m = None -> marked m).
Definition guarded (m : Machine) : Prop := calm m /\ exists a, mc_armed m = Some a /\ mc_helpers m <> [] /\ (mc_now m < a + T -> marked m).
Definition holding (m : Machine) : Prop := exists f a, mc_froze m = Some f /\ mc_armed m = Some a /\ (mc_now m < a + T -> mc_frozen m = true).

Abbreviation stable := (Rely.stable Inv).

(** What a step of the machine does, by kind. *)
Lemma step_facts m m' : Inv m -> machine_step m m' -> mc_froze m' = mc_froze m /\ mc_armed m' = mc_armed m /\ mc_now m <= mc_now m' /\
  (mc_frozen m = false -> mc_frozen m' = false) /\
  (forall a, mc_armed m = Some a -> mc_now m' < a + T -> mc_files m' = mc_files m /\ mc_frozen m' = mc_frozen m) /\
  (mc_armed m = None -> mc_files m' = mc_files m) /\ (mc_helpers m <> [] -> mc_helpers m' <> []).
Proof.
  intros HI Hstep. revert HI. destruct Hstep as [now m1 Hnow|l unit due h l' m1 Ht Hd|l h l' works m1 m2 a Hh Hs]; intros HI.
  - cbn. repeat split; try done; lia.
  - cbn. repeat split; try done; intros _ He. by destruct (mc_helpers m1).
  - destruct (helper_now _ _ _ _ _ Hs) as (En & _ & _ & _ & Ea & Ef). cbn. rewrite Ef, Ea, En.
    assert (h ∈ mc_helpers m1) as Hin by (rewrite Hh, elem_of_app; right; left).
    split; [done|]. split; [done|]. split; [lia|]. split; [|split; [|split]].
    + intros Hf. destruct (helper_frozen _ _ _ _ _ Hs) as [->|(Hf' & _)]; congruence.
    + intros t Ht Hlt. destruct (in_asleep m1 HI t Ht Hlt) as [Hall _]. rewrite Forall_forall in Hall.
      by rewrite (helper_asleep works h m1 (t + T) (Hall _ Hin) Hlt) in Hs.
    + intros Hn. destruct (in_none m1 HI Hn) as [He _]. rewrite He in Hin. by apply elem_of_nil in Hin.
    + intros _ He. by destruct l.
Qed.

Lemma calm_stable : stable calm.
Proof. intros m m' HI Hs [Hf Hz]. destruct (step_facts m m' HI Hs) as (Ef & _ & _ & Ez & _). split; [by rewrite Ef|by apply Ez]. Qed.
Lemma thawed_stable : stable thawed.
Proof. intros m m' HI Hs [Hf Hz]. destruct (step_facts m m' HI Hs) as (Ef & _ & _ & Ez & _). split; [by rewrite Ef|by apply Ez]. Qed.
Lemma any_stable : stable (fun _ => True).
Proof. by intros. Qed.
Lemma written_stable : stable written.
Proof.
  intros m m' HI Hs (Hc & Ha & Hm). destruct (step_facts m m' HI Hs) as (_ & Ea & _ & _ & _ & Efi & _).
  split; [by apply (calm_stable m)|]. split; [by rewrite Ea|]. unfold marked. by rewrite Efi.
Qed.
Lemma arming_stable : stable arming.
Proof.
  intros m m' HI Hs (Hc & Ha & Hn). destruct (step_facts m m' HI Hs) as (_ & Ea & En & _ & Ed & Efi & _).
  split; [by apply (calm_stable m)|]. rewrite Ea. split.
  - intros a Hj Hlt. destruct (Ed a Hj Hlt) as [He _]. unfold marked. rewrite He. apply (Ha a Hj). lia.
  - intros Hj. unfold marked. rewrite Efi by done. by apply Hn.
Qed.
Lemma guarded_stable : stable guarded.
Proof.
  intros m m' HI Hs (Hc & a & Ha & Hh & Hm). destruct (step_facts m m' HI Hs) as (_ & Ea & En & _ & Ed & _ & Eh).
  split; [by apply (calm_stable m)|]. exists a. rewrite Ea. split; [done|]. split; [by apply Eh|].
  intros Hlt. destruct (Ed a Ha Hlt) as [He _]. unfold marked. rewrite He. apply Hm. lia.
Qed.
Lemma holding_stable : stable holding.
Proof.
  intros m m' HI Hs (f & a & Hf & Ha & Hz). destruct (step_facts m m' HI Hs) as (Ef & Ea & En & _ & Ed & _).
  exists f, a. rewrite Ef, Ea. split; [done|]. split; [done|]. intros Hlt. destruct (Ed a Ha Hlt) as [_ ->]. apply Hz. lia.
Qed.

(** *** Calls on a filesystem that is not frozen *)
Lemma Inv_files f m : Inv m -> mc_frozen m = false -> Inv (with_files f m).
Proof. intros [] Hz. split; cbn; try done. congruence. Qed.
Lemma Inv_stop (keep : bytes * Z * Helper -> bool) m : Inv m -> Inv (with_timers (List.filter keep (mc_timers m)) m).
Proof.
  intros [Hmp Hfr Hre Has Hma Hno Hpa].
  assert (forall P : bytes * Z * Helper -> Prop, Forall P (mc_timers m) -> Forall P (List.filter keep (mc_timers m))) as Hf.
  { intros P HP. rewrite Forall_forall in HP |- *. intros x Hx%list_elem_of_In. apply filter_In in Hx as [Hx _]. by apply HP, list_elem_of_In. }
  split; cbn; try done.
  - intros a Ha Hlt. destruct (Has a Ha Hlt) as [H1 H2]. split; [done|by apply Hf].
  - destruct Hma as [H1 H2]. split; [done|by apply Hf].
  - intros Hn. destruct (Hno Hn) as [-> ->]. done.
Qed.

(** An assertion about when it was frozen only, with the filesystem not frozen. *)
Definition quiet (K : Machine -> Prop) : Prop := stable K /\ (forall m, K m -> mc_frozen m = false) /\
  (forall m f, K m -> K (with_files f m)) /\ (forall m l, K m -> K (with_timers l m)).
Lemma calm_quiet : quiet calm.
Proof. split; [exact calm_stable|]. split; [by intros m []|]. by split. Qed.
Lemma thawed_quiet : quiet thawed.
Proof. split; [exact thawed_stable|]. split; [by intros m []|]. by split. Qed.

Lemma ok_remove_file path K : quiet K -> ok Inv (ask (RemoveFile path)) K (fun _ => K).
Proof.
  intros (Hs & Hz & Hf & _). apply ok_ask; [done|]. intros m fate m' r HI HK He. cbn in He.
  destruct fate as [[kind n]|]; simplify_eq; [done|]. split; [by apply Inv_files, Hz|by apply Hf].
Qed.
Lemma ok_remove_marker K : quiet K -> ok Inv (Freeze.remove_marker marker) K (fun _ => K).
Proof.
  intros HK. unfold Freeze.remove_marker. eapply ok_bind; [by apply ok_remove_file|]. intros ?.
  eapply ok_bind; [by apply ok_remove_file|]. by intros r m.
Qed.
Lemma ok_disarm job K : quiet K -> ok Inv (Freeze.disarm_deadman job) K (fun _ => K).
Proof.
  intros (Hs & _ & _ & Ht). unfold Freeze.disarm_deadman.
  eapply ok_bind; [apply (ok_ask _ _ _ (fun _ => K)); [done|]|intros ?].
  - intros m fate m' r HI HK He. cbn in He. destruct fate as [[kind n]|]; simplify_eq; [done|]. split; [by apply Inv_stop|by apply Ht].
  - eapply ok_bind; [apply (ok_ask _ _ _ (fun _ => K)); [done|]|by intros r m].
    intros m fate m' r HI HK He. cbn in He. by destruct fate as [[kind n]|]; simplify_eq.
Qed.
End job.
End FreezeSpec.
