(* ===== verification/StoreScenarios.v ===== *)
(** * Store scenarios

    A small backup volume on a mounted disk, with a link planted in its set and
    the set of another machine beside it, and a server without extensions that
    loses replies, a file of known hosts, an exported file and a scheduled job: the properties of
    the destinations, of the mount policy, of the set lock, of host keys, of
    the NBD server and of the unit files on them. *)

From stdpp Require Import gmap relations.
From S2P Require Import Prelude Maps Text Core Steps Destination Sysfs MountPolicy Volume Local LocalSpec LocalConfined Leases Publish Sftp KnownHosts Exports Nbd Schedule.

(** Lock records as their created time and their lease, a byte each. *)
Module LockText.
#[export] Instance json : LockJson := {
  lock_to_json r := [z2b (lk_created r); z2b (lk_ttl_secs r)];
  lock_from_json b :=
    match b with
    | [created; ttl] =>
      Some {| lk_owner := {| lo_host_id := []; lo_pid := 0 |}; lk_created := b2z created; lk_ttl_secs := b2z ttl; lk_token := [] |}
    | _ => None
    end;
}.
End LockText.
#[local] Existing Instance LockText.json.

(** ** The machine *)
Module BackupDisk.
Definition mount_table : bytes :=
  Text.str "21 1 8:1 / / rw - ext4 /dev/sda1 rw" ++ [Byte.x0a] ++ Text.str "22 21 8:17 / /b rw - xfs /dev/sdb1 rw" ++ [Byte.x0a].
Definition policy : RequiredMount :=
  {| qm_path := Text.str "/b"; qm_source := Text.str "/dev/sdb1"; qm_fs_type := Text.str "xfs" |}.

(** Everything below [/b] that is asked for is a directory there. *)
Definition view : MountView := {|
  mv_current_dir := Ok (Text.str "/");
  mv_lstat _ := Ok tt;
  mv_canonicalize p := Ok p;
  mv_metadata _ := Some (Ok true);
  mv_fdinfo p := Ok (Text.str (if Text.starts_with (Text.str "/b") p then "mnt_id:22" else "mnt_id:21"));
  mv_mountinfo := Ok mount_table;
|}.

Definition s : bytes := Text.str "s".
Definition a : bytes := Text.str "a".
Definition d : bytes := Text.str "d".
Definition b : bytes := Text.str "b".
Definition x : bytes := Text.str "x".
Definition other : bytes := Text.str "t".

Definition nodes : gmap path node := list_to_map [
  ([], NDir); ([s], NDir); ([s; a], NFile 1 (Text.str "one")); ([s; d], NDir); ([s; d; b], NFile 2 (Text.str "two"));
  ([s; x], NLink); ([other], NDir); ([other; a], NFile 3 (Text.str "three"))].

Definition volume : Volume := {|
  vo_nodes := nodes; vo_next_ino := 4; vo_flocked := []; vo_faults := []; vo_random := [repeat Byte.x00 16];
  vo_now := 100; vo_ticks := []; vo_mounts := view; vo_lease := None;
|}.
Definition destination : LocalDestination :=
  {| ld_root := Text.str "/b"; ld_set_name := s; ld_required_mount := Some policy |}.
Definition owner : LockOwner := {| lo_host_id := Text.str "h"; lo_pid := 7 |}.

Example names_opened : Local.set_fd destination false volume = (volume, Ok [s]).
Proof. vm_compute. reflexivity. Qed.
Example names_listed : snd (Local.list_set destination volume) = Ok [a; Text.str "d/b"].
Proof. vm_compute. reflexivity. Qed.
Example mount_accepted : MountPolicy.check_path view policy (Text.str "/b/s") = Ok tt.
Proof. vm_compute. reflexivity. Qed.
(** A file reached through the planted link. *)
Definition through_link : bytes := Text.str "x/y".
End BackupDisk.

(** ** Witnesses *)
Lemma local_destination_lawful_witness :
  exists p, Volumes.normal_components (Text.str "d/b") = Some p /\
    LocalListing.found_at (vo_nodes BackupDisk.volume) [ld_set_name BackupDisk.destination] p.
Proof.
  apply (proj1 (proj2 (local_destination_lawful BackupDisk.destination BackupDisk.owner) BackupDisk.volume BackupDisk.volume
    [BackupDisk.s] [BackupDisk.a; Text.str "d/b"] BackupDisk.names_opened BackupDisk.names_listed (Text.str "d/b"))).
  right. left.
Defined.


(** In the contest the second breaker, which took the lock from the first, is the
    only one to pass. *)
Lemma lease_passes_one_witness :
  exists w, rtc Leases.step Leases.contested w /\ Leases.passes w 1 /\ forall i, Leases.passes w i -> i = 1%nat.
Proof.
  destruct lease_passes_one as [Hone (w & Hr & (p & q & _ & Hq & _ & Hphase) & Hpath & _)].
  assert (Leases.passes w 1) as Hp by (exists q, 2; auto).
  exists w. split; [exact Hr|]. split; [exact Hp|]. intros i Hi. apply (Hone Leases.contested w i 1%nat); [|exact Hr|exact Hi|exact Hp].
  split; [repeat constructor|]. intros ino Hino. injection Hino as <-. reflexivity.
Defined.

Lemma required_mount_exact_witness : exists id, MountPolicy.visible_mount BackupDisk.view [Text.str "b"; Text.str "s"] = Ok id.
Proof.
  destruct (proj1 (required_mount_exact BackupDisk.view BackupDisk.policy (Text.str "/b/s")) BackupDisk.mount_accepted)
    as (_ & _ & required & destination & id & _ & _ & _ & _ & Hd & _ & Hv & _).
  exists id. injection Hd as Hd. rewrite <- Hd in Hv. exact Hv.
Defined.

(** ** A server that loses replies *)
Module LossyServer.
(** Its files, whether there is a session, and which replies to renames get lost. *)
Record server := { sv_files : Memory.mem; sv_session : bool; sv_lost : list bool }.

Definition with_files (files : Memory.mem) (s : server) : server :=
  {| sv_files := files; sv_session := sv_session s; sv_lost := sv_lost s |}.
Definition with_session (up : bool) (s : server) : server :=
  {| sv_files := sv_files s; sv_session := up; sv_lost := sv_lost s |}.

Definition stat (p : bytes) (s : server) : server * answer Metadata :=
  (s, match Memory.find_file (sv_files s) p with
      | Some b => Replied {| md_size := Some (zlen b); md_dir := false |}
      | None => Failed (SeStatus StNoSuchFile)
      end).
Definition move (from to : bytes) (s : server) : server * answer unit :=
  match Memory.find_file (sv_files s) from, Memory.find_file (sv_files s) to with
  | Some b, None =>
    ({| sv_files := Memory.put to b (Memory.without from (sv_files s)); sv_session := sv_session s; sv_lost := tail (sv_lost s) |},
     if default false (head (sv_lost s)) then Failed SeTimeout else Replied tt)
  | _, _ => (s, Failed (SeStatus StFailure))
  end.

#[export] Instance requests : SftpServer server := {
  connected := sv_session;
  connect_async s := (with_session true s, Ok tt);
  drop_session := with_session false;
  extension _ _ := None;
  metadata := stat;
  create_dir _ s := (s, Failed (SeStatus StFailure));
  fsync_open _ s := (s, Failed (SeStatus StFailure));
  fsync _ s := (s, Failed (SeStatus StFailure));
  close_handle _ s := s;
  request_rename := move;
  extended _ _ s := (s, Replied (Some StFailure));
  remove_file p s := (with_files (Memory.without p (sv_files s)) s, Replied tt);
  pause _ s := s;
  random_id s := (s, Ok (repeat Byte.x00 16));
  error_text _ := [];
}.

#[export] Instance laws : ServerLaws server.
Proof.
  refine (@Build_ServerLaws server requests (fun s => Memory.find_file (sv_files s)) _ _ _ _ _ _ _ _ _ _ _ _ _ _ _); cbn; try done.
  - intros p s md. destruct (Memory.find_file (sv_files s) p) as [b|]; [|done]. intros [= <-]. by exists b.
  - intros p s. by destruct (Memory.find_file (sv_files s) p).
  - intros from to s m Hf Ht. unfold move. destruct (Memory.find_file (sv_files s) from); [|done].
    destruct (Memory.find_file (sv_files s) to); [done|]. cbn. by rewrite Memory.find_put, decide_False, Memory.find_without.
  - intros from to s Hne. unfold move. destruct (Memory.find_file (sv_files s) from) as [b|] eqn:Ef; [|by left].
    destruct (Memory.find_file (sv_files s) to) eqn:Et; [left; cbn; by rewrite Ef, Et|]. right. cbn.
    rewrite !Memory.find_put, decide_False, decide_True, Memory.find_without_same by done. by repeat split.
  - intros from to a b s Hne _ _. by left.
  - intros p s m Hm. by apply Memory.find_without.
Defined.
End LossyServer.

Module LostReplies.
#[local] Existing Instance LossyServer.requests.
#[local] Existing Instance LossyServer.laws.
#[local] Existing Instance SftpSession.remote_ops.
#[local] Existing Instance SftpSpec.remote_laws.

Definition config : SftpConfig := {| sc_host := Text.str "h"; sc_root := Text.str "/b/"; sc_set_name := Text.str "s" |}.
Definition tmp : bytes := SftpSession.file_path config (Text.str "i.tmp").
Definition image : bytes := SftpSession.file_path config (Text.str "i").
Definition content : bytes := Text.str "image".

(** The first rename is done but its reply is lost. *)
Definition start : LossyServer.server :=
  {| LossyServer.sv_files := [(tmp, content)]; LossyServer.sv_session := false; LossyServer.sv_lost := [true] |}.
(** An older file is there. *)
Definition taken : LossyServer.server :=
  {| LossyServer.sv_files := [(tmp, content); (image, Text.str "old")]; LossyServer.sv_session := false; LossyServer.sv_lost := [] |}.

(** Stating is answered, and a rename that can happen does. *)
Lemma answered p r : is_ok (snd (SftpSession.size p r)) = true.
Proof.
  unfold SftpSession.size, SftpSession.run_with, SftpSession.RETRY_ATTEMPTS. cbn [SftpSession.run_from].
  unfold SftpSession.connection. cbn. destruct (LossyServer.sv_session r); cbn; unfold SftpSession.ask; cbn;
    by destruct (Memory.find_file _ p).
Qed.
Lemma synced p r : is_ok (snd (SftpSession.sync p r)) = true.
Proof.
  unfold SftpSession.sync, SftpSession.run_with, SftpSession.RETRY_ATTEMPTS. cbn [SftpSession.run_from].
  unfold SftpSession.connection. cbn. by destruct (LossyServer.sv_session r).
Qed.
Lemma moves from to b r : Memory.find_file (LossyServer.sv_files r) from = Some b ->
  Memory.find_file (LossyServer.sv_files r) to = None ->
  Memory.find_file (LossyServer.sv_files (fst (SftpSession.rename from to r))) to = Some b.
Proof.
  intros Hf Ht. unfold SftpSession.rename, SftpSession.once, SftpSession.connection, SftpSession.ask. cbn.
  destruct (LossyServer.sv_session r); unfold LossyServer.move; cbn; rewrite Hf, Ht; cbn;
    destruct (default false _); cbn; by rewrite Memory.find_put, decide_True.
Qed.

Lemma publish_new_exact_witness : is_ok (snd (Publish.publish_new_with tmp image SftpSession.retry start)) = true.
Proof.
  apply (proj2 (publish_new_exact tmp image SftpSession.retry start content ltac:(discriminate) eq_refl)).
  - exact answered.
  - exact (synced tmp).
  - intros r. apply moves.
  - reflexivity.
  - unfold SftpSession.retry, SftpSession.RETRY_ATTEMPTS. cbn [attempts]. lia.
Defined.

Example replaced_now : is_ok (snd (Publish.replace_with tmp image SftpSession.retry taken)) = true.
Proof. vm_compute. reflexivity. Qed.
Lemma aside_differs id : tmp <> Publish.aside_name image id.
Proof.
  unfold Publish.aside_name. intros He%(f_equal (fun l => head (rev l))). rewrite !rev_app_distr in He. discriminate He.
Qed.

Lemma replace_keeps_copies_witness :
  remote (fst (Publish.replace_with tmp image SftpSession.retry taken)) image = Some content.
Proof.
  pose proof (replace_keeps_copies tmp image SftpSession.retry taken content ltac:(discriminate) aside_differs eq_refl) as Hr.
  pose proof replaced_now as Hok. destruct (Publish.replace_with tmp image SftpSession.retry taken) as [s [d|e]]; [|discriminate Hok].
  apply Hr.
Defined.

Lemma sftp_publishes_witness :
  is_ok (snd (SftpSession.publish_new config (Text.str "i.tmp") (Text.str "i") taken)) = false.
Proof.
  pose proof (proj2 sftp_publishes config (Text.str "i.tmp") (Text.str "i") taken content ltac:(discriminate) eq_refl) as Hp.
  destruct (SftpSession.publish_new config (Text.str "i.tmp") (Text.str "i") taken) as [s r]. apply Hp. exists (Text.str "old"). reflexivity.
Defined.
End LostReplies.

(** ** A file of known hosts *)
Module KnownNas.
(** A code that shows its key and message. *)
#[local] Instance mac : HmacSha1 := fun key message => key ++ [Byte.x00] ++ message.

Definition host : bytes := Text.str "nas".
Definition algorithm : bytes := Text.str "ssh-ed25519".
Definition line : bytes := Text.str "!old,na* ssh-ed25519 AAAA".
Definition text : bytes := line ++ [Byte.x0a] ++ Text.str "@revoked nas ssh-ed25519 BBBB" ++ [Byte.x0a].
Definition read (path : bytes) : result bytes := Ok text.
Definition loaded : result HostKeyVerifier := KnownHosts.load (Some (Text.str "/root")) read host 22 None false.
Definition verifier : HostKeyVerifier :=
  match loaded with Ok v => v | Err _ => {| hv_entries := []; hv_host := []; hv_port := 0; hv_insecure := false |} end.

Lemma host_key_exact_witness :
  exists line e, line ∈ Text.lines text /\ KnownHosts.parse_line line = Ok (Some e) /\ en_marker e = MNone /\
    KnownHostsSpec.applies host 22 algorithm (Text.str "AAAA") e.
Proof.
  apply (proj1 (host_key_exact (Some (Text.str "/root")) read host 22 None (Text.str "/root/.ssh/known_hosts") verifier text algorithm
    (Text.str "AAAA") eq_refl (or_intror (conj eq_refl (ex_intro _ _ (conj eq_refl eq_refl)))) (or_introl eq_refl))).
  vm_compute. reflexivity.
Defined.

Lemma hashed_host_found_witness :
  KnownHosts.hashed_matches (KnownHosts.HASHED ++ KnownHosts.base64_encode (Text.str "salt") ++ [KnownHosts.PIPE] ++
    KnownHosts.base64_encode (hmac_sha1 (Text.str "salt") host)) host 22 = true.
Proof. apply (proj2 (hashed_host_found (Text.str "salt") host 22 host [])). left. Defined.
End KnownNas.

(** ** An exported file *)
Module ServedFile.
#[local] Existing Instance Backends.file_backend.

Definition config : ExportConfig := {| ec_name := Text.str "disk"; ec_description := Text.str "a file"; ec_read_only := true |}.
Definition file : bytes := Text.str "export".
Definition read (handle offset len : Z) : Request :=
  {| rq_flags := 0; rq_command := Nbd.CMD_READ; rq_handle := handle; rq_offset := offset; rq_length := len |}.
(** Inside the export and past its end. *)
Definition requests : list Request := [read 7 1 4; read 8 4 4].
(** What the client sends, and what it is owed for its requests. *)
Definition sent : bytes :=
  Nbd.be 4 1 ++ NbdSpec.encode_go (Text.str "disk") [Nbd.INFO_NAME] ++ concat (map NbdSpec.encode_request requests) ++ [].
Definition owed : bytes := NbdSpec.status_reply 0 7 ++ Text.str "xpor" ++ NbdSpec.status_reply Nbd.ERR_IO 8.

Lemma request_fits handle offset len : 0 <= handle < 2 ^ 64 -> 0 <= offset < 2 ^ 64 -> 0 <= len < 2 ^ 32 ->
  NbdSpec.request_ok (read handle offset len) /\ rq_command (read handle offset len) <> Nbd.CMD_DISC.
Proof. intros Hh Ho Hl. split; [|discriminate]. split; cbn [rq_command rq_handle rq_offset rq_length read]; try lia; [split; reflexivity||discriminate|discriminate]. Qed.

Example owed_replies : concat (map (NbdSpec.reply file) requests) = owed.
Proof. vm_compute. reflexivity. Qed.
End ServedFile.

(** ** A scheduled job *)
Module ScheduledJob.
Definition job (calendar : bytes) : JobConfig := {|
  jc_name := str "odd"; jc_source := [str "/data/My 100%$HOME"; str "/srv\"]; jc_dest := str "nas"; jc_set := str "s";
  jc_member_type := str "incremental"; jc_parent := None; jc_mode := Some (str "file"); jc_snapshot := None; jc_compress := None;
  jc_encrypt := true; jc_passphrase_file := Some (str "/k y"); jc_on_calendar := calendar; jc_randomized_delay := None;
  jc_persistent := false; jc_retention := Some {| rc_keep_chains := Some 3; rc_max_incrementals_per_chain := None; rc_new_chain_on_calendar := Some (str "weekly") |};
|}.
Definition nas : DestinationConfig :=
  {| ds_kind := str "sftp"; ds_host := Some (str "nas"); ds_user := None; ds_known_hosts := None; ds_identity := Some (str "/id"); ds_path := Some (str "/b") |}.
Definition config (calendar : bytes) : Config := {|
  cf_daemon := {| dc_socket := Schedule.default_socket; dc_log_level := Schedule.default_log_level; dc_lvm_cow_size := None |};
  cf_jobs := [job calendar]; cf_destinations := [(str "nas", nas)];
|}.
Definition cli : bytes := str "/opt/linux reflect".

Lemma accepted : Schedule.validate (config (str "daily")) = Ok tt.
Proof. vm_compute. reflexivity. Qed.

(** A calendar that ends in a backslash takes the line below it along. *)
Example continued_calendar :
  is_ok (Schedule.validate (config (str "daily\"))) = true /\
  match Schedule.render_job (config (str "daily\")) (job (str "daily\")) cli with
  | Ok u => (str "Timer", str "OnCalendar", str "daily Persistent=false") ∈ Systemd.read (ju_timer u)
  | Err _ => False
  end.
Proof. split; [vm_compute; reflexivity|]. apply (bool_decide_unpack _). vm_compute. exact I. Qed.

(** Its timer is there, and a file of another job. *)
Definition timer : bytes := str "/etc/systemd/system/linuxreflect-job@odd.timer".
Definition machine : SystemdHost :=
  {| sh_files := {[ timer := str "t"; str "/etc/systemd/system/other.timer" := str "u" ]}; sh_faults := []; sh_answers := []; sh_calls := [] |}.
Lemma removed_now : is_ok (snd (Materialize.remove (str "odd") None machine)) = true.
Proof. vm_compute. reflexivity. Qed.
Lemma materialize_exact_witness : sh_files (fst (Materialize.remove (str "odd") None machine)) !! timer = None.
Proof.
  pose proof (proj2 (materialize_exact (fun _ => Ok []) (fun _ => None) (str "c") cli None false true true machine) (str "odd")
    ltac:(constructor)) as Hr. pose proof removed_now as Hok.
  destruct (Materialize.remove (str "odd") None machine) as [h [removed|e]]; [|discriminate Hok]. destruct Hr as [Hp _]. cbn [fst]. rewrite Hp.
  rewrite bool_decide_true; [reflexivity|]. right. left.
Defined.
End ScheduledJob.
